(* ===== verification/_CoqProject ===== *)
-Q . S2P
Prelude.v
CMem.v
State.v
Dll.v
Ctype.v
MemFns.v
StrFns.v
StrSpec.v
StrCopy.v
StrMisc.v
StrProps.v
Alloc.v
AllocSpec.v
AllocMalloc.v
AllocFree.v
AllocProps.v
Double.v
Printf.v
PrintfSpec.v
PrintfProps.v
Allocator.v
Stdio.v
StdioSpec.v
StdioProps.v
StdioSession.v
StdioRead.v
Time.v
TimeProps.v
Sort.v
SortProps.v
Stdlib.v
StrtollProps.v
EnvProps.v
Exit.v
Pthread.v
PthreadProps.v
Md5.v
Md5Props.v
Scanf.v
Inet.v
InetProps.v
Fifo.v
Mlfq.v
MlfqProps.v
MlfqSystem.v
Phys.v
PhysProps.v
WordMem.v
WordLogic.v
Rbtree.v
RbtreeSpec.v
RbtreeRep.v
RbtreeInsert.v
RbtreeErase.v
RbtreeWalk.v
RbtreeProps.v
Space.v
SpaceTree.v
SpacePages.v
SpaceFault.v
SpaceOps.v
SpaceFork.v
SpacePrivate.v
SpaceWorld.v
SpaceProps.v
Paging.v
PagingProps.v
PagingFree.v
Vfs.v
VfsSpec.v
VfsWalk.v
VfsMake.v
VfsUnlink.v
VfsProc.v
VfsProps.v
Wait.v
WaitProps.v
Block.v
BlockProps.v
BlockRw.v
