(* ===== verification/Prelude.v ===== *)
(** * ChariotOS: a verification library

    ChariotOS is a unix-like operating system.  This library models its C library
    and programs of its userland (under libc/src and bin), and parts of its
    kernel, as Rocq functions and proves what they promise.

    ** The parts and how they interact

    - Memory and machine integers.  This file has the integers at their width
      (a [w]-bit value is a [Z], [u8] .. [u64] and [s8] .. [s64] wrap), CMem has
      byte memory with faults, loads and stores, loops with fuel and a
      total-correctness calculus [wp]; State has the same for record states
      ([SM], [swp]).  A theorem stated with them says that the code terminates,
      does not fault and gives the result.
    - Characters and strings: Ctype (libc/src/ctype), MemFns (string/mem.c),
      StrFns (string/string.c); StrSpec, StrCopy, StrMisc and StrProps hold the
      proofs.  The word-at-a-time loops are kept as they are written.
    - The heap: Alloc (stdlib/liballoc.c and malloc.c) with its linked majors
      and minors; AllocSpec, AllocMalloc, AllocFree and AllocProps.  Allocator is
      the interface other components are proved against; liballoc.c is an
      instance.
    - Formatted output and input: Double (IEEE doubles), Printf (stdio/printf.c)
      with PrintfSpec and PrintfProps; Scanf (stdio/scanf.c).
    - Streams: Stdio (stdio/stdio.c) over the interface Allocator and a kernel
      that answers requests from their history; StdioSpec, StdioProps,
      StdioSession and StdioRead.
    - Time: Time (time.c and the calendar of bin/core/cal.c), TimeProps.
    - stdlib.c: Sort and SortProps (qsort, bsearch), Stdlib (strtoll, the
      environment), StrtollProps, EnvProps.
    - Exit handlers: Exit (atexit.c, exit.c).  Threads: Pthread (pthread.c) under
      interleaving, PthreadProps.
    - Addresses: Inet (socket.c) on top of Printf and Scanf, InetProps.
    - md5: Md5 (bin/core/md5.c) and the function of RFC 1321, Md5Props.
    - Kernel buffers: Fifo (kernel/fs/fifo_buf.cpp), the ring behind pipes, with
      readers and writers that block, are interrupted or find it closed.
    - Kernel scheduler: Mlfq (kernel/sched/core.cpp), a set of linked run queues
      per core; MlfqProps has its invariant and each operation, MlfqSystem the
      interleavings of the cores, with work stealing, boosts and ticks.
    - Kernel pages: Phys (kernel/phys.cpp), the list of free blocks whose headers
      live in the free pages; PhysProps.  Dll has the doubly linked chains in a
      store that the linked components share.
    - Kernel red-black trees: WordMem has memory of 64-bit words, WordLogic a
      separation logic for code on it, on Iris; Rbtree (kernel/lib/rbtree.cpp and
      its headers) works on parent, left and right words with the colour in the
      low bit of the parent.  RbtreeSpec says which words a tree is, RbtreeRep,
      RbtreeInsert, RbtreeErase, RbtreeWalk and RbtreeProps have the proofs.
    - Kernel address spaces: Space (kernel/mm/space.cpp, page.cpp,
      include/chariot/mm.h), areas in a red-black tree of Rbtree, pages of Phys
      with counts of users, and the page table as the map its interface stands
      for; what a file gives for a page is a parameter with the promise
      [Vmobject].  SpaceTree has the regions, SpacePages the counts, SpaceFault
      and SpaceOps the operations on one space, SpaceFork fork, SpacePrivate who
      may write a page, SpaceWorld all spaces together and SpaceProps the results.
    - x86 page tables: Paging (arch/x86/paging.cpp and the pagetable class of
      arch/x86/mm.cpp), four levels of tables in words of pages that Phys hands
      out; PagingProps has the tree they form, PagingFree its end.
    - Kernel file system: Vfs (kernel/fs/fs.cpp, vfs.cpp, getcwd.cpp, the path
      system calls and the directories of fs/tmpfs), inodes with reference counts
      and linked entries in a store.  VfsSpec has paths, the abstract tree
      and the invariant, VfsWalk lookup, VfsMake and VfsUnlink the changes, VfsProc
      the directories of the process, VfsProps the results.
    - Kernel wait queues: Wait (kernel/wait.cpp, include/chariot/list_head.h), rings
      of entries on the stacks of threads, with the steps of threads, wakers and
      interrupts; WaitProps has the rings, the invariant and the results.
    - Kernel block cache: Block (kernel/block.cpp) over the interface of a block
      driver, with the flush task; BlockProps has the promise [Blockdev] of a
      driver, an instance and the invariant, BlockRw sequences of calls.

    ** What the theorems show

    - The allocator: every program that only touches its own blocks keeps the
      heap well formed, its blocks stay apart and keep their bytes; malloc, free,
      calloc and realloc do what ISO C says wherever they do not run out of
      memory.
    - The string functions equal reference definitions on lists, for every
      alignment, and touch no byte they should not.
    - printf output is bounded by its buffer; the engine returns on every complete
      format of integers, characters, strings and pointers and takes exactly its
      arguments (a format that ends inside a directive makes the code step over
      its end, and the conversions of doubles are modelled without such a result);
      what it prints is read back by atoi, by sscanf and by the address functions.
    - Streams refine byte sequences: each holds its own bytes in order, exit
      hands them to the kernel, the list of open files stays well formed.
    - The environment refines a finite map; qsort sorts stably in place; strtoll
      reads every number with its saturation; the exit handlers run in order;
      the mutexes exclude each other and every thread makes progress; md5 is MD5;
      dates agree with the Gregorian calendar.
    - A fifo refines a bounded queue whatever the interleaving of its callers,
      and the value each call returns is given, errors included.  In every interleaving
      of the cores a thread is in one run queue at most, the queues stay linked,
      no thread runs on two cores, and the thread picked is one of best priority,
      as long as no thread is destroyed that a core has in its hands (the run lock
      that the code takes does not ensure it; MlfqSystem shows the fault).
      The page allocator conserves pages: free blocks and pages handed out
      partition the memory; allocation is first fit and gives zeroed pages, and
      fails exactly when no free block is large enough.
    - The red-black trees keep their order and colour rules under insertion and
      removal, write no word outside the tree, and are read in order.  Address
      spaces find the region of an address, map and fork as their callers expect,
      count the users of every page exactly, and are isolated: what can be
      written privately in one is visible in no other.  This holds under every
      sequence of operations on anonymous memory in which mappings do not overlap,
      regions are unmapped at their start, and no read fault is handled after
      another thread mapped the page and a fork shared it; SpaceProps shows what
      the code does otherwise.
    - A page table refines a map from user pages to page numbers and rights, and
      gives back every page it took.  The file system refines a map from absolute
      paths to files and directories, errors and panics included; getcwd and chdir
      are inverse, and no path leads out of the root of a process.  Through the
      block cache a device whose transfers succeed is an array of bytes, as long as
      the channel of the flush task is never full, and sync_all makes it so.
    - In every interleaving of threads that wait, wake and are interrupted the wait
      queues reach no entry whose stack frame is gone and lose no wake-up; waking
      takes the threads at the front of a queue and no others.

    ** Bounds and fuel

    Loops over mapped memory take as much fuel as there are mapped addresses and
    one ([scan]), loops over a list or a counter its length and one; the theorems
    prove that this is enough.  Where a loop can run for ever by its nature (exit
    handlers that register others), fuel is an argument and the theorem gives
    how much is needed.  Walks of a linked chain take the size of its store and
    one or two, loops over trees the number of words in memory and one; the
    search for work to steal takes its three rounds, pointer validation the
    number of pages and two, path lookups the length of the path and one, getcwd
    its 50 directories and one, reads through the block cache the pages they span,
    the loop over a wait queue the number of list heads and one.  Sizes of requests
    are bounded where the code truncates them to 32 bits, which is stated in the
    theorem.

    ** Code outside the model

    Of the C library, system calls and the answers of the kernel are parameters; so are
    callbacks (comparison functions, exit handlers).  Not modelled: of the
    kernel, condition variables, semaphores and timers, the destructors of address
    spaces, the page tables of the other processors and the memory map of the boot
    loader, processes and their open files, the delivery of signals, printk and its
    heap, device drivers, the file systems on disks and the network stack; mounting
    below the root is modelled but not part of the refinement.  Nor are the C++ user interface and graphics
    libraries, third-party code in the tree (js, miniz, wren, doom, lwip, freetype,
    regex, the maths library, kilo), and the programs that only do input and
    output.  Of the C library: strtod, strstr, dirent, pwd, signal and the system
    call wrappers. *)

From stdpp Require Export base gmap list numbers.
From Stdlib Require Export ZArith Lia.
From Stdlib Require Ascii String.

Open Scope Z_scope.

(** ** Machine integers

    The target is the x86-64 build: [char] is signed, [int] has 32 bits,
    [long], [size_t] and pointers have 64, and memory is little endian.  An
    unsigned value is a [Z] in [0, 2^w); a cast or an unsigned operation wraps
    with [u8] .. [u64].  A signed value is a [Z] in [-2^(w-1), 2^(w-1)) and
    wraps with [s8] .. [s64], the behaviour of the machine instruction. *)

Definition uwrap (w x : Z) : Z := x mod 2 ^ w.
Definition swrap (w x : Z) : Z := (x + 2 ^ (w - 1)) mod 2 ^ w - 2 ^ (w - 1).

Definition u8 (x : Z) : Z := x mod 256.
Definition u16 (x : Z) : Z := x mod 65536.
Definition u32 (x : Z) : Z := x mod 4294967296.
Definition u64 (x : Z) : Z := x mod 18446744073709551616.
Definition s8 (x : Z) : Z := (x + 128) mod 256 - 128.
Definition s16 (x : Z) : Z := (x + 32768) mod 65536 - 32768.
Definition s32 (x : Z) : Z := (x + 2147483648) mod 4294967296 - 2147483648.
Definition s64 (x : Z) : Z :=
  (x + 9223372036854775808) mod 18446744073709551616 - 9223372036854775808.

(** C's truth value of a test used as an [int]. *)
Definition b2z (b : bool) : Z := if b then 1 else 0.

(** Characters and strings of the source as bytes. *)
Definition ch (a : Ascii.ascii) : Z := Z.of_N (Ascii.N_of_ascii a).
Fixpoint str (s : String.string) : list Z :=
  match s with
  | String.EmptyString => []
  | String.String a s' => ch a :: str s'
  end.
Arguments ch a%_char_scope.
Arguments str s%_string_scope.

(** ** Automation *)

Create HintDb chariot.
Create Rewrite HintDb ints.

(** Booleans of [Z] tests to propositions, in the goal and the context. *)
Ltac zbool :=
  repeat match goal with
  | H : (_ =? _) = true |- _ => apply Z.eqb_eq in H
  | H : (_ =? _) = false |- _ => apply Z.eqb_neq in H
  | H : (_ <? _) = true |- _ => apply Z.ltb_lt in H
  | H : (_ <? _) = false |- _ => apply Z.ltb_ge in H
  | H : (_ <=? _) = true |- _ => apply Z.leb_le in H
  | H : (_ <=? _) = false |- _ => apply Z.leb_gt in H
  | H : (_ && _) = true |- _ => apply andb_true_iff in H as [? ?]
  | H : (_ || _) = false |- _ => apply orb_false_iff in H as [? ?]
  | H : negb _ = true |- _ => apply negb_true_iff in H
  | H : negb _ = false |- _ => apply negb_false_iff in H
  end.

(** Case on the first [if] of the goal, keeping the test as a proposition. *)
Ltac zif :=
  match goal with
  | |- context [if ?b then _ else _] =>
      let E := fresh "E" in destruct b eqn:E; zbool
  end.

Ltac unfold_int := unfold u8, u16, u32, u64, s8, s16, s32, s64 in *.

(** Linear arithmetic with the wrap-around functions and [/], [mod] by
    constants opened. *)
Ltac zlia := unfold_int; Z.div_mod_to_equations; lia.

(** ** Integers *)

Lemma u8_small x : 0 <= x < 256 -> u8 x = x.
Proof. apply Z.mod_small. Qed.
Lemma u16_small x : 0 <= x < 65536 -> u16 x = x.
Proof. apply Z.mod_small. Qed.
Lemma u32_small x : 0 <= x < 4294967296 -> u32 x = x.
Proof. apply Z.mod_small. Qed.
Lemma u64_small x : 0 <= x < 18446744073709551616 -> u64 x = x.
Proof. apply Z.mod_small. Qed.
Lemma s32_small x : -2147483648 <= x < 2147483648 -> s32 x = x.
Proof. intros. unfold s32. rewrite Z.mod_small; lia. Qed.
Lemma s64_small x : -9223372036854775808 <= x < 9223372036854775808 -> s64 x = x.
Proof. intros. unfold s64. rewrite Z.mod_small; lia. Qed.
Lemma s8_small x : -128 <= x < 128 -> s8 x = x.
Proof. intros. unfold s8. rewrite Z.mod_small; lia. Qed.

Lemma u8_range x : 0 <= u8 x < 256.
Proof. apply Z.mod_pos_bound; lia. Qed.
Lemma u32_range x : 0 <= u32 x < 4294967296.
Proof. apply Z.mod_pos_bound; lia. Qed.
Lemma u64_range x : 0 <= u64 x < 18446744073709551616.
Proof. apply Z.mod_pos_bound; lia. Qed.
Lemma s32_range x : -2147483648 <= s32 x < 2147483648.
Proof. unfold s32. pose proof (Z.mod_pos_bound (x + 2147483648) 4294967296). lia. Qed.

#[export] Hint Rewrite u8_small u16_small u32_small u64_small s32_small s64_small s8_small
  using lia : ints.

(** A byte read as [char] is zero exactly when the byte is, and two bytes are
    the same [char] exactly when they are the same byte. *)
Lemma s8_eq0 b : 0 <= b < 256 -> (s8 b =? 0) = (b =? 0).
Proof. intros. destruct (b =? 0) eqn:E; zbool; [subst; reflexivity|]. apply Z.eqb_neq. zlia. Qed.

Lemma s8_inj a b : 0 <= a < 256 -> 0 <= b < 256 -> s8 a = s8 b -> a = b.
Proof. intros. zlia. Qed.

Lemma s8_eqb a b : 0 <= a < 256 -> 0 <= b < 256 -> (s8 a =? s8 b) = (a =? b).
Proof.
  intros. destruct (a =? b) eqn:E; zbool; [subst; apply Z.eqb_refl|].
  apply Z.eqb_neq. intros ?%s8_inj; auto.
Qed.

Lemma u8_s8 b : 0 <= b < 256 -> u8 (s8 b) = b.
Proof. intros. zlia. Qed.

(** ** Lists *)

Lemma lookup_nat_Z {A} (l : list A) (i : Z) :
  0 <= i < Z.of_nat (length l) -> exists x, l !! Z.to_nat i = Some x.
Proof. intros. apply lookup_lt_is_Some. lia. Qed.

(** Induction on the length bound of a decreasing natural measure. *)
Lemma nat_measure_ind {A} (mu : A -> nat) (P : A -> Prop) :
  (forall x, (forall y, (mu y < mu x)%nat -> P y) -> P x) -> forall x, P x.
Proof.
  intros H x. remember (mu x) as n eqn:E. revert x E.
  induction n as [n IH] using lt_wf_ind. intros x ->. apply H. intros y Hy. eapply IH; eauto.
Qed.
