(* ===== verification/CMem.v ===== *)
(** * The C memory and the monad the pointer code runs in

    A memory is a finite map from addresses to bytes.  An address that is not
    in the map is not mapped: reading or writing it is a [Fault].  C code over
    this memory is a function of the memory that returns a value and the new
    memory, faults, or runs out of loop fuel.  The second half of the file is a
    total-correctness calculus ([wp]) for such code, so a theorem proved with
    it says that the code terminates, does not fault and gives the result. *)

From S2P Require Import Prelude.

Abbreviation mem := (gmap Z Z).

Inductive res (A : Type) : Type :=
| Ok (a : A) (m : mem)
| Fault
| NoFuel.
Arguments Ok {A} a m.
Arguments Fault {A}.
Arguments NoFuel {A}.

Definition M (A : Type) : Type := mem -> res A.

#[export] Instance M_ret : MRet M := fun A a m => Ok a m.
#[export] Instance M_bind : MBind M := fun A B f c m =>
  match c m with
  | Ok a m' => f a m'
  | Fault => Fault
  | NoFuel => NoFuel
  end.

Definition fault {A} : M A := fun _ => Fault.
Definition assert_ (b : bool) : M unit := if b then mret tt else fault.

(** ** Loads and stores *)

Definition load8 (p : Z) : M Z := fun m =>
  match m !! p with Some b => Ok b m | None => Fault end.

Definition store8 (p v : Z) : M unit := fun m =>
  match m !! p with Some _ => Ok tt (<[p := u8 v]> m) | None => Fault end.

(** The little-endian value of a list of bytes and the bytes of a value. *)
Fixpoint le_val (bs : list Z) : Z :=
  match bs with
  | [] => 0
  | b :: bs' => b + 256 * le_val bs'
  end.

Fixpoint le_bytes (n : nat) (v : Z) : list Z :=
  match n with
  | O => []
  | S n' => v mod 256 :: le_bytes n' (v / 256)
  end.

Fixpoint load_bytes (n : nat) (p : Z) : M (list Z) :=
  match n with
  | O => mret []
  | S n' => b ← load8 p; bs ← load_bytes n' (p + 1); mret (b :: bs)
  end.

Fixpoint store_bytes (p : Z) (bs : list Z) : M unit :=
  match bs with
  | [] => mret tt
  | b :: bs' => store8 p b;; store_bytes (p + 1) bs'
  end.

Definition load_n (n : nat) (p : Z) : M Z := bs ← load_bytes n p; mret (le_val bs).
Definition store_n (n : nat) (p v : Z) : M unit := store_bytes p (le_bytes n v).

Abbreviation load32 := (load_n 4).
Abbreviation store32 := (store_n 4).
Abbreviation load64 := (load_n 8).
Abbreviation store64 := (store_n 8).

(** ** Loops

    The body of a loop maps the loop's variables to the variables of the next
    round or to the value the loop leaves with.  [loop] takes explicit fuel.
    [scan] is a loop that reads a mapped address it has not read before in
    every round that continues, so one round more than there are mapped
    addresses is enough. *)

Inductive ctl (S R : Type) : Type :=
| Next (s : S)
| Break (r : R).
Arguments Next {S R} s.
Arguments Break {S R} r.

(** What a statement with a [return] inside does: fall through with the
    variables that live on, or return. *)
Inductive flow (S R : Type) : Type :=
| Fall (s : S)
| Return (r : R).
Arguments Fall {S R} s.
Arguments Return {S R} r.

Fixpoint loop {S R} (fuel : nat) (body : S -> M (ctl S R)) (s : S) : M R :=
  match fuel with
  | O => fun _ => NoFuel
  | Datatypes.S fuel' =>
      x ← body s;
      match x with
      | Next s' => loop fuel' body s'
      | Break r => mret r
      end
  end.

Definition scan {S R} (body : S -> M (ctl S R)) (s : S) : M R := fun m =>
  loop (Datatypes.S (size m)) body s m.

(** ** What a memory holds *)

Definition bytes_at (m : mem) (p : Z) (bs : list Z) : Prop :=
  forall (i : nat) (b : Z), bs !! i = Some b -> m !! (p + Z.of_nat i) = Some b.

Definition mapped (m : mem) (p n : Z) : Prop :=
  forall a, p <= a < p + n -> is_Some (m !! a).

(** A byte list as a C string holds it: no zero byte. *)
Definition is_byte (b : Z) : Prop := 0 <= b < 256.
Definition is_char (b : Z) : Prop := 0 < b < 256.

Definition cstr (m : mem) (p : Z) (s : list Z) : Prop :=
  Forall is_char s /\ bytes_at m p (s ++ [0]).

(** Every cell holds a byte. *)
Definition mem_ok (m : mem) : Prop := map_Forall (fun _ b => is_byte b) m.

(** The memory is mapped in whole aligned words of 8 bytes (the hardware maps
    pages of 4096). *)
Definition wordwise (m : mem) : Prop :=
  forall a b, a / 8 = b / 8 -> is_Some (m !! a) -> is_Some (m !! b).

(** The memory with the bytes [bs] written at [p]. *)
Fixpoint write (m : mem) (p : Z) (bs : list Z) : mem :=
  match bs with
  | [] => m
  | b :: bs' => write (<[p := b]> m) (p + 1) bs'
  end.

(** ** Lemmas on lists of bytes *)

Lemma length_le_bytes n v : length (le_bytes n v) = n.
Proof. revert v; induction n; simpl; auto. Qed.

Lemma le_bytes_bytes n v : Forall is_byte (le_bytes n v).
Proof.
  revert v; induction n; intros; constructor; auto.
  apply Z.mod_pos_bound; lia.
Qed.

Lemma le_val_bytes n v : le_val (le_bytes n v) = v mod 256 ^ Z.of_nat n.
Proof.
  revert v; induction n; intros; [simpl; now rewrite Z.mod_1_r|].
  cbn [le_val le_bytes]. rewrite IHn, Nat2Z.inj_succ, Z.pow_succ_r by lia.
  rewrite Z.rem_mul_r by lia. lia.
Qed.

Lemma le_bytes_val bs : Forall is_byte bs -> le_bytes (length bs) (le_val bs) = bs.
Proof.
  induction 1 as [|b bs Hb _ IH]; [reflexivity|]. cbn [length le_bytes le_val].
  f_equal.
  - rewrite Z.mul_comm, Z_mod_plus_full. apply Z.mod_small, Hb.
  - rewrite Z.mul_comm, Z.div_add by lia. rewrite Z.div_small by exact Hb. exact IH.
Qed.

Lemma le_val_range bs : Forall is_byte bs -> 0 <= le_val bs < 256 ^ Z.of_nat (length bs).
Proof.
  induction 1 as [|b bs Hb _ IH]; [simpl; lia|]. cbn [length le_val].
  rewrite Nat2Z.inj_succ, Z.pow_succ_r by lia. unfold is_byte in Hb. lia.
Qed.

(** ** Lemmas on memories *)

Lemma lookup_write m p bs a :
  write m p bs !! a =
  if decide (p <= a < p + Z.of_nat (length bs)) then bs !! Z.to_nat (a - p) else m !! a.
Proof.
  revert m p. induction bs as [|b bs IH]; intros m p.
  - simpl. case_decide; [lia|reflexivity].
  - cbn [write]. rewrite IH. cbn [length]. destruct (decide (a = p)) as [->|Hne].
    + rewrite !decide_False by lia. rewrite decide_True by lia.
      rewrite Z.sub_diag. apply lookup_insert_eq.
    + destruct (decide (p + 1 <= a < p + 1 + Z.of_nat (length bs))).
      * rewrite decide_True by lia.
        replace (Z.to_nat (a - p)) with (S (Z.to_nat (a - (p + 1)))) by lia. reflexivity.
      * rewrite decide_False by lia. now rewrite lookup_insert_ne by lia.
Qed.

Lemma write_lookup_out m p bs a :
  ~ (p <= a < p + Z.of_nat (length bs)) -> write m p bs !! a = m !! a.
Proof. intros. rewrite lookup_write. now case_decide. Qed.

Lemma write_app m p bs1 bs2 :
  write m p (bs1 ++ bs2) = write (write m p bs1) (p + Z.of_nat (length bs1)) bs2.
Proof.
  revert m p. induction bs1 as [|b bs IH]; intros; cbn [write app length].
  - f_equal; lia.
  - rewrite IH. f_equal. lia.
Qed.

Lemma bytes_at_app m p bs1 bs2 :
  bytes_at m p (bs1 ++ bs2) <->
  bytes_at m p bs1 /\ bytes_at m (p + Z.of_nat (length bs1)) bs2.
Proof.
  unfold bytes_at. split.
  - intros H. split; intros i b Hi.
    + apply H. now rewrite lookup_app_l by (eapply lookup_lt_Some; eauto).
    + specialize (H (length bs1 + i)%nat b). rewrite lookup_app_r in H by lia.
      replace (length bs1 + i - length bs1)%nat with i in H by lia.
      rewrite <- (H Hi). f_equal. lia.
  - intros [H1 H2] i b Hi. destruct (decide (i < length bs1)%nat).
    + rewrite lookup_app_l in Hi by lia. auto.
    + rewrite lookup_app_r in Hi by lia. rewrite <- (H2 _ _ Hi). f_equal. lia.
Qed.

Lemma bytes_at_cons m p b bs :
  bytes_at m p (b :: bs) <-> m !! p = Some b /\ bytes_at m (p + 1) bs.
Proof.
  change (b :: bs) with ([b] ++ bs). rewrite bytes_at_app.
  change (Z.of_nat (length [b])) with 1.
  split; intros [H1 H2]; split; auto.
  - specialize (H1 0%nat b eq_refl). now rewrite Z.add_0_r in H1.
  - intros i c Hi. destruct i; [|destruct i; discriminate]. injection Hi as <-.
    now rewrite Z.add_0_r.
Qed.

Lemma bytes_at_nil m p : bytes_at m p [].
Proof. intros i b H. discriminate. Qed.

Lemma bytes_at_lookup m p bs i :
  bytes_at m p bs -> 0 <= i < Z.of_nat (length bs) -> m !! (p + i) = bs !! Z.to_nat i.
Proof.
  intros H Hi. destruct (lookup_nat_Z bs i Hi) as [b Hb]. rewrite Hb.
  rewrite <- (H _ _ Hb). f_equal. lia.
Qed.

Lemma bytes_at_write m p bs : bytes_at (write m p bs) p bs.
Proof.
  intros i b Hi. rewrite lookup_write.
  assert (i < length bs)%nat by (eapply lookup_lt_Some; eauto).
  rewrite decide_True by lia. now replace (Z.to_nat (p + Z.of_nat i - p)) with i by lia.
Qed.

Lemma bytes_at_write_disjoint m p bs q cs :
  bytes_at m q cs ->
  q + Z.of_nat (length cs) <= p \/ p + Z.of_nat (length bs) <= q ->
  bytes_at (write m p bs) q cs.
Proof.
  intros H Hd i b Hi. assert (i < length cs)%nat by (eapply lookup_lt_Some; eauto).
  rewrite write_lookup_out by lia. auto.
Qed.

Lemma write_bytes_at m p bs : bytes_at m p bs -> write m p bs = m.
Proof.
  intros H. apply map_eq; intros a. rewrite lookup_write. case_decide; [|reflexivity].
  rewrite <- (bytes_at_lookup m p bs (a - p)) by (auto; lia). f_equal; lia.
Qed.

Lemma bytes_at_mapped m p bs : bytes_at m p bs -> mapped m p (Z.of_nat (length bs)).
Proof.
  intros H a Ha. destruct (lookup_nat_Z bs (a - p)) as [b Hb]; [lia|].
  exists b. rewrite <- (H _ _ Hb). f_equal; lia.
Qed.

Lemma mapped_sub m p n q k : mapped m p n -> p <= q -> q + k <= p + n -> mapped m q k.
Proof. intros H ?? a ?. apply H. lia. Qed.

Lemma mapped_write m p bs q n : mapped m q n -> mapped (write m p bs) q n.
Proof.
  intros H a Ha. rewrite lookup_write. case_decide; [|auto].
  apply lookup_lt_is_Some. lia.
Qed.

Lemma dom_write m p bs : mapped m p (Z.of_nat (length bs)) -> dom (write m p bs) = dom m.
Proof.
  intros H. apply set_eq; intros a. rewrite !elem_of_dom, lookup_write.
  case_decide; [|reflexivity]. split; intros _; [auto|apply lookup_lt_is_Some; lia].
Qed.

Lemma size_write m p bs : mapped m p (Z.of_nat (length bs)) -> size (write m p bs) = size m.
Proof. intros. rewrite <- !size_dom. now rewrite dom_write. Qed.

Lemma wordwise_write m p bs :
  mapped m p (Z.of_nat (length bs)) -> wordwise m -> wordwise (write m p bs).
Proof.
  intros Hm Hw a b Hab. rewrite <- !elem_of_dom, dom_write by auto.
  rewrite !elem_of_dom. eauto.
Qed.

Lemma mem_ok_write m p bs : mem_ok m -> Forall is_byte bs -> mem_ok (write m p bs).
Proof.
  intros Hm Hbs a b. rewrite lookup_write. case_decide; [|apply Hm].
  intros H1. rewrite Forall_forall in Hbs. apply Hbs, list_elem_of_In.
  eapply list_elem_of_lookup_2; eauto.
Qed.

(** Pigeonhole: a mapped range is no longer than the memory is big.  This is
    what makes the fuel of [scan] enough. *)
Lemma mapped_size m p n : mapped m p n -> (Z.to_nat n <= size m)%nat.
Proof.
  intros H. rewrite <- size_dom.
  assert (Hs : NoDup ((fun i => p + Z.of_nat i) <$> seq 0 (Z.to_nat n))).
  { apply NoDup_fmap_2; [intros ???; lia|apply NoDup_seq]. }
  assert (Hl : size (list_to_set ((fun i => p + Z.of_nat i) <$> seq 0 (Z.to_nat n)) : gset Z)
               = Z.to_nat n).
  { rewrite size_list_to_set by exact Hs. now rewrite length_fmap, length_seq. }
  rewrite <- Hl. apply subseteq_size. intros a.
  rewrite elem_of_list_to_set, list_elem_of_fmap, elem_of_dom.
  intros (i & -> & Hi). apply elem_of_seq in Hi. apply H. lia.
Qed.

(** ** C strings *)

Lemma cstr_chars m p s : cstr m p s -> Forall is_char s.
Proof. now intros [? _]. Qed.

Lemma cstr_tail m p c s : cstr m p (c :: s) -> cstr m (p + 1) s.
Proof.
  intros [Hc Hb]. cbn [app] in Hb. apply bytes_at_cons in Hb as [_ Hb].
  split; [now inversion Hc|exact Hb].
Qed.

Lemma cstr_drop m p s k :
  cstr m p s -> (k <= length s)%nat -> cstr m (p + Z.of_nat k) (drop k s).
Proof.
  revert p s. induction k as [|k IH]; intros p s H Hk.
  - rewrite Z.add_0_r. exact H.
  - destruct s as [|c s]; [simpl in Hk; lia|]. cbn [drop].
    replace (p + Z.of_nat (S k)) with (p + 1 + Z.of_nat k) by lia.
    apply IH; [eapply cstr_tail; eauto|simpl in Hk; lia].
Qed.

(** The byte at offset [i] of a string, its terminator included. *)
Definition chr (s : list Z) (i : Z) : Z := default 0 (s !! Z.to_nat i).

Lemma cstr_lookup m p s i :
  cstr m p s -> 0 <= i <= Z.of_nat (length s) -> m !! (p + i) = Some (chr s i).
Proof.
  intros [_ H] Hi. rewrite (bytes_at_lookup _ _ _ _ H) by (rewrite length_app; simpl; lia).
  unfold chr. destruct (decide (i < Z.of_nat (length s))).
  - rewrite lookup_app_l by lia. destruct (lookup_nat_Z s i) as [b ->]; [lia|reflexivity].
  - replace (Z.to_nat i) with (length s) by lia.
    rewrite lookup_app_r by lia. rewrite Nat.sub_diag, (lookup_ge_None_2 s) by lia. reflexivity.
Qed.

Lemma cstr_mapped m p s : cstr m p s -> mapped m p (Z.of_nat (length s) + 1).
Proof.
  intros [_ H]. apply bytes_at_mapped in H. rewrite length_app in H. simpl in H.
  now rewrite Nat2Z.inj_add in H.
Qed.

Lemma cstr_size m p s : cstr m p s -> (length s < size m)%nat.
Proof. intros H%cstr_mapped%mapped_size. lia. Qed.

Lemma chr_range s i : Forall is_char s -> is_byte (chr s i).
Proof.
  intros H. unfold chr. destruct (s !! Z.to_nat i) as [b|] eqn:E; simpl; [|split; lia].
  eapply Forall_lookup_1 in H; eauto. unfold is_char, is_byte in *. lia.
Qed.

Lemma chr_zero s i :
  Forall is_char s -> 0 <= i <= Z.of_nat (length s) -> chr s i = 0 <-> i = Z.of_nat (length s).
Proof.
  intros H Hi. unfold chr. destruct (s !! Z.to_nat i) as [b|] eqn:E; simpl.
  - assert (Z.to_nat i < length s)%nat by (eapply lookup_lt_Some; eauto).
    eapply Forall_lookup_1 in H; eauto. unfold is_char in H. lia.
  - apply lookup_ge_None in E. lia.
Qed.

Lemma chr_nonzero s i :
  Forall is_char s -> 0 <= i < Z.of_nat (length s) -> chr s i <> 0.
Proof. intros H Hi E. apply chr_zero in E; auto; lia. Qed.

Lemma chr_app_l s t i : 0 <= i < Z.of_nat (length s) -> chr (s ++ t) i = chr s i.
Proof. intros. unfold chr. now rewrite lookup_app_l by lia. Qed.

Lemma chr_0 c s : chr (c :: s) 0 = c.
Proof. reflexivity. Qed.

Lemma chr_cons c s i : 0 < i -> chr (c :: s) i = chr s (i - 1).
Proof.
  intros. unfold chr. replace (Z.to_nat i) with (S (Z.to_nat (i - 1))) by lia. reflexivity.
Qed.

Lemma chr_lookup s i :
  0 <= i < Z.of_nat (length s) -> s !! Z.to_nat i = Some (chr s i).
Proof. intros H. unfold chr. destruct (lookup_nat_Z s i H) as [b ->]. reflexivity. Qed.

Lemma chr_drop s k i : 0 <= k -> 0 <= i -> chr (drop (Z.to_nat k) s) i = chr s (k + i).
Proof. intros. unfold chr. rewrite lookup_drop. do 2 f_equal. lia. Qed.

Lemma cstr_write_disjoint m p bs q s :
  cstr m q s ->
  q + Z.of_nat (length s) + 1 <= p \/ p + Z.of_nat (length bs) <= q ->
  cstr (write m p bs) q s.
Proof.
  intros [Hc H] Hd. split; [exact Hc|]. apply bytes_at_write_disjoint; [exact H|].
  rewrite length_app. simpl. lia.
Qed.

Lemma cstr_write m p s : Forall is_char s -> cstr (write m p (s ++ [0])) p s.
Proof. intros H. split; [exact H|apply bytes_at_write]. Qed.

(** The string at an address is unique. *)
Lemma cstr_head m p s : cstr m p s -> m !! p = Some (chr s 0).
Proof. intros H. rewrite <- (cstr_lookup m p s 0 H) by lia. f_equal. lia. Qed.

Lemma cstr_inj m p s t : cstr m p s -> cstr m p t -> s = t.
Proof.
  revert p t. induction s as [|c s IH]; intros p t Hs Ht.
  - pose proof (cstr_head _ _ _ Hs) as E1. rewrite (cstr_head _ _ _ Ht) in E1.
    destruct t as [|d t]; [reflexivity|]. apply cstr_chars in Ht. inversion Ht.
    unfold is_char, chr in *. simpl in E1. injection E1. lia.
  - pose proof (cstr_head _ _ _ Hs) as E1. rewrite (cstr_head _ _ _ Ht) in E1.
    destruct t as [|d t].
    + apply cstr_chars in Hs. inversion Hs. unfold is_char, chr in *. simpl in E1.
      injection E1. lia.
    + injection E1 as E1. unfold chr in E1. simpl in E1. subst d.
      f_equal. eapply IH; eauto using cstr_tail.
Qed.

(** ** Weakest preconditions *)

Definition wp {A} (c : M A) (Q : A -> mem -> Prop) (m : mem) : Prop :=
  match c m with
  | Ok a m' => Q a m'
  | Fault | NoFuel => False
  end.

Lemma wp_ok {A} (c : M A) Q m : wp c Q m <-> exists a m', c m = Ok a m' /\ Q a m'.
Proof.
  unfold wp. destruct (c m); split; try tauto.
  - eauto.
  - intros (? & ? & E & ?). now injection E as -> ->.
  - intros (? & ? & E & ?). discriminate.
  - intros (? & ? & E & ?). discriminate.
Qed.

(** A triple with an exact postcondition is an equation. *)
Lemma wp_eq {A} (c : M A) a m' m : wp c (fun x y => x = a /\ y = m') m <-> c m = Ok a m'.
Proof.
  unfold wp. destruct (c m); split; try tauto; try discriminate.
  - now intros [-> ->].
  - intros E. now injection E.
Qed.

Lemma wp_mono {A} (c : M A) (P Q : A -> mem -> Prop) m :
  wp c P m -> (forall a m', P a m' -> Q a m') -> wp c Q m.
Proof. unfold wp. destruct (c m); eauto. Qed.

Lemma wp_run {A} (c : M A) Q m a m' : c m = Ok a m' -> Q a m' -> wp c Q m.
Proof. unfold wp. now intros ->. Qed.

Lemma wp_ret {A} (a : A) Q m : Q a m -> wp (mret a) Q m.
Proof. exact id. Qed.

Lemma wp_bind {A B} (c : M A) (f : A -> M B) Q m :
  wp c (fun a m' => wp (f a) Q m') m -> wp (c ≫= f) Q m.
Proof. unfold wp, mbind, M_bind. destruct (c m); auto. Qed.

Lemma wp_load8 p b Q m : m !! p = Some b -> Q b m -> wp (load8 p) Q m.
Proof. unfold wp, load8. now intros ->. Qed.

Lemma wp_store8 p v Q m :
  is_Some (m !! p) -> Q tt (<[p := u8 v]> m) -> wp (store8 p v) Q m.
Proof. unfold wp, store8. now intros [b ->]. Qed.

Lemma wp_load_bytes n p bs Q m :
  bytes_at m p bs -> length bs = n -> Q bs m -> wp (load_bytes n p) Q m.
Proof.
  revert p bs Q. induction n as [|n IH]; intros p bs Q H Hl HQ.
  - destruct bs; [exact HQ|discriminate].
  - destruct bs as [|b bs]; [discriminate|]. apply bytes_at_cons in H as [H1 H2].
    cbn [load_bytes]. apply wp_bind, wp_load8 with b; [exact H1|].
    apply wp_bind. eapply IH; [exact H2|simpl in Hl; lia|]. apply wp_ret, HQ.
Qed.

Lemma wp_load_n n p bs Q m :
  bytes_at m p bs -> length bs = n -> Q (le_val bs) m -> wp (load_n n p) Q m.
Proof. intros. unfold load_n. eapply wp_bind, wp_load_bytes; eauto. Qed.

Lemma wp_store_bytes p bs Q m :
  mapped m p (Z.of_nat (length bs)) -> Forall is_byte bs ->
  Q tt (write m p bs) -> wp (store_bytes p bs) Q m.
Proof.
  revert p m. induction bs as [|b bs IH]; intros p m H Hb HQ; [exact HQ|].
  cbn [store_bytes]. inversion Hb; subst. apply wp_bind, wp_store8.
  - apply H. simpl. lia.
  - apply IH; [|assumption|].
    + intros a Ha. destruct (decide (a = p)) as [->|].
      * rewrite lookup_insert_eq. eauto.
      * rewrite lookup_insert_ne by lia. apply H. simpl. lia.
    + rewrite u8_small by assumption. exact HQ.
Qed.

Lemma wp_store_n n p v Q m :
  mapped m p (Z.of_nat n) -> Q tt (write m p (le_bytes n v)) -> wp (store_n n p v) Q m.
Proof.
  intros. unfold store_n. apply wp_store_bytes; [now rewrite length_le_bytes| |assumption].
  apply le_bytes_bytes.
Qed.

(** The loop rule: an invariant and a measure below the fuel that every round
    decreases. *)
Lemma wp_loop {S R} (body : S -> M (ctl S R)) (I : S -> mem -> Prop) (mu : S -> nat) Q :
  (forall s m, I s m ->
     wp (body s) (fun x m' => match x with
                              | Next s' => I s' m' /\ (mu s' < mu s)%nat
                              | Break r => Q r m'
                              end) m) ->
  forall fuel s m, I s m -> (mu s < fuel)%nat -> wp (loop fuel body s) Q m.
Proof.
  intros Hb fuel. induction fuel as [|fuel IH]; intros s m HI Hf; [lia|].
  cbn [loop]. apply wp_bind. eapply wp_mono; [apply Hb, HI|].
  intros [s'|r] m'; [|auto]. intros [HI' Hmu]. apply IH; [exact HI'|lia].
Qed.

Lemma wp_scan {S R} (body : S -> M (ctl S R)) (I : S -> mem -> Prop) (mu : S -> nat) Q s m :
  I s m -> (mu s <= size m)%nat ->
  (forall s m, I s m ->
     wp (body s) (fun x m' => match x with
                              | Next s' => I s' m' /\ (mu s' < mu s)%nat
                              | Break r => Q r m'
                              end) m) ->
  wp (scan body s) Q m.
Proof. intros. unfold scan. unfold wp. eapply (wp_loop body I mu); eauto. lia. Qed.

(** Loops with pointwise equal bodies. *)
Lemma loop_ext {S R} (f g : S -> M (ctl S R)) fuel s m :
  (forall s m, f s m = g s m) -> loop fuel f s m = loop fuel g s m.
Proof.
  intros H. revert s m. induction fuel as [|fuel IH]; intros s m; [reflexivity|].
  cbn [loop]. unfold mbind, M_bind. rewrite H. destruct (g s m) as [[s'|r] m'| |]; auto.
Qed.

Lemma wp_scan_ext {S R} (f g : S -> M (ctl S R)) Q s m :
  (forall s m, f s m = g s m) -> wp (scan g s) Q m -> wp (scan f s) Q m.
Proof. intros H. unfold wp, scan. now rewrite (loop_ext f g). Qed.

(** One step of symbolic execution. *)
Ltac wp_step :=
  match goal with
  | |- wp (mbind _ _) _ _ => apply wp_bind
  | |- wp (mret _) _ _ => apply wp_ret
  | |- wp (if ?b then _ else _) _ _ => let E := fresh "E" in destruct b eqn:E; zbool
  | |- wp (match ?x with _ => _ end) _ _ => destruct x
  end.

(** ** Concrete memories

    Executable checks, so that the hypotheses of a theorem can be evaluated at
    a concrete memory. *)

Definition block (p : Z) (bs : list Z) : mem := write ∅ p bs.

Fixpoint bytes_atb (m : mem) (p : Z) (bs : list Z) : bool :=
  match bs with
  | [] => true
  | b :: bs' => bool_decide (m !! p = Some b) && bytes_atb m (p + 1) bs'
  end.

Lemma bytes_atb_true m p bs : bytes_atb m p bs = true -> bytes_at m p bs.
Proof.
  revert p. induction bs as [|b bs IH]; intros p; simpl; [intros _; apply bytes_at_nil|].
  rewrite andb_true_iff, bool_decide_eq_true. intros [? ?]. apply bytes_at_cons. auto.
Qed.

Definition bytesb (bs : list Z) : bool := forallb (fun b => (0 <=? b) && (b <? 256)) bs.
Definition cstrb (m : mem) (p : Z) (s : list Z) : bool :=
  forallb (fun b => (0 <? b) && (b <? 256)) s && bytes_atb m p (s ++ [0]).

Lemma bytesb_true bs : bytesb bs = true -> Forall is_byte bs.
Proof.
  unfold bytesb. rewrite forallb_forall, Forall_forall. intros H x Hx. specialize (H x Hx).
  zbool. split; lia.
Qed.

Lemma cstrb_true m p s : cstrb m p s = true -> cstr m p s.
Proof.
  unfold cstrb. rewrite andb_true_iff. intros [H1 H2]. split; [|now apply bytes_atb_true].
  rewrite forallb_forall in H1. rewrite Forall_forall. intros x Hx. specialize (H1 x Hx).
  zbool. split; lia.
Qed.

Lemma mem_ok_block p bs : bytesb bs = true -> mem_ok (block p bs).
Proof. intros H. apply mem_ok_write; [|now apply bytesb_true]. apply map_Forall_empty. Qed.

Lemma mapped_block p bs q n :
  p <= q -> q + n <= p + Z.of_nat (length bs) -> mapped (block p bs) q n.
Proof.
  intros. eapply mapped_sub; [apply bytes_at_mapped, bytes_at_write|lia|lia].
Qed.

Lemma wordwise_block p bs :
  p mod 8 = 0 -> Z.of_nat (length bs) mod 8 = 0 -> wordwise (block p bs).
Proof.
  intros Hp Hl a b Hab. unfold block. rewrite !lookup_write, !lookup_empty.
  case_decide; [|intros [? ?]; discriminate]. intros _.
  rewrite decide_True by (Z.div_mod_to_equations; lia). apply lookup_lt_is_Some.
  Z.div_mod_to_equations; lia.
Qed.
