(* ===== verification/State.v ===== *)
(** * A state and error monad

    Components whose state is a record (the allocator's heap, the streams, the
    environment) run in this monad: a computation maps a state to a value and a
    new state, or stops with an access to memory that is not there ([Fail]), or
    does not come back within its fuel ([Spin]).  [swp] is its total-correctness
    calculus. *)

From S2P Require Import Prelude CMem.

Inductive outcome (S A : Type) : Type :=
| Done (a : A) (s : S)
| Fail
| Spin.
Arguments Done {S A} a s.
Arguments Fail {S A}.
Arguments Spin {S A}.

Definition SM (S A : Type) : Type := S -> outcome S A.

#[export] Instance SM_ret {S} : MRet (SM S) := fun A a s => Done a s.
#[export] Instance SM_bind {S} : MBind (SM S) := fun A B f c s =>
  match c s with
  | Done a s' => f a s'
  | Fail => Fail
  | Spin => Spin
  end.

Definition sfail {S A} : SM S A := fun _ => Fail.
Definition gets {S A} (f : S -> A) : SM S A := fun s => Done (f s) s.
Definition modify {S} (f : S -> S) : SM S unit := fun s => Done tt (f s).
(** The value of an option, or a fault. *)
Definition sopt {S A} (f : S -> option A) : SM S A := fun s =>
  match f s with Some a => Done a s | None => Fail end.
Definition supd {S} (f : S -> option S) : SM S unit := fun s =>
  match f s with Some s' => Done tt s' | None => Fail end.

Fixpoint sloop {S V R} (fuel : nat) (body : V -> SM S (ctl V R)) (v : V) : SM S R :=
  match fuel with
  | O => fun _ => Spin
  | Datatypes.S fuel' =>
      x ← body v;
      match x with
      | Next v' => sloop fuel' body v'
      | Break r => mret r
      end
  end.

Definition swp {S A} (c : SM S A) (Q : A -> S -> Prop) (s : S) : Prop :=
  match c s with
  | Done a s' => Q a s'
  | Fail | Spin => False
  end.

Section swp.
Context {S : Type}.
Implicit Types s : S.

Lemma swp_ok {A} (c : SM S A) Q s : swp c Q s <-> exists a s', c s = Done a s' /\ Q a s'.
Proof.
  unfold swp. destruct (c s); split; try tauto; [eauto| | |];
    intros (? & ? & E & ?); now inversion E; subst.
Qed.

Lemma swp_eq {A} (c : SM S A) a s' s : swp c (fun x y => x = a /\ y = s') s <-> c s = Done a s'.
Proof.
  unfold swp. destruct (c s); split; try tauto; try discriminate.
  - now intros [-> ->].
  - intros E. now injection E.
Qed.

Lemma swp_mono {A} (c : SM S A) (P Q : A -> S -> Prop) s :
  swp c P s -> (forall a s', P a s' -> Q a s') -> swp c Q s.
Proof. unfold swp. destruct (c s); eauto. Qed.

Lemma swp_ret {A} (a : A) (Q : A -> S -> Prop) s : Q a s -> swp (mret a) Q s.
Proof. exact id. Qed.

Lemma swp_bind {A B} (c : SM S A) (f : A -> SM S B) Q s :
  swp c (fun a s' => swp (f a) Q s') s -> swp (c ≫= f) Q s.
Proof. unfold swp, mbind, SM_bind. destruct (c s); auto. Qed.

Lemma swp_run {A} (c : SM S A) Q s a s' : c s = Done a s' -> Q a s' -> swp c Q s.
Proof. unfold swp. now intros ->. Qed.

Lemma swp_gets {A} (f : S -> A) (Q : A -> S -> Prop) s : Q (f s) s -> swp (gets f) Q s.
Proof. exact id. Qed.

Lemma swp_modify (f : S -> S) (Q : unit -> S -> Prop) s : Q tt (f s) -> swp (modify f) Q s.
Proof. exact id. Qed.

Lemma swp_sopt {A} (f : S -> option A) a (Q : A -> S -> Prop) s :
  f s = Some a -> Q a s -> swp (sopt f) Q s.
Proof. unfold swp, sopt. now intros ->. Qed.

Lemma swp_supd (f : S -> option S) s' (Q : unit -> S -> Prop) s :
  f s = Some s' -> Q tt s' -> swp (supd f) Q s.
Proof. unfold swp, supd. now intros ->. Qed.

Lemma swp_sloop {V R} (body : V -> SM S (ctl V R)) (I : V -> S -> Prop) (mu : V -> nat) Q :
  (forall v s, I v s ->
     swp (body v) (fun x s' => match x with
                               | Next v' => I v' s' /\ (mu v' < mu v)%nat
                               | Break r => Q r s'
                               end) s) ->
  forall fuel v s, I v s -> (mu v < fuel)%nat -> swp (sloop fuel body v) Q s.
Proof.
  intros Hb fuel. induction fuel as [|fuel IH]; intros v s HI Hf; [lia|].
  cbn [sloop]. apply swp_bind. eapply swp_mono; [apply Hb, HI|].
  intros [v'|r] s'; [|auto]. intros [HI' Hmu]. apply IH; [exact HI'|lia].
Qed.
End swp.

Lemma bind_done {S A B} (c : SM S A) (f : A -> SM S B) s a s' : c s = Done a s' -> (c ≫= f) s = f a s'.
Proof. unfold mbind, SM_bind. now intros ->. Qed.

(** One step of symbolic execution. *)
Ltac swp_step :=
  match goal with
  | |- swp (mbind _ _) _ _ => apply swp_bind
  | |- swp (mret _) _ _ => apply swp_ret
  | |- swp (gets _) _ _ => apply swp_gets
  | |- swp (modify _) _ _ => apply swp_modify
  | |- swp (if ?b then _ else _) _ _ => let E := fresh "E" in destruct b eqn:E; zbool
  end.
