(* ===== verification/Dll.v ===== *)
(** * Doubly linked lists in a store

    The heap's headers, the list of open streams and the run queues of the
    scheduler are cells that link to each other by address.  A segment [dseg]
    says which cells a list of nodes is laid out in. *)

From S2P Require Import Prelude.

Section dll.
Context {R X : Type} (cell : Z -> Z -> X -> R) (addr : X -> Z).

Definition hd_addr (n : Z) (xs : list X) : Z := match xs with [] => n | x :: _ => addr x end.

Fixpoint last_addr (p : Z) (xs : list X) : Z :=
  match xs with [] => p | x :: xs' => last_addr (addr x) xs' end.

(** The cells of [xs], the first with the back link [prev], the last with the
    forward link [next]. *)
Fixpoint dseg (st : gmap Z R) (prev : Z) (xs : list X) (next : Z) : Prop :=
  match xs with
  | [] => True
  | x :: xs' => st !! addr x = Some (cell prev (hd_addr next xs') x) /\ dseg st (addr x) xs' next
  end.

Lemma hd_addr_app n xs ys : hd_addr n (xs ++ ys) = hd_addr (hd_addr n ys) xs.
Proof. now destruct xs. Qed.

Lemma last_addr_app p xs ys : last_addr p (xs ++ ys) = last_addr (last_addr p xs) ys.
Proof. revert p. induction xs; simpl; auto. Qed.

Lemma dseg_app st p xs ys n :
  dseg st p (xs ++ ys) n <-> dseg st p xs (hd_addr n ys) /\ dseg st (last_addr p xs) ys n.
Proof.
  revert p. induction xs as [|x xs IH]; intros p; simpl; [tauto|].
  rewrite IH, hd_addr_app. tauto.
Qed.

Lemma dseg_ext st st' p xs n :
  (forall x, x ∈ xs -> st' !! addr x = st !! addr x) -> dseg st p xs n -> dseg st' p xs n.
Proof.
  revert p. induction xs as [|x xs IH]; intros p H; simpl; [auto|]. intros [H1 H2].
  split; [rewrite H by left; exact H1|]. apply IH; [|exact H2]. intros y Hy. apply H. now right.
Qed.

Lemma dseg_lookup st p xs x ys n :
  dseg st p (xs ++ x :: ys) n -> st !! addr x = Some (cell (last_addr p xs) (hd_addr n ys) x).
Proof. rewrite dseg_app. simpl. tauto. Qed.

(** Changing the forward link at the end, or the back link at the start. *)
Lemma dseg_set_next st st' p xs y n n' :
  dseg st p (xs ++ [y]) n ->
  st' !! addr y = Some (cell (last_addr p xs) n' y) ->
  (forall x, x ∈ xs -> st' !! addr x = st !! addr x) ->
  dseg st' p (xs ++ [y]) n'.
Proof.
  intros [H _]%dseg_app Hy Hxs. apply dseg_app. split; [|now split].
  eapply dseg_ext; [exact Hxs|exact H].
Qed.

Lemma dseg_set_prev st st' p p' x xs n :
  dseg st p (x :: xs) n ->
  st' !! addr x = Some (cell p' (hd_addr n xs) x) ->
  (forall y, y ∈ xs -> st' !! addr y = st !! addr y) ->
  dseg st' p' (x :: xs) n.
Proof. simpl. intros [_ H] Hx Hxs. split; [exact Hx|]. eapply dseg_ext; eauto. Qed.

(** Two segments joined: the last cell of the first and the first cell of the
    second are linked to each other, the other cells keep their contents. *)
Lemma dseg_join st st' p xs n1 q ys n :
  dseg st p xs n1 -> dseg st q ys n ->
  (forall zs l, xs = zs ++ [l] -> st' !! addr l = Some (cell (last_addr p zs) (hd_addr n ys) l) /\
     forall x, x ∈ zs -> st' !! addr x = st !! addr x) ->
  (forall d ds, ys = d :: ds -> st' !! addr d = Some (cell (last_addr p xs) (hd_addr n ds) d) /\
     forall x, x ∈ ds -> st' !! addr x = st !! addr x) ->
  dseg st' p (xs ++ ys) n.
Proof.
  intros Hx Hy Hl Hd. apply dseg_app. split.
  - destruct xs as [|l zs _] using rev_ind; [exact I|]. destruct (Hl zs l eq_refl) as [H1 H2].
    eapply dseg_set_next; eauto.
  - destruct ys as [|d ds]; [exact I|]. destruct (Hd d ds eq_refl) as [H1 H2].
    eapply dseg_set_prev; eauto.
Qed.

(** No more cells than the store has entries: the fuel of the walks. *)
Lemma dseg_size st p xs n :
  dseg st p xs n -> NoDup (addr <$> xs) -> (length xs <= size st)%nat.
Proof.
  intros H Hnd. rewrite <- size_dom.
  replace (length xs) with (size (list_to_set (addr <$> xs) : gset Z))
    by now rewrite size_list_to_set, length_fmap.
  apply subseteq_size. intros a. rewrite elem_of_list_to_set, list_elem_of_fmap, elem_of_dom.
  intros (x & -> & (ys & zs & ->)%list_elem_of_split). apply dseg_lookup in H. eauto.
Qed.

End dll.

(** ** Lists of addresses

    Where the nodes are the addresses themselves and only their links matter. *)

Definition link_cell (p n x : Z) : Z * Z := (p, n).
Abbreviation chain L l := (dseg link_cell id L 0 l 0).

Lemma hd_addr_in (d : Z) l : hd_addr id d l = d \/ hd_addr id d l ∈ l.
Proof. destruct l; [left; reflexivity|right; left]. Qed.

Lemma last_addr_in (d : Z) l : last_addr id d l = d \/ last_addr id d l ∈ l.
Proof.
  induction l as [|x l IH] using rev_ind; [left; reflexivity|right]. rewrite last_addr_app. cbn.
  apply elem_of_app. right. left.
Qed.

(** The links of [a] once [prev] and [next] are linked to each other. *)
Definition relink (prev next a : Z) (l : Z * Z) : Z * Z :=
  (if (a =? next) && negb (next =? 0) then prev else fst l,
   if (a =? prev) && negb (prev =? 0) then next else snd l).

Lemma relink_far prev next a l : (prev = 0 \/ a <> prev) -> (next = 0 \/ a <> next) -> relink prev next a l = l.
Proof.
  intros Hp Hn. unfold relink.
  replace ((a =? next) && negb (next =? 0)) with false; [replace ((a =? prev) && negb (prev =? 0)) with false|].
  - now destruct l.
  - destruct Hp as [->|Hp]; [now rewrite andb_false_r|]. now rewrite (proj2 (Z.eqb_neq a prev) Hp).
  - destruct Hn as [->|Hn]; [now rewrite andb_false_r|]. now rewrite (proj2 (Z.eqb_neq a next) Hn).
Qed.

(** A node is taken out: the cells around the gap are linked to each other. *)
Lemma chain_unlink L L' l1 x l2 :
  chain L (l1 ++ x :: l2) -> NoDup (l1 ++ x :: l2) -> 0 ∉ l1 ++ x :: l2 ->
  (forall a, a <> x -> L' !! a = relink (last_addr id 0 l1) (hd_addr id 0 l2) a <$> L !! a) ->
  chain L' (l1 ++ l2).
Proof.
  intros Hs Hnd H0' HL. pose proof Hs as [H1 [_ H2]]%dseg_app. cbn [id] in H2.
  apply list.NoDup_app in Hnd as (Hd1 & Hd12 & Hd2). inversion Hd2 as [|? ? Hx2 Hd2']; subst.
  rewrite elem_of_app, elem_of_cons in H0'.
  assert (Hdis : forall y, y ∈ l1 -> y ∉ l2) by (intros y Hy Hy2; apply (Hd12 y Hy); now right).
  assert (Hx1 : forall y, y ∈ l1 -> y <> x) by (intros y Hy ->; apply (Hd12 x Hy); left).
  assert (Hhd : forall y, y ∈ l1 -> hd_addr id 0 l2 = 0 \/ y <> hd_addr id 0 l2).
  { intros y Hy. destruct (hd_addr_in 0 l2) as [|Hin]; [auto|]. right. intros ->. now apply (Hdis _ Hy). }
  assert (Hla : forall y, y ∈ l2 -> last_addr id 0 l1 = 0 \/ y <> last_addr id 0 l1).
  { intros y Hy. destruct (last_addr_in 0 l1) as [|Hin]; [auto|]. right. intros ->. now apply (Hdis _ Hin). }
  apply (dseg_join link_cell id L _ 0 l1 _ _ l2 0 H1 H2).
  - intros zs l ->. rewrite last_addr_app in HL. change (last_addr id (last_addr id 0 zs) [l]) with l in HL. change (id l) with l.
    assert (Hl : l ∈ zs ++ [l]) by (apply elem_of_app; right; left). split.
    + rewrite HL by auto. apply (dseg_lookup link_cell id) in H1. change (id l) with l in H1. rewrite H1. unfold relink, link_cell. cbn [fst snd fmap option_fmap option_map hd_addr].
      rewrite Z.eqb_refl, (proj2 (Z.eqb_neq l 0)) by (intros ->; tauto).
      destruct (Hhd l Hl) as [E|E]; [rewrite E; now destruct (l =? 0)|]. now rewrite (proj2 (Z.eqb_neq l _) E).
    + intros y Hy. assert (Hy' : y ∈ zs ++ [l]) by (apply elem_of_app; auto). change (id y) with y.
      rewrite HL by auto. rewrite <- (option_fmap_id (L !! y)) at 2. apply option_fmap_ext. intros k.
      apply relink_far; [right|now apply Hhd]. intros ->. apply list.NoDup_app in Hd1 as (_ & Hd1 & _). apply (Hd1 l Hy). left.
  - intros d ds ->. inversion Hd2' as [|? ? Hd3 _]; subst. change (id d) with d.
    assert (Hxd : forall y, y ∈ d :: ds -> y <> x) by (intros y Hy ->; tauto). split.
    + rewrite HL by (apply Hxd; left). destruct H2 as [H2 _]. change (id d) with d in H2. rewrite H2. unfold relink, link_cell.
      change (hd_addr id 0 (d :: ds)) with d. cbn [fst snd fmap option_fmap option_map].
      rewrite Z.eqb_refl, (proj2 (Z.eqb_neq d 0)) by (intros ->; apply H0'; right; right; left).
      destruct (Hla d ltac:(left)) as [E|E]; [rewrite E; now destruct (d =? 0)|]. now rewrite (proj2 (Z.eqb_neq d _) E).
    + intros y Hy. change (id y) with y. rewrite HL by (apply Hxd; now right).
      rewrite <- (option_fmap_id (L !! y)) at 2. apply option_fmap_ext. intros k.
      apply relink_far; [apply Hla; now right|right]. change (hd_addr id 0 (d :: ds)) with d. now intros ->.
Qed.

(** A node is put at the end. *)
Lemma chain_push L L' l x :
  chain L l -> NoDup l -> x ∉ l ->
  (forall zs y, l = zs ++ [y] -> L' !! y = Some (last_addr id 0 zs, x)) ->
  L' !! x = Some (last_addr id 0 l, 0) ->
  (forall a, a ∈ l -> a <> last_addr id 0 l -> L' !! a = L !! a) ->
  chain L' (l ++ [x]).
Proof.
  intros Hs Hnd Hx Hlast Hnew Hrest. apply dseg_app. split; [|split; [exact Hnew|exact I]].
  destruct l as [|y zs _] using rev_ind; [exact I|]. rewrite last_addr_app in Hrest. change (last_addr id (last_addr id 0 zs) [y]) with y in Hrest.
  apply list.NoDup_app in Hnd as (_ & Hd & _). eapply dseg_set_next; [exact Hs|now apply Hlast|].
  intros a Ha. change (id a) with a. apply Hrest; [apply elem_of_app; auto|]. intros ->. apply (Hd y Ha). left.
Qed.
