(* ===== verification/Ctype.v ===== *)
(** * libc/src/ctype: character classes

    The argument is an [int]; callers that pass a plain [char] pass it sign
    extended.  The results are used as truth values only. *)

From Stdlib Require Import ZifyBool.
From S2P Require Import Prelude.

Definition isblank (c : Z) : bool := (c =? 32) || (c =? 9).
Definition isalpha (c : Z) : bool := (65 <=? c) && (c <=? 90) || (97 <=? c) && (c <=? 122).
Definition isdigit (c : Z) : bool := (48 <=? c) && (c <=? 57).
Definition isalnum (c : Z) : bool := isalpha c || isdigit c.
Definition isascii (c : Z) : bool := c <=? 127.
Definition iscntrl (c : Z) : bool := (0 <=? c) && (c <=? 31) || (c =? 127).
Definition isgraph (c : Z) : bool := (33 <=? c) && (c <=? 126).
Definition islower (c : Z) : bool := (97 <=? c) && (c <=? 122).
Definition isprint (c : Z) : bool := isgraph c || (c =? 32).
Definition ispunct (c : Z) : bool := isgraph c && negb (isalnum c).
Definition isspace (c : Z) : bool :=
  (c =? 12) || (c =? 10) || (c =? 13) || (c =? 9) || (c =? 11) || (c =? 32).
Definition isupper (c : Z) : bool := (65 <=? c) && (c <=? 90).
Definition isxdigit (c : Z) : bool :=
  (48 <=? c) && (c <=? 57) || (97 <=? c) && (c <=? 102) || (65 <=? c) && (c <=? 70).
Definition tolower (c : Z) : Z := if (65 <=? c) && (c <=? 90) then c - 65 + 97 else c.
Definition toupper (c : Z) : Z := if (97 <=? c) && (c <=? 122) then c - 97 + 65 else c.

Ltac ctype :=
  cbv [isblank isalpha isdigit isalnum isascii iscntrl isgraph islower isprint
    ispunct isspace isupper isxdigit tolower toupper] in *.

(** The printable characters split into the space, the letters, the digits
    and the punctuation. *)
Lemma isprint_partition c :
  isprint c = (c =? 32) || isalpha c || isdigit c || ispunct c.
Proof. ctype. lia. Qed.

Lemma isalpha_split c : isalpha c = isupper c || islower c.
Proof. reflexivity. Qed.

Lemma tolower_toupper c : islower c = true -> tolower (toupper c) = c.
Proof. ctype. intros. zbool. repeat zif; lia. Qed.

Lemma toupper_tolower c : isupper c = true -> toupper (tolower c) = c.
Proof. ctype. intros. zbool. repeat zif; lia. Qed.

Lemma tolower_idem c : tolower (tolower c) = tolower c.
Proof. unfold tolower. repeat zif; lia. Qed.

(** Two characters have the same lower-case form exactly when they are equal or
    the two cases of one letter. *)
Lemma tolower_eq a b :
  tolower a = tolower b <->
  a = b \/ isupper a = true /\ b = a + 32 \/ isupper b = true /\ a = b + 32.
Proof.
  unfold tolower, isupper. destruct ((65 <=? a) && (a <=? 90)) eqn:Ea, ((65 <=? b) && (b <=? 90)) eqn:Eb;
    rewrite ?andb_true_iff, ?andb_false_iff in *; zbool; lia.
Qed.
