(* ===== verification/MemFns.v ===== *)
(** * libc/src/string/mem.c: copying, moving, filling and comparing memory *)

From S2P Require Import Prelude CMem.

(** ** The functions *)

(** [void *memcpy(void *dest, const void *src, size_t n)] *)
Definition memcpy (dest src n : Z) : M Z :=
  loop (S (Z.to_nat n)) (fun i =>
    if i <? n
    then c ← load8 (src + i); store8 (dest + i) c;; mret (Next (i + 1))
    else mret (Break tt)) 0;;
  mret dest.

(** The forward half of [memmove]: bytes up to an aligned [d], whole words,
    the bytes left over.  The variables are [(d, s, n)]. *)
Definition memmove_forward (dest d s n : Z) : M Z :=
  r ← (if u64 s mod 8 =? u64 d mod 8
       then
         f ← loop (S (Z.to_nat n)) (fun '(d, s, n) =>
               if u64 d mod 8 =? 0 then mret (Break (Fall (d, s, n)))
               else if n =? 0 then mret (Break (Return dest))
               else c ← load8 s; store8 d c;; mret (Next (d + 1, s + 1, n - 1))) (d, s, n);
         match f with
         | Return v => mret (Return v)
         | Fall (d, s, n) =>
             x ← loop (S (Z.to_nat n)) (fun '(d, s, n) =>
                   if 8 <=? n
                   then w ← load64 s; store64 d w;; mret (Next (d + 8, s + 8, n - 8))
                   else mret (Break (d, s, n))) (d, s, n);
             mret (Fall x)
         end
       else mret (Fall (d, s, n)));
  match r with
  | Return v => mret v
  | Fall (d, s, n) =>
      loop (S (Z.to_nat n)) (fun '(d, s, n) =>
        if n =? 0 then mret (Break tt)
        else c ← load8 s; store8 d c;; mret (Next (d + 1, s + 1, n - 1))) (d, s, n);;
      mret dest
  end.

(** The backward half: [n] counts down, the pointers stay. *)
Definition memmove_backward (dest d s n : Z) : M Z :=
  r ← (if u64 s mod 8 =? u64 d mod 8
       then
         f ← loop (S (Z.to_nat n)) (fun n =>
               if u64 (d + n) mod 8 =? 0 then mret (Break (Fall n))
               else if n =? 0 then mret (Break (Return dest))
               else let n := n - 1 in
                    c ← load8 (s + n); store8 (d + n) c;; mret (Next n)) n;
         match f with
         | Return v => mret (Return v)
         | Fall n =>
             x ← loop (S (Z.to_nat n)) (fun n =>
                   if 8 <=? n
                   then let n := n - 8 in
                        w ← load64 (s + n); store64 (d + n) w;; mret (Next n)
                   else mret (Break n)) n;
             mret (Fall x)
         end
       else mret (Fall n));
  match r with
  | Return v => mret v
  | Fall n =>
      loop (S (Z.to_nat n)) (fun n =>
        if n =? 0 then mret (Break tt)
        else let n := n - 1 in
             c ← load8 (s + n); store8 (d + n) c;; mret (Next n)) n;;
      mret dest
  end.

(** [void *memmove(void *dest, const void *src, size_t n)] *)
Definition memmove (dest src n : Z) : M Z :=
  let d := dest in
  let s := src in
  if d =? s then mret d
  else if u64 (u64 s - u64 d - n) <=? u64 (u64 (-2) * n) then memcpy d s n
  else if d <? s then memmove_forward dest d s n
  else memmove_backward dest d s n.

(** [void *memset(void *dest, int c, size_t n)], the part after the first
    early returns: 32-bit heads and tails, then 32 bytes a round. *)
Definition memset_words (dest s c n : Z) : M Z :=
  let k := Z.land (u64 (- u64 s)) 3 in
  let s := s + k in
  let n := n - k in
  let n := Z.land n (u64 (-4)) in
  let c32 := u32 (u32 (-1) / 255 * u8 c) in
  store32 (s + 0) c32;;
  store32 (s + n - 4) c32;;
  if n <=? 8 then mret dest else
  store32 (s + 4) c32;;
  store32 (s + 8) c32;;
  store32 (s + n - 12) c32;;
  store32 (s + n - 8) c32;;
  if n <=? 24 then mret dest else
  store32 (s + 12) c32;;
  store32 (s + 16) c32;;
  store32 (s + 20) c32;;
  store32 (s + 24) c32;;
  store32 (s + n - 28) c32;;
  store32 (s + n - 24) c32;;
  store32 (s + n - 20) c32;;
  store32 (s + n - 16) c32;;
  let k := 24 + Z.land (u64 s) 4 in
  let s := s + k in
  let n := n - k in
  let c64 := Z.lor c32 (u64 (Z.shiftl c32 32)) in
  loop (S (Z.to_nat n)) (fun '(s, n) =>
    if 32 <=? n then
      store64 (s + 0) c64;;
      store64 (s + 8) c64;;
      store64 (s + 16) c64;;
      store64 (s + 24) c64;;
      mret (Next (s + 32, n - 32))
    else mret (Break tt)) (s, n);;
  mret dest.

Definition memset (dest c n : Z) : M Z :=
  let s := dest in
  if n =? 0 then mret dest else
  store8 (s + 0) c;;
  store8 (s + n - 1) c;;
  if n <=? 2 then mret dest else
  store8 (s + 1) c;;
  store8 (s + 2) c;;
  store8 (s + n - 2) c;;
  store8 (s + n - 3) c;;
  if n <=? 6 then mret dest else
  store8 (s + 3) c;;
  store8 (s + n - 4) c;;
  if n <=? 8 then mret dest else
  memset_words dest s c n.

(** [int memcmp(const void *vl, const void *vr, size_t n)] *)
Definition memcmp (vl vr n : Z) : M Z :=
  '(l, r, n) ← loop (S (Z.to_nat n)) (fun '(l, r, n) =>
      if n =? 0 then mret (Break (l, r, n))
      else a ← load8 l; b ← load8 r;
           if a =? b then mret (Next (l + 1, r + 1, n - 1)) else mret (Break (l, r, n)))
    (vl, vr, n);
  if n =? 0 then mret 0 else a ← load8 l; b ← load8 r; mret (a - b).

(** [void *memrchr(const void *m, int c, size_t n)]; 0 is the null pointer. *)
Definition memrchr (p c n : Z) : M Z :=
  let c := u8 c in
  loop (S (Z.to_nat n)) (fun n =>
    if n =? 0 then mret (Break 0)
    else let n := n - 1 in
         b ← load8 (p + n);
         if b =? c then mret (Break (p + n)) else mret (Next n)) n.

(** ** Reference definitions *)

(** The difference of the first bytes that differ, 0 when none do. *)
Fixpoint first_diff (xs ys : list Z) : Z :=
  match xs, ys with
  | x :: xs', y :: ys' => if x =? y then first_diff xs' ys' else x - y
  | _, _ => 0
  end.

(** The greatest index below [n] that holds [c]. *)
Fixpoint last_index (c : Z) (bs : list Z) (n : nat) : option nat :=
  match n with
  | O => None
  | S n' => if decide (bs !! n' = Some c) then Some n' else last_index c bs n'
  end.

(** ** memcpy and memmove *)

Section copy.
Context (m0 : mem) (dest src : Z) (bs : list Z).
Hypothesis Hsrc : bytes_at m0 src bs.
Hypothesis Hbytes : Forall is_byte bs.
Hypothesis Hdest : mapped m0 dest (Z.of_nat (length bs)).
Let n := Z.of_nat (length bs).

(** After [k] bytes forward, and with [k] bytes to go backward. *)
Let fwd (k : Z) : mem := write m0 dest (take (Z.to_nat k) bs).
Let bwd (k : Z) : mem := write m0 (dest + k) (drop (Z.to_nat k) bs).

Lemma fwd_0 : fwd 0 = m0.
Proof. reflexivity. Qed.

Lemma bwd_n : bwd n = m0.
Proof. unfold bwd, n. rewrite Nat2Z.id, drop_all. reflexivity. Qed.

Lemma fwd_read k w :
  dest <= src \/ src + n <= dest -> 0 <= k -> 0 <= w -> k + w <= n ->
  bytes_at (fwd k) (src + k) (take (Z.to_nat w) (drop (Z.to_nat k) bs)).
Proof.
  intros Hd Hk Hw Hkw i b Hi. apply lookup_take_Some in Hi as [Hi Hlt].
  rewrite lookup_drop in Hi. unfold fwd. rewrite write_lookup_out.
  - rewrite <- (Hsrc _ _ Hi). f_equal. lia.
  - rewrite length_take. lia.
Qed.

Lemma bwd_read k w :
  src <= dest -> 0 <= w -> w <= k -> k <= n ->
  bytes_at (bwd k) (src + (k - w)) (take (Z.to_nat w) (drop (Z.to_nat (k - w)) bs)).
Proof.
  intros Hd Hk Hw Hkw i b Hi. apply lookup_take_Some in Hi as [Hi Hlt].
  rewrite lookup_drop in Hi. unfold bwd. rewrite write_lookup_out.
  - rewrite <- (Hsrc _ _ Hi). f_equal. lia.
  - rewrite length_drop. lia.
Qed.

Lemma fwd_write k w :
  0 <= k -> 0 <= w -> k + w <= n ->
  write (fwd k) (dest + k) (take (Z.to_nat w) (drop (Z.to_nat k) bs)) = fwd (k + w).
Proof.
  intros. unfold fwd. rewrite Z2Nat.inj_add by lia. rewrite <- take_take_drop, write_app.
  do 2 f_equal. rewrite length_take. unfold n in *. lia.
Qed.

Lemma bwd_write k w :
  0 <= w -> w <= k -> k <= n ->
  write (bwd k) (dest + (k - w)) (take (Z.to_nat w) (drop (Z.to_nat (k - w)) bs)) = bwd (k - w).
Proof.
  intros. apply map_eq; intros a. unfold bwd, n in *. rewrite !lookup_write.
  rewrite length_take, !length_drop.
  repeat case_decide; try lia; try reflexivity.
  - rewrite lookup_take_lt by lia. reflexivity.
  - rewrite !lookup_drop. f_equal. lia.
Qed.

Lemma piece_length k w :
  0 <= k -> 0 <= w -> k + w <= n -> length (take (Z.to_nat w) (drop (Z.to_nat k) bs)) = Z.to_nat w.
Proof. intros. rewrite length_take, length_drop. unfold n in *. lia. Qed.

Lemma piece_bytes j w : Forall is_byte (take w (drop j bs)).
Proof. apply Forall_take, Forall_drop, Hbytes. Qed.

Lemma piece_words j w l :
  length (take w (drop j bs)) = l ->
  le_bytes l (le_val (take w (drop j bs))) = take w (drop j bs).
Proof. intros <-. apply le_bytes_val, piece_bytes. Qed.

Lemma piece_1 k : 0 <= k < n -> take (Z.to_nat 1) (drop (Z.to_nat k) bs) = [chr bs k].
Proof.
  intros. apply list_eq. intros i. destruct i as [|i].
  - rewrite lookup_take_lt by lia. rewrite lookup_drop, Nat.add_0_r. cbn.
    apply chr_lookup. unfold n in *. lia.
  - rewrite lookup_take_ge by lia. reflexivity.
Qed.

Lemma chr_byte k : is_byte (chr bs k).
Proof.
  unfold chr. destruct (bs !! Z.to_nat k) eqn:E; simpl; [|split; lia].
  eapply Forall_lookup_1; eauto.
Qed.

(** One byte and one word, forward. *)
Lemma wp_fwd_byte {B} k (Q : B -> mem -> Prop) (K : M B) :
  dest <= src \/ src + n <= dest -> 0 <= k < n ->
  wp K Q (fwd (k + 1)) ->
  wp (c ← load8 (src + k); store8 (dest + k) c;; K) Q (fwd k).
Proof.
  intros Hd Hk HQ. pose proof (fwd_read k 1 Hd ltac:(lia) ltac:(lia) ltac:(lia)) as Hr.
  rewrite piece_1 in Hr by lia. apply bytes_at_cons in Hr as [Hr _].
  apply wp_bind. eapply wp_load8; [exact Hr|].
  apply wp_bind. apply wp_store8; [|].
  - unfold fwd. apply (mapped_write m0 dest _ dest n Hdest). lia.
  - rewrite u8_small by apply chr_byte. rewrite <- fwd_write in HQ by lia.
    rewrite piece_1 in HQ by lia. exact HQ.
Qed.

Lemma wp_fwd_word {B} k (Q : B -> mem -> Prop) (K : M B) :
  dest <= src -> 0 <= k -> k + 8 <= n ->
  wp K Q (fwd (k + 8)) ->
  wp (w ← load64 (src + k); store64 (dest + k) w;; K) Q (fwd k).
Proof.
  intros Hd Hk Hn HQ.
  pose proof (fwd_read k 8 ltac:(lia) ltac:(lia) ltac:(lia) ltac:(lia)) as Hr.
  pose proof (piece_length k 8 ltac:(lia) ltac:(lia) ltac:(lia)) as Hl.
  apply wp_bind. eapply wp_load_n; [exact Hr|exact Hl|]. apply wp_bind.
  apply wp_store_n.
  - unfold fwd. eapply mapped_sub; [apply (mapped_write m0 dest _ dest n Hdest)|lia|lia].
  - rewrite piece_words by exact Hl. rewrite fwd_write by lia. exact HQ.
Qed.

(** One byte and one word, backward. *)
Lemma wp_bwd_byte {B} k (Q : B -> mem -> Prop) (K : M B) :
  src <= dest -> 0 < k <= n ->
  wp K Q (bwd (k - 1)) ->
  wp (c ← load8 (src + (k - 1)); store8 (dest + (k - 1)) c;; K) Q (bwd k).
Proof.
  intros Hd Hk HQ. pose proof (bwd_read k 1 Hd ltac:(lia) ltac:(lia) ltac:(lia)) as Hr.
  rewrite piece_1 in Hr by lia. apply bytes_at_cons in Hr as [Hr _].
  apply wp_bind. eapply wp_load8; [exact Hr|].
  apply wp_bind. apply wp_store8; [|].
  - unfold bwd. apply (mapped_write m0 _ _ dest n Hdest). lia.
  - rewrite u8_small by apply chr_byte. rewrite <- bwd_write in HQ by lia.
    rewrite piece_1 in HQ by lia. exact HQ.
Qed.

Lemma wp_bwd_word {B} k (Q : B -> mem -> Prop) (K : M B) :
  src <= dest -> 8 <= k <= n ->
  wp K Q (bwd (k - 8)) ->
  wp (w ← load64 (src + (k - 8)); store64 (dest + (k - 8)) w;; K) Q (bwd k).
Proof.
  intros Hd Hk HQ.
  pose proof (bwd_read k 8 ltac:(lia) ltac:(lia) ltac:(lia) ltac:(lia)) as Hr.
  pose proof (piece_length (k - 8) 8 ltac:(lia) ltac:(lia) ltac:(lia)) as Hl.
  apply wp_bind. eapply wp_load_n; [exact Hr|exact Hl|]. apply wp_bind.
  apply wp_store_n.
  - unfold bwd. eapply mapped_sub; [apply (mapped_write m0 _ _ dest n Hdest)|lia|lia].
  - rewrite piece_words by exact Hl. rewrite bwd_write by lia. exact HQ.
Qed.

Lemma fwd_n : fwd n = write m0 dest bs.
Proof. unfold fwd, n. now rewrite Nat2Z.id, firstn_all. Qed.

Lemma bwd_0 : bwd 0 = write m0 dest bs.
Proof. unfold bwd. now rewrite Z.add_0_r. Qed.

Lemma memcpy_spec :
  dest <= src \/ src + n <= dest -> memcpy dest src n m0 = Ok dest (write m0 dest bs).
Proof.
  intros Hd. apply wp_eq. unfold memcpy. apply wp_bind.
  eapply (wp_loop _ (fun i m => m = fwd i /\ 0 <= i <= n) (fun i => Z.to_nat (n - i))).
  - intros i m [-> Hi]. wp_step.
    + apply wp_fwd_byte; [exact Hd|lia|]. apply wp_ret. split; [split; [reflexivity|lia]|lia].
    + apply wp_ret, wp_ret. split; [reflexivity|].
      replace i with n by lia. apply fwd_n.
  - rewrite fwd_0. unfold n. split; [reflexivity|lia].
  - lia.
Qed.

Lemma memmove_forward_spec :
  dest <= src -> memmove_forward dest dest src n m0 = Ok dest (write m0 dest bs).
Proof.
  intros Hd. apply wp_eq. unfold memmove_forward. apply wp_bind.
  pose (I := fun '(d, s, k) m =>
    exists i, 0 <= i <= n /\ d = dest + i /\ s = src + i /\ k = n - i /\ m = fwd i).
  pose (mu := fun x : Z * Z * Z => Z.to_nat (snd x)).
  assert (HI : I (dest, src, n) m0) by (exists 0; rewrite fwd_0; unfold n; repeat split; lia).
  (* the byte loop that ends the function *)
  assert (Htail : forall x m, I x m ->
    wp (let '(d, s, k) := x in
        loop (S (Z.to_nat k)) (fun '(d, s, n) =>
          if n =? 0 then mret (Break tt)
          else c ← load8 s; store8 d c;; mret (Next (d + 1, s + 1, n - 1))) (d, s, k);;
        mret dest) (fun a m' => a = dest /\ m' = write m0 dest bs) m).
  { intros [[d s] k] m HIx. apply wp_bind. eapply (wp_loop _ I mu); [|exact HIx|unfold mu; simpl; lia].
    intros [[d' s'] k'] m' (i & Hi & -> & -> & -> & ->). wp_step.
    - apply wp_ret, wp_ret. split; [reflexivity|]. replace i with n by lia. apply fwd_n.
    - apply wp_fwd_byte; [lia|lia|]. apply wp_ret.
      split; [|unfold mu; simpl; lia]. exists (i + 1). repeat split; lia. }
  wp_step; [|apply wp_ret, (Htail (dest, src, n)), HI].
  apply wp_bind. eapply (wp_loop _ I mu); [|exact HI|unfold mu; simpl; lia].
  intros [[d s] k] m (i & Hi & -> & -> & -> & ->). wp_step; [|wp_step].
  - (* the word loop *)
    apply wp_ret, wp_bind. eapply (wp_loop _ I mu); [| |unfold mu; simpl; lia].
    + intros [[d' s'] k'] m' (j & Hj & -> & -> & -> & ->). wp_step.
      * apply wp_fwd_word; [lia|lia|lia|]. apply wp_ret.
        split; [|unfold mu; simpl; lia]. exists (j + 8). repeat split; lia.
      * apply wp_ret, wp_ret, (Htail (_, _, _)). exists j. repeat split; lia.
    + exists i. repeat split; lia.
  - apply wp_ret, wp_ret, wp_ret. split; [reflexivity|]. replace i with n by lia. apply fwd_n.
  - apply wp_fwd_byte; [lia|lia|]. apply wp_ret.
    split; [|unfold mu; simpl; lia]. exists (i + 1). repeat split; lia.
Qed.

Lemma memmove_backward_spec :
  src <= dest -> memmove_backward dest dest src n m0 = Ok dest (write m0 dest bs).
Proof.
  intros Hd. apply wp_eq. unfold memmove_backward. apply wp_bind.
  pose (I := fun k m => 0 <= k <= n /\ m = bwd k).
  assert (HI : I n m0) by (unfold I; rewrite bwd_n; unfold n; split; [lia|reflexivity]).
  assert (Htail : forall k m, I k m ->
    wp (loop (S (Z.to_nat k)) (fun n =>
          if n =? 0 then mret (Break tt)
          else let n := n - 1 in
               c ← load8 (src + n); store8 (dest + n) c;; mret (Next n)) k;;
        mret dest) (fun a m' => a = dest /\ m' = write m0 dest bs) m).
  { intros k m HIx. apply wp_bind. eapply (wp_loop _ I Z.to_nat); [|exact HIx|lia].
    intros k' m' [Hk ->]. wp_step.
    - subst. apply wp_ret, wp_ret. split; [reflexivity|apply bwd_0].
    - cbv zeta. apply wp_bwd_byte; [lia|lia|]. apply wp_ret.
      split; [|lia]. split; [lia|reflexivity]. }
  wp_step; [|apply wp_ret, Htail, HI].
  apply wp_bind. eapply (wp_loop _ I Z.to_nat); [|exact HI|lia].
  intros k m [Hk ->]. wp_step; [|wp_step].
  - apply wp_ret, wp_bind. eapply (wp_loop _ I Z.to_nat); [| |lia].
    + intros k' m' [Hk' ->]. wp_step.
      * cbv zeta. apply wp_bwd_word; [lia|lia|]. apply wp_ret.
        split; [|lia]. split; [lia|reflexivity].
      * apply wp_ret, wp_ret, Htail. split; [lia|reflexivity].
    + split; [lia|reflexivity].
  - subst. apply wp_ret, wp_ret, wp_ret. split; [reflexivity|apply bwd_0].
  - cbv zeta. apply wp_bwd_byte; [lia|lia|]. apply wp_ret.
    split; [|lia]. split; [lia|reflexivity].
Qed.

(** The unsigned test [s - d - n <= -2 * n] holds only for regions that do not
    overlap. *)
Lemma memmove_test :
  0 <= dest -> 0 <= src -> 2 * n <= 2 ^ 64 ->
  dest + n <= 2 ^ 64 -> src + n <= 2 ^ 64 -> 0 < n -> dest <> src ->
  u64 (u64 src - u64 dest - n) <= u64 (u64 (-2) * n) -> dest + n <= src \/ src + n <= dest.
Proof.
  intros ????? Hn Hne Ht. rewrite (u64_small src), (u64_small dest) in Ht by lia.
  assert (E : u64 (u64 (-2) * n) = (2 ^ 64 - 2 * n) mod 2 ^ 64).
  { unfold u64. change (-2 mod 18446744073709551616) with (2 ^ 64 - 2).
    replace ((2 ^ 64 - 2) * n) with ((2 ^ 64 - 2 * n) + (n - 1) * 2 ^ 64) by lia.
    change 18446744073709551616 with (2 ^ 64). apply Z_mod_plus_full. }
  rewrite E in Ht. unfold u64 in Ht. rewrite (Z.mod_small (2 ^ 64 - 2 * n)) in Ht by lia.
  Z.div_mod_to_equations. lia.
Qed.

Lemma memmove_spec :
  0 <= dest -> 0 <= src -> 2 * n <= 2 ^ 64 ->
  dest + n <= 2 ^ 64 -> src + n <= 2 ^ 64 ->
  memmove dest src n m0 = Ok dest (write m0 dest bs).
Proof.
  intros. unfold memmove. destruct (dest =? src) eqn:E1; zbool.
  { rewrite write_bytes_at by (now rewrite E1). reflexivity. }
  destruct (_ <=? _) eqn:E2; zbool.
  - destruct (decide (n = 0)) as [En|En].
    + apply memcpy_spec. lia.
    + pose proof (memmove_test ltac:(lia) ltac:(lia) ltac:(lia) ltac:(lia) ltac:(lia)
        ltac:(unfold n in *; lia) E1 E2). apply memcpy_spec. lia.
  - destruct (dest <? src) eqn:E3; zbool.
    + apply memmove_forward_spec. lia.
    + apply memmove_backward_spec. lia.
Qed.

End copy.

(** ** memset *)

Lemma land_3 x : Z.land x 3 = x mod 4.
Proof. change 3 with (Z.ones 2). rewrite Z.land_ones by lia. reflexivity. Qed.

Lemma land_m4 x : 0 <= x < 2 ^ 64 -> Z.land x (u64 (-4)) = x - x mod 4.
Proof.
  intros Hx. transitivity (Z.ldiff x (Z.ones 2)).
  - apply Z.bits_inj'. intros i Hi. rewrite Z.land_spec, Z.ldiff_spec.
    destruct (decide (i < 64)).
    + f_equal. change (u64 (-4)) with (Z.ldiff (Z.ones 64) (Z.ones 2)).
      rewrite Z.ldiff_spec. rewrite (Z.ones_spec_low 64) by lia. reflexivity.
    + replace (Z.testbit x i) with false; [reflexivity|].
      rewrite <- (Z.mod_small x (2 ^ 64)) by lia. now rewrite Z.mod_pow2_bits_high by lia.
  - rewrite Z.ldiff_ones_r by lia. rewrite Z.shiftr_div_pow2, Z.shiftl_mul_pow2 by lia.
    change (2 ^ 2) with 4. pose proof (Z.div_mod x 4). lia.
Qed.

Lemma land_4 x : 0 <= x -> 0 <= Z.land x 4 <= 4 /\ Z.land x 4 mod 4 = 0.
Proof.
  intros. assert (Z.land x 4 = 0 \/ Z.land x 4 = 4) as [-> | ->]; [|split; [lia|reflexivity]..].
  change 4 with (2 ^ 2). destruct (Z.testbit x 2) eqn:E; [right|left];
    apply Z.bits_inj'; intros i Hi; rewrite Z.land_spec, ?Z.testbit_0_l;
    destruct (decide (i = 2)) as [->|]; rewrite ?Z.pow2_bits_true, ?Z.pow2_bits_false, ?E by lia;
    rewrite ?andb_true_r, ?andb_false_r; reflexivity.
Qed.

(** The repeated-byte words. *)
Lemma c32_bytes c : le_bytes 4 (u32 (u32 (-1) / 255 * u8 c)) = replicate 4 (u8 c).
Proof.
  pose proof (u8_range c). change (u32 (-1) / 255) with 16843009.
  rewrite u32_small by lia. rewrite <- (le_bytes_val (replicate 4 (u8 c))).
  - rewrite length_replicate. f_equal. cbn [replicate le_val]. lia.
  - apply Forall_replicate. exact H.
Qed.

Lemma c64_bytes c (c32 := u32 (u32 (-1) / 255 * u8 c)) :
  le_bytes 8 (Z.lor c32 (u64 (Z.shiftl c32 32))) = replicate 8 (u8 c).
Proof.
  pose proof (u8_range c). subst c32. change (u32 (-1) / 255) with 16843009.
  rewrite u32_small by lia. rewrite Z.shiftl_mul_pow2 by lia. rewrite u64_small by lia.
  rewrite <- (le_bytes_val (replicate 8 (u8 c))) by (apply Forall_replicate; exact H).
  rewrite length_replicate. f_equal.
  set (v := 16843009 * u8 c). assert (0 <= v < 2 ^ 32) by (subst v; lia).
  assert (E : Z.land v (v * 2 ^ 32) = 0).
  { rewrite <- Z.shiftl_mul_pow2 by lia. apply Z.bits_inj'. intros i Hi.
    rewrite Z.land_spec, Z.testbit_0_l. destruct (decide (i < 32)).
    - rewrite Z.shiftl_spec_low by lia. apply andb_false_r.
    - rewrite <- (Z.mod_small v (2 ^ 32)) at 1 by lia.
      now rewrite Z.mod_pow2_bits_high by lia. }
  rewrite <- Z.lxor_lor by exact E. rewrite <- Z.add_nocarry_lxor by exact E.
  cbn [replicate le_val]. subst v. lia.
Qed.

Section fill.
Context (m0 : mem) (dest c n : Z).
Hypothesis Hmap : mapped m0 dest n.
Hypothesis Hd : 0 <= dest.
Hypothesis Hn : 0 <= n < 2 ^ 64.
Hypothesis Hend : dest + n <= 2 ^ 64.

(** [m] agrees with [m0] outside the region and holds [c] on [F]. *)
Definition filling (F : Z -> Prop) (m : mem) : Prop :=
  (forall a, m !! a = m0 !! a \/ dest <= a < dest + n /\ m !! a = Some (u8 c)) /\
  (forall a, F a -> m !! a = Some (u8 c)).

Lemma filling_mapped F m : filling F m -> mapped m dest n.
Proof. intros [H _] a Ha. destruct (H a) as [-> | [_ ->]]; [auto|eauto]. Qed.

Lemma filling_write F m p k :
  filling F m -> dest <= p -> p + Z.of_nat k <= dest + n ->
  filling (fun a => F a \/ p <= a < p + Z.of_nat k) (write m p (replicate k (u8 c))).
Proof.
  intros [H1 H2] Hp Hk. split; intros a; rewrite lookup_write, length_replicate.
  - case_decide; [|apply H1]. right. split; [lia|]. apply lookup_replicate_2. lia.
  - case_decide; [intros _; apply lookup_replicate_2; lia|]. intros [Ha|Ha]; [auto|lia].
Qed.

Lemma filling_weaken (F G : Z -> Prop) m :
  filling F m -> (forall a, G a -> F a) -> filling G m.
Proof. intros [H1 H2] H. split; auto. Qed.

(** A store of [k] copies of the byte inside the region adds its range. *)
Lemma wp_fill8 F p (Q : unit -> mem -> Prop) m :
  filling F m -> dest <= p < dest + n ->
  (forall m', filling (fun a => F a \/ p <= a < p + 1) m' -> Q tt m') ->
  wp (store8 p c) Q m.
Proof.
  intros HF Hp HQ. apply wp_store8; [apply (filling_mapped F m HF); lia|].
  apply HQ. apply (filling_write F m p 1 HF); lia.
Qed.

Lemma wp_fill_n k v F p (Q : unit -> mem -> Prop) m :
  le_bytes k v = replicate k (u8 c) ->
  filling F m -> dest <= p -> p + Z.of_nat k <= dest + n ->
  (forall m', filling (fun a => F a \/ p <= a < p + Z.of_nat k) m' -> Q tt m') ->
  wp (store_n k p v) Q m.
Proof.
  intros Hv HF Hp Hk HQ. apply wp_store_n.
  - eapply mapped_sub; [eapply filling_mapped, HF|lia|lia].
  - rewrite Hv. apply HQ. now apply filling_write.
Qed.

Lemma filling_done F m :
  filling F m -> (forall a, dest <= a < dest + n -> F a) ->
  m = write m0 dest (replicate (Z.to_nat n) (u8 c)).
Proof.
  intros [H1 H2] HF. apply map_eq; intros a. rewrite lookup_write, length_replicate.
  case_decide.
  - rewrite lookup_replicate_2 by lia. apply H2, HF. lia.
  - destruct (H1 a) as [H3|[H3 _]]; [exact H3|lia].
Qed.

Ltac fill_step :=
  apply wp_bind;
  first [ eapply wp_fill8; [eassumption|lia|]
        | eapply wp_fill_n; [apply c32_bytes|eassumption|lia|lia|]
        | eapply wp_fill_n; [apply c64_bytes|eassumption|lia|lia|] ];
  let m := fresh "m" in let HF := fresh "HF" in intros m HF.

Ltac fill_done :=
  apply wp_ret; split; [reflexivity|]; eapply filling_done; [eassumption|];
  cbv beta; intros; lia.

Lemma memset_words_spec m :
  8 < n ->
  filling (fun a => dest <= a < dest + 4 \/ dest + n - 4 <= a < dest + n) m ->
  wp (memset_words dest dest c n)
     (fun a m' => a = dest /\ m' = write m0 dest (replicate (Z.to_nat n) (u8 c))) m.
Proof.
  intros Hn8 HF0. unfold memset_words. cbv zeta.
  rewrite land_3. set (k := u64 (- u64 dest) mod 4).
  assert (Hk : 0 <= k < 4) by (apply Z.mod_pos_bound; lia).
  rewrite land_m4 by lia. set (n1 := n - k - (n - k) mod 4).
  assert (Hn1 : n - k - 3 <= n1 <= n - k /\ n1 mod 4 = 0).
  { subst n1. zlia. }
  clearbody n1. destruct Hn1 as [Hn1 Hmod].
  assert (exists q, n1 = 4 * q) as [q Hq] by (exists (n1 / 4); zlia).
  set (s := dest + k) in *. assert (Hs : dest <= s < dest + 4) by lia.
  destruct (land_4 (u64 s)) as [Hl1 Hl2]; [apply u64_range|].
  assert (exists r, Z.land (u64 s) 4 = 4 * r) as [r Hr]
    by (exists (Z.land (u64 s) 4 / 4); zlia).
  rewrite Hr in *. clearbody k. clear Hl2 Hmod.
  do 2 fill_step. wp_step; [fill_done|].
  do 4 fill_step. wp_step; [fill_done|].
  do 8 fill_step.
  apply wp_bind.
  eapply (wp_loop _ (fun '(x, y) m' => s + 24 <= x /\ x + y = s + n1 /\ (exists t, y = 4 * t) /\
      0 <= y /\
      filling (fun a => dest <= a < x \/ s + n1 - 28 <= a < dest + n) m')
    (fun '(x, y) => Z.to_nat y)).
  - intros [x y] m' (Hx & Hy & [t Ht] & Hy0 & HFl). wp_step.
    + do 4 fill_step. apply wp_ret. split; [|lia].
      split; [lia|]. split; [lia|]. split; [exists (t - 8); lia|]. split; [lia|].
      eapply filling_weaken; [eassumption|]. cbv beta. intros; lia.
    + apply wp_ret. fill_done.
  - split; [lia|]. split; [lia|]. split; [exists (q - 6 - r); lia|]. split; [lia|].
    eapply filling_weaken; [eassumption|]. cbv beta. intros; lia.
  - lia.
Qed.

Lemma memset_spec :
  memset dest c n m0 = Ok dest (write m0 dest (replicate (Z.to_nat n) (u8 c))).
Proof.
  apply wp_eq. unfold memset. cbv zeta. wp_step.
  { apply wp_ret. rewrite E. split; reflexivity. }
  assert (HF0 : filling (fun _ => False) m0) by (split; [auto|tauto]).
  do 2 fill_step. wp_step; [fill_done|].
  do 4 fill_step. wp_step; [fill_done|].
  do 2 fill_step. wp_step; [fill_done|].
  apply memset_words_spec; [lia|].
  eapply filling_weaken; [eassumption|]. cbv beta. intros; lia.
Qed.

End fill.

(** ** memcmp and memrchr *)

Lemma first_diff_eq xs ys :
  length xs = length ys -> first_diff xs ys = 0 <-> xs = ys.
Proof.
  revert ys. induction xs as [|x xs IH]; intros [|y ys] Hl; simpl in *; try lia; [tauto|].
  destruct (x =? y) eqn:E; zbool.
  - rewrite IH by lia. subst. split; [now intros ->|intros H; now injection H].
  - split; [lia|]. intros H. now injection H.
Qed.

Lemma memcmp_spec m l r xs ys :
  bytes_at m l xs -> bytes_at m r ys -> length xs = length ys ->
  memcmp l r (Z.of_nat (length xs)) m = Ok (first_diff xs ys) m.
Proof.
  intros Hx Hy Hl. apply wp_eq. unfold memcmp. apply wp_bind.
  eapply (wp_loop _ (fun '(p, q, n) m' => m' = m /\ exists xs' ys',
      bytes_at m p xs' /\ bytes_at m q ys' /\ length xs' = length ys' /\
      n = Z.of_nat (length xs') /\ first_diff xs' ys' = first_diff xs ys)
    (fun x => Z.to_nat (snd x))); [| |simpl; lia].
  - intros [[p q] n] ? (-> & xs' & ys' & Hx' & Hy' & Hl' & -> & Hd).
    destruct xs' as [|a xs'], ys' as [|b ys']; try discriminate.
    + apply wp_ret, wp_ret. split; [exact (eq_sym Hd) || (now rewrite <- Hd)|reflexivity].
    + rewrite (proj2 (Z.eqb_neq _ 0)) by (simpl; lia).
      apply bytes_at_cons in Hx' as [Ha Hx'], Hy' as [Hb Hy']. cbn [first_diff] in Hd.
      apply wp_bind, wp_load8 with a; [exact Ha|]. apply wp_bind, wp_load8 with b; [exact Hb|].
      wp_step.
      * apply wp_ret. split; [|simpl; lia]. split; [reflexivity|]. exists xs', ys'.
        simpl in *. repeat split; auto; lia.
      * apply wp_ret. cbv beta iota. rewrite (proj2 (Z.eqb_neq _ 0)) by (simpl; lia).
        apply wp_bind, wp_load8 with a; [exact Ha|].
        apply wp_bind, wp_load8 with b; [exact Hb|].
        apply wp_ret. now split.
  - split; [reflexivity|]. exists xs, ys. auto.
Qed.

Lemma last_index_Some c bs n i :
  last_index c bs n = Some i <->
  (i < n)%nat /\ bs !! i = Some c /\ forall j, (i < j < n)%nat -> bs !! j <> Some c.
Proof.
  induction n as [|n IH]; simpl; [split; [discriminate|lia]|]. case_decide as Hc.
  - split.
    + intros H. injection H as <-. repeat split; [lia|exact Hc|intros; lia].
    + intros (H1 & H2 & H3). f_equal. destruct (decide (i = n)); [auto|].
      exfalso. apply (H3 n); [lia|exact Hc].
  - rewrite IH. split; intros (H1 & H2 & H3).
    + repeat split; [lia|exact H2|]. intros j Hj. destruct (decide (j = n)); [congruence|].
      apply H3. lia.
    + assert (i <> n) by congruence. repeat split; [lia|exact H2|]. intros j Hj. apply H3. lia.
Qed.

Lemma memrchr_spec m p c bs :
  bytes_at m p bs ->
  memrchr p c (Z.of_nat (length bs)) m =
  Ok (match last_index (u8 c) bs (length bs) with Some i => p + Z.of_nat i | None => 0 end) m.
Proof.
  intros Hb. apply wp_eq. unfold memrchr.
  eapply (wp_loop _ (fun n m' => m' = m /\ exists k, n = Z.of_nat k /\ (k <= length bs)%nat /\
      last_index (u8 c) bs k = last_index (u8 c) bs (length bs)) Z.to_nat); [| |lia].
  - intros n ? (-> & k & -> & Hk & HL). destruct k as [|k].
    + apply wp_ret. rewrite <- HL. split; reflexivity.
    + rewrite (proj2 (Z.eqb_neq _ 0)) by lia. cbv zeta.
      replace (Z.of_nat (S k) - 1) with (Z.of_nat k) by lia.
      destruct (lookup_lt_is_Some_2 bs k) as [b Hbk]; [lia|].
      apply wp_bind, wp_load8 with b; [apply Hb, Hbk|]. cbn [last_index] in HL. wp_step.
      * subst b. apply wp_ret. rewrite <- HL, decide_True by exact Hbk. split; reflexivity.
      * apply wp_ret. split; [|lia]. split; [reflexivity|]. exists k.
        rewrite decide_False in HL by congruence. repeat split; [lia|exact HL].
  - split; [reflexivity|]. eauto.
Qed.
