(* ===== verification/StrFns.v ===== *)
(** * libc/src/string/string.c: C strings

    Word-at-a-time scans read whole aligned words, so their theorems ask for a
    memory mapped in whole words ([wordwise]). *)

From S2P Require Import Prelude CMem Ctype MemFns.

(** ** Word tricks *)

(** [(size_t)-1 / UCHAR_MAX], [ONES * (UCHAR_MAX / 2 + 1)] and [HASZERO]. *)
Definition ONES : Z := u64 (-1) / 255.
Definition HIGHS : Z := u64 (ONES * (255 / 2 + 1)).
Definition HASZERO (x : Z) : bool :=
  negb (Z.land (u64 (x - ONES)) (Z.land (u64 (Z.lnot x)) HIGHS) =? 0).

(** ** Searching *)

(** [strrchr] compares the plain (signed) [char] with the [int] argument. *)
Definition strrchr (str ch : Z) : M Z :=
  scan (fun '(str, last) =>
    b ← load8 str;
    let c := s8 b in
    if c =? 0 then mret (Break last)
    else mret (Next (str + 1, if c =? ch then str else last))) (str, 0).

(** The two copies of the string-to-int loop. *)
Definition atoi (s : Z) : M Z :=
  s ← scan (fun s => b ← load8 s; if isspace (s8 b) then mret (Next (s + 1)) else mret (Break s)) s;
  b ← load8 s;
  let '(neg, s) := if b =? 45 then (true, s + 1)
                   else if b =? 43 then (false, s + 1) else (false, s) in
  n ← scan (fun '(s, n) =>
        b ← load8 s;
        if isdigit (s8 b) then mret (Next (s + 1, s32 (10 * n - (s8 b - 48))))
        else mret (Break n)) (s, 0);
  mret (if neg then n else s32 (- n)).

(** [atol] accumulates in an [int] too and widens the result. *)
Definition atol (s : Z) : M Z :=
  s ← scan (fun s => b ← load8 s; if isspace (s8 b) then mret (Next (s + 1)) else mret (Break s)) s;
  b ← load8 s;
  let '(neg, s) := if b =? 45 then (true, s + 1)
                   else if b =? 43 then (false, s + 1) else (false, s) in
  n ← scan (fun '(s, n) =>
        b ← load8 s;
        if isdigit (s8 b) then mret (Next (s + 1, s32 (10 * n - (s8 b - 48))))
        else mret (Break n)) (s, 0);
  mret (if neg then n else s32 (- n)).

Definition strlen (s : Z) : M Z :=
  let a := s in
  f ← scan (fun s =>
        if s mod 8 =? 0 then mret (Break (Fall s))
        else b ← load8 s;
             if b =? 0 then mret (Break (Return (s - a))) else mret (Next (s + 1))) s;
  match f with
  | Return r => mret r
  | Fall s =>
      w ← scan (fun w => x ← load64 w;
                 if HASZERO x then mret (Break w) else mret (Next (w + 8))) s;
      s ← scan (fun s => b ← load8 s;
                 if b =? 0 then mret (Break s) else mret (Next (s + 1))) w;
      mret (s - a)
  end.

(** [maxsize--] is evaluated only when the byte is not zero. *)
Definition strnlen (str maxsize : Z) : M Z :=
  s ← scan (fun '(s, n) =>
        b ← load8 s;
        if b =? 0 then mret (Break s)
        else if n =? 0 then mret (Break s)
        else mret (Next (s + 1, n - 1))) (str, maxsize);
  mret (u32 (s - str)).

Definition strchr (s c : Z) : M Z :=
  let c := u8 c in
  if c =? 0 then l ← strlen s; mret (s + l) else
  r ← scan (fun s =>
        b ← load8 s;
        if b =? 0 then mret (Break s)
        else if b =? c then mret (Break s) else mret (Next (s + 1))) s;
  b ← load8 r;
  mret (if b =? u8 c then r else 0).

Definition strchrnul (s c : Z) : M Z :=
  let c := u8 c in
  if c =? 0 then l ← strlen s; mret (s + l) else
  f ← scan (fun s =>
        if s mod 8 =? 0 then mret (Break (Fall s))
        else b ← load8 s;
             if (b =? 0) || (b =? c) then mret (Break (Return s)) else mret (Next (s + 1))) s;
  match f with
  | Return r => mret r
  | Fall s =>
      let k := u64 (ONES * c) in
      w ← scan (fun w =>
            x ← load64 w;
            if negb (HASZERO x) && negb (HASZERO (Z.lxor x k))
            then mret (Next (w + 8)) else mret (Break w)) s;
      scan (fun s =>
        b ← load8 s;
        if (b =? 0) || (b =? c) then mret (Break s) else mret (Next (s + 1))) w
  end.

(** [size_t byteset[4]] and [BITOP]. *)
Definition byteset_init : list Z := [0; 0; 0; 0].
Definition byteset_add (A : list Z) (b : Z) : list Z :=
  let i := Z.to_nat (b / 64) in
  <[i := Z.lor (default 0 (A !! i)) (u64 (Z.shiftl 1 (b mod 64)))]> A.
Definition byteset_mem (A : list Z) (b : Z) : bool :=
  negb (Z.land (default 0 (A !! Z.to_nat (b / 64))) (u64 (Z.shiftl 1 (b mod 64))) =? 0).

(** [for (; *c && BITOP(byteset, *c, |=); c++);] *)
Definition byteset_of (c : Z) : M (list Z) :=
  scan (fun '(c, A) =>
    b ← load8 c;
    if b =? 0 then mret (Break A) else mret (Next (c + 1, byteset_add A b)))
    (c, byteset_init).

Definition strspn (s c : Z) : M Z :=
  let a := s in
  c0 ← load8 (c + 0);
  if c0 =? 0 then mret 0 else
  c1 ← load8 (c + 1);
  if c1 =? 0 then
    s ← scan (fun s => x ← load8 s; y ← load8 c;
               if s8 x =? s8 y then mret (Next (s + 1)) else mret (Break s)) s;
    mret (s - a)
  else
    A ← byteset_of c;
    s ← scan (fun s => b ← load8 s;
               if b =? 0 then mret (Break s)
               else if byteset_mem A b then mret (Next (s + 1)) else mret (Break s)) s;
    mret (s - a).

Definition strcspn (s c : Z) : M Z :=
  let a := s in
  c0 ← load8 (c + 0);
  both ← (if c0 =? 0 then mret false else c1 ← load8 (c + 1); mret (negb (c1 =? 0)));
  if (both : bool) then
    A ← byteset_of c;
    s ← scan (fun s => b ← load8 s;
               if b =? 0 then mret (Break s)
               else if byteset_mem A b then mret (Break s) else mret (Next (s + 1))) s;
    mret (s - a)
  else
    c0 ← load8 c;
    r ← strchrnul s (s8 c0);
    mret (r - a).

Definition strpbrk (s b : Z) : M Z :=
  k ← strcspn s b;
  let s := s + k in
  c ← load8 s;
  mret (if c =? 0 then 0 else s).

(** [memchr] of string.c. *)
Definition memchr (src c n : Z) : M Z :=
  let c := u8 c in
  '(s, n) ← loop (S (Z.to_nat n)) (fun '(s, n) =>
      if n =? 0 then mret (Break (s, n))
      else b ← load8 s;
           if b =? c then mret (Break (s, n)) else mret (Next (s + 1, n - 1))) (src, n);
  mret (if n =? 0 then 0 else s).

(** ** Comparing *)

Definition strcmp (l r : Z) : M Z :=
  '(l, r) ← scan (fun '(l, r) =>
      x ← load8 l; y ← load8 r;
      if (s8 x =? s8 y) && negb (s8 x =? 0) then mret (Next (l + 1, r + 1))
      else mret (Break (l, r))) (l, r);
  x ← load8 l; y ← load8 r; mret (x - y).

Definition strncmp (l r n : Z) : M Z :=
  if n =? 0 then mret 0 else
  let n := n - 1 in
  '(l, r) ← scan (fun '(l, r, n) =>
      x ← load8 l;
      if x =? 0 then mret (Break (l, r)) else
      y ← load8 r;
      if y =? 0 then mret (Break (l, r)) else
      if n =? 0 then mret (Break (l, r)) else
      if x =? y then mret (Next (l + 1, r + 1, n - 1)) else mret (Break (l, r))) (l, r, n);
  x ← load8 l; y ← load8 r; mret (x - y).

Definition strcoll (s1 s2 : Z) : M Z := strcmp s1 s2.

(** [foldcase] takes and returns a [char]. *)
Definition foldcase (ch : Z) : Z := s8 (if isalpha (s8 ch) then tolower (s8 ch) else s8 ch).

Definition strcasecmp (s1 s2 : Z) : M Z :=
  f ← scan (fun '(s1, s2) =>
      x ← load8 s1; y ← load8 s2;
      if foldcase x =? foldcase y
      then if x =? 0 then mret (Break (Return 0)) else mret (Next (s1 + 1, s2 + 1))
      else mret (Break (Fall (s1, s2)))) (s1, s2);
  match f with
  | Return r => mret r
  | Fall (s1, s2) =>
      x ← load8 s1; y ← load8 s2;
      mret (if foldcase x <? foldcase y then -1 else 1)
  end.

Definition strncasecmp (s1 s2 n : Z) : M Z :=
  if n =? 0 then mret 0 else
  loop (S (Z.to_nat n)) (fun '(s1, s2, n) =>
    x ← load8 s1; y ← load8 s2;
    if negb (foldcase x =? foldcase y)
    then x ← load8 s1; y ← load8 s2; mret (Break (foldcase x - foldcase y))
    else if x =? 0 then mret (Break 0)
    else if n - 1 =? 0 then mret (Break 0)
    else mret (Next (s1 + 1, s2 + 1, n - 1))) (s1, s2, n).

(** ** Copying *)

(** [for (; ( *d = *s ); s++, d++);] *)
Definition copy_bytes (d s : Z) : M Z :=
  scan (fun '(d, s) =>
    b ← load8 s; store8 d b;;
    if b =? 0 then mret (Break d) else mret (Next (d + 1, s + 1))) (d, s).

(** The common text of [stpcpy] and [strcpy]: bytes up to alignment, words
    without a zero byte, bytes.  Both return the advanced [d]. *)
Definition copy_string (d s : Z) : M Z :=
  if s mod 8 =? d mod 8 then
    f ← scan (fun '(d, s) =>
          if s mod 8 =? 0 then mret (Break (Fall (d, s)))
          else b ← load8 s; store8 d b;;
               if b =? 0 then mret (Break (Return d)) else mret (Next (d + 1, s + 1))) (d, s);
    match f with
    | Return r => mret r
    | Fall (d, s) =>
        '(wd, ws) ← scan (fun '(wd, ws) =>
            x ← load64 ws;
            if HASZERO x then mret (Break (wd, ws))
            else x ← load64 ws; store64 wd x;; mret (Next (wd + 8, ws + 8))) (d, s);
        copy_bytes wd ws
    end
  else copy_bytes d s.

Definition stpcpy (d s : Z) : M Z := copy_string d s.
Definition strcpy (d s : Z) : M Z := copy_string d s.

(** [strncpy] tests [& ALIGN], that is bit 3, and not the low three bits. *)
Definition strncpy (d s n : Z) : M Z :=
  r ← (if Z.land s 8 =? Z.land d 8 then
         '(d, s, n) ← scan (fun '(d, s, n) =>
             if Z.land s 8 =? 0 then mret (Break (d, s, n)) else
             if n =? 0 then mret (Break (d, s, n)) else
             b ← load8 s; store8 d b;;
             if b =? 0 then mret (Break (d, s, n))
             else mret (Next (d + 1, s + 1, n - 1))) (d, s, n);
         tail ← (if n =? 0 then mret true else b ← load8 s; mret (b =? 0));
         if (tail : bool) then mret (Return (d, n))
         else
           x ← scan (fun '(wd, ws, n) =>
               if 8 <=? n then
                 x ← load64 ws;
                 if HASZERO x then mret (Break (wd, ws, n))
                 else x ← load64 ws; store64 wd x;; mret (Next (wd + 8, ws + 8, n - 8))
               else mret (Break (wd, ws, n))) (d, s, n);
           mret (Fall x)
       else mret (Fall (d, s, n)));
  '(d, n) ← match r with
    | Return x => mret x
    | Fall x =>
        scan (fun '(d, s, n) =>
          if n =? 0 then mret (Break (d, n)) else
          b ← load8 s; store8 d b;;
          if b =? 0 then mret (Break (d, n)) else mret (Next (d + 1, s + 1, n - 1))) x
    end;
  memset d 0 n;;
  mret d.

Definition strcat (dest src : Z) : M Z :=
  l ← strlen dest; strcpy (dest + l) src;; mret dest.

Definition strncat (d s n : Z) : M Z :=
  let a := d in
  l ← strlen d;
  let d := d + l in
  d ← scan (fun '(d, s, n) =>
        if n =? 0 then mret (Break d) else
        b ← load8 s;
        if b =? 0 then mret (Break d)
        else store8 d b;; mret (Next (d + 1, s + 1, n - 1))) (d, s, n);
  store8 d 0;;
  mret a.

(** [malloc] is a parameter here. *)
Definition strdup (malloc : Z -> M Z) (s : Z) : M Z :=
  l ← strlen s;
  p ← malloc (l + 1);
  memcpy p s (l + 1).

(** ** Tokens

    [*saveptr] is passed and returned; 0 is the null pointer. *)
Definition strtok_r (str delim saveptr : Z) : M (Z * Z) :=
  let str := if str =? 0 then saveptr else str in
  k ← strspn str delim;
  let str := str + k in
  b ← load8 str;
  if b =? 0 then mret (0, str) else
  let token := str in
  str ← strpbrk token delim;
  if str =? 0 then
    p ← strchr token 0; mret (token, p)
  else
    store8 str 0;; mret (token, str + 1).

(** The static [saveptr] of [strtok] is state. *)
Definition strtok (str delim saveptr : Z) : M (Z * Z) :=
  let saveptr := if negb (str =? 0) then 0 else saveptr in
  strtok_r str delim saveptr.

(** ** Lowest set bit *)

Definition debruijn32 : list Z :=
  [0; 1; 23; 2; 29; 24; 19; 3; 30; 27; 25; 11; 20; 8; 4; 13; 31; 22; 28; 18; 26; 10;
   7; 12; 21; 17; 9; 6; 16; 5; 15; 14].
Definition a_ctz_32 (x : Z) : Z :=
  default 0 (debruijn32 !! Z.to_nat (Z.shiftr (u32 (Z.land x (u32 (- x)) * 124511785)) 27)).

Definition debruijn64 : list Z :=
  [0; 1; 2; 53; 3; 7; 54; 27; 4; 38; 41; 8; 34; 55; 48; 28; 62; 5; 39; 46; 44; 42;
   22; 9; 24; 35; 59; 56; 49; 18; 29; 11; 63; 52; 6; 26; 37; 40; 33; 47; 61; 45; 43; 21;
   23; 58; 17; 10; 51; 25; 36; 32; 60; 20; 57; 16; 50; 31; 19; 15; 30; 14; 13; 12].
(** [sizeof(long)] is 8, so the 32-bit branch is dead. *)
Definition a_ctz_64 (x : Z) : Z :=
  default 0 (debruijn64 !! Z.to_nat (Z.shiftr (u64 (Z.land x (u64 (- x)) * 157587932685088877)) 58)).
Definition a_ctz_l (x : Z) : Z := a_ctz_64 x.
(** The [int] argument converts to [unsigned long] by sign extension. *)
Definition ffs (i : Z) : Z := if i =? 0 then 0 else a_ctz_l (u64 i) + 1.
