(* ===== verification/StrSpec.v ===== *)
(** * Theorems on string.c *)

From S2P Require Import Prelude CMem Ctype MemFns StrFns.

(** ** Zero bytes in a word *)

Lemma testbit_low_high a a' i :
  0 <= a < 256 -> 0 <= i ->
  Z.testbit (a + 256 * a') i = if i <? 8 then Z.testbit a i else Z.testbit a' (i - 8).
Proof.
  intros Ha Hi. replace (a + 256 * a') with (Z.lor a (Z.shiftl a' 8)).
  - rewrite Z.lor_spec. zif.
    + rewrite Z.shiftl_spec_low by lia. apply orb_false_r.
    + rewrite Z.shiftl_spec by lia. rewrite <- (Z.mod_small a (2 ^ 8)) at 1 by lia.
      now rewrite Z.mod_pow2_bits_high by lia.
  - assert (E : Z.land a (Z.shiftl a' 8) = 0).
    { apply Z.bits_inj'. intros j Hj. rewrite Z.land_spec, Z.testbit_0_l.
      destruct (decide (j < 8)).
      - rewrite Z.shiftl_spec_low by lia. apply andb_false_r.
      - rewrite <- (Z.mod_small a (2 ^ 8)) by lia.
        now rewrite Z.mod_pow2_bits_high by lia. }
    rewrite <- Z.lxor_lor, <- Z.add_nocarry_lxor by exact E.
    rewrite Z.shiftl_mul_pow2 by lia. lia.
Qed.

Lemma bitop_range (op : Z -> Z -> Z) a b :
  (forall x y i, 0 <= i -> Z.testbit x i = false -> Z.testbit y i = false ->
     Z.testbit (op x y) i = false) ->
  (forall x y, 0 <= x -> 0 <= y -> 0 <= op x y) ->
  0 <= a < 256 -> 0 <= b < 256 -> 0 <= op a b < 256.
Proof.
  intros Hop Hpos Ha Hb. split; [apply Hpos; lia|].
  assert (E : op a b = op a b mod 2 ^ 8).
  { apply Z.bits_inj'. intros i Hi. destruct (decide (i < 8)).
    - now rewrite Z.mod_pow2_bits_low by lia.
    - rewrite Z.mod_pow2_bits_high by lia. apply Hop; [lia| |];
        [rewrite <- (Z.mod_small a (2 ^ 8)) by lia|rewrite <- (Z.mod_small b (2 ^ 8)) by lia];
        now rewrite Z.mod_pow2_bits_high by lia. }
  rewrite E. apply Z.mod_pos_bound. lia.
Qed.

Lemma land_byte a b : 0 <= a < 256 -> 0 <= b < 256 -> 0 <= Z.land a b < 256.
Proof.
  apply bitop_range.
  - intros x y i _ H1 _. now rewrite Z.land_spec, H1.
  - intros. apply Z.land_nonneg. lia.
Qed.

Lemma lxor_byte a b : 0 <= a < 256 -> 0 <= b < 256 -> 0 <= Z.lxor a b < 256.
Proof.
  apply bitop_range.
  - intros x y i _ H1 H2. now rewrite Z.lxor_spec, H1, H2.
  - intros. apply Z.lxor_nonneg. lia.
Qed.

Lemma land_split a a' b b' :
  0 <= a < 256 -> 0 <= b < 256 ->
  Z.land (a + 256 * a') (b + 256 * b') = Z.land a b + 256 * Z.land a' b'.
Proof.
  intros. apply Z.bits_inj'. intros i Hi. rewrite Z.land_spec.
  rewrite !testbit_low_high by (try apply land_byte; lia).
  zif; now rewrite Z.land_spec.
Qed.

Lemma lxor_split a a' b b' :
  0 <= a < 256 -> 0 <= b < 256 ->
  Z.lxor (a + 256 * a') (b + 256 * b') = Z.lxor a b + 256 * Z.lxor a' b'.
Proof.
  intros. apply Z.bits_inj'. intros i Hi. rewrite Z.lxor_spec.
  rewrite !testbit_low_high by (try apply lxor_byte; lia).
  zif; now rewrite Z.lxor_spec.
Qed.

(** The test for words of any number of bytes. *)
Definition haszero_n (k : nat) (x : Z) : Z :=
  Z.land ((x - le_val (replicate k 1)) mod 256 ^ Z.of_nat k)
         (Z.land (Z.lnot x mod 256 ^ Z.of_nat k) (le_val (replicate k 128))).

Lemma mod_split a x k :
  0 <= a < 256 -> (a + 256 * x) mod 256 ^ Z.of_nat (S k) = a + 256 * (x mod 256 ^ Z.of_nat k).
Proof.
  intros. rewrite Nat2Z.inj_succ, Z.pow_succ_r by lia.
  rewrite Z.rem_mul_r by lia.
  rewrite (Z.mul_comm 256 x), Z.div_add by lia.
  rewrite Z_mod_plus_full, (Z.mod_small a), (Z.div_small a), Z.add_0_l by lia. reflexivity.
Qed.

Lemma haszero_byte b : 1 <= b < 256 -> Z.land (b - 1) (Z.land (255 - b) 128) = 0.
Proof.
  intros Hb.
  assert (H : forallb (fun i => Z.land (Z.of_nat i - 1) (Z.land (255 - Z.of_nat i) 128) =? 0)
                (seq 1 255) = true) by (vm_compute; reflexivity).
  rewrite forallb_forall in H. specialize (H (Z.to_nat b)).
  rewrite Z2Nat.id in H by lia. apply Z.eqb_eq, H, in_seq. lia.
Qed.

Lemma haszero_n_spec bs :
  Forall is_byte bs -> haszero_n (length bs) (le_val bs) = 0 <-> 0 ∉ bs.
Proof.
  intros H. induction H as [|b bs Hb _ IH].
  - split; [intros _; apply not_elem_of_nil|reflexivity].
  - unfold is_byte in Hb.
    assert (E2 : Z.lnot (le_val (b :: bs)) mod 256 ^ Z.of_nat (length (b :: bs)) =
      (255 - b) + 256 * (Z.lnot (le_val bs) mod 256 ^ Z.of_nat (length bs))).
    { cbn [length le_val]. rewrite <- mod_split by lia. f_equal. unfold Z.lnot. lia. }
    unfold haszero_n in *. rewrite E2. cbn [length replicate le_val].
    rewrite not_elem_of_cons. destruct (decide (b = 0)) as [->|Hb0].
    + split; [|tauto]. intros E. exfalso.
      replace (0 + 256 * le_val bs - (1 + 256 * le_val (replicate (length bs) 1)))
        with (255 + 256 * (le_val bs - le_val (replicate (length bs) 1) - 1)) in E by lia.
      rewrite mod_split, !land_split in E by (try apply land_byte; lia).
      change (Z.land 255 (Z.land (255 - 0) 128)) with 128 in E. lia.
    + replace (b + 256 * le_val bs - (1 + 256 * le_val (replicate (length bs) 1)))
        with ((b - 1) + 256 * (le_val bs - le_val (replicate (length bs) 1))) by lia.
      rewrite mod_split, !land_split by (try apply land_byte; lia).
      rewrite haszero_byte by lia. rewrite <- IH. split; [|lia]. intros. split; lia.
Qed.

(** [HASZERO] is true exactly when one of the 8 bytes is zero. *)
Lemma HASZERO_spec bs :
  Forall is_byte bs -> length bs = 8%nat -> HASZERO (le_val bs) = true <-> 0 ∈ bs.
Proof.
  intros Hb Hl. pose proof (haszero_n_spec bs Hb) as H. rewrite Hl in H.
  assert (E : haszero_n 8 (le_val bs) =
    Z.land (u64 (le_val bs - ONES)) (Z.land (u64 (Z.lnot (le_val bs))) HIGHS)) by reflexivity.
  rewrite E in H. unfold HASZERO. rewrite negb_true_iff, Z.eqb_neq, H. split.
  - intros Hn. destruct (decide (0 ∈ bs)); tauto.
  - tauto.
Qed.

Lemma HASZERO_false bs :
  Forall is_byte bs -> length bs = 8%nat -> HASZERO (le_val bs) = false <-> 0 ∉ bs.
Proof.
  intros Hb Hl. pose proof (HASZERO_spec bs Hb Hl) as H.
  destruct (HASZERO _); split; intros; try congruence; try tauto.
  intros Hin. apply H in Hin. congruence.
Qed.

Lemma lxor_replicate bs c :
  Forall is_byte bs -> is_byte c ->
  Z.lxor (le_val bs) (le_val (replicate (length bs) c)) = le_val (map (fun b => Z.lxor b c) bs).
Proof.
  intros H Hc. induction H as [|b bs Hb _ IH]; [reflexivity|].
  cbn [length replicate le_val map]. rewrite lxor_split by assumption. now rewrite IH.
Qed.

Lemma HASZERO_xor bs c :
  Forall is_byte bs -> is_byte c -> length bs = 8%nat ->
  HASZERO (Z.lxor (le_val bs) (u64 (ONES * c))) = false <-> c ∉ bs.
Proof.
  intros Hb Hc Hl.
  replace (u64 (ONES * c)) with (le_val (replicate (length bs) c)).
  2: { unfold is_byte in Hc. rewrite Hl. change ONES with 72340172838076673.
       rewrite u64_small by lia. cbn [replicate le_val]. lia. }
  rewrite lxor_replicate by assumption. rewrite HASZERO_false.
  - rewrite !list_elem_of_In, in_map_iff. split; intros H Hin; apply H.
    + exists c. split; [apply Z.lxor_nilpotent|exact Hin].
    + destruct Hin as (b & E & Hin). apply Z.lxor_eq in E. now subst.
  - rewrite Forall_forall. intros x Hx. rewrite in_map_iff in Hx. destruct Hx as (b & <- & Hx).
    apply lxor_byte; [|exact Hc]. rewrite Forall_forall in Hb. now apply Hb.
  - now rewrite length_map.
Qed.

(** ** Reading a word of a string *)

Lemma word_at m q :
  mem_ok m -> mapped m q 8 ->
  exists ws, length ws = 8%nat /\ Forall is_byte ws /\ bytes_at m q ws.
Proof.
  intros Hok Hm.
  exists ((fun i => default 0 (m !! (q + Z.of_nat i))) <$> seq 0 8).
  split; [now rewrite length_fmap, length_seq|]. split.
  - rewrite Forall_forall. intros b Hb. apply list_elem_of_In, list_elem_of_fmap in Hb as (i & -> & _).
    destruct (m !! (q + Z.of_nat i)) as [b|] eqn:E; simpl; [eapply Hok, E|split; lia].
  - intros i b Hi. rewrite list_lookup_fmap in Hi.
    destruct (seq 0 8 !! i) as [j|] eqn:E; [|discriminate].
    apply lookup_seq in E as [-> Hlt]. injection Hi as <-.
    destruct (Hm (q + Z.of_nat i)) as [b Hb]; [lia|]. simpl. now rewrite Hb.
Qed.

Lemma wordwise_mapped m q :
  wordwise m -> q mod 8 = 0 -> is_Some (m !! q) -> mapped m q 8.
Proof. intros Hw Hq Hs a Ha. apply (Hw q a); [zlia|exact Hs]. Qed.

Section string.
Context (m : mem) (p : Z) (s : list Z).
Hypothesis Hok : mem_ok m.
Hypothesis Hs : cstr m p s.
Let len := Z.of_nat (length s).

Lemma str_lookup i : 0 <= i <= len -> m !! (p + i) = Some (chr s i).
Proof. apply (cstr_lookup m p s i Hs). Qed.

Lemma str_byte i : is_byte (chr s i).
Proof. apply chr_range, Hs. Qed.

Lemma wp_load_chr i (Q : Z -> mem -> Prop) :
  0 <= i <= len -> Q (chr s i) m -> wp (load8 (p + i)) Q m.
Proof. intros Hi. eapply wp_load8. now apply str_lookup. Qed.

Lemma chr_is_zero i : 0 <= i <= len -> (chr s i =? 0) = (i =? len).
Proof.
  intros Hi. pose proof (chr_zero s i (cstr_chars _ _ _ Hs) Hi) as H. fold len in H.
  destruct (i =? len) eqn:E; zbool; [apply Z.eqb_eq|apply Z.eqb_neq]; tauto.
Qed.

(** A word read at a position of the string has a zero byte when the string
    ends in it. *)
Lemma word_of_string_at i :
  0 <= i <= len -> mapped m (p + i) 8 ->
  exists ws, length ws = 8%nat /\ Forall is_byte ws /\ bytes_at m (p + i) ws /\
    (0 ∉ ws -> i + 8 <= len) /\
    (forall j, i <= j <= len -> j < i + 8 -> chr s j ∈ ws).
Proof.
  intros Hi Hm. destruct (word_at m (p + i) Hok Hm) as (ws & Hl & Hb & Hat).
  assert (Hin : forall j, i <= j <= len -> j < i + 8 -> chr s j ∈ ws).
  { intros j Hj1 Hj2. apply list_elem_of_lookup. exists (Z.to_nat (j - i)).
    rewrite <- (bytes_at_lookup m (p + i) ws (j - i) Hat) by lia.
    replace (p + i + (j - i)) with (p + j) by lia. apply str_lookup. lia. }
  exists ws. repeat split; auto. intros H0. destruct (decide (i + 8 <= len)); [assumption|].
  exfalso. apply H0. specialize (Hin len ltac:(lia) ltac:(lia)).
  replace (chr s len) with 0 in Hin; [exact Hin|].
  symmetry. apply chr_zero; [apply Hs|unfold len; lia|reflexivity].
Qed.

Lemma word_of_string (Hw : wordwise m) i :
  0 <= i <= len -> (p + i) mod 8 = 0 ->
  exists ws, length ws = 8%nat /\ Forall is_byte ws /\ bytes_at m (p + i) ws /\
    (0 ∉ ws -> i + 8 <= len) /\
    (forall j, i <= j <= len -> j < i + 8 -> chr s j ∈ ws).
Proof.
  intros Hi Ha. apply word_of_string_at; [exact Hi|]. apply wordwise_mapped; auto.
  rewrite str_lookup by lia. eauto.
Qed.

Lemma scan_fuel i : 0 <= i -> (Z.to_nat (len - i) <= size m)%nat.
Proof. intros. pose proof (cstr_size _ _ _ Hs). unfold len. lia. Qed.

(** A scan whose rounds stay inside the string and move forward. *)
Lemma wp_scan_str {R} (body : Z -> M (ctl Z R)) (P : Z -> Prop) (Q : R -> mem -> Prop) i q0 :
  q0 = p + i -> 0 <= i <= len -> P i ->
  (forall j, 0 <= j <= len -> P j ->
     wp (body (p + j)) (fun x m' => m' = m /\
       match x with
       | Next q => exists k, q = p + k /\ j < k <= len /\ P k
       | Break r => Q r m
       end) m) ->
  wp (scan body q0) Q m.
Proof.
  intros -> Hi HP Hb.
  eapply (wp_scan _ (fun q m' => m' = m /\ exists j, q = p + j /\ 0 <= j <= len /\ P j)
    (fun q => Z.to_nat (p + len - q))).
  - eauto 6.
  - replace (p + len - (p + i)) with (len - i) by lia. apply scan_fuel. lia.
  - intros q ? (-> & j & -> & Hj & HPj). eapply wp_mono; [apply Hb; auto|].
    intros [q|r] ? (-> & H); [|exact H]. destruct H as (k & -> & Hk & HPk).
    split; [|lia]. split; [reflexivity|]. exists k. split; [reflexivity|]. split; [lia|exact HPk].
Qed.

(** The same with one more loop variable. *)
Lemma wp_scan_str2 {A R} (body : Z * A -> M (ctl (Z * A) R)) (P : Z -> A -> Prop)
    (Q : R -> mem -> Prop) i q0 a :
  q0 = p + i -> 0 <= i <= len -> P i a ->
  (forall j b, 0 <= j <= len -> P j b ->
     wp (body (p + j, b)) (fun x m' => m' = m /\
       match x with
       | Next (q, b') => exists k, q = p + k /\ j < k <= len /\ P k b'
       | Break r => Q r m
       end) m) ->
  wp (scan body (q0, a)) Q m.
Proof.
  intros -> Hi HP Hb.
  eapply (wp_scan _ (fun '(q, b) m' => m' = m /\ exists j, q = p + j /\ 0 <= j <= len /\ P j b)
    (fun '(q, b) => Z.to_nat (p + len - q))).
  - eauto 6.
  - replace (p + len - (p + i)) with (len - i) by lia. apply scan_fuel. lia.
  - intros [q b] ? (-> & j & -> & Hj & HPj). eapply wp_mono; [apply Hb; auto|].
    intros [[q b']|r] ? (-> & H); [|exact H]. destruct H as (k & -> & Hk & HPk).
    split; [|lia]. split; [reflexivity|]. exists k. split; [reflexivity|]. split; [lia|exact HPk].
Qed.

(** ** strlen *)

(** The byte loop from a position inside the string finds the end. *)
Lemma byte_scan_end i :
  0 <= i <= len ->
  wp (scan (fun s => b ← load8 s;
              if b =? 0 then mret (Break s) else mret (Next (s + 1))) (p + i))
     (fun r m' => r = p + len /\ m' = m) m.
Proof.
  intros Hi. eapply (wp_scan_str _ (fun _ => True) _ i); [reflexivity|lia|exact I|].
  intros j Hj _. apply wp_bind, wp_load_chr; [lia|]. rewrite chr_is_zero by lia. wp_step.
  - subst j. apply wp_ret. auto.
  - apply wp_ret. split; [reflexivity|]. exists (j + 1). repeat split; lia.
Qed.

Lemma word_scan_spec (Hw : wordwise m) i :
  0 <= i <= len -> (p + i) mod 8 = 0 ->
  wp (scan (fun w => x ← load64 w;
              if HASZERO x then mret (Break w) else mret (Next (w + 8))) (p + i))
     (fun r m' => m' = m /\ exists j, r = p + j /\ 0 <= j <= len) m.
Proof.
  intros Hi Ha. eapply (wp_scan_str _ (fun j => (p + j) mod 8 = 0) _ i); [reflexivity|lia|exact Ha|].
  intros j Hj Hja.
  destruct (word_of_string Hw j Hj Hja) as (ws & Hl & Hb & Hat & Hz & _).
  apply wp_bind. eapply wp_load_n; [exact Hat|exact Hl|]. wp_step.
  - apply wp_ret. eauto 6.
  - apply HASZERO_false in E; auto. apply Hz in E. apply wp_ret.
    split; [reflexivity|]. exists (j + 8). repeat split; zlia.
Qed.

Lemma strlen_spec (Hw : wordwise m) : strlen p m = Ok len m.
Proof.
  apply wp_eq. unfold strlen. cbv zeta. apply wp_bind.
  eapply (wp_scan_str _ (fun _ => True) _ 0); [lia|unfold len; lia|exact I|].
  intros j Hj _. wp_step.
  - apply wp_ret. split; [reflexivity|]. apply wp_bind.
    eapply wp_mono; [apply word_scan_spec; auto|].
    intros r ? (-> & k & -> & Hk). apply wp_bind. eapply wp_mono; [apply byte_scan_end; auto|].
    intros r ? (-> & ->). apply wp_ret. split; [lia|reflexivity].
  - apply wp_bind, wp_load_chr; [lia|]. rewrite chr_is_zero by lia. wp_step.
    + subst j. apply wp_ret. split; [reflexivity|]. apply wp_ret. split; [lia|reflexivity].
    + apply wp_ret. split; [reflexivity|]. exists (j + 1). repeat split; lia.
Qed.

End string.

(** ** Reference definitions for the searches *)

(** The length of the longest prefix on which [f] holds. *)
Fixpoint span (f : Z -> bool) (s : list Z) : nat :=
  match s with
  | c :: s' => if f c then S (span f s') else O
  | [] => O
  end.

Lemma span_le f s : (span f s <= length s)%nat.
Proof. induction s as [|c s IH]; simpl; [lia|]. destruct (f c); lia. Qed.

Lemma span_prefix f s j : 0 <= j < Z.of_nat (span f s) -> f (chr s j) = true.
Proof.
  revert j. induction s as [|c s IH]; simpl; intros j Hj; [lia|].
  destruct (f c) eqn:E; [|lia]. destruct (decide (j = 0)) as [->|]; [exact E|].
  rewrite chr_cons by lia. apply IH. lia.
Qed.

Lemma span_stop f s :
  (span f s < length s)%nat -> f (chr s (Z.of_nat (span f s))) = false.
Proof.
  induction s as [|c s IH]; simpl; [lia|]. destruct (f c) eqn:E; [|intros _; exact E].
  intros. rewrite chr_cons by lia.
  replace (Z.of_nat (S (span f s)) - 1) with (Z.of_nat (span f s)) by lia. apply IH. lia.
Qed.

Lemma span_unique f s k :
  0 <= k <= Z.of_nat (length s) ->
  (forall j, 0 <= j < k -> f (chr s j) = true) ->
  k = Z.of_nat (length s) \/ f (chr s k) = false ->
  Z.of_nat (span f s) = k.
Proof.
  intros Hk Hpre Hstop. pose proof (span_le f s).
  destruct (Z.lt_trichotomy (Z.of_nat (span f s)) k) as [H1|[H1|H1]]; [|exact H1|].
  - pose proof (span_stop f s ltac:(lia)) as E. rewrite Hpre in E by lia. discriminate.
  - destruct Hstop as [->|E]; [lia|]. rewrite span_prefix in E by lia. discriminate.
Qed.

Lemma span_ext f g s : (forall b, b ∈ s -> f b = g b) -> span f s = span g s.
Proof.
  induction s as [|c s IH]; intros H; [reflexivity|]. simpl. rewrite H by left.
  destruct (g c); [|reflexivity]. f_equal. apply IH. intros b Hb. apply H. now right.
Qed.

Lemma span_all f s : (forall b, b ∈ s -> f b = true) -> span f s = length s.
Proof.
  induction s as [|c s IH]; intros H; [reflexivity|]. simpl. rewrite H by left.
  f_equal. apply IH. intros b Hb. apply H. now right.
Qed.

(** Loops that walk to the end of a span are proved with this invariant. *)
Definition on_span (f : Z -> bool) (s : list Z) (j : Z) : Prop :=
  forall i, 0 <= i < j -> f (chr s i) = true.

Lemma on_span_0 f s : on_span f s 0.
Proof. intros i. lia. Qed.

Lemma on_span_step f s j : on_span f s j -> f (chr s j) = true -> on_span f s (j + 1).
Proof. intros H E i Hi. destruct (decide (i = j)) as [->|]; [exact E|apply H; lia]. Qed.

#[export] Hint Resolve on_span_0 on_span_step : chariot.

(** ** strnlen, strchr, strchrnul, memchr, strrchr *)

Section search.
Context (m : mem) (p : Z) (s : list Z).
Hypothesis Hok : mem_ok m.
Hypothesis Hw : wordwise m.
Hypothesis Hs : cstr m p s.
Let len := Z.of_nat (length s).

Ltac stay := split; [reflexivity|].
Ltac next j := apply wp_ret; stay; exists (j + 1); split; [lia|]; split; [lia|].

Lemma strnlen_spec n :
  0 <= n -> strnlen p n m = Ok (u32 (Z.min len n)) m.
Proof.
  intros Hn. apply wp_eq. unfold strnlen. apply wp_bind.
  eapply (wp_scan_str2 m p s Hs _ (fun j k => k = n - j /\ j <= n) _ 0);
    [lia|unfold len; lia|lia|].
  intros j k Hj [-> Hk]. apply wp_bind. eapply wp_load_chr; [exact Hs|lia|].
  erewrite chr_is_zero by (eauto || lia). fold len. wp_step; [|wp_step].
  - apply wp_ret. stay. apply wp_ret. split; [f_equal; lia|reflexivity].
  - apply wp_ret. stay. apply wp_ret. split; [f_equal; lia|reflexivity].
  - next j. lia.
Qed.

Lemma strchr_spec c :
  strchr p c m =
  Ok (let k := Z.of_nat (span (fun b => negb (b =? u8 c)) s) in
      if u8 c =? 0 then p + len else if k <? len then p + k else 0) m.
Proof.
  cbv zeta. unfold strchr. cbv zeta. pose proof (u8_range c) as Hc.
  destruct (u8 c =? 0) eqn:E0; zbool.
  { apply wp_eq, wp_bind. eapply wp_run; [apply (strlen_spec m p s); auto|].
    apply wp_ret. split; reflexivity. }
  apply wp_eq, wp_bind. set (f := fun b => negb (b =? u8 c)).
  eapply (wp_scan_str m p s Hs _ (on_span f s) _ 0); [lia|lia|apply on_span_0|].
  intros j Hj Hsp. apply wp_bind. eapply wp_load_chr; [exact Hs|lia|].
  erewrite chr_is_zero by (eauto || lia). fold len.
  assert (Hu : u8 (u8 c) = u8 c) by (apply u8_small; lia). wp_step; [|wp_step].
  - apply wp_ret. stay. apply wp_bind. eapply wp_load_chr; [exact Hs|lia|]. apply wp_ret.
    rewrite (span_unique f s j) by (auto; lia). split; [|reflexivity].
    replace (chr s j) with 0 by (symmetry; apply chr_zero; [apply Hs|lia|exact E]).
    rewrite Hu. repeat zif; lia.
  - apply wp_ret. stay. apply wp_bind. eapply wp_load_chr; [exact Hs|lia|]. apply wp_ret.
    rewrite (span_unique f s j); [|lia|exact Hsp|].
    + split; [|reflexivity]. rewrite Hu, E1, Z.eqb_refl. zif; lia.
    + right. unfold f. rewrite E1, Z.eqb_refl. reflexivity.
  - next j. apply on_span_step; [exact Hsp|]. unfold f. apply negb_true_iff, Z.eqb_neq. exact E1.
Qed.

Lemma strchrnul_spec c :
  strchrnul p c m =
  Ok (if u8 c =? 0 then p + len
      else p + Z.of_nat (span (fun b => negb (b =? u8 c)) s)) m.
Proof.
  unfold strchrnul. cbv zeta. pose proof (u8_range c) as Hc.
  destruct (u8 c =? 0) eqn:E0; zbool.
  { apply wp_eq, wp_bind. eapply wp_run; [apply (strlen_spec m p s); auto|].
    apply wp_ret. split; reflexivity. }
  set (f := fun b => negb (b =? u8 c)).
  (* a stop byte ends the span *)
  assert (Hend : forall j, 0 <= j <= len -> on_span f s j ->
    (chr s j =? 0) || (chr s j =? u8 c) = true -> Z.of_nat (span f s) = j).
  { intros j Hj Hsp E. apply span_unique; [lia|exact Hsp|].
    apply orb_true_iff in E as [E|E].
    - left. erewrite chr_is_zero in E by (eauto || lia). zbool. exact E.
    - right. unfold f. now rewrite E. }
  assert (Hgo : forall j, 0 <= j <= len -> on_span f s j ->
    (chr s j =? 0) || (chr s j =? u8 c) = false -> j + 1 <= len /\ on_span f s (j + 1)).
  { intros j Hj Hsp E. apply orb_false_iff in E as [E1 E2].
    erewrite chr_is_zero in E1 by (eauto || lia). fold len in E1. zbool. split; [lia|].
    apply on_span_step; [exact Hsp|]. unfold f. apply negb_true_iff, Z.eqb_neq. exact E2. }
  apply wp_eq, wp_bind.
  eapply (wp_scan_str m p s Hs _ (on_span f s) _ 0); [lia|lia|apply on_span_0|].
  intros j Hj Hsp. wp_step.
  - apply wp_ret. stay. apply wp_bind.
    eapply (wp_scan_str m p s Hs _ (fun k => (p + k) mod 8 = 0 /\ on_span f s k) _ j);
      [reflexivity|lia|split; [exact E|exact Hsp]|].
    intros k Hk [Ha Hsk].
    destruct (word_of_string m p s Hok Hs Hw k Hk Ha) as (ws & Hl & Hb & Hat & Hz & Hin).
    apply wp_bind. eapply wp_load_n; [exact Hat|exact Hl|]. wp_step.
    + apply HASZERO_false in H; auto. apply HASZERO_xor in H0; auto. apply wp_ret. stay.
      exists (k + 8). pose proof (Hz H). split; [lia|]. split; [lia|]. split; [zlia|].
      intros i Hi. destruct (decide (i < k)); [apply Hsk; lia|]. unfold f.
      apply negb_true_iff, Z.eqb_neq. intros Ei. apply H0. rewrite <- Ei. apply Hin; lia.
    + apply wp_ret. stay.
      eapply (wp_scan_str m p s Hs _ (on_span f s) _ k); [reflexivity|lia|exact Hsk|].
      intros i Hi Hsi. apply wp_bind. eapply wp_load_chr; [exact Hs|lia|].
      destruct (_ || _) eqn:Eo.
      * apply wp_ret. stay. rewrite (Hend i) by auto. auto.
      * destruct (Hgo i Hi Hsi Eo). next i. assumption.
  - apply wp_bind. eapply wp_load_chr; [exact Hs|lia|]. destruct (_ || _) eqn:Eo.
    + apply wp_ret. stay. apply wp_ret. rewrite (Hend j) by auto. auto.
    + destruct (Hgo j Hj Hsp Eo). next j. assumption.
Qed.

Lemma strrchr_spec ch :
  strrchr p ch m =
  Ok (match last_index (u8 ch) s (length s) with
      | Some i => if s8 (u8 ch) =? ch then p + Z.of_nat i else 0
      | None => 0
      end) m.
Proof.
  apply wp_eq. unfold strrchr.
  set (res := fun k => match last_index (u8 ch) s k with
                       | Some i => if s8 (u8 ch) =? ch then p + Z.of_nat i else 0
                       | None => 0 end).
  eapply (wp_scan_str2 m p s Hs _ (fun j last => last = res (Z.to_nat j)) _ 0);
    [lia|lia|reflexivity|].
  intros j last Hj ->. apply wp_bind. eapply wp_load_chr; [exact Hs|lia|].
  pose proof (str_byte m p s Hs j) as Hb. unfold is_byte in Hb. rewrite s8_eq0 by lia.
  erewrite chr_is_zero by (eauto || lia). fold len. wp_step.
  - subst. apply wp_ret. stay. split; [|reflexivity]. unfold res, len. now rewrite Nat2Z.id.
  - next j. replace (Z.to_nat (j + 1)) with (S (Z.to_nat j)) by lia.
    unfold res at 2. cbn [last_index]. rewrite chr_lookup by (unfold len in *; lia).
    destruct (s8 (chr s j) =? ch) eqn:Ec; zbool.
    + rewrite decide_True by (rewrite <- Ec, u8_s8 by lia; reflexivity).
      rewrite <- Ec, u8_s8, Z.eqb_refl by lia. lia.
    + case_decide as Ed; [|reflexivity]. injection Ed as Ed. rewrite <- Ed.
      rewrite (proj2 (Z.eqb_neq _ _) Ec). unfold res.
      destruct (last_index _ _ _); [|reflexivity].
      rewrite <- Ed. now rewrite (proj2 (Z.eqb_neq _ _) Ec).
Qed.

End search.

(** ** Byte sets, strspn, strcspn, strpbrk *)

(** A byte set is four words; it represents a list of bytes when its bit [b]
    is set exactly for the bytes [b] of the list. *)
Definition byteset_is (A : list Z) (cs : list Z) : Prop :=
  length A = 4%nat /\ (forall i w, A !! i = Some w -> 0 <= w) /\
  forall b, is_byte b -> byteset_mem A b = bool_decide (b ∈ cs).

Lemma bit_test w k : 0 <= w -> 0 <= k < 64 ->
  negb (Z.land w (u64 (Z.shiftl 1 k)) =? 0) = Z.testbit w k.
Proof.
  intros Hw Hk. rewrite Z.shiftl_mul_pow2, Z.mul_1_l by lia.
  rewrite u64_small.
  2: { split; [lia|]. change 18446744073709551616 with (2 ^ 64). apply Z.pow_lt_mono_r; lia. }
  destruct (Z.testbit w k) eqn:E.
  - apply negb_true_iff, Z.eqb_neq. intros H.
    assert (Z.testbit (Z.land w (2 ^ k)) k = true).
    { rewrite Z.land_spec, E, Z.pow2_bits_true by lia. reflexivity. }
    rewrite H in H0. now rewrite Z.testbit_0_l in H0.
  - apply negb_false_iff, Z.eqb_eq. apply Z.bits_inj'. intros i Hi.
    rewrite Z.land_spec, Z.testbit_0_l. destruct (decide (i = k)) as [->|].
    + now rewrite E.
    + rewrite Z.pow2_bits_false by lia. apply andb_false_r.
Qed.

Lemma byteset_mem_testbit A b :
  (forall i w, A !! i = Some w -> 0 <= w) -> is_byte b ->
  byteset_mem A b = Z.testbit (default 0 (A !! Z.to_nat (b / 64))) (b mod 64).
Proof.
  intros Hp Hb. unfold byteset_mem. apply bit_test; [|zlia].
  destruct (A !! _) eqn:E; simpl; [eauto|lia].
Qed.

Lemma byteset_init_spec : byteset_is byteset_init [].
Proof.
  assert (Hz : forall i w, byteset_init !! i = Some w -> w = 0).
  { intros i w H. change byteset_init with (replicate 4 0) in H.
    now apply lookup_replicate_1 in H as [-> _]. }
  assert (Hp : forall i w, byteset_init !! i = Some w -> 0 <= w).
  { intros i w H. apply Hz in H. lia. }
  split; [reflexivity|]. split; [exact Hp|]. intros b Hb. rewrite byteset_mem_testbit by auto.
  replace (default 0 (byteset_init !! Z.to_nat (b / 64))) with 0.
  - rewrite Z.testbit_0_l. symmetry. apply bool_decide_eq_false, not_elem_of_nil.
  - destruct (byteset_init !! Z.to_nat (b / 64)) as [w|] eqn:E; [|reflexivity].
    apply Hz in E. now rewrite E.
Qed.

Lemma byteset_add_spec A cs c :
  byteset_is A cs -> is_byte c -> byteset_is (byteset_add A c) (c :: cs).
Proof.
  intros (Hl & Hp & Hm) Hc. unfold is_byte in Hc. unfold byteset_add. cbv zeta.
  assert (Hpow : u64 (Z.shiftl 1 (c mod 64)) = 2 ^ (c mod 64)).
  { rewrite Z.shiftl_mul_pow2, Z.mul_1_l by zlia. apply u64_small. split; [lia|].
    change 18446744073709551616 with (2 ^ 64). apply Z.pow_lt_mono_r; zlia. }
  rewrite Hpow. set (k := Z.to_nat (c / 64)).
  assert (Hk : (k < length A)%nat) by (rewrite Hl; subst k; zlia).
  assert (Hp' : forall i w, <[k:=Z.lor (default 0 (A !! k)) (2 ^ (c mod 64))]> A !! i = Some w ->
    0 <= w).
  { intros i w. destruct (decide (i = k)) as [->|].
    - rewrite list_lookup_insert_eq by exact Hk. intros H. injection H as <-.
      apply Z.lor_nonneg. split; [|lia]. destruct (A !! k) eqn:E; simpl; [eauto|lia].
    - rewrite list_lookup_insert_ne by auto. apply Hp. }
  split; [now rewrite length_insert|]. split; [exact Hp'|].
  intros b Hb. rewrite byteset_mem_testbit by auto. specialize (Hm b Hb).
  rewrite byteset_mem_testbit in Hm by auto. unfold is_byte in Hb.
  destruct (decide (Z.to_nat (b / 64) = k)) as [Ek|Ek].
  - rewrite Ek, list_lookup_insert_eq by exact Hk. simpl. rewrite Z.lor_spec, <- Ek, Hm.
    destruct (decide (b = c)) as [->|Hbc].
    + rewrite Z.pow2_bits_true by zlia. rewrite orb_true_r. symmetry.
      apply bool_decide_eq_true. left.
    + rewrite Z.pow2_bits_false by (subst k; zlia). rewrite orb_false_r.
      apply bool_decide_ext. rewrite elem_of_cons. tauto.
  - rewrite list_lookup_insert_ne by auto. rewrite Hm. apply bool_decide_ext.
    rewrite elem_of_cons. split; [tauto|]. intros [->|]; [|assumption]. now destruct Ek.
Qed.

Lemma byteset_of_spec m c cs :
  cstr m c cs -> exists A, byteset_of c m = Ok A m /\
    forall b, is_byte b -> byteset_mem A b = bool_decide (b ∈ cs).
Proof.
  intros Hc.
  assert (H : wp (byteset_of c) (fun A m' => m' = m /\ byteset_is A (reverse cs)) m).
  { unfold byteset_of.
    eapply (wp_scan_str2 m c cs Hc _ (fun j A => byteset_is A (reverse (take (Z.to_nat j) cs))) _ 0);
      [lia|lia|apply byteset_init_spec|].
    intros j A Hj HA. apply wp_bind. eapply wp_load_chr; [exact Hc|lia|].
    erewrite chr_is_zero by (eauto || lia). wp_step.
    - subst. apply wp_ret. split; [reflexivity|]. split; [reflexivity|].
      rewrite Nat2Z.id, firstn_all in HA. exact HA.
    - apply wp_ret. split; [reflexivity|]. exists (j + 1). split; [lia|]. split; [lia|].
      replace (Z.to_nat (j + 1)) with (S (Z.to_nat j)) by lia.
      erewrite take_S_r by (apply chr_lookup; lia). rewrite reverse_snoc.
      apply byteset_add_spec; [exact HA|]. apply chr_range, Hc. }
  apply wp_ok in H as (A & m' & E & -> & _ & _ & HA). exists A. split; [exact E|].
  intros b Hb. rewrite HA by exact Hb. apply bool_decide_ext. apply elem_of_reverse.
Qed.

Section spans.
Context (m : mem) (p c : Z) (s cs : list Z).
Hypothesis Hok : mem_ok m.
Hypothesis Hw : wordwise m.
Hypothesis Hs : cstr m p s.
Hypothesis Hc : cstr m c cs.
Let len := Z.of_nat (length s).
Let inset (b : Z) : bool := bool_decide (b ∈ cs).
Let notin (b : Z) : bool := negb (inset b).

Ltac stay := split; [reflexivity|].
Ltac next j := apply wp_ret; stay; exists (j + 1); split; [lia|]; split; [lia|].

Lemma cs_nil c0 : chr cs 0 = c0 -> (c0 =? 0) = true -> cs = [].
Proof.
  intros <- E. zbool. destruct cs as [|x l]; [reflexivity|]. apply cstr_chars in Hc.
  inversion Hc. unfold is_char, chr in *. simpl in E. lia.
Qed.

Lemma cs_one : (chr cs 0 =? 0) = false -> (chr cs 1 =? 0) = true -> exists x, cs = [x].
Proof.
  intros E0 E1. zbool. destruct cs as [|x [|y l]]; [now destruct E0|eauto|].
  apply cstr_chars in Hc. inversion Hc as [|? ? _ H]. inversion H. unfold is_char, chr in *.
  simpl in E1. lia.
Qed.

Lemma cs_len1 : (chr cs 0 =? 0) = false -> 1 <= Z.of_nat (length cs).
Proof. intros E. destruct cs; [discriminate E|simpl; lia]. Qed.

(** The walk over the members of a set, given its membership test. *)
Lemma span_scan (f g : Z -> bool) :
  (forall b, is_char b -> f b = g b) ->
  wp (scan (fun s => b ← load8 s;
             if b =? 0 then mret (Break s)
             else if f b then mret (Next (s + 1)) else mret (Break s)) p)
     (fun r m' => r = p + Z.of_nat (span g s) /\ m' = m) m.
Proof.
  intros Hf.
  eapply (wp_scan_str m p s Hs _ (on_span g s) _ 0); [lia|lia|apply on_span_0|].
  intros j Hj Hsp. apply wp_bind. eapply wp_load_chr; [exact Hs|lia|].
  destruct (chr s j =? 0) eqn:E0.
  - apply wp_ret. stay. erewrite chr_is_zero in E0 by (eauto || lia). zbool.
    rewrite (span_unique g s j) by (auto; lia). auto.
  - assert (is_char (chr s j)).
    { pose proof (str_byte m p s Hs j). zbool. unfold is_byte, is_char in *. lia. }
    rewrite Hf by assumption. erewrite chr_is_zero in E0 by (eauto || lia). wp_step.
    + next j. auto with chariot.
    + apply wp_ret. stay. rewrite (span_unique g s j) by (auto; lia). auto.
Qed.

Lemma strspn_spec : strspn p c m = Ok (Z.of_nat (span inset s)) m.
Proof.
  apply wp_eq. unfold strspn. cbv zeta. apply wp_bind.
  eapply (wp_load_chr m c cs Hc 0); [lia|]. wp_step.
  { rewrite <- (Z.eqb_eq) in E. apply (cs_nil _ eq_refl) in E. apply wp_ret.
    split; [|reflexivity]. unfold inset. rewrite E. destruct s as [|x l]; [reflexivity|].
    cbn [span]. now rewrite bool_decide_eq_false_2 by apply not_elem_of_nil. }
  rewrite <- Z.eqb_neq in E. pose proof (cs_len1 E). apply wp_bind.
  eapply (wp_load_chr m c cs Hc 1); [lia|]. destruct (chr cs 1 =? 0) eqn:E1.
  - destruct (cs_one E E1) as [x Hx]. apply wp_bind.
    eapply (wp_scan_str m p s Hs _ (on_span inset s) _ 0); [lia|lia|apply on_span_0|].
    intros j Hj Hsp. apply wp_bind. eapply wp_load_chr; [exact Hs|lia|].
    apply wp_bind. replace c with (c + 0) by lia. eapply (wp_load_chr m c cs Hc 0); [lia|].
    assert (Hxb : chr cs 0 = x) by (rewrite Hx; reflexivity). rewrite Hxb.
    pose proof (str_byte m p s Hs j). pose proof (str_byte m c cs Hc 0) as Hxr.
    rewrite Hxb in Hxr. rewrite s8_eqb by assumption.
    assert (Hi : inset (chr s j) = (chr s j =? x)).
    { unfold inset. rewrite Hx. destruct (chr s j =? x) eqn:Ex; zbool.
      - apply bool_decide_eq_true. rewrite Ex. left.
      - apply bool_decide_eq_false. intros Hin%list_elem_of_singleton. auto. }
    assert (Hx0 : x <> 0) by (rewrite Hxb in E; zbool; exact E).
    destruct (chr s j =? x) eqn:Ex.
    + zbool. assert (j < len).
      { destruct (decide (j = len)) as [->|]; [|lia]. rewrite <- Ex in Hx0.
        destruct Hx0. apply chr_zero; [apply Hs|lia|reflexivity]. }
      next j. apply on_span_step; [exact Hsp|]. exact Hi.
    + apply wp_ret. stay. apply wp_ret. rewrite (span_unique inset s j) by auto.
      split; [lia|reflexivity].
  - destruct (byteset_of_spec m c cs Hc) as (A & HA & Hmem). apply wp_bind.
    eapply wp_run; [exact HA|]. apply wp_bind. eapply wp_mono; [apply (span_scan _ inset)|].
    + intros b Hb. apply Hmem. unfold is_char, is_byte in *. lia.
    + intros r ? [-> ->]. apply wp_ret. split; [lia|reflexivity].
Qed.

Lemma strcspn_spec : strcspn p c m = Ok (Z.of_nat (span notin s)) m.
Proof.
  apply wp_eq. unfold strcspn. cbv zeta. apply wp_bind.
  eapply (wp_load_chr m c cs Hc 0); [lia|]. apply wp_bind.
  assert (Hnul : forall x, cs = [x] \/ cs = [] /\ x = 0 ->
    wp (c0 ← load8 c; r ← strchrnul p (s8 c0); mret (r - p))
      (fun r m' => r = Z.of_nat (span notin s) /\ m' = m) m).
  { intros x Hx. apply wp_bind. replace c with (c + 0) by lia.
    eapply (wp_load_chr m c cs Hc 0); [lia|].
    assert (Hxb : chr cs 0 = x) by (destruct Hx as [->|[-> ->]]; reflexivity). rewrite Hxb.
    pose proof (str_byte m c cs Hc 0) as Hxr. rewrite Hxb in Hxr.
    apply wp_bind. eapply wp_run; [apply (strchrnul_spec m p s Hok Hw Hs)|].
    rewrite u8_s8 by exact Hxr. apply wp_ret. split; [|reflexivity].
    destruct Hx as [Hx|[Hx ->]].
    - assert (Hc' := Hc). rewrite Hx in Hc'. apply cstr_chars in Hc'. inversion Hc' as [|? ? Hch _].
      unfold is_char in Hch. rewrite (proj2 (Z.eqb_neq x 0)) by lia.
      rewrite (span_ext _ notin s); [lia|]. intros b _. unfold notin, inset. rewrite Hx. f_equal.
      destruct (b =? x) eqn:Ex; zbool; symmetry.
      + apply bool_decide_eq_true. rewrite Ex. left.
      + apply bool_decide_eq_false. intros Hin%list_elem_of_singleton. auto.
    - simpl. rewrite (span_all notin s); [fold len; lia|]. intros b _.
      unfold notin, inset. rewrite Hx. now rewrite bool_decide_eq_false_2 by apply not_elem_of_nil. }
  destruct (chr cs 0 =? 0) eqn:E0.
  { apply wp_ret. apply (Hnul 0). right. split; [|reflexivity]. apply (cs_nil _ eq_refl E0). }
  pose proof (cs_len1 E0). apply wp_bind. eapply (wp_load_chr m c cs Hc 1); [lia|].
  apply wp_ret. destruct (chr cs 1 =? 0) eqn:E1; simpl.
  - destruct (cs_one E0 E1) as [x Hx]. apply (Hnul x). auto.
  - destruct (byteset_of_spec m c cs Hc) as (A & HA & Hmem). apply wp_bind.
    eapply wp_run; [exact HA|]. apply wp_bind. eapply wp_mono.
    + eapply wp_scan_ext; [|apply (span_scan (fun b => negb (byteset_mem A b)) notin)].
      { intros q m'. unfold mbind, M_bind. destruct (load8 q m') as [b m''| |]; [|reflexivity..].
        destruct (b =? 0); [reflexivity|]. now destruct (byteset_mem A b). }
      intros b Hb. unfold notin. f_equal. apply Hmem. unfold is_char, is_byte in *. lia.
    + intros r ? [-> ->]. apply wp_ret. split; [lia|reflexivity].
Qed.

Lemma strpbrk_spec :
  strpbrk p c m =
  Ok (let k := Z.of_nat (span notin s) in if k <? len then p + k else 0) m.
Proof.
  apply wp_eq. unfold strpbrk. apply wp_bind. eapply wp_run; [apply strcspn_spec|].
  cbv zeta. pose proof (span_le notin s). apply wp_bind.
  eapply wp_load_chr; [exact Hs|lia|]. apply wp_ret. split; [|reflexivity].
  erewrite chr_is_zero by (eauto || lia). fold len. repeat zif; lia.
Qed.

End spans.

(** ** Comparisons *)

(** The bytes of a string with its terminator, from position [j] on. *)
Definition zfrom (s : list Z) (j : Z) : list Z := drop (Z.to_nat j) (s ++ [0]).

Lemma zfrom_0 s : zfrom s 0 = s ++ [0].
Proof. reflexivity. Qed.

Lemma zfrom_step s j :
  0 <= j <= Z.of_nat (length s) -> zfrom s j = chr s j :: zfrom s (j + 1).
Proof.
  intros Hj. unfold zfrom. replace (Z.to_nat (j + 1)) with (S (Z.to_nat j)) by lia.
  apply drop_S. unfold chr. destruct (decide (j < Z.of_nat (length s))).
  - rewrite lookup_app_l by lia. destruct (lookup_nat_Z s j) as [b ->]; [lia|reflexivity].
  - replace (Z.to_nat j) with (length s) by lia. rewrite lookup_app_r by lia.
    now rewrite Nat.sub_diag, (lookup_ge_None_2 s) by lia.
Qed.

Lemma zfrom_end s : zfrom s (Z.of_nat (length s) + 1) = [].
Proof. unfold zfrom. apply drop_ge. rewrite length_app. simpl. lia. Qed.

Lemma chr_end s : chr s (Z.of_nat (length s)) = 0.
Proof. unfold chr. now rewrite Nat2Z.id, lookup_ge_None_2 by lia. Qed.

Section compare.
Context (m : mem) (l r : Z) (s t : list Z).
Hypothesis Hs : cstr m l s.
Hypothesis Ht : cstr m r t.
Let ls := Z.of_nat (length s).
Let lt := Z.of_nat (length t).

Ltac stay := split; [reflexivity|].
Ltac loads := repeat (apply wp_bind; eapply wp_load_chr; [eassumption|lia|]).

Lemma strcmp_spec : strcmp l r m = Ok (first_diff (s ++ [0]) (t ++ [0])) m.
Proof.
  apply wp_eq. unfold strcmp. apply wp_bind.
  eapply (wp_scan_str2 m l s Hs _ (fun j b => b = r + j /\ j <= lt /\
    first_diff (zfrom s j) (zfrom t j) = first_diff (s ++ [0]) (t ++ [0])) _ 0);
    [lia|lia|unfold lt; rewrite !zfrom_0; repeat split; lia|].
  intros j b Hj (-> & Hjt & Hd). rewrite (zfrom_step s), (zfrom_step t) in Hd by (unfold lt in *; lia).
  cbn [first_diff] in Hd.
  pose proof (str_byte m l s Hs j) as Hbs. pose proof (str_byte m r t Ht j) as Hbt.
  loads. rewrite s8_eqb, s8_eq0 by assumption. erewrite chr_is_zero by (eauto || lia).
  destruct (chr s j =? chr t j) eqn:E; [destruct (j =? Z.of_nat (length s)) eqn:E0|];
    simpl; apply wp_ret; stay; zbool.
  - apply wp_bind. eapply wp_load_chr; [exact Hs|lia|]. loads. apply wp_ret.
    rewrite E. split; [|reflexivity]. subst j. rewrite chr_end in E.
    symmetry in E. apply chr_zero in E; [|apply Ht|unfold lt in *; lia].
    rewrite E in Hd at 2. rewrite !zfrom_end in Hd. simpl in Hd. lia.
  - exists (j + 1). split; [lia|]. split; [lia|]. split; [lia|]. split; [|exact Hd].
    assert (j <> lt); [|lia]. intros ->. unfold lt in E. rewrite chr_end in E.
    apply chr_zero in E; [lia|apply Hs|lia].
  - apply wp_bind. eapply wp_load_chr; [exact Hs|lia|]. loads. apply wp_ret. auto.
Qed.

Lemma strncmp_spec n :
  0 <= n ->
  strncmp l r n m =
  Ok (first_diff (take (Z.to_nat n) (s ++ [0])) (take (Z.to_nat n) (t ++ [0]))) m.
Proof.
  intros Hn. apply wp_eq. unfold strncmp. wp_step.
  { subst. apply wp_ret. auto. }
  cbv zeta. apply wp_bind.
  set (total := first_diff _ _).
  pose (I := fun (q : Z) (x : Z * Z) => exists j, q = l + j /\ 0 <= j <= ls /\
    fst x = r + j /\ j <= lt /\ j < n /\ snd x = n - 1 - j /\
    first_diff (take (Z.to_nat (n - j)) (zfrom s j)) (take (Z.to_nat (n - j)) (zfrom t j)) = total).
  eapply (wp_scan _ (fun '(q, q', k) m' => m' = m /\ I q (q', k))
    (fun '(q, _, _) => Z.to_nat (l + ls - q))).
  - stay. exists 0. unfold ls, lt. cbn [fst snd].
    repeat split; try lia. rewrite Z.sub_0_r. reflexivity.
  - replace (l + ls - l) with (ls - 0) by lia. eapply scan_fuel; [exact Hs|lia].
  - intros [[q q'] k] ? (-> & j & -> & Hj & Hq & Hjt & Hjn & Hk & Hd).
    cbn [fst snd] in Hq, Hk. subst q' k.
    rewrite (zfrom_step s), (zfrom_step t) in Hd by (unfold ls, lt in *; lia).
    replace (Z.to_nat (n - j)) with (S (Z.to_nat (n - (j + 1)))) in Hd by lia.
    cbn [take first_diff] in Hd.
    assert (Hend : chr s j <> chr t j \/ chr s j = 0 \/ n - 1 - j = 0 ->
      wp (x ← load8 (l + j); y ← load8 (r + j); mret (x - y))
         (fun x y => x = total /\ y = m) m).
    { intros Hc. apply wp_bind. eapply wp_load_chr; [exact Hs|unfold ls in *; lia|].
      apply wp_bind. eapply wp_load_chr; [exact Ht|unfold lt in *; lia|].
      apply wp_ret. split; [|reflexivity]. destruct (chr s j =? chr t j) eqn:Ee; zbool; [|exact Hd].
      rewrite Ee. destruct Hc as [Hc|[Hc|Hc]]; [contradiction| |].
      - rewrite Hc in Ee. symmetry in Ee. apply chr_zero in Hc; [|apply Hs|unfold ls in *; lia].
        apply chr_zero in Ee; [|apply Ht|unfold lt in *; lia].
        rewrite Hc in Hd at 2. rewrite Ee in Hd at 2. rewrite !zfrom_end, !take_nil in Hd.
        simpl in Hd. lia.
      - replace (Z.to_nat (n - (j + 1))) with 0%nat in Hd by lia. simpl in Hd. lia. }
    apply wp_bind. eapply wp_load_chr; [exact Hs|unfold ls in *; lia|]. wp_step.
    { apply wp_ret, Hend. auto. }
    apply wp_bind. eapply wp_load_chr; [exact Ht|unfold lt in *; lia|]. wp_step.
    { apply wp_ret, Hend. left. congruence. }
    wp_step; [apply wp_ret, Hend; auto|]. wp_step.
    + apply wp_ret.
      assert (j <> ls). { intros ->. unfold ls in E0. now rewrite chr_end in E0. }
      assert (j <> lt). { intros ->. unfold lt in E1. now rewrite chr_end in E1. }
      split; [|lia]. stay. exists (j + 1). cbn [fst snd]. repeat split; lia.
    + apply wp_ret, Hend. auto.
Qed.

End compare.

(** [strcmp] is zero exactly on equal strings. *)
Lemma first_diff_strings s t :
  Forall is_char s -> Forall is_char t -> first_diff (s ++ [0]) (t ++ [0]) = 0 <-> s = t.
Proof.
  intros Hs. revert t. induction Hs as [|c s Hc _ IH]; intros t Ht.
  - destruct Ht as [|d t Hd _]; [tauto|]. simpl. unfold is_char in Hd. split; [|discriminate].
    destruct d; lia.
  - destruct Ht as [|d t Hd Ht]; simpl.
    + unfold is_char in Hc. split; [|discriminate]. destruct (c =? 0) eqn:E; zbool; lia.
    + destruct (c =? d) eqn:E; zbool.
      * subst. rewrite IH by assumption. split; [now intros ->|intros H; now injection H].
      * split; [lia|]. intros H. now injection H.
Qed.

Lemma first_diff_sym xs ys : first_diff ys xs = - first_diff xs ys.
Proof.
  revert ys. induction xs as [|x xs IH]; intros [|y ys]; simpl; try reflexivity.
  rewrite (Z.eqb_sym y x). destruct (x =? y); [apply IH|lia].
Qed.

(** A prefix test: the [strncmp] of the environment and mode lookups. *)
Lemma strncmp_prefix s t n :
  Forall is_char s -> Forall is_char t -> (n <= length s)%nat ->
  first_diff (take n (s ++ [0])) (take n (t ++ [0])) = 0 <-> take n s = take n t.
Proof.
  intros Hs. revert t n. induction Hs as [|c s Hc _ IH]; intros t n Ht Hn.
  - simpl in Hn. replace n with 0%nat by lia. simpl. tauto.
  - destruct n as [|n]; [simpl; tauto|]. simpl in Hn. unfold is_char in Hc.
    destruct Ht as [|d t Hd Ht]; simpl.
    + destruct (c =? 0) eqn:E; zbool; [lia|]. split; [lia|discriminate].
    + destruct (c =? d) eqn:E; zbool.
      * subst. rewrite IH by (auto; lia). split; [now intros ->|intros H; now injection H].
      * split; [lia|]. intros H. now injection H.
Qed.
