(* ===== verification/StrCopy.v ===== *)
(** * Theorems on string.c: copies, concatenation, tokens, numbers *)

From S2P Require Import Prelude CMem Ctype MemFns StrFns StrSpec.

(** ** Rewriting memories *)

Lemma write_over m p bs cs :
  (length bs <= length cs)%nat -> write (write m p bs) p cs = write m p cs.
Proof.
  intros Hl. apply map_eq; intros a. rewrite !lookup_write.
  repeat case_decide; try lia; reflexivity.
Qed.

Lemma zstr_lookup s j :
  0 <= j <= Z.of_nat (length s) -> (s ++ [0]) !! Z.to_nat j = Some (chr s j).
Proof.
  intros Hj. pose proof (zfrom_step s j Hj) as E. unfold zfrom in E.
  rewrite <- (Nat.add_0_r (Z.to_nat j)), <- lookup_drop, E. reflexivity.
Qed.

Lemma zstr_bytes s : Forall is_char s -> Forall is_byte (s ++ [0]).
Proof.
  intros H. apply Forall_app. split.
  - eapply Forall_impl; [|exact H]. unfold is_char, is_byte. intros; lia.
  - repeat constructor; lia.
Qed.

(** Bytes found at an address are the bytes written there. *)
Lemma bytes_at_unique m p bs cs :
  bytes_at m p bs -> bytes_at m p cs -> length bs = length cs -> bs = cs.
Proof.
  intros Hb Hc Hl. apply list_eq_same_length with (length cs); [lia|lia|].
  intros i x y _ Hx Hy. apply Hb in Hx. apply Hc in Hy. congruence.
Qed.

(** ** strcpy *)

Section copy_string.
Context (m0 : mem) (d p : Z) (s : list Z).
Hypothesis Hok : mem_ok m0.
Hypothesis Hw : wordwise m0.
Hypothesis Hs : cstr m0 p s.
Let len := Z.of_nat (length s).
Hypothesis Hd : mapped m0 d (len + 1).
Hypothesis Hdis : d + len + 1 <= p \/ p + len + 1 <= d.

Let cpy (j : Z) : mem := write m0 d (take (Z.to_nat j) (s ++ [0])).

Lemma cpy_take_length j : 0 <= j <= len + 1 -> Z.of_nat (length (take (Z.to_nat j) (s ++ [0]))) = j.
Proof. intros. rewrite length_take, length_app. simpl. unfold len in *. lia. Qed.

Lemma cpy_str j : 0 <= j <= len + 1 -> cstr (cpy j) p s.
Proof.
  intros Hj. apply cstr_write_disjoint; [exact Hs|]. rewrite cpy_take_length by lia.
  unfold len in *. lia.
Qed.

Lemma cpy_mapped j : mapped (cpy j) d (len + 1).
Proof. apply mapped_write, Hd. Qed.

Lemma cpy_range j : 0 <= j <= len + 1 -> mapped m0 d (Z.of_nat (length (take (Z.to_nat j) (s ++ [0])))).
Proof. intros. rewrite cpy_take_length by lia. eapply mapped_sub; [exact Hd|lia|lia]. Qed.

Lemma cpy_ok j : mem_ok (cpy j).
Proof. apply mem_ok_write; [exact Hok|]. apply Forall_take, zstr_bytes, Hs. Qed.

Lemma cpy_wordwise j : 0 <= j <= len + 1 -> wordwise (cpy j).
Proof. intros. apply wordwise_write; [now apply cpy_range|exact Hw]. Qed.

Lemma cpy_size j : 0 <= j <= len + 1 -> size (cpy j) = size m0.
Proof. intros. apply size_write. now apply cpy_range. Qed.

Lemma cpy_step j k bs :
  0 <= j -> 0 <= k -> j + k <= len + 1 -> bs = take (Z.to_nat k) (drop (Z.to_nat j) (s ++ [0])) ->
  write (cpy j) (d + j) bs = cpy (j + k).
Proof.
  intros Hj Hk Hjk ->. unfold cpy. rewrite Z2Nat.inj_add by lia.
  rewrite <- take_take_drop, write_app. do 2 f_equal. rewrite cpy_take_length by lia. lia.
Qed.

Lemma wp_cpy_byte {B} j (K : Z -> M B) (Q : B -> mem -> Prop) :
  0 <= j <= len ->
  wp (K (chr s j)) Q (cpy (j + 1)) ->
  wp (b ← load8 (p + j); store8 (d + j) b;; K b) Q (cpy j).
Proof.
  intros Hj HK. apply wp_bind. eapply wp_load_chr; [apply cpy_str; lia|exact Hj|].
  apply wp_bind, wp_store8; [apply cpy_mapped; lia|].
  rewrite u8_small by (apply chr_range, Hs).
  rewrite <- (cpy_step j 1 [chr s j]) in HK; [exact HK|lia|lia|lia|].
  pose proof (zfrom_step s j Hj) as E. unfold zfrom in E. rewrite E. reflexivity.
Qed.

(** A scan of the two pointers that copies. *)
Lemma wp_scan_copy {R} (body : Z * Z -> M (ctl (Z * Z) R)) (P : Z -> Prop) Q i x0 m1 :
  x0 = (d + i, p + i) -> m1 = cpy i -> 0 <= i <= len -> P i ->
  (forall j, 0 <= j <= len -> P j ->
     wp (body (d + j, p + j)) (fun x m' =>
       match x with
       | Next (q, r) => exists k, q = d + k /\ r = p + k /\ j < k <= len /\ m' = cpy k /\ P k
       | Break r => Q r m'
       end) (cpy j)) ->
  wp (scan body x0) Q m1.
Proof.
  intros -> -> Hi HP Hb.
  eapply (wp_scan _ (fun '(q, r) m' => exists j, q = d + j /\ r = p + j /\ 0 <= j <= len /\
      m' = cpy j /\ P j) (fun '(q, r) => Z.to_nat (p + len - r))).
  - exists i. auto.
  - rewrite cpy_size by lia. replace (p + len - (p + i)) with (len - i) by lia.
    eapply scan_fuel; [exact Hs|lia].
  - intros [q r] ? (j & -> & -> & Hj & -> & HPj). eapply wp_mono; [apply Hb; auto|].
    intros [[q r]|x] m'; [|auto]. intros (k & -> & -> & Hk & -> & HPk).
    split; [|lia]. exists k. repeat split; auto; lia.
Qed.

Lemma copy_bytes_spec i q r m1 :
  q = d + i -> r = p + i -> m1 = cpy i -> 0 <= i <= len ->
  wp (copy_bytes q r) (fun r m' => r = d + len /\ m' = write m0 d (s ++ [0])) m1.
Proof.
  intros -> -> -> Hi. unfold copy_bytes.
  apply (wp_scan_copy _ (fun _ => True) _ i); [reflexivity|reflexivity|exact Hi|exact I|].
  intros j Hj _. apply wp_cpy_byte; [exact Hj|]. erewrite chr_is_zero by (eauto || lia). fold len.
  wp_step; apply wp_ret.
  - subst. split; [reflexivity|]. unfold cpy. rewrite take_ge; [reflexivity|].
    rewrite length_app. simpl. unfold len. lia.
  - exists (j + 1). repeat split; lia.
Qed.

Lemma copy_string_spec : copy_string d p m0 = Ok (d + len) (write m0 d (s ++ [0])).
Proof.
  apply wp_eq. unfold copy_string.
  assert (Hx : (d, p) = (d + 0, p + 0)) by (f_equal; lia).
  wp_step; [|apply (copy_bytes_spec 0); [lia|lia|reflexivity|unfold len; lia]].
  apply wp_bind. apply (wp_scan_copy _ (fun j => (p + j) mod 8 = (d + j) mod 8) _ 0);
    [exact Hx|reflexivity|unfold len; lia|zlia|].
  intros j Hj Ha. wp_step.
  - apply wp_ret, wp_bind.
    apply (wp_scan_copy _ (fun j => (p + j) mod 8 = 0) _ j);
      [reflexivity|reflexivity|lia|exact E0|].
    intros k Hk Hka.
    destruct (word_of_string (cpy k) p s) with (i := k) as (ws & Hl & Hb & Hat & Hz & _);
      [apply cpy_ok|apply cpy_str; lia|apply cpy_wordwise; lia|exact Hk|exact Hka|].
    apply wp_bind. eapply wp_load_n; [exact Hat|exact Hl|]. wp_step.
    + apply wp_ret. now apply (copy_bytes_spec k).
    + apply HASZERO_false in E1; auto. apply Hz in E1. fold len in E1.
      apply wp_bind. eapply wp_load_n; [exact Hat|exact Hl|].
      apply wp_bind, wp_store_n; [eapply mapped_sub; [apply cpy_mapped|lia|lia]|].
      rewrite <- Hl at 1. rewrite le_bytes_val by exact Hb. apply wp_ret.
      exists (k + 8). split; [lia|]. split; [lia|]. split; [lia|]. split; [|zlia].
      apply cpy_step; [lia|lia|lia|].
      apply (bytes_at_unique (cpy k) (p + k)); [exact Hat| |].
      * pose proof (proj2 (cpy_str k ltac:(lia))) as Hbk.
        rewrite <- (take_drop (Z.to_nat k) (s ++ [0])) in Hbk.
        apply bytes_at_app in Hbk as [_ Hbk]. rewrite cpy_take_length in Hbk by lia.
        rewrite <- (take_drop (Z.to_nat 8)) in Hbk. now apply bytes_at_app in Hbk.
      * rewrite Hl, length_take, length_drop, length_app. change (length [0]) with 1%nat. unfold len in *. lia.
  - apply wp_cpy_byte; [exact Hj|]. erewrite chr_is_zero by (eauto || lia). fold len.
    wp_step; apply wp_ret.
    + subst. apply wp_ret. split; [lia|]. unfold cpy. rewrite take_ge; [reflexivity|].
      rewrite length_app. simpl. unfold len. lia.
    + exists (j + 1). repeat split; try lia. zlia.
Qed.

End copy_string.

(** ** strncpy *)

(** What [strncpy] leaves in the [n] destination bytes. *)
Definition strncpy_bytes (s : list Z) (n : Z) : list Z :=
  take (Z.to_nat n) (s ++ replicate (Z.to_nat n) 0).

Section strncpy.
Context (m0 : mem) (d p n : Z) (s : list Z).
Hypothesis Hok : mem_ok m0.
Hypothesis Hs : cstr m0 p s.
Let len := Z.of_nat (length s).
(* the word loads may run 7 bytes past the terminator *)
Hypothesis Hslack : mapped m0 p (len + 8).
Hypothesis Hn : 0 <= n < 2 ^ 64.
Hypothesis Hd0 : 0 <= d.
Hypothesis Hd64 : d + n <= 2 ^ 64.
Hypothesis Hd : mapped m0 d n.
Hypothesis Hdis : d + n <= p \/ p + len + 1 <= d.

Let cpy (j : Z) : mem := write m0 d (take (Z.to_nat j) s).

Lemma ncpy_length j : 0 <= j <= len -> Z.of_nat (length (take (Z.to_nat j) s)) = j.
Proof. intros. rewrite length_take. unfold len in *. lia. Qed.

Lemma ncpy_str j : 0 <= j <= len -> j <= n -> cstr (cpy j) p s.
Proof.
  intros. apply cstr_write_disjoint; [exact Hs|]. rewrite ncpy_length by lia.
  unfold len in *. lia.
Qed.

Lemma ncpy_range j : 0 <= j <= len -> j <= n -> mapped m0 d (Z.of_nat (length (take (Z.to_nat j) s))).
Proof. intros. rewrite ncpy_length by lia. eapply mapped_sub; [exact Hd|lia|lia]. Qed.

Lemma ncpy_chars_bytes : Forall is_byte s.
Proof. eapply Forall_impl; [|apply Hs]. unfold is_char, is_byte. intros; lia. Qed.

Lemma ncpy_step j k bs :
  0 <= j -> 0 <= k -> j + k <= len -> bs = take (Z.to_nat k) (drop (Z.to_nat j) s) ->
  write (cpy j) (d + j) bs = cpy (j + k).
Proof.
  intros Hj Hk Hjk ->. unfold cpy. rewrite Z2Nat.inj_add by lia.
  rewrite <- take_take_drop, write_app. do 2 f_equal. rewrite ncpy_length by lia. lia.
Qed.

(** The memory after the copy loops: [j] bytes copied, and the terminator too
    when the source ended first. *)
Definition ncpy_done (j : Z) (m : mem) : Prop :=
  0 <= j <= len /\ j <= n /\
  (m = cpy j /\ (j = n \/ j = len) \/ j = len /\ j < n /\ m = write (cpy j) (d + j) [0]).

Lemma ncpy_fill j m :
  ncpy_done j m ->
  wp (memset (d + j) 0 (n - j);; mret (d + j))
     (fun r m' => r = d + Z.min len n /\ m' = write m0 d (strncpy_bytes s n)) m.
Proof.
  intros (Hj & Hjn & Hm).
  assert (Hmap : mapped m (d + j) (n - j)).
  { assert (mapped (cpy j) (d + j) (n - j)).
    { eapply mapped_sub; [apply mapped_write, Hd|lia|lia]. }
    destruct Hm as [[-> _]|(_ & _ & ->)]; [assumption|]. now apply mapped_write. }
  apply wp_bind. eapply wp_run; [apply memset_spec; auto; lia|]. apply wp_ret.
  assert (Hmin : j = Z.min len n) by lia. split; [now rewrite <- Hmin|].
  assert (E : write m (d + j) (replicate (Z.to_nat (n - j)) (u8 0)) =
              write (cpy j) (d + j) (replicate (Z.to_nat (n - j)) 0)).
  { destruct Hm as [[-> _]|(_ & ? & ->)]; [reflexivity|].
    apply write_over. rewrite length_replicate. simpl. lia. }
  rewrite E. unfold cpy, strncpy_bytes. rewrite take_app, <- (ncpy_length j) at 1 by lia.
  rewrite ncpy_length by lia.
  replace (Z.to_nat n - length s)%nat with (Z.to_nat (n - j)) by (unfold len in *; lia).
  rewrite take_replicate, Nat.min_l by lia.
  replace (take (Z.to_nat n) s) with (take (Z.to_nat j) s).
  - rewrite write_app. now rewrite ncpy_length by lia.
  - destruct (decide (n <= len)); [do 2 f_equal; lia|].
    rewrite !take_ge by (unfold len in *; lia). reflexivity.
Qed.

(** A scan of the three loop variables. *)
Lemma wp_scan_ncpy {R} (body : Z * Z * Z -> M (ctl (Z * Z * Z) R)) Q i x0 m1 :
  x0 = (d + i, p + i, n - i) -> m1 = cpy i -> 0 <= i <= len -> i <= n ->
  (forall j, 0 <= j <= len -> j <= n ->
     wp (body (d + j, p + j, n - j)) (fun x m' =>
       match x with
       | Next y => exists k, y = (d + k, p + k, n - k) /\ j < k <= len /\ k <= n /\ m' = cpy k
       | Break r => Q r m'
       end) (cpy j)) ->
  wp (scan body x0) Q m1.
Proof.
  intros -> -> Hi Hin Hb.
  eapply (wp_scan _ (fun x m' => exists j, x = (d + j, p + j, n - j) /\ 0 <= j <= len /\ j <= n /\
      m' = cpy j) (fun '(q, r, k) => Z.to_nat (p + len - r))).
  - exists i. auto.
  - unfold cpy. rewrite size_write by (apply ncpy_range; lia).
    replace (p + len - (p + i)) with (len - i) by lia. eapply scan_fuel; [exact Hs|lia].
  - intros x ? (j & -> & Hj & Hjn & ->). eapply wp_mono; [apply Hb; auto|].
    intros [y|r] m'; [|auto]. intros (k & -> & Hk & Hkn & ->).
    split; [|lia]. exists k. repeat split; auto; lia.
Qed.

Lemma wp_ncpy_byte {B} j (K : Z -> M B) (Q : B -> mem -> Prop) :
  0 <= j <= len -> j < n ->
  (j = len -> wp (K 0) Q (write (cpy j) (d + j) [0])) ->
  (j < len -> chr s j <> 0 -> wp (K (chr s j)) Q (cpy (j + 1))) ->
  wp (b ← load8 (p + j); store8 (d + j) b;; K b) Q (cpy j).
Proof.
  intros Hj Hjn H0 H1. apply wp_bind. eapply wp_load_chr; [apply ncpy_str; lia|exact Hj|].
  apply wp_bind, wp_store8.
  { apply mapped_write with (q := d) (n := n); [exact Hd|lia]. }
  rewrite u8_small by (apply chr_range, Hs). destruct (decide (j = len)) as [->|Hne].
  - assert (Hc0 : chr s len = 0) by apply chr_end. rewrite Hc0. apply H0. reflexivity.
  - specialize (H1 ltac:(lia)). rewrite <- (ncpy_step j 1 [chr s j]) in H1.
    + apply H1. apply chr_nonzero; [apply Hs|unfold len in *; lia].
    + lia.
    + lia.
    + lia.
    + symmetry. erewrite drop_S by (apply chr_lookup; unfold len in *; lia). reflexivity.
Qed.

(** The byte loop that the function ends with. *)
Lemma ncpy_tail_spec j x m1 :
  x = (d + j, p + j, n - j) -> m1 = cpy j -> 0 <= j <= len -> j <= n ->
  wp (scan (fun '(d, s, n) =>
        if n =? 0 then mret (Break (d, n)) else
        b ← load8 s; store8 d b;;
        if b =? 0 then mret (Break (d, n)) else mret (Next (d + 1, s + 1, n - 1))) x)
     (fun r m' => exists k, r = (d + k, n - k) /\ ncpy_done k m') m1.
Proof.
  intros Hx Hm Hj Hjn. apply (wp_scan_ncpy _ _ j); auto.
  intros k Hk Hkn. wp_step.
  - apply wp_ret. exists k. split; [reflexivity|]. repeat split; [lia|lia|lia|].
    left. split; [reflexivity|lia].
  - apply (wp_ncpy_byte k (fun b => if b =? 0 then mret (Break (d + k, n - k))
      else mret (Next (d + k + 1, p + k + 1, n - k - 1)))); [lia|lia| |].
    + intros ->. apply wp_ret. exists len. split; [reflexivity|]. repeat split; [lia|lia|lia|].
      right. repeat split; lia.
    + intros Hlt Hc. rewrite (proj2 (Z.eqb_neq _ 0) Hc). apply wp_ret.
      exists (k + 1). repeat split; try lia. f_equal; [f_equal|]; lia.
Qed.

(** The ways into the tail of the function. *)
Definition ncpy_flow (f : flow (Z * Z * Z) (Z * Z)) (m : mem) : Prop :=
  match f with
  | Return x => exists k, x = (d + k, n - k) /\ ncpy_done k m
  | Fall x => exists k, x = (d + k, p + k, n - k) /\ 0 <= k <= len /\ k <= n /\ m = cpy k
  end.

Lemma ncpy_words_spec j :
  0 <= j <= len -> j <= n ->
  wp (x ← scan (fun '(wd, ws, n) =>
           if 8 <=? n then
             x ← load64 ws;
             if HASZERO x then mret (Break (wd, ws, n))
             else x ← load64 ws; store64 wd x;; mret (Next (wd + 8, ws + 8, n - 8))
           else mret (Break (wd, ws, n))) (d + j, p + j, n - j);
      mret (Fall x)) ncpy_flow (cpy j).
Proof.
  intros Hj Hjn. apply wp_bind. apply (wp_scan_ncpy _ _ j); auto.
  intros k Hk Hkn. wp_step; [|apply wp_ret, wp_ret; exists k; auto].
  destruct (word_of_string_at (cpy k) p s) with (i := k) as (ws & Hl & Hb & Hat & Hz & _).
  { apply mem_ok_write; [exact Hok|]. apply Forall_take, ncpy_chars_bytes. }
  { apply ncpy_str; lia. }
  { exact Hk. }
  { apply mapped_write. eapply mapped_sub; [exact Hslack|lia|lia]. }
  apply wp_bind. eapply wp_load_n; [exact Hat|exact Hl|]. wp_step.
  - apply wp_ret, wp_ret. exists k. auto.
  - apply HASZERO_false in E0; auto. apply Hz in E0. fold len in E0.
    apply wp_bind. eapply wp_load_n; [exact Hat|exact Hl|].
    apply wp_bind, wp_store_n.
    { eapply mapped_sub; [apply mapped_write, Hd|lia|lia]. }
    rewrite <- Hl at 1. rewrite le_bytes_val by exact Hb. apply wp_ret.
    exists (k + 8). split; [f_equal; [f_equal|]; lia|]. split; [lia|]. split; [lia|].
    apply ncpy_step; [lia|lia|lia|].
    apply (bytes_at_unique (cpy k) (p + k)); [exact Hat| |].
    + destruct (ncpy_str k) as [_ Hbk]; [lia|lia|]. apply bytes_at_app in Hbk as [Hbk _].
      rewrite <- (take_drop (Z.to_nat k) s) in Hbk.
      apply bytes_at_app in Hbk as [_ Hbk]. rewrite ncpy_length in Hbk by lia.
      rewrite <- (take_drop (Z.to_nat 8)) in Hbk. now apply bytes_at_app in Hbk.
    + rewrite Hl, length_take, length_drop. unfold len in *. lia.
Qed.

(** After the alignment loop. *)
Lemma ncpy_after_align j m :
  0 <= j <= len -> j <= n ->
  m = cpy j \/ j = len /\ j < n /\ m = write (cpy j) (d + j) [0] ->
  wp (tail ← (if n - j =? 0 then mret true else b ← load8 (p + j); mret (b =? 0));
      if (tail : bool) then mret (Return (d + j, n - j))
      else
        x ← scan (fun '(wd, ws, n) =>
            if 8 <=? n then
              x ← load64 ws;
              if HASZERO x then mret (Break (wd, ws, n))
              else x ← load64 ws; store64 wd x;; mret (Next (wd + 8, ws + 8, n - 8))
            else mret (Break (wd, ws, n))) (d + j, p + j, n - j);
        mret (Fall x)) ncpy_flow m.
Proof.
  intros Hj Hjn Hm. apply wp_bind.
  assert (Hstr : cstr m p s).
  { destruct Hm as [->|(-> & ? & ->)]; [apply ncpy_str; lia|].
    apply cstr_write_disjoint; [apply ncpy_str; lia|]. simpl. fold len. lia. }
  wp_step.
  - apply wp_ret, wp_ret. exists j. split; [reflexivity|]. split; [lia|]. split; [lia|].
    destruct Hm as [->|Hm]; [left; split; [reflexivity|lia]|right; exact Hm].
  - apply wp_bind. eapply wp_load_chr; [exact Hstr|exact Hj|]. apply wp_ret.
    erewrite chr_is_zero by (eauto || lia). fold len. wp_step.
    + apply wp_ret. exists j. split; [reflexivity|]. split; [lia|]. split; [lia|].
      destruct Hm as [->|Hm]; [left; split; [reflexivity|lia]|right; exact Hm].
    + destruct Hm as [->|(-> & _)]; [|lia]. now apply ncpy_words_spec.
Qed.

Lemma strncpy_spec :
  strncpy d p n m0 = Ok (d + Z.min len n) (write m0 d (strncpy_bytes s n)).
Proof.
  apply wp_eq. unfold strncpy. apply wp_bind.
  assert (Hx : (d, p, n) = (d + 0, p + 0, n - 0)) by (f_equal; [f_equal|]; lia).
  apply wp_mono with ncpy_flow.
  - wp_step; [|apply wp_ret; exists 0; unfold len; rewrite Hx; repeat split; lia].
    apply wp_bind. apply (wp_scan_ncpy _ _ 0); [exact Hx|reflexivity|unfold len; lia|lia|].
    intros j Hj Hjn. wp_step; [|wp_step].
    + apply wp_ret. apply ncpy_after_align; auto.
    + apply wp_ret. apply ncpy_after_align; auto.
    + apply (wp_ncpy_byte j (fun b => if b =? 0 then mret (Break (d + j, p + j, n - j))
        else mret (Next (d + j + 1, p + j + 1, n - j - 1)))); [lia|lia| |].
      * intros ->. apply wp_ret. apply ncpy_after_align; [lia|lia|]. right. repeat split; lia.
      * intros Hlt Hc. rewrite (proj2 (Z.eqb_neq _ 0) Hc). apply wp_ret.
        exists (j + 1). repeat split; try lia. f_equal; [f_equal|]; lia.
  - intros [x|x] m; simpl; [intros (k & -> & Hk & Hkn & ->)|intros (k & -> & Hk)]; apply wp_bind.
    + eapply wp_mono; [now apply (ncpy_tail_spec k)|]. intros r m' (j & -> & Hj).
      now apply ncpy_fill.
    + apply wp_ret. now apply ncpy_fill.
Qed.

End strncpy.

(** ** strcat, strncat, strdup *)

Section concat.
Context (m : mem) (d p : Z) (s t : list Z).
Hypothesis Hok : mem_ok m.
Hypothesis Hw : wordwise m.
Hypothesis Hs : cstr m d s.
Hypothesis Ht : cstr m p t.
Let ls := Z.of_nat (length s).
Let lt := Z.of_nat (length t).

Lemma strcat_spec :
  mapped m (d + ls) (lt + 1) ->
  d + ls + lt + 1 <= p \/ p + lt + 1 <= d + ls ->
  strcat d p m = Ok d (write m (d + ls) (t ++ [0])).
Proof.
  intros Hm Hdis. apply wp_eq. unfold strcat. apply wp_bind.
  eapply wp_run; [apply (strlen_spec m d s); auto|]. apply wp_bind.
  eapply wp_run; [apply (copy_string_spec m (d + ls) p t); auto|]. now apply wp_ret.
Qed.

Lemma strncat_spec n (k := Z.min n lt) :
  0 <= n -> mapped m (d + ls) (k + 1) ->
  d + ls + k + 1 <= p \/ p + lt + 1 <= d + ls ->
  strncat d p n m = Ok d (write m (d + ls) (take (Z.to_nat n) t ++ [0])).
Proof.
  intros Hn Hm Hdis. apply wp_eq. unfold strncat. cbv zeta. apply wp_bind.
  eapply wp_run; [apply (strlen_spec m d s); auto|]. apply wp_bind.
  pose (c := fun j => write m (d + ls) (take (Z.to_nat j) t)).
  assert (Hl : forall j, 0 <= j <= lt -> Z.of_nat (length (take (Z.to_nat j) t)) = j).
  { intros. rewrite length_take. unfold lt in *. lia. }
  assert (Hmem : forall j, 0 <= j <= k -> mapped m (d + ls) (Z.of_nat (length (take (Z.to_nat j) t)))).
  { intros. rewrite Hl by lia. eapply mapped_sub; [exact Hm|lia|lia]. }
  assert (Hstr : forall j, 0 <= j <= k -> cstr (c j) p t).
  { intros. apply cstr_write_disjoint; [exact Ht|]. rewrite Hl by lia. fold lt. lia. }
  eapply (wp_scan _ (fun x m' => exists j, x = (d + ls + j, p + j, n - j) /\ 0 <= j <= k /\ m' = c j)
    (fun '(_, q, _) => Z.to_nat (p + lt - q))).
  - exists 0. unfold k, lt. repeat split; try lia. f_equal; [f_equal|]; lia.
  - replace (p + lt - p) with (lt - 0) by lia. eapply scan_fuel; [exact Ht|lia].
  - intros x ? (j & -> & Hj & ->).
    assert (Hend : j = k -> wp (store8 (d + ls + j) 0;; mret d)
      (fun x y => x = d /\ y = write m (d + ls) (take (Z.to_nat n) t ++ [0])) (c j)).
    { intros ->. apply wp_bind, wp_store8; [apply mapped_write with (q := d + ls) (n := k + 1); [exact Hm|lia]|].
      apply wp_ret. split; [reflexivity|]. rewrite write_app.
      replace (take (Z.to_nat n) t) with (take (Z.to_nat k) t).
      - rewrite Hl by lia. reflexivity.
      - destruct (decide (n <= lt)); [do 2 f_equal; lia|].
        rewrite !take_ge by (unfold lt in *; lia). reflexivity. }
    wp_step; [apply wp_ret, Hend; lia|]. apply wp_bind.
    eapply wp_load_chr; [apply Hstr; lia|fold lt; lia|].
    erewrite chr_is_zero by (eauto || (unfold lt in *; lia)). fold lt. wp_step.
    + apply wp_ret, Hend. lia.
    + apply wp_bind, wp_store8; [apply mapped_write with (q := d + ls) (n := k + 1); [exact Hm|lia]|].
      rewrite u8_small by (apply chr_range, Ht). apply wp_ret. split; [|lia].
      exists (j + 1). split; [f_equal; [f_equal|]; lia|]. split; [lia|].
      unfold c. replace (Z.to_nat (j + 1)) with (S (Z.to_nat j)) by lia.
      erewrite take_S_r by (apply chr_lookup; unfold lt in *; lia).
      rewrite write_app, Hl by lia. reflexivity.
Qed.

End concat.

(** [malloc] as a parameter: it returns a fresh mapped block of the size asked
    for and leaves the bytes of the string alone. *)
Lemma strdup_spec malloc m p s q m' :
  mem_ok m -> wordwise m -> cstr m p s ->
  malloc (Z.of_nat (length s) + 1) m = Ok q m' ->
  cstr m' p s -> mapped m' q (Z.of_nat (length s) + 1) ->
  q + Z.of_nat (length s) + 1 <= p \/ p + Z.of_nat (length s) + 1 <= q ->
  strdup malloc p m = Ok q (write m' q (s ++ [0])).
Proof.
  intros Hok Hw Hs Hmal Hs' Hmap Hdis. apply wp_eq. unfold strdup. apply wp_bind.
  eapply wp_run; [apply (strlen_spec m p s); auto|]. apply wp_bind.
  eapply wp_run; [exact Hmal|]. apply wp_eq.
  assert (E : Z.of_nat (length (s ++ [0])) = Z.of_nat (length s) + 1)
    by (rewrite length_app; simpl; lia).
  rewrite <- E. apply memcpy_spec; rewrite ?E; auto.
  - apply Hs'.
  - apply zstr_bytes, Hs.
  - lia.
Qed.

(** ** Tokens *)

Definition in_delim (ds : list Z) (b : Z) : bool := bool_decide (b ∈ ds).
Definition not_delim (ds : list Z) (b : Z) : bool := negb (in_delim ds b).

(** One call of [strtok_r] on the string [s]: skip delimiters, then either the
    string is used up, or a token starts and the first delimiter after it is
    overwritten with a zero byte. *)
Lemma strtok_r_spec m str delim save p s ds
    (a := span (in_delim ds) s) (rest := drop a s) (b := span (not_delim ds) rest) :
  mem_ok m -> wordwise m ->
  p = (if str =? 0 then save else str) -> cstr m p s -> cstr m delim ds ->
  0 < p ->
  strtok_r str delim save m =
  match rest with
  | [] => Ok (0, p + Z.of_nat a) m
  | _ => if decide (b = length rest)
         then Ok (p + Z.of_nat a, p + Z.of_nat (length s)) m
         else Ok (p + Z.of_nat a, p + Z.of_nat a + Z.of_nat b + 1)
                 (write m (p + Z.of_nat a + Z.of_nat b) [0])
  end.
Proof.
  intros Hok Hw Hp Hs Hds Hpos. pose proof (span_le (in_delim ds) s) as Ha.
  assert (Hrest : cstr m (p + Z.of_nat a) rest) by (apply cstr_drop; auto).
  assert (Hlr : (length rest + a = length s)%nat) by (unfold rest; rewrite length_drop; lia).
  assert (Eb : b = span (not_delim ds) rest) by reflexivity. clearbody b.
  assert (Hpb : strpbrk (p + Z.of_nat a) delim m =
    Ok (if Z.of_nat b <? Z.of_nat (length rest) then p + Z.of_nat a + Z.of_nat b else 0) m).
  { rewrite Eb. apply (strpbrk_spec m (p + Z.of_nat a) delim rest ds Hok Hw Hrest Hds). }
  assert (Hstart : forall (Q : Z * Z -> mem -> Prop),
    wp (b ← load8 (p + Z.of_nat a);
        if b =? 0 then mret (0, p + Z.of_nat a) else
        str ← strpbrk (p + Z.of_nat a) delim;
        if str =? 0 then q ← strchr (p + Z.of_nat a) 0; mret (p + Z.of_nat a, q)
        else store8 str 0;; mret (p + Z.of_nat a, str + 1)) Q m ->
    wp (strtok_r str delim save) Q m).
  { intros Q H. unfold strtok_r. rewrite <- Hp. cbv zeta. apply wp_bind.
    eapply wp_run; [apply (strspn_spec m p delim s ds); auto|]. exact H. }
  assert (Hhead : wp (load8 (p + Z.of_nat a)) (fun x y => x = chr rest 0 /\ y = m) m).
  { eapply wp_load8; [apply (cstr_head m _ rest Hrest)|]. auto. }
  destruct rest as [|c rest'] eqn:Er.
  { apply wp_eq, Hstart, wp_bind. eapply wp_mono; [exact Hhead|]. intros ? ? [-> ->].
    apply wp_ret. auto. }
  rewrite <- Er in *.
  assert (Hne : (chr rest 0 =? 0) = false).
  { rewrite Er in *. apply Z.eqb_neq. apply chr_nonzero; [apply Hrest|simpl; lia]. }
  pose proof (span_le (not_delim ds) rest) as Hb.
  rewrite <- Eb in Hb.
  case_decide as Hbl; apply wp_eq, Hstart, wp_bind; (eapply wp_mono; [exact Hhead|]);
    intros ? ? [-> ->]; rewrite Hne; apply wp_bind; (eapply wp_run; [exact Hpb|]).
  - rewrite (proj2 (Z.ltb_ge _ _)) by lia. simpl. apply wp_bind.
    eapply wp_run; [apply (strchr_spec m _ rest Hok Hw Hrest 0)|]. apply wp_ret.
    split; [|reflexivity]. f_equal. change (u8 0 =? 0) with true. cbv zeta iota. lia.
  - rewrite (proj2 (Z.ltb_lt _ _)) by lia. cbv iota.
    rewrite (proj2 (Z.eqb_neq (p + Z.of_nat a + Z.of_nat b) 0)) by lia.
    apply wp_bind, wp_store8; [|apply wp_ret; auto].
    rewrite (cstr_lookup m _ rest (Z.of_nat b) Hrest) by lia. eauto.
Qed.

(** The token is the run of non-delimiters and the saved pointer is the string
    after it. *)
Lemma strtok_r_strings m p s ds
    (a := span (in_delim ds) s) (rest := drop a s) (b := span (not_delim ds) rest)
    (m' := write m (p + Z.of_nat a + Z.of_nat b) [0]) :
  cstr m p s -> (b < length rest)%nat ->
  cstr m' (p + Z.of_nat a) (take b rest) /\
  cstr m' (p + Z.of_nat a + Z.of_nat b + 1) (drop (S b) rest).
Proof.
  intros Hs Hb. pose proof (span_le (in_delim ds) s) as Ha.
  assert (Hrest : cstr m (p + Z.of_nat a) rest) by (apply cstr_drop; auto).
  split.
  - split; [apply Forall_take, Hrest|]. apply bytes_at_app. rewrite length_take, Nat.min_l by lia.
    split; [|apply bytes_at_write]. apply bytes_at_write_disjoint.
    + destruct Hrest as [_ Hr]. rewrite <- (take_drop b rest), <- app_assoc in Hr.
      now apply bytes_at_app in Hr.
    + rewrite length_take. lia.
  - pose proof (cstr_drop m _ rest (S b) Hrest ltac:(lia)) as Hd.
    replace (p + Z.of_nat a + Z.of_nat (S b)) with (p + Z.of_nat a + Z.of_nat b + 1) in Hd by lia.
    apply cstr_write_disjoint; [exact Hd|]. simpl. lia.
Qed.
