(* ===== verification/StrMisc.v ===== *)
(** * libc/src/string/string.c: numbers, case folding, lowest set bit

    Reference functions on byte lists and the theorems that [memchr], [atoi],
    [strcasecmp], [strncasecmp] and [ffs] compute them. *)

From S2P Require Import Prelude CMem Ctype MemFns StrFns StrSpec.

(** ** memchr *)

Lemma memchr_spec m p c bs :
  bytes_at m p bs ->
  memchr p c (Z.of_nat (length bs)) m =
  Ok (let k := span (fun b => negb (b =? u8 c)) bs in
      if decide (k < length bs)%nat then p + Z.of_nat k else 0) m.
Proof.
  intros Hb. apply wp_eq. unfold memchr. cbv zeta. set (f := fun b => negb (b =? u8 c)).
  apply wp_bind. set (L := length bs) in *.
  eapply (wp_loop _ (fun '(q, n) m' => m' = m /\ exists j, q = p + j /\ 0 <= j <= Z.of_nat L /\
      n = Z.of_nat L - j /\ on_span f bs j) (fun '(q, n) => Z.to_nat n)).
  - intros [q n] ? (-> & j & -> & Hj & -> & Hsp). wp_step.
    + apply wp_ret, wp_ret. replace j with (Z.of_nat L) in * by lia.
      rewrite Z.sub_diag, Z.eqb_refl. rewrite decide_False; [auto|].
      pose proof (span_unique f bs (Z.of_nat L) ltac:(unfold L; lia) Hsp ltac:(auto)). lia.
    + assert (Hj' : 0 <= j < Z.of_nat (length bs)) by (unfold L in *; lia).
      apply wp_bind. eapply wp_load8.
      { rewrite (bytes_at_lookup m p bs j Hb Hj'). now apply chr_lookup. }
      destruct (chr bs j =? u8 c) eqn:Ec; apply wp_ret.
      * apply wp_ret. rewrite (proj2 (Z.eqb_neq _ 0)) by exact E.
        assert (Hu : Z.of_nat (span f bs) = j).
        { apply span_unique; [lia|exact Hsp|]. right. unfold f. now rewrite Ec. }
        rewrite decide_True by (unfold L in *; lia). rewrite Hu. auto.
      * split; [|lia]. split; [reflexivity|]. exists (j + 1). repeat split; try lia.
        apply on_span_step; [exact Hsp|]. unfold f. now rewrite Ec.
  - split; [reflexivity|]. exists 0. repeat split; try lia. apply on_span_0.
  - lia.
Qed.

(** ** atoi and atol *)

(** The value of the digits a list starts with, continuing from [n]. *)
Fixpoint digits_val (n : Z) (s : list Z) : Z :=
  match s with
  | c :: s' => if isdigit c then digits_val (10 * n + (c - 48)) s' else n
  | [] => n
  end.

Definition atoi_ref (s : list Z) : Z :=
  let t := drop (span isspace s) s in
  match t with
  | c :: t' => if c =? 45 then - digits_val 0 t'
               else if c =? 43 then digits_val 0 t' else digits_val 0 t
  | [] => 0
  end.

Lemma isspace_s8 b : is_byte b -> isspace (s8 b) = isspace b.
Proof.
  intros Hb. unfold isspace, is_byte in *.
  assert (E : s8 b = b \/ s8 b < 0 /\ 128 <= b) by zlia. destruct E as [->|[]]; [reflexivity|].
  rewrite !(proj2 (Z.eqb_neq _ _)) by lia. reflexivity.
Qed.

Lemma isdigit_s8 b : is_byte b -> isdigit (s8 b) = isdigit b.
Proof.
  intros Hb. unfold isdigit, is_byte in *.
  assert (E : s8 b = b \/ s8 b < 0 /\ 128 <= b) by zlia. destruct E as [->|[]]; [reflexivity|].
  rewrite (proj2 (Z.leb_gt 48 (s8 b))), (proj2 (Z.leb_gt b 57)) by lia.
  now rewrite andb_false_r.
Qed.

Lemma isdigit_range c : isdigit c = true -> 48 <= c <= 57.
Proof. unfold isdigit. intros. zbool. lia. Qed.

Lemma s32_mul_sub k n d : s32 (k * s32 n - d) = s32 (k * n - d).
Proof.
  unfold s32. f_equal.
  replace (k * ((n + 2147483648) mod 4294967296 - 2147483648) - d + 2147483648)
    with (k * ((n + 2147483648) mod 4294967296) + (2147483648 - d - k * 2147483648)) by ring.
  replace (k * n - d + 2147483648)
    with (k * (n + 2147483648) + (2147483648 - d - k * 2147483648)) by ring.
  rewrite <- (Z.add_mod_idemp_l (k * ((n + 2147483648) mod 4294967296))) by lia.
  rewrite Z.mul_mod_idemp_r by lia. now rewrite Z.add_mod_idemp_l by lia.
Qed.

Lemma s32_idem_opp n : s32 (- s32 n) = s32 (- n).
Proof. pose proof (s32_mul_sub (-1) n 0) as H. now rewrite !Z.sub_0_r in H. Qed.

Section numbers.
Context (m : mem) (p : Z) (s : list Z).
Hypothesis Hs : cstr m p s.
Let len := Z.of_nat (length s).

Lemma wp_skip_space :
  wp (scan (fun s => b ← load8 s; if isspace (s8 b) then mret (Next (s + 1)) else mret (Break s)) p)
     (fun q m' => q = p + Z.of_nat (span isspace s) /\ m' = m) m.
Proof.
  eapply (wp_scan_str m p s Hs _ (on_span isspace s) _ 0); [lia|lia|apply on_span_0|].
  intros j Hj Hsp. apply wp_bind. eapply wp_load_chr; [exact Hs|lia|].
  rewrite isspace_s8 by (eapply str_byte; eauto).
  destruct (isspace (chr s j)) eqn:E; apply wp_ret; (split; [reflexivity|]).
  - assert (chr s j <> 0) by (intros E0; rewrite E0 in E; discriminate).
    exists (j + 1). repeat split; try lia; [|now apply on_span_step].
    destruct (decide (j = Z.of_nat (length s))); [|lia].
    exfalso. apply H. apply chr_zero; [apply Hs|lia..].
  - split; [|reflexivity]. rewrite (span_unique isspace s j); auto.
Qed.

Lemma wp_digits n0 :
  wp (scan (fun '(s, n) =>
        b ← load8 s;
        if isdigit (s8 b) then mret (Next (s + 1, s32 (10 * n - (s8 b - 48))))
        else mret (Break n)) (p, s32 (- n0)))
     (fun n m' => n = s32 (- digits_val n0 s) /\ m' = m) m.
Proof.
  eapply (wp_scan_str2 m p s Hs _ (fun j n => exists a, n = s32 (- a) /\
    digits_val a (drop (Z.to_nat j) s) = digits_val n0 s) _ 0); [lia|lia|eauto|].
  intros j n Hj (a & -> & Ha). apply wp_bind. eapply wp_load_chr; [exact Hs|lia|].
  pose proof (str_byte m p s Hs j) as Hb. rewrite isdigit_s8 by exact Hb.
  destruct (isdigit (chr s j)) eqn:E; apply wp_ret; (split; [reflexivity|]).
  - pose proof (isdigit_range _ E) as Hd.
    assert (Hlt : j < Z.of_nat (length s)).
    { destruct (decide (j < Z.of_nat (length s))); [assumption|].
      assert (chr s j = 0) by (apply chr_zero; [apply Hs|lia..]). lia. }
    exists (j + 1). split; [lia|]. split; [lia|]. exists (10 * a + (chr s j - 48)). split.
    + rewrite s8_small by lia. rewrite s32_mul_sub. f_equal. lia.
    + rewrite <- Ha. replace (Z.to_nat (j + 1)) with (S (Z.to_nat j)) by lia.
      erewrite (drop_S s (chr s j) (Z.to_nat j)) by (apply chr_lookup; lia). simpl. now rewrite E.
  - split; [|reflexivity]. do 2 f_equal. rewrite <- Ha.
    destruct (decide (j = Z.of_nat (length s))).
    + rewrite drop_ge by lia. reflexivity.
    + erewrite (drop_S s (chr s j) (Z.to_nat j)) by (apply chr_lookup; lia). simpl. now rewrite E.
Qed.

End numbers.

Lemma atoi_spec m p s : cstr m p s -> atoi p m = Ok (s32 (atoi_ref s)) m.
Proof.
  intros Hs. apply wp_eq. unfold atoi. apply wp_bind.
  eapply wp_mono; [now apply (wp_skip_space m p s)|]. intros ? ? [-> ->].
  pose proof (span_le isspace s) as Hle.
  pose proof (cstr_drop m p s (span isspace s) Hs Hle) as Ht.
  unfold atoi_ref. set (t := drop (span isspace s) s) in *.
  set (q := p + Z.of_nat (span isspace s)) in *.
  apply wp_bind. eapply wp_load8; [apply (cstr_head m q t Ht)|].
  destruct t as [|c t'].
  - apply wp_bind. eapply wp_mono; [apply (wp_digits m q [] Ht 0)|].
    intros ? ? [-> ->]. apply wp_ret. auto.
  - rewrite chr_0. pose proof (cstr_tail _ _ _ _ Ht) as Ht'.
    destruct (c =? 45); [|destruct (c =? 43)]; apply wp_bind;
      (eapply wp_mono; [first [apply (wp_digits m q (c :: t') Ht 0)|apply (wp_digits m (q + 1) t' Ht' 0)]|]);
      intros ? ? [-> ->]; apply wp_ret; rewrite ?s32_idem_opp, ?Z.opp_involutive; auto.
Qed.

Lemma atol_spec m p s : cstr m p s -> atol p m = Ok (s32 (atoi_ref s)) m.
Proof. exact (atoi_spec m p s). Qed.

(** ** Case folding *)

Lemma foldcase_zero b : is_byte b -> foldcase b = 0 <-> b = 0.
Proof.
  unfold foldcase, isalpha, tolower, is_byte. intros Hb. split; [|now intros ->].
  assert (E : s8 b = b \/ s8 b < 0 /\ 128 <= b) by zlia.
  destruct ((65 <=? s8 b) && (s8 b <=? 90)) eqn:E1; cbv [orb]; zbool.
  - destruct E; [|lia]. rewrite s8_small by lia. lia.
  - destruct ((97 <=? s8 b) && (s8 b <=? 122)); rewrite s8_small by (clear -Hb; zlia); lia.
Qed.

(** The strings with every byte folded, terminator included. *)
Definition folded (s : list Z) : list Z := foldcase <$> (s ++ [0]).
Definition fold_diff (n : nat) (s t : list Z) : Z :=
  first_diff (take n (folded s)) (take n (folded t)).

Definition ffrom (s : list Z) (j : Z) : list Z := foldcase <$> zfrom s j.

Lemma ffrom_0 s : ffrom s 0 = folded s.
Proof. reflexivity. Qed.

Lemma ffrom_step s j :
  0 <= j <= Z.of_nat (length s) -> ffrom s j = foldcase (chr s j) :: ffrom s (j + 1).
Proof. intros. unfold ffrom. now rewrite zfrom_step. Qed.

Lemma ffrom_end s j : j = Z.of_nat (length s) -> ffrom s (j + 1) = [].
Proof. intros ->. unfold ffrom. now rewrite zfrom_end. Qed.

Section casecmp.
Context (m : mem) (l r : Z) (s t : list Z).
Hypothesis Hs : cstr m l s.
Hypothesis Ht : cstr m r t.
Let ls := Z.of_nat (length s).
Let lt := Z.of_nat (length t).

(** Where the folded bytes agree, either both strings end or neither does. *)
Lemma fold_ends j :
  0 <= j <= ls -> 0 <= j <= lt -> foldcase (chr s j) = foldcase (chr t j) ->
  (chr s j = 0 /\ j = ls /\ j = lt) \/ (chr s j <> 0 /\ j < ls /\ j < lt).
Proof.
  intros Hjs Hjt E. pose proof (str_byte m l s Hs j) as Hb1. pose proof (str_byte m r t Ht j) as Hb2.
  pose proof (chr_zero s j (cstr_chars _ _ _ Hs) Hjs) as Z1.
  pose proof (chr_zero t j (cstr_chars _ _ _ Ht) Hjt) as Z2.
  apply foldcase_zero in Hb1. apply foldcase_zero in Hb2. rewrite E in Hb1. fold ls in Z1. fold lt in Z2.
  destruct (decide (chr s j = 0)) as [H0|H0]; [left|right]; [tauto|].
  assert (j <> ls) by tauto. assert (j <> lt) by tauto. split; [exact H0|]. lia.
Qed.

Lemma strcasecmp_spec :
  strcasecmp l r m = Ok (Z.sgn (first_diff (folded s) (folded t))) m.
Proof.
  apply wp_eq. unfold strcasecmp. apply wp_bind.
  eapply (wp_scan_str2 m l s Hs _ (fun j b => b = r + j /\ j <= lt /\
    first_diff (ffrom s j) (ffrom t j) = first_diff (folded s) (folded t)) _ 0);
    [lia|lia|unfold lt; rewrite !ffrom_0; repeat split; lia|].
  intros j b Hj (-> & Hjt & Hd). rewrite (ffrom_step s), (ffrom_step t) in Hd by (unfold lt in *; lia).
  cbn [first_diff] in Hd. apply wp_bind. eapply wp_load_chr; [exact Hs|lia|].
  apply wp_bind. eapply wp_load_chr; [exact Ht|unfold lt in *; lia|].
  destruct (foldcase (chr s j) =? foldcase (chr t j)) eqn:E; zbool.
  - destruct (fold_ends j) as [(H0 & H1 & H2)|(H0 & H1 & H2)]; [unfold ls; lia|lia|exact E| |].
    + rewrite H0, Z.eqb_refl. apply wp_ret. split; [reflexivity|]. apply wp_ret.
      rewrite <- Hd. now rewrite (ffrom_end s), (ffrom_end t).
    + rewrite (proj2 (Z.eqb_neq _ 0)) by exact H0. apply wp_ret. split; [reflexivity|].
      exists (j + 1). unfold ls in H1. repeat split; try lia.
  - apply wp_ret. split; [reflexivity|].
    apply wp_bind. eapply wp_load_chr; [exact Hs|lia|].
    apply wp_bind. eapply wp_load_chr; [exact Ht|unfold lt in *; lia|].
    apply wp_ret. split; [|reflexivity]. rewrite <- Hd. zif; [rewrite Z.sgn_neg|rewrite Z.sgn_pos]; lia.
Qed.

Lemma strncasecmp_spec n :
  0 <= n -> strncasecmp l r n m = Ok (fold_diff (Z.to_nat n) s t) m.
Proof.
  intros Hn. apply wp_eq. unfold strncasecmp. wp_step; [subst; apply wp_ret; auto|].
  eapply (wp_loop _ (fun '(q, q', k) m' => m' = m /\ exists j, q = l + j /\ q' = r + j /\ k = n - j /\
    0 <= j <= ls /\ j <= lt /\ j < n /\
    first_diff (take (Z.to_nat (n - j)) (ffrom s j)) (take (Z.to_nat (n - j)) (ffrom t j))
      = fold_diff (Z.to_nat n) s t) (fun '(_, _, k) => Z.to_nat k)).
  - intros [[q q'] k] ? (-> & j & -> & -> & -> & Hj & Hjt & Hjn & Hd).
    rewrite (ffrom_step s), (ffrom_step t) in Hd by (unfold ls, lt in *; lia).
    replace (Z.to_nat (n - j)) with (S (Z.to_nat (n - (j + 1)))) in Hd by lia.
    cbn [take first_diff] in Hd. unfold ls, lt in Hj, Hjt.
    apply wp_bind. eapply wp_load_chr; [exact Hs|lia|].
    apply wp_bind. eapply wp_load_chr; [exact Ht|lia|].
    destruct (foldcase (chr s j) =? foldcase (chr t j)) eqn:E'; zbool; cbv [negb].
    + destruct (fold_ends j) as [(H0 & H1 & H2)|(H0 & H1 & H2)];
        [unfold ls; lia|unfold lt; lia|exact E'| |].
      * rewrite H0, Z.eqb_refl. apply wp_ret. split; [|reflexivity].
        rewrite <- Hd. rewrite (ffrom_end s), (ffrom_end t) by assumption. now rewrite take_nil.
      * rewrite (proj2 (Z.eqb_neq _ 0)) by exact H0. wp_step; apply wp_ret.
        -- split; [|reflexivity]. rewrite <- Hd. now replace (Z.to_nat (n - (j + 1))) with 0%nat by lia.
        -- split; [|lia]. split; [reflexivity|]. exists (j + 1). repeat split; try lia.
    + apply wp_bind. eapply wp_load_chr; [exact Hs|lia|].
      apply wp_bind. eapply wp_load_chr; [exact Ht|lia|]. apply wp_ret. auto.
  - split; [reflexivity|]. exists 0. unfold ls, lt. repeat split; try lia.
    now rewrite Z.sub_0_r, !ffrom_0.
  - lia.
Qed.

End casecmp.

(** Equal up to case. *)
Lemma folded_eq s t :
  Forall is_char s -> Forall is_char t ->
  first_diff (folded s) (folded t) = 0 <-> Forall2 (fun a b => foldcase a = foldcase b) s t.
Proof.
  unfold folded. intros Hs. revert t. induction Hs as [|c s Hc _ IH]; intros t Ht.
  - destruct Ht as [|d t Hd _]; [simpl; split; auto|]. cbn [app fmap list_fmap first_diff].
    destruct (foldcase 0 =? foldcase d) eqn:E; zbool.
    + change (foldcase 0) with 0 in E. symmetry in E. rewrite foldcase_zero in E by (unfold is_byte, is_char in *; lia). unfold is_char in *. lia.
    + change (foldcase 0) with 0 in *. split; [lia|]. intros H. inversion H.
  - destruct Ht as [|d t Hd Ht]; cbn [app fmap list_fmap first_diff].
    + destruct (foldcase c =? foldcase 0) eqn:E; zbool.
      * change (foldcase 0) with 0 in E. rewrite foldcase_zero in E by (unfold is_byte, is_char in *; lia). unfold is_char in *. lia.
      * change (foldcase 0) with 0 in *. split; [lia|]. intros H. inversion H.
    + destruct (foldcase c =? foldcase d) eqn:E; zbool.
      * rewrite IH by assumption. split; [now constructor|]. intros H. now inversion H.
      * split; [lia|]. intros H. inversion H. lia.
Qed.

(** ** ffs *)

(** The lowest set bit of a word in two's complement. *)
Lemma land_opp_pow2 x k :
  0 <= k -> Z.testbit x k = true -> (forall j, 0 <= j < k -> Z.testbit x j = false) ->
  Z.land x (- x) = 2 ^ k.
Proof.
  intros Hk Hb Hlow. replace (- x) with (Z.lnot (x - 1)) by (unfold Z.lnot; lia).
  assert (Hx : x = 2 ^ k + 2 ^ (k + 1) * (x / 2 ^ (k + 1))).
  { pose proof (Z.div_mod x (2 ^ (k + 1)) ltac:(lia)) as Hd.
    assert (x mod 2 ^ (k + 1) = 2 ^ k); [|lia].
    apply Z.bits_inj'. intros i Hi. rewrite Z.pow2_bits_eqb by lia.
    destruct (decide (i < k + 1)).
    - rewrite Z.mod_pow2_bits_low by lia. destruct (k =? i) eqn:E; zbool; [now subst|].
      apply Hlow. lia.
    - rewrite Z.mod_pow2_bits_high by lia. symmetry. apply Z.eqb_neq. lia. }
  set (h := x / 2 ^ (k + 1)) in *.
  assert (Hx1 : x - 1 = Z.ones k + 2 ^ (k + 1) * h) by (rewrite Z.ones_equiv; lia).
  apply Z.bits_inj'. intros i Hi. rewrite Z.land_spec, Z.lnot_spec, Z.pow2_bits_eqb by lia.
  destruct (Z.lt_trichotomy i k) as [H|[->|H]].
  - rewrite Hlow by lia. symmetry. apply Z.eqb_neq. lia.
  - rewrite Hb, Z.eqb_refl. rewrite Hx1.
    rewrite <- (Z.mod_pow2_bits_low _ (k + 1)) by lia.
    rewrite Z.mul_comm, Z_mod_plus_full. rewrite Z.mod_pow2_bits_low by lia.
    now rewrite Z.ones_spec_high by lia.
  - rewrite (proj2 (Z.eqb_neq k i)) by lia.
    assert (E : forall y, 0 <= y < 2 ^ (k + 1) ->
      Z.testbit (y + 2 ^ (k + 1) * h) i = Z.testbit h (i - (k + 1))).
    { intros y Hy. replace i with (i - (k + 1) + (k + 1)) at 1 by lia.
      rewrite <- Z.div_pow2_bits by lia.
      rewrite Z.mul_comm, Z.div_add, (Z.div_small y) by lia. reflexivity. }
    pose proof (Z.pow_add_r 2 k 1 ltac:(lia) ltac:(lia)) as Hp.
    rewrite Hx1, E by (rewrite Z.ones_equiv; lia).
    assert (B : Z.testbit x i = Z.testbit h (i - (k + 1))) by (rewrite Hx at 1; apply E; lia).
    rewrite B. now destruct (Z.testbit h _).
Qed.

Definition lowest_bit (x k : Z) : Prop :=
  Z.testbit x k = true /\ forall j, 0 <= j < k -> Z.testbit x j = false.

Lemma lowest_bit_exists x (n : nat) :
  x mod 2 ^ Z.of_nat n <> 0 -> exists k, 0 <= k < Z.of_nat n /\ lowest_bit x k.
Proof.
  intros Hx.
  assert (H : (exists k, 0 <= k < Z.of_nat n /\ lowest_bit x k) \/
              forall j, 0 <= j < Z.of_nat n -> Z.testbit x j = false).
  { clear Hx. induction n as [|n [(k & Hk & Hl)|IH]]; [right; lia|left; exists k; split; [lia|exact Hl]|].
    destruct (Z.testbit x (Z.of_nat n)) eqn:E.
    - left. exists (Z.of_nat n). split; [lia|]. now split.
    - right. intros j Hj. destruct (decide (j = Z.of_nat n)) as [->|]; [exact E|apply IH; lia]. }
  destruct H as [H|H]; [exact H|]. contradict Hx. apply Z.bits_inj'. intros i Hi.
  rewrite Z.testbit_0_l. destruct (decide (i < Z.of_nat n)).
  - rewrite Z.mod_pow2_bits_low by lia. apply H. lia.
  - apply Z.mod_pow2_bits_high. lia.
Qed.

(** The de Bruijn multiplication sends every power of two to its exponent. *)
Lemma debruijn64_table k :
  0 <= k < 64 ->
  debruijn64 !! Z.to_nat (Z.shiftr (u64 (2 ^ k * 157587932685088877)) 58) = Some k.
Proof.
  intros Hk.
  assert (H : forallb (fun k => bool_decide (debruijn64 !!
    Z.to_nat (Z.shiftr (u64 (2 ^ k * 157587932685088877)) 58) = Some k))
    (map Z.of_nat (seq 0 64)) = true) by (vm_compute; reflexivity).
  rewrite forallb_forall in H. specialize (H k). rewrite bool_decide_eq_true in H. apply H.
  apply in_map_iff. exists (Z.to_nat k). split; [lia|]. apply in_seq. lia.
Qed.

Lemma a_ctz_64_spec x k : 0 <= x < 2 ^ 64 -> 0 <= k < 64 -> lowest_bit x k -> a_ctz_64 x = k.
Proof.
  intros Hx Hk [Hb Hlow]. unfold a_ctz_64.
  replace (Z.land x (u64 (- x))) with (2 ^ k); [now rewrite debruijn64_table|].
  rewrite <- (land_opp_pow2 x k) by (auto; lia). apply Z.bits_inj'. intros i Hi.
  rewrite !Z.land_spec. change (u64 (- x)) with ((- x) mod 2 ^ 64). destruct (decide (i < 64)).
  - now rewrite Z.mod_pow2_bits_low by lia.
  - rewrite <- (Z.mod_small x (2 ^ 64)) at 1 3 by lia. now rewrite Z.mod_pow2_bits_high by lia.
Qed.

Lemma ffs_spec i :
  -2 ^ 31 <= i < 2 ^ 31 -> i <> 0 ->
  1 <= ffs i <= 32 /\ lowest_bit i (ffs i - 1).
Proof.
  intros Hi H0. unfold ffs, a_ctz_l. rewrite (proj2 (Z.eqb_neq i 0)) by exact H0.
  destruct (lowest_bit_exists i 32) as (k & Hk & Hl); [change (2 ^ Z.of_nat 32) with 4294967296; zlia|].
  rewrite (a_ctz_64_spec _ k); [| |lia|].
  - replace (k + 1 - 1) with k by lia. split; [lia|exact Hl].
  - apply u64_range.
  - change (u64 i) with (i mod 2 ^ 64). destruct Hl as [Hb Hlow].
    split; [|intros j Hj]; rewrite Z.mod_pow2_bits_low by lia; auto.
Qed.
