(* ===== verification/StrProps.v ===== *)
(** * Properties of the string and memory routines

    Statements about whole routines, and witnesses at concrete memories.  The
    loop of calls that splits a string with [strtok_r] is here too. *)

From S2P Require Import Prelude CMem Ctype MemFns StrFns StrSpec StrCopy StrMisc.

(** ** Splitting a string *)

(** Reference: cut at every delimiter, keep the pieces that are not empty. *)
Fixpoint fields (ds s : list Z) : list (list Z) :=
  match s with
  | [] => [[]]
  | c :: s' =>
      if in_delim ds c then [] :: fields ds s'
      else match fields ds s' with
           | f :: fs => (c :: f) :: fs
           | [] => [[c]]
           end
  end.

Definition nonempty (f : list Z) : bool := match f with [] => false | _ => true end.
Definition tokens (ds s : list Z) : list (list Z) := List.filter nonempty (fields ds s).

(** A first call with the string, then calls with the null pointer until one
    returns it. *)
Fixpoint strtok_all (fuel : nat) (str delim save : Z) : M (list Z) :=
  match fuel with
  | O => fun _ => NoFuel
  | S fuel' =>
      '(tok, save) ← strtok_r str delim save;
      if tok =? 0 then mret []
      else rest ← strtok_all fuel' 0 delim save; mret (tok :: rest)
  end.

Lemma fields_ne ds s : fields ds s <> [].
Proof. destruct s as [|c s]; simpl; [discriminate|]. destruct (in_delim ds c), (fields ds s); discriminate. Qed.

Lemma tokens_skip ds s : tokens ds s = tokens ds (drop (span (in_delim ds) s) s).
Proof.
  induction s as [|c s IH]; [reflexivity|]. simpl. destruct (in_delim ds c) eqn:E; [|reflexivity].
  simpl. rewrite <- IH. unfold tokens. simpl. now rewrite E.
Qed.

Lemma fields_span ds s (b := span (not_delim ds) s) :
  fields ds s = take b s :: (if decide (b = length s) then [] else fields ds (drop (S b) s)).
Proof.
  unfold b. clear b. induction s as [|c s IH]; [reflexivity|].
  assert (E : span (not_delim ds) (c :: s) = if in_delim ds c then 0%nat else S (span (not_delim ds) s)).
  { simpl. unfold not_delim at 1. now destruct (in_delim ds c). }
  rewrite E. cbn [fields]. destruct (in_delim ds c); [reflexivity|].
  cbn [take drop length]. rewrite IH. f_equal.
  case_decide; case_decide; try lia; reflexivity.
Qed.

Lemma tokens_span ds s (b := span (not_delim ds) s) :
  (0 < b)%nat ->
  tokens ds s = take b s :: (if decide (b = length s) then [] else tokens ds (drop (S b) s)).
Proof.
  intros Hb. unfold tokens at 1. rewrite fields_span. fold b. simpl.
  assert (b <= length s)%nat by apply span_le. destruct (take b s) eqn:E.
  { apply (f_equal length) in E. rewrite length_take in E. simpl in E. lia. }
  simpl. f_equal. now case_decide.
Qed.

Lemma tokens_delims ds s : drop (span (in_delim ds) s) s = [] -> tokens ds s = [].
Proof. intros E. rewrite tokens_skip, E. reflexivity. Qed.

(** Skipping delimiters stops at the end or at a character of a token. *)
Lemma skip_delims_token ds s c t :
  drop (span (in_delim ds) s) s = c :: t -> (0 < span (not_delim ds) (c :: t))%nat.
Proof.
  induction s as [|d s IH]; simpl; [discriminate|]. destruct (in_delim ds d) eqn:E; [exact IH|].
  intros [= <- <-]. simpl. unfold not_delim at 1. rewrite E. simpl. lia.
Qed.

Lemma cstr_agree m m' p s :
  cstr m p s -> (forall a, p <= a <= p + Z.of_nat (length s) -> m' !! a = m !! a) -> cstr m' p s.
Proof.
  intros [Hc Hb] Ha. split; [exact Hc|]. intros i b Hi. rewrite Ha; [auto|].
  apply lookup_lt_Some in Hi. rewrite length_app in Hi. simpl in Hi. lia.
Qed.

Section strtok_all.
Context (delim : Z) (ds : list Z).

(** The split of the string, and what is left alone: everything outside the
    string's characters. *)
Definition splits (m : mem) (p : Z) (s ps : list Z) (m' : mem) : Prop :=
  Forall2 (cstr m') ps (tokens ds s) /\
  forall a, ~ (p <= a < p + Z.of_nat (length s)) -> m' !! a = m !! a.

Lemma strtok_all_spec n str save m p s :
  (length s < n)%nat -> mem_ok m -> wordwise m -> 0 < p ->
  p = (if str =? 0 then save else str) ->
  cstr m p s -> cstr m delim ds ->
  p + Z.of_nat (length s) < delim \/ delim + Z.of_nat (length ds) < p ->
  wp (strtok_all n str delim save) (splits m p s) m.
Proof.
  revert str save m p s. induction n as [|n IH]; intros str save m p s Hn Hok Hw Hp Est Hs Hds Hdis; [lia|].
  cbn [strtok_all]. apply wp_bind.
  pose proof (strtok_r_spec m str delim save p s ds Hok Hw Est Hs Hds Hp) as E.
  pose proof (strtok_r_strings m p s ds Hs) as Hstr.
  pose proof (span_le (in_delim ds) s) as Ha.
  pose proof (tokens_delims ds s) as Hnone. pose proof (skip_delims_token ds s) as Hsome.
  pose proof (tokens_skip ds s) as Hskip.
  set (a := span (in_delim ds) s) in *. set (rest := drop a s) in *.
  assert (Hlr : (length rest + a = length s)%nat) by (unfold rest; rewrite length_drop; lia).
  assert (Hrest : cstr m (p + Z.of_nat a) rest) by (apply cstr_drop; auto).
  clearbody rest. destruct rest as [|c t].
  { eapply wp_run; [exact E|]. apply wp_ret. split; [rewrite Hnone by reflexivity; constructor|auto]. }
  specialize (Hsome c t eq_refl). rewrite (tokens_span ds _ Hsome) in Hskip. clear Hnone.
  set (rest := c :: t) in *. clearbody rest. set (b := span (not_delim ds) rest) in *.
  assert (Hb : (b <= length rest)%nat) by apply span_le.
  case_decide as Hbl; (eapply wp_run; [exact E|]); cbv beta iota; rewrite (proj2 (Z.eqb_neq (p + Z.of_nat a) 0)) by lia;
    apply wp_bind.
  - eapply wp_mono; [apply (IH 0 (p + Z.of_nat (length s)) m (p + Z.of_nat (length s)) []); auto; simpl; try lia|].
    + rewrite <- (drop_ge s (length s)) by lia. apply cstr_drop; auto.
    + intros ps m' [Hps Hag]. apply Forall2_nil_inv_r in Hps as ->. apply wp_ret. split.
      * rewrite Hskip. rewrite take_ge by lia. repeat constructor; [apply Hrest|].
        apply (cstr_agree m); [exact Hrest|]. intros. apply Hag. simpl. lia.
      * intros x Hx. apply Hag. simpl. lia.
  - destruct (Hstr ltac:(lia)) as [Htok Hafter]. set (m1 := write _ _ _) in *.
    assert (Hm1 : mapped m (p + Z.of_nat a + Z.of_nat b) (Z.of_nat (length [0]))).
    { eapply mapped_sub; [apply (cstr_mapped _ _ _ Hrest)|lia|simpl; lia]. }
    eapply wp_mono; [apply (IH 0 _ m1 (p + Z.of_nat a + Z.of_nat b + 1) (drop (S b) rest)); auto|].
    + rewrite length_drop. lia.
    + apply mem_ok_write; [exact Hok|]. repeat constructor; lia.
    + now apply wordwise_write.
    + lia.
    + apply cstr_write_disjoint; [exact Hds|]. simpl. lia.
    + rewrite length_drop. lia.
    + intros ps m' [Hps Hag]. rewrite length_drop in Hag. apply wp_ret. split.
      * rewrite Hskip. constructor; [|exact Hps]. apply (cstr_agree m1); [exact Htok|].
        intros x Hx. apply Hag. rewrite length_take in Hx. lia.
      * intros x Hx. rewrite Hag by lia. apply write_lookup_out. simpl. lia.
Qed.

End strtok_all.

(** ** Concrete memories for the witnesses *)

(** Two words at 64: "ab,cd,," and its terminator, then "," and a terminator. *)
Definition demo : mem := block 64 [97; 98; 44; 99; 100; 44; 44; 0; 44; 0; 0; 0; 0; 0; 0; 0].
(** Four words at 64: "ab1", "Abd", "-42x" and free space. *)
Definition demo2 : mem := block 64
  [97; 98; 49; 0; 65; 98; 100; 0; 32; 45; 52; 50; 120; 0; 0; 0;
   255; 255; 255; 255; 255; 255; 255; 255; 255; 255; 255; 255; 255; 255; 255; 255].

Lemma demo_ok : mem_ok demo.
Proof. apply mem_ok_block. reflexivity. Qed.
Lemma demo_words : wordwise demo.
Proof. apply wordwise_block; reflexivity. Qed.
Lemma demo2_ok : mem_ok demo2.
Proof. apply mem_ok_block. reflexivity. Qed.
Lemma demo2_words : wordwise demo2.
Proof. apply wordwise_block; reflexivity. Qed.

(** ** Memory *)

(** C5: memmove copies the bytes that were at the source, whether or not the
    ranges overlap and whatever their alignment, writes nothing outside the
    destination, and returns the destination. *)
Theorem memmove_correct m dest src bs :
  bytes_at m src bs -> Forall is_byte bs -> mapped m dest (Z.of_nat (length bs)) ->
  0 <= dest -> 0 <= src -> 2 * Z.of_nat (length bs) <= 2 ^ 64 ->
  dest + Z.of_nat (length bs) <= 2 ^ 64 -> src + Z.of_nat (length bs) <= 2 ^ 64 ->
  exists m', memmove dest src (Z.of_nat (length bs)) m = Ok dest m' /\
    bytes_at m' dest bs /\
    forall a, ~ (dest <= a < dest + Z.of_nat (length bs)) -> m' !! a = m !! a.
Proof.
  intros. exists (write m dest bs). split; [now apply memmove_spec|].
  split; [apply bytes_at_write|apply write_lookup_out].
Qed.

(** Overlapping by all but one byte. *)
Lemma memmove_correct_witness :
  exists m', memmove 65 64 (Z.of_nat 7) demo = Ok 65 m' /\
    bytes_at m' 65 [97; 98; 44; 99; 100; 44; 44] /\
    forall a, ~ (65 <= a < 65 + Z.of_nat 7) -> m' !! a = demo !! a.
Proof.
  apply (memmove_correct demo 65 64 [97; 98; 44; 99; 100; 44; 44]); simpl; try lia.
  - apply bytes_atb_true. reflexivity.
  - apply bytesb_true. reflexivity.
  - apply mapped_block; simpl; lia.
Defined.

(** memset sets exactly the n bytes of the range to the low byte of c, on
    every branch of the unrolled and word-filling code, for every alignment. *)
Lemma memset_correct m dest c n :
  mapped m dest n -> 0 <= n < 2 ^ 64 ->
  exists m', memset dest c n m = Ok dest m' /\
    forall a, m' !! a = if decide (dest <= a < dest + n) then Some (u8 c) else m !! a.
Proof.
  intros Hm Hn. eexists. split; [now apply memset_spec|]. intros a.
  rewrite lookup_write, length_replicate, Z2Nat.id by lia. case_decide; [|reflexivity].
  apply lookup_replicate_2. lia.
Qed.

Lemma memset_correct_witness :
  exists m', memset 67 300 27 demo2 = Ok 67 m' /\
    forall a, m' !! a = if decide (67 <= a < 67 + 27) then Some (u8 300) else demo2 !! a.
Proof. apply (memset_correct demo2 67 300 27); [apply mapped_block; simpl; lia|lia]. Defined.

(** ** Strings *)

(** the word-at-a-time strlen terminates, reads only words that hold a byte
    of the string, and returns the string's length. *)
Lemma strlen_correct m p s :
  mem_ok m -> wordwise m -> cstr m p s -> strlen p m = Ok (Z.of_nat (length s)) m.
Proof. intros. now apply strlen_spec. Qed.

Lemma strlen_correct_witness : strlen 65 demo = Ok (Z.of_nat 6) demo.
Proof.
  apply (strlen_correct demo 65 [98; 44; 99; 100; 44; 44]);
    [apply demo_ok|apply demo_words|apply cstrb_true; reflexivity].
Defined.

(** Lexicographic order on byte lists. *)
Fixpoint lex_lt (s t : list Z) : Prop :=
  match s, t with
  | _, [] => False
  | [], _ :: _ => True
  | a :: s', b :: t' => a < b \/ a = b /\ lex_lt s' t'
  end.

Lemma first_diff_lex s t :
  Forall is_char s -> Forall is_char t -> first_diff (s ++ [0]) (t ++ [0]) < 0 <-> lex_lt s t.
Proof.
  intros Hs. revert t. induction Hs as [|a s Ha _ IH]; intros t Ht.
  - destruct Ht as [|b t Hb _]; [simpl; lia|]. unfold is_char in Hb. cbn [app first_diff lex_lt].
    rewrite (proj2 (Z.eqb_neq 0 b)) by lia. intuition lia.
  - unfold is_char in Ha. destruct Ht as [|b t Hb Ht]; cbn [app first_diff lex_lt].
    + rewrite (proj2 (Z.eqb_neq a 0)) by lia. intuition lia.
    + specialize (IH t Ht). destruct (a =? b) eqn:E; zbool; intuition lia.
Qed.

(** strcmp is the lexicographic comparison of the strings as unsigned
    bytes: negative, zero or positive as the first string is less than, equal
    to or greater than the second. *)
Lemma strcmp_correct m l r s t :
  cstr m l s -> cstr m r t ->
  exists d, strcmp l r m = Ok d m /\
    (d < 0 <-> lex_lt s t) /\ (d = 0 <-> s = t) /\ (0 < d <-> lex_lt t s).
Proof.
  intros Hs Ht. eexists. split; [apply (strcmp_spec m l r s t); assumption|]. destruct Hs as [Hs _], Ht as [Ht _].
  split; [now apply first_diff_lex|]. split; [now apply first_diff_strings|].
  rewrite <- first_diff_lex by assumption. rewrite (first_diff_sym (s ++ [0])). lia.
Qed.

Lemma strcmp_correct_witness :
  exists d, strcmp 64 68 demo2 = Ok d demo2 /\
    (d < 0 <-> lex_lt [97; 98; 49] [65; 98; 100]) /\
    (d = 0 <-> [97; 98; 49] = [65; 98; 100]) /\ (0 < d <-> lex_lt [65; 98; 100] [97; 98; 49]).
Proof. apply (strcmp_correct demo2 64 68); apply cstrb_true; reflexivity. Defined.

(** where seven bytes after the terminator are readable, strncpy writes
    exactly n bytes: the first n of the string followed by zeros. *)
Lemma strncpy_correct m d p n s :
  mem_ok m -> cstr m p s -> mapped m p (Z.of_nat (length s) + 8) ->
  0 <= n < 2 ^ 64 -> mapped m d n ->
  d + n <= p \/ p + Z.of_nat (length s) + 1 <= d ->
  exists m', strncpy d p n m = Ok (d + Z.min (Z.of_nat (length s)) n) m' /\
    (forall i, 0 <= i < n -> m' !! (d + i) = Some (chr s i)) /\
    (forall a, ~ (d <= a < d + n) -> m' !! a = m !! a).
Proof.
  intros Hok Hs Hm Hn Hd Hdis. eexists. split; [apply (strncpy_spec m d p n s); assumption|].
  assert (Hl : Z.of_nat (length (strncpy_bytes s n)) = n).
  { unfold strncpy_bytes. rewrite length_take, length_app, length_replicate. lia. }
  split; [|intros a Ha; apply write_lookup_out; now rewrite Hl].
  intros i Hi. rewrite lookup_write, Hl, decide_True by lia.
  replace (d + i - d) with i by lia. unfold strncpy_bytes, chr. rewrite lookup_take_lt by lia.
  destruct (s !! Z.to_nat i) as [b|] eqn:E; [now apply lookup_app_l_Some|].
  apply lookup_ge_None in E. rewrite lookup_app_r by lia. apply lookup_replicate_2. lia.
Qed.

Lemma strncpy_correct_witness :
  exists m', strncpy 81 64 9 demo2 = Ok (81 + Z.min (Z.of_nat 3) 9) m' /\
    (forall i, 0 <= i < 9 -> m' !! (81 + i) = Some (chr [97; 98; 49] i)) /\
    (forall a, ~ (81 <= a < 81 + 9) -> m' !! a = demo2 !! a).
Proof.
  apply (strncpy_correct demo2 81 64 9 [97; 98; 49]).
  - apply demo2_ok.
  - apply cstrb_true. reflexivity.
  - apply mapped_block; simpl; lia.
  - lia.
  - apply mapped_block; simpl; lia.
  - simpl. lia.
Defined.

(** The alignment test of strncpy looks at bit 3 of the addresses, so it reads
    unaligned words, and past the end of a mapped page: here the string "abc"
    ends with the mapped memory and every other routine can read it. *)
Lemma strncpy_reads_past_the_end :
  let m := write (block 4096 [0; 0; 0; 0; 97; 98; 99; 0]) 8192 (replicate 16 0) in
  cstr m 4100 [97; 98; 99] /\ strlen 4100 m = Ok 3 m /\ strncpy 8196 4100 8 m = Fault.
Proof. split; [apply cstrb_true; reflexivity|]. split; vm_compute; reflexivity. Qed.

(** Calling strtok_r on a string and then with the null pointer until it
    returns null gives, in order, the maximal runs of non-delimiters of the
    string, each a zero-terminated string in place; nothing outside the string
    changes. *)
Lemma strtok_r_splits m p s delim ds save :
  mem_ok m -> wordwise m -> 0 < p -> cstr m p s -> cstr m delim ds ->
  p + Z.of_nat (length s) < delim \/ delim + Z.of_nat (length ds) < p ->
  exists ps m', strtok_all (S (length s)) p delim save m = Ok ps m' /\
    Forall2 (cstr m') ps (tokens ds s) /\
    forall a, ~ (p <= a < p + Z.of_nat (length s)) -> m' !! a = m !! a.
Proof.
  intros. apply wp_ok, strtok_all_spec; auto.
  now rewrite (proj2 (Z.eqb_neq p 0)) by lia.
Qed.

Lemma strtok_r_splits_witness :
  exists ps m', strtok_all 8 64 72 0 demo = Ok ps m' /\
    Forall2 (cstr m') ps [[97; 98]; [99; 100]] /\
    forall a, ~ (64 <= a < 64 + Z.of_nat 7) -> m' !! a = demo !! a.
Proof.
  apply (strtok_r_splits demo 64 [97; 98; 44; 99; 100; 44; 44] 72 [44] 0);
    [apply demo_ok|apply demo_words|lia|apply cstrb_true; reflexivity..|simpl; lia].
Defined.

(** atoi skips white space, takes an optional sign and reads decimal
    digits up to the first other character; the result is that number wrapped
    to an int. *)
Lemma atoi_correct m p s : cstr m p s -> atoi p m = Ok (s32 (atoi_ref s)) m.
Proof. apply atoi_spec. Qed.

Lemma atoi_correct_witness : atoi 72 demo2 = Ok (-42) demo2.
Proof. apply (atoi_correct demo2 72 [32; 45; 52; 50; 120]), cstrb_true. reflexivity. Defined.

(** strcasecmp is zero exactly when the strings agree up to the case of
    ASCII letters, and strncasecmp exactly when their first n characters do. *)
Lemma strcasecmp_correct m l r s t n :
  cstr m l s -> cstr m r t -> 0 <= n ->
  (strcasecmp l r m = Ok 0 m <-> Forall2 (fun a b => foldcase a = foldcase b) s t) /\
  strncasecmp l r n m = Ok (fold_diff (Z.to_nat n) s t) m.
Proof.
  intros Hs Ht Hn. split; [|now apply strncasecmp_spec].
  rewrite (strcasecmp_spec m l r s t) by assumption.
  rewrite <- folded_eq by (eapply cstr_chars; eauto). split; [|now intros ->].
  intros [= H]. now apply Z.sgn_null_iff.
Qed.

Lemma strcasecmp_correct_witness :
  (strcasecmp 64 68 demo2 = Ok 0 demo2 <->
   Forall2 (fun a b => foldcase a = foldcase b) [97; 98; 49] [65; 98; 100]) /\
  strncasecmp 64 68 2 demo2 = Ok 0 demo2.
Proof.
  apply (strcasecmp_correct demo2 64 68 [97; 98; 49] [65; 98; 100] 2);
    [apply cstrb_true; reflexivity..|lia].
Defined.

(** ffs of a nonzero int is one plus the index of its lowest set bit (the
    de Bruijn table look-up is right for every word). *)
Lemma ffs_correct i :
  -2 ^ 31 <= i < 2 ^ 31 -> i <> 0 ->
  1 <= ffs i <= 32 /\ Z.testbit i (ffs i - 1) = true /\
  forall j, 0 <= j < ffs i - 1 -> Z.testbit i j = false.
Proof. intros Hi H0. destruct (ffs_spec i Hi H0) as [Hr [Hb Hl]]. auto. Qed.

Lemma ffs_correct_witness :
  1 <= ffs (-48) <= 32 /\ Z.testbit (-48) (ffs (-48) - 1) = true /\
  forall j, 0 <= j < ffs (-48) - 1 -> Z.testbit (-48) j = false.
Proof. apply (ffs_correct (-48)); lia. Defined.
