(* ===== verification/Alloc.v ===== *)
(** * libc/src/stdlib/liballoc.c and malloc.c: the allocator

    The heap is a store of the two kinds of headers the code keeps, keyed by
    address and linked by the pointers in them, and the bytes of the regions.
    Following a pointer to a header that is not there, or touching a byte
    outside every region, is a fault.  [mmap] is the system's: a function of the
    regions mapped now and the length asked for. *)

From S2P Require Import Prelude CMem State.

(** ** Headers *)

Record major := Major {
  maj_prev : Z; maj_next : Z; maj_pages : Z; maj_size : Z; maj_usage : Z; maj_first : Z }.

Record minor := Minor {
  min_prev : Z; min_next : Z; min_block : Z; min_magic : Z; min_size : Z; min_req_size : Z }.

Definition sizeof_major : Z := 40.
Definition sizeof_minor : Z := 40.
Definition ALIGNMENT : Z := 16.
Definition ALIGN_INFO : Z := 16.
Definition LIBALLOC_MAGIC : Z := 3221340382.
Definition LIBALLOC_DEAD : Z := 3735936685.
Definition l_pageSize : Z := 4096.
Definition l_pageCount : Z := 250.

Record heap := Heap {
  majors : gmap Z major;
  minors : gmap Z minor;
  data : gmap Z Z;
  l_memRoot : Z;
  l_bestBet : Z;
  l_allocated : Z;
  l_inuse : Z;
  l_warningCount : Z;
  l_errorCount : Z;
  l_possibleOverruns : Z;
  malloc_lock : Z;
  region_id : Z }.

Definition heap0 : heap := Heap ∅ ∅ ∅ 0 0 0 0 0 0 0 0 0.

Abbreviation A := (SM heap).

(** ** Fields *)

Definition with_majors f h := Heap (f (majors h)) (minors h) (data h) (l_memRoot h) (l_bestBet h)
  (l_allocated h) (l_inuse h) (l_warningCount h) (l_errorCount h) (l_possibleOverruns h)
  (malloc_lock h) (region_id h).
Definition with_minors f h := Heap (majors h) (f (minors h)) (data h) (l_memRoot h) (l_bestBet h)
  (l_allocated h) (l_inuse h) (l_warningCount h) (l_errorCount h) (l_possibleOverruns h)
  (malloc_lock h) (region_id h).
Definition with_data f h := Heap (majors h) (minors h) (f (data h)) (l_memRoot h) (l_bestBet h)
  (l_allocated h) (l_inuse h) (l_warningCount h) (l_errorCount h) (l_possibleOverruns h)
  (malloc_lock h) (region_id h).
Definition with_memRoot v h := Heap (majors h) (minors h) (data h) v (l_bestBet h)
  (l_allocated h) (l_inuse h) (l_warningCount h) (l_errorCount h) (l_possibleOverruns h)
  (malloc_lock h) (region_id h).
Definition with_bestBet v h := Heap (majors h) (minors h) (data h) (l_memRoot h) v
  (l_allocated h) (l_inuse h) (l_warningCount h) (l_errorCount h) (l_possibleOverruns h)
  (malloc_lock h) (region_id h).
Definition with_allocated v h := Heap (majors h) (minors h) (data h) (l_memRoot h) (l_bestBet h)
  v (l_inuse h) (l_warningCount h) (l_errorCount h) (l_possibleOverruns h)
  (malloc_lock h) (region_id h).
Definition with_inuse v h := Heap (majors h) (minors h) (data h) (l_memRoot h) (l_bestBet h)
  (l_allocated h) v (l_warningCount h) (l_errorCount h) (l_possibleOverruns h)
  (malloc_lock h) (region_id h).
Definition with_warning v h := Heap (majors h) (minors h) (data h) (l_memRoot h) (l_bestBet h)
  (l_allocated h) (l_inuse h) v (l_errorCount h) (l_possibleOverruns h)
  (malloc_lock h) (region_id h).
Definition with_error v h := Heap (majors h) (minors h) (data h) (l_memRoot h) (l_bestBet h)
  (l_allocated h) (l_inuse h) (l_warningCount h) v (l_possibleOverruns h)
  (malloc_lock h) (region_id h).
Definition with_overruns v h := Heap (majors h) (minors h) (data h) (l_memRoot h) (l_bestBet h)
  (l_allocated h) (l_inuse h) (l_warningCount h) (l_errorCount h) v
  (malloc_lock h) (region_id h).
Definition with_lock v h := Heap (majors h) (minors h) (data h) (l_memRoot h) (l_bestBet h)
  (l_allocated h) (l_inuse h) (l_warningCount h) (l_errorCount h) (l_possibleOverruns h)
  v (region_id h).
Definition with_region_id v h := Heap (majors h) (minors h) (data h) (l_memRoot h) (l_bestBet h)
  (l_allocated h) (l_inuse h) (l_warningCount h) (l_errorCount h) (l_possibleOverruns h)
  (malloc_lock h) v.

Definition set_maj_prev v r := Major v (maj_next r) (maj_pages r) (maj_size r) (maj_usage r) (maj_first r).
Definition set_maj_next v r := Major (maj_prev r) v (maj_pages r) (maj_size r) (maj_usage r) (maj_first r).
Definition set_maj_usage v r := Major (maj_prev r) (maj_next r) (maj_pages r) (maj_size r) v (maj_first r).
Definition set_maj_first v r := Major (maj_prev r) (maj_next r) (maj_pages r) (maj_size r) (maj_usage r) v.

Definition set_min_prev v r := Minor v (min_next r) (min_block r) (min_magic r) (min_size r) (min_req_size r).
Definition set_min_next v r := Minor (min_prev r) v (min_block r) (min_magic r) (min_size r) (min_req_size r).
Definition set_min_block v r := Minor (min_prev r) (min_next r) v (min_magic r) (min_size r) (min_req_size r).
Definition set_min_magic v r := Minor (min_prev r) (min_next r) (min_block r) v (min_size r) (min_req_size r).
Definition set_min_size v r := Minor (min_prev r) (min_next r) (min_block r) (min_magic r) v (min_req_size r).
Definition set_min_req_size v r := Minor (min_prev r) (min_next r) (min_block r) (min_magic r) (min_size r) v.

(** ** Access to memory *)

Definition in_region (h : heap) (a n : Z) : bool :=
  existsb (fun '(m, r) => (m <=? a) && (a + n <=? m + maj_size r)) (map_to_list (majors h)).

Definition ld_maj (a : Z) : A major := sopt (fun h => majors h !! a).
Definition ld_min (a : Z) : A minor := sopt (fun h => minors h !! a).

Definition upd_maj (a : Z) (f : major -> major) : A unit := supd (fun h =>
  r ← majors h !! a; Some (with_majors <[a := f r]> h)).

(** A write to a field of a minor header makes the bytes there a header. *)
Definition raw_minor : minor := Minor 0 0 0 0 0 0.
Definition upd_min (a : Z) (f : minor -> minor) : A unit := supd (fun h =>
  if in_region h a sizeof_minor
  then Some (with_minors <[a := f (default raw_minor (minors h !! a))]> h) else None).

Definition ld_byte (a : Z) : A Z := sopt (fun h =>
  if in_region h a 1 then Some (default 0 (data h !! a)) else None).
Definition st_byte (a v : Z) : A unit := supd (fun h =>
  if in_region h a 1 then Some (with_data <[a := u8 v]> h) else None).

Section alloc.
(** The address [mmap] gives for a length, from the regions there are now; 0
    when there is no memory. *)
Context (mmap : gmap Z Z -> Z -> Z).

(** ** malloc.c *)

(** A spin lock: a second lock in the same thread never returns. *)
Definition liballoc_lock : A unit := fun h =>
  if malloc_lock h =? 0 then Done tt (with_lock 1 h) else Spin.
Definition liballoc_unlock : A unit := modify (with_lock 0).

Definition regions (h : heap) : gmap Z Z := maj_size <$> majors h.

Definition liballoc_alloc (s : Z) : A Z :=
  p ← gets (fun h => mmap (regions h) (u64 (s * 4096)));
  modify (fun h => with_region_id (s32 (region_id h + 1)) h);;
  mret p.

(** [munmap]: the headers and bytes of the region are gone. *)
Definition liballoc_free (buf sz : Z) : A unit :=
  modify (fun h =>
    let out (a : Z) := negb ((buf <=? a) && (a <? buf + u64 (sz * 4096))) in
    with_majors (filter (fun '(a, _) => out a = true))
      (with_minors (filter (fun '(a, _) => out a = true))
        (with_data (filter (fun '(a, _) => out a = true)) h))).

(** ** Macros *)

(** [ALIGN(ptr)]: skip the info bytes, round up to 16, note the distance. *)
Definition ALIGN (ptr : Z) : A Z :=
  let ptr := u64 (ptr + ALIGN_INFO) in
  let diff := Z.land ptr (ALIGNMENT - 1) in
  let '(diff, ptr) := if negb (diff =? 0)
                      then (ALIGNMENT - diff, u64 (ptr + (ALIGNMENT - diff))) else (diff, ptr) in
  st_byte (u64 (ptr - ALIGN_INFO)) (diff + ALIGN_INFO);;
  mret ptr.

Definition UNALIGN (ptr : Z) : A Z :=
  b ← ld_byte (u64 (ptr - ALIGN_INFO));
  let diff := u64 (s8 b) in
  mret (if diff <? ALIGNMENT + ALIGN_INFO then u64 (ptr - diff) else ptr).

(** ** Helpers *)

Definition liballoc_memset (s c n : Z) : A Z :=
  sloop (S (Z.to_nat n)) (fun i =>
    if i <? n then st_byte (s + i) c;; mret (Next (u32 (i + 1))) else mret (Break tt)) 0;;
  mret s.

(** A word of four bytes. *)
Definition copy_word (d s : Z) : A unit :=
  b0 ← ld_byte s; b1 ← ld_byte (s + 1); b2 ← ld_byte (s + 2); b3 ← ld_byte (s + 3);
  st_byte d b0;; st_byte (d + 1) b1;; st_byte (d + 2) b2;; st_byte (d + 3) b3.

Definition liballoc_memcpy (s1 s2 n : Z) : A Z :=
  '(ldest, lsrc, n) ← sloop (S (Z.to_nat n)) (fun '(ldest, lsrc, n) =>
     if 4 <=? n then copy_word ldest lsrc;; mret (Next (ldest + 4, lsrc + 4, n - 4))
     else mret (Break (ldest, lsrc, n))) (s1, s2, n);
  sloop (S (Z.to_nat n)) (fun '(cdest, csrc, n) =>
     if 0 <? n then b ← ld_byte csrc; st_byte cdest b;; mret (Next (cdest + 1, csrc + 1, n - 1))
     else mret (Break tt)) (ldest, lsrc, n);;
  mret s1.

Definition allocate_new_page (size : Z) : A Z :=
  let size := u32 size in
  let st := u32 (size + sizeof_major) in
  let st := u32 (st + sizeof_minor) in
  let st := if st mod l_pageSize =? 0 then st / l_pageSize else st / l_pageSize + 1 in
  let st := if st <? l_pageCount then l_pageCount else st in
  maj ← liballoc_alloc st;
  if maj =? 0 then modify (fun h => with_warning (l_warningCount h + 1) h);; mret 0
  else
    let size := u32 (st * l_pageSize) in
    modify (with_majors <[maj := Major 0 0 st size sizeof_major 0]>);;
    modify (fun h => with_allocated (u64 (l_allocated h + size)) h);;
    mret maj.

(** ** malloc *)

(** [usage += size + sizeof(minor)] and [l_inuse += size]. *)
Definition account (maj size : Z) : A unit :=
  upd_maj maj (fun r => set_maj_usage (u32 (maj_usage r + u64 (size + sizeof_minor))) r);;
  modify (fun h => with_inuse (u64 (l_inuse h + size)) h).

(** CASE 2: a brand new block. *)
Definition malloc_case2 (maj size req_size : Z) : A Z :=
  upd_maj maj (set_maj_first (u64 (maj + sizeof_major)));;
  r ← ld_maj maj;
  let first := maj_first r in
  upd_min first (set_min_magic LIBALLOC_MAGIC);;
  upd_min first (set_min_prev 0);;
  upd_min first (set_min_next 0);;
  upd_min first (set_min_block maj);;
  upd_min first (set_min_size (u32 size));;
  upd_min first (set_min_req_size (u32 req_size));;
  account maj size;;
  ALIGN (u64 (first + sizeof_minor)).

(** CASE 3: enough space before the first minor. *)
Definition malloc_case3 (maj size req_size : Z) : A (option Z) :=
  r ← ld_maj maj;
  let diff := u64 (u64 (maj_first r - maj) - sizeof_major) in
  if u64 (size + sizeof_minor) <=? diff then
    let first := maj_first r in
    upd_min first (set_min_prev (u64 (maj + sizeof_major)));;
    f ← ld_min first;
    upd_min (min_prev f) (set_min_next first);;
    upd_maj maj (set_maj_first (min_prev f));;
    r ← ld_maj maj;
    let first := maj_first r in
    upd_min first (set_min_magic LIBALLOC_MAGIC);;
    upd_min first (set_min_prev 0);;
    upd_min first (set_min_block maj);;
    upd_min first (set_min_size (u32 size));;
    upd_min first (set_min_req_size (u32 req_size));;
    account maj size;;
    p ← ALIGN (u64 (first + sizeof_minor));
    mret (Some p)
  else mret None.

(** CASE 4.1: [min] is the last minor; is there space up to the end? *)
Definition malloc_case4_1 (maj size req_size min : Z) : A (option Z) :=
  r ← ld_maj maj;
  mn ← ld_min min;
  let diff := u64 (maj + maj_size r) in
  let diff := u64 (u64 (u64 (diff - min) - sizeof_minor) - min_size mn) in
  if u64 (size + sizeof_minor) <=? diff then
    upd_min min (set_min_next (u64 (min + sizeof_minor + min_size mn)));;
    mn ← ld_min min;
    upd_min (min_next mn) (set_min_prev min);;
    let min := min_next mn in
    upd_min min (set_min_next 0);;
    upd_min min (set_min_magic LIBALLOC_MAGIC);;
    upd_min min (set_min_block maj);;
    upd_min min (set_min_size (u32 size));;
    upd_min min (set_min_req_size (u32 req_size));;
    account maj size;;
    p ← ALIGN (u64 (min + sizeof_minor));
    mret (Some p)
  else mret None.

(** CASE 4.2: is there space between [min] and the next minor? *)
Definition malloc_case4_2 (maj size req_size min : Z) : A (option Z) :=
  mn ← ld_min min;
  let diff := u64 (u64 (u64 (min_next mn - min) - sizeof_minor) - min_size mn) in
  if u64 (size + sizeof_minor) <=? diff then
    let new_min := u64 (min + sizeof_minor + min_size mn) in
    upd_min new_min (set_min_magic LIBALLOC_MAGIC);;
    upd_min new_min (set_min_next (min_next mn));;
    upd_min new_min (set_min_prev min);;
    upd_min new_min (set_min_size (u32 size));;
    upd_min new_min (set_min_req_size (u32 req_size));;
    upd_min new_min (set_min_block maj);;
    upd_min (min_next mn) (set_min_prev new_min);;
    upd_min min (set_min_next new_min);;
    account maj size;;
    p ← ALIGN (u64 (new_min + sizeof_minor));
    mret (Some p)
  else mret None.

(** CASE 4: walk the minors of the block. *)
Definition malloc_case4_step (maj size req_size min : Z) : A (ctl Z (option Z)) :=
  if min =? 0 then mret (Break None) else
  mn ← ld_min min;
  x ← (if min_next mn =? 0 then malloc_case4_1 maj size req_size min else mret None);
  match x with
  | Some p => mret (Break (Some p))
  | None =>
      mn ← ld_min min;
      x ← (if negb (min_next mn =? 0) then malloc_case4_2 maj size req_size min else mret None);
      match x with
      | Some p => mret (Break (Some p))
      | None => mn ← ld_min min; mret (Next (min_next mn))
      end
  end.

Definition malloc_case4 (maj size req_size : Z) : A (option Z) :=
  r ← ld_maj maj;
  fuel ← gets (fun h => S (base.size (minors h)));
  sloop fuel (malloc_case4_step maj size req_size) (maj_first r).

(** The variables of the walk over the majors: [maj], [startedBet], [bestSize]. *)
Definition walk : Type := Z * bool * Z.

(** The text CASE 1 and CASE 5 share: a new block behind the last one, 0 when
    there is no memory. *)
Definition extend (size maj : Z) : A Z :=
  n ← allocate_new_page size;
  upd_maj maj (set_maj_next n);;
  r ← ld_maj maj;
  if maj_next r =? 0 then mret 0
  else upd_maj (maj_next r) (set_maj_prev maj);; mret (maj_next r).

(** CASE 1: not enough space in this block; [Fall] goes on with a new block. *)
Definition malloc_case1 (size maj : Z) (startedBet : bool) (bestSize : Z) : A (flow Z (ctl walk Z)) :=
  r ← ld_maj maj;
  if negb (maj_next r =? 0) then mret (Return (Next (maj_next r, startedBet, bestSize)))
  else if startedBet then
    root ← gets l_memRoot; mret (Return (Next (root, false, bestSize)))
  else
    n ← extend size maj;
    mret (if n =? 0 then Return (Break 0) else Fall n).

(** CASE 5: the block is full; ensure there is a next block and go on. *)
Definition malloc_case5 (size maj : Z) (startedBet : bool) (bestSize : Z) : A (ctl walk Z) :=
  r ← ld_maj maj;
  if maj_next r =? 0 then
    if startedBet then root ← gets l_memRoot; mret (Next (root, false, bestSize))
    else
      n ← extend size maj;
      mret (if n =? 0 then Break 0 else Next (n, startedBet, bestSize))
  else mret (Next (maj_next r, startedBet, bestSize)).

(** The cases after CASE 1 on the block [maj]. *)
Definition malloc_block (size req_size maj : Z) (startedBet : bool) (bestSize : Z) : A (ctl walk Z) :=
  r ← ld_maj maj;
  if maj_first r =? 0 then p ← malloc_case2 maj size req_size; mret (Break p) else
  x ← malloc_case3 maj size req_size;
  match x with
  | Some p => mret (Break p)
  | None =>
      x ← malloc_case4 maj size req_size;
      match x with
      | Some p => mret (Break p)
      | None => malloc_case5 size maj startedBet bestSize
      end
  end.

Definition malloc_walk (size req_size : Z) : walk -> A (ctl walk Z) := fun '(maj, startedBet, bestSize) =>
  if maj =? 0 then mret (Break 0) else
  r ← ld_maj maj;
  let diff := u32 (maj_size r - maj_usage r) in
  bestSize ← (if bestSize <? diff then modify (with_bestBet maj);; mret diff else mret bestSize);
  x ← (if diff <? u64 (size + sizeof_minor)
       then malloc_case1 size maj startedBet bestSize else mret (Fall maj));
  match x with
  | Return c => mret c
  | Fall maj => malloc_block size req_size maj startedBet bestSize
  end.

(** Where to start: the best bet if it has room, else the root. *)
Definition malloc_start (size : Z) : A walk :=
  root ← gets l_memRoot;
  bet ← gets l_bestBet;
  if negb (bet =? 0) then
    b ← ld_maj bet;
    let bestSize := u32 (maj_size b - maj_usage b) in
    mret (if u64 (size + sizeof_minor) <? bestSize then (bet, true, bestSize)
          else (root, false, bestSize))
  else mret (root, false, 0).

(** [malloc] after the size check, with the lock held.  Every [return] of the
    code comes after an unlock. *)
Definition malloc_locked (size req_size : Z) : A Z :=
  root ← gets l_memRoot;
  ok ← (if root =? 0
        then n ← allocate_new_page size; modify (with_memRoot n);; mret (negb (n =? 0))
        else mret true);
  if negb ok then liballoc_unlock;; mret 0 else
  w ← malloc_start size;
  fuel ← gets (fun h => 2 * base.size (majors h) + 2)%nat;
  p ← sloop fuel (malloc_walk size req_size) w;
  liballoc_unlock;;
  mret p.

(** A request so large that [size] wraps to 0 becomes [malloc(1)]. *)
Definition malloc (req_size : Z) : A Z :=
  let size := u64 (req_size + (ALIGNMENT + ALIGN_INFO)) in
  liballoc_lock;;
  if size =? 0 then
    modify (fun h => with_warning (l_warningCount h + 1) h);;
    liballoc_unlock;;
    liballoc_lock;;
    malloc_locked (1 + (ALIGNMENT + ALIGN_INFO)) 1
  else malloc_locked size req_size.

(** ** free, calloc, realloc *)

(** What [free] and [realloc] do with a header whose magic is wrong. *)
Definition bad_magic (magic : Z) : A unit :=
  modify (fun h => with_error (l_errorCount h + 1) h);;
  if (Z.land magic 16777215 =? Z.land LIBALLOC_MAGIC 16777215)
     || (Z.land magic 65535 =? Z.land LIBALLOC_MAGIC 65535)
     || (Z.land magic 255 =? Z.land LIBALLOC_MAGIC 255)
  then modify (fun h => with_overruns (l_possibleOverruns h + 1) h) else mret tt.

Definition unlink_major (r : major) : A unit :=
  (if negb (maj_prev r =? 0) then upd_maj (maj_prev r) (set_maj_next (maj_next r)) else mret tt);;
  (if negb (maj_next r =? 0) then upd_maj (maj_next r) (set_maj_prev (maj_prev r)) else mret tt).

(** Take an empty block out of the list of majors and give it back. *)
Definition release_major (maj : Z) : A unit :=
  root ← gets l_memRoot;
  r ← ld_maj maj;
  (if root =? maj then modify (with_memRoot (maj_next r)) else mret tt);;
  bet ← gets l_bestBet;
  (if bet =? maj then modify (with_bestBet 0) else mret tt);;
  unlink_major r;;
  modify (fun h => with_allocated (u64 (l_allocated h - maj_size r)) h);;
  liballoc_free maj (maj_pages r).

(** Remember the block if it now has more room than the best bet. *)
Definition update_bet (maj : Z) : A unit :=
  bet ← gets l_bestBet;
  if negb (bet =? 0) then
    b ← ld_maj bet;
    r ← ld_maj maj;
    let bestSize := s32 (maj_size b - maj_usage b) in
    let majSize := s32 (maj_size r - maj_usage r) in
    if bestSize <? majSize then modify (with_bestBet maj) else mret tt
  else mret tt.

(** Unlink the minor from its block. *)
Definition unlink_minor (min : Z) : A Z :=
  mn ← ld_min min;
  let maj := min_block mn in
  modify (fun h => with_inuse (u64 (l_inuse h - min_size mn)) h);;
  upd_maj maj (fun r => set_maj_usage (u32 (maj_usage r - u64 (min_size mn + sizeof_minor))) r);;
  upd_min min (set_min_magic LIBALLOC_DEAD);;
  (if negb (min_next mn =? 0) then upd_min (min_next mn) (set_min_prev (min_prev mn)) else mret tt);;
  (if negb (min_prev mn =? 0) then upd_min (min_prev mn) (set_min_next (min_next mn)) else mret tt);;
  (if min_prev mn =? 0 then upd_maj maj (set_maj_first (min_next mn)) else mret tt);;
  mret maj.

Definition free (ptr : Z) : A unit :=
  if ptr =? 0 then modify (fun h => with_warning (l_warningCount h + 1) h) else
  ptr ← UNALIGN ptr;
  liballoc_lock;;
  let min := u64 (ptr - sizeof_minor) in
  mn ← ld_min min;
  if negb (min_magic mn =? LIBALLOC_MAGIC) then
    bad_magic (min_magic mn);; liballoc_unlock
  else
    maj ← unlink_minor min;
    r ← ld_maj maj;
    (if maj_first r =? 0 then release_major maj else update_bet maj);;
    liballoc_unlock.

(** [real_size] is an [int]; it is passed on sign extended. *)
Definition calloc (nobj size : Z) : A Z :=
  let real_size := s32 (u64 (nobj * size)) in
  p ← malloc (u64 real_size);
  liballoc_memset p 0 (u64 real_size);;
  mret p.

Definition realloc (p size : Z) : A Z :=
  if size =? 0 then free p;; mret 0 else
  if p =? 0 then malloc size else
  ptr ← UNALIGN p;
  liballoc_lock;;
  let min := u64 (ptr - sizeof_minor) in
  mn ← ld_min min;
  if negb (min_magic mn =? LIBALLOC_MAGIC) then
    bad_magic (min_magic mn);; liballoc_unlock;; mret 0
  else
    let real_size := min_req_size mn in
    if size <=? real_size then
      upd_min min (set_min_req_size (u32 size));;
      liballoc_unlock;;
      mret p
    else
      liballoc_unlock;;
      ptr ← malloc size;
      liballoc_memcpy ptr p real_size;;
      free p;;
      mret ptr.

End alloc.
