(* ===== verification/AllocSpec.v ===== *)
(** * The allocator: layout invariant and the cases of [malloc]

    A heap represents a list of blocks, each a list of chunks in address order.
    The invariant says how the linked headers, the accounting and the alignment
    bytes of the heap encode that list; the lemmas say what each operation does
    to the list. *)

From S2P Require Import Prelude CMem State Dll Alloc.

(** ** Chunks and blocks *)

Record chunk := Chunk { c_addr : Z; c_size : Z; c_req : Z }.
Record blk := Blk { b_addr : Z; b_pages : Z; b_chunks : list chunk }.

(** The pointer [malloc] returns for a chunk. *)
Definition uptr (c : chunk) : Z := (c_addr c + sizeof_minor + ALIGN_INFO + 15) / 16 * 16.

Definition b_size (b : blk) : Z := b_pages b * 4096.
Definition b_end (b : blk) : Z := b_addr b + b_size b.
Definition in_blk (b : blk) (a : Z) : Prop := b_addr b <= a < b_end b.

Definition used (cs : list chunk) : Z := foldr (fun c n => c_size c + 40 + n) 0 cs.
Definition b_usage (b : blk) : Z := 40 + used (b_chunks b).

Definition min_cell (block prev next : Z) (c : chunk) : minor :=
  Minor prev next block LIBALLOC_MAGIC (c_size c) (c_req c).
Definition maj_cell (prev next : Z) (b : blk) : major :=
  Major prev next (b_pages b) (b_size b) (b_usage b) (hd_addr c_addr 0 (b_chunks b)).

Abbreviation minor_list mn block := (dseg (min_cell block) c_addr mn).
Abbreviation major_list mj := (dseg maj_cell b_addr mj).

(** Chunks in address order without overlap between [lo] and [hi]. *)
Fixpoint placed (lo hi : Z) (cs : list chunk) : Prop :=
  match cs with
  | [] => lo <= hi
  | c :: cs' => lo <= c_addr c /\ 0 <= c_size c /\ placed (c_addr c + 40 + c_size c) hi cs'
  end.

Fixpoint end_of (lo : Z) (cs : list chunk) : Z :=
  match cs with [] => lo | c :: cs' => end_of (c_addr c + 40 + c_size c) cs' end.

(** A chunk has room for its header byte and the request, and the byte before
    the returned pointer tells how far back the header is. *)
Definition chunk_ok (d : gmap Z Z) (c : chunk) : Prop :=
  0 <= c_req c /\ c_req c + 32 <= c_size c /\
  d !! (uptr c - 16) = Some (uptr c - (c_addr c + 40)).

Record blk_ok (mn : gmap Z minor) (d : gmap Z Z) (b : blk) : Prop := {
  bo_addr : 0 < b_addr b;
  bo_pages : 0 < b_pages b;
  bo_size : b_size b < 2 ^ 32;
  bo_end : b_end b <= 2 ^ 47;
  bo_list : minor_list mn (b_addr b) 0 (b_chunks b) 0;
  bo_placed : placed (b_addr b + 40) (b_end b) (b_chunks b);
  bo_chunks : Forall (chunk_ok d) (b_chunks b) }.

Definition apart (b b' : blk) : Prop := b_end b <= b_addr b' \/ b_end b' <= b_addr b.

Fixpoint all_apart (bs : list blk) : Prop :=
  match bs with [] => True | b :: bs' => Forall (apart b) bs' /\ all_apart bs' end.

Definition live (bs : list blk) : list chunk := concat (b_chunks <$> bs).

Definition total_size (bs : list blk) : Z := foldr (fun b n => b_size b + n) 0 bs.
Definition total_inuse (bs : list blk) : Z :=
  foldr (fun b n => foldr (fun c k => c_size c + k) 0 (b_chunks b) + n) 0 bs.

Record core (h : heap) (bs : list blk) : Prop := {
  co_list : major_list (majors h) 0 bs 0;
  co_root : l_memRoot h = hd_addr b_addr 0 bs;
  co_bet : l_bestBet h = 0 \/ exists b, b ∈ bs /\ l_bestBet h = b_addr b;
  co_blocks : Forall (blk_ok (minors h) (data h)) bs;
  co_apart : all_apart bs;
  co_bytes : mem_ok (data h);
  co_allocated : l_allocated h = u64 (total_size bs);
  co_inuse : l_inuse h = u64 (total_inuse bs) }.

(** Between calls: the lock is free and no block is empty. *)
Record heap_inv (h : heap) (bs : list blk) : Prop := {
  hi_core : core h bs;
  hi_lock : malloc_lock h = 0;
  hi_nonempty : Forall (fun b => b_chunks b <> []) bs }.

(** ** Layout *)

Lemma placed_le lo hi cs : placed lo hi cs -> lo <= end_of lo cs <= hi.
Proof. revert lo. induction cs as [|c cs IH]; simpl; intros lo; [lia|]. intros (?&?&H%IH). lia. Qed.

Lemma end_of_app lo xs ys : end_of lo (xs ++ ys) = end_of (end_of lo xs) ys.
Proof. revert lo. induction xs; simpl; auto. Qed.

Lemma placed_app lo hi xs ys :
  placed lo hi (xs ++ ys) <-> placed lo (end_of lo xs) xs /\ placed (end_of lo xs) hi ys.
Proof.
  revert lo. induction xs as [|c xs IH]; simpl; intros lo; [intuition lia|]. rewrite IH. tauto.
Qed.

Lemma placed_weaken lo lo' hi cs : placed lo hi cs -> lo' <= lo -> placed lo' hi cs.
Proof. destruct cs; simpl; intuition lia. Qed.

Lemma placed_insert lo hi xs ys c :
  placed lo hi (xs ++ ys) -> c_addr c = end_of lo xs -> 0 <= c_size c ->
  c_addr c + 40 + c_size c <= hd_addr c_addr hi ys -> placed lo hi (xs ++ c :: ys).
Proof.
  rewrite !placed_app. intros [H1 H2] Hc Hs Hn. split; [exact H1|]. simpl.
  repeat split; try lia. destruct ys; simpl in *; intuition lia.
Qed.

Lemma placed_delete lo hi xs c ys : placed lo hi (xs ++ c :: ys) -> placed lo hi (xs ++ ys).
Proof.
  rewrite !placed_app. simpl. intros (H1 & H2 & H3 & H4). split; [exact H1|].
  eapply placed_weaken; [exact H4|lia].
Qed.

Lemma placed_used lo hi cs : placed lo hi cs -> 0 <= used cs <= hi - lo.
Proof. revert lo. induction cs as [|c cs IH]; simpl; intros lo; [lia|]. intros (?&?&H%IH). lia. Qed.

Lemma placed_in lo hi cs c :
  placed lo hi cs -> c ∈ cs -> lo <= c_addr c /\ 0 <= c_size c /\ c_addr c + 40 + c_size c <= hi.
Proof.
  intros H (xs & ys & ->)%list_elem_of_split. apply placed_app in H as [H1 (H2 & H3 & H4)].
  apply placed_le in H1, H4. lia.
Qed.

(** Two chunks of a block do not overlap. *)
Lemma placed_apart lo hi xs c ys c' :
  placed lo hi (xs ++ c :: ys) -> c' ∈ xs ++ ys ->
  c_addr c' + 40 + c_size c' <= c_addr c \/ c_addr c + 40 + c_size c <= c_addr c'.
Proof.
  rewrite placed_app, elem_of_app. intros (H1 & H2 & H3 & H4) [Hc|Hc].
  - apply (placed_in _ _ _ _ H1) in Hc. lia.
  - apply (placed_in _ _ _ _ H4) in Hc. lia.
Qed.

Lemma placed_addr_ne lo hi xs c ys c' :
  placed lo hi (xs ++ c :: ys) -> c' ∈ xs ++ ys -> c_addr c' <> c_addr c.
Proof.
  intros H Hc. pose proof (placed_apart _ _ _ _ _ _ H Hc).
  pose proof (placed_in _ _ _ c H ltac:(apply elem_of_app; right; left)).
  assert (c' ∈ xs ++ c :: ys) as Hc' by (apply elem_of_app in Hc; apply elem_of_app; rewrite elem_of_cons; tauto).
  apply (placed_in _ _ _ _ H) in Hc'. lia.
Qed.

Lemma placed_NoDup lo hi cs : placed lo hi cs -> NoDup (c_addr <$> cs).
Proof.
  revert lo. induction cs as [|c cs IH]; intros lo H; cbn [fmap list_fmap]; [constructor|].
  constructor; [|eapply IH, H]. rewrite list_elem_of_fmap. intros (c' & E & Hc').
  now apply (placed_addr_ne lo hi [] c cs c' H Hc').
Qed.

Lemma used_cons c cs : used (c :: cs) = c_size c + 40 + used cs.
Proof. reflexivity. Qed.

Lemma used_app xs ys : used (xs ++ ys) = used xs + used ys.
Proof. unfold used. induction xs; simpl; lia. Qed.

Lemma uptr_bounds c : c_addr c + 56 <= uptr c <= c_addr c + 71 /\ uptr c mod 16 = 0.
Proof.
  unfold uptr, sizeof_minor, ALIGN_INFO. split; [|apply Z_mod_mult].
  Z.div_mod_to_equations. lia.
Qed.

(** The bytes of a request are inside its chunk. *)
Lemma uptr_inside d c :
  chunk_ok d c -> c_addr c + 40 < uptr c /\ uptr c + c_req c <= c_addr c + 40 + c_size c.
Proof. intros (H1 & H2 & _). pose proof (uptr_bounds c). lia. Qed.

(** ** Memory access in a heap with explicit stores *)

(** The heap [h] with other stores. *)
Definition stores (h : heap) (mj : gmap Z major) (mn : gmap Z minor) (d : gmap Z Z) : heap :=
  Heap mj mn d (l_memRoot h) (l_bestBet h) (l_allocated h) (l_inuse h) (l_warningCount h)
    (l_errorCount h) (l_possibleOverruns h) (malloc_lock h) (region_id h).

Lemma stores_id h : stores h (majors h) (minors h) (data h) = h.
Proof. now destruct h. Qed.

Lemma in_region_intro h m r a n :
  majors h !! m = Some r -> m <= a -> a + n <= m + maj_size r -> in_region h a n = true.
Proof.
  intros H ??. unfold in_region. apply existsb_exists. exists (m, r). split.
  - apply list_elem_of_In, elem_of_map_to_list, H.
  - apply andb_true_iff. split; apply Z.leb_le; assumption.
Qed.

Section access.
Context (h : heap) (mj : gmap Z major) (mn : gmap Z minor) (d : gmap Z Z).
Abbreviation H := (stores h mj mn d).

Lemma swp_ld_maj a r (Q : major -> heap -> Prop) :
  mj !! a = Some r -> Q r H -> swp (ld_maj a) Q H.
Proof. intros. eapply swp_sopt; eauto. Qed.

Lemma swp_ld_min a r (Q : minor -> heap -> Prop) :
  mn !! a = Some r -> Q r H -> swp (ld_min a) Q H.
Proof. intros. eapply swp_sopt; eauto. Qed.

Lemma swp_upd_maj a r f (Q : unit -> heap -> Prop) :
  mj !! a = Some r -> Q tt (stores h (<[a := f r]> mj) mn d) -> swp (upd_maj a f) Q H.
Proof. intros E HQ. eapply swp_supd; [|exact HQ]. simpl. now rewrite E. Qed.

Lemma swp_upd_min a f m r (Q : unit -> heap -> Prop) :
  mj !! m = Some r -> m <= a -> a + 40 <= m + maj_size r ->
  Q tt (stores h mj (<[a := f (default raw_minor (mn !! a))]> mn) d) -> swp (upd_min a f) Q H.
Proof.
  intros E H1 H2 HQ. eapply swp_supd; [|exact HQ]. simpl.
  rewrite (in_region_intro H m r a sizeof_minor); auto.
Qed.

Lemma swp_ld_byte a m r (Q : Z -> heap -> Prop) :
  mj !! m = Some r -> m <= a -> a + 1 <= m + maj_size r ->
  Q (default 0 (d !! a)) H -> swp (ld_byte a) Q H.
Proof.
  intros E H1 H2 HQ. eapply swp_sopt; [|exact HQ]. now rewrite (in_region_intro H m r a 1).
Qed.

Lemma swp_st_byte a v m r (Q : unit -> heap -> Prop) :
  mj !! m = Some r -> m <= a -> a + 1 <= m + maj_size r ->
  Q tt (stores h mj mn (<[a := u8 v]> d)) -> swp (st_byte a v) Q H.
Proof.
  intros E H1 H2 HQ. eapply swp_supd; [|exact HQ]. now rewrite (in_region_intro H m r a 1).
Qed.

(** [ALIGN] returns the chunk's pointer and stores the distance before it. *)
Lemma swp_ALIGN c m r (Q : Z -> heap -> Prop) :
  mj !! m = Some r -> 0 <= m <= c_addr c -> c_addr c + 72 <= m + maj_size r <= 2 ^ 47 ->
  Q (uptr c) (stores h mj mn (<[uptr c - 16 := uptr c - (c_addr c + 40)]> d)) ->
  swp (ALIGN (u64 (c_addr c + sizeof_minor))) Q H.
Proof.
  intros E Hm Hr HQ. pose proof (uptr_bounds c) as [Hu Hmod].
  unfold ALIGN, sizeof_minor, ALIGN_INFO, ALIGNMENT in *.
  rewrite (u64_small (c_addr c + 40)), (u64_small (c_addr c + 40 + 16)) by lia.
  change (16 - 1) with (Z.ones 4). rewrite Z.land_ones by lia. change (2 ^ 4) with 16.
  set (q := (c_addr c + 40 + 16) mod 16).
  assert (Hq : (if negb (q =? 0) then (16 - q, u64 (c_addr c + 40 + 16 + (16 - q))) else (q, c_addr c + 40 + 16))
      = (uptr c - (c_addr c + 56), uptr c)).
  { assert (0 <= q < 16) by (apply Z.mod_pos_bound; lia).
    assert (Hu' : uptr c = if q =? 0 then c_addr c + 56 else c_addr c + 56 + (16 - q)).
    { unfold uptr, sizeof_minor, ALIGN_INFO, q in *. destruct (_ =? 0) eqn:E0; zbool;
      Z.div_mod_to_equations; lia. }
    rewrite Hu'. destruct (q =? 0) eqn:E0; zbool; simpl; [f_equal; lia|].
    rewrite u64_small by lia. f_equal; lia. }
  rewrite Hq. apply swp_bind. rewrite (u64_small (uptr c - 16)) by lia.
  eapply swp_st_byte; [exact E|lia|lia|]. rewrite u8_small by lia. apply swp_ret.
  now replace (uptr c - (c_addr c + 56) + 16) with (uptr c - (c_addr c + 40)) by lia.
Qed.

(** [UNALIGN] goes back from a chunk's pointer to the bytes after its header. *)
Lemma swp_UNALIGN c m r (Q : Z -> heap -> Prop) :
  mj !! m = Some r -> 0 <= m <= c_addr c -> c_addr c + 72 <= m + maj_size r <= 2 ^ 47 ->
  d !! (uptr c - 16) = Some (uptr c - (c_addr c + 40)) ->
  Q (c_addr c + 40) H -> swp (UNALIGN (uptr c)) Q H.
Proof.
  intros E Hm Hr Ht HQ. pose proof (uptr_bounds c) as [Hu Hmod].
  unfold UNALIGN, ALIGN_INFO, ALIGNMENT. apply swp_bind. rewrite u64_small by lia.
  eapply swp_ld_byte; [exact E|lia|lia|]. rewrite Ht. simpl default.
  rewrite s8_small, u64_small by lia. apply swp_ret.
  rewrite (proj2 (Z.ltb_lt _ _)) by lia. rewrite u64_small by lia.
  now replace (uptr c - (uptr c - (c_addr c + 40))) with (c_addr c + 40) by lia.
Qed.

End access.

(** ** Blocks of the heap *)

Lemma apart_sym b b' : apart b b' -> apart b' b.
Proof. unfold apart. tauto. Qed.

Lemma all_apart_mid pre b post :
  all_apart (pre ++ b :: post) <-> all_apart (pre ++ post) /\ Forall (apart b) (pre ++ post).
Proof.
  induction pre as [|a pre IH]; simpl; [tauto|].
  rewrite IH, !Forall_app, !Forall_cons_iff, !Forall_app.
  pose proof (apart_sym a b). pose proof (apart_sym b a). tauto.
Qed.

Lemma blk_ok_frame mn d mn' d' b :
  blk_ok mn d b ->
  (forall x, in_blk b x -> mn' !! x = mn !! x /\ d' !! x = d !! x) -> blk_ok mn' d' b.
Proof.
  intros [H1 H2 H3 H4 H5 H6 H7] Hf. split; auto.
  - eapply dseg_ext; [|exact H5]. intros c Hc. apply Hf.
    apply (placed_in _ _ _ _ H6) in Hc. unfold in_blk. lia.
  - rewrite Forall_forall in H7 |- *. intros c Hc.
    destruct (H7 c Hc) as (K1 & K2 & K3). split; [exact K1|]. split; [exact K2|].
    rewrite <- K3. apply Hf. apply list_elem_of_In in Hc. apply (placed_in _ _ _ _ H6) in Hc.
    pose proof (uptr_bounds c). unfold in_blk. lia.
Qed.

Lemma apart_out b b' x : apart b b' -> in_blk b x -> ~ in_blk b' x.
Proof. unfold apart, in_blk. lia. Qed.

(** What changes outside a block leaves the other blocks alone. *)
Lemma blocks_frame mn d mn' d' b bs :
  Forall (blk_ok mn d) bs -> Forall (apart b) bs ->
  (forall x, ~ in_blk b x -> mn' !! x = mn !! x /\ d' !! x = d !! x) ->
  Forall (blk_ok mn' d') bs.
Proof.
  intros Hb Ha Hf. rewrite Forall_forall in *. intros b' Hin.
  eapply blk_ok_frame; [now apply Hb|]. intros x Hx. apply Hf.
  eapply apart_out; [apply apart_sym|exact Hx]. auto.
Qed.

Lemma blk_ok_pos mn d b : blk_ok mn d b -> b_addr b < b_end b.
Proof. intros [? ? _ _ _ _ _]. unfold b_end, b_size. lia. Qed.

Lemma apart_addr mn d b b' : blk_ok mn d b -> blk_ok mn d b' -> apart b b' -> b_addr b' <> b_addr b.
Proof. intros ?%blk_ok_pos ?%blk_ok_pos. unfold apart. lia. Qed.

(** A block's header replaced, the links kept. *)
Lemma major_list_replace mj pre b b' post :
  major_list mj 0 (pre ++ b :: post) 0 -> b_addr b' = b_addr b ->
  (forall x, x ∈ pre ++ post -> b_addr x <> b_addr b) ->
  major_list (<[b_addr b := maj_cell (last_addr b_addr 0 pre) (hd_addr b_addr 0 post) b']> mj)
    0 (pre ++ b' :: post) 0.
Proof.
  intros H E Hne. apply dseg_app in H as [H1 [H2 H3]]. apply dseg_app. split; [|split].
  - simpl hd_addr in *. rewrite E. eapply dseg_ext; [|exact H1].
    intros x Hx. apply lookup_insert_ne. intros K. apply (Hne x); [|congruence].
    apply elem_of_app. now left.
  - rewrite E. apply lookup_insert_eq.
  - rewrite E. eapply dseg_ext; [|exact H3].
    intros x Hx. apply lookup_insert_ne. intros K. apply (Hne x); [|congruence].
    apply elem_of_app. now right.
Qed.

Lemma total_size_app xs ys : total_size (xs ++ ys) = total_size xs + total_size ys.
Proof. unfold total_size. induction xs; simpl; lia. Qed.
Lemma total_inuse_app xs ys : total_inuse (xs ++ ys) = total_inuse xs + total_inuse ys.
Proof. unfold total_inuse. induction xs; simpl; lia. Qed.

Lemma u64_add_idem x y : u64 (u64 x + y) = u64 (x + y).
Proof. unfold u64. apply Z.add_mod_idemp_l. lia. Qed.
Lemma u64_sub_idem x y : u64 (u64 x - y) = u64 (x - y).
Proof. unfold u64. apply Zminus_mod_idemp_l. Qed.

Lemma chunk_sum_app xs ys :
  foldr (fun c k => c_size c + k) 0 (xs ++ ys) =
  foldr (fun c k => c_size c + k) 0 xs + foldr (fun c k => c_size c + k) 0 ys.
Proof. induction xs; simpl; lia. Qed.

Lemma all_apart_NoDup mn d bs :
  all_apart bs -> Forall (blk_ok mn d) bs -> NoDup (b_addr <$> bs).
Proof.
  induction bs as [|b bs IH]; intros Ha Hb; cbn [fmap list_fmap]; [constructor|].
  destruct Ha as [Ha1 Ha2]. apply Forall_cons_iff in Hb as [Hb1 Hb2]. constructor; [|auto].
  rewrite list_elem_of_fmap. intros (b' & E & Hb'%list_elem_of_In).
  rewrite Forall_forall in Ha1, Hb2. now apply (apart_addr mn d b b'); auto.
Qed.

Section core.
Context (h : heap) (pre post : list blk) (b : blk).
Hypothesis Hc : core h (pre ++ b :: post).

Lemma core_blk : blk_ok (minors h) (data h) b.
Proof. pose proof (co_blocks _ _ Hc) as H. rewrite Forall_app, Forall_cons_iff in H. tauto. Qed.

Lemma core_others : Forall (blk_ok (minors h) (data h)) (pre ++ post).
Proof. pose proof (co_blocks _ _ Hc) as H. rewrite Forall_app, Forall_cons_iff in H. rewrite Forall_app. tauto. Qed.

Lemma core_apart : Forall (apart b) (pre ++ post).
Proof. pose proof (co_apart _ _ Hc) as H. now apply all_apart_mid in H. Qed.

Lemma core_addr_ne x : x ∈ pre ++ post -> b_addr x <> b_addr b.
Proof.
  intros Hx%list_elem_of_In. pose proof core_others as H1. pose proof core_apart as H2.
  rewrite Forall_forall in H1, H2. eapply apart_addr; [apply core_blk|auto..].
Qed.

Lemma core_lookup :
  majors h !! b_addr b = Some (maj_cell (last_addr b_addr 0 pre) (hd_addr b_addr 0 post) b).
Proof. eapply dseg_lookup, Hc. Qed.

(** The block [b] replaced by [b'] at the same place. *)
Lemma core_replace h' b' :
  b_addr b' = b_addr b -> b_pages b' = b_pages b ->
  majors h' = <[b_addr b := maj_cell (last_addr b_addr 0 pre) (hd_addr b_addr 0 post) b']> (majors h) ->
  blk_ok (minors h') (data h') b' -> mem_ok (data h') ->
  (forall x, ~ in_blk b x -> minors h' !! x = minors h !! x /\ data h' !! x = data h !! x) ->
  l_memRoot h' = l_memRoot h -> l_bestBet h' = l_bestBet h -> l_allocated h' = l_allocated h ->
  l_inuse h' = u64 (total_inuse (pre ++ b' :: post)) ->
  core h' (pre ++ b' :: post).
Proof.
  intros Ea Ep Emj Hb' Hok Hf Er Eb Eal Ein.
  assert (Es : b_size b' = b_size b) by (unfold b_size; now rewrite Ep).
  split.
  - rewrite Emj. apply (major_list_replace _ pre b b'); [apply Hc|exact Ea|apply core_addr_ne].
  - rewrite Er, (co_root _ _ Hc), !hd_addr_app. simpl. now rewrite Ea.
  - rewrite Eb. destruct (co_bet _ _ Hc) as [?|(x & Hx & E)]; [auto|]. right.
    apply elem_of_app in Hx as [Hx|Hx]; [exists x; rewrite elem_of_app; auto|].
    apply elem_of_cons in Hx as [->|Hx]; [exists b'|exists x]; rewrite elem_of_app, elem_of_cons; [|auto].
    rewrite Ea. auto.
  - pose proof (blocks_frame _ _ (minors h') (data h') b _ core_others core_apart Hf) as Ho.
    apply Forall_app in Ho as [Ho1 Ho2]. apply Forall_app. split; [exact Ho1|]. now constructor.
  - pose proof (co_apart _ _ Hc) as Ha. apply all_apart_mid in Ha as [Ha1 Ha2].
    apply all_apart_mid. split; [exact Ha1|]. rewrite Forall_forall in *. intros x Hx. specialize (Ha2 x Hx).
    unfold apart, b_end in *. now rewrite Ea, Es.
  - exact Hok.
  - rewrite Eal, (co_allocated _ _ Hc), !total_size_app. do 2 f_equal. simpl. now rewrite Es.
  - exact Ein.
Qed.

End core.

(** ** A chunk inserted into a block *)

Inductive inserted : list blk -> chunk -> list blk -> Prop :=
| inserted_old pre a pg cs1 c cs2 post :
    inserted (pre ++ Blk a pg (cs1 ++ cs2) :: post) c (pre ++ Blk a pg (cs1 ++ c :: cs2) :: post)
| inserted_new bs a pg c : inserted bs c (bs ++ [Blk a pg [c]]).

(** What a successful [malloc] does to the heap: the chunk [c] is in [bs'], the
    only byte written is the one that tells the distance to the header. *)
Definition placed_in_heap (h : heap) (bs' : list blk) (c : chunk) (p : Z) (h' : heap) : Prop :=
  core h' bs' /\ p = uptr c /\
  (forall x, x <> p - 16 -> data h' !! x = data h !! x) /\ malloc_lock h' = malloc_lock h.

Definition malloced (h : heap) (bs : list blk) (req p : Z) (h' : heap) : Prop :=
  exists bs' c, inserted bs c bs' /\ c_req c = req /\ placed_in_heap h bs' c p h'.

(** The space for a chunk in a block, right behind the chunks [cs1]. *)
Record fits (a pg : Z) (cs1 : list chunk) (c : chunk) (cs2 : list chunk) : Prop := {
  fit_addr : c_addr c = end_of (a + 40) cs1;
  fit_room : c_addr c + 40 + c_size c <= hd_addr c_addr (a + pg * 4096) cs2;
  fit_req : 0 <= c_req c;
  fit_size : c_req c + 32 <= c_size c }.

Section insert.
Context (h : heap) (pre post : list blk) (a pg : Z) (cs1 cs2 : list chunk) (c : chunk).
Let b := Blk a pg (cs1 ++ cs2).
Let b' := Blk a pg (cs1 ++ c :: cs2).
Hypothesis Hc : core h (pre ++ b :: post).
Hypothesis Hfit : fits a pg cs1 c cs2.

Lemma insert_placed : placed (a + 40) (b_end b) (cs1 ++ c :: cs2).
Proof.
  destruct Hfit as [H1 H2 H3 H4]. apply placed_insert; [|assumption|lia|exact H2].
  apply (bo_placed _ _ _ (core_blk h pre post b Hc)).
Qed.

Lemma insert_range :
  a + 40 <= c_addr c /\ c_addr c + 40 + c_size c <= b_end b /\ 0 < a /\ b_end b <= 2 ^ 47 /\
  b_size b < 2 ^ 32 /\ 0 <= used cs1 /\ 0 <= used cs2 /\
  40 + used (cs1 ++ c :: cs2) <= b_size b.
Proof.
  pose proof insert_placed as Hp. pose proof (core_blk h pre post b Hc) as Hb.
  pose proof (placed_in _ _ _ c Hp) as Hin. specialize (Hin ltac:(apply elem_of_app; right; left)).
  pose proof (placed_used _ _ _ Hp) as Hu. apply placed_app in Hp as [Hp1 [_ [_ Hp2]]].
  apply placed_used in Hp1, Hp2. destruct Hb. unfold b_end, b_size in *. simpl in *. lia.
Qed.

(** The links of the minors after the insertion. *)
Record linked (mn' : gmap Z minor) : Prop := {
  lk_before : minor_list mn' a 0 cs1 (c_addr c);
  lk_new : mn' !! c_addr c = Some (min_cell a (last_addr c_addr 0 cs1) (hd_addr c_addr 0 cs2) c);
  lk_after : minor_list mn' a (c_addr c) cs2 0;
  lk_frame : forall x, ~ in_blk b x -> mn' !! x = minors h !! x }.

Lemma linked_intro mn' :
  mn' !! c_addr c = Some (min_cell a (last_addr c_addr 0 cs1) (hd_addr c_addr 0 cs2) c) ->
  (forall xs l, cs1 = xs ++ [l] ->
     mn' !! c_addr l = Some (min_cell a (last_addr c_addr 0 xs) (c_addr c) l)) ->
  (forall d ds, cs2 = d :: ds ->
     mn' !! c_addr d = Some (min_cell a (c_addr c) (hd_addr c_addr 0 ds) d)) ->
  (forall x, x <> c_addr c -> (forall xs l, cs1 = xs ++ [l] -> x <> c_addr l) ->
     (forall d ds, cs2 = d :: ds -> x <> c_addr d) -> mn' !! x = minors h !! x) ->
  linked mn'.
Proof.
  intros Hn Hl Hr Hf. pose proof insert_placed as Hp. pose proof insert_range as Hrg.
  pose proof (bo_list _ _ _ (core_blk h pre post b Hc)) as Hlist.
  cbn [b b_chunks b_addr] in Hlist. apply dseg_app in Hlist as [Hl1 Hl2].
  assert (Hout : forall x, x ∈ cs1 ++ cs2 -> c_addr x <> c_addr c)
    by (intros x; eapply placed_addr_ne, Hp).
  split.
  - destruct cs1 as [|l xs _] using rev_ind; [exact I|].
    eapply dseg_set_next; [exact Hl1|now apply Hl|]. intros x Hx. apply Hf.
    + apply Hout. rewrite !elem_of_app. auto.
    + intros xs' l' E. apply app_inj_tail in E as [<- <-].
      rewrite <- app_assoc in Hp. eapply placed_addr_ne; [exact Hp|]. rewrite elem_of_app. auto.
    + intros d ds ->. replace ((xs ++ [l]) ++ c :: d :: ds) with (((xs ++ [l]) ++ [c]) ++ d :: ds) in Hp
        by now rewrite <- app_assoc.
      eapply placed_addr_ne; [exact Hp|]. rewrite !elem_of_app. auto.
  - exact Hn.
  - destruct cs2 as [|d ds]; [exact I|].
    eapply dseg_set_prev; [exact Hl2|now apply (Hr d ds)|]. intros x Hx. apply Hf.
    + apply Hout. rewrite elem_of_app, elem_of_cons. auto.
    + intros xs l ->. rewrite <- app_assoc in Hp. eapply placed_addr_ne; [exact Hp|].
      rewrite elem_of_app. right. right. now right.
    + intros d' ds' [= <- <-]. replace (cs1 ++ c :: d :: ds) with ((cs1 ++ [c]) ++ d :: ds) in Hp
        by now rewrite <- app_assoc.
      eapply placed_addr_ne; [exact Hp|]. rewrite elem_of_app. auto.
  - intros x Hx. pose proof (core_blk h pre post b Hc) as Hb.
    assert (Hin : forall y, y ∈ cs1 ++ c :: cs2 -> x <> c_addr y).
    { intros y Hy%(placed_in _ _ _ _ Hp) ->. apply Hx. unfold in_blk. simpl. lia. }
    apply Hf; [apply Hin; rewrite elem_of_app, elem_of_cons; auto| |].
    + intros xs l ->. apply Hin. rewrite !elem_of_app, list_elem_of_singleton. auto.
    + intros d ds ->. apply Hin. rewrite elem_of_app, !elem_of_cons. auto.
Qed.

Lemma insert_chunks_ok :
  Forall (chunk_ok (<[uptr c - 16 := uptr c - (c_addr c + 40)]> (data h))) (cs1 ++ c :: cs2).
Proof.
  pose proof insert_placed as Hp. destruct Hfit as [F1 F2 F3 F4].
  pose proof (bo_chunks _ _ _ (core_blk h pre post b Hc)) as B7.
  cbn [b_chunks b] in B7. rewrite Forall_forall in B7.
  assert (Hother : forall c', In c' (cs1 ++ cs2) ->
    chunk_ok (<[uptr c - 16 := uptr c - (c_addr c + 40)]> (data h)) c').
  { intros c' Hc'. destruct (B7 c' Hc') as (K1 & K2 & K3). repeat split; auto. rewrite <- K3.
    apply lookup_insert_ne. apply list_elem_of_In in Hc'.
    pose proof (placed_apart _ _ _ _ _ _ Hp Hc'). pose proof (uptr_bounds c').
    pose proof (uptr_bounds c). lia. }
  apply Forall_app. split; [|constructor].
  - apply Forall_forall. intros c' Hc'. apply Hother, in_app_iff. now left.
  - repeat split; auto. apply lookup_insert_eq.
  - apply Forall_forall. intros c' Hc'. apply Hother, in_app_iff. now right.
Qed.

Lemma core_insert mn' :
  linked mn' ->
  core (stores (with_inuse (u64 (l_inuse h + c_size c)) h)
          (<[a := maj_cell (last_addr b_addr 0 pre) (hd_addr b_addr 0 post) b']> (majors h)) mn'
          (<[uptr c - 16 := uptr c - (c_addr c + 40)]> (data h)))
       (pre ++ b' :: post).
Proof.
  intros [Hl1 Hl2 Hl3 Hf]. pose proof insert_range as Hr. pose proof (uptr_bounds c) as Hu.
  pose proof (core_blk h pre post b Hc) as [B1 B2 B3 B4 B5 B6 B7].
  apply (core_replace h pre post b Hc); try reflexivity.
  - split; auto; [|apply insert_placed|apply insert_chunks_ok].
    simpl. apply dseg_app. split; [exact Hl1|]. split; [exact Hl2|exact Hl3].
  - apply map_Forall_insert_2; [unfold is_byte; lia|apply Hc].
  - intros x Hx. split; [now apply Hf|]. apply lookup_insert_ne. intros <-. apply Hx.
    destruct Hfit. unfold in_blk. simpl. lia.
  - cbn. rewrite (co_inuse _ _ Hc), u64_add_idem. f_equal. rewrite !total_inuse_app. simpl.
    rewrite !chunk_sum_app. simpl. lia.
Qed.

(** The common end of the cases of [malloc]. *)
Lemma swp_account mn (Q : unit -> heap -> Prop) :
  Q tt (stores (with_inuse (u64 (l_inuse h + c_size c)) h)
          (<[a := maj_cell (last_addr b_addr 0 pre) (hd_addr b_addr 0 post) b']> (majors h)) mn (data h)) ->
  swp (account a (c_size c)) Q
    (stores h (<[a := set_maj_first (hd_addr c_addr 0 (cs1 ++ c :: cs2))
       (maj_cell (last_addr b_addr 0 pre) (hd_addr b_addr 0 post) b)]> (majors h)) mn (data h)).
Proof.
  intros HQ. pose proof insert_range as Hr. destruct Hfit as [F1 F2 F3 F4]. unfold account, sizeof_minor.
  apply swp_bind. eapply swp_upd_maj; [apply lookup_insert_eq|]. rewrite insert_insert_eq.
  apply swp_modify. unfold set_maj_usage, set_maj_first, maj_cell in *. cbn in HQ |- *.
  replace (u32 (b_usage b + u64 (c_size c + 40))) with (b_usage b'); [exact HQ|].
  unfold b_usage, b_size, b_end in *. cbn [b b' b_addr b_pages b_chunks] in *.
  rewrite used_app, used_cons in *. rewrite used_app.
  rewrite (u64_small (c_size c + 40)), u32_small; lia.
Qed.

(** Where the first chunk stays the first. *)
Lemma swp_account' mn (Q : unit -> heap -> Prop) :
  cs1 <> [] ->
  Q tt (stores (with_inuse (u64 (l_inuse h + c_size c)) h)
          (<[a := maj_cell (last_addr b_addr 0 pre) (hd_addr b_addr 0 post) b']> (majors h)) mn (data h)) ->
  swp (account a (c_size c)) Q (stores h (majors h) mn (data h)).
Proof.
  intros Hne HQ. apply swp_account in HQ. rewrite insert_id in HQ; [exact HQ|].
  etransitivity; [exact (core_lookup h pre post b Hc)|]. f_equal. unfold maj_cell, set_maj_first. cbn.
  f_equal. now destruct cs1.
Qed.

End insert.
