(* ===== verification/AllocMalloc.v ===== *)
(** * The allocator: every path of [malloc]

    The five cases, the walk over the chunks of a block and over the blocks,
    and the whole of [malloc], each with what it does to the represented list
    of blocks. *)

From S2P Require Import Prelude CMem State Dll Alloc AllocSpec.

Ltac reg_size :=
  unfold set_maj_first, set_maj_usage, set_maj_next, set_maj_prev, maj_cell, b_end, b_size in *;
  cbn [maj_size b_pages b_addr c_addr c_size c_req] in *; lia.

(** One write to a field of a minor in the block with header [Hmj]. *)
Ltac min_step Hmj :=
  apply swp_bind; eapply swp_upd_min; [exact Hmj|lia|reg_size|];
  rewrite ?lookup_insert_eq, ?insert_insert_eq; cbn [default from_option id].

Section cases.
Context (h : heap) (pre post : list blk) (a pg : Z) (c : chunk).
Hypothesis Hreq : 0 <= c_req c.
Hypothesis Hsize : c_size c = c_req c + 32.
Hypothesis Hmax : c_size c < 2 ^ 32.

Abbreviation hcell := (maj_cell (last_addr b_addr 0 pre) (hd_addr b_addr 0 post)).

(** The fields every case writes make the header of the chunk. *)
Lemma min_cell_eq prev next :
  Minor prev next a LIBALLOC_MAGIC (u32 (c_size c)) (u32 (c_req c)) = min_cell a prev next c.
Proof. unfold min_cell. rewrite !u32_small by lia. reflexivity. Qed.

Lemma placed_intro cs1 cs2 mn' :
  core h (pre ++ Blk a pg (cs1 ++ cs2) :: post) -> fits a pg cs1 c cs2 ->
  linked h a pg cs1 cs2 c mn' ->
  placed_in_heap h (pre ++ Blk a pg (cs1 ++ c :: cs2) :: post) c (uptr c)
    (stores (with_inuse (u64 (l_inuse h + c_size c)) h)
       (<[a := hcell (Blk a pg (cs1 ++ c :: cs2))]> (majors h)) mn'
       (<[uptr c - 16 := uptr c - (c_addr c + 40)]> (data h))).
Proof.
  intros Hc Hf Hl. split; [eapply core_insert; eauto|]. split; [reflexivity|].
  split; [|reflexivity]. intros x Hx. now apply lookup_insert_ne.
Qed.

Lemma malloced_intro cs1 cs2 mn' :
  core h (pre ++ Blk a pg (cs1 ++ cs2) :: post) -> fits a pg cs1 c cs2 ->
  linked h a pg cs1 cs2 c mn' ->
  malloced h (pre ++ Blk a pg (cs1 ++ cs2) :: post) (c_req c) (uptr c)
    (stores (with_inuse (u64 (l_inuse h + c_size c)) h)
       (<[a := hcell (Blk a pg (cs1 ++ c :: cs2))]> (majors h)) mn'
       (<[uptr c - 16 := uptr c - (c_addr c + 40)]> (data h))).
Proof.
  intros Hc Hf Hl. eexists _, c. split; [constructor|]. split; [reflexivity|].
  now apply placed_intro.
Qed.

Lemma case2_spec :
  core h (pre ++ Blk a pg [] :: post) -> 80 + c_size c <= pg * 4096 -> c_addr c = a + 40 ->
  swp (malloc_case2 a (c_size c) (c_req c))
    (placed_in_heap h (pre ++ Blk a pg [c] :: post) c) h.
Proof.
  intros Hc Hroom Ha.
  assert (Hf : fits a pg [] c []) by (split; simpl; lia).
  pose proof (insert_range h pre post a pg [] [] c Hc Hf) as Hr. unfold b_end, b_size in Hr. simpl in Hr.
  rewrite <- (stores_id h) at 1. unfold malloc_case2, sizeof_major. rewrite (u64_small (a + 40)) by lia.
  apply swp_bind. eapply swp_upd_maj; [apply (core_lookup h pre post _ Hc)|].
  apply swp_bind. eapply swp_ld_maj; [apply lookup_insert_eq|]. cbn [b_addr maj_first set_maj_first].
  rewrite <- Ha.
  pose proof (lookup_insert_eq (majors h) a (set_maj_first (c_addr c) (hcell (Blk a pg [])))) as Hmj.
  do 6 min_step Hmj. apply swp_bind.
  eapply (swp_account h pre post a pg [] [] c Hc Hf).
  eapply swp_ALIGN; [apply lookup_insert_eq|reg_size..|].
  apply (placed_intro [] []); auto. apply (linked_intro h pre post); auto.
  - rewrite lookup_insert_eq. f_equal. apply min_cell_eq.
  - intros xs l E. now apply app_cons_not_nil in E.
  - discriminate.
  - intros x Hx _ _. now apply lookup_insert_ne.
Qed.

Lemma case3_spec f fs :
  core h (pre ++ Blk a pg (f :: fs) :: post) -> c_addr c = a + 40 ->
  swp (malloc_case3 a (c_size c) (c_req c))
    (fun x h' => match x with
                 | Some p => malloced h (pre ++ Blk a pg (f :: fs) :: post) (c_req c) p h'
                 | None => h' = h
                 end) h.
Proof.
  intros Hc Ha. pose proof (core_blk h pre post _ Hc) as Hb.
  pose proof (core_lookup h pre post _ Hc) as Hmj0.
  pose proof (bo_list _ _ _ Hb) as [Hf _]. cbn [b_chunks b_addr] in *.
  pose proof (placed_in _ _ _ f (bo_placed _ _ _ Hb) ltac:(left)) as Hfr.
  pose proof (bo_addr _ _ _ Hb) as B1. pose proof (bo_end _ _ _ Hb) as B2.
  unfold b_end, b_size in B2, Hfr. cbn [b_addr b_pages] in *.
  rewrite <- (stores_id h) at 1. unfold malloc_case3, sizeof_major, sizeof_minor.
  apply swp_bind. eapply swp_ld_maj; [exact Hmj0|]. cbn [maj_first maj_cell hd_addr b_chunks].
  rewrite (u64_small (c_size c + 40)), (u64_small (c_addr f - a)), (u64_small (c_addr f - a - 40)) by lia.
  swp_step; [|apply swp_ret, stores_id].
  assert (Hfit : fits a pg [] c (f :: fs)) by (split; simpl; lia).
  pose proof (insert_range h pre post a pg [] (f :: fs) c Hc Hfit) as Hr.
  rewrite (u64_small (a + 40)), <- Ha by lia.
  min_step Hmj0. rewrite Hf. cbn [from_option].
  apply swp_bind. eapply swp_ld_min; [apply lookup_insert_eq|]. cbn [min_prev set_min_prev].
  min_step Hmj0. apply swp_bind. eapply swp_upd_maj; [exact Hmj0|].
  apply swp_bind. eapply swp_ld_maj; [apply lookup_insert_eq|]. cbn [maj_first set_maj_first].
  pose proof (lookup_insert_eq (majors h) a (set_maj_first (c_addr c) (hcell (Blk a pg (f :: fs))))) as Hmj.
  do 5 min_step Hmj. apply swp_bind.
  eapply (swp_account h pre post a pg [] (f :: fs) c Hc Hfit). apply swp_bind.
  eapply swp_ALIGN; [apply lookup_insert_eq|reg_size..|]. apply swp_ret.
  apply (malloced_intro [] (f :: fs)); auto. apply (linked_intro h pre post); auto.
  - rewrite lookup_insert_eq. f_equal. apply min_cell_eq.
  - intros xs l E'. now apply app_cons_not_nil in E'.
  - intros d ds [= <- <-]. rewrite lookup_insert_ne, lookup_insert_eq by lia. reflexivity.
  - intros x Hx _ Hd. specialize (Hd f fs eq_refl). now rewrite !lookup_insert_ne by auto.
Qed.

(** The last chunk, and two neighbours. *)
Lemma case4_1_spec xs l :
  core h (pre ++ Blk a pg (xs ++ [l]) :: post) -> c_addr c = c_addr l + 40 + c_size l ->
  swp (malloc_case4_1 a (c_size c) (c_req c) (c_addr l))
    (fun x h' => match x with
                 | Some p => malloced h (pre ++ Blk a pg (xs ++ [l]) :: post) (c_req c) p h'
                 | None => h' = h
                 end) h.
Proof.
  intros Hc Ha. pose proof (core_blk h pre post _ Hc) as Hb.
  pose proof (core_lookup h pre post _ Hc) as Hmj.
  pose proof (dseg_lookup _ _ _ _ _ _ _ _ (bo_list _ _ _ Hb)) as Hl.
  pose proof (placed_in _ _ _ l (bo_placed _ _ _ Hb) ltac:(apply elem_of_app; right; left)) as Hlr.
  pose proof (bo_addr _ _ _ Hb) as B1. pose proof (bo_end _ _ _ Hb) as B2.
  unfold b_end, b_size in B2, Hlr. cbn [b_addr b_pages b_chunks] in *.
  rewrite <- (stores_id h) at 1. unfold malloc_case4_1, sizeof_minor.
  apply swp_bind. eapply swp_ld_maj; [exact Hmj|]. apply swp_bind. eapply swp_ld_min; [exact Hl|].
  cbn [maj_size maj_cell min_size min_cell]. unfold b_size; cbn [b_pages].
  rewrite (u64_small (c_size c + 40)), (u64_small (a + pg * 4096)),
    (u64_small (a + pg * 4096 - c_addr l)), (u64_small (a + pg * 4096 - c_addr l - 40)),
    (u64_small (a + pg * 4096 - c_addr l - 40 - c_size l)) by lia.
  swp_step; [|apply swp_ret, stores_id].
  assert (Hfit : fits a pg (xs ++ [l]) c [])
    by (split; [rewrite end_of_app; exact Ha|simpl; lia..]).
  pose proof Hc as Hc'. rewrite <- (app_nil_r (xs ++ [l])) in Hc'.
  pose proof (insert_range h pre post a pg (xs ++ [l]) [] c Hc' Hfit) as Hr.
  rewrite (u64_small (c_addr l + 40 + c_size l)), <- Ha by lia.
  min_step Hmj. rewrite Hl. cbn [from_option].
  apply swp_bind. eapply swp_ld_min; [apply lookup_insert_eq|]. cbn [min_next set_min_next].
  do 6 min_step Hmj. apply swp_bind.
  eapply (swp_account' h pre post a pg (xs ++ [l]) [] c Hc' Hfit); [now destruct xs|]. apply swp_bind.
  eapply swp_ALIGN; [apply lookup_insert_eq|reg_size..|]. apply swp_ret.
  rewrite <- (app_nil_r (xs ++ [l])) at 1.
  apply (malloced_intro (xs ++ [l]) []); auto. apply (linked_intro h pre post); auto.
  - rewrite lookup_insert_eq, last_addr_app. f_equal. apply min_cell_eq.
  - intros xs' l' E'. apply app_inj_tail in E' as [<- <-].
    rewrite lookup_insert_ne, lookup_insert_eq by lia. reflexivity.
  - discriminate.
  - intros x Hx Hd _. specialize (Hd xs l eq_refl). now rewrite !lookup_insert_ne by auto.
Qed.

Lemma case4_2_spec xs l d ds :
  core h (pre ++ Blk a pg (xs ++ l :: d :: ds) :: post) -> c_addr c = c_addr l + 40 + c_size l ->
  swp (malloc_case4_2 a (c_size c) (c_req c) (c_addr l))
    (fun x h' => match x with
                 | Some p => malloced h (pre ++ Blk a pg (xs ++ l :: d :: ds) :: post) (c_req c) p h'
                 | None => h' = h
                 end) h.
Proof.
  intros Hc Ha. pose proof (core_blk h pre post _ Hc) as Hb.
  pose proof (core_lookup h pre post _ Hc) as Hmj. pose proof (bo_list _ _ _ Hb) as Hlist.
  pose proof (dseg_lookup _ _ _ _ _ _ _ _ Hlist) as Hl. cbn [b_chunks b_addr hd_addr] in *.
  pose proof (bo_placed _ _ _ Hb) as Hp. cbn [b_chunks b_addr] in Hp.
  pose proof (placed_in _ _ _ l Hp ltac:(apply elem_of_app; right; left)) as Hlr.
  pose proof (placed_in _ _ _ d Hp ltac:(apply elem_of_app; right; right; left)) as Hdr.
  assert (Hld : c_addr l + 40 + c_size l <= c_addr d).
  { clear -Hp. apply placed_app in Hp as [_ (_ & _ & H & _)]. exact H. }
  pose proof (bo_addr _ _ _ Hb) as B1. pose proof (bo_end _ _ _ Hb) as B2.
  unfold b_end, b_size in B2, Hlr, Hdr. cbn [b_addr b_pages b_chunks] in *.
  rewrite <- (stores_id h) at 1. unfold malloc_case4_2, sizeof_minor.
  apply swp_bind. eapply swp_ld_min; [exact Hl|]. cbn [min_next min_size min_cell].
  rewrite (u64_small (c_size c + 40)), (u64_small (c_addr d - c_addr l)),
    (u64_small (c_addr d - c_addr l - 40)), (u64_small (c_addr d - c_addr l - 40 - c_size l)) by lia.
  swp_step; [|apply swp_ret, stores_id].
  replace (xs ++ l :: d :: ds) with ((xs ++ [l]) ++ d :: ds) in * by now rewrite <- app_assoc.
  assert (Hfit : fits a pg (xs ++ [l]) c (d :: ds))
    by (split; [rewrite end_of_app; exact Ha|simpl; lia..]).
  pose proof (insert_range h pre post a pg (xs ++ [l]) (d :: ds) c Hc Hfit) as Hr.
  pose proof (dseg_lookup _ _ _ _ _ _ _ _ Hlist) as Hd.
  rewrite (u64_small (c_addr l + 40 + c_size l)), <- Ha by lia.
  do 6 min_step Hmj. min_step Hmj. rewrite lookup_insert_ne, Hd by lia. cbn [from_option].
  min_step Hmj. rewrite !lookup_insert_ne, Hl by lia. cbn [from_option]. apply swp_bind.
  eapply (swp_account' h pre post a pg (xs ++ [l]) (d :: ds) c Hc Hfit); [now destruct xs|]. apply swp_bind.
  eapply swp_ALIGN; [apply lookup_insert_eq|reg_size..|]. apply swp_ret.
  apply (malloced_intro (xs ++ [l]) (d :: ds)); auto. apply (linked_intro h pre post); auto.
  - rewrite !lookup_insert_ne, lookup_insert_eq, last_addr_app by lia. f_equal. apply min_cell_eq.
  - intros xs' l' E'. apply app_inj_tail in E' as [<- <-]. now rewrite lookup_insert_eq.
  - intros d' ds' [= <- <-]. rewrite lookup_insert_ne, lookup_insert_eq by lia. reflexivity.
  - intros x Hx Hl' Hd'. specialize (Hl' xs l eq_refl). specialize (Hd' d ds eq_refl).
    now rewrite !lookup_insert_ne by auto.
Qed.

End cases.

Section walk.
Context (h : heap) (pre post : list blk) (a pg size req : Z).
Hypothesis Hreq : 0 <= req.
Hypothesis Hsize : size = req + 32.
Hypothesis Hmax : size < 2 ^ 32.

Definition some_or_same (bs : list blk) (x : option Z) (h' : heap) : Prop :=
  match x with Some p => malloced h bs req p h' | None => h' = h end.

Lemma case4_loop_spec xs l rest fuel :
  core h (pre ++ Blk a pg (xs ++ l :: rest) :: post) -> (S (length rest) < fuel)%nat ->
  swp (sloop fuel (malloc_case4_step a size req) (c_addr l))
    (some_or_same (pre ++ Blk a pg (xs ++ l :: rest) :: post)) h.
Proof.
  revert xs l fuel. induction rest as [|d ds IH]; intros xs l fuel Hc Hf;
    (destruct fuel as [|fuel]; [lia|]); cbn [sloop]; apply swp_bind; unfold malloc_case4_step at 1;
    pose proof (core_blk h pre post _ Hc) as Hb;
    pose proof (dseg_lookup _ _ _ _ _ _ _ _ (bo_list _ _ _ Hb)) as Hl; cbn [hd_addr] in Hl;
    pose proof (placed_in _ _ _ l (bo_placed _ _ _ Hb) ltac:(apply elem_of_app; right; left)) as Hlr;
    pose proof (bo_addr _ _ _ Hb) as B1; cbn [b_addr] in *;
    rewrite (proj2 (Z.eqb_neq (c_addr l) 0)) by lia; apply swp_bind;
    (eapply swp_sopt; [exact Hl|]); cbn [min_next min_cell]; apply swp_bind.
  - eapply swp_mono; [apply (case4_1_spec h pre post a pg (Chunk (c_addr l + 40 + c_size l) size req) Hreq Hsize Hmax xs l Hc eq_refl)|].
    intros [p|] h'; [intros Hm; apply swp_ret, swp_ret, Hm|]. intros ->.
    apply swp_bind. eapply swp_sopt; [exact Hl|]. apply swp_bind, swp_ret.
    apply swp_bind. eapply swp_sopt; [exact Hl|]. apply swp_ret. cbn [min_next min_cell].
    destruct fuel as [|fuel]; [lia|]. reflexivity.
  - pose proof (placed_in _ _ _ d (bo_placed _ _ _ Hb) ltac:(apply elem_of_app; right; right; left)) as Hdr.
    cbn [b_addr] in Hdr.
    rewrite (proj2 (Z.eqb_neq (c_addr d) 0)) by lia. apply swp_ret.
    apply swp_bind. eapply swp_sopt; [exact Hl|]. cbn [min_next min_cell].
    rewrite (proj2 (Z.eqb_neq (c_addr d) 0)) by lia. apply swp_bind.
    eapply swp_mono; [apply (case4_2_spec h pre post a pg (Chunk (c_addr l + 40 + c_size l) size req) Hreq Hsize Hmax xs l d ds Hc eq_refl)|].
    intros [p|] h'; [intros Hm; apply swp_ret, swp_ret, Hm|]. intros ->.
    apply swp_bind. eapply swp_sopt; [exact Hl|]. apply swp_ret. cbn [min_next min_cell].
    replace (xs ++ l :: d :: ds) with ((xs ++ [l]) ++ d :: ds) in * by now rewrite <- app_assoc.
    apply IH; [exact Hc|simpl in Hf; lia].
Qed.

Lemma case4_spec l rest :
  core h (pre ++ Blk a pg (l :: rest) :: post) ->
  swp (malloc_case4 a size req) (some_or_same (pre ++ Blk a pg (l :: rest) :: post)) h.
Proof.
  intros Hc. unfold malloc_case4. apply swp_bind.
  eapply swp_sopt; [apply (core_lookup h pre post _ Hc)|]. apply swp_bind, swp_gets.
  apply (case4_loop_spec [] l rest); [exact Hc|].
  pose proof (core_blk h pre post _ Hc) as Hb.
  pose proof (dseg_size _ _ _ _ _ _ (bo_list _ _ _ Hb)) as Hs. cbn [b_chunks length] in Hs.
  specialize (Hs (placed_NoDup _ _ _ (bo_placed _ _ _ Hb))). lia.
Qed.

End walk.

(** ** New blocks *)

Section grow.
Context (mmap : gmap Z Z -> Z -> Z).

(** What the allocator relies on of [mmap]: null, or a page-aligned range below
    the end of user space that no mapped region overlaps.  (mmap(2) fails with
    MAP_FAILED, -1, which [liballoc_alloc] would pass on; the kernel's mmap of
    anonymous memory at no given address does not return it.) *)
Definition mmap_spec : Prop := forall rs n,
  mmap rs n = 0 \/
  (0 < mmap rs n /\ mmap rs n mod 4096 = 0 /\ mmap rs n + n <= 2 ^ 47 /\
   forall b l, rs !! b = Some l -> mmap rs n + n <= b \/ b + l <= mmap rs n).
Hypothesis Hmmap : mmap_spec.

Context (size : Z).
Hypothesis Hsize : 0 <= size <= 2 ^ 32 - 4096 - 80.

Definition same (h h' : heap) : Prop := data h' = data h /\ malloc_lock h' = malloc_lock h.

(** A heap with a region that is mapped but not in the list yet. *)
Definition fresh_block (h : heap) (bs : list blk) (n st : Z) (h' : heap) : Prop :=
  h' = with_allocated (u64 (l_allocated h + st * 4096))
         (with_majors <[n := Major 0 0 st (st * 4096) 40 0]>
            (with_region_id (s32 (region_id h + 1)) h)) /\
  blk_ok (minors h) (data h) (Blk n st []) /\ Forall (apart (Blk n st [])) bs /\
  80 + size <= st * 4096.

Lemma allocate_spec h bs :
  core h bs ->
  swp (allocate_new_page mmap size)
    (fun n h' => (n = 0 /\ core h' bs /\ same h h') \/ exists st, fresh_block h bs n st h') h.
Proof.
  intros Hc. unfold allocate_new_page, sizeof_major, sizeof_minor, l_pageSize, l_pageCount.
  rewrite (u32_small size), (u32_small (size + 40)), (u32_small (size + 40 + 40)) by lia.
  set (st := if _ <? _ then 250 else _).
  assert (Hst : 80 + size <= st * 4096 < 2 ^ 32 /\ 0 < st).
  { unfold st. clear st. destruct ((size + 40 + 40) mod 4096 =? 0) eqn:E; zbool;
    zif; Z.div_mod_to_equations; lia. }
  clearbody st. unfold liballoc_alloc. apply swp_bind, swp_bind, swp_gets, swp_bind, swp_modify, swp_ret.
  rewrite u64_small by lia. cbn [regions with_region_id].
  destruct (Hmmap (regions h) (st * 4096)) as [E|(H1 & H2 & H3 & H4)].
  - rewrite E. cbn [Z.eqb]. apply swp_bind, swp_modify, swp_ret. left.
    split; [reflexivity|]. split; [|split; reflexivity]. destruct Hc. now split.
  - rewrite (proj2 (Z.eqb_neq _ 0)) by lia. rewrite u32_small by lia.
    apply swp_bind, swp_modify, swp_bind, swp_modify, swp_ret. right. exists st.
    set (n := mmap _ _) in *. split; [reflexivity|]. split; [|split; [|lia]].
    + split; unfold b_end, b_size; simpl; auto; lia.
    + rewrite Forall_forall. intros b Hb%list_elem_of_In.
      destruct (list_elem_of_split bs b Hb) as (pre & post & ->).
      pose proof (core_lookup h pre post b Hc) as Hl.
      specialize (H4 (b_addr b) (b_size b)). unfold regions in H4. rewrite lookup_fmap, Hl in H4.
      specialize (H4 eq_refl). unfold apart, b_end, b_size in *. simpl. lia.
Qed.

(** The region taken into the list. *)
Lemma core_add h bs n st h' :
  core h bs -> blk_ok (minors h) (data h) (Blk n st []) -> Forall (apart (Blk n st [])) bs ->
  major_list (majors h') 0 (bs ++ [Blk n st []]) 0 ->
  l_memRoot h' = hd_addr b_addr 0 (bs ++ [Blk n st []]) -> l_bestBet h' = l_bestBet h ->
  minors h' = minors h -> data h' = data h ->
  l_allocated h' = u64 (l_allocated h + st * 4096) -> l_inuse h' = l_inuse h ->
  core h' (bs ++ [Blk n st []]).
Proof.
  intros Hc Hb Ha E1 E2 E3 E4 E5 E6 E7. split; [exact E1|exact E2| | | | | |].
  - rewrite E3. destruct (co_bet _ _ Hc) as [?|(b & Hin & ?)]; [auto|]. right. exists b.
    rewrite elem_of_app. auto.
  - rewrite E4, E5. apply Forall_app. split; [apply Hc|auto].
  - apply all_apart_mid. rewrite app_nil_r. split; [apply Hc|exact Ha].
  - rewrite E5. apply Hc.
  - rewrite E6, (co_allocated _ _ Hc), u64_add_idem, total_size_app. f_equal.
    unfold total_size, b_size. simpl. lia.
  - rewrite E7, (co_inuse _ _ Hc), total_inuse_app. f_equal. unfold total_inuse. simpl. lia.
Qed.

Lemma extend_spec h pre b :
  core h (pre ++ [b]) ->
  swp (extend mmap size (b_addr b))
    (fun n h' => same h h' /\
       ((n = 0 /\ core h' (pre ++ [b])) \/
        (0 < n /\ exists st, 80 + size <= st * 4096 /\ core h' ((pre ++ [b]) ++ [Blk n st []])))) h.
Proof.
  intros Hc. unfold extend. apply swp_bind. eapply swp_mono; [apply (allocate_spec h _ Hc)|].
  intros n h1 [(-> & Hc1 & Hs)|(st & -> & Hb & Ha & Hroom)].
  - pose proof (core_lookup h1 pre [] b Hc1) as Hl. rewrite <- (stores_id h1).
    apply swp_bind. eapply swp_upd_maj; [exact Hl|]. apply swp_bind.
    eapply swp_ld_maj; [apply lookup_insert_eq|]. cbn [maj_next set_maj_next Z.eqb]. apply swp_ret.
    rewrite insert_id by exact Hl. rewrite stores_id. auto.
  - pose proof (core_lookup h pre [] b Hc) as Hl. pose proof (bo_addr _ _ _ Hb) as Hn. simpl in Hn.
    pose proof (core_blk h pre [] b Hc) as Hbb.
    assert (Hne : b_addr b <> n).
    { apply (apart_addr _ _ _ _ Hb Hbb). rewrite Forall_app, Forall_cons_iff in Ha. tauto. }
    set (h1 := with_allocated _ _). rewrite <- (stores_id h1).
    apply swp_bind. eapply swp_upd_maj; [cbn; rewrite lookup_insert_ne by auto; exact Hl|].
    apply swp_bind. eapply swp_ld_maj; [apply lookup_insert_eq|]. cbn [maj_next set_maj_next].
    rewrite (proj2 (Z.eqb_neq n 0)) by lia. apply swp_bind.
    eapply swp_upd_maj; [rewrite lookup_insert_ne by auto; apply lookup_insert_eq|].
    apply swp_ret. split; [split; reflexivity|]. right. split; [lia|]. exists st. split; [lia|].
    apply (core_add h); try reflexivity; auto.
    + cbn [majors stores]. apply dseg_app. split.
      * eapply dseg_set_next; [apply Hc| |].
        -- rewrite lookup_insert_ne, lookup_insert_eq by auto. reflexivity.
        -- intros x Hx. rewrite lookup_insert_ne, lookup_insert_ne.
           ++ cbn. apply lookup_insert_ne. rewrite Forall_forall in Ha.
              pose proof (co_blocks _ _ Hc) as Hall. rewrite Forall_forall in Hall.
              assert (In x (pre ++ [b])) by (apply list_elem_of_In, elem_of_app; auto).
              intros E. apply (apart_addr _ _ _ _ Hb (Hall x ltac:(auto))); auto.
           ++ intros E. apply (core_addr_ne h pre [] b Hc x); [|auto]. rewrite app_nil_r. exact Hx.
           ++ rewrite Forall_forall in Ha.
              pose proof (co_blocks _ _ Hc) as Hall. rewrite Forall_forall in Hall.
              assert (In x (pre ++ [b])) by (apply list_elem_of_In, elem_of_app; auto).
              intros E. apply (apart_addr _ _ _ _ Hb (Hall x ltac:(auto))); auto.
      * split; [|exact I]. rewrite last_addr_app, lookup_insert_eq. reflexivity.
    + cbn. rewrite (co_root _ _ Hc). now destruct pre.
Qed.

End grow.

(** ** The walk over the blocks *)

Section malloc.
Context (mmap : gmap Z Z -> Z -> Z) (req : Z).
Hypothesis Hmmap : mmap_spec mmap.
Hypothesis Hreq : 0 <= req <= 2 ^ 32 - 4208.
Abbreviation size := (req + 32).

Definition result (h : heap) (bs : list blk) (p : Z) (h' : heap) : Prop :=
  (p = 0 /\ core h' bs /\ same h h') \/ malloced h bs req p h'.

(** After one round of the walk at the block [b]. *)
Definition after (h : heap) (pre : list blk) (b : blk) (post : list blk) (st : bool)
    (x : ctl walk Z) (h' : heap) : Prop :=
  let bs := pre ++ b :: post in
  match x with
  | Break p => result h bs p h'
  | Next (m', st', _) =>
      same h h' /\
      ((exists d post', post = d :: post' /\ m' = b_addr d /\ st' = st /\ core h' bs) \/
       (post = [] /\ st = true /\ m' = hd_addr b_addr 0 bs /\ st' = false /\ core h' bs) \/
       (post = [] /\ st' = false /\ exists pgs, 80 + size <= pgs * 4096 /\ core h' (bs ++ [Blk m' pgs []])))
  end.

Lemma same_refl h : same h h.
Proof. now split. Qed.

Lemma same_trans h1 h2 h3 : same h1 h2 -> same h2 h3 -> same h1 h3.
Proof. intros [] []. split; congruence. Qed.

Lemma malloced_same h h1 bs p h' : same h h1 -> malloced h1 bs req p h' -> malloced h bs req p h'.
Proof.
  intros [Hd Hl] (bs' & c & Hi & Hq & Hc & -> & Hf & Hk). exists bs', c.
  split; [exact Hi|]. split; [exact Hq|]. split; [exact Hc|]. split; [reflexivity|].
  split; [|congruence]. intros x Hx. rewrite Hf by exact Hx. congruence.
Qed.

Lemma result_same h h1 bs p h' : same h h1 -> result h1 bs p h' -> result h bs p h'.
Proof.
  intros Hs [(-> & Hc & Hs')|Hm]; [left|right; now apply (malloced_same h h1)].
  split; [reflexivity|]. split; [exact Hc|]. now apply (same_trans h h1).
Qed.

Lemma after_same h h1 pre b post st x h' : same h h1 -> after h1 pre b post st x h' -> after h pre b post st x h'.
Proof.
  intros Hs. unfold after. destruct x as [[[m' st'] best]|p]; [|now apply result_same].
  intros [Hs' H]. split; [now apply (same_trans h h1)|exact H].
Qed.

Lemma core_bet h bs b : core h bs -> b ∈ bs -> core (with_bestBet (b_addr b) h) bs.
Proof. intros [] Hb. split; auto. right. exists b. auto. Qed.

Lemma usage_range mn d b : blk_ok mn d b -> 40 <= b_usage b <= b_size b /\ b_size b < 2 ^ 32.
Proof.
  intros [B1 B2 B3 B4 B5 B6 B7]. apply placed_used in B6. unfold b_usage, b_end, b_size in *. lia.
Qed.

Lemma case5_spec h pre b post st best :
  core h (pre ++ b :: post) ->
  swp (malloc_case5 mmap size (b_addr b) st best) (after h pre b post st) h.
Proof.
  intros Hc. unfold malloc_case5. apply swp_bind.
  eapply swp_sopt; [apply (core_lookup h pre post b Hc)|]. cbn [maj_next maj_cell].
  destruct post as [|d post]; cbn [hd_addr].
  - rewrite Z.eqb_refl. destruct st.
    + apply swp_bind, swp_gets, swp_ret. split; [apply same_refl|]. right. left.
      rewrite (co_root _ _ Hc). auto.
    + apply swp_bind. eapply swp_mono; [apply (extend_spec mmap Hmmap size ltac:(lia) h pre b Hc)|].
      intros n h' (Hs & [(-> & Hc')|(Hn & pgs & Hr & Hc')]).
      * apply swp_ret. left. auto.
      * rewrite (proj2 (Z.eqb_neq n 0)) by lia. apply swp_ret. split; [exact Hs|].
        right. right. split; [reflexivity|]. split; [reflexivity|]. exists pgs. auto.
  - pose proof (core_others h pre (d :: post) b Hc) as Ho. rewrite Forall_app, Forall_cons_iff in Ho.
    destruct Ho as [_ [Hd _]]. pose proof (bo_addr _ _ _ Hd).
    rewrite (proj2 (Z.eqb_neq (b_addr d) 0)) by lia. apply swp_ret.
    split; [apply same_refl|]. left. exists d, post. repeat (split; [reflexivity|]). exact Hc.
Qed.

Lemma empty_block_spec h pre a pg post st best :
  core h (pre ++ Blk a pg [] :: post) -> 80 + size <= pg * 4096 ->
  swp (malloc_block mmap size req a st best) (fun x h' => exists p c, x = Break p /\ c_req c = req /\
    placed_in_heap h (pre ++ Blk a pg [c] :: post) c p h') h.
Proof.
  intros Hc Hroom. unfold malloc_block. apply swp_bind.
  eapply swp_sopt; [apply (core_lookup h pre post (Blk a pg []) Hc)|].
  cbn [maj_first maj_cell b_chunks hd_addr Z.eqb]. apply swp_bind.
  eapply swp_mono; [apply (case2_spec h pre post a pg (Chunk (a + 40) size req)); simpl; auto; lia|].
  intros p h' Hp. apply swp_ret. eexists p, _. split; [reflexivity|]. split; [|exact Hp]. reflexivity.
Qed.

Lemma block_spec h pre b post st best :
  core h (pre ++ b :: post) -> b_usage b + size + 40 <= b_size b ->
  swp (malloc_block mmap size req (b_addr b) st best) (after h pre b post st) h.
Proof.
  intros Hc Hroom. destruct b as [a pg [|f fs]].
  - unfold b_usage, b_size in Hroom. simpl in Hroom.
    eapply swp_mono; [apply (empty_block_spec h pre a pg post); [exact Hc|lia]|].
    intros x h' (p & c & -> & Hq & Hp). right. exists (pre ++ Blk a pg [c] :: post), c.
    split; [apply (inserted_old pre a pg [] c [])|]. auto.
  - pose proof (core_blk h pre post _ Hc) as Hb.
    pose proof (placed_in _ _ _ f (bo_placed _ _ _ Hb) ltac:(left)) as Hf.
    pose proof (bo_addr _ _ _ Hb) as Ha. cbn [b_addr] in *.
    unfold malloc_block. apply swp_bind.
    eapply swp_sopt; [apply (core_lookup h pre post _ Hc)|].
    cbn [maj_first maj_cell b_chunks hd_addr]. rewrite (proj2 (Z.eqb_neq (c_addr f) 0)) by lia.
    apply swp_bind. eapply swp_mono.
    { apply (case3_spec h pre post a pg (Chunk (a + 40) size req)) with (1 := proj1 Hreq);
        [reflexivity|simpl; lia|exact Hc|reflexivity]. }
    intros [p|] h'; [intros Hm; apply swp_ret; right; exact Hm|]. intros ->.
    apply swp_bind. eapply swp_mono; [apply (case4_spec h pre post a pg size req (proj1 Hreq) eq_refl ltac:(lia) f fs Hc)|].
    intros [p|] h'; [intros Hm; apply swp_ret; right; exact Hm|]. intros ->.
    now apply (case5_spec h pre (Blk a pg (f :: fs)) post).
Qed.

Lemma case1_spec h pre b post st best :
  core h (pre ++ b :: post) ->
  swp (malloc_case1 mmap size (b_addr b) st best)
    (fun x h' => match x with
       | Return c => after h pre b post st c h'
       | Fall n => same h h' /\ exists pgs, 80 + size <= pgs * 4096 /\
                     core h' ((pre ++ b :: post) ++ [Blk n pgs []])
       end) h.
Proof.
  intros Hc. unfold malloc_case1. apply swp_bind.
  eapply swp_sopt; [apply (core_lookup h pre post b Hc)|]. cbn [maj_next maj_cell].
  destruct post as [|d post]; cbn [hd_addr].
  - rewrite Z.eqb_refl. cbn [negb]. destruct st.
    + apply swp_bind, swp_gets, swp_ret. split; [apply same_refl|]. right. left.
      rewrite (co_root _ _ Hc). auto.
    + apply swp_bind. eapply swp_mono; [apply (extend_spec mmap Hmmap size ltac:(lia) h pre b Hc)|].
      intros n h' (Hs & [(-> & Hc')|(Hn & pgs & Hr & Hc')]).
      * apply swp_ret. left. auto.
      * rewrite (proj2 (Z.eqb_neq n 0)) by lia. apply swp_ret. split; [exact Hs|]. exists pgs. auto.
  - pose proof (core_others h pre (d :: post) b Hc) as Ho. rewrite Forall_app, Forall_cons_iff in Ho.
    destruct Ho as [_ [Hd _]]. pose proof (bo_addr _ _ _ Hd).
    rewrite (proj2 (Z.eqb_neq (b_addr d) 0)) by lia. apply swp_ret.
    split; [apply same_refl|]. left. exists d, post. repeat (split; [reflexivity|]). exact Hc.
Qed.

(** The best bet is updated before the cases. *)
Lemma bet_spec h pre b post best (Q : Z -> heap -> Prop) :
  core h (pre ++ b :: post) ->
  (forall best' h1, core h1 (pre ++ b :: post) -> same h h1 -> Q best' h1) ->
  swp (if best <? b_size b - b_usage b then modify (with_bestBet (b_addr b));; mret (b_size b - b_usage b)
       else mret best) Q h.
Proof.
  intros Hc HQ. swp_step.
  - apply swp_bind, swp_modify, swp_ret, HQ; [|now split].
    apply core_bet; [exact Hc|]. rewrite elem_of_app, elem_of_cons. auto.
  - apply swp_ret, HQ; [exact Hc|apply same_refl].
Qed.

Lemma walk_step_spec h pre b post st best :
  core h (pre ++ b :: post) ->
  swp (malloc_walk mmap size req (b_addr b, st, best)) (after h pre b post st) h.
Proof.
  intros Hc. pose proof (core_blk h pre post b Hc) as Hb. pose proof (bo_addr _ _ _ Hb) as Ha.
  pose proof (usage_range _ _ _ Hb) as Hu.
  unfold malloc_walk, sizeof_minor. rewrite (proj2 (Z.eqb_neq (b_addr b) 0)) by lia.
  apply swp_bind. eapply swp_sopt; [apply (core_lookup h pre post b Hc)|].
  cbn [maj_size maj_usage maj_cell]. rewrite (u32_small (b_size b - b_usage b)) by lia.
  apply swp_bind. eapply bet_spec; [exact Hc|]. intros best' h1 Hc1 Hs1.
  rewrite (u64_small (size + 40)) by lia. apply swp_bind. swp_step.
  - eapply swp_mono; [now apply (case1_spec h1 pre b post)|]. intros [n|c] h2.
    + intros (Hs2 & pgs & Hr & Hc2).
      eapply swp_mono; [apply (empty_block_spec h2 (pre ++ b :: post) n pgs []); [exact Hc2|exact Hr]|].
      intros x h' (p & c & -> & Hq & Hp). right. apply (malloced_same h h1); [exact Hs1|].
      apply (malloced_same h1 h2); [exact Hs2|]. eexists _, c. split; [apply inserted_new|]. eauto.
    + intros Haf. apply swp_ret. now apply (after_same h h1).
  - apply swp_ret. eapply swp_mono; [apply (block_spec h1 pre b post); [exact Hc1|lia]|].
    intros x h' Haf. now apply (after_same h h1).
Qed.

(** The walk at a block just added ends there. *)
Lemma walk_new_spec h bs n pgs st best fuel :
  core h (bs ++ [Blk n pgs []]) -> 80 + size <= pgs * 4096 ->
  swp (sloop (S fuel) (malloc_walk mmap size req) (n, st, best))
    (fun p h' => exists c, c_req c = req /\ placed_in_heap h (bs ++ [Blk n pgs [c]]) c p h') h.
Proof.
  intros Hc Hroom. pose proof (core_blk h bs [] _ Hc) as Hb. pose proof (bo_addr _ _ _ Hb) as Ha.
  pose proof (usage_range _ _ _ Hb) as Hu. unfold b_usage, b_size in Hu. simpl in Ha, Hu.
  cbn [sloop]. apply swp_bind. unfold malloc_walk at 1, sizeof_minor.
  rewrite (proj2 (Z.eqb_neq n 0)) by lia. apply swp_bind.
  eapply swp_sopt; [apply (core_lookup h bs [] (Blk n pgs []) Hc)|].
  cbn [maj_size maj_usage maj_cell]. rewrite u32_small by (unfold b_size, b_usage; simpl; lia).
  apply swp_bind. apply (bet_spec h bs (Blk n pgs []) [] best); [exact Hc|]. intros best' h1 Hc1 Hs1.
  rewrite (u64_small (size + 40)) by lia. apply swp_bind.
  rewrite (proj2 (Z.ltb_ge _ _)) by (unfold b_size, b_usage; simpl; lia). apply swp_ret.
  eapply swp_mono; [apply (empty_block_spec h1 bs n pgs []); [exact Hc1|exact Hroom]|].
  intros x h' (p & c & -> & Hq & Hc' & Hp & Hf & Hk). apply swp_ret. exists c. split; [exact Hq|].
  split; [exact Hc'|]. split; [exact Hp|]. destruct Hs1 as [D L]. split; [|congruence].
  intros y Hy. rewrite Hf by exact Hy. congruence.
Qed.

(** From the block [b] to the end of the list, then a new block. *)
Lemma walk_spec post : forall h pre b best fuel,
  core h (pre ++ b :: post) -> (S (length post) < fuel)%nat ->
  swp (sloop fuel (malloc_walk mmap size req) (b_addr b, false, best))
    (result h (pre ++ b :: post)) h.
Proof.
  induction post as [|d post IH]; intros h pre b best fuel Hc Hf;
    (destruct fuel as [|fuel]; [lia|]); cbn [sloop]; apply swp_bind;
    (eapply swp_mono; [apply (walk_step_spec h pre b _ false best Hc)|]);
    intros [[[m' st'] best']|p] h'; [|now intros Hr; apply swp_ret| |now intros Hr; apply swp_ret].
  - intros (Hs & [(d & post' & E & _)|[(_ & E & _)|(_ & -> & pgs & Hroom & Hc')]]);
      [discriminate|discriminate|]. destruct fuel as [|fuel]; [lia|].
    eapply swp_mono; [apply (walk_new_spec h' _ m' pgs false best' fuel Hc' Hroom)|]. intros p h2 (c & Hq & Hp).
    right. apply (malloced_same h h'); [exact Hs|]. eexists _, c. split; [apply inserted_new|]. eauto.
  - intros (Hs & [(d' & post' & [= <- <-] & -> & -> & Hc')|[(E & _)|(E & _)]]); [|discriminate..].
    replace (pre ++ b :: d :: post) with ((pre ++ [b]) ++ d :: post) in * by now rewrite <- app_assoc.
    eapply swp_mono; [apply IH; [exact Hc'|simpl in Hf; lia]|]. intros p h2. now apply result_same.
Qed.

(** The walk that starts at the best bet goes once more from the root. *)
Lemma walk_bet_spec post : forall h pre b best fuel,
  core h (pre ++ b :: post) ->
  (S (length post) + S (length (pre ++ b :: post)) <= fuel)%nat ->
  swp (sloop fuel (malloc_walk mmap size req) (b_addr b, true, best))
    (result h (pre ++ b :: post)) h.
Proof.
  induction post as [|d post IH]; intros h pre b best fuel Hc Hf;
    (destruct fuel as [|fuel]; [lia|]); cbn [sloop]; apply swp_bind;
    (eapply swp_mono; [apply (walk_step_spec h pre b _ true best Hc)|]);
    intros [[[m' st'] best']|p] h'; [|now intros Hr; apply swp_ret| |now intros Hr; apply swp_ret].
  - intros (Hs & [(d & post' & E & _)|[(_ & _ & -> & -> & Hc')|(_ & -> & pgs & Hroom & Hc')]]);
      [discriminate| |].
    + destruct (pre ++ [b]) as [|r rs] eqn:E; [now apply app_eq_nil in E as [_ ?]|].
      eapply swp_mono; [apply (walk_spec rs h' [] r); [exact Hc'|simpl in Hf; lia]|].
      intros p h2. now apply result_same.
    + destruct fuel as [|fuel]; [simpl in Hf; lia|].
      eapply swp_mono; [apply (walk_new_spec h' _ m' pgs false best' fuel Hc' Hroom)|]. intros p h2 (c & Hq & Hp).
      right. apply (malloced_same h h'); [exact Hs|]. eexists _, c. split; [apply inserted_new|]. eauto.
  - intros (Hs & [(d' & post' & [= <- <-] & -> & -> & Hc')|[(E & _)|(E & _)]]); [|discriminate..].
    replace (pre ++ b :: d :: post) with ((pre ++ [b]) ++ d :: post) in * by now rewrite <- app_assoc.
    eapply swp_mono; [apply IH; [exact Hc'|simpl in Hf; lia]|]. intros p h2. now apply result_same.
Qed.

Lemma core_size h bs : core h bs -> (length bs <= base.size (majors h))%nat.
Proof.
  intros Hc. eapply dseg_size; [apply Hc|]. eapply all_apart_NoDup; apply Hc.
Qed.

(** Where the walk starts. *)
Lemma start_spec h b0 bs :
  core h (b0 :: bs) ->
  swp (w ← malloc_start size; fuel ← gets (fun h => 2 * base.size (majors h) + 2)%nat;
       sloop fuel (malloc_walk mmap size req) w) (result h (b0 :: bs)) h.
Proof.
  intros Hc. unfold malloc_start. apply swp_bind, swp_bind, swp_gets, swp_bind, swp_gets.
  pose proof (core_size h _ Hc) as Hn. simpl in Hn.
  assert (Hroot : forall best, swp (fuel ← gets (fun h => 2 * base.size (majors h) + 2)%nat;
       sloop fuel (malloc_walk mmap size req) (l_memRoot h, false, best)) (result h (b0 :: bs)) h).
  { intros best. apply swp_bind, swp_gets. rewrite (co_root _ _ Hc). cbn [hd_addr].
    apply (walk_spec bs h [] b0); [exact Hc|lia]. }
  destruct (co_bet _ _ Hc) as [E|(b & Hb & E)].
  - rewrite E. cbn [Z.eqb negb]. apply swp_ret, Hroot.
  - rewrite E. destruct (list_elem_of_split _ _ Hb) as (pre & post & Ebs). rewrite Ebs in *.
    pose proof (core_blk h pre post b Hc) as Hbk. pose proof (bo_addr _ _ _ Hbk) as Ha.
    rewrite (proj2 (Z.eqb_neq (b_addr b) 0)) by lia. cbn [negb]. apply swp_bind.
    eapply swp_sopt; [apply (core_lookup h pre post b Hc)|]. apply swp_ret. zif; [|apply Hroot].
    apply swp_bind, swp_gets. apply walk_bet_spec; [exact Hc|].
    apply (f_equal length) in Ebs. rewrite length_app in *. simpl in *. lia.
Qed.

Lemma inserted_nonempty bs c bs' :
  inserted bs c bs' -> Forall (fun b => b_chunks b <> []) bs -> Forall (fun b => b_chunks b <> []) bs'.
Proof.
  intros [pre a pg cs1 c' cs2 post|bs0 a pg c'] H; rewrite Forall_app in *; [|split; [exact H|repeat constructor; discriminate]].
  rewrite Forall_cons_iff in *. destruct H as (H1 & H2 & H3). split; [exact H1|]. split; [|exact H3].
  simpl. now destruct cs1.
Qed.

Lemma core_scalars h h' bs :
  core h bs -> majors h' = majors h -> minors h' = minors h -> data h' = data h ->
  l_memRoot h' = l_memRoot h -> l_bestBet h' = l_bestBet h -> l_allocated h' = l_allocated h ->
  l_inuse h' = l_inuse h -> core h' bs.
Proof. intros [] E1 E2 E3 E4 E5 E6 E7. split; rewrite ?E1, ?E2, ?E3, ?E4, ?E5, ?E6, ?E7; auto. Qed.

Lemma core_nil_root h bs : core h bs -> l_memRoot h = 0 -> bs = [].
Proof.
  intros Hc E. destruct bs as [|b bs]; [reflexivity|]. pose proof (bo_addr _ _ _ (core_blk h [] bs b Hc)).
  rewrite (co_root _ _ Hc) in E. simpl in E. lia.
Qed.

(** The outcome of [malloc]: null and the same blocks, or one more chunk. *)
Definition malloc_post (h : heap) (bs : list blk) (p : Z) (h' : heap) : Prop :=
  (p = 0 /\ heap_inv h' bs /\ data h' = data h) \/
  exists bs' c, inserted bs c bs' /\ c_req c = req /\ p = uptr c /\ heap_inv h' bs' /\
    forall x, x <> p - 16 -> data h' !! x = data h !! x.

Lemma unlock_post h h1 bs p h' :
  data h1 = data h -> Forall (fun b => b_chunks b <> []) bs ->
  result h1 bs p h' -> malloc_post h bs p (with_lock 0 h').
Proof.
  intros Hd Hne [(-> & Hc & Hs & _)|(bs' & c & Hi & Hq & Hc & -> & Hf & _)]; [left|right].
  - split; [reflexivity|]. split; [|simpl; congruence]. split; [|reflexivity|exact Hne].
    now apply (core_scalars h').
  - exists bs', c. split; [exact Hi|]. split; [exact Hq|]. split; [reflexivity|]. split.
    + split; [now apply (core_scalars h')|reflexivity|now apply (inserted_nonempty bs c)].
    + intros x Hx. simpl. rewrite Hf by exact Hx. congruence.
Qed.

Lemma locked_spec h bs :
  core h bs -> Forall (fun b => b_chunks b <> []) bs ->
  swp (malloc_locked mmap size req) (malloc_post h bs) h.
Proof.
  intros Hc Hne. unfold malloc_locked. apply swp_bind, swp_gets, swp_bind. swp_step.
  - pose proof (core_nil_root h bs Hc E) as ->. apply swp_bind.
    eapply swp_mono; [apply (allocate_spec mmap Hmmap size ltac:(lia) h [] Hc)|].
    intros n h1 [(-> & Hc1 & Hs & _)|(st & Ef & Hb & Ha & Hroom)]; apply swp_bind, swp_modify, swp_ret.
    + cbn [Z.eqb negb]. apply swp_bind, swp_modify, swp_ret. left. split; [reflexivity|].
      split; [|exact Hs]. split; [|reflexivity|constructor].
      apply (core_scalars h1); auto. simpl. symmetry. now rewrite (co_root _ _ Hc1).
    + pose proof (bo_addr _ _ _ Hb) as Hn. simpl in Hn.
      rewrite (proj2 (Z.eqb_neq n 0)) by lia. cbn [negb]. set (h2 := with_memRoot n h1).
      assert (Hc2 : core h2 ([] ++ [Blk n st []])).
      { subst h2 h1. apply (core_add h []); auto. split; [apply lookup_insert_eq|exact I]. }
      assert (Hbet : l_bestBet h2 = 0).
      { subst h2 h1. destruct (co_bet _ _ Hc) as [?|(b & Hin & _)]; [assumption|]. now apply not_elem_of_nil in Hin. }
      unfold malloc_start. apply swp_bind, swp_bind, swp_gets, swp_bind, swp_gets. rewrite Hbet.
      cbn [Z.eqb negb]. apply swp_ret, swp_bind, swp_gets, swp_bind.
      replace (2 * base.size (majors h2) + 2)%nat with (S (2 * base.size (majors h2) + 1)) by lia.
      change (l_memRoot h2) with n.
      eapply swp_mono; [apply (walk_new_spec h2 [] n st false 0 _ Hc2 Hroom)|].
      intros p h3 (c & Hq & Hp). apply swp_bind, swp_modify, swp_ret.
      apply (unlock_post h h2); [now subst h2 h1|exact Hne|]. right. eexists _, c.
      split; [apply inserted_new|]. eauto.
  - apply swp_ret. cbn [negb]. destruct bs as [|b0 bs]; [now rewrite (co_root _ _ Hc) in E|].
    pose proof (start_spec h b0 bs Hc) as Hst.
    unfold swp in *. unfold mbind, SM_bind, gets, mret, SM_ret in *.
    destruct (malloc_start size h) as [w h1| |]; [|tauto..].
    destruct (sloop _ _ w h1) as [p h2| |]; [|tauto..]. now apply (unlock_post h h).
Qed.

Lemma malloc_spec h bs : heap_inv h bs -> swp (malloc mmap req) (malloc_post h bs) h.
Proof.
  intros [Hc Hl Hne]. unfold malloc, ALIGNMENT, ALIGN_INFO. rewrite u64_small by lia.
  apply swp_bind. unfold liballoc_lock at 1. unfold swp at 1. rewrite Hl. cbn [Z.eqb].
  change (16 + 16) with 32. rewrite (proj2 (Z.eqb_neq (req + 32) 0)) by lia.
  eapply swp_mono; [apply (locked_spec (with_lock 1 h) bs); [now apply (core_scalars h)|exact Hne]|]. auto.
Qed.

End malloc.
