(* ===== verification/AllocFree.v ===== *)
(** * The allocator: [free], [calloc], [realloc] *)

From S2P Require Import Prelude CMem State Dll Alloc AllocSpec AllocMalloc.

(** ** Unlinking a chunk *)

Lemma list_cases {A} (l : list A) : l = [] \/ exists x xs, l = x :: xs.
Proof. destruct l; eauto. Qed.

Lemma list_last_cases {A} (l : list A) : l = [] \/ exists xs x, l = xs ++ [x].
Proof. destruct l as [|x xs _] using rev_ind; eauto. Qed.

Section unlink.
Context (h : heap) (pre post : list blk) (a pg : Z) (cs1 cs2 : list chunk) (c : chunk).
Let b := Blk a pg (cs1 ++ c :: cs2).
Let b' := Blk a pg (cs1 ++ cs2).
Hypothesis Hc : core h (pre ++ b :: post).

Lemma unlink_range :
  0 < a /\ a + 40 <= c_addr c /\ 0 <= c_size c /\ c_addr c + 72 <= a + pg * 4096 <= 2 ^ 47 /\
  c_addr c + 40 + c_size c <= a + pg * 4096 /\ pg * 4096 < 2 ^ 32 /\ chunk_ok (data h) c /\
  0 <= used cs1 /\ 0 <= used cs2 /\ 40 + used (cs1 ++ c :: cs2) <= pg * 4096.
Proof.
  pose proof (core_blk h pre post b Hc) as [B1 B2 B3 B4 B5 B6 B7].
  pose proof (placed_in _ _ _ c B6 ltac:(apply elem_of_app; right; left)) as Hin.
  pose proof (placed_used _ _ _ B6) as Hu. apply placed_app in B6 as [P1 (_ & _ & P2)].
  apply placed_used in P1, P2. apply Forall_app in B7 as [_ [B7 _]%Forall_cons_iff].
  pose proof B7 as (K1 & K2 & _). unfold b_end, b_size in *. cbn [b b_addr b_pages b_chunks] in *. intuition lia.
Qed.

(** The blocks with the chunk taken out, from the links and the accounting. *)
Lemma core_remove mj' mn' :
  mj' = <[a := maj_cell (last_addr b_addr 0 pre) (hd_addr b_addr 0 post) b']> (majors h) ->
  minor_list mn' a 0 (cs1 ++ cs2) 0 ->
  (forall x, ~ in_blk b x -> mn' !! x = minors h !! x) ->
  core (stores (with_inuse (u64 (l_inuse h - c_size c)) h) mj' mn' (data h)) (pre ++ b' :: post).
Proof.
  intros -> Hl Hf. pose proof (core_blk h pre post b Hc) as [B1 B2 B3 B4 B5 B6 B7].
  apply (core_replace h pre post b Hc); try reflexivity.
  - split; auto; [eapply placed_delete, B6|].
    cbn [b b' b_chunks] in *. rewrite Forall_app, Forall_cons_iff in B7. apply Forall_app. tauto.
  - apply Hc.
  - intros x Hx. split; [now apply Hf|reflexivity].
  - cbn. rewrite (co_inuse _ _ Hc), u64_sub_idem. f_equal. rewrite !total_inuse_app. simpl.
    rewrite !chunk_sum_app. simpl. lia.
Qed.

(** The store of minors as [unlink_minor] writes it: the chunk is dead, then its
    successor points back past it, then its predecessor forward. *)
Definition dead_minors : gmap Z minor :=
  <[c_addr c := set_min_magic LIBALLOC_DEAD
      (min_cell a (last_addr c_addr 0 cs1) (hd_addr c_addr 0 cs2) c)]> (minors h).
Definition next_minors : gmap Z minor :=
  match cs2 with
  | [] => dead_minors
  | d :: ds => <[c_addr d := min_cell a (last_addr c_addr 0 cs1) (hd_addr c_addr 0 ds) d]> dead_minors
  end.
Definition unlinked_minors : gmap Z minor :=
  match rev cs1 with
  | [] => next_minors
  | l :: zs => <[c_addr l := min_cell a (last_addr c_addr 0 (rev zs)) (hd_addr c_addr 0 cs2) l]> next_minors
  end.

Lemma unlinked_other x :
  x <> c_addr c -> (forall zs l, cs1 = zs ++ [l] -> x <> c_addr l) ->
  (forall d ds, cs2 = d :: ds -> x <> c_addr d) -> unlinked_minors !! x = minors h !! x.
Proof.
  intros Hx Hl Hd. unfold unlinked_minors, next_minors, dead_minors.
  destruct (rev cs1) as [|l zs] eqn:E1.
  - destruct cs2 as [|d ds]; rewrite ?lookup_insert_ne; auto. intros K. now apply (Hd d ds).
  - apply (f_equal (@rev _)) in E1. rewrite rev_involutive in E1. simpl in E1.
    rewrite lookup_insert_ne by (intros K; now apply (Hl (rev zs) l)).
    destruct cs2 as [|d ds]; rewrite ?lookup_insert_ne; auto. intros K. now apply (Hd d ds).
Qed.

Lemma unlinked_list : minor_list unlinked_minors a 0 (cs1 ++ cs2) 0.
Proof.
  pose proof (core_blk h pre post b Hc) as Hb. pose proof (bo_placed _ _ _ Hb) as Hp.
  pose proof (bo_list _ _ _ Hb) as Hlist. cbn [b b_chunks b_addr] in Hp, Hlist.
  apply dseg_app in Hlist as [Hl1 [_ Hl2]].
  assert (Hne : forall xs x ys y, cs1 ++ c :: cs2 = xs ++ x :: ys -> y ∈ xs ++ ys -> c_addr y <> c_addr x)
    by (intros xs x ys y E; rewrite E in Hp; eapply placed_addr_ne, Hp).
  eapply (dseg_join _ _ (minors h)); [exact Hl1|exact Hl2| |].
  - intros zs l E. assert (Erev : rev cs1 = l :: rev zs) by (rewrite E, rev_app_distr; reflexivity).
    split; [unfold unlinked_minors, next_minors, dead_minors; rewrite Erev, rev_involutive; apply lookup_insert_eq|].
    intros x Hx. apply unlinked_other.
    + apply (Hne cs1 c cs2); [reflexivity|]. subst cs1. rewrite !elem_of_app. auto.
    + intros zs' l' E'. rewrite E in E'. apply app_inj_tail in E' as [<- <-].
      apply (Hne zs l (c :: cs2)); [subst cs1; now rewrite <- app_assoc|]. rewrite elem_of_app. auto.
    + intros d ds E2. apply (Hne (cs1 ++ [c]) d ds); [rewrite E2, <- app_assoc; reflexivity|].
      subst cs1. rewrite !elem_of_app. auto.
  - intros d ds E. split.
    + unfold unlinked_minors, next_minors, dead_minors. rewrite E. destruct (rev cs1) as [|l zs] eqn:E1; [apply lookup_insert_eq|].
      rewrite lookup_insert_ne; [apply lookup_insert_eq|].
      apply (f_equal (@rev _)) in E1. rewrite rev_involutive in E1. simpl in E1.
      apply (Hne (cs1 ++ [c]) d ds); [rewrite E, <- app_assoc; reflexivity|].
      rewrite E1, !elem_of_app, list_elem_of_singleton. auto.
    + intros x Hx. apply unlinked_other.
      * apply (Hne cs1 c cs2); [reflexivity|]. rewrite E, elem_of_app, elem_of_cons. auto.
      * intros zs l E'. apply (Hne zs l (c :: cs2)); [subst cs1; now rewrite <- app_assoc|].
        rewrite E, elem_of_app, !elem_of_cons. auto.
      * intros d' ds' E'. rewrite E in E'. injection E' as <- <-.
        apply (Hne (cs1 ++ [c]) d ds); [rewrite E, <- app_assoc; reflexivity|]. rewrite elem_of_app. auto.
Qed.

Lemma unlinked_frame x : ~ in_blk b x -> unlinked_minors !! x = minors h !! x.
Proof.
  intros Hx. pose proof (bo_placed _ _ _ (core_blk h pre post b Hc)) as Hp. cbn [b b_chunks b_addr] in Hp.
  assert (Hin : forall y, y ∈ cs1 ++ c :: cs2 -> x <> c_addr y).
  { intros y Hy%(placed_in _ _ _ _ Hp) ->. apply Hx. unfold in_blk. simpl. lia. }
  apply unlinked_other; [apply Hin; rewrite elem_of_app, elem_of_cons; auto| |].
  - intros xs l ->. apply Hin. rewrite !elem_of_app, list_elem_of_singleton. auto.
  - intros d ds ->. apply Hin. rewrite elem_of_app, !elem_of_cons. auto.
Qed.

Lemma usage_after :
  u32 (b_usage b - u64 (c_size c + 40)) = b_usage b'.
Proof.
  pose proof unlink_range as Hr. unfold b_usage. cbn [b b' b_chunks].
  rewrite !used_app, !used_cons. rewrite used_app, used_cons in Hr.
  rewrite (u64_small (c_size c + 40)), u32_small; lia.
Qed.

(** The heap in the middle of [unlink_minor], when the block has its new usage. *)
Definition used_major : major :=
  set_maj_usage (b_usage b') (maj_cell (last_addr b_addr 0 pre) (hd_addr b_addr 0 post) b).
Definition mid_heap (mn : gmap Z minor) : heap :=
  stores (with_inuse (u64 (l_inuse h - c_size c)) h) (<[a := used_major]> (majors h)) mn (data h).

Lemma chunk_addr_ne xs x ys y : cs1 ++ c :: cs2 = xs ++ x :: ys -> y ∈ xs ++ ys -> c_addr y <> c_addr x.
Proof.
  intros E. pose proof (bo_placed _ _ _ (core_blk h pre post b Hc)) as Hp. cbn [b b_chunks b_addr] in Hp.
  rewrite E in Hp. eapply placed_addr_ne, Hp.
Qed.

Lemma chunk_addr_range x : x ∈ cs1 ++ c :: cs2 -> 0 < c_addr x /\ a <= c_addr x /\ c_addr x + 40 <= a + pg * 4096.
Proof.
  pose proof (bo_placed _ _ _ (core_blk h pre post b Hc)) as Hp. cbn [b b_chunks b_addr] in Hp.
  pose proof unlink_range as Hr. intros Hx%(placed_in _ _ _ _ Hp). unfold b_end, b_size in Hx. simpl in Hx. lia.
Qed.

(** The successor's back link. *)
Lemma unlink_next_spec :
  swp (if negb (hd_addr c_addr 0 cs2 =? 0) then upd_min (hd_addr c_addr 0 cs2) (set_min_prev (last_addr c_addr 0 cs1)) else mret tt)
    (fun _ h' => h' = mid_heap next_minors) (mid_heap dead_minors).
Proof.
  pose proof (bo_list _ _ _ (core_blk h pre post b Hc)) as Hlist. cbn [b b_chunks b_addr] in Hlist.
  pose proof unlink_range as Hr. destruct (list_cases cs2) as [E2|(d & ds & E2)]; unfold next_minors; rewrite E2; cbn [hd_addr]; [apply swp_ret; reflexivity|].
  destruct (chunk_addr_range d) as (D1 & D2 & D3); [rewrite E2, elem_of_app, !elem_of_cons; auto|].
  rewrite (proj2 (Z.eqb_neq (c_addr d) 0)) by lia. cbn [negb].
  eapply swp_upd_min; [apply lookup_insert_eq|lia|unfold used_major, b; reg_size|]. unfold mid_heap. do 3 f_equal.
  unfold dead_minors. rewrite lookup_insert_ne.
  - rewrite E2 in Hlist. apply dseg_app in Hlist as [_ [_ [Hd _]]]. rewrite Hd. reflexivity.
  - intros E. apply (chunk_addr_ne cs1 c cs2 d); auto. rewrite E2, elem_of_app, elem_of_cons. auto.
Qed.

Lemma next_minors_prev zs l : cs1 = zs ++ [l] ->
  next_minors !! c_addr l = Some (min_cell a (last_addr c_addr 0 zs) (c_addr c) l).
Proof.
  intros E1. pose proof (bo_list _ _ _ (core_blk h pre post b Hc)) as Hlist. cbn [b b_chunks b_addr] in Hlist.
  assert (Hl : l ∈ cs1) by (rewrite E1, elem_of_app, list_elem_of_singleton; auto).
  assert (Hlc : c_addr c <> c_addr l).
  { apply not_eq_sym, (chunk_addr_ne cs1 c cs2); [reflexivity|]. rewrite elem_of_app. auto. }
  transitivity (minors h !! c_addr l).
  - unfold next_minors, dead_minors. destruct (list_cases cs2) as [E2|(d & ds & E2)]; rewrite E2; [now apply lookup_insert_ne|].
    rewrite !lookup_insert_ne; [reflexivity|exact Hlc|]. apply not_eq_sym, (chunk_addr_ne (cs1 ++ [c]) d ds); [now rewrite E2, <- app_assoc|].
    rewrite !elem_of_app. auto.
  - rewrite E1, <- app_assoc in Hlist. exact (dseg_lookup _ _ _ _ _ _ _ _ Hlist).
Qed.

Lemma unlinked_done mj :
  mj = <[a := maj_cell (last_addr b_addr 0 pre) (hd_addr b_addr 0 post) b']> (majors h) ->
  core (stores (with_inuse (u64 (l_inuse h - c_size c)) h) mj unlinked_minors (data h)) (pre ++ b' :: post).
Proof. intros E. apply core_remove; [exact E|apply unlinked_list|apply unlinked_frame]. Qed.

Lemma unlink_spec :
  swp (unlink_minor (c_addr c))
    (fun m h' => m = a /\ core h' (pre ++ b' :: post) /\ same h h') h.
Proof.
  pose proof unlink_range as Hr. pose proof (core_lookup h pre post b Hc) as Hmj.
  pose proof (bo_list _ _ _ (core_blk h pre post b Hc)) as Hlist. cbn [b b_chunks b_addr] in Hlist, Hmj.
  pose proof (dseg_lookup _ _ _ _ _ _ _ _ Hlist) as Hcm.
  assert (Hmj' : <[a := used_major]> (majors h) !! a = Some used_major) by apply lookup_insert_eq.
  unfold unlink_minor, sizeof_minor. rewrite <- (stores_id h) at 1.
  apply swp_bind. eapply swp_ld_min; [exact Hcm|]. cbn [min_block min_size min_next min_prev min_cell].
  apply swp_bind, swp_modify.
  change (with_inuse _ (stores ?x ?y ?z ?w)) with (stores (with_inuse (u64 (l_inuse h - c_size c)) h) y z w).
  apply swp_bind. eapply swp_upd_maj; [exact Hmj|]. cbn [maj_usage maj_cell].
  rewrite usage_after. fold used_major.
  apply swp_bind. eapply swp_upd_min; [exact Hmj'|lia|unfold used_major, b; reg_size|]. rewrite Hcm. cbn [from_option].
  apply swp_bind. eapply swp_mono; [apply unlink_next_spec|]. intros _ h2 ->. apply swp_bind.
  destruct (list_last_cases cs1) as [E1|(zs & l & E1)].
  - replace (last_addr c_addr 0 cs1) with 0 by now rewrite E1. cbn [Z.eqb negb].
    apply swp_ret, swp_bind. eapply swp_upd_maj; [exact Hmj'|]. apply swp_ret. split; [reflexivity|]. split; [|split; reflexivity].
    replace next_minors with unlinked_minors by (unfold unlinked_minors; now rewrite E1).
    apply unlinked_done. rewrite insert_insert_eq. f_equal. unfold used_major, maj_cell, b'. cbn. now rewrite E1.
  - replace (last_addr c_addr 0 cs1) with (c_addr l) by now rewrite E1, last_addr_app.
    destruct (chunk_addr_range l) as (D1 & D2 & D3); [rewrite E1, !elem_of_app, list_elem_of_singleton; auto|].
    rewrite (proj2 (Z.eqb_neq (c_addr l) 0)) by lia. cbn [negb].
    eapply swp_upd_min; [exact Hmj'|lia|unfold used_major, b; reg_size|]. rewrite (next_minors_prev zs l E1). cbn [from_option].
    apply swp_bind, swp_ret, swp_ret. split; [reflexivity|]. split; [|split; reflexivity].
    replace (<[c_addr l := _]> next_minors) with unlinked_minors.
    + apply unlinked_done. f_equal. unfold used_major, maj_cell, b'. cbn. rewrite E1. now destruct zs.
    + unfold unlinked_minors. rewrite E1, rev_app_distr. cbn [rev app]. now rewrite rev_involutive.
Qed.

End unlink.

(** ** Giving an empty block back *)

Section release.
Context (h : heap) (pre post : list blk) (a pg : Z).
Let b := Blk a pg [].
Hypothesis Hc : core h (pre ++ b :: post).

Definition outside (x : Z) : Prop := ~ (a <= x < a + pg * 4096).

Lemma filter_outside {V} (m : gmap Z V) x :
  outside x ->
  filter (fun '(y, _) => negb ((a <=? y) && (y <? a + u64 (pg * 4096))) = true) m !! x = m !! x.
Proof.
  intros Hx. rewrite map_lookup_filter. destruct (m !! x) as [v|]; [|reflexivity]. simpl.
  rewrite option_guard_True; [reflexivity|].
  pose proof (core_blk h pre post b Hc) as [B1 B2 B3 B4 _ _ _]. unfold b_end, b_size in *. simpl in *.
  rewrite u64_small by lia. apply negb_true_iff, andb_false_iff. unfold outside in Hx.
  destruct (decide (a <= x)); [right; apply Z.ltb_ge; lia|left; apply Z.leb_gt; lia].
Qed.

Lemma others_outside x y : x ∈ pre ++ post -> in_blk x y -> outside y.
Proof.
  intros Hx Hy. pose proof (core_apart h pre post b Hc) as Ha. rewrite Forall_forall in Ha.
  apply list_elem_of_In in Hx. specialize (Ha x Hx).
  unfold outside, apart, in_blk, b_end, b_size in *. simpl in *. lia.
Qed.

Lemma release_core h' :
  major_list (majors h') 0 (pre ++ post) 0 ->
  l_memRoot h' = hd_addr b_addr 0 (pre ++ post) ->
  l_bestBet h' = (if l_bestBet h =? a then 0 else l_bestBet h) ->
  (forall x, outside x -> minors h' !! x = minors h !! x /\ data h' !! x = data h !! x) ->
  mem_ok (data h') ->
  l_allocated h' = u64 (l_allocated h - pg * 4096) -> l_inuse h' = l_inuse h ->
  core h' (pre ++ post).
Proof.
  intros E1 E2 E3 E4 E5 E6 E7. split; [exact E1|exact E2| | | | | |].
  - rewrite E3. destruct (l_bestBet h =? a) eqn:E; [auto|]. zbool.
    destruct (co_bet _ _ Hc) as [?|(x & Hx & Ex)]; [auto|]. right. exists x. split; [|exact Ex].
    apply elem_of_app in Hx as [Hx|[->|Hx]%elem_of_cons]; rewrite elem_of_app; auto.
    exfalso. apply E. exact Ex.
  - pose proof (core_others h pre post b Hc) as Ho. rewrite Forall_forall in *. intros x Hx.
    eapply blk_ok_frame; [now apply Ho|]. intros y Hy. apply E4.
    eapply others_outside; [|exact Hy]. now apply list_elem_of_In.
  - pose proof (co_apart _ _ Hc) as Ha. now apply all_apart_mid in Ha as [Ha _].
  - exact E5.
  - rewrite E6, (co_allocated _ _ Hc), u64_sub_idem, !total_size_app. f_equal.
    unfold total_size, b_size. simpl. unfold b_size. simpl. lia.
  - rewrite E7, (co_inuse _ _ Hc), !total_inuse_app. reflexivity.
Qed.

(** The store of majors after the writes of [release_major]. *)
Definition released_majors : gmap Z major :=
  let mj1 := match rev pre with
             | [] => majors h
             | l :: zs => <[b_addr l := maj_cell (last_addr b_addr 0 (rev zs)) (hd_addr b_addr 0 post) l]> (majors h)
             end in
  match post with
  | [] => mj1
  | d :: ds => <[b_addr d := maj_cell (last_addr b_addr 0 pre) (hd_addr b_addr 0 ds) d]> mj1
  end.

Lemma released_list mj' :
  (forall x, x ∈ pre ++ post -> mj' !! b_addr x = released_majors !! b_addr x) ->
  major_list mj' 0 (pre ++ post) 0.
Proof.
  intros Hmj'. pose proof (co_list _ _ Hc) as Hlist. apply dseg_app in Hlist as [Hl1 [_ Hl2]].
  pose proof (all_apart_NoDup _ _ _ (co_apart _ _ Hc) (co_blocks _ _ Hc)) as Hnd.
  assert (Hne : forall xs x ys y, pre ++ b :: post = xs ++ x :: ys -> y ∈ xs ++ ys -> b_addr y <> b_addr x).
  { intros xs x ys y E. rewrite E in Hc. apply (core_addr_ne h xs ys x Hc). }
  eapply dseg_ext; [exact Hmj'|]. clear Hmj'. unfold released_majors.
  eapply (dseg_join _ _ (majors h)); [exact Hl1|exact Hl2| |].
  - intros zs l E. assert (Erev : rev pre = l :: rev zs) by (rewrite E, rev_app_distr; reflexivity).
    rewrite Erev, rev_involutive. split.
    + destruct post as [|d ds]; [apply lookup_insert_eq|]. rewrite lookup_insert_ne; [apply lookup_insert_eq|].
      apply not_eq_sym. apply (Hne (pre ++ [b]) d ds); [now rewrite <- app_assoc|].
      rewrite E, !elem_of_app, list_elem_of_singleton. auto.
    + intros x Hx.
      assert (H1 : b_addr l <> b_addr x).
      { apply not_eq_sym, (Hne zs l (b :: post)); [subst pre; now rewrite <- app_assoc|]. rewrite elem_of_app. auto. }
      destruct post as [|d ds]; rewrite !lookup_insert_ne; auto.
      apply not_eq_sym, (Hne (pre ++ [b]) d ds); [now rewrite <- app_assoc|]. rewrite E, !elem_of_app. auto.
  - intros d ds E. rewrite E. split; [apply lookup_insert_eq|]. intros x Hx.
    rewrite lookup_insert_ne.
    + destruct (rev pre) as [|l zs] eqn:E1; [reflexivity|]. apply lookup_insert_ne.
      apply (f_equal (@rev _)) in E1. rewrite rev_involutive in E1. simpl in E1.
      apply not_eq_sym, (Hne (rev zs) l (b :: post)); [rewrite E1 at 1; now rewrite <- app_assoc|].
      rewrite E, elem_of_app, !elem_of_cons. auto.
    + apply not_eq_sym, (Hne (pre ++ [b]) d ds); [now rewrite E, <- app_assoc|]. rewrite elem_of_app. auto.
Qed.

Lemma unlink_major_spec h1 (Q : unit -> heap -> Prop) :
  Q tt (stores h1 released_majors (minors h) (data h)) ->
  swp (unlink_major (maj_cell (last_addr b_addr 0 pre) (hd_addr b_addr 0 post) b)) Q
    (stores h1 (majors h) (minors h) (data h)).
Proof.
  intros HQ. pose proof (co_list _ _ Hc) as Hlist. apply dseg_app in Hlist as [Hl1 [_ Hl2]].
  pose proof (co_blocks _ _ Hc) as Hall. rewrite Forall_app, Forall_cons_iff in Hall.
  destruct Hall as (Hpre & _ & Hpost). unfold released_majors in HQ.
  unfold unlink_major. cbn [maj_prev maj_next maj_cell].
  set (mj1 := match rev pre with [] => majors h | l :: zs => _ end) in HQ.
  apply swp_bind. apply swp_mono with (P := fun _ h' => h' = stores h1 mj1 (minors h) (data h)).
  - unfold mj1. destruct (rev pre) as [|l zs] eqn:E1;
      apply (f_equal (@rev _)) in E1; rewrite rev_involutive in E1; simpl in E1; rewrite E1 in *.
    + apply swp_ret. reflexivity.
    + rewrite Forall_app, Forall_cons_iff in Hpre. destruct Hpre as (_ & Hl & _).
      pose proof (bo_addr _ _ _ Hl). rewrite last_addr_app. cbn [last_addr].
      rewrite (proj2 (Z.eqb_neq (b_addr l) 0)) by lia. cbn [negb].
      eapply swp_upd_maj; [eapply dseg_lookup, Hl1|]. reflexivity.
  - intros _ ? ->. destruct post as [|d ds] eqn:E2; [apply swp_ret, HQ|].
    rewrite Forall_cons_iff in Hpost. destruct Hpost as [Hd _]. pose proof (bo_addr _ _ _ Hd).
    cbn [hd_addr]. rewrite (proj2 (Z.eqb_neq (b_addr d) 0)) by lia. cbn [negb].
    assert (E : mj1 !! b_addr d = Some (maj_cell (b_addr b) (hd_addr b_addr 0 ds) d)).
    { unfold mj1. destruct (rev pre) as [|l zs] eqn:E1; [apply Hl2|].
      rewrite lookup_insert_ne; [apply Hl2|]. apply (f_equal (@rev _)) in E1.
      rewrite rev_involutive in E1. simpl in E1.
      assert (Hc' : core h ((pre ++ [b]) ++ d :: ds)) by (rewrite <- app_assoc; exact Hc).
      apply (core_addr_ne h _ _ _ Hc'). rewrite E1, !elem_of_app, list_elem_of_singleton. auto. }
    eapply swp_upd_maj; [exact E|]. exact HQ.
Qed.

Lemma release_root :
  (if l_memRoot h =? a then hd_addr b_addr 0 post else l_memRoot h) = hd_addr b_addr 0 (pre ++ post).
Proof.
  rewrite (co_root _ _ Hc). destruct pre as [|p0 ps] eqn:Ep; cbn; [now rewrite Z.eqb_refl|].
  rewrite (proj2 (Z.eqb_neq _ _)); [reflexivity|].
  rewrite <- Ep in Hc. apply (core_addr_ne h pre post b Hc p0). rewrite Ep. now left.
Qed.

Lemma release_spec :
  swp (release_major a) (fun _ h' => core h' (pre ++ post) /\ malloc_lock h' = malloc_lock h /\
    forall x, outside x -> data h' !! x = data h !! x) h.
Proof.
  pose proof (core_lookup h pre post b Hc) as Hmj. cbn [b b_addr] in Hmj.
  unfold release_major. apply swp_bind, swp_gets, swp_bind.
  eapply swp_sopt; [exact Hmj|]. cbn [maj_next maj_size maj_pages maj_cell].
  apply swp_bind. apply swp_mono with (P := fun _ h' => h' = with_memRoot (hd_addr b_addr 0 (pre ++ post)) h).
  { rewrite <- release_root. destruct (l_memRoot h =? a); [apply swp_modify|apply swp_ret]; [reflexivity|now destruct h]. }
  intros _ ? ->. apply swp_bind, swp_gets. set (bet' := if l_bestBet h =? a then 0 else l_bestBet h).
  apply swp_bind. apply swp_mono with (P := fun _ h' =>
    h' = with_bestBet bet' (with_memRoot (hd_addr b_addr 0 (pre ++ post)) h)).
  { unfold bet'. cbn [l_bestBet with_memRoot].
    destruct (l_bestBet h =? a); [apply swp_modify|apply swp_ret]; reflexivity. }
  intros _ ? ->. set (h1 := with_bestBet _ _). apply swp_bind.
  change h1 with (stores h1 (majors h) (minors h) (data h)). apply unlink_major_spec.
  apply swp_bind, swp_modify. apply swp_modify.
  split; [apply release_core|split; [reflexivity|]]; cbn; try reflexivity.
  - apply released_list. intros x Hx. apply filter_outside. apply (others_outside x); [exact Hx|].
    pose proof (core_others h pre post b Hc) as Ho. rewrite Forall_forall in Ho.
    apply list_elem_of_In in Hx. specialize (Ho x Hx). apply blk_ok_pos in Ho. unfold in_blk. lia.
  - intros x Hx. now rewrite !filter_outside.
  - intros x v Hv. apply map_lookup_filter_Some in Hv as [Hv _]. now apply (co_bytes _ _ Hc x).
  - intros x Hx. now rewrite filter_outside.
Qed.

End release.

Lemma update_bet_spec h pre b post :
  core h (pre ++ b :: post) ->
  swp (update_bet (b_addr b)) (fun _ h' => core h' (pre ++ b :: post) /\ same h h') h.
Proof.
  intros Hc. unfold update_bet. apply swp_bind, swp_gets.
  assert (Hid : core h (pre ++ b :: post) /\ same h h) by (split; [exact Hc|apply same_refl]).
  destruct (co_bet _ _ Hc) as [E|(x & Hx & E)]; rewrite E; [now apply swp_ret|].
  swp_step; [|now apply swp_ret].
  destruct (list_elem_of_split _ _ Hx) as (xs & ys & Exs).
  apply swp_bind. eapply swp_sopt; [rewrite Exs in Hc; apply (core_lookup h xs ys x Hc)|].
  apply swp_bind. eapply swp_sopt; [apply (core_lookup h pre post b Hc)|].
  swp_step; [|now apply swp_ret]. apply swp_modify. split; [|now split].
  apply core_bet; [exact Hc|]. rewrite elem_of_app, elem_of_cons. auto.
Qed.

(** ** Live chunks *)

Definition chunk_end (c : chunk) : Z := c_addr c + 40 + c_size c.
Definition disjoint_chunks (c c' : chunk) : Prop := chunk_end c <= c_addr c' \/ chunk_end c' <= c_addr c.

Fixpoint chunks_apart (cs : list chunk) : Prop :=
  match cs with [] => True | c :: cs' => Forall (disjoint_chunks c) cs' /\ chunks_apart cs' end.

Lemma disjoint_chunks_sym c c' : disjoint_chunks c c' -> disjoint_chunks c' c.
Proof. unfold disjoint_chunks. tauto. Qed.

Lemma chunks_apart_mid xs c ys :
  chunks_apart (xs ++ c :: ys) <-> chunks_apart (xs ++ ys) /\ Forall (disjoint_chunks c) (xs ++ ys).
Proof.
  induction xs as [|a xs IH]; simpl; [tauto|].
  rewrite IH, !Forall_app, !Forall_cons_iff, !Forall_app.
  pose proof (disjoint_chunks_sym a c). pose proof (disjoint_chunks_sym c a). tauto.
Qed.

Lemma chunks_apart_app xs ys :
  chunks_apart xs -> chunks_apart ys ->
  (forall x y, x ∈ xs -> y ∈ ys -> disjoint_chunks x y) -> chunks_apart (xs ++ ys).
Proof.
  intros Hx Hy H. induction xs as [|x xs IH]; simpl; [exact Hy|]. destruct Hx as [Hx1 Hx2].
  split; [|apply IH; [exact Hx2|intros; apply H; [now right|assumption]]].
  apply Forall_app. split; [exact Hx1|]. apply Forall_forall. intros y Hy'.
  apply H; [left|]. now apply list_elem_of_In.
Qed.

#[export] Instance chunks_apart_perm : Proper ((≡ₚ) ==> iff) chunks_apart.
Proof.
  assert (H : forall xs ys, xs ≡ₚ ys -> chunks_apart xs -> chunks_apart ys).
  { induction 1 as [|x xs ys Hp IH|x y xs|xs ys zs _ IH1 _ IH2]; simpl; auto.
    - intros [H1 H2]. split; [eapply Permutation_Forall; eauto|auto].
    - rewrite !Forall_cons_iff. pose proof (disjoint_chunks_sym y x). tauto. }
  intros xs ys Hp. split; apply H; [exact Hp|now symmetry].
Qed.

Lemma placed_chunks_apart lo hi cs : placed lo hi cs -> chunks_apart cs.
Proof.
  revert lo. induction cs as [|c cs IH]; intros lo H; [exact I|]. simpl in H. destruct H as (H1 & H2 & H3).
  split; [|now apply (IH _ H3)]. apply Forall_forall. intros x Hx%list_elem_of_In.
  apply (placed_in _ _ _ _ H3) in Hx. left. unfold chunk_end. lia.
Qed.

Lemma live_app xs ys : live (xs ++ ys) = live xs ++ live ys.
Proof. unfold live. now rewrite fmap_app, concat_app. Qed.

Lemma live_cons b bs : live (b :: bs) = b_chunks b ++ live bs.
Proof. reflexivity. Qed.

Lemma live_in_block bs c : c ∈ live bs -> exists b, b ∈ bs /\ c ∈ b_chunks b.
Proof.
  induction bs as [|b bs IH]; [now intros ?%not_elem_of_nil|].
  rewrite live_cons, elem_of_app. intros [H|H]; [exists b; split; [left|exact H]|].
  destruct (IH H) as (b' & ? & ?). exists b'. split; [now right|assumption].
Qed.

Lemma chunk_in_block mn d b c : blk_ok mn d b -> c ∈ b_chunks b ->
  b_addr b + 40 <= c_addr c /\ chunk_end c <= b_end b /\ 0 <= c_size c /\ chunk_ok d c.
Proof.
  intros [B1 B2 B3 B4 B5 B6 B7] Hc. pose proof (placed_in _ _ _ _ B6 Hc). unfold chunk_end.
  rewrite Forall_forall in B7. split; [lia|]. split; [lia|]. split; [lia|].
  apply B7. now apply list_elem_of_In.
Qed.

Lemma live_apart mn d bs : all_apart bs -> Forall (blk_ok mn d) bs -> chunks_apart (live bs).
Proof.
  induction bs as [|b bs IH]; intros Ha Hb; [exact I|]. destruct Ha as [Ha1 Ha2].
  apply Forall_cons_iff in Hb as [Hb1 Hb2]. rewrite live_cons. apply chunks_apart_app.
  - eapply placed_chunks_apart, Hb1.
  - auto.
  - intros x y Hx Hy. destruct (live_in_block _ _ Hy) as (b' & Hb'%list_elem_of_In & Hy').
    rewrite Forall_forall in Ha1, Hb2. specialize (Ha1 b' Hb'). specialize (Hb2 b' Hb').
    apply (chunk_in_block _ _ _ _ Hb1) in Hx. apply (chunk_in_block _ _ _ _ Hb2) in Hy'.
    unfold apart, disjoint_chunks in *. lia.
Qed.

Lemma core_live_apart h bs : core h bs -> chunks_apart (live bs).
Proof. intros Hc. eapply live_apart; apply Hc. Qed.

Lemma core_live_ok h bs c : core h bs -> c ∈ live bs ->
  chunk_ok (data h) c /\ 0 < c_addr c /\ chunk_end c <= 2 ^ 47 /\
  exists m r, majors h !! m = Some r /\ 0 < m /\ m + 40 <= c_addr c /\ chunk_end c <= m + maj_size r <= 2 ^ 47.
Proof.
  intros Hc Hin. destruct (live_in_block _ _ Hin) as (b & Hb & Hcb).
  destruct (list_elem_of_split _ _ Hb) as (pre & post & E). rewrite E in Hc.
  pose proof (core_blk h pre post b Hc) as Hbk. pose proof (core_lookup h pre post b Hc) as Hl.
  destruct (chunk_in_block _ _ _ _ Hbk Hcb) as (K1 & K2 & K3 & K4).
  pose proof (bo_addr _ _ _ Hbk). pose proof (bo_end _ _ _ Hbk).
  split; [exact K4|]. split; [lia|]. split; [lia|]. eexists (b_addr b), _. split; [exact Hl|].
  cbn [maj_size maj_cell]. unfold b_end in *. lia.
Qed.

Lemma inserted_live bs c bs' : inserted bs c bs' -> live bs' ≡ₚ c :: live bs.
Proof.
  intros [pre a pg cs1 c' cs2 post|bs0 a pg c']; rewrite !live_app, ?live_cons; cbn [b_chunks live].
  - rewrite <- (Permutation_middle cs1 cs2 c'). cbn [app]. symmetry. apply Permutation_middle.
  - rewrite app_nil_r. symmetry. apply Permutation_cons_append.
Qed.

(** ** free *)

Definition removed (pre : list blk) (a pg : Z) (cs : list chunk) (post : list blk) : list blk :=
  match cs with [] => pre ++ post | _ => pre ++ Blk a pg cs :: post end.

Lemma removed_live pre a pg cs1 c cs2 post :
  live (pre ++ Blk a pg (cs1 ++ c :: cs2) :: post) ≡ₚ c :: live (removed pre a pg (cs1 ++ cs2) post).
Proof.
  assert (E : live (removed pre a pg (cs1 ++ cs2) post) = live pre ++ (cs1 ++ cs2) ++ live post).
  { unfold removed. destruct (cs1 ++ cs2) eqn:E; now rewrite !live_app, ?live_cons. }
  rewrite E, live_app, live_cons. cbn [b_chunks].
  rewrite <- (Permutation_middle cs1 cs2 c). cbn [app]. symmetry. apply Permutation_middle.
Qed.

Lemma removed_nonempty pre a pg cs post (P := fun b => b_chunks b <> []) :
  Forall P pre -> Forall P post -> Forall P (removed pre a pg cs post).
Proof.
  intros H1 H2. unfold removed. destruct cs; rewrite Forall_app; [auto|].
  split; [exact H1|]. constructor; [discriminate|exact H2].
Qed.

(** The bytes of a chunk, header included. *)
Definition in_chunk (c : chunk) (x : Z) : Prop := c_addr c <= x < chunk_end c.

Lemma free_spec h pre a pg cs1 c cs2 post :
  heap_inv h (pre ++ Blk a pg (cs1 ++ c :: cs2) :: post) ->
  swp (free (uptr c)) (fun _ h' => heap_inv h' (removed pre a pg (cs1 ++ cs2) post) /\
    forall c' x, c' ∈ live (removed pre a pg (cs1 ++ cs2) post) -> in_chunk c' x ->
      data h' !! x = data h !! x) h.
Proof.
  intros [Hc Hl Hne]. pose proof (core_lookup h pre post _ Hc) as Hmj.
  pose proof (unlink_range h pre post a pg cs1 cs2 c Hc) as Hr. destruct Hr as (R1 & R2 & R3 & R4 & R5 & R6 & R7 & _).
  pose proof (uptr_bounds c) as Hu. apply Forall_app in Hne as [Hn1 [_ Hn2]%Forall_cons_iff].
  unfold free, sizeof_minor. rewrite (proj2 (Z.eqb_neq (uptr c) 0)) by lia.
  rewrite <- (stores_id h) at 1. apply swp_bind.
  eapply swp_UNALIGN; [exact Hmj|reg_size|reg_size|apply R7|]. rewrite stores_id.
  apply swp_bind. unfold swp at 1, liballoc_lock. rewrite Hl. cbn [Z.eqb].
  rewrite u64_small by lia. replace (c_addr c + 40 - 40) with (c_addr c) by lia.
  assert (Hc1 : core (with_lock 1 h) (pre ++ Blk a pg (cs1 ++ c :: cs2) :: post)) by now apply (core_scalars h).
  pose proof (core_blk _ pre post _ Hc1) as Hb.
  pose proof (dseg_lookup _ _ _ _ _ _ _ _ (bo_list _ _ _ Hb)) as Hcm. cbn [b_addr] in Hcm.
  apply swp_bind. eapply swp_sopt; [exact Hcm|]. cbn [min_magic min_cell]. rewrite Z.eqb_refl. cbn [negb].
  apply swp_bind. eapply swp_mono; [apply (unlink_spec _ pre post a pg cs1 cs2 c Hc1)|].
  intros m h1 (-> & Hc2 & Hs1). apply swp_bind.
  eapply swp_sopt; [apply (core_lookup h1 pre post _ Hc2)|]. cbn [maj_first maj_cell b_chunks].
  assert (Hend : forall bs h2, core h2 bs -> Forall (fun b => b_chunks b <> []) bs -> heap_inv (with_lock 0 h2) bs).
  { intros bs h2 K1 K2. split; [now apply (core_scalars h2)|reflexivity|exact K2]. }
  apply swp_bind. destruct (cs1 ++ cs2) as [|f fs] eqn:E.
  - cbn [hd_addr Z.eqb]. eapply swp_mono; [apply (release_spec h1 pre post a pg Hc2)|].
    intros _ h2 (Hc3 & _ & Hd). apply swp_modify. split; [apply Hend; [exact Hc3|]|].
    + now apply (removed_nonempty pre a pg []).
    + intros c' x Hc' Hx. cbn. rewrite Hd; [now rewrite (proj1 Hs1)|].
      destruct (live_in_block _ _ Hc') as (b & Hb1 & Hb2).
      apply (others_outside h1 pre post a pg Hc2 b); [exact Hb1|].
      pose proof (co_blocks _ _ Hc3) as Hbs. rewrite Forall_forall in Hbs.
      apply list_elem_of_In in Hb1. apply (chunk_in_block _ _ _ _ (Hbs b Hb1)) in Hb2.
      unfold in_blk, in_chunk in *. lia.
  - pose proof (core_blk h1 pre post _ Hc2) as Hb2.
    destruct (chunk_in_block _ _ _ f Hb2) as (F1 & _); [left|]. cbn [b_addr] in F1.
    cbn [hd_addr]. rewrite (proj2 (Z.eqb_neq (c_addr f) 0)) by lia.
    eapply swp_mono; [apply (update_bet_spec h1 pre _ post Hc2)|].
    intros _ h2 (Hc3 & Hs2). apply swp_modify. split; [apply Hend; [exact Hc3|]|].
    + now apply (removed_nonempty pre a pg (f :: fs)).
    + intros c' x _ _. cbn. rewrite (proj1 Hs2). now rewrite (proj1 Hs1).
Qed.
