(* ===== verification/AllocProps.v ===== *)
(** * The allocator: what a program may rely on

    Blocks of user bytes: [calloc], [realloc], a program's own writes, and the
    theorem that a program that frees only pointers it holds and writes only
    inside its blocks always finds its blocks aligned, disjoint and intact. *)

From S2P Require Import Prelude CMem State Dll Alloc AllocSpec AllocMalloc AllocFree.

(** ** User bytes *)

Definition in_user (c : chunk) (x : Z) : Prop := uptr c <= x < uptr c + c_req c.

(** The value a byte of the heap has. *)
Definition byte_at (h : heap) (x : Z) : Z := default 0 (data h !! x).

Lemma user_in_chunk d c x : chunk_ok d c -> in_user c x -> in_chunk c x.
Proof. intros H Hx. apply uptr_inside in H. unfold in_user, in_chunk, chunk_end in *. lia. Qed.

Lemma chunks_apart_user d cs c c' x y :
  chunks_apart cs -> Forall (chunk_ok d) cs -> c ∈ cs -> c' ∈ cs ->
  in_user c x -> (y = uptr c' - 16 \/ (c <> c' /\ in_user c' y)) -> x <> y.
Proof.
  intros Ha Hok (xs & ys & E)%list_elem_of_split Hc' Hx Hy. rewrite E in *.
  apply chunks_apart_mid in Ha as [_ Ha]. rewrite Forall_forall in Ha, Hok.
  assert (Hcok : chunk_ok d c) by (apply Hok, in_app_iff; right; now left).
  assert (Hcok' : chunk_ok d c') by (apply Hok, list_elem_of_In, Hc').
  apply uptr_inside in Hcok. pose proof (uptr_bounds c'). pose proof Hcok' as (? & ? & _).
  apply uptr_inside in Hcok'.
  assert (Hcase : c' = c \/ disjoint_chunks c c').
  { apply elem_of_app in Hc' as [K|[K|K]%elem_of_cons]; [right|now left|right];
      apply Ha, in_app_iff; [left|right]; now apply list_elem_of_In. }
  unfold in_user, disjoint_chunks, chunk_end in *. destruct Hcase as [->|Hd]; destruct Hy as [->|[Hne ?]]; try lia; congruence.
Qed.

Section bytes.
Context (h : heap) (bs : list blk).
Hypothesis Hi : heap_inv h bs.

Lemma live_ok : Forall (chunk_ok (data h)) (live bs).
Proof.
  apply Forall_forall. intros c Hc%list_elem_of_In. now apply (core_live_ok h bs c (hi_core _ _ Hi)).
Qed.

(** The invariant does not depend on bytes other than the ones before the
    pointers. *)
Lemma heap_inv_data d' :
  mem_ok d' -> (forall c, c ∈ live bs -> d' !! (uptr c - 16) = data h !! (uptr c - 16)) ->
  heap_inv (with_data (fun _ => d') h) bs.
Proof.
  intros Hok Hd. destruct Hi as [[C1 C2 C3 C4 C5 C6 C7 C8] Hl Hne]. split; [|exact Hl|exact Hne].
  split; auto. rewrite Forall_forall in *. intros b Hb. specialize (C4 b Hb).
  destruct C4 as [B1 B2 B3 B4 B5 B6 B7]. split; auto. rewrite Forall_forall in *. intros c Hc.
  destruct (B7 c Hc) as (K1 & K2 & K3). repeat split; auto. cbn. rewrite <- K3. apply Hd.
  apply list_elem_of_In in Hb, Hc. destruct (list_elem_of_split _ _ Hb) as (pre & post & ->).
  rewrite live_app, live_cons, !elem_of_app. auto.
Qed.

Lemma heap_inv_write c p ws :
  c ∈ live bs -> uptr c <= p -> p + Z.of_nat (length ws) <= uptr c + c_req c -> Forall is_byte ws ->
  heap_inv (with_data (fun d => write d p ws) h) bs.
Proof.
  intros Hc Hp1 Hp2 Hb. change (with_data (fun d => write d p ws) h) with (with_data (fun _ => write (data h) p ws) h).
  apply heap_inv_data; [apply mem_ok_write; [apply Hi|exact Hb]|].
  intros c' Hc'. apply write_lookup_out. intros Hx.
  apply (chunks_apart_user (data h) (live bs) c c' (uptr c' - 16) (uptr c' - 16)); auto.
  - apply (core_live_apart h), Hi.
  - apply live_ok.
  - unfold in_user. lia.
Qed.

Lemma live_region c : c ∈ live bs ->
  exists m r, majors h !! m = Some r /\ 0 < m /\ m + 40 <= uptr c /\ uptr c + c_req c <= m + maj_size r <= 2 ^ 47.
Proof.
  intros Hc. destruct (core_live_ok h bs c (hi_core _ _ Hi) Hc) as (Hok & _ & _ & m & r & E & H1 & H2 & H3).
  exists m, r. apply uptr_inside in Hok. unfold chunk_end in *. split; [exact E|]. lia.
Qed.

End bytes.

(** ** Filling and copying *)

Lemma memset_heap_spec h m r s v n :
  majors h !! m = Some r -> m <= s -> s + n <= m + maj_size r -> 0 <= n < 2 ^ 32 ->
  liballoc_memset s v n h = Done s (with_data (fun d => write d s (replicate (Z.to_nat n) (u8 v))) h).
Proof.
  intros Hm H1 H2 Hn. apply swp_eq. unfold liballoc_memset. apply swp_bind.
  eapply (swp_sloop _ (fun i h' => 0 <= i <= n /\
    h' = with_data (fun d => write d s (replicate (Z.to_nat i) (u8 v))) h) (fun i => Z.to_nat (n - i))).
  - intros i h' (Hin & ->). swp_step.
    + apply swp_bind. set (h1 := with_data _ h). rewrite <- (stores_id h1).
      eapply swp_st_byte; [exact Hm|lia|lia|]. apply swp_ret. rewrite u32_small by lia.
      split; [|lia]. split; [lia|]. unfold h1, with_data, stores. cbn. f_equal.
      replace (Z.to_nat (i + 1)) with (Z.to_nat i + 1)%nat by lia.
      rewrite replicate_add, write_app, length_replicate, Z2Nat.id by lia. reflexivity.
    + apply swp_ret, swp_ret. replace i with n by lia. auto.
  - split; [lia|]. now destruct h.
  - lia.
Qed.

(** The [n] bytes at [s]. *)
Definition bytes_of (h : heap) (s n : Z) : list Z :=
  (fun i => byte_at h (s + Z.of_nat i)) <$> seq 0 (Z.to_nat n).

Lemma length_bytes_of h s n : length (bytes_of h s n) = Z.to_nat n.
Proof. unfold bytes_of. now rewrite length_fmap, length_seq. Qed.

Lemma bytes_of_lookup h s n i :
  0 <= i < n -> bytes_of h s n !! Z.to_nat i = Some (byte_at h (s + i)).
Proof.
  intros Hi. unfold bytes_of. rewrite list_lookup_fmap, lookup_seq_lt by lia. simpl. do 2 f_equal. lia.
Qed.

Lemma byte_at_range h x : mem_ok (data h) -> is_byte (byte_at h x).
Proof.
  intros H. unfold byte_at. destruct (data h !! x) as [b|] eqn:E; simpl; [now apply (H x)|split; lia].
Qed.

Section copy.
Context (h : heap) (m1 m2 : Z) (r1 r2 : major) (s1 s2 n : Z).
Hypothesis Hm1 : majors h !! m1 = Some r1.
Hypothesis Hm2 : majors h !! m2 = Some r2.
Hypothesis H1 : m1 <= s1 /\ s1 + n <= m1 + maj_size r1.
Hypothesis H2 : m2 <= s2 /\ s2 + n <= m2 + maj_size r2.
Hypothesis Hdis : s1 + n <= s2 \/ s2 + n <= s1.
Hypothesis Hn : 0 <= n.
Hypothesis Hok : mem_ok (data h).

Definition copied (i : Z) : heap :=
  with_data (fun d => write d s1 (take (Z.to_nat i) (bytes_of h s2 n))) h.

Lemma copied_src i j : 0 <= i <= n -> 0 <= j < n -> default 0 (data (copied i) !! (s2 + j)) = byte_at h (s2 + j).
Proof.
  intros Hi Hj. unfold copied, byte_at. cbn. rewrite write_lookup_out; [reflexivity|].
  rewrite length_take, length_bytes_of. lia.
Qed.

Lemma copied_step i : 0 <= i < n ->
  with_data <[s1 + i := u8 (byte_at h (s2 + i))]> (copied i) = copied (i + 1).
Proof.
  intros Hi. unfold copied, with_data. cbn. f_equal.
  replace (Z.to_nat (i + 1)) with (S (Z.to_nat i)) by lia.
  erewrite take_S_r by (now apply bytes_of_lookup). rewrite write_app, length_take, length_bytes_of.
  rewrite u8_small by (apply byte_at_range, Hok).
  replace (s1 + Z.of_nat (Z.to_nat i `min` Z.to_nat n)) with (s1 + i) by lia. reflexivity.
Qed.

Lemma swp_copy_byte i (Q : unit -> heap -> Prop) : 0 <= i < n ->
  Q tt (copied (i + 1)) -> swp (st_byte (s1 + i) (byte_at h (s2 + i))) Q (copied i).
Proof.
  intros Hi HQ. rewrite <- (stores_id (copied i)). eapply swp_st_byte; [exact Hm1|lia|lia|].
  rewrite <- copied_step in HQ by exact Hi. exact HQ.
Qed.

Lemma swp_load_src i j (Q : Z -> heap -> Prop) : 0 <= i <= n -> 0 <= j < n ->
  Q (byte_at h (s2 + j)) (copied i) -> swp (ld_byte (s2 + j)) Q (copied i).
Proof.
  intros Hi Hj HQ. rewrite <- (stores_id (copied i)). eapply swp_ld_byte; [exact Hm2|lia|lia|].
  rewrite copied_src by lia. rewrite stores_id. exact HQ.
Qed.

Lemma swp_copy_word i (Q : unit -> heap -> Prop) : 0 <= i -> i + 4 <= n ->
  Q tt (copied (i + 4)) -> swp (copy_word (s1 + i) (s2 + i)) Q (copied i).
Proof.
  intros Hi Hin HQ. unfold copy_word. rewrite <- !Z.add_assoc.
  do 4 (apply swp_bind; apply swp_load_src; [lia|lia|]).
  apply swp_bind, swp_copy_byte; [lia|]. apply swp_bind, swp_copy_byte; [lia|].
  apply swp_bind. replace (i + 1 + 1) with (i + 2) by lia. apply swp_copy_byte; [lia|].
  replace (i + 2 + 1) with (i + 3) by lia. apply swp_copy_byte; [lia|].
  now replace (i + 3 + 1) with (i + 4) by lia.
Qed.

Lemma memcpy_heap_spec :
  liballoc_memcpy s1 s2 n h = Done s1 (with_data (fun d => write d s1 (bytes_of h s2 n)) h).
Proof.
  apply swp_eq. unfold liballoc_memcpy. apply swp_bind.
  assert (Hall : forall (h' : heap), h' = copied n -> h' = with_data (fun d => write d s1 (bytes_of h s2 n)) h).
  { intros h' ->. unfold copied. rewrite take_ge; [reflexivity|]. rewrite length_bytes_of. lia. }
  eapply (swp_sloop _ (fun '(ld, ls, k) h' => exists i, 0 <= i <= n /\ ld = s1 + i /\ ls = s2 + i /\
     k = n - i /\ h' = copied i) (fun '(_, _, k) => Z.to_nat k)).
  - intros [[ld ls] k] h' (i & Hi & -> & -> & -> & ->). swp_step.
    + apply swp_bind, swp_copy_word; [lia|lia|]. apply swp_ret. split; [|lia].
      exists (i + 4). repeat split; lia.
    + apply swp_ret, swp_bind.
      eapply (swp_sloop _ (fun '(ld, ls, k) h' => exists i, 0 <= i <= n /\ ld = s1 + i /\ ls = s2 + i /\
        k = n - i /\ h' = copied i) (fun '(_, _, k) => Z.to_nat k)).
      * intros [[ld ls] k] h' (j & Hj & -> & -> & -> & ->). swp_step.
        -- apply swp_bind, swp_load_src; [lia|lia|]. apply swp_bind, swp_copy_byte; [lia|].
           apply swp_ret. split; [|lia]. exists (j + 1). repeat split; lia.
        -- apply swp_ret, swp_ret. split; [reflexivity|]. apply Hall. f_equal. lia.
      * exists i. repeat split; lia.
      * lia.
  - exists 0. repeat split; try lia. unfold copied. now destruct h.
  - lia.
Qed.

End copy.

(** ** free and realloc on a live chunk *)

Lemma live_split bs c : c ∈ live bs ->
  exists pre a pg cs1 cs2 post, bs = pre ++ Blk a pg (cs1 ++ c :: cs2) :: post.
Proof.
  intros Hc. destruct (live_in_block _ _ Hc) as ([a pg cs] & (pre & post & ->)%list_elem_of_split & Hb).
  cbn [b_chunks] in Hb. destruct (list_elem_of_split _ _ Hb) as (cs1 & cs2 & ->). eauto 10.
Qed.

(** The bytes of the chunks in [cs] are the same in both heaps. *)
Definition keeps (h h' : heap) (cs : list chunk) : Prop :=
  forall c x, c ∈ cs -> in_user c x -> byte_at h' x = byte_at h x.

Lemma free_live_spec h bs c :
  heap_inv h bs -> c ∈ live bs ->
  swp (free (uptr c)) (fun _ h' => exists bs', heap_inv h' bs' /\ live bs ≡ₚ c :: live bs' /\
    keeps h h' (live bs')) h.
Proof.
  intros Hi Hc. pose proof (live_ok h bs Hi) as Hok.
  destruct (live_split _ _ Hc) as (pre & a & pg & cs1 & cs2 & post & ->).
  eapply swp_mono; [apply (free_spec h pre a pg cs1 c cs2 post Hi)|]. intros _ h' [Hi' Hf].
  eexists. split; [exact Hi'|]. split; [apply removed_live|]. intros c' x Hc' Hx. unfold byte_at.
  rewrite (Hf c' x); auto. eapply user_in_chunk; [|exact Hx].
  rewrite Forall_forall in Hok. apply Hok, list_elem_of_In. rewrite removed_live. now right.
Qed.

(** The request of a chunk reduced. *)
Lemma shrink_spec h pre a pg cs1 c cs2 post size :
  core h (pre ++ Blk a pg (cs1 ++ c :: cs2) :: post) -> 0 <= size <= c_req c ->
  core (stores h (majors h) (<[c_addr c := min_cell a (last_addr c_addr 0 cs1) (hd_addr c_addr 0 cs2)
          (Chunk (c_addr c) (c_size c) size)]> (minors h)) (data h))
       (pre ++ Blk a pg (cs1 ++ Chunk (c_addr c) (c_size c) size :: cs2) :: post).
Proof.
  intros Hc Hs. set (c2 := Chunk (c_addr c) (c_size c) size).
  pose proof (core_blk h pre post _ Hc) as [B1 B2 B3 B4 B5 B6 B7]. cbn [b_addr b_chunks] in *.
  assert (Hu : used (cs1 ++ c2 :: cs2) = used (cs1 ++ c :: cs2)) by now rewrite !used_app, !used_cons.
  apply (core_replace h pre post (Blk a pg (cs1 ++ c :: cs2)) Hc); try reflexivity.
  - cbn [majors stores b_addr]. symmetry. apply insert_id. etransitivity; [apply (core_lookup h pre post _ Hc)|].
    assert (Eh : hd_addr c_addr 0 (cs1 ++ c2 :: cs2) = hd_addr c_addr 0 (cs1 ++ c :: cs2)) by now destruct cs1.
    unfold maj_cell, b_usage. cbn [b_chunks]. rewrite Hu, Eh. reflexivity.
  - split; auto; cbn [b_addr b_chunks minors stores data].
    + apply dseg_app in B5 as [L1 [_ L2]].
      assert (Hne : forall y, y ∈ cs1 ++ cs2 -> c_addr y <> c_addr c) by (intros y; eapply placed_addr_ne, B6).
      apply dseg_app. split; [|split; [apply lookup_insert_eq|]].
      * eapply dseg_ext; [|exact L1]. intros y Hy. apply lookup_insert_ne, not_eq_sym, Hne, elem_of_app. auto.
      * eapply dseg_ext; [|exact L2]. intros y Hy. apply lookup_insert_ne, not_eq_sym, Hne, elem_of_app. auto.
    + rewrite placed_app in *. exact B6.
    + rewrite Forall_app, Forall_cons_iff in *. destruct B7 as (K1 & (K2 & K3 & K4) & K5).
      split; [exact K1|]. split; [|exact K5]. repeat split; cbn; try lia. exact K4.
  - apply Hc.
  - intros x Hx. split; [|reflexivity]. apply lookup_insert_ne. intros <-. apply Hx.
    destruct (placed_in _ _ _ c B6) as (P1 & P2 & P3); [apply elem_of_app; right; left|].
    unfold in_blk. cbn [b_addr] in *. lia.
  - cbn [l_inuse stores]. rewrite (co_inuse _ _ Hc). f_equal. rewrite !total_inuse_app.
    unfold total_inuse. cbn [foldr b_chunks]. now rewrite !chunk_sum_app.
Qed.

Section realloc.
Context (mmap : gmap Z Z -> Z -> Z) (size : Z).
Hypothesis Hmmap : mmap_spec mmap.
Hypothesis Hsize : 0 < size <= 2 ^ 32 - 4208.

(** The new block holds the old bytes, and the other blocks are as before. *)
Definition realloc_post (h : heap) (bs : list blk) (c : chunk) (q : Z) (h' : heap) : Prop :=
  exists bs' c' rest, heap_inv h' bs' /\ q = uptr c' /\ c_req c' = size /\
    live bs ≡ₚ c :: rest /\ live bs' ≡ₚ c' :: rest /\ keeps h h' rest /\
    forall i, 0 <= i < Z.min size (c_req c) -> byte_at h' (q + i) = byte_at h (uptr c + i).

Lemma realloc_grow_spec h bs c p h1 :
  heap_inv h bs -> c ∈ live bs -> c_req c < size ->
  malloc mmap size h = Done p h1 -> p <> 0 ->
  swp (p' ← malloc mmap size; liballoc_memcpy p' (uptr c) (c_req c);; free (uptr c);; mret p')
    (realloc_post h bs c) h.
Proof.
  intros Hi Hc Hlt Em Hp. pose proof (live_ok h bs Hi) as Hok0. rewrite Forall_forall in Hok0.
  pose proof (malloc_spec mmap size Hmmap ltac:(lia) h bs Hi) as Hm.
  unfold swp in Hm. rewrite Em in Hm. destruct Hm as [(-> & _)|(bs1 & cN & Hins & HqN & -> & Hi1 & Hf)]; [tauto|].
  apply swp_bind. eapply swp_run; [exact Em|].
  pose proof (inserted_live _ _ _ Hins) as Hlive.
  assert (HcN : cN ∈ live bs1) by (rewrite Hlive; left).
  assert (Hc1 : c ∈ live bs1) by (rewrite Hlive; now right).
  destruct (live_region h1 bs1 Hi1 _ HcN) as (m1 & r1 & E1 & R1 & R2 & R3).
  destruct (live_region h1 bs1 Hi1 _ Hc1) as (m2 & r2 & E2 & R4 & R5 & R6).
  assert (Hdis : disjoint_chunks cN c).
  { pose proof (core_live_apart h1 bs1 (hi_core _ _ Hi1)) as Hap. rewrite Hlive in Hap.
    destruct Hap as [Hap _]. rewrite Forall_forall in Hap. now apply Hap, list_elem_of_In. }
  pose proof (live_ok h1 bs1 Hi1) as Hok1. rewrite Forall_forall in Hok1.
  pose proof (uptr_inside _ _ (Hok1 cN ltac:(now apply list_elem_of_In))) as UN.
  pose proof (uptr_inside _ _ (Hok1 c ltac:(now apply list_elem_of_In))) as UC.
  pose proof (Hok0 c ltac:(now apply list_elem_of_In)) as (K0 & _).
  unfold disjoint_chunks, chunk_end in Hdis.
  apply swp_bind. eapply swp_run;
    [apply (memcpy_heap_spec h1 m1 m2 r1 r2); try assumption; try lia; apply Hi1|].
  set (h2 := with_data _ h1).
  assert (Hi2 : heap_inv h2 bs1).
  { apply (heap_inv_write h1 bs1 Hi1 cN); auto; [lia|rewrite length_bytes_of; lia|].
    apply Forall_forall. intros x (i & <- & _)%in_map_iff. apply byte_at_range, Hi1. }
  apply swp_bind. eapply swp_mono; [apply (free_live_spec h2 bs1 c Hi2 Hc1)|].
  intros _ h3 (bs3 & Hi3 & Hl3 & Hk3). apply swp_ret.
  destruct (proj1 (elem_of_Permutation _ _) Hc) as [rest Hrest].
  assert (Hl3' : live bs3 ≡ₚ cN :: rest).
  { apply (Permutation_cons_inv (a := c)). rewrite <- Hl3, Hlive, Hrest. apply perm_swap. }
  exists bs3, cN, rest. split; [exact Hi3|]. split; [reflexivity|]. split; [exact HqN|].
  split; [exact Hrest|]. split; [exact Hl3'|]. split.
  - intros c' x Hc' Hx. rewrite (Hk3 c' x) by (rewrite ?Hl3'; auto; now right).
    assert (Hcl : c' ∈ live bs) by (rewrite Hrest; now right).
    assert (Hd' : disjoint_chunks cN c').
    { pose proof (core_live_apart h1 bs1 (hi_core _ _ Hi1)) as Hap. rewrite Hlive in Hap.
      destruct Hap as [Hap _]. rewrite Forall_forall in Hap. now apply Hap, list_elem_of_In. }
    pose proof (Hok0 c' ltac:(now apply list_elem_of_In)) as Hc'ok. apply uptr_inside in Hc'ok.
    pose proof (uptr_bounds cN) as Ub. unfold disjoint_chunks, chunk_end, in_user in *.
    unfold byte_at, h2. cbn. rewrite write_lookup_out by (rewrite length_bytes_of; lia).
    rewrite Hf by lia. reflexivity.
  - intros i Hi'. rewrite Z.min_r in Hi' by lia.
    rewrite (Hk3 cN (uptr cN + i)); [|rewrite Hl3'; left|unfold in_user; lia].
    unfold byte_at at 1. unfold h2. cbn. rewrite lookup_write, length_bytes_of, decide_True by lia.
    replace (uptr cN + i - uptr cN) with i by lia. rewrite bytes_of_lookup by lia. cbn.
    unfold byte_at. rewrite Hf; [reflexivity|]. pose proof (uptr_bounds cN). lia.
Qed.

Lemma relock h : malloc_lock h = 0 -> with_lock 0 (with_lock 1 h) = h.
Proof. destruct h. cbn. now intros ->. Qed.

Lemma shrunk_post h pre a pg cs1 c cs2 post (c2 := Chunk (c_addr c) (c_size c) size) h' :
  core h' (pre ++ Blk a pg (cs1 ++ c2 :: cs2) :: post) -> malloc_lock h' = 0 -> data h' = data h ->
  heap_inv h (pre ++ Blk a pg (cs1 ++ c :: cs2) :: post) ->
  realloc_post h (pre ++ Blk a pg (cs1 ++ c :: cs2) :: post) c (uptr c) h'.
Proof.
  intros Hc Hl Hd [_ _ Hne]. eexists _, c2, (live (removed pre a pg (cs1 ++ cs2) post)).
  split; [split; [exact Hc|exact Hl|]|].
  - rewrite Forall_app, Forall_cons_iff in *. destruct Hne as (N1 & _ & N2).
    split; [exact N1|]. split; [cbn; now destruct cs1|exact N2].
  - split; [reflexivity|]. split; [reflexivity|]. split; [apply removed_live|]. split; [apply removed_live|].
    split; [intros c' x _ _|intros i _]; unfold byte_at; now rewrite Hd.
Qed.

Lemma realloc_spec h bs c :
  heap_inv h bs -> c ∈ live bs ->
  size <= c_req c \/ (exists p h1, malloc mmap size h = Done p h1 /\ p <> 0) ->
  swp (realloc mmap (uptr c) size) (realloc_post h bs c) h.
Proof.
  intros Hi Hc Hcase. destruct (live_region h bs Hi c Hc) as (m & r & E & R1 & R2 & R3).
  destruct (core_live_ok h bs c (hi_core _ _ Hi) Hc) as (Hok & P1 & P2 & mm & rr & EE & Q1 & Q2 & Q3).
  pose proof (uptr_bounds c) as Hu. pose proof Hok as (K1 & K2 & K3).
  unfold realloc. rewrite (proj2 (Z.eqb_neq size 0)), (proj2 (Z.eqb_neq (uptr c) 0)) by lia.
  rewrite <- (stores_id h) at 2. apply swp_bind. unfold chunk_end in *.
  eapply swp_UNALIGN; [exact EE|lia|lia|exact K3|]. rewrite stores_id.
  pose proof (hi_lock _ _ Hi) as Hl. apply swp_bind. unfold swp at 1, liballoc_lock. rewrite Hl. cbn [Z.eqb].
  unfold sizeof_minor. rewrite u64_small by lia. replace (c_addr c + 40 - 40) with (c_addr c) by lia.
  destruct (live_split _ _ Hc) as (pre & a & pg & cs1 & cs2 & post & ->).
  pose proof (hi_core _ _ Hi) as Hcore.
  assert (Hc1 : core (with_lock 1 h) (pre ++ Blk a pg (cs1 ++ c :: cs2) :: post)) by now apply (core_scalars h).
  pose proof (core_blk _ pre post _ Hc1) as Hb.
  pose proof (dseg_lookup _ _ _ _ _ _ _ _ (bo_list _ _ _ Hb)) as Hcm. cbn [b_addr] in Hcm.
  apply swp_bind. eapply swp_sopt; [exact Hcm|]. cbn [min_magic min_req_size min_cell].
  rewrite Z.eqb_refl. cbn [negb]. swp_step.
  - rewrite <- (stores_id (with_lock 1 h)). apply swp_bind.
    destruct (unlink_range _ _ _ _ _ _ _ _ Hc1) as (U1 & U2 & U3 & U4 & U5 & _).
    eapply swp_upd_min; [apply (core_lookup _ pre post _ Hc1)|reg_size|reg_size|].
    rewrite Hcm. apply swp_bind, swp_modify, swp_ret.
    apply shrunk_post; [|reflexivity|reflexivity|exact Hi].
    pose proof (shrink_spec _ _ _ _ _ _ _ _ size Hc1 ltac:(lia)) as Hs.
    eapply core_scalars; [exact Hs|try reflexivity..]. cbn. unfold set_min_req_size, min_cell. cbn.
    now rewrite u32_small by lia.
  - apply swp_bind, swp_modify. rewrite relock by exact Hl.
    destruct Hcase as [?|(p & h1 & Em & Hp)]; [lia|]. now apply (realloc_grow_spec h _ c p h1).
Qed.

End realloc.

(** ** Programs that use the allocator *)

(** The block a chunk gives to the program: address and size. *)
Definition user_block (c : chunk) : Z * Z := (uptr c, c_req c).

(** The heap and the blocks held after a program has allocated, freed blocks it
    holds, resized them, and written inside them. *)
Inductive client (mmap : gmap Z Z -> Z -> Z) : heap -> list (Z * Z) -> Prop :=
| client_start : client mmap heap0 []
| client_malloc h L req p h' :
    client mmap h L -> 0 <= req <= 2 ^ 32 - 4208 -> malloc mmap req h = Done p h' ->
    client mmap h' (if p =? 0 then L else (p, req) :: L)
| client_free h L1 p r L2 h' :
    client mmap h (L1 ++ (p, r) :: L2) -> free p h = Done tt h' -> client mmap h' (L1 ++ L2)
| client_realloc h L1 p r L2 size q h' :
    client mmap h (L1 ++ (p, r) :: L2) -> 0 < size <= 2 ^ 32 - 4208 ->
    size <= r \/ (exists p1 h1, malloc mmap size h = Done p1 h1 /\ p1 <> 0) ->
    realloc mmap p size h = Done q h' -> client mmap h' ((q, size) :: L1 ++ L2)
| client_store h L p r x v h' :
    client mmap h L -> (p, r) ∈ L -> p <= x < p + r -> st_byte x v h = Done tt h' -> client mmap h' L.

Definition holds (h : heap) (L : list (Z * Z)) : Prop :=
  exists bs, heap_inv h bs /\ user_block <$> live bs ≡ₚ L.

Lemma heap0_inv : heap_inv heap0 [].
Proof.
  split; [|reflexivity|constructor]. split; try reflexivity; auto; try exact I. apply map_Forall_empty.
Qed.

(** A block that is held is a live chunk, and the rest are the others. *)
Lemma held_chunk bs L1 p r L2 :
  user_block <$> live bs ≡ₚ L1 ++ (p, r) :: L2 ->
  exists c rest, c ∈ live bs /\ uptr c = p /\ c_req c = r /\ live bs ≡ₚ c :: rest /\
    user_block <$> rest ≡ₚ L1 ++ L2.
Proof.
  intros H. assert (Hin : (p, r) ∈ user_block <$> live bs) by (rewrite H, elem_of_app; right; left).
  apply list_elem_of_fmap in Hin as (c & E & Hc). injection E as -> ->.
  destruct (proj1 (elem_of_Permutation _ _) Hc) as [rest Hrest]. exists c, rest.
  repeat (split; [auto|]). rewrite Hrest in H. cbn [fmap list_fmap] in H.
  rewrite <- Permutation_middle in H. now apply Permutation_cons_inv in H.
Qed.

Lemma store_user h bs c x v :
  heap_inv h bs -> c ∈ live bs -> in_user c x ->
  st_byte x v h = Done tt (with_data (fun d => write d x [u8 v]) h) /\
  heap_inv (with_data (fun d => write d x [u8 v]) h) bs.
Proof.
  intros Hi Hc Hx. destruct (live_region h bs Hi c Hc) as (m & r & E & R1 & R2 & R3). unfold in_user in Hx. split.
  - unfold st_byte, supd. rewrite (in_region_intro h m r x 1) by (auto; lia). reflexivity.
  - apply (heap_inv_write h bs Hi c); [exact Hc|lia|simpl; lia|]. repeat constructor; apply u8_range.
Qed.

Lemma client_holds mmap h L : mmap_spec mmap -> client mmap h L -> holds h L.
Proof.
  intros Hm. induction 1 as [|h L req p h' _ (bs & Hi & Hb) Hr Em|h L1 p r L2 h' _ (bs & Hi & Hb) Ef
    |h L1 p r L2 size q h' _ (bs & Hi & Hb) Hs Hcase Er|h L p r x v h' _ (bs & Hi & Hb) Hin Hx Es].
  - exists []. split; [apply heap0_inv|reflexivity].
  - pose proof (malloc_spec mmap req Hm Hr h bs Hi) as H. unfold swp in H. rewrite Em in H.
    destruct H as [(-> & Hi' & _)|(bs' & c & Hins & Hq & -> & Hi' & _)]; [exists bs; auto|].
    pose proof (inserted_live _ _ _ Hins) as Hlive. exists bs'. split; [exact Hi'|].
    assert (Hc : c ∈ live bs') by (rewrite Hlive; left).
    destruct (live_region h' bs' Hi' c Hc) as (? & ? & _ & ? & ? & _).
    rewrite (proj2 (Z.eqb_neq (uptr c) 0)) by lia. rewrite Hlive. cbn [fmap list_fmap]. rewrite <- Hb.
    unfold user_block at 1. now rewrite Hq.
  - destruct (held_chunk _ _ _ _ _ Hb) as (c & rest & Hc & <- & <- & Hrest & Hmap).
    pose proof (free_live_spec h bs c Hi Hc) as H. unfold swp in H. rewrite Ef in H.
    destruct H as (bs' & Hi' & Hlive & _). exists bs'. split; [exact Hi'|]. rewrite <- Hmap.
    rewrite Hrest in Hlive. apply Permutation_cons_inv in Hlive. now rewrite <- Hlive.
  - destruct (held_chunk _ _ _ _ _ Hb) as (c & rest & Hc & <- & <- & Hrest & Hmap).
    pose proof (realloc_spec mmap size Hm Hs h bs c Hi Hc Hcase) as H. unfold swp in H. rewrite Er in H.
    destruct H as (bs' & c' & rest' & Hi' & -> & Hq & Hl1 & Hl2 & _). exists bs'. split; [exact Hi'|].
    rewrite Hl2. cbn [fmap list_fmap]. unfold user_block at 1. rewrite Hq. rewrite Hrest in Hl1.
    apply Permutation_cons_inv in Hl1. now rewrite <- Hl1, Hmap.
  - apply list_elem_of_split in Hin as (L1 & L2 & ->).
    destruct (held_chunk _ _ _ _ _ Hb) as (c & rest & Hc & <- & <- & _).
    destruct (store_user h bs c x v Hi Hc Hx) as [E Hi']. rewrite E in Es. injection Es as <-.
    exists bs. auto.
Qed.

Lemma holds_apart h L1 p r L2 :
  holds h (L1 ++ (p, r) :: L2) ->
  p mod 16 = 0 /\ 0 < p /\ forall q s, (q, s) ∈ L1 ++ L2 -> p + r <= q \/ q + s <= p.
Proof.
  intros (bs & Hi & Hb). destruct (held_chunk _ _ _ _ _ Hb) as (c & rest & Hc & <- & <- & Hrest & Hmap).
  destruct (live_region h bs Hi c Hc) as (? & ? & _ & ? & ? & _).
  split; [apply uptr_bounds|]. split; [lia|]. intros q s Hq. rewrite <- Hmap in Hq.
  apply list_elem_of_fmap in Hq as (c' & [= -> ->] & Hc').
  pose proof (core_live_apart h bs (hi_core _ _ Hi)) as Ha. rewrite Hrest in Ha. destruct Ha as [Ha _].
  rewrite Forall_forall in Ha. specialize (Ha c' ltac:(now apply list_elem_of_In)).
  pose proof (live_ok h bs Hi) as Hok. rewrite Forall_forall in Hok.
  pose proof (uptr_inside _ _ (Hok c ltac:(now apply list_elem_of_In))).
  pose proof (uptr_inside _ _ (Hok c' ltac:(apply list_elem_of_In; rewrite Hrest; now right))).
  unfold disjoint_chunks, chunk_end in Ha. lia.
Qed.

(** ** Properties *)

(** A bump [mmap] for the witnesses: the first page after every region. *)
Definition bump (rs : gmap Z Z) (n : Z) : Z :=
  let a := map_fold (fun b l acc => Z.max acc ((b + Z.max l 0) / 4096 * 4096 + 4096)) 65536 rs in
  if (0 <=? n) && (a + n <=? 2 ^ 47) then a else 0.

Lemma bump_spec : mmap_spec bump.
Proof.
  intros rs n. unfold bump. set (a := map_fold _ _ _).
  destruct ((0 <=? n) && (a + n <=? 2 ^ 47)) eqn:E; [right|left; reflexivity]. zbool.
  assert (Hinv : 65536 <= a /\ a mod 4096 = 0 /\ forall b l, rs !! b = Some l -> b + l <= a).
  { unfold a. clear. apply (map_fold_weak_ind (fun acc (rs : gmap Z Z) => 65536 <= acc /\ acc mod 4096 = 0 /\
      forall b l, rs !! b = Some l -> b + l <= acc)).
    - split; [lia|]. split; [reflexivity|]. intros b l. now rewrite lookup_empty.
    - intros b l m acc Hb (H1 & H2 & H3). split; [lia|]. split.
      + destruct (Z.max_dec acc ((b + Z.max l 0) / 4096 * 4096 + 4096)) as [-> | ->]; [exact H2|].
        Z.div_mod_to_equations. lia.
      + intros b' l' [[-> ->]|[_ K]]%lookup_insert_Some; [Z.div_mod_to_equations; lia|].
        specialize (H3 b' l' K). lia. }
  destruct Hinv as (H1 & H2 & H3). split; [lia|]. split; [exact H2|]. split; [lia|].
  intros b l Hb. right. now apply H3.
Qed.

(** The bytes of the blocks in [L] are the same in both heaps. *)
Definition keeps_blocks (h h' : heap) (L : list (Z * Z)) : Prop :=
  forall q s x, (q, s) ∈ L -> q <= x < q + s -> byte_at h' x = byte_at h x.

Lemma keeps_keeps_blocks h h' cs L :
  keeps h h' cs -> user_block <$> cs ≡ₚ L -> keeps_blocks h h' L.
Proof.
  intros Hk Hp q s x Hq Hx. rewrite <- Hp in Hq. apply list_elem_of_fmap in Hq as (c & [= -> ->] & Hc).
  now apply (Hk c).
Qed.

(** C2: every heap a program can reach represents a list of blocks with their
    chunks: consistent doubly linked headers, chunks in address order inside
    their block without overlap, exact usage, allocation and in-use counters,
    valid alignment bytes, no empty block, the lock free; and the chunks are
    exactly the blocks the program holds. *)
Theorem heap_invariant mmap h L :
  mmap_spec mmap -> client mmap h L ->
  exists bs, heap_inv h bs /\ user_block <$> live bs ≡ₚ L.
Proof. apply client_holds. Qed.

(** Three blocks, the middle one freed: first steps of a program. *)
Definition heap_after {T} (c : A T) (h : heap) : heap :=
  match c h with Done _ h' => h' | _ => heap0 end.
Definition demo_heap1 : heap := heap_after (malloc bump 100) heap0.
Definition demo_heap2 : heap := heap_after (malloc bump 200) demo_heap1.
Definition demo_heap3 : heap := heap_after (malloc bump 10) demo_heap2.
Definition demo_heap : heap := heap_after (free 65808) demo_heap3.
Definition demo_blocks : list (Z * Z) := [(66080, 10); (65632, 100)].

Lemma demo_client : client bump demo_heap demo_blocks.
Proof.
  apply (client_free bump demo_heap3 [(66080, 10)] 65808 200 [(65632, 100)]); [|vm_compute; reflexivity].
  apply (client_malloc bump demo_heap2 [(65808, 200); (65632, 100)] 10 66080); [|lia|vm_compute; reflexivity].
  apply (client_malloc bump demo_heap1 [(65632, 100)] 200 65808); [|lia|vm_compute; reflexivity].
  apply (client_malloc bump heap0 [] 100 65632); [apply client_start|lia|vm_compute; reflexivity].
Qed.

Lemma heap_invariant_witness :
  exists bs, heap_inv demo_heap bs /\ user_block <$> live bs ≡ₚ demo_blocks.
Proof. apply (heap_invariant bump); [apply bump_spec|apply demo_client]. Defined.

(** C1: the blocks a program holds are aligned to 16 bytes and pairwise
    disjoint, malloc and free never fault and never find the lock taken, and
    every byte of a held block can be written. *)
Theorem client_safe mmap h L :
  mmap_spec mmap -> client mmap h L ->
  (forall L1 p r L2, L = L1 ++ (p, r) :: L2 ->
     p mod 16 = 0 /\ 0 < p /\
     (forall q s, (q, s) ∈ L1 ++ L2 -> p + r <= q \/ q + s <= p) /\
     (exists h', free p h = Done tt h') /\
     (forall x v, p <= x < p + r -> exists h', st_byte x v h = Done tt h')) /\
  (forall req, 0 <= req <= 2 ^ 32 - 4208 -> exists p h', malloc mmap req h = Done p h').
Proof.
  intros Hm Hc. pose proof (client_holds mmap h L Hm Hc) as Hh. split.
  - intros L1 p r L2 ->. destruct (holds_apart _ _ _ _ _ Hh) as (H1 & H2 & H3).
    repeat (split; [assumption|]). destruct Hh as (bs & Hi & Hb).
    destruct (held_chunk _ _ _ _ _ Hb) as (c & rest & Hin & <- & <- & _). split.
    + destruct (proj1 (swp_ok _ _ _) (free_live_spec h bs c Hi Hin)) as ([] & h' & E & _). eauto.
    + intros x v Hx. destruct (store_user h bs c x v Hi Hin Hx) as [E _]. eauto.
  - intros req Hr. destruct Hh as (bs & Hi & _).
    destruct (proj1 (swp_ok _ _ _) (malloc_spec mmap req Hm Hr h bs Hi)) as (p & h' & E & _). eauto.
Qed.

Lemma client_safe_witness :
  (forall L1 p r L2, demo_blocks = L1 ++ (p, r) :: L2 ->
     p mod 16 = 0 /\ 0 < p /\
     (forall q s, (q, s) ∈ L1 ++ L2 -> p + r <= q \/ q + s <= p) /\
     (exists h', free p demo_heap = Done tt h') /\
     (forall x v, p <= x < p + r -> exists h', st_byte x v demo_heap = Done tt h')) /\
  (forall req, 0 <= req <= 2 ^ 32 - 4208 -> exists p h', malloc bump req demo_heap = Done p h').
Proof. apply (client_safe bump); [apply bump_spec|apply demo_client]. Defined.

(** C3: malloc returns null or a 16-byte aligned block of the size asked for
    that overlaps no block held, and does not change a byte of those. *)
Theorem malloc_correct mmap h L req :
  mmap_spec mmap -> client mmap h L -> 0 <= req <= 2 ^ 32 - 4208 ->
  exists p h', malloc mmap req h = Done p h' /\ keeps_blocks h h' L /\
    (p <> 0 -> p mod 16 = 0 /\ forall q s, (q, s) ∈ L -> p + req <= q \/ q + s <= p).
Proof.
  intros Hm Hc Hr. destruct (client_holds mmap h L Hm Hc) as (bs & Hi & Hb).
  destruct (proj1 (swp_ok _ _ _) (malloc_spec mmap req Hm Hr h bs Hi)) as (p & h' & E & Hpost).
  exists p, h'. split; [exact E|]. split.
  - destruct Hpost as [(_ & _ & Hd)|(bs' & c & Hins & _ & -> & Hi' & Hf)].
    + intros q s x _ _. unfold byte_at. now rewrite Hd.
    + apply (keeps_keeps_blocks h h' (live bs)); [|exact Hb]. intros c' x Hc' Hx. unfold byte_at.
      rewrite Hf; [reflexivity|]. pose proof (inserted_live _ _ _ Hins) as Hl.
      eapply (chunks_apart_user (data h') (live bs') c' c); [|apply (live_ok h' bs' Hi')| | |exact Hx|now left].
      * apply (core_live_apart h'), Hi'.
      * rewrite Hl. now right.
      * rewrite Hl. left.
  - intros Hp. pose proof (client_malloc mmap h L req p h' Hc Hr E) as Hc'.
    rewrite (proj2 (Z.eqb_neq p 0) Hp) in Hc'. apply (client_holds mmap) in Hc'; [|exact Hm].
    destruct (holds_apart h' [] p req L Hc') as (H1 & _ & H3). auto.
Qed.

Lemma malloc_correct_witness :
  exists p h', malloc bump 50 demo_heap = Done p h' /\ keeps_blocks demo_heap h' demo_blocks /\
    (p <> 0 -> p mod 16 = 0 /\ forall q s, (q, s) ∈ demo_blocks -> p + 50 <= q \/ q + s <= p).
Proof. apply (malloc_correct bump); [apply bump_spec|apply demo_client|lia]. Defined.

(** Freeing a held block does not fault and does not change a byte of the
    other blocks. *)
Lemma free_correct mmap h L1 p r L2 :
  mmap_spec mmap -> client mmap h (L1 ++ (p, r) :: L2) ->
  exists h', free p h = Done tt h' /\ keeps_blocks h h' (L1 ++ L2).
Proof.
  intros Hm Hc. destruct (client_holds mmap h _ Hm Hc) as (bs & Hi & Hb).
  destruct (held_chunk _ _ _ _ _ Hb) as (c & rest & Hin & <- & <- & Hrest & Hmap).
  destruct (proj1 (swp_ok _ _ _) (free_live_spec h bs c Hi Hin)) as ([] & h' & E & bs' & Hi' & Hl & Hk).
  exists h'. split; [exact E|]. rewrite Hrest in Hl. apply Permutation_cons_inv in Hl.
  apply (keeps_keeps_blocks h h' (live bs')); [exact Hk|]. now rewrite <- Hl.
Qed.

Lemma free_correct_witness :
  exists h', free 66080 demo_heap = Done tt h' /\ keeps_blocks demo_heap h' [(65632, 100)].
Proof. apply (free_correct bump demo_heap [] 66080 10 [(65632, 100)]); [apply bump_spec|apply demo_client]. Defined.

(** C4: when memory can be had, realloc returns a block of the new size that
    starts with the old bytes (all of them, or as many as fit), and does not
    change a byte of the other blocks. *)
Theorem realloc_correct mmap h L1 p r L2 size :
  mmap_spec mmap -> client mmap h (L1 ++ (p, r) :: L2) -> 0 < size <= 2 ^ 32 - 4208 ->
  size <= r \/ (exists p1 h1, malloc mmap size h = Done p1 h1 /\ p1 <> 0) ->
  exists q h', realloc mmap p size h = Done q h' /\
    (forall i, 0 <= i < Z.min size r -> byte_at h' (q + i) = byte_at h (p + i)) /\
    keeps_blocks h h' (L1 ++ L2) /\
    q mod 16 = 0 /\ 0 < q /\ forall q' s, (q', s) ∈ L1 ++ L2 -> q + size <= q' \/ q' + s <= q.
Proof.
  intros Hm Hc Hs Hcase. destruct (client_holds mmap h _ Hm Hc) as (bs & Hi & Hb).
  destruct (held_chunk _ _ _ _ _ Hb) as (c & rest & Hin & Ep & Er & Hrest & Hmap). subst p r.
  destruct (proj1 (swp_ok _ _ _) (realloc_spec mmap size Hm Hs h bs c Hi Hin Hcase)) as (q & h' & E & Hpost).
  exists q, h'. split; [exact E|].
  pose proof (client_realloc mmap h L1 _ _ L2 size q h' Hc Hs Hcase E) as Hc'.
  apply (client_holds mmap) in Hc'; [|exact Hm].
  destruct (holds_apart h' [] q size (L1 ++ L2) Hc') as (H1 & H2 & H3).
  destruct Hpost as (bs' & c' & rest' & _ & _ & _ & Hl1 & _ & Hk & Hbytes).
  split; [exact Hbytes|]. split; [|auto].
  rewrite Hrest in Hl1. apply Permutation_cons_inv in Hl1.
  apply (keeps_keeps_blocks h h' rest'); [exact Hk|]. now rewrite <- Hl1.
Qed.

Lemma realloc_correct_witness :
  exists q h', realloc bump 66080 300 demo_heap = Done q h' /\
    (forall i, 0 <= i < Z.min 300 10 -> byte_at h' (q + i) = byte_at demo_heap (66080 + i)) /\
    keeps_blocks demo_heap h' [(65632, 100)] /\
    q mod 16 = 0 /\ 0 < q /\ forall q' s, (q', s) ∈ [(65632, 100)] -> q + 300 <= q' \/ q' + s <= q.
Proof.
  apply (realloc_correct bump demo_heap [] 66080 10 [(65632, 100)]); [apply bump_spec|apply demo_client|lia|].
  right. eexists 66160, _. split; [vm_compute; reflexivity|discriminate].
Defined.

(** when memory can be had and the product of the arguments fits an int,
    calloc returns malloc's block with every byte zero. *)
Lemma calloc_correct mmap h L nobj size p h1 :
  mmap_spec mmap -> client mmap h L -> 0 <= nobj * size < 2 ^ 31 ->
  malloc mmap (nobj * size) h = Done p h1 -> p <> 0 ->
  exists h', calloc mmap nobj size h = Done p h' /\
    (forall x, p <= x < p + nobj * size -> byte_at h' x = 0) /\ keeps_blocks h h' L.
Proof.
  intros Hm Hc Hn Em Hp. destruct (client_holds mmap h L Hm Hc) as (bs & Hi & Hb).
  pose proof (malloc_spec mmap (nobj * size) Hm ltac:(lia) h bs Hi) as Hpost.
  unfold swp in Hpost. rewrite Em in Hpost.
  destruct Hpost as [(? & _)|(bs' & c & Hins & Hq & -> & Hi' & Hf)]; [tauto|].
  pose proof (inserted_live _ _ _ Hins) as Hl.
  assert (Hin : c ∈ live bs') by (rewrite Hl; left).
  destruct (live_region h1 bs' Hi' c Hin) as (m & r & Er & R1 & R2 & R3). rewrite Hq in R3.
  eexists. split.
  - unfold calloc. rewrite (u64_small (nobj * size)), s32_small, u64_small by lia.
    unfold mbind, SM_bind. rewrite Em. rewrite (memset_heap_spec h1 m r) by (auto; lia). reflexivity.
  - split.
    + intros x Hx. unfold byte_at. cbn. rewrite lookup_write, length_replicate, decide_True by lia.
      now rewrite lookup_replicate_2 by lia.
    + apply (keeps_keeps_blocks h _ (live bs)); [|exact Hb]. intros c' x Hc' Hx.
      assert (Hc'' : c' ∈ live bs') by (rewrite Hl; now right).
      pose proof (core_live_apart h1 bs' (hi_core _ _ Hi')) as Ha. pose proof (live_ok h1 bs' Hi') as Hok.
      assert (Hx16 : x <> uptr c - 16) by (eapply (chunks_apart_user (data h1) (live bs') c' c); eauto).
      rewrite Hl in Ha. destruct Ha as [Ha _]. rewrite Forall_forall in Ha, Hok.
      specialize (Ha c' ltac:(now apply list_elem_of_In)).
      pose proof (uptr_inside _ _ (Hok c ltac:(now apply list_elem_of_In))).
      pose proof (uptr_inside _ _ (Hok c' ltac:(now apply list_elem_of_In))).
      unfold disjoint_chunks, chunk_end, in_user in *.
      unfold byte_at. cbn. rewrite write_lookup_out by (rewrite length_replicate; lia).
      now rewrite Hf by exact Hx16.
Qed.

Lemma calloc_correct_witness :
  exists h', calloc bump 6 7 demo_heap = Done 65808 h' /\
    (forall x, 65808 <= x < 65808 + 42 -> byte_at h' x = 0) /\ keeps_blocks demo_heap h' demo_blocks.
Proof.
  eapply (calloc_correct bump demo_heap demo_blocks 6 7 65808);
    [apply bump_spec|apply demo_client|lia|vm_compute; reflexivity|discriminate].
Defined.

(** [allocate_new_page] takes the size as an [unsigned int] and CASE 2 does not
    check for room: a request of 2^32 bytes gets a block of 250 pages. *)
Lemma malloc_truncates :
  exists p h, malloc bump (2 ^ 32) heap0 = Done p h /\ p <> 0 /\
    map_fold (fun _ r acc => Z.max acc (maj_size r)) 0 (majors h) = 1024000.
Proof. eexists _, _. split; [vm_compute; reflexivity|]. split; [discriminate|vm_compute; reflexivity]. Qed.

(** [calloc] writes through the null pointer when there is no memory. *)
Lemma calloc_null_fault : calloc (fun _ _ => 0) 1 8 heap0 = Fail.
Proof. vm_compute. reflexivity. Qed.

