(* ===== verification/Double.v ===== *)
(** * IEEE 754 doubles

    The [double] of the target is binary64 with round to nearest even.  The
    operations are the executable ones of the standard library's [SpecFloat] at
    that format; conversions follow C: integers convert with rounding, doubles
    truncate toward zero. *)

From Stdlib Require Export SpecFloat.
From S2P Require Import Prelude.

Abbreviation dbl := spec_float.

Definition d_add : dbl -> dbl -> dbl := SFadd 53 1024.
Definition d_sub : dbl -> dbl -> dbl := SFsub 53 1024.
Definition d_mul : dbl -> dbl -> dbl := SFmul 53 1024.
Definition d_div : dbl -> dbl -> dbl := SFdiv 53 1024.
Definition d_opp : dbl -> dbl := SFopp.
Definition d_lt : dbl -> dbl -> bool := SFltb.
Definition d_le : dbl -> dbl -> bool := SFleb.
Definition d_eq : dbl -> dbl -> bool := SFeqb.
Definition d_gt (x y : dbl) : bool := d_lt y x.
Definition d_ge (x y : dbl) : bool := d_le y x.

(** An integer converted to [double]. *)
Definition d_of_Z (z : Z) : dbl := binary_normalize 53 1024 z 0 false.

(** A constant [m * 2^e] of the source, already in lowest terms of the format. *)
Definition d_const (m : positive) (e : Z) : dbl := S754_finite false m e.

(** A double cast to an integer type, before wrapping; there is no value for an
    infinity or a NaN. *)
Definition d_trunc (x : dbl) : option Z :=
  match x with
  | S754_zero _ => Some 0
  | S754_finite s m e =>
      let a := if 0 <=? e then Zpos m * 2 ^ e else Zpos m / 2 ^ (- e) in
      Some (if s then - a else a)
  | _ => None
  end.

(** The bits of a double and the double of 64 bits, through a [union]. *)
Definition d_bits (x : dbl) : Z :=
  match x with
  | S754_zero s => if s then 2 ^ 63 else 0
  | S754_infinity s => (if s then 2 ^ 63 else 0) + 2047 * 2 ^ 52
  | S754_nan => 2047 * 2 ^ 52 + 2 ^ 51
  | S754_finite s m e =>
      (if s then 2 ^ 63 else 0) +
      (if 2 ^ 52 <=? Zpos m then (e + 1075) * 2 ^ 52 + (Zpos m - 2 ^ 52) else Zpos m)
  end.

Definition d_of_bits (b : Z) : dbl :=
  let s := Z.testbit b 63 in
  let e := Z.shiftr b 52 mod 2048 in
  let f := b mod 2 ^ 52 in
  if e =? 2047 then (if f =? 0 then S754_infinity s else S754_nan)
  else if e =? 0 then
    match f with Zpos m => S754_finite s m (-1074) | _ => S754_zero s end
  else
    match f + 2 ^ 52 with Zpos m => S754_finite s m (e - 1075) | _ => S754_nan end.

(** The bits determine a double of the format. *)
Lemma d_bits_round_trip x :
  valid_binary 53 1024 x = true -> x <> S754_nan -> d_of_bits (d_bits x) = x.
Proof.
  intros Hv Hn. destruct x as [s|s| |s m e]; [destruct s; reflexivity|destruct s; reflexivity|tauto|].
  simpl in Hv. unfold bounded, canonical_mantissa in Hv. apply andb_true_iff in Hv as [Hc He].
  apply Z.eqb_eq in Hc. apply Z.leb_le in He. unfold fexp, emin in Hc.
  assert (Hd : Z.log2 (Zpos m) + 1 = Zpos (digits2_pos m)).
  { clear. induction m as [m IH|m IH|]; [| |reflexivity].
    - rewrite Pos2Z.inj_xI. change (digits2_pos m~1) with (Pos.succ (digits2_pos m)).
      rewrite Z.log2_succ_double by lia. lia.
    - rewrite Pos2Z.inj_xO. change (digits2_pos m~0) with (Pos.succ (digits2_pos m)).
      rewrite Z.log2_double by lia. lia. }
  pose proof (Z.log2_spec (Zpos m) ltac:(lia)) as Hl.
  unfold d_bits. set (sg := if s then 2 ^ 63 else 0).
  assert (Hmant : 2 ^ 52 <= Zpos m < 2 ^ 53 /\ -1074 <= e <= 971 \/ Zpos m < 2 ^ 52 /\ e = -1074).
  { rewrite <- Hd in Hc. set (k := Z.log2 (Zpos m)) in *.
    assert (0 <= k) by (unfold k; apply Z.log2_nonneg).
    destruct (Z.le_gt_cases 52 k).
    - assert (k = 52) as K by lia. rewrite K in Hl. left. split; [exact Hl|]. lia.
    - right. split; [|lia]. apply Z.lt_le_trans with (2 ^ Z.succ k); [tauto|].
      apply Z.pow_le_mono_r; lia. }
  set (body := if _ <=? _ then _ else _).
  assert (Hbody : 0 <= body < 2 ^ 63).
  { unfold body. destruct Hmant as [[H1 H2]|[H1 H2]].
    - rewrite (proj2 (Z.leb_le _ _)) by lia. lia.
    - rewrite (proj2 (Z.leb_gt _ _)) by lia. lia. }
  assert (Hsign : Z.testbit (sg + body) 63 = s).
  { unfold sg. rewrite Z.testbit_odd, Z.shiftr_div_pow2 by lia. destruct s.
    - replace (2 ^ 63 + body) with (body + 1 * 2 ^ 63) by lia.
      rewrite Z.div_add, Z.div_small by lia. reflexivity.
    - rewrite Z.div_small by lia. reflexivity. }
  assert (Hexp : Z.shiftr (sg + body) 52 mod 2048 = body / 2 ^ 52).
  { rewrite Z.shiftr_div_pow2 by lia. unfold sg. destruct s.
    - replace (2 ^ 63 + body) with (body + 2048 * 2 ^ 52) by lia. rewrite Z.div_add by lia.
      rewrite <- (Z.mul_1_l 2048) at 1. rewrite Z_mod_plus_full. apply Z.mod_small.
      split; [apply Z.div_pos; lia|apply Z.div_lt_upper_bound; lia].
    - apply Z.mod_small. split; [apply Z.div_pos; lia|apply Z.div_lt_upper_bound; lia]. }
  assert (Hfrac : (sg + body) mod 2 ^ 52 = body mod 2 ^ 52).
  { unfold sg. destruct s; [|reflexivity].
    replace (2 ^ 63 + body) with (body + 2048 * 2 ^ 52) by lia. apply Z_mod_plus_full. }
  unfold d_of_bits. rewrite Hsign, Hexp, Hfrac. clear Hsign Hexp Hfrac.
  unfold body in *. clear body. destruct Hmant as [[H1 H2]|[H1 ->]].
  - rewrite (proj2 (Z.leb_le _ _)) in * by lia. set (f := Zpos m - 2 ^ 52).
    rewrite (Z.add_comm _ f), Z.div_add, (Z.div_small f), Z_mod_plus_full, (Z.mod_small f) by lia.
    rewrite (proj2 (Z.eqb_neq _ 2047)), (proj2 (Z.eqb_neq _ 0)) by lia.
    replace (f + 2 ^ 52) with (Zpos m) by lia. f_equal. lia.
  - rewrite (proj2 (Z.leb_gt _ _)) in * by lia. rewrite Z.div_small, Z.mod_small by lia. reflexivity.
Qed.
