(* ===== verification/Printf.v ===== *)
(** * libc/src/stdio/printf.c: formatted output

    The engine calls an output function for one character after the other with
    a running index.  Here it returns the list of those characters; the index of
    a call is its position.  The functions at the end replay the calls into a
    buffer, the standard output or a stream.  The state of the engine is the
    [va_list]; a slot of the wrong type, a write past a conversion buffer, a
    table index out of range and a step past the end of the format are faults. *)

From S2P Require Import Prelude CMem State Double.
Import (notations) Ascii String.

(** ** Flags *)

Definition FLAGS_ZEROPAD : Z := 1.
Definition FLAGS_LEFT : Z := 2.
Definition FLAGS_PLUS : Z := 4.
Definition FLAGS_SPACE : Z := 8.
Definition FLAGS_HASH : Z := 16.
Definition FLAGS_UPPERCASE : Z := 32.
Definition FLAGS_CHAR : Z := 64.
Definition FLAGS_SHORT : Z := 128.
Definition FLAGS_LONG : Z := 256.
Definition FLAGS_LONG_LONG : Z := 512.
Definition FLAGS_PRECISION : Z := 1024.
Definition FLAGS_ADAPT_EXP : Z := 2048.

Definition has (flags f : Z) : bool := negb (Z.land flags f =? 0).
(** [flags |= f] and [flags &= ~f]. *)
Definition set_flag (flags f : Z) : Z := Z.lor flags f.
Definition clear_flag (flags f : Z) : Z := Z.land flags (u32 (Z.lnot f)).

(** ** Arguments *)

(** A slot of the [va_list]: an integer of up to 64 bits, a double, or a
    [char *] with the string it points to ([None] is null). *)
Inductive arg :=
| AInt (v : Z)
| ADbl (x : dbl)
| AStr (s : option (list Z)).

Abbreviation P := (SM (list arg)).

Definition va_arg : P arg := fun va =>
  match va with a :: va' => Done a va' | [] => Fail end.
Definition va_int : P Z := a ← va_arg; match a with AInt v => mret (s32 v) | _ => sfail end.
Definition va_uint : P Z := a ← va_arg; match a with AInt v => mret (u32 v) | _ => sfail end.
Definition va_long : P Z := a ← va_arg; match a with AInt v => mret (s64 v) | _ => sfail end.
Definition va_ulong : P Z := a ← va_arg; match a with AInt v => mret (u64 v) | _ => sfail end.
Definition va_double : P dbl := a ← va_arg; match a with ADbl x => mret x | _ => sfail end.
Definition va_string : P (option (list Z)) := a ← va_arg; match a with AStr s => mret s | _ => sfail end.

(** ** Conversion buffers *)

(** [char buf[32]] with [len] characters in it; [buf[len++] = c]. *)
Definition PRINTF_NTOA_BUFFER_SIZE : Z := 32.
Definition PRINTF_FTOA_BUFFER_SIZE : Z := 32.
Definition len_of (buf : list Z) : Z := Z.of_nat (length buf).
Definition push (buf : list Z) (c : Z) : P (list Z) :=
  if len_of buf <? 32 then mret (buf ++ [c]) else sfail.

(** [while ((len < limit) && (len < 32)) buf[len++] = '0';] *)
Definition pad_zeros (limit : Z) (buf : list Z) : P (list Z) :=
  sloop 33 (fun buf =>
    if (len_of buf <? limit) && (len_of buf <? 32)
    then b ← push buf (ch "0"); mret (Next b) else mret (Break buf)) buf.

(** ** Integers *)

Definition _is_digit (c : Z) : bool := (ch "0" <=? c) && (c <=? ch "9").

(** [_atoi] moves the format pointer over the digits. *)
Fixpoint _atoi (i : Z) (format : list Z) : Z * list Z :=
  match format with
  | c :: r => if _is_digit c then _atoi (u32 (i * 10 + u32 (c - ch "0"))) r else (i, format)
  | [] => (i, [])
  end.

(** [_strnlen_s]: at most [maxsize] characters. *)
Definition _strnlen_s (s : list Z) (maxsize : Z) : Z := u32 (Z.min (Z.of_nat (length s)) maxsize).

Definition spaces (n : Z) : list Z := replicate (Z.to_nat n) (ch " ").

(** The characters of [buf[0..len)] in reverse, padded to the width. *)
Definition _out_rev (buf : list Z) (width flags : Z) : list Z :=
  let pre := if negb (has flags FLAGS_LEFT) && negb (has flags FLAGS_ZEROPAD)
             then spaces (width - len_of buf) else [] in
  let out := pre ++ rev buf in
  if has flags FLAGS_LEFT then out ++ spaces (width - len_of out) else out.

(** The part of [_ntoa_format] that pads with zeros; it may take a column off
    the width for the sign. *)
Definition ntoa_pad (buf : list Z) (negative : bool) (prec width flags : Z) : P (list Z * Z) :=
  if negb (has flags FLAGS_LEFT) then
    let width := if negb (width =? 0) && has flags FLAGS_ZEROPAD
                    && (negative || has flags (Z.lor FLAGS_PLUS FLAGS_SPACE))
                 then width - 1 else width in
    buf ← pad_zeros prec buf;
    buf ← (if has flags FLAGS_ZEROPAD then pad_zeros width buf else mret buf);
    mret (buf, width)
  else mret (buf, width).

(** The part of [_ntoa_format] that handles the hash flag. *)
Definition ntoa_hash (buf : list Z) (base prec width flags : Z) : P (list Z) :=
  if has flags FLAGS_HASH then
    let len := len_of buf in
    let len := if negb (has flags FLAGS_PRECISION) && negb (len =? 0) && ((len =? prec) || (len =? width))
               then let len := len - 1 in
                    if negb (len =? 0) && (base =? 16) then len - 1 else len
               else len in
    let buf := take (Z.to_nat len) buf in
    buf ← (if (base =? 16) && negb (has flags FLAGS_UPPERCASE) && (len_of buf <? 32) then push buf (ch "x")
           else if (base =? 16) && has flags FLAGS_UPPERCASE && (len_of buf <? 32) then push buf (ch "X")
           else if (base =? 2) && (len_of buf <? 32) then push buf (ch "b")
           else mret buf);
    if len_of buf <? 32 then push buf (ch "0") else mret buf
  else mret buf.

(** The sign character. *)
Definition push_sign (buf : list Z) (negative : bool) (flags : Z) : P (list Z) :=
  if len_of buf <? 32 then
    if negative then push buf (ch "-")
    else if has flags FLAGS_PLUS then push buf (ch "+")
    else if has flags FLAGS_SPACE then push buf (ch " ")
    else mret buf
  else mret buf.

Definition _ntoa_format (buf : list Z) (negative : bool) (base prec width flags : Z) : P (list Z) :=
  '(buf, width) ← ntoa_pad buf negative prec width flags;
  buf ← ntoa_hash buf base prec width flags;
  buf ← push_sign buf negative flags;
  mret (_out_rev buf width flags).

(** One digit of the conversion. *)
Definition digit_char (flags digit : Z) : Z :=
  if digit <? 10 then ch "0" + digit
  else (if has flags FLAGS_UPPERCASE then ch "A" else ch "a") + digit - 10.

(** [do ... while (value && (len < 32))]. *)
Definition ntoa_digits (value base flags : Z) : P (list Z) :=
  sloop 33 (fun '(value, buf) =>
    buf ← push buf (digit_char flags (value mod base));
    let value := value / base in
    mret (if negb (value =? 0) && (len_of buf <? 32) then Next (value, buf) else Break buf))
    (value, []).

Definition _ntoa_long (value : Z) (negative : bool) (base prec width flags : Z) : P (list Z) :=
  let flags := if value =? 0 then clear_flag flags FLAGS_HASH else flags in
  buf ← (if negb (has flags FLAGS_PRECISION) || negb (value =? 0)
         then ntoa_digits value base flags else mret []);
  _ntoa_format buf negative base prec width flags.

(** The same text; [long] and [long long] have the same width. *)
Definition _ntoa_long_long (value : Z) (negative : bool) (base prec width flags : Z) : P (list Z) :=
  let flags := if value =? 0 then clear_flag flags FLAGS_HASH else flags in
  buf ← (if negb (has flags FLAGS_PRECISION) || negb (value =? 0)
         then ntoa_digits value base flags else mret []);
  _ntoa_format buf negative base prec width flags.

(** ** Doubles *)

Definition DBL_MAX : dbl := d_const 9007199254740991 971.
Definition PRINTF_MAX_FLOAT : dbl := d_const 8388608000000000 (-23).
Definition PRINTF_DEFAULT_FLOAT_PRECISION : Z := 6.
Definition d_half : dbl := d_const 4503599627370496 (-53).
Definition d_zero : dbl := S754_zero false.

(** [pow10[prec]]: ten entries. *)
Definition pow10 (prec : Z) : P dbl :=
  if (0 <=? prec) && (prec <=? 9) then mret (d_of_Z (10 ^ prec)) else sfail.
Definition cast (x : dbl) : P Z := sopt (fun _ => d_trunc x).

(** [while ((len < 32) && (prec > 9)) { buf[len++] = '0'; prec--; }] *)
Definition ftoa_limit (prec : Z) : P (list Z * Z) :=
  sloop 33 (fun '(buf, prec) =>
    if (len_of buf <? 32) && (9 <? prec)
    then b ← push buf (ch "0"); mret (Next (b, prec - 1)) else mret (Break (buf, prec))) ([], prec).

(** The whole and the fractional part, rounded. *)
Definition ftoa_split (value : dbl) (prec : Z) : P (Z * Z) :=
  w ← cast value;
  let whole := s32 w in
  p ← pow10 prec;
  let tmp := d_mul (d_sub value (d_of_Z whole)) p in
  f ← cast tmp;
  let frac := u64 f in
  let diff := d_sub tmp (d_of_Z frac) in
  if d_gt diff d_half then
    let frac := u64 (frac + 1) in
    if d_ge (d_of_Z frac) p then mret (s32 (whole + 1), 0) else mret (whole, frac)
  else if d_lt diff d_half then mret (whole, frac)
  else if (frac =? 0) || Z.odd frac then mret (whole, u64 (frac + 1))
  else mret (whole, frac).

(** The digits of the fraction, the zeros before them and the point. *)
Definition ftoa_frac (buf : list Z) (frac prec : Z) : P (list Z) :=
  '(buf, count) ← sloop 33 (fun '(buf, frac, count) =>
      if len_of buf <? 32 then
        let count := u32 (count - 1) in
        buf ← push buf (48 + frac mod 10);
        let frac := frac / 10 in
        mret (if frac =? 0 then Break (buf, count) else Next (buf, frac, count))
      else mret (Break (buf, count))) (buf, frac, prec);
  buf ← sloop 33 (fun '(buf, count) =>
      if (len_of buf <? 32) && (0 <? count)
      then b ← push buf (ch "0"); mret (Next (b, u32 (count - 1))) else mret (Break buf)) (buf, count);
  if len_of buf <? 32 then push buf (ch ".") else mret buf.

(** The digits of the whole part. *)
Definition ftoa_whole (buf : list Z) (whole : Z) : P (list Z) :=
  sloop 33 (fun '(buf, whole) =>
    if len_of buf <? 32 then
      buf ← push buf (48 + Z.rem whole 10);
      let whole := Z.quot whole 10 in
      mret (if whole =? 0 then Break buf else Next (buf, whole))
    else mret (Break buf)) (buf, whole).

(** [_ftoa] for a value that is printed in fixed notation. *)
Definition ftoa_fixed (value : dbl) (prec width flags : Z) : P (list Z) :=
  let negative := d_lt value d_zero in
  let value := if negative then d_sub d_zero value else value in
  let prec := if negb (has flags FLAGS_PRECISION) then PRINTF_DEFAULT_FLOAT_PRECISION else prec in
  '(buf, prec) ← ftoa_limit prec;
  '(whole, frac) ← ftoa_split value prec;
  '(buf, whole) ←
    (if prec =? 0 then
       let diff := d_sub value (d_of_Z whole) in
       mret (buf, if (negb (d_lt diff d_half) || d_gt diff d_half) && Z.odd whole
                  then s32 (whole + 1) else whole)
     else b ← ftoa_frac buf frac prec; mret (b, whole));
  buf ← ftoa_whole buf whole;
  '(buf, width) ←
    (if negb (has flags FLAGS_LEFT) && has flags FLAGS_ZEROPAD then
       let width := if negb (width =? 0) && (negative || has flags (Z.lor FLAGS_PLUS FLAGS_SPACE))
                    then width - 1 else width in
       b ← pad_zeros width buf; mret (b, width)
     else mret (buf, width));
  buf ← push_sign buf negative flags;
  mret (_out_rev buf width flags).

(** The decimal exponent and the power of ten [_etoa] scales with. *)
Definition etoa_exponent (value : dbl) : P (Z * dbl) :=
  let U := d_bits value in
  let exp2 := s32 (Z.land (Z.shiftr U 52) 2047 - 1023) in
  let F := d_of_bits (Z.lor (Z.land U (2 ^ 52 - 1)) (1023 * 2 ^ 52)) in
  e ← cast (d_add (d_add (d_const 6344356229335219 (-55))
                         (d_mul (d_of_Z exp2) (d_const 5422874305198587 (-54))))
                  (d_mul (d_sub F (d_const 6755399441055744 (-52))) (d_const 5215702578316129 (-54))));
  let expval := s32 e in
  e2 ← cast (d_add (d_mul (d_of_Z expval) (d_const 7480317065143153 (-51))) d_half);
  let exp2 := s32 e2 in
  let z := d_sub (d_mul (d_of_Z expval) (d_const 5184960683398422 (-51)))
                 (d_mul (d_of_Z exp2) (d_const 6243314768165359 (-53))) in
  let z2 := d_mul z z in
  let F := d_of_bits (u64 (Z.shiftl (u64 (exp2 + 1023)) 52)) in
  let F := d_mul F
    (d_add (d_of_Z 1)
       (d_div (d_mul (d_of_Z 2) z)
          (d_add (d_sub (d_of_Z 2) z)
             (d_div z2 (d_add (d_of_Z 6) (d_div z2 (d_add (d_of_Z 10) (d_div z2 (d_of_Z 14))))))))) in
  mret (if d_lt value F then (s32 (expval - 1), d_div F (d_of_Z 10)) else (expval, F)).

(** In "%g" mode the precision counts significant digits, and values of moderate
    size go back to fixed notation.  The result is [prec], [flags], [minwidth]
    and [expval]. *)
Definition etoa_adapt (value : dbl) (expval minwidth prec flags : Z) : Z * Z * Z * Z :=
  if has flags FLAGS_ADAPT_EXP then
    if d_ge value (d_const 7378697629483821 (-66)) && d_lt value (d_const 8589934592000000 (-33)) then
      let prec := if expval <? s32 prec then u32 (s32 prec - expval - 1) else 0 in
      (prec, set_flag flags FLAGS_PRECISION, 0, 0)
    else
      (if (0 <? prec) && has flags FLAGS_PRECISION then prec - 1 else prec, flags, minwidth, expval)
  else (prec, flags, minwidth, expval).

(** [_ftoa] and [_etoa] call each other: a large value goes to exponential
    notation, which prints its scaled mantissa in fixed notation. *)
Fixpoint _ftoa (fuel : nat) (value : dbl) (prec width flags : Z) : P (list Z) :=
  match fuel with
  | O => fun _ => Spin
  | S fuel =>
      if negb (d_eq value value) then mret (_out_rev (str "nan") width flags)
      else if d_lt value (d_opp DBL_MAX) then mret (_out_rev (str "fni-") width flags)
      else if d_gt value DBL_MAX
      then mret (_out_rev (if has flags FLAGS_PLUS then str "fni+" else str "fni") width flags)
      else if d_gt value PRINTF_MAX_FLOAT || d_lt value (d_opp PRINTF_MAX_FLOAT)
      then _etoa fuel value prec width flags
      else ftoa_fixed value prec width flags
  end
with _etoa (fuel : nat) (value : dbl) (prec width flags : Z) : P (list Z) :=
  match fuel with
  | O => fun _ => Spin
  | S fuel =>
      if negb (d_eq value value) || d_gt value DBL_MAX || d_lt value (d_opp DBL_MAX)
      then _ftoa fuel value prec width flags
      else
        let negative := d_lt value d_zero in
        let value := if negative then d_opp value else value in
        let prec := if negb (has flags FLAGS_PRECISION) then PRINTF_DEFAULT_FLOAT_PRECISION else prec in
        '(expval, F) ← etoa_exponent value;
        let minwidth := if (expval <? 100) && (-100 <? expval) then 4 else 5 in
        let '(prec, flags, minwidth, expval) := etoa_adapt value expval minwidth prec flags in
        let fwidth := if minwidth <? width then width - minwidth else 0 in
        let fwidth := if has flags FLAGS_LEFT && negb (minwidth =? 0) then 0 else fwidth in
        let value := if negb (expval =? 0) then d_div value F else value in
        out ← _ftoa fuel (if negative then d_opp value else value) prec fwidth
                (clear_flag flags FLAGS_ADAPT_EXP);
        if negb (minwidth =? 0) then
          let out := out ++ [if has flags FLAGS_UPPERCASE then ch "E" else ch "e"] in
          e ← _ntoa_long (Z.abs expval) (expval <? 0) 10 0 (minwidth - 1) (Z.lor FLAGS_ZEROPAD FLAGS_PLUS);
          let out := out ++ e in
          mret (if has flags FLAGS_LEFT then out ++ spaces (width - len_of out) else out)
        else mret out
  end.

(** One switch to exponential notation and back, with a step to spare. *)
Definition float_fuel : nat := 6.

(** ** The format *)

(** [*format] and [format++]. *)
Definition peek (format : list Z) : Z := match format with c :: _ => c | [] => 0 end.
Definition next (format : list Z) : P (list Z) := match format with _ :: r => mret r | [] => sfail end.

Fixpoint parse_flags (flags : Z) (format : list Z) : Z * list Z :=
  match format with
  | c :: r =>
      if c =? ch "0" then parse_flags (set_flag flags FLAGS_ZEROPAD) r
      else if c =? ch "-" then parse_flags (set_flag flags FLAGS_LEFT) r
      else if c =? ch "+" then parse_flags (set_flag flags FLAGS_PLUS) r
      else if c =? ch " " then parse_flags (set_flag flags FLAGS_SPACE) r
      else if c =? ch "#" then parse_flags (set_flag flags FLAGS_HASH) r
      else (flags, format)
  | [] => (flags, [])
  end.

Definition parse_width (flags : Z) (format : list Z) : P (Z * Z * list Z) :=
  if _is_digit (peek format) then
    let '(width, format) := _atoi 0 format in mret (flags, width, format)
  else if peek format =? ch "*" then
    w ← va_int;
    format ← next format;
    mret (if w <? 0 then (set_flag flags FLAGS_LEFT, u32 (s32 (- w)), format) else (flags, u32 w, format))
  else mret (flags, 0, format).

Definition parse_precision (flags : Z) (format : list Z) : P (Z * Z * list Z) :=
  if peek format =? ch "." then
    let flags := set_flag flags FLAGS_PRECISION in
    format ← next format;
    if _is_digit (peek format) then
      let '(precision, format) := _atoi 0 format in mret (flags, precision, format)
    else if peek format =? ch "*" then
      prec ← va_int;
      format ← next format;
      mret (flags, if 0 <? prec then u32 prec else 0, format)
    else mret (flags, 0, format)
  else mret (flags, 0, format).

(** [ptrdiff_t], [uint64_t] and [size_t] are as wide as [long]. *)
Definition parse_length (flags : Z) (format : list Z) : P (Z * list Z) :=
  let c := peek format in
  if c =? ch "l" then
    format ← next format;
    let flags := set_flag flags FLAGS_LONG in
    if peek format =? ch "l"
    then format ← next format; mret (set_flag flags FLAGS_LONG_LONG, format) else mret (flags, format)
  else if c =? ch "h" then
    format ← next format;
    let flags := set_flag flags FLAGS_SHORT in
    if peek format =? ch "h"
    then format ← next format; mret (set_flag flags FLAGS_CHAR, format) else mret (flags, format)
  else if (c =? ch "t") || (c =? ch "j") || (c =? ch "z") then
    format ← next format; mret (set_flag flags FLAGS_LONG, format)
  else mret (flags, format).

(** ** Conversions *)

(** Base and flags of an integer conversion. *)
Definition int_base (c : Z) : Z :=
  if (c =? ch "x") || (c =? ch "X") then 16 else if c =? ch "o" then 8 else if c =? ch "b" then 2 else 10.
Definition int_flags (c flags : Z) : Z :=
  let flags := if int_base c =? 10 then clear_flag flags FLAGS_HASH else flags in
  let flags := if c =? ch "X" then set_flag flags FLAGS_UPPERCASE else flags in
  let flags := if negb (c =? ch "i") && negb (c =? ch "d")
               then clear_flag flags (Z.lor FLAGS_PLUS FLAGS_SPACE) else flags in
  if has flags FLAGS_PRECISION then clear_flag flags FLAGS_ZEROPAD else flags.

Definition conv_int (c precision width flags : Z) : P (list Z) :=
  let base := int_base c in
  let flags := int_flags c flags in
  if (c =? ch "i") || (c =? ch "d") then
    if has flags FLAGS_LONG_LONG then
      value ← va_long;
      _ntoa_long_long (u64 (if 0 <? value then value else s64 (0 - value))) (value <? 0) base precision width flags
    else if has flags FLAGS_LONG then
      value ← va_long;
      _ntoa_long (u64 (if 0 <? value then value else s64 (0 - value))) (value <? 0) base precision width flags
    else
      v ← va_int;
      let value := if has flags FLAGS_CHAR then s8 v else if has flags FLAGS_SHORT then s16 v else v in
      _ntoa_long (u32 (if 0 <? value then value else s32 (0 - value))) (value <? 0) base precision width flags
  else
    if has flags FLAGS_LONG_LONG then
      value ← va_ulong; _ntoa_long_long value false base precision width flags
    else if has flags FLAGS_LONG then
      value ← va_ulong; _ntoa_long value false base precision width flags
    else
      v ← va_uint;
      let value := if has flags FLAGS_CHAR then u8 v else if has flags FLAGS_SHORT then u16 v else v in
      _ntoa_long value false base precision width flags.

Definition conv_char (width flags : Z) : P (list Z) :=
  v ← va_int;
  let pad := spaces (width - 1) in
  mret (if has flags FLAGS_LEFT then u8 v :: pad else pad ++ [u8 v]).

Definition conv_string (precision width flags : Z) : P (list Z) :=
  s ← va_string;
  match s with
  | None => mret (str "(NIL)")
  | Some s =>
      let l := _strnlen_s s (if negb (precision =? 0) then precision else u64 (-1)) in
      let l := if has flags FLAGS_PRECISION then (if l <? precision then l else precision) else l in
      let pad := spaces (width - l) in
      let text := if has flags FLAGS_PRECISION then take (Z.to_nat precision) s else s in
      mret (if has flags FLAGS_LEFT then text ++ pad else pad ++ text)
  end.

Definition is_one_of (c : Z) (cs : list Z) : bool := existsb (Z.eqb c) cs.

(** The specifier: the characters it puts out and the rest of the format.  "%U"
    puts out nothing and leaves the U in the format. *)
Definition conversion (precision width flags : Z) (format : list Z) : P (list Z * list Z) :=
  let c := peek format in
  if is_one_of c (str "diuxXob") then
    out ← conv_int c precision width flags; format ← next format; mret (out, format)
  else if is_one_of c (str "fF") then
    let flags := if c =? ch "F" then set_flag flags FLAGS_UPPERCASE else flags in
    x ← va_double;
    out ← _ftoa float_fuel x precision width flags; format ← next format; mret (out, format)
  else if is_one_of c (str "eEgG") then
    let flags := if (c =? ch "g") || (c =? ch "G") then set_flag flags FLAGS_ADAPT_EXP else flags in
    let flags := if (c =? ch "E") || (c =? ch "G") then set_flag flags FLAGS_UPPERCASE else flags in
    x ← va_double;
    out ← _etoa float_fuel x precision width flags; format ← next format; mret (out, format)
  else if c =? ch "c" then
    out ← conv_char width flags; format ← next format; mret (out, format)
  else if c =? ch "s" then
    out ← conv_string precision width flags; format ← next format; mret (out, format)
  else if c =? ch "p" then
    let flags := set_flag flags (Z.lor FLAGS_ZEROPAD FLAGS_UPPERCASE) in
    v ← va_ulong;
    out ← _ntoa_long_long v false 16 precision 16 flags; format ← next format; mret (out, format)
  else if c =? ch "U" then mret ([], format)
  else format ← next format; mret ([c], format).

(** One round of the loop over the format. *)
Definition format_step (format : list Z) : P (list Z * list Z) :=
  if negb (peek format =? ch "%") then
    let c := peek format in format ← next format; mret ([c], format)
  else
    format ← next format;
    let '(flags, format) := parse_flags 0 format in
    '(flags, width, format) ← parse_width flags format;
    '(flags, precision, format) ← parse_precision flags format;
    '(flags, format) ← parse_length flags format;
    conversion precision width flags format.

Definition _vsnprintf (format : list Z) : P (list Z) :=
  sloop (S (length format)) (fun '(format, out) =>
    match format with
    | [] => mret (Break out)
    | _ => '(o, format) ← format_step format; mret (Next (format, out ++ o))
    end) (format, []).

(** ** Sinks *)

(** [_out_buffer] for every character and for the terminator. *)
Definition _out_buffer (c buffer idx maxlen : Z) : M unit :=
  if idx <? maxlen then store8 (buffer + idx) c else mret tt.

Fixpoint out_buffer_all (w : list Z) (buffer idx maxlen : Z) : M unit :=
  match w with
  | [] => _out_buffer 0 buffer (if idx <? maxlen then idx else u64 (maxlen - 1)) maxlen
  | c :: w' => _out_buffer c buffer idx maxlen;; out_buffer_all w' buffer (idx + 1) maxlen
  end.

(** The calls of a finished run of the engine; a faulting run faults. *)
Definition vsnprintf (buffer count : Z) (format : list Z) (va : list arg) : M Z :=
  match _vsnprintf format va with
  | Done w _ =>
      (if buffer =? 0 then mret tt else out_buffer_all w buffer 0 count);;
      mret (s32 (Z.of_nat (length w)))
  | Fail => fault
  | Spin => fun _ => NoFuel
  end.

Definition snprintf (buffer count : Z) (format : list Z) (va : list arg) : M Z :=
  vsnprintf buffer count format va.
Definition sprintf (buffer : Z) (format : list Z) (va : list arg) : M Z :=
  vsnprintf buffer (u64 (-1)) format va.
Definition vsprintf (buffer : Z) (format : list Z) (va : list arg) : M Z :=
  vsnprintf buffer 134217727 format va.

(** What reaches [putchar], or the function of [fctprintf]: not the zero bytes. *)
Definition out_char_all (w : list Z) : list Z := List.filter (fun c => negb (c =? 0)) (w ++ [0]).

(** What [fprintf_writer] gives to [fputc]: every character. *)
Definition fprintf_writer_all (w : list Z) : list Z := w ++ [0].

Definition vprintf (format : list Z) : P (list Z * Z) :=
  w ← _vsnprintf format; mret (out_char_all w, s32 (Z.of_nat (length w))).
Definition printf (format : list Z) : P (list Z * Z) :=
  w ← _vsnprintf format; mret (out_char_all w, s32 (Z.of_nat (length w))).
Definition vfctprintf (format : list Z) : P (list Z * Z) :=
  w ← _vsnprintf format; mret (out_char_all w, s32 (Z.of_nat (length w))).
Definition fctprintf (format : list Z) : P (list Z * Z) :=
  w ← _vsnprintf format; mret (out_char_all w, s32 (Z.of_nat (length w))).
Definition vsnfprintf (format : list Z) : P (list Z * Z) :=
  w ← _vsnprintf format; mret (fprintf_writer_all w, s32 (Z.of_nat (length w))).
Definition vfprintf (format : list Z) : P (list Z * Z) :=
  w ← _vsnprintf format; mret (fprintf_writer_all w, s32 (Z.of_nat (length w))).
Definition fprintf (format : list Z) : P (list Z * Z) := vsnfprintf format.
