(* ===== verification/PrintfSpec.v ===== *)
(** * Formatted output: conversion buffers and integer conversions *)

From S2P Require Import Prelude CMem Ctype State StrSpec StrMisc Double Printf.
Import (notations) Ascii String.

(** ** Conversion buffers *)

Definition buf_ok (buf : list Z) : Prop := len_of buf <= 32.

Lemma len_of_app buf c : len_of (buf ++ [c]) = len_of buf + 1.
Proof. unfold len_of. rewrite length_app. simpl. lia. Qed.

Lemma len_of_nonneg buf : 0 <= len_of buf.
Proof. unfold len_of. lia. Qed.

Lemma push_spec buf c va : len_of buf < 32 -> push buf c va = Done (buf ++ [c]) va.
Proof. intros H. unfold push. now rewrite (proj2 (Z.ltb_lt _ _) H). Qed.

Lemma swp_push buf c Q va : len_of buf < 32 -> Q (buf ++ [c]) va -> swp (push buf c) Q va.
Proof. intros. eapply swp_run; [now apply push_spec|assumption]. Qed.

(** Zeros up to the limit, but not past the buffer. *)
Definition zeros_to (limit : Z) (buf : list Z) : list Z :=
  replicate (Z.to_nat (Z.min limit 32 - len_of buf)) (ch "0").

Lemma pad_zeros_spec limit buf va :
  buf_ok buf -> pad_zeros limit buf va = Done (buf ++ zeros_to limit buf) va.
Proof.
  intros Hb. apply swp_eq. unfold pad_zeros, buf_ok in *.
  set (n := Z.to_nat (Z.min limit 32 - len_of buf)).
  eapply (swp_sloop _ (fun b v => v = va /\ exists k, (k <= n)%nat /\ b = buf ++ replicate k (ch "0"))
    (fun b => Z.to_nat (32 - len_of b))).
  - intros b v (-> & k & Hk & ->). pose proof (len_of_nonneg buf).
    assert (Hl : len_of (buf ++ replicate k (ch "0")) = len_of buf + Z.of_nat k)
      by (unfold len_of; rewrite length_app, length_replicate; lia).
    rewrite Hl. destruct ((len_of buf + Z.of_nat k <? limit) && (len_of buf + Z.of_nat k <? 32)) eqn:E.
    + zbool. apply swp_bind, swp_push; [lia|]. apply swp_ret. split.
      * split; [reflexivity|]. exists (S k). split; [lia|].
        rewrite <- app_assoc. f_equal. rewrite replicate_S_end. reflexivity.
      * rewrite len_of_app. lia.
    + apply swp_ret. split; [|reflexivity]. unfold zeros_to. fold n. f_equal. f_equal.
      apply andb_false_iff in E as [E|E]; zbool; lia.
  - split; [reflexivity|]. exists 0%nat. split; [lia|]. now rewrite app_nil_r.
  - unfold len_of. lia.
Qed.

Lemma zeros_to_len limit buf :
  buf_ok buf -> len_of (buf ++ zeros_to limit buf) = Z.max (len_of buf) (Z.min limit 32).
Proof.
  intros Hb. unfold len_of, zeros_to, buf_ok in *. rewrite length_app, length_replicate.
  unfold len_of in *. lia.
Qed.

Lemma pad_zeros_ok limit buf : buf_ok buf -> buf_ok (buf ++ zeros_to limit buf).
Proof. intros Hb. unfold buf_ok. rewrite zeros_to_len by exact Hb. unfold buf_ok in Hb. lia. Qed.

(** ** The parts of [_ntoa_format] stay inside the buffer *)

Lemma ntoa_pad_spec buf negative prec width flags va :
  buf_ok buf -> 0 <= width ->
  swp (ntoa_pad buf negative prec width flags)
    (fun '(b, w) v => v = va /\ buf_ok b /\ width - 1 <= w <= width /\ 0 <= w /\
       (has flags FLAGS_LEFT = true \/ has flags FLAGS_ZEROPAD = false -> w = width)) va.
Proof.
  intros Hb Hw. unfold ntoa_pad. destruct (has flags FLAGS_LEFT) eqn:EL; cbn [negb].
  { apply swp_ret. repeat split; auto; lia. }
  set (w := if negb (width =? 0) && _ && _ then _ else _).
  assert (Hw' : width - 1 <= w <= width /\ 0 <= w /\
    (has flags FLAGS_LEFT = true \/ has flags FLAGS_ZEROPAD = false -> w = width)).
  { unfold w. destruct (width =? 0) eqn:E0, (has flags FLAGS_ZEROPAD), (negative || _); cbn [negb andb]; zbool;
      repeat split; try lia; intros [?|?]; congruence. }
  apply swp_bind. eapply swp_run; [now apply pad_zeros_spec|].
  pose proof (pad_zeros_ok prec buf Hb) as Hb1. apply swp_bind. destruct (has flags FLAGS_ZEROPAD) eqn:EZ.
  - eapply swp_run; [now apply pad_zeros_spec|]. apply swp_ret. split; [reflexivity|].
    split; [now apply pad_zeros_ok|]. rewrite EL in Hw'. exact Hw'.
  - apply swp_ret, swp_ret. split; [reflexivity|]. split; [exact Hb1|]. rewrite EL in Hw'. exact Hw'.
Qed.

Lemma take_buf_ok k buf : buf_ok buf -> buf_ok (take k buf).
Proof. unfold buf_ok, len_of. rewrite length_take. lia. Qed.

(** A push under the length test. *)
Lemma swp_guarded_push (t : bool) buf c (k : P (list Z)) Q va :
  (t = true -> len_of buf < 32) ->
  (t = true -> Q (buf ++ [c]) va) -> (t = false -> swp k Q va) ->
  swp (if t then push buf c else k) Q va.
Proof. intros H1 H2 H3. destruct t; [|auto]. apply swp_push; auto. Qed.

Lemma push_buf_ok buf c : len_of buf < 32 -> buf_ok (buf ++ [c]).
Proof. unfold buf_ok. rewrite len_of_app. lia. Qed.

Lemma ntoa_hash_spec buf base prec width flags va :
  buf_ok buf ->
  swp (ntoa_hash buf base prec width flags) (fun b v => v = va /\ buf_ok b) va.
Proof.
  intros Hb. unfold ntoa_hash. destruct (has flags FLAGS_HASH); [|apply swp_ret; auto].
  set (b0 := take _ buf). assert (H0 : buf_ok b0) by apply take_buf_ok, Hb. clearbody b0.
  apply swp_bind. apply swp_mono with (P := fun b v => v = va /\ buf_ok b).
  - repeat (apply swp_guarded_push; intros ?; zbool; [assumption|split; [reflexivity|now apply push_buf_ok]|]).
    apply swp_ret. auto.
  - intros b ? [-> Hb']. apply swp_guarded_push; intros E; zbool; [assumption| |apply swp_ret; auto].
    split; [reflexivity|now apply push_buf_ok].
Qed.

Lemma push_sign_spec buf negative flags va :
  buf_ok buf ->
  swp (push_sign buf negative flags) (fun b v => v = va /\ buf_ok b /\ len_of b <= len_of buf + 1) va.
Proof.
  intros Hb. unfold push_sign. destruct (len_of buf <? 32) eqn:E; zbool; [|apply swp_ret; auto with lia].
  assert (Hp : forall c, swp (push buf c) (fun b v => v = va /\ buf_ok b /\ len_of b <= len_of buf + 1) va).
  { intros c. apply swp_push; [exact E|]. split; [reflexivity|]. split; [now apply push_buf_ok|].
    rewrite len_of_app. lia. }
  destruct negative; [apply Hp|]. destruct (has flags FLAGS_PLUS); [apply Hp|].
  destruct (has flags FLAGS_SPACE); [apply Hp|]. apply swp_ret. repeat split; auto. lia.
Qed.

Lemma len_spaces n : len_of (spaces n) = Z.max 0 n.
Proof. unfold len_of, spaces. rewrite length_replicate. lia. Qed.

Lemma len_of_app2 xs ys : len_of (xs ++ ys) = len_of xs + len_of ys.
Proof. unfold len_of. rewrite length_app. lia. Qed.

Lemma out_rev_length buf width flags :
  len_of (_out_rev buf width flags) =
  if has flags FLAGS_LEFT || negb (has flags FLAGS_ZEROPAD) then Z.max (len_of buf) width else len_of buf.
Proof.
  unfold _out_rev. pose proof (len_of_nonneg buf).
  assert (Hr : len_of (rev buf) = len_of buf) by (unfold len_of; now rewrite length_rev).
  destruct (has flags FLAGS_LEFT) eqn:EL, (has flags FLAGS_ZEROPAD) eqn:EZ; cbn [negb andb orb app];
    rewrite ?len_of_app2, ?len_spaces, ?len_of_app2, ?len_spaces, ?Hr; lia.
Qed.

(** ** Digits *)

(** The number a list of digit values denotes, least significant first. *)
Fixpoint val_le (base : Z) (ds : list Z) : Z :=
  match ds with [] => 0 | d :: ds' => d + base * val_le base ds' end.

Lemma val_le_app base ds d :
  val_le base (ds ++ [d]) = val_le base ds + d * base ^ len_of ds.
Proof.
  induction ds as [|x ds IH]; cbn [app val_le].
  - change (len_of []) with 0. rewrite Z.pow_0_r. lia.
  - rewrite IH. replace (len_of (x :: ds)) with (len_of ds + 1) by (unfold len_of; cbn [length]; lia).
    rewrite Z.pow_add_r, Z.pow_1_r by (pose proof (len_of_nonneg ds); lia). ring.
Qed.

Lemma val_le_nonneg base ds : 0 <= base -> Forall (fun d => 0 <= d < base) ds -> 0 <= val_le base ds.
Proof. intros Hb. induction 1; simpl; [lia|]. nia. Qed.

(** The digits of a value: at least one, at most 32, in the base's range, and
    they denote the value when 32 digits are enough. *)
Record digits_of (value base flags : Z) (ds : list Z) (buf : list Z) : Prop := {
  do_chars : buf = digit_char flags <$> ds;
  do_range : Forall (fun d => 0 <= d < base) ds;
  do_some : 0 < len_of ds <= 32;
  do_min : len_of ds = 1 \/ base ^ (len_of ds - 1) <= value;
  do_value : value < base ^ 32 -> val_le base ds = value }.

Lemma ntoa_digits_spec value base flags va :
  0 <= value -> 2 <= base ->
  exists ds buf, ntoa_digits value base flags va = Done buf va /\ digits_of value base flags ds buf.
Proof.
  intros Hv Hbase.
  cut (swp (ntoa_digits value base flags) (fun buf v => v = va /\ exists ds, digits_of value base flags ds buf) va).
  { intros H. apply swp_ok in H as (buf & v & E & -> & ds & Hd). eauto. }
  unfold ntoa_digits.
  eapply (swp_sloop _ (fun '(v, buf) s => s = va /\ 0 <= v /\ exists ds, buf = digit_char flags <$> ds /\
      Forall (fun d => 0 <= d < base) ds /\ len_of ds < 32 /\ (ds = [] \/ 1 <= v) /\
      value = val_le base ds + v * base ^ len_of ds) (fun '(_, buf) => Z.to_nat (32 - len_of buf))).
  - intros [v buf] ? (-> & Hv' & ds & -> & Hr & Hl & Hpos & Hval).
    assert (Hlen : len_of (digit_char flags <$> ds) = len_of ds) by (unfold len_of; now rewrite length_fmap).
    apply swp_bind, swp_push; [lia|]. apply swp_ret.
    set (d := v mod base). assert (Hd : 0 <= d < base) by (apply Z.mod_pos_bound; lia).
    assert (Happ : (digit_char flags <$> ds) ++ [digit_char flags d] = digit_char flags <$> (ds ++ [d]))
      by now rewrite fmap_app.
    assert (Hval' : value = val_le base (ds ++ [d]) + v / base * base ^ len_of (ds ++ [d])).
    { rewrite val_le_app, len_of_app, Z.pow_add_r, Z.pow_1_r by (pose proof (len_of_nonneg ds); lia).
      rewrite Hval. rewrite (Z.div_mod v base) at 1 by lia. fold d. ring. }
    assert (Hr' : Forall (fun d => 0 <= d < base) (ds ++ [d])) by (apply Forall_app; auto).
    assert (Hmin : len_of ds + 1 = 1 \/ base ^ len_of ds <= value).
    { destruct Hpos as [->|Hpos]; [left; reflexivity|right]. pose proof (val_le_nonneg base ds ltac:(lia) Hr).
      assert (0 < base ^ len_of ds) by (apply Z.pow_pos_nonneg; [lia|apply len_of_nonneg]). nia. }
    assert (Hlen' : len_of (digit_char flags <$> ds ++ [d]) = len_of ds + 1)
      by (unfold len_of; rewrite length_fmap, length_app; simpl; lia).
    rewrite Happ, Hlen'.
    pose proof (Z.div_pos v base Hv' ltac:(lia)) as Hdiv. pose proof (len_of_nonneg ds).
    rewrite len_of_app in *.
    destruct (negb (v / base =? 0) && (len_of ds + 1 <? 32)) eqn:E.
    + apply andb_true_iff in E as [E1 E2]. zbool. split; [|rewrite Hlen, Hlen'; lia].
      split; [reflexivity|]. split; [exact Hdiv|]. exists (ds ++ [d]). rewrite len_of_app.
      split; [reflexivity|]. split; [exact Hr'|]. split; [lia|]. split; [right; lia|]. exact Hval'.
    + split; [reflexivity|]. exists (ds ++ [d]). split; [reflexivity|exact Hr'|rewrite len_of_app; lia| |].
      { rewrite len_of_app. now replace (len_of ds + 1 - 1) with (len_of ds) by lia. }
      intros Hmax. apply andb_false_iff in E as [E|E]; zbool; [rewrite E, Z.mul_0_l, Z.add_0_r in Hval'; now symmetry|].
      assert (len_of ds + 1 = 32) as E32 by lia. rewrite E32 in Hval'.
      pose proof (val_le_nonneg base (ds ++ [d]) ltac:(lia) Hr') as Hvl.
      assert (HB : 0 < base ^ 32) by (apply Z.pow_pos_nonneg; lia).
      set (B := base ^ 32) in *. set (q := v / base) in *. clearbody B q.
      assert (q = 0) as -> by nia. lia.
  - split; [reflexivity|]. split; [exact Hv|]. exists []. change (len_of []) with 0.
    split; [reflexivity|]. split; [constructor|]. split; [lia|]. split; [auto|]. cbn [val_le]. rewrite Z.pow_0_r. lia.
  - change (len_of []) with 0. lia.
Qed.

(** ** Integer conversions never leave their buffer *)

Lemma ntoa_long_spec value negative base prec width flags va :
  0 <= value -> 2 <= base -> 0 <= width ->
  exists out, _ntoa_long value negative base prec width flags va = Done out va /\
    len_of out <= Z.max 32 width /\
    (has flags FLAGS_LEFT = true \/ has flags FLAGS_ZEROPAD = false -> width <= len_of out).
Proof.
  intros Hv Hb Hw.
  cut (swp (_ntoa_long value negative base prec width flags) (fun out v => v = va /\
    len_of out <= Z.max 32 width /\
    (has flags FLAGS_LEFT = true \/ has flags FLAGS_ZEROPAD = false -> width <= len_of out)) va).
  { intros H. apply swp_ok in H as (out & v & E & -> & H1 & H2). eauto. }
  unfold _ntoa_long. cbv zeta. set (fl := if value =? 0 then _ else _).
  assert (Hfl : has fl FLAGS_LEFT = has flags FLAGS_LEFT /\ has fl FLAGS_ZEROPAD = has flags FLAGS_ZEROPAD).
  { unfold fl. destruct (value =? 0); [|auto]. unfold has, clear_flag.
    rewrite <- !Z.land_assoc. split; do 2 f_equal. }
  destruct Hfl as [EL EZ]. rewrite <- EL, <- EZ. clearbody fl. clear EL EZ flags.
  apply swp_bind. apply swp_mono with (P := fun b v => v = va /\ buf_ok b).
  { destruct (negb (has fl FLAGS_PRECISION) || negb (value =? 0)).
    - destruct (ntoa_digits_spec value base fl va Hv Hb) as (ds & buf & E & [-> _ Hl _ _]).
      eapply swp_run; [exact E|]. split; [reflexivity|]. unfold buf_ok, len_of in *. rewrite length_fmap. lia.
    - apply swp_ret. split; [reflexivity|]. unfold buf_ok. change (len_of []) with 0. lia. }
  intros buf ? [-> Hbuf]. unfold _ntoa_format. apply swp_bind.
  eapply swp_mono; [now apply (ntoa_pad_spec buf negative prec width fl va)|].
  intros [b w] ? (-> & Hb1 & Hw1 & Hw0 & Hweq). apply swp_bind.
  eapply swp_mono; [now apply (ntoa_hash_spec b base prec w fl va)|]. intros b2 ? (-> & Hb2).
  apply swp_bind. eapply swp_mono; [now apply (push_sign_spec b2 negative fl va)|].
  intros b3 ? (-> & Hb3 & _). apply swp_ret. split; [reflexivity|].
  rewrite out_rev_length. unfold buf_ok in Hb3. pose proof (len_of_nonneg b3).
  destruct (has fl FLAGS_LEFT), (has fl FLAGS_ZEROPAD); cbn [negb orb]; split; try lia; intros [?|?]; try congruence; lia.
Qed.
