(* ===== verification/PrintfProps.v ===== *)
(** * Formatted output: properties *)

From S2P Require Import Prelude CMem Ctype State MemFns StrFns StrSpec StrCopy StrMisc Double Printf PrintfSpec.
Import (notations) Ascii String.

(** ** Integers read back *)

(** Digit characters of a number below ten. *)
Lemma digit_char_dec flags d : 0 <= d < 10 -> digit_char flags d = 48 + d.
Proof. intros. unfold digit_char. rewrite (proj2 (Z.ltb_lt _ _)) by lia. reflexivity. Qed.

Lemma isdigit_dec d : 0 <= d < 10 -> isdigit (48 + d) = true.
Proof. intros. unfold isdigit. apply andb_true_iff. split; apply Z.leb_le; lia. Qed.

Lemma digits_val_rev flags ds n t :
  Forall (fun d => 0 <= d < 10) ds ->
  digits_val n (rev (digit_char flags <$> ds) ++ t) = digits_val (n * 10 ^ len_of ds + val_le 10 ds) t.
Proof.
  intros H. revert t. induction H as [|d ds Hd _ IH]; intros t.
  - cbn. f_equal. change (len_of []) with 0. lia.
  - cbn [fmap list_fmap rev]. rewrite <- app_assoc, IH. cbn [app digits_val].
    rewrite digit_char_dec, isdigit_dec by exact Hd. f_equal. cbn [val_le].
    replace (len_of (d :: ds)) with (len_of ds + 1) by (unfold len_of; cbn [length]; lia).
    rewrite Z.pow_add_r by (pose proof (len_of_nonneg ds); lia). lia.
Qed.

(** What "%d" prints for a number. *)
Lemma ntoa_plain value negative va :
  0 <= value < 2 ^ 64 ->
  exists ds, Forall (fun d => 0 <= d < 10) ds /\ ds <> [] /\ val_le 10 ds = value /\ len_of ds <= 20 /\
    (len_of ds = 1 \/ 10 ^ (len_of ds - 1) <= value) /\
    _ntoa_long value negative 10 0 0 0 va =
    Done ((if negative then [ch "-"] else []) ++ rev (digit_char 0 <$> ds)) va.
Proof.
  intros Hv. destruct (ntoa_digits_spec value 10 0 va) as (ds & buf & E & [-> Hr Hl Hmin Hval]); [lia|lia|].
  assert (H20 : len_of ds <= 20).
  { destruct Hmin as [?|Hmin]; [lia|]. destruct (Z.le_gt_cases (len_of ds) 20); [assumption|].
    assert (10 ^ 20 <= 10 ^ (len_of ds - 1)) by (apply Z.pow_le_mono_r; lia). lia. }
  exists ds. split; [exact Hr|]. split; [intros ->; change (len_of []) with 0 in Hl; lia|].
  split; [apply Hval; lia|]. split; [exact H20|]. split; [exact Hmin|]. apply swp_eq. unfold _ntoa_long.
  assert (Hf : (if value =? 0 then clear_flag 0 FLAGS_HASH else 0) = 0) by (destruct (value =? 0); reflexivity).
  rewrite Hf. apply swp_bind. change (negb (has 0 FLAGS_PRECISION)) with true. cbn [orb].
  eapply swp_run; [exact E|]. set (buf := digit_char 0 <$> ds).
  assert (Hlb : len_of buf = len_of ds) by (unfold len_of, buf; now rewrite length_fmap).
  pose proof (len_of_nonneg ds).
  unfold _ntoa_format, ntoa_pad. change (negb (has 0 FLAGS_LEFT)) with true.
  change (has 0 FLAGS_ZEROPAD) with false. cbn [Z.eqb negb andb]. apply swp_bind, swp_bind.
  eapply swp_run; [apply pad_zeros_spec; unfold buf_ok; lia|].
  assert (Hz : zeros_to 0 buf = []).
  { unfold zeros_to. replace (Z.to_nat (Z.min 0 32 - len_of buf)) with 0%nat by lia. reflexivity. }
  rewrite Hz, app_nil_r. apply swp_bind, swp_ret, swp_ret.
  unfold ntoa_hash. change (has 0 FLAGS_HASH) with false. apply swp_bind, swp_ret.
  unfold push_sign. rewrite (proj2 (Z.ltb_lt (len_of buf) 32)) by lia.
  change (has 0 FLAGS_PLUS) with false. change (has 0 FLAGS_SPACE) with false.
  assert (Hout : forall b, 0 <= len_of b -> _out_rev b 0 0 = rev b).
  { intros b Hb. unfold _out_rev, spaces. change (has 0 FLAGS_LEFT) with false. change (has 0 FLAGS_ZEROPAD) with false.
    cbn [negb andb]. replace (Z.to_nat (0 - len_of b)) with 0%nat by lia. reflexivity. }
  apply swp_bind. destruct negative.
  - apply swp_push; [lia|]. apply swp_ret. split; [|reflexivity]. rewrite Hout by apply len_of_nonneg.
    now rewrite rev_app_distr.
  - apply swp_ret, swp_ret. split; [|reflexivity]. now rewrite Hout by lia.
Qed.

Lemma swp_done {S A B} (c : SM S A) (f : A -> SM S B) s a s' : c s = Done a s' -> (c ≫= f) s = f a s'.
Proof. unfold mbind, SM_bind. now intros ->. Qed.

Lemma conversion_d flags width precision va :
  conversion precision width flags (str "d") va =
  match conv_int (ch "d") precision width flags va with
  | Done out va' => Done (out, []) va' | Fail => Fail | Spin => Spin
  end.
Proof.
  unfold conversion. change (is_one_of (peek (str "d")) (str "diuxXob")) with true. cbv iota.
  change (peek (str "d")) with (ch "d"). unfold mbind, SM_bind. destruct (conv_int _ _ _ _ va); reflexivity.
Qed.

Lemma format_step_d va : format_step (str "%d") va = conversion 0 0 0 (str "d") va.
Proof.
  unfold format_step. change (peek (str "%d") =? ch "%") with true. cbn [negb].
  erewrite swp_done by reflexivity. change (parse_flags 0 _) with (0, str "d"). cbv iota beta.
  erewrite swp_done by reflexivity. cbv iota beta. erewrite swp_done by reflexivity. cbv iota beta.
  erewrite swp_done by reflexivity. reflexivity.
Qed.

Lemma vsnprintf_d va : _vsnprintf (str "%d") va = conv_int (ch "d") 0 0 0 va.
Proof.
  unfold _vsnprintf. change (S (length (str "%d"))) with 3%nat. cbn [sloop].
  unfold mbind at 1, SM_bind at 1. cbn [str]. change [ch "%"; ch "d"] with (str "%d").
  unfold mbind at 1, SM_bind at 1. rewrite format_step_d, conversion_d.
  destruct (conv_int _ _ _ _ va); reflexivity.
Qed.

Definition decimal (v : Z) (out : list Z) : Prop :=
  Forall is_char out /\ (0 < length out <= 21)%nat /\ atoi_ref out = v.

Lemma printf_d_spec v :
  -2 ^ 31 <= v < 2 ^ 31 -> exists out, _vsnprintf (str "%d") [AInt v] = Done out [] /\ decimal v out.
Proof.
  intros Hv. rewrite vsnprintf_d. unfold conv_int. change (int_flags (ch "d") 0) with 0.
  change (int_base (ch "d")) with 10. cbn [Z.eqb orb].
  change ((ch "d" =? ch "i") || (ch "d" =? ch "d")) with true. cbv iota.
  change (has 0 FLAGS_LONG_LONG) with false. change (has 0 FLAGS_LONG) with false.
  change (has 0 FLAGS_CHAR) with false. change (has 0 FLAGS_SHORT) with false. cbv iota.
  unfold mbind, SM_bind, va_int, va_arg, mbind, SM_bind, mret, SM_ret. cbv beta iota. rewrite s32_small by lia.
  assert (Ha : u32 (if 0 <? v then v else s32 (0 - v)) = Z.abs v).
  { destruct (0 <? v) eqn:E; zbool; [now rewrite u32_small, Z.abs_eq by lia|]. rewrite Z.abs_neq by lia. zlia. }
  rewrite Ha. destruct (ntoa_plain (Z.abs v) (v <? 0) []) as (ds & Hr & Hne & Hval & Hl & _ & E); [lia|].
  rewrite E. eexists. split; [reflexivity|].
  assert (Hch : Forall is_char (rev (digit_char 0 <$> ds))).
  { apply Forall_rev. rewrite Forall_fmap. eapply Forall_impl; [|exact Hr]. intros d Hd. cbv beta in *. cbn.
    rewrite digit_char_dec by exact Hd. unfold is_char. lia. }
  unfold len_of in Hl. split; [|split].
  - apply Forall_app. split; [|exact Hch]. destruct (v <? 0); repeat constructor; cbv; reflexivity || discriminate.
  - rewrite length_app, length_rev, length_fmap. destruct ds; [tauto|]. cbn [length] in *.
    destruct (v <? 0); cbn [length]; lia.
  - pose proof (digits_val_rev 0 ds 0 [] Hr) as Hd. rewrite app_nil_r, Hval, Z.mul_0_l, Z.add_0_l in Hd.
    cbn [digits_val] in Hd.
    assert (Hfst : exists c t, rev (digit_char 0 <$> ds) = c :: t /\ 48 <= c <= 57).
    { destruct ds as [|d0 ds0] using rev_ind; [tauto|]. rewrite fmap_app, rev_app_distr. cbn.
      apply Forall_app in Hr as [_ [Hd0 _]%Forall_cons_iff].
      eexists _, _. split; [reflexivity|]. rewrite digit_char_dec by exact Hd0. lia. }
    destruct Hfst as (c & t & Ec & Hc). rewrite Ec in *. unfold atoi_ref.
    destruct (v <? 0) eqn:En; zbool.
    + cbn [app]. change (span isspace (ch "-" :: c :: t)) with 0%nat. cbn [drop].
      change (ch "-" =? 45) with true. cbv iota. rewrite Hd. lia.
    + cbn [app]. assert (Esp : isspace c = false).
      { unfold isspace. rewrite !(proj2 (Z.eqb_neq _ _)) by lia. reflexivity. }
      cbn [span]. rewrite Esp. cbn [drop]. rewrite !(proj2 (Z.eqb_neq c _)) by lia. rewrite Hd. lia.
Qed.

(** ** Bounded output *)

(** The characters that fit go to the buffer, then the terminator. *)
Lemma out_buffer_all_spec w buffer idx maxlen m :
  0 <= idx -> 0 <= maxlen < 2 ^ 64 -> mapped m buffer (Z.min maxlen (idx + len_of w + 1)) ->
  out_buffer_all w buffer idx maxlen m =
  Ok tt (if idx <? maxlen
         then write m (buffer + idx) ((u8 <$> take (Z.to_nat (maxlen - 1 - idx)) w) ++ [0])
         else if maxlen =? 0 then m else write m (buffer + (maxlen - 1)) [0]).
Proof.
  revert idx m. induction w as [|c w IH]; intros idx m Hi Hm Hmap; apply wp_eq.
  - change (len_of []) with 0 in Hmap. cbn [out_buffer_all]. unfold _out_buffer. destruct (idx <? maxlen) eqn:E; zbool.
    + rewrite (proj2 (Z.ltb_lt idx maxlen)) by lia. apply wp_store8; [apply Hmap; lia|].
      rewrite take_nil. auto.
    + destruct (maxlen =? 0) eqn:E0; zbool.
      * subst. change (u64 (0 - 1) <? 0) with false. now apply wp_ret.
      * rewrite u64_small by lia. rewrite (proj2 (Z.ltb_lt _ _)) by lia.
        apply wp_store8; [apply Hmap; lia|]. auto.
  - replace (len_of (c :: w)) with (len_of w + 1) in Hmap by (unfold len_of; cbn [length]; lia).
    pose proof (len_of_nonneg w). cbn [out_buffer_all]. apply wp_bind. unfold _out_buffer.
    destruct (idx <? maxlen) eqn:E; zbool.
    + apply wp_store8; [apply Hmap; lia|]. set (m1 := <[buffer + idx := u8 c]> m).
      assert (Hm1 : mapped m1 buffer (Z.min maxlen (idx + 1 + len_of w + 1))).
      { intros a Ha. unfold m1. destruct (decide (a = buffer + idx)) as [->|];
          [rewrite lookup_insert_eq; eauto|rewrite lookup_insert_ne by auto; apply Hmap; lia]. }
      eapply wp_run; [apply (IH (idx + 1) m1); auto; lia|]. split; [reflexivity|].
      destruct (idx + 1 <? maxlen) eqn:E1; zbool.
      * replace (Z.to_nat (maxlen - 1 - idx)) with (S (Z.to_nat (maxlen - 1 - (idx + 1)))) by lia.
        cbn [take fmap list_fmap app write]. unfold m1. f_equal. lia.
      * rewrite (proj2 (Z.eqb_neq maxlen 0)) by lia. replace (maxlen - 1) with idx by lia.
        rewrite Z.sub_diag. cbn [Z.to_nat take fmap list_fmap app write]. unfold m1. apply insert_insert_eq.
    + apply wp_ret. eapply wp_run; [apply (IH (idx + 1) m); [lia|lia|]|].
      { eapply mapped_sub; [exact Hmap|lia|lia]. }
      split; [reflexivity|]. now rewrite (proj2 (Z.ltb_ge (idx + 1) maxlen)) by lia.
Qed.

Lemma vsnprintf_spec format va va' w buffer count m :
  _vsnprintf format va = Done w va' -> buffer <> 0 -> 0 <= count < 2 ^ 64 ->
  mapped m buffer (Z.min count (len_of w + 1)) ->
  vsnprintf buffer count format va m =
  Ok (s32 (len_of w))
     (if count =? 0 then m else write m buffer ((u8 <$> take (Z.to_nat (count - 1)) w) ++ [0])).
Proof.
  intros E Hb Hc Hm. unfold vsnprintf. rewrite E, (proj2 (Z.eqb_neq _ _) Hb).
  apply wp_eq, wp_bind. eapply wp_run; [now apply out_buffer_all_spec|]. apply wp_ret. split; [reflexivity|].
  destruct (count =? 0) eqn:E0; zbool.
  - subst. reflexivity.
  - rewrite (proj2 (Z.ltb_lt 0 count)) by lia. now rewrite Z.add_0_r, Z.sub_0_r.
Qed.

Lemma u8_chars w : Forall is_char w -> u8 <$> w = w.
Proof.
  induction 1 as [|c w Hc _ IH]; [reflexivity|]. cbn [fmap list_fmap].
  unfold is_char in Hc. rewrite u8_small by lia. now f_equal.
Qed.

(** ** Complete formats

    What the directives of a format ask of the [va_list].  The reader below
    only moves over the text: flags, width, precision, length and conversion. *)

Inductive slot := WInt | WStr.

Definition fits (k : slot) (a : arg) : Prop :=
  match k, a with WInt, AInt _ | WStr, AStr _ => True | _, _ => False end.

Definition skip (p : Z -> bool) (f : list Z) : list Z := drop (span p f) f.

(** A number, or a star that takes an argument. *)
Definition number (f : list Z) : list slot * list Z :=
  match f with
  | c :: r => if c =? ch "*" then ([WInt], r) else ([], skip _is_digit f)
  | [] => ([], [])
  end.

Definition dot_number (f : list Z) : list slot * list Z :=
  match f with
  | c :: r => if c =? ch "." then number r else ([], f)
  | [] => ([], [])
  end.

(** The length modifiers hh, h, l, ll, t, j and z. *)
Definition length_modifier (f : list Z) : list Z :=
  match f with
  | c :: r =>
      if (c =? ch "l") || (c =? ch "h")
      then match r with d :: r' => if d =? c then r' else r | [] => [] end
      else if is_one_of c (str "tjz") then r else f
  | [] => []
  end.

(** A directive after its "%": the arguments it takes and the text after it.
    There is none when the format ends inside the directive, and none for the
    conversions of a double.  A character that is no conversion is printed. *)
Definition directive (f : list Z) : option (list slot * list Z) :=
  let f := skip (fun c => is_one_of c (str "0-+ #")) f in
  let '(k1, f) := number f in
  let '(k2, f) := dot_number f in
  let f := length_modifier f in
  match f with
  | c :: r =>
      if is_one_of c (str "diuxXobcp") then Some (k1 ++ k2 ++ [WInt], r)
      else if c =? ch "s" then Some (k1 ++ k2 ++ [WStr], r)
      else if is_one_of c (str "fFeEgG") then None
      else if c =? ch "U" then Some (k1 ++ k2, f)
      else Some (k1 ++ k2, r)
  | [] => None
  end.

(** [wants format ks]: the format is complete and asks for the slots [ks]. *)
Inductive wants : list Z -> list slot -> Prop :=
| wants_end : wants [] []
| wants_char c f ks : c <> ch "%" -> wants f ks -> wants (c :: f) ks
| wants_directive f ks f' ks' : directive f = Some (ks, f') -> wants f' ks' -> wants (ch "%" :: f) (ks ++ ks').

(** Computations that return, without a fault, with a value of the property
    [Q], and take exactly the slots [ks] off the [va_list]. *)
Definition takes {A} (ks : list slot) (Q : A -> Prop) (c : P A) : Prop :=
  forall va va', Forall2 fits ks va -> exists a, c (va ++ va') = Done a va' /\ Q a.

Lemma takes_ret {A} (Q : A -> Prop) a : Q a -> takes [] Q (mret a).
Proof. intros H va va' Hva. inversion Hva. now exists a. Qed.

Lemma takes_bind {A B} ks ks' (Q : A -> Prop) (R : B -> Prop) c f :
  takes ks Q c -> (forall a, Q a -> takes ks' R (f a)) -> takes (ks ++ ks') R (c ≫= f).
Proof.
  intros Hc Hf va va' (va1 & va2 & H1 & H2 & ->)%Forall2_app_inv_l.
  destruct (Hc va1 (va2 ++ va') H1) as (a & E & Ha). destruct (Hf a Ha va2 va' H2) as (b & E' & Hb).
  exists b. split; [|exact Hb]. rewrite <- app_assoc. now rewrite (swp_done _ _ _ _ _ E).
Qed.

(** The first step takes nothing, or the last does. *)
Lemma takes_bind_l {A B} ks (Q : A -> Prop) (R : B -> Prop) c f :
  takes [] Q c -> (forall a, Q a -> takes ks R (f a)) -> takes ks R (c ≫= f).
Proof. apply (takes_bind []). Qed.
Lemma takes_bind_r {A B} ks (Q : A -> Prop) (R : B -> Prop) c f :
  takes ks Q c -> (forall a, Q a -> takes [] R (f a)) -> takes ks R (c ≫= f).
Proof. rewrite <- (app_nil_r ks) at 2. apply takes_bind. Qed.

Lemma takes_next c r : takes [] (eq r) (next (c :: r)).
Proof. now apply takes_ret. Qed.

Lemma takes_int : takes [WInt] (fun _ => True) va_int.
Proof. intros va va' H. inversion H as [|? [] ? ? ? Hn]; try easy. inversion Hn. eexists. split; reflexivity. Qed.
Lemma takes_ulong : takes [WInt] (fun v => 0 <= v) va_ulong.
Proof.
  intros va va' H. inversion H as [|? [] ? ? ? Hn]; try easy. inversion Hn.
  eexists. split; [reflexivity|apply u64_range].
Qed.
Lemma takes_string : takes [WStr] (fun _ => True) va_string.
Proof. intros va va' H. inversion H as [|? [] ? ? ? Hn]; try easy. inversion Hn. eexists. split; reflexivity. Qed.

Lemma takes_ntoa value negative base prec width flags :
  0 <= value -> 2 <= base -> 0 <= width ->
  takes [] (fun _ => True) (_ntoa_long value negative base prec width flags).
Proof.
  intros Hv Hb Hw va va' Hva. inversion Hva. cbn [app].
  destruct (ntoa_long_spec value negative base prec width flags va' Hv Hb Hw) as (out & E & _). eauto.
Qed.

Lemma int_base_ge c : 2 <= int_base c.
Proof. unfold int_base. repeat zif; lia. Qed.

(** Integer conversions are total and stay inside their 32-byte buffer.  For
    every specifier, precision, width and set of flags the conversion takes one
    argument and puts out at most 32 characters or the width, whichever is
    more; and it fills the width unless zeros were asked for instead. *)
Lemma conv_int_safe c precision width flags v va :
  0 <= width ->
  exists out, conv_int c precision width flags (AInt v :: va) = Done out va /\
    len_of out <= Z.max 32 width /\
    (has (int_flags c flags) FLAGS_LEFT = true \/ has (int_flags c flags) FLAGS_ZEROPAD = false ->
     width <= len_of out).
Proof.
  intros Hw. pose proof (int_base_ge c) as Hb. unfold conv_int. cbv zeta. change _ntoa_long_long with _ntoa_long.
  repeat match goal with |- context [(if ?b then _ else _) (_ :: _)] => destruct b end;
    (erewrite swp_done; [|reflexivity]); apply ntoa_long_spec; try assumption;
    try apply u64_range; try apply u32_range.
  repeat zif; [apply u8_range|apply Z.mod_pos_bound; lia|apply u32_range].
Qed.

Lemma conv_int_safe_witness :
  exists out, conv_int (ch "x") 40 50 (Z.lor FLAGS_HASH FLAGS_LONG) [AInt (-1)] = Done out [] /\
    len_of out <= Z.max 32 50 /\
    (has (int_flags (ch "x") (Z.lor FLAGS_HASH FLAGS_LONG)) FLAGS_LEFT = true \/
     has (int_flags (ch "x") (Z.lor FLAGS_HASH FLAGS_LONG)) FLAGS_ZEROPAD = false -> 50 <= len_of out).
Proof. apply conv_int_safe. lia. Defined.

Lemma takes_conv_int c precision width flags :
  0 <= width -> takes [WInt] (fun _ => True) (conv_int c precision width flags).
Proof.
  intros Hw va va' H. inversion H as [|? [v| |] ? ? ? Hn]; try easy. inversion Hn.
  destruct (conv_int_safe c precision width flags v va' Hw) as (out & E & _). eauto.
Qed.
#[export] Hint Resolve takes_int takes_ulong takes_string takes_ntoa takes_conv_int takes_next takes_ret : chariot.

(** The reader and the engine step over the same text. *)
Lemma skip_cons p c f : skip p (c :: f) = if p c then skip p f else c :: f.
Proof. unfold skip. cbn [span]. now destruct (p c). Qed.

Lemma skip_length p f : (length (skip p f) <= length f)%nat.
Proof. unfold skip. rewrite length_drop. lia. Qed.

Lemma parse_flags_skip flags f :
  snd (parse_flags flags f) = skip (fun c => is_one_of c (str "0-+ #")) f.
Proof.
  revert flags. induction f as [|c f IH]; intros flags; [reflexivity|]. cbn [parse_flags]. rewrite skip_cons.
  unfold is_one_of. cbn [str existsb].
  repeat match goal with |- context [c =? ?k] => destruct (c =? k) end; cbn [orb]; auto.
Qed.

Lemma _atoi_skip i f :
  snd (_atoi i f) = skip _is_digit f /\ (0 <= i -> 0 <= fst (_atoi i f)).
Proof.
  revert i. induction f as [|c f IH]; intros i; [split; [reflexivity|tauto]|]. cbn [_atoi]. rewrite skip_cons.
  destruct (_is_digit c); [|split; [reflexivity|tauto]].
  destruct (IH (u32 (i * 10 + u32 (c - ch "0")))) as [H1 H2]. split; [exact H1|]. intros _. apply H2, u32_range.
Qed.

(** [number] from the first character. *)
Lemma number_digits f : peek f <> ch "*" -> number f = ([], skip _is_digit f).
Proof. destruct f as [|c r]; [reflexivity|]. cbn [peek number]. intros H%Z.eqb_neq. now rewrite H. Qed.

Lemma skip_none p f : f = [] \/ p (peek f) = false -> skip p f = f.
Proof. destruct f as [|c r]; [reflexivity|]. intros [[=]|H]. rewrite skip_cons. cbn [peek] in H. now rewrite H. Qed.

Lemma peek_cons f c : c <> 0 -> peek f = c -> exists r, f = c :: r.
Proof. destruct f as [|d r]; cbn [peek]; [congruence|]. intros _ ->. eauto. Qed.

Lemma takes_width flags f :
  takes (fst (number f)) (fun '(_, w, g) => 0 <= w /\ g = snd (number f)) (parse_width flags f).
Proof.
  unfold parse_width. destruct (decide (peek f = ch "*")) as [Es|Es].
  { destruct (peek_cons f (ch "*") ltac:(easy) Es) as [r ->]. cbn [number peek fst snd].
    change (_is_digit (ch "*")) with false. rewrite Z.eqb_refl. cbn [fst snd].
    eapply takes_bind_r; [apply takes_int|]. intros w _. eapply takes_bind_l; [apply takes_next|]. intros g <-.
    apply takes_ret. destruct (w <? 0); split; try apply u32_range; reflexivity. }
  rewrite (number_digits f Es). cbn [fst snd]. destruct (_is_digit (peek f)) eqn:Ed.
  - destruct (_atoi_skip 0 f) as [H1 H2]. destruct (_atoi 0 f) as [w g]. apply takes_ret.
    split; [now apply H2|exact H1].
  - rewrite (proj2 (Z.eqb_neq _ _) Es). apply takes_ret. split; [lia|]. rewrite skip_none; auto.
Qed.

Lemma takes_precision flags f :
  takes (fst (dot_number f)) (fun '(_, _, g) => g = snd (dot_number f)) (parse_precision flags f).
Proof.
  unfold parse_precision. destruct (peek f =? ch ".") eqn:Ep.
  - apply Z.eqb_eq in Ep. destruct (peek_cons f (ch ".") ltac:(easy) Ep) as [r ->].
    cbn [dot_number]. rewrite Z.eqb_refl. eapply takes_bind_l; [apply takes_next|]. intros g <-.
    destruct (decide (peek r = ch "*")) as [Es|Es].
    { destruct (peek_cons r (ch "*") ltac:(easy) Es) as [r' ->]. cbn [number peek fst snd].
      change (_is_digit (ch "*")) with false. rewrite Z.eqb_refl. cbn [fst snd].
      eapply takes_bind_r; [apply takes_int|]. intros w _. eapply takes_bind_l; [apply takes_next|]. intros g <-.
      now apply takes_ret. }
    rewrite (number_digits r Es). cbn [fst snd]. destruct (_is_digit (peek r)) eqn:Ed.
    + destruct (_atoi_skip 0 r) as [H1 _]. destruct (_atoi 0 r) as [w g]. now apply takes_ret.
    + rewrite (proj2 (Z.eqb_neq _ _) Es). apply takes_ret. rewrite skip_none; auto.
  - destruct f as [|c r]; [now apply takes_ret|]. cbn [dot_number peek] in *. rewrite Ep. now apply takes_ret.
Qed.

Lemma takes_length flags f :
  takes [] (fun '(_, g) => g = length_modifier f) (parse_length flags f).
Proof.
  unfold parse_length. cbv zeta. destruct f as [|c r]; [now apply takes_ret|]. cbn [peek length_modifier].
  destruct (c =? ch "l") eqn:El; [|destruct (c =? ch "h") eqn:Eh]; cbn [orb]; zbool.
  1, 2: eapply takes_bind_l; [apply takes_next|]; intros g <-; subst c; destruct r as [|d r'];
    [now apply takes_ret|]; cbn [peek]; destruct (d =? _);
    [eapply takes_bind_l; [apply takes_next|]; intros g <-|]; now apply takes_ret.
  unfold is_one_of. cbn [str existsb]. rewrite orb_false_r, orb_assoc.
  destruct (_ || _); [|now apply takes_ret]. eapply takes_bind_l; [apply takes_next|]. intros g <-. now apply takes_ret.
Qed.

(** The slots and the rest of a conversion. *)
Definition conversion_wants (f : list Z) : option (list slot * list Z) :=
  match f with
  | c :: r =>
      if is_one_of c (str "diuxXobcp") then Some ([WInt], r)
      else if c =? ch "s" then Some ([WStr], r)
      else if is_one_of c (str "fFeEgG") then None
      else if c =? ch "U" then Some ([], f)
      else Some ([], r)
  | [] => None
  end.

Lemma is_one_of_split c a b : is_one_of c (a ++ b) = is_one_of c a || is_one_of c b.
Proof. apply existsb_app. Qed.

Lemma is_one_of_single c d : is_one_of c [d] = (c =? d).
Proof. unfold is_one_of. cbn. apply orb_false_r. Qed.

Lemma takes_conversion precision width flags f ks g :
  0 <= width -> conversion_wants f = Some (ks, g) ->
  takes ks (fun '(_, g') => g' = g) (conversion precision width flags f).
Proof.
  intros Hw Hf. destruct f as [|c r]; [discriminate|]. cbn [conversion_wants] in Hf. unfold conversion. cbv zeta.
  cbn [peek]. change (str "diuxXobcp") with (str "diuxXob" ++ str "c" ++ str "p") in Hf.
  change (str "fFeEgG") with (str "fF" ++ str "eEgG") in Hf.
  rewrite !is_one_of_split in Hf. change (str "c") with [ch "c"] in Hf. change (str "p") with [ch "p"] in Hf.
  rewrite !is_one_of_single in Hf.
  assert (Hnext : forall out : list Z, takes [] (fun '(_, g') => g' = r) (h ← next (c :: r); mret (out, h))).
  { intros out. eapply takes_bind_l; [apply takes_next|]. intros h <-. now apply takes_ret. }
  destruct (is_one_of c (str "diuxXob")); cbn [orb] in Hf.
  { injection Hf as <- <-. eapply takes_bind_r; [now apply takes_conv_int|]. auto. }
  destruct (c =? ch "c") eqn:Ec; zbool.
  { subst c. cbn in Hf. injection Hf as <- <-. change (is_one_of (ch "c") (str "fF")) with false.
    change (is_one_of (ch "c") (str "eEgG")) with false. cbv iota. eapply takes_bind_r; [|auto].
    unfold conv_char. eapply takes_bind_r; [apply takes_int|]. intros ? _. now apply (takes_ret (fun _ => True)). }
  destruct (c =? ch "p") eqn:Ep; zbool.
  { subst c. cbn in Hf. injection Hf as <- <-. change (is_one_of (ch "p") (str "fF")) with false.
    change (is_one_of (ch "p") (str "eEgG")) with false. change (ch "p" =? ch "s") with false. cbv iota.
    eapply takes_bind_r; [apply takes_ulong|]. intros v Hv.
    eapply takes_bind_r; [apply (takes_ntoa v); cbv beta in Hv; lia|]. auto. }
  cbn [orb] in Hf. destruct (c =? ch "s") eqn:Es; zbool.
  { subst c. injection Hf as <- <-. change (is_one_of (ch "s") (str "fF")) with false.
    change (is_one_of (ch "s") (str "eEgG")) with false. cbv iota. eapply takes_bind_r; [|auto].
    unfold conv_string. eapply takes_bind_r; [apply takes_string|].
    intros [] _; now apply (takes_ret (fun _ => True)). }
  destruct (is_one_of c (str "fF")); [discriminate|]. destruct (is_one_of c (str "eEgG")); [discriminate|].
  cbn [orb] in Hf. destruct (c =? ch "U"); injection Hf as <- <-; [now apply takes_ret|apply Hnext].
Qed.

(** A directive in parts. *)
Lemma directive_parts f ks g :
  directive f = Some (ks, g) ->
  let f1 := skip (fun c => is_one_of c (str "0-+ #")) f in
  let f2 := snd (number f1) in
  exists ks', conversion_wants (length_modifier (snd (dot_number f2))) = Some (ks', g) /\
    ks = fst (number f1) ++ fst (dot_number f2) ++ ks'.
Proof.
  unfold directive. cbv zeta. destruct (number _) as [k1 f2]. cbn [fst snd].
  destruct (dot_number f2) as [k2 f3]. cbn [fst snd]. destruct (length_modifier f3) as [|c r]; [discriminate|].
  cbn [conversion_wants]. repeat match goal with |- context [if ?b then _ else _] => destruct b end;
    try discriminate; injection 1 as <- <-; eexists; (split; [reflexivity|]); rewrite ?app_nil_r; reflexivity.
Qed.

Lemma takes_directive f ks g :
  directive f = Some (ks, g) -> takes ks (fun '(_, g') => g' = g) (format_step (ch "%" :: f)).
Proof.
  intros (ks' & Hc & ->)%directive_parts. unfold format_step. cbn [peek]. rewrite Z.eqb_refl. cbn [negb].
  eapply takes_bind_l; [apply takes_next|]. intros f0 <-. rewrite <- (parse_flags_skip 0 f) in *.
  destruct (parse_flags 0 f) as [fl f1]. cbn [snd] in *.
  eapply takes_bind; [apply takes_width|]. intros [[fl2 w] f2] [Hw ->].
  eapply takes_bind; [apply takes_precision|]. intros [[fl3 pr] f3] ->.
  eapply takes_bind_l; [apply takes_length|]. intros [fl4 f4] ->. now apply takes_conversion.
Qed.

(** Every directive takes its "%" off the format at least. *)
Lemma directive_length f ks g : directive f = Some (ks, g) -> (length g <= length f)%nat.
Proof.
  intros (ks' & Hc & _)%directive_parts.
  assert (Hn : forall h, (length (snd (number h)) <= length h)%nat).
  { intros [|c r]; [easy|]. unfold number. destruct (_ =? _); [cbn; lia|apply skip_length]. }
  pose proof (skip_length (fun c => is_one_of c (str "0-+ #")) f) as H1. set (f1 := skip _ f) in *.
  pose proof (Hn f1) as H2. set (f2 := snd (number f1)) in *.
  assert (H3 : (length (snd (dot_number f2)) <= length f2)%nat).
  { destruct f2 as [|c r]; [easy|]. unfold dot_number. destruct (_ =? _); [|easy]. specialize (Hn r). cbn. lia. }
  set (f3 := snd (dot_number f2)) in *.
  assert (H4 : (length (length_modifier f3) <= length f3)%nat).
  { destruct f3 as [|c [|d r]]; cbn [length_modifier]; [easy|repeat zif; cbn; lia..]. }
  destruct (length_modifier f3) as [|c r]; [discriminate|]. cbn [conversion_wants] in Hc.
  repeat match type of Hc with context [if ?b then _ else _] => destruct b end;
    simplify_eq; cbn [length] in *; lia.
Qed.

Lemma takes_loop format ks :
  wants format ks -> forall out fuel, (length format < fuel)%nat ->
  takes ks (fun _ => True) (sloop fuel (fun '(format, out) =>
    match format with
    | [] => mret (Break out)
    | _ => '(o, format) ← format_step format; mret (Next (format, out ++ o))
    end) (format, out)).
Proof.
  induction 1 as [|c f ks Hc _ IH|f ks f' ks' Hd _ IH]; intros out [|fuel] Hf; try lia; cbn [sloop length] in *.
  - eapply takes_bind_l; [now apply takes_ret with (Q := eq (Break out))|]. intros ? <-. now apply takes_ret.
  - eapply (takes_bind_l _ (fun x => exists o, x = Next (f, out ++ o))); [|intros ? [o ->]; apply IH; lia].
    eapply (takes_bind_l _ (fun '(_, g) => g = f)); [|intros [o g] ->; apply takes_ret; eauto].
    unfold format_step. cbn [peek]. rewrite (proj2 (Z.eqb_neq _ _) Hc). cbn [negb].
    eapply takes_bind_l; [apply takes_next|]. intros g <-. now apply takes_ret.
  - pose proof (directive_length _ _ _ Hd).
    eapply (takes_bind _ _ (fun x => exists o, x = Next (f', out ++ o))); [|intros ? [o ->]; apply IH; lia].
    eapply takes_bind_r; [exact (takes_directive _ _ _ Hd)|]. intros [o g] ->. apply takes_ret. eauto.
Qed.

(** ** Literal text *)

Lemma vsnprintf_literal_loop s out fuel va :
  Forall (fun c => c <> ch "%") s -> (length s < fuel)%nat ->
  sloop fuel (fun '(format, out) =>
    match format with
    | [] => mret (Break out)
    | _ => '(o, format) ← format_step format; mret (Next (format, out ++ o))
    end) (s, out) va = Done (out ++ s) va.
Proof.
  intros Hs. revert out fuel. induction Hs as [|c s Hc _ IH]; intros out fuel Hf.
  - destruct fuel; [lia|]. now rewrite app_nil_r.
  - destruct fuel as [|fuel]; [lia|]. cbn [sloop]. cbn [length] in Hf.
    assert (E : format_step (c :: s) va = Done ([c], s) va)
      by (unfold format_step; cbn [peek]; now rewrite (proj2 (Z.eqb_neq _ _) Hc)).
    erewrite swp_done by (erewrite (swp_done (format_step _)) by exact E; reflexivity).
    cbv iota beta. rewrite IH by lia. now rewrite <- app_assoc.
Qed.

Lemma vsnprintf_literal s va :
  Forall (fun c => c <> ch "%") s -> _vsnprintf s va = Done s va.
Proof. intros Hs. unfold _vsnprintf. now rewrite vsnprintf_literal_loop by (auto; lia). Qed.

Lemma filter_chars s : Forall is_char s -> List.filter (fun c => negb (c =? 0)) s = s.
Proof.
  induction 1 as [|c s Hc _ IH]; [reflexivity|]. cbn [List.filter]. unfold is_char in Hc.
  rewrite (proj2 (Z.eqb_neq _ _)) by lia. cbn [negb]. now f_equal.
Qed.

(** ** Claims *)

(** C6: The bound of [snprintf].  Whatever the engine puts out, at most [count]
    bytes of the buffer change: they hold the characters that fit and a
    terminator.  With [count] zero nothing is written.  The result is the
    length of the untruncated output, and only the bytes the call writes need
    to be mapped. *)
Theorem snprintf_bounded format va va' w buffer count m :
  _vsnprintf format va = Done w va' -> buffer <> 0 -> 0 <= count < 2 ^ 64 ->
  mapped m buffer (Z.min count (len_of w + 1)) ->
  snprintf buffer count format va m =
  Ok (s32 (len_of w))
     (if count =? 0 then m else write m buffer ((u8 <$> take (Z.to_nat (count - 1)) w) ++ [0])).
Proof. apply vsnprintf_spec. Qed.

Definition demo_buffer : mem := block 4096 (replicate 32 255).

Lemma snprintf_bounded_witness :
  snprintf 4096 6 (str "%s=%x;") [AStr (Some (str "key")); AInt 48879] demo_buffer =
  Ok 9 (write demo_buffer 4096 (str "key=b" ++ [0])).
Proof.
  apply (snprintf_bounded _ _ [] (str "key=beef;")); [vm_compute; reflexivity|lia|lia|].
  apply mapped_block; vm_compute; discriminate.
Defined.

(** C7: Printing an [int] with "%d" into a buffer of 22 bytes and reading the
    text back with [atoi] gives the number, for every [int]; the text is a C
    string and [sprintf] returns its length. *)
Theorem sprintf_atoi_round_trip v buffer m :
  -2 ^ 31 <= v < 2 ^ 31 -> buffer <> 0 -> mapped m buffer 22 ->
  exists text m', sprintf buffer (str "%d") [AInt v] m = Ok (len_of text) m' /\
    cstr m' buffer text /\ atoi buffer m' = Ok v m'.
Proof.
  intros Hv Hb Hm. destruct (printf_d_spec v Hv) as (text & E & Hc & Hl & Hval).
  assert (Hlen : 0 < len_of text <= 21) by (unfold len_of; lia).
  exists text, (write m buffer (text ++ [0])).
  assert (Hs : cstr (write m buffer (text ++ [0])) buffer text) by now apply cstr_write.
  split; [|split; [exact Hs|]].
  - unfold sprintf. change (u64 (-1)) with 18446744073709551615.
    rewrite (vsnprintf_spec _ _ _ _ _ _ _ E Hb) by (lia || (eapply mapped_sub; [exact Hm|lia|lia])).
    change (18446744073709551615 =? 0) with false. cbv iota. rewrite s32_small by lia.
    rewrite take_ge by (unfold len_of in Hlen; lia). now rewrite u8_chars.
  - rewrite (atoi_spec _ _ _ Hs), Hval, s32_small by lia. reflexivity.
Qed.

Lemma sprintf_atoi_round_trip_witness :
  exists text m', sprintf 4096 (str "%d") [AInt (-2147483648)] demo_buffer = Ok (len_of text) m' /\
    cstr m' 4096 text /\ atoi 4096 m' = Ok (-2147483648) m'.
Proof.
  apply sprintf_atoi_round_trip; [lia|lia|]. apply mapped_block; vm_compute; discriminate.
Defined.

(** C8: Totality of the engine.  On every complete format, whatever its flags,
    widths, precisions, length modifiers and characters that are no
    conversions, and with an argument of the right kind for every star and
    every directive, [_vsnprintf] returns: it neither faults nor runs on, and
    it takes exactly those arguments off the [va_list], whatever follows them.
    A format that ends inside a directive is not complete, there the code
    steps over the terminator; and the conversions of doubles are left out. *)
Theorem vsnprintf_total format ks va va' :
  wants format ks -> Forall2 fits ks va ->
  exists out, _vsnprintf format (va ++ va') = Done out va'.
Proof.
  intros Hw Hva. destruct (takes_loop format ks Hw [] (S (length format)) ltac:(lia) va va' Hva) as (out & E & _).
  exists out. exact E.
Qed.

Lemma vsnprintf_total_witness :
  exists out, _vsnprintf (str "%-+5.3hhd|%*s%U%%%.*llx") ([AInt 300; AInt 7; AStr None; AInt 2; AInt 9] ++ [AInt 1])
              = Done out [AInt 1].
Proof.
  apply (vsnprintf_total _ ([WInt] ++ [WInt; WStr] ++ [] ++ [] ++ [WInt; WInt] ++ [])).
  - apply wants_directive with (f' := str "|%*s%U%%%.*llx"); [reflexivity|]. apply wants_char; [easy|].
    apply wants_directive with (f' := str "%U%%%.*llx"); [reflexivity|].
    apply wants_directive with (f' := str "U%%%.*llx"); [reflexivity|]. apply wants_char; [easy|].
    apply wants_directive with (f' := str "%.*llx"); [reflexivity|].
    apply wants_directive with (f' := []); [reflexivity|]. apply wants_end.
  - repeat constructor.
Defined.

(** A format without directives is printed as it is.  [printf] hands the
    text to the standard output and drops the terminator; [fprintf] hands the
    terminator to the stream as well, one zero byte after the text. *)
Lemma printf_fprintf_literal s va :
  Forall is_char s -> Forall (fun c => c <> ch "%") s ->
  printf s va = Done (s, s32 (len_of s)) va /\ fprintf s va = Done (s ++ [0], s32 (len_of s)) va.
Proof.
  intros Hc Hs. unfold printf, fprintf, vsnfprintf. split; (erewrite swp_done; [|now apply vsnprintf_literal]).
  - unfold out_char_all. rewrite List.filter_app, filter_chars by exact Hc. cbn. now rewrite app_nil_r.
  - reflexivity.
Qed.

Lemma printf_fprintf_literal_witness :
  printf (str "ok") [] = Done (str "ok", 2) [] /\ fprintf (str "ok") [] = Done ([111; 107; 0], 2) [].
Proof. apply (printf_fprintf_literal (str "ok") []); repeat constructor; discriminate. Defined.
