(* ===== verification/Allocator.v ===== *)
(** * The allocator as the rest of the C library sees it

    [Allocator] states what malloc, free, realloc and plain loads and stores
    promise to their callers; the components that allocate (streams, exit
    handlers) are proved against it.  [liballoc] discharges it with the model of
    liballoc.c. *)

From S2P Require Import Prelude CMem State Alloc AllocSpec AllocMalloc AllocFree AllocProps.

Class Allocator (H : Type) := {
  al_malloc : Z -> SM H Z;
  al_free : Z -> SM H unit;
  al_realloc : Z -> Z -> SM H Z;
  al_load : Z -> SM H Z;
  al_store : Z -> Z -> SM H unit;
  (** The blocks a program holds, address and size, and the bytes in them.
      Blocks lie above the static objects. *)
  al_holds : H -> list (Z * Z) -> Prop;
  al_byte : H -> Z -> Z;
  al_keeps (h h' : H) (L : list (Z * Z)) : Prop :=
    forall q s x, (q, s) ∈ L -> q <= x < q + s -> al_byte h' x = al_byte h x;
  al_perm h L L' : L ≡ₚ L' -> al_holds h L -> al_holds h L';
  al_apart h L1 p n L2 : al_holds h (L1 ++ (p, n) :: L2) ->
    p mod 16 = 0 /\ 64 < p /\ forall q s, (q, s) ∈ L1 ++ L2 -> p + n <= q \/ q + s <= p;
  al_malloc_ok h L n : al_holds h L -> 0 <= n <= 2 ^ 32 - 4208 ->
    exists p h', al_malloc n h = Done p h' /\ al_keeps h h' L /\
      (p = 0 /\ al_holds h' L \/ 0 < p /\ al_holds h' ((p, n) :: L));
  al_free_ok h L1 p n L2 : al_holds h (L1 ++ (p, n) :: L2) ->
    exists h', al_free p h = Done tt h' /\ al_holds h' (L1 ++ L2) /\ al_keeps h h' (L1 ++ L2);
  al_realloc_ok h L1 p r L2 n : al_holds h (L1 ++ (p, r) :: L2) -> 0 < n <= 2 ^ 32 - 4208 ->
    n <= r \/ (exists p1 h1, al_malloc n h = Done p1 h1 /\ p1 <> 0) ->
    exists q h', al_realloc p n h = Done q h' /\ al_holds h' ((q, n) :: L1 ++ L2) /\
      al_keeps h h' (L1 ++ L2) /\ (forall i, 0 <= i < Z.min n r -> al_byte h' (q + i) = al_byte h (p + i));
  al_load_ok h L p n x : al_holds h L -> (p, n) ∈ L -> p <= x < p + n -> al_load x h = Done (al_byte h x) h;
  al_store_ok h L p n x v : al_holds h L -> (p, n) ∈ L -> p <= x < p + n ->
    exists h', al_store x v h = Done tt h' /\ al_holds h' L /\
      forall y, al_byte h' y = if y =? x then u8 v else al_byte h y }.

(** ** liballoc.c implements it *)

Section liballoc.
Context (mmap : gmap Z Z -> Z -> Z).
Hypothesis Hmmap : mmap_spec mmap.

Lemma holds_malloc h L n :
  holds h L -> 0 <= n <= 2 ^ 32 - 4208 ->
  exists p h', malloc mmap n h = Done p h' /\ keeps_blocks h h' L /\
    (p = 0 /\ holds h' L \/ 0 < p /\ holds h' ((p, n) :: L)).
Proof.
  intros (bs & Hi & Hb) Hn.
  destruct (proj1 (swp_ok _ _ _) (malloc_spec mmap n Hmmap Hn h bs Hi)) as (p & h' & E & Hpost).
  exists p, h'. split; [exact E|].
  destruct Hpost as [(-> & Hi' & Hd)|(bs' & c & Hins & Hq & -> & Hi' & Hf)].
  - split; [intros q s x _ _; unfold byte_at; now rewrite Hd|]. left. split; [reflexivity|]. exists bs. auto.
  - pose proof (inserted_live _ _ _ Hins) as Hl. assert (Hc : c ∈ live bs') by (rewrite Hl; left).
    destruct (live_region h' bs' Hi' c Hc) as (mj & rr & _ & Hu1 & Hu2 & _). split.
    + apply (keeps_keeps_blocks h h' (live bs)); [|exact Hb]. intros c' x Hc' Hx. unfold byte_at.
      rewrite Hf; [reflexivity|].
      eapply (chunks_apart_user (data h') (live bs') c' c); [|apply (live_ok h' bs' Hi')| | |exact Hx|now left].
      * apply (core_live_apart h'), Hi'.
      * rewrite Hl. now right.
      * exact Hc.
    + right. split; [lia|]. exists bs'. split; [exact Hi'|]. rewrite Hl. cbn [fmap list_fmap]. rewrite <- Hb.
      unfold user_block at 1. now rewrite Hq.
Qed.

Lemma holds_free h L1 p r L2 :
  holds h (L1 ++ (p, r) :: L2) ->
  exists h', free p h = Done tt h' /\ holds h' (L1 ++ L2) /\ keeps_blocks h h' (L1 ++ L2).
Proof.
  intros (bs & Hi & Hb). destruct (held_chunk _ _ _ _ _ Hb) as (c & rest & Hin & <- & <- & Hrest & Hmap).
  destruct (proj1 (swp_ok _ _ _) (free_live_spec h bs c Hi Hin)) as ([] & h' & E & bs' & Hi' & Hl & Hk).
  exists h'. split; [exact E|]. rewrite Hrest in Hl. apply Permutation_cons_inv in Hl. split.
  - exists bs'. split; [exact Hi'|]. now rewrite <- Hl.
  - apply (keeps_keeps_blocks h h' (live bs')); [exact Hk|]. now rewrite <- Hl.
Qed.

Lemma holds_realloc h L1 p r L2 n :
  holds h (L1 ++ (p, r) :: L2) -> 0 < n <= 2 ^ 32 - 4208 ->
  n <= r \/ (exists p1 h1, malloc mmap n h = Done p1 h1 /\ p1 <> 0) ->
  exists q h', realloc mmap p n h = Done q h' /\ holds h' ((q, n) :: L1 ++ L2) /\
    keeps_blocks h h' (L1 ++ L2) /\ (forall i, 0 <= i < Z.min n r -> byte_at h' (q + i) = byte_at h (p + i)).
Proof.
  intros (bs & Hi & Hb) Hn Hcase.
  destruct (held_chunk _ _ _ _ _ Hb) as (c & rest & Hin & Ep & Er & Hrest & Hmap). subst p r.
  destruct (proj1 (swp_ok _ _ _) (realloc_spec mmap n Hmmap Hn h bs c Hi Hin Hcase)) as
    (q & h' & E & bs' & c' & rest' & Hi' & -> & Hq & Hl1 & Hl2 & Hk & Hbytes).
  exists (uptr c'), h'. split; [exact E|]. rewrite Hrest in Hl1. apply Permutation_cons_inv in Hl1. split; [|split].
  - exists bs'. split; [exact Hi'|]. rewrite Hl2. cbn [fmap list_fmap]. unfold user_block at 1. rewrite Hq.
    now rewrite <- Hl1, Hmap.
  - apply (keeps_keeps_blocks h h' rest'); [exact Hk|]. now rewrite <- Hl1.
  - exact Hbytes.
Qed.

Lemma holds_load h L p n x :
  holds h L -> (p, n) ∈ L -> p <= x < p + n -> ld_byte x h = Done (byte_at h x) h.
Proof.
  intros (bs & Hi & Hb) (L1 & L2 & ->)%list_elem_of_split Hx.
  destruct (held_chunk _ _ _ _ _ Hb) as (c & rest & Hc & <- & <- & _).
  destruct (live_region h bs Hi c Hc) as (m & r & E & R1 & R2 & R3).
  unfold ld_byte, sopt. rewrite (in_region_intro h m r x 1) by (auto; lia). reflexivity.
Qed.

Lemma holds_store h L p n x v :
  holds h L -> (p, n) ∈ L -> p <= x < p + n ->
  exists h', st_byte x v h = Done tt h' /\ holds h' L /\
    forall y, byte_at h' y = if y =? x then u8 v else byte_at h y.
Proof.
  intros (bs & Hi & Hb) (L1 & L2 & ->)%list_elem_of_split Hx.
  destruct (held_chunk _ _ _ _ _ Hb) as (c & rest & Hc & <- & <- & _).
  destruct (store_user h bs c x v Hi Hc Hx) as [E Hi']. eexists. split; [exact E|]. split; [exists bs; auto|].
  intros y. unfold byte_at, with_data. cbn [data write]. destruct (y =? x) eqn:Ey; zbool.
  - subst. now rewrite lookup_insert_eq.
  - now rewrite lookup_insert_ne by auto.
Qed.

Lemma holds_above h L1 p n L2 :
  holds h (L1 ++ (p, n) :: L2) ->
  p mod 16 = 0 /\ 64 < p /\ forall q s, (q, s) ∈ L1 ++ L2 -> p + n <= q \/ q + s <= p.
Proof.
  intros Hh. destruct (holds_apart _ _ _ _ _ Hh) as (H1 & _ & H3). split; [exact H1|]. split; [|exact H3].
  destruct Hh as (bs & Hi & Hb). destruct (held_chunk _ _ _ _ _ Hb) as (c & rest & Hc & <- & _).
  destruct (core_live_ok h bs c (hi_core _ _ Hi) Hc) as (_ & _ & _ & m & r & _ & K1 & K2 & _).
  pose proof (uptr_bounds c). lia.
Qed.

Lemma holds_perm h L L' : L ≡ₚ L' -> holds h L -> holds h L'.
Proof. intros E (bs & Hi & Hb). exists bs. split; [exact Hi|]. now rewrite <- E. Qed.

#[refine] Definition liballoc : Allocator heap := {|
  al_malloc := malloc mmap; al_free := free; al_realloc := realloc mmap;
  al_load := ld_byte; al_store := st_byte; al_holds := holds; al_byte := byte_at |}.
Proof.
  - apply holds_perm.
  - apply holds_above.
  - apply holds_malloc.
  - apply holds_free.
  - apply holds_realloc.
  - apply holds_load.
  - apply holds_store.
Defined.
End liballoc.
