(* ===== verification/Stdio.v ===== *)
(** * libc/src/stdio/stdio.c: streams

    A FILE is a record keyed by its address.  Its [buffer] is the array the
    pointer designates (the one inside the object, a static one or one given
    with setvbuf); indexing it out of range is a fault.  The function pointers
    are null or the [_stdio_] functions of the file, so they are booleans.  The
    kernel is a parameter: it answers a request from the history of requests and
    answers so far, which the state records. *)

From S2P Require Import Prelude CMem State Allocator Double Printf.
Import (notations) Ascii String.

(** ** Data *)

Record FILE := File {
  f_fd : Z;
  f_next : Z;
  f_prev : Z;
  f_flags : Z;
  f_eof : Z;
  f_pos : Z;
  f_close : bool;
  f_read : bool;
  f_write : bool;
  f_seek : bool;
  f_lock : Z;
  f_buffered : Z;
  f_bufrole : Z;
  f_bufbase : Z;
  f_buf_len : Z;
  f_buf_cap : Z;
  f_buffer : option (list Z);
  f_flock : Z }.

Definition set_fd v (f : FILE) : FILE :=
  File v (f_next f) (f_prev f) (f_flags f) (f_eof f) (f_pos f) (f_close f) (f_read f) (f_write f) (f_seek f) (f_lock f) (f_buffered f) (f_bufrole f) (f_bufbase f) (f_buf_len f) (f_buf_cap f) (f_buffer f) (f_flock f).
Definition set_next v (f : FILE) : FILE :=
  File (f_fd f) v (f_prev f) (f_flags f) (f_eof f) (f_pos f) (f_close f) (f_read f) (f_write f) (f_seek f) (f_lock f) (f_buffered f) (f_bufrole f) (f_bufbase f) (f_buf_len f) (f_buf_cap f) (f_buffer f) (f_flock f).
Definition set_prev v (f : FILE) : FILE :=
  File (f_fd f) (f_next f) v (f_flags f) (f_eof f) (f_pos f) (f_close f) (f_read f) (f_write f) (f_seek f) (f_lock f) (f_buffered f) (f_bufrole f) (f_bufbase f) (f_buf_len f) (f_buf_cap f) (f_buffer f) (f_flock f).
Definition set_flags v (f : FILE) : FILE :=
  File (f_fd f) (f_next f) (f_prev f) v (f_eof f) (f_pos f) (f_close f) (f_read f) (f_write f) (f_seek f) (f_lock f) (f_buffered f) (f_bufrole f) (f_bufbase f) (f_buf_len f) (f_buf_cap f) (f_buffer f) (f_flock f).
Definition set_eof v (f : FILE) : FILE :=
  File (f_fd f) (f_next f) (f_prev f) (f_flags f) v (f_pos f) (f_close f) (f_read f) (f_write f) (f_seek f) (f_lock f) (f_buffered f) (f_bufrole f) (f_bufbase f) (f_buf_len f) (f_buf_cap f) (f_buffer f) (f_flock f).
Definition set_pos v (f : FILE) : FILE :=
  File (f_fd f) (f_next f) (f_prev f) (f_flags f) (f_eof f) v (f_close f) (f_read f) (f_write f) (f_seek f) (f_lock f) (f_buffered f) (f_bufrole f) (f_bufbase f) (f_buf_len f) (f_buf_cap f) (f_buffer f) (f_flock f).
Definition set_buffered v (f : FILE) : FILE :=
  File (f_fd f) (f_next f) (f_prev f) (f_flags f) (f_eof f) (f_pos f) (f_close f) (f_read f) (f_write f) (f_seek f) (f_lock f) v (f_bufrole f) (f_bufbase f) (f_buf_len f) (f_buf_cap f) (f_buffer f) (f_flock f).
Definition set_bufrole v (f : FILE) : FILE :=
  File (f_fd f) (f_next f) (f_prev f) (f_flags f) (f_eof f) (f_pos f) (f_close f) (f_read f) (f_write f) (f_seek f) (f_lock f) (f_buffered f) v (f_bufbase f) (f_buf_len f) (f_buf_cap f) (f_buffer f) (f_flock f).
Definition set_buf_len v (f : FILE) : FILE :=
  File (f_fd f) (f_next f) (f_prev f) (f_flags f) (f_eof f) (f_pos f) (f_close f) (f_read f) (f_write f) (f_seek f) (f_lock f) (f_buffered f) (f_bufrole f) (f_bufbase f) v (f_buf_cap f) (f_buffer f) (f_flock f).
Definition set_buf_cap v (f : FILE) : FILE :=
  File (f_fd f) (f_next f) (f_prev f) (f_flags f) (f_eof f) (f_pos f) (f_close f) (f_read f) (f_write f) (f_seek f) (f_lock f) (f_buffered f) (f_bufrole f) (f_bufbase f) (f_buf_len f) v (f_buffer f) (f_flock f).
Definition set_buffer v (f : FILE) : FILE :=
  File (f_fd f) (f_next f) (f_prev f) (f_flags f) (f_eof f) (f_pos f) (f_close f) (f_read f) (f_write f) (f_seek f) (f_lock f) (f_buffered f) (f_bufrole f) (f_bufbase f) (f_buf_len f) (f_buf_cap f) v (f_flock f).
Definition set_flock v (f : FILE) : FILE :=
  File (f_fd f) (f_next f) (f_prev f) (f_flags f) (f_eof f) (f_pos f) (f_close f) (f_read f) (f_write f) (f_seek f) (f_lock f) (f_buffered f) (f_bufrole f) (f_bufbase f) (f_buf_len f) (f_buf_cap f) (f_buffer f) v.
Definition set_lock v (f : FILE) : FILE :=
  File (f_fd f) (f_next f) (f_prev f) (f_flags f) (f_eof f) (f_pos f) (f_close f) (f_read f) (f_write f) (f_seek f) v (f_buffered f) (f_bufrole f) (f_bufbase f) (f_buf_len f) (f_buf_cap f) (f_buffer f) (f_flock f).

(** System calls: [ROpen path flags], [RRead fd n], [RWrite fd bytes],
    [RClose fd], [RLseek fd offset whence]. *)
Inductive request :=
| ROpen (path : list Z) (flags : Z)
| RRead (fd n : Z)
| RWrite (fd : Z) (bytes : list Z)
| RClose (fd : Z)
| RLseek (fd offset whence : Z).

(** A request, the number the kernel answered and the bytes it delivered. *)
Abbreviation event := (request * (Z * list Z))%type.

Record world (H : Type) := World {
  w_heap : H;
  w_files : gmap Z FILE;
  w_ofl_head : Z;
  w_errno : Z;
  w_log : list event }.
Arguments World {H} _ _ _ _ _.
Arguments w_heap {H} _.
Arguments w_files {H} _.
Arguments w_ofl_head {H} _.
Arguments w_errno {H} _.
Arguments w_log {H} _.

Definition BUFSIZ : Z := 1024.
Definition EOF : Z := -1.
Definition UNGET : Z := 8.
Definition F_SVB : Z := 64.
Definition BUFROLE_NONE : Z := 0.
Definition BUFROLE_WRITE : Z := 1.
Definition _IOFBF : Z := 0.
Definition _IONBF : Z := 2.
Definition EINVAL : Z := 22.
Definition ENOTIMPL : Z := 134.
Definition SEEK_SET : Z := 0.
Definition SEEK_CUR : Z := 1.
Definition sizeof_FILE : Z := 1136.

Definition zero_array (n : Z) : list Z := replicate (Z.to_nat n) 0.

(** The three static streams, at fixed addresses. *)
Definition stdin : Z := 16.
Definition stdout : Z := 32.
Definition stderr : Z := 48.
Definition _stdin : FILE :=
  File 0 0 0 0 0 0 false true false false 0 0 0 0 0 0 None 0.
Definition _stdout : FILE :=
  File 1 0 0 0 0 0 false false true false 0 1 0 0 0 BUFSIZ (Some (zero_array BUFSIZ)) 0.
Definition _stderr : FILE :=
  File 2 0 0 0 0 0 false false true false 0 1 0 0 0 BUFSIZ (Some (zero_array BUFSIZ)) 0.
Definition world0 {H} (h : H) : world H :=
  World h (<[stdin := _stdin]> (<[stdout := _stdout]> {[stderr := _stderr]})) 0 0 [].

(** An object of zeros. *)
Definition FILE0 : FILE := File 0 0 0 0 0 0 false false false false 0 0 0 0 0 0 None 0.

Section stdio.
Context {H : Type} `{Allocator H}.
(** The kernel's answer to a request after a history, and the text of an error
    number (a generated table). *)
Context (sys : list event -> request -> Z * list Z) (strerror : Z -> list Z).

Abbreviation W := (SM (world H)).

(** ** Access to the state *)

Definition get_file (fp : Z) : W FILE := sopt (fun w => w_files w !! fp).
Definition upd_file (fp : Z) (f : FILE -> FILE) : W unit := supd (fun w =>
  r ← w_files w !! fp;
  Some (World (w_heap w) (<[fp := f r]> (w_files w)) (w_ofl_head w) (w_errno w) (w_log w))).
Definition put_files (g : gmap Z FILE -> gmap Z FILE) : W unit := modify (fun w =>
  World (w_heap w) (g (w_files w)) (w_ofl_head w) (w_errno w) (w_log w)).
Definition set_head (v : Z) : W unit := modify (fun w =>
  World (w_heap w) (w_files w) v (w_errno w) (w_log w)).
Definition set_errno (v : Z) : W unit := modify (fun w =>
  World (w_heap w) (w_files w) (w_ofl_head w) v (w_log w)).

(** A call of the allocator. *)
Definition lift {A} (c : SM H A) : W A := fun w =>
  match c (w_heap w) with
  | Done a h => Done a (World h (w_files w) (w_ofl_head w) (w_errno w) (w_log w))
  | Fail => Fail
  | Spin => Spin
  end.

(** A system call. *)
Definition syscall (r : request) : W (Z * list Z) := fun w =>
  let a := sys (w_log w) r in
  Done a (World (w_heap w) (w_files w) (w_ofl_head w) (w_errno w) (w_log w ++ [(r, a)])).

Definition errno_wrap (res : Z) : W Z :=
  if res <? 0 then set_errno (s32 (- res));; mret (-1) else set_errno 0;; mret res.

Definition lseek (fd offset whence : Z) : W Z :=
  '(r, _) ← syscall (RLseek fd offset whence); errno_wrap r.

(** [__syscall_ret] of the descriptor. *)
Definition open (path : list Z) (flags : Z) : W Z :=
  '(r, _) ← syscall (ROpen path flags); errno_wrap (s32 r).

Definition hang {A} : W A := fun _ => Spin.

(** The spin lock of a stream: taken twice by the same thread it never opens. *)
Definition FLOCK (fp : Z) : W unit :=
  f ← get_file fp;
  upd_file fp (set_flock 1);;
  if f_flock f =? 0 then mret tt else hang.
Definition FUNLOCK (fp : Z) : W unit := upd_file fp (set_flock 0).

(** ** The open file list *)

Definition ofl_add (fp : Z) : W Z :=
  head ← gets w_ofl_head;
  upd_file fp (set_next head);;
  (if negb (head =? 0) then upd_file head (set_prev fp) else mret tt);;
  set_head fp;;
  mret fp.

Definition ofl_remove (fp : Z) : W unit :=
  f ← get_file fp;
  (if negb (f_prev f =? 0) then upd_file (f_prev f) (set_next (f_next f)) else mret tt);;
  f ← get_file fp;
  (if negb (f_next f =? 0) then upd_file (f_next f) (set_prev (f_prev f)) else mret tt);;
  head ← gets w_ofl_head;
  f ← get_file fp;
  if head =? fp then set_head (f_next f) else mret tt.

(** The zeroed object of [falloc]: a null [malloc] result faults in [memset]. *)
Definition falloc : W Z :=
  fp ← lift (al_malloc sizeof_FILE);
  (if fp =? 0 then sfail else put_files <[fp := FILE0]>);;
  upd_file fp (set_fd (-1));;
  upd_file fp (set_lock (-1));;
  upd_file fp (set_flock 0);;
  ofl_add fp.

Definition ffree (fp : Z) : W unit :=
  ofl_remove fp;;
  put_files (delete fp);;
  lift (al_free fp).

Definition fileno (fp : Z) : W Z :=
  if fp =? 0 then mret (-1) else f ← get_file fp; mret (f_fd f).

(** ** The functions behind the pointers *)

Definition _stdio_close (fp : Z) : W Z :=
  f ← get_file fp;
  '(r, _) ← syscall (RClose (f_fd f));
  errno_wrap r;;
  mret 0.

(** The bytes that reach [dst] and the count. *)
Definition _stdio_read (fp sz : Z) : W (Z * list Z) :=
  f ← get_file fp;
  if f_fd f =? -1 then mret (0, []) else
  '(r, bytes) ← syscall (RRead (f_fd f) sz);
  k ← errno_wrap r;
  mret (if k <? 0 then 0 else k, bytes).

(** The first [len] bytes of an array, which must have them. *)
Definition array_take (len : Z) (a : list Z) : W (list Z) :=
  if len <=? Z.of_nat (length a) then mret (take (Z.to_nat len) a) else sfail.
(** [memset(a, 0, n)]. *)
Definition array_clear (n : Z) (a : list Z) : W (list Z) :=
  if n <=? Z.of_nat (length a) then mret (zero_array n ++ drop (Z.to_nat n) a) else sfail.
(** [a[i] = c]. *)
Definition array_set (i c : Z) (a : list Z) : W (list Z) :=
  if (0 <=? i) && (i <? Z.of_nat (length a)) then mret (<[Z.to_nat i := u8 c]> a) else sfail.

Definition _stdio_flush_buffer (fp : Z) : W unit :=
  f ← get_file fp;
  if negb (f_buffered f =? 0) then
    match f_buffer f with
    | Some b =>
        if 0 <? f_buf_len f then
          bytes ← array_take (f_buf_len f) b;
          '(r, _) ← syscall (RWrite (f_fd f) bytes);
          errno_wrap r;;
          upd_file fp (set_buf_len 0);;
          b ← array_clear (f_buf_cap f) b;
          upd_file fp (set_buffer (Some b))
        else mret tt
    | None => mret tt
    end
  else mret tt.

(** One round of the copy loop: [buffer[buf_len++] = c], flush on a newline or
    when the buffer is full. *)
Definition put_byte (fp c : Z) : W unit :=
  f ← get_file fp;
  match f_buffer f with
  | None => sfail
  | Some b =>
      b ← array_set (f_buf_len f) c b;
      upd_file fp (fun f => set_buffer (Some b) (set_buf_len (f_buf_len f + 1) f));;
      f ← get_file fp;
      if (c =? ch "010") || (f_buf_len f =? f_buf_cap f) then _stdio_flush_buffer fp else mret tt
  end.

Fixpoint put_bytes (fp : Z) (src : list Z) : W unit :=
  match src with
  | [] => mret tt
  | c :: src' => put_byte fp c;; put_bytes fp src'
  end.

(** [src] is the [sz] bytes at the pointer. *)
Definition _stdio_write (fp : Z) (src : list Z) : W Z :=
  f ← get_file fp;
  if f_fd f =? -1 then mret 0 else
  match f_buffer f with
  | Some _ =>
      if negb (f_buffered f =? 0) then
        upd_file fp (set_bufrole BUFROLE_WRITE);;
        put_bytes fp src;;
        mret (Z.of_nat (length src))
      else
        '(r, _) ← syscall (RWrite (f_fd f) src);
        k ← errno_wrap r;
        mret (if k <? 0 then 0 else k)
  | None =>
      '(r, _) ← syscall (RWrite (f_fd f) src);
      k ← errno_wrap r;
      mret (if k <? 0 then 0 else k)
  end.

Definition _stdio_seek (fp offset whence : Z) : W Z :=
  f ← get_file fp;
  '(r, _) ← syscall (RLseek (f_fd f) offset whence);
  errno_wrap r.

(** ** Opening and closing *)

Definition O_RDONLY : Z := 0.
Definition O_WRONLY : Z := 1.
Definition O_RDWR : Z := 2.
Definition O_CREAT : Z := 64.
Definition O_TRUNC : Z := 512.
Definition O_APPEND : Z := 1024.

(** The table of [string_to_mode]. *)
Definition modes : list (list Z * Z) :=
  [(str "r", O_RDONLY); (str "rb", O_RDONLY);
   (str "w", Z.lor (Z.lor O_WRONLY O_CREAT) O_TRUNC); (str "wb", Z.lor (Z.lor O_WRONLY O_CREAT) O_TRUNC);
   (str "a", Z.lor (Z.lor O_WRONLY O_CREAT) O_APPEND); (str "ab", Z.lor (Z.lor O_WRONLY O_CREAT) O_APPEND);
   (str "r+", O_RDWR); (str "rb+", O_RDWR);
   (str "w+", Z.lor (Z.lor O_RDWR O_CREAT) O_TRUNC); (str "wb+", Z.lor (Z.lor O_RDWR O_CREAT) O_TRUNC);
   (str "a+", Z.lor (Z.lor O_RDWR O_CREAT) O_APPEND); (str "ab+", Z.lor (Z.lor O_RDWR O_CREAT) O_APPEND)].

Definition string_to_mode (mode : option (list Z)) : Z :=
  match mode with
  | None => -1
  | Some s => default (-1) (snd <$> find (fun '(t, _) => bool_decide (s = t)) modes)
  end.

Definition ftell (fp : Z) : W Z := f ← get_file fp; lseek (f_fd f) 0 SEEK_CUR.

Definition fdopen (fd : Z) (string_mode : option (list Z)) : W Z :=
  if string_to_mode string_mode =? -1 then set_errno EINVAL;; mret 0 else
  fp ← falloc;
  upd_file fp (set_fd fd);;
  pos ← ftell fp;
  upd_file fp (set_pos (s32 pos));;
  upd_file fp (fun f => File (f_fd f) (f_next f) (f_prev f) (f_flags f) (f_eof f) (f_pos f)
    true true true true (f_lock f) 1 BUFROLE_NONE (f_bufbase f) 0 BUFSIZ (Some (zero_array BUFSIZ)) (f_flock f));;
  mret fp.

Definition fopen (path : list Z) (string_mode : option (list Z)) : W Z :=
  if string_to_mode string_mode =? -1 then set_errno EINVAL;; mret 0 else
  fd ← open path (string_to_mode string_mode);
  if fd <? 0 then mret 0 else fdopen fd string_mode.

Definition fclose (fp : Z) : W Z :=
  f ← get_file fp;
  (if f_close f then _stdio_close fp;; mret tt else mret tt);;
  ffree fp;;
  mret 0.

(** ** Reading and writing *)

(** [src] is the [size * nmemb] bytes at the pointer. *)
Definition _fwrite (src : list Z) (size nmemb fp : Z) : W Z :=
  let len := u64 (size * nmemb) in
  f ← get_file fp;
  if f_write f then
    src ← array_take len src;
    k ← _stdio_write fp src;
    if negb (k =? 0) then mret (k / size) else mret 0
  else mret 0.

(** The number of members and the bytes stored. *)
Definition _fread (size nmemb fp : Z) : W (Z * list Z) :=
  let len := u64 (size * nmemb) in
  f ← get_file fp;
  if f_read f then
    '(k, bytes) ← _stdio_read fp len;
    if negb (k =? 0) then mret (k / size, bytes) else mret (0, bytes)
  else mret (0, []).

Definition fwrite (src : list Z) (size nmemb fp : Z) : W Z :=
  FLOCK fp;; out ← _fwrite src size nmemb fp; FUNLOCK fp;; mret out.
Definition fread (size nmemb fp : Z) : W (Z * list Z) :=
  FLOCK fp;; out ← _fread size nmemb fp; FUNLOCK fp;; mret out.

Definition fflush (fp : Z) : W Z := _stdio_flush_buffer fp;; mret 0.

Definition fputc (c fp : Z) : W Z := fwrite [u8 c] 1 1 fp;; mret c.
Definition putchar (c : Z) : W Z := fputc c stdout.

Definition fputs (s : list Z) (fp : Z) : W Z :=
  r ← fwrite s (u64 (s32 (Z.of_nat (length s)))) 1 fp;
  mret (if 0 <=? s32 r then 0 else EOF).
Definition puts (s : list Z) : W Z :=
  r ← fputs s stdout;
  if r <? 0 then mret (-1) else
  c ← fputc (ch "010") stdout;
  mret (if c <? 0 then -1 else 0).

(** A buffer of one character that the read may not have filled. *)
Definition fgetc (fp : Z) : W Z :=
  '(r, bytes) ← fread 1 1 fp;
  if s32 r <=? 0 then upd_file fp (set_eof 1);; mret EOF
  else match bytes with b :: _ => mret (u8 b) | [] => sfail end.
Definition getchar : W Z := fgetc stdin.

Definition feof (fp : Z) : W Z := f ← get_file fp; mret (f_eof f).
Definition ferror (fp : Z) : W Z := mret 0.
Definition clearerr (fp : Z) : W unit := mret tt.
Definition ungetc (c fp : Z) : W Z := mret EOF.

(** [s] is the array at the pointer; the result says whether it is returned and
    what it holds.  The variables are the index, [size] and the array. *)
Definition fgets (s : list Z) (size fp : Z) : W (bool * list Z) :=
  sloop (S (length s)) (fun '(i, size, s) =>
    c ← fgetc fp;
    if 0 <? c then
      s ← array_set i c s;
      let i := i + 1 in
      let size := s32 (size - 1) in
      if size =? 0 then mret (Break (true, s)) else
      s ← array_set i 0 s;
      if c =? ch "010" then mret (Break (true, s)) else mret (Next (i, size, s))
    else if c =? EOF then
      upd_file fp (set_eof 1);;
      mret (Break (negb (i =? 0), s))
    else mret (Break (false, s))) (0, size, s).

Definition fseek (fp offset whence : Z) : W Z :=
  f ← get_file fp; r ← lseek (f_fd f) offset whence; mret (s32 r).
Definition rewind (fp : Z) : W unit := fseek fp 0 SEEK_SET;; mret tt.

Definition remove (pathname : list Z) : W Z := mret (-1).
Definition tmpfile : W Z := mret 0.
Definition rename (old_filename new_filename : list Z) : W Z := set_errno (- ENOTIMPL);; mret (-1).
Definition fscanf (fp : Z) (format : list Z) : W Z := mret (-1).

(** [buf] is the array the caller gives to the stream. *)
Definition setvbuf (fp : Z) (buf : option (list Z)) (type size : Z) : W Z :=
  (if type =? _IONBF then upd_file fp (set_buf_cap 0)
   else match buf with
        | Some b =>
            if UNGET <=? size
            then upd_file fp (fun f => set_buffer (Some (drop (Z.to_nat UNGET) b)) (set_buf_cap (s32 (size - UNGET)) f))
            else mret tt
        | None => mret tt
        end);;
  upd_file fp (fun f => set_flags (Z.lor (f_flags f) F_SVB) f);;
  mret 0.
Definition setbuf (fp : Z) (buf : option (list Z)) : W unit :=
  setvbuf fp buf (match buf with Some _ => _IOFBF | None => _IONBF end) BUFSIZ;; mret tt.
Definition setbuffer (fp : Z) (buf : list Z) (size : Z) : W unit := mret tt.
Definition setlinebuf (fp : Z) : W unit := mret tt.

(** ** printf onto streams *)

Fixpoint put_chars (put : Z -> W Z) (cs : list Z) : W unit :=
  match cs with [] => mret tt | c :: cs' => put c;; put_chars put cs' end.

Definition stream_printf (format : list Z) (va : list arg) : W Z := fun w =>
  match printf format va with
  | Done (out, n) _ => (put_chars putchar out;; mret n) w
  | Fail => Fail
  | Spin => Spin
  end.
Definition stream_fprintf (fp : Z) (format : list Z) (va : list arg) : W Z := fun w =>
  match fprintf format va with
  | Done (out, n) _ => (put_chars (fun c => fputc c fp) out;; mret n) w
  | Fail => Fail
  | Spin => Spin
  end.

Definition perror (msg : list Z) : W unit :=
  e ← gets w_errno;
  stream_printf (str "%s: %s" ++ [ch "010"]) [AStr (Some msg); AStr (Some (strerror e))];;
  mret tt.

(** ** Leaving the program *)

(** The list has at most one node per object. *)
Definition stdio_exit : W unit :=
  fflush stdout;;
  fflush stderr;;
  head ← gets w_ofl_head;
  n ← gets (fun w => size (w_files w));
  sloop (S n) (fun f =>
    if f =? 0 then mret (Break tt)
    else fflush f;; r ← get_file f; mret (Next (f_next r))) head.

(** ** Lines *)

(** The value returned and the new [*lineptr] and [*n]; null arguments are
    [None].  One round per character read. *)
Definition getdelim (fuel : nat) (lineptr n : option Z) (delim fp : Z) : W (Z * option Z * option Z) :=
  match lineptr, n with
  | Some line, Some size =>
      '(line, size) ←
        (if (line =? 0) || (size =? 0)
         then p ← lift (al_malloc BUFSIZ); mret (p, BUFSIZ) else mret (line, size));
      if line =? 0 then mret (-1, Some line, Some size) else
      sloop fuel (fun '(line, size, ptr) =>
        c ← fgetc fp;
        if c =? -1 then
          e ← feof fp;
          if negb (e =? 0) then
            lift (al_store ptr 0);;
            mret (Break (if ptr =? line then -1 else ptr - line, Some line, Some size))
          else mret (Break (-1, Some line, Some size))
        else
          lift (al_store ptr c);;
          let ptr := ptr + 1 in
          if c =? delim then
            lift (al_store ptr 0);;
            mret (Break (ptr - line, Some line, Some size))
          else if line + size <=? ptr + 2 then
            let nbuf_sz := u64 (size * 2) in
            let d := ptr - line in
            nbuf ← lift (al_realloc line nbuf_sz);
            if nbuf =? 0 then mret (Break (-1, Some line, Some size))
            else mret (Next (nbuf, nbuf_sz, nbuf + d))
          else mret (Next (line, size, ptr))) (line, size, line)
  | _, _ => set_errno EINVAL;; mret (-1, lineptr, n)
  end.

Definition getline (fuel : nat) (lineptr n : option Z) (fp : Z) : W (Z * option Z * option Z) :=
  getdelim fuel lineptr n (ch "010") fp.
End stdio.
