(* ===== verification/StdioSpec.v ===== *)
(** * Streams: what writing, flushing and the open file list do

    A stream that can be written has bytes it has accepted: those it has handed
    to the kernel and those waiting in its buffer.  The lemmas here say that
    every write appends to them, whatever the kernel answers, and that a flush
    leaves nothing waiting. *)

From S2P Require Import Prelude CMem State Alloc AllocSpec Allocator Double Printf Stdio.
Import (notations) Ascii String.

(** The bytes of the write requests to a descriptor. *)
Definition request_bytes (fd : Z) (e : event) : list Z :=
  match fst e with RWrite fd' bs => if fd' =? fd then bs else [] | _ => [] end.
Definition written (fd : Z) (log : list event) : list Z := concat (request_bytes fd <$> log).

Lemma written_app fd l1 l2 : written fd (l1 ++ l2) = written fd l1 ++ written fd l2.
Proof. unfold written. now rewrite fmap_app, concat_app. Qed.

(** The bytes that wait in the buffer. *)
Definition pending (f : FILE) : list Z := take (Z.to_nat (f_buf_len f)) (default [] (f_buffer f)).

(** An open stream with a buffer: room for one more byte at least, and no
    complete line waits in it. *)
Record out_ok (f : FILE) : Prop := {
  oo_fd : f_fd f <> -1;
  oo_write : f_write f = true;
  oo_buffered : f_buffered f <> 0;
  oo_buffer : exists b, f_buffer f = Some b /\ Z.of_nat (length b) = f_buf_cap f;
  oo_len : 0 <= f_buf_len f < f_buf_cap f;
  oo_line : Forall (fun c => c <> ch "010") (pending f) }.

(** The fields a write changes. *)
Definition refill (b : list Z) (l r : Z) (f : FILE) : FILE :=
  set_bufrole r (set_buf_len l (set_buffer (Some b) f)).

Lemma refill_refill b l r b' l' r' f : refill b' l' r' (refill b l r f) = refill b' l' r' f.
Proof. reflexivity. Qed.

Lemma refill_id f b : f_buffer f = Some b -> refill b (f_buf_len f) (f_bufrole f) f = f.
Proof. destruct f; cbn; now intros ->. Qed.

Definition write_to (fd : Z) (e : event) : Prop := exists bs, fst e = RWrite fd bs.

Section spec.
Context {H : Type} `{Allocator H}.
Context (sys : list event -> request -> Z * list Z).
Implicit Types w : world H.

(** The stream [fp] accepted the bytes [bs], and nothing else changed. *)
Definition wrote (fp : Z) (bs : list Z) w w' : Prop :=
  exists f b l r e evs, w_files w !! fp = Some f /\ out_ok f /\ out_ok (refill b l r f) /\
    w' = World (w_heap w) (<[fp := refill b l r f]> (w_files w)) (w_ofl_head w) e (w_log w ++ evs) /\
    Forall (write_to (f_fd f)) evs /\
    written (f_fd f) evs ++ pending (refill b l r f) = pending f ++ bs.

Lemma wrote_refl fp w f : w_files w !! fp = Some f -> out_ok f -> wrote fp [] w w.
Proof.
  intros Hf Ho. destruct (oo_buffer f Ho) as (b & Eb & _).
  exists f, b, (f_buf_len f), (f_bufrole f), (w_errno w), []. rewrite refill_id by exact Eb.
  rewrite insert_id, app_nil_r by exact Hf. destruct w. do 4 (split; [auto; reflexivity|]).
  split; [constructor|]. now rewrite app_nil_r.
Qed.

Lemma wrote_trans fp bs1 bs2 w1 w2 w3 : wrote fp bs1 w1 w2 -> wrote fp bs2 w2 w3 -> wrote fp (bs1 ++ bs2) w1 w3.
Proof.
  intros (f & b & l & r & e & evs & Hf & Ho & Ho' & -> & He & Hw)
    (f2 & b2 & l2 & r2 & e2 & evs2 & Hf2 & _ & Ho2 & -> & He2 & Hw2).
  cbn [w_files w_heap w_ofl_head w_log] in *. rewrite lookup_insert_eq in Hf2. injection Hf2 as <-.
  rewrite refill_refill in *. exists f, b2, l2, r2, e2, (evs ++ evs2).
  split; [exact Hf|]. split; [exact Ho|]. split; [exact Ho2|]. rewrite insert_insert_eq, app_assoc.
  split; [reflexivity|]. split; [apply Forall_app; auto|].
  rewrite written_app, <- app_assoc. change (f_fd (refill b l r f)) with (f_fd f) in Hw2.
  rewrite Hw2, app_assoc, Hw. now rewrite app_assoc.
Qed.

(** ** Flushing *)

Lemma take_all_chars l (a : list Z) : l <= Z.of_nat (length a) -> (length (take (Z.to_nat l) a) = Z.to_nat l).
Proof. intros. rewrite length_take. lia. Qed.

Lemma errno_wrap_spec r w :
  exists k e, errno_wrap r w = Done k (World (w_heap w) (w_files w) (w_ofl_head w) e (w_log w)) /\
    (0 <= r -> k = r) /\ (r < 0 -> k = -1).
Proof.
  unfold errno_wrap. destruct (r <? 0) eqn:E; zbool; eexists _, _; (split; [reflexivity|lia]).
Qed.

Lemma get_file_spec fp f w : w_files w !! fp = Some f -> get_file fp w = Done f w.
Proof. unfold get_file, sopt. now intros ->. Qed.

Lemma upd_file_spec fp f g w : w_files w !! fp = Some f ->
  upd_file fp g w = Done tt (World (w_heap w) (<[fp := g f]> (w_files w)) (w_ofl_head w) (w_errno w) (w_log w)).
Proof. unfold upd_file, supd. now intros ->. Qed.

Lemma swp_get_file fp f (Q : FILE -> world H -> Prop) w :
  w_files w !! fp = Some f -> Q f w -> swp (get_file fp) Q w.
Proof. intros Hf. apply swp_run. now apply get_file_spec. Qed.

Lemma swp_upd_file fp f g (Q : unit -> world H -> Prop) w :
  w_files w !! fp = Some f ->
  Q tt (World (w_heap w) (<[fp := g f]> (w_files w)) (w_ofl_head w) (w_errno w) (w_log w)) ->
  swp (upd_file fp g) Q w.
Proof. intros Hf. apply swp_run. now apply upd_file_spec. Qed.

(** A full description of the flush of a buffer with something in it. *)
Lemma flush_buffer_spec fp f b w :
  w_files w !! fp = Some f -> f_buffered f <> 0 -> f_buffer f = Some b -> Z.of_nat (length b) = f_buf_cap f ->
  0 < f_buf_len f <= f_buf_cap f ->
  exists e a, _stdio_flush_buffer sys fp w =
    Done tt (World (w_heap w) (<[fp := set_buffer (Some (zero_array (f_buf_cap f))) (set_buf_len 0 f)]> (w_files w))
               (w_ofl_head w) e (w_log w ++ [(RWrite (f_fd f) (pending f), a)])).
Proof.
  intros Hf Hb Eb Hl Hlen. unfold _stdio_flush_buffer.
  set (a := sys (w_log w) (RWrite (f_fd f) (pending f))).
  destruct (errno_wrap_spec (fst a) (World (w_heap w) (w_files w) (w_ofl_head w) (w_errno w)
    (w_log w ++ [(RWrite (f_fd f) (pending f), a)]))) as (k & e & E & _).
  exists e, a. apply swp_eq. apply swp_bind. apply (swp_get_file fp f); [exact Hf|].
  rewrite (proj2 (Z.eqb_neq _ _) Hb), Eb. cbn [negb]. rewrite (proj2 (Z.ltb_lt 0 (f_buf_len f))) by lia.
  apply swp_bind. unfold array_take. rewrite (proj2 (Z.leb_le _ _)) by lia. apply swp_ret.
  assert (Ep : take (Z.to_nat (f_buf_len f)) b = pending f) by (unfold pending; now rewrite Eb).
  rewrite Ep. apply swp_bind. eapply swp_run; [reflexivity|]. fold a. destruct a as [r bytes]. cbn [fst] in E.
  apply swp_bind. eapply swp_run; [exact E|]. cbn [w_heap w_files w_ofl_head w_log].
  apply swp_bind. apply (swp_upd_file fp f); [exact Hf|]. cbn [w_heap w_files w_ofl_head w_log w_errno].
  apply swp_bind. unfold array_clear. rewrite (proj2 (Z.leb_le _ _)) by lia. apply swp_ret.
  eapply swp_upd_file; [apply lookup_insert_eq|].
  cbn [w_heap w_files w_ofl_head w_log w_errno]. split; [reflexivity|]. rewrite insert_insert_eq.
  replace (Z.to_nat (f_buf_cap f)) with (length b) by lia. now rewrite drop_all, app_nil_r.
Qed.

Lemma length_zero_array n : 0 <= n -> Z.of_nat (length (zero_array n)) = n.
Proof. intros. unfold zero_array. rewrite length_replicate. lia. Qed.

(** An emptied stream. *)
Lemma out_ok_emptied f : out_ok f -> out_ok (refill (zero_array (f_buf_cap f)) 0 (f_bufrole f) f).
Proof.
  intros [O1 O2 O3 (b & Eb & Hl) O5 O6]. split; cbn; auto; [|lia].
  eexists. split; [reflexivity|]. apply length_zero_array. lia.
Qed.

(** Flushing an open stream hands over what waits in it. *)
Lemma flush_spec fp f w :
  w_files w !! fp = Some f -> out_ok f ->
  exists w', _stdio_flush_buffer sys fp w = Done tt w' /\ wrote fp [] w w' /\
    exists f', w_files w' !! fp = Some f' /\ pending f' = [].
Proof.
  intros Hf Ho. destruct (oo_buffer f Ho) as (b & Eb & Hl). pose proof (oo_len f Ho) as Hlen.
  destruct (Z.eq_dec (f_buf_len f) 0) as [E0|E0].
  - exists w. split; [|split; [eapply wrote_refl; eauto|]].
    + unfold _stdio_flush_buffer. apply swp_eq, swp_bind. apply (swp_get_file fp f); [exact Hf|].
      rewrite (proj2 (Z.eqb_neq _ _) (oo_buffered f Ho)), Eb, E0. apply swp_ret. auto.
    + exists f. split; [exact Hf|]. unfold pending. now rewrite E0.
  - destruct (flush_buffer_spec fp f b w Hf (oo_buffered f Ho) Eb Hl ltac:(lia)) as (e & a & E).
    eexists. split; [exact E|]. split.
    + exists f, (zero_array (f_buf_cap f)), 0, (f_bufrole f), e, [(RWrite (f_fd f) (pending f), a)].
      split; [exact Hf|]. split; [exact Ho|]. split; [now apply out_ok_emptied|].
      split; [destruct f; reflexivity|]. split; [repeat constructor; now eexists|].
      unfold written, request_bytes. cbn. now rewrite Z.eqb_refl, !app_nil_r.
    + eexists. split; [apply lookup_insert_eq|]. reflexivity.
Qed.

(** ** Writing *)

Lemma take_insert_end (b : list Z) i c :
  (i < length b)%nat -> take (S i) (<[i := c]> b) = take i b ++ [c].
Proof.
  intros Hi. erewrite take_S_r by (apply list_lookup_insert_eq; exact Hi).
  now rewrite take_insert_ge by lia.
Qed.

Lemma put_byte_spec fp f c w :
  w_files w !! fp = Some f -> out_ok f -> is_byte c ->
  exists w', put_byte sys fp c w = Done tt w' /\ wrote fp [c] w w'.
Proof.
  intros Hf Ho Hc. destruct (oo_buffer f Ho) as (b & Eb & Hl). pose proof (oo_len f Ho) as Hlen.
  set (b1 := <[Z.to_nat (f_buf_len f) := c]> b).
  set (f1 := set_buffer (Some b1) (set_buf_len (f_buf_len f + 1) f)).
  set (w1 := World (w_heap w) (<[fp := f1]> (w_files w)) (w_ofl_head w) (w_errno w) (w_log w)).
  assert (Hf1 : w_files w1 !! fp = Some f1) by apply lookup_insert_eq.
  assert (Hb1 : Z.of_nat (length b1) = f_buf_cap f) by (unfold b1; rewrite length_insert; lia).
  assert (Hp1 : pending f1 = pending f ++ [c]).
  { unfold pending, f1. cbn. rewrite Eb. cbn. replace (Z.to_nat (f_buf_len f + 1)) with (S (Z.to_nat (f_buf_len f))) by lia.
    apply take_insert_end. lia. }
  assert (Estart : forall (k : SM (world H) unit) Q, swp k Q w1 ->
    swp (b0 ← array_set (f_buf_len f) c b;
         upd_file fp (fun f => set_buffer (Some b0) (set_buf_len (f_buf_len f + 1) f));; k) Q w).
  { intros k Q Hk. apply swp_bind. unfold array_set. rewrite (proj2 (Z.leb_le 0 _)), (proj2 (Z.ltb_lt _ _)) by lia.
    cbn [andb]. apply swp_ret. rewrite u8_small by exact Hc. apply swp_bind.
    apply (swp_upd_file fp f); [exact Hf|]. exact Hk. }
  cut (swp (put_byte sys fp c) (fun _ w' => wrote fp [c] w w') w).
  { intros Hs. apply swp_ok in Hs as ([] & w' & E & Hw). eauto. }
  unfold put_byte. apply swp_bind, (swp_get_file fp f); [exact Hf|]. rewrite Eb. apply Estart.
  apply swp_bind, (swp_get_file fp f1); [exact Hf1|]. cbn [f_buf_len f_buf_cap f1 set_buffer set_buf_len].
  destruct ((c =? ch "010") || (f_buf_len f + 1 =? f_buf_cap f)) eqn:E.
  - destruct (flush_buffer_spec fp f1 b1 w1 Hf1 (oo_buffered f Ho) eq_refl Hb1) as (e & a & Ef); [cbn; lia|].
    eapply swp_run; [exact Ef|].
    exists f, (zero_array (f_buf_cap f)), 0, (f_bufrole f), e, [(RWrite (f_fd f) (pending f ++ [c]), a)].
    split; [exact Hf|]. split; [exact Ho|]. split; [now apply out_ok_emptied|]. rewrite Hp1.
    split; [unfold w1; cbn; rewrite insert_insert_eq; destruct f; reflexivity|].
    split; [repeat constructor; now eexists|].
    unfold written, request_bytes. cbn. now rewrite Z.eqb_refl, !app_nil_r.
  - apply orb_false_iff in E as [E1 E2]. zbool. apply swp_ret.
    exists f, b1, (f_buf_len f + 1), (f_bufrole f), (w_errno w), []. rewrite app_nil_r.
    assert (Ef1 : refill b1 (f_buf_len f + 1) (f_bufrole f) f = f1) by (destruct f; reflexivity).
    rewrite Ef1. split; [exact Hf|]. split; [exact Ho|]. split; [|split; [reflexivity|split; [constructor|exact Hp1]]].
    destruct Ho as [O1 O2 O3 _ O5 O6]. split; try assumption.
    + exists b1. split; [reflexivity|exact Hb1].
    + cbn. lia.
    + rewrite Hp1. apply Forall_app. split; [exact O6|]. repeat constructor. exact E1.
Qed.

(** What a stream looks like after it accepted bytes. *)
Lemma wrote_file fp bs w w' f :
  wrote fp bs w w' -> w_files w !! fp = Some f ->
  exists b l r, w_files w' !! fp = Some (refill b l r f) /\ out_ok (refill b l r f).
Proof.
  intros (f0 & b & l & r & e & evs & Hf0 & _ & Ho & -> & _) Hf. rewrite Hf in Hf0. injection Hf0 as <-.
  exists b, l, r. split; [apply lookup_insert_eq|exact Ho].
Qed.

Lemma put_bytes_spec fp f bs w :
  w_files w !! fp = Some f -> out_ok f -> Forall is_byte bs ->
  exists w', put_bytes sys fp bs w = Done tt w' /\ wrote fp bs w w'.
Proof.
  intros Hf Ho Hbs. revert f w Hf Ho. induction Hbs as [|c bs Hc _ IH]; intros f w Hf Ho.
  - exists w. split; [reflexivity|]. eapply wrote_refl; eauto.
  - destruct (put_byte_spec fp f c w Hf Ho Hc) as (w1 & E1 & H1).
    destruct (wrote_file _ _ _ _ _ H1 Hf) as (b & l & r & Hf1 & Ho1).
    destruct (IH _ w1 Hf1 Ho1) as (w2 & E2 & H2). exists w2. split; [|apply (wrote_trans fp [c] bs w w1 w2 H1 H2)].
    cbn [put_bytes]. apply swp_eq, swp_bind. eapply swp_run; [exact E1|]. eapply swp_run; [exact E2|]. auto.
Qed.

Lemma wrote_role fp f w :
  w_files w !! fp = Some f -> out_ok f ->
  wrote fp [] w (World (w_heap w) (<[fp := set_bufrole BUFROLE_WRITE f]> (w_files w)) (w_ofl_head w)
    (w_errno w) (w_log w)).
Proof.
  intros Hf Ho. destruct (oo_buffer f Ho) as (b & Eb & Hl).
  exists f, b, (f_buf_len f), BUFROLE_WRITE, (w_errno w), [].
  assert (Er : refill b (f_buf_len f) BUFROLE_WRITE f = set_bufrole BUFROLE_WRITE f) by (destruct f; cbn in *; now subst).
  rewrite Er, !app_nil_r. split; [exact Hf|]. split; [exact Ho|]. split; [|split; [reflexivity|split; [constructor|reflexivity]]].
  destruct Ho as [O1 O2 O3 O4 O5 O6]. split; assumption.
Qed.

Lemma stdio_write_spec fp f bs w :
  w_files w !! fp = Some f -> out_ok f -> Forall is_byte bs ->
  exists w', _stdio_write sys fp bs w = Done (Z.of_nat (length bs)) w' /\ wrote fp bs w w'.
Proof.
  intros Hf Ho Hbs. pose proof (wrote_role fp f w Hf Ho) as H1. set (w1 := World _ _ _ _ _) in H1.
  destruct (wrote_file _ _ _ _ _ H1 Hf) as (b & l & r & Hf1 & Ho1).
  destruct (put_bytes_spec fp _ bs w1 Hf1 Ho1 Hbs) as (w2 & E2 & H2). exists w2.
  split; [|apply (wrote_trans fp [] bs w w1 w2 H1 H2)]. destruct (oo_buffer f Ho) as (b' & Eb & _).
  unfold _stdio_write. apply swp_eq, swp_bind, (swp_get_file fp f); [exact Hf|].
  rewrite (proj2 (Z.eqb_neq _ _) (oo_fd f Ho)), Eb, (proj2 (Z.eqb_neq _ _) (oo_buffered f Ho)). cbn [negb].
  apply swp_bind, (swp_upd_file fp f); [exact Hf|]. fold w1. apply swp_bind. eapply swp_run; [exact E2|].
  now apply swp_ret.
Qed.

(** ** The locked operations *)

(** A stream between operations: nobody holds its lock. *)
Definition ready (f : FILE) : Prop := out_ok f /\ f_flock f = 0.

Definition with_file (fp : Z) (f : FILE) w : world H :=
  World (w_heap w) (<[fp := f]> (w_files w)) (w_ofl_head w) (w_errno w) (w_log w).

Lemma FLOCK_spec fp f w : w_files w !! fp = Some f -> f_flock f = 0 ->
  FLOCK fp w = Done tt (with_file fp (set_flock 1 f) w).
Proof.
  intros Hf Hl. unfold FLOCK. apply swp_eq, swp_bind, (swp_get_file fp f); [exact Hf|].
  apply swp_bind, (swp_upd_file fp f); [exact Hf|]. rewrite Hl. now apply swp_ret.
Qed.

Lemma out_ok_flock v f : out_ok f -> out_ok (set_flock v f).
Proof. intros [O1 O2 O3 O4 O5 O6]. split; assumption. Qed.

(** Bytes accepted under the lock, then the lock released. *)
Lemma wrote_unlock fp f bs w w2 :
  w_files w !! fp = Some f -> ready f -> wrote fp bs (with_file fp (set_flock 1 f) w) w2 ->
  exists w3, FUNLOCK fp w2 = Done tt w3 /\ wrote fp bs w w3.
Proof.
  intros Hf [Ho Hl] (f1 & b & l & r & e & evs & Hf1 & Ho1 & Ho2 & -> & He & Hw).
  cbn [with_file w_files w_heap w_ofl_head w_log] in *. rewrite lookup_insert_eq in Hf1. injection Hf1 as <-.
  rewrite insert_insert_eq in *. eexists. split.
  - unfold FUNLOCK. apply swp_eq. eapply swp_upd_file; [apply lookup_insert_eq|]. split; reflexivity.
  - cbn [w_files w_heap w_ofl_head w_log]. rewrite insert_insert_eq.
    assert (Er : set_flock 0 (refill b l r (set_flock 1 f)) = refill b l r f)
      by (destruct f; cbn in *; now subst).
    exists f, b, l, r, e, evs. rewrite Er. split; [exact Hf|]. split; [exact Ho|].
    split; [apply (out_ok_flock 0) in Ho2; now rewrite Er in Ho2|]. auto.
Qed.

Lemma fwrite_spec fp f bs size nmemb w :
  w_files w !! fp = Some f -> ready f -> Forall is_byte bs ->
  0 <= size -> size * nmemb = Z.of_nat (length bs) -> Z.of_nat (length bs) < 2 ^ 64 ->
  exists w', fwrite sys bs size nmemb fp w = Done (if size * nmemb =? 0 then 0 else nmemb) w' /\ wrote fp bs w w'.
Proof.
  intros Hf Hr Hbs Hsz Hlen Hmax. pose proof Hr as [Ho Hl].
  set (w1 := with_file fp (set_flock 1 f) w).
  assert (Hf1 : w_files w1 !! fp = Some (set_flock 1 f)) by apply lookup_insert_eq.
  destruct (stdio_write_spec fp _ bs w1 Hf1 (out_ok_flock 1 f Ho) Hbs) as (w2 & E2 & H2).
  destruct (wrote_unlock fp f bs w w2 Hf Hr H2) as (w3 & E3 & H3). exists w3. split; [|exact H3].
  unfold fwrite. apply swp_eq, swp_bind. eapply swp_run; [exact (FLOCK_spec fp f w Hf Hl)|]. fold w1. apply swp_bind.
  unfold _fwrite. rewrite u64_small by lia. apply swp_bind, (swp_get_file fp (set_flock 1 f)); [exact Hf1|].
  change (f_write (set_flock 1 f)) with (f_write f). rewrite (oo_write f Ho). apply swp_bind. unfold array_take.
  rewrite Hlen, Z.leb_refl. apply swp_ret. rewrite Nat2Z.id, firstn_all. apply swp_bind.
  eapply swp_run; [exact E2|]. destruct (Z.of_nat (length bs) =? 0) eqn:E0; cbn [negb]; zbool.
  - apply swp_ret, swp_bind. eapply swp_run; [exact E3|]. now apply swp_ret.
  - apply swp_ret, swp_bind. eapply swp_run; [exact E3|]. apply swp_ret. split; [|reflexivity].
    assert (size <> 0) by (intros ->; lia). rewrite <- Hlen, Z.mul_comm. now apply Z.div_mul.
Qed.

Lemma fputc_spec fp f c w :
  w_files w !! fp = Some f -> ready f ->
  exists w', fputc sys c fp w = Done c w' /\ wrote fp [u8 c] w w'.
Proof.
  intros Hf Hr. destruct (fwrite_spec fp f [u8 c] 1 1 w Hf Hr) as (w' & E & Hw); try reflexivity; try lia.
  { repeat constructor; apply u8_range. }
  exists w'. split; [|exact Hw]. unfold fputc. apply swp_eq, swp_bind. eapply swp_run; [exact E|]. now apply swp_ret.
Qed.

Lemma fputs_spec fp f s w :
  w_files w !! fp = Some f -> ready f -> Forall is_byte s -> Z.of_nat (length s) < 2 ^ 31 ->
  exists w', fputs sys s fp w = Done 0 w' /\ wrote fp s w w'.
Proof.
  intros Hf Hr Hs Hl.
  destruct (fwrite_spec fp f s (Z.of_nat (length s)) 1 w Hf Hr Hs) as (w' & E & Hw); try lia.
  exists w'. split; [|exact Hw]. unfold fputs. apply swp_eq, swp_bind. rewrite s32_small, u64_small by lia.
  eapply swp_run; [exact E|]. apply swp_ret. split; [|reflexivity]. destruct (_ =? 0); reflexivity.
Qed.

Lemma fflush_spec fp f w :
  w_files w !! fp = Some f -> out_ok f ->
  exists w', fflush sys fp w = Done 0 w' /\ wrote fp [] w w' /\
    exists f', w_files w' !! fp = Some f' /\ pending f' = [].
Proof.
  intros Hf Ho. destruct (flush_spec fp f w Hf Ho) as (w' & E & Hw). exists w'. split; [|exact Hw].
  unfold fflush. apply swp_eq, swp_bind. eapply swp_run; [exact E|]. now apply swp_ret.
Qed.

Lemma wrote_ready fp bs w w' f :
  wrote fp bs w w' -> w_files w !! fp = Some f -> ready f ->
  exists f', w_files w' !! fp = Some f' /\ ready f' /\ f_fd f' = f_fd f.
Proof.
  intros Hw Hf [_ Hl]. destruct (wrote_file _ _ _ _ _ Hw Hf) as (b & l & r & Hf' & Ho').
  eexists. split; [exact Hf'|]. split; [split; assumption|reflexivity].
Qed.

Lemma put_chars_spec fp f cs w :
  w_files w !! fp = Some f -> ready f ->
  exists w', put_chars (fun c => fputc sys c fp) cs w = Done tt w' /\ wrote fp (u8 <$> cs) w w'.
Proof.
  revert f w. induction cs as [|c cs IH]; intros f w Hf Hr.
  - exists w. split; [reflexivity|]. eapply wrote_refl; [exact Hf|apply Hr].
  - destruct (fputc_spec fp f c w Hf Hr) as (w1 & E1 & H1).
    destruct (wrote_ready _ _ _ _ _ H1 Hf Hr) as (f1 & Hf1 & Hr1 & _).
    destruct (IH f1 w1 Hf1 Hr1) as (w2 & E2 & H2). exists w2. split.
    + cbn [put_chars]. apply swp_eq, swp_bind. eapply swp_run; [exact E1|]. eapply swp_run; [exact E2|]. auto.
    + apply (wrote_trans fp [u8 c] _ w w1 w2 H1 H2).
Qed.
End spec.
