(* ===== verification/StdioProps.v ===== *)
(** * Streams: properties *)

From S2P Require Import Prelude CMem State Dll Alloc AllocSpec AllocMalloc AllocProps Allocator Double Printf PrintfSpec PrintfProps.
From S2P Require Import Stdio StdioSpec.
Import (notations) Ascii String.

(** ** Programs that write to streams *)

Inductive wop :=
| Wputc (c : Z)
| Wwrite (bs : list Z)
| Wputs (s : list Z)
| Wprintf (format : list Z) (va : list arg)
| Wflush.

Definition op_ok (o : wop) : Prop :=
  match o with
  | Wwrite bs => Forall is_byte bs /\ Z.of_nat (length bs) < 2 ^ 64
  | Wputs s => Forall is_char s /\ Z.of_nat (length s) < 2 ^ 31
  | Wprintf format va => exists out n va', fprintf format va = Done (out, n) va'
  | _ => True
  end.

(** The bytes an operation adds to its stream. *)
Definition op_bytes (o : wop) : list Z :=
  match o with
  | Wputc c => [u8 c]
  | Wwrite bs => bs
  | Wputs s => s
  | Wprintf format va => match fprintf format va with Done (out, _) _ => u8 <$> out | _ => [] end
  | Wflush => []
  end.

Section client.
Context {H : Type} `{Allocator H}.
Context (sys : list event -> request -> Z * list Z).
Implicit Types w : world H.
Abbreviation W := (SM (world H)).

Definition run_op (fp : Z) (o : wop) : W unit :=
  match o with
  | Wputc c => fputc sys c fp;; mret tt
  | Wwrite bs => fwrite sys bs 1 (Z.of_nat (length bs)) fp;; mret tt
  | Wputs s => fputs sys s fp;; mret tt
  | Wprintf format va => stream_fprintf sys fp format va;; mret tt
  | Wflush => fflush sys fp;; mret tt
  end.

Fixpoint run_ops (ops : list (Z * wop)) : W unit :=
  match ops with [] => mret tt | (fp, o) :: ops' => run_op fp o;; run_ops ops' end.

(** The bytes a stream has accepted: handed to the kernel, or waiting. *)
Definition accepted w (fp fd : Z) : list Z :=
  written fd (w_log w) ++ match w_files w !! fp with Some f => pending f | None => [] end.

(** The streams of [S], address and descriptor, are open for writing. *)
Definition streams w (S : list (Z * Z)) : Prop :=
  NoDup S.*1 /\ NoDup S.*2 /\
  Forall (fun '(fp, fd) => exists f, w_files w !! fp = Some f /\ ready f /\ f_fd f = fd) S.

Lemma run_op_spec fp f o w :
  w_files w !! fp = Some f -> ready f -> op_ok o ->
  exists w', run_op fp o w = Done tt w' /\ wrote fp (op_bytes o) w w'.
Proof.
  intros Hf Hr Ho.
  assert (Hrun : forall A (c : W A) a bs, (exists w', c w = Done a w' /\ wrote fp bs w w') ->
    exists w', (c;; mret tt) w = Done tt w' /\ wrote fp bs w w').
  { intros A c a bs (w' & E & Hw). exists w'. split; [|exact Hw]. apply swp_eq, swp_bind.
    eapply swp_run; [exact E|]. now apply swp_ret. }
  destruct o as [c|bs|s|format va|]; cbn [run_op op_bytes op_ok] in *.
  - eapply Hrun, fputc_spec; eauto.
  - destruct Ho. eapply Hrun, fwrite_spec; eauto; lia.
  - destruct Ho as [Hs Hl]. eapply Hrun, fputs_spec; eauto.
    eapply Forall_impl; [|exact Hs]. unfold is_char, is_byte. intros; lia.
  - destruct Ho as (out & n & va' & E). rewrite E. destruct (put_chars_spec sys fp f out w Hf Hr) as (w' & E' & Hw).
    eapply (Hrun _ _ n). exists w'. split; [|exact Hw]. unfold stream_fprintf. rewrite E.
    apply swp_eq, swp_bind. eapply swp_run; [exact E'|]. now apply swp_ret.
  - destruct (fflush_spec sys fp f w Hf (proj1 Hr)) as (w' & E & Hw & _). eapply Hrun. eauto.
Qed.

(** Writes to another descriptor do not count. *)
Lemma written_other fd fd' evs : Forall (write_to fd) evs -> fd <> fd' -> written fd' evs = [].
Proof.
  intros He Hne. unfold written. induction He as [|[q a] evs [bs E] _ IH]; [reflexivity|].
  cbn [fmap list_fmap concat]. rewrite IH. unfold request_bytes. cbn [fst] in *. subst q.
  now rewrite (proj2 (Z.eqb_neq _ _) Hne).
Qed.

(** What accepting bytes means for all streams. *)
Lemma wrote_streams fp fd bs S w w' :
  streams w S -> (fp, fd) ∈ S -> wrote fp bs w w' ->
  streams w' S /\ accepted w' fp fd = accepted w fp fd ++ bs /\
  (forall fp' fd', (fp', fd') ∈ S -> fp' <> fp ->
     accepted w' fp' fd' = accepted w fp' fd' /\ w_files w' !! fp' = w_files w !! fp').
Proof.
  intros (Hn1 & Hn2 & Hs) Hin Hw. pose proof Hw as (f & b & l & r & e & evs & Hf & Ho & Ho' & -> & He & Hacc).
  rewrite Forall_forall in Hs. pose proof (Hs _ (proj1 (list_elem_of_In _ _) Hin)) as (f0 & Hf0 & Hr0 & Hfd).
  rewrite Hf in Hf0. injection Hf0 as <-.
  assert (Hne : forall fp' fd', (fp', fd') ∈ S -> fp' <> fp -> f_fd f <> fd').
  { intros fp' fd' Hin' Hne <-. apply Hne. rewrite Hfd in Hin'.
    apply list_elem_of_lookup in Hin as [i Hi], Hin' as [j Hj].
    assert (i = j); [|congruence]. eapply NoDup_lookup; [exact Hn2| |]; rewrite list_lookup_fmap, ?Hi, ?Hj; reflexivity. }
  split; [|split].
  - split; [exact Hn1|]. split; [exact Hn2|]. apply Forall_forall. intros [fp' fd'] Hin'.
    destruct (Z.eq_dec fp' fp) as [->|Hd].
    + destruct (wrote_ready fp bs _ _ f Hw Hf Hr0) as (f' & Hf' & Hr' & Hfd').
      destruct (Hs _ Hin') as (f2 & Hf2 & _ & Hfd2). rewrite Hf in Hf2. injection Hf2 as <-.
      exists f'. rewrite Hfd', Hfd2. auto.
    + cbn [w_files]. rewrite lookup_insert_ne by auto. exact (Hs _ Hin').
  - unfold accepted. cbn [w_files w_log]. rewrite lookup_insert_eq, Hf, written_app, <- app_assoc.
    rewrite <- Hfd, Hacc. now rewrite app_assoc.
  - intros fp' fd' Hin' Hd. unfold accepted. cbn [w_files w_log]. rewrite lookup_insert_ne by auto.
    split; [|reflexivity]. now rewrite written_app, (written_other (f_fd f) fd' evs He), app_nil_r by eauto.
Qed.

Definition ops_of (fp : Z) (ops : list (Z * wop)) : list Z :=
  concat ((fun '(fp', o) => if fp' =? fp then op_bytes o else []) <$> ops).

Lemma run_ops_spec S ops w :
  streams w S -> Forall (fun '(fp, o) => fp ∈ S.*1 /\ op_ok o) ops ->
  exists w', run_ops ops w = Done tt w' /\ streams w' S /\
    forall fp fd, (fp, fd) ∈ S -> accepted w' fp fd = accepted w fp fd ++ ops_of fp ops.
Proof.
  intros Hs Hops. revert w Hs. induction Hops as [|[fp o] ops [Hfp Ho] _ IH]; intros w Hs.
  - exists w. split; [reflexivity|]. split; [exact Hs|]. intros. now rewrite app_nil_r.
  - apply list_elem_of_fmap in Hfp as ([fp0 fd] & -> & Hin). cbn [fst] in *.
    pose proof Hs as (_ & _ & Hall). rewrite Forall_forall in Hall.
    destruct (Hall _ (proj1 (list_elem_of_In _ _) Hin)) as (f & Hf & Hr & _).
    destruct (run_op_spec fp0 f o w Hf Hr Ho) as (w1 & E1 & H1).
    destruct (wrote_streams fp0 fd _ S w w1 Hs Hin H1) as (Hs1 & Ha1 & Hn1).
    destruct (IH w1 Hs1) as (w2 & E2 & Hs2 & Ha2). exists w2. split; [|split; [exact Hs2|]].
    + cbn [run_ops]. apply swp_eq, swp_bind. eapply swp_run; [exact E1|]. eapply swp_run; [exact E2|]. auto.
    + intros fp' fd' Hin'. rewrite (Ha2 _ _ Hin'). unfold ops_of. cbn [fmap list_fmap concat].
      destruct (fp0 =? fp') eqn:E; zbool.
      * subst fp'. assert (fd' = fd) as ->.
        { apply list_elem_of_lookup in Hin as [i Hi], Hin' as [j Hj]. destruct Hs as (Hn & _).
          assert (i = j); [|congruence]. eapply NoDup_lookup; [exact Hn| |]; rewrite list_lookup_fmap, ?Hi, ?Hj; reflexivity. }
        rewrite Ha1. now rewrite app_assoc.
      * destruct (Hn1 _ _ Hin') as [-> _]; [auto|]. reflexivity.
Qed.
End client.

(** ** The open file list *)

(** The links of every object. *)
Definition links (files : gmap Z FILE) : gmap Z (Z * Z) := (fun f => (f_prev f, f_next f)) <$> files.

Section list.
Context {H : Type} `{Allocator H}.
Context (sys : list event -> request -> Z * list Z).
Implicit Types w : world H.
Abbreviation W := (SM (world H)).

(** The list that starts at the head holds the streams [fps] in this order. *)
Record ofl_ok w (fps : list Z) : Prop := {
  ol_seg : chain (links (w_files w)) fps;
  ol_head : w_ofl_head w = hd_addr id 0 fps;
  ol_nodup : NoDup fps;
  ol_null : 0 ∉ fps }.

Lemma links_lookup files a f : files !! a = Some f -> links files !! a = Some (f_prev f, f_next f).
Proof. intros E. unfold links. now rewrite lookup_fmap, E. Qed.

Lemma links_insert files a f : links (<[a := f]> files) = <[a := (f_prev f, f_next f)]> (links files).
Proof. unfold links. now rewrite fmap_insert. Qed.

(** Operations that keep the links keep the list. *)
Lemma links_same files a f f' :
  files !! a = Some f -> f_prev f' = f_prev f -> f_next f' = f_next f -> links (<[a := f']> files) = links files.
Proof. intros E E1 E2. rewrite links_insert, E1, E2. apply insert_id, links_lookup, E. Qed.

Lemma ofl_add_empty fp f w :
  w_files w !! fp = Some f -> w_ofl_head w = 0 ->
  ofl_add fp w = Done fp (World (w_heap w) (<[fp := set_next 0 f]> (w_files w)) fp (w_errno w) (w_log w)).
Proof.
  intros Hf Hh. unfold ofl_add. apply swp_eq, swp_bind, swp_gets, swp_bind, (swp_upd_file fp f); [exact Hf|].
  rewrite Hh. apply swp_bind, swp_ret, swp_bind, swp_modify, swp_ret. auto.
Qed.

Lemma ofl_add_head fp f x g w :
  w_files w !! fp = Some f -> w_ofl_head w = x -> x <> 0 -> x <> fp -> w_files w !! x = Some g ->
  ofl_add fp w = Done fp
    (World (w_heap w) (<[x := set_prev fp g]> (<[fp := set_next x f]> (w_files w))) fp (w_errno w) (w_log w)).
Proof.
  intros Hf Hh Hx Hfp Hg. unfold ofl_add. apply swp_eq, swp_bind, swp_gets, swp_bind, (swp_upd_file fp f); [exact Hf|].
  rewrite Hh, (proj2 (Z.eqb_neq x 0) Hx). apply swp_bind. cbn [negb].
  apply (swp_upd_file x g); [cbn; now rewrite lookup_insert_ne by auto|].
  apply swp_bind, swp_modify, swp_ret. auto.
Qed.

(** The first stream of the list. *)
Lemma ofl_first w x fps :
  ofl_ok w (x :: fps) -> exists g, w_files w !! x = Some g /\ f_prev g = 0 /\ f_next g = hd_addr id 0 fps.
Proof.
  intros [[Hx _] _ _ _]. unfold links, link_cell, id in Hx. rewrite lookup_fmap in Hx.
  destruct (w_files w !! x) as [g|]; [|discriminate]. injection Hx as E1 E2. eauto.
Qed.

(** The objects other than [fp] keep everything but their back links. *)
Definition keeps_objects (fp : Z) w w' : Prop :=
  forall a g, a <> fp -> w_files w !! a = Some g ->
    exists p n, w_files w' !! a = Some (set_prev p (set_next n g)).

Lemma set_links_id g : set_prev (f_prev g) (set_next (f_next g) g) = g.
Proof. now destruct g. Qed.

Lemma ofl_add_spec fp f fps w :
  ofl_ok w fps -> w_files w !! fp = Some f -> f_prev f = 0 -> fp <> 0 -> fp ∉ fps ->
  exists w' n, ofl_add fp w = Done fp w' /\ ofl_ok w' (fp :: fps) /\
    w_heap w' = w_heap w /\ w_log w' = w_log w /\
    w_files w' !! fp = Some (set_next n f) /\ keeps_objects fp w w'.
Proof.
  intros Hok Hf Hp Hfp Hnew. pose proof Hok as [Hs Hh Hn Hz]. destruct fps as [|x fps].
  - eexists _, 0. split; [exact (ofl_add_empty fp f w Hf Hh)|]. split; [|split; [reflexivity|split; [reflexivity|split]]].
    + split; cbn [w_files w_ofl_head]; [|reflexivity|now constructor|rewrite list_elem_of_singleton; auto].
      rewrite links_insert. cbn. rewrite Hp. split; [apply lookup_insert_eq|exact I].
    + apply lookup_insert_eq.
    + intros a g Ha Hg. exists (f_prev g), (f_next g). cbn. now rewrite lookup_insert_ne, set_links_id by auto.
  - destruct (ofl_first _ _ _ Hok) as (g & Hg & Hg1 & Hg2). rewrite not_elem_of_cons in Hnew, Hz.
    inversion Hn as [|? ? Hn1 Hn2]; subst. destruct Hs as [Hx Hs].
    assert (Hxfp : x <> fp) by (intros ->; tauto). assert (Hx0 : x <> 0) by (intros ->; tauto).
    eexists _, x. split; [exact (ofl_add_head fp f x g w Hf Hh Hx0 Hxfp Hg)|].
    split; [|split; [reflexivity|split; [reflexivity|split]]].
    + split; cbn [w_files w_ofl_head]; [|reflexivity|constructor; [rewrite not_elem_of_cons; tauto|now constructor]
        |rewrite !not_elem_of_cons; auto].
      rewrite !links_insert. cbn. rewrite Hp, Hg2. unfold id.
      split; [now rewrite lookup_insert_ne, lookup_insert_eq by exact Hxfp|]. split; [apply lookup_insert_eq|].
      eapply dseg_ext; [|exact Hs]. intros y Hy. rewrite !lookup_insert_ne by (intros <-; tauto). reflexivity.
    + cbn. rewrite lookup_insert_ne by exact Hxfp. apply lookup_insert_eq.
    + intros a g' Ha Hg'. cbn. destruct (Z.eq_dec a x) as [->|Hax].
      * rewrite Hg' in Hg. injection Hg as ->. exists fp, (f_next g). rewrite lookup_insert_eq. now destruct g.
      * exists (f_prev g'), (f_next g'). now rewrite !lookup_insert_ne, set_links_id by auto.
Qed.

(** Removal. *)
Lemma swp_upd_alter a g (Q : unit -> world H -> Prop) w :
  is_Some (w_files w !! a) ->
  Q tt (World (w_heap w) (alter g a (w_files w)) (w_ofl_head w) (w_errno w) (w_log w)) -> swp (upd_file a g) Q w.
Proof.
  intros [f Hf] HQ. apply (swp_upd_file a f); [exact Hf|].
  assert (E : <[a := g f]> (w_files w) = alter g a (w_files w)); [|now rewrite E].
  apply map_eq. intros b. destruct (Z.eq_dec b a) as [->|Hb].
  - now rewrite lookup_insert_eq, lookup_alter_eq, Hf.
  - now rewrite lookup_insert_ne, lookup_alter_ne by auto.
Qed.

Definition unlink (prev next : Z) (files : gmap Z FILE) : gmap Z FILE :=
  let files := if prev =? 0 then files else alter (set_next next) prev files in
  if next =? 0 then files else alter (set_prev prev) next files.

Lemma unlink_lookup prev next files a :
  unlink prev next files !! a =
  (fun f => set_prev (if (a =? next) && negb (next =? 0) then prev else f_prev f)
      (set_next (if (a =? prev) && negb (prev =? 0) then next else f_next f) f)) <$> files !! a.
Proof.
  unfold unlink. destruct (prev =? 0) eqn:Ep, (next =? 0) eqn:En; zbool; cbn [negb];
    destruct (a =? prev) eqn:E1, (a =? next) eqn:E2; cbn [andb]; zbool; subst; try congruence;
    rewrite ?lookup_alter_eq, ?lookup_alter_ne, ?lookup_alter_eq, ?lookup_alter_ne by congruence;
    destruct (files !! _) as [[]|]; reflexivity.
Qed.

Lemma ofl_remove_run fp f w :
  w_files w !! fp = Some f -> f_prev f <> fp -> f_next f <> fp ->
  (f_prev f <> 0 -> is_Some (w_files w !! f_prev f)) -> (f_next f <> 0 -> is_Some (w_files w !! f_next f)) ->
  ofl_remove fp w = Done tt (World (w_heap w) (unlink (f_prev f) (f_next f) (w_files w))
    (if w_ofl_head w =? fp then f_next f else w_ofl_head w) (w_errno w) (w_log w)).
Proof.
  intros Hf Hp Hn Hps Hns. unfold ofl_remove, unlink. apply swp_eq, swp_bind, (swp_get_file fp f); [exact Hf|].
  apply swp_bind.
  assert (Hend : forall files, files !! fp = Some f ->
    swp (head ← gets w_ofl_head; f ← get_file fp; if head =? fp then set_head (f_next f) else mret tt)
      (fun x y => x = tt /\ y = World (w_heap w) files (if w_ofl_head w =? fp then f_next f else w_ofl_head w)
         (w_errno w) (w_log w)) (World (w_heap w) files (w_ofl_head w) (w_errno w) (w_log w))).
  { intros files Hfi. apply swp_bind, swp_gets, swp_bind, (swp_get_file fp f); [exact Hfi|].
    cbn [w_ofl_head]. destruct (w_ofl_head w =? fp); [apply swp_modify|apply swp_ret]; auto. }
  assert (Hmid : forall files, files !! fp = Some f -> (f_next f <> 0 -> is_Some (files !! f_next f)) ->
    swp (f ← get_file fp;
         (if negb (f_next f =? 0) then upd_file (f_next f) (set_prev (f_prev f)) else mret tt);;
         head ← gets w_ofl_head; f ← get_file fp; if head =? fp then set_head (f_next f) else mret tt)
      (fun x y => x = tt /\ y = World (w_heap w)
         (if f_next f =? 0 then files else alter (set_prev (f_prev f)) (f_next f) files)
         (if w_ofl_head w =? fp then f_next f else w_ofl_head w)
         (w_errno w) (w_log w)) (World (w_heap w) files (w_ofl_head w) (w_errno w) (w_log w))).
  { intros files Hfi Hnx. apply swp_bind, (swp_get_file fp f); [exact Hfi|]. apply swp_bind.
    destruct (f_next f =? 0) eqn:En; cbn [negb]; zbool; [apply swp_ret, Hend, Hfi|].
    apply swp_upd_alter; [now apply Hnx|]. apply Hend. now rewrite lookup_alter_ne by auto. }
  destruct (f_prev f =? 0) eqn:Ep; cbn [negb]; zbool.
  - apply swp_ret. destruct w. apply Hmid; assumption.
  - apply swp_upd_alter; [now apply Hps|]. apply Hmid; cbn [w_files].
    + now rewrite lookup_alter_ne by auto.
    + intros Hn0. destruct (Z.eq_dec (f_next f) (f_prev f)) as [->|Hd].
      * rewrite lookup_alter_eq. destruct (Hps Ep) as [? ->]. eauto.
      * rewrite lookup_alter_ne by auto. auto.
Qed.

Lemma links_unlink prev next files a :
  links (unlink prev next files) !! a = relink prev next a <$> links files !! a.
Proof. unfold links. rewrite !lookup_fmap, unlink_lookup. now destruct (files !! a). Qed.

Lemma ofl_member w l1 fp l2 :
  ofl_ok w (l1 ++ fp :: l2) ->
  exists f, w_files w !! fp = Some f /\ f_prev f = last_addr id 0 l1 /\ f_next f = hd_addr id 0 l2.
Proof.
  intros [Hs _ _ _]. apply (dseg_lookup link_cell id) in Hs. unfold links, id, link_cell in Hs.
  rewrite lookup_fmap in Hs. destruct (w_files w !! fp) as [f|]; [|discriminate]. injection Hs as E1 E2. eauto.
Qed.

Lemma ofl_some w fps a : ofl_ok w fps -> a ∈ fps -> is_Some (w_files w !! a).
Proof. intros Hok (l1 & l2 & ->)%list_elem_of_split. destruct (ofl_member _ _ _ _ Hok) as (f & Hf & _). eauto. Qed.

Lemma ofl_remove_spec l1 fp l2 w :
  ofl_ok w (l1 ++ fp :: l2) ->
  exists w' f, ofl_remove fp w = Done tt w' /\ ofl_ok w' (l1 ++ l2) /\
    w_heap w' = w_heap w /\ w_log w' = w_log w /\
    w_files w !! fp = Some f /\ w_files w' !! fp = Some f /\ keeps_objects fp w w'.
Proof.
  intros Hok. destruct (ofl_member _ _ _ _ Hok) as (f & Hf & Ep & En). pose proof Hok as [Hs Hh Hnd Hz].
  pose proof Hnd as (_ & Hd12 & Hd2)%list.NoDup_app. inversion Hd2 as [|? ? Hd3 _]; subst.
  assert (Hp : f_prev f <> fp).
  { rewrite Ep. destruct (last_addr_in 0 l1) as [->|Hin]; intros <-; [|now apply (Hd12 _ Hin); left].
    apply Hz, elem_of_app. right. left. }
  assert (Hn : f_next f <> fp).
  { rewrite En. destruct (hd_addr_in 0 l2) as [->|Hin]; intros <-; [|tauto]. apply Hz, elem_of_app. right. left. }
  eexists _, f. split; [apply (ofl_remove_run fp f w Hf Hp Hn)|].
  - rewrite Ep. intros Hne. eapply ofl_some; [exact Hok|].
    destruct (last_addr_in 0 l1) as [|Hin]; [tauto|]. apply elem_of_app. auto.
  - rewrite En. intros Hne. eapply ofl_some; [exact Hok|].
    destruct (hd_addr_in 0 l2) as [|Hin]; [tauto|]. apply elem_of_app. right. now right.
  - split; [split; cbn [w_files w_ofl_head]|cbn; split; [reflexivity|split; [reflexivity|split; [exact Hf|split]]]].
    + rewrite Ep, En. apply (chain_unlink (links (w_files w)) _ l1 fp l2); auto. intros a _. apply links_unlink.
    + rewrite Hh. destruct l1 as [|x l1]; cbn; unfold id; [now rewrite Z.eqb_refl, En|].
      rewrite (proj2 (Z.eqb_neq x fp)); [reflexivity|]. intros ->. apply (Hd12 fp); left.
    + rewrite <- (Permutation_middle l1 l2 fp) in Hnd. now inversion Hnd.
    + rewrite elem_of_app in *. rewrite elem_of_cons in Hz. tauto.
    + rewrite unlink_lookup, Hf. cbn. rewrite (proj2 (Z.eqb_neq fp (f_next f))), (proj2 (Z.eqb_neq fp (f_prev f))) by auto.
      cbn. now destruct f.
    + intros a g Ha Hg. cbn. rewrite unlink_lookup, Hg. cbn. eauto.
Qed.

(** ** Opening and closing *)

Lemma swp_lift {A} (c : SM H A) a h (Q : A -> world H -> Prop) w :
  c (w_heap w) = Done a h -> Q a (World h (w_files w) (w_ofl_head w) (w_errno w) (w_log w)) -> swp (lift c) Q w.
Proof. intros E HQ. unfold swp, lift. now rewrite E. Qed.

Lemma swp_syscall r (Q : Z * list Z -> world H -> Prop) w :
  Q (sys (w_log w) r) (World (w_heap w) (w_files w) (w_ofl_head w) (w_errno w) (w_log w ++ [(r, sys (w_log w) r)])) ->
  swp (syscall sys r) Q w.
Proof. exact id. Qed.

Lemma swp_errno_wrap r (Q : Z -> world H -> Prop) w :
  (forall e, Q (if r <? 0 then -1 else r) (World (w_heap w) (w_files w) (w_ofl_head w) e (w_log w))) ->
  swp (errno_wrap r) Q w.
Proof.
  intros HQ. destruct (errno_wrap_spec r w) as (k & e & E & E1 & E2). eapply swp_run; [exact E|].
  specialize (HQ e). destruct (r <? 0) eqn:Er; zbool; [rewrite E2 by lia|rewrite E1 by lia]; exact HQ.
Qed.

(** Blocks of the stream objects. *)
Definition objects (fps : list Z) : list (Z * Z) := (fun fp => (fp, sizeof_FILE)) <$> fps.

Lemma fresh_object h p fps L :
  al_holds h ((p, sizeof_FILE) :: objects fps ++ L) -> p ∉ fps.
Proof.
  intros Hh Hin. destruct (al_apart h [] p sizeof_FILE _ Hh) as (_ & _ & Ha).
  destruct (Ha p sizeof_FILE) as [?|?]; [|unfold sizeof_FILE in *; lia..].
  cbn [app]. apply elem_of_app. left. unfold objects. apply list_elem_of_fmap. eauto.
Qed.

(** What [falloc] leaves. *)
Record allocated (fps : list Z) (L : list (Z * Z)) (w : world H) (p : Z) (f : FILE) (w' : world H) : Prop := {
  fa_above : 64 < p;
  fa_list : ofl_ok w' (p :: fps);
  fa_heap : al_holds (w_heap w') (objects (p :: fps) ++ L);
  fa_file : w_files w' !! p = Some f;
  fa_others : keeps_objects p w w' }.

Lemma falloc_spec fps L p h w :
  ofl_ok w fps -> al_holds (w_heap w) (objects fps ++ L) ->
  al_malloc sizeof_FILE (w_heap w) = Done p h -> p <> 0 ->
  swp falloc (fun q w' => q = p /\ w_log w' = w_log w /\ exists n,
    allocated fps L w p (set_next n (set_flock 0 (set_lock (-1) (set_fd (-1) FILE0)))) w') w.
Proof.
  intros Hok Hh Em Hp. destruct (al_malloc_ok _ _ sizeof_FILE Hh) as (p' & h' & Em' & _ & Hm); [unfold sizeof_FILE; lia|].
  rewrite Em in Em'. injection Em' as <- <-. destruct Hm as [[? _]|[_ Hh']]; [tauto|].
  pose proof (fresh_object _ _ _ _ Hh') as Hnew. destruct (al_apart h [] p sizeof_FILE _ Hh') as (_ & Habove & _).
  unfold falloc. apply swp_bind, (swp_lift _ _ _ _ _ Em), swp_bind. rewrite (proj2 (Z.eqb_neq p 0) Hp). apply swp_modify.
  do 3 (apply swp_bind; eapply swp_upd_file; [apply lookup_insert_eq|]; cbn [w_files w_heap w_ofl_head w_errno w_log];
    rewrite insert_insert_eq).
  set (f0 := set_flock 0 _). set (w1 := World _ _ _ _ _).
  assert (Hok1 : ofl_ok w1 fps).
  { destruct Hok as [S1 S2 S3 S4]. split; try assumption. cbn [w1 w_files]. rewrite links_insert.
    eapply dseg_ext; [|exact S1]. intros x Hx. unfold id. now rewrite lookup_insert_ne by (intros <-; tauto). }
  destruct (ofl_add_spec p f0 fps w1 Hok1) as (w' & n & E & Hok' & E1 & E2 & E3 & E4);
    [apply lookup_insert_eq|reflexivity|exact Hp|exact Hnew|].
  eapply swp_run; [exact E|]. split; [reflexivity|]. split; [exact E2|]. exists n. split; try assumption.
  - rewrite E1. exact Hh'.
  - intros a g Ha Hg. apply E4; [exact Ha|]. cbn [w1 w_files]. now rewrite lookup_insert_ne by auto.
Qed.

(** A stream as [fdopen] sets it up. *)
Definition fresh_stream (fd n pos : Z) : FILE :=
  File fd n 0 0 0 pos true true true true (-1) 1 BUFROLE_NONE 0 0 BUFSIZ (Some (zero_array BUFSIZ)) 0.

Lemma fresh_ready fd n pos : fd <> -1 -> ready (fresh_stream fd n pos).
Proof.
  intros Hfd. split; [|reflexivity]. split; cbn; try reflexivity; try assumption; try discriminate; try lia.
  - eexists. split; [reflexivity|]. now apply length_zero_array.
  - unfold BUFSIZ. lia.
  - constructor.
Qed.

(** Replacing an object by one with the same links. *)
Lemma allocated_upd fps L w p f w' g e log :
  allocated fps L w p f w' -> f_prev g = f_prev f -> f_next g = f_next f ->
  allocated fps L w p g (World (w_heap w') (<[p := g]> (w_files w')) (w_ofl_head w') e log).
Proof.
  intros [A1 [S1 S2 S3 S4] A3 A4 A5] E1 E2. split; try assumption.
  - split; try assumption. cbn [w_files]. now rewrite (links_same _ _ f).
  - apply lookup_insert_eq.
  - intros a g' Ha Hg. cbn [w_files]. rewrite lookup_insert_ne by auto. now apply A5.
Qed.

Lemma fdopen_spec fps L p h fd mode w :
  ofl_ok w fps -> al_holds (w_heap w) (objects fps ++ L) -> string_to_mode mode <> -1 ->
  al_malloc sizeof_FILE (w_heap w) = Done p h -> p <> 0 ->
  swp (fdopen sys fd mode) (fun q w' => q = p /\
    (exists a, w_log w' = w_log w ++ [(RLseek fd 0 SEEK_CUR, a)]) /\ exists n pos,
    allocated fps L w p (fresh_stream fd n pos) w') w.
Proof.
  intros Hok Hh Hm Em Hp. unfold fdopen. rewrite (proj2 (Z.eqb_neq _ _) Hm). apply swp_bind.
  eapply swp_mono; [exact (falloc_spec fps L p h w Hok Hh Em Hp)|]. intros q w1 (-> & Hlog & n & Ha).
  apply swp_bind. eapply swp_upd_file; [apply Ha|]. set (f1 := set_fd fd _).
  pose proof (allocated_upd fps L w p _ w1 f1 (w_errno w1) (w_log w1) Ha eq_refl eq_refl) as Ha1.
  set (w2 := World _ _ _ _ _) in *. apply swp_bind. unfold ftell, lseek.
  apply swp_bind, (swp_get_file p f1); [apply Ha1|]. apply swp_bind, swp_syscall.
  destruct (sys _ _) as [r bytes] eqn:Es. apply swp_errno_wrap. intros e. cbn [w_files w_heap w_ofl_head w_log].
  set (log' := w_log w2 ++ _). set (pos := if r <? 0 then -1 else r).
  apply swp_bind. eapply swp_upd_file; [apply Ha1|]. cbn [w_files w_heap w_ofl_head w_log w_errno].
  apply swp_bind. eapply swp_upd_file; [apply lookup_insert_eq|]. cbn [w_files w_heap w_ofl_head w_log w_errno].
  apply swp_ret. split; [reflexivity|]. split; [cbn [w_log]; unfold log', w2; cbn [w_log]; rewrite Hlog; eauto|].
  exists n, (s32 pos). rewrite insert_insert_eq.
  exact (allocated_upd fps L w p f1 w2 (fresh_stream fd n (s32 pos)) e log' Ha1 eq_refl eq_refl).
Qed.

(** A failed open changes the error number and the history only. *)
Definition only_log (w w' : world H) : Prop :=
  w_heap w' = w_heap w /\ w_files w' = w_files w /\ w_ofl_head w' = w_ofl_head w.

Lemma fopen_done fps L path mode q w w' :
  ofl_ok w fps -> al_holds (w_heap w) (objects fps ++ L) -> fopen sys path mode w = Done q w' ->
  q = 0 /\ only_log w w' \/
  exists fd n pos, 0 <= fd /\ allocated fps L w q (fresh_stream fd n pos) w'.
Proof.
  intros Hok Hh E. unfold fopen in E. destruct (string_to_mode mode =? -1) eqn:Em.
  { left. injection E as <- <-. repeat split. }
  zbool. unfold open, syscall in E. unfold mbind at 1, SM_bind at 1 in E. unfold mbind at 1, SM_bind at 1 in E.
  destruct (sys (w_log w) _) as [r bytes] eqn:Es.
  set (w1 := World _ _ _ _ _) in E. destruct (errno_wrap_spec (s32 r) w1) as (k & e & Ew & K1 & K2). rewrite Ew in E.
  set (w2 := World _ _ _ _ _) in E. destruct (k <? 0) eqn:Ek; zbool.
  { left. injection E as <- <-. repeat split. }
  right. assert (Hok2 : ofl_ok w2 fps) by (destruct Hok; now split).
  destruct (al_malloc_ok (w_heap w) _ sizeof_FILE Hh) as (p & h & Emal & _ & _); [unfold sizeof_FILE; lia|].
  destruct (Z.eq_dec p 0) as [->|Hp].
  - exfalso. unfold fdopen in E. rewrite (proj2 (Z.eqb_neq _ _) Em) in E. unfold falloc, mbind, SM_bind, lift in E.
    cbn [w_heap w2 w1] in E. rewrite Emal in E. discriminate E.
  - pose proof (fdopen_spec fps L p h k mode w2 Hok2 Hh Em Emal Hp) as Hs. unfold swp in Hs. rewrite E in Hs.
    destruct Hs as (-> & _ & n & pos & [A1 A2 A3 A4 A5]). exists k, n, pos. split; [lia|]. split; assumption.
Qed.

Lemma fclose_spec l1 fp l2 L w :
  ofl_ok w (l1 ++ fp :: l2) -> al_holds (w_heap w) (objects (l1 ++ fp :: l2) ++ L) ->
  exists w' f, fclose sys fp w = Done 0 w' /\ w_files w !! fp = Some f /\
    ofl_ok w' (l1 ++ l2) /\ al_holds (w_heap w') (objects (l1 ++ l2) ++ L) /\ keeps_objects fp w w' /\
    (exists a, w_log w' = w_log w ++ if f_close f then [(RClose (f_fd f), a)] else []).
Proof.
  intros Hok Hh. destruct (ofl_member _ _ _ _ Hok) as (f & Hf & _).
  cut (swp (fclose sys fp) (fun r w' => r = 0 /\
    ofl_ok w' (l1 ++ l2) /\ al_holds (w_heap w') (objects (l1 ++ l2) ++ L) /\ keeps_objects fp w w' /\
    (exists a, w_log w' = w_log w ++ if f_close f then [(RClose (f_fd f), a)] else [])) w).
  { intros Hs. apply swp_ok in Hs as (r & w' & E & -> & Hw). exists w', f. auto. }
  unfold fclose. apply swp_bind, (swp_get_file fp f); [exact Hf|]. apply swp_bind.
  apply swp_mono with (P := fun _ w1 => only_log w w1 /\
    exists a, w_log w1 = w_log w ++ if f_close f then [(RClose (f_fd f), a)] else []).
  { destruct (f_close f); [|apply swp_ret; split; [repeat split|exists (0, []); now rewrite app_nil_r]].
    apply swp_bind. unfold _stdio_close. apply swp_bind, (swp_get_file fp f); [exact Hf|].
    apply swp_bind, swp_syscall. destruct (sys _ _) as [r b]. apply swp_bind, swp_errno_wrap. intros e.
    apply swp_ret, swp_ret. split; [repeat split|]. cbn. eauto. }
  intros _ w1 ((E1 & E2 & E3) & Hlog). apply swp_bind. unfold ffree.
  assert (Hok1 : ofl_ok w1 (l1 ++ fp :: l2)) by (destruct Hok; split; congruence).
  destruct (ofl_remove_spec l1 fp l2 w1 Hok1) as (w2 & f2 & Er & [S1 S2 S3 S4] & R1 & R2 & _ & R4 & R5).
  apply swp_bind. eapply swp_run; [exact Er|]. apply swp_bind, swp_modify.
  assert (Hh2 : al_holds (w_heap w2) (objects l1 ++ (fp, sizeof_FILE) :: objects l2 ++ L)).
  { rewrite R1, E1. eapply al_perm; [|exact Hh]. unfold objects. now rewrite fmap_app, <- app_assoc. }
  destruct (al_free_ok (w_heap w2) (objects l1) fp sizeof_FILE (objects l2 ++ L) Hh2) as (h' & Ef & Hh' & _).
  eapply swp_lift; [exact Ef|]. apply swp_ret. split; [reflexivity|]. cbn [w_files w_heap w_ofl_head w_log].
  assert (Hfp : fp ∉ l1 ++ l2).
  { destruct Hok as [_ _ Hnd _]. rewrite <- (Permutation_middle l1 l2 fp) in Hnd. now inversion Hnd. }
  split; [|split; [|split]].
  - split; cbn [w_files w_ofl_head]; auto. eapply dseg_ext; [|exact S1]. intros x Hx. unfold links, id.
    now rewrite !lookup_fmap, lookup_delete_ne by (intros <-; tauto).
  - unfold objects in *. now rewrite fmap_app, <- app_assoc.
  - intros a g Ha Hg. cbn. rewrite lookup_delete_ne by auto. apply R5; [exact Ha|]. congruence.
  - now rewrite R2.
Qed.
End list.
