(* ===== verification/StdioSession.v ===== *)
(** * Streams: whole programs

    A session is what a program can do with streams from its start on: open,
    write, flush and close them.  The invariant of sessions, what reaches the
    kernel, and what is left when the program exits. *)

From S2P Require Import Prelude CMem State Dll Alloc AllocSpec AllocMalloc AllocProps Allocator Double Printf PrintfSpec PrintfProps.
From S2P Require Import Stdio StdioSpec StdioProps.
Import (notations) Ascii String.

Section session.
Context {H : Type} `{Allocator H}.
Context (sys : list event -> request -> Z * list Z).
Implicit Types w : world H.

Inductive session : world H -> list Z -> Prop :=
| session_start h : al_holds h [] -> session (world0 h) []
| session_open w fps path mode fp w' :
    session w fps -> fopen sys path mode w = Done fp w' -> session w' (if fp =? 0 then fps else fp :: fps)
| session_close w l1 fp l2 r w' :
    session w (l1 ++ fp :: l2) -> fclose sys fp w = Done r w' -> session w' (l1 ++ l2)
| session_write w fps fp o w' :
    session w fps -> fp ∈ stdout :: stderr :: fps -> op_ok o -> run_op sys fp o w = Done tt w' -> session w' fps.

(** The list is well linked, its objects are blocks of the heap above the
    static objects, and all its streams and the two static ones can be written. *)
Record session_ok w (fps : list Z) : Prop := {
  so_list : ofl_ok w fps;
  so_heap : al_holds (w_heap w) (objects fps);
  so_above : Forall (fun fp => 64 < fp) fps;
  so_ready : forall fp, fp ∈ stdout :: stderr :: fps -> exists f, w_files w !! fp = Some f /\ ready f }.

Lemma world0_ok h : al_holds h [] -> session_ok (world0 h) [].
Proof.
  intros Hh. split; [split; cbn; auto; [constructor|apply not_elem_of_nil]|exact Hh|constructor|].
  assert (Hs : forall fd, fd <> -1 -> ready (File fd 0 0 0 0 0 false false true false 0 1 0 0 0 BUFSIZ (Some (zero_array BUFSIZ)) 0)).
  { intros fd Hfd. split; [|reflexivity]. split; cbn; try reflexivity; try assumption; try discriminate; try lia.
    - eexists. split; [reflexivity|]. now apply length_zero_array.
    - unfold BUFSIZ. lia.
    - constructor. }
  intros fp. rewrite !elem_of_cons. intros [->|[->|[]%not_elem_of_nil]];
    (eexists; split; [reflexivity|apply Hs; discriminate]).
Qed.

Lemma ready_links p n f : ready f -> ready (set_prev p (set_next n f)).
Proof. intros [[O1 O2 O3 O4 O5 O6] Hl]. split; [|exact Hl]. split; assumption. Qed.

(** A write keeps the links. *)
Lemma wrote_links fp bs w w' : wrote fp bs w w' ->
  links (w_files w') = links (w_files w) /\ w_ofl_head w' = w_ofl_head w /\ w_heap w' = w_heap w.
Proof.
  intros (f & b & l & r & e & evs & Hf & _ & _ & -> & _). split; [|split; reflexivity].
  cbn [w_files]. now apply (links_same _ _ f).
Qed.

Lemma wrote_session fp bs w w' fps :
  session_ok w fps -> fp ∈ stdout :: stderr :: fps -> wrote fp bs w w' -> session_ok w' fps.
Proof.
  intros [[S1 S2 S3 S4] Hh Ha Hr] Hin Hw. destruct (wrote_links _ _ _ _ Hw) as (E1 & E2 & E3). split.
  - split; congruence.
  - now rewrite E3.
  - exact Ha.
  - intros fp' Hin'. destruct (Hr _ Hin') as (f & Hf & Hrf).
    destruct (Z.eq_dec fp' fp) as [->|Hne].
    + destruct (wrote_ready _ _ _ _ _ Hw Hf Hrf) as (f' & Hf' & Hr' & _). eauto.
    + destruct Hw as (f0 & b & l & r & e & evs & _ & _ & _ & -> & _). cbn [w_files].
      rewrite lookup_insert_ne by auto. eauto.
Qed.

Lemma session_inv w fps : session w fps -> session_ok w fps.
Proof.
  induction 1 as [h Hh|w fps path mode fp w' _ IH E|w l1 fp l2 r w' _ IH E|w fps fp o w' _ IH Hin Ho E].
  - now apply world0_ok.
  - destruct IH as [Hl Hh Ha Hr]. rewrite <- (app_nil_r (objects fps)) in Hh.
    destruct (fopen_done sys fps [] path mode fp w w' Hl Hh E) as [(-> & E1 & E2 & E3)|(fd & n & pos & Hfd & Hall)].
    + cbn. rewrite app_nil_r in Hh. split; [destruct Hl; split; congruence|congruence|exact Ha|].
      intros fp Hin. rewrite E2. now apply Hr.
    + destruct Hall as [A1 A2 A3 A4 A5]. rewrite (proj2 (Z.eqb_neq fp 0)) by lia. rewrite app_nil_r in A3.
      split; [exact A2|exact A3|now constructor|]. intros fp' Hin'.
      destruct (Z.eq_dec fp' fp) as [->|Hne]; [eexists; split; [exact A4|apply fresh_ready; lia]|].
      destruct (Hr fp') as (f & Hf & Hrf); [rewrite !elem_of_cons in *; tauto|].
      destruct (A5 fp' f Hne Hf) as (p & k & Hf'). eexists. split; [exact Hf'|]. now apply ready_links.
  - destruct IH as [Hl Hh Ha Hr]. rewrite <- (app_nil_r (objects _)) in Hh.
    destruct (fclose_spec sys l1 fp l2 [] w Hl Hh) as (w1 & f & E1 & Hf & Hl' & Hh' & Hk & _).
    rewrite E in E1. injection E1 as -> <-. rewrite app_nil_r in Hh'.
    rewrite Forall_app, Forall_cons_iff in Ha. split; [exact Hl'|exact Hh'|apply Forall_app; tauto|].
    intros fp' Hin'. assert (Hne : fp' <> fp).
    { intros ->. destruct Hl as [_ _ Hnd _]. rewrite <- (Permutation_middle l1 l2 fp) in Hnd.
      inversion Hnd as [|? ? Hn _]; subst. rewrite !elem_of_cons in Hin'. unfold stdout, stderr in Hin'.
      destruct Hin' as [?|[?|?]]; [lia..|tauto]. }
    destruct (Hr fp') as (g & Hg & Hrg).
    { rewrite !elem_of_cons, elem_of_app in *. rewrite elem_of_cons. tauto. }
    destruct (Hk fp' g Hne Hg) as (p & k & Hg'). eexists. split; [exact Hg'|]. now apply ready_links.
  - destruct (so_ready _ _ IH fp Hin) as (f & Hf & Hr).
    destruct (run_op_spec sys fp f o w Hf Hr Ho) as (w1 & E1 & Hw). rewrite E in E1. injection E1 as <-.
    eapply wrote_session; eauto.
Qed.

(** ** Leaving the program *)

(** A flush of one of the streams: the others are not touched. *)
Lemma flush_session fp fps S w :
  session_ok w fps -> fp ∈ stdout :: stderr :: fps -> streams w S -> S.*1 = stdout :: stderr :: fps ->
  exists w', fflush sys fp w = Done 0 w' /\ session_ok w' fps /\ streams w' S /\
    links (w_files w') = links (w_files w) /\ w_ofl_head w' = w_ofl_head w /\
    (forall fp' fd, (fp', fd) ∈ S -> accepted w' fp' fd = accepted w fp' fd) /\
    (exists f, w_files w' !! fp = Some f /\ pending f = []) /\
    (forall fp', fp' <> fp -> w_files w' !! fp' = w_files w !! fp').
Proof.
  intros Hok Hin Hs ES. destruct (so_ready _ _ Hok fp Hin) as (f & Hf & Hr & Hl).
  destruct (fflush_spec sys fp f w Hf Hr) as (w' & E & Hw & f' & Hf' & Hp).
  exists w'. split; [exact E|]. split; [eapply wrote_session; eauto|].
  rewrite <- ES in Hin. apply list_elem_of_fmap in Hin as ([fp0 fd] & -> & Hin). cbn [fst] in *.
  destruct (wrote_streams fp0 fd [] S w w' Hs Hin Hw) as (Hs' & Ha & Hn).
  destruct (wrote_links _ _ _ _ Hw) as (E1 & E2 & _).
  split; [exact Hs'|]. split; [exact E1|]. split; [exact E2|]. split; [|split; [eauto|]].
  - intros fp' fd' Hin'. destruct (Z.eq_dec fp' fp0) as [->|Hne]; [|now apply Hn].
    assert (fd' = fd) as ->; [|now rewrite Ha, app_nil_r].
    destruct Hs as (Hnd & _). apply list_elem_of_lookup in Hin as [i Hi], Hin' as [j Hj].
    assert (i = j); [|congruence]. eapply NoDup_lookup; [exact Hnd| |]; rewrite list_lookup_fmap, ?Hi, ?Hj; reflexivity.
  - intros fp' Hne. destruct Hw as (f0 & b & l & r & e & evs & _ & _ & _ & -> & _). cbn [w_files].
    now rewrite lookup_insert_ne by auto.
Qed.

(** The walk over the rest of the list. *)
Lemma exit_walk fps S l2 fuel : forall l1 w,
  session_ok w fps -> fps = l1 ++ l2 -> streams w S -> S.*1 = stdout :: stderr :: fps -> (length l2 < fuel)%nat ->
  exists w', sloop fuel (fun f => if f =? 0 then mret (Break tt)
      else fflush sys f;; r ← get_file f; mret (Next (f_next r))) (hd_addr id 0 l2) w = Done tt w' /\
    streams w' S /\ (forall fp fd, (fp, fd) ∈ S -> accepted w' fp fd = accepted w fp fd) /\
    (forall fp, fp ∈ l2 -> exists f, w_files w' !! fp = Some f /\ pending f = []) /\
    (forall fp, fp ∉ l2 -> w_files w' !! fp = w_files w !! fp).
Proof.
  revert fuel. induction l2 as [|x l2 IH]; intros fuel l1 w Hok Efps Hs ES Hf; (destruct fuel as [|fuel]; [cbn in Hf; lia|]).
  - exists w. split; [reflexivity|]. split; [exact Hs|]. split; [reflexivity|].
    split; [intros ? []%not_elem_of_nil|reflexivity].
  - assert (Hx : x ∈ stdout :: stderr :: fps) by (rewrite Efps, !elem_of_cons, elem_of_app; right; right; right; left).
    destruct (flush_session x fps S w Hok Hx Hs ES) as (w1 & E1 & Hok1 & Hs1 & L1 & L2 & Ha1 & (f & Hf1 & Hp1) & Hn1).
    pose proof (so_list _ _ Hok1) as Hl. rewrite Efps in Hl. destruct (ofl_member _ _ _ _ Hl) as (f' & Hf' & _ & En).
    rewrite Hf1 in Hf'. injection Hf' as <-. cbn [length] in Hf.
    destruct (IH fuel (l1 ++ [x]) w1 Hok1) as (w2 & E2 & Hs2 & Ha2 & Hp2 & Hk2); auto; [now rewrite <- app_assoc|lia|].
    assert (Hx0 : x <> 0).
    { intros ->. destruct (so_list _ _ Hok) as [_ _ _ Hz]. apply Hz. rewrite Efps, elem_of_app. right. left. }
    assert (Hx2 : x ∉ l2).
    { destruct (so_list _ _ Hok) as [_ _ Hnd _]. rewrite Efps in Hnd. apply list.NoDup_app in Hnd as (_ & _ & Hnd).
      now inversion Hnd. }
    exists w2. split; [|split; [exact Hs2|split; [|split]]].
    + cbn [sloop hd_addr]. unfold id at 1. apply swp_eq, swp_bind. rewrite (proj2 (Z.eqb_neq x 0) Hx0).
      apply swp_bind. eapply swp_run; [exact E1|]. apply swp_bind, (swp_get_file x f); [exact Hf1|]. apply swp_ret.
      rewrite En. eapply swp_run; [exact E2|]. auto.
    + intros fp fd Hin. rewrite Ha2 by exact Hin. now apply Ha1.
    + intros fp. rewrite elem_of_cons. intros [->|Hin]; [|now apply Hp2]. exists f. now rewrite Hk2.
    + intros fp. rewrite not_elem_of_cons. intros [Hne Hni]. rewrite Hk2 by exact Hni. now apply Hn1.
Qed.

Lemma exit_spec w fps S :
  session_ok w fps -> streams w S -> S.*1 = stdout :: stderr :: fps ->
  exists w', stdio_exit sys w = Done tt w' /\
    forall fp fd, (fp, fd) ∈ S -> written fd (w_log w') = accepted w fp fd.
Proof.
  intros Hok Hs ES.
  destruct (flush_session stdout fps S w Hok ltac:(left) Hs ES) as (w1 & E1 & Hok1 & Hs1 & _ & H1 & A1 & P1 & K1).
  destruct (flush_session stderr fps S w1 Hok1 ltac:(right; left) Hs1 ES) as (w2 & E2 & Hok2 & Hs2 & _ & H2 & A2 & P2 & K2).
  destruct (exit_walk fps S fps (Datatypes.S (size (w_files w2))) [] w2 Hok2 eq_refl Hs2 ES) as (w3 & E3 & Hs3 & A3 & P3 & K3).
  { destruct (so_list _ _ Hok2) as [Hseg _ Hnd _]. apply dseg_size in Hseg; [|now rewrite list_fmap_id].
    unfold links in Hseg. rewrite map_size_fmap in Hseg. lia. }
  exists w3. split.
  - unfold stdio_exit. apply swp_eq, swp_bind. eapply swp_run; [exact E1|]. apply swp_bind. eapply swp_run; [exact E2|].
    apply swp_bind, swp_gets, swp_bind, swp_gets. rewrite (ol_head _ _ (so_list _ _ Hok2)).
    eapply swp_run; [exact E3|]. auto.
  - intros fp fd Hin. rewrite <- (A1 fp fd Hin), <- (A2 fp fd Hin), <- (A3 fp fd Hin). unfold accepted.
    assert (Hfp : fp ∈ stdout :: stderr :: fps) by (rewrite <- ES; apply list_elem_of_fmap; exists (fp, fd); auto).
    assert (Hpend : exists f, w_files w3 !! fp = Some f /\ pending f = []).
    { destruct (decide (fp ∈ fps)) as [Hin'|Hni]; [now apply P3|]. rewrite K3 by exact Hni.
      destruct (Z.eq_dec fp stderr) as [->|Hne]; [exact P2|]. rewrite K2 by exact Hne.
      rewrite !elem_of_cons in Hfp. destruct Hfp as [->|[?|?]]; [exact P1|tauto|tauto]. }
    destruct Hpend as (f & -> & ->). now rewrite app_nil_r.
Qed.
End session.

(** ** Claims *)

(** A kernel for the witnesses: it accepts every write and hands out descriptors
    from 3 on. *)
Definition opens (log : list event) : Z :=
  Z.of_nat (length (List.filter (fun e => match fst e with ROpen _ _ => true | _ => false end) log)).
Definition demo_sys (log : list event) (r : request) : Z * list Z :=
  match r with
  | ROpen _ _ => (3 + opens log, [])
  | RWrite _ bs => (Z.of_nat (length bs), [])
  | _ => (0, [])
  end.

#[local] Instance demo_alloc : Allocator heap := liballoc bump bump_spec.

Definition world_after {A} (c : SM (world heap) A) (w : world heap) : world heap :=
  match c w with Done _ w' => w' | _ => world0 heap0 end.
Definition demo_w0 : world heap := world0 heap0.
Definition demo_fp : Z := 65632.
Definition demo_w1 : world heap := world_after (fopen demo_sys (str "log") (Some (str "w"))) demo_w0.
Definition demo_w2 : world heap := world_after (run_op demo_sys demo_fp (Wputs (str "abc"))) demo_w1.

Lemma demo_session : session demo_sys demo_w2 [demo_fp].
Proof.
  apply (session_write demo_sys demo_w1 [demo_fp] demo_fp (Wputs (str "abc"))).
  - apply (session_open demo_sys demo_w0 [] (str "log") (Some (str "w")) demo_fp).
    + apply session_start. exists []. split; [apply heap0_inv|reflexivity].
    + vm_compute. reflexivity.
  - right. right. left.
  - split; [|cbn; lia]. repeat constructor.
  - vm_compute. reflexivity.
Qed.

(** C9: The invariant of every program that opens, writes, flushes and closes
    streams: the open file list is a well formed doubly linked list of exactly
    the open streams, their objects are held blocks of the heap, and every one
    of them (with stdout and stderr) is unlocked, has room in its buffer and
    holds no complete line back. *)
Theorem session_invariant {H} `{Allocator H} sys (w : world H) fps :
  session sys w fps -> session_ok w fps.
Proof. apply session_inv. Qed.

Lemma session_invariant_witness : session_ok demo_w2 [demo_fp].
Proof. apply (session_invariant demo_sys), demo_session. Defined.

(** C10: Streams refine byte sequences.  Whatever mix of fputc, fwrite, fputs,
    fprintf and fflush a program runs on any number of streams, and whatever
    the kernel answers, the operations succeed and every stream has accepted
    exactly the bytes written to it, in order: what it had before, then the
    bytes of its own operations. *)
Theorem stream_contents {H} `{Allocator H} sys S ops (w : world H) :
  streams w S -> Forall (fun '(fp, o) => fp ∈ S.*1 /\ op_ok o) ops ->
  exists w', run_ops sys ops w = Done tt w' /\ streams w' S /\
    forall fp fd, (fp, fd) ∈ S -> accepted w' fp fd = accepted w fp fd ++ ops_of fp ops.
Proof. apply run_ops_spec. Qed.

Definition demo_streams : list (Z * Z) := [(stdout, 1); (stderr, 2); (demo_fp, 3)].
Lemma demo_streams_ok : streams demo_w2 demo_streams.
Proof.
  split; [|split].
  - repeat constructor; cbn; rewrite ?elem_of_cons, ?elem_of_nil; unfold stdout, stderr, demo_fp; lia.
  - repeat constructor; cbn; rewrite ?elem_of_cons, ?elem_of_nil; lia.
  - destruct (session_inv _ _ _ demo_session) as [_ _ _ Hr].
    assert (Hfd : forall fp f, fp ∈ [stdout; stderr; demo_fp] -> w_files demo_w2 !! fp = Some f ->
      f_fd f = if fp =? stdout then 1 else if fp =? stderr then 2 else 3).
    { intros fp f. rewrite !elem_of_cons, elem_of_nil. intros [->|[->|[->|[]]]] E; revert E; vm_compute; now intros [= <-]. }
    apply Forall_forall. intros [fp fd] Hin.
    assert (Hfp : fp ∈ [stdout; stderr; demo_fp]).
    { apply list_elem_of_In. destruct Hin as [E|[E|[E|[]]]]; injection E as <- <-; cbn; tauto. }
    destruct (Hr fp Hfp) as (f & Hf & Hf'). exists f. split; [exact Hf|]. split; [exact Hf'|].
    rewrite (Hfd _ _ Hfp Hf). destruct Hin as [E|[E|[E|[]]]]; injection E as <- <-; reflexivity.
Qed.

Lemma stream_contents_witness :
  exists w', run_ops demo_sys [(demo_fp, Wprintf (str "%d;") [AInt 42]); (stdout, Wputc 65); (demo_fp, Wflush)] demo_w2
      = Done tt w' /\ streams w' demo_streams /\
    forall fp fd, (fp, fd) ∈ demo_streams -> accepted w' fp fd = accepted demo_w2 fp fd ++
      ops_of fp [(demo_fp, Wprintf (str "%d;") [AInt 42]); (stdout, Wputc 65); (demo_fp, Wflush)].
Proof.
  apply (stream_contents demo_sys demo_streams); [apply demo_streams_ok|].
  repeat constructor; cbn [demo_streams fmap list_fmap fst]; rewrite ?elem_of_cons; try tauto.
  eexists _, _, _. vm_compute. reflexivity.
Defined.

(** C11: At exit nothing is lost: [stdio_exit] walks the whole list and every
    byte that stdout, stderr and the open streams have accepted is handed to
    the kernel. *)
Theorem exit_flushes {H} `{Allocator H} sys (w : world H) fps S :
  session sys w fps -> streams w S -> S.*1 = stdout :: stderr :: fps ->
  exists w', stdio_exit sys w = Done tt w' /\
    forall fp fd, (fp, fd) ∈ S -> written fd (w_log w') = accepted w fp fd.
Proof. intros Hs. apply exit_spec, (session_inv sys), Hs. Qed.

Lemma exit_flushes_witness :
  exists w', stdio_exit demo_sys demo_w2 = Done tt w' /\
    forall fp fd, (fp, fd) ∈ demo_streams -> written fd (w_log w') = accepted demo_w2 fp fd.
Proof. apply (exit_flushes demo_sys demo_w2 [demo_fp]); [apply demo_session|apply demo_streams_ok|reflexivity]. Defined.

(** [fclose] closes the descriptor, unlinks the stream and frees it, but it
    does not flush: the history gains no write, so what the stream had accepted
    and not handed over is lost. *)
Lemma fclose_does_not_flush {H} `{Allocator H} sys (w : world H) l1 fp l2 :
  session sys w (l1 ++ fp :: l2) ->
  exists w', fclose sys fp w = Done 0 w' /\ session_ok w' (l1 ++ l2) /\
    forall fd, written fd (w_log w') = written fd (w_log w).
Proof.
  intros Hs. pose proof (session_inv _ _ _ Hs) as [Hl Hh _ _]. rewrite <- (app_nil_r (objects _)) in Hh.
  destruct (fclose_spec sys l1 fp l2 [] w Hl Hh) as (w1 & f & E1 & Hf & _ & _ & _ & a & Hlog).
  exists w1. split; [exact E1|]. split; [eapply (session_inv sys), session_close; eauto|].
  intros fd. rewrite Hlog, written_app. destruct (f_close f); cbn; now rewrite app_nil_r.
Qed.

Lemma fclose_does_not_flush_witness :
  (exists f, w_files demo_w2 !! demo_fp = Some f /\ pending f = str "abc") /\
  exists w', fclose demo_sys demo_fp demo_w2 = Done 0 w' /\ session_ok w' [] /\
    forall fd, written fd (w_log w') = written fd (w_log demo_w2).
Proof.
  split; [eexists; split; vm_compute; reflexivity|].
  apply (fclose_does_not_flush demo_sys demo_w2 [] demo_fp []), demo_session.
Defined.
