(* ===== verification/StdioRead.v ===== *)
(** * Streams: reading characters and lines *)

From S2P Require Import Prelude CMem State Alloc AllocSpec AllocMalloc AllocProps Allocator Double Printf Stdio StdioSpec StdioProps.
From S2P Require Import StdioSession.
Import (notations) Ascii String.

(** How often a descriptor has been read. *)
Definition reads (fd : Z) (log : list event) : nat :=
  length (List.filter (fun e => match fst e with RRead fd' _ => fd' =? fd | _ => false end) log).

Lemma reads_snoc fd log n a : reads fd (log ++ [(RRead fd n, a)]) = S (reads fd log).
Proof. unfold reads. rewrite List.filter_app, length_app. cbn. rewrite Z.eqb_refl. cbn. lia. Qed.

(** The kernel hands out the bytes [inp] on the descriptor one by one and then
    reports the end of the file. *)
Definition feeds (sys : list event -> request -> Z * list Z) (fd : Z) (inp : list Z) : Prop :=
  forall log, sys log (RRead fd 1) =
    match inp !! reads fd log with Some b => (1, [b]) | None => (0, []) end.

(** A stream that can be read. *)
Definition in_ok (f : FILE) : Prop := f_fd f <> -1 /\ f_read f = true /\ f_flock f = 0.

(** The next line of the input, its newline included, cut to [n] characters. *)
Fixpoint line (n : nat) (inp : list Z) : list Z :=
  match n, inp with
  | S n', c :: inp' => c :: if c =? ch "010" then [] else line n' inp'
  | _, _ => []
  end.

(** The array after [got] was stored from index [i] on, with a terminator after
    it when fewer than [size] characters were stored. *)
Definition stored (s : list Z) (i : nat) (size : Z) (got : list Z) : list Z :=
  match got with
  | [] => s
  | _ => let e := (i + length got)%nat in
         take i s ++ got ++ if Z.of_nat (length got) <? size then 0 :: drop (S e) s else drop e s
  end.

Section read.
Context {H : Type} `{Allocator H}.
Context (sys : list event -> request -> Z * list Z) (fp fd : Z) (inp : list Z).
Hypothesis Hfeeds : feeds sys fd inp.
Hypothesis Hinp : Forall is_char inp.
Implicit Types w : world H.

(** What is left of the input. *)
Definition rest w : list Z := drop (reads fd (w_log w)) inp.

(** The stream is open on [fd]. *)
Definition open_in w : Prop := exists f, w_files w !! fp = Some f /\ in_ok f /\ f_fd f = fd.

Lemma rest_cons w c r : rest w = c :: r -> inp !! reads fd (w_log w) = Some c /\ drop (S (reads fd (w_log w))) inp = r.
Proof.
  unfold rest. intros E. split.
  - rewrite <- (Nat.add_0_r (reads _ _)), <- lookup_drop, E. reflexivity.
  - rewrite <- Nat.add_1_r, <- drop_drop, E. reflexivity.
Qed.

Lemma fread1_spec w :
  open_in w -> exists w', open_in w' /\
    fread sys 1 1 fp w = Done (match rest w with [] => (0, []) | c :: _ => (1, [c]) end) w' /\
    rest w' = drop 1 (rest w).
Proof.
  intros (f & Hf & (Hfd & Hrd & Hl) & Efd).
  set (a := match inp !! reads fd (w_log w) with Some b => (1, [b]) | None => (0, []) end).
  cut (swp (fread sys 1 1 fp) (fun x w' => open_in w' /\ x = (match rest w with [] => (0, []) | c :: _ => (1, [c]) end) /\
    w_log w' = w_log w ++ [(RRead fd 1, a)]) w).
  { intros Hs. apply swp_ok in Hs as (x & w' & E & Ho & -> & Hlog). exists w'. split; [exact Ho|]. split; [exact E|].
    unfold rest. now rewrite Hlog, reads_snoc, drop_drop, Nat.add_1_r. }
  unfold fread. apply swp_bind. eapply swp_run; [exact (FLOCK_spec fp f w Hf Hl)|]. apply swp_bind. unfold _fread.
  apply swp_bind, (swp_get_file fp (set_flock 1 f)); [apply lookup_insert_eq|].
  change (f_read (set_flock 1 f)) with (f_read f). rewrite Hrd. change (u64 (1 * 1)) with 1.
  apply swp_bind. unfold _stdio_read. apply swp_bind, (swp_get_file fp (set_flock 1 f)); [apply lookup_insert_eq|].
  change (f_fd (set_flock 1 f)) with (f_fd f). rewrite (proj2 (Z.eqb_neq _ _) Hfd), Efd.
  apply swp_bind, swp_syscall. rewrite Hfeeds. cbn [w_log with_file]. fold a.
  assert (Ea : a = match rest w with [] => (0, []) | c :: _ => (1, [c]) end).
  { unfold a. destruct (rest w) as [|c r] eqn:Er.
    - unfold rest in Er. rewrite lookup_ge_None_2; [reflexivity|].
      pose proof (length_drop inp (reads fd (w_log w))) as Hd. rewrite Er in Hd. cbn in Hd. lia.
    - now destruct (rest_cons w c r Er) as [-> _]. }
  rewrite Ea. destruct (rest w) as [|c r]; cbv iota; apply swp_bind, swp_errno_wrap; intros e;
    apply swp_ret; cbv iota beta; cbn [Z.ltb Z.compare Z.eqb negb]; apply swp_ret, swp_bind;
    (eapply swp_upd_file; [apply lookup_insert_eq|]); apply swp_ret; cbn [w_files w_heap w_ofl_head w_log with_file];
    (split; [|split; [reflexivity|reflexivity]]);
    (eexists; split; [apply lookup_insert_eq|split; [split; [|split]|]; assumption || reflexivity]).
Qed.

Lemma fgetc_spec w :
  open_in w -> exists w', open_in w' /\
    fgetc sys fp w = Done (match rest w with [] => EOF | c :: _ => c end) w' /\ rest w' = drop 1 (rest w).
Proof.
  intros Ho. destruct (fread1_spec w Ho) as (w1 & Ho1 & E & Hr).
  destruct (rest w) as [|c r] eqn:Er.
  - pose proof Ho1 as (f & Hf & Hi & Hfd). exists (with_file fp (set_eof 1 f) w1). split; [|split; [|exact Hr]].
    + exists (set_eof 1 f). split; [apply lookup_insert_eq|]. split; [exact Hi|exact Hfd].
    + unfold fgetc. apply swp_eq, swp_bind. eapply swp_run; [exact E|]. change (s32 0 <=? 0) with true. cbv iota.
      apply swp_bind, (swp_upd_file fp f); [exact Hf|]. apply swp_ret. auto.
  - exists w1. split; [exact Ho1|]. split; [|exact Hr]. unfold fgetc. apply swp_eq, swp_bind.
    eapply swp_run; [exact E|]. change (s32 1 <=? 0) with false. cbv iota. apply swp_ret.
    split; [|reflexivity]. apply u8_small. destruct (rest_cons w c r Er) as [Hc _].
    eapply Forall_lookup_1 in Hinp; [|exact Hc]. unfold is_char in Hinp. lia.
Qed.

Lemma rest_char w c r : rest w = c :: r -> is_char c.
Proof. intros Er. destruct (rest_cons w c r Er) as [Hc _]. eapply Forall_lookup_1 in Hinp; eauto. Qed.

(** One character more in front. *)
Lemma stored_cons (s : list Z) i size c got :
  (S i < length s)%nat -> 1 < size ->
  stored (<[S i := 0]> (<[i := c]> s)) (S i) (size - 1) got = stored s i size (c :: got).
Proof.
  intros Hi Hsz. set (s2 := <[S i := 0]> (<[i := c]> s)).
  assert (Ht : take (S i) s2 = take i s ++ [c]).
  { unfold s2. rewrite take_insert_ge by lia. apply take_insert_end. lia. }
  assert (Hd : forall j, drop (S (S (i + j))) s2 = drop (S (S (i + j))) s).
  { intros j. unfold s2. now rewrite !drop_insert_lt by lia. }
  destruct got as [|d got].
  - cbn [stored length]. rewrite (proj2 (Z.ltb_lt _ _)) by lia.
    rewrite <- (take_drop (S i) s2), Ht, <- app_assoc. f_equal. cbn [app]. f_equal.
    erewrite drop_S by (unfold s2; apply list_lookup_insert_eq; rewrite length_insert; lia).
    f_equal. specialize (Hd 0%nat). rewrite Nat.add_0_r in Hd. rewrite Hd. f_equal. lia.
  - unfold stored. rewrite Ht, <- app_assoc. f_equal. cbn [app length]. do 2 f_equal.
    rewrite <- (Nat.add_succ_comm i (S (length got))). cbn [Nat.add].
    replace (Z.of_nat (S (S (length got))) <? size) with (Z.of_nat (S (length got)) <? size - 1)
      by (destruct (Z.ltb_spec (Z.of_nat (S (length got))) (size - 1)), (Z.ltb_spec (Z.of_nat (S (S (length got)))) size); lia || reflexivity).
    destruct (_ <? _).
    + now rewrite Hd.
    + replace (S (i + S (length got))) with (S (S (i + length got))) by lia. now rewrite Hd.
Qed.

Lemma swp_array_set i c (a : list Z) (Q : list Z -> world H -> Prop) w :
  0 <= i < Z.of_nat (length a) -> Q (<[Z.to_nat i := u8 c]> a) w -> swp (array_set i c a) Q w.
Proof.
  intros Hi HQ. unfold array_set. rewrite (proj2 (Z.leb_le 0 i)), (proj2 (Z.ltb_lt i _)) by lia. now apply swp_ret.
Qed.

Lemma line_length n r : (length (line n r) <= n)%nat.
Proof.
  revert r. induction n as [|n IH]; intros [|c r]; cbn; try lia. destruct (_ =? _); cbn; [lia|]. specialize (IH r). lia.
Qed.

Definition fgets_body (s : Z * Z * list Z) : SM (world H) (ctl (Z * Z * list Z) (bool * list Z)) :=
  let '(i, size, s) := s in
    c ← fgetc sys fp;
    if 0 <? c then
      s ← array_set i c s;
      let i := i + 1 in
      let size := s32 (size - 1) in
      if size =? 0 then mret (Break (true, s)) else
      s ← array_set i 0 s;
      if c =? ch "010" then mret (Break (true, s)) else mret (Next (i, size, s))
    else if c =? EOF then
      upd_file fp (set_eof 1);;
      mret (Break (negb (i =? 0), s))
    else mret (Break (false, s)).

Lemma fgets_loop n : forall fuel (i : nat) s w,
  open_in w -> (0 < n)%nat -> (i + n <= length s)%nat -> Z.of_nat (length s) < 2 ^ 31 -> (n < fuel)%nat ->
  swp (sloop fuel fgets_body (Z.of_nat i, Z.of_nat n, s))
    (fun x w' => let got := line n (rest w) in
       x = (negb (Z.of_nat (i + length got) =? 0), stored s i (Z.of_nat n) got) /\
       open_in w' /\ rest w' = drop (length got) (rest w)) w.
Proof.
  induction n as [|n IH]; intros fuel i s w Ho Hn Hi Hmax Hf; [lia|]. destruct fuel as [|fuel]; [lia|].
  destruct (fgetc_spec w Ho) as (w1 & Ho1 & E & Hr). cbn [sloop]. apply swp_bind, swp_bind.
  eapply swp_run; [exact E|]. cbn [line]. destruct (rest w) as [|c r] eqn:Er.
  - change (0 <? EOF) with false. change (EOF =? EOF) with true. cbv iota.
    destruct Ho1 as (f & Hf1 & Hi1 & Hfd1). apply swp_bind, (swp_upd_file fp f); [exact Hf1|].
    apply swp_ret, swp_ret. cbn [length]. rewrite Nat.add_0_r. split; [|split].
    + f_equal.
    + exists (set_eof 1 f). split; [apply lookup_insert_eq|]. split; assumption.
    + exact Hr.
  - pose proof (rest_char w c r Er) as Hc. unfold is_char in Hc. rewrite (proj2 (Z.ltb_lt 0 c)) by lia.
    apply swp_bind, swp_array_set; [lia|]. rewrite u8_small, Nat2Z.id by lia. rewrite s32_small by lia.
    replace (Z.of_nat (S n) - 1) with (Z.of_nat n) by lia. cbn [drop] in Hr.
    set (s1 := <[i := c]> s). assert (Hl1 : length s1 = length s) by apply length_insert.
    destruct (Z.eqb_spec (Z.of_nat n) 0) as [En|En].
    + assert (n = 0)%nat by lia. subst n. apply swp_ret, swp_ret.
      assert (Eg : (if c =? ch "010" then [] else line 0 r) = []) by (destruct (_ =? _), r; reflexivity). rewrite Eg.
      split; [|split; [exact Ho1|now rewrite Hr]]. f_equal.
      * cbn [length]. rewrite (proj2 (Z.eqb_neq _ _)) by lia. reflexivity.
      * unfold stored. cbn [length]. change (Z.of_nat 1 <? Z.of_nat 1) with false. cbv iota. unfold s1.
        rewrite insert_take_drop by lia. now rewrite Nat.add_1_r.
    + apply swp_bind. apply swp_array_set; [lia|]. change (u8 0) with 0.
      replace (Z.to_nat (Z.of_nat i + 1)) with (S i) by lia.
      assert (Hst : forall got, stored (<[S i := 0]> s1) (S i) (Z.of_nat n) got = stored s i (Z.of_nat (S n)) (c :: got)).
      { intros got. replace (Z.of_nat n) with (Z.of_nat (S n) - 1) by lia. apply stored_cons; lia. }
      destruct (c =? ch "010") eqn:Ec.
      * apply swp_ret, swp_ret. split; [|split; [exact Ho1|now rewrite Hr]]. f_equal.
        -- cbn [length]. rewrite (proj2 (Z.eqb_neq _ _)) by lia. reflexivity.
        -- rewrite <- Hst. reflexivity.
      * apply swp_ret. replace (Z.of_nat i + 1) with (Z.of_nat (S i)) by lia.
        eapply swp_mono; [apply (IH fuel (S i) (<[S i := 0]> s1) w1 Ho1); rewrite ?length_insert; lia|].
        intros x w' (-> & Ho' & Hr'). rewrite Hr in *. cbn [length]. split; [|split; [exact Ho'|exact Hr']].
        rewrite Hst, Nat.add_succ_comm. reflexivity.
Qed.

Lemma fgets_spec s n w :
  open_in w -> (0 < n <= length s)%nat -> Z.of_nat (length s) < 2 ^ 31 ->
  let got := line n (rest w) in
  exists w', fgets sys s (Z.of_nat n) fp w =
      Done (negb (Z.of_nat (length got) =? 0), stored s 0 (Z.of_nat n) got) w' /\
    open_in w' /\ rest w' = drop (length got) (rest w).
Proof.
  intros Ho Hn Hmax got. pose proof (fgets_loop n (S (length s)) 0 s w Ho) as Hs.
  specialize (Hs ltac:(lia) ltac:(lia) Hmax ltac:(lia)). apply swp_ok in Hs as (x & w' & E & -> & Ho' & Hr).
  exists w'. split; [exact E|]. auto.
Qed.
End read.

(** ** Claims *)

(** [fgets] on a stream of non-zero bytes reads the next line, its newline
    included, or as many characters as the size when the line is longer, leaves
    the rest of the input, and reports the end of the input with a null result.
    A line shorter than the size is terminated; one that fills it is not. *)
Lemma fgets_reads_line {H} `{Allocator H} sys fp fd inp (w : world H) s n :
  feeds sys fd inp -> Forall is_char inp -> open_in fp fd w ->
  (0 < n <= length s)%nat -> Z.of_nat (length s) < 2 ^ 31 ->
  let got := line n (rest fd inp w) in
  exists w', fgets sys s (Z.of_nat n) fp w =
      Done (negb (Z.of_nat (length got) =? 0), stored s 0 (Z.of_nat n) got) w' /\
    open_in fp fd w' /\ rest fd inp w' = drop (length got) (rest fd inp w).
Proof. intros Hf Hi. now apply fgets_spec. Qed.

#[local] Existing Instance demo_alloc.

(** A kernel with a text on descriptor 0. *)
Definition demo_input : list Z := str "ab" ++ [ch "010"] ++ str "c".
Definition demo_feed (log : list event) (r : request) : Z * list Z :=
  match r with
  | RRead fd _ => match demo_input !! reads fd log with Some b => (1, [b]) | None => (0, []) end
  | _ => (0, [])
  end.

Lemma fgets_reads_line_witness :
  exists w', fgets demo_feed [7; 7; 7; 7; 7; 7] 6 stdin demo_w0 = Done (true, [97; 98; 10; 0; 7; 7]) w' /\
    open_in stdin 0 w' /\ rest 0 demo_input w' = str "c".
Proof.
  apply (fgets_reads_line demo_feed stdin 0 demo_input demo_w0 [7; 7; 7; 7; 7; 7] 6).
  - intros log. reflexivity.
  - repeat constructor.
  - eexists. split; [reflexivity|]. split; [split; [discriminate|split; reflexivity]|reflexivity].
  - cbn. lia.
  - cbn. lia.
Defined.
