(* ===== verification/Time.v ===== *)
(** * libc/src/time.c and bin/core/cal.c: calendar time

    [int] arithmetic is kept at 32 bits, [time_t] at 64.  A failed assertion, a
    table index out of range and a loop that outruns its fuel are [None].  The
    clocks of the kernel are arguments of the functions that read them. *)

From S2P Require Import Prelude CMem State Double Printf.
Import (notations) Ascii String.

Record tm := Tm {
  tm_sec : Z; tm_min : Z; tm_hour : Z; tm_mday : Z; tm_mon : Z; tm_year : Z;
  tm_wday : Z; tm_yday : Z; tm_isdst : Z }.

Definition MS_PER_SEC : Z := 1000.
Definition US_PER_SEC : Z := MS_PER_SEC * 1000.

(** ** Clocks *)

(** [now] is what [sysbind_localtime] answers: the seconds and the broken-down
    time it stores. *)
Definition time (now : Z * tm) : Z := fst now.
Definition getlocaltime (now : Z * tm) : Z * tm := now.
Definition localtime (t : Z) (now : Z * tm) : tm := snd (getlocaltime now).

(** [us] is what [sysbind_gettime_microsecond] answers; the results are the
    seconds and the nanoseconds or microseconds. *)
Definition clock_gettime (us : Z) : Z * Z := (Z.quot (Z.quot us 1000) 1000, s64 (us * 1000)).
Definition clock (us : Z) : Z := u64 (Z.quot us 1000).
Definition gettimeofday (us : Z) : Z * Z := (u64 us / US_PER_SEC, s32 (u64 us mod US_PER_SEC)).

(** ** The calendar *)

Definition is_leap_year (year : Z) : bool :=
  (Z.rem year 4 =? 0) && (negb (Z.rem year 100 =? 0) || (Z.rem year 400 =? 0)).
Definition days_in_year (year : Z) : Z := 365 + b2z (is_leap_year year).

Definition table (l : list Z) (i : Z) : option Z := if i <? 0 then None else l !! Z.to_nat i.
Definition assert (b : bool) : option unit := if b then Some tt else None.
Definition a_month (month : Z) : bool := (1 <=? month) && (month <=? 12).

Definition day_of_year (year month day : Z) : option Z :=
  _ ← assert (a_month month);
  s ← table [0; 31; 59; 90; 120; 151; 181; 212; 243; 273; 304; 334] (month - 1);
  let day_of_year := s32 (s + day - 1) in
  Some (if is_leap_year year && (3 <=? month) then s32 (day_of_year + 1) else day_of_year).

Definition days_in_month (year month : Z) : option Z :=
  _ ← assert (a_month month);
  if month =? 2 then Some (if is_leap_year year then 29 else 28)
  else if (month =? 1) || (month =? 3) || (month =? 5) || (month =? 7) || (month =? 8) || (month =? 10) || (month =? 12)
  then Some 31 else Some 30.

Definition day_of_week (year month day : Z) : option Z :=
  _ ← assert (a_month month);
  let year := if month <? 3 then s32 (year - 1) else year in
  s ← table [0; 3; 2; 5; 0; 3; 5; 1; 4; 6; 2; 4] (month - 1);
  Some (u32 (Z.rem (s32 (year + Z.quot year 4 - Z.quot year 100 + Z.quot year 400 + s + day)) 7)).

(** The two loops of [years_to_days_since_epoch]: [n] rounds from [y] on. *)
Fixpoint add_years (n : nat) (y days : Z) : Z :=
  match n with O => days | S n' => add_years n' (y + 1) (s32 (days + days_in_year y)) end.
Fixpoint sub_years (n : nat) (y days : Z) : Z :=
  match n with O => days | S n' => sub_years n' (y + 1) (s32 (days - days_in_year y)) end.
Definition years_to_days_since_epoch (year : Z) : Z :=
  sub_years (Z.to_nat (1970 - year)) year (add_years (Z.to_nat (year - 1970)) 1970 0).

Definition __seconds_per_day : Z := 60 * 60 * 24.

(** [for (; t >= days_in_year(year) * __seconds_per_day; ++year) t -= ...]. *)
Fixpoint years_up (fuel : nat) (year t : Z) : option (Z * Z) :=
  match fuel with
  | O => None
  | S fuel =>
      let len := u32 (days_in_year year * __seconds_per_day) in
      if len <=? t then years_up fuel (s32 (year + 1)) (s64 (t - len)) else Some (year, t)
  end.
(** [for (; t < 0; --year) t += ...]. *)
Fixpoint years_down (fuel : nat) (year t : Z) : option (Z * Z) :=
  match fuel with
  | O => None
  | S fuel =>
      if t <? 0
      then years_down fuel (s32 (year - 1)) (s64 (t + u32 (days_in_year (s32 (year - 1)) * __seconds_per_day)))
      else Some (year, t)
  end.
(** [for (month = 1; month < 12 && days >= days_in_month(year, month); ++month)]. *)
Fixpoint months_up (fuel : nat) (year month days : Z) : option (Z * Z) :=
  match fuel with
  | O => None
  | S fuel =>
      if month <? 12 then
        n ← days_in_month year month;
        if n <=? days then months_up fuel year (month + 1) (days - n) else Some (month, days)
      else Some (month, days)
  end.

(** A year has at least 365 days, so this many rounds are enough. *)
Definition year_fuel (t : Z) : nat := S (S (Z.to_nat (Z.abs t / (365 * 86400)))).

(** The field [tm_isdst] is left as it was. *)
Definition time_to_tm (isdst t : Z) : option tm :=
  '(year, t) ← years_up (year_fuel t) 1970 t;
  '(year, t) ← years_down (year_fuel t) year t;
  _ ← assert (0 <=? t);
  let days := s32 (t / __seconds_per_day) in
  let yday := days in
  let remaining := s32 (t mod __seconds_per_day) in
  let sec := remaining mod 60 in
  let remaining := remaining / 60 in
  let min := remaining mod 60 in
  let hour := remaining / 60 in
  '(month, days) ← months_up 13 year 1 days;
  let mday := days + 1 in
  wday ← day_of_week year month mday;
  Some (Tm sec min hour mday (month - 1) (s32 (year - 1900)) wday yday isdst).

(** The normalised structure and the time. *)
Definition tm_to_time (t : tm) (timezone_adjust_seconds : Z) : option (tm * Z) :=
  let year := s32 (tm_year t + Z.quot (tm_mon t) 12) in
  let mon := Z.rem (tm_mon t) 12 in
  let '(year, mon) := if mon <? 0 then (s32 (year - 1), mon + 12) else (year, mon) in
  yday ← day_of_year (s32 (1900 + year)) (u32 (mon + 1)) (tm_mday t);
  let days_since_epoch := s32 (years_to_days_since_epoch (s32 (1900 + year)) + yday) in
  let timestamp :=
    s64 (s64 (s64 (s64 (s64 (s64 (days_since_epoch * 24 + tm_hour t) * 60) + tm_min t) * 60) + tm_sec t)
         + timezone_adjust_seconds) in
  t' ← time_to_tm (tm_isdst t) timestamp;
  Some (t', timestamp).

Definition mktime (t : tm) : option (tm * Z) := tm_to_time t 0.
(** [t] null or the time; [buf] is the structure that is filled. *)
Definition gmtime_r (t : option Z) (buf : tm) : option (option tm) :=
  match t with
  | None => Some None
  | Some t => r ← time_to_tm (tm_isdst buf) t; Some (Some r)
  end.
Definition gmtime (t : option Z) (tm_buf : tm) : option (option tm) := gmtime_r t tm_buf.
Definition difftime (t1 t0 : Z) : dbl := d_of_Z (s64 (t1 - t0)).

(** ** strftime *)

Definition wday_short_names : list (list Z) :=
  [str "Sun"; str "Mon"; str "Tue"; str "Wed"; str "Thu"; str "Fri"; str "Sat"].
Definition wday_long_names : list (list Z) :=
  [str "Sunday"; str "Monday"; str "Tuesday"; str "Wednesday"; str "Thursday"; str "Friday"; str "Saturday"].
Definition mon_short_names : list (list Z) :=
  [str "Jan"; str "Feb"; str "Mar"; str "Apr"; str "May"; str "Jun"; str "Jul"; str "Aug"; str "Sep"; str "Oct";
   str "Nov"; str "Dec"].
Definition mon_long_names : list (list Z) :=
  [str "January"; str "February"; str "March"; str "April"; str "May"; str "June"; str "July"; str "August";
   str "September"; str "October"; str "November"; str "December"].

(** [names[i]]. *)
Definition name_at (names : list (list Z)) (i : Z) : M (list Z) :=
  if i <? 0 then fault else match names !! Z.to_nat i with Some s => mret s | None => fault end.

(** [builder += snprintf(builder, 48, format, args)]. *)
Definition FMT (builder : Z) (format : list Z) (va : list arg) : M Z :=
  n ← snprintf builder 48 format va; mret (builder + n).
Definition FSTR (builder : Z) (s : list Z) : M Z := FMT builder (str "%s") [AStr (Some s)].

Definition am_pm (t : tm) : list Z := if tm_hour t <? 12 then str "a.m." else str "p.m.".

(** The number of the ISO week. *)
Definition iso_week (t : tm) : Z :=
  let wday_of_year_beginning := Z.rem (s32 (tm_wday t + 6 + 6 * tm_yday t)) 7 in
  let week_number := Z.quot (s32 (tm_yday t + wday_of_year_beginning)) 7 + 1 in
  if 3 <? wday_of_year_beginning then
    if 7 - wday_of_year_beginning <=? tm_yday t then week_number - 1
    else
      let days_of_last_year := days_in_year (s32 (tm_year t + 1900 - 1)) in
      let wday_of_last_year_beginning := Z.rem (wday_of_year_beginning + 6 * days_of_last_year) 7 in
      let week_number := Z.quot (days_of_last_year + wday_of_last_year_beginning) 7 + 1 in
      if 3 <? wday_of_last_year_beginning then week_number - 1 else week_number
  else week_number.

(** One directive: the new end of the text, or [None] for an unknown letter. *)
Definition strftime_directive (c builder : Z) (t : tm) : M (option Z) :=
  let d2 v := b ← FMT builder (str "%02d") [AInt v]; mret (Some b) in
  let year := s32 (tm_year t + 1900) in
  let done (x : M Z) := b ← x; mret (Some b) in
  if c =? ch "a" then n ← name_at wday_short_names (tm_wday t); done (FSTR builder n)
  else if c =? ch "A" then n ← name_at wday_long_names (tm_wday t); done (FSTR builder n)
  else if c =? ch "b" then n ← name_at mon_short_names (tm_mon t); done (FSTR builder n)
  else if c =? ch "B" then n ← name_at mon_long_names (tm_mon t); done (FSTR builder n)
  else if c =? ch "C" then d2 (Z.quot year 100)
  else if c =? ch "d" then d2 (tm_mday t)
  else if c =? ch "D" then
    done (FMT builder (str "%02d/%02d/%02d") [AInt (s32 (tm_mon t + 1)); AInt (tm_mday t); AInt (Z.rem year 100)])
  else if c =? ch "e" then done (FMT builder (str "%2d") [AInt (tm_mday t)])
  else if c =? ch "h" then n ← name_at mon_short_names (tm_mon t); done (FMT builder n [])
  else if c =? ch "H" then d2 (tm_hour t)
  else if c =? ch "I" then d2 (Z.rem (tm_hour t) 12)
  else if c =? ch "j" then done (FMT builder (str "%03d") [AInt (s32 (tm_yday t + 1))])
  else if c =? ch "m" then d2 (s32 (tm_mon t + 1))
  else if c =? ch "M" then d2 (tm_min t)
  else if c =? ch "n" then done (FMT builder [10] [])
  else if c =? ch "p" then done (FSTR builder (am_pm t))
  else if c =? ch "r" then
    done (FMT builder (str "%02d:%02d:%02d %s")
      [AInt (Z.rem (tm_hour t) 12); AInt (tm_min t); AInt (tm_sec t); AStr (Some (am_pm t))])
  else if c =? ch "R" then done (FMT builder (str "%02d:%02d") [AInt (tm_hour t); AInt (tm_min t)])
  else if c =? ch "S" then d2 (tm_sec t)
  else if c =? ch "t" then done (FMT builder [9] [])
  else if c =? ch "T" then
    done (FMT builder (str "%02d:%02d:%02d") [AInt (tm_hour t); AInt (tm_min t); AInt (tm_sec t)])
  else if c =? ch "u" then done (FMT builder (str "%d") [AInt (if tm_wday t =? 0 then 7 else tm_wday t)])
  else if c =? ch "U" then
    let wday_of_year_beginning := Z.rem (s32 (tm_wday t + 6 * tm_yday t)) 7 in
    d2 (Z.quot (s32 (tm_yday t + wday_of_year_beginning)) 7)
  else if c =? ch "V" then d2 (iso_week t)
  else if c =? ch "w" then done (FMT builder (str "%d") [AInt (tm_wday t)])
  else if c =? ch "W" then
    let wday_of_year_beginning := Z.rem (s32 (tm_wday t + 6 + 6 * tm_yday t)) 7 in
    d2 (Z.quot (s32 (tm_yday t + wday_of_year_beginning)) 7)
  else if c =? ch "y" then d2 (Z.rem year 100)
  else if c =? ch "Y" then done (FMT builder (str "%d") [AInt year])
  else if c =? ch "%" then done (FMT builder (str "%") [])
  else mret None.

(** The loop over the format; [return 0] on a lone % or an unknown letter. *)
Fixpoint strftime_loop (format : list Z) (builder : Z) (t : tm) : M unit :=
  match format with
  | [] => mret tt
  | c :: r =>
      if negb (c =? ch "%") then
        builder ← FMT builder (str "%c") [AInt (s8 c)];
        strftime_loop r builder t
      else
        match r with
        | [] => mret tt
        | d :: r' =>
            b ← strftime_directive d builder t;
            match b with Some builder => strftime_loop r' builder t | None => mret tt end
        end
  end.
Definition strftime (destination max_size : Z) (format : list Z) (t : tm) : M Z :=
  strftime_loop format destination t;; mret 0.

(** ** bin/core/cal.c *)

Module Cal.
Definition THURSDAY : Z := 4.
Definition SATURDAY : Z := 6.
Definition FIRST_MISSING_DAY : Z := 639799.
Definition NUMBER_MISSING_DAYS : Z := 11.

Definition days_in_month (leap : bool) : list Z :=
  if leap then [0; 31; 29; 31; 30; 31; 30; 31; 31; 30; 31; 30; 31]
  else [0; 31; 28; 31; 30; 31; 30; 31; 31; 30; 31; 30; 31].

Definition leap_year (yr : Z) : bool :=
  if yr <=? 1752 then Z.rem yr 4 =? 0
  else ((Z.rem yr 4 =? 0) && negb (Z.rem yr 100 =? 0)) || (Z.rem yr 400 =? 0).
Definition centuries_since_1700 (yr : Z) : Z := if 1700 <? yr then Z.quot yr 100 - 17 else 0.
Definition quad_centuries_since_1700 (yr : Z) : Z := if 1600 <? yr then Z.quot (yr - 1600) 400 else 0.
Definition leap_years_since_year_1 (yr : Z) : Z :=
  Z.quot yr 4 - centuries_since_1700 yr + quad_centuries_since_1700 yr.

(** [for (i = 1; i < month; i++) day += days_in_month[leap][i]]. *)
Fixpoint add_months (n : nat) (i : Z) (leap : bool) (day : Z) : option Z :=
  match n with
  | O => Some day
  | S n' => d ← table (days_in_month leap) i; add_months n' (i + 1) leap (s32 (day + d))
  end.
Definition day_in_year (day month year : Z) : option Z :=
  add_months (Z.to_nat (month - 1)) 1 (leap_year year) day.

Definition day_in_week (day month year : Z) : option Z :=
  d ← day_in_year day month year;
  let temp := (year - 1) * 365 + leap_years_since_year_1 (year - 1) + d in
  if temp <? FIRST_MISSING_DAY then Some (Z.rem (temp - 1 + SATURDAY) 7)
  else if FIRST_MISSING_DAY + NUMBER_MISSING_DAYS <=? temp
  then Some (Z.rem (temp - 1 + SATURDAY - NUMBER_MISSING_DAYS) 7)
  else Some THURSDAY.
End Cal.
