(* ===== verification/TimeProps.v ===== *)
(** * Calendar time: properties

    The reference is the closed form of the proleptic Gregorian calendar: the
    days before a year, counted from 1 January 1970. *)

From S2P Require Import Prelude CMem State Double Printf PrintfSpec PrintfProps Time.
Import (notations) Ascii String.

(** ** The Gregorian calendar *)

(** Leap years before the year [y], and days from the epoch to its start. *)
Definition leaps (y : Z) : Z := (y - 1) / 4 - (y - 1) / 100 + (y - 1) / 400.
Definition days_before (y : Z) : Z := 365 * (y - 1970) + leaps y - 477.

Lemma rem_mod_0 y d : 0 < d -> (Z.rem y d =? 0) = (y mod d =? 0).
Proof.
  intros Hd. apply Bool.eq_iff_eq_true. rewrite !Z.eqb_eq.
  rewrite Z.rem_divide, Z.mod_divide by lia. reflexivity.
Qed.

Lemma div_step y d : 0 < d -> y / d - (y - 1) / d = b2z (y mod d =? 0).
Proof. intros Hd. unfold b2z. destruct (y mod d =? 0) eqn:E; zbool; Z.div_mod_to_equations; nia. Qed.

Lemma leaps_succ y : leaps (y + 1) = leaps y + b2z (is_leap_year y).
Proof.
  unfold leaps, is_leap_year. rewrite !rem_mod_0 by lia. replace (y + 1 - 1) with y by lia.
  pose proof (div_step y 4 ltac:(lia)) as H4. pose proof (div_step y 100 ltac:(lia)) as H100.
  pose proof (div_step y 400 ltac:(lia)) as H400. unfold b2z in *.
  destruct (y mod 4 =? 0) eqn:E4, (y mod 100 =? 0) eqn:E100, (y mod 400 =? 0) eqn:E400; cbn; zbool;
    try lia; exfalso; Z.div_mod_to_equations; lia.
Qed.

Lemma days_before_succ y : days_before (y + 1) = days_before y + days_in_year y.
Proof. unfold days_before, days_in_year. rewrite leaps_succ. lia. Qed.

Lemma days_in_year_bounds y : 365 <= days_in_year y <= 366.
Proof. unfold days_in_year, b2z. destruct (is_leap_year y); lia. Qed.

Lemma days_before_mono a b : a <= b -> 365 * (b - a) <= days_before b - days_before a <= 366 * (b - a).
Proof.
  intros Hab. replace b with (a + Z.of_nat (Z.to_nat (b - a))) by lia.
  induction (Z.to_nat (b - a)) as [|n IH]; [replace (a + Z.of_nat 0) with a by lia; lia|].
  replace (a + Z.of_nat (S n)) with (a + Z.of_nat n + 1) by lia. rewrite days_before_succ.
  pose proof (days_in_year_bounds (a + Z.of_nat n)). lia.
Qed.

Lemma days_before_1970 : days_before 1970 = 0.
Proof. reflexivity. Qed.

(** ** The loops over years *)

(** The years the [int] arithmetic of the file can handle: the days of
    [years_to_days_since_epoch] fit an [int]. *)
Definition year_max : Z := 5000000.

Lemma add_years_spec n y :
  1970 <= y -> y + Z.of_nat n <= year_max -> add_years n y (days_before y) = days_before (y + Z.of_nat n).
Proof.
  revert y. induction n as [|n IH]; intros y Hy Hn; cbn [add_years]; [f_equal; lia|].
  pose proof (days_before_mono 1970 (y + 1) ltac:(lia)) as Hm. rewrite days_before_1970 in Hm. unfold year_max in *.
  rewrite <- days_before_succ, s32_small by lia. rewrite IH by lia. f_equal. lia.
Qed.

Lemma sub_years_spec n y days :
  0 <= y -> y + Z.of_nat n <= 1970 -> -721020 + 366 * Z.of_nat n <= days <= 0 ->
  sub_years n y days = days - (days_before (y + Z.of_nat n) - days_before y).
Proof.
  revert y days. induction n as [|n IH]; intros y days Hy Hn Hd; cbn [sub_years].
  - replace (y + Z.of_nat 0) with y by lia. lia.
  - pose proof (days_in_year_bounds y). rewrite s32_small by lia. rewrite IH by lia.
    rewrite days_before_succ. replace (y + 1 + Z.of_nat n) with (y + Z.of_nat (S n)) by lia. lia.
Qed.

Lemma years_to_days_spec y :
  0 <= y <= year_max -> years_to_days_since_epoch y = days_before y.
Proof.
  intros Hy. unfold years_to_days_since_epoch. rewrite <- days_before_1970 at 1. destruct (Z.le_gt_cases 1970 y).
  - replace (Z.to_nat (1970 - y)) with 0%nat by lia. cbn [sub_years]. rewrite add_years_spec by lia. f_equal. lia.
  - replace (Z.to_nat (y - 1970)) with 0%nat by lia. cbn [add_years]. rewrite sub_years_spec by (rewrite ?days_before_1970; lia).
    replace (y + Z.of_nat (Z.to_nat (1970 - y))) with 1970 by lia. lia.
Qed.

Abbreviation day_secs := 86400.

Lemma years_up_spec fuel y t :
  1970 <= y -> 0 <= t < (days_before year_max - days_before y) * day_secs -> t / (365 * day_secs) < Z.of_nat fuel ->
  exists Y T, years_up fuel y t = Some (Y, T) /\ y <= Y < year_max /\
    0 <= T < days_in_year Y * day_secs /\ t = (days_before Y - days_before y) * day_secs + T.
Proof.
  revert y t. induction fuel as [|fuel IH]; intros y t Hy Ht Hf; [Z.div_mod_to_equations; lia|].
  assert (Hmax : y < year_max).
  { destruct (Z.lt_ge_cases y year_max); [assumption|]. pose proof (days_before_mono year_max y ltac:(lia)). lia. }
  cbn [years_up]. change __seconds_per_day with day_secs. pose proof (days_in_year_bounds y) as Hb. rewrite u32_small by lia.
  pose proof (days_before_mono 1970 year_max ltac:(unfold year_max; lia)) as Hm.
  pose proof (days_before_mono 1970 y ltac:(lia)) as Hm2. unfold year_max in Hm, Hm2.
  destruct (Z.leb_spec (days_in_year y * day_secs) t).
  - fold year_max in Hm. rewrite s32_small, s64_small by (unfold year_max in *; lia).
    destruct (IH (y + 1) (t - days_in_year y * day_secs)) as (Y & T & E & HY & HT & Et);
      [lia|rewrite days_before_succ; lia|Z.div_mod_to_equations; lia|].
    exists Y, T. split; [exact E|]. split; [lia|]. split; [exact HT|]. rewrite days_before_succ in Et. lia.
  - exists y, t. split; [reflexivity|]. lia.
Qed.

Lemma years_down_spec fuel y t :
  1 <= y <= 1970 -> - (days_before y - days_before 1) * day_secs <= t < days_in_year y * day_secs ->
  (Z.abs t + 365 * day_secs - 1) / (365 * day_secs) < Z.of_nat fuel \/ 0 <= t /\ (0 < fuel)%nat ->
  exists Y T, years_down fuel y t = Some (Y, T) /\ 1 <= Y <= y /\
    0 <= T < days_in_year Y * day_secs /\ t = (days_before Y - days_before y) * day_secs + T.
Proof.
  revert y t. induction fuel as [|fuel IH]; intros y t Hy Ht Hf; [destruct Hf; [Z.div_mod_to_equations; lia|lia]|].
  cbn [years_down]. change __seconds_per_day with day_secs. destruct (Z.ltb_spec t 0).
  - assert (Hy1 : 1 < y) by (destruct (Z.eq_dec y 1); [subst; lia|lia]).
    pose proof (days_in_year_bounds (y - 1)) as Hb. rewrite (s32_small (y - 1)) by lia. rewrite u32_small by lia.
    pose proof (days_before_mono 1 y ltac:(lia)). rewrite s64_small by lia.
    pose proof (days_before_succ (y - 1)) as Hs. replace (y - 1 + 1) with y in Hs by lia.
    destruct (IH (y - 1) (t + days_in_year (y - 1) * day_secs)) as (Y & T & E & HY & HT & Et); [lia|lia| |].
    { destruct (Z.lt_ge_cases (t + days_in_year (y - 1) * day_secs) 0); [left|right; split; [lia|]].
      - Z.div_mod_to_equations. lia.
      - destruct Hf as [Hf|?]; [|lia]. Z.div_mod_to_equations. lia. }
    exists Y, T. split; [exact E|]. lia.
  - exists y, t. split; [reflexivity|]. lia.
Qed.

(** ** Months *)

(** The days of the year before a month. *)
Definition cum (leap : bool) (month : Z) : Z :=
  default 0 (table [0; 31; 59; 90; 120; 151; 181; 212; 243; 273; 304; 334] (month - 1))
  + if leap && (3 <=? month) then 1 else 0.

Ltac month_cases m :=
  let H := fresh in
  assert (H : m = 1 \/ m = 2 \/ m = 3 \/ m = 4 \/ m = 5 \/ m = 6 \/ m = 7 \/ m = 8 \/ m = 9 \/ m = 10 \/ m = 11 \/ m = 12)
    by lia;
  destruct H as [->|[->|[->|[->|[->|[->|[->|[->|[->|[->|[->| ->]]]]]]]]]]].

Lemma cum_bounds leap m : 1 <= m <= 12 -> 0 <= cum leap m <= 335.
Proof. intros Hm. month_cases m; destruct leap; cbv; split; discriminate. Qed.

Lemma day_of_year_spec y m d :
  1 <= m <= 12 -> -1000000 <= d <= 1000000 -> day_of_year y m d = Some (cum (is_leap_year y) m + d - 1).
Proof.
  intros Hm Hd. pose proof (cum_bounds (is_leap_year y) m Hm) as Hc. unfold day_of_year, a_month.
  rewrite (proj2 (Z.leb_le 1 m)), (proj2 (Z.leb_le m 12)) by lia. cbn [andb assert mbind option_bind].
  unfold cum in *. destruct (table _ _) as [s|] eqn:E.
  - cbn [mbind option_bind default] in *. f_equal. unfold is_true in *.
    destruct (is_leap_year y && (3 <=? m)); cbn [b2z] in *; unfold id in *; rewrite ?s32_small by (rewrite ?s32_small by lia; lia); lia.
  - exfalso. revert E. clear -Hm. month_cases m; discriminate.
Qed.

(** The length of a month. *)
Definition month_len (leap : bool) (m : Z) : Z := (if m =? 12 then 365 + b2z leap else cum leap (m + 1)) - cum leap m.

Lemma days_in_month_spec y m : 1 <= m <= 12 -> days_in_month y m = Some (month_len (is_leap_year y) m).
Proof. intros Hm. month_cases m; cbv [days_in_month]; destruct (is_leap_year y); reflexivity. Qed.

Lemma months_up_spec fuel y m days :
  1 <= m <= 12 -> 0 <= days < 365 + b2z (is_leap_year y) - cum (is_leap_year y) m -> 12 - m < Z.of_nat fuel ->
  exists m' d, months_up fuel y m days = Some (m', d) /\ m <= m' <= 12 /\
    0 <= d < month_len (is_leap_year y) m' /\ cum (is_leap_year y) m' + d = cum (is_leap_year y) m + days.
Proof.
  revert m days. induction fuel as [|fuel IH]; intros m days Hm Hd Hf; [lia|]. cbn [months_up].
  destruct (Z.ltb_spec m 12).
  - rewrite days_in_month_spec by lia. cbn [mbind option_bind].
    assert (El : month_len (is_leap_year y) m = cum (is_leap_year y) (m + 1) - cum (is_leap_year y) m)
      by (unfold month_len; now rewrite (proj2 (Z.eqb_neq m 12)) by lia).
    destruct (Z.leb_spec (month_len (is_leap_year y) m) days).
    + destruct (IH (m + 1) (days - month_len (is_leap_year y) m)) as (m' & d & E & Hm' & Hd' & Hc); [lia|lia|lia|].
      exists m', d. split; [exact E|]. lia.
    + exists m, days. split; [reflexivity|]. lia.
  - assert (m = 12) as -> by lia. exists 12, days. split; [reflexivity|]. unfold month_len. cbn [Z.eqb Pos.eqb]. lia.
Qed.

(** ** The day of the week *)

(** 1 January 1970 was a Thursday. *)
Definition weekday (y m d : Z) : Z := (4 + days_before y + cum (is_leap_year y) m + d - 1) mod 7.

Lemma quot_div a b : 0 <= a -> 0 < b -> Z.quot a b = a / b.
Proof. intros. apply Z.quot_div_nonneg; lia. Qed.

(** The table of [day_of_week] holds the offsets of the months modulo 7. *)
Lemma week_table m : 1 <= m <= 12 ->
  exists s, table [0; 3; 2; 5; 0; 3; 5; 1; 4; 6; 2; 4] (m - 1) = Some s /\ 0 <= s <= 6 /\
    forall leap, (cum leap m - 1 - s - (if m <? 3 then -1 else b2z leap)) mod 7 = 0.
Proof.
  intros Hm. month_cases m; (eexists; split; [reflexivity|]; split; [lia|]); intros []; reflexivity.
Qed.

Lemma day_of_week_spec y m d :
  1 <= y <= year_max -> 1 <= m <= 12 -> 1 <= d <= 31 -> day_of_week y m d = Some (weekday y m d).
Proof.
  intros Hy Hm Hd. unfold day_of_week, a_month, year_max in *.
  rewrite (proj2 (Z.leb_le 1 m)), (proj2 (Z.leb_le m 12)) by lia. cbn [andb assert mbind option_bind].
  destruct (week_table m Hm) as (s & -> & Hs & Hmod). cbn [mbind option_bind].
  set (y' := if m <? 3 then s32 (y - 1) else y).
  assert (Hy' : y' = (if m <? 3 then y - 1 else y) /\ 0 <= y' <= 5000000).
  { unfold y'. destruct (m <? 3); [rewrite s32_small by lia|]; lia. }
  destruct Hy' as [Ey' Hy']. rewrite !quot_div by lia.
  assert (Hl : y' + y' / 4 - y' / 100 + y' / 400 = y + leaps y + (if m <? 3 then -1 else b2z (is_leap_year y))).
  { rewrite Ey'. destruct (m <? 3); [unfold leaps; lia|]. pose proof (leaps_succ y) as Hs'. unfold leaps at 1 in Hs'.
    replace (y + 1 - 1) with y in Hs' by lia. lia. }
  assert (Hlb : 0 <= leaps y <= 2000000) by (unfold leaps; Z.div_mod_to_equations; lia).
  specialize (Hmod (is_leap_year y)). pose proof (cum_bounds (is_leap_year y) m Hm).
  assert (Hb : -1 <= (if m <? 3 then -1 else b2z (is_leap_year y)) <= 1)
    by (unfold b2z; destruct (m <? 3), (is_leap_year y); lia).
  rewrite Hl. unfold weekday, days_before. f_equal. set (x := if m <? 3 then _ else _) in *. clearbody x.
  rewrite s32_small by lia. rewrite Z.rem_mod_nonneg by lia.
  rewrite u32_small by (Z.div_mod_to_equations; lia).
  set (c := cum (is_leap_year y) m) in *. clearbody c y'. set (lp := leaps y) in *. clearbody lp.
  Z.div_mod_to_equations. lia.
Qed.

(** ** Broken-down time *)

(** The structure [r] is the broken-down form of the time [t]. *)
Record civil (t : Z) (r : tm) : Prop := {
  cv_year : 1 <= 1900 + tm_year r < year_max;
  cv_mon : 0 <= tm_mon r <= 11;
  cv_mday : 1 <= tm_mday r <= month_len (is_leap_year (1900 + tm_year r)) (tm_mon r + 1);
  cv_hour : 0 <= tm_hour r <= 23;
  cv_min : 0 <= tm_min r <= 59;
  cv_sec : 0 <= tm_sec r <= 59;
  cv_yday : tm_yday r = cum (is_leap_year (1900 + tm_year r)) (tm_mon r + 1) + tm_mday r - 1;
  cv_wday : tm_wday r = weekday (1900 + tm_year r) (tm_mon r + 1) (tm_mday r);
  cv_time : t = (days_before (1900 + tm_year r) + tm_yday r) * 86400
                + tm_hour r * 3600 + tm_min r * 60 + tm_sec r }.

(** From 1 January of the year 1 to the end of the years the code can handle. *)
Definition time_ok (t : Z) : Prop := days_before 1 * 86400 <= t < days_before year_max * 86400.

Lemma month_len_le leap m : 1 <= m <= 12 -> month_len leap m <= 31.
Proof. intros Hm. month_cases m; destruct leap; cbv; discriminate. Qed.

(** Both loops over the years together. *)
Lemma years_spec t :
  time_ok t ->
  exists Y T Y' T', years_up (year_fuel t) 1970 t = Some (Y, T) /\ years_down (year_fuel T) Y T = Some (Y', T') /\
    1 <= Y' < year_max /\ 0 <= T' < days_in_year Y' * 86400 /\ t = days_before Y' * 86400 + T'.
Proof.
  unfold time_ok. intros Ht. assert (E1 : days_before 1970 = 0) by reflexivity.
  destruct (Z.le_gt_cases 0 t) as [Hp|Hn].
  - destruct (years_up_spec (year_fuel t) 1970 t) as (Y & T & E & HY & HT & Et); [lia|lia| |].
    { unfold year_fuel. rewrite Z.abs_eq by lia. Z.div_mod_to_equations. lia. }
    exists Y, T, Y, T. split; [exact E|]. split; [|lia].
    unfold year_fuel. cbn [years_down]. now rewrite (proj2 (Z.ltb_ge T 0)) by lia.
  - exists 1970, t. destruct (years_down_spec (year_fuel t) 1970 t) as (Y & T & E & HY & HT & Et); [lia| | |].
    { pose proof (days_in_year_bounds 1970). lia. }
    { left. unfold year_fuel. Z.div_mod_to_equations. lia. }
    exists Y, T. split; [|split; [exact E|unfold year_max in *; lia]].
    unfold year_fuel. cbn [years_up]. pose proof (days_in_year_bounds 1970).
    change __seconds_per_day with 86400. rewrite u32_small by lia. now rewrite (proj2 (Z.leb_gt _ t)) by lia.
Qed.

Lemma time_to_tm_spec isdst t :
  time_ok t -> exists r, time_to_tm isdst t = Some r /\ civil t r /\ tm_isdst r = isdst.
Proof.
  intros Ht. destruct (years_spec t Ht) as (Y & T & Y' & T' & E1 & E2 & HY & HT & Et).
  unfold time_to_tm. rewrite E1. cbn [mbind option_bind]. rewrite E2. cbn [mbind option_bind].
  rewrite (proj2 (Z.leb_le 0 T')) by lia. cbn [assert mbind option_bind].
  change __seconds_per_day with 86400. pose proof (days_in_year_bounds Y') as Hb.
  assert (Hdiv : 0 <= T' / 86400 < days_in_year Y') by (Z.div_mod_to_equations; lia).
  assert (Hmod : 0 <= T' mod 86400 < 86400) by (apply Z.mod_pos_bound; lia).
  rewrite !s32_small by (unfold year_max in *; lia).
  destruct (months_up_spec 13 Y' 1 (T' / 86400)) as (m & d & E3 & Hm & Hd & Hc); [lia| |lia|].
  { unfold days_in_year in Hdiv. change (cum (is_leap_year Y') 1) with (0 + if is_leap_year Y' && false then 1 else 0).
    rewrite andb_false_r. lia. }
  assert (Hc1 : cum (is_leap_year Y') 1 = 0) by (unfold cum; cbn; now rewrite andb_false_r).
  rewrite Hc1 in Hc. rewrite E3. cbn [mbind option_bind].
  pose proof (month_len_le (is_leap_year Y') m ltac:(lia)).
  rewrite day_of_week_spec by lia. cbn [mbind option_bind]. eexists. split; [reflexivity|]. split; [|reflexivity].
  split; cbn; replace (1900 + (Y' - 1900)) with Y' by lia; replace (m - 1 + 1) with m by lia; try lia;
    set (q := T' mod 86400) in *; Z.div_mod_to_equations; lia.
Qed.

(** The time stamp of days and clock fields of moderate size does not wrap. *)
Lemma stamp_small D h mi s z :
  -2147483648 <= D < 2147483648 -> -2147483648 <= h < 2147483648 -> -2147483648 <= mi < 2147483648 ->
  -2147483648 <= s < 2147483648 -> -2147483648 <= z < 2147483648 ->
  s64 (s64 (s64 (s64 (s64 (s64 (D * 24 + h) * 60) + mi) * 60) + s) + z) = ((D * 24 + h) * 60 + mi) * 60 + s + z.
Proof.
  intros. rewrite (s64_small (D * 24 + h)) by lia. rewrite (s64_small ((D * 24 + h) * 60)) by lia.
  rewrite (s64_small ((D * 24 + h) * 60 + mi)) by lia. rewrite (s64_small (((D * 24 + h) * 60 + mi) * 60)) by lia.
  rewrite (s64_small (((D * 24 + h) * 60 + mi) * 60 + s)) by lia. apply s64_small. lia.
Qed.

(** A broken-down time with these ranges is determined by the time. *)
Lemma time_of_civil t r : civil t r ->
  mktime r = (fun r' => (r', t)) <$> time_to_tm (tm_isdst r) t.
Proof.
  intros [Hy Hm Hd Hh Hmi Hs Hyd _ Ht]. unfold mktime, tm_to_time, year_max in *.
  generalize (time_to_tm (tm_isdst r)). intros F.
  pose proof (month_len_le (is_leap_year (1900 + tm_year r)) (tm_mon r + 1) ltac:(lia)).
  rewrite Z.quot_small, Z.rem_small by lia. rewrite Z.add_0_r, (s32_small (tm_year r)) by lia.
  rewrite (proj2 (Z.ltb_ge (tm_mon r) 0)) by lia. rewrite (s32_small (1900 + _)), u32_small by lia.
  rewrite day_of_year_spec by lia. cbn [mbind option_bind]. rewrite years_to_days_spec by (unfold year_max; lia).
  rewrite <- Hyd. pose proof (cum_bounds (is_leap_year (1900 + tm_year r)) (tm_mon r + 1) ltac:(lia)).
  assert (Hdb : -719162 <= days_before (1900 + tm_year r) <= 1830000000).
  { pose proof (days_before_mono 1 (1900 + tm_year r) ltac:(lia)) as H1.
    assert (E1 : days_before 1 = -719162) by reflexivity. rewrite E1 in H1. lia. }
  rewrite s32_small by lia. set (D := days_before _ + tm_yday r) in *.
  assert (HD : -719162 <= D <= 1830001000) by lia.
  rewrite stamp_small by lia.
  replace (((D * 24 + tm_hour r) * 60 + tm_min r) * 60 + tm_sec r + 0) with t by lia.
  destruct (F t) as [r'|]; reflexivity.
Qed.

(** Broken-down times of the same time are the same. *)
Lemma mktime_of_civil t r : time_ok t -> time_to_tm (tm_isdst r) t = Some r -> mktime r = Some (r, t).
Proof.
  intros Hok E. destruct (time_to_tm_spec (tm_isdst r) t Hok) as (r' & E' & Hc & _). rewrite E in E'.
  injection E' as <-. now rewrite (time_of_civil t r Hc), E.
Qed.

(** The time a structure with fields out of range stands for. *)
Definition tm_time (x : tm) : Z :=
  let year := 1900 + tm_year x + tm_mon x / 12 in
  (days_before year + cum (is_leap_year year) (tm_mon x mod 12 + 1) + tm_mday x - 1) * 86400
  + tm_hour x * 3600 + tm_min x * 60 + tm_sec x.

Definition field_ok (v : Z) : Prop := -1000000 <= v <= 1000000.

(** C's [/ 12] and [% 12] with the correction are the floor division. *)
Lemma month_carry y mon : -10000000 <= y <= 10000000 -> field_ok mon ->
  (let year := s32 (y + Z.quot mon 12) in
   let m := Z.rem mon 12 in
   if m <? 0 then (s32 (year - 1), m + 12) else (year, m)) = (y + mon / 12, mon mod 12).
Proof.
  unfold field_ok. intros Hy Hm. cbv zeta.
  pose proof (Z.quot_rem mon 12 ltac:(lia)) as Hqr. pose proof (Z.rem_bound_abs mon 12 ltac:(lia)) as Hb.
  pose proof (Z.rem_sign_mul mon 12 ltac:(lia)) as Hsg.
  assert (Hq : -100000 <= Z.quot mon 12 <= 100000) by lia.
  rewrite (s32_small (y + _)) by lia. destruct (Z.ltb_spec (Z.rem mon 12) 0).
  - rewrite s32_small by lia. f_equal; Z.div_mod_to_equations; lia.
  - f_equal; Z.div_mod_to_equations; lia.
Qed.

Lemma mktime_spec x :
  1 <= 1900 + tm_year x + tm_mon x / 12 < year_max ->
  field_ok (tm_mon x) -> field_ok (tm_mday x) -> field_ok (tm_hour x) -> field_ok (tm_min x) -> field_ok (tm_sec x) ->
  mktime x = (fun r => (r, tm_time x)) <$> time_to_tm (tm_isdst x) (tm_time x).
Proof.
  intros Hy Hmo Hd Hh Hmi Hs. unfold mktime, tm_to_time. generalize (time_to_tm (tm_isdst x)). intros F.
  assert (Hdiv : -100000 <= tm_mon x / 12 <= 100000) by (unfold field_ok in Hmo; Z.div_mod_to_equations; lia).
  pose proof (Z.mod_pos_bound (tm_mon x) 12 ltac:(lia)) as Hmod.
  unfold year_max, field_ok in *. pose proof (month_carry (tm_year x) (tm_mon x) ltac:(lia) Hmo) as Hc. cbv zeta in *.
  destruct (if Z.rem (tm_mon x) 12 <? 0 then _ else _) as [year mon]. injection Hc as -> ->.
  rewrite (s32_small (1900 + _)), u32_small by lia. rewrite day_of_year_spec by lia. cbn [mbind option_bind].
  rewrite years_to_days_spec by (unfold year_max; lia). unfold tm_time. cbv zeta.
  replace (1900 + (tm_year x + tm_mon x / 12)) with (1900 + tm_year x + tm_mon x / 12) by lia.
  set (Y := 1900 + tm_year x + tm_mon x / 12) in *.
  pose proof (cum_bounds (is_leap_year Y) (tm_mon x mod 12 + 1) ltac:(lia)).
  assert (Hdb : -719162 <= days_before Y <= 1830000000).
  { pose proof (days_before_mono 1 Y ltac:(lia)) as H1.
    assert (E1 : days_before 1 = -719162) by reflexivity. rewrite E1 in H1. lia. }
  rewrite s32_small by lia. rewrite stamp_small by lia.
  match goal with |- context [F ?a] => match goal with |- _ = _ <$> F ?b => replace a with b by lia end end.
  destruct (F _) as [r'|]; reflexivity.
Qed.

(** ** cal *)

Lemma cal_leap y : 1752 < y -> Cal.leap_year y = is_leap_year y.
Proof.
  intros Hy. unfold Cal.leap_year, is_leap_year. rewrite (proj2 (Z.leb_gt y 1752)) by lia.
  rewrite !rem_mod_0 by lia.
  destruct (y mod 4 =? 0) eqn:E4, (y mod 100 =? 0) eqn:E1, (y mod 400 =? 0) eqn:E2; try reflexivity;
    exfalso; zbool; Z.div_mod_to_equations; lia.
Qed.

Lemma cal_table leap m : 1 <= m <= 12 -> table (Cal.days_in_month leap) m = Some (month_len leap m).
Proof. intros Hm. month_cases m; destruct leap; reflexivity. Qed.

Lemma cal_add_months n : forall i leap day,
  1 <= i -> i + Z.of_nat n <= 12 -> 1 <= day -> day + cum leap (i + Z.of_nat n) - cum leap i <= 1000 ->
  Cal.add_months n i leap day = Some (day + cum leap (i + Z.of_nat n) - cum leap i).
Proof.
  induction n as [|n IH]; intros i leap day Hi Hn Hd Hb; cbn [Cal.add_months].
  - f_equal. replace (i + Z.of_nat 0) with i by lia. lia.
  - rewrite cal_table by lia. cbn [mbind option_bind].
    assert (El : month_len leap i = cum leap (i + 1) - cum leap i)
      by (unfold month_len; now rewrite (proj2 (Z.eqb_neq i 12)) by lia).
    assert (Hl : 28 <= month_len leap i <= 31) by (clear -Hi Hn; month_cases i; destruct leap; cbv; split; discriminate).
    assert (Hge : forall k, cum leap (i + 1) <= cum leap (i + 1 + Z.of_nat k) \/ 12 < i + 1 + Z.of_nat k).
    { induction k as [|k IHk]; [left; replace (i + 1 + Z.of_nat 0) with (i + 1) by lia; lia|].
      destruct IHk as [IHk|?]; [|right; lia]. destruct (Z.le_gt_cases (i + 1 + Z.of_nat (S k)) 12) as [Hk|]; [left|right; lia].
      etrans; [exact IHk|]. replace (i + 1 + Z.of_nat (S k)) with (i + 1 + Z.of_nat k + 1) in * by lia.
      set (j := i + 1 + Z.of_nat k) in *. assert (Hj : 1 <= j <= 11) by lia. clear -Hj.
      assert (Hj12 : 1 <= j <= 12) by lia. month_cases j; try lia; destruct leap; cbv; discriminate. }
    destruct (Hge n) as [Hge'|]; [|lia].
    replace (i + Z.of_nat (S n)) with (i + 1 + Z.of_nat n) in * by lia.
    rewrite s32_small by lia. rewrite IH by lia. f_equal. lia.
Qed.

Lemma cal_day_in_year d m y :
  1752 < y -> 1 <= m <= 12 -> 1 <= d <= 31 -> Cal.day_in_year d m y = Some (cum (is_leap_year y) m + d).
Proof.
  intros Hy Hm Hd. unfold Cal.day_in_year. rewrite cal_leap by exact Hy.
  pose proof (cum_bounds (is_leap_year y) m Hm). assert (H1 : cum (is_leap_year y) 1 = 0) by (unfold cum; cbn; now rewrite andb_false_r).
  rewrite cal_add_months by (replace (1 + Z.of_nat (Z.to_nat (m - 1))) with m by lia; lia).
  f_equal. replace (1 + Z.of_nat (Z.to_nat (m - 1))) with m by lia. lia.
Qed.

Lemma cal_day_in_week d m y :
  1752 < y <= year_max -> 1 <= m <= 12 -> 1 <= d <= 31 -> Cal.day_in_week d m y = Some (weekday y m d).
Proof.
  intros Hy Hm Hd. unfold Cal.day_in_week. rewrite cal_day_in_year by lia. cbn [mbind option_bind].
  assert (Hl : Cal.leap_years_since_year_1 (y - 1) = leaps y + 13).
  { unfold Cal.leap_years_since_year_1, Cal.centuries_since_1700, Cal.quad_centuries_since_1700, leaps.
    rewrite !(proj2 (Z.ltb_lt _ _)) by lia. rewrite !quot_div by lia. Z.div_mod_to_equations. lia. }
  rewrite Hl. pose proof (cum_bounds (is_leap_year y) m Hm). assert (425 <= leaps y) by (unfold leaps; Z.div_mod_to_equations; lia).
  unfold Cal.FIRST_MISSING_DAY, Cal.NUMBER_MISSING_DAYS, Cal.SATURDAY.
  rewrite (proj2 (Z.ltb_ge _ _)), (proj2 (Z.leb_le _ _)) by lia. f_equal. unfold weekday, days_before.
  rewrite Z.rem_mod_nonneg by lia. set (c := cum _ _) in *. set (lp := leaps y) in *. clearbody c lp.
  Z.div_mod_to_equations. lia.
Qed.

(** ** Claims *)

(** C12: For every time from the year 1 to the year five million, [gmtime] gives
    the Gregorian date and clock time of it: every field in its range, the day
    inside the month, the day of the year and of the week as the calendar says,
    and the fields add up to the time. *)
Theorem gmtime_correct t buf :
  time_ok t -> exists r, gmtime (Some t) buf = Some (Some r) /\ civil t r.
Proof.
  intros Ht. destruct (time_to_tm_spec (tm_isdst buf) t Ht) as (r & E & Hc & _). exists r.
  split; [|exact Hc]. unfold gmtime, gmtime_r. now rewrite E.
Qed.

Definition tm0 : tm := Tm 0 0 0 0 0 0 0 0 0.

Lemma gmtime_correct_witness : exists r, gmtime (Some (-62135596800)) tm0 = Some (Some r) /\ civil (-62135596800) r.
Proof. apply gmtime_correct. unfold time_ok. vm_compute. split; [discriminate|reflexivity]. Defined.

(** C13: [mktime] takes back what [gmtime] gave: the time, and the structure
    unchanged. *)
Theorem mktime_gmtime t buf r :
  time_ok t -> gmtime (Some t) buf = Some (Some r) -> mktime r = Some (r, t).
Proof.
  intros Ht E. destruct (time_to_tm_spec (tm_isdst buf) t Ht) as (r' & E' & _ & Hi).
  unfold gmtime, gmtime_r in E. rewrite E' in E. injection E as <-. apply mktime_of_civil; [exact Ht|]. now rewrite Hi.
Qed.

Lemma mktime_gmtime_witness :
  mktime (Tm 56 34 12 29 1 124 4 59 0) = Some (Tm 56 34 12 29 1 124 4 59 0, 1709210096).
Proof.
  apply (mktime_gmtime 1709210096 tm0); [unfold time_ok; vm_compute; split; [discriminate|reflexivity]|].
  vm_compute. reflexivity.
Defined.

(** [mktime] accepts fields out of range: a month carries into the year and
    the other fields into each other, and the structure is normalised to the
    broken-down form of the resulting time. *)
Lemma mktime_normalises x :
  1 <= 1900 + tm_year x + tm_mon x / 12 < year_max ->
  field_ok (tm_mon x) -> field_ok (tm_mday x) -> field_ok (tm_hour x) -> field_ok (tm_min x) -> field_ok (tm_sec x) ->
  time_ok (tm_time x) ->
  exists r, mktime x = Some (r, tm_time x) /\ civil (tm_time x) r.
Proof.
  intros Hy H1 H2 H3 H4 H5 Hok. destruct (time_to_tm_spec (tm_isdst x) _ Hok) as (r & E & Hc & _).
  exists r. split; [|exact Hc]. now rewrite mktime_spec, E.
Qed.

(** Month -1 and day 0 of 2024: 30 November 2023. *)
Lemma mktime_normalises_witness :
  exists r, mktime (Tm 0 0 25 0 (-1) 124 0 0 0) = Some (r, tm_time (Tm 0 0 25 0 (-1) 124 0 0 0)) /\
    civil (tm_time (Tm 0 0 25 0 (-1) 124 0 0 0)) r.
Proof.
  apply mktime_normalises; unfold field_ok, time_ok, year_max; cbn [tm_mon tm_mday tm_hour tm_min tm_sec tm_year]; try lia.
  - vm_compute. split; [discriminate|reflexivity].
  - vm_compute. split; [discriminate|reflexivity].
Defined.

(** After the reformation of 1752 the calendar program and the C library
    agree on the day of the week of every date. *)
Lemma cal_agrees_with_libc d m y :
  1752 < y <= year_max -> 1 <= m <= 12 -> 1 <= d <= 31 -> Cal.day_in_week d m y = day_of_week y m d.
Proof. intros. rewrite cal_day_in_week, day_of_week_spec by lia. reflexivity. Qed.

Lemma cal_agrees_with_libc_witness : Cal.day_in_week 29 2 2024 = day_of_week 2024 2 29.
Proof. apply cal_agrees_with_libc; unfold year_max; lia. Defined.
