(* ===== verification/Sort.v ===== *)
(** * libc/src/stdlib/stdlib.c: qsort and bsearch

    The array is bytes in memory; the comparison function of the caller is a
    function of the bytes of two elements.  [qsort] is an insertion sort that
    moves an element to its place by rotating one byte column after the other.
    Pointers are unbounded: for an array that starts below the size of an element
    [t2 -= size] would wrap around in C, and no process has memory there. *)

From Stdlib Require Import Sorting.Sorted.
From S2P Require Import Prelude CMem.

Section sort.
Context (compar : list Z -> list Z -> Z).

(** [compar(p, q)] on elements of [size] bytes. *)
Definition compare_at (size p q : Z) : M Z :=
  a ← load_bytes (Z.to_nat size) p;
  b ← load_bytes (Z.to_nat size) q;
  mret (compar a b).

(** [for (t2 = t1; (t2 -= size) >= bot && compar(t1, t2) < 0;)], with the final
    [t2 += size]. *)
Definition find_place (bot size t1 : Z) : M Z :=
  loop (S (Z.to_nat (t1 - bot))) (fun t2 =>
    let t2 := t2 - size in
    if bot <=? t2 then
      c ← compare_at size t1 t2;
      if c <? 0 then mret (Next t2) else mret (Break (t2 + size))
    else mret (Break (t2 + size))) t1.

(** One byte column: [ch = *t1; for (s1 = s2 = t1; (s2 -= size) >= t2; s1 = s2)
    *s1 = *s2; *s1 = ch;]. *)
Definition rotate_byte (size t2 t1 : Z) : M unit :=
  c ← load8 t1;
  s1 ← loop (S (Z.to_nat (t1 - t2))) (fun '(s1, s2) =>
    let s2 := s2 - size in
    if t2 <=? s2 then v ← load8 s2; store8 s1 v;; mret (Next (s2, s2)) else mret (Break s1)) (t1, t1);
  store8 s1 c.

(** [for (cnt = size; cnt--; ++t1)]; the result is [t1] after the loop. *)
Fixpoint rotate (cnt : nat) (size t2 t1 : Z) : M Z :=
  match cnt with
  | O => mret t1
  | S cnt => rotate_byte size t2 t1;; rotate cnt size t2 (t1 + 1)
  end.

Definition insertion_sort (bot nmemb size : Z) : M unit :=
  let top := bot + nmemb * size in
  loop (S (Z.to_nat nmemb)) (fun t1 =>
    if t1 <? top then
      t2 ← find_place bot size t1;
      if negb (t1 =? t2) then t1 ← rotate (Z.to_nat (s32 size)) size t2 t1; mret (Next t1)
      else mret (Next (t1 + size))
    else mret (Break tt)) (bot + size).

Definition qsort (bot nmemb size : Z) : M unit :=
  if nmemb <=? 1 then mret tt else insertion_sort bot nmemb size.

(** [key] is the bytes behind the pointer; the result is an address or null. *)
Definition bsearch (key : list Z) (base nel width : Z) : M Z :=
  loop (S (Z.to_nat nel)) (fun '(base, nel) =>
    if 0 <? nel then
      let try := base + width * (nel / 2) in
      e ← load_bytes (Z.to_nat width) try;
      let sign := compar key e in
      if sign <? 0 then mret (Next (base, nel / 2))
      else if 0 <? sign then mret (Next (try + width, nel - (nel / 2 + 1)))
      else mret (Break try)
    else mret (Break 0)) (base, nel).
End sort.

(** [insertion_sort_r] and [qsort_r] hand an extra argument to the comparison. *)
Definition insertion_sort_r {A} (bot nmemb size : Z) (compar : list Z -> list Z -> A -> Z) (arg : A) : M unit :=
  insertion_sort (fun a b => compar a b arg) bot nmemb size.
Definition qsort_r {A} (bot nmemb size : Z) (compar : list Z -> list Z -> A -> Z) (arg : A) : M unit :=
  if nmemb <=? 1 then mret tt else insertion_sort_r bot nmemb size compar arg.

(** ** The reference: a stable insertion sort on a list of elements *)

Section reference.
Context (compar : list Z -> list Z -> Z).
Abbreviation elt := (list Z).

(** Insertion into the reversed sorted prefix. *)
Fixpoint ins (x : elt) (rl : list elt) : list elt :=
  match rl with
  | y :: rl' => if compar x y <? 0 then y :: ins x rl' else x :: rl
  | [] => [x]
  end.
Definition isort_rev (es : list elt) : list elt := foldl (fun rl x => ins x rl) [] es.
Definition isort (es : list elt) : list elt := rev (isort_rev es).

(** The comparison function is a strict weak order. *)
Record comparison : Prop := {
  cmp_asym : forall a b, compar a b < 0 -> ~ compar b a < 0;
  cmp_trans : forall a b c, ~ compar a b < 0 -> ~ compar b c < 0 -> ~ compar a c < 0 }.

(** Ordered: no element is less than one before it. *)
Abbreviation in_order := (StronglySorted (fun a b : elt => ~ compar b a < 0)).

Lemma ins_perm x rl : ins x rl ≡ₚ x :: rl.
Proof.
  induction rl as [|y rl IH]; cbn [ins]; [reflexivity|]. destruct (_ <? _); [|reflexivity].
  rewrite IH. apply perm_swap.
Qed.

Lemma isort_rev_snoc es x : isort_rev (es ++ [x]) = ins x (isort_rev es).
Proof. unfold isort_rev. now rewrite foldl_app. Qed.

Lemma isort_rev_perm es : isort_rev es ≡ₚ es.
Proof.
  induction es as [|x es IH] using rev_ind; [reflexivity|].
  rewrite isort_rev_snoc, ins_perm, IH. now rewrite Permutation_app_comm.
Qed.

Lemma isort_perm es : isort es ≡ₚ es.
Proof. unfold isort. now rewrite <- Permutation_rev, isort_rev_perm. Qed.

Hypothesis Hcmp : comparison.

Lemma ins_sorted x rl :
  StronglySorted (fun a b : elt => ~ compar a b < 0) rl -> StronglySorted (fun a b : elt => ~ compar a b < 0) (ins x rl).
Proof.
  induction 1 as [|y rl Hs IH Hy]; cbn [ins]; [repeat constructor|].
  destruct (compar x y <? 0) eqn:E; zbool.
  - constructor; [exact IH|]. rewrite (ins_perm x rl). constructor; [now apply (cmp_asym Hcmp)|exact Hy].
  - assert (Hxy : ~ compar x y < 0) by lia. constructor; [now constructor|]. constructor; [exact Hxy|].
    eapply Forall_impl; [|exact Hy]. intros z Hz. exact (cmp_trans Hcmp x y z Hxy Hz).
Qed.

Lemma isort_rev_sorted es : StronglySorted (fun a b : elt => ~ compar a b < 0) (isort_rev es).
Proof.
  induction es as [|x es IH] using rev_ind; [constructor|]. rewrite isort_rev_snoc. now apply ins_sorted.
Qed.

Lemma sorted_rev {A} (R : A -> A -> Prop) l : StronglySorted R l -> StronglySorted (fun a b => R b a) (rev l).
Proof.
  induction 1 as [|x l Hs IH Hx]; [constructor|]. cbn [rev].
  revert IH Hx. rewrite <- (rev_involutive l) at 2. generalize (rev l). intros l'. induction 1 as [|y l' Hs' IH' Hy]; intros Hx.
  - repeat constructor.
  - cbn [app]. cbn [rev] in Hx. apply Forall_app in Hx as [Hx1 Hx2]. constructor; [now apply IH'|].
    apply Forall_app. split; [exact Hy|]. inversion Hx2; subst. repeat constructor. assumption.
Qed.

Lemma isort_sorted es : in_order (isort es).
Proof. apply sorted_rev, isort_rev_sorted. Qed.

(** Stability: elements that compare equal to [x] keep their order. *)
Definition same (x y : elt) : bool := negb (compar x y <? 0) && negb (compar y x <? 0).

Lemma ins_stable x e rl :
  List.filter (same x) (ins e rl) = List.filter (same x) (e :: rl).
Proof.
  induction rl as [|y rl IH]; cbn [ins]; [reflexivity|]. destruct (compar e y <? 0) eqn:E; [|reflexivity].
  cbn [List.filter] in *. rewrite IH. destruct (same x e) eqn:Ee, (same x y) eqn:Ey; try reflexivity.
  exfalso. unfold same in *. zbool.
  assert (K1 : ~ compar e x < 0) by lia. assert (K2 : ~ compar x y < 0) by lia.
  pose proof (cmp_trans Hcmp e x y K1 K2). lia.
Qed.

Lemma isort_rev_stable x es : List.filter (same x) (isort_rev es) = rev (List.filter (same x) es).
Proof.
  induction es as [|e es IH] using rev_ind; [reflexivity|].
  rewrite isort_rev_snoc, ins_stable, List.filter_app, rev_app_distr. cbn [List.filter].
  rewrite IH. destruct (same x e); reflexivity.
Qed.

Lemma filter_rev {A} (f : A -> bool) l : List.filter f (rev l) = rev (List.filter f l).
Proof.
  induction l as [|x l IH]; [reflexivity|]. cbn [rev List.filter]. rewrite List.filter_app, IH. cbn.
  destruct (f x); [reflexivity|]. now rewrite app_nil_r.
Qed.

Lemma isort_stable x es : List.filter (same x) (isort es) = List.filter (same x) es.
Proof. unfold isort. now rewrite filter_rev, isort_rev_stable, rev_involutive. Qed.
End reference.
