(* ===== verification/SortProps.v ===== *)
(** * qsort and bsearch: properties *)

From Stdlib Require Import Sorting.Sorted.
From S2P Require Import Prelude CMem Sort.

Section array.
Context (compar : list Z -> list Z -> Z) (bot size : Z).
Hypothesis Hsize : 0 < size < 2 ^ 31.

(** The address of an element. *)
Definition row (r : nat) : Z := bot + Z.of_nat r * size.

Definition elements (es : list (list Z)) : Prop :=
  Forall (fun e => Z.of_nat (length e) = size /\ Forall is_byte e) es.

Definition rows (m : mem) (es : list (list Z)) : Prop := bytes_at m bot (concat es).

(** Nothing outside the array differs. *)
Definition outside (n : nat) (m m' : mem) : Prop :=
  forall a, a < bot \/ row n <= a -> m' !! a = m !! a.

Lemma length_concat es : elements es -> Z.of_nat (length (concat es)) = Z.of_nat (length es) * size.
Proof.
  induction 1 as [|e es [He _] _ IH]; [reflexivity|]. cbn [concat length]. rewrite length_app. lia.
Qed.

Lemma rows_app m es fs :
  elements es -> rows m (es ++ fs) <-> rows m es /\ bytes_at m (row (length es)) (concat fs).
Proof.
  intros He. unfold rows, row. rewrite concat_app, bytes_at_app, length_concat by exact He. reflexivity.
Qed.

Lemma rows_middle m A x Q :
  elements A -> rows m (A ++ x :: Q) <->
  rows m A /\ bytes_at m (row (length A)) x /\ bytes_at m (row (length A) + Z.of_nat (length x)) (concat Q).
Proof. intros HA. rewrite rows_app by exact HA. cbn [concat]. now rewrite bytes_at_app. Qed.

Lemma load_elem m p e Q : bytes_at m p e -> Z.of_nat (length e) = size -> Q e m -> wp (load_bytes (Z.to_nat size) p) Q m.
Proof.
  intros Hb Hl HQ. replace (Z.to_nat size) with (length e) by lia. now apply wp_load_bytes with (bs := e).
Qed.

(** ** Finding the place *)

Lemma find_place_loop Q x Bs : forall P fuel m,
  elements P -> Z.of_nat (length x) = size -> rows m (P ++ Bs ++ x :: Q) -> elements Bs -> (length P < fuel)%nat ->
  let t1 := row (length P + length Bs) in
  exists A B, P = A ++ B /\ rev (ins compar x (rev P)) = A ++ x :: B /\
    loop fuel (fun t2 =>
      let t2 := t2 - size in
      if bot <=? t2 then
        c ← compare_at compar size t1 t2;
        if c <? 0 then mret (Next t2) else mret (Break (t2 + size))
      else mret (Break (t2 + size))) (row (length P)) m = Ok (row (length A)) m.
Proof.
  intros P. revert Bs. induction P as [|y P IH] using rev_ind; intros Bs fuel m HP Hx Hm HB Hf t1;
    (destruct fuel as [|fuel]; [lia|]).
  - exists [], []. split; [reflexivity|]. split; [reflexivity|]. apply wp_eq. cbn [loop]. apply wp_bind. cbv zeta.
    rewrite (proj2 (Z.leb_gt bot _)) by (unfold row; cbn; lia). apply wp_ret, wp_ret. split; [lia|reflexivity].
  - apply Forall_app in HP as [HP [Hy _]%Forall_cons_iff]. rewrite length_app in Hf. cbn [length] in Hf.
    pose proof Hm as Hm'. rewrite <- app_assoc in Hm'. cbn [app] in Hm'.
    apply rows_middle in Hm' as (_ & Hyb & _); [|exact HP].
    assert (Hxb : bytes_at m t1 x).
    { rewrite app_assoc in Hm. apply rows_middle in Hm as (_ & Hxb & _); [now rewrite length_app in Hxb|].
      apply Forall_app. split; [apply Forall_app; split; [exact HP|now constructor]|exact HB]. }
    assert (Hrow : row (length (P ++ [y])) - size = row (length P)) by (unfold row; rewrite length_app; cbn; lia).
    rewrite rev_app_distr. cbn [rev app ins]. destruct (compar x y <? 0) eqn:E.
    + destruct (IH (y :: Bs) fuel m HP Hx) as (A & B & EP & Er & El); [now rewrite <- app_assoc in Hm|now constructor|lia|].
      exists A, (B ++ [y]). split; [now rewrite EP, app_assoc|]. split; [cbn [rev]; now rewrite Er, <- app_assoc|].
      apply wp_eq. cbn [loop]. apply wp_bind. cbv zeta. rewrite Hrow.
      rewrite (proj2 (Z.leb_le bot _)) by (unfold row; lia). apply wp_bind. unfold compare_at.
      apply wp_bind, (load_elem m t1 x); [exact Hxb|exact Hx|]. apply wp_bind, (load_elem m (row (length P)) y); [exact Hyb|apply Hy|].
      apply wp_ret. rewrite E. apply wp_ret.
      assert (Et : row (length P + length (y :: Bs)) = t1) by (unfold t1; rewrite length_app; cbn [length]; f_equal; lia).
      cbv zeta in El. rewrite Et in El. eapply wp_run; [exact El|]. auto.
    + exists (P ++ [y]), []. split; [now rewrite app_nil_r|]. split; [cbn [rev]; now rewrite rev_involutive, <- !app_assoc|].
      apply wp_eq. cbn [loop]. apply wp_bind. cbv zeta. rewrite Hrow.
      rewrite (proj2 (Z.leb_le bot _)) by (unfold row; lia). apply wp_bind. unfold compare_at.
      apply wp_bind, (load_elem m t1 x); [exact Hxb|exact Hx|]. apply wp_bind, (load_elem m (row (length P)) y); [exact Hyb|apply Hy|].
      apply wp_ret. rewrite E. apply wp_ret, wp_ret. split; [lia|reflexivity].
Qed.

(** ** Rotating *)

(** [a] lies in the column of [lo], above it and not above [hi]. *)
Definition in_column (lo hi a : Z) : bool := (lo <? a) && (a <=? hi) && ((a - lo) mod size =? 0).

Definition byte_cell (m : mem) (a : Z) : Prop := exists b, m !! a = Some b /\ is_byte b.

(** The cells of one column move up by one element, the last one goes first. *)
Lemma rotate_byte_spec m lo hi t2 n :
  hi = lo + Z.of_nat n * size -> t2 <= lo < t2 + size -> (forall a, t2 <= a <= hi -> byte_cell m a) ->
  exists m', rotate_byte size t2 hi m = Ok tt m' /\
    forall a, m' !! a = if a =? lo then m !! hi else if in_column lo hi a then m !! (a - size) else m !! a.
Proof.
  intros Hhi Hlo Hcell. destruct (Hcell hi) as (c & Hc & Hcb); [nia|].
  cut (wp (rotate_byte size t2 hi) (fun _ m' => forall a,
    m' !! a = if a =? lo then m !! hi else if in_column lo hi a then m !! (a - size) else m !! a) m).
  { intros Hw. apply wp_ok in Hw as ([] & m' & E & Hm'). eauto. }
  unfold rotate_byte. apply wp_bind, wp_load8 with c; [exact Hc|]. apply wp_bind.
  eapply (wp_loop _ (fun '(s1, s2) mc => s1 = s2 /\ (exists p, (p <= n)%nat /\ s1 = lo + Z.of_nat p * size) /\
      forall a, mc !! a = if in_column s1 hi a then m !! (a - size) else m !! a)
    (fun '(s1, _) => Z.to_nat (s1 - lo))).
  - intros [s1 s2] mc (<- & (p & Hp & Es) & Hmc). destruct (Z.leb_spec t2 (s1 - size)) as [Hle|Hgt].
    + assert (Hp0 : (0 < p)%nat) by (destruct p; [exfalso; lia|lia]).
      assert (Hin : t2 <= s1 - size <= hi) by nia.
      destruct (Hcell (s1 - size) Hin) as (v & Hv & Hvb).
      assert (Hnc : forall a, a <= s1 -> in_column s1 hi a = false)
        by (intros a Ha; unfold in_column; now rewrite (proj2 (Z.ltb_ge s1 a)) by lia).
      apply wp_bind, wp_load8 with v; [rewrite Hmc, Hnc by lia; exact Hv|].
      destruct (Hcell s1) as (v1 & Hv1 & _); [nia|].
      apply wp_bind, wp_store8; [rewrite Hmc, Hnc by lia; eauto|]. rewrite u8_small by exact Hvb. apply wp_ret.
      split; [split; [reflexivity|]; split|nia].
      * exists (p - 1)%nat. split; [lia|]. nia.
      * intros a. destruct (Z.eq_dec a s1) as [->|Hne].
        -- rewrite lookup_insert_eq. unfold in_column.
           rewrite (proj2 (Z.ltb_lt _ _)), (proj2 (Z.leb_le s1 hi)) by nia.
           replace (s1 - (s1 - size)) with size by lia. rewrite Z_mod_same_full. cbn. now rewrite Hv.
        -- rewrite lookup_insert_ne, Hmc by auto. assert (Ei : in_column s1 hi a = in_column (s1 - size) hi a); [|now rewrite Ei].
           unfold in_column. replace (a - (s1 - size)) with (a - s1 + 1 * size) by lia. rewrite Z_mod_plus_full.
           destruct (Z.ltb_spec s1 a), (Z.ltb_spec (s1 - size) a); try reflexivity; [lia|].
           cbn [andb]. destruct (a <=? hi); [|reflexivity]. cbn [andb]. symmetry. apply Z.eqb_neq.
           intros Hmod. apply Z.mod_divide in Hmod as [q Hq]; [|lia]. destruct (Z.lt_ge_cases q 0); nia.
    + apply wp_ret. assert (p = 0)%nat as -> by nia.
      assert (s1 = lo) as -> by lia. apply wp_store8.
      { rewrite Hmc. unfold in_column. rewrite (proj2 (Z.ltb_ge lo lo)) by lia. cbn.
        destruct (Hcell lo) as (b & Hb & _); [nia|]. eauto. }
      intros a. rewrite u8_small by exact Hcb. destruct (Z.eqb_spec a lo) as [->|Hne].
      * rewrite lookup_insert_eq. now rewrite Hc.
      * rewrite lookup_insert_ne by auto. apply Hmc.
  - split; [reflexivity|]. split; [exists n; split; [lia|exact Hhi]|]. intros a. unfold in_column.
    destruct (Z.ltb_spec hi a); [|reflexivity]. rewrite (proj2 (Z.leb_gt a hi)) by lia. reflexivity.
  - nia.
Qed.

(** A column in terms of the distance from the first element. *)
Lemma in_column_row n t2 k a :
  0 <= k < size ->
  in_column (t2 + k) (t2 + Z.of_nat n * size + k) a =
  (t2 + size <=? a) && (a <? t2 + Z.of_nat n * size + size) && ((a - t2) mod size =? k).
Proof.
  intros Hk. unfold in_column. destruct (Z.eqb_spec ((a - t2) mod size) k) as [Ek|Ek].
  - pose proof (Z.div_mod (a - t2) size ltac:(lia)) as Hdm. rewrite Ek in Hdm.
    replace ((a - (t2 + k)) mod size) with 0
      by (replace (a - (t2 + k)) with (0 + (a - t2) / size * size) by lia; now rewrite Z_mod_plus_full, Z.mod_0_l by lia).
    rewrite Z.eqb_refl, !andb_true_r. set (q := (a - t2) / size) in *. clearbody q.
    destruct (Z.ltb_spec (t2 + k) a), (Z.leb_spec a (t2 + Z.of_nat n * size + k)), (Z.leb_spec (t2 + size) a),
      (Z.ltb_spec a (t2 + Z.of_nat n * size + size));
      try reflexivity; exfalso; destruct (Z.lt_ge_cases q 1), (Z.le_gt_cases q (Z.of_nat n)); nia.
  - rewrite !andb_false_r. destruct ((a - (t2 + k)) mod size =? 0) eqn:E0; [|now rewrite andb_false_r].
    exfalso. apply Ek. zbool. apply Z.mod_divide in E0 as [q Hq]; [|lia].
    replace (a - t2) with (k + q * size) by lia. rewrite Z_mod_plus_full. apply Z.mod_small. lia.
Qed.

(** The whole rotation, column by column. *)
Lemma rotate_spec n t2 m0 : forall cnt k m,
  let hi := t2 + Z.of_nat n * size in
  Z.of_nat cnt = size - k -> 0 <= k ->
  (forall a, t2 <= a < hi + size -> byte_cell m0 a) ->
  (forall a, m !! a = if (t2 <=? a) && (a <? hi + size) && ((a - t2) mod size <? k)
                      then (if a <? t2 + size then m0 !! (a + Z.of_nat n * size) else m0 !! (a - size)) else m0 !! a) ->
  exists m', rotate cnt size t2 (hi + k) m = Ok (hi + size) m' /\
    forall a, m' !! a = if (t2 <=? a) && (a <? hi + size)
                        then (if a <? t2 + size then m0 !! (a + Z.of_nat n * size) else m0 !! (a - size)) else m0 !! a.
Proof.
  induction cnt as [|cnt IH]; intros k m hi Hk Hk0 Hcell Hm; cbn [rotate].
  - exists m. split; [replace (hi + k) with (hi + size) by lia; reflexivity|]. intros a. rewrite Hm.
    destruct ((t2 <=? a) && (a <? hi + size)); [|reflexivity].
    pose proof (Z.mod_pos_bound (a - t2) size ltac:(lia)). now rewrite (proj2 (Z.ltb_lt _ k)) by lia.
  - assert (Hcm : forall a, t2 <= a < hi + size -> byte_cell m a).
    { intros a Ha. unfold byte_cell. rewrite Hm. destruct (_ && _); [|now apply Hcell].
      destruct (Z.ltb_spec a (t2 + size)); apply Hcell; unfold hi in *; lia. }
    destruct (rotate_byte_spec m (t2 + k) (hi + k) t2 n) as (m1 & E1 & H1); [unfold hi; lia|lia|intros a Ha; apply Hcm; lia|].
    destruct (IH (k + 1) m1) as (m' & E' & H'); [lia|lia|exact Hcell| |].
    2:{ exists m'. split; [|exact H']. apply wp_eq, wp_bind. eapply wp_run; [exact E1|].
        replace (hi + k + 1) with (hi + (k + 1)) by lia. eapply wp_run; [exact E'|]. auto. }
    intros a. rewrite H1. fold hi. destruct (Z.eqb_spec a (t2 + k)) as [->|Hne].
    + rewrite Hm. replace (hi + k - t2) with (k + Z.of_nat n * size) by (unfold hi; lia).
      replace (t2 + k - t2) with k by lia. rewrite Z_mod_plus_full, Z.mod_small by lia.
      rewrite (proj2 (Z.ltb_ge k k)), andb_false_r by lia.
      rewrite (proj2 (Z.leb_le _ _)), !(proj2 (Z.ltb_lt _ _)) by (unfold hi; lia). cbn [andb]. f_equal. unfold hi. lia.
    + unfold hi at 1. rewrite in_column_row by lia. fold hi. pose proof (Z.mod_pos_bound (a - t2) size ltac:(lia)) as Hmb. rewrite !Hm.
      destruct (Z.leb_spec t2 a), (Z.ltb_spec a (hi + size)), (Z.leb_spec (t2 + size) a); cbn [andb]; try lia; try reflexivity.
      * replace (a - size - t2) with (a - t2 + -1 * size) by lia. rewrite Z_mod_plus_full.
        rewrite (proj2 (Z.leb_le t2 (a - size))), (proj2 (Z.ltb_lt (a - size) _)) by lia.
        rewrite (proj2 (Z.ltb_ge a (t2 + size))) by lia. cbn [andb].
        destruct (Z.eqb_spec ((a - t2) mod size) k) as [Ek|Ek].
        -- rewrite Ek, (proj2 (Z.ltb_ge k k)), (proj2 (Z.ltb_lt k (k + 1))) by lia. reflexivity.
        -- destruct (Z.ltb_spec ((a - t2) mod size) k), (Z.ltb_spec ((a - t2) mod size) (k + 1)); try lia; reflexivity.
      * rewrite (proj2 (Z.ltb_lt a (t2 + size))) by lia. rewrite (Z.mod_small (a - t2)) by lia.
        destruct (Z.ltb_spec (a - t2) k), (Z.ltb_spec (a - t2) (k + 1)); try lia; reflexivity.
Qed.

Lemma bytes_cells m p bs a :
  bytes_at m p bs -> Forall is_byte bs -> p <= a < p + Z.of_nat (length bs) -> byte_cell m a.
Proof.
  intros Hb HB Ha. destruct (lookup_nat_Z bs (a - p)) as [b Hl]; [lia|]. exists b. split.
  - rewrite <- (Hb _ _ Hl). f_equal. lia.
  - eapply Forall_lookup_1; eauto.
Qed.

(** The same bytes at another place. *)
Lemma bytes_at_moved m m' p q bs :
  bytes_at m p bs -> (forall i, 0 <= i < Z.of_nat (length bs) -> m' !! (q + i) = m !! (p + i)) -> bytes_at m' q bs.
Proof.
  intros Hb Hi i b Hl. rewrite Hi; [now apply Hb|]. apply lookup_lt_Some in Hl. lia.
Qed.

Lemma elements_bytes es : elements es -> Forall is_byte (concat es).
Proof. induction 1 as [|e es [_ He] _ IH]; [constructor|]. cbn [concat]. apply Forall_app. auto. Qed.

(** In terms of elements: the element [x] goes before the elements [B]. *)
Lemma rotate_rows A B x Q m :
  elements A -> elements B -> elements [x] -> elements Q -> rows m (A ++ B ++ x :: Q) ->
  exists m', rotate (Z.to_nat (s32 size)) size (row (length A)) (row (length (A ++ B))) m
      = Ok (row (length (A ++ B)) + size) m' /\
    rows m' (A ++ x :: B ++ Q) /\ outside (length (A ++ B ++ x :: Q)) m m'.
Proof.
  intros HA HB Hx HQ Hm. pose proof Hx as [[Hlx HxB] _]%Forall_cons_iff.
  pose proof (length_concat B HB) as HlB. set (t2 := row (length A)). set (n := length B).
  assert (Hrow : row (length (A ++ B)) = t2 + Z.of_nat n * size) by (unfold t2, n, row; rewrite length_app; lia).
  rewrite Hrow. apply rows_app in Hm as [HmA Hm]; [|exact HA]. rewrite concat_app, bytes_at_app in Hm.
  destruct Hm as [HmB Hm]. rewrite HlB in Hm. cbn [concat] in Hm. apply bytes_at_app in Hm as [Hmx HmQ].
  rewrite Hlx in HmQ. fold t2 n in HmB, Hmx, HmQ. set (hi := t2 + Z.of_nat n * size) in *.
  destruct (rotate_spec n t2 m (Z.to_nat size) 0 m) as (m' & E & Hm'); [lia|lia| | |].
  { intros a Ha. destruct (Z.lt_ge_cases a hi).
    - eapply bytes_cells; [exact HmB|now apply elements_bytes|unfold hi, n in *; lia].
    - eapply bytes_cells; [exact Hmx|exact HxB|unfold hi, n in *; lia]. }
  { intros a. pose proof (Z.mod_pos_bound (a - t2) size ltac:(lia)).
    rewrite (proj2 (Z.ltb_ge _ 0)), andb_false_r by lia. reflexivity. }
  fold hi in E, Hm'. rewrite Z.add_0_r in E. exists m'. rewrite s32_small by lia. split; [exact E|].
  assert (Hsame : forall a, a < t2 \/ hi + size <= a -> m' !! a = m !! a).
  { intros a Ha. rewrite Hm'. destruct (Z.leb_spec t2 a), (Z.ltb_spec a (hi + size)); try reflexivity; lia. }
  split.
  - apply rows_app; [exact HA|]. cbn [concat]. rewrite concat_app, !bytes_at_app, Hlx, HlB. fold n t2.
    replace (t2 + size + Z.of_nat n * size) with (hi + size) by (unfold hi; lia).
    split; [|split; [|split]].
    + eapply bytes_at_moved; [exact HmA|]. intros i Hi. apply Hsame. left. rewrite length_concat in Hi by exact HA.
      unfold t2, row in *. lia.
    + eapply bytes_at_moved; [exact Hmx|]. intros i Hi. rewrite Hm', (proj2 (Z.leb_le _ _)), !(proj2 (Z.ltb_lt _ _)) by (unfold hi; lia).
      cbn [andb]. f_equal. unfold hi. lia.
    + eapply bytes_at_moved; [exact HmB|]. intros i Hi. rewrite HlB in Hi. fold n in Hi.
      rewrite Hm', (proj2 (Z.leb_le _ _)), (proj2 (Z.ltb_lt _ (hi + size))), (proj2 (Z.ltb_ge _ (t2 + size))) by (unfold hi; lia).
      cbn [andb]. f_equal. lia.
    + eapply bytes_at_moved; [exact HmQ|]. intros i Hi. apply Hsame. lia.
  - intros a Ha. apply Hsame. unfold hi, t2, n, row in *. rewrite !length_app in Ha. cbn [length] in Ha. lia.
Qed.

(** ** The sort *)

(** The array when the first [i] elements have been sorted. *)
Definition progress (es : list (list Z)) (i : nat) : list (list Z) := rev (isort_rev compar (take i es)) ++ drop i es.

Lemma length_isort_rev es : length (isort_rev compar es) = length es.
Proof. apply Permutation_length, isort_rev_perm. Qed.

Lemma elements_perm es fs : es ≡ₚ fs -> elements es -> elements fs.
Proof. intros E. unfold elements. now rewrite E. Qed.

(** One round of the outer loop. *)
Lemma sort_round es i x m :
  elements es -> es !! i = Some x -> rows m (progress es i) ->
  exists m', rows m' (progress es (S i)) /\ outside (length es) m m' /\
    wp (t2 ← find_place compar bot size (row i);
        if negb (row i =? t2) then t1 ← rotate (Z.to_nat (s32 size)) size t2 (row i); mret (@Next Z unit t1)
        else mret (Next (row i + size))) (fun r mm => r = Next (row (S i)) /\ mm = m') m.
Proof.
  intros He Hx Hm. pose proof (lookup_lt_Some _ _ _ Hx) as Hi.
  set (P := rev (isort_rev compar (take i es))). set (Q := drop (S i) es).
  assert (HlP : length P = i) by (unfold P; rewrite length_rev, length_isort_rev, length_take; lia).
  assert (Ed : drop i es = x :: Q) by (unfold Q; now apply drop_S).
  assert (HeP : elements P).
  { apply (elements_perm (take i es)); [unfold P; now rewrite <- Permutation_rev, isort_rev_perm|].
    now apply Forall_take. }
  assert (HeQ : elements (x :: Q)) by (rewrite <- Ed; now apply Forall_drop).
  apply Forall_cons_iff in HeQ as [Hx1 HeQ]. unfold progress in Hm. fold P in Hm. rewrite Ed in Hm.
  assert (Enext : forall A B, P = A ++ B -> rev (ins compar x (rev P)) = A ++ x :: B -> progress es (S i) = A ++ x :: B ++ Q).
  { intros A B _ Er. unfold progress. rewrite (take_S_r _ _ _ Hx), isort_rev_snoc.
    unfold P in Er. rewrite rev_involutive in Er. rewrite Er. fold Q. now rewrite <- app_assoc. }
  destruct (find_place_loop Q x [] P (S (Z.to_nat (row i - bot))) m) as (A & B & EP & Er & El); auto.
  { apply Hx1. } { constructor. } { unfold row. nia. }
  cbn [length] in El. rewrite Nat.add_0_r, HlP in El. specialize (Enext A B EP Er).
  assert (HeAB : elements A /\ elements B) by (rewrite EP in HeP; now apply Forall_app in HeP).
  destruct HeAB as [HeA HeB]. destruct (decide (B = [])) as [->|HB].
  - rewrite app_nil_r in EP. exists m. rewrite Enext. cbn [app]. split; [now rewrite <- EP|]. split; [intros a _; reflexivity|].
    apply wp_bind. eapply wp_run; [exact El|]. rewrite <- EP, HlP, Z.eqb_refl. apply wp_ret. split; [|reflexivity].
    f_equal. unfold row. lia.
  - assert (HlAB : (length A < i)%nat) by (rewrite <- HlP, EP, length_app; destruct B; [tauto|cbn; lia]).
    destruct (rotate_rows A B x Q m HeA HeB) as (m' & E & Hr & Ho); [now constructor|exact HeQ|now rewrite EP, <- app_assoc in Hm|].
    rewrite <- EP, HlP in E. exists m'. rewrite Enext. split; [exact Hr|]. split.
    + intros a Ha. apply Ho. replace (length (A ++ B ++ x :: Q)) with (length es); [exact Ha|].
      rewrite app_assoc, <- EP, length_app, HlP. cbn [length]. unfold Q. rewrite length_drop. lia.
    + apply wp_bind. eapply wp_run; [exact El|]. rewrite (proj2 (Z.eqb_neq (row i) _)) by (unfold row; nia). cbn [negb].
      apply wp_bind. eapply wp_run; [exact E|]. apply wp_ret. split; [|reflexivity]. f_equal. unfold row. lia.
Qed.

Lemma insertion_sort_spec es m :
  elements es -> (0 < length es)%nat -> rows m es ->
  exists m', insertion_sort compar bot (Z.of_nat (length es)) size m = Ok tt m' /\
    rows m' (isort compar es) /\ outside (length es) m m'.
Proof.
  intros He Hn Hm.
  cut (wp (insertion_sort compar bot (Z.of_nat (length es)) size)
    (fun _ m' => rows m' (isort compar es) /\ outside (length es) m m') m).
  { intros Hw. apply wp_ok in Hw as ([] & m' & E & Hm'). eauto. }
  unfold insertion_sort.
  eapply (wp_loop _ (fun t1 mc => exists i, (1 <= i <= length es)%nat /\ t1 = row i /\ rows mc (progress es i) /\
      outside (length es) m mc) (fun t1 => Z.to_nat ((bot + Z.of_nat (length es) * size - t1) / size))).
  - intros t1 mc (i & Hi & -> & Hr & Ho).
    destruct (Z.ltb_spec (row i) (bot + Z.of_nat (length es) * size)) as [Hlt|Hge].
    + assert (Hi2 : (i < length es)%nat) by (unfold row in Hlt; nia).
      destruct (lookup_lt_is_Some_2 es i Hi2) as [x Hx].
      destruct (sort_round es i x mc He Hx Hr) as (m' & Hr' & Ho' & Hw). eapply wp_mono; [exact Hw|].
      intros r mm [-> ->]. split.
      * exists (S i). split; [lia|]. split; [reflexivity|]. split; [exact Hr'|].
        intros a Ha. rewrite Ho', Ho by exact Ha. reflexivity.
      * replace (bot + Z.of_nat (length es) * size - row (S i)) with (Z.of_nat (length es - S i) * size) by (unfold row; nia).
        replace (bot + Z.of_nat (length es) * size - row i) with (Z.of_nat (length es - i) * size) by (unfold row; nia).
        rewrite !Z.div_mul by lia. lia.
    + apply wp_ret. assert (i = length es) as -> by (unfold row in Hge; nia). split; [|exact Ho].
      unfold progress in Hr. now rewrite take_ge, drop_ge, app_nil_r in Hr by lia.
  - exists 1%nat. split; [lia|]. split; [unfold row; lia|]. split; [|intros a _; reflexivity].
    unfold progress. destruct es as [|e es]; [cbn in Hn; lia|]. exact Hm.
  - replace (bot + Z.of_nat (length es) * size - (bot + size)) with ((Z.of_nat (length es) - 1) * size) by lia.
    rewrite Z.div_mul by lia. lia.
Qed.

(** ** Binary search *)

(** The array is ordered as seen from the key: below it, equal to it, above. *)
Definition ordered_for (key : list Z) (es : list (list Z)) : Prop :=
  forall i j e f, (i < j)%nat -> es !! i = Some e -> es !! j = Some f ->
    (compar key e < 0 -> compar key f < 0) /\ (0 < compar key f -> 0 < compar key e).

Lemma rows_lookup m es r e : elements es -> rows m es -> es !! r = Some e ->
  bytes_at m (row r) e /\ Z.of_nat (length e) = size.
Proof.
  intros He Hm Hr. pose proof (lookup_lt_Some _ _ _ Hr) as Hl. apply take_drop_middle in Hr as Hes.
  rewrite <- Hes in Hm, He. apply Forall_app in He as [He1 [[Hle _] _]%Forall_cons_iff].
  apply rows_middle in Hm as (_ & Hb & _); [|exact He1]. rewrite length_take in Hb.
  replace (r `min` length es)%nat with r in Hb by lia. auto.
Qed.

Lemma bsearch_spec key es m :
  0 < bot -> elements es -> rows m es -> ordered_for key es ->
  exists p, bsearch compar key bot (Z.of_nat (length es)) size m = Ok p m /\
    ((exists r e, es !! r = Some e /\ compar key e = 0 /\ p = row r) \/
     (p = 0 /\ forall e, e ∈ es -> compar key e <> 0)).
Proof.
  intros Hbot He Hm Ho.
  cut (wp (bsearch compar key bot (Z.of_nat (length es)) size) (fun p m' => m' = m /\
    ((exists r e, es !! r = Some e /\ compar key e = 0 /\ p = row r) \/
     (p = 0 /\ forall e, e ∈ es -> compar key e <> 0))) m).
  { intros Hw. apply wp_ok in Hw as (p & m' & E & -> & Hp). eauto. }
  unfold bsearch.
  eapply (wp_loop _ (fun '(base, nel) mc => mc = m /\ exists lo hi, (lo <= hi <= length es)%nat /\ base = row lo /\
      nel = Z.of_nat hi - Z.of_nat lo /\
      (forall i e, es !! i = Some e -> (i < lo)%nat -> 0 < compar key e) /\
      (forall i e, es !! i = Some e -> (hi <= i)%nat -> compar key e < 0)) (fun '(_, nel) => Z.to_nat nel)).
  - intros [base nel] mc (-> & lo & hi & Hlh & -> & -> & Hlow & Hhigh). destruct (Z.ltb_spec 0 (Z.of_nat hi - Z.of_nat lo)).
    + set (k := (Z.of_nat hi - Z.of_nat lo) / 2). assert (Hk : 0 <= k < Z.of_nat hi - Z.of_nat lo) by (unfold k; Z.div_mod_to_equations; lia).
      set (r := (lo + Z.to_nat k)%nat). assert (Er : row lo + size * k = row r) by (unfold row, r; nia).
      destruct (lookup_lt_is_Some_2 es r) as [e Hr]; [unfold r; lia|].
      destruct (rows_lookup m es r e He Hm Hr) as [Hb Hle]. rewrite Er.
      apply wp_bind, (load_elem m (row r) e); [exact Hb|exact Hle|].
      destruct (Z.ltb_spec (compar key e) 0) as [Hneg|Hpos]; [|destruct (Z.ltb_spec 0 (compar key e)) as [Hgt|Heq]]; apply wp_ret.
      * split; [|lia]. split; [reflexivity|]. exists lo, r. split; [unfold r; lia|]. split; [reflexivity|].
        split; [unfold r; lia|]. split; [exact Hlow|]. intros i f Hf Hi.
        destruct (decide (i = r)) as [->|Hne]; [congruence|]. apply (Ho r i e f); [lia|exact Hr|exact Hf|exact Hneg].
      * split; [|lia]. split; [reflexivity|]. exists (S r), hi. split; [unfold r; lia|].
        split; [unfold row; lia|]. split; [unfold r; lia|]. split; [|exact Hhigh]. intros i f Hf Hi.
        destruct (decide (i = r)) as [->|Hne]; [congruence|]. apply (Ho i r f e); [lia|exact Hf|exact Hr|exact Hgt].
      * split; [reflexivity|]. left. exists r, e. split; [exact Hr|]. split; [lia|reflexivity].
    + apply wp_ret. split; [reflexivity|]. right. split; [reflexivity|]. intros e [i Hi]%list_elem_of_lookup.
      destruct (decide (i < lo)%nat) as [Hl|Hl]; [specialize (Hlow i e Hi Hl); lia|].
      specialize (Hhigh i e Hi ltac:(lia)). lia.
  - split; [reflexivity|]. exists 0%nat, (length es). split; [lia|]. split; [unfold row; lia|]. split; [lia|].
    split; [intros; lia|]. intros i e Hi Hl. apply lookup_lt_Some in Hi. lia.
  - lia.
Qed.
End array.

(** ** Claims *)

(** C14: [qsort] sorts.  For any array of elements of any size and any comparison
    that is a strict weak order, it ends, touches nothing outside the array,
    and leaves a permutation of the elements in which no element is less than
    one before it and elements that compare equal keep their order. *)
Theorem qsort_sorts compar bot size es m :
  0 < size < 2 ^ 31 -> comparison compar -> elements size es -> rows bot m es ->
  exists m' es', qsort compar bot (Z.of_nat (length es)) size m = Ok tt m' /\ rows bot m' es' /\
    outside bot size (length es) m m' /\ es' ≡ₚ es /\
    StronglySorted (fun a b => ~ compar b a < 0) es' /\
    forall x, List.filter (same compar x) es' = List.filter (same compar x) es.
Proof.
  intros Hs Hc He Hm. unfold qsort. destruct (Z.leb_spec (Z.of_nat (length es)) 1) as [Hle|Hgt].
  - exists m, es. split; [reflexivity|]. split; [exact Hm|]. split; [intros a _; reflexivity|]. split; [reflexivity|].
    split; [|reflexivity]. destruct es as [|e [|f es]]; [constructor|repeat constructor|cbn in Hle; lia].
  - destruct (insertion_sort_spec compar bot size Hs es m He ltac:(lia) Hm) as (m' & E & Hr & Ho).
    exists m', (isort compar es). split; [exact E|]. split; [exact Hr|]. split; [exact Ho|].
    split; [apply isort_perm|]. split; [now apply isort_sorted|]. intros x. now apply isort_stable.
Qed.

(** Two-byte elements compared by their first byte. *)
Definition first_byte (a b : list Z) : Z := nth 0 a 0 - nth 0 b 0.
Lemma first_byte_comparison : comparison first_byte.
Proof. split; unfold first_byte; intros; lia. Qed.
Definition demo_array : list (list Z) := [[3; 1]; [1; 2]; [3; 0]; [2; 9]; [1; 1]].

Lemma qsort_sorts_witness :
  exists m' es', qsort first_byte 64 5 2 (block 64 (concat demo_array)) = Ok tt m' /\ rows 64 m' es' /\
    outside 64 2 5 (block 64 (concat demo_array)) m' /\ es' ≡ₚ demo_array /\
    StronglySorted (fun a b => ~ first_byte b a < 0) es' /\
    forall x, List.filter (same first_byte x) es' = List.filter (same first_byte x) demo_array.
Proof.
  apply (qsort_sorts first_byte 64 2 demo_array); [lia|apply first_byte_comparison| |].
  - repeat constructor; unfold is_byte; lia.
  - apply bytes_atb_true. vm_compute. reflexivity.
Defined.

(** [bsearch] on an array that is ordered as seen from the key ends and
    returns the address of an element that compares equal to the key if there
    is one, and null otherwise. *)
Lemma bsearch_finds compar bot size key es m :
  0 < size < 2 ^ 31 -> 0 < bot -> elements size es -> rows bot m es -> ordered_for compar key es ->
  exists p, bsearch compar key bot (Z.of_nat (length es)) size m = Ok p m /\
    ((exists r e, es !! r = Some e /\ compar key e = 0 /\ p = row bot size r) \/
     (p = 0 /\ forall e, e ∈ es -> compar key e <> 0)).
Proof. intros Hs. now apply bsearch_spec. Qed.

Definition sorted_array : list (list Z) := [[1; 2]; [1; 1]; [2; 9]; [3; 1]; [3; 0]].

Lemma bsearch_finds_witness :
  exists p, bsearch first_byte [2; 0] 64 5 2 (block 64 (concat sorted_array)) = Ok p (block 64 (concat sorted_array)) /\
    ((exists r e, sorted_array !! r = Some e /\ first_byte [2; 0] e = 0 /\ p = row 64 2 r) \/
     (p = 0 /\ forall e, e ∈ sorted_array -> first_byte [2; 0] e <> 0)).
Proof.
  apply (bsearch_finds first_byte 64 2 [2; 0] sorted_array); [lia|lia| | |].
  - repeat constructor; unfold is_byte; lia.
  - apply bytes_atb_true. vm_compute. reflexivity.
  - intros i j e f Hij Hi Hj.
    destruct i as [|[|[|[|[|i]]]]], j as [|[|[|[|[|j]]]]]; try lia; try discriminate Hi; try discriminate Hj;
      cbn in Hi, Hj; injection Hi as <-; injection Hj as <-; unfold first_byte; cbn; lia.
Defined.
