(* ===== verification/Stdlib.v ===== *)
(** * libc/src/stdlib/stdlib.c: numbers, the environment, paths *)

From S2P Require Import Prelude CMem State Ctype.
Import (notations) Ascii String.

Definition EINVAL : Z := 22.
Definition ERANGE : Z := 34.
Definition LLONG_MAX : Z := 9223372036854775807.
Definition LLONG_MIN : Z := -9223372036854775808.

(** ** strtoll *)

(** The digit a character stands for: [c -= '0'] and so on. *)
Definition digit_value (c : Z) : option Z :=
  if (ch "0" <=? c) && (c <=? ch "9") then Some (c - ch "0")
  else if (ch "A" <=? c) && (c <=? ch "Z") then Some (c - (ch "A" - 10))
  else if (ch "a" <=? c) && (c <=? ch "z") then Some (c - (ch "a" - 10))
  else None.

Definition is_hex (c : Z) : bool :=
  ((ch "0" <=? c) && (c <=? ch "9")) || ((ch "A" <=? c) && (c <=? ch "F")) || ((ch "a" <=? c) && (c <=? ch "f")).

(** A plain [char] read and the pointer stepped: [c = *s++]. *)
Definition next_char (s : Z) : M (Z * Z) := b ← load8 s; mret (s8 b, s + 1).

(** The sign: [neg], the next character and the pointer. *)
Definition strtoll_sign (c s : Z) : M (bool * Z * Z) :=
  if c =? ch "-" then '(c, s) ← next_char s; mret (true, c, s)
  else if c =? ch "+" then '(c, s) ← next_char s; mret (false, c, s)
  else mret (false, c, s).

(** The prefix of hexadecimal numbers: the character, the pointer and the base. *)
Definition strtoll_prefix (c s base : Z) : M (Z * Z * Z) :=
  if ((base =? 0) || (base =? 16)) && (c =? ch "0") then
    x ← load8 s;
    if (s8 x =? ch "x") || (s8 x =? ch "X") then
      d ← load8 (s + 1);
      if is_hex (s8 d) then mret (s8 d, s + 2, 16) else mret (c, s, base)
    else mret (c, s, base)
  else mret (c, s, base).

(** The digits: the variables are [c], [s], [acc] and [any]. *)
Definition strtoll_digits (base cutoff cutlim c s : Z) : M (Z * Z * Z) :=
  scan (fun '(c, s, acc, any) =>
    match digit_value c with
    | None => mret (Break (acc, any, s))
    | Some d =>
        if base <=? d then mret (Break (acc, any, s)) else
        let '(acc, any) :=
          if (any <? 0) || (cutoff <? acc) || ((acc =? cutoff) && (cutlim <? d)) then (acc, -1)
          else (u64 (u64 (acc * base) + d), 1) in
        '(c, s) ← next_char s;
        mret (Next (c, s, acc, any))
    end) (c, s, 0, 0).

(** The value, [*endptr] and what [errno] is set to. *)
Definition strtoll_l (nptr base : Z) : M (Z * Z * option Z) :=
  '(c, s) ← scan (fun s =>
    '(c, s) ← next_char s; if isspace c then mret (Next s) else mret (Break (c, s))) nptr;
  '(neg, c, s) ← strtoll_sign c s;
  '(c, s, base) ← strtoll_prefix c s base;
  let base := if base =? 0 then (if c =? ch "0" then 8 else 10) else base in
  if (base <? 2) || (36 <? base) then mret (0, nptr, Some EINVAL) else
  let cutoff := if (neg : bool) then u64 (u64 (- (LLONG_MIN + LLONG_MAX)) + LLONG_MAX) else LLONG_MAX in
  let cutlim := cutoff mod base in
  let cutoff := cutoff / base in
  '(acc, any, s) ← strtoll_digits base cutoff cutlim c s;
  let endptr := if negb (any =? 0) then s - 1 else nptr in
  mret (if any <? 0 then (if neg then LLONG_MIN else LLONG_MAX, endptr, Some ERANGE)
        else if any =? 0 then (0, endptr, Some EINVAL)
        else (s64 (if neg then u64 (- acc) else acc), endptr, None)).
Definition strtoll (nptr base : Z) : M (Z * Z * option Z) := strtoll_l nptr base.
Definition strtol (nptr base : Z) : M (Z * Z * option Z) := strtoll nptr base.

(** ** Pseudo random numbers *)

(** The new seed, and the new seed with the result. *)
Definition srand (s : Z) : Z := u32 (s - 1).
Definition rand (seed : Z) : Z * Z :=
  let seed := u64 (u64 (6364136223846793005 * seed) + 1) in (seed, s32 (Z.shiftr seed 33)).

(** ** path_join *)

(** The contents of the block that is returned, [l + k + 1] bytes. *)
Definition path_join (a b : list Z) : list Z :=
  let l := Z.of_nat (length a) + 1 in
  let k := Z.of_nat (length b) in
  let n := Z.to_nat (l - 1) in
  let dst := replicate (Z.to_nat (l + k + 1)) 0 in
  let dst := take n a ++ drop n dst in
  let dst := <[n := ch "/"]> dst in
  let off := if 0 <? l - 1 then S n else n in
  take off dst ++ (b ++ [0]) ++ drop (off + (length b + 1)) dst.

(** ** The environment *)

Module Env.
(** [environ] points to an array of pointers to strings; [arrays] and [strings]
    hold them by address.  [env_alloced] are the strings the library owns. *)
Record env := Env {
  environ : Z;
  oldenv : Z;
  arrays : gmap Z (list Z);
  strings : gmap Z (list Z);
  env_alloced : list Z }.

Abbreviation E := (SM env).
Definition put_strings f e := Env (environ e) (oldenv e) (arrays e) (f (strings e)) (env_alloced e).
Definition put_alloced v e := Env (environ e) (oldenv e) (arrays e) (strings e) v.
Definition put_arrays f e := Env (environ e) (oldenv e) (f (arrays e)) (strings e) (env_alloced e).
Definition put_environ v w e := Env v w (arrays e) (strings e) (env_alloced e).

(** [free] of a string; null is allowed. *)
Definition free_string (p : Z) : E unit :=
  if p =? 0 then mret tt else supd (fun e => _ ← strings e !! p; Some (put_strings (delete p) e)).

(** The loop of [__env_rm_add]: the slots, [new], and whether it returned. *)
Fixpoint rm_add_slots (old new : Z) (slots : list Z) : list Z * Z * bool :=
  match slots with
  | [] => ([], new, false)
  | p :: r =>
      if p =? old then (new :: r, new, true)
      else if (p =? 0) && negb (new =? 0) then
        let '(r', new', ret) := rm_add_slots old 0 r in (new :: r', new', ret)
      else let '(r', new', ret) := rm_add_slots old new r in (p :: r', new', ret)
  end.
(** The length of the name in front of the '='. *)
Fixpoint name_len (s : list Z) : nat :=
  match s with c :: r => if c =? ch "=" then O else S (name_len r) | [] => O end.

(** [!strncmp(a, b, n)] on strings. *)
Definition same_prefix (n : nat) (a b : list Z) : bool := bool_decide (take n a = take n b).

Definition get_string (p : Z) : E (list Z) := sopt (fun e => strings e !! p).
(** The pointers [environ] leads to, up to the null one. *)
Definition entries : E (list Z) := sopt (fun e => if environ e =? 0 then Some [] else arrays e !! environ e).

Section alloc.
(** The address malloc or realloc gives, 0 when there is no memory: the contract of
    ISO C, on which the code relies.  (The realloc of liballoc.c writes through the
    null pointer there.) *)
Context (malloc : env -> Z).

(** The slots of the owned strings; their array grows by one when [new] found
    no free slot, and the string stays unowned when there is no memory. *)
Definition __env_rm_add (old new : Z) : E unit :=
  slots ← gets env_alloced;
  let '(slots, new, ret) := rm_add_slots old new slots in
  modify (put_alloced slots);;
  if (ret : bool) then free_string old
  else if new =? 0 then mret tt else
  t ← gets malloc;
  if t =? 0 then mret tt else modify (put_alloced (slots ++ [new])).

(** The index of the first entry that starts with [name=]. *)
Fixpoint find_entry (s : list Z) (l : nat) (es : list Z) (i : nat) : E (option nat) :=
  match es with
  | [] => mret None
  | p :: r => t ← get_string p; if same_prefix (l + 1) s t then mret (Some i) else find_entry s l r (S i)
  end.

Definition __putenv (s l r : Z) : E Z :=
  text ← get_string s;
  es ← entries;
  found ← find_entry text (Z.to_nat l) es 0;
  match found with
  | Some i =>
      a ← gets environ;
      modify (put_arrays <[a := <[i := s]> es]>);;
      __env_rm_add (default 0 (es !! i)) r;;
      mret 0
  | None =>
      newenv ← gets malloc;
      if newenv =? 0 then free_string r;; mret (-1) else
      old ← gets oldenv;
      modify (put_arrays (fun m => <[newenv := es ++ [s]]> (delete old m)));;
      modify (put_environ newenv newenv);;
      (if negb (r =? 0) then __env_rm_add 0 r else mret tt);;
      mret 0
  end.

(** The value behind the '=' of the first entry with the name. *)
Fixpoint getenv_loop (name : list Z) (es : list Z) : E (option (list Z)) :=
  match es with
  | [] => mret None
  | p :: r =>
      t ← get_string p;
      let l := length name in
      if same_prefix l name t && (default 0 (t !! l) =? ch "=") then mret (Some (drop (l + 1) t))
      else getenv_loop name r
  end.
Definition getenv (name : list Z) : E (option (list Z)) :=
  let l := name_len name in
  if negb (Nat.eqb l 0) && Nat.eqb l (length name) then es ← entries; getenv_loop name es else mret None.

(** The loop of [unsetenv]: the entries that stay. *)
Fixpoint unset_loop (name : list Z) (es : list Z) : E (list Z) :=
  match es with
  | [] => mret []
  | p :: r =>
      t ← get_string p;
      let l := length name in
      if same_prefix l name t && (default 0 (t !! l) =? ch "=") then __env_rm_add p 0;; unset_loop name r
      else keep ← unset_loop name r; mret (p :: keep)
  end.
Definition unsetenv (name : list Z) : E Z :=
  let l := name_len name in
  if Nat.eqb l 0 || negb (Nat.eqb l (length name)) then mret (-1) else
  a ← gets environ;
  if a =? 0 then mret 0 else
  es ← entries;
  keep ← unset_loop name es;
  modify (put_arrays <[a := keep]>);;
  mret 0.

Definition setenv (var : option (list Z)) (value : list Z) (overwrite : Z) : E Z :=
  match var with
  | None => mret (-1)
  | Some var =>
      let l1 := name_len var in
      if Nat.eqb l1 0 || negb (Nat.eqb l1 (length var)) then mret (-1) else
      old ← (if overwrite =? 0 then getenv var else mret None);
      match old with
      | Some _ => mret 0
      | None =>
          s ← gets malloc;
          if s =? 0 then mret (-1) else
          modify (put_strings <[s := var ++ [ch "="] ++ value]>);;
          __putenv s (Z.of_nat l1) s
      end
  end.

(** [s] is the caller's string. *)
Definition putenv (s : Z) : E Z :=
  text ← get_string s;
  let l := name_len text in
  if Nat.eqb l 0 || Nat.eqb l (length text) then unsetenv text
  else __putenv s (Z.of_nat l) 0.
End alloc.
End Env.
