(* ===== verification/StrtollProps.v ===== *)
(** * strtoll: the value of a number, clamped *)

From S2P Require Import Prelude CMem State Ctype StrSpec StrMisc Stdlib.
Import (notations) Ascii String.

(** ** The reference *)

(** The digits a list starts with. *)
Fixpoint number (base : Z) (s : list Z) : list Z :=
  match s with
  | c :: r => match digit_value c with
              | Some d => if d <? base then d :: number base r else []
              | None => []
              end
  | [] => []
  end.
Definition value (base : Z) (ds : list Z) : Z := foldl (fun a d => a * base + d) 0 ds.

(** Where the digits start, and their base: white space, a sign and a prefix. *)
Definition sign_at (s : list Z) : Z := Z.of_nat (span isspace s).
Definition negative (s : list Z) : bool := chr s (sign_at s) =? ch "-".
Definition body_at (s : list Z) : Z :=
  if negative s || (chr s (sign_at s) =? ch "+") then sign_at s + 1 else sign_at s.
Definition hex_prefix (base : Z) (s : list Z) : bool :=
  ((base =? 0) || (base =? 16)) && (chr s (body_at s) =? ch "0") &&
  ((chr s (body_at s + 1) =? ch "x") || (chr s (body_at s + 1) =? ch "X")) && is_hex (chr s (body_at s + 2)).
Definition digits_at (base : Z) (s : list Z) : Z := if hex_prefix base s then body_at s + 2 else body_at s.
Definition real_base (base : Z) (s : list Z) : Z :=
  if hex_prefix base s then 16
  else if base =? 0 then (if chr s (body_at s) =? ch "0" then 8 else 10) else base.

Definition limit (neg : bool) : Z := if neg then 9223372036854775808 else 9223372036854775807.

(** The value, how many characters were used, and the error. *)
Definition strtoll_ref (base : Z) (s : list Z) : Z * Z * option Z :=
  let b := real_base base s in
  if (b <? 2) || (36 <? b) then (0, 0, Some EINVAL) else
  let ds := number b (drop (Z.to_nat (digits_at base s)) s) in
  let v := value b ds in
  let used := digits_at base s + Z.of_nat (length ds) in
  match ds with
  | [] => (0, 0, Some EINVAL)
  | _ => if limit (negative s) <? v then (if negative s then LLONG_MIN else LLONG_MAX, used, Some ERANGE)
         else (if negative s then - v else v, used, None)
  end.

(** ** Characters *)

Lemma s8_high b : is_byte b -> s8 b = b \/ s8 b < 0 /\ 128 <= b.
Proof. intros. unfold is_byte in *. zlia. Qed.

Lemma s8_is b c : is_byte b -> 0 <= c < 128 -> (s8 b =? c) = (b =? c).
Proof.
  intros Hb Hc. destruct (s8_high b Hb) as [->|[]]; [reflexivity|].
  rewrite !(proj2 (Z.eqb_neq _ _)) by lia. reflexivity.
Qed.

Lemma s8_digit_value b : is_byte b -> digit_value (s8 b) = digit_value b.
Proof.
  intros Hb. destruct (s8_high b Hb) as [->|[H1 H2]]; [reflexivity|]. unfold digit_value.
  change (ch "0") with 48; change (ch "9") with 57; change (ch "A") with 65; change (ch "Z") with 90;
    change (ch "a") with 97; change (ch "z") with 122.
  rewrite !(proj2 (Z.leb_gt _ (s8 b))) by lia. rewrite !(proj2 (Z.leb_gt b _)) by lia. now rewrite !andb_false_r.
Qed.

Lemma s8_is_hex b : is_byte b -> is_hex (s8 b) = is_hex b.
Proof.
  intros Hb. destruct (s8_high b Hb) as [->|[H1 H2]]; [reflexivity|]. unfold is_hex.
  change (ch "0") with 48; change (ch "9") with 57; change (ch "A") with 65; change (ch "F") with 70;
    change (ch "a") with 97; change (ch "f") with 102.
  rewrite !(proj2 (Z.leb_gt _ (s8 b))) by lia. rewrite !(proj2 (Z.leb_gt b _)) by lia. now rewrite !andb_false_r.
Qed.

Lemma digit_value_range c d : digit_value c = Some d -> 0 <= d <= 35 /\ c <> 0.
Proof.
  unfold digit_value. change (ch "0") with 48; change (ch "9") with 57; change (ch "A") with 65; change (ch "Z") with 90;
    change (ch "a") with 97; change (ch "z") with 122.
  destruct (_ && _) eqn:E1; [intros [= <-]; zbool; lia|]. destruct (_ && _) eqn:E2 in |- *; [intros [= <-]; zbool; lia|].
  destruct (_ && _) eqn:E3 in |- *; [intros [= <-]; zbool; lia|]. discriminate.
Qed.

(** ** Values *)

Lemma value_snoc base ds d : value base (ds ++ [d]) = value base ds * base + d.
Proof. unfold value. now rewrite foldl_app. Qed.

Lemma foldl_ge base ds a :
  2 <= base -> Forall (fun d => 0 <= d) ds -> 0 <= a -> a <= foldl (fun a d => a * base + d) a ds.
Proof.
  intros Hb H. revert a. induction H as [|d ds Hd _ IH]; intros a Ha; cbn [foldl]; [lia|].
  etrans; [|apply IH; nia]. nia.
Qed.

(** The cutoff test is exact. *)
Lemma cutoff_exact base mx a d :
  2 <= base -> 0 <= d < base -> 0 <= a -> 0 <= mx ->
  ((mx / base <? a) || ((a =? mx / base) && (mx mod base <? d))) = (mx <? a * base + d).
Proof.
  intros Hb Hd Ha Hm. pose proof (Z.div_mod mx base ltac:(lia)) as Hdm.
  pose proof (Z.mod_pos_bound mx base ltac:(lia)) as Hmb. set (q := mx / base) in *. set (r := mx mod base) in *. clearbody q r.
  destruct (Z.ltb_spec q a), (Z.eqb_spec a q), (Z.ltb_spec r d), (Z.ltb_spec mx (a * base + d)); cbn; try reflexivity; nia.
Qed.

(** ** The code *)

Section strtoll.
Context (m : mem) (p : Z) (s : list Z).
Hypothesis Hs : cstr m p s.
Let len := Z.of_nat (length s).

Lemma chr_in j c : 0 <= j <= len -> chr s j = c -> c <> 0 -> j < len.
Proof.
  intros Hj Hc Hn. destruct (Z.eq_dec j len) as [->|]; [|lia]. exfalso. apply Hn. rewrite <- Hc.
  apply chr_zero; [apply Hs|unfold len; lia|reflexivity].
Qed.

Lemma wp_next_char j (Q : Z * Z -> mem -> Prop) :
  0 <= j <= len -> Q (s8 (chr s j), p + j + 1) m -> wp (next_char (p + j)) Q m.
Proof. intros Hj HQ. unfold next_char. apply wp_bind. eapply wp_load_chr; [exact Hs|exact Hj|]. now apply wp_ret. Qed.

Lemma wp_skip :
  wp (scan (fun q => '(c, q) ← next_char q; if isspace c then mret (Next q) else mret (Break (c, q))) p)
     (fun x m' => x = (s8 (chr s (sign_at s)), p + sign_at s + 1) /\ m' = m) m.
Proof.
  eapply (wp_scan_str m p s Hs _ (on_span isspace s) _ 0); [lia|lia|apply on_span_0|].
  intros j Hj Hsp. apply wp_bind, wp_next_char; [exact Hj|].
  rewrite isspace_s8 by (eapply str_byte; eauto).
  destruct (isspace (chr s j)) eqn:E; apply wp_ret; (split; [reflexivity|]).
  - exists (j + 1). assert (Hc : chr s j <> 0) by (intros E0; rewrite E0 in E; discriminate).
    pose proof (chr_in j _ Hj eq_refl Hc). unfold len in *. split; [lia|]. split; [lia|now apply on_span_step].
  - assert (Ej : sign_at s = j) by (unfold sign_at; apply span_unique; auto). rewrite Ej. auto.
Qed.

Lemma sign_at_range : 0 <= sign_at s <= len.
Proof. unfold sign_at, len. pose proof (span_le isspace s). lia. Qed.

Lemma chr_at_byte j : is_byte (chr s j).
Proof. apply chr_range, Hs. Qed.

Lemma wp_sign :
  wp (strtoll_sign (s8 (chr s (sign_at s))) (p + sign_at s + 1))
     (fun x m' => x = (negative s, s8 (chr s (body_at s)), p + body_at s + 1) /\ 0 <= body_at s <= len /\ m' = m) m.
Proof.
  pose proof sign_at_range as Hr. unfold strtoll_sign, body_at, negative.
  rewrite !s8_is by (apply chr_at_byte || cbv; split; discriminate || reflexivity).
  destruct (chr s (sign_at s) =? ch "-") eqn:E1; cbn [orb]; [|destruct (chr s (sign_at s) =? ch "+") eqn:E2].
  - zbool. pose proof (chr_in _ _ Hr E1 ltac:(discriminate)).
    replace (p + sign_at s + 1) with (p + (sign_at s + 1)) by lia. apply wp_bind, wp_next_char; [lia|].
    apply wp_ret. split; [reflexivity|]. split; [lia|reflexivity].
  - zbool. pose proof (chr_in _ _ Hr E2 ltac:(discriminate)).
    replace (p + sign_at s + 1) with (p + (sign_at s + 1)) by lia. apply wp_bind, wp_next_char; [lia|].
    apply wp_ret. split; [reflexivity|]. split; [lia|reflexivity].
  - apply wp_ret. split; [reflexivity|]. split; [lia|reflexivity].
Qed.

Lemma wp_prefix base :
  0 <= body_at s <= len ->
  wp (strtoll_prefix (s8 (chr s (body_at s))) (p + body_at s + 1) base)
     (fun x m' => x = (s8 (chr s (digits_at base s)), p + digits_at base s + 1, if hex_prefix base s then 16 else base) /\
        0 <= digits_at base s <= len /\ m' = m) m.
Proof.
  intros Hb. unfold strtoll_prefix, digits_at, hex_prefix.
  rewrite !s8_is by (apply chr_at_byte || cbv; split; discriminate || reflexivity).
  destruct ((base =? 0) || (base =? 16)); cbn [andb]; [|now apply wp_ret].
  destruct (chr s (body_at s) =? ch "0") eqn:E0; cbn [andb]; [|now apply wp_ret]. zbool.
  pose proof (chr_in _ _ Hb E0 ltac:(discriminate)) as H0.
  replace (p + body_at s + 1) with (p + (body_at s + 1)) by lia. apply wp_bind. eapply wp_load_chr; [exact Hs|unfold len in *; lia|].
  rewrite !s8_is by (apply chr_at_byte || cbv; split; discriminate || reflexivity).
  destruct ((chr s (body_at s + 1) =? ch "x") || (chr s (body_at s + 1) =? ch "X")) eqn:E1; cbn [andb];
    [|apply wp_ret; split; [f_equal; f_equal; lia|]; split; [lia|reflexivity]].
  assert (H1 : body_at s + 1 < len).
  { apply orb_true_iff in E1 as [E1|E1]; zbool; (eapply chr_in; [lia|exact E1|discriminate]). }
  replace (p + (body_at s + 1) + 1) with (p + (body_at s + 2)) by lia. apply wp_bind.
  eapply wp_load_chr; [exact Hs|unfold len in *; lia|]. rewrite s8_is_hex by apply chr_at_byte.
  destruct (is_hex (chr s (body_at s + 2))); apply wp_ret; (split; [f_equal; f_equal; lia|]; split; [lia|reflexivity]).
Qed.

Lemma number_step base j :
  0 <= j <= len ->
  number base (drop (Z.to_nat j) s) =
  match digit_value (chr s j) with
  | Some d => if d <? base then d :: number base (drop (Z.to_nat (j + 1)) s) else []
  | None => []
  end.
Proof.
  intros Hj. destruct (Z.eq_dec j len) as [->|Hne].
  - rewrite drop_ge by (unfold len; lia). assert (E : chr s len = 0) by (apply chr_zero; [apply Hs|unfold len; lia|reflexivity]).
    now rewrite E.
  - erewrite (drop_S s (chr s j)) by (apply chr_lookup; unfold len in *; lia). cbn [number].
    now replace (Z.to_nat (j + 1)) with (S (Z.to_nat j)) by lia.
Qed.

(** What [acc] and [any] say about the digits read so far. *)
Definition accumulated (base mx : Z) (ds : list Z) (acc any : Z) : Prop :=
  any = 0 /\ ds = [] /\ acc = 0 \/
  any = 1 /\ ds <> [] /\ acc = value base ds /\ 0 <= acc <= mx \/
  any = -1 /\ ds <> [] /\ mx < value base ds.

Lemma accumulated_step base mx ds acc any d :
  2 <= base <= 36 -> 0 <= d < base -> 0 <= mx < 2 ^ 64 -> accumulated base mx ds acc any ->
  let '(acc', any') :=
    if (any <? 0) || (mx / base <? acc) || ((acc =? mx / base) && (mx mod base <? d)) then (acc, -1)
    else (u64 (u64 (acc * base) + d), 1) in
  accumulated base mx (ds ++ [d]) acc' any'.
Proof.
  intros Hb Hd Hmx Hacc. assert (Hne : ds ++ [d] <> []) by (destruct ds; discriminate).
  rewrite <- orb_assoc. destruct Hacc as [(-> & -> & ->)|[(-> & _ & -> & Hv)|(-> & _ & Hv)]]; cbn [Z.ltb Z.compare orb].
  - rewrite cutoff_exact by lia. destruct (Z.ltb_spec mx (0 * base + d)).
    + right; right. split; [reflexivity|]. split; [exact Hne|]. cbn. lia.
    + right; left. split; [reflexivity|]. split; [exact Hne|]. cbn [app value foldl]. rewrite !u64_small by (rewrite ?u64_small; lia). lia.
  - rewrite cutoff_exact by lia. destruct (Z.ltb_spec mx (value base ds * base + d)).
    + right; right. split; [reflexivity|]. split; [exact Hne|]. rewrite value_snoc. lia.
    + right; left. split; [reflexivity|]. split; [exact Hne|]. rewrite value_snoc.
      rewrite (u64_small (value base ds * base)) by nia. rewrite u64_small by nia. nia.
  - right; right. split; [reflexivity|]. split; [exact Hne|]. rewrite value_snoc. nia.
Qed.

Lemma wp_digits_loop base mx k :
  2 <= base <= 36 -> 0 <= mx < 2 ^ 64 -> 0 <= k <= len ->
  wp (strtoll_digits base (mx / base) (mx mod base) (s8 (chr s k)) (p + k + 1))
     (fun '(acc, any, q) m' => let ds := number base (drop (Z.to_nat k) s) in
        accumulated base mx ds acc any /\ q = p + k + Z.of_nat (length ds) + 1 /\ m' = m) m.
Proof.
  intros Hb Hmx Hk. unfold strtoll_digits.
  eapply (wp_scan _ (fun '(c, q, acc, any) m' => m' = m /\ exists j ds, c = s8 (chr s j) /\ q = p + j + 1 /\
      0 <= j <= len /\ j = k + Z.of_nat (length ds) /\
      number base (drop (Z.to_nat k) s) = ds ++ number base (drop (Z.to_nat j) s) /\ accumulated base mx ds acc any)
    (fun '(_, q, _, _) => Z.to_nat (p + len + 1 - q))).
  - split; [reflexivity|]. exists k, []. do 3 (split; [reflexivity || exact Hk|]). split; [cbn; lia|]. split; [reflexivity|]. left. auto.
  - pose proof (cstr_size m p s Hs). unfold len. lia.
  - intros [[[c q] acc] any] ? (-> & j & ds & -> & -> & Hj & Ej & En & Hacc).
    rewrite s8_digit_value by apply chr_at_byte. rewrite (number_step base j Hj) in En.
    destruct (digit_value (chr s j)) as [d|] eqn:Ed.
    + pose proof (digit_value_range _ _ Ed) as [Hd Hc0]. destruct (Z.leb_spec base d) as [Hge|Hlt].
      * rewrite (proj2 (Z.ltb_ge d base)) in En by lia. rewrite app_nil_r in En.
        apply wp_ret. rewrite En. split; [exact Hacc|]. split; [lia|reflexivity].
      * rewrite (proj2 (Z.ltb_lt d base)) in En by lia.
        pose proof (accumulated_step base mx ds acc any d Hb ltac:(lia) Hmx Hacc) as Hstep.
        destruct (if (any <? 0) || _ || _ then _ else _) as [acc' any'].
        pose proof (chr_in j _ Hj eq_refl Hc0) as Hlen. replace (p + j + 1) with (p + (j + 1)) by lia.
        apply wp_bind, wp_next_char; [lia|]. apply wp_ret. split; [|lia]. split; [reflexivity|].
        exists (j + 1), (ds ++ [d]). split; [reflexivity|]. split; [lia|]. split; [lia|].
        split; [rewrite length_app; cbn [length]; lia|].
        split; [rewrite En, <- app_assoc; reflexivity|exact Hstep].
    + rewrite app_nil_r in En. apply wp_ret. rewrite En. split; [exact Hacc|]. split; [lia|reflexivity].
Qed.

Lemma strtoll_spec base :
  strtoll_l p base m = Ok (let '(v, used, e) := strtoll_ref base s in (v, p + used, e)) m.
Proof.
  apply wp_eq. unfold strtoll_l. apply wp_bind. eapply wp_mono; [apply wp_skip|]. intros ? ? [-> ->].
  apply wp_bind. eapply wp_mono; [apply wp_sign|]. intros ? ? (-> & Hb & ->).
  apply wp_bind. eapply wp_mono; [now apply wp_prefix|]. intros ? ? (-> & Hd & ->).
  unfold strtoll_ref.
  assert (Eb : (if (if hex_prefix base s then 16 else base) =? 0
      then if s8 (chr s (digits_at base s)) =? ch "0" then 8 else 10
      else if hex_prefix base s then 16 else base) = real_base base s).
  { unfold real_base, digits_at. rewrite s8_is by (apply chr_at_byte || cbv; split; discriminate || reflexivity).
    destruct (hex_prefix base s); reflexivity. }
  rewrite Eb. destruct ((real_base base s <? 2) || (36 <? real_base base s)) eqn:E.
  { apply wp_ret. split; [f_equal; f_equal; lia|reflexivity]. }
  apply orb_false_iff in E as [E1 E2]. zbool.
  assert (Em : (if negative s then u64 (u64 (- (LLONG_MIN + LLONG_MAX)) + LLONG_MAX) else LLONG_MAX) = limit (negative s))
    by now destruct (negative s).
  rewrite Em. apply wp_bind. assert (Hlim : 0 <= limit (negative s) <= 2 ^ 63) by (unfold limit; destruct (negative s); lia).
  eapply wp_mono; [apply (wp_digits_loop (real_base base s) (limit (negative s)) (digits_at base s)); lia|].
  intros [[acc any] q] ? (Hacc & -> & ->). apply wp_ret. split; [|reflexivity].
  set (ds := number _ _) in *. destruct Hacc as [(-> & -> & ->)|[(-> & Hne & -> & Hv)|(-> & Hne & Hv)]]; cbn [Z.ltb Z.compare Z.eqb negb].
  - f_equal. f_equal. lia.
  - destruct ds as [|d ds]; [tauto|]. rewrite (proj2 (Z.ltb_ge _ _)) by lia. f_equal. f_equal; [|lia].
    unfold limit in *. destruct (negative s); [|apply s64_small; lia]. unfold_int. Z.div_mod_to_equations. lia.
  - destruct ds as [|d ds]; [tauto|]. rewrite (proj2 (Z.ltb_lt _ _)) by lia. f_equal. f_equal. lia.
Qed.
End strtoll.

(** ** Claims *)

(** C15: [strtoll] and [strtol] read white space, a sign, an optional
    hexadecimal prefix and digits in any base from 2 to 36 (or detect the base),
    give the value or the nearest limit with ERANGE when it does not fit 64
    bits, set the end pointer behind the last digit, and report EINVAL with the
    end pointer at the start when there are no digits or the base is bad. *)
Theorem strtoll_correct m p s base :
  cstr m p s -> strtoll p base m = Ok (let '(v, used, e) := strtoll_ref base s in (v, p + used, e)) m.
Proof. intros Hs. now apply strtoll_spec. Qed.

(** The most negative number, in hexadecimal and with something behind it. *)
Lemma strtoll_correct_witness :
  strtoll 64 0 (block 64 (str " -0x8000000000000000z" ++ [0])) =
  Ok (-9223372036854775808, 84, None) (block 64 (str " -0x8000000000000000z" ++ [0])).
Proof.
  rewrite (strtoll_correct _ 64 (str " -0x8000000000000000z") 0) by (apply cstrb_true; vm_compute; reflexivity).
  vm_compute. reflexivity.
Defined.
