(* ===== verification/EnvProps.v ===== *)
(** * The environment refines a finite map

    An environment is an array of pointers to [name=value] strings, some of
    them the library's own.  [env_inv] is the ownership discipline of
    stdlib.c; [env_run] runs the public functions and [spec_run] what they mean
    on a finite map from names to values. *)

From S2P Require Import Prelude CMem State Stdlib.
Import (notations) Ascii String.
Import Env.

(** ** Entries *)

(** The value an entry gives to a name. *)
Definition entry (name t : list Z) : option (list Z) :=
  if same_prefix (length name) name t && (default 0 (t !! length name) =? ch "=")
  then Some (drop (length name + 1) t) else None.
Fixpoint env_get (ts : list (list Z)) (name : list Z) : option (list Z) :=
  match ts with
  | [] => None
  | t :: r => match entry name t with Some v => Some v | None => env_get r name end
  end.

(** A name: not empty and without '='. *)
Definition valid (name : list Z) : bool := negb (Nat.eqb (name_len name) 0) && Nat.eqb (name_len name) (length name).
Definition no_eq (name : list Z) : Prop := ch "=" ∉ name.

Lemma name_len_app name r : no_eq name -> name_len (name ++ ch "=" :: r) = length name.
Proof.
  unfold no_eq. induction name as [|c name IH]; intros Hn; [reflexivity|]. cbn [name_len app length].
  destruct (c =? ch "=") eqn:E; zbool; [subst; exfalso; apply Hn; left|].
  f_equal. apply IH. intros ?. apply Hn. now right.
Qed.

Lemma name_len_all name : no_eq name <-> name_len name = length name.
Proof.
  unfold no_eq. induction name as [|c name IH]; [split; [reflexivity|intros _; apply not_elem_of_nil]|].
  cbn [name_len length]. destruct (c =? ch "=") eqn:E; zbool.
  - subst. split; [|discriminate]. intros H. exfalso. apply H. left.
  - rewrite not_elem_of_cons, IH. split; [intros [_ ->]; reflexivity|]. intros H. split; [auto|lia].
Qed.

Lemma name_len_split t : (name_len t < length t)%nat ->
  exists v, t = take (name_len t) t ++ ch "=" :: v /\ no_eq (take (name_len t) t).
Proof.
  unfold no_eq. induction t as [|c t IH]; cbn [name_len length]; [lia|].
  destruct (c =? ch "=") eqn:E; zbool.
  - subst. intros _. exists t. split; [reflexivity|]. apply not_elem_of_nil.
  - intros Hl. destruct IH as (v & Hv & Hn); [lia|]. exists v. cbn [take app]. split; [now rewrite <- Hv|].
    rewrite not_elem_of_cons. auto.
Qed.

Lemma bad_name name : Nat.eqb (name_len name) 0 || negb (Nat.eqb (name_len name) (length name)) = negb (valid name).
Proof. unfold valid. now rewrite negb_andb, negb_involutive. Qed.

Lemma valid_no_eq name : valid name = true -> no_eq name /\ name <> [].
Proof.
  unfold valid. rewrite andb_true_iff, negb_true_iff, Nat.eqb_neq, Nat.eqb_eq. intros [H1 H2].
  split; [now apply name_len_all|]. now intros ->.
Qed.

Lemma entry_Some name t v : entry name t = Some v <-> t = name ++ ch "=" :: v.
Proof.
  unfold entry, same_prefix. split.
  - destruct (_ && _) eqn:E; [|discriminate]. zbool. intros [= <-].
    match goal with H : bool_decide _ = true |- _ => apply bool_decide_eq_true in H as E1 end.
    rewrite firstn_all in E1. rewrite E1 at 1. rewrite <- (take_drop (length name) t) at 1. f_equal.
    destruct (t !! length name) as [c|] eqn:Ec; cbn in *; [|discriminate]. subst c.
    rewrite (drop_S _ _ _ Ec). now rewrite Nat.add_1_r.
  - intros ->. rewrite firstn_all, take_app_length, bool_decide_true by reflexivity.
    rewrite lookup_app_r, Nat.sub_diag by lia. cbn [andb lookup list_lookup default id].
    cbn. f_equal. now rewrite <- drop_drop, drop_app_length.
Qed.

(** The test of [getenv] and [unsetenv]. *)
Lemma entry_test name t :
  same_prefix (length name) name t && (default 0 (t !! length name) =? ch "=") = bool_decide (is_Some (entry name t)).
Proof.
  unfold entry. destruct (_ && _); symmetry; [apply bool_decide_eq_true; eauto|apply bool_decide_eq_false]. intros [? ?]. discriminate.
Qed.

Lemma entry_other name name' v : no_eq name -> no_eq name' -> name <> name' -> entry name (name' ++ ch "=" :: v) = None.
Proof.
  intros H1 H2 Hne. destruct (entry name _) as [w|] eqn:E; [|reflexivity]. exfalso. apply Hne.
  apply entry_Some in E. pose proof (name_len_app name' v H2) as L1. rewrite E, name_len_app in L1 by exact H1.
  apply (f_equal (take (length name'))) in E. rewrite take_app_length, <- L1, take_app_length in E. now symmetry.
Qed.

(** The test of [__putenv] on a new entry [name=v]. *)
Lemma same_prefix_entry name v t :
  same_prefix (length name + 1) (name ++ ch "=" :: v) t = bool_decide (is_Some (entry name t)).
Proof.
  unfold same_prefix. apply bool_decide_ext. rewrite take_app_add'; [|reflexivity]. cbn [take]. split.
  - intros H. exists (drop (length name + 1) t). apply entry_Some.
    rewrite <- (take_drop (length name + 1) t) at 1. rewrite <- H. now rewrite <- app_assoc.
  - intros [w ->%entry_Some]. rewrite take_app_add'; reflexivity.
Qed.

(** ** Lists of entries *)

Lemma env_get_app ts us name : env_get (ts ++ us) name = match env_get ts name with Some v => Some v | None => env_get us name end.
Proof. induction ts as [|t ts IH]; [reflexivity|]. cbn [env_get app]. now destruct (entry name t). Qed.

Lemma env_get_none ts name : env_get ts name = None <-> Forall (fun t => entry name t = None) ts.
Proof.
  induction ts as [|t ts IH]; cbn [env_get]; [split; [constructor|reflexivity]|].
  rewrite Forall_cons_iff. destruct (entry name t); [split; [discriminate|intros [? _]; discriminate]|]. tauto.
Qed.

Section update.
Context (name v : list Z) (Hn : no_eq name).
Abbreviation text := (name ++ ch "=" :: v).

Lemma entry_text : entry name text = Some v.
Proof. now apply entry_Some. Qed.

Lemma env_get_replace ts t us name' w :
  no_eq name' -> entry name t = Some w -> env_get ts name = None ->
  env_get (ts ++ text :: us) name' = if decide (name' = name) then Some v else env_get (ts ++ t :: us) name'.
Proof.
  intros Hn' Ht Hts. rewrite !env_get_app. case_decide as E.
  - subst. rewrite Hts. cbn [env_get]. now rewrite entry_text.
  - destruct (env_get ts name'); [reflexivity|]. cbn [env_get]. apply entry_Some in Ht as ->.
    now rewrite !entry_other by auto.
Qed.

Lemma env_get_append ts name' :
  no_eq name' -> env_get ts name = None ->
  env_get (ts ++ [text]) name' = if decide (name' = name) then Some v else env_get ts name'.
Proof.
  intros Hn' Hts. rewrite env_get_app. cbn [env_get]. case_decide as E.
  - subst. now rewrite Hts, entry_text.
  - rewrite entry_other by auto. now destruct (env_get ts name').
Qed.

Lemma env_get_remove ts name' :
  no_eq name' ->
  env_get (List.filter (fun t => bool_decide (entry name t = None)) ts) name' =
  if decide (name' = name) then None else env_get ts name'.
Proof.
  intros Hn'. induction ts as [|t ts IH]; cbn [List.filter]; [now case_decide|].
  destruct (entry name t) as [w|] eqn:Et.
  - rewrite bool_decide_false by discriminate. rewrite IH. apply entry_Some in Et as ->. case_decide; [reflexivity|].
    cbn [env_get]. now rewrite entry_other by auto.
  - rewrite bool_decide_true by reflexivity. cbn [env_get]. rewrite IH. case_decide; [subst; now rewrite Et|reflexivity].
Qed.
End update.

(** ** Ownership *)

(** The strings the library owns. *)
Definition own (slots : list Z) : list Z := List.filter (fun p => negb (p =? 0)) slots.

Lemma elem_of_own p slots : (p ∈ own slots) <-> (p ∈ slots) /\ p <> 0.
Proof.
  unfold own. rewrite !list_elem_of_In, List.filter_In, negb_true_iff, Z.eqb_neq. reflexivity.
Qed.

Lemma own_cons p slots : own (p :: slots) = if p =? 0 then own slots else p :: own slots.
Proof. unfold own. cbn. now destruct (p =? 0). Qed.

Lemma own_app a b : own (a ++ b) = own a ++ own b.
Proof. apply List.filter_app. Qed.

Lemma rm_add_slots_spec old slots : forall new slots' new' ret,
  rm_add_slots old new slots = (slots', new', ret) ->
  NoDup (own slots) -> new ∉ own slots ->
  NoDup (own slots') /\ (new' = new \/ new' = 0) /\ (ret = true <-> (old ∈ slots)) /\
  (forall p, p ∈ own slots' -> p = new \/ p ∈ own slots /\ p <> old) /\
  (ret = false -> new' <> 0 -> new ∉ own slots').
Proof.
  induction slots as [|q slots IH]; intros new slots' new' ret E Hnd Hnew; cbn [rm_add_slots] in E.
  - injection E as <- <- <-. split; [constructor|]. split; [auto|]. split; [|split].
    + split; [discriminate|]. intros H. now apply not_elem_of_nil in H.
    + intros p H. now apply not_elem_of_nil in H.
    + intros _ _. apply not_elem_of_nil.
  - rewrite own_cons in Hnd, Hnew. rewrite own_cons. destruct (q =? old) eqn:Eq; zbool.
    { injection E as <- <- <-. subst q. rewrite own_cons.
      assert (K : NoDup (own slots) /\ (new ∉ own slots) /\ (old ∉ own slots)).
      { destruct (old =? 0) eqn:E0; zbool.
        - split; [exact Hnd|]. split; [exact Hnew|]. subst. rewrite elem_of_own. tauto.
        - apply not_elem_of_cons in Hnew as [? ?]. inversion Hnd; subst. auto. }
      destruct K as (K1 & K2 & K3). split; [|split; [auto|split; [|split]]].
      - destruct (new =? 0) eqn:E1; [exact K1|]. now constructor.
      - split; [intros _; left|reflexivity].
      - intros p Hp. destruct (new =? 0) eqn:E1; [|apply elem_of_cons in Hp as [?|Hp]; [auto|]].
        all: right; split; [|intros ->; contradiction].
        all: destruct (old =? 0); [exact Hp|now right].
      - discriminate. }
    destruct ((q =? 0) && negb (new =? 0)) eqn:Ez.
    + zbool. subst q. destruct (rm_add_slots old 0 slots) as [[sl n'] rt] eqn:Er. injection E as <- <- <-.
      cbn [Z.eqb] in Hnd, Hnew. destruct (IH 0 _ _ _ Er Hnd) as (A1 & A2 & A3 & A4 & A5).
      { rewrite elem_of_own. tauto. }
      rewrite own_cons, (proj2 (Z.eqb_neq _ _) H0). cbn [Z.eqb].
      assert (Hn0 : n' = 0) by tauto. split; [|split; [auto|split; [|split]]].
      * constructor; [|exact A1]. intros Hin. apply A4 in Hin as [->|[? _]]; [lia|contradiction].
      * rewrite A3, elem_of_cons. split; [auto|]. intros [?|?]; [congruence|assumption].
      * intros p Hp. apply elem_of_cons in Hp as [->|Hp]; [auto|]. destruct (A4 p Hp) as [->|?]; [|auto].
        apply elem_of_own in Hp. lia.
      * intros _ ?. contradiction.
    + destruct (rm_add_slots old new slots) as [[sl n'] rt] eqn:Er. injection E as <- <- <-. rewrite own_cons.
      destruct (q =? 0) eqn:E0; zbool.
      * destruct (IH new _ _ _ Er Hnd Hnew) as (A1 & A2 & A3 & A4 & A5). split; [exact A1|]. split; [exact A2|].
        split; [|auto]. rewrite A3, elem_of_cons. split; [auto|]. intros [?|?]; [congruence|assumption].
      * apply not_elem_of_cons in Hnew as [Hne Hnew]. inversion Hnd as [|? ? Hq Hnd']; subst.
        destruct (IH new _ _ _ Er Hnd' Hnew) as (A1 & A2 & A3 & A4 & A5). split; [|split; [exact A2|split; [|split]]].
        -- constructor; [|exact A1]. intros Hin. apply A4 in Hin as [?|[? _]]; [congruence|contradiction].
        -- rewrite A3, elem_of_cons. split; [auto|]. intros [?|?]; [congruence|assumption].
        -- intros p Hp. apply elem_of_cons in Hp as [->|Hp]; [right; split; [left|auto]|].
           destruct (A4 p Hp) as [?|[? ?]]; [auto|]. right. split; [now right|assumption].
        -- intros R N. rewrite not_elem_of_cons. split; [exact Hne|auto].
Qed.

Section env.
Context (malloc : env -> Z).

(** [__env_rm_add]: the old string is freed when it was owned, the new one may
    become owned, and nothing else changes. *)
Definition rm_added (old new : Z) (e e' : env) : Prop :=
  environ e' = environ e /\ oldenv e' = oldenv e /\ arrays e' = arrays e /\
  strings e' = (if decide (old ∈ own (env_alloced e)) then delete old (strings e) else strings e) /\
  NoDup (own (env_alloced e')) /\
  forall p, p ∈ own (env_alloced e') -> p = new \/ p ∈ own (env_alloced e) /\ p <> old.

Lemma rm_add_spec old new e :
  NoDup (own (env_alloced e)) -> new ∉ own (env_alloced e) ->
  (old ∈ own (env_alloced e) -> is_Some (strings e !! old)) ->
  swp (__env_rm_add malloc old new) (fun _ => rm_added old new e) e.
Proof.
  intros Hnd Hnew Hold. unfold __env_rm_add. repeat swp_step.
  destruct (rm_add_slots old new (env_alloced e)) as [[sl n'] ret] eqn:Er.
  destruct (rm_add_slots_spec _ _ _ _ _ _ Er Hnd Hnew) as (A1 & A2 & A3 & A4 & A5). repeat swp_step.
  - unfold free_string. destruct (old =? 0) eqn:E0; zbool.
    + swp_step. unfold rm_added. cbn. rewrite decide_False by (rewrite elem_of_own; tauto). auto 10.
    + assert (Hin : old ∈ own (env_alloced e)) by (apply elem_of_own; tauto).
      destruct (Hold Hin) as [t Ht]. eapply swp_supd; [cbn; rewrite Ht; reflexivity|].
      unfold rm_added. cbn. rewrite decide_True by exact Hin. auto 10.
  - unfold rm_added. cbn. rewrite decide_False; [auto 10|]. rewrite elem_of_own. intros [Ho _]. apply A3 in Ho. congruence.
  - unfold rm_added. cbn. rewrite decide_False; [auto 10|]. rewrite elem_of_own. intros [Ho _]. apply A3 in Ho. congruence.
  - unfold rm_added. cbn. rewrite decide_False; [|rewrite elem_of_own; intros [Ho _]; apply A3 in Ho; congruence].
    assert (n' = new) as -> by (destruct A2; [auto|contradiction]). rewrite own_app, own_cons, (proj2 (Z.eqb_neq _ _) E0).
    repeat split; auto.
    + apply list.NoDup_app. split; [exact A1|]. split; [|apply NoDup_singleton]. intros x Hx [->|[]%not_elem_of_nil]%elem_of_cons.
      now apply A5 in Hx.
    + intros p [Hp|[->|[]%not_elem_of_nil]%elem_of_cons]%elem_of_app; auto.
Qed.

(** ** The invariant

    [U] are the strings of the caller, which stay as they are. *)
Context (U : gmap Z (list Z)).

Definition once (p : Z) (es : list Z) : Prop := count_occ Z.eq_dec es p = 1%nat.

Record env_core (e : env) (es : list Z) : Prop := {
  ei_live : Forall (fun p => p <> 0 /\ is_Some (strings e !! p)) es;
  ei_nodup : NoDup (own (env_alloced e));
  ei_own : forall p, p ∈ own (env_alloced e) -> once p es /\ U !! p = None;
  ei_user : U ⊆ strings e }.
Definition env_inv (e : env) (es : list Z) : Prop :=
  (if environ e =? 0 then Some [] else arrays e !! environ e) = Some es /\ env_core e es.

Definition text_at (e : env) (p : Z) : list Z := default [] (strings e !! p).
Definition texts (e : env) (es : list Z) : list (list Z) := text_at e <$> es.

Lemma once_in p es : once p es -> p ∈ es.
Proof. intros H. apply list_elem_of_In, (count_occ_In Z.eq_dec). unfold once in H. lia. Qed.

Lemma core_live e es p : env_core e es -> p ∈ es -> p <> 0 /\ is_Some (strings e !! p).
Proof. intros Hi Hp. pose proof (ei_live _ _ Hi) as Hl. rewrite Forall_forall in Hl. now apply Hl, list_elem_of_In. Qed.

Lemma core_owned e es p : env_core e es -> p ∈ own (env_alloced e) -> p ∈ es.
Proof. intros Hi Hp. now apply once_in, (ei_own _ _ Hi). Qed.

(** [__env_rm_add] keeps the discipline when the entries change with it. *)
Lemma core_rm_added e e' es es' old new :
  env_core e es -> rm_added old new e e' ->
  (forall q, q ∈ es' -> q <> 0 /\ is_Some (strings e !! q) /\ (old ∈ own (env_alloced e) -> q <> old)) ->
  (forall q, q ∈ own (env_alloced e) -> q <> old -> once q es') ->
  new = 0 \/ once new es' /\ U !! new = None ->
  env_core e' es' /\ texts e' es' = texts e es'.
Proof.
  intros Hi (_ & _ & _ & Hs & Hnd & Hown) HA HB HC.
  assert (Hstr : forall q, q ∈ es' -> strings e' !! q = strings e !! q).
  { intros q Hq. rewrite Hs. case_decide as Ho; [|reflexivity]. apply lookup_delete_ne.
    destruct (HA q Hq) as (_ & _ & Hne). intros ->. now apply Hne. }
  split; [split|].
  - rewrite Forall_forall. intros q Hq%list_elem_of_In. rewrite Hstr by exact Hq. destruct (HA q Hq) as (? & ? & _). auto.
  - exact Hnd.
  - intros p Hp. destruct (Hown p Hp) as [->|[Ho Hne]].
    + destruct HC as [->|[? ?]]; [|auto]. apply elem_of_own in Hp. tauto.
    + split; [now apply HB|]. now apply (ei_own _ _ Hi).
  - rewrite Hs. case_decide as Ho; [|apply (ei_user _ _ Hi)]. apply map_subseteq_spec. intros q t Hq.
    rewrite lookup_delete_ne; [now apply (lookup_weaken _ _ _ _ Hq), (ei_user _ _ Hi)|].
    intros ->. destruct (ei_own _ _ Hi q Ho) as [_ E]. congruence.
  - unfold texts. apply list_fmap_ext. intros i q Hq. unfold text_at. rewrite Hstr; [reflexivity|].
    eapply list_elem_of_lookup_2; eauto.
Qed.

Lemma swp_entries e es (Q : list Z -> env -> Prop) : env_inv e es -> Q es e -> swp entries Q e.
Proof. intros [Hi _] HQ. eapply swp_sopt; [exact Hi|exact HQ]. Qed.

Lemma swp_string e es p (Q : list Z -> env -> Prop) :
  Forall (fun p => p <> 0 /\ is_Some (strings e !! p)) es -> p ∈ es -> Q (text_at e p) e -> swp (get_string p) Q e.
Proof.
  intros Hl Hp HQ. rewrite Forall_forall in Hl. destruct (Hl p) as [_ [t Ht]]; [now apply list_elem_of_In|].
  unfold text_at in HQ. rewrite Ht in HQ. eapply swp_sopt; [exact Ht|exact HQ].
Qed.

Lemma getenv_loop_spec e name es :
  Forall (fun p => p <> 0 /\ is_Some (strings e !! p)) es ->
  getenv_loop name es e = Done (env_get (texts e es) name) e.
Proof.
  intros Hl. apply swp_eq. induction es as [|p es IH]; cbn [getenv_loop]; [now swp_step|].
  apply swp_bind, (swp_string _ (p :: es)); [exact Hl|left|]. cbn [texts fmap list_fmap env_get]. unfold entry.
  apply Forall_cons_iff in Hl as [_ Hl]. destruct (_ && _); [now swp_step|]. now apply IH.
Qed.

(** The first entry with the name of [text]. *)
Lemma find_entry_spec e name v es : forall i,
  Forall (fun p => p <> 0 /\ is_Some (strings e !! p)) es ->
  swp (find_entry (name ++ ch "=" :: v) (length name) es i) (fun r e' => e' = e /\
    match r with
    | None => env_get (texts e es) name = None
    | Some j => exists l1 p l2 w, es = l1 ++ p :: l2 /\ j = (i + length l1)%nat /\
                  env_get (texts e l1) name = None /\ entry name (text_at e p) = Some w
    end) e.
Proof.
  induction es as [|p es IH]; intros i Hl; cbn [find_entry]; [now swp_step|].
  apply swp_bind, (swp_string _ (p :: es)); [exact Hl|left|]. apply Forall_cons_iff in Hl as [_ Hl].
  rewrite same_prefix_entry. destruct (entry name (text_at e p)) as [w|] eqn:Ew.
  - rewrite bool_decide_true by eauto. swp_step. split; [reflexivity|]. exists [], p, es, w.
    rewrite Nat.add_0_r. auto.
  - rewrite bool_decide_false by (intros [? ?]; discriminate). eapply swp_mono; [apply (IH (S i) Hl)|].
    intros [j|] e' [-> Hr]; (split; [reflexivity|]).
    + destruct Hr as (l1 & q & l2 & w & -> & -> & H1 & H2). exists (p :: l1), q, l2, w. cbn [length app].
      split; [reflexivity|]. split; [lia|]. split; [|exact H2]. cbn [texts fmap list_fmap env_get]. now rewrite Ew.
    + cbn [texts fmap list_fmap env_get]. now rewrite Ew.
Qed.

(** ** [__putenv] *)

(** The new entry [s] belongs to the caller or is about to become owned. *)
Definition new_entry (e : env) (es : list Z) (s r : Z) : Prop :=
  s <> 0 /\ is_Some (strings e !! s) /\
  (r = 0 /\ (s ∉ own (env_alloced e)) \/ r = s /\ (s ∉ es) /\ U !! s = None).

Lemma new_not_owned e es s r : env_core e es -> new_entry e es s r -> s ∉ own (env_alloced e).
Proof. intros Hi (_ & _ & [[_ H]|[_ [H _]]]); [exact H|]. intros ?. now apply H, (core_owned e). Qed.

Lemma new_r_not_owned e es s r : env_core e es -> new_entry e es s r -> r ∉ own (env_alloced e).
Proof.
  intros Hi Hn. pose proof (new_not_owned _ _ _ _ Hi Hn). destruct Hn as (_ & _ & [[-> _]|[-> _]]); [|assumption].
  rewrite elem_of_own. tauto.
Qed.

Lemma put_arrays_core f e es : env_core (put_arrays f e) es <-> env_core e es.
Proof. split; intros []; constructor; assumption. Qed.

(** The entry is in place. *)
Definition put_ok (e : env) (es : list Z) (name v : list Z) (x : Z) (e' : env) : Prop :=
  x = 0 /\ exists es', env_inv e' es' /\
    forall name', no_eq name' ->
      env_get (texts e' es') name' = if decide (name' = name) then Some v else env_get (texts e es) name'.
Definition put_result (e : env) (es : list Z) (r : Z) (name v : list Z) (x : Z) (e' : env) : Prop :=
  put_ok e es name v x e' \/
  x = -1 /\ (exists e0, malloc e0 = 0) /\ e' = if r =? 0 then e else put_strings (delete r) e.

Lemma putenv_replace e l1 p l2 s r name v w :
  no_eq name -> env_inv e (l1 ++ p :: l2) -> new_entry e (l1 ++ p :: l2) s r ->
  text_at e s = name ++ ch "=" :: v -> entry name (text_at e p) = Some w -> env_get (texts e l1) name = None ->
  swp (modify (put_arrays <[environ e := l1 ++ s :: l2]>);; __env_rm_add malloc p r;; mret 0)
    (put_ok e (l1 ++ p :: l2) name v) e.
Proof.
  intros Hn [He Hi] Hnew Ht Hp Hl1. pose proof (new_not_owned _ _ _ _ Hi Hnew) as Hso.
  pose proof (new_r_not_owned _ _ _ _ Hi Hnew) as Hro.
  assert (Hpo : p ∈ own (env_alloced e) -> p ∉ l1 ++ l2).
  { intros Ho. destruct (ei_own _ _ Hi p Ho) as [Hc _]. unfold once in Hc. rewrite count_occ_app, count_occ_cons_eq in Hc by reflexivity.
    rewrite list_elem_of_In, (count_occ_not_In Z.eq_dec), count_occ_app. lia. }
  repeat swp_step. eapply swp_mono; [apply rm_add_spec; [apply (ei_nodup _ _ Hi)|exact Hro|]|].
  { intros Ho. apply (core_live e _ p Hi). set_solver. }
  intros [] e' Hrm. destruct (core_rm_added _ e' _ (l1 ++ s :: l2) p r (proj2 (put_arrays_core _ _ _) Hi) Hrm) as [Hc Htx].
  - cbn. intros q Hq. apply elem_of_app in Hq as [Hq|[->|Hq]%elem_of_cons].
    + destruct (core_live e _ q Hi); [set_solver|]. split; [assumption|]. split; [assumption|]. intros Ho ->. apply (Hpo Ho). set_solver.
    + destruct Hnew as (? & ? & _). split; [assumption|]. split; [assumption|]. now intros Ho ->.
    + destruct (core_live e _ q Hi); [set_solver|]. split; [assumption|]. split; [assumption|]. intros Ho ->. apply (Hpo Ho). set_solver.
  - cbn. intros q Hq Hne. destruct (ei_own _ _ Hi q Hq) as [Hc _]. unfold once in *. rewrite count_occ_app in *.
    rewrite count_occ_cons_neq in Hc by auto. rewrite count_occ_cons_neq by (intros ->; contradiction). exact Hc.
  - destruct Hnew as (_ & _ & [[-> _]|(-> & Hs & HU)]); [now left|]. right. split; [|exact HU].
    unfold once. rewrite count_occ_app, count_occ_cons_eq by reflexivity.
    rewrite list_elem_of_In, (count_occ_not_In Z.eq_dec), count_occ_app in Hs. cbn in Hs. destruct (Z.eq_dec p s); lia.
  - swp_step. split; [reflexivity|]. exists (l1 ++ s :: l2). destruct Hrm as (E1 & _ & E3 & _). cbn in E1, E3. split; [split|].
    + rewrite E1, E3. destruct (environ e =? 0) eqn:E0; [|apply lookup_insert_eq]. exfalso. injection He as He.
      symmetry in He. now apply app_eq_nil in He as [_ ?].
    + exact Hc.
    + intros name' Hn'. rewrite Htx. unfold texts. rewrite !fmap_app, !fmap_cons.
      change (text_at (put_arrays _ e)) with (text_at e). rewrite Ht.
      now apply (env_get_replace name v Hn _ (text_at e p) _ name' w).
Qed.

Lemma count_snoc q s es : q <> s -> once q es -> once q (es ++ [s]).
Proof. unfold once. intros Hne Hc. rewrite count_occ_app, (count_occ_cons_neq _ nil) by auto. cbn. lia. Qed.

Lemma once_new s es : s ∉ es -> once s (es ++ [s]).
Proof.
  intros Hs. unfold once. rewrite count_occ_app, (count_occ_cons_eq _ nil) by reflexivity.
  rewrite list_elem_of_In, (count_occ_not_In Z.eq_dec) in Hs. cbn. lia.
Qed.

Lemma app_live e es s r q : env_core e es -> new_entry e es s r -> q ∈ es ++ [s] -> q <> 0 /\ is_Some (strings e !! q).
Proof.
  intros Hi (Hs0 & Hs & _) [Hq|[->|[]%not_elem_of_nil]%elem_of_cons]%elem_of_app; [now apply (core_live e es)|auto].
Qed.

(** A new last entry: the rest of [__putenv] after the new array is in place. *)
Lemma putenv_append e es s r name v newenv :
  no_eq name -> env_core e es -> new_entry e es s r -> newenv <> 0 ->
  environ e = newenv -> arrays e !! newenv = Some (es ++ [s]) ->
  text_at e s = name ++ ch "=" :: v -> env_get (texts e es) name = None ->
  swp ((if negb (r =? 0) then __env_rm_add malloc 0 r else mret tt);; mret 0) (put_ok e es name v) e.
Proof.
  intros Hn Hi Hnew Hn0 Henv Harr Ht Hget.
  assert (Hdone : forall e', env_core e' (es ++ [s]) -> texts e' (es ++ [s]) = texts e (es ++ [s]) ->
            environ e' = environ e -> arrays e' = arrays e -> put_ok e es name v 0 e').
  { intros e' Hc Htx E1 E2. split; [reflexivity|]. exists (es ++ [s]). split; [split; [|exact Hc]|].
    - now rewrite E1, E2, Henv, (proj2 (Z.eqb_neq _ _) Hn0).
    - intros name' Hn'. rewrite Htx. unfold texts. rewrite fmap_app. cbn [fmap list_fmap].
      rewrite Ht. now apply env_get_append. }
  pose proof (new_not_owned _ _ _ _ Hi Hnew) as Hso. apply swp_bind. destruct (r =? 0) eqn:Er; zbool; cbn [negb].
  - repeat swp_step. apply Hdone; [|reflexivity..]. constructor; try apply Hi.
    + rewrite Forall_forall. intros q Hq%list_elem_of_In. now apply (app_live _ _ _ _ _ Hi Hnew).
    + intros q Hq. destruct (ei_own _ _ Hi q Hq) as [Hc ?]. split; [|assumption].
      apply count_snoc; [intros ->; contradiction|exact Hc].
  - eapply swp_mono; [apply rm_add_spec; [apply (ei_nodup _ _ Hi)|now apply (new_r_not_owned _ es s)|rewrite elem_of_own; tauto]|].
    intros [] e' Hrm. swp_step. destruct (core_rm_added _ e' _ (es ++ [s]) 0 r Hi Hrm) as [Hc Htx].
    + intros q Hq. destruct (app_live _ _ _ _ _ Hi Hnew Hq). rewrite elem_of_own. tauto.
    + intros q Hq _. apply count_snoc; [intros ->; contradiction|now apply (ei_own _ _ Hi)].
    + destruct Hnew as (_ & _ & [[? _]|(-> & Hs & HU)]); [contradiction|]. right. split; [now apply once_new|exact HU].
    + destruct Hrm as (E1 & _ & E3 & _). now apply Hdone.
Qed.

(** No memory for the array: a new string is freed again. *)
Lemma putenv_oom e es s r name v :
  malloc e = 0 -> new_entry e es s r -> swp (free_string r;; mret (-1)) (put_result e es r name v) e.
Proof.
  intros Hm (_ & [t Ht] & Hr). unfold free_string, put_result. apply swp_bind. destruct (r =? 0) eqn:Er; zbool.
  - repeat swp_step. right. eauto.
  - destruct Hr as [[? _]|(-> & _)]; [contradiction|].
    eapply swp_supd; [cbn; rewrite Ht; reflexivity|]. swp_step. right. eauto.
Qed.

Lemma putenv_spec e es s r name v :
  no_eq name -> env_inv e es -> new_entry e es s r -> strings e !! s = Some (name ++ ch "=" :: v) ->
  swp (__putenv malloc s (Z.of_nat (length name)) r) (put_result e es r name v) e.
Proof.
  intros Hn Hi Hnew Hs. assert (Ht : text_at e s = name ++ ch "=" :: v) by (unfold text_at; now rewrite Hs).
  unfold __putenv. apply swp_bind. eapply swp_sopt; [exact Hs|]. apply swp_bind, (swp_entries _ es); [exact Hi|].
  apply swp_bind. rewrite Nat2Z.id. eapply swp_mono; [apply find_entry_spec, Hi|].
  intros [j|] e1 [-> Hf].
  - destruct Hf as (l1 & p & l2 & w & -> & -> & Hl1 & Hp). cbn [Nat.add]. apply swp_bind, swp_gets.
    rewrite insert_app_r_alt, list_lookup_middle, Nat.sub_diag by lia. cbn [default id list_insert insert].
    eapply swp_mono; [now apply (putenv_replace e l1 p l2 s r name v w)|]. now left.
  - apply swp_bind, swp_gets. destruct (malloc e =? 0) eqn:Em; zbool; [now apply (putenv_oom _ _ s)|].
    do 6 swp_step. eapply swp_mono; [apply (putenv_append _ es s r name v (malloc e)); auto|now left].
    + destruct Hi as [_ []]. constructor; assumption.
    + apply lookup_insert_eq.
Qed.

(** ** The public functions *)

Lemma getenv_spec e es name : env_inv e es ->
  getenv name e = Done (if valid name then env_get (texts e es) name else None) e.
Proof.
  intros Hi. apply swp_eq. unfold getenv, valid. destruct (negb _ && _); [|now swp_step].
  apply swp_bind, (swp_entries _ es); [exact Hi|]. eapply swp_run; [apply getenv_loop_spec, Hi|]. auto.
Qed.

(** The loop of [unsetenv] from the entries [kept ++ es] on. *)
Lemma unset_loop_spec name es : forall kept e,
  env_core e (kept ++ es) ->
  swp (unset_loop malloc name es) (fun keep e' => env_core e' (kept ++ keep) /\
    environ e' = environ e /\ arrays e' = arrays e /\
    texts e' (kept ++ keep) = texts e kept ++ List.filter (fun t => bool_decide (entry name t = None)) (texts e es)) e.
Proof.
  induction es as [|p es IH]; intros kept e Hi; cbn [unset_loop].
  - swp_step. split; [exact Hi|]. split; [reflexivity|]. split; [reflexivity|]. unfold texts. now rewrite fmap_app.
  - apply swp_bind, (swp_string _ (kept ++ p :: es)); [apply Hi|set_solver|]. cbn [texts fmap list_fmap List.filter].
    rewrite entry_test. destruct (entry name (text_at e p)) as [w|] eqn:Ew.
    + rewrite bool_decide_true by eauto. rewrite bool_decide_false by discriminate.
      apply swp_bind. eapply swp_mono; [apply rm_add_spec; [apply Hi|rewrite elem_of_own; tauto|]|].
      { intros Ho. apply (core_live e _ p Hi). set_solver. }
      intros [] e1 Hrm.
      assert (Hpo : p ∈ own (env_alloced e) -> p ∉ kept ++ es).
      { intros Ho. destruct (ei_own _ _ Hi p Ho) as [Hc _]. unfold once in Hc.
        rewrite count_occ_app, count_occ_cons_eq in Hc by reflexivity.
        rewrite list_elem_of_In, (count_occ_not_In Z.eq_dec), count_occ_app. lia. }
      destruct (core_rm_added _ e1 _ (kept ++ es) p 0 Hi Hrm) as [Hc Htx].
      * intros q Hq. assert (Hq' : q ∈ kept ++ p :: es) by (apply elem_of_app in Hq; rewrite elem_of_app, elem_of_cons; tauto). destruct (core_live e _ q Hi Hq') as [? ?]. split; [assumption|]. split; [assumption|].
        intros Ho ->. now apply (Hpo Ho).
      * intros q Hq Hne. destruct (ei_own _ _ Hi q Hq) as [Hc _]. unfold once in *.
        rewrite count_occ_app in *. now rewrite count_occ_cons_neq in Hc by auto.
      * now left.
      * eapply swp_mono; [apply (IH kept e1 Hc)|]. intros keep e2 (K1 & K2 & K3 & K4).
        destruct Hrm as (E1 & _ & E3 & _). split; [exact K1|]. split; [congruence|]. split; [congruence|]. rewrite K4.
        unfold texts in *. rewrite !fmap_app in Htx. apply app_inj_1 in Htx as [-> ->]; [reflexivity|now rewrite !length_fmap].
    + rewrite bool_decide_false by (intros [? ?]; discriminate). rewrite bool_decide_true by reflexivity. apply swp_bind.
      eapply swp_mono; [apply (IH (kept ++ [p]) e); now rewrite <- app_assoc|].
      intros keep e2 (K1 & K2 & K3 & K4). swp_step. rewrite <- app_assoc in K1, K4. cbn [app] in K1, K4.
      split; [exact K1|]. split; [exact K2|]. split; [exact K3|]. rewrite K4. unfold texts. rewrite fmap_app, <- app_assoc. reflexivity.
Qed.

(** What an operation does to the values of the names. *)
Definition means (e : env) (es : list Z) (e' : env) (es' : list Z) (f : list Z -> option (list Z) -> option (list Z)) : Prop :=
  env_inv e' es' /\
  forall name, no_eq name -> env_get (texts e' es') name = f name (env_get (texts e es) name).

Lemma unsetenv_spec e es name : env_inv e es ->
  swp (unsetenv malloc name) (fun x e' =>
    if valid name then x = 0 /\ exists es', means e es e' es' (fun n o => if decide (n = name) then None else o)
    else x = -1 /\ e' = e) e.
Proof.
  intros [He Hi]. unfold unsetenv.
  rewrite bad_name.
  destruct (valid name) eqn:Hv; cbn [negb]; [|now swp_step]. destruct (valid_no_eq _ Hv) as [Hn _].
  apply swp_bind, swp_gets. destruct (environ e =? 0) eqn:E0.
  - swp_step. split; [reflexivity|]. injection He as <-. exists []. split.
    + split; [now rewrite E0|exact Hi].
    + intros n _. now case_decide.
  - apply swp_bind, (swp_entries _ es); [split; [now rewrite E0|exact Hi]|].
    apply swp_bind. eapply swp_mono; [apply (unset_loop_spec name es [] e Hi)|].
    intros keep e1 (K1 & K2 & K3 & K4). cbn [app texts fmap list_fmap] in K4. repeat swp_step. split; [reflexivity|].
    exists keep. split; [split|].
    + cbn. rewrite K2, E0. apply lookup_insert_eq.
    + now apply put_arrays_core.
    + intros n Hnn. change (texts (put_arrays _ e1) keep) with (texts e1 keep). unfold texts at 1. rewrite K4. now apply env_get_remove.
Qed.

Context (malloc_fresh : forall e, malloc e <> 0 -> strings e !! malloc e = None).

(** A string that was just allocated is no entry yet. *)
Lemma fresh_string e es s t :
  env_inv e es -> s <> 0 -> strings e !! s = None ->
  let e1 := put_strings <[s := t]> e in
  env_inv e1 es /\ new_entry e1 es s s /\ texts e1 es = texts e es.
Proof.
  intros [He Hi] Hs0 Hf e1.
  assert (Hs : s ∉ es) by (intros Hin; destruct (core_live e es s Hi Hin) as [_ [? ?]]; congruence).
  assert (HU : U !! s = None) by (destruct (U !! s) eqn:E; [|reflexivity]; eapply lookup_weaken in E; [|apply Hi]; congruence).
  assert (Hk : forall q, q ∈ es -> strings e1 !! q = strings e !! q) by (intros q Hq; apply lookup_insert_ne; now intros ->).
  split; [split; [exact He|constructor; try apply Hi]|split].
  - rewrite Forall_forall. intros q Hq%list_elem_of_In. rewrite Hk by exact Hq. now apply (core_live e es).
  - apply map_subseteq_spec. intros q x Hq. cbn. rewrite lookup_insert_ne by congruence. now apply (lookup_weaken _ _ _ _ Hq), Hi.
  - split; [exact Hs0|]. split; [eexists; apply lookup_insert_eq|]. now right.
  - apply list_fmap_ext. intros i q Hq. unfold text_at. rewrite Hk; [reflexivity|]. eapply list_elem_of_lookup_2; eauto.
Qed.

(** A new value, or no memory and nothing changed. *)
Definition set_result (e : env) (es : list Z) (name value : list Z) (x : Z) (e' : env) : Prop :=
  x = 0 /\ (exists es', means e es e' es' (fun n o => if decide (n = name) then Some value else o)) \/
  x = -1 /\ (exists e0, malloc e0 = 0) /\ e' = e.

Lemma setenv_alloc e es name value : env_inv e es -> no_eq name ->
  swp (s ← gets malloc;
       if s =? 0 then mret (-1) else
       modify (put_strings <[s := name ++ [ch "="] ++ value]>);;
       __putenv malloc s (Z.of_nat (length name)) s) (set_result e es name value) e.
Proof.
  intros Hi Hn. repeat swp_step.
  - right. eauto.
  - destruct (fresh_string e es (malloc e) (name ++ [ch "="] ++ value) Hi E (malloc_fresh e E)) as (Hi1 & Hnew & Htx).
    eapply swp_mono; [apply (putenv_spec _ es _ _ name value Hn Hi1 Hnew), lookup_insert_eq|].
    intros x e' [(-> & es' & Hi' & Hget)|(-> & Hoom & ->)]; [left|right].
    + split; [reflexivity|]. exists es'. split; [exact Hi'|]. intros n Hnn. now rewrite Hget, Htx.
    + split; [reflexivity|]. split; [exact Hoom|]. rewrite (proj2 (Z.eqb_neq _ _) E). destruct e as [a o ar st al].
      unfold put_strings. cbn. now rewrite delete_insert_id by exact (malloc_fresh _ E).
Qed.

Lemma setenv_spec e es name value overwrite : env_inv e es -> valid name = true ->
  swp (setenv malloc (Some name) value overwrite) (fun x e' =>
    if (overwrite =? 0) && bool_decide (is_Some (env_get (texts e es) name)) then x = 0 /\ e' = e
    else set_result e es name value x e') e.
Proof.
  intros Hi Hv. destruct (valid_no_eq _ Hv) as [Hn _]. unfold setenv.
  rewrite bad_name.
  rewrite Hv, (proj1 (name_len_all name) Hn). cbn [negb]. apply swp_bind.
  apply (swp_run _ _ _ (if overwrite =? 0 then env_get (texts e es) name else None) e).
  { destruct (overwrite =? 0); [|reflexivity]. rewrite (getenv_spec e es name Hi). now rewrite Hv. }
  destruct (overwrite =? 0); [|now apply setenv_alloc]. cbn [andb].
  destruct (env_get (texts e es) name) as [w|] eqn:Eg.
  - rewrite bool_decide_true by eauto. now swp_step.
  - rewrite bool_decide_false by (intros [? ?]; discriminate). now apply setenv_alloc.
Qed.

Lemma setenv_bad e var value overwrite :
  (forall name, var = Some name -> valid name = false) -> setenv malloc var value overwrite e = Done (-1) e.
Proof.
  intros Hb. destruct var as [name|]; [|reflexivity]. specialize (Hb name eq_refl). unfold setenv.
  rewrite bad_name.
  now rewrite Hb.
Qed.

(** A string of the caller: [name=value], or a name to remove. *)
Definition assignment (t : list Z) : option (list Z * list Z) :=
  let l := name_len t in
  if Nat.eqb l 0 || Nat.eqb l (length t) then None else Some (take l t, drop (l + 1) t).

Lemma name_len_le t : (name_len t <= length t)%nat.
Proof. induction t as [|c t IH]; cbn; [lia|]. destruct (_ =? _); lia. Qed.

Lemma assignment_Some t name value : assignment t = Some (name, value) ->
  t = name ++ ch "=" :: value /\ valid name = true /\ name_len t = length name.
Proof.
  unfold assignment. pose proof (name_len_le t). destruct (_ || _) eqn:E; [discriminate|].
  apply orb_false_iff in E as [E1%Nat.eqb_neq E2%Nat.eqb_neq]. intros [= <- <-].
  destruct (name_len_split t) as (v & Hv & Hn); [lia|].
  assert (L : length (take (name_len t) t) = name_len t) by (rewrite length_take; lia).
  assert (Hd : drop (name_len t + 1) t = v).
  { rewrite Hv at 2. rewrite <- drop_drop, drop_app_length' by (symmetry; exact L). reflexivity. }
  rewrite Hd. split; [exact Hv|]. split; [|now rewrite L]. unfold valid. apply name_len_all in Hn. rewrite Hn, L, Nat.eqb_refl.
  now rewrite (proj2 (Nat.eqb_neq _ _) E1).
Qed.

Lemma putenv_op_spec e es s t : env_inv e es -> U !! s = Some t -> s <> 0 ->
  swp (putenv malloc s) (fun x e' =>
    match assignment t with
    | Some (name, value) => set_result e es name value x e'
    | None => if valid t then x = 0 /\ exists es', means e es e' es' (fun n o => if decide (n = t) then None else o)
              else x = -1 /\ e' = e
    end) e.
Proof.
  intros Hi HU Hs0. unfold putenv. assert (Hs : strings e !! s = Some t) by (eapply lookup_weaken; [exact HU|apply Hi]).
  apply swp_bind. eapply swp_sopt; [exact Hs|].
  destruct (assignment t) as [[name value]|] eqn:Ea.
  - destruct (assignment_Some _ _ _ Ea) as (-> & Hv & Hl). unfold assignment in Ea.
    destruct (_ || _); [discriminate|]. rewrite Hl.
    eapply swp_mono; [apply (putenv_spec e es s 0 name value); [now apply valid_no_eq|exact Hi| |exact Hs]|].
    + split; [exact Hs0|]. split; [eauto|]. left. split; [reflexivity|]. intros Ho. apply (ei_own _ _ (proj2 Hi)) in Ho as [_ ?]. congruence.
    + intros x e' [(-> & es' & Hi' & Hget)|(-> & Hoom & ->)]; [left; split; [reflexivity|]; now exists es'|right; auto].
  - unfold assignment in Ea. destruct (_ || _); [|discriminate]. now apply unsetenv_spec.
Qed.
End env.

(** ** Programs that use the environment *)

Inductive env_op :=
| Getenv (name : list Z)
| Setenv (var : option (list Z)) (value : list Z) (overwrite : Z)
| Unsetenv (name : list Z)
| Putenv (s : Z).
Inductive answer :=
| Text (v : option (list Z))
| Code (x : Z).

Section run.
Context (malloc : env -> Z).
Definition env_step (op : env_op) : E answer :=
  match op with
  | Getenv name => v ← getenv name; mret (Text v)
  | Setenv var value overwrite => x ← setenv malloc var value overwrite; mret (Code x)
  | Unsetenv name => x ← unsetenv malloc name; mret (Code x)
  | Putenv s => x ← putenv malloc s; mret (Code x)
  end.
Fixpoint env_run (ops : list env_op) : E (list answer) :=
  match ops with
  | [] => mret []
  | op :: ops => a ← env_step op; r ← env_run ops; mret (a :: r)
  end.
End run.

(** What the functions mean on a map from names to values.  [oom] says whether
    memory may run out. *)
Section spec.
Context (U : gmap Z (list Z)) (oom : bool).
Abbreviation env_map := (gmap (list Z) (list Z)).

Inductive spec_step : env_map -> env_op -> answer -> env_map -> Prop :=
| spec_get m name : spec_step m (Getenv name) (Text (if valid name then m !! name else None)) m
| spec_set_bad m var value overwrite :
    (forall name, var = Some name -> valid name = false) -> spec_step m (Setenv var value overwrite) (Code (-1)) m
| spec_set_kept m name old value :
    valid name = true -> m !! name = Some old -> spec_step m (Setenv (Some name) value 0) (Code 0) m
| spec_set m name value overwrite :
    valid name = true -> overwrite <> 0 \/ m !! name = None ->
    spec_step m (Setenv (Some name) value overwrite) (Code 0) (<[name := value]> m)
| spec_set_oom m name value overwrite :
    oom = true -> valid name = true -> overwrite <> 0 \/ m !! name = None ->
    spec_step m (Setenv (Some name) value overwrite) (Code (-1)) m
| spec_unset_bad m name : valid name = false -> spec_step m (Unsetenv name) (Code (-1)) m
| spec_unset m name : valid name = true -> spec_step m (Unsetenv name) (Code 0) (delete name m)
| spec_put m s t name value :
    U !! s = Some t -> assignment t = Some (name, value) -> spec_step m (Putenv s) (Code 0) (<[name := value]> m)
| spec_put_oom m s t name value :
    oom = true -> U !! s = Some t -> assignment t = Some (name, value) -> spec_step m (Putenv s) (Code (-1)) m
| spec_put_bad m s t :
    U !! s = Some t -> assignment t = None -> valid t = false -> spec_step m (Putenv s) (Code (-1)) m
| spec_put_unset m s t :
    U !! s = Some t -> assignment t = None -> valid t = true -> spec_step m (Putenv s) (Code 0) (delete t m).

Inductive spec_run : env_map -> list env_op -> list answer -> env_map -> Prop :=
| spec_done m : spec_run m [] [] m
| spec_more m op a m1 ops r m2 : spec_step m op a m1 -> spec_run m1 ops r m2 -> spec_run m (op :: ops) (a :: r) m2.
End spec.

(** The environment [e] holds the map [m]. *)
Definition represents (U : gmap Z (list Z)) (e : env) (m : gmap (list Z) (list Z)) : Prop :=
  exists es, env_inv U e es /\ forall name, valid name = true -> env_get (texts e es) name = m !! name.

Section refine.
Context (malloc : env -> Z) (U : gmap Z (list Z)) (oom : bool).
Hypothesis malloc_fresh : forall e, malloc e <> 0 -> strings e !! malloc e = None.
Hypothesis malloc_oom : oom = false -> forall e, malloc e <> 0.
Hypothesis user_null : U !! 0 = None.

Lemma means_insert e es e' es' m name value :
  (forall name, valid name = true -> env_get (texts e es) name = m !! name) ->
  means U e es e' es' (fun n o => if decide (n = name) then Some value else o) -> represents U e' (<[name := value]> m).
Proof.
  intros Hm [Hi Hf]. exists es'. split; [exact Hi|]. intros n Hn. rewrite Hf by now apply valid_no_eq.
  case_decide; [subst; now rewrite lookup_insert_eq|]. rewrite lookup_insert_ne by auto. auto.
Qed.

Lemma means_delete e es e' es' m name :
  (forall name, valid name = true -> env_get (texts e es) name = m !! name) ->
  means U e es e' es' (fun n o => if decide (n = name) then None else o) -> represents U e' (delete name m).
Proof.
  intros Hm [Hi Hf]. exists es'. split; [exact Hi|]. intros n Hn. rewrite Hf by now apply valid_no_eq.
  case_decide; [subst; now rewrite lookup_delete_eq|]. rewrite lookup_delete_ne by auto. auto.
Qed.

Definition ops_ok (ops : list env_op) : Prop := Forall (fun op => match op with Putenv s => is_Some (U !! s) | _ => True end) ops.

Lemma oom_true : (exists e, malloc e = 0) -> oom = true.
Proof. intros [e He]. destruct oom; [reflexivity|]. now apply (malloc_oom eq_refl) in He. Qed.

Lemma set_refines e es m name value x e' op : represents U e m ->
  (forall name, valid name = true -> env_get (texts e es) name = m !! name) ->
  set_result malloc U e es name value x e' ->
  (spec_step U oom m op (Code 0) (<[name := value]> m)) -> (oom = true -> spec_step U oom m op (Code (-1)) m) ->
  exists m', spec_step U oom m op (Code x) m' /\ represents U e' m'.
Proof.
  intros Hr Hm [[-> (es' & Hme)]|(-> & Ho & ->)] H0 H1.
  - eexists. split; [exact H0|]. eapply means_insert; eauto.
  - exists m. split; [apply H1, oom_true, Ho|exact Hr].
Qed.

Lemma step_refines e m op : represents U e m -> ops_ok [op] ->
  swp (env_step malloc op) (fun a e' => exists m', spec_step U oom m op a m' /\ represents U e' m') e.
Proof.
  intros (es & Hi & Hm) Hop. assert (Hsame : represents U e m) by (exists es; auto).
  destruct op as [name|var value ow|name|s]; cbn [env_step]; apply swp_bind.
  - eapply swp_run; [apply (getenv_spec U _ _ _ Hi)|]. swp_step. exists m. split; [|exact Hsame].
    destruct (valid name) eqn:Hv.
    + rewrite Hm by exact Hv. pose proof (spec_get U oom m name) as K. now rewrite Hv in K.
    + pose proof (spec_get U oom m name) as K. now rewrite Hv in K.
  - destruct (match var with Some n => valid n | None => false end) eqn:Hv.
    + destruct var as [name|]; [|discriminate]. eapply swp_mono; [now apply (setenv_spec malloc U malloc_fresh e es)|].
      intros x e' Hr. swp_step. revert Hr. cbv beta. rewrite Hm by exact Hv. destruct (ow =? 0) eqn:E0; zbool; cbn [andb].
      * destruct (m !! name) as [old|] eqn:Eo.
        -- rewrite bool_decide_true by eauto. intros [-> ->]. subst ow. eauto using spec_set_kept.
        -- rewrite bool_decide_false by (intros [? ?]; discriminate). intros Hr.
           eapply set_refines; eauto using spec_set, spec_set_oom.
      * intros Hr. eapply set_refines; eauto using spec_set, spec_set_oom.
    + eapply swp_run; [apply setenv_bad; intros n ->; exact Hv|]. swp_step. exists m. split; [|exact Hsame].
      apply spec_set_bad. now intros n ->.
  - eapply swp_mono; [now apply (unsetenv_spec malloc U e es)|]. intros x e' Hr. swp_step. revert Hr. cbv beta. destruct (valid name) eqn:Hv.
    + intros [-> (es' & Hme)]. eexists. split; [now apply spec_unset|]. eapply means_delete; eauto.
    + intros [-> ->]. eauto using spec_unset_bad.
  - apply Forall_inv in Hop as [t Ht]. eapply swp_mono; [apply (putenv_op_spec malloc U e es s t Hi Ht); congruence|].
    intros x e' Hr. swp_step. revert Hr. cbv beta. destruct (assignment t) as [[name value]|] eqn:Ea.
    + intros Hr. eapply set_refines; eauto using spec_put, spec_put_oom.
    + destruct (valid t) eqn:Hv.
      * intros [-> (es' & Hme)]. eexists. split; [eapply spec_put_unset; eassumption|]. eapply means_delete; eauto.
      * intros [-> ->]. eauto using spec_put_bad.
Qed.

Lemma run_refines ops : forall e m, represents U e m -> ops_ok ops ->
  swp (env_run malloc ops) (fun rs e' => exists m', spec_run U oom m ops rs m' /\ represents U e' m') e.
Proof.
  induction ops as [|op ops IH]; intros e m Hr Hok; cbn [env_run].
  - swp_step. eauto using spec_done.
  - apply Forall_cons_iff in Hok as [Ho Hok]. apply swp_bind.
    eapply swp_mono; [apply (step_refines e m op Hr); repeat constructor; exact Ho|].
    intros a e1 (m1 & Hs & Hr1). apply swp_bind. eapply swp_mono; [apply (IH e1 m1 Hr1 Hok)|].
    intros rs e2 (m2 & Hs2 & Hr2). swp_step. eauto using spec_more.
Qed.
End refine.

(** ** The theorems *)

(** A malloc that never fails: an address above every string. *)
Definition demo_malloc (e : env) : Z := 1 + foldr Z.max 1000 ((map_to_list (strings e)).*1).
Definition demo_user : gmap Z (list Z) := {[ 10 := str "HOME=/"; 11 := str "TERM=vt" ]}.
Definition demo_env : env := Env 5 0 {[ 5 := [10] ]} demo_user [].
Definition demo_ops : list env_op :=
  [Setenv (Some (str "TERM")) (str "ansi") 1; Getenv (str "TERM"); Setenv (Some (str "TERM")) (str "dumb") 0;
   Getenv (str "TERM"); Putenv 11; Getenv (str "TERM"); Unsetenv (str "TERM"); Getenv (str "TERM"); Getenv (str "HOME")].

Lemma foldr_max_ge l d x : In x (d :: l) -> x <= foldr Z.max d l.
Proof.
  induction l as [|y l IH]; cbn [In foldr]; [intros [->|[]]; lia|].
  intros [->|[->|H]]; [specialize (IH (or_introl eq_refl)); lia|lia|specialize (IH (or_intror H)); lia].
Qed.

Lemma demo_malloc_pos e : demo_malloc e <> 0.
Proof. unfold demo_malloc. pose proof (foldr_max_ge ((map_to_list (strings e)).*1) 1000 1000 (or_introl eq_refl)). lia. Qed.

Lemma demo_malloc_fresh e : demo_malloc e <> 0 -> strings e !! demo_malloc e = None.
Proof.
  intros _. destruct (strings e !! demo_malloc e) as [t|] eqn:E; [|reflexivity]. exfalso.
  apply elem_of_map_to_list in E. apply (list_elem_of_fmap_2 fst) in E. cbn in E.
  pose proof (foldr_max_ge ((map_to_list (strings e)).*1) 1000 (demo_malloc e)) as K.
  rewrite <- list_elem_of_In in K. specialize (K (list_elem_of_further _ _ _ E)). unfold demo_malloc in K at 1. lia.
Qed.

Lemma demo_represents : represents demo_user demo_env {[ str "HOME" := str "/" ]}.
Proof.
  exists [10]. split; [split; [reflexivity|constructor]|].
  - repeat constructor; [discriminate|]. now exists (str "HOME=/").
  - apply NoDup_nil_2.
  - intros p Hp. now apply not_elem_of_nil in Hp.
  - reflexivity.
  - intros name Hv. destruct (valid_no_eq _ Hv) as [Hn _]. change (texts demo_env [10]) with [str "HOME" ++ ch "=" :: str "/"].
    cbn [env_get]. destruct (decide (name = str "HOME")) as [->|Hne].
    + rewrite lookup_singleton_eq, entry_text. reflexivity.
    + rewrite lookup_singleton_ne by auto. rewrite entry_other; [reflexivity|exact Hn| |exact Hne]. now apply valid_no_eq.
Qed.

(** C16: The environment functions refine a finite map from names to values.  From
    any environment that represents a map (also one with duplicate names, as the
    kernel may pass), any sequence of getenv, setenv, unsetenv and putenv runs
    without touching a freed or foreign string, its answers are those of the map
    operations, and the final environment represents the resulting map.  A failed
    operation changes nothing, and only running out of memory makes one with a good
    name fail. *)
Theorem environment_refines_map malloc U oom ops e m :
  (forall e, malloc e <> 0 -> strings e !! malloc e = None) ->
  (oom = false -> forall e, malloc e <> 0) -> U !! 0 = None ->
  represents U e m -> ops_ok U ops ->
  exists answers e' m', env_run malloc ops e = Done answers e' /\
    spec_run U oom m ops answers m' /\ represents U e' m'.
Proof.
  intros H1 H2 H3 H4 H5. destruct (proj1 (swp_ok _ _ _) (run_refines malloc U oom H1 H2 H3 ops e m H4 H5))
    as (rs & e' & E & m' & K1 & K2). now exists rs, e', m'.
Qed.

Lemma environment_refines_map_witness :
  (exists answers e' m', env_run demo_malloc demo_ops demo_env = Done answers e' /\
    spec_run demo_user false {[ str "HOME" := str "/" ]} demo_ops answers m' /\ represents demo_user e' m') /\
  (match env_run demo_malloc demo_ops demo_env with Done answers _ => answers | _ => [] end) =
    [Code 0; Text (Some (str "ansi")); Code 0; Text (Some (str "ansi")); Code 0; Text (Some (str "vt"));
     Code 0; Text None; Text (Some (str "/"))].
Proof.
  split; [|vm_compute; reflexivity].
  apply (environment_refines_map demo_malloc demo_user false demo_ops demo_env).
  - exact demo_malloc_fresh.
  - intros _. exact demo_malloc_pos.
  - reflexivity.
  - exact demo_represents.
  - repeat constructor. now exists (str "TERM=vt").
Defined.

(** What setenv and unsetenv do in every error case: a null, empty or
    '='-containing name is refused with -1 before anything is allocated, and
    when setenv reports -1 because memory ran out (for the string or for the
    array), the environment is exactly what it was: the string is freed again. *)
Lemma setenv_errors malloc U e m var value overwrite :
  (forall e, malloc e <> 0 -> strings e !! malloc e = None) -> represents U e m ->
  exists x e', setenv malloc var value overwrite e = Done x e' /\ (x = 0 \/ x = -1 /\ e' = e) /\
    ((forall name, var = Some name -> valid name = false) -> x = -1) /\
    (x = -1 -> (forall name, var = Some name -> valid name = false) \/ exists e0, malloc e0 = 0) /\
    (forall name, valid name = false -> unsetenv malloc name e = Done (-1) e).
Proof.
  intros Hf (es & Hi & Hm).
  assert (Hu : forall name, valid name = false -> unsetenv malloc name e = Done (-1) e).
  { intros name Hv. apply swp_eq. eapply swp_mono; [now apply (unsetenv_spec malloc U e es)|]. cbv beta. now rewrite Hv. }
  destruct (match var with Some n => valid n | None => false end) eqn:Hv.
  - destruct var as [name|]; [|discriminate].
    destruct (proj1 (swp_ok _ _ _) (setenv_spec malloc U Hf e es name value overwrite Hi Hv)) as (x & e' & E & Hr).
    exists x, e'. split; [exact E|]. split; [|split; [|split; [|exact Hu]]].
    + destruct (_ && _); [tauto|]. destruct Hr as [[? _]|(? & _ & ?)]; auto.
    + intros Hb. now rewrite (Hb name eq_refl) in Hv.
    + intros ->. right. destruct (_ && _); [now destruct Hr|]. destruct Hr as [[? _]|(_ & ? & _)]; [discriminate|assumption].
  - assert (Hb : forall name, var = Some name -> valid name = false) by now intros n ->.
    exists (-1), e. split; [now apply setenv_bad|]. split; [auto|]. split; [auto|]. split; [auto|exact Hu].
Qed.

(** Memory that runs out after one string. *)
Definition tight_malloc (e : env) : Z := if decide (strings e = demo_user) then 100 else 0.
Lemma setenv_errors_witness :
  (exists x e', setenv tight_malloc (Some (str "A")) (str "b") 1 demo_env = Done x e' /\ (x = 0 \/ x = -1 /\ e' = demo_env) /\
    ((forall name, Some (str "A") = Some name -> valid name = false) -> x = -1) /\
    (x = -1 -> (forall name, Some (str "A") = Some name -> valid name = false) \/ exists e0, tight_malloc e0 = 0) /\
    (forall name, valid name = false -> unsetenv tight_malloc name demo_env = Done (-1) demo_env)) /\
  setenv tight_malloc (Some (str "A")) (str "b") 1 demo_env = Done (-1) demo_env.
Proof.
  split; [|vm_compute; reflexivity].
  apply (setenv_errors tight_malloc demo_user demo_env {[ str "HOME" := str "/" ]}).
  - intros e He. unfold tight_malloc in *. destruct (decide _) as [->|]; [reflexivity|contradiction].
  - exact demo_represents.
Defined.
