(* ===== verification/Exit.v ===== *)
(** * libc/src/atexit.c and libc/src/exit.c: exit handlers

    Handlers live in a chain of tables of [COUNT] slots: the static [builtin]
    and, when it is full, tables from calloc.  Running them at exit is a loop over
    a stack that the handlers themselves may push onto. *)

From S2P Require Import Prelude CMem State.

Definition COUNT : Z := 32.

(** [struct fl]: the next table, the functions and their arguments. *)
Record fl := Fl { next : Z; f : list Z; a : list Z }.
(** The address of the static table. *)
Definition builtin : Z := 64.

(** What the program does at exit, in order. *)
Abbreviation call_t := (Z * Z)%type.
Inductive event :=
| Called (c : call_t)
| Destructor (f : Z)
| Exited (status : Z).

Record exits := Exits { lists : gmap Z fl; head : Z; slot : Z; events : list event }.
Abbreviation X := (SM exits).
Definition put_lists g e := Exits (g (lists e)) (head e) (slot e) (events e).
Definition put_head h e := Exits (lists e) h (slot e) (events e).
Definition put_slot s e := Exits (lists e) (head e) s (events e).
Definition emit v e := Exits (lists e) (head e) (slot e) (events e ++ [v]).

Definition zero_fl : fl := Fl 0 (replicate (Z.to_nat COUNT) 0) (replicate (Z.to_nat COUNT) 0).
Definition exits0 : exits := Exits {[ builtin := zero_fl ]} 0 0 [].

(** The table a pointer leads to. *)
Definition get_fl (p : Z) : X fl := sopt (fun e => lists e !! p).
(** [array[i]], a fault outside the array. *)
Definition nth_slot (l : list Z) (i : Z) : X Z := sopt (fun _ => if i <? 0 then None else l !! Z.to_nat i).

Section calloc.
(** The address of a new zeroed table, or null. *)
Context (calloc : exits -> Z).

(** [if (slot == COUNT)]: a new table in front, or false without memory. *)
Definition grow : X bool :=
  s ← gets slot;
  if s =? COUNT then
    new_fl ← gets calloc;
    if new_fl =? 0 then mret false else
    h ← gets head;
    modify (put_lists <[new_fl := Fl h (f zero_fl) (a zero_fl)]>);;
    modify (put_head new_fl);;
    modify (put_slot 0);;
    mret true
  else mret true.

Definition __cxa_atexit (func arg : Z) : X Z :=
  h ← gets head;
  (if h =? 0 then modify (put_head builtin) else mret tt);;
  room ← grow;
  if negb (room : bool) then mret (-1) else
  h ← gets head;
  s ← gets slot;
  t ← get_fl h;
  nth_slot (f t) s;;
  modify (put_lists <[h := Fl (next t) (<[Z.to_nat s := func]> (f t)) (<[Z.to_nat s := arg]> (a t))]>);;
  modify (put_slot (s + 1));;
  mret 0.

(** The function [call] that runs a handler without argument, by its address. *)
Definition call : Z := 128.
Definition atexit (func : Z) : X Z := __cxa_atexit call func.

(** The registrations a handler makes while it runs. *)
Context (act : call_t -> list call_t).

Fixpoint register (cs : list call_t) : X (list Z) :=
  match cs with
  | [] => mret []
  | (func, arg) :: cs => x ← __cxa_atexit func arg; r ← register cs; mret (x :: r)
  end.

(** [func(arg)]. *)
Definition run_handler (c : call_t) : X unit := modify (emit (Called c));; register (act c);; mret tt.

(** [for (; head; head = head->next, slot = COUNT) while (slot-- > 0) ...]: one
    round is one test of the inner loop. *)
Definition run_round : X (ctl unit unit) :=
  h ← gets head;
  if h =? 0 then mret (Break tt) else
  s ← gets slot;
  modify (put_slot (s - 1));;
  t ← get_fl h;
  if 0 <? s then
    func ← nth_slot (f t) (s - 1);
    arg ← nth_slot (a t) (s - 1);
    run_handler (func, arg);;
    mret (Next tt)
  else
    modify (put_head (next t));;
    modify (put_slot COUNT);;
    mret (Next tt).

(** The functions between [__fini_array_start] and [__fini_array_end]. *)
Context (fini_array : list Z).
Definition call_global_destructors : X unit := modify (fun e => foldl (fun e g => emit (Destructor g) e) e fini_array).

Definition __funcs_on_exit (fuel : nat) : X unit :=
  sloop fuel (fun _ => run_round) tt;;
  call_global_destructors.

Definition exit_ (fuel : nat) (status : Z) : X unit :=
  __funcs_on_exit fuel;;
  modify (emit (Exited status)).
End calloc.

(** ** The handlers as a stack *)

(** What an exit with the stack of handlers does: the last one registered runs
    first, and what it registers runs before the others. *)
Inductive unwinds (act : call_t -> list call_t) : list call_t -> list call_t -> Prop :=
| unwinds_nil : unwinds act [] []
| unwinds_call c st tr : unwinds act (rev (act c) ++ st) tr -> unwinds act (c :: st) (c :: tr).

Definition pairs (t : fl) : list call_t := zip (f t) (a t).

(** The tables from [h] on. *)
Fixpoint chain (m : gmap Z fl) (h : Z) (ts : list (Z * fl)) : Prop :=
  match ts with
  | [] => h = 0
  | (p, t) :: ts => h = p /\ p <> 0 /\ m !! p = Some t /\ length (f t) = Z.to_nat COUNT /\
                    length (a t) = Z.to_nat COUNT /\ chain m (next t) ts
  end.

Definition stack_of (s : Z) (ts : list (Z * fl)) : list call_t :=
  match ts with
  | [] => []
  | (_, t) :: ts => rev (take (Z.to_nat s) (pairs t)) ++ concat ((fun x => rev (pairs x.2)) <$> ts)
  end.

(** [head] leads to the tables, the first filled up to [slot]. *)
Definition holds_stack (e : exits) (st : list call_t) : Prop :=
  exists ts, ts <> [] /\ chain (lists e) (head e) ts /\ NoDup ts.*1 /\ 0 <= slot e <= COUNT /\ st = stack_of (slot e) ts.
(** Before the first registration and after. *)
Definition exit_inv (e : exits) (st : list call_t) : Prop :=
  head e = 0 /\ slot e = 0 /\ lists e !! builtin = Some zero_fl /\ st = [] \/ holds_stack e st.

Section props.
Context (calloc : exits -> Z).
Hypothesis calloc_fresh : forall e, calloc e <> 0 -> lists e !! calloc e = None.

Lemma chain_lookup m h ts p t : chain m h ts -> (p, t) ∈ ts -> m !! p = Some t.
Proof.
  revert h. induction ts as [|[q u] ts IH]; intros h Hc Hin; [now apply not_elem_of_nil in Hin|].
  destruct Hc as (_ & _ & Hq & _ & _ & Hc). apply elem_of_cons in Hin as [[= -> ->]|Hin]; [exact Hq|eauto].
Qed.

Lemma chain_frame m m' h ts : (forall p, p ∈ ts.*1 -> m' !! p = m !! p) -> chain m h ts -> chain m' h ts.
Proof.
  revert h. induction ts as [|[q u] ts IH]; intros h Hk Hc; [exact Hc|].
  destruct Hc as (-> & H0 & Hq & H1 & H2 & Hc). cbn [chain]. rewrite Hk by (left). repeat split; auto.
  apply IH; [|exact Hc]. intros p Hp. apply Hk. now right.
Qed.

Lemma stack_head e st : holds_stack e st -> head e <> 0.
Proof. intros ([|[p t] ts] & Hne & Hc & _); [contradiction|]. destruct Hc as (-> & ? & _). assumption. Qed.

Lemma length_pairs t : length (f t) = length (a t) -> length (pairs t) = length (f t).
Proof. intros H. unfold pairs. rewrite length_zip_with. lia. Qed.

(** A push into the first table. *)
Lemma take_insert_pairs t (s : nat) func arg :
  (s < length (f t))%nat -> length (f t) = length (a t) ->
  take (S s) (pairs (Fl (next t) (<[s := func]> (f t)) (<[s := arg]> (a t)))) = take s (pairs t) ++ [(func, arg)].
Proof.
  intros Hs Hl. unfold pairs. cbn [f a]. rewrite <- insert_zip_with.
  rewrite (take_S_r _ _ (func, arg)).
  - f_equal. now rewrite take_insert_ge by lia.
  - rewrite list_lookup_insert_eq; [reflexivity|]. rewrite length_zip_with. lia.
Qed.

(** Room in the first table: it stays, or a new one is put in front. *)
Lemma grow_spec e st : holds_stack e st ->
  swp (grow calloc) (fun room e' =>
    if room : bool then holds_stack e' st /\ slot e' < COUNT /\ events e' = events e
    else e' = e /\ slot e = COUNT /\ calloc e = 0) e.
Proof.
  intros (ts & Hne & Hc & Hnd & Hs & ->). unfold grow. repeat swp_step; [auto| |].
  - assert (Hfresh : calloc e ∉ ts.*1).
    { intros Hin. apply list_elem_of_fmap in Hin as ([q u] & Eq & Hin). cbn in Eq. subst q.
      pose proof (chain_lookup _ _ _ _ _ Hc Hin) as E1. rewrite calloc_fresh in E1 by exact E0. discriminate. }
    cbn. split; [|split; [reflexivity|reflexivity]].
    exists ((calloc e, Fl (head e) (f zero_fl) (a zero_fl)) :: ts). split; [discriminate|]. split; [|split; [|split; [cbn; unfold COUNT; lia|]]].
    + cbn [chain]. repeat split; [exact E0|apply lookup_insert_eq|].
      eapply chain_frame; [|exact Hc]. intros p Hp. apply lookup_insert_ne. intros <-. contradiction.
    + cbn [fmap list_fmap]. now constructor.
    + destruct ts as [|[q u] ts]; [contradiction|]. cbn [stack_of fmap list_fmap concat rev take Z.to_nat app]. rewrite E.
      destruct Hc as (_ & _ & _ & L1 & L2 & _). rewrite take_ge; [reflexivity|]. rewrite length_pairs; lia.
  - split; [|split; [lia|reflexivity]]. exists ts. auto.
Qed.

(** __cxa_atexit pushes, or reports that there is no memory for a table. *)
Definition pushed (e : exits) (st : list call_t) (c : call_t) (x : Z) (e' : exits) : Prop :=
  events e' = events e /\
  (x = 0 /\ holds_stack e' (c :: st) /\ 0 < slot e' \/ x = -1 /\ exit_inv e' st /\ slot e = COUNT /\ exists e0, calloc e0 = 0).

Lemma table_push_spec e st func arg : holds_stack e st -> slot e < COUNT ->
  swp (h ← gets head; s ← gets slot; t ← get_fl h; nth_slot (f t) s;;
       modify (put_lists <[h := Fl (next t) (<[Z.to_nat s := func]> (f t)) (<[Z.to_nat s := arg]> (a t))]>);;
       modify (put_slot (s + 1));; mret 0)
    (fun x e' => x = 0 /\ holds_stack e' ((func, arg) :: st) /\ 0 < slot e' /\ events e' = events e) e.
Proof.
  intros (ts & Hne & Hc & Hnd & Hs & ->) Hlt. destruct ts as [|[h t] ts]; [contradiction|].
  destruct Hc as (Hh & H0 & Ht & L1 & L2 & Hc). rewrite <- Hh in *. clear h Hh.
  repeat swp_step. eapply swp_sopt; [exact Ht|]. swp_step.
  destruct (f t !! Z.to_nat (slot e)) as [y|] eqn:Ey; [|apply lookup_ge_None in Ey; lia].
  eapply swp_sopt; [cbn; rewrite (proj2 (Z.ltb_ge _ _)) by lia; exact Ey|]. repeat swp_step.
  split; [reflexivity|]. split; [|cbn; split; [lia|reflexivity]].
  set (t' := Fl (next t) (<[Z.to_nat (slot e) := func]> (f t)) (<[Z.to_nat (slot e) := arg]> (a t))).
  exists ((head e, t') :: ts). split; [discriminate|]. cbn [put_slot put_lists lists head slot]. split; [|split; [exact Hnd|split; [lia|]]].
  - cbn [chain]. inversion Hnd as [|? ? Hnin _]; subst. repeat split; auto.
    + apply lookup_insert_eq.
    + cbn. now rewrite length_insert.
    + cbn. now rewrite length_insert.
    + eapply chain_frame; [|exact Hc]. intros p Hp. apply lookup_insert_ne. intros <-. contradiction.
  - cbn [stack_of]. replace (Z.to_nat (slot e + 1)) with (S (Z.to_nat (slot e))) by lia.
    unfold t'. rewrite take_insert_pairs by lia. now rewrite rev_app_distr.
Qed.

Lemma atexit_spec e st func arg : exit_inv e st ->
  swp (__cxa_atexit calloc func arg) (pushed e st (func, arg)) e.
Proof.
  intros He.
  assert (Hstart : forall e1, holds_stack e1 st -> slot e1 = slot e -> events e1 = events e ->
    swp (room ← grow calloc; if negb (room : bool) then mret (-1) else
         h ← gets head; s ← gets slot; t ← get_fl h; nth_slot (f t) s;;
         modify (put_lists <[h := Fl (next t) (<[Z.to_nat s := func]> (f t)) (<[Z.to_nat s := arg]> (a t))]>);;
         modify (put_slot (s + 1));; mret 0) (pushed e st (func, arg)) e1).
  { intros e1 H1 Es Ev. apply swp_bind. eapply swp_mono; [apply grow_spec, H1|]. intros [|] e2; cbn [negb].
    - intros (H2 & Hlt & Ev2). eapply swp_mono; [now apply (table_push_spec e2 st)|]. intros x e3 (-> & H3 & Hp & Ev3).
      split; [congruence|]. left. auto.
    - intros (-> & Hs & Hm). swp_step. split; [exact Ev|]. right. split; [reflexivity|]. split; [now right|]. split; [congruence|eauto]. }
  unfold __cxa_atexit. apply swp_bind, swp_gets. destruct He as [(E1 & E2 & E3 & ->)|He].
  - rewrite E1. cbn [Z.eqb]. apply swp_bind, swp_modify, Hstart; [|reflexivity..].
    exists [(builtin, zero_fl)]. split; [discriminate|]. cbn [put_head head lists slot]. rewrite E2.
    split; [cbn [chain]; now rewrite E3|]. split; [apply NoDup_singleton|]. split; [unfold COUNT; lia|reflexivity].
  - rewrite (proj2 (Z.eqb_neq _ _)) by now apply (stack_head e st). apply swp_bind, swp_ret. now apply Hstart.
Qed.

Hypothesis calloc_works : forall e, calloc e <> 0.
Context (act : call_t -> list call_t).

Lemma register_spec cs : forall e st, exit_inv e st ->
  swp (register calloc cs) (fun rs e' => rs = replicate (length cs) 0 /\ exit_inv e' (rev cs ++ st) /\
    (holds_stack e st -> holds_stack e' (rev cs ++ st)) /\ events e' = events e) e.
Proof.
  induction cs as [|[func arg] cs IH]; intros e st He; cbn [register].
  - swp_step. auto.
  - apply swp_bind. eapply swp_mono; [apply (atexit_spec _ _ _ _ He)|].
    intros x e1 (Ev & [(-> & H1 & _)|(_ & _ & _ & e0 & Hm)]); [|now apply calloc_works in Hm].
    apply swp_bind. eapply swp_mono; [apply (IH e1 ((func, arg) :: st)); now right|].
    intros rs e2 (-> & K1 & K2 & Ev2). swp_step. cbn [rev]. rewrite <- app_assoc. cbn [app length replicate].
    split; [reflexivity|]. split; [exact K1|]. split; [auto|congruence].
Qed.

(** The rounds of the exit loop. *)
Definition next_round (e : exits) : outcome exits (ctl unit unit) := run_round calloc act e.

Lemma round_call e c st : holds_stack e (c :: st) -> 0 < slot e ->
  exists e', next_round e = Done (Next tt) e' /\ holds_stack e' (rev (act c) ++ st) /\ events e' = events e ++ [Called c].
Proof.
  intros (ts & Hne & Hc & Hnd & Hs & Hst) Hpos. destruct ts as [|[h t] ts]; [contradiction|].
  pose proof Hc as (Hh & H0 & Ht & L1 & L2 & _).
  destruct (pairs t !! Z.to_nat (slot e - 1)) as [[func arg]|] eqn:Ep.
  2: { apply lookup_ge_None in Ep. rewrite length_pairs in Ep; lia. }
  assert (Hsplit : c = (func, arg) /\ st = stack_of (slot e - 1) ((h, t) :: ts)).
  { cbn [stack_of] in Hst. replace (Z.to_nat (slot e)) with (S (Z.to_nat (slot e - 1))) in Hst by lia.
    rewrite (take_S_r _ _ _ Ep), rev_app_distr in Hst. cbn [rev app] in Hst. now injection Hst. }
  destruct Hsplit as [-> ->]. apply lookup_zip_Some in Ep as [Ef Ea].
  enough (H : swp (run_round calloc act) (fun x e' => x = Next tt /\ holds_stack e' (rev (act (func, arg)) ++ stack_of (slot e - 1) ((h, t) :: ts)) /\
    events e' = events e ++ [Called (func, arg)]) e).
  { apply swp_ok in H as (x & e' & E & -> & ? & ?). exists e'. auto. }
  unfold run_round. apply swp_bind, swp_gets. rewrite (proj2 (Z.eqb_neq (head e) 0)) by congruence.
  apply swp_bind, swp_gets, swp_bind, swp_modify, swp_bind. rewrite Hh in *.
  eapply swp_sopt; [exact Ht|]. rewrite (proj2 (Z.ltb_lt 0 (slot e))) by exact Hpos. apply swp_bind.
  eapply swp_sopt; [rewrite (proj2 (Z.ltb_ge _ _)) by lia; exact Ef|]. apply swp_bind.
  eapply swp_sopt; [rewrite (proj2 (Z.ltb_ge _ _)) by lia; exact Ea|]. apply swp_bind. unfold run_handler.
  apply swp_bind, swp_modify, swp_bind.
  assert (H1 : holds_stack (emit (Called (func, arg)) (put_slot (slot e - 1) e)) (stack_of (slot e - 1) ((h, t) :: ts))).
  { exists ((h, t) :: ts). cbn [emit put_slot lists head slot]. rewrite Hh. split; [discriminate|]. split; [exact Hc|]. split; [exact Hnd|]. split; [lia|reflexivity]. }
  eapply swp_mono; [apply register_spec; right; exact H1|].
  intros rs e' (_ & _ & K & Ev). repeat swp_step. split; [reflexivity|]. split; [now apply K|exact Ev].
Qed.

Lemma round_pop e st : holds_stack e st -> slot e = 0 ->
  exists e', next_round e = Done (Next tt) e' /\ events e' = events e /\ slot e' = COUNT /\
    (st = [] /\ head e' = 0 \/ st <> [] /\ holds_stack e' st).
Proof.
  intros (ts & Hne & Hc & Hnd & Hs & Hst) Hz. destruct ts as [|[h t] ts]; [contradiction|].
  destruct Hc as (Hh & H0 & Ht & L1 & L2 & Hc).
  exists (put_slot COUNT (put_head (next t) (put_slot (-1) e))). split; [|split; [reflexivity|split; [reflexivity|]]].
  - unfold next_round, run_round. apply swp_eq. apply swp_bind, swp_gets. rewrite (proj2 (Z.eqb_neq (head e) 0)) by congruence.
    apply swp_bind, swp_gets, swp_bind, swp_modify, swp_bind. eapply swp_sopt; [rewrite Hh; exact Ht|].
    rewrite Hz. cbn [Z.ltb Z.compare]. repeat swp_step. auto.
  - rewrite Hz in Hst. cbn [stack_of] in Hst. change (take (Z.to_nat 0) (pairs t)) with (@nil call_t) in Hst. cbn [rev app] in Hst. destruct ts as [|[h2 t2] ts].
    + left. split; [exact Hst|]. exact Hc.
    + right. destruct Hc as (Hh2 & H2 & Ht2 & M1 & M2 & Hc2).
      assert (Es : st = stack_of COUNT ((h2, t2) :: ts)).
      { rewrite Hst. cbn [stack_of fmap list_fmap concat]. rewrite take_ge; [reflexivity|]. rewrite length_pairs; lia. }
      split.
      * rewrite Hst. cbn [fmap list_fmap concat]. intros [E _]%app_eq_nil. apply (f_equal length) in E.
        cbn [snd] in E. rewrite length_rev, length_pairs, M1 in E by lia. discriminate.
      * exists ((h2, t2) :: ts). cbn [put_slot put_head lists head slot]. split; [discriminate|].
        split; [cbn [chain]; auto 10|]. inversion Hnd; subst. split; [assumption|]. split; [unfold COUNT; lia|exact Es].
Qed.

Lemma stack_empty e : holds_stack e [] -> slot e = 0.
Proof.
  intros (ts & Hne & Hc & _ & Hs & Hst). destruct ts as [|[h t] ts]; [contradiction|].
  destruct Hc as (_ & _ & _ & L1 & L2 & _). cbn [stack_of] in Hst. symmetry in Hst. apply app_eq_nil in Hst as [E _].
  apply (f_equal length) in E. rewrite length_rev, length_take, length_pairs in E by lia. cbn in E. unfold COUNT in *. lia.
Qed.

Lemma sloop_next (e e' : exits) fuel Q :
  next_round e = Done (Next tt) e' ->
  swp (sloop fuel (fun _ => run_round calloc act) tt) Q e' -> swp (sloop (S fuel) (fun _ => run_round calloc act) tt) Q e.
Proof. intros E H. cbn [sloop]. apply swp_bind. eapply swp_run; [exact E|]. exact H. Qed.

Lemma exit_loop st tr : unwinds act st tr -> forall e, holds_stack e st ->
  exists n, forall fuel, (n <= fuel)%nat ->
    swp (sloop fuel (fun _ => run_round calloc act) tt) (fun _ e' => events e' = events e ++ (Called <$> tr)) e.
Proof.
  induction 1 as [|c st tr _ IH]; intros e He.
  - destruct (round_pop e [] He (stack_empty e He)) as (e1 & E1 & Ev & _ & [[_ Hh]|[? _]]); [|contradiction].
    exists 2%nat. intros [|[|fuel]] Hf; [lia|lia|]. eapply sloop_next; [exact E1|].
    cbn [sloop]. apply swp_bind. unfold run_round. apply swp_bind, swp_gets. rewrite Hh. cbn [Z.eqb].
    repeat swp_step. now rewrite app_nil_r.
  - assert (Hgo : forall e1, holds_stack e1 (c :: st) -> 0 < slot e1 -> events e1 = events e ->
      exists n, forall fuel, (n <= fuel)%nat ->
        swp (sloop fuel (fun _ => run_round calloc act) tt) (fun _ e' => events e' = events e ++ (Called <$> c :: tr)) e1).
    { intros e1 H1 Hp Ev. destruct (round_call e1 c st H1 Hp) as (e2 & E2 & H2 & Ev2).
      destruct (IH e2 H2) as [n Hn]. exists (S n). intros [|fuel] Hf; [lia|]. eapply sloop_next; [exact E2|].
      eapply swp_mono; [apply Hn; lia|]. intros _ e' ->. rewrite Ev2, Ev, <- app_assoc. reflexivity. }
    destruct (decide (0 < slot e)) as [Hp|Hp]; [now apply Hgo|].
    assert (Hz : slot e = 0) by (destruct He as (? & _ & _ & _ & ? & _); lia).
    destruct (round_pop e _ He Hz) as (e1 & E1 & Ev & Hs1 & [[? _]|[_ H1]]); [discriminate|].
    destruct (Hgo e1 H1) as [n Hn]; [rewrite Hs1; unfold COUNT; lia|exact Ev|].
    exists (S n). intros [|fuel] Hf; [lia|]. eapply sloop_next; [exact E1|]. apply Hn. lia.
Qed.
End props.

(** ** The theorems *)

Lemma exit_runs_spec calloc act fini st tr status e :
  (forall e, calloc e <> 0 -> lists e !! calloc e = None) -> (forall e, calloc e <> 0) ->
  unwinds act st tr -> exit_inv e st ->
  exists n, forall fuel, (n <= fuel)%nat ->
    swp (exit_ calloc act fini fuel status)
      (fun _ e' => events e' = events e ++ (Called <$> tr) ++ (Destructor <$> fini) ++ [Exited status]) e.
Proof.
  intros H1 H2 Hu He.
  assert (Hloop : exists n, forall fuel, (n <= fuel)%nat ->
    swp (sloop fuel (fun _ => run_round calloc act) tt) (fun _ e' => events e' = events e ++ (Called <$> tr)) e).
  { destruct He as [(Hh & _ & _ & ->)|He]; [|now apply (exit_loop calloc H1 H2 act st)].
    inversion Hu; subst. exists 1%nat. intros [|fuel] Hf; [lia|]. cbn [sloop]. apply swp_bind. unfold run_round.
    apply swp_bind, swp_gets. rewrite Hh. cbn [Z.eqb]. repeat swp_step. now rewrite app_nil_r. }
  destruct Hloop as [n Hn]. exists n. intros fuel Hf. unfold exit_, __funcs_on_exit.
  do 2 apply swp_bind. eapply swp_mono; [apply Hn, Hf|]. intros [] e' Ev. unfold call_global_destructors. repeat swp_step.
  assert (Hd : forall l x, events (foldl (fun e g => emit (Destructor g) e) x l) = events x ++ (Destructor <$> l)).
  { induction l as [|g l IH]; intros x; cbn [foldl fmap list_fmap]; [now rewrite app_nil_r|]. rewrite IH. cbn. now rewrite <- app_assoc. }
  cbn [emit events]. now rewrite Hd, Ev, <- !app_assoc.
Qed.

Lemma exits0_inv : exit_inv exits0 [].
Proof. left. repeat split. Qed.

Lemma slot_full e st : exit_inv e st -> slot e = COUNT -> (32 <= length st)%nat.
Proof.
  intros [(_ & Hs & _)|(ts & Hne & Hc & _ & _ & ->)] E; [unfold COUNT in *; lia|].
  destruct ts as [|[h t] ts]; [contradiction|]. destruct Hc as (_ & _ & _ & L1 & L2 & _).
  cbn [stack_of]. rewrite E, length_app, length_rev, length_take, length_pairs by lia. rewrite L1. change (Z.to_nat COUNT) with 32%nat. lia.
Qed.

(** A calloc that always finds a new address. *)
Definition demo_calloc (e : exits) : Z := 1 + foldr Z.max 1000 ((map_to_list (lists e)).*1).
Lemma demo_calloc_ge e p t : lists e !! p = Some t -> p < demo_calloc e.
Proof.
  intros H%elem_of_map_to_list. apply (list_elem_of_fmap_2 fst) in H. unfold demo_calloc. cbn in H.
  induction ((map_to_list (lists e)).*1) as [|q l IH]; [now apply not_elem_of_nil in H|].
  cbn [foldr]. apply elem_of_cons in H as [->|H]; [lia|]. specialize (IH H). lia.
Qed.
Lemma demo_calloc_fresh e : demo_calloc e <> 0 -> lists e !! demo_calloc e = None.
Proof. intros _. destruct (lists e !! demo_calloc e) eqn:E; [|reflexivity]. apply demo_calloc_ge in E. lia. Qed.
Lemma demo_calloc_works e : demo_calloc e <> 0.
Proof. unfold demo_calloc. assert (forall l, 1000 <= foldr Z.max 1000 l) by (induction l; cbn [foldr]; lia). specialize (H (map_to_list (lists e)).*1). lia. Qed.

(** C20: The table of exit handlers stays well formed: a chain of distinct tables
    of 32 slots in which all but the first are full.  From every state that
    satisfies this, __cxa_atexit stays inside the tables and either pushes the
    handler and returns 0, or returns -1 with the handlers as they were, which
    needs a calloc that fails and 32 handlers registered before: as the comment
    promises, 32 handlers can be registered without memory. *)
Theorem atexit_invariant calloc e st func arg :
  (forall e, calloc e <> 0 -> lists e !! calloc e = None) -> exit_inv e st ->
  exists x e', __cxa_atexit calloc func arg e = Done x e' /\
    (x = 0 /\ exit_inv e' ((func, arg) :: st) \/
     x = -1 /\ exit_inv e' st /\ (32 <= length st)%nat /\ exists e0, calloc e0 = 0).
Proof.
  intros Hf He. destruct (proj1 (swp_ok _ _ _) (atexit_spec calloc Hf e st func arg He)) as (x & e' & E & _ & Hp).
  exists x, e'. split; [exact E|]. destruct Hp as [(-> & H1 & _)|(-> & H1 & Hs & Hm)].
  - left. split; [reflexivity|]. now right.
  - right. split; [reflexivity|]. split; [exact H1|]. split; [now apply (slot_full e)|exact Hm].
Qed.

Lemma atexit_invariant_witness :
  exists x e', __cxa_atexit (fun _ => 0) 7 8 exits0 = Done x e' /\
    (x = 0 /\ exit_inv e' [(7, 8)] \/ x = -1 /\ exit_inv e' [] /\ (32 <= length (@nil call_t))%nat /\ exists e0 : exits, (fun _ => 0) e0 = 0).
Proof. apply (atexit_invariant (fun _ => 0) exits0 [] 7 8); [|apply exits0_inv]. intros e He. contradiction. Defined.

(** C19: Exit runs the registered handlers exactly once each, the last one first,
    for any number of them; a handler that a handler registers runs before the
    older ones; then come the global destructors in order and the exit system
    call.  Whenever the handlers come to an end, so does the loop. *)
Theorem exit_runs_handlers calloc act fini regs tr status :
  (forall e, calloc e <> 0 -> lists e !! calloc e = None) -> (forall e, calloc e <> 0) ->
  unwinds act (rev regs) tr ->
  exists n e1, register calloc regs exits0 = Done (replicate (length regs) 0) e1 /\
    forall fuel, (n <= fuel)%nat -> exists e2,
      exit_ calloc act fini fuel status e1 = Done tt e2 /\
      events e2 = (Called <$> tr) ++ (Destructor <$> fini) ++ [Exited status].
Proof.
  intros H1 H2 Hu.
  destruct (proj1 (swp_ok _ _ _) (register_spec calloc H1 H2 regs exits0 [] exits0_inv)) as (rs & e1 & E & -> & He & _ & Ev).
  rewrite app_nil_r in He. destruct (exit_runs_spec calloc act fini _ tr status e1 H1 H2 Hu He) as [n Hn].
  exists n, e1. split; [exact E|]. intros fuel Hf. destruct (proj1 (swp_ok _ _ _) (Hn fuel Hf)) as ([] & e2 & E2 & Ev2).
  exists e2. split; [exact E2|]. now rewrite Ev2, Ev.
Qed.

(** 40 handlers, one of which registers another. *)
Definition demo_regs : list call_t := (fun n => (Z.of_nat n, 0)) <$> seq 0 40.
Definition demo_act (c : call_t) : list call_t := if (c.1 =? 35) && (c.2 =? 0) then [(35, 1)] else [].
Definition demo_trace : list call_t :=
  ((fun n => (Z.of_nat (39 - n), 0)) <$> seq 0 5) ++ (35, 1) :: ((fun n => (Z.of_nat (34 - n), 0)) <$> seq 0 35).
Lemma exit_runs_handlers_witness :
  exists n e1, register demo_calloc demo_regs exits0 = Done (replicate (length demo_regs) 0) e1 /\
    forall fuel, (n <= fuel)%nat -> exists e2,
      exit_ demo_calloc demo_act [3] fuel 0 e1 = Done tt e2 /\
      events e2 = (Called <$> demo_trace) ++ (Destructor <$> [3]) ++ [Exited 0].
Proof.
  apply (exit_runs_handlers demo_calloc demo_act [3] demo_regs demo_trace 0).
  - exact demo_calloc_fresh.
  - exact demo_calloc_works.
  - cbn. repeat constructor.
Defined.
