(* ===== verification/Pthread.v ===== *)
(** * libc/src/pthread.c: mutexes under interleaving

    Threads run interleaved; one step of a thread is one atomic access to shared
    memory.  A thread's program is the tree of the library calls it makes: each
    call with what comes after it for every result. *)

From S2P Require Import Prelude CMem.

Definition EBUSY : Z := 16.

(** [__sync_lock_test_and_set] gives the old value and stores a new one,
    [__sync_lock_release] stores zero. *)
Definition test_and_set (m : mem) (p v : Z) : Z * mem := (default 0 (m !! p), <[p := v]> m).
Definition lock_release (m : mem) (p : Z) : mem := <[p := 0]> m.

(** The test of the loop of [pthread_mutex_lock]; [None] is another round after a
    yield. *)
Definition pthread_mutex_lock (m : mem) (mutex : Z) : option Z * mem :=
  let '(old, m) := test_and_set m mutex 1 in
  (if old =? 0 then Some 0 else None, m).
Definition pthread_mutex_trylock (m : mem) (mutex : Z) : Z * mem :=
  let '(old, m) := test_and_set m mutex 1 in
  (if old =? 0 then 0 else EBUSY, m).
Definition pthread_mutex_unlock (m : mem) (mutex : Z) : Z * mem := (0, lock_release m mutex).
Definition pthread_mutex_init (m : mem) (mutex : Z) : Z * mem := (0, <[mutex := 0]> m).
Definition pthread_mutex_destroy (m : mem) (mutex : Z) : Z * mem := (0, m).

(** The calls and plain accesses a thread makes. *)
Inductive op :=
| Lock (mutex : Z)
| Trylock (mutex : Z)
| Unlock (mutex : Z)
| Init (mutex : Z)
| Destroy (mutex : Z)
| Load (p : Z)
| Store (p v : Z).

Definition exec (o : op) (m : mem) : option Z * mem :=
  match o with
  | Lock mutex => pthread_mutex_lock m mutex
  | Trylock mutex => let '(x, m) := pthread_mutex_trylock m mutex in (Some x, m)
  | Unlock mutex => let '(x, m) := pthread_mutex_unlock m mutex in (Some x, m)
  | Init mutex => let '(x, m) := pthread_mutex_init m mutex in (Some x, m)
  | Destroy mutex => let '(x, m) := pthread_mutex_destroy m mutex in (Some x, m)
  | Load p => (Some (default 0 (m !! p)), m)
  | Store p v => (Some 0, <[p := v]> m)
  end.

Inductive prog :=
| Halt
| Do (o : op) (k : Z -> prog).

(** [pthread_once]: a load, the initialisation and a store. *)
Definition pthread_once (control : Z) (init : prog -> prog) (k : prog) : prog :=
  Do (Load control) (fun v => if v =? 0 then init (Do (Store control 1) (fun _ => k)) else k).

(** ** Thread specific data *)

Record specific := Specific { threadDataTable : list Z; freeEntry : Z }.
(** [None] is a failed assertion or an access outside the table. *)
Definition pthread_key_create (s : specific) : option (Z * specific) :=
  if freeEntry s <? 64 then Some (freeEntry s, Specific (threadDataTable s) (freeEntry s + 1)) else None.
Definition pthread_getspecific (s : specific) (key : Z) : option Z :=
  if key <? 0 then None else threadDataTable s !! Z.to_nat key.
Definition pthread_setspecific (s : specific) (key data : Z) : option specific :=
  if (0 <=? key) && (key <? 64) then Some (Specific (<[Z.to_nat key := data]> (threadDataTable s)) (freeEntry s)) else None.

(** Condition variables are stubs: nothing waits and nothing is signalled. *)
Definition pthread_cond_init : Z := -1.
Definition pthread_cond_destroy : Z := 0.
Definition cond_wait : Z := -1.
Definition pthread_cond_wait : Z := 0.
Definition pthread_cond_timedwait : Z := -1.
Definition pthread_cond_broadcast : Z := -1.
Definition pthread_cond_signal : Z := -1.

(** ** The system *)

(** A thread: the mutexes it holds (for the proofs only) and its program. *)
Record thread := Thread { held : list Z; code : prog }.
Record sys := Sys { memory : mem; threads : list thread }.

(** What a completed call does to the mutexes a thread holds. *)
Definition takes (o : op) (x : Z) (h : list Z) : list Z :=
  match o with
  | Lock mutex => mutex :: h
  | Trylock mutex => if x =? 0 then mutex :: h else h
  | Unlock mutex => filter (fun q => q <> mutex) h
  | _ => h
  end.

Definition step_thread (m : mem) (t : thread) : thread * mem :=
  match code t with
  | Halt => (t, m)
  | Do o k => let '(r, m) := exec o m in
              match r with
              | Some x => (Thread (takes o x (held t)) (k x), m)
              | None => (t, m)
              end
  end.

(** The scheduler runs thread [i] for one step. *)
Definition step (s : sys) (i : nat) : sys :=
  match threads s !! i with
  | Some t => let '(t, m) := step_thread (memory s) t in Sys m (<[i := t]> (threads s))
  | None => s
  end.
Definition run (schedule : list nat) (s : sys) : sys := foldl step s schedule.
