(* ===== verification/PthreadProps.v ===== *)
(** * Mutual exclusion and progress of the mutexes *)

From S2P Require Import Prelude CMem Pthread.

Section mutexes.
(** The addresses in use as mutexes. *)
Context (L : Z -> Prop).

(** ** Disciplined programs

    A thread locks what it does not hold, unlocks only what it holds, holds
    nothing when it ends, and does not access a mutex in use in another way. *)
Fixpoint disciplined (h : list Z) (p : prog) : Prop :=
  match p with
  | Halt => h = []
  | Do (Lock q) k => L q /\ (q ∉ h) /\ disciplined (q :: h) (k 0)
  | Do (Trylock q) k => L q /\ (q ∉ h) /\ disciplined (q :: h) (k 0) /\ disciplined h (k EBUSY)
  | Do (Unlock q) k => (q ∈ h) /\ disciplined (filter (fun r => r <> q) h) (k 0)
  | Do (Init q) k => ~ L q /\ disciplined h (k 0)
  | Do (Destroy _) k => disciplined h (k 0)
  | Do (Load _) k => forall v, disciplined h (k v)
  | Do (Store p _) k => ~ L p /\ disciplined h (k 0)
  end.

(** Nested locks are taken in ascending order. *)
Fixpoint ordered (h : list Z) (p : prog) : Prop :=
  match p with
  | Halt => True
  | Do o k =>
      match o with Lock q => Forall (fun r => r < q) h | _ => True end /\ forall x, ordered (takes o x h) (k x)
  end.

(** The program ends within [n] calls. *)
Fixpoint bounded (n : nat) (p : prog) : Prop :=
  match p, n with
  | Halt, _ => True
  | Do _ _, O => False
  | Do _ k, S n => forall x, bounded n (k x)
  end.

Definition cell (m : mem) (q : Z) : Z := default 0 (m !! q).
Definition holds_mutex (ts : list thread) (i : nat) (q : Z) : Prop := exists t, ts !! i = Some t /\ q ∈ held t.

(** A mutex is 1 while exactly one thread holds it and 0 otherwise. *)
Record sys_inv (s : sys) : Prop := {
  si_prog : Forall (fun t => disciplined (held t) (code t) /\ Forall L (held t)) (threads s);
  si_cell : forall q, L q -> cell (memory s) q = 0 /\ (forall i, ~ holds_mutex (threads s) i q) \/
                             cell (memory s) q = 1 /\ exists i, holds_mutex (threads s) i q;
  si_excl : forall i j q, holds_mutex (threads s) i q -> holds_mutex (threads s) j q -> i = j }.

Lemma cell_insert m q v r : cell (<[q := v]> m) r = if decide (r = q) then v else cell m r.
Proof.
  unfold cell. case_decide as E; [subst; now rewrite lookup_insert_eq|]. now rewrite lookup_insert_ne by auto.
Qed.

Lemma holds_insert ts i t j q :
  (i < length ts)%nat ->
  holds_mutex (<[i := t]> ts) j q <-> (if decide (j = i) then q ∈ held t else holds_mutex ts j q).
Proof.
  intros Hi. unfold holds_mutex. case_decide as E.
  - subst j. rewrite list_lookup_insert_eq by exact Hi. split; [now intros (? & [= <-] & ?)|eauto].
  - now rewrite list_lookup_insert_ne by auto.
Qed.

(** What a step does to the thread and to the mutexes. *)
Inductive effect (m : mem) (t t' : thread) (m' : mem) : Prop :=
| same_locks : held t' = held t -> (forall q, L q -> cell m' q = cell m q) -> effect m t t' m'
| acquired q : L q -> cell m q = 0 -> held t' = q :: held t ->
    (forall r, L r -> cell m' r = if decide (r = q) then 1 else cell m r) -> effect m t t' m'
| released q : q ∈ held t -> held t' = filter (fun r => r <> q) (held t) ->
    (forall r, L r -> cell m' r = if decide (r = q) then 0 else cell m r) -> effect m t t' m'.

Lemma step_effect m t :
  disciplined (held t) (code t) -> Forall L (held t) -> (forall q, L q -> cell m q = 0 \/ cell m q = 1) ->
  let '(t', m') := step_thread m t in
  effect m t t' m' /\ disciplined (held t') (code t') /\ Forall L (held t').
Proof.
  destruct t as [h [|o k]]; cbn [held code]; intros Hd Hl H01; unfold step_thread; cbn [code held].
  { split; [now apply same_locks|auto]. }
  destruct o as [q|q|q|q|q|q|q v]; cbn [disciplined] in Hd; cbn [exec takes].
  - destruct Hd as (Hq & Hnin & Hd). unfold pthread_mutex_lock, test_and_set. fold (cell m q).
    destruct (cell m q =? 0) eqn:E; zbool; cbn.
    + split; [apply (acquired _ _ _ _ q); auto; intros; apply cell_insert|]. auto.
    + split; [apply same_locks; [reflexivity|]|auto]. intros r Hr. rewrite cell_insert. case_decide; [subst|reflexivity].
      destruct (H01 q Hq); congruence.
  - destruct Hd as (Hq & Hnin & Hd1 & Hd2). unfold pthread_mutex_trylock, test_and_set. fold (cell m q).
    destruct (cell m q =? 0) eqn:E; zbool; cbn.
    + split; [apply (acquired _ _ _ _ q); auto; intros; apply cell_insert|]. auto.
    + split; [apply same_locks; [reflexivity|]|auto]. intros r Hr. rewrite cell_insert. case_decide; [subst|reflexivity].
      destruct (H01 q Hq); congruence.
  - destruct Hd as (Hq & Hd). cbn. split; [apply (released _ _ _ _ q); auto; intros; apply cell_insert|].
    split; [exact Hd|]. rewrite Forall_forall in *. intros r Hr. apply Hl. apply list_elem_of_In in Hr.
    apply list_elem_of_filter in Hr as [_ Hr]. now apply list_elem_of_In.
  - destruct Hd as (Hq & Hd). cbn. split; [apply same_locks; [reflexivity|]|auto]. intros r Hr. rewrite cell_insert.
    case_decide; [now subst|reflexivity].
  - cbn. split; [now apply same_locks|auto].
  - cbn. split; [now apply same_locks|auto].
  - destruct Hd as (Hq & Hd). cbn. split; [apply same_locks; [reflexivity|]|auto]. intros r Hr. rewrite cell_insert.
    case_decide; [now subst|reflexivity].
Qed.

Lemma holder_held s i t q : threads s !! i = Some t -> q ∈ held t -> holds_mutex (threads s) i q.
Proof. exists t. auto. Qed.

Lemma effect_inv s i t t' m' :
  sys_inv s -> threads s !! i = Some t -> effect (memory s) t t' m' ->
  disciplined (held t') (code t') /\ Forall L (held t') -> sys_inv (Sys m' (<[i := t']> (threads s))).
Proof.
  intros Hs Ht He Hok. pose proof (lookup_lt_Some _ _ _ Ht) as Hi.
  assert (Hii : forall q, q ∈ held t <-> holds_mutex (threads s) i q).
  { intros q. split; [intros; exists t; auto|]. intros (u & Hu & Hq). congruence. }
  constructor; cbn [memory threads].
  - apply Forall_insert; [apply (si_prog _ Hs)|exact Hok].
  - intros q Hq. pose proof (si_cell _ Hs q Hq) as Hc. destruct He as [Hh Hm|p Hp H0 Hh Hm|p Hp Hh Hm]; rewrite Hm by exact Hq.
    + destruct Hc as [[-> Hn]|[-> [j Hj]]]; [left|right]; (split; [reflexivity|]).
      * intros j. rewrite holds_insert by exact Hi. case_decide; [subst j; rewrite Hh, Hii; apply Hn|apply Hn].
      * exists j. rewrite holds_insert by exact Hi. case_decide; [subst j; now rewrite Hh, Hii|exact Hj].
    + case_decide as E.
      * subst q. right. split; [reflexivity|]. exists i. rewrite holds_insert, decide_True, Hh by auto. left.
      * destruct Hc as [[-> Hn]|[-> [j Hj]]]; [left|right]; (split; [reflexivity|]).
        -- intros j. rewrite holds_insert by exact Hi. case_decide; [|apply Hn]. subst j. rewrite Hh, elem_of_cons, Hii.
           intros [?|?]; [contradiction|]. now apply (Hn i).
        -- exists j. rewrite holds_insert by exact Hi. case_decide; [|exact Hj]. subst j. rewrite Hh, elem_of_cons, Hii. auto.
    + case_decide as E.
      * subst q. left. split; [reflexivity|]. intros j. rewrite holds_insert by exact Hi. case_decide as Ej.
        -- subst j. rewrite Hh, list_elem_of_filter. tauto.
        -- intros Hj. apply Ej. apply (si_excl _ Hs j i p Hj). now apply Hii.
      * destruct Hc as [[-> Hn]|[-> [j Hj]]]; [left|right]; (split; [reflexivity|]).
        -- intros j. rewrite holds_insert by exact Hi. case_decide; [|apply Hn]. subst j. rewrite Hh, list_elem_of_filter, Hii.
           intros [_ ?]. now apply (Hn i).
        -- exists j. rewrite holds_insert by exact Hi. case_decide; [|exact Hj]. subst j. rewrite Hh, list_elem_of_filter, Hii. auto.
  - intros j1 j2 q. rewrite !holds_insert by exact Hi.
    assert (Hone : forall j, j <> i -> holds_mutex (threads s) j q -> q ∈ held t' -> False).
    { intros j Hj Hq Hq'. assert (Hnot : ~ holds_mutex (threads s) i q) by (intros ?; apply Hj; now apply (si_excl _ Hs j i q)).
      destruct He as [Hh _|p Hp H0 Hh _|p Hp Hh _]; rewrite Hh in Hq'.
      - now apply Hnot, Hii.
      - apply elem_of_cons in Hq' as [->|Hq']; [|now apply Hnot, Hii].
        destruct (si_cell _ Hs p Hp) as [[_ Hn]|[? _]]; [now apply (Hn j)|congruence].
      - apply list_elem_of_filter in Hq' as [_ Hq']. now apply Hnot, Hii. }
    case_decide as E1; case_decide as E2; [congruence|intros ? ?; exfalso; eauto..|apply (si_excl _ Hs)].
Qed.

Lemma cell_01 s q : sys_inv s -> L q -> cell (memory s) q = 0 \/ cell (memory s) q = 1.
Proof. intros Hs Hq. destruct (si_cell _ Hs q Hq) as [[? _]|[? _]]; auto. Qed.

Lemma step_inv s i : sys_inv s -> sys_inv (step s i).
Proof.
  intros Hs. unfold step. destruct (threads s !! i) as [t|] eqn:Ht; [|exact Hs].
  pose proof (si_prog _ Hs) as Hp. rewrite Forall_lookup in Hp. destruct (Hp i t Ht) as [Hd Hl].
  pose proof (step_effect (memory s) t Hd Hl (fun q => cell_01 s q Hs)) as He.
  destruct (step_thread (memory s) t) as [t' m']. destruct He as [He Hok]. eapply effect_inv; eauto.
Qed.

Lemma run_inv w : forall s, sys_inv s -> sys_inv (run w s).
Proof. induction w as [|i w IH]; intros s Hs; [exact Hs|]. apply IH, step_inv, Hs. Qed.

(** The threads before they start. *)
Definition start (m : mem) (ps : list prog) : sys := Sys m (Thread [] <$> ps).

Lemma start_inv m ps :
  (forall q, L q -> cell m q = 0) -> Forall (disciplined []) ps -> sys_inv (start m ps).
Proof.
  intros Hm Hp. assert (Hn : forall i q, ~ holds_mutex (Thread [] <$> ps) i q).
  { intros i q (t & Ht & Hq). rewrite list_lookup_fmap in Ht. destruct (ps !! i); [|discriminate]. injection Ht as <-.
    now apply not_elem_of_nil in Hq. }
  constructor; cbn [start threads memory].
  - apply Forall_fmap. eapply Forall_impl; [|exact Hp]. cbn. auto.
  - intros q Hq. left. auto.
  - intros i j q Hi. now apply Hn in Hi.
Qed.

(** ** Progress *)

(** A thread that can complete its call. *)
Definition enabled (m : mem) (t : thread) : Prop :=
  match code t with
  | Halt => False
  | Do (Lock q) _ => cell m q = 0
  | Do _ _ => True
  end.
Definition halted (t : thread) : Prop := code t = Halt.

(** A thread that is neither halted nor enabled waits for a mutex. *)
Lemma enabled_cases m t : halted t \/ enabled m t \/ exists q k, code t = Do (Lock q) k /\ cell m q <> 0.
Proof.
  unfold halted, enabled. destruct (code t) as [|[q|q|q|q|q|q|q v] k]; auto.
  destruct (decide (cell m q = 0)); eauto 6.
Qed.

Lemma list_max (l : list Z) : l <> [] -> exists x, x ∈ l /\ Forall (fun y => y <= x) l.
Proof.
  induction l as [|a l IH]; [congruence|]. intros _. destruct l as [|b l].
  - exists a. split; [left|repeat constructor; lia].
  - destruct IH as (x & Hx & Hm); [discriminate|]. destruct (decide (a <= x)).
    + exists x. split; [now right|now constructor].
    + exists a. split; [left|]. constructor; [lia|]. eapply Forall_impl; [|exact Hm]. cbn. lia.
Qed.

(** The mutexes waited for. *)
Definition waits (m : mem) (t : thread) : option Z :=
  match code t with Do (Lock q) _ => if cell m q =? 0 then None else Some q | _ => None end.

(** With ordered locks some thread can always go on. *)
Lemma no_deadlock s :
  sys_inv s -> Forall (fun t => ordered (held t) (code t)) (threads s) ->
  Forall halted (threads s) \/ Exists (enabled (memory s)) (threads s).
Proof.
  intros Hs Ho. destruct (decide (omap (waits (memory s)) (threads s) = [])) as [Hw|Hw].
  - destruct (Exists_dec (fun t => ~ halted t) (threads s)) as [He|He].
    { intros t. unfold halted. destruct (code t); [right; tauto|left; discriminate]. }
    + right. apply Exists_exists in He as (t & Hin & Hh). apply Exists_exists. exists t. split; [exact Hin|].
      destruct (enabled_cases (memory s) t) as [?|[?|(q & k & Hc & Hq)]]; [contradiction|assumption|]. exfalso.
      apply not_elem_of_nil with q. rewrite <- Hw. apply list_elem_of_omap. exists t. split; [now apply list_elem_of_In|].
      unfold waits. rewrite Hc. now rewrite (proj2 (Z.eqb_neq _ _)) by exact Hq.
    + left. rewrite Forall_forall. intros t Hin. unfold halted. destruct (code t) eqn:Ec; [reflexivity|]. exfalso. apply He.
      apply Exists_exists. exists t. split; [exact Hin|]. unfold halted. congruence.
  - right. destruct (list_max _ Hw) as (q & Hq & Hmax). apply list_elem_of_omap in Hq as (t & Hin & Ht).
    assert (HL : L q /\ cell (memory s) q = 1).
    { unfold waits in Ht. destruct (code t) as [|[q'|?|?|?|?|?|? ?] k] eqn:Ec; try discriminate.
      destruct (_ =? 0) eqn:E0; [discriminate|]. injection Ht as ->. zbool.
      pose proof (si_prog _ Hs) as Hp. rewrite Forall_forall in Hp. apply list_elem_of_In in Hin. destruct (Hp t Hin) as [Hd _].
      rewrite Ec in Hd. destruct Hd as [Hq _]. split; [exact Hq|]. destruct (cell_01 s q Hs Hq); congruence. }
    destruct HL as [HL H1]. destruct (si_cell _ Hs q HL) as [[? _]|[_ (j & u & Hu & Hqu)]]; [congruence|].
    apply Exists_exists. exists u. assert (Huin : In u (threads s)) by (apply list_elem_of_In, list_elem_of_lookup; eauto).
    split; [exact Huin|]. destruct (enabled_cases (memory s) u) as [Hh|[?|(q' & k & Hc & Hq')]]; [exfalso|assumption|exfalso].
    + pose proof (si_prog _ Hs) as Hp. rewrite Forall_forall in Hp. destruct (Hp u Huin) as [Hd _].
      rewrite Hh in Hd. cbn in Hd. rewrite Hd in Hqu. now apply not_elem_of_nil in Hqu.
    + rewrite Forall_forall in Ho. pose proof (Ho u Huin) as Hou. rewrite Hc in Hou. destruct Hou as [Hlt _].
      rewrite Forall_forall in Hlt. apply list_elem_of_In in Hqu. pose proof (Hlt q Hqu) as Hlt1. cbv beta in Hlt1.
      rewrite Forall_forall in Hmax. assert (q' <= q); [|lia]. apply Hmax, list_elem_of_In, list_elem_of_omap.
      exists u. split; [now apply list_elem_of_In|]. unfold waits. rewrite Hc. now rewrite (proj2 (Z.eqb_neq _ _)) by exact Hq'.
Qed.

(** [ns] bounds the calls the threads have left. *)
Definition budget (ns : list nat) (s : sys) : Prop := Forall2 (fun n t => bounded n (code t)) ns (threads s).
Definition all_ordered (s : sys) : Prop := Forall (fun t => ordered (held t) (code t)) (threads s).

Lemma sum_list_insert ns i n : ns !! i = Some (S n) -> (sum_list (<[i := n]> ns) < sum_list ns)%nat.
Proof.
  revert i. induction ns as [|a ns IH]; intros [|i] H; simpl in *; try discriminate; [injection H as ->; lia|].
  specialize (IH i H). lia.
Qed.

Lemma exec_enabled s i t o k : sys_inv s -> threads s !! i = Some t -> code t = Do o k ->
  (exists x m', exec o (memory s) = (Some x, m')) \/
  exec o (memory s) = (None, memory s) /\ ~ enabled (memory s) t.
Proof.
  intros Hs Ht Hc. destruct o as [q|q|q|q|q|q|q v]; cbn; eauto.
  unfold pthread_mutex_lock, test_and_set. fold (cell (memory s) q). destruct (cell (memory s) q =? 0) eqn:E; zbool; [eauto|right].
  split; [|unfold enabled; now rewrite Hc]. f_equal. apply insert_id.
  pose proof (si_prog _ Hs) as Hp. rewrite Forall_lookup in Hp. destruct (Hp i t Ht) as [Hd _]. rewrite Hc in Hd.
  destruct Hd as [Hq _]. pose proof (cell_01 s q Hs Hq) as H01. unfold cell in *.
  destruct (memory s !! q); cbn in *; [f_equal; lia|lia].
Qed.

(** A step completes a call and uses up budget, or changes nothing. *)
Lemma step_progress s i ns : sys_inv s -> all_ordered s -> budget ns s ->
  step s i = s /\ (forall t, threads s !! i = Some t -> ~ enabled (memory s) t) \/
  all_ordered (step s i) /\ exists ns', budget ns' (step s i) /\ (sum_list ns' < sum_list ns)%nat.
Proof.
  intros Hs Ho Hb. unfold step. destruct (threads s !! i) as [t|] eqn:Ht; [|left; split; [reflexivity|discriminate]].
  unfold step_thread. destruct (code t) as [|o k] eqn:Hc.
  { left. rewrite list_insert_id by exact Ht. split; [now destruct s|]. intros u [= ->]. unfold enabled. now rewrite Hc. }
  destruct (exec_enabled s i t o k Hs Ht Hc) as [(x & m' & ->)|[-> Hne]].
  - right. pose proof Ho as Ho'. unfold all_ordered in Ho'. rewrite Forall_lookup in Ho'. pose proof (Ho' i t Ht) as Hot.
    rewrite Hc in Hot. destruct Hot as [_ Hot]. destruct (Forall2_lookup_r _ _ _ _ _ Hb Ht) as (n & Hn & Hbn).
    rewrite Hc in Hbn. destruct n as [|n]; [contradiction|]. split.
    + apply Forall_insert; [exact Ho|apply Hot].
    + exists (<[i := n]> ns). split; [|now apply sum_list_insert]. apply Forall2_insert; [exact Hb|apply Hbn].
  - left. rewrite list_insert_id by exact Ht. split; [now destruct s|]. intros u [= ->]. exact Hne.
Qed.

Lemma run_budget w : forall s ns, sys_inv s -> all_ordered s -> budget ns s ->
  all_ordered (run w s) /\ exists ns', budget ns' (run w s) /\ (sum_list ns' <= sum_list ns)%nat.
Proof.
  induction w as [|i w IH]; intros s ns Hs Ho Hb; [eauto|].
  change (run (i :: w) s) with (run w (step s i)). destruct (step_progress s i ns Hs Ho Hb) as [[-> _]|(Ho' & ns1 & Hb1 & Hlt)]; [eauto|].
  destruct (IH (step s i) ns1 (step_inv s i Hs) Ho' Hb1) as (Ho2 & ns2 & Hb2 & Hle). split; [exact Ho2|]. exists ns2. split; [exact Hb2|lia].
Qed.

(** A stretch of the schedule with an enabled thread completes a call. *)
Lemma window_progress w : forall s ns i t, sys_inv s -> all_ordered s -> budget ns s ->
  i ∈ w -> threads s !! i = Some t -> enabled (memory s) t ->
  all_ordered (run w s) /\ exists ns', budget ns' (run w s) /\ (sum_list ns' < sum_list ns)%nat.
Proof.
  induction w as [|j w IH]; intros s ns i t Hs Ho Hb Hi Ht He; [now apply not_elem_of_nil in Hi|].
  change (run (j :: w) s) with (run w (step s j)). destruct (step_progress s j ns Hs Ho Hb) as [[E Hne]|(Ho' & ns1 & Hb1 & Hlt)].
  - rewrite E. apply elem_of_cons in Hi as [->|Hi]; [now apply Hne in Ht|eauto].
  - destruct (run_budget w (step s j) ns1 (step_inv s j Hs) Ho' Hb1) as (Ho2 & ns2 & Hb2 & Hle).
    split; [exact Ho2|]. exists ns2. split; [exact Hb2|lia].
Qed.

Lemma halted_run w s : Forall halted (threads s) -> run w s = s.
Proof.
  intros Hh. induction w as [|i w IH]; [reflexivity|]. change (run (i :: w) s) with (run w (step s i)).
  enough (E : step s i = s) by now rewrite E. unfold step. destruct (threads s !! i) as [t|] eqn:Ht; [|reflexivity].
  rewrite Forall_lookup in Hh. unfold step_thread. rewrite (Hh i t Ht), list_insert_id by exact Ht. now destruct s.
Qed.

Lemma length_step s i : length (threads (step s i)) = length (threads s).
Proof.
  unfold step. destruct (threads s !! i); [|reflexivity]. destruct (step_thread _ _). cbn. apply length_insert.
Qed.

Lemma length_run w : forall s, length (threads (run w s)) = length (threads s).
Proof.
  induction w as [|i w IH]; intros s; [reflexivity|]. change (run (i :: w) s) with (run w (step s i)). rewrite IH. apply length_step.
Qed.

(** Every stretch runs every thread. *)
Definition fair (n : nat) (ws : list (list nat)) : Prop := Forall (fun w => forall i, (i < n)%nat -> i ∈ w) ws.

Lemma fair_halts ws : forall s ns, sys_inv s -> all_ordered s -> budget ns s -> fair (length (threads s)) ws ->
  (sum_list ns <= length ws)%nat -> Forall halted (threads (run (concat ws) s)).
Proof.
  induction ws as [|w ws IH]; intros s ns Hs Ho Hb Hf Hn; cbn [concat length] in *.
  - rewrite Forall_lookup. intros i t Ht. destruct (Forall2_lookup_r _ _ _ _ _ Hb Ht) as (n & Hni & Hbn).
    assert (n = 0%nat) as ->; [|unfold halted; destruct (code t); [reflexivity|contradiction]].
    clear - Hni Hn. revert i Hni. induction ns as [|a ns IHn]; intros [|i] H; simpl in *; try discriminate; [injection H as ->; lia|].
    apply (IHn ltac:(lia) i H).
  - unfold run. rewrite foldl_app. fold (run w s). fold (run (concat ws) (run w s)).
    destruct (no_deadlock s Hs Ho) as [Hh|He].
    { rewrite !halted_run; rewrite ?halted_run; assumption. }
    apply Forall_cons_iff in Hf as [Hw Hf]. apply Exists_exists in He as (t & Hin & He).
    apply list_elem_of_In, list_elem_of_lookup in Hin as [i Ht].
    destruct (window_progress w s ns i t Hs Ho Hb) as (Ho1 & ns1 & Hb1 & Hlt); auto.
    { apply Hw. eapply lookup_lt_Some; eauto. }
    apply (IH (run w s) ns1); auto; [now apply run_inv|now rewrite length_run|lia].
Qed.
End mutexes.

(** ** The theorems *)

(** Two threads that nest two locks, one of them trying first. *)
Definition demo_mutex (q : Z) : Prop := q = 8 \/ q = 16.
Definition nested (k : prog) : prog :=
  Do (Lock 8) (fun _ => Do (Lock 16) (fun _ => Do (Store 24 1) (fun _ => Do (Unlock 16) (fun _ => Do (Unlock 8) (fun _ => k))))).
Definition demo_threads : list prog :=
  [nested Halt; Do (Trylock 8) (fun x => if x =? 0 then Do (Unlock 8) (fun _ => nested Halt) else nested Halt)].

(** Evaluate the discipline of a concrete program. *)
Ltac eval_disciplined :=
  cbn [disciplined nested]; repeat split;
  first [now left|now right|reflexivity|apply (bool_decide_unpack _); vm_compute; exact I].

Lemma nested_disciplined : disciplined demo_mutex [] (nested Halt).
Proof. eval_disciplined. Qed.

Lemma demo_disciplined : Forall (disciplined demo_mutex []) demo_threads.
Proof.
  apply Forall_cons_iff. split; [apply nested_disciplined|]. apply Forall_cons_iff. split; [|constructor].
  cbn [disciplined]. split; [now left|]. split; [apply not_elem_of_nil|]. split; [|apply nested_disciplined].
  split; [left|]. apply nested_disciplined.
Qed.

(** C17: Mutual exclusion.  Whatever the threads do, as long as each unlocks only
    what it holds, and however they are interleaved, no mutex is ever held by two
    threads, and a mutex is 1 while somebody holds it and 0 otherwise.  (A thread
    holds a mutex from the return of lock, or of a trylock that returned 0, to
    its unlock.) *)
Theorem mutex_exclusion L m ps schedule q :
  (forall q, L q -> cell m q = 0) -> Forall (disciplined L []) ps -> L q ->
  let s := run schedule (start m ps) in
  (forall i j, holds_mutex (threads s) i q -> holds_mutex (threads s) j q -> i = j) /\
  ((exists i, holds_mutex (threads s) i q) <-> cell (memory s) q = 1) /\
  ((forall i, ~ holds_mutex (threads s) i q) <-> cell (memory s) q = 0).
Proof.
  intros Hm Hp Hq s. assert (Hs : sys_inv L s) by (apply run_inv, start_inv; assumption).
  split; [intros i j; apply (si_excl _ _ Hs)|].
  destruct (si_cell _ _ Hs q Hq) as [[E Hn]|[E [i Hi]]]; rewrite E; split; split; intros H; try lia; eauto.
  - destruct H as [i Hi]. now apply Hn in Hi.
  - now apply H in Hi.
Qed.

Lemma mutex_exclusion_witness :
  let s := run [0; 1; 0; 1; 0; 1]%nat (start ∅ demo_threads) in
  ((forall i j, holds_mutex (threads s) i 8 -> holds_mutex (threads s) j 8 -> i = j) /\
   ((exists i, holds_mutex (threads s) i 8) <-> cell (memory s) 8 = 1) /\
   ((forall i, ~ holds_mutex (threads s) i 8) <-> cell (memory s) 8 = 0)) /\ cell (memory s) 8 = 1.
Proof.
  split; [|vm_compute; reflexivity].
  apply (mutex_exclusion demo_mutex ∅ demo_threads).
  - reflexivity.
  - exact demo_disciplined.
  - now left.
Defined.

(** C18: Progress.  Threads that take nested locks in ascending order and make a
    bounded number of calls all come to their end under every fair schedule,
    one that is a sequence of stretches in each of which every thread runs at
    least once; as many stretches as calls are enough.  Nobody waits for ever
    for a mutex. *)
Theorem mutex_liveness L m ps ns windows :
  (forall q, L q -> cell m q = 0) -> Forall (disciplined L []) ps -> Forall (ordered []) ps ->
  Forall2 bounded ns ps -> fair (length ps) windows -> (sum_list ns <= length windows)%nat ->
  Forall halted (threads (run (concat windows) (start m ps))).
Proof.
  intros Hm Hp Ho Hb Hf Hn. apply (fair_halts L windows (start m ps) ns).
  - now apply start_inv.
  - apply Forall_fmap. exact Ho.
  - apply Forall2_fmap_r. exact Hb.
  - cbn. now rewrite length_fmap.
  - exact Hn.
Qed.

Lemma mutex_liveness_witness :
  Forall halted (threads (run (concat (replicate 12 [1; 0]%nat)) (start ∅ demo_threads))).
Proof.
  apply (mutex_liveness demo_mutex ∅ demo_threads [5; 7]%nat (replicate 12 [1; 0]%nat)).
  - reflexivity.
  - exact demo_disciplined.
  - repeat constructor; cbn; intros; repeat constructor; try lia; destruct (_ =? 0); cbn; repeat constructor; lia.
  - repeat constructor; cbn; intros; try exact I. destruct (_ =? 0); cbn; auto.
  - apply Forall_replicate. intros i Hi. destruct i as [|[|i]]; [set_solver..|cbn in Hi; lia].
  - cbn. lia.
Defined.

(** [pthread_once] is not atomic: two threads can both run the initialisation. *)
Definition count_init (k : prog) : prog := Do (Load 100) (fun v => Do (Store 100 (v + 1)) (fun _ => k)).
Lemma once_runs_twice :
  let s := run [0; 1; 0; 0; 1; 1; 0; 1]%nat (start ∅ [pthread_once 50 count_init Halt; pthread_once 50 count_init Halt]) in
  cell (memory s) 100 = 2.
Proof. reflexivity. Qed.
