(* ===== verification/Md5.v ===== *)
(** * bin/core/md5.c: the MD5 digest

    The program's digest as it is computed from chunks of a file, and the MD5
    function of RFC 1321 as a reference: rounds from tables, a message padded
    and cut into blocks. *)

From S2P Require Import Prelude CMem.

(** ** The program *)

Record MD5_CTX := Ctx {
  data : list Z;      (* BYTE data[64] *)
  datalen : Z;        (* WORD *)
  bitlen : Z;         (* unsigned long long *)
  state : list Z }.   (* WORD state[4] *)

Definition not32 (x : Z) : Z := Z.lxor x 0xffffffff.
Definition ROTLEFT (a b : Z) : Z := Z.lor (u32 (Z.shiftl a b)) (Z.shiftr a (32 - b)).
Definition F (x y z : Z) : Z := Z.lor (Z.land x y) (Z.land (not32 x) z).
Definition G (x y z : Z) : Z := Z.lor (Z.land x z) (Z.land y (not32 z)).
Definition H (x y z : Z) : Z := Z.lxor (Z.lxor x y) z.
Definition I (x y z : Z) : Z := Z.lxor y (Z.lor x (not32 z)).

(** The new value of the first argument. *)
Definition FF (a b c d m s t : Z) : Z := u32 (b + ROTLEFT (u32 (a + u32 (F b c d + m + t))) s).
Definition GG (a b c d m s t : Z) : Z := u32 (b + ROTLEFT (u32 (a + u32 (G b c d + m + t))) s).
Definition HH (a b c d m s t : Z) : Z := u32 (b + ROTLEFT (u32 (a + u32 (H b c d + m + t))) s).
Definition II (a b c d m s t : Z) : Z := u32 (b + ROTLEFT (u32 (a + u32 (I b c d + m + t))) s).

(** [m[i]] from the bytes of the block. *)
Definition word_at (block : list Z) (i : nat) : Z :=
  let j := (4 * i)%nat in
  let b k := nth k block 0 in
  u32 (b j + Z.shiftl (b (j + 1)%nat) 8 + Z.shiftl (b (j + 2)%nat) 16 + Z.shiftl (b (j + 3)%nat) 24).

(** An assignment: the rest of the code runs with the new value. *)
Definition assign {A} (e : Z) (k : Z -> A) : A := k e.
Local Notation "'store' x := e 'in' k" := (assign e (fun x => k)) (at level 10, x name, k at level 200).

(** The sixty-four steps on [a], [b], [c] and [d]. *)
Definition md5_steps (m : nat -> Z) (a b c d : Z) : Z * Z * Z * Z :=
  store a := FF a b c d (m 0%nat) 7 0xd76aa478 in
  store d := FF d a b c (m 1%nat) 12 0xe8c7b756 in
  store c := FF c d a b (m 2%nat) 17 0x242070db in
  store b := FF b c d a (m 3%nat) 22 0xc1bdceee in
  store a := FF a b c d (m 4%nat) 7 0xf57c0faf in
  store d := FF d a b c (m 5%nat) 12 0x4787c62a in
  store c := FF c d a b (m 6%nat) 17 0xa8304613 in
  store b := FF b c d a (m 7%nat) 22 0xfd469501 in
  store a := FF a b c d (m 8%nat) 7 0x698098d8 in
  store d := FF d a b c (m 9%nat) 12 0x8b44f7af in
  store c := FF c d a b (m 10%nat) 17 0xffff5bb1 in
  store b := FF b c d a (m 11%nat) 22 0x895cd7be in
  store a := FF a b c d (m 12%nat) 7 0x6b901122 in
  store d := FF d a b c (m 13%nat) 12 0xfd987193 in
  store c := FF c d a b (m 14%nat) 17 0xa679438e in
  store b := FF b c d a (m 15%nat) 22 0x49b40821 in
  store a := GG a b c d (m 1%nat) 5 0xf61e2562 in
  store d := GG d a b c (m 6%nat) 9 0xc040b340 in
  store c := GG c d a b (m 11%nat) 14 0x265e5a51 in
  store b := GG b c d a (m 0%nat) 20 0xe9b6c7aa in
  store a := GG a b c d (m 5%nat) 5 0xd62f105d in
  store d := GG d a b c (m 10%nat) 9 0x02441453 in
  store c := GG c d a b (m 15%nat) 14 0xd8a1e681 in
  store b := GG b c d a (m 4%nat) 20 0xe7d3fbc8 in
  store a := GG a b c d (m 9%nat) 5 0x21e1cde6 in
  store d := GG d a b c (m 14%nat) 9 0xc33707d6 in
  store c := GG c d a b (m 3%nat) 14 0xf4d50d87 in
  store b := GG b c d a (m 8%nat) 20 0x455a14ed in
  store a := GG a b c d (m 13%nat) 5 0xa9e3e905 in
  store d := GG d a b c (m 2%nat) 9 0xfcefa3f8 in
  store c := GG c d a b (m 7%nat) 14 0x676f02d9 in
  store b := GG b c d a (m 12%nat) 20 0x8d2a4c8a in
  store a := HH a b c d (m 5%nat) 4 0xfffa3942 in
  store d := HH d a b c (m 8%nat) 11 0x8771f681 in
  store c := HH c d a b (m 11%nat) 16 0x6d9d6122 in
  store b := HH b c d a (m 14%nat) 23 0xfde5380c in
  store a := HH a b c d (m 1%nat) 4 0xa4beea44 in
  store d := HH d a b c (m 4%nat) 11 0x4bdecfa9 in
  store c := HH c d a b (m 7%nat) 16 0xf6bb4b60 in
  store b := HH b c d a (m 10%nat) 23 0xbebfbc70 in
  store a := HH a b c d (m 13%nat) 4 0x289b7ec6 in
  store d := HH d a b c (m 0%nat) 11 0xeaa127fa in
  store c := HH c d a b (m 3%nat) 16 0xd4ef3085 in
  store b := HH b c d a (m 6%nat) 23 0x04881d05 in
  store a := HH a b c d (m 9%nat) 4 0xd9d4d039 in
  store d := HH d a b c (m 12%nat) 11 0xe6db99e5 in
  store c := HH c d a b (m 15%nat) 16 0x1fa27cf8 in
  store b := HH b c d a (m 2%nat) 23 0xc4ac5665 in
  store a := II a b c d (m 0%nat) 6 0xf4292244 in
  store d := II d a b c (m 7%nat) 10 0x432aff97 in
  store c := II c d a b (m 14%nat) 15 0xab9423a7 in
  store b := II b c d a (m 5%nat) 21 0xfc93a039 in
  store a := II a b c d (m 12%nat) 6 0x655b59c3 in
  store d := II d a b c (m 3%nat) 10 0x8f0ccc92 in
  store c := II c d a b (m 10%nat) 15 0xffeff47d in
  store b := II b c d a (m 1%nat) 21 0x85845dd1 in
  store a := II a b c d (m 8%nat) 6 0x6fa87e4f in
  store d := II d a b c (m 15%nat) 10 0xfe2ce6e0 in
  store c := II c d a b (m 6%nat) 15 0xa3014314 in
  store b := II b c d a (m 13%nat) 21 0x4e0811a1 in
  store a := II a b c d (m 4%nat) 6 0xf7537e82 in
  store d := II d a b c (m 11%nat) 10 0xbd3af235 in
  store c := II c d a b (m 2%nat) 15 0x2ad7d2bb in
  store b := II b c d a (m 9%nat) 21 0xeb86d391 in
  (a, b, c, d).

Definition md5_transform (ctx : MD5_CTX) (block : list Z) : MD5_CTX :=
  let s i := nth i (state ctx) 0 in
  let '(a, b, c, d) := md5_steps (word_at block) (s 0%nat) (s 1%nat) (s 2%nat) (s 3%nat) in
  Ctx (data ctx) (datalen ctx) (bitlen ctx) [u32 (s 0%nat + a); u32 (s 1%nat + b); u32 (s 2%nat + c); u32 (s 3%nat + d)].

Definition md5_init (ctx : MD5_CTX) : MD5_CTX :=
  Ctx (data ctx) 0 0 [0x67452301; 0xEFCDAB89; 0x98BADCFE; 0x10325476].

(** The body of the loop of [md5_update]. *)
Definition md5_update_byte (ctx : MD5_CTX) (byte : Z) : MD5_CTX :=
  let ctx := Ctx (<[Z.to_nat (datalen ctx) := byte]> (data ctx)) (u32 (datalen ctx + 1)) (bitlen ctx) (state ctx) in
  if datalen ctx =? 64 then
    let ctx := md5_transform ctx (data ctx) in
    Ctx (data ctx) 0 (u64 (bitlen ctx + 512)) (state ctx)
  else ctx.
Definition md5_update (ctx : MD5_CTX) (bytes : list Z) : MD5_CTX := foldl md5_update_byte ctx bytes.

(** [while (i < stop) data[i++] = 0]. *)
Definition zero_from (l : list Z) (i stop : nat) : list Z :=
  foldl (fun l k => <[k := 0]> l) l (seq i (stop - i)).

(** The padding of [md5_final]. *)
Definition md5_pad (ctx : MD5_CTX) : MD5_CTX :=
  let i := Z.to_nat (datalen ctx) in
  let put d ctx := Ctx d (datalen ctx) (bitlen ctx) (state ctx) in
  if datalen ctx <? 56 then put (zero_from (<[i := 0x80]> (data ctx)) (i + 1) 56) ctx
  else
    let ctx := put (zero_from (<[i := 0x80]> (data ctx)) (i + 1) 64) ctx in
    let ctx := md5_transform ctx (data ctx) in
    put (replicate 56 0 ++ drop 56 (data ctx)) ctx.

(** The length in [data[56]] to [data[63]]. *)
Definition md5_put_length (ctx : MD5_CTX) : MD5_CTX :=
  let bits := u64 (bitlen ctx + u32 (datalen ctx * 8)) in
  Ctx (foldl (fun l k => <[(56 + k)%nat := u8 (Z.shiftr bits (8 * Z.of_nat k))]> l) (data ctx) (seq 0 8))
      (datalen ctx) bits (state ctx).

(** The context and [hash]. *)
Definition md5_final (ctx : MD5_CTX) : MD5_CTX * list Z :=
  let ctx := md5_put_length (md5_pad ctx) in
  let ctx := md5_transform ctx (data ctx) in
  let byte w i := Z.land (Z.shiftr (nth w (state ctx) 0) (i * 8)) 0xff in
  (ctx, [byte 0%nat 0; byte 0%nat 1; byte 0%nat 2; byte 0%nat 3; byte 1%nat 0; byte 1%nat 1; byte 1%nat 2; byte 1%nat 3;
         byte 2%nat 0; byte 2%nat 1; byte 2%nat 2; byte 2%nat 3; byte 3%nat 0; byte 3%nat 1; byte 3%nat 2; byte 3%nat 3]).

(** The digest of a sequence of chunks: the calls that [main] makes for a file. *)
Definition md5_file (ctx : MD5_CTX) (chunks : list (list Z)) : list Z :=
  (md5_final (foldl md5_update (md5_init ctx) chunks)).2.

(** The loop of [main] over the file: [reads] is what the calls of [fread] return
    until [feof]; an empty one ends the loop. *)
Fixpoint main_loop (ctx : MD5_CTX) (reads : list (list Z)) : MD5_CTX :=
  match reads with
  | [] => ctx
  | r :: reads => if (length r =? 0)%nat then ctx else main_loop (md5_update ctx r) reads
  end.
Definition md5_main (ctx : MD5_CTX) (reads : list (list Z)) : list Z := (md5_final (main_loop (md5_init ctx) reads)).2.

(** ** RFC 1321 *)

(** The table of 2^32 * |sin (i + 1)|. *)
Definition T : list Z :=
  [0xd76aa478; 0xe8c7b756; 0x242070db; 0xc1bdceee; 0xf57c0faf; 0x4787c62a; 0xa8304613; 0xfd469501;
   0x698098d8; 0x8b44f7af; 0xffff5bb1; 0x895cd7be; 0x6b901122; 0xfd987193; 0xa679438e; 0x49b40821;
   0xf61e2562; 0xc040b340; 0x265e5a51; 0xe9b6c7aa; 0xd62f105d; 0x02441453; 0xd8a1e681; 0xe7d3fbc8;
   0x21e1cde6; 0xc33707d6; 0xf4d50d87; 0x455a14ed; 0xa9e3e905; 0xfcefa3f8; 0x676f02d9; 0x8d2a4c8a;
   0xfffa3942; 0x8771f681; 0x6d9d6122; 0xfde5380c; 0xa4beea44; 0x4bdecfa9; 0xf6bb4b60; 0xbebfbc70;
   0x289b7ec6; 0xeaa127fa; 0xd4ef3085; 0x04881d05; 0xd9d4d039; 0xe6db99e5; 0x1fa27cf8; 0xc4ac5665;
   0xf4292244; 0x432aff97; 0xab9423a7; 0xfc93a039; 0x655b59c3; 0x8f0ccc92; 0xffeff47d; 0x85845dd1;
   0x6fa87e4f; 0xfe2ce6e0; 0xa3014314; 0x4e0811a1; 0xf7537e82; 0xbd3af235; 0x2ad7d2bb; 0xeb86d391].
Definition shifts : list (list Z) := [[7; 12; 17; 22]; [5; 9; 14; 20]; [4; 11; 16; 23]; [6; 10; 15; 21]].
Definition rfc_word (i : nat) : nat :=
  match (i / 16)%nat with
  | 0 => i mod 16
  | 1 => (5 * i + 1) mod 16
  | 2 => (3 * i + 5) mod 16
  | _ => (7 * i) mod 16
  end%nat.
Definition rfc_fun (i : nat) : Z -> Z -> Z -> Z :=
  match (i / 16)%nat with 0 => F | 1 => G | 2 => H | _ => I end%nat.
(** One step: the registers rotate. *)
Definition rfc_step (m : nat -> Z) (r : Z * Z * Z * Z) (i : nat) : Z * Z * Z * Z :=
  let '(a, b, c, d) := r in
  let s := nth (i mod 4) (nth (i / 16) shifts []) 0 in
  (d, u32 (b + ROTLEFT (u32 (a + u32 (rfc_fun i b c d + m (rfc_word i) + nth i T 0))) s), b, c).
Definition rfc_steps (m : nat -> Z) (r : Z * Z * Z * Z) : Z * Z * Z * Z := foldl (rfc_step m) r (seq 0 64).
(** A block of 64 bytes, as sixteen little endian words. *)
Definition rfc_block (st : Z * Z * Z * Z) (block : list Z) : Z * Z * Z * Z :=
  let '(a, b, c, d) := st in
  let '(a', b', c', d') := rfc_steps (fun i => le_val (take 4 (drop (4 * i) block))) st in
  (u32 (a + a'), u32 (b + b'), u32 (c + c'), u32 (d + d')).
Definition rfc_pad (msg : list Z) : list Z :=
  let n := Z.of_nat (length msg) in
  msg ++ [0x80] ++ replicate (Z.to_nat ((55 - n) mod 64)) 0 ++ le_bytes 8 (8 * n).
Fixpoint blocks (n : nat) (l : list Z) : list (list Z) :=
  match n with O => [] | S n => take 64 l :: blocks n (drop 64 l) end.
Definition rfc_md5 (msg : list Z) : list Z :=
  let p := rfc_pad msg in
  let '(a, b, c, d) := foldl rfc_block (0x67452301, 0xEFCDAB89, 0x98BADCFE, 0x10325476) (blocks (length p / 64) p) in
  le_bytes 4 a ++ le_bytes 4 b ++ le_bytes 4 c ++ le_bytes 4 d.
