(* ===== verification/Md5Props.v ===== *)
(** * md5.c computes MD5 *)

From S2P Require Import Prelude CMem Md5.
Import (notations) Ascii String.

(** ** The sixty-four steps are those of the tables *)

Lemma assign_step m i l a b c d e (k : Z -> Z * Z * Z * Z) :
  e = (rfc_step m (a, b, c, d) i).1.1.2 -> (forall x, k x = foldl (rfc_step m) (d, x, b, c) l) ->
  assign e k = foldl (rfc_step m) (a, b, c, d) (i :: l).
Proof. intros -> Hk. unfold assign. now rewrite Hk. Qed.

Lemma md5_steps_rfc m a b c d : md5_steps m a b c d = rfc_steps m (a, b, c, d).
Proof.
  unfold md5_steps, rfc_steps. let l := eval cbv in (seq 0 64) in change (seq 0 64) with l.
  do 64 (apply assign_step; [reflexivity|intros ?]). reflexivity.
Qed.

(** ** Blocks *)

Lemma nth_drop_Z (l : list Z) j k d : nth (j + k) l d = nth k (drop j l) d.
Proof. revert j. induction l as [|x l IH]; intros [|j]; cbn; auto. now destruct k. Qed.

Lemma nth_byte (l : list Z) k : Forall is_byte l -> is_byte (nth k l 0).
Proof.
  intros Hl. revert k. induction Hl as [|x l Hx Hl IH]; intros [|k]; cbn; auto; split; lia.
Qed.

Lemma word_at_le block i : Forall is_byte block -> length block = 64%nat -> (i < 16)%nat ->
  word_at block i = le_val (take 4 (drop (4 * i) block)).
Proof.
  intros Hb Hl Hi. unfold word_at. cbv zeta beta. rewrite <- (Nat.add_0_r (4 * i)) at 1. rewrite !nth_drop_Z.
  pose proof (length_drop block (4 * i)) as Hd. rewrite Hl in Hd. apply (Forall_drop _ (4 * i)) in Hb.
  destruct (drop (4 * i) block) as [|c0 [|c1 [|c2 [|c3 r]]]]; cbn [length] in Hd; [lia..|].
  cbn [nth]. change (take 4 (c0 :: c1 :: c2 :: c3 :: r)) with [c0; c1; c2; c3]. cbn [le_val]. rewrite !Z.shiftl_mul_pow2 by lia.
  repeat (apply Forall_cons_iff in Hb as [? Hb]). unfold is_byte in *. rewrite u32_small; lia.
Qed.

Lemma rfc_word_lt i : (rfc_word i < 16)%nat.
Proof. unfold rfc_word. destruct (i / 16)%nat as [|[|[|?]]]; apply Nat.mod_upper_bound; lia. Qed.

Lemma rfc_steps_ext m m' r : (forall i, (i < 16)%nat -> m i = m' i) -> rfc_steps m r = rfc_steps m' r.
Proof.
  intros E. unfold rfc_steps. revert r. induction (seq 0 64) as [|i l IH]; intros r; [reflexivity|].
  cbn [foldl]. rewrite IH. f_equal. destruct r as [[[a b] c] d]. unfold rfc_step. now rewrite E by apply rfc_word_lt.
Qed.

Definition words (st : Z * Z * Z * Z) : list Z := let '(a, b, c, d) := st in [a; b; c; d].

Lemma md5_transform_rfc ctx block st :
  state ctx = words st -> Forall is_byte block -> length block = 64%nat ->
  md5_transform ctx block = Ctx (data ctx) (datalen ctx) (bitlen ctx) (words (rfc_block st block)).
Proof.
  intros Hs Hb Hl. unfold md5_transform. rewrite Hs. destruct st as [[[a b] c] d]. cbn [words nth].
  rewrite md5_steps_rfc. unfold rfc_block.
  rewrite (rfc_steps_ext (word_at block) (fun i => le_val (take 4 (drop (4 * i) block)))) by (intros; now apply word_at_le).
  now destruct (rfc_steps _ _) as [[[? ?] ?] ?].
Qed.

Lemma blocks_snoc n : forall l b, length l = (64 * n)%nat -> length b = 64%nat -> blocks (S n) (l ++ b) = blocks n l ++ [b].
Proof.
  induction n as [|n IH]; intros l b Hl Hb.
  - destruct l; [|discriminate]. cbn. now rewrite firstn_all2 by lia.
  - cbn [blocks]. rewrite take_app_le, drop_app_le by lia. cbn [app]. f_equal. apply IH; [rewrite length_drop; lia|exact Hb].
Qed.

(** ** What a context has absorbed *)

Definition rfc_init : Z * Z * Z * Z := (0x67452301, 0xEFCDAB89, 0x98BADCFE, 0x10325476).

(** [n] whole blocks went into the state, the rest waits in [data]. *)
Definition absorbed (ctx : MD5_CTX) (n : nat) (full tail : list Z) : Prop :=
  length full = (64 * n)%nat /\ (length tail < 64)%nat /\ Forall is_byte full /\ Forall is_byte tail /\
  length (data ctx) = 64%nat /\ datalen ctx = Z.of_nat (length tail) /\ take (length tail) (data ctx) = tail /\
  bitlen ctx = u64 (512 * Z.of_nat n) /\ state ctx = words (foldl rfc_block rfc_init (blocks n full)).

Lemma take_insert_snoc (l : list Z) i x t :
  take i l = t -> length t = i -> (i < length l)%nat -> take (S i) (<[i := x]> l) = t ++ [x].
Proof.
  intros Ht Hl Hi. rewrite (take_S_r _ _ x) by now apply list_lookup_insert_eq. now rewrite take_insert_ge, Ht by lia.
Qed.

Lemma update_byte_absorbed ctx n full tail b : absorbed ctx n full tail -> is_byte b ->
  exists n' full' tail', absorbed (md5_update_byte ctx b) n' full' tail' /\ full' ++ tail' = full ++ tail ++ [b].
Proof.
  intros (Hf & Ht & Hbf & Hbt & Hd & Hdl & Htk & Hbl & Hst) Hb. unfold md5_update_byte. rewrite Hdl, Nat2Z.id.
  rewrite u32_small by lia. cbn [datalen].
  assert (Hblk : take (S (length tail)) (<[length tail := b]> (data ctx)) = tail ++ [b]) by (apply take_insert_snoc; auto; lia).
  destruct (_ =? 64) eqn:E; zbool.
  - assert (Hd' : <[length tail := b]> (data ctx) = tail ++ [b]).
    { rewrite <- Hblk. symmetry. apply take_ge. rewrite length_insert. lia. }
    assert (Hlen : length (tail ++ [b]) = 64%nat) by (rewrite length_app; cbn; lia).
    assert (Hby : Forall is_byte (tail ++ [b])) by (apply Forall_app; auto).
    exists (S n), (full ++ tail ++ [b]), []. cbn [data]. rewrite Hd'.
    rewrite (md5_transform_rfc _ _ (foldl rfc_block rfc_init (blocks n full))) by (cbn; assumption).
    split; [|now rewrite app_nil_r]. cbn [data datalen bitlen state]. unfold absorbed. cbn [data datalen bitlen state length take].
    split; [rewrite length_app, Hlen; lia|]. split; [lia|]. split; [apply Forall_app; auto|]. split; [constructor|].
    split; [exact Hlen|]. split; [reflexivity|]. split; [reflexivity|]. split.
    + rewrite Hbl. unfold u64. rewrite Zplus_mod_idemp_l. f_equal. lia.
    + rewrite blocks_snoc, foldl_app by assumption. reflexivity.
  - exists n, full, (tail ++ [b]). split; [|reflexivity]. unfold absorbed. cbn [data datalen bitlen state].
    rewrite length_insert, length_app. cbn [length]. split; [exact Hf|]. split; [lia|]. split; [exact Hbf|].
    split; [apply Forall_app; auto|]. split; [exact Hd|]. split; [lia|]. split; [|auto]. now rewrite Nat.add_1_r.
Qed.

Lemma update_absorbed bytes : forall ctx n full tail, absorbed ctx n full tail -> Forall is_byte bytes ->
  exists n' full' tail', absorbed (md5_update ctx bytes) n' full' tail' /\ full' ++ tail' = full ++ tail ++ bytes.
Proof.
  induction bytes as [|b bytes IH]; intros ctx n full tail Ha Hb.
  - exists n, full, tail. split; [exact Ha|now rewrite app_nil_r].
  - apply Forall_cons_iff in Hb as [Hb Hbs]. destruct (update_byte_absorbed _ _ _ _ b Ha Hb) as (n1 & f1 & t1 & Ha1 & E1).
    destruct (IH _ _ _ _ Ha1 Hbs) as (n2 & f2 & t2 & Ha2 & E2). exists n2, f2, t2. split; [exact Ha2|].
    rewrite E2, app_assoc, E1, <- !app_assoc. reflexivity.
Qed.

Lemma chunks_absorbed chunks : forall ctx n full tail, absorbed ctx n full tail -> Forall (Forall is_byte) chunks ->
  exists n' full' tail', absorbed (foldl md5_update ctx chunks) n' full' tail' /\ full' ++ tail' = full ++ tail ++ concat chunks.
Proof.
  induction chunks as [|c chunks IH]; intros ctx n full tail Ha Hb.
  - exists n, full, tail. split; [exact Ha|now rewrite app_nil_r].
  - apply Forall_cons_iff in Hb as [Hb Hbs]. destruct (update_absorbed c _ _ _ _ Ha Hb) as (n1 & f1 & t1 & Ha1 & E1).
    destruct (IH _ _ _ _ Ha1 Hbs) as (n2 & f2 & t2 & Ha2 & E2). exists n2, f2, t2. split; [exact Ha2|].
    cbn [concat]. rewrite E2, app_assoc, E1, <- !app_assoc. reflexivity.
Qed.

Lemma init_absorbed ctx : length (data ctx) = 64%nat -> absorbed (md5_init ctx) 0 [] [].
Proof. intros H. repeat split; cbn; auto; lia. Qed.

(** ** Padding *)

Lemma zero_from_spec k : forall l i, (i + k <= length l)%nat ->
  foldl (fun l k => <[k := 0]> l) l (seq i k) = take i l ++ replicate k 0 ++ drop (i + k) l.
Proof.
  induction k as [|k IH]; intros l i Hi; cbn [seq foldl replicate app].
  - rewrite Nat.add_0_r. symmetry. apply take_drop.
  - rewrite IH by (rewrite length_insert; lia). rewrite (take_insert_snoc l i 0 (take i l)) by (rewrite ?length_take; auto; lia).
    rewrite drop_insert_lt by lia. rewrite <- app_assoc. cbn [app]. now rewrite Nat.add_succ_comm.
Qed.

(** The data with the terminator and zeros behind the tail. *)
Lemma pad_data ctx n full tail stop : absorbed ctx n full tail -> (length tail < stop <= 64)%nat ->
  zero_from (<[length tail := 0x80]> (data ctx)) (length tail + 1) stop =
  (tail ++ [0x80] ++ replicate (stop - (length tail + 1)) 0) ++ drop stop (data ctx).
Proof.
  intros (_ & Ht & _ & _ & Hd & _ & Htk & _) Hs. unfold zero_from. rewrite zero_from_spec by (rewrite length_insert; lia).
  rewrite Nat.add_1_r, (take_insert_snoc _ _ _ tail) by (auto; lia). replace (S (length tail) + (stop - S (length tail)))%nat with stop by lia.
  rewrite drop_insert_lt by lia. now rewrite <- !app_assoc.
Qed.

Definition length_bytes (v : Z) : list Z := (fun k => u8 (Z.shiftr v (8 * Z.of_nat k))) <$> seq 0 8.

Lemma put_length_data P Q v : length P = 56%nat -> length Q = 8%nat ->
  foldl (fun l k => <[(56 + k)%nat := u8 (Z.shiftr v (8 * Z.of_nat k))]> l) (P ++ Q) (seq 0 8) = P ++ length_bytes v.
Proof.
  intros HP HQ. rewrite <- HP. unfold length_bytes. cbn [seq foldl fmap list_fmap]. rewrite !insert_app_r.
  do 8 (destruct Q as [|? Q]; [discriminate|]). destruct Q; [|discriminate]. reflexivity.
Qed.

Lemma length_bytes_le v : length_bytes (u64 v) = le_bytes 8 v.
Proof.
  unfold length_bytes. cbn [seq fmap list_fmap le_bytes]. rewrite !Z.shiftr_div_pow2 by lia. unfold u8, u64.
  repeat match goal with |- _ :: _ = _ :: _ => f_equal end; try reflexivity; cbn [Z.of_nat Z.mul Z.pow];
    rewrite ?Z.div_div by lia; Z.div_mod_to_equations; lia.
Qed.

(** ** The end of a message *)

Lemma length_length_bytes v : length (length_bytes v) = 8%nat.
Proof. reflexivity. Qed.

Lemma length_bytes_ok v : Forall is_byte (length_bytes v).
Proof. apply Forall_fmap. rewrite Forall_forall. intros k _. apply u8_range. Qed.

(** The last block: the padded data with the length, into the state. *)
Lemma last_block_spec ctx st P Q len :
  state ctx = words st -> data ctx = P ++ Q -> length P = 56%nat -> length Q = 8%nat -> Forall is_byte P ->
  u64 (bitlen ctx + u32 (datalen ctx * 8)) = u64 len ->
  let c := md5_put_length ctx in
  state (md5_transform c (data c)) = words (rfc_block st (P ++ le_bytes 8 len)).
Proof.
  intros Hs Hd HP HQ Hb Hlen. cbv zeta. unfold md5_put_length. cbn [data]. rewrite Hd, put_length_data, Hlen, length_bytes_le by assumption.
  rewrite (md5_transform_rfc _ _ st); cbn [state]; auto.
  - apply Forall_app. split; [exact Hb|apply le_bytes_bytes].
  - rewrite length_app, length_le_bytes. lia.
Qed.

Lemma bits_spec n (r : nat) : (r < 64)%nat ->
  u64 (u64 (512 * Z.of_nat n) + u32 (Z.of_nat r * 8)) = u64 (8 * Z.of_nat (64 * n + r)).
Proof. intros Hr. rewrite u32_small by lia. unfold u64. rewrite Zplus_mod_idemp_l. f_equal. lia. Qed.

Lemma hash_word a :
  [Z.land (Z.shiftr a (0 * 8)) 0xff; Z.land (Z.shiftr a (1 * 8)) 0xff; Z.land (Z.shiftr a (2 * 8)) 0xff; Z.land (Z.shiftr a (3 * 8)) 0xff] =
  le_bytes 4 a.
Proof.
  cbn [le_bytes]. change 0xff with (Z.ones 8). rewrite !Z.land_ones, !Z.shiftr_div_pow2 by lia. change (2 ^ 8) with 256.
  change (2 ^ (0 * 8)) with 1. change (2 ^ (1 * 8)) with 256. change (2 ^ (2 * 8)) with (256 * 256). change (2 ^ (3 * 8)) with (256 * 256 * 256).
  rewrite Z.div_1_r, !Z.div_div by lia. reflexivity.
Qed.

Definition rfc_out (st : Z * Z * Z * Z) : list Z :=
  let '(a, b, c, d) := st in le_bytes 4 a ++ le_bytes 4 b ++ le_bytes 4 c ++ le_bytes 4 d.

Lemma final_out ctx st :
  state (md5_transform (md5_put_length (md5_pad ctx)) (data (md5_put_length (md5_pad ctx)))) = words st ->
  (md5_final ctx).2 = rfc_out st.
Proof.
  intros E. unfold md5_final. cbv zeta. cbn [snd]. rewrite E. destruct st as [[[a b] c] d]. cbn [words nth].
  unfold rfc_out. now rewrite <- !hash_word.
Qed.

(** The padded message is the absorbed blocks and one or two more. *)
Definition ending (n : nat) (tail : list Z) : list (list Z) :=
  let r := length tail in
  let len := le_bytes 8 (8 * Z.of_nat (64 * n + r)) in
  if (r <? 56)%nat then [(tail ++ [0x80] ++ replicate (55 - r) 0) ++ len]
  else [tail ++ [0x80] ++ replicate (63 - r) 0; replicate 56 0 ++ len].

Lemma rfc_md5_ending n full tail : length full = (64 * n)%nat -> (length tail < 64)%nat ->
  rfc_md5 (full ++ tail) = rfc_out (foldl rfc_block rfc_init (blocks n full ++ ending n tail)).
Proof.
  intros Hf Ht. unfold rfc_md5. cbv zeta.
  enough (E : blocks (length (rfc_pad (full ++ tail)) / 64) (rfc_pad (full ++ tail)) = blocks n full ++ ending n tail) by now rewrite E.
  assert (Hft : length (full ++ tail) = (64 * n + length tail)%nat) by (rewrite length_app; lia).
  unfold rfc_pad, ending. cbv zeta. rewrite Hft. destruct (Nat.ltb_spec (length tail) 56) as [Hr|Hr].
  - replace (Z.to_nat ((55 - Z.of_nat (64 * n + length tail)) mod 64)) with (55 - length tail)%nat by (Z.div_mod_to_equations; lia).
    rewrite <- (blocks_snoc n) by (rewrite ?length_app, ?length_replicate, ?length_le_bytes; cbn [length]; lia).
    rewrite <- !app_assoc. f_equal. rewrite !length_app, length_replicate, length_le_bytes, Hf. cbn [length].
    replace (64 * n + (length tail + (1 + (55 - length tail + 8))))%nat with (S n * 64)%nat by lia. apply Nat.div_mul. lia.
  - replace (Z.to_nat ((55 - Z.of_nat (64 * n + length tail)) mod 64)) with (63 - length tail + 56)%nat by (Z.div_mod_to_equations; lia).
    match goal with |- _ = _ ++ [?x; ?y] => change [x; y] with ([x] ++ [y]) end. rewrite (app_assoc (blocks n full)).
    rewrite <- (blocks_snoc n) by (rewrite ?length_app, ?length_replicate; cbn [length]; lia).
    rewrite <- (blocks_snoc (S n)) by (rewrite ?length_app, ?length_replicate, ?length_le_bytes; cbn [length]; lia).
    rewrite replicate_add, <- !app_assoc. f_equal. rewrite !length_app, !length_replicate, length_le_bytes, Hf. cbn [length].
    replace (64 * n + (length tail + (1 + (63 - length tail + (56 + 8)))))%nat with (S (S n) * 64)%nat by lia. apply Nat.div_mul. lia.
Qed.

Lemma final_absorbed ctx n full tail : absorbed ctx n full tail -> (md5_final ctx).2 = rfc_md5 (full ++ tail).
Proof.
  intros Ha. pose proof Ha as (Hf & Ht & Hbf & Hbt & Hd & Hdl & Htk & Hbl & Hst).
  rewrite (rfc_md5_ending n) by assumption. apply final_out. rewrite foldl_app. unfold ending. cbv zeta.
  assert (Hlen : u64 (bitlen ctx + u32 (Z.of_nat (length tail) * 8)) = u64 (8 * Z.of_nat (64 * n + length tail))).
  { rewrite Hbl. now apply bits_spec. }
  unfold md5_pad. cbv zeta. rewrite Hdl, Nat2Z.id. destruct (Nat.ltb_spec (length tail) 56) as [Hr|Hr].
  - rewrite (proj2 (Z.ltb_lt _ _)) by lia. rewrite (pad_data _ n full) by (auto; lia).
    replace (56 - (length tail + 1))%nat with (55 - length tail)%nat by lia. cbn [foldl].
    apply (last_block_spec _ _ _ (drop 56 (data ctx))); cbn [state data bitlen datalen]; auto.
    + rewrite !length_app, length_replicate. cbn [length]. lia.
    + rewrite length_drop. lia.
    + apply Forall_app. split; [exact Hbt|]. constructor; [split; lia|]. apply Forall_replicate. split; lia.
  - rewrite (proj2 (Z.ltb_ge _ _)) by lia. rewrite (pad_data _ n full) by (auto; lia).
    rewrite (drop_ge (data ctx)) by lia. rewrite app_nil_r. replace (64 - (length tail + 1))%nat with (63 - length tail)%nat by lia.
    set (blk := tail ++ [128] ++ replicate (63 - length tail) 0). cbn [data foldl].
    assert (Hblk : Forall is_byte blk /\ length blk = 64%nat).
    { unfold blk. split; [|rewrite !length_app, length_replicate; cbn [length]; lia].
      apply Forall_app. split; [exact Hbt|]. constructor; [split; lia|]. apply Forall_replicate. split; lia. }
    rewrite (md5_transform_rfc _ blk (foldl rfc_block rfc_init (blocks n full))) by (cbn [state]; tauto).
    cbn [data datalen bitlen state].
    apply (last_block_spec _ _ _ (drop 56 blk)); cbn [state data bitlen datalen]; auto.
    + rewrite length_drop. lia.
    + apply Forall_replicate. split; lia.
Qed.

(** The chunks before the first empty one. *)
Fixpoint until_empty (reads : list (list Z)) : list (list Z) :=
  match reads with [] => [] | [] :: _ => [] | r :: reads => r :: until_empty reads end.

Lemma main_loop_chunks ctx reads : main_loop ctx reads = foldl md5_update ctx (until_empty reads).
Proof.
  revert ctx. induction reads as [|[|c r] reads IH]; intros ctx; [reflexivity..|]. cbn [main_loop until_empty foldl length Nat.eqb]. apply IH.
Qed.

(** What [main] prints for a file is the digest of the bytes up to its first
    empty read; a file whose reads are not empty is hashed whole. *)
Lemma md5_main_chunks ctx reads : md5_main ctx reads = md5_file ctx (until_empty reads).
Proof. unfold md5_main. now rewrite main_loop_chunks. Qed.

Lemma until_empty_all reads : Forall (fun r => r <> []) reads -> until_empty reads = reads.
Proof. induction 1 as [|[|c r] reads Hr _ IH]; [reflexivity|easy|]. cbn. now rewrite IH. Qed.

Lemma until_empty_bytes chunks : Forall (Forall is_byte) chunks -> Forall (Forall is_byte) (until_empty chunks).
Proof. induction 1 as [|[|c r] chunks Hc _ IH]; [constructor..|]. now constructor. Qed.

Lemma md5_file_rfc ctx chunks :
  length (data ctx) = 64%nat -> Forall (Forall is_byte) chunks -> md5_file ctx chunks = rfc_md5 (concat chunks).
Proof.
  intros Hd Hb. destruct (chunks_absorbed chunks _ _ _ _ (init_absorbed ctx Hd) Hb) as (n & full & tail & Ha & E).
  unfold md5_file. now rewrite (final_absorbed _ n full tail Ha), E.
Qed.

(** C21: The md5 program computes MD5.  For every file and every way its bytes
    arrive in chunks, what md5_init, the md5_update calls and md5_final leave in
    the hash is the MD5 digest of RFC 1321 of the whole file, for any earlier
    contents of the context; and the loop of main, which an empty read ends,
    prints the digest of what it read before. *)
Theorem md5_correct ctx chunks :
  length (data ctx) = 64%nat -> Forall (Forall is_byte) chunks ->
  md5_file ctx chunks = rfc_md5 (concat chunks) /\ md5_main ctx chunks = rfc_md5 (concat (until_empty chunks)).
Proof.
  intros Hd Hb. rewrite md5_main_chunks. split; apply md5_file_rfc; auto using until_empty_bytes.
Qed.

Lemma md5_correct_witness :
  md5_file (Ctx (replicate 64 255) 9 9 []) [str "a"; []; str "bc"] = rfc_md5 (str "abc") /\
  md5_main (Ctx (replicate 64 255) 9 9 []) [str "a"; str "bc"] = rfc_md5 (str "abc") /\
  rfc_md5 (str "abc") = [0x90; 0x01; 0x50; 0x98; 0x3c; 0xd2; 0x4f; 0xb0; 0xd6; 0x96; 0x3f; 0x7d; 0x28; 0xe1; 0x7f; 0x72].
Proof.
  split; [|split; [|vm_compute; reflexivity]].
  - apply (md5_correct (Ctx (replicate 64 255) 9 9 []) [str "a"; []; str "bc"]); [reflexivity|].
    repeat (apply Forall_cons_iff; split; [now apply bytesb_true|]). apply Forall_nil_2.
  - apply (md5_correct (Ctx (replicate 64 255) 9 9 []) [str "a"; str "bc"]); [reflexivity|].
    repeat (apply Forall_cons_iff; split; [now apply bytesb_true|]). apply Forall_nil_2.
Defined.
