(* ===== verification/Scanf.v ===== *)
(** * libc/src/stdio/scanf.c: formatted input

    The input and the format are C strings as lists of bytes; a pointer into
    one is the rest of it.  What the call stores through its pointer arguments
    is a list, in the order of the arguments. *)

From S2P Require Import Prelude CMem Ctype.
Import (notations) Ascii String.

(** [*p]: the terminator at the end. *)
Definition cur (s : list Z) : Z := match s with c :: _ => s8 c | [] => 0 end.
Definition at_end (s : list Z) : bool := cur s =? 0.

(** The value of the digit [c] as simple_strtoul computes it, an unsigned long. *)
Definition scan_value (c : Z) : Z := u64 (if isdigit c then c - ch "0" else toupper c - ch "A" + 10).
Definition scan_value_ll (c : Z) : Z :=
  u64 (if isdigit c then c - ch "0" else (if islower c then toupper c else c) - ch "A" + 10).

(** [if (!base)]: the base the prefix asks for. *)
Definition scan_base (cp : list Z) (base : Z) : list Z * Z :=
  if base =? 0 then
    if cur cp =? ch "0" then
      let cp := drop 1 cp in
      if (cur cp =? ch "x") && isxdigit (cur (drop 1 cp)) then (drop 1 cp, 16) else (cp, 8)
    else (cp, 10)
  else (cp, base).

(** The loop over the digits: the result and the rest. *)
Fixpoint scan_digits (value : Z -> Z) (base result : Z) (cp : list Z) : Z * list Z :=
  match cp with
  | [] => (result, [])
  | b :: r =>
      if isxdigit (s8 b) && (value (s8 b) <? base) then scan_digits value base (u64 (u64 (result * base) + value (s8 b))) r
      else (result, cp)
  end.

Definition simple_strtoul (cp : list Z) (base : Z) : Z * list Z :=
  let '(cp, base) := scan_base cp base in scan_digits scan_value base 0 cp.
Definition simple_strtol (cp : list Z) (base : Z) : Z * list Z :=
  if cur cp =? ch "-" then let '(v, r) := simple_strtoul (drop 1 cp) base in (s64 (- v), r)
  else let '(v, r) := simple_strtoul cp base in (s64 v, r).
Definition simple_strtoull (cp : list Z) (base : Z) : Z * list Z :=
  let '(cp, base) := scan_base cp base in scan_digits scan_value_ll base 0 cp.
Definition simple_strtoll (cp : list Z) (base : Z) : Z * list Z :=
  if cur cp =? ch "-" then let '(v, r) := simple_strtoull (drop 1 cp) base in (s64 (- v), r)
  else let '(v, r) := simple_strtoull cp base in (s64 v, r).

Fixpoint skip_atoi (i : Z) (s : list Z) : Z * list Z :=
  match s with
  | b :: r => if isdigit (s8 b) then skip_atoi (s32 (i * 10 + s8 b - ch "0")) r else (i, s)
  | [] => (i, [])
  end.

Fixpoint skip_space (s : list Z) : list Z :=
  match s with b :: r => if isspace (s8 b) then skip_space r else s | [] => [] end.
Fixpoint to_space (s : list Z) : list Z :=
  match s with b :: r => if isspace (s8 b) then s else to_space r | [] => [] end.

(** What is stored through an argument: characters, a string with its
    terminator, or a number. *)
Inductive stored :=
| SChars (cs : list Z)
| SString (cs : list Z)
| SNum (v : Z).

(** [do *s++ = *str++; while (--field_width > 0 && *str);] *)
Fixpoint scan_chars (width : Z) (s : list Z) : list Z * list Z :=
  match s with
  | [] => ([], [])
  | b :: r =>
      let width := s32 (width - 1) in
      if (0 <? width) && negb (at_end r) then let '(cs, r) := scan_chars width r in (b :: cs, r) else ([b], r)
  end.

(** [while ( *str && !isspace( *str) && field_width--) *s++ = *str++;] *)
Fixpoint scan_word (width : Z) (s : list Z) : list Z * list Z :=
  match s with
  | [] => ([], [])
  | b :: r =>
      if negb (isspace (s8 b)) && negb (width =? 0) then
        let '(cs, r) := scan_word (s32 (width - 1)) r in (b :: cs, r)
      else ([], s)
  end.

(** The integer conversions: the stored value and the rest. *)
Definition scan_number (qualifier : Z) (is_sign : bool) (str : list Z) (base : Z) : Z * list Z :=
  if qualifier =? ch "h" then
    if is_sign then let '(v, r) := simple_strtol str base in (s16 v, r)
    else let '(v, r) := simple_strtoul str base in (u16 v, r)
  else if qualifier =? ch "l" then
    if is_sign then simple_strtol str base else simple_strtoul str base
  else if qualifier =? ch "L" then
    if is_sign then simple_strtoll str base else simple_strtoull str base
  else if (qualifier =? ch "Z") || (qualifier =? ch "z") then simple_strtoul str base
  else if is_sign then let '(v, r) := simple_strtol str base in (s32 v, r)
  else let '(v, r) := simple_strtoul str base in (u32 v, r).

(** The base and the sign of an integer conversion. *)
Definition int_conversion (c : Z) : option (Z * bool) :=
  if c =? ch "o" then Some (8, false)
  else if (c =? ch "x") || (c =? ch "X") then Some (16, false)
  else if c =? ch "i" then Some (0, true)
  else if c =? ch "d" then Some (10, true)
  else if c =? ch "u" then Some (10, false)
  else None.

(** Is there a number of the base? *)
Definition no_number (str : list Z) (base : Z) (is_sign : bool) : bool :=
  let digit := if is_sign && (cur str =? ch "-") then cur (drop 1 str) else cur str in
  (digit =? 0) || (base =? 16) && negb (isxdigit digit) || (base =? 10) && negb (isdigit digit) ||
  (base =? 8) && (negb (isdigit digit) || (ch "7" <? digit)) || (base =? 0) && negb (isdigit digit).

(** One conversion from its letter on: the loop goes on with the rest of the
    input, what was stored and how much [num] grows, or it ends with what was
    stored. *)
Definition scan_conversion (total : nat) (str : list Z) (c field_width qualifier : Z)
  : ctl (list Z * list stored * Z) (list stored) :=
  if c =? ch "c" then
    let '(cs, r) := scan_chars (if field_width =? -1 then 1 else field_width) str in Next (r, [SChars cs], 1)
  else if c =? ch "s" then
    let '(cs, r) := scan_word (if field_width =? -1 then 4 else field_width) (skip_space str) in Next (r, [SString cs], 1)
  else if c =? ch "n" then Next (str, [SNum (s32 (Z.of_nat total - Z.of_nat (length str)))], 0)
  else if c =? ch "%" then if cur str =? ch "%" then Next (drop 1 str, [], 0) else Break []
  else
    match int_conversion c with
    | None => Break []
    | Some (base, is_sign) =>
        let str := skip_space str in
        if no_number str base is_sign then Break []
        else let '(v, r) := scan_number qualifier is_sign str base in Next (r, [SNum v], 1)
    end.

(** A round of the loop with [*fmt && *str] true, after white space was
    skipped. *)
Definition scan_step (total : nat) (str fmt : list Z) : ctl (list Z * list Z * list stored * Z) (list stored) :=
  if negb (cur fmt =? ch "%") && negb (at_end fmt) then
    if cur fmt =? cur str then Next (drop 1 str, drop 1 fmt, [], 0) else Break []
  else if at_end fmt then Break []
  else
    let fmt := drop 1 fmt in
    if cur fmt =? ch "*" then Next (to_space str, to_space fmt, [], 0)
    else
      let '(field_width, fmt) := if isdigit (cur fmt) then skip_atoi 0 fmt else (-1, fmt) in
      let '(qualifier, fmt) :=
        if (cur fmt =? ch "h") || (cur fmt =? ch "l") || (cur fmt =? ch "L") || (cur fmt =? ch "Z") || (cur fmt =? ch "z")
        then (cur fmt, drop 1 fmt) else (-1, fmt) in
      if at_end fmt || at_end str then Break []
      else match scan_conversion total str (cur fmt) field_width qualifier with
           | Next (str, out, n) => Next (str, drop 1 fmt, out, n)
           | Break out => Break out
           end.

(** The loop: [num] and what was stored.  Every round consumes a character of the
    format. *)
Fixpoint scan_loop (fuel total : nat) (str fmt : list Z) (num : Z) : option (Z * list stored) :=
  match fuel with
  | O => None
  | S fuel =>
      if at_end fmt || at_end str then Some (num, []) else
      let '(str, fmt) := if isspace (cur fmt) then (skip_space str, skip_space fmt) else (str, fmt) in
      match scan_step total str fmt with
      | Break out => Some (num, out)
      | Next (str, fmt, out, n) =>
          r ← scan_loop fuel total str fmt (num + n);
          Some (r.1, out ++ r.2)
      end
  end.

Definition vsscanf (buf fmt : list Z) : option (Z * list stored) := scan_loop (S (length fmt)) (length buf) buf fmt 0.
Definition sscanf (buf fmt : list Z) : option (Z * list stored) := vsscanf buf fmt.
