(* ===== verification/Inet.v ===== *)
(** * libc/src/socket.c: addresses

    An IPv4 address is four bytes, an IPv6 address sixteen, in network order.
    Strings are lists of bytes; printing and scanning are the library's own
    [snprintf] and [sscanf]. *)

From S2P Require Import Prelude CMem State Ctype StrSpec Double Printf Scanf.
Import (notations) Ascii String.

Definition AF_INET : Z := 2.
Definition AF_INET6 : Z := 10.
Definition EAFNOSUPPORT : Z := 97.
Definition ENOSPC : Z := 28.

(** ** Byte order: the host is little endian *)

Definition bswap_16 (x : Z) : Z := u16 (Z.lor (Z.shiftl x 8) (Z.shiftr x 8)).
Definition bswap_32 (x : Z) : Z :=
  Z.lor (Z.lor (Z.lor (Z.shiftr x 24) (Z.land (Z.shiftr x 8) 0xff00)) (Z.land (u32 (Z.shiftl x 8)) 0xff0000)) (u32 (Z.shiftl x 24)).
(** [u.c] of the union with [int i = 1]. *)
Definition low_byte_of_one : Z := nth 0 (le_bytes 4 1) 0.
Definition htons (n : Z) : Z := if negb (low_byte_of_one =? 0) then bswap_16 n else n.
Definition htonl (n : Z) : Z := if negb (low_byte_of_one =? 0) then bswap_32 n else n.
Definition ntohs (n : Z) : Z := if negb (low_byte_of_one =? 0) then bswap_16 n else n.
Definition ntohl (n : Z) : Z := if negb (low_byte_of_one =? 0) then bswap_32 n else n.

(** ** Dotted addresses *)

(** The text of a call of [snprintf] with a buffer of [size] bytes, and its
    result. *)
Definition snprintf_text (size : Z) (format : list Z) (va : list arg) : option (list Z * Z) :=
  match _vsnprintf format va with
  | Done w _ => Some (if size =? 0 then [] else u8 <$> take (Z.to_nat (size - 1)) w, s32 (len_of w))
  | _ => None
  end.

Definition byte_args (a : list Z) : list arg := AInt <$> a.

Definition inet_ntoa (a : list Z) : option (list Z) :=
  fst <$> snprintf_text 16 (str "%d.%d.%d.%d") (byte_args a).

(** [uint32_t out[4]] after [sscanf]. *)
Definition scanned (st : list stored) : list Z := (fun s => match s with SNum v => u32 v | _ => 0 end) <$> st.

(** The bytes of [dest] while they are stored. *)
Fixpoint aton_store (out : list Z) (d : list Z) (i : nat) : Z * list Z :=
  match out with
  | [] => (1, d)
  | v :: out => if 255 <? v then (0, d) else aton_store out (<[i := v]> d) (S i)
  end.
Definition inet_aton (s0 : list Z) (dest : list Z) : option (Z * list Z) :=
  '(n, st) ← sscanf s0 (str "%d.%d.%d.%d");
  Some (if negb (n =? 4) then (0, dest) else aton_store (scanned st) dest 0).

Definition inet_addr (p : list Z) : option Z :=
  '(r, a) ← inet_aton p (replicate 4 0);
  Some (if r =? 0 then u32 (-1) else le_val a).
Definition inet_network (p : list Z) : option Z := ntohl <$> inet_addr p.

(** ** inet_pton *)

(** [hexval] of an unsigned [c]: -1 for no digit. *)
Definition hexval (c : Z) : Z :=
  if u32 (c - ch "0") <? 10 then s32 (c - ch "0") else
  let c := Z.lor c 32 in
  if u32 (c - ch "a") <? 6 then s32 (c - ch "a" + 10) else -1.
Definition isdigit_u (c : Z) : bool := u32 (u32 c - ch "0") <? 10.

(** [s[i]]. *)
Definition at_ (s : list Z) (i : nat) : Z := s8 (nth i s 0).

(** [for (v = j = 0; j < 3 && isdigit(s[j]); j++) v = 10 * v + s[j] - '0';] *)
Fixpoint dec_digits (fuel : nat) (s : list Z) (j : nat) (v : Z) : Z * nat :=
  match fuel with
  | O => (v, j)
  | S fuel => if isdigit_u (at_ s j) then dec_digits fuel s (S j) (10 * v + at_ s j - ch "0") else (v, j)
  end.

(** The four rounds of the AF_INET case, from round [i] on. *)
Fixpoint pton4 (rounds : nat) (i : nat) (s a : list Z) : Z * list Z :=
  match rounds with
  | O => (0, a)
  | S rounds =>
      let '(v, j) := dec_digits 3 s 0 0 in
      if (j =? 0)%nat || (1 <? j)%nat && (at_ s 0 =? ch "0") || (255 <? v) then (0, a) else
      let a := <[i := u8 v]> a in
      if (at_ s j =? 0) && (i =? 3)%nat then (1, a)
      else if negb (at_ s j =? ch ".") then (0, a)
      else pton4 rounds (S i) (drop (j + 1) s) a
  end.

(** [for (v = j = 0; j < 4 && (d = hexval(s[j])) >= 0; j++) v = 16 * v + d;] *)
Fixpoint hex_digits (fuel : nat) (s : list Z) (j : nat) (v : Z) : Z * nat :=
  match fuel with
  | O => (v, j)
  | S fuel => let d := hexval (u32 (at_ s j)) in
              if 0 <=? d then hex_digits fuel s (S j) (16 * v + d) else (v, j)
  end.

(** The loop over the groups: [i], [brk], the rest of the text, [ip] and
    [need_v4] when it breaks; [None] is [return 0]. *)
Fixpoint pton6_groups (fuel : nat) (i brk : Z) (s ip : list Z) : option (Z * Z * list Z * list Z * bool) :=
  match fuel with
  | O => None
  | S fuel =>
      let k := Z.to_nat (Z.land i 7) in
      if (at_ s 0 =? ch ":") && (brk <? 0) then
        let ip := <[k := 0]> ip in
        let s := drop 1 s in
        if at_ s 0 =? 0 then Some (i, i, s, ip, false)
        else if i =? 7 then None
        else pton6_groups fuel (i + 1) i s ip
      else
        let '(v, j) := hex_digits 4 s 0 0 in
        if (j =? 0)%nat then None else
        let ip := <[k := u16 v]> ip in
        if (at_ s j =? 0) && ((0 <=? brk) || (i =? 7)) then Some (i, brk, s, ip, false)
        else if i =? 7 then None
        else if negb (at_ s j =? ch ":") then
          if negb (at_ s j =? ch ".") || (i <? 6) && (brk <? 0) then None
          else Some (i + 1, brk, s, ip, true)
        else pton6_groups fuel (i + 1) brk (drop (j + 1) s) ip
  end.

(** [memmove(ip + brk + 7 - i, ip + brk, 2 * (i + 1 - brk))] and the zeros. *)
Definition pton6_gap (i brk : Z) (ip : list Z) : list Z :=
  if 0 <=? brk then
    let b := Z.to_nat brk in
    let seg := take (Z.to_nat (i + 1 - brk)) (drop b ip) in
    take b ip ++ replicate (Z.to_nat (7 - i)) 0 ++ seg ++ drop (b + Z.to_nat (7 - i) + length seg) ip
  else ip.

(** [ip0] is what the array holds before. *)
Definition pton6 (ip0 s a : list Z) : Z * list Z :=
  let start := if at_ s 0 =? ch ":" then let s := drop 1 s in if at_ s 0 =? ch ":" then Some s else None else Some s in
  match start with
  | None => (0, a)
  | Some s =>
      match pton6_groups (S (length s)) 0 (-1) s ip0 with
      | None => (0, a)
      | Some (i, brk, s, ip, need_v4) =>
          let a := mjoin ((fun g => [Z.shiftr g 8; u8 g]) <$> pton6_gap i brk ip) in
          if need_v4 : bool then
            let '(r, last) := pton4 4 0 s (drop 12 a) in
            (if r <=? 0 then 0 else 1, take 12 a ++ last)
          else (1, a)
      end
  end.

(** The result, the address and [errno]. *)
Definition inet_pton (ip0 : list Z) (af : Z) (s a : list Z) : Z * list Z * option Z :=
  if af =? AF_INET then (pton4 4 0 s a, None)
  else if negb (af =? AF_INET6) then (-1, a, Some EAFNOSUPPORT)
  else (pton6 ip0 s a, None).

(** ** inet_ntop *)

Definition group (a : list Z) (i : nat) : Z := 256 * nth (2 * i) a 0 + nth (2 * i + 1) a 0.
Definition v4_mapped : list Z := replicate 10 0 ++ [255; 255].

(** [for (i = best = 0, max = 2; buf[i]; i++)]: the longest run of ':' and '0'
    that starts the text or a group. *)
Fixpoint longest_zeros (s : list Z) (i best max : Z) : Z * Z * Z :=
  match s with
  | [] => (best, max, i)
  | c :: r =>
      let j := Z.of_nat (span (fun c => (c =? ch ":") || (c =? ch "0")) s) in
      if negb (i =? 0) && negb (c =? ch ":") then longest_zeros r (i + 1) best max
      else if max <? j then longest_zeros r (i + 1) i j
      else longest_zeros r (i + 1) best max
  end.

Definition compress (buf : list Z) : list Z :=
  let '(best, max, i) := longest_zeros buf 0 0 2 in
  if 3 <? max then take (Z.to_nat best) buf ++ [ch ":"; ch ":"] ++ drop (Z.to_nat (best + max)) buf
  else buf.

Definition ntop6_text (a : list Z) : option (list Z) :=
  fst <$> (if negb (bool_decide (take 12 a = v4_mapped)) then
             snprintf_text 100 (str "%x:%x:%x:%x:%x:%x:%x:%x") (byte_args (group a <$> seq 0 8))
           else
             snprintf_text 100 (str "%x:%x:%x:%x:%x:%x:%d.%d.%d.%d") (byte_args ((group a <$> seq 0 6) ++ drop 12 a))).

(** The text in [s] or an [errno]; [None] when the engine faults. *)
Definition inet_ntop (af : Z) (a : list Z) (l : Z) : option (list Z + Z) :=
  if af =? AF_INET then
    '(t, n) ← snprintf_text (u64 l) (str "%d.%d.%d.%d") (byte_args a);
    Some (if n <? l then inl t else inr ENOSPC)
  else if af =? AF_INET6 then
    t ← ntop6_text a;
    let t := compress t in
    Some (if Z.of_nat (length t) <? u64 l then inl t else inr ENOSPC)
  else Some (inr EAFNOSUPPORT).

(** ** Classes of networks *)

Definition inet_makeaddr (n h : Z) : Z :=
  Z.lor h (if n <? 256 then u32 (Z.shiftl n 24) else if n <? 65536 then u32 (Z.shiftl n 16) else u32 (Z.shiftl n 8)).
Definition inet_lnaof (h : Z) : Z :=
  if Z.shiftr h 24 <? 128 then Z.land h 0xffffff else if Z.shiftr h 24 <? 192 then Z.land h 0xffff else Z.land h 0xff.
Definition inet_netof (h : Z) : Z :=
  if Z.shiftr h 24 <? 128 then Z.shiftr h 24 else if Z.shiftr h 24 <? 192 then Z.shiftr h 16 else Z.shiftr h 8.
