(* ===== verification/InetProps.v ===== *)
(** * Addresses printed and read back *)

From S2P Require Import Prelude CMem State Ctype StrSpec Double Printf PrintfSpec PrintfProps Scanf Inet.
Import (notations) Ascii String.

(** ** Decimal numerals *)

Definition dec_value (n : Z) (t : list Z) : Z := foldl (fun n c => 10 * n + (c - 48)) n t.

(** The shortest decimal numeral of a number. *)
Record numeral (v : Z) (t : list Z) : Prop := {
  nu_some : t <> [];
  nu_digits : Forall (fun c => 48 <= c <= 57) t;
  nu_value : dec_value 0 t = v;
  nu_min : len_of t = 1 \/ 10 ^ (len_of t - 1) <= v }.

Lemma dec_value_digits ds : Forall (fun d => 0 <= d < 10) ds ->
  forall n, dec_value n (rev (digit_char 0 <$> ds)) = n * 10 ^ len_of ds + val_le 10 ds.
Proof.
  induction 1 as [|d ds Hd _ IH]; intros n; cbn [fmap list_fmap rev val_le].
  - change (len_of []) with 0. cbn. lia.
  - unfold dec_value in *. rewrite foldl_app, IH. cbn [foldl]. rewrite digit_char_dec by exact Hd.
    replace (len_of (d :: ds)) with (len_of ds + 1) by (unfold len_of; cbn [length]; lia).
    rewrite Z.pow_add_r by (pose proof (len_of_nonneg ds); lia). lia.
Qed.

Lemma dec_value_bounds t : Forall (fun c => 48 <= c <= 57) t ->
  forall n, n * 10 ^ len_of t <= dec_value n t < (n + 1) * 10 ^ len_of t.
Proof.
  induction 1 as [|c t Hc _ IH]; intros n.
  - change (len_of []) with 0. cbn. lia.
  - specialize (IH (10 * n + (c - 48))). cbn [dec_value foldl]. change (foldl _ ?x t) with (dec_value x t).
    replace (len_of (c :: t)) with (len_of t + 1) by (unfold len_of; cbn [length]; lia).
    pose proof (len_of_nonneg t). rewrite Z.pow_add_r by lia. assert (0 < 10 ^ len_of t) by (apply Z.pow_pos_nonneg; lia). nia.
Qed.

(** What "%d" prints. *)
Lemma conv_int_numeral v va : 0 <= v < 2 ^ 31 ->
  exists t, conv_int (ch "d") 0 0 0 (AInt v :: va) = Done t va /\ numeral v t.
Proof.
  intros Hv. destruct (ntoa_plain v false va) as (ds & Hr & Hne & Hval & _ & Hmin & E); [lia|].
  exists (rev (digit_char 0 <$> ds)). split.
  - unfold conv_int. change (int_flags (ch "d") 0) with 0. change (int_base (ch "d")) with 10.
    change ((ch "d" =? ch "i") || (ch "d" =? ch "d")) with true. cbv iota zeta.
    change (has 0 FLAGS_LONG_LONG) with false. change (has 0 FLAGS_LONG) with false.
    change (has 0 FLAGS_CHAR) with false. change (has 0 FLAGS_SHORT) with false. cbv iota.
    erewrite swp_done by (unfold va_int; erewrite swp_done by reflexivity; reflexivity).
    rewrite s32_small by lia. rewrite (proj2 (Z.ltb_ge v 0)) by lia.
    assert (Ha : u32 (if 0 <? v then v else s32 (0 - v)) = v).
    { destruct (0 <? v) eqn:E0; zbool; [now rewrite u32_small by lia|]. assert (v = 0) as -> by lia. reflexivity. }
    rewrite Ha. exact E.
  - assert (Hl : len_of (rev (digit_char 0 <$> ds)) = len_of ds) by (unfold len_of; now rewrite length_rev, length_fmap).
    constructor.
    + intros Hnil. apply (f_equal length) in Hnil. rewrite length_rev, length_fmap in Hnil. now destruct ds.
    + apply Forall_rev. rewrite Forall_fmap. eapply Forall_impl; [|exact Hr]. intros d Hd. cbv beta in *. cbn.
      rewrite digit_char_dec by exact Hd. lia.
    + rewrite dec_value_digits by exact Hr. rewrite Hval. lia.
    + rewrite Hl. exact Hmin.
Qed.

(** ** The engine on dotted formats *)

Definition engine (fuel : nat) (format out : list Z) : P (list Z) :=
  sloop fuel (fun '(format, out) =>
    match format with
    | [] => mret (Break out)
    | _ => '(o, format) ← format_step format; mret (Next (format, out ++ o))
    end) (format, out).

Lemma engine_d fuel rest out v va : 0 <= v < 2 ^ 31 ->
  exists t, numeral v t /\ engine (S fuel) (str "%d" ++ rest) out (AInt v :: va) = engine fuel rest (out ++ t) va.
Proof.
  intros Hv. destruct (conv_int_numeral v va Hv) as (t & E & Hn). exists t. split; [exact Hn|].
  assert (Ef : format_step (str "%d" ++ rest) (AInt v :: va) = Done (t, rest) va).
  { transitivity (conversion 0 0 0 (str "d" ++ rest) (AInt v :: va)); [reflexivity|]. unfold conversion.
    change (is_one_of (peek (str "d" ++ rest)) (str "diuxXob")) with true. cbv iota.
    change (peek (str "d" ++ rest)) with (ch "d"). erewrite swp_done by exact E. reflexivity. }
  unfold engine. cbn [sloop]. erewrite swp_done by (cbn [str app]; erewrite (swp_done (format_step _)) by exact Ef; reflexivity).
  reflexivity.
Qed.

Lemma engine_lit fuel c rest out va : c <> ch "%" -> engine (S fuel) (c :: rest) out va = engine fuel rest (out ++ [c]) va.
Proof.
  intros Hc. unfold engine. cbn [sloop].
  assert (E : format_step (c :: rest) va = Done ([c], rest) va)
    by (unfold format_step; cbn [peek]; now rewrite (proj2 (Z.eqb_neq _ _) Hc)).
  erewrite swp_done by (erewrite (swp_done (format_step _)) by exact E; reflexivity). reflexivity.
Qed.

Definition dotted (t1 t2 t3 t4 : list Z) : list Z := t1 ++ ch "." :: t2 ++ ch "." :: t3 ++ ch "." :: t4.

Lemma vsnprintf_dotted a b c d :
  is_byte a -> is_byte b -> is_byte c -> is_byte d ->
  exists t1 t2 t3 t4, numeral a t1 /\ numeral b t2 /\ numeral c t3 /\ numeral d t4 /\
    _vsnprintf (str "%d.%d.%d.%d") (byte_args [a; b; c; d]) = Done (dotted t1 t2 t3 t4) [].
Proof.
  unfold is_byte. intros Ha Hb Hc Hd. change (_vsnprintf (str "%d.%d.%d.%d") (byte_args [a; b; c; d]))
    with (engine 12 (str "%d" ++ str ".%d.%d.%d") [] [AInt a; AInt b; AInt c; AInt d]).
  destruct (engine_d 11 (str ".%d.%d.%d") [] a [AInt b; AInt c; AInt d]) as (t1 & H1 & ->); [lia|].
  change (str ".%d.%d.%d") with (ch "." :: str "%d" ++ str ".%d.%d"). rewrite engine_lit by discriminate.
  destruct (engine_d 9 (str ".%d.%d") (([] ++ t1) ++ [ch "."]) b [AInt c; AInt d]) as (t2 & H2 & ->); [lia|].
  change (str ".%d.%d") with (ch "." :: str "%d" ++ str ".%d"). rewrite engine_lit by discriminate.
  destruct (engine_d 7 (str ".%d") (((([] ++ t1) ++ [ch "."]) ++ t2) ++ [ch "."]) c [AInt d]) as (t3 & H3 & ->); [lia|].
  change (str ".%d") with (ch "." :: str "%d" ++ []). rewrite engine_lit by discriminate.
  destruct (engine_d 5 [] (((((([] ++ t1) ++ [ch "."]) ++ t2) ++ [ch "."]) ++ t3) ++ [ch "."]) d []) as (t4 & H4 & ->); [lia|].
  exists t1, t2, t3, t4. split; [exact H1|]. split; [exact H2|]. split; [exact H3|]. split; [exact H4|].
  unfold engine, dotted. cbn [sloop app]. unfold mbind, SM_bind. cbn. now rewrite <- !app_assoc.
Qed.

(** ** Numerals read back *)

(** No decimal digit follows. *)
Definition stops (s : list Z) : Prop := isxdigit (cur s) = false.

Lemma digit_char_facts c : 48 <= c <= 57 -> s8 c = c /\ isdigit c = true /\ isxdigit c = true /\ isspace c = false.
Proof.
  intros H. rewrite s8_small by lia. unfold isdigit, isxdigit, isspace.
  rewrite !(proj2 (Z.eqb_neq _ _)) by lia. rewrite !(proj2 (Z.leb_le _ _)) by lia. auto.
Qed.

Lemma scan_digits_numeral t s n :
  Forall (fun c => 48 <= c <= 57) t -> stops s -> 0 <= n -> dec_value n t < 2 ^ 64 ->
  scan_digits scan_value 10 n (t ++ s) = (dec_value n t, s).
Proof.
  intros Ht Hs. revert n. induction Ht as [|c t Hc Ht IH]; intros n Hn Hv.
  - cbn. destruct s as [|b s]; [reflexivity|]. unfold stops, cur in Hs. cbn [scan_digits]. now rewrite Hs.
  - destruct (digit_char_facts c Hc) as (E8 & Ed & Ex & _). cbn [app scan_digits]. rewrite E8, Ex.
    unfold scan_value at 1. rewrite Ed. change (ch "0") with 48. rewrite (u64_small (c - 48)) by lia.
    rewrite (proj2 (Z.ltb_lt _ _)) by lia. cbn [andb]. unfold scan_value at 2. rewrite Ed. change (ch "0") with 48.
    cbn [dec_value foldl] in Hv |- *. change (foldl _ ?x t) with (dec_value x t) in Hv |- *.
    pose proof (dec_value_bounds t Ht (10 * n + (c - 48))) as Hb.
    assert (1 <= 10 ^ len_of t) by (pose proof (len_of_nonneg t); assert (0 < 10 ^ len_of t) by (apply Z.pow_pos_nonneg; lia); lia).
    assert (10 * n + (c - 48) < 2 ^ 64) by nia.
    rewrite (u64_small (c - 48)), (u64_small (n * 10)), u64_small by lia.
    replace (n * 10 + (c - 48)) with (10 * n + (c - 48)) by lia. apply IH; lia.
Qed.

Lemma numeral_head v t : numeral v t -> exists c t', t = c :: t' /\ 48 <= c <= 57.
Proof. intros [Hs Hd _ _]. destruct t as [|c t]; [contradiction|]. apply Forall_cons_iff in Hd as [Hc _]. eauto. Qed.

Lemma scan_number_numeral v t s : numeral v t -> stops s -> 0 <= v < 2 ^ 31 ->
  scan_number (-1) true (t ++ s) 10 = (v, s).
Proof.
  intros Hn Hs Hv. unfold scan_number. change (-1 =? ch "h") with false. change (-1 =? ch "l") with false.
  change (-1 =? ch "L") with false. change ((-1 =? ch "Z") || (-1 =? ch "z")) with false. cbv iota.
  destruct (numeral_head v t Hn) as (c & t' & E & Hc). unfold simple_strtol, simple_strtoul, scan_base.
  assert (Hcur : cur (t ++ s) = c) by (rewrite E; cbn; rewrite s8_small; lia).
  rewrite Hcur. rewrite (proj2 (Z.eqb_neq c (ch "-"))) by (change (ch "-") with 45; lia). cbn [Z.eqb].
  rewrite scan_digits_numeral; [|apply Hn|exact Hs|lia|rewrite (nu_value _ _ Hn); lia].
  rewrite (nu_value _ _ Hn). rewrite s64_small, s32_small by lia. reflexivity.
Qed.

(** One "%d" of a scan. *)
Lemma scan_step_d total v t s rest : numeral v t -> stops s -> 0 <= v < 2 ^ 31 ->
  scan_step total (t ++ s) (str "%d" ++ rest) = Next (s, rest, [SNum v], 1).
Proof.
  intros Hn Hs Hv. destruct (numeral_head v t Hn) as (c & t' & E & Hc).
  destruct (digit_char_facts c Hc) as (E8 & Ed & Ex & Esp).
  assert (Hcur : cur (t ++ s) = c) by (rewrite E; cbn; exact E8).
  assert (Hsk : skip_space (t ++ s) = t ++ s) by (rewrite E; cbn [app skip_space]; now rewrite E8, Esp).
  assert (Hend : at_end (t ++ s) = false) by (unfold at_end; rewrite Hcur; apply Z.eqb_neq; lia).
  assert (Hnn : no_number (t ++ s) 10 true = false).
  { unfold no_number. rewrite Hcur. rewrite (proj2 (Z.eqb_neq c (ch "-"))) by (change (ch "-") with 45; lia). cbn [andb].
    rewrite (proj2 (Z.eqb_neq c 0)) by lia. rewrite Ed. reflexivity. }
  transitivity (if at_end (t ++ s) then Break [] else
    match scan_conversion total (t ++ s) (ch "d") (-1) (-1) with
    | Next (str, out, n) => @Next (list Z * list Z * list stored * Z) (list stored) (str, rest, out, n)
    | Break out => Break out
    end); [reflexivity|].
  rewrite Hend. unfold scan_conversion.
  change (ch "d" =? ch "c") with false. change (ch "d" =? ch "s") with false. change (ch "d" =? ch "n") with false. change (ch "d" =? ch "%") with false.
  change (int_conversion (ch "d")) with (Some (10, true)). cbv iota zeta. rewrite Hsk, Hnn, (scan_number_numeral v) by assumption. reflexivity.
Qed.

Lemma scan_loop_d fuel total v t s rest num : numeral v t -> stops s -> 0 <= v < 2 ^ 31 ->
  scan_loop (S fuel) total (t ++ s) (str "%d" ++ rest) num =
  (r ← scan_loop fuel total s rest (num + 1); Some (r.1, SNum v :: r.2)).
Proof.
  intros Hn Hs Hv. destruct (numeral_head v t Hn) as (c & t' & E & Hc).
  assert (Hend : at_end (t ++ s) = false) by (rewrite E; unfold at_end; cbn; rewrite s8_small by lia; apply Z.eqb_neq; lia).
  cbn [scan_loop]. rewrite Hend. change (at_end (str "%d" ++ rest)) with false. cbn [orb].
  change (isspace (cur (str "%d" ++ rest))) with false. cbv iota. rewrite (scan_step_d total v) by assumption. reflexivity.
Qed.

Lemma scan_loop_dot fuel total s rest num :
  scan_loop (S fuel) total (ch "." :: s) (ch "." :: rest) num = scan_loop fuel total s rest num.
Proof.
  cbn [scan_loop]. change (at_end (ch "." :: rest) || at_end (ch "." :: s)) with false.
  change (isspace (cur (ch "." :: rest))) with false. cbv iota.
  change (scan_step total (ch "." :: s) (ch "." :: rest)) with (@Next (list Z * list Z * list stored * Z) (list stored) (s, rest, [], 0)).
  cbv iota. rewrite Z.add_0_r. now destruct (scan_loop fuel total s rest num) as [[n st]|].
Qed.

Lemma sscanf_dotted a b c d t1 t2 t3 t4 :
  is_byte a -> is_byte b -> is_byte c -> is_byte d ->
  numeral a t1 -> numeral b t2 -> numeral c t3 -> numeral d t4 ->
  sscanf (dotted t1 t2 t3 t4) (str "%d.%d.%d.%d") = Some (4, [SNum a; SNum b; SNum c; SNum d]).
Proof.
  unfold is_byte. intros Ha Hb Hc Hd H1 H2 H3 H4. unfold sscanf, vsscanf, dotted. generalize (length (t1 ++ ch "." :: t2 ++ ch "." :: t3 ++ ch "." :: t4)).
  intros total. change (S (length (str "%d.%d.%d.%d"))) with 12%nat.
  change (str "%d.%d.%d.%d") with (str "%d" ++ ch "." :: str "%d" ++ ch "." :: str "%d" ++ ch "." :: str "%d" ++ []).
  rewrite <- (app_nil_r t4). rewrite (scan_loop_d _ _ a) by (auto; try reflexivity; lia). rewrite scan_loop_dot.
  rewrite (scan_loop_d _ _ b) by (auto; try reflexivity; lia). rewrite scan_loop_dot.
  rewrite (scan_loop_d _ _ c) by (auto; try reflexivity; lia). rewrite scan_loop_dot.
  rewrite (scan_loop_d _ _ d) by (auto; try reflexivity; lia). reflexivity.
Qed.

(** ** inet_pton *)

Lemma isdigit_u_range c : 0 <= c < 128 -> isdigit_u c = (48 <=? c) && (c <=? 57).
Proof.
  intros Hc. unfold isdigit_u. change (ch "0") with 48. rewrite (u32_small c) by lia.
  destruct ((48 <=? c) && (c <=? 57)) eqn:E; zbool.
  - rewrite u32_small by lia. apply Z.ltb_lt. lia.
  - apply Z.ltb_ge. apply andb_false_iff in E as [E|E]; zbool; zlia.
Qed.

Lemma at_app t s j : at_ (t ++ s) (length t + j) = at_ s j.
Proof. unfold at_. now rewrite app_nth2_plus. Qed.

Lemma dec_digits_numeral t : forall fuel pre s v,
  Forall (fun c => 48 <= c <= 57) t -> isdigit_u (at_ s 0) = false -> (length t <= fuel)%nat ->
  dec_digits fuel (pre ++ t ++ s) (length pre) v = (dec_value v t, length pre + length t)%nat.
Proof.
  induction t as [|c t IH]; intros fuel pre s v Ht Hs Hf; cbn [app length dec_value foldl] in *.
  - rewrite Nat.add_0_r. destruct fuel; [reflexivity|]. cbn [dec_digits].
    rewrite <- (Nat.add_0_r (length pre)) at 1. now rewrite at_app, Hs.
  - apply Forall_cons_iff in Ht as [Hc Ht]. destruct fuel as [|fuel]; [lia|]. cbn [dec_digits].
    assert (Hat : at_ (pre ++ c :: t ++ s) (length pre) = c).
    { rewrite <- (Nat.add_0_r (length pre)), at_app. unfold at_. cbn. apply s8_small. lia. }
    rewrite Hat. rewrite isdigit_u_range by lia. rewrite !(proj2 (Z.leb_le _ _)) by lia. cbn [andb].
    change (pre ++ c :: t ++ s) with (pre ++ [c] ++ t ++ s). rewrite app_assoc.
    replace (S (length pre)) with (length (pre ++ [c])) by (rewrite length_app; cbn; lia).
    rewrite IH by (auto; lia). change (ch "0") with 48. rewrite length_app. cbn [length].
    change (foldl _ ?x t) with (dec_value x t). f_equal; [f_equal; lia|lia].
Qed.

Lemma numeral_short v t : numeral v t -> v <= 255 -> (0 < length t <= 3)%nat.
Proof.
  intros [Hs _ _ Hm] Hv. destruct t as [|c t]; [contradiction|]. split; [cbn; lia|].
  destruct (Nat.le_gt_cases (length (c :: t)) 3) as [?|Hl]; [assumption|]. exfalso.
  destruct Hm as [Hm|Hm]; unfold len_of in Hm; [lia|].
  assert (10 ^ 3 <= 10 ^ (Z.of_nat (length (c :: t)) - 1)) by (apply Z.pow_le_mono_r; lia). lia.
Qed.

Lemma numeral_no_zero v t : numeral v t -> (1 < length t)%nat -> nth 0 t 0 <> 48.
Proof.
  intros [Hs Hd Hval Hm] Hl E. destruct t as [|c t]; [contradiction|]. cbn in E. subst c.
  apply Forall_cons_iff in Hd as [_ Hd]. cbn [dec_value foldl] in Hval. change (foldl _ ?x t) with (dec_value x t) in Hval.
  pose proof (dec_value_bounds t Hd (10 * 0 + (48 - 48))) as Hb. rewrite Hval in Hb.
  destruct Hm as [Hm|Hm]; unfold len_of in *; cbn [length] in *; [lia|].
  replace (Z.of_nat (S (length t)) - 1) with (Z.of_nat (length t)) in Hm by lia. lia.
Qed.

(** A round of the AF_INET loop on a numeral. *)
Lemma pton4_round rounds i v t s a : numeral v t -> is_byte v -> isdigit_u (at_ s 0) = false ->
  pton4 (S rounds) i (t ++ s) a =
  let a := <[i := v]> a in
  if (at_ s 0 =? 0) && (i =? 3)%nat then (1, a)
  else if negb (at_ s 0 =? ch ".") then (0, a) else pton4 rounds (S i) (drop 1 s) a.
Proof.
  unfold is_byte. intros Hn Hv Hs. destruct (numeral_short v t Hn) as [L1 L2]; [lia|]. cbn [pton4].
  pose proof (dec_digits_numeral t 3 [] s 0 (nu_digits _ _ Hn) Hs L2) as E. cbn [app length Nat.add] in E. rewrite E, (nu_value _ _ Hn).
  assert (Hz : (1 <? length t)%nat && (at_ (t ++ s) 0 =? ch "0") = false).
  { destruct (Nat.ltb_spec 1 (length t)) as [Hl|Hl]; [|reflexivity]. cbn [andb]. apply Z.eqb_neq. intros Hat.
    apply (numeral_no_zero v t Hn Hl). destruct (numeral_head v t Hn) as (c & t' & -> & Hc). unfold at_ in Hat. cbn in Hat |- *.
    rewrite s8_small in Hat by lia. exact Hat. }
  rewrite Hz. destruct (Nat.eqb_spec (length t) 0); [lia|]. rewrite (proj2 (Z.ltb_ge 255 v)) by lia. cbn [orb].
  assert (Hat : at_ (t ++ s) (length t) = at_ s 0) by (rewrite <- (Nat.add_0_r (length t)); apply at_app).
  rewrite u8_small, Hat by lia.
  replace (drop (length t + 1) (t ++ s)) with (drop 1 s); [reflexivity|]. now rewrite <- drop_drop, drop_app_length.
Qed.

Lemma pton4_dot rounds i v t s a : numeral v t -> is_byte v ->
  pton4 (S rounds) i (t ++ ch "." :: s) a = pton4 rounds (S i) s (<[i := v]> a).
Proof. intros Hn Hv. rewrite (pton4_round _ _ v) by (auto; reflexivity). reflexivity. Qed.

Lemma pton4_dotted a b c d t1 t2 t3 t4 dest :
  is_byte a -> is_byte b -> is_byte c -> is_byte d -> length dest = 4%nat ->
  numeral a t1 -> numeral b t2 -> numeral c t3 -> numeral d t4 ->
  pton4 4 0 (dotted t1 t2 t3 t4) dest = (1, [a; b; c; d]).
Proof.
  intros Ha Hb Hc Hd Hl H1 H2 H3 H4. unfold dotted. rewrite <- (app_nil_r t4).
  rewrite (pton4_dot _ _ a), (pton4_dot _ _ b), (pton4_dot _ _ c) by assumption.
  rewrite (pton4_round _ _ d) by (auto; reflexivity). cbv zeta. change (at_ [] 0 =? 0) with true. cbn [andb Nat.eqb].
  do 4 (destruct dest as [|? dest]; [discriminate|]). destruct dest; [reflexivity|discriminate].
Qed.

Lemma dotted_text a b c d t1 t2 t3 t4 :
  is_byte a -> is_byte b -> is_byte c -> is_byte d ->
  numeral a t1 -> numeral b t2 -> numeral c t3 -> numeral d t4 ->
  (length (dotted t1 t2 t3 t4) <= 15)%nat /\ Forall is_char (dotted t1 t2 t3 t4).
Proof.
  unfold is_byte. intros Ha Hb Hc Hd H1 H2 H3 H4.
  destruct (numeral_short _ _ H1) as [? ?]; [lia|]. destruct (numeral_short _ _ H2) as [? ?]; [lia|].
  destruct (numeral_short _ _ H3) as [? ?]; [lia|]. destruct (numeral_short _ _ H4) as [? ?]; [lia|].
  assert (Hch : forall v t, numeral v t -> Forall is_char t).
  { intros v t Hn. eapply Forall_impl; [|apply Hn]. unfold is_char. cbv beta. lia. }
  assert (Hdot : is_char (ch ".")) by (split; reflexivity). unfold dotted. split.
  - rewrite !length_app; cbn [length]; rewrite !length_app; cbn [length]; rewrite !length_app; cbn [length]. lia.
  - repeat (apply Forall_app; split; [eauto|]; apply Forall_cons_iff; split; [exact Hdot|]). eauto.
Qed.

(** ** The theorem *)

(** IPv4 addresses survive printing and reading.  For every address inet_ntoa
    and inet_ntop with a buffer of 16 bytes give the same text of at most 15
    characters, and both inet_aton (which reads it with sscanf) and inet_pton
    accept that text and store exactly the four bytes of the address. *)
Lemma inet_round_trip a b c d ip0 dest :
  is_byte a -> is_byte b -> is_byte c -> is_byte d -> length dest = 4%nat ->
  exists text, inet_ntoa [a; b; c; d] = Some text /\ inet_ntop AF_INET [a; b; c; d] 16 = Some (inl text) /\
    (length text <= 15)%nat /\ Forall is_char text /\
    inet_aton text dest = Some (1, [a; b; c; d]) /\ inet_pton ip0 AF_INET text dest = (1, [a; b; c; d], None).
Proof.
  intros Ha Hb Hc Hd Hl.
  destruct (vsnprintf_dotted a b c d Ha Hb Hc Hd) as (t1 & t2 & t3 & t4 & H1 & H2 & H3 & H4 & E).
  destruct (dotted_text a b c d t1 t2 t3 t4 Ha Hb Hc Hd H1 H2 H3 H4) as [Hlen Hch]. exists (dotted t1 t2 t3 t4).
  assert (Hs : snprintf_text 16 (str "%d.%d.%d.%d") (byte_args [a; b; c; d]) =
               Some (dotted t1 t2 t3 t4, Z.of_nat (length (dotted t1 t2 t3 t4)))).
  { unfold snprintf_text. rewrite E. cbn [Z.eqb]. rewrite take_ge by (change (Z.to_nat (16 - 1)) with 15%nat; exact Hlen).
    rewrite u8_chars by exact Hch. unfold len_of. now rewrite s32_small by lia. }
  split; [unfold inet_ntoa; now rewrite Hs|]. split; [|split; [exact Hlen|split; [exact Hch|split]]].
  - unfold inet_ntop. change (AF_INET =? AF_INET) with true. cbv iota. change (u64 16) with 16. rewrite Hs. cbn.
    now rewrite (proj2 (Z.ltb_lt _ _)) by lia.
  - unfold inet_aton. rewrite (sscanf_dotted a b c d) by assumption. unfold is_byte in *. cbn -[aton_store u32].
    rewrite !u32_small by lia. cbn [aton_store]. rewrite !(proj2 (Z.ltb_ge _ _)) by lia.
    do 4 (destruct dest as [|? dest]; [discriminate|]). destruct dest; [reflexivity|discriminate].
  - unfold inet_pton. change (AF_INET =? AF_INET) with true. cbv iota. now rewrite (pton4_dotted a b c d) by assumption.
Qed.

Lemma inet_round_trip_witness :
  exists text, inet_ntoa [192; 168; 0; 10] = Some text /\ inet_ntop AF_INET [192; 168; 0; 10] 16 = Some (inl text) /\
    (length text <= 15)%nat /\ Forall is_char text /\
    inet_aton text [1; 2; 3; 4] = Some (1, [192; 168; 0; 10]) /\
    inet_pton [] AF_INET text [1; 2; 3; 4] = (1, [192; 168; 0; 10], None).
Proof. apply (inet_round_trip 192 168 0 10 [] [1; 2; 3; 4]); (reflexivity || (split; [discriminate|reflexivity])). Defined.
