(* ===== verification/Fifo.v ===== *)
(** * kernel/fs/fifo_buf.cpp: the ring buffer of pipes and sockets

    The parts under the lock are atomic: [write_section] and [read_section].
    [write] and [read] are what one thread does with them; when it waits, other
    threads run, and a wakeup is what it finds when it runs again. *)

From S2P Require Import Prelude CMem.

Definition EINTR : Z := 4.
Definition EAGAIN : Z := 11.
Definition ECONNRESET : Z := 104.
Definition ETIMEDOUT : Z := 110.
Definition AWAITFS_READ : Z := 1.
Definition AWAITFS_WRITE : Z := 2.

Record fifo := Fifo {
  m_closed : bool;
  buffer : option (list Z);
  write_ptr : Z;
  read_ptr : Z;
  m_size : Z }.

Definition available (f : fifo) : Z :=
  if read_ptr f =? write_ptr f then u64 (m_size f - 1)
  else if write_ptr f <? read_ptr f then u64 (read_ptr f - write_ptr f - 1)
  else u64 (m_size f - write_ptr f + read_ptr f - 1).
Definition unread (f : fifo) : Z :=
  if read_ptr f =? write_ptr f then 0
  else if write_ptr f <? read_ptr f then u64 (m_size f - read_ptr f + write_ptr f)
  else u64 (write_ptr f - read_ptr f).

Definition increment_read (f : fifo) : fifo :=
  let r := u64 (read_ptr f + 1) in
  Fifo (m_closed f) (buffer f) (write_ptr f) (if r =? m_size f then 0 else r) (m_size f).
Definition increment_write (f : fifo) : fifo :=
  let w := u64 (write_ptr f + 1) in
  Fifo (m_closed f) (buffer f) (if w =? m_size f then 0 else w) (read_ptr f) (m_size f).

(** Everybody who waits is woken. *)
Definition close (f : fifo) : fifo := Fifo true (buffer f) (write_ptr f) (read_ptr f) (m_size f).

(** [fresh] is what malloc's block holds. *)
Definition init_if_needed (fresh : list Z) (f : fifo) : fifo :=
  match buffer f with
  | None => Fifo (m_closed f) (Some fresh) (write_ptr f) (read_ptr f) (4096 * 16)
  | Some _ => f
  end.

(** [buffer[write_ptr] = c] and [buffer[read_ptr]]; a fault outside the block. *)
Definition put_byte (f : fifo) (c : Z) : option fifo :=
  b ← buffer f;
  if (0 <=? write_ptr f) && (write_ptr f <? Z.of_nat (length b))
  then Some (Fifo (m_closed f) (Some (<[Z.to_nat (write_ptr f) := c]> b)) (write_ptr f) (read_ptr f) (m_size f))
  else None.
Definition get_byte (f : fifo) : option Z :=
  b ← buffer f;
  if 0 <=? read_ptr f then b !! Z.to_nat (read_ptr f) else None.

(** [while (available() > 0 && written < size)] with [ibuf] the bytes that are
    left: the new state and what is still left. *)
Fixpoint write_section (f : fifo) (ibuf : list Z) : option (fifo * list Z) :=
  match ibuf with
  | [] => Some (f, [])
  | c :: rest =>
      if 0 <? available f then f ← put_byte f c; write_section (increment_write f) rest
      else Some (f, ibuf)
  end.

(** [while (unread() > 0 && collected < size)]: the new state and the bytes. *)
Fixpoint read_section (f : fifo) (size : nat) : option (fifo * list Z) :=
  match size with
  | O => Some (f, [])
  | S size =>
      if 0 <? unread f then
        c ← get_byte f;
        '(f, cs) ← read_section (increment_read f) size;
        Some (f, c :: cs)
      else Some (f, [])
  end.

(** What a thread finds after it waited: an interrupt, a timeout, or the buffer
    as the other threads left it. *)
Inductive wakeup :=
| Interrupted (f : fifo)
| TimedOut (f : fifo)
| Woken (f : fifo).

(** The result of a call, or that it still waits. *)
Inductive result :=
| Returned (x : Z) (f : fifo)
| Waiting (f : fifo)
| Faulted.

(** The loop of [write]: [ibuf] is left of [size] bytes. *)
Fixpoint write_loop (size : Z) (block : bool) (ibuf : list Z) (f : fifo) (ws : list wakeup) {struct ws} : result :=
  let written l := size - Z.of_nat (length l) in
  match ibuf with
  | [] => Returned size f
  | _ =>
      match write_section f ibuf with
      | None => Faulted
      | Some (f, rest) =>
          if negb block then Returned (- EAGAIN) f
          else match rest with
               | [] => Returned size f
               | _ => match ws with
                      | [] => Waiting f
                      | Interrupted f :: _ => Returned (if 0 <? written rest then written rest else - EINTR) f
                      | (TimedOut f | Woken f) :: ws => if m_closed f then Returned (- ECONNRESET) f else write_loop size block rest f ws
                      end
               end
      end
  end.
Definition write (fresh : list Z) (ibuf : list Z) (block : bool) (f : fifo) (ws : list wakeup) : result :=
  write_loop (Z.of_nat (length ibuf)) block ibuf (init_if_needed fresh f) ws.

(** The loop of [read]: the result and the bytes. *)
Fixpoint read_loop (size : nat) (block : bool) (f : fifo) (ws : list wakeup) {struct ws} : result * list Z :=
  match read_section f size with
  | None => (Faulted, [])
  | Some (f, cs) =>
      if negb block then (Returned (Z.of_nat (length cs)) f, cs)
      else match cs with
           | _ :: _ => (Returned (Z.of_nat (length cs)) f, cs)
           | [] => match ws with
                   | [] => (Waiting f, [])
                   | Interrupted f :: _ => (Returned (- EINTR) f, [])
                   | TimedOut f :: _ => (Returned (- ETIMEDOUT) f, [])
                   | Woken f :: ws => read_loop size block f ws
                   end
           end
  end.
Definition read (fresh : list Z) (size : nat) (block : bool) (f : fifo) (ws : list wakeup) : result * list Z :=
  let f := init_if_needed fresh f in
  if negb block && (unread f =? 0) then (Returned (if m_closed f then 0 else - EAGAIN) f, [])
  else read_loop size block f ws.

Definition stats (f : fifo) : Z * Z := (available f, unread f).
Definition poll (f : fifo) : Z :=
  if m_closed f then AWAITFS_READ
  else Z.lor (if 0 <? unread f then AWAITFS_READ else 0) (if 0 <? available f then AWAITFS_WRITE else 0).

(** ** The buffer as a queue *)

(** Pointers inside a buffer of [m_size] bytes. *)
Definition fifo_ok (f : fifo) : Prop :=
  exists b, buffer f = Some b /\ Z.of_nat (length b) = m_size f /\ 0 < m_size f < 2 ^ 63 /\
    0 <= read_ptr f < m_size f /\ 0 <= write_ptr f < m_size f.

(** The bytes between the pointers. *)
Definition contents (f : fifo) : list Z :=
  match buffer f with
  | Some b => (fun k => nth (Z.to_nat ((read_ptr f + Z.of_nat k) mod m_size f)) b 0) <$> seq 0 (Z.to_nat (unread f))
  | None => []
  end.

Lemma unread_mod f : fifo_ok f -> unread f = (write_ptr f - read_ptr f) mod m_size f.
Proof.
  intros (b & _ & _ & Hn & Hr & Hw). unfold unread. destruct (_ =? _) eqn:E; zbool.
  - rewrite E, Z.sub_diag. now rewrite Z.mod_0_l by lia.
  - destruct (_ <? _) eqn:E1; zbool; rewrite u64_small by lia.
    + apply (Z.mod_unique _ _ (-1)); lia.
    + rewrite Z.mod_small by lia. reflexivity.
Qed.

(** Room and contents always add up to the capacity. *)
Lemma available_unread f : fifo_ok f -> available f = m_size f - 1 - unread f.
Proof.
  intros (b & _ & _ & Hn & Hr & Hw). unfold available, unread. repeat zif; rewrite ?u64_small by lia; lia.
Qed.

Lemma unread_range f : fifo_ok f -> 0 <= unread f < m_size f.
Proof. intros Hf. rewrite unread_mod by exact Hf. destruct Hf as (_ & _ & _ & Hn & _). apply Z.mod_pos_bound. lia. Qed.

Lemma length_contents f : fifo_ok f -> Z.of_nat (length (contents f)) = unread f.
Proof.
  intros Hf. pose proof (unread_range f Hf). destruct Hf as (b & Hb & _). unfold contents. rewrite Hb, length_fmap, length_seq. lia.
Qed.

Lemma next_index n i : 0 < n < 2 ^ 63 -> 0 <= i < n -> (if u64 (i + 1) =? n then 0 else u64 (i + 1)) = (i + 1) mod n.
Proof.
  intros Hn Hi. rewrite u64_small by lia. destruct (_ =? _) eqn:E; zbool.
  - rewrite E. now rewrite Z.mod_same by lia.
  - now rewrite Z.mod_small by lia.
Qed.

Lemma push_ok f c : fifo_ok f -> 0 < available f ->
  exists f1, put_byte f c = Some f1 /\ fifo_ok (increment_write f1) /\
    contents (increment_write f1) = contents f ++ [c] /\ m_size (increment_write f1) = m_size f /\
    m_closed (increment_write f1) = m_closed f.
Proof.
  intros Hf Ha. pose proof (unread_range f Hf) as Hu. pose proof (unread_mod f Hf) as Hm.
  rewrite available_unread in Ha by exact Hf. pose proof Hf as (b & Hb & Hl & Hn & Hr & Hw).
  unfold put_byte. rewrite Hb. cbn [mbind option_bind]. rewrite (proj2 (Z.leb_le _ _)), (proj2 (Z.ltb_lt _ _)) by lia. cbn [andb].
  eexists. split; [reflexivity|]. set (f' := increment_write _).
  assert (Hw' : write_ptr f' = (write_ptr f + 1) mod m_size f) by (apply next_index; lia).
  assert (Hok : fifo_ok f').
  { exists (<[Z.to_nat (write_ptr f) := c]> b). rewrite length_insert, Hw'. change (m_size f') with (m_size f).
    change (read_ptr f') with (read_ptr f). split; [reflexivity|]. split; [exact Hl|]. split; [exact Hn|]. split; [exact Hr|].
    apply Z.mod_pos_bound. lia. }
  assert (Hu' : unread f' = unread f + 1).
  { rewrite (unread_mod f' Hok), Hw', Hm. change (m_size f') with (m_size f). change (read_ptr f') with (read_ptr f).
    rewrite Zminus_mod_idemp_l. rewrite Hm in Ha, Hu. rewrite <- (Z.mod_small ((write_ptr f - read_ptr f) mod m_size f + 1) (m_size f)) by lia.
    rewrite Zplus_mod_idemp_l. f_equal. lia. }
  split; [exact Hok|]. split; [|split; reflexivity].
  unfold contents. rewrite Hu', Hb. change (buffer f') with (Some (<[Z.to_nat (write_ptr f) := c]> b)). cbv iota.
  change (m_size f') with (m_size f). change (read_ptr f') with (read_ptr f).
  replace (Z.to_nat (unread f + 1)) with (Z.to_nat (unread f) + 1)%nat by lia. rewrite seq_app, fmap_app. f_equal.
  - apply list_fmap_ext. intros i k Hk. apply lookup_seq in Hk as [-> Hk]. cbn [Nat.add]. rewrite !nth_lookup.
    rewrite list_lookup_insert_ne; [reflexivity|]. intros E.
    assert (Hp := Z.mod_pos_bound (read_ptr f + Z.of_nat i) (m_size f) ltac:(lia)).
    assert (E' : write_ptr f = (read_ptr f + Z.of_nat i) mod m_size f) by lia.
    rewrite E', Zminus_mod_idemp_l in Hm. replace (read_ptr f + Z.of_nat i - read_ptr f) with (Z.of_nat i) in Hm by lia.
    rewrite Z.mod_small in Hm by lia. lia.
  - cbn [seq fmap list_fmap]. f_equal. rewrite nth_lookup, Nat.add_0_l.
    replace ((read_ptr f + Z.of_nat (Z.to_nat (unread f))) mod m_size f) with (write_ptr f).
    + rewrite list_lookup_insert_eq by lia. reflexivity.
    + rewrite Z2Nat.id, Hm by lia. rewrite Zplus_mod_idemp_r. replace (read_ptr f + (write_ptr f - read_ptr f)) with (write_ptr f) by lia.
      now rewrite Z.mod_small by lia.
Qed.

Lemma pop_ok f : fifo_ok f -> 0 < unread f ->
  exists c, get_byte f = Some c /\ fifo_ok (increment_read f) /\ contents f = c :: contents (increment_read f) /\
    m_size (increment_read f) = m_size f /\ m_closed (increment_read f) = m_closed f.
Proof.
  intros Hf Ha. pose proof (unread_range f Hf) as Hu. pose proof (unread_mod f Hf) as Hm.
  pose proof Hf as (b & Hb & Hl & Hn & Hr & Hw).
  destruct (b !! Z.to_nat (read_ptr f)) as [c|] eqn:Ec; [|apply lookup_ge_None in Ec; lia].
  exists c. unfold get_byte. rewrite Hb. cbn [mbind option_bind]. rewrite (proj2 (Z.leb_le _ _)) by lia. split; [exact Ec|].
  set (f' := increment_read f).
  assert (Hr' : read_ptr f' = (read_ptr f + 1) mod m_size f) by (apply next_index; lia).
  assert (Hok : fifo_ok f').
  { exists b. rewrite Hr'. change (m_size f') with (m_size f). change (write_ptr f') with (write_ptr f).
    split; [exact Hb|]. split; [exact Hl|]. split; [exact Hn|]. split; [apply Z.mod_pos_bound; lia|exact Hw]. }
  assert (Hu' : unread f' = unread f - 1).
  { rewrite (unread_mod f' Hok), Hr', Hm. change (m_size f') with (m_size f). change (write_ptr f') with (write_ptr f).
    rewrite Zminus_mod_idemp_r. rewrite Hm in Ha, Hu. rewrite <- (Z.mod_small ((write_ptr f - read_ptr f) mod m_size f - 1) (m_size f)) by lia.
    rewrite Zminus_mod_idemp_l. f_equal. lia. }
  split; [exact Hok|]. split; [|split; reflexivity].
  unfold contents. rewrite Hu'. change (buffer f') with (buffer f). rewrite Hb. change (m_size f') with (m_size f).
  replace (Z.to_nat (unread f)) with (S (Z.to_nat (unread f - 1))) by lia. cbn [seq fmap list_fmap]. f_equal.
  - rewrite Z.add_0_r, Z.mod_small by lia. now rewrite nth_lookup, Ec.
  - rewrite <- fmap_S_seq, <- list_fmap_compose. apply list_fmap_ext. intros i k _. unfold compose. cbv beta. rewrite Hr', Zplus_mod_idemp_l.
    do 3 f_equal. lia.
Qed.

(** The section of a writer appends what fits. *)
Lemma write_section_spec ibuf : forall f, fifo_ok f ->
  exists f' rest, write_section f ibuf = Some (f', rest) /\ fifo_ok f' /\ m_size f' = m_size f /\ m_closed f' = m_closed f /\
    exists taken, ibuf = taken ++ rest /\ contents f' = contents f ++ taken /\ (rest <> [] -> available f' = 0).
Proof.
  induction ibuf as [|c ibuf IH]; intros f Hf; cbn [write_section].
  - exists f, []. split; [reflexivity|]. split; [exact Hf|]. split; [reflexivity|]. split; [reflexivity|]. exists [].
    split; [reflexivity|]. split; [now rewrite app_nil_r|]. now intros ?.
  - destruct (0 <? available f) eqn:E; zbool.
    + destruct (push_ok f c Hf E) as (f1 & -> & Hok & Hc & Hs & Hcl). cbn [mbind option_bind].
      destruct (IH _ Hok) as (f' & rest & Ew & Hf' & Hs' & Hcl' & taken & -> & Hct & Hfull).
      exists f', rest. rewrite Ew. split; [reflexivity|]. split; [exact Hf'|]. split; [congruence|]. split; [congruence|].
      exists (c :: taken). split; [reflexivity|]. split; [|exact Hfull]. rewrite Hct, Hc, <- app_assoc. reflexivity.
    + exists f, (c :: ibuf). split; [reflexivity|]. split; [exact Hf|]. split; [reflexivity|]. split; [reflexivity|]. exists [].
      split; [reflexivity|]. split; [now rewrite app_nil_r|]. intros _.
      pose proof (available_unread f Hf). pose proof (unread_range f Hf). lia.
Qed.

(** The section of a reader removes from the front. *)
Lemma read_section_spec size : forall f, fifo_ok f ->
  exists f' cs, read_section f size = Some (f', cs) /\ fifo_ok f' /\ m_size f' = m_size f /\ m_closed f' = m_closed f /\
    contents f = cs ++ contents f' /\ cs = take size (contents f).
Proof.
  induction size as [|size IH]; intros f Hf; cbn [read_section].
  - exists f, []. auto 10.
  - destruct (0 <? unread f) eqn:E; zbool.
    + destruct (pop_ok f Hf E) as (c & -> & Hok & Hc & Hs & Hcl). cbn [mbind option_bind].
      destruct (IH _ Hok) as (f' & cs & Er & Hf' & Hs' & Hcl' & Hct & Hcs). rewrite Er. cbn [mbind option_bind].
      exists f', (c :: cs). split; [reflexivity|]. split; [exact Hf'|]. split; [congruence|]. split; [congruence|].
      rewrite Hc. cbn [take app]. split; [now rewrite <- Hct|]. now rewrite <- Hcs.
    + exists f, []. pose proof (length_contents f Hf). pose proof (unread_range f Hf).
      destruct (contents f) eqn:Ec; [auto 10|cbn in *; lia].
Qed.

(** ** The theorems *)

(** The accesses of all threads in the order they get the lock. *)
Inductive access :=
| Put (bytes : list Z)
| Take (size : nat)
| Close.
(** What is left of the bytes to write, and the bytes read. *)
Fixpoint run_accesses (ops : list access) (f : fifo) : option (fifo * list (list Z)) :=
  match ops with
  | [] => Some (f, [])
  | op :: ops =>
      '(f, out) ← match op with
                  | Put bytes => write_section f bytes
                  | Take size => read_section f size
                  | Close => Some (close f, [])
                  end;
      '(f, outs) ← run_accesses ops f;
      Some (f, out :: outs)
  end.

(** A queue that holds [cap] bytes. *)
Definition queue_step (cap : nat) (q : list Z) (op : access) : list Z * list Z :=
  match op with
  | Put bytes => let k := (cap - length q)%nat in (q ++ take k bytes, drop k bytes)
  | Take size => (drop size q, take size q)
  | Close => (q, [])
  end.
Fixpoint queue_run (cap : nat) (q : list Z) (ops : list access) : list Z * list (list Z) :=
  match ops with
  | [] => (q, [])
  | op :: ops => let '(q, out) := queue_step cap q op in let '(q, outs) := queue_run cap q ops in (q, out :: outs)
  end.

Definition capacity (f : fifo) : nat := Z.to_nat (m_size f - 1).

Lemma contents_cap f : fifo_ok f -> (length (contents f) <= capacity f)%nat.
Proof. intros Hf. pose proof (length_contents f Hf). pose proof (unread_range f Hf). unfold capacity. lia. Qed.

Lemma write_section_queue f bytes : fifo_ok f ->
  exists f', write_section f bytes = Some (f', drop (capacity f - length (contents f)) bytes) /\ fifo_ok f' /\
    contents f' = contents f ++ take (capacity f - length (contents f)) bytes /\ capacity f' = capacity f /\ m_closed f' = m_closed f.
Proof.
  intros Hf. destruct (write_section_spec bytes f Hf) as (f' & rest & E & Hf' & Hs & Hcl & taken & -> & Hc & Hfull).
  assert (Hcap : capacity f' = capacity f) by (unfold capacity; now rewrite Hs).
  pose proof (contents_cap f' Hf') as Hle. rewrite Hcap, Hc, length_app in Hle.
  assert (Hk : (rest = [] /\ length taken <= capacity f - length (contents f))%nat \/ (length taken = capacity f - length (contents f))%nat).
  { destruct rest as [|x rest]; [left; split; [reflexivity|lia]|right]. specialize (Hfull ltac:(discriminate)).
    pose proof (available_unread f' Hf'). pose proof (length_contents f' Hf') as L. rewrite Hc, length_app in L.
    unfold capacity in *. lia. }
  assert (Hsplit : take (capacity f - length (contents f)) (taken ++ rest) = taken /\ drop (capacity f - length (contents f)) (taken ++ rest) = rest).
  { destruct Hk as [[-> Hl]|Hl].
    - rewrite app_nil_r, take_ge, drop_ge by lia. auto.
    - rewrite <- Hl, take_app_length, drop_app_length. auto. }
  destruct Hsplit as [-> ->]. exists f'. auto.
Qed.

Lemma read_section_queue f size : fifo_ok f ->
  exists f', read_section f size = Some (f', take size (contents f)) /\ fifo_ok f' /\
    contents f' = drop size (contents f) /\ capacity f' = capacity f /\ m_closed f' = m_closed f.
Proof.
  intros Hf. destruct (read_section_spec size f Hf) as (f' & cs & E & Hf' & Hs & Hcl & Hc & ->). exists f'.
  split; [exact E|]. split; [exact Hf'|]. split; [|split; [unfold capacity; now rewrite Hs|exact Hcl]].
  rewrite <- (take_drop size (contents f)) in Hc at 1. now apply app_inv_head in Hc.
Qed.

(** C22: The ring buffer refines a bounded queue.  Whatever threads write, read and
    close, in whatever order they get the lock, no access leaves the buffer, every
    writer gets in as much as the queue of m_size - 1 bytes has room for, every
    reader gets the oldest bytes, and what is between the pointers in the end is
    the queue: no byte is lost, duplicated or reordered. *)
Theorem fifo_refines_queue f ops :
  fifo_ok f ->
  exists f' outs, run_accesses ops f = Some (f', outs) /\ fifo_ok f' /\
    queue_run (capacity f) (contents f) ops = (contents f', outs).
Proof.
  revert f. induction ops as [|op ops IH]; intros f Hf; cbn [run_accesses queue_run].
  - exists f, []. auto.
  - assert (Hstep : exists f1 out, match op with Put bytes => write_section f bytes | Take size => read_section f size | Close => Some (close f, []) end
        = Some (f1, out) /\ fifo_ok f1 /\ queue_step (capacity f) (contents f) op = (contents f1, out) /\ capacity f1 = capacity f).
    { destruct op as [bytes|size|]; cbn [queue_step].
      - destruct (write_section_queue f bytes Hf) as (f1 & E & H1 & Hc & Hcap & _). eexists _, _. rewrite E, Hc. auto.
      - destruct (read_section_queue f size Hf) as (f1 & E & H1 & Hc & Hcap & _). eexists _, _. rewrite E, Hc. auto.
      - exists (close f), []. destruct Hf as (b & Hb & ?). split; [reflexivity|]. split; [exists b; auto|]. auto. }
    destruct Hstep as (f1 & out & -> & H1 & -> & Hcap). cbn [mbind option_bind].
    destruct (IH f1 H1) as (f' & outs & -> & H' & Hq). cbn [mbind option_bind]. exists f', (out :: outs).
    split; [reflexivity|]. split; [exact H'|]. rewrite <- Hcap, Hq. reflexivity.
Qed.

(** A buffer of four bytes, so with room for three, whose pointers wrap. *)
Definition demo_fifo : fifo := Fifo false (Some [9; 9; 9; 9]) 3 2 4.
Lemma fifo_refines_queue_witness :
  (exists f' outs, run_accesses [Put [1; 2; 3]; Take 2; Put [4]; Close; Take 5] demo_fifo = Some (f', outs) /\ fifo_ok f' /\
    queue_run 3 [9] [Put [1; 2; 3]; Take 2; Put [4]; Close; Take 5] = (contents f', outs)) /\
  snd <$> run_accesses [Put [1; 2; 3]; Take 2; Put [4]; Close; Take 5] demo_fifo = Some [[3]; [9; 1]; []; []; [2; 4]].
Proof.
  split; [|reflexivity]. apply (fifo_refines_queue demo_fifo [Put [1; 2; 3]; Take 2; Put [4]; Close; Take 5]).
  exists [9; 9; 9; 9]. cbn. repeat split; lia.
Defined.

(** C23: What the calls return.  A blocking write that fits returns its size; a
    read of a buffer that is not empty returns the oldest bytes without waiting;
    a non-blocking read of an empty buffer returns -EAGAIN, or 0 when it is
    closed; and a non-blocking write returns -EAGAIN in every case, also after it
    has stored all its bytes. *)
Theorem fifo_calls fresh f ws ibuf size block :
  fifo_ok f -> ibuf <> [] -> (0 < size)%nat ->
  (Z.of_nat (length ibuf) <= available f -> exists f', write fresh ibuf true f ws = Returned (Z.of_nat (length ibuf)) f' /\
     fifo_ok f' /\ contents f' = contents f ++ ibuf) /\
  (contents f <> [] -> exists f', read fresh size block f ws =
     (Returned (Z.of_nat (length (take size (contents f)))) f', take size (contents f)) /\
     fifo_ok f' /\ contents f' = drop size (contents f)) /\
  (contents f = [] -> read fresh size false f ws = (Returned (if m_closed f then 0 else - EAGAIN) f, [])) /\
  (exists f', write fresh ibuf false f ws = Returned (- EAGAIN) f' /\ fifo_ok f' /\
     contents f' = contents f ++ take (capacity f - length (contents f)) ibuf).
Proof.
  intros Hf Hi Hsz. assert (Hinit : init_if_needed fresh f = f) by (destruct Hf as (b & Hb & _); unfold init_if_needed; now rewrite Hb).
  pose proof (length_contents f Hf) as Hl. pose proof (available_unread f Hf) as Ha. pose proof (unread_range f Hf) as Hu.
  unfold write, read. rewrite Hinit. split; [|split; [|split]].
  - intros Hfit. destruct (write_section_queue f ibuf Hf) as (f' & E & Hf' & Hc & _). exists f'.
    rewrite drop_ge in E by (unfold capacity; lia). rewrite take_ge in Hc by (unfold capacity; lia).
    destruct ibuf as [|c ibuf]; [contradiction|]. destruct ws; cbn [write_loop]; rewrite E; cbn [negb]; auto.
  - intros Hne. destruct (read_section_queue f size Hf) as (f' & E & Hf' & Hc & _). exists f'. split; [|auto].
    destruct (contents f) as [|x q] eqn:Eq; [contradiction|]. cbn [length] in Hl.
    rewrite (proj2 (Z.eqb_neq (unread f) 0)) by lia. rewrite andb_false_r.
    destruct size as [|size]; [lia|]. cbn [take] in *. destruct ws; cbn [read_loop]; rewrite E; now destruct (negb block).
  - intros Hq. rewrite Hq in Hl. cbn in Hl. rewrite <- Hl. reflexivity.
  - destruct (write_section_queue f ibuf Hf) as (f' & E & Hf' & Hc & _). exists f'.
    destruct ibuf as [|c ibuf]; [contradiction|]. destruct ws; cbn [write_loop]; rewrite E; cbn [negb]; auto.
Qed.

Lemma fifo_calls_witness :
  (exists f', write [] [1; 2] true demo_fifo [] = Returned 2 f' /\ fifo_ok f' /\ contents f' = [9; 1; 2]) /\
  write [] [1; 2] false demo_fifo [] = Returned (-11) (Fifo false (Some [2; 9; 9; 1]) 1 2 4).
Proof.
  split; [|reflexivity].
  refine (proj1 (fifo_calls [] demo_fifo [] [1; 2] 1 true _ _ _) _); [|discriminate|lia|vm_compute; discriminate].
  exists [9; 9; 9; 9]. cbn. repeat split; lia.
Defined.
