(* ===== verification/Mlfq.v ===== *)
(** * kernel/sched/core.cpp: the multi-level feedback queues

    Every processor has 32 run queues, doubly linked lists of threads through
    their own fields.  The definitions keep the pointers: a thread is an address
    in a store, 0 is NULL, and a failed assertion or a NULL access stops the
    kernel ([Fail]).  The sections under a queue's lock are atomic.  The proofs
    are in MlfqProps. *)

From S2P Require Import Prelude CMem State Dll.

Definition PS_RUNNING : Z := 0.
Definition MLFQ_NQUEUES : Z := 32.
Definition MLFQ_MIN_RT : Z := 1.

(** ** Data *)

(** The fields of struct thread and of its sched and stats the scheduler uses. *)
Record thread := Thread {
  t_state : Z;
  preemptable : bool;
  has_run : Z;
  timeslice : Z;
  priority : Z;
  good_streak : Z;
  t_next : Z;
  t_prev : Z;
  current_cpu : Z }.

#[export] Instance thread_eq_dec : EqDecision thread.
Proof. solve_decision. Defined.

Record queue := Queue { front : Z; back : Z }.
#[export] Instance queue_eq_dec : EqDecision queue.
Proof. solve_decision. Defined.

Record mlfq := Mlfq { core : Z; next_worksteal : Z; active : bool; queues : list queue }.
(** The threads, the queues of every processor and its [cpu.next_thread]. *)
Record sched := Sched { threads : gmap Z thread; mlfqs : list mlfq; next_thread : list Z }.

(** [Unknown] is [Good]. *)
Inductive Behavior := Good | Bad.

Definition set_state (x : Z) (t : thread) : thread :=
  Thread x (preemptable t) (has_run t) (timeslice t) (priority t) (good_streak t) (t_next t) (t_prev t) (current_cpu t).
Definition set_has_run (x : Z) (t : thread) : thread :=
  Thread (t_state t) (preemptable t) x (timeslice t) (priority t) (good_streak t) (t_next t) (t_prev t) (current_cpu t).
Definition set_timeslice (x : Z) (t : thread) : thread :=
  Thread (t_state t) (preemptable t) (has_run t) x (priority t) (good_streak t) (t_next t) (t_prev t) (current_cpu t).
Definition set_priority (x : Z) (t : thread) : thread :=
  Thread (t_state t) (preemptable t) (has_run t) (timeslice t) x (good_streak t) (t_next t) (t_prev t) (current_cpu t).
Definition set_good_streak (x : Z) (t : thread) : thread :=
  Thread (t_state t) (preemptable t) (has_run t) (timeslice t) (priority t) x (t_next t) (t_prev t) (current_cpu t).
Definition set_next (x : Z) (t : thread) : thread :=
  Thread (t_state t) (preemptable t) (has_run t) (timeslice t) (priority t) (good_streak t) x (t_prev t) (current_cpu t).
Definition set_prev (x : Z) (t : thread) : thread :=
  Thread (t_state t) (preemptable t) (has_run t) (timeslice t) (priority t) (good_streak t) (t_next t) x (current_cpu t).
Definition set_cpu (x : Z) (t : thread) : thread :=
  Thread (t_state t) (preemptable t) (has_run t) (timeslice t) (priority t) (good_streak t) (t_next t) (t_prev t) x.

(** ** Access *)

Abbreviation K := (SM sched).

(** [l[i]]; a fault outside the array. *)
Definition at_ {A} (l : list A) (i : Z) : option A := if i <? 0 then None else l !! Z.to_nat i.

Definition get_thread (a : Z) : K thread := sopt (fun s => threads s !! a).
Definition upd_thread (a : Z) (f : thread -> thread) : K unit := supd (fun s =>
  t ← threads s !! a; Some (Sched (<[a := f t]> (threads s)) (mlfqs s) (next_thread s))).
Definition get_mlfq (c : Z) : K mlfq := sopt (fun s => at_ (mlfqs s) c).
Definition upd_mlfq (c : Z) (f : mlfq -> mlfq) : K unit := supd (fun s =>
  m ← at_ (mlfqs s) c; Some (Sched (threads s) (<[Z.to_nat c := f m]> (mlfqs s)) (next_thread s))).
Definition get_queue (c p : Z) : K queue := sopt (fun s => m ← at_ (mlfqs s) c; at_ (queues m) p).
Definition set_queue (c p : Z) (q : queue) : K unit :=
  upd_mlfq c (fun m => Mlfq (core m) (next_worksteal m) (active m) (<[Z.to_nat p := q]> (queues m))).
Definition set_next_worksteal (c x : Z) : K unit :=
  upd_mlfq c (fun m => Mlfq (core m) x (active m) (queues m)).
Definition get_next_thread_slot (c : Z) : K Z := sopt (fun s => at_ (next_thread s) c).
Definition set_next_thread_slot (c x : Z) : K unit := supd (fun s =>
  _ ← at_ (next_thread s) c; Some (Sched (threads s) (mlfqs s) (<[Z.to_nat c := x]> (next_thread s)))).
Definition kassert (b : bool) : K unit := if b then mret tt else sfail.

(** ** struct mlfq::queue *)

(** The queue [p] of processor [c]. *)
Definition add_task (c p tsk : Z) : K unit :=
  q ← get_queue c p;
  if front q =? 0 then
    set_queue c p (Queue tsk (back q));;
    set_queue c p (Queue tsk tsk);;
    upd_thread tsk (set_next 0);;
    upd_thread tsk (set_prev 0)
  else
    upd_thread (back q) (set_next tsk);;
    upd_thread tsk (set_next 0);;
    upd_thread tsk (set_prev (back q));;
    set_queue c p (Queue (front q) tsk).

Definition remove_task (c p tsk : Z) : K unit :=
  t ← get_thread tsk;
  (if negb (t_next t =? 0) then upd_thread (t_next t) (set_prev (t_prev t)) else mret tt);;
  t ← get_thread tsk;
  (if negb (t_prev t =? 0) then upd_thread (t_prev t) (set_next (t_next t)) else mret tt);;
  t ← get_thread tsk;
  q ← get_queue c p;
  (if back q =? tsk then set_queue c p (Queue (front q) (t_prev t)) else mret tt);;
  q ← get_queue c p;
  (if front q =? tsk then set_queue c p (Queue (t_next t) (back q)) else mret tt);;
  q ← get_queue c p;
  (if back q =? 0 then kassert (front q =? 0) else mret tt);;
  (if front q =? 0 then kassert (back q =? 0) else mret tt);;
  upd_thread tsk (set_prev 0);;
  upd_thread tsk (set_next 0).

(** The walk visits each thread of the store at most once. *)
Definition pick_next (c p : Z) : K Z :=
  q ← get_queue c p;
  fuel ← gets (fun s => S (size (threads s)));
  sloop fuel (fun thd =>
    if thd =? 0 then mret (Break 0)
    else
      t ← get_thread thd;
      if t_state t =? PS_RUNNING then remove_task c p thd;; mret (Break thd)
      else mret (Next (t_next t))) (front q).

(** ** struct mlfq *)

(** What [add] does to the thread before it is put in its queue. *)
Definition rank (b : Behavior) (t : thread) : thread :=
  let t := match b with
           | Bad => set_priority (s32 (priority t + 1)) (set_good_streak 0 t)
           | Good =>
               let t := set_good_streak (s32 (good_streak t + 1)) t in
               if s32 (s32 (priority t * 2) + MLFQ_NQUEUES) <? good_streak t
               then set_priority (s32 (priority t - 1)) (set_good_streak 0 t)
               else t
           end in
  let t := if priority t <? 0 then set_priority 0 t else t in
  let t := if MLFQ_NQUEUES <=? priority t then set_priority (MLFQ_NQUEUES - 1) t else t in
  set_timeslice (s32 (MLFQ_MIN_RT + s32 (priority t * 2))) t.

Definition add (c thd : Z) (b : Behavior) : K unit :=
  m ← get_mlfq c;
  upd_thread thd (set_cpu (core m));;
  upd_thread thd (rank b);;
  t ← get_thread thd;
  add_task c (priority t) thd.

(** [for (int prio = 0; ...)] over the queues that are left. *)
Fixpoint first_of (c : Z) (prios : list Z) : K Z :=
  match prios with
  | [] => mret 0
  | p :: prios => cur ← pick_next c p; if cur =? 0 then first_of c prios else mret cur
  end.
Definition get_next (c : Z) : K Z := first_of c (seqZ 0 MLFQ_NQUEUES).

(** [locked]: whether try_lock got the lock of processor [c]. *)
Definition steal (c : Z) (locked : bool) : K Z :=
  if locked then first_of c (seqZ 0 MLFQ_NQUEUES) else mret 0.

Definition remove (c thd : Z) : K unit :=
  m ← get_mlfq c;
  t ← get_thread thd;
  kassert (current_cpu t =? core m);;
  upd_thread thd (set_cpu (-1));;
  t ← get_thread thd;
  remove_task c (priority t) thd.

(** The inner loop of [boost]. *)
Definition boost_queue (c p : Z) : K unit :=
  q ← get_queue c p;
  fuel ← gets (fun s => S (size (threads s)));
  sloop fuel (fun thd =>
    if thd =? 0 then mret (Break tt)
    else
      remove_task c p thd;;
      upd_thread thd (fun t => set_priority (Z.quot (priority t) 2) t);;
      t ← get_thread thd;
      add_task c (priority t) thd;;
      t ← get_thread thd;
      mret (Next (t_next t))) (front q).

Fixpoint boost_from (c : Z) (prios : list Z) : K unit :=
  match prios with
  | [] => mret tt
  | p :: prios => boost_queue c p;; boost_from c prios
  end.
Definition boost (c : Z) : K unit := boost_from c (seqZ 1 (MLFQ_NQUEUES - 1)).

(** ** The scheduler of processor [c] *)

Definition init (c : Z) : K unit := upd_mlfq c (fun m => Mlfq c (next_worksteal m) true (queues m)).

(** The loop ends at the second target at the latest; a third round is one too
    many. *)
Definition worksteal (nproc c : Z) (locked : bool) : K Z :=
  if nproc <=? 1 then mret 0
  else
    target ← sloop 3 (fun _ =>
      q ← get_mlfq c;
      set_next_worksteal c (s32 (next_worksteal q + 1));;
      let target := u32 (Z.rem (next_worksteal q) nproc) in
      mret (if target =? u32 (core q) then Next tt else Break target)) tt;
    q ← get_mlfq c;
    (if nproc <=? next_worksteal q then set_next_worksteal c 0 else mret tt);;
    v ← get_mlfq target;
    if negb (active v) then mret 0 else steal target locked.

Definition get_next_thread (nproc c : Z) (locked : bool) : K Z :=
  t ← get_next c;
  if t =? 0 then worksteal nproc c locked else mret t.

Definition pick_next_thread (nproc c : Z) (locked : bool) : K Z :=
  n ← get_next_thread_slot c;
  (if n =? 0 then t ← get_next_thread nproc c locked; set_next_thread_slot c t else mret tt);;
  get_next_thread_slot c.

(** sched::add_task and sched::remove_task. *)
Definition sched_add_task (c tsk : Z) : K unit :=
  t ← get_thread tsk;
  add c tsk (if timeslice t <=? has_run t then Bad else Good).
Definition sched_remove_task (tsk : Z) : K unit :=
  t ← get_thread tsk;
  if 0 <=? current_cpu t then remove (current_cpu t) tsk else mret tt.

(** What [switch_into] does to the scheduler's fields before the thread runs:
    [got] is false when the lock the thread holds is taken, and it returns. *)
Definition switch_into (c thd : Z) (got : bool) : K unit :=
  if got then upd_thread thd (set_state PS_RUNNING);; upd_thread thd (set_cpu c);; upd_thread thd (set_has_run 0)
  else mret tt.
(** What [yield] does to them when the thread gives the processor back. *)
Definition yield (thd : Z) : K unit := upd_thread thd (set_cpu (-1)).

(** The tick of processor [c] that runs [thd]. *)
Definition handle_tick (nproc c thd : Z) (locked : bool) : K unit :=
  upd_thread thd (fun t => set_has_run (s32 (has_run t + 1)) t);;
  t ← get_thread thd;
  if negb (t_state t =? PS_RUNNING) then mret tt
  else if negb (preemptable t) then mret tt
  else if timeslice t <=? has_run t then _ ← pick_next_thread nproc c locked; mret tt
  else mret tt.

(** ** One round of sched::run

    [has_run] is the round's counter; the result is the thread to switch into,
    0 for the idle thread. *)
Definition run_pick (nproc c n : Z) (locked : bool) : K (Z * Z) :=
  n ← (if 100 <=? n then boost c;; mret 0 else mret (u64 (n + 1)));
  thd ← pick_next_thread nproc c locked;
  set_next_thread_slot c 0;;
  mret (n, thd).
Definition run_return (c thd : Z) : K unit := if thd =? 0 then mret tt else sched_add_task c thd.
