(* ===== verification/MlfqProps.v ===== *)
(** * The scheduler's queues: proofs

    The queues of all processors as lists [q c p] of threads: each is a chain
    through the threads' own links, a thread is in at most one, and a thread in
    none has no links. *)

From S2P Require Import Prelude CMem State Dll Mlfq.

(** ** Access *)

Lemma at_lookup {A} (l : list A) i : 0 <= i -> at_ l i = l !! Z.to_nat i.
Proof. intros Hi. unfold at_. now rewrite (proj2 (Z.ltb_ge i 0)) by lia. Qed.

Lemma at_some {A} (l : list A) i x : at_ l i = Some x -> 0 <= i < Z.of_nat (length l) /\ l !! Z.to_nat i = Some x.
Proof.
  unfold at_. destruct (i <? 0) eqn:E; [discriminate|]; zbool. intros Hx. split; [|exact Hx].
  apply lookup_lt_Some in Hx. lia.
Qed.

Lemma at_insert {A} (l : list A) i x y j : at_ l i = Some x -> at_ (<[Z.to_nat i := y]> l) j = if j =? i then Some y else at_ l j.
Proof.
  intros [Hi Hx]%at_some. unfold at_. destruct (j =? i) eqn:E; zbool.
  - subst j. rewrite (proj2 (Z.ltb_ge i 0)) by lia. apply list_lookup_insert_eq. lia.
  - destruct (j <? 0) eqn:Ej; [reflexivity|]; zbool. apply list_lookup_insert_ne. lia.
Qed.

Lemma at_insert_id {A} (l : list A) i x : at_ l i = Some x -> <[Z.to_nat i := x]> l = l.
Proof. intros [_ Hx]%at_some. now apply list_insert_id. Qed.

(** A queue of a processor replaced. *)
Definition mq (m : mlfq) (p : Z) (q : queue) : mlfq :=
  Mlfq (core m) (next_worksteal m) (active m) (<[Z.to_nat p := q]> (queues m)).
Definition with_threads (s : sched) (T : gmap Z thread) : sched := Sched T (mlfqs s) (next_thread s).
Definition with_mlfq (s : sched) (c : Z) (m : mlfq) : sched :=
  Sched (threads s) (<[Z.to_nat c := m]> (mlfqs s)) (next_thread s).

Section access.
Context (s : sched).

Lemma swp_get_thread a t (Q : thread -> sched -> Prop) : threads s !! a = Some t -> Q t s -> swp (get_thread a) Q s.
Proof. intros E. apply swp_sopt, E. Qed.

Lemma swp_upd_thread a t f (Q : unit -> sched -> Prop) :
  threads s !! a = Some t -> Q tt (with_threads s (<[a := f t]> (threads s))) -> swp (upd_thread a f) Q s.
Proof. intros E HQ. unfold upd_thread. eapply swp_supd; [rewrite E; reflexivity|exact HQ]. Qed.

Lemma swp_get_mlfq c m (Q : mlfq -> sched -> Prop) : at_ (mlfqs s) c = Some m -> Q m s -> swp (get_mlfq c) Q s.
Proof. intros E. apply swp_sopt, E. Qed.

Lemma swp_upd_mlfq c m f (Q : unit -> sched -> Prop) :
  at_ (mlfqs s) c = Some m -> Q tt (with_mlfq s c (f m)) -> swp (upd_mlfq c f) Q s.
Proof. intros E HQ. unfold upd_mlfq. eapply swp_supd; [rewrite E; reflexivity|exact HQ]. Qed.

Lemma swp_get_queue c p m q (Q : queue -> sched -> Prop) :
  at_ (mlfqs s) c = Some m -> at_ (queues m) p = Some q -> Q q s -> swp (get_queue c p) Q s.
Proof. intros E Eq HQ. unfold get_queue. eapply swp_sopt; [rewrite E; exact Eq|exact HQ]. Qed.

Lemma swp_set_queue c p m q (Q : unit -> sched -> Prop) :
  at_ (mlfqs s) c = Some m -> Q tt (with_mlfq s c (mq m p q)) -> swp (set_queue c p q) Q s.
Proof. intros E HQ. unfold set_queue. eapply swp_upd_mlfq; [exact E|exact HQ]. Qed.
End access.

Lemma mq_at m p q q0 p' : at_ (queues m) p = Some q0 -> at_ (queues (mq m p q)) p' = if p' =? p then Some q else at_ (queues m) p'.
Proof. apply at_insert. Qed.

Lemma mq_mq m p q q' : mq (mq m p q) p q' = mq m p q'.
Proof. unfold mq. cbn. now rewrite list_insert_insert_eq. Qed.

Lemma mq_id m p q : at_ (queues m) p = Some q -> mq m p q = m.
Proof. intros E. unfold mq. rewrite (at_insert_id _ _ _ E). now destruct m. Qed.

Lemma with_mlfq_twice s c m m' : with_mlfq (with_mlfq s c m) c m' = with_mlfq s c m'.
Proof. unfold with_mlfq. cbn. now rewrite list_insert_insert_eq. Qed.

Lemma with_mlfq_id s c m : at_ (mlfqs s) c = Some m -> with_mlfq s c m = s.
Proof. intros E. unfold with_mlfq. rewrite (at_insert_id _ _ _ E). now destruct s. Qed.

Lemma with_mlfq_at s c m m' c' : at_ (mlfqs s) c = Some m -> at_ (mlfqs (with_mlfq s c m')) c' = if c' =? c then Some m' else at_ (mlfqs s) c'.
Proof. apply at_insert. Qed.

Lemma with_mlfq_at_eq s c m m' : at_ (mlfqs s) c = Some m -> at_ (mlfqs (with_mlfq s c m')) c = Some m'.
Proof. intros E. rewrite (with_mlfq_at _ _ _ _ _ E), Z.eqb_refl. reflexivity. Qed.

Lemma mq_at_eq m p q q0 : at_ (queues m) p = Some q0 -> at_ (queues (mq m p q)) p = Some q.
Proof. intros E. rewrite (mq_at _ _ _ _ _ E), Z.eqb_refl. reflexivity. Qed.

(** ** The invariant *)

Definition links (T : gmap Z thread) : gmap Z (Z * Z) := (fun t => (t_prev t, t_next t)) <$> T.

Lemma tlinks_lookup T a t : T !! a = Some t -> links T !! a = Some (t_prev t, t_next t).
Proof. intros E. unfold links. now rewrite lookup_fmap, E. Qed.

Abbreviation runqs := (Z -> Z -> list Z).

(** A processor that runs a scheduler. *)
Definition on_cpu (s : sched) (c : Z) : Prop := exists m, at_ (mlfqs s) c = Some m /\ active m = true.

Record sched_ok (s : sched) (q : runqs) : Prop := {
  so_mlfq c m : at_ (mlfqs s) c = Some m ->
    (active m = true -> core m = c) /\ 0 <= next_worksteal m < 64 /\
    forall p, 0 <= p < MLFQ_NQUEUES -> at_ (queues m) p = Some (Queue (hd_addr id 0 (q c p)) (last_addr id 0 (q c p)));
  so_chain c p : chain (links (threads s)) (q c p);
  so_nodup c p : NoDup (q c p);
  so_in c p x : x ∈ q c p -> exists t m, threads s !! x = Some t /\ priority t = p /\ current_cpu t = c /\
    at_ (mlfqs s) c = Some m /\ active m = true;
  so_thread x t : threads s !! x = Some t ->
    x <> 0 /\ 0 <= priority t < MLFQ_NQUEUES /\ (current_cpu t < 0 \/ on_cpu s (current_cpu t)) /\
    ((forall c p, x ∉ q c p) -> t_next t = 0 /\ t_prev t = 0) }.

(** Replacing a queue keeps which processors run a scheduler. *)
Lemma on_cpu_mq s c m p q c' : at_ (mlfqs s) c = Some m -> on_cpu s c' -> on_cpu (with_mlfq s c (mq m p q)) c'.
Proof.
  intros Hm (m' & Hm' & Ha). unfold on_cpu. rewrite (with_mlfq_at _ _ _ _ _ Hm). destruct (c' =? c) eqn:E; zbool; [|eauto].
  subst c'. rewrite Hm in Hm'. injection Hm' as <-. eexists. split; [reflexivity|exact Ha].
Qed.

Definition q_upd (q : runqs) (c p : Z) (l : list Z) : runqs :=
  fun c' p' => if (c' =? c) && (p' =? p) then l else q c' p'.

Lemma q_upd_eq q c p l : q_upd q c p l c p = l.
Proof. unfold q_upd. now rewrite !Z.eqb_refl. Qed.

Lemma q_upd_ne q c p l c' p' : (c' <> c \/ p' <> p) -> q_upd q c p l c' p' = q c' p'.
Proof. intros H. unfold q_upd. destruct (c' =? c) eqn:E, (p' =? p) eqn:E'; zbool; try reflexivity. lia. Qed.

Lemma q_upd_cases q c p l c' p' : (c' = c /\ p' = p /\ q_upd q c p l c' p' = l) \/ ((c' <> c \/ p' <> p) /\ q_upd q c p l c' p' = q c' p').
Proof.
  destruct (Z.eq_dec c' c) as [->|H]; [destruct (Z.eq_dec p' p) as [->|H']|].
  - left. now rewrite q_upd_eq.
  - right. rewrite q_upd_ne; auto.
  - right. rewrite q_upd_ne; auto.
Qed.

(** What the queue operations keep: everything but the links and the queues. *)
Definition unlinked (t : thread) : thread := set_prev 0 (set_next 0 t).
Definition header (m : mlfq) : Z * Z * bool := (core m, next_worksteal m, active m).
Record same (s s' : sched) : Prop := {
  sm_info a : unlinked <$> threads s' !! a = unlinked <$> threads s !! a;
  sm_header : header <$> mlfqs s' = header <$> mlfqs s;
  sm_next : next_thread s' = next_thread s }.

Lemma frame_refl s : same s s.
Proof. now split. Qed.

Lemma frame_trans s1 s2 s3 : same s1 s2 -> same s2 s3 -> same s1 s3.
Proof. intros [A B C] [A' B' C']. split; intros; etrans; eauto. Qed.

Lemma same_thread s s' a t : same s s' -> threads s !! a = Some t ->
  exists t', threads s' !! a = Some t' /\ unlinked t' = unlinked t.
Proof. intros Hs E. pose proof (sm_info _ _ Hs a) as H. rewrite E in H. destruct (threads s' !! a) as [t'|]; [|discriminate]. exists t'. split; [reflexivity|]. cbn in H. congruence. Qed.

Lemma unlinked_fields t t' : unlinked t' = unlinked t ->
  t_state t' = t_state t /\ priority t' = priority t /\ current_cpu t' = current_cpu t.
Proof. intros E. injection E. auto. Qed.

(** A queue is in one place: a thread's own fields say where. *)
Lemma queued_once s q x c p c' p' : sched_ok s q -> x ∈ q c p -> x ∈ q c' p' -> c' = c /\ p' = p.
Proof.
  intros Hok (t & m & E & Ep & Ec & _)%(so_in _ _ Hok) (t' & m' & E' & Ep' & Ec' & _)%(so_in _ _ Hok). split; congruence.
Qed.

Lemma queued_nonzero s q c p : sched_ok s q -> 0 ∉ q c p.
Proof. intros Hok (t & m & E & _)%(so_in _ _ Hok). apply (so_thread _ _ Hok) in E. tauto. Qed.

(** One queue changes: threads join it that were in none, threads leave it
    without links. *)
Lemma sched_ok_update s q c p m l T :
  sched_ok s q -> at_ (mlfqs s) c = Some m -> active m = true -> 0 <= p < MLFQ_NQUEUES ->
  (forall a, unlinked <$> T !! a = unlinked <$> threads s !! a) ->
  chain (links T) l -> NoDup l ->
  (forall y, y ∉ q c p -> y ∉ l -> T !! y = threads s !! y) ->
  (forall y, y ∈ q c p -> y ∉ l -> links T !! y = Some (0, 0)) ->
  (forall y, y ∈ l -> y ∈ q c p \/ ((forall c p, y ∉ q c p) /\ exists t, threads s !! y = Some t /\ priority t = p /\ current_cpu t = c)) ->
  sched_ok (with_mlfq (with_threads s T) c (mq m p (Queue (hd_addr id 0 l) (last_addr id 0 l)))) (q_upd q c p l).
Proof.
  intros Hok Hm Ha Hp Hi Hc Hn Hout Hleft Hin.
  assert (Hqs := proj2 (proj2 (so_mlfq _ _ Hok c m Hm))).
  assert (Hinfo : forall a t', T !! a = Some t' -> exists t, threads s !! a = Some t /\ priority t' = priority t /\ current_cpu t' = current_cpu t).
  { intros a t' E. specialize (Hi a). rewrite E in Hi. destruct (threads s !! a) as [t|]; [|discriminate]. exists t.
    apply (inj Some) in Hi. destruct (unlinked_fields t t' Hi) as (_ & ? & ?). auto. }
  assert (Hdis : forall c' p' y, c' <> c \/ p' <> p -> y ∈ q c' p' -> (y ∉ q c p) /\ (y ∉ l)).
  { intros c' p' y Hne Hy. assert (Hy' : y ∉ q c p) by (intros Hy'; destruct (queued_once _ _ _ _ _ _ _ Hok Hy' Hy); lia).
    split; [exact Hy'|]. intros Hl. destruct (Hin y Hl) as [|[Hno _]]; [auto|]. now apply (Hno c' p'). }
  split; change (threads (with_mlfq (with_threads s T) c (mq m p (Queue (hd_addr id 0 l) (last_addr id 0 l))))) with T.
  - intros c' m'. rewrite (with_mlfq_at _ _ m) by exact Hm. destruct (c' =? c) eqn:E; zbool.
    + intros [= <-]. subst c'. destruct (so_mlfq _ _ Hok c m Hm) as (Hco & Hw & _).
      split; [exact Hco|]. split; [exact Hw|]. intros p' Hp'. rewrite (mq_at _ _ _ _ _ (Hqs p Hp)). destruct (p' =? p) eqn:E; zbool.
      * subst p'. now rewrite q_upd_eq.
      * rewrite q_upd_ne by auto. now apply Hqs.
    + intros Hm'. destruct (so_mlfq _ _ Hok c' m' Hm') as (Hco & Hw & Hq). split; [exact Hco|]. split; [exact Hw|].
      intros p' Hp'. rewrite q_upd_ne by auto. now apply Hq.
  - intros c' p'. destruct (q_upd_cases q c p l c' p') as [(_ & _ & ->)|[Hne ->]]; [exact Hc|].
    eapply dseg_ext; [|apply (so_chain _ _ Hok)]. intros y Hy. destruct (Hdis _ _ _ Hne Hy). unfold links. now rewrite !lookup_fmap, Hout.
  - intros c' p'. destruct (q_upd_cases q c p l c' p') as [(_ & _ & ->)|[Hne ->]]; [exact Hn|apply (so_nodup _ _ Hok)].
  - intros c' p' y Hy.
    assert (Hold : exists t m0, threads s !! y = Some t /\ priority t = p' /\ current_cpu t = c' /\ at_ (mlfqs s) c' = Some m0 /\ active m0 = true).
    { destruct (q_upd_cases q c p l c' p') as [(-> & -> & E)|[Hne E]]; rewrite E in Hy; [|now apply (so_in _ _ Hok)].
      destruct (Hin y Hy) as [Hq|(_ & t & Et & Ep & Ec)]; [now apply (so_in _ _ Hok)|]. eauto 10. }
    destruct Hold as (t & m0 & Et & Ep & Ec & Em & Ea). destruct (T !! y) as [t'|] eqn:E.
    + destruct (Hinfo y t' E) as (t0 & Et0 & Ep' & Ec'). rewrite Et in Et0. injection Et0 as <-.
      destruct (Z.eq_dec c' c) as [Ecc|Hcc].
      * rewrite Ecc. exists t', (mq m p (Queue (hd_addr id 0 l) (last_addr id 0 l))). rewrite (with_mlfq_at_eq _ _ m) by exact Hm.
        repeat split; cbn [active mq]; congruence.
      * exists t', m0. rewrite (with_mlfq_at _ _ m), (proj2 (Z.eqb_neq c' c) Hcc) by exact Hm. change (mlfqs (with_threads s T)) with (mlfqs s). repeat split; congruence.
    + specialize (Hi y). now rewrite E, Et in Hi.
  - intros y t' E. destruct (Hinfo y t' E) as (t & Et & Ep & Ec). destruct (so_thread _ _ Hok y t Et) as (H0 & Hpr & Hcpu & Hl).
    split; [exact H0|]. split; [congruence|]. split; [rewrite Ec; destruct Hcpu; [auto|right; now apply (on_cpu_mq (with_threads s T))]|]. intros Hno.
    assert (Hyl : y ∉ l) by (specialize (Hno c p); now rewrite q_upd_eq in Hno).
    destruct (decide (y ∈ q c p)) as [Hy|Hy].
    + specialize (Hleft y Hy Hyl). rewrite (tlinks_lookup _ _ _ E) in Hleft. injection Hleft. auto.
    + rewrite Hout in E by assumption. rewrite Et in E. injection E as <-. apply Hl. intros c' p' Hy'.
      destruct (q_upd_cases q c p l c' p') as [(-> & -> & _)|[Hne E]]; [auto|]. apply (Hno c' p'). now rewrite E.
Qed.

(** ** Taking a thread out of its queue *)

Lemma swp_alter_thread s a f (Q : unit -> sched -> Prop) :
  is_Some (threads s !! a) -> Q tt (with_threads s (alter f a (threads s))) -> swp (upd_thread a f) Q s.
Proof.
  intros [t E] HQ. apply (swp_upd_thread s a t); [exact E|].
  replace (<[a := f t]> (threads s)) with (alter f a (threads s)); [exact HQ|].
  apply map_eq. intros b. destruct (Z.eq_dec b a) as [->|Hb].
  - now rewrite lookup_insert_eq, lookup_alter_eq, E.
  - now rewrite lookup_insert_ne, lookup_alter_ne by auto.
Qed.

Lemma is_Some_alter (T : gmap Z thread) a b f : is_Some (T !! a) -> is_Some (alter f b T !! a).
Proof. intros [t E]. destruct (Z.eq_dec b a) as [->|H]; [rewrite lookup_alter_eq|rewrite lookup_alter_ne by auto]; rewrite E; cbn; eauto. Qed.

Definition unlink (prev next : Z) (T : gmap Z thread) : gmap Z thread :=
  let T := if next =? 0 then T else alter (set_prev prev) next T in
  if prev =? 0 then T else alter (set_next next) prev T.

Lemma tunlink_lookup prev next T a :
  unlink prev next T !! a =
  (fun t => let l := relink prev next a (t_prev t, t_next t) in set_prev (fst l) (set_next (snd l) t)) <$> T !! a.
Proof.
  unfold unlink, relink. destruct (prev =? 0) eqn:Ep, (next =? 0) eqn:En; zbool; cbn [negb];
    destruct (a =? prev) eqn:E1, (a =? next) eqn:E2; cbn [andb]; zbool; subst; try congruence;
    rewrite ?lookup_alter_eq, ?lookup_alter_ne, ?lookup_alter_eq, ?lookup_alter_ne by congruence;
    destruct (T !! _) as [[]|]; reflexivity.
Qed.

(** The links of [x] cleared. *)
Definition removed (x : Z) (t : thread) (T : gmap Z thread) : gmap Z thread :=
  alter (set_next 0) x (alter (set_prev 0) x (unlink (t_prev t) (t_next t) T)).

Lemma with_threads_id s : with_threads s (threads s) = s.
Proof. now destruct s. Qed.

(** The neighbours of [x] are linked to each other. *)
Lemma swp_unlink s x t (k : thread -> K unit) Q :
  threads s !! x = Some t -> t_prev t <> x -> t_next t <> x ->
  (t_prev t <> 0 -> is_Some (threads s !! t_prev t)) -> (t_next t <> 0 -> is_Some (threads s !! t_next t)) ->
  swp (k t) Q (with_threads s (unlink (t_prev t) (t_next t) (threads s))) ->
  swp (t ← get_thread x;
       (if negb (t_next t =? 0) then upd_thread (t_next t) (set_prev (t_prev t)) else mret tt);;
       t ← get_thread x;
       (if negb (t_prev t =? 0) then upd_thread (t_prev t) (set_next (t_next t)) else mret tt);;
       t ← get_thread x; k t) Q s.
Proof.
  intros Hx Hpx Hnx Hp Hn Hk. unfold unlink in Hk. apply swp_bind, (swp_get_thread s x t); [exact Hx|]. apply swp_bind.
  set (T1 := if t_next t =? 0 then threads s else alter (set_prev (t_prev t)) (t_next t) (threads s)) in *.
  assert (H1 : T1 !! x = Some t) by (unfold T1; destruct (t_next t =? 0); rewrite ?lookup_alter_ne by auto; exact Hx).
  assert (Hsome : t_prev t <> 0 -> is_Some (T1 !! t_prev t)).
  { intros H. unfold T1. destruct (t_next t =? 0); [|apply is_Some_alter]; now apply Hp. }
  assert (Hfirst : swp (if negb (t_next t =? 0) then upd_thread (t_next t) (set_prev (t_prev t)) else mret tt)
    (fun _ s' => s' = with_threads s T1) s).
  { unfold T1. destruct (t_next t =? 0) eqn:E; cbn [negb]; zbool; [apply swp_ret; symmetry; apply with_threads_id|].
    apply swp_alter_thread; [now apply Hn|reflexivity]. }
  eapply swp_mono; [exact Hfirst|]. intros [] s1 ->. apply swp_bind, (swp_get_thread _ x t); [exact H1|]. apply swp_bind.
  destruct (t_prev t =? 0) eqn:E; cbn [negb]; zbool.
  - apply swp_ret, swp_bind, (swp_get_thread _ x t); [exact H1|exact Hk].
  - apply swp_alter_thread; [now apply Hsome|]. apply swp_bind, (swp_get_thread _ x t); [|exact Hk].
    cbn. now rewrite lookup_alter_ne.
Qed.

(** The ends of the queue move away from [x]. *)
Definition ends_without (x : Z) (t : thread) (q : queue) : queue :=
  Queue (if front q =? x then t_next t else front q) (if back q =? x then t_prev t else back q).

Lemma swp_ends s c p x t m q (k : K unit) Q :
  at_ (mlfqs s) c = Some m -> at_ (queues m) p = Some q ->
  (front (ends_without x t q) = 0 <-> back (ends_without x t q) = 0) ->
  swp k Q (with_mlfq s c (mq m p (ends_without x t q))) ->
  swp (q ← get_queue c p;
      (if back q =? x then set_queue c p (Queue (front q) (t_prev t)) else mret tt);;
      q ← get_queue c p;
      (if front q =? x then set_queue c p (Queue (t_next t) (back q)) else mret tt);;
      q ← get_queue c p;
      (if back q =? 0 then kassert (front q =? 0) else mret tt);;
      (if front q =? 0 then kassert (back q =? 0) else mret tt);; k) Q s.
Proof.
  intros Hm Hq Hq' Hk. set (q' := ends_without x t q) in *. apply swp_bind. eapply swp_get_queue; [exact Hm|exact Hq|]. apply swp_bind.
  assert (Hback : swp (if back q =? x then set_queue c p (Queue (front q) (t_prev t)) else mret tt)
    (fun _ s' => s' = with_mlfq s c (mq m p (Queue (front q) (back q')))) s).
  { cbn [back q' ends_without]. destruct (back q =? x); [eapply swp_set_queue; [exact Hm|reflexivity]|]. apply swp_ret.
    rewrite mq_id by (now destruct q). symmetry. now apply with_mlfq_id. }
  eapply swp_mono; [exact Hback|]. intros [] s1 ->. apply swp_bind.
  eapply swp_get_queue; [eapply with_mlfq_at_eq; exact Hm|eapply mq_at_eq; exact Hq|]. apply swp_bind. cbn [front back].
  assert (Hfront : swp (if front q =? x then set_queue c p (Queue (t_next t) (back q')) else mret tt)
    (fun _ s' => s' = with_mlfq s c (mq m p q')) (with_mlfq s c (mq m p (Queue (front q) (back q'))))).
  { unfold q', ends_without at 2. cbn [front back]. destruct (front q =? x); [|now apply swp_ret].
    eapply swp_set_queue; [eapply with_mlfq_at_eq; exact Hm|]. now rewrite with_mlfq_twice, mq_mq. }
  eapply swp_mono; [exact Hfront|]. intros [] s1 ->. apply swp_bind.
  eapply swp_get_queue; [eapply with_mlfq_at_eq; exact Hm|eapply mq_at_eq; exact Hq|]. apply swp_bind.
  destruct (back q' =? 0) eqn:Eb, (front q' =? 0) eqn:Ef; zbool; try tauto; apply swp_ret, swp_bind, swp_ret, Hk.
Qed.

Lemma remove_task_run s c p x t m q :
  threads s !! x = Some t -> t_prev t <> x -> t_next t <> x ->
  (t_prev t <> 0 -> is_Some (threads s !! t_prev t)) -> (t_next t <> 0 -> is_Some (threads s !! t_next t)) ->
  at_ (mlfqs s) c = Some m -> at_ (queues m) p = Some q ->
  (front (ends_without x t q) = 0 <-> back (ends_without x t q) = 0) ->
  remove_task c p x s = Done tt (with_mlfq (with_threads s (removed x t (threads s))) c (mq m p (ends_without x t q))).
Proof.
  intros Hx Hpx Hnx Hp Hn Hm Hq Hq'. apply swp_eq. unfold remove_task.
  apply (swp_unlink s x t); try assumption. eapply swp_ends; [exact Hm|exact Hq|exact Hq'|].
  assert (Hs : is_Some (unlink (t_prev t) (t_next t) (threads s) !! x)) by (rewrite tunlink_lookup, Hx; cbn; eauto).
  apply swp_bind, swp_alter_thread; [exact Hs|]. apply swp_alter_thread; [now apply is_Some_alter|]. auto.
Qed.

Lemma removed_lookup x t T a : a <> x -> removed x t T !! a =
  (fun u => let l := relink (t_prev t) (t_next t) a (t_prev u, t_next u) in set_prev (fst l) (set_next (snd l) u)) <$> T !! a.
Proof. intros Ha. unfold removed. rewrite !lookup_alter_ne by auto. apply tunlink_lookup. Qed.

Lemma removed_self x t T : T !! x = Some t -> removed x t T !! x = Some (unlinked t).
Proof. intros E. unfold removed. rewrite !lookup_alter_eq, tunlink_lookup, E. reflexivity. Qed.

Lemma removed_info x t T a : T !! x = Some t -> unlinked <$> removed x t T !! a = unlinked <$> T !! a.
Proof.
  intros E. destruct (Z.eq_dec a x) as [->|Ha]; [rewrite (removed_self _ _ _ E), E; reflexivity|].
  rewrite removed_lookup by exact Ha. now destruct (T !! a).
Qed.

Lemma queued_links s q c p l1 x l2 : sched_ok s q -> q c p = l1 ++ x :: l2 ->
  exists t, threads s !! x = Some t /\ t_prev t = last_addr id 0 l1 /\ t_next t = hd_addr id 0 l2.
Proof.
  intros Hok E. pose proof (so_chain _ _ Hok c p) as Hc. rewrite E in Hc. apply (dseg_lookup link_cell id) in Hc.
  change (id x) with x in Hc. unfold links, link_cell in Hc. rewrite lookup_fmap in Hc.
  destruct (threads s !! x) as [t|]; [|discriminate]. injection Hc. eauto.
Qed.

Lemma queued_some s q c p x : sched_ok s q -> x ∈ q c p -> is_Some (threads s !! x).
Proof. intros Hok (t & _ & E & _)%(so_in _ _ Hok). eauto. Qed.

Lemma ends_without_list l1 x l2 t : NoDup (l1 ++ x :: l2) -> t_prev t = last_addr id 0 l1 -> t_next t = hd_addr id 0 l2 ->
  ends_without x t (Queue (hd_addr id 0 (l1 ++ x :: l2)) (last_addr id 0 (l1 ++ x :: l2))) = Queue (hd_addr id 0 (l1 ++ l2)) (last_addr id 0 (l1 ++ l2)).
Proof.
  intros Hnd Ep En. apply list.NoDup_app in Hnd as (_ & Hd & Hn). inversion Hn as [|? ? Hx _]; subst.
  unfold ends_without. cbn [front back]. rewrite Ep, En. f_equal.
  - destruct l1 as [|y l1]; cbn; unfold id; [now rewrite Z.eqb_refl|]. rewrite (proj2 (Z.eqb_neq y x)); [reflexivity|].
    intros ->. apply (Hd x); left.
  - rewrite !last_addr_app. destruct l2 as [|y l2 _] using rev_ind; [cbn; unfold id; now rewrite Z.eqb_refl|].
    cbn [last_addr]. rewrite !last_addr_app. cbn. unfold id. rewrite (proj2 (Z.eqb_neq y x)); [reflexivity|].
    intros ->. apply Hx, elem_of_app. right. left.
Qed.

Lemma chain_ends l : 0 ∉ l -> hd_addr id 0 l = 0 <-> last_addr id 0 l = 0.
Proof.
  intros H. destruct l as [|x l]; [tauto|]. split; intros E; exfalso; apply H.
  - cbn in E. unfold id in E. subst x. left.
  - destruct l as [|y l _] using rev_ind; [cbn in E; unfold id in E; subst x; left|].
    rewrite app_comm_cons, last_addr_app in E. cbn in E. unfold id in E. subst y. right. apply elem_of_app. right. left.
Qed.

Lemma header_mq s c m p q : at_ (mlfqs s) c = Some m -> header <$> mlfqs (with_mlfq s c (mq m p q)) = header <$> mlfqs s.
Proof.
  intros Hm. cbn. rewrite list_fmap_insert. apply list_insert_id. apply at_some in Hm as [_ Hm]. now rewrite list_lookup_fmap, Hm.
Qed.

Lemma remove_task_spec s q c p l1 x l2 : sched_ok s q -> q c p = l1 ++ x :: l2 ->
  exists s', remove_task c p x s = Done tt s' /\ sched_ok s' (q_upd q c p (l1 ++ l2)) /\ same s s'.
Proof.
  intros Hok E. destruct (queued_links _ _ _ _ _ _ _ Hok E) as (t & Ht & Ep & En).
  assert (Hin : x ∈ q c p) by (rewrite E; apply elem_of_app; right; left).
  destruct (so_in _ _ Hok c p x Hin) as (t0 & m & Et & Epr & Ecpu & Hm & Hact). rewrite Ht in Et. injection Et as <-.
  destruct (so_thread _ _ Hok x t Ht) as (Hx0 & Hpr & _). rewrite Epr in Hpr.
  pose proof (proj2 (proj2 (so_mlfq _ _ Hok c m Hm)) p Hpr) as Hq. pose proof (so_nodup _ _ Hok c p) as Hnd.
  pose proof (queued_nonzero _ _ c p Hok) as H0. rewrite E in Hq, Hnd, H0.
  pose proof Hnd as (_ & Hd12 & Hd2)%list.NoDup_app. inversion Hd2 as [|? ? Hd3 _]; subst.
  assert (Hl1 : last_addr id 0 l1 = 0 \/ last_addr id 0 l1 ∈ l1) by apply last_addr_in.
  assert (Hl2 : hd_addr id 0 l2 = 0 \/ hd_addr id 0 l2 ∈ l2) by apply hd_addr_in.
  assert (Hrun := remove_task_run s (current_cpu t) (priority t) x t m (Queue (hd_addr id 0 (l1 ++ x :: l2)) (last_addr id 0 (l1 ++ x :: l2))) Ht). rewrite Ep, En in Hrun.
  eexists. split; [apply Hrun; clear Hrun|]; [..|split].
  - destruct Hl1 as [->|Hl]; [auto|]. intros E1. rewrite E1 in Hl. apply (Hd12 _ Hl). left.
  - destruct Hl2 as [->|Hl]; [auto|]. intros E1. now rewrite E1 in Hl.
  - intros Hne. eapply queued_some; [exact Hok|rewrite E; apply elem_of_app; left; tauto].
  - intros Hne. eapply queued_some; [exact Hok|rewrite E; apply elem_of_app; right; right; tauto].
  - exact Hm.
  - exact Hq.
  - rewrite ends_without_list by assumption. apply chain_ends. rewrite elem_of_app, elem_of_cons in H0. rewrite elem_of_app. tauto.
  - rewrite ends_without_list by assumption. apply sched_ok_update; try assumption.
    + intros a. now apply removed_info.
    + apply (chain_unlink (links (threads s)) _ l1 x l2); try assumption; [rewrite <- E; apply (so_chain _ _ Hok)|].
      intros a Ha. unfold links. rewrite !lookup_fmap, removed_lookup by exact Ha. rewrite Ep, En. now destruct (threads s !! a).
    + rewrite <- (Permutation_middle l1 l2 x) in Hnd. now inversion Hnd.
    + intros y Hy _. rewrite E, elem_of_app, elem_of_cons in Hy. rewrite removed_lookup by tauto.
      rewrite <- (option_fmap_id (threads s !! y)) at 2. apply option_fmap_ext. intros u. rewrite relink_far; [now destruct u|rewrite Ep|rewrite En].
      * destruct Hl1; [auto|]. right. intros ->. tauto.
      * destruct Hl2; [auto|]. right. intros ->. tauto.
    + intros y Hy Hno. rewrite E, elem_of_app, elem_of_cons in Hy. rewrite elem_of_app in Hno.
      assert (y = x) as -> by tauto. now rewrite (tlinks_lookup _ _ _ (removed_self _ _ _ Ht)).
    + intros y Hy. left. rewrite E, elem_of_app, elem_of_cons. rewrite elem_of_app in Hy. tauto.
  - split; [intros a; now apply removed_info|now apply (header_mq (with_threads s _))|reflexivity].
Qed.

(** ** Putting a thread in a queue *)

(** [x] linked behind [b], the end of the queue, or alone. *)
Definition pushed (x b : Z) (T : gmap Z thread) : gmap Z thread :=
  alter (set_prev b) x (alter (set_next 0) x (if b =? 0 then T else alter (set_next x) b T)).

Lemma pushed_info x b T a : unlinked <$> pushed x b T !! a = unlinked <$> T !! a.
Proof.
  unfold pushed. destruct (Z.eq_dec a x) as [->|Hx].
  - rewrite !lookup_alter_eq. destruct (b =? 0); [now destruct (T !! x)|].
    destruct (Z.eq_dec b x) as [->|Hb]; [rewrite lookup_alter_eq|rewrite lookup_alter_ne by auto]; now destruct (T !! x).
  - rewrite !lookup_alter_ne by auto. destruct (b =? 0); [reflexivity|].
    destruct (Z.eq_dec b a) as [->|Hb]; [rewrite lookup_alter_eq|rewrite lookup_alter_ne by auto]; now destruct (T !! a).
Qed.

Lemma pushed_far x b T a : a <> x -> (b = 0 \/ a <> b) -> pushed x b T !! a = T !! a.
Proof.
  intros Hx Hb. unfold pushed. rewrite !lookup_alter_ne by auto. destruct (b =? 0) eqn:E; [reflexivity|]; zbool.
  apply lookup_alter_ne. destruct Hb; congruence.
Qed.

Lemma pushed_self x b T t : T !! x = Some t -> b <> x -> pushed x b T !! x = Some (set_prev b (set_next 0 t)).
Proof. intros E Hb. unfold pushed. rewrite !lookup_alter_eq. destruct (b =? 0); [|rewrite lookup_alter_ne by exact Hb]; now rewrite E. Qed.

Lemma pushed_end x b T t : T !! b = Some t -> b <> x -> b <> 0 -> pushed x b T !! b = Some (set_next x t).
Proof.
  intros E Hb H0. unfold pushed. rewrite !lookup_alter_ne by auto. rewrite (proj2 (Z.eqb_neq b 0) H0), lookup_alter_eq, E. reflexivity.
Qed.

Lemma add_task_run s c p x m q :
  is_Some (threads s !! x) -> (back q <> 0 -> is_Some (threads s !! back q)) ->
  at_ (mlfqs s) c = Some m -> at_ (queues m) p = Some q -> (front q = 0 <-> back q = 0) ->
  add_task c p x s = Done tt (with_mlfq (with_threads s (pushed x (back q) (threads s))) c (mq m p (Queue (if front q =? 0 then x else front q) x))).
Proof.
  intros Hx Hb Hm Hq Hiff. apply swp_eq. unfold add_task. apply swp_bind. eapply swp_get_queue; [exact Hm|exact Hq|].
  unfold pushed. destruct (front q =? 0) eqn:E; zbool.
  - rewrite (proj1 Hiff E). apply swp_bind. eapply swp_set_queue; [exact Hm|].
    apply swp_bind. eapply swp_set_queue; [eapply with_mlfq_at_eq; exact Hm|]. rewrite with_mlfq_twice, mq_mq.
    apply swp_bind, swp_alter_thread; [exact Hx|]. apply swp_alter_thread; [now apply is_Some_alter|]. auto.
  - assert (Hb0 : back q <> 0) by tauto. rewrite (proj2 (Z.eqb_neq _ 0) Hb0).
    apply swp_bind, swp_alter_thread; [now apply Hb|]. apply swp_bind, swp_alter_thread; [now apply is_Some_alter|].
    apply swp_bind, swp_alter_thread; [now apply is_Some_alter, is_Some_alter|]. eapply swp_set_queue; [exact Hm|]. auto.
Qed.

Lemma last_snoc (l : list Z) y : last_addr id 0 (l ++ [y]) = y.
Proof. now rewrite last_addr_app. Qed.

Lemma add_task_spec s q c p x t m : sched_ok s q -> threads s !! x = Some t -> priority t = p -> current_cpu t = c ->
  at_ (mlfqs s) c = Some m -> active m = true -> (forall c p, x ∉ q c p) ->
  exists s', add_task c p x s = Done tt s' /\ sched_ok s' (q_upd q c p (q c p ++ [x])) /\ same s s'.
Proof.
  intros Hok Ht Ep Ec Hm Ha Hno. destruct (so_thread _ _ Hok x t Ht) as (Hx0 & Hpr & _). rewrite Ep in Hpr.
  pose proof (proj2 (proj2 (so_mlfq _ _ Hok c m Hm)) p Hpr) as Hq. pose proof (queued_nonzero _ _ c p Hok) as H0.
  assert (Hends : hd_addr id 0 (q c p) = 0 <-> last_addr id 0 (q c p) = 0) by now apply chain_ends.
  assert (Hb : last_addr id 0 (q c p) = 0 \/ last_addr id 0 (q c p) ∈ q c p) by apply last_addr_in.
  assert (Hbx : last_addr id 0 (q c p) <> x) by (destruct Hb as [->|Hb]; [auto|]; intros E; rewrite E in Hb; now apply (Hno c p)).
  eexists. split; [eapply add_task_run; [eauto| |exact Hm|exact Hq|exact Hends]|split].
  - cbn [back]. intros Hne. destruct Hb; [tauto|]. eapply queued_some; eauto.
  - cbn [front back].
    replace (Queue (if hd_addr id 0 (q c p) =? 0 then x else hd_addr id 0 (q c p)) x)
      with (Queue (hd_addr id 0 (q c p ++ [x])) (last_addr id 0 (q c p ++ [x]))).
    2: { rewrite last_snoc. f_equal. destruct (q c p) as [|y l] eqn:E; [reflexivity|]. cbn. unfold id.
         rewrite (proj2 (Z.eqb_neq y 0)); [reflexivity|]. intros ->. apply H0. left. }
    apply sched_ok_update; try assumption.
    + intros a. apply pushed_info.
    + apply (chain_push (links (threads s))); [apply (so_chain _ _ Hok)|apply (so_nodup _ _ Hok)|apply Hno| | |].
      * intros zs y E. destruct (queued_links _ _ _ _ zs y [] Hok E) as (ty & Ety & Epy & _).
        rewrite E, last_snoc in Hbx |- *.
        erewrite tlinks_lookup; [|eapply pushed_end; [exact Ety|exact Hbx|]]; [cbn; now rewrite Epy|].
        intros ->. apply H0. rewrite E. apply elem_of_app. right. left.
      * erewrite tlinks_lookup; [|eapply pushed_self; [exact Ht|exact Hbx]]. reflexivity.
      * intros a Hin Hne. unfold links. rewrite !lookup_fmap, pushed_far; auto. intros ->. now apply (Hno c p).
    + apply list.NoDup_app. split; [apply (so_nodup _ _ Hok)|]. split; [|constructor; [inversion 1|constructor]].
      intros y Hy. rewrite list_elem_of_singleton. intros ->. now apply (Hno c p).
    + intros y Hy Hy'. rewrite elem_of_app, list_elem_of_singleton in Hy'. apply pushed_far; [tauto|].
      destruct Hb; [auto|]. right. intros ->. auto.
    + intros y Hy Hy'. exfalso. apply Hy', elem_of_app. auto.
    + intros y Hy. rewrite elem_of_app, list_elem_of_singleton in Hy. destruct Hy as [Hy| ->]; [auto|]. right. eauto.
  - split; [intros a; apply pushed_info|now apply (header_mq (with_threads s _))|reflexivity].
Qed.

(** ** Queues up to equality of their lists *)

Definition q_eq (q q' : runqs) : Prop := forall c p, q c p = q' c p.

#[export] Instance q_eq_equiv : Equivalence q_eq.
Proof. split; [now intros q c p|intros q q' H c p; now rewrite H|intros q q' q'' H H' c p; now rewrite H]. Qed.

#[export] Instance sched_ok_proper s : Proper (q_eq ==> iff) (sched_ok s).
Proof.
  assert (Hdir : forall q q', q_eq q q' -> sched_ok s q -> sched_ok s q').
  { intros q q' E [H1 H2 H3 H4 H5]. split.
    - intros c m Hm. destruct (H1 c m Hm) as (A & B & C). split; [exact A|]. split; [exact B|]. intros p Hp. rewrite <- E. auto.
    - intros c p. rewrite <- E. auto.
    - intros c p. rewrite <- E. auto.
    - intros c p x Hx. rewrite <- E in Hx. auto.
    - intros x t Hx. destruct (H5 x t Hx) as (A & B & D & C). split; [exact A|]. split; [exact B|]. split; [exact D|]. intros Hno. apply C.
      intros c p. rewrite E. apply Hno. }
  intros q q' E. split; apply Hdir; [exact E|now symmetry].
Qed.

(** [x] out of every queue; [x] at the end of one. *)
Definition q_del (x : Z) (q : runqs) : runqs := fun c p => filter (fun y => y <> x) (q c p).
Definition q_push (c p x : Z) (q : runqs) : runqs := q_upd q c p (q c p ++ [x]).

Lemma filter_absent x (l : list Z) : x ∉ l -> filter (fun y => y <> x) l = l.
Proof.
  induction l as [|y l IH]; [reflexivity|]. rewrite not_elem_of_cons. intros [Hy Hl].
  rewrite filter_cons_True, IH by auto. reflexivity.
Qed.

Lemma filter_middle x (l1 l2 : list Z) : NoDup (l1 ++ x :: l2) -> filter (fun y => y <> x) (l1 ++ x :: l2) = l1 ++ l2.
Proof.
  intros (_ & Hd & Hn)%list.NoDup_app. inversion Hn; subst. rewrite list.filter_app, filter_cons_False by tauto.
  rewrite !filter_absent; auto. intros Hx. apply (Hd x Hx). left.
Qed.

Lemma q_del_absent x q : (forall c p, x ∉ q c p) -> q_eq (q_del x q) q.
Proof. intros H c p. apply filter_absent, H. Qed.

Lemma q_del_not_in x q c p : x ∉ q_del x q c p.
Proof. unfold q_del. rewrite list_elem_of_filter. tauto. Qed.

Lemma elem_of_q_del x q c p y : y ∈ q_del x q c p <-> y <> x /\ y ∈ q c p.
Proof. unfold q_del. now rewrite list_elem_of_filter. Qed.

Lemma elem_of_q_push c p x q c' p' y : y ∈ q_push c p x q c' p' <-> y ∈ q c' p' \/ (y = x /\ c' = c /\ p' = p).
Proof.
  unfold q_push. destruct (q_upd_cases q c p (q c p ++ [x]) c' p') as [(-> & -> & ->)|[H ->]].
  - rewrite elem_of_app, list_elem_of_singleton. tauto.
  - split; [tauto|]. intros [H'|H']; [exact H'|lia].
Qed.

Lemma remove_task_del s q c p x : sched_ok s q -> x ∈ q c p ->
  exists s', remove_task c p x s = Done tt s' /\ sched_ok s' (q_del x q) /\ same s s'.
Proof.
  intros Hok Hx. pose proof Hx as (l1 & l2 & E)%list_elem_of_split.
  destruct (remove_task_spec s q c p l1 x l2 Hok E) as (s' & Hr & Hok' & Hs). exists s'. split; [exact Hr|]. split; [|exact Hs].
  rewrite <- (filter_middle x l1 l2), <- E in Hok' by (rewrite <- E; apply (so_nodup _ _ Hok)).
  assert (Eq : q_eq (q_del x q) (q_upd q c p (filter (fun y => y <> x) (q c p)))); [|now rewrite Eq].
  intros c' p'. destruct (q_upd_cases q c p (filter (fun y => y <> x) (q c p)) c' p') as [(-> & -> & ->)|[H ->]]; [reflexivity|].
  apply filter_absent. intros Hx'. destruct (queued_once _ _ _ _ _ _ _ Hok Hx Hx'). lia.
Qed.

(** A thread's other fields change: of a thread in no queue all but the links, of
    a thread in a queue all but where it is. *)
Lemma sched_ok_set s q x t t' : sched_ok s q -> threads s !! x = Some t ->
  t_next t' = t_next t -> t_prev t' = t_prev t -> 0 <= priority t' < MLFQ_NQUEUES -> (current_cpu t' < 0 \/ on_cpu s (current_cpu t')) ->
  ((forall c p, x ∉ q c p) \/ (priority t' = priority t /\ current_cpu t' = current_cpu t)) ->
  sched_ok (with_threads s (<[x := t']> (threads s))) q.
Proof.
  intros [H1 H2 H3 H4 H5] Ht En Ep Hpr Hcpu Hq. split; cbn [threads with_threads]; [exact H1| |exact H3| |].
  - intros c p. replace (links (<[x := t']> (threads s))) with (links (threads s)); [apply H2|].
    unfold links. rewrite fmap_insert, En, Ep. symmetry. apply insert_id. now rewrite lookup_fmap, Ht.
  - intros c p y Hy. destruct (H4 c p y Hy) as (u & m & Eu & Hup & Huc & Hm). destruct (Z.eq_dec y x) as [->|Hne].
    + rewrite Ht in Eu. injection Eu as <-. exists t', m. rewrite lookup_insert_eq. destruct Hq as [Hno|[-> ->]]; [now apply Hno in Hy|]. auto.
    + exists u, m. rewrite lookup_insert_ne by auto. auto.
  - intros y u. destruct (Z.eq_dec y x) as [->|Hne].
    + rewrite lookup_insert_eq. intros [= <-]. destruct (H5 x t Ht) as (A & _ & _ & C). rewrite En, Ep. auto.
    + rewrite lookup_insert_ne by auto. apply H5.
Qed.

(** ** Choosing a thread *)

Definition runnable (s : sched) (x : Z) : bool :=
  match threads s !! x with Some t => t_state t =? PS_RUNNING | None => false end.

Lemma same_runnable s s' x : same s s' -> runnable s' x = runnable s x.
Proof.
  intros Hs. pose proof (sm_info _ _ Hs x) as E. unfold runnable. destruct (threads s' !! x) as [t'|], (threads s !! x) as [t|]; try discriminate; [|reflexivity].
  apply (inj Some) in E. destruct (unlinked_fields _ _ E) as (-> & _). reflexivity.
Qed.

Lemma find_ext_same s s' l : same s s' -> List.find (runnable s') l = List.find (runnable s) l.
Proof. intros Hs. induction l as [|x l IH]; [reflexivity|]. cbn. now rewrite (same_runnable _ _ _ Hs), IH. Qed.

Lemma find_app_none {A} (f : A -> bool) l1 l2 : List.find f l1 = None -> List.find f (l1 ++ l2) = List.find f l2.
Proof. induction l1 as [|x l1 IH]; cbn; [auto|]. destruct (f x); [discriminate|exact IH]. Qed.

(** The queues after the choice. *)
Definition q_taken (o : option Z) (q : runqs) : runqs := match o with Some x => q_del x q | None => q end.

Lemma pick_next_spec s q c p m : sched_ok s q -> at_ (mlfqs s) c = Some m -> 0 <= p < MLFQ_NQUEUES ->
  exists s', pick_next c p s = Done (default 0 (List.find (runnable s) (q c p))) s' /\ same s s' /\
    sched_ok s' (q_taken (List.find (runnable s) (q c p)) q).
Proof.
  intros Hok Hm Hp. pose proof (proj2 (proj2 (so_mlfq _ _ Hok c m Hm)) p Hp) as Hq.
  assert (H : swp (pick_next c p) (fun r s' => r = default 0 (List.find (runnable s) (q c p)) /\ same s s' /\
    sched_ok s' (q_taken (List.find (runnable s) (q c p)) q)) s).
  2: { apply swp_ok in H as (r & s' & E & -> & H'). eauto. }
  unfold pick_next. apply swp_bind. eapply swp_get_queue; [exact Hm|exact Hq|]. apply swp_bind, swp_gets. cbn [front].
  set (I := fun (thd : Z) (l2 : list Z) => thd = hd_addr id 0 l2 /\ exists l1, q c p = l1 ++ l2 /\ List.find (runnable s) l1 = None).
  assert (Hloop : forall l2 fuel thd, (length l2 < fuel)%nat -> I thd l2 ->
    swp (sloop fuel (fun thd => if thd =? 0 then mret (Break 0) else t ← get_thread thd;
      if t_state t =? PS_RUNNING then remove_task c p thd;; mret (Break thd) else mret (Next (t_next t))) thd)
      (fun r s' => r = default 0 (List.find (runnable s) (q c p)) /\ same s s' /\ sched_ok s' (q_taken (List.find (runnable s) (q c p)) q)) s).
  { induction l2 as [|x l2 IH]; intros [|fuel] thd Hf [-> (l1 & E & Hnone)]; [cbn in Hf; lia| |cbn in Hf; lia|]; cbn [sloop].
    - rewrite app_nil_r in E. subst l1. rewrite Hnone. apply swp_bind, swp_ret, swp_ret. split; [reflexivity|]. split; [apply frame_refl|exact Hok].
    - destruct (queued_links _ _ _ _ _ _ _ Hok E) as (t & Ht & _ & En).
      assert (Hx : x ∈ q c p) by (rewrite E; apply elem_of_app; right; left).
      assert (Hx0 : (hd_addr id 0 (x :: l2) =? 0) = false).
      { apply Z.eqb_neq. change (x <> 0). intros ->. now apply (queued_nonzero _ _ c p Hok). }
      rewrite Hx0. change (hd_addr id 0 (x :: l2)) with x. apply swp_bind, swp_bind, (swp_get_thread s x t); [exact Ht|].
      assert (Hfind : List.find (runnable s) (q c p) = if t_state t =? PS_RUNNING then Some x else List.find (runnable s) l2).
      { rewrite E, find_app_none by exact Hnone. cbn. unfold runnable at 1. now rewrite Ht. }
      destruct (t_state t =? PS_RUNNING) eqn:Es.
      + rewrite Hfind. destruct (remove_task_del s q c p x Hok Hx) as (s' & Hr & Hok' & Hs).
        apply swp_bind. eapply swp_run; [exact Hr|]. apply swp_ret, swp_ret. auto.
      + apply swp_ret, IH; [cbn in Hf; lia|]. split; [exact En|]. exists (l1 ++ [x]). split; [now rewrite <- app_assoc|].
        rewrite find_app_none by exact Hnone. cbn. unfold runnable. now rewrite Ht, Es. }
  apply (Hloop (q c p)); [|split; [reflexivity|exists []; auto]].
  pose proof (dseg_size _ _ _ _ _ _ (so_chain _ _ Hok c p)) as Hsz. rewrite list_fmap_id in Hsz.
  specialize (Hsz (so_nodup _ _ Hok c p)). unfold links in Hsz. rewrite map_size_fmap in Hsz. lia.
Qed.

Lemma same_mlfq s s' c m : same s s' -> at_ (mlfqs s) c = Some m ->
  exists m', at_ (mlfqs s') c = Some m' /\ header m' = header m.
Proof.
  intros Hs [Hc Hm]%at_some. pose proof (f_equal (fun l => l !! Z.to_nat c) (sm_header _ _ Hs)) as E. cbv beta in E.
  rewrite !list_lookup_fmap, Hm in E. destruct (mlfqs s' !! Z.to_nat c) as [m'|] eqn:E'; [|discriminate].
  exists m'. rewrite at_lookup by lia. split; [exact E'|]. cbn in E. congruence.
Qed.

Lemma same_on_cpu s s' c : same s s' -> on_cpu s c -> on_cpu s' c.
Proof.
  intros Hs (m & Hm & Ha). destruct (same_mlfq _ _ _ _ Hs Hm) as (m' & Hm' & E). exists m'. split; [exact Hm'|]. unfold header in E. congruence.
Qed.

(** The queues are searched from the best priority on, each from its front. *)
Lemma first_of_spec c ps : forall s q, sched_ok s q -> on_cpu s c -> Forall (fun p => 0 <= p < MLFQ_NQUEUES) ps ->
  let o := List.find (runnable s) (concat (q c <$> ps)) in
  exists s', first_of c ps s = Done (default 0 o) s' /\ same s s' /\ sched_ok s' (q_taken o q).
Proof.
  induction ps as [|p ps IH]; intros s q Hok Hcpu Hps; cbn [fmap list_fmap concat first_of]; cbv zeta.
  - exists s. split; [reflexivity|]. split; [apply frame_refl|exact Hok].
  - apply Forall_cons_iff in Hps as [Hp Hps]. pose proof Hcpu as (m & Hm & _).
    destruct (pick_next_spec s q c p m Hok Hm Hp) as (s1 & E1 & Hs1 & Hok1). unfold mbind, SM_bind. rewrite E1. cbv beta iota.
    destruct (List.find (runnable s) (q c p)) as [x|] eqn:Ef; cbn [default q_taken] in *.
    + assert (Hfind : List.find (runnable s) (q c p ++ concat (q c <$> ps)) = Some x).
      { clear -Ef. induction (q c p) as [|y l IHl]; cbn in *; [discriminate|]. destruct (runnable s y); auto. }
      assert (Hx : x <> 0) by (intros ->; apply find_some in Ef as [Hin _]; apply (queued_nonzero _ _ c p Hok), list_elem_of_In, Hin).
      change (id x) with x. rewrite (proj2 (Z.eqb_neq x 0) Hx), Hfind. exists s1. auto.
    + rewrite Z.eqb_refl, find_app_none by exact Ef.
      destruct (IH s1 q Hok1 (same_on_cpu _ _ _ Hs1 Hcpu) Hps) as (s2 & E2 & Hs2 & Hok2).
      rewrite (find_ext_same _ _ _ Hs1) in E2, Hok2. exists s2. split; [exact E2|]. split; [eapply frame_trans; eauto|exact Hok2].
Qed.

(** All threads of a processor in the order of their priority. *)
Definition all_of (q : runqs) (c : Z) : list Z := concat (q c <$> seqZ 0 MLFQ_NQUEUES).

Lemma prios_ok : Forall (fun p => 0 <= p < MLFQ_NQUEUES) (seqZ 0 MLFQ_NQUEUES).
Proof. apply Forall_forall. intros p Hp%list_elem_of_In%elem_of_seqZ. lia. Qed.

Lemma get_next_spec s q c : sched_ok s q -> on_cpu s c ->
  let o := List.find (runnable s) (all_of q c) in
  exists s', get_next c s = Done (default 0 o) s' /\ same s s' /\ sched_ok s' (q_taken o q).
Proof. intros Hok Hc. apply first_of_spec; [exact Hok|exact Hc|apply prios_ok]. Qed.

(** ** Adding and removing threads *)

Lemma rank_range b t : 0 <= priority (rank b t) < MLFQ_NQUEUES.
Proof.
  unfold rank, MLFQ_NQUEUES. set (t1 := match b with Good => _ | Bad => _ end). clearbody t1. cbv zeta. cbn [priority set_timeslice].
  destruct (priority t1 <? 0) eqn:E; zbool; [reflexivity || (cbn; lia)|]. destruct (32 <=? priority t1) eqn:E1; zbool; cbn; lia.
Qed.

Lemma rank_keeps b t : t_next (rank b t) = t_next t /\ t_prev (rank b t) = t_prev t /\ current_cpu (rank b t) = current_cpu t /\
  t_state (rank b t) = t_state t.
Proof. unfold rank. destruct b; cbv zeta; repeat (match goal with |- context [if ?b then _ else _] => destruct b end); now cbn. Qed.

Definition ranked (c : Z) (b : Behavior) (t : thread) : thread := rank b (set_cpu c t).

Lemma ranked_keeps c b t : t_next (ranked c b t) = t_next t /\ t_prev (ranked c b t) = t_prev t /\ current_cpu (ranked c b t) = c.
Proof. destruct (rank_keeps b (set_cpu c t)) as (E1 & E2 & E3 & _). auto. Qed.

Lemma with_threads_twice s T T' : with_threads (with_threads s T) T' = with_threads s T'.
Proof. reflexivity. Qed.

Lemma add_spec s q c x t b : sched_ok s q -> threads s !! x = Some t -> on_cpu s c -> (forall c p, x ∉ q c p) ->
  exists s', add c x b s = Done tt s' /\ sched_ok s' (q_push c (priority (ranked c b t)) x q) /\
    same (with_threads s (<[x := ranked c b t]> (threads s))) s'.
Proof.
  intros Hok Ht Hcpu Hno. pose proof Hcpu as (m & Hm & Ha). destruct (so_mlfq _ _ Hok c m Hm) as (Hcore & _). specialize (Hcore Ha).
  destruct (ranked_keeps c b t) as (Rn & Rp & Rc). set (t1 := ranked c b t) in *.
  assert (Hok1 : sched_ok (with_threads s (<[x := t1]> (threads s))) q).
  { apply (sched_ok_set s q x t t1); [exact Hok|exact Ht|exact Rn|exact Rp|apply rank_range|right; now rewrite Rc|auto]. }
  destruct (add_task_spec _ q c (priority t1) x t1 m Hok1) as (s' & E & Hok' & Hs); try exact Hm; auto; [apply lookup_insert_eq|].
  exists s'. split; [|auto]. apply swp_eq. unfold add. apply swp_bind. eapply swp_get_mlfq; [exact Hm|]. rewrite Hcore.
  apply swp_bind. eapply swp_upd_thread; [exact Ht|]. apply swp_bind. eapply swp_upd_thread; [apply lookup_insert_eq|].
  rewrite with_threads_twice. cbn [threads with_threads]. rewrite insert_insert_eq. fold (ranked c b t). fold t1.
  apply swp_bind. eapply swp_get_thread; [apply lookup_insert_eq|]. eapply swp_run; [exact E|]. auto.
Qed.

Lemma sched_add_task_spec s q c x t : sched_ok s q -> threads s !! x = Some t -> on_cpu s c -> (forall c p, x ∉ q c p) ->
  let b := if timeslice t <=? has_run t then Bad else Good in
  exists s', sched_add_task c x s = Done tt s' /\ sched_ok s' (q_push c (priority (ranked c b t)) x q) /\
    same (with_threads s (<[x := ranked c b t]> (threads s))) s'.
Proof.
  intros Hok Ht Hcpu Hno b. destruct (add_spec s q c x t b Hok Ht Hcpu Hno) as (s' & E & H). exists s'. split; [|exact H].
  apply swp_eq. unfold sched_add_task. apply swp_bind. eapply swp_get_thread; [exact Ht|]. eapply swp_run; [exact E|]. auto.
Qed.

(** [remove] marks the thread before it unlinks it, which makes no difference. *)
Lemma removed_set_cpu x t T k : T !! x = Some t -> t_prev t <> x -> t_next t <> x ->
  removed x (set_cpu k t) (<[x := set_cpu k t]> T) = <[x := set_cpu k (unlinked t)]> (removed x t T).
Proof.
  intros E Hp Hn. apply map_eq. intros a. destruct (Z.eq_dec a x) as [->|Ha].
  - rewrite lookup_insert_eq. erewrite removed_self by apply lookup_insert_eq. reflexivity.
  - rewrite lookup_insert_ne, !removed_lookup, lookup_insert_ne by auto. reflexivity.
Qed.

Lemma not_queued s q x t : sched_ok s q -> threads s !! x = Some t -> x ∉ q (current_cpu t) (priority t) -> forall c p, x ∉ q c p.
Proof.
  intros Hok Ht Hx c p Hin. destruct (so_in _ _ Hok c p x Hin) as (t0 & m & Ht0 & Ep & Ec & _).
  rewrite Ht in Ht0. injection Ht0 as <-. now subst.
Qed.

(** The links of a thread never lead back to it. *)
Lemma links_away s q x t : sched_ok s q -> threads s !! x = Some t ->
  t_prev t <> x /\ t_next t <> x /\ (t_prev t <> 0 -> is_Some (threads s !! t_prev t)) /\ (t_next t <> 0 -> is_Some (threads s !! t_next t)).
Proof.
  intros Hok Ht. destruct (so_thread _ _ Hok x t Ht) as (H0 & _ & _ & Hfree).
  destruct (decide (x ∈ q (current_cpu t) (priority t))) as [Hx|Hx].
  - pose proof Hx as (l1 & l2 & E)%list_elem_of_split. destruct (queued_links _ _ _ _ _ _ _ Hok E) as (t0 & Ht0 & Ep & En).
    rewrite Ht in Ht0. injection Ht0 as <-. rewrite Ep, En. pose proof (so_nodup _ _ Hok (current_cpu t) (priority t)) as Hnd. rewrite E in Hnd.
    apply list.NoDup_app in Hnd as (_ & Hd & Hn). inversion Hn as [|? ? Hx2 _]; subst.
    assert (Hs : forall y, y ∈ l1 ++ x :: l2 -> is_Some (threads s !! y)) by (intros y Hy; rewrite <- E in Hy; eapply queued_some; eauto).
    assert (Haway : forall (y : Z) (l : list Z), y = 0 \/ y ∈ l -> (x ∉ l) -> (forall z, z ∈ l -> z ∈ l1 ++ x :: l2) -> y <> x /\ (y <> 0 -> is_Some (threads s !! y))).
    { intros y l Hy Hl Hsub. split; [intros ->; tauto|]. intros Hy0. apply Hs, Hsub. tauto. }
    destruct (Haway _ l1 (last_addr_in 0 l1)) as [? ?]; [intros H1; apply (Hd x H1); left|intros z Hz; apply elem_of_app; auto|].
    destruct (Haway _ l2 (hd_addr_in 0 l2)) as [? ?]; [exact Hx2|intros z Hz; apply elem_of_app; right; now right|]. auto.
  - destruct (Hfree (not_queued _ _ _ _ Hok Ht Hx)) as [-> ->]. repeat split; auto; tauto.
Qed.

(** [remove_task] with the thread's own queue, whether it is in it or not. *)
Lemma remove_task_any s q x t : sched_ok s q -> threads s !! x = Some t -> on_cpu s (current_cpu t) ->
  exists m qq, at_ (mlfqs s) (current_cpu t) = Some m /\ at_ (queues m) (priority t) = Some qq /\
    (front (ends_without x t qq) = 0 <-> back (ends_without x t qq) = 0) /\
    let s' := with_mlfq (with_threads s (removed x t (threads s))) (current_cpu t) (mq m (priority t) (ends_without x t qq)) in
    sched_ok s' (q_del x q) /\ same s s'.
Proof.
  intros Hok Ht (m & Hm & Ha). destruct (so_thread _ _ Hok x t Ht) as (H0 & Hpr & _ & Hfree).
  destruct (links_away _ _ _ _ Hok Ht) as (A1 & A2 & A3 & A4).
  pose proof (proj2 (proj2 (so_mlfq _ _ Hok _ m Hm)) _ Hpr) as Hq. set (c := current_cpu t) in *. set (p := priority t) in *.
  pose proof (queued_nonzero _ _ c p Hok) as Hnz. pose proof (chain_ends _ Hnz) as Hends.
  exists m, (Queue (hd_addr id 0 (q c p)) (last_addr id 0 (q c p))). split; [exact Hm|]. split; [exact Hq|].
  destruct (decide (x ∈ q c p)) as [Hx|Hx].
  - assert (Hiff : front (ends_without x t (Queue (hd_addr id 0 (q c p)) (last_addr id 0 (q c p)))) = 0 <->
      back (ends_without x t (Queue (hd_addr id 0 (q c p)) (last_addr id 0 (q c p)))) = 0).
    { pose proof Hx as (l1 & l2 & E)%list_elem_of_split. destruct (queued_links _ _ _ _ _ _ _ Hok E) as (t0 & Ht0 & Ep & En).
      rewrite Ht in Ht0. injection Ht0 as <-. pose proof (so_nodup _ _ Hok c p) as Hnd. rewrite E in Hnd, Hnz |- *.
      rewrite ends_without_list by assumption. apply chain_ends. rewrite elem_of_app, elem_of_cons in Hnz. rewrite elem_of_app. tauto. }
    split; [exact Hiff|]. destruct (remove_task_del s q c p x Hok Hx) as (s' & Hr & Hs').
    rewrite (remove_task_run s c p x t m _ Ht A1 A2 A3 A4 Hm Hq Hiff) in Hr. injection Hr as <-. exact Hs'.
  - pose proof (not_queued _ _ _ _ Hok Ht Hx) as Hno. destruct (Hfree Hno) as [En Ep].
    assert (Ee : ends_without x t (Queue (hd_addr id 0 (q c p)) (last_addr id 0 (q c p))) = Queue (hd_addr id 0 (q c p)) (last_addr id 0 (q c p))).
    { unfold ends_without. cbn [front back]. destruct (hd_addr_in 0 (q c p)) as [E1|E1], (last_addr_in 0 (q c p)) as [E2|E2];
        rewrite (proj2 (Z.eqb_neq (hd_addr id 0 (q c p)) x)), (proj2 (Z.eqb_neq (last_addr id 0 (q c p)) x)) by congruence; reflexivity. }
    rewrite Ee. split; [exact Hends|]. rewrite mq_id by exact Hq.
    assert (Er : removed x t (threads s) = threads s).
    { apply map_eq. intros a. destruct (Z.eq_dec a x) as [->|Hne]; [rewrite (removed_self _ _ _ Ht), Ht|].
      - unfold unlinked. f_equal. destruct t; cbn in *; now subst.
      - rewrite removed_lookup, En, Ep by exact Hne. destruct (threads s !! a) as [u|]; [cbn [fmap option_fmap option_map]|reflexivity]. rewrite relink_far by auto. now destruct u. }
    rewrite Er, with_threads_id, with_mlfq_id by exact Hm. split; [now rewrite q_del_absent|apply frame_refl].
Qed.

Lemma remove_spec s q x t : sched_ok s q -> threads s !! x = Some t -> on_cpu s (current_cpu t) ->
  exists s', remove (current_cpu t) x s = Done tt s' /\ sched_ok s' (q_del x q) /\
    same (with_threads s (<[x := set_cpu (-1) t]> (threads s))) s'.
Proof.
  intros Hok Ht Hcpu. pose proof Hcpu as (m0 & Hm0 & Ha). destruct (so_mlfq _ _ Hok _ _ Hm0) as (Hcore & _). specialize (Hcore Ha).
  destruct (remove_task_any s q x t Hok Ht Hcpu) as (m & qq & Hm & Hq & Hiff & Hok' & Hs). rewrite Hm in Hm0. injection Hm0 as <-.
  destruct (links_away _ _ _ _ Hok Ht) as (A1 & A2 & A3 & A4).
  set (s2 := with_mlfq _ _ _) in Hok', Hs. set (t1 := set_cpu (-1) t). set (s1 := with_threads s (<[x := t1]> (threads s))).
  assert (Hx2 : threads s2 !! x = Some (unlinked t)) by now apply removed_self.
  assert (Hsome : forall a, is_Some (threads s !! a) -> is_Some (threads s1 !! a)).
  { intros a Hsa. cbn. destruct (Z.eq_dec a x) as [->|Hne]; [rewrite lookup_insert_eq; eauto|now rewrite lookup_insert_ne by auto]. }
  exists (with_threads s2 (<[x := set_cpu (-1) (unlinked t)]> (threads s2))). split; [|split].
  - apply swp_eq. unfold remove. apply swp_bind. eapply swp_get_mlfq; [exact Hm|]. apply swp_bind. eapply swp_get_thread; [exact Ht|].
    rewrite Hcore, Z.eqb_refl. apply swp_bind, swp_ret, swp_bind. eapply swp_upd_thread; [exact Ht|]. fold t1. fold s1.
    apply swp_bind. eapply swp_get_thread; [apply lookup_insert_eq|].
    eapply swp_run; [apply (remove_task_run s1 (current_cpu t) (priority t1) x t1 m qq)|]; auto; [apply lookup_insert_eq|].
    split; [reflexivity|]. unfold s1, s2, t1. cbn [threads with_threads with_mlfq mlfqs next_thread]. rewrite removed_set_cpu by assumption. reflexivity.
  - destruct (so_thread _ _ Hok x t Ht) as (_ & Hpr & _). apply (sched_ok_set s2 _ x (unlinked t)); try reflexivity; try assumption.
    + left. reflexivity.
    + left. intros c p. apply q_del_not_in.
  - destruct Hs as [S1 S2 S3]. split; [|exact S2|exact S3]. intros a. change (threads s1) with (<[x := t1]> (threads s)).
    change (threads (with_threads s2 ?T)) with T. destruct (Z.eq_dec a x) as [->|Hne].
    + rewrite !lookup_insert_eq. reflexivity.
    + rewrite !lookup_insert_ne by auto. apply S1.
Qed.

Lemma sched_remove_task_spec s q x t : sched_ok s q -> threads s !! x = Some t ->
  exists s', sched_remove_task x s = Done tt s' /\ sched_ok s' (q_del x q) /\
    same (with_threads s (<[x := if 0 <=? current_cpu t then set_cpu (-1) t else t]> (threads s))) s'.
Proof.
  intros Hok Ht. destruct (so_thread _ _ Hok x t Ht) as (_ & _ & Hcpu & _). unfold sched_remove_task.
  destruct (0 <=? current_cpu t) eqn:E; zbool.
  - destruct (remove_spec s q x t Hok Ht) as (s' & Hr & H'); [destruct Hcpu; [lia|auto]|]. exists s'. split; [|exact H'].
    apply swp_eq, swp_bind. eapply swp_get_thread; [exact Ht|]. rewrite (proj2 (Z.leb_le _ _)) by lia. eapply swp_run; [exact Hr|auto].
  - exists s. split; [|split].
    + apply swp_eq, swp_bind. eapply swp_get_thread; [exact Ht|]. rewrite (proj2 (Z.leb_gt _ _)) by lia. apply swp_ret. auto.
    + rewrite q_del_absent; [exact Hok|]. eapply not_queued; [exact Hok|exact Ht|]. intros Hin.
      destruct (so_in _ _ Hok _ _ _ Hin) as (? & m & _ & _ & _ & [Hm _]%at_some & _). lia.
    + rewrite insert_id by exact Ht. rewrite with_threads_id. apply frame_refl.
Qed.

(** ** Boosting *)

Lemma same_alter s s' f x : (forall t, unlinked (f t) = f (unlinked t)) -> same s s' ->
  same (with_threads s (alter f x (threads s))) (with_threads s' (alter f x (threads s'))).
Proof.
  intros Hf [S1 S2 S3]. split; [|exact S2|exact S3]. intros a. cbn [threads with_threads]. specialize (S1 a).
  destruct (Z.eq_dec a x) as [->|Hne]; [rewrite !lookup_alter_eq|now rewrite !lookup_alter_ne by auto].
  destruct (threads s' !! x), (threads s !! x); try discriminate; [|reflexivity]. cbn in *. rewrite !Hf. congruence.
Qed.

Lemma alter_insert_thread (T : gmap Z thread) x t f : T !! x = Some t -> alter f x T = <[x := f t]> T.
Proof.
  intros E. apply map_eq. intros a. destruct (Z.eq_dec a x) as [->|H]; [now rewrite lookup_alter_eq, lookup_insert_eq, E|].
  now rewrite lookup_alter_ne, lookup_insert_ne by auto.
Qed.

(** What the code makes of queue [p]: its first thread goes to the end of queue
    [p / 2], the others stay. *)
Definition boost_q (c p : Z) (q : runqs) : runqs :=
  match q c p with [] => q | x :: _ => q_push c (Z.quot p 2) x (q_del x q) end.
Definition boost_t (c p : Z) (q : runqs) (T : gmap Z thread) : gmap Z thread :=
  match q c p with [] => T | x :: _ => alter (set_priority (Z.quot p 2)) x T end.

Lemma boost_queue_spec s q c p : sched_ok s q -> on_cpu s c -> 1 <= p < MLFQ_NQUEUES ->
  exists s', boost_queue c p s = Done tt s' /\ sched_ok s' (boost_q c p q) /\ same (with_threads s (boost_t c p q (threads s))) s'.
Proof.
  intros Hok Hcpu Hp. pose proof Hcpu as (m & Hm & Ha). assert (Hp' : 0 <= p < MLFQ_NQUEUES) by lia.
  pose proof (proj2 (proj2 (so_mlfq _ _ Hok _ m Hm)) p Hp') as Hq. unfold boost_queue, boost_q, boost_t.
  destruct (q c p) as [|x l] eqn:E.
  - exists s. split; [|split; [exact Hok|rewrite with_threads_id; apply frame_refl]].
    apply swp_eq, swp_bind. eapply swp_get_queue; [exact Hm|exact Hq|]. apply swp_bind, swp_gets. apply swp_bind, swp_ret, swp_ret. auto.
  - assert (Hx : x ∈ q c p) by (rewrite E; left). assert (Hx0 : x <> 0) by (intros ->; now apply (queued_nonzero _ _ c p Hok)).
    destruct (so_in _ _ Hok c p x Hx) as (t & _ & Ht & Ep & Ec & _).
    destruct (remove_task_del s q c p x Hok Hx) as (s1 & E1 & Hok1 & Hs1).
    destruct (same_thread _ _ _ _ Hs1 Ht) as (t1 & Ht1 & Et1). destruct (unlinked_fields _ _ Et1) as (_ & Ep1 & Ec1).
    set (t2 := set_priority (Z.quot (priority t1) 2) t1). set (s2 := with_threads s1 (<[x := t2]> (threads s1))).
    assert (Ep2 : priority t2 = Z.quot p 2) by (cbn; congruence). assert (Hr : 0 <= Z.quot p 2 < MLFQ_NQUEUES) by (rewrite Z.quot_div_nonneg by lia; zlia).
    assert (Hok2 : sched_ok s2 (q_del x q)).
    { apply (sched_ok_set s1 _ x t1); auto; [now rewrite Ep2|right; cbn; rewrite Ec1, Ec; eapply same_on_cpu; eauto|left; intros ? ?; apply q_del_not_in]. }
    destruct (same_on_cpu _ _ _ Hs1 Hcpu) as (m1 & Hm1 & Ha1).
    destruct (add_task_spec s2 _ c (priority t2) x t2 m1 Hok2) as (s3 & E3 & Hok3 & Hs3); auto; [apply lookup_insert_eq|cbn; congruence|apply q_del_not_in|].
    rewrite Ep2 in Hok3. fold (q_push c (Z.quot p 2) x (q_del x q)) in Hok3. exists s3. split; [|split; [exact Hok3|]].
    + apply swp_eq, swp_bind. eapply swp_get_queue; [exact Hm|exact Hq|]. apply swp_bind, swp_gets. cbn [front].
      change (hd_addr id 0 (x :: l)) with x.
      assert (Hsz : exists k, size (threads s) = S k).
      { destruct (size (threads s)) eqn:Es; [|eauto]. apply map_size_empty_iff in Es. rewrite Es in Ht. discriminate. }
      destruct Hsz as [k ->]. cbn [sloop]. rewrite (proj2 (Z.eqb_neq x 0) Hx0). apply swp_bind, swp_bind. eapply swp_run; [exact E1|].
      apply swp_bind. eapply swp_upd_thread; [exact Ht1|]. fold t2. fold s2. apply swp_bind. eapply swp_get_thread; [apply lookup_insert_eq|].
      apply swp_bind. eapply swp_run; [exact E3|]. apply swp_bind.
      assert (El : q_push c (Z.quot p 2) x (q_del x q) c (Z.quot p 2) = q_del x q c (Z.quot p 2) ++ x :: []) by apply q_upd_eq.
      destruct (queued_links _ _ _ _ _ _ _ Hok3 El) as (t3 & Ht3 & _ & En). eapply swp_get_thread; [exact Ht3|]. rewrite En.
      apply swp_ret, swp_bind, swp_ret, swp_ret. auto.
    + eapply frame_trans; [|exact Hs3]. unfold s2, t2. rewrite Ep1, Ep, <- (alter_insert_thread _ _ _ _ Ht1). now apply same_alter.
Qed.

(** ** What all operations keep *)

Record kept (s s' : sched) : Prop := {
  kp_dom a : is_Some (threads s' !! a) <-> is_Some (threads s !! a);
  kp_cpu c : on_cpu s c -> on_cpu s' c;
  kp_mlfqs : length (mlfqs s') = length (mlfqs s);
  kp_next : next_thread s' = next_thread s }.

Lemma kept_refl s : kept s s.
Proof. now split. Qed.
Lemma kept_trans s1 s2 s3 : kept s1 s2 -> kept s2 s3 -> kept s1 s3.
Proof. intros [A B C D] [A' B' C' D']. split; intros; [rewrite A'; apply A|auto|congruence..]. Qed.

Lemma same_kept s s' : same s s' -> kept s s'.
Proof.
  intros Hs. split; [|intros c; now apply same_on_cpu| |apply Hs].
  - intros a. pose proof (sm_info _ _ Hs a) as E. destruct (threads s' !! a), (threads s !! a); try discriminate; split; eauto.
  - pose proof (f_equal length (sm_header _ _ Hs)) as E. now rewrite !length_fmap in E.
Qed.

Lemma kept_alter s x f : kept s (with_threads s (alter f x (threads s))).
Proof.
  split; [|auto..]. intros a. cbn. destruct (Z.eq_dec a x) as [->|H]; [rewrite lookup_alter_eq|now rewrite lookup_alter_ne by auto].
  destruct (threads s !! x); cbn; split; intros [? ?]; eauto; discriminate.
Qed.

Lemma kept_insert s x t t' : threads s !! x = Some t -> kept s (with_threads s (<[x := t']> (threads s))).
Proof. intros E. rewrite <- (alter_insert_thread _ _ _ (fun _ => t') E). apply kept_alter. Qed.

Lemma boost_from_spec c ps : forall s q, sched_ok s q -> on_cpu s c -> Forall (fun p => 1 <= p < MLFQ_NQUEUES) ps ->
  exists s', boost_from c ps s = Done tt s' /\ sched_ok s' (foldl (fun q p => boost_q c p q) q ps) /\ kept s s'.
Proof.
  induction ps as [|p ps IH]; intros s q Hok Hcpu Hps; cbn [boost_from foldl].
  - exists s. split; [reflexivity|]. split; [exact Hok|apply kept_refl].
  - apply Forall_cons_iff in Hps as [Hp Hps]. destruct (boost_queue_spec s q c p Hok Hcpu Hp) as (s1 & E1 & Hok1 & Hs1).
    assert (Hk : kept s s1).
    { eapply kept_trans; [|apply same_kept, Hs1]. unfold boost_t. destruct (q c p); [rewrite with_threads_id; apply kept_refl|apply kept_alter]. }
    destruct (IH s1 _ Hok1 (kp_cpu _ _ Hk _ Hcpu) Hps) as (s2 & E2 & Hok2 & Hk2). exists s2.
    split; [|split; [exact Hok2|eapply kept_trans; eauto]]. apply swp_eq, swp_bind. eapply swp_run; [exact E1|]. eapply swp_run; [exact E2|auto].
Qed.

Lemma boost_spec s q c : sched_ok s q -> on_cpu s c ->
  exists s', boost c s = Done tt s' /\ sched_ok s' (foldl (fun q p => boost_q c p q) q (seqZ 1 31)) /\ kept s s'.
Proof.
  intros Hok Hcpu. apply boost_from_spec; [exact Hok|exact Hcpu|]. apply Forall_forall. intros p Hp%list_elem_of_In%elem_of_seqZ. unfold MLFQ_NQUEUES. lia.
Qed.

(** ** Stealing *)

Definition set_nws (n : Z) (m : mlfq) : mlfq := Mlfq (core m) n (active m) (queues m).

Lemma sched_ok_nws s q c m n : sched_ok s q -> at_ (mlfqs s) c = Some m -> 0 <= n < 64 ->
  sched_ok (with_mlfq s c (set_nws n m)) q /\ kept s (with_mlfq s c (set_nws n m)).
Proof.
  intros [H1 H2 H3 H4 H5] Hm Hn.
  assert (Hon : forall c', on_cpu s c' -> on_cpu (with_mlfq s c (set_nws n m)) c').
  { intros c' (m' & Hm' & Ha). unfold on_cpu. rewrite (with_mlfq_at _ _ _ _ _ Hm). destruct (c' =? c) eqn:E; zbool; [|eauto].
    subst c'. rewrite Hm in Hm'. injection Hm' as <-. eexists. split; [reflexivity|exact Ha]. }
  split; [split; [|exact H2|exact H3| |]|].
  - intros c' m'. rewrite (with_mlfq_at _ _ _ _ _ Hm). destruct (c' =? c) eqn:E; zbool; [|apply H1].
    intros [= <-]. subst c'. destruct (H1 c m Hm) as (A & _ & C). auto.
  - intros c' p x Hx. destruct (H4 c' p x Hx) as (t & m' & Ht & Ep & Ec & Hm' & Ha).
    destruct (Hon c' ltac:(exists m'; auto)) as (m2 & ? & ?). exists t, m2. auto.
  - intros x t Ht. destruct (H5 x t Ht) as (A & B & C & D). split; [exact A|]. split; [exact B|]. split; [|exact D]. destruct C; auto.
  - split; [reflexivity|exact Hon|apply length_insert|reflexivity].
Qed.

(** The processor to steal from: the next in turn, or the one after it. *)
Lemma next_in_turn n nproc c : 1 < nproc -> n mod nproc = c -> (n + 1) mod nproc <> c.
Proof.
  intros Hn E E2. assert (E3 : (n + 1) mod nproc = (n mod nproc + 1) mod nproc) by now rewrite Zplus_mod_idemp_l.
  pose proof (Z.mod_pos_bound n nproc ltac:(lia)). rewrite E2, E in E3.
  destruct (Z.eq_dec (c + 1) nproc) as [E4|E4]; [rewrite E4, Z.mod_same in E3 by lia; lia|]. rewrite Z.mod_small in E3 by lia. lia.
Qed.

Definition steal_target (n nproc c : Z) : Z := if n mod nproc =? c then (n + 1) mod nproc else n mod nproc.

Lemma steal_target_other n nproc c : 1 < nproc -> steal_target n nproc c <> c /\ 0 <= steal_target n nproc c < nproc.
Proof.
  intros Hn. unfold steal_target. destruct (n mod nproc =? c) eqn:E; zbool; (split; [|apply Z.mod_pos_bound; lia]); [now apply next_in_turn|exact E].
Qed.

Lemma steal_loop s c m nproc : at_ (mlfqs s) c = Some m -> core m = c -> 0 <= next_worksteal m < 64 -> 1 < nproc <= 64 -> c < 64 ->
  exists k, 0 <= k < 66 /\
  sloop 3 (fun _ : unit => q ← get_mlfq c; set_next_worksteal c (s32 (next_worksteal q + 1));;
      let target := u32 (Z.rem (next_worksteal q) nproc) in mret (if target =? u32 (core q) then Next tt else Break target)) tt s
    = Done (steal_target (next_worksteal m) nproc c) (with_mlfq s c (set_nws k m)).
Proof.
  intros Hm Hcore Hw Hn Hc64. pose proof Hm as [Hc _]%at_some. set (n := next_worksteal m) in *.
  assert (Hu : forall i, 0 <= i < 100 -> u32 (Z.rem i nproc) = i mod nproc).
  { intros i Hi. rewrite Z.rem_mod_nonneg by lia. apply u32_small. pose proof (Z.mod_pos_bound i nproc). lia. }
  exists (if n mod nproc =? c then n + 2 else n + 1). split; [destruct (_ =? _); lia|].
  apply swp_eq. cbn [sloop]. apply swp_bind, swp_bind. eapply swp_get_mlfq; [exact Hm|]. apply swp_bind. eapply swp_upd_mlfq; [exact Hm|].
  apply swp_ret. fold n. rewrite Hcore, (u32_small c), s32_small, Hu by lia. unfold steal_target. destruct (n mod nproc =? c) eqn:E; zbool.
  - apply swp_bind, swp_bind. eapply swp_get_mlfq; [eapply with_mlfq_at_eq; exact Hm|]. apply swp_bind.
    eapply swp_upd_mlfq; [eapply with_mlfq_at_eq; exact Hm|]. rewrite with_mlfq_twice. apply swp_ret.
    cbn [core next_worksteal active queues]. rewrite (u32_small c), s32_small, Hu by lia.
    rewrite (proj2 (Z.eqb_neq _ c)) by (apply next_in_turn; [lia|exact E]).
    apply swp_ret. split; [reflexivity|]. unfold set_nws. cbn. rewrite Hcore. do 2 f_equal. lia.
  - apply swp_ret. split; [reflexivity|]. unfold set_nws. now rewrite Hcore.
Qed.

Lemma steal_spec s q c (locked : bool) : sched_ok s q -> on_cpu s c ->
  let o := if locked then List.find (runnable s) (all_of q c) else None in
  exists s', steal c locked s = Done (default 0 o) s' /\ same s s' /\ sched_ok s' (q_taken o q).
Proof.
  intros Hok Hc. destruct locked; [now apply get_next_spec|]. exists s. split; [reflexivity|]. split; [apply frame_refl|exact Hok].
Qed.

Lemma worksteal_spec s q c nproc locked : sched_ok s q -> on_cpu s c -> nproc <= Z.of_nat (length (mlfqs s)) <= 64 ->
  exists s' o, worksteal nproc c locked s = Done (default 0 o) s' /\ sched_ok s' (q_taken o q) /\ kept s s' /\
    (forall x, o = Some x -> exists v, 0 <= v < nproc /\ v <> c /\ on_cpu s v /\ List.find (runnable s) (all_of q v) = Some x).
Proof.
  intros Hok Hcpu Hn. unfold worksteal. destruct (nproc <=? 1) eqn:En; zbool.
  { exists s, None. split; [reflexivity|]. split; [exact Hok|]. split; [apply kept_refl|discriminate]. }
  pose proof Hcpu as (m & Hm & Ha). destruct (so_mlfq _ _ Hok _ _ Hm) as (Hcore & Hw & _). specialize (Hcore Ha).
  pose proof Hm as [Hc _]%at_some. destruct (steal_loop s c m nproc Hm Hcore Hw ltac:(lia) ltac:(lia)) as (k & Hk & Hloop).
  destruct (steal_target_other (next_worksteal m) nproc c ltac:(lia)) as [Hne Hv]. set (v := steal_target _ _ _) in *.
  set (k' := if nproc <=? k then 0 else k). set (s1 := with_mlfq s c (set_nws k' m)).
  destruct (sched_ok_nws s q c m k' Hok Hm) as [Hok1 Hk1]; [unfold k'; destruct (nproc <=? k) eqn:E; zbool; lia|]. fold s1 in Hok1, Hk1.
  assert (Hv1 : exists mv, at_ (mlfqs s1) v = Some mv /\ at_ (mlfqs s) v = Some mv).
  { destruct (lookup_nat_Z (mlfqs s) v) as [mv Emv]; [lia|]. exists mv. unfold s1. rewrite (with_mlfq_at _ _ _ _ _ Hm), (proj2 (Z.eqb_neq v c) Hne).
    rewrite at_lookup by lia. auto. }
  destruct Hv1 as (mv & Hmv1 & Hmv).
  assert (Hrest : forall Q, swp (vm ← get_mlfq v; if negb (active vm) then mret 0 else steal v locked) Q s1 ->
    swp (target ← sloop 3 (fun _ : unit => q ← get_mlfq c; set_next_worksteal c (s32 (next_worksteal q + 1));;
      let target := u32 (Z.rem (next_worksteal q) nproc) in mret (if target =? u32 (core q) then Next tt else Break target)) tt;
      q ← get_mlfq c; (if nproc <=? next_worksteal q then set_next_worksteal c 0 else mret tt);;
      vm ← get_mlfq target; if negb (active vm) then mret 0 else steal target locked) Q s).
  { intros Q HQ. apply swp_bind. eapply swp_run; [exact Hloop|]. apply swp_bind. eapply swp_get_mlfq; [eapply with_mlfq_at_eq; exact Hm|].
    cbn [next_worksteal set_nws]. apply swp_bind. unfold s1, k' in HQ. destruct (nproc <=? k); [|now apply swp_ret].
    eapply swp_upd_mlfq; [eapply with_mlfq_at_eq; exact Hm|]. rewrite with_mlfq_twice. exact HQ. }
  destruct (active mv) eqn:Eact.
  - destruct (steal_spec s1 q v locked Hok1) as (s2 & E2 & Hs2 & Hok2); [exists mv; auto|].
    exists s2, (if locked then List.find (runnable s1) (all_of q v) else None). split; [|split; [exact Hok2|split]].
    + apply swp_eq, Hrest, swp_bind. eapply swp_get_mlfq; [exact Hmv1|]. rewrite Eact. eapply swp_run; [exact E2|auto].
    + eapply kept_trans; [exact Hk1|now apply same_kept].
    + intros x Hx. destruct locked; [|discriminate]. exists v. split; [exact Hv|]. split; [exact Hne|]. split; [exists mv; auto|exact Hx].
  - exists s1, None. split; [|split; [exact Hok1|split; [exact Hk1|discriminate]]].
    apply swp_eq, Hrest, swp_bind. eapply swp_get_mlfq; [exact Hmv1|]. rewrite Eact. now apply swp_ret.
Qed.
