(* ===== verification/MlfqSystem.v ===== *)
(** * The scheduler of all processors

    The processors run their schedulers at the same time: a run is a sequence of
    their atomic sections in any order.  Between taking a thread and putting it
    back a processor has the thread in its hands; while it runs the thread it
    holds the thread's run lock. *)

From S2P Require Import Prelude CMem State Dll Mlfq MlfqProps.

(** ** The sections of pick_next_thread *)

Definition fetch (c : Z) : K unit :=
  n ← get_next_thread_slot c;
  if n =? 0 then t ← get_next c; set_next_thread_slot c t else mret tt.
Definition steal_into (nproc c : Z) (locked : bool) : K unit :=
  n ← get_next_thread_slot c;
  if n =? 0 then t ← worksteal nproc c locked; set_next_thread_slot c t else mret tt.

Definition with_slot (s : sched) (c x : Z) : sched := Sched (threads s) (mlfqs s) (<[Z.to_nat c := x]> (next_thread s)).

Lemma swp_get_slot s c x (Q : Z -> sched -> Prop) : at_ (next_thread s) c = Some x -> Q x s -> swp (get_next_thread_slot c) Q s.
Proof. intros E. apply swp_sopt, E. Qed.

Lemma swp_set_slot s c x y (Q : unit -> sched -> Prop) : at_ (next_thread s) c = Some x -> Q tt (with_slot s c y) -> swp (set_next_thread_slot c y) Q s.
Proof. intros E HQ. unfold set_next_thread_slot. eapply swp_supd; [rewrite E; reflexivity|exact HQ]. Qed.

Lemma with_slot_ok s q c x : sched_ok s q -> sched_ok (with_slot s c x) q.
Proof. intros [H1 H2 H3 H4 H5]. split; auto. Qed.

Lemma get_slot_run s c x : at_ (next_thread s) c = Some x -> get_next_thread_slot c s = Done x s.
Proof. intros E. unfold get_next_thread_slot, sopt. now rewrite E. Qed.

Lemma set_slot_run s c x y : at_ (next_thread s) c = Some x -> set_next_thread_slot c y s = Done tt (with_slot s c y).
Proof. intros E. unfold set_next_thread_slot, supd. now rewrite E. Qed.

Lemma with_slot_id s c x : at_ (next_thread s) c = Some x -> with_slot s c x = s.
Proof. intros E. unfold with_slot. rewrite (at_insert_id _ _ _ E). now destruct s. Qed.

Lemma with_slot_at s c x y : at_ (next_thread s) c = Some x -> at_ (next_thread (with_slot s c y)) c = Some y.
Proof. intros E. cbn. now rewrite (at_insert _ _ _ y c E), Z.eqb_refl. Qed.

(** Between the two sections other processors may run. *)
Lemma pick_next_thread_sections nproc c locked s q n : sched_ok s q -> on_cpu s c -> at_ (next_thread s) c = Some n ->
  pick_next_thread nproc c locked s = (fetch c;; steal_into nproc c locked;; get_next_thread_slot c) s.
Proof.
  intros Hok Hc Hn. unfold pick_next_thread. rewrite (bind_done _ _ _ _ _ (get_slot_run _ _ _ Hn)).
  destruct (n =? 0) eqn:E; zbool.
  - subst n. destruct (get_next_spec s q c Hok Hc) as (s1 & E1 & Hs1 & _). set (t := default 0 _) in E1.
    assert (Hn1 : at_ (next_thread s1) c = Some 0) by (now rewrite (sm_next _ _ Hs1)).
    assert (Hf : fetch c s = Done tt (with_slot s1 c t)).
    { unfold fetch. rewrite (bind_done _ _ _ _ _ (get_slot_run _ _ _ Hn)). rewrite Z.eqb_refl, (bind_done _ _ _ _ _ E1). now apply (set_slot_run _ _ 0). }
    rewrite (bind_done _ _ _ _ _ Hf). unfold get_next_thread, steal_into.
    destruct (t =? 0) eqn:Et; zbool.
    + assert (Hw : with_slot s1 c t = s1) by (rewrite Et; now apply with_slot_id). rewrite Hw.
      unfold mbind, SM_bind. rewrite E1, (get_slot_run _ _ _ Hn1), Et. reflexivity.
    + pose proof (with_slot_at _ _ _ t Hn1) as Ht. unfold mbind, SM_bind. rewrite E1, (get_slot_run _ _ _ Ht).
      rewrite (proj2 (Z.eqb_neq t 0) Et). unfold mret, SM_ret. now rewrite (set_slot_run _ _ _ _ Hn1).
  - assert (Hf : fetch c s = Done tt s).
    { unfold fetch. rewrite (bind_done _ _ _ _ _ (get_slot_run _ _ _ Hn)). now rewrite (proj2 (Z.eqb_neq n 0) E). }
    rewrite (bind_done _ _ _ _ _ Hf). unfold steal_into, mbind, SM_bind. rewrite (get_slot_run _ _ _ Hn), (proj2 (Z.eqb_neq n 0) E). reflexivity.
Qed.

(** ** Steps *)

(** The scheduler's state, for each processor the thread in its hands, and the
    threads whose [locks.run] is held. *)
Record system := System { sys : sched; local : list Z; running : gset Z }.

Inductive op :=
| Init (c : Z)
| Fetch (c : Z)
| Steal (c : Z) (locked : bool)
| Take (c : Z)
| Switch (c : Z) (got : bool)
| Tick (c : Z)
| Yield (c : Z)
| Put (c : Z)
| Boost (c : Z)
| SetState (x st : Z)
| Spawn (c x : Z) (t : thread)
| Reap (x : Z).

(** A new thread as its constructor leaves it. *)
Definition new_thread (st : Z) (pre : bool) : thread := Thread st pre 0 1 0 0 0 0 (-1).

Definition on_sched (k : K unit) (y : system) : option system :=
  match k (sys y) with Done _ s => Some (System s (local y) (running y)) | _ => None end.

Definition with_running (y : system) (r : gset Z) : system := System (sys y) (local y) r.

(** [Switch] takes the run lock of the thread, unless the lock it sleeps with
    was not free; [Yield] is the thread's way back through [switch_into], which
    releases it.  [Reap] is [locks.run.lock()] and [thread::teardown]. *)
Definition exec (nproc : Z) (o : op) (y : system) : option system :=
  match o with
  | Init c => on_sched (init c) y
  | Fetch c => on_sched (fetch c) y
  | Steal c locked => on_sched (steal_into nproc c locked) y
  | Take c =>
      x ← at_ (next_thread (sys y)) c;
      _ ← at_ (local y) c;
      y ← on_sched (set_next_thread_slot c 0) y;
      Some (System (sys y) (<[Z.to_nat c := x]> (local y)) (running y))
  | Switch c got =>
      x ← at_ (local y) c;
      y ← on_sched (switch_into c x got) y;
      Some (if got then with_running y ({[x]} ∪ running y) else y)
  | Tick c => x ← at_ (local y) c; on_sched (upd_thread x (fun t => set_has_run (s32 (has_run t + 1)) t)) y
  | Yield c =>
      x ← at_ (local y) c;
      y ← on_sched (yield x) y;
      Some (with_running y (running y ∖ {[x]}))
  | Put c =>
      x ← at_ (local y) c;
      y ← on_sched (run_return c x) y;
      Some (System (sys y) (<[Z.to_nat c := 0]> (local y)) (running y))
  | Boost c => on_sched (boost c) y
  | SetState x st => on_sched (upd_thread x (set_state st)) y
  | Spawn c x t =>
      on_sched (sched_add_task c x)
        (System (with_threads (sys y) (<[x := t]> (threads (sys y)))) (local y) (running y))
  | Reap x =>
      y ← on_sched (sched_remove_task x) y;
      Some (System (with_threads (sys y) (delete x (threads (sys y)))) (local y) (running y))
  end.

(** All the hands: the thread each processor works with and the one it has
    fetched for later. *)
Definition hands (y : system) : list Z := local y ++ next_thread (sys y).

(** Who may do what: a processor that is up works on what is in its hands; a
    run lock is taken only when it is free. *)
Definition legal (o : op) (y : system) : Prop :=
  match o with
  | Init c => 0 <= c < Z.of_nat (length (mlfqs (sys y)))
  | Fetch c | Steal c _ | Put c | Boost c => on_cpu (sys y) c
  | Take c => on_cpu (sys y) c /\ at_ (local y) c = Some 0
  | Switch c got => on_cpu (sys y) c /\ at_ (local y) c <> Some 0 /\
      (got = true -> forall x, at_ (local y) c = Some x -> x ∉ running y)
  | Tick c | Yield c => on_cpu (sys y) c /\ at_ (local y) c <> Some 0
  | SetState x _ => is_Some (threads (sys y) !! x)
  | Spawn c x t => on_cpu (sys y) c /\ x <> 0 /\ threads (sys y) !! x = None /\ exists st pre, t = new_thread st pre
  | Reap x => is_Some (threads (sys y) !! x) /\ x ∉ running y
  end.

(** A thread that is destroyed is in nobody's hands.  The code does not see to
    this: [jointhread], [exec] and [reap] only take the run lock, which a
    processor does not hold yet for the thread it has fetched and no longer
    holds for the thread it is about to put back. *)
Definition settled (o : op) (y : system) : Prop :=
  match o with Reap x => x ∉ hands y | _ => True end.

Inductive reach (nproc : Z) (y : system) : system -> Prop :=
| reach_start : reach nproc y y
| reach_step o y1 y2 : reach nproc y y1 -> legal o y1 -> settled o y1 -> exec nproc o y1 = Some y2 -> reach nproc y y2.

(** No thread yet, no processor up. *)
Definition boot (n : nat) : system :=
  System (Sched ∅ (replicate n (Mlfq 0 0 false (replicate 32 (Queue 0 0)))) (replicate n 0)) (replicate n 0) ∅.

(** ** Hands *)

(** A thread is at most once in the list. *)
Definition distinct (H : list Z) : Prop := forall i j x, H !! i = Some x -> H !! j = Some x -> x <> 0 -> i = j.

Lemma in_insert (H : list Z) i v x : x ∈ <[i := v]> H -> x = v \/ x ∈ H.
Proof.
  intros [j Hj]%list_elem_of_lookup. destruct (decide (i = j)) as [->|Hne].
  - destruct (decide (j < length H)%nat); [rewrite list_lookup_insert_eq in Hj by lia; left; congruence|].
    rewrite list_insert_ge in Hj by lia. right. apply list_elem_of_lookup. eauto.
  - rewrite list_lookup_insert_ne in Hj by auto. right. apply list_elem_of_lookup. eauto.
Qed.

Lemma in_insert_keep (H : list Z) i v w x : H !! i = Some w -> x ∈ H -> x <> w -> x ∈ <[i := v]> H.
Proof.
  intros Hw [j Hj]%list_elem_of_lookup Hne. apply list_elem_of_lookup. exists j. rewrite list_lookup_insert_ne; [exact Hj|congruence].
Qed.

Lemma in_insert_new (H : list Z) i v w : H !! i = Some w -> v ∈ <[i := v]> H.
Proof. intros Hw. apply list_elem_of_lookup. exists i. apply list_lookup_insert_eq. now apply lookup_lt_Some in Hw. Qed.

Lemma distinct_insert (H : list Z) i v : distinct H -> v = 0 \/ v ∉ H -> distinct (<[i := v]> H).
Proof.
  intros Hd Hv j k x Hj Hk Hx. destruct (decide (i < length H)%nat) as [Hi|Hi].
  2: { rewrite list_insert_ge in Hj, Hk by lia. eauto. }
  assert (Hcase : forall j, <[i := v]> H !! j = Some x -> (j = i /\ x = v) \/ (j <> i /\ H !! j = Some x)).
  { intros j' E. destruct (decide (i = j')) as [->|Hne]; [rewrite list_lookup_insert_eq in E by exact Hi; left; split; congruence|].
    rewrite list_lookup_insert_ne in E by auto. auto. }
  destruct (Hcase j Hj) as [[-> ->]|[? Hj']], (Hcase k Hk) as [[-> E]|[? Hk']]; try reflexivity.
  - destruct Hv as [|Hv]; [congruence|]. destruct Hv. apply list_elem_of_lookup. eauto.
  - subst x. destruct Hv as [|Hv]; [congruence|]. destruct Hv. apply list_elem_of_lookup. eauto.
  - eauto.
Qed.

Lemma distinct_clear (H : list Z) i x : distinct H -> H !! i = Some x -> x <> 0 -> x ∉ <[i := 0]> H.
Proof.
  intros Hd Hi Hx [j Hj]%list_elem_of_lookup. destruct (decide (i = j)) as [->|Hne].
  - rewrite list_lookup_insert_eq in Hj by (now apply lookup_lt_Some in Hi). congruence.
  - rewrite list_lookup_insert_ne in Hj by auto. apply Hne. eauto.
Qed.

(** ** The invariant of the system *)

Definition queued (q : runqs) (x : Z) : Prop := exists c p, x ∈ q c p.

Lemma queued_del x q z : queued (q_del x q) z <-> z <> x /\ queued q z.
Proof. split; [intros (c & p & [? ?]%elem_of_q_del); split; [auto|]; now exists c, p|]. intros [? (c & p & ?)]. exists c, p. now apply elem_of_q_del. Qed.

Lemma queued_push c p x q z : queued (q_push c p x q) z <-> z = x \/ queued q z.
Proof.
  split; [intros (c' & p' & [?|[-> _]]%elem_of_q_push); [right; now exists c', p'|auto]|].
  intros [->|(c' & p' & ?)]; [exists c, p|exists c', p']; apply elem_of_q_push; auto.
Qed.

Section system.
Context (nproc : Z) (n : nat) (Hn : nproc <= Z.of_nat n <= 64).

Record system_ok (y : system) (q : runqs) : Prop := {
  ok_sched : sched_ok (sys y) q;
  ok_mlfqs : length (mlfqs (sys y)) = n;
  ok_next : length (next_thread (sys y)) = n;
  ok_local : length (local y) = n;
  ok_distinct : distinct (hands y);
  ok_hands x : x ∈ hands y -> x <> 0 -> is_Some (threads (sys y) !! x) /\ ~ queued q x;
  ok_all x : is_Some (threads (sys y) !! x) -> x ∈ hands y \/ queued q x }.

Lemma ok_cpu y q c : system_ok y q -> on_cpu (sys y) c -> (exists x, at_ (next_thread (sys y)) c = Some x) /\ (exists x, at_ (local y) c = Some x).
Proof.
  intros Hy (m & [Hc _]%at_some & _). rewrite (ok_mlfqs _ _ Hy) in Hc. rewrite !at_lookup by lia.
  split; apply lookup_nat_Z; [rewrite (ok_next _ _ Hy)|rewrite (ok_local _ _ Hy)]; lia.
Qed.

(** Steps that move no thread. *)
Lemma system_ok_kept y q s' q' : system_ok y q -> kept (sys y) s' -> sched_ok s' q' -> (forall x, queued q' x <-> queued q x) ->
  system_ok (System s' (local y) (running y)) q'.
Proof.
  intros [H1 H2 H3 H4 H5 H6 H7] [K1 K2 K3 K4] Hok' Hq. assert (Eh : hands (System s' (local y) (running y)) = hands y) by (unfold hands; cbn; now rewrite K4).
  split; rewrite ?Eh; cbn [sys local]; [exact Hok'|congruence|congruence|exact H4|exact H5| |].
  - intros x Hx Hx0. rewrite K1, Hq. auto.
  - intros x Hx. rewrite Hq. apply K1 in Hx. auto.
Qed.

(** A thread goes from a queue into a hand. *)
Lemma system_ok_taken y q s' o c : system_ok y q -> on_cpu (sys y) c -> at_ (next_thread (sys y)) c = Some 0 ->
  kept (sys y) s' -> sched_ok s' (q_taken o q) -> (forall x, o = Some x -> queued q x) ->
  system_ok (System (with_slot s' c (default 0 o)) (local y) (running y)) (q_taken o q).
Proof.
  intros Hy Hc Hslot Hk Hok' Ho. pose proof Hk as [K1 K2 K3 K4]. pose proof Hy as [H1 H2 H3 H4 H5 H6 H7].
  set (v := default 0 o). set (i := (length (local y) + Z.to_nat c)%nat).
  assert (Eh : hands (System (with_slot s' c v) (local y) (running y)) = <[i := v]> (hands y)).
  { unfold hands, i. cbn. rewrite K4, insert_app_r. reflexivity. }
  assert (Hi : hands y !! i = Some 0).
  { unfold hands, i. rewrite lookup_app_r by lia. rewrite Nat.add_comm, Nat.add_sub. now apply at_some in Hslot as [_ ?]. }
  assert (Hv : v = 0 \/ ((v ∉ hands y) /\ queued q v)).
  { unfold v. destruct o as [x|]; [|auto]. cbn. unfold id. specialize (Ho x eq_refl). destruct (Z.eq_dec x 0); [auto|].
    right. split; [|exact Ho]. intros Hx. now destruct (H6 x Hx). }
  assert (Hq : forall z, z <> 0 -> queued (q_taken o q) z <-> z <> v /\ queued q z).
  { intros z Hz. unfold v. destruct o as [x|]; cbn [q_taken default]; unfold id; [apply queued_del|]. tauto. }
  split; rewrite ?Eh; cbn [sys local threads mlfqs next_thread with_slot].
  - now apply with_slot_ok.
  - congruence.
  - rewrite length_insert. congruence.
  - exact H4.
  - apply distinct_insert; [exact H5|tauto].
  - intros x Hx Hx0. rewrite K1, Hq by exact Hx0. apply in_insert in Hx as [->|Hx].
    + destruct Hv as [|[_ (c' & p' & Hv)]]; [contradiction|]. split; [eapply queued_some; eauto|tauto].
    + destruct (H6 x Hx Hx0). tauto.
  - intros x Hx. apply K1 in Hx. assert (Hx0 : x <> 0) by (destruct Hx as [t Ht]; now destruct (so_thread _ _ H1 x t Ht)).
    rewrite Hq by exact Hx0. destruct (Z.eq_dec x v) as [->|Hne]; [left; eapply in_insert_new; exact Hi|].
    destruct (H7 x Hx) as [Hin|Hin]; [left; eapply in_insert_keep; eauto|auto].
Qed.

(** The steps, one by one.  Each runs and keeps the invariant. *)
Definition good_step (o : op) (y : system) : Prop := exists y' q', exec nproc o y = Some y' /\ system_ok y' q'.

Lemma on_sched_done (k : K unit) y s' : k (sys y) = Done tt s' -> on_sched k y = Some (System s' (local y) (running y)).
Proof. intros E. unfold on_sched. now rewrite E. Qed.

Lemma step_init y q c : system_ok y q -> legal (Init c) y -> good_step (Init c) y.
Proof.
  intros Hy Hc. cbn in Hc. destruct (lookup_nat_Z (mlfqs (sys y)) c Hc) as [m Hm]. rewrite <- at_lookup in Hm by lia.
  pose proof (ok_sched _ _ Hy) as [H1 H2 H3 H4 H5]. set (s' := with_mlfq (sys y) c (Mlfq c (next_worksteal m) true (queues m))).
  assert (Hon : forall c', on_cpu (sys y) c' -> on_cpu s' c').
  { intros c' (m' & Hm' & Ha). unfold on_cpu, s'. rewrite (with_mlfq_at _ _ _ _ _ Hm). destruct (c' =? c); eauto. }
  exists (System s' (local y) (running y)), q. split.
  - apply on_sched_done. apply swp_eq. eapply swp_upd_mlfq; [exact Hm|auto].
  - apply (system_ok_kept y q); [exact Hy| | |tauto].
    + split; [reflexivity|exact Hon|apply length_insert|reflexivity].
    + split; [|exact H2|exact H3| |].
      * intros c' m'. unfold s'. rewrite (with_mlfq_at _ _ _ _ _ Hm). destruct (c' =? c) eqn:E; zbool; [|apply H1].
        intros [= <-]. subst c'. destruct (H1 c m Hm) as (_ & A & B). auto.
      * intros c' p x Hx. destruct (H4 c' p x Hx) as (t & m' & Ht & Ep & Ec & Hm' & Ha).
        destruct (Hon c' ltac:(exists m'; auto)) as (m2 & ? & ?). exists t, m2. auto.
      * intros x t Ht. destruct (H5 x t Ht) as (A & B & C & D). split; [exact A|]. split; [exact B|]. split; [|exact D]. destruct C; auto.
Qed.

Lemma all_of_queued q c x : x ∈ all_of q c -> queued q x.
Proof.
  unfold all_of. intros Hx%list_elem_of_In%in_concat. destruct Hx as (l & Hl%list_elem_of_In & Hx%list_elem_of_In).
  apply list_elem_of_fmap in Hl as (p & -> & _). now exists c, p.
Qed.

Lemma find_queued s q c x : List.find (runnable s) (all_of q c) = Some x -> queued q x.
Proof. intros [Hx _]%find_some. eapply all_of_queued, list_elem_of_In, Hx. Qed.

(** A choice that finds the slot empty and fills it. *)
Lemma step_choose y q c (k : K Z) : system_ok y q -> on_cpu (sys y) c ->
  (exists s' o, k (sys y) = Done (default 0 o) s' /\ kept (sys y) s' /\ sched_ok s' (q_taken o q) /\ (forall x, o = Some x -> queued q x)) ->
  exists y' q', on_sched (n ← get_next_thread_slot c; if n =? 0 then t ← k; set_next_thread_slot c t else mret tt) y = Some y' /\ system_ok y' q'.
Proof.
  intros Hy Hc (s' & o & Ek & Hk & Hok & Ho). destruct (ok_cpu _ _ _ Hy Hc) as [[x Hx] _]. destruct (x =? 0) eqn:E; zbool.
  - subst x. eexists _, _. split; [|eapply (system_ok_taken y q s' o c); eauto]. apply on_sched_done.
    rewrite (bind_done _ _ _ _ _ (get_slot_run _ _ _ Hx)), Z.eqb_refl, (bind_done _ _ _ _ _ Ek).
    apply (set_slot_run _ _ 0). now rewrite (kp_next _ _ Hk).
  - exists y, q. split; [|exact Hy]. replace (Some y) with (Some (System (sys y) (local y) (running y))) by (now destruct y). apply on_sched_done.
    rewrite (bind_done _ _ _ _ _ (get_slot_run _ _ _ Hx)). now rewrite (proj2 (Z.eqb_neq x 0) E).
Qed.

Lemma step_fetch y q c : system_ok y q -> legal (Fetch c) y -> good_step (Fetch c) y.
Proof.
  intros Hy Hc. apply (step_choose y q c (get_next c)); [exact Hy|exact Hc|].
  destruct (get_next_spec _ q c (ok_sched _ _ Hy) Hc) as (s' & E & Hs & Hok). exists s', (List.find (runnable (sys y)) (all_of q c)).
  split; [exact E|]. split; [now apply same_kept|]. split; [exact Hok|]. intros x Hx. eapply find_queued, Hx.
Qed.

Lemma step_steal y q c locked : system_ok y q -> legal (Steal c locked) y -> good_step (Steal c locked) y.
Proof.
  intros Hy Hc. apply (step_choose y q c (worksteal nproc c locked)); [exact Hy|exact Hc|].
  destruct (worksteal_spec _ q c nproc locked (ok_sched _ _ Hy) Hc) as (s' & o & E & Hok & Hk & Ho); [rewrite (ok_mlfqs _ _ Hy); exact Hn|].
  exists s', o. split; [exact E|]. split; [exact Hk|]. split; [exact Hok|]. intros x Hx.
  destruct (Ho x Hx) as (v & _ & _ & _ & Hf). eapply find_queued, Hf.
Qed.

Lemma step_boost y q c : system_ok y q -> legal (Boost c) y -> good_step (Boost c) y.
Proof.
  intros Hy Hc. destruct (boost_spec _ q c (ok_sched _ _ Hy) Hc) as (s' & E & Hok & Hk).
  eexists _, _. split; [now apply on_sched_done, E|]. eapply system_ok_kept; [exact Hy|exact Hk|exact Hok|].
  clear. intros x. revert q. generalize (seqZ 1 31). intros ps. induction ps as [|p ps IH]; intros q; cbn [foldl]; [tauto|].
  rewrite IH. unfold boost_q. destruct (q c p) as [|z l] eqn:E; [tauto|]. rewrite queued_push, queued_del.
  destruct (Z.eq_dec x z) as [->|Hne]; [|tauto]. split; [intros _; exists c, p; rewrite E; left|auto].
Qed.

(** A field of one thread is set. *)
Lemma step_set y q x t t' s' : system_ok y q -> threads (sys y) !! x = Some t -> s' = with_threads (sys y) (<[x := t']> (threads (sys y))) ->
  t_next t' = t_next t -> t_prev t' = t_prev t -> priority t' = priority t ->
  (current_cpu t' = current_cpu t \/ (x ∈ hands y /\ (current_cpu t' < 0 \/ on_cpu (sys y) (current_cpu t')))) ->
  system_ok (System s' (local y) (running y)) q.
Proof.
  intros Hy Ht -> En Ep Epr Hcpu. pose proof (ok_sched _ _ Hy) as Hok. destruct (so_thread _ _ Hok x t Ht) as (H0 & Hpr & Hc & _).
  apply (system_ok_kept y q); [exact Hy|eapply kept_insert, Ht| |tauto].
  eapply sched_ok_set; [exact Hok|exact Ht|exact En|exact Ep|congruence| |].
  - destruct Hcpu as [->|[_ ?]]; assumption.
  - destruct Hcpu as [->|[Hin _]]; [auto|]. left. intros c p Hq. destruct (ok_hands _ _ Hy x Hin H0) as [_ Hno]. apply Hno. now exists c, p.
Qed.

(** The run locks are apart from the rest. *)
Lemma system_ok_running y q r : system_ok y q -> system_ok (with_running y r) q.
Proof. now intros [H1 H2 H3 H4 H5 H6 H7]. Qed.

(** The thread a processor works with. *)
Lemma local_thread y q c : system_ok y q -> on_cpu (sys y) c -> at_ (local y) c <> Some 0 ->
  exists x t, at_ (local y) c = Some x /\ threads (sys y) !! x = Some t /\ x ∈ hands y.
Proof.
  intros Hy Hc Hne. destruct (ok_cpu _ _ _ Hy Hc) as [_ [x Hx]]. assert (Hx0 : x <> 0) by congruence.
  assert (Hin : x ∈ hands y) by (apply at_some in Hx as [_ Hx]; apply elem_of_app; left; apply list_elem_of_lookup; eauto).
  destruct (ok_hands _ _ Hy x Hin Hx0) as [[t Ht] _]. eauto.
Qed.

Lemma step_switch y q c got : system_ok y q -> legal (Switch c got) y -> good_step (Switch c got) y.
Proof.
  intros Hy (Hc & Hne & _). destruct (local_thread _ _ _ Hy Hc Hne) as (x & t & Hx & Ht & Hin). unfold good_step. cbn [exec]. rewrite Hx. cbn [mbind option_bind].
  unfold switch_into. destruct got.
  - erewrite on_sched_done.
    2: { apply swp_eq, swp_bind. eapply swp_upd_thread; [exact Ht|]. apply swp_bind. eapply swp_upd_thread; [apply lookup_insert_eq|].
      eapply swp_upd_thread; [apply lookup_insert_eq|]. rewrite !with_threads_twice. cbn [threads with_threads]. rewrite !insert_insert_eq. auto. }
    cbn [mbind option_bind]. eexists _, q. split; [reflexivity|]. apply system_ok_running.
    eapply step_set; [exact Hy|exact Ht|reflexivity..|]. right. auto.
  - exists y, q. split; [|exact Hy]. now destruct y.
Qed.

Lemma step_tick y q c : system_ok y q -> legal (Tick c) y -> good_step (Tick c) y.
Proof.
  intros Hy [Hc Hne]. destruct (local_thread _ _ _ Hy Hc Hne) as (x & t & Hx & Ht & Hin). unfold good_step. cbn [exec]. rewrite Hx. cbn [mbind option_bind].
  eexists _, q. split; [apply on_sched_done, swp_eq; eapply swp_upd_thread; [exact Ht|auto]|]. eapply step_set; [exact Hy|exact Ht|reflexivity..|now left].
Qed.

Lemma step_yield y q c : system_ok y q -> legal (Yield c) y -> good_step (Yield c) y.
Proof.
  intros Hy [Hc Hne]. destruct (local_thread _ _ _ Hy Hc Hne) as (x & t & Hx & Ht & Hin). unfold good_step. cbn [exec]. rewrite Hx. cbn [mbind option_bind].
  erewrite on_sched_done by (apply swp_eq; eapply swp_upd_thread; [exact Ht|auto]). cbn [mbind option_bind].
  eexists _, q. split; [reflexivity|]. apply system_ok_running.
  eapply step_set; [exact Hy|exact Ht|reflexivity..|]. right. split; [exact Hin|]. now left.
Qed.

Lemma step_set_state y q x st : system_ok y q -> legal (SetState x st) y -> good_step (SetState x st) y.
Proof.
  intros Hy [t Ht]. eexists _, q. split; [apply on_sched_done, swp_eq; eapply swp_upd_thread; [exact Ht|auto]|].
  eapply step_set; [exact Hy|exact Ht|reflexivity..|now left].
Qed.

Lemma step_take y q c : system_ok y q -> legal (Take c) y -> good_step (Take c) y.
Proof.
  intros Hy [Hc Hl]. destruct (ok_cpu _ _ _ Hy Hc) as [[x Hx] _]. unfold good_step. cbn [exec]. rewrite Hx, Hl. cbn [mbind option_bind].
  rewrite (on_sched_done _ _ _ (set_slot_run _ _ _ 0 Hx)). cbn [mbind option_bind sys local]. eexists _, q. split; [reflexivity|].
  pose proof Hy as [H1 H2 H3 H4 H5 H6 H7]. set (i := Z.to_nat c). set (j := (length (local y) + i)%nat).
  pose proof Hl as [_ Hl']%at_some. pose proof Hx as [_ Hx']%at_some. fold i in Hl', Hx'.
  assert (Hj : hands y !! j = Some x) by (unfold hands, j; rewrite lookup_app_r by lia; now rewrite Nat.add_comm, Nat.add_sub).
  assert (Hi : hands y !! i = Some 0) by (unfold hands; now apply lookup_app_l_Some).
  assert (Hij : i <> j) by (apply lookup_lt_Some in Hl'; unfold j; lia).
  set (y' := System _ _ _).
  assert (Eh : hands y' = <[i := x]> (<[j := 0]> (hands y))).
  { unfold hands, y', j. cbn. rewrite insert_app_r, insert_app_l by (now apply lookup_lt_Some in Hl'). reflexivity. }
  assert (Hi2 : <[j := 0]> (hands y) !! i = Some 0) by now rewrite list_lookup_insert_ne by auto.
  assert (Hsub : forall z, z ∈ hands y' -> z <> 0 -> z ∈ hands y).
  { intros z Hz Hz0. rewrite Eh in Hz. apply in_insert in Hz as [->|Hz]; [apply list_elem_of_lookup; eauto|]. apply in_insert in Hz as [->|Hz]; [contradiction|exact Hz]. }
  assert (Hsup : forall z, z ∈ hands y -> z <> 0 -> z ∈ hands y').
  { intros z Hz Hz0. rewrite Eh. destruct (Z.eq_dec z x) as [->|Hne]; [eapply in_insert_new, Hi2|].
    eapply in_insert_keep; [exact Hi2| |exact Hz0]. eapply in_insert_keep; eauto. }
  split; cbn [sys local threads mlfqs next_thread with_slot y'].
  - now apply with_slot_ok.
  - exact H2.
  - now rewrite length_insert.
  - now rewrite length_insert.
  - fold y'. rewrite Eh. apply distinct_insert; [apply distinct_insert; [exact H5|auto]|].
    destruct (Z.eq_dec x 0) as [|Hx0]; [auto|]. right. now apply distinct_clear.
  - intros z Hz Hz0. apply H6; auto.
  - intros z Hz. destruct (H7 z Hz) as [Hin|]; [|auto]. left. apply Hsup; [exact Hin|]. destruct Hz as [t Ht]. now destruct (so_thread _ _ H1 z t Ht).
Qed.

Lemma step_put y q c : system_ok y q -> legal (Put c) y -> good_step (Put c) y.
Proof.
  intros Hy Hc. cbn in Hc. destruct (ok_cpu _ _ _ Hy Hc) as [_ [x Hx]]. unfold good_step. cbn [exec]. rewrite Hx. cbn [mbind option_bind].
  pose proof Hy as [H1 H2 H3 H4 H5 H6 H7]. pose proof Hx as [_ Hx']%at_some. set (i := Z.to_nat c) in *.
  assert (Hi : hands y !! i = Some x) by (unfold hands; now apply lookup_app_l_Some).
  assert (Hin : x ∈ hands y) by (apply list_elem_of_lookup; eauto). unfold run_return. destruct (x =? 0) eqn:E; zbool.
  - subst x. eexists _, q. split; [reflexivity|]. rewrite list_insert_id by exact Hx'. now destruct y.
  - destruct (H6 x Hin E) as [[t Ht] Hno]. assert (Hno' : forall c p, x ∉ q c p) by (intros c' p' Hq; apply Hno; now exists c', p').
    destruct (sched_add_task_spec _ q c x t H1 Ht Hc Hno') as (s' & Ea & Hok' & Hs). rewrite (on_sched_done _ _ _ Ea). cbn [mbind option_bind sys local].
    pose proof (kept_trans _ _ _ (kept_insert _ _ _ _ Ht) (same_kept _ _ Hs)) as [K1 K2 K3 K4].
    eexists _, _. split; [reflexivity|]. set (y' := System _ _ _).
    assert (Eh : hands y' = <[i := 0]> (hands y)).
    { unfold hands, y'. cbn. rewrite K4, insert_app_l by (now apply lookup_lt_Some in Hx'). reflexivity. }
    split; [exact Hok'|cbn; congruence|cbn; congruence|cbn; now rewrite length_insert|rewrite Eh; apply distinct_insert; auto| |].
    + intros z Hz Hz0. change (threads (sys y')) with (threads s'). rewrite K1, queued_push.
      assert (Hzx : z <> x) by (intros ->; revert Hz; rewrite Eh; now apply distinct_clear).
      rewrite Eh in Hz. apply in_insert in Hz as [->|Hz]; [contradiction|]. destruct (H6 z Hz Hz0). tauto.
    + intros z Hz. change (threads (sys y')) with (threads s') in Hz. apply K1 in Hz. rewrite queued_push, Eh.
      destruct (Z.eq_dec z x) as [->|Hne]; [auto|]. destruct (H7 z Hz); [|auto]. left. eapply in_insert_keep; eauto.
Qed.

Lemma step_spawn y q c x t : system_ok y q -> legal (Spawn c x t) y -> good_step (Spawn c x t) y.
Proof.
  intros Hy (Hc & Hx0 & Hnew & st & pre & ->). pose proof Hy as [H1 H2 H3 H4 H5 H6 H7]. set (t := new_thread st pre).
  assert (Hnq : ~ queued q x) by (intros (c' & p' & Hq); destruct (queued_some _ _ _ _ _ H1 Hq); congruence).
  set (s1 := with_threads (sys y) (<[x := t]> (threads (sys y)))).
  assert (Hok1 : sched_ok s1 q).
  { destruct H1 as [A1 A2 A3 A4 A5]. split; [exact A1| |exact A3| |].
    - intros c' p'. eapply dseg_ext; [|apply A2]. intros z Hz. unfold links, s1. cbn. rewrite !lookup_fmap, lookup_insert_ne; [reflexivity|].
      unfold id. intros <-. apply Hnq. now exists c', p'.
    - intros c' p' z Hz. destruct (A4 c' p' z Hz) as (u & m & Hu & ?). exists u, m. cbn. rewrite lookup_insert_ne by (intros <-; congruence). auto.
    - intros z u. cbn. destruct (Z.eq_dec z x) as [->|Hne]; [rewrite lookup_insert_eq|rewrite lookup_insert_ne by auto; apply A5].
      intros [= <-]. split; [exact Hx0|]. split; [cbn; unfold MLFQ_NQUEUES; lia|]. split; [left; reflexivity|auto]. }
  assert (Hno : forall c p, x ∉ q c p) by (intros c' p' Hq; apply Hnq; now exists c', p').
  destruct (sched_add_task_spec s1 q c x t Hok1 (lookup_insert_eq _ _ _) Hc Hno) as (s' & Ea & Hok' & Hs).
  pose proof (kept_trans _ _ _ (kept_insert s1 x t _ (lookup_insert_eq _ _ _)) (same_kept _ _ Hs)) as [K1 K2 K3 K4].
  eexists _, _. split; [cbn [exec]; apply (on_sched_done _ (System _ _ _)), Ea|]. set (y' := System _ _ _).
  assert (Eh : hands y' = hands y) by (unfold hands, y'; cbn; now rewrite K4).
  assert (K : forall z, is_Some (threads s' !! z) <-> z = x \/ is_Some (threads (sys y) !! z)).
  { intros z. rewrite K1. cbn. destruct (Z.eq_dec z x) as [->|Hne]; [rewrite lookup_insert_eq; split; eauto|rewrite lookup_insert_ne by auto; tauto]. }
  split; rewrite ?Eh; [exact Hok'|exact (eq_trans K3 H2)|cbn; rewrite K4; exact H3|exact H4|exact H5| |].
  - intros z Hz Hz0. change (threads (sys y')) with (threads s'). rewrite K, queued_push. destruct (H6 z Hz Hz0) as [Hs1 Hq1].
    split; [auto|]. intros [->|]; [|auto]. rewrite Hnew in Hs1. now destruct Hs1.
  - intros z Hz. change (threads (sys y')) with (threads s') in Hz. rewrite queued_push. apply K in Hz as [->|Hz]; [auto|]. destruct (H7 z Hz); auto.
Qed.

Lemma step_reap y q x : system_ok y q -> legal (Reap x) y -> settled (Reap x) y -> good_step (Reap x) y.
Proof.
  intros Hy [[t Ht] _] Hout. pose proof Hy as [H1 H2 H3 H4 H5 H6 H7].
  destruct (sched_remove_task_spec _ q x t H1 Ht) as (s' & Er & Hok' & Hs).
  pose proof (kept_trans _ _ _ (kept_insert _ _ _ _ Ht) (same_kept _ _ Hs)) as [K1 K2 K3 K4].
  unfold good_step. cbn [exec]. rewrite (on_sched_done _ _ _ Er). cbn [mbind option_bind sys local]. eexists _, _. split; [reflexivity|]. set (y' := System _ _ _).
  assert (Eh : hands y' = hands y) by (unfold hands, y'; cbn; now rewrite K4).
  assert (Hd : forall z, threads (sys y') !! z = if z =? x then None else threads s' !! z).
  { intros z. cbn. destruct (z =? x) eqn:E; zbool; [subst; apply lookup_delete_eq|now rewrite lookup_delete_ne by auto]. }
  assert (Hnx : forall c p, x ∉ q_del x q c p) by (intros; apply q_del_not_in).
  split; rewrite ?Eh; [|cbn; congruence|cbn; congruence|exact H4|exact H5| |].
  - destruct Hok' as [A1 A2 A3 A4 A5]. split; [exact A1| |exact A3| |].
    + intros c p. eapply dseg_ext; [|apply A2]. intros z Hz. unfold links, id. rewrite !lookup_fmap, Hd.
      rewrite (proj2 (Z.eqb_neq z x)); [reflexivity|]. intros ->. now apply (Hnx c p).
    + intros c p z Hz. destruct (A4 c p z Hz) as (u & m & Hu & ?). exists u, m. rewrite Hd, (proj2 (Z.eqb_neq z x)); [auto|].
      intros ->. now apply (Hnx c p).
    + intros z u. rewrite Hd. destruct (z =? x); [discriminate|]. apply A5.
  - intros z Hz Hz0. assert (Hzx : z <> x) by (intros ->; contradiction). rewrite Hd, (proj2 (Z.eqb_neq z x) Hzx), K1, queued_del.
    destruct (H6 z Hz Hz0). tauto.
  - intros z. rewrite Hd, queued_del. destruct (z =? x) eqn:E; zbool; [intros [? ?]; discriminate|]. rewrite K1. intros Hz. destruct (H7 z Hz); auto.
Qed.

Lemma step_good o y q : system_ok y q -> legal o y -> settled o y -> good_step o y.
Proof.
  intros Hy Hl Hs. destruct o; eauto using step_init, step_fetch, step_steal, step_take, step_switch, step_tick, step_yield, step_put, step_boost,
    step_set_state, step_spawn, step_reap.
Qed.

Lemma boot_ok : system_ok (boot n) (fun _ _ => []).
Proof.
  split; cbn [boot sys local threads mlfqs next_thread]; rewrite ?length_replicate; try reflexivity.
  - split; cbn [threads mlfqs]; [|intros; exact I|constructor|intros c p x Hx; inversion Hx|intros x t; rewrite lookup_empty; discriminate].
    intros c m [_ Hm]%at_some. apply lookup_replicate in Hm as [-> _]. split; [discriminate|]. split; [cbn; lia|].
    intros p Hp. rewrite at_lookup by lia. cbn [queues]. apply lookup_replicate. split; [reflexivity|]. unfold MLFQ_NQUEUES in Hp. lia.
  - intros i j x Hi Hj Hx. unfold hands in Hi. cbn in Hi. rewrite <- replicate_add in Hi. apply lookup_replicate in Hi as [-> _]. contradiction.
  - intros x Hx Hx0. unfold hands in Hx. cbn in Hx. rewrite <- replicate_add in Hx. apply elem_of_replicate in Hx as [-> _]. contradiction.
  - intros x Hx. rewrite lookup_empty in Hx. now destruct Hx.
Qed.

Lemma reach_ok y : reach nproc (boot n) y -> exists q, system_ok y q.
Proof.
  induction 1 as [|o y1 y2 _ [q Hq] Hl Hs E]; [eexists; apply boot_ok|]. destruct (step_good o y1 q Hq Hl Hs) as (y' & q' & E' & H'). exists q'. congruence.
Qed.
End system.

(** ** The theorems *)

(** C24: No thread is ever run twice or lost.  From boot on, however the
    processors interleave, and as long as no thread is destroyed that a processor
    has in its hands ([settled]; taking [locks.run] does not ensure it, see
    [reap_leaves_dangling]): no step of the scheduler faults, fails an assertion
    or loops; every thread is in exactly one place, one processor's hands or one
    run queue; and the queues are chains of threads of their own priority. *)
Theorem scheduler_safe nproc n y :
  nproc <= Z.of_nat n <= 64 -> reach nproc (boot n) y ->
  (forall o, legal o y -> settled o y -> is_Some (exec nproc o y)) /\
  exists q, sched_ok (sys y) q /\
    (forall i j x, hands y !! i = Some x -> hands y !! j = Some x -> x <> 0 -> i = j) /\
    (forall x, x ∈ hands y -> x <> 0 -> is_Some (threads (sys y) !! x) /\ forall c p, x ∉ q c p) /\
    (forall x, is_Some (threads (sys y) !! x) -> x ∈ hands y \/ exists c p, x ∈ q c p).
Proof.
  intros Hn Hr. destruct (reach_ok nproc n Hn y Hr) as [q Hq]. split.
  - intros o Hl Hs. destruct (step_good nproc n Hn o y q Hq Hl Hs) as (y' & q' & -> & _). eauto.
  - exists q. split; [apply (ok_sched _ _ _ Hq)|]. split; [apply (ok_distinct _ _ _ Hq)|]. split; [|apply (ok_all _ _ _ Hq)].
    intros x Hx Hx0. destruct (ok_hands _ _ _ Hq x Hx Hx0) as [Hs Hno]. split; [exact Hs|]. intros c p Hin. apply Hno. now exists c, p.
Qed.

(** Runs can be checked by evaluation. *)
Definition upb (s : sched) (c : Z) : bool := match at_ (mlfqs s) c with Some m => active m | None => false end.
Definition legalb (o : op) (y : system) : bool :=
  match o with
  | Init c => (0 <=? c) && (c <? Z.of_nat (length (mlfqs (sys y))))
  | Fetch c | Steal c _ | Put c | Boost c => upb (sys y) c
  | Take c => upb (sys y) c && bool_decide (at_ (local y) c = Some 0)
  | Switch c got => upb (sys y) c && bool_decide (at_ (local y) c <> Some 0) &&
      (negb got || match at_ (local y) c with Some x => bool_decide (x ∉ running y) | None => true end)
  | Tick c | Yield c => upb (sys y) c && bool_decide (at_ (local y) c <> Some 0)
  | SetState x _ => bool_decide (is_Some (threads (sys y) !! x))
  | Spawn c x t => upb (sys y) c && bool_decide (x <> 0) && bool_decide (threads (sys y) !! x = None) &&
      bool_decide (t = new_thread (t_state t) (preemptable t))
  | Reap x => bool_decide (is_Some (threads (sys y) !! x)) && bool_decide (x ∉ running y)
  end.
Definition settledb (o : op) (y : system) : bool :=
  match o with Reap x => bool_decide (x ∉ hands y) | _ => true end.

Lemma upb_true s c : upb s c = true -> on_cpu s c.
Proof. unfold upb, on_cpu. destruct (at_ (mlfqs s) c) as [m|]; [eauto|discriminate]. Qed.

Lemma legalb_true o y : legalb o y = true -> legal o y.
Proof.
  destruct o as [| | | |c got| | | | | | |]; cbn; rewrite ?andb_true_iff, ?bool_decide_eq_true; intros;
    repeat match goal with H : _ /\ _ |- _ => destruct H end; zbool; repeat split; auto using upb_true; try lia; eauto.
  intros -> x Hx. rewrite Hx in *. cbn in *. now case_bool_decide.
Qed.

Lemma settledb_true o y : settledb o y = true -> settled o y.
Proof. destruct o; cbn; rewrite ?bool_decide_eq_true; auto. Qed.

Fixpoint run (nproc : Z) (ops : list op) (y : system) : option system :=
  match ops with
  | [] => Some y
  | o :: ops => if legalb o y && settledb o y then y ← exec nproc o y; run nproc ops y else None
  end.

Lemma run_reach nproc ops y y' : run nproc ops y = Some y' -> reach nproc y y'.
Proof.
  assert (H : forall y1, reach nproc y y1 -> run nproc ops y1 = Some y' -> reach nproc y y'); [|apply H, reach_start].
  induction ops as [|o ops IH]; intros y1 Hr; cbn [run]; [intros [= <-]; exact Hr|].
  destruct (legalb o y1 && settledb o y1) eqn:El; [|discriminate]. apply andb_true_iff in El as [El Es].
  destruct (exec nproc o y1) as [y2|] eqn:E; [|discriminate]. cbn [mbind option_bind].
  apply IH. eapply reach_step; [exact Hr|apply legalb_true, El|apply settledb_true, Es|exact E].
Qed.

(** Why [settled] is needed: where the code destroys a thread whose run lock is
    free but which a processor has in its hands, the processor is left with a
    thread that is gone. *)
Lemma reap_leaves_dangling nproc n y x :
  nproc <= Z.of_nat n <= 64 -> reach nproc (boot n) y -> legal (Reap x) y -> x ∈ hands y ->
  exists y', exec nproc (Reap x) y = Some y' /\ x ∈ hands y' /\ threads (sys y') !! x = None.
Proof.
  intros Hn Hr [[t Ht] _] Hx. destruct (reach_ok nproc n Hn y Hr) as [q Hq].
  destruct (sched_remove_task_spec _ q x t (ok_sched _ _ _ Hq) Ht) as (s' & Er & _ & Hs). cbn [exec].
  rewrite (on_sched_done _ _ _ Er). cbn [mbind option_bind]. eexists. split; [reflexivity|]. split.
  - unfold hands in *. cbn. rewrite (sm_next _ _ Hs). exact Hx.
  - cbn. apply lookup_delete_eq.
Qed.

(** One processor fetches its thread, the thread is destroyed before it is
    switched into, and the switch faults. *)
Definition reap_race : list op := [Init 0; Spawn 0 16 (new_thread 0 true); Fetch 0].

Lemma reap_race_faults :
  match run 1 reap_race (boot 1) with
  | Some y =>
      legal (Reap 16) y /\
      (y ← exec 1 (Reap 16) y; y ← exec 1 (Take 0) y; exec 1 (Switch 0 true) y) = None
  | None => False
  end.
Proof.
  destruct (run 1 reap_race (boot 1)) as [y|] eqn:E; vm_compute in E; [|discriminate]. injection E as <-.
  split; [apply legalb_true|]; vm_compute; reflexivity.
Qed.

(** Two processors; the second steals the only thread of the first and runs it. *)
Definition demo_ops : list op :=
  [Init 0; Init 1; Spawn 0 16 (new_thread 0 true); Fetch 1; Steal 1 true; Take 1; Switch 1 true; Fetch 0].
Definition demo_system : system := default (boot 2) (run 2 demo_ops (boot 2)).

Lemma scheduler_safe_witness :
  local demo_system = [0; 16] /\
  exists q, sched_ok (sys demo_system) q /\
    (forall i j x, hands demo_system !! i = Some x -> hands demo_system !! j = Some x -> x <> 0 -> i = j) /\
    (forall x, x ∈ hands demo_system -> x <> 0 -> is_Some (threads (sys demo_system) !! x) /\ forall c p, x ∉ q c p) /\
    (forall x, is_Some (threads (sys demo_system) !! x) -> x ∈ hands demo_system \/ exists c p, x ∈ q c p).
Proof.
  split; [vm_compute; reflexivity|].
  refine (proj2 (scheduler_safe 2 2 demo_system _ _)); [lia|].
  apply (run_reach 2 demo_ops). vm_compute. reflexivity.
Defined.

(** [x] is the first thread that can run in the best queue that has one. *)
Definition best (s : sched) (q : runqs) (c x : Z) : Prop :=
  exists p l1 l2, 0 <= p < MLFQ_NQUEUES /\ q c p = l1 ++ x :: l2 /\ runnable s x = true /\
    (forall y, y ∈ l1 -> runnable s y = false) /\
    (forall p' y, 0 <= p' < p -> y ∈ q c p' -> runnable s y = false).
Definition none_runnable (s : sched) (q : runqs) (c : Z) : Prop :=
  forall p x, 0 <= p < MLFQ_NQUEUES -> x ∈ q c p -> runnable s x = false.

Lemma find_split {A} (f : A -> bool) l x : List.find f l = Some x ->
  exists l1 l2, l = l1 ++ x :: l2 /\ f x = true /\ forall y, y ∈ l1 -> f y = false.
Proof.
  induction l as [|z l IH]; cbn; [discriminate|]. destruct (f z) eqn:E.
  - intros [= ->]. exists [], l. split; [reflexivity|]. split; [exact E|]. intros y Hy. inversion Hy.
  - intros (l1 & l2 & -> & Hx & Hl)%IH. exists (z :: l1), l2. split; [reflexivity|]. split; [exact Hx|].
    intros y [->|Hy]%elem_of_cons; auto.
Qed.

Lemma find_concat s (q : Z -> list Z) k : forall a x, List.find (runnable s) (concat (q <$> seqZ a (Z.of_nat k))) = Some x ->
  exists p, a <= p < a + Z.of_nat k /\ List.find (runnable s) (q p) = Some x /\
    forall p' y, a <= p' < p -> y ∈ q p' -> runnable s y = false.
Proof.
  induction k as [|k IH]; intros a x; [discriminate|]. rewrite seqZ_cons by lia. replace (Z.pred (Z.of_nat (S k))) with (Z.of_nat k) by lia.
  cbn [fmap list_fmap concat]. destruct (List.find (runnable s) (q a)) as [z|] eqn:E.
  - intros Hf. exists a. split; [lia|]. split; [|lia].
    destruct (find_split _ _ _ E) as (l1 & l2 & El & Hz & Hl1). rewrite El, <- app_assoc in Hf. rewrite E.
    rewrite find_app_none in Hf; [cbn in Hf; now rewrite Hz in Hf|]. clear -Hl1. induction l1 as [|w l1 IHl]; [reflexivity|]. cbn.
    rewrite Hl1 by left. apply IHl. intros y Hy. apply Hl1. now right.
  - rewrite find_app_none by exact E. intros (p & Hp & Hf & Hbefore)%IH. exists p. split; [lia|]. split; [exact Hf|].
    intros p' y Hp' Hy. destruct (Z.eq_dec p' a) as [->|Hne]; [|apply (Hbefore p'); [lia|exact Hy]].
    eapply find_none; [exact E|apply list_elem_of_In, Hy].
Qed.

Lemma find_best s q c x : List.find (runnable s) (all_of q c) = Some x -> best s q c x.
Proof.
  intros (p & Hp & Hf & Hbefore)%(find_concat s (q c) 32). destruct (find_split _ _ _ Hf) as (l1 & l2 & E & Hx & Hl).
  exists p, l1, l2. split; [exact Hp|]. auto.
Qed.

Lemma find_none_runnable s q c : List.find (runnable s) (all_of q c) = None -> none_runnable s q c.
Proof.
  intros Hf p x Hp Hx. eapply find_none; [exact Hf|]. apply in_concat. exists (q c p). split; apply list_elem_of_In; [|exact Hx].
  apply list_elem_of_fmap. exists p. split; [reflexivity|]. apply elem_of_seqZ. lia.
Qed.

(** C25: A processor that needs a thread gets the first runnable one of its best
    queue that has any; when none of its threads can run it gets the best one of
    another processor, or NULL.  The thread leaves its queue and everything else
    stays where it is. *)
Theorem pick_next_thread_best nproc c locked s q :
  sched_ok s q -> on_cpu s c -> at_ (next_thread s) c = Some 0 -> nproc <= Z.of_nat (length (mlfqs s)) <= 64 ->
  exists s',
    (exists x, best s q c x /\ pick_next_thread nproc c locked s = Done x s' /\ sched_ok s' (q_del x q)) \/
    (none_runnable s q c /\
      ((pick_next_thread nproc c locked s = Done 0 s' /\ sched_ok s' q) \/
       (exists v x, v <> c /\ best s q v x /\ pick_next_thread nproc c locked s = Done x s' /\ sched_ok s' (q_del x q)))).
Proof.
  intros Hok Hc Hslot Hn. unfold pick_next_thread. rewrite (bind_done _ _ _ _ _ (get_slot_run _ _ _ Hslot)), Z.eqb_refl.
  destruct (get_next_spec s q c Hok Hc) as (s1 & E1 & Hs1 & Hok1). cbv zeta in E1, Hok1.
  assert (Hfin : forall x s2, get_next_thread nproc c locked s = Done x s2 -> next_thread s2 = next_thread s ->
    ((t ← get_next_thread nproc c locked; set_next_thread_slot c t);; get_next_thread_slot c) s = Done x (with_slot s2 c x)).
  { intros x s2 E En. rewrite <- En in Hslot. unfold mbind, SM_bind. rewrite E, (set_slot_run _ _ _ x Hslot).
    apply get_slot_run. eapply with_slot_at, Hslot. }
  unfold get_next_thread in *. destruct (List.find (runnable s) (all_of q c)) as [x|] eqn:Ef.
  - cbn [default q_taken] in *. unfold id in E1. pose proof (find_best _ _ _ _ Ef) as Hb.
    assert (Hx : x <> 0).
    { destruct (find_queued _ _ _ _ Ef) as (c' & p' & Hq). intros ->. now apply (queued_nonzero _ _ c' p' Hok). }
    exists (with_slot s1 c x). left. exists x. split; [exact Hb|]. split; [|now apply with_slot_ok].
    apply Hfin; [|apply (sm_next _ _ Hs1)]. rewrite (bind_done _ _ _ _ _ E1). now rewrite (proj2 (Z.eqb_neq x 0) Hx).
  - cbn [default q_taken] in *. pose proof (find_none_runnable _ _ _ Ef) as Hnone.
    destruct (worksteal_spec s1 q c nproc locked Hok1 (same_on_cpu _ _ _ Hs1 Hc)) as (s2 & o & E2 & Hok2 & Hk2 & Ho).
    { now rewrite (kp_mlfqs _ _ (same_kept _ _ Hs1)). }
    assert (Hr : (t ← get_next c; if t =? 0 then worksteal nproc c locked else mret t) s = Done (default 0 o) s2).
    { rewrite (bind_done _ _ _ _ _ E1). exact E2. }
    apply Hfin in Hr; [|rewrite (kp_next _ _ Hk2); apply (sm_next _ _ Hs1)]. eexists. right. split; [exact Hnone|].
    destruct o as [x|]; [change (default 0 (Some x)) with x in *; right|left; split; [exact Hr|now apply with_slot_ok]].
    destruct (Ho x eq_refl) as (v & _ & Hv & _ & Hf). exists v, x. split; [exact Hv|].
    rewrite (find_ext_same _ _ _ Hs1) in Hf. split; [now apply find_best|]. split; [exact Hr|now apply with_slot_ok].
Qed.

(** One processor with two threads of priority 0, the first blocked, and one of
    priority 3; a fourth thread is in no queue and has used up its time. *)
Definition demo_thread (st prio prev next : Z) : thread := Thread st true 0 (1 + 2 * prio) prio 0 next prev 0.
Definition demo_sched : sched :=
  Sched (<[16 := demo_thread 1 0 0 32]> (<[32 := demo_thread 0 0 16 0]> (<[48 := demo_thread 0 3 0 0]> (<[64 := Thread 0 true 63 63 31 5 0 0 (-1)]> ∅))))
    [Mlfq 0 0 true (<[0%nat := Queue 16 32]> (<[3%nat := Queue 48 48]> (replicate 32 (Queue 0 0))))] [0].
Definition demo_q : runqs := fun c p =>
  if c =? 0 then (if p =? 0 then [16; 32] else if p =? 3 then [48] else []) else [].

Lemma demo_sched_ok : sched_ok demo_sched demo_q.
Proof.
  assert (Hon : on_cpu demo_sched 0) by (eexists; split; reflexivity).
  assert (Hq : forall c p x, x ∈ demo_q c p -> c = 0 /\ ((p = 0 /\ (x = 16 \/ x = 32)) \/ (p = 3 /\ x = 48))).
  { intros c p x. unfold demo_q. destruct (c =? 0) eqn:Ec; [|now intros ?%elem_of_nil]. destruct (p =? 0) eqn:Ep; zbool.
    - rewrite !elem_of_cons, elem_of_nil. tauto.
    - destruct (p =? 3) eqn:Ep'; zbool; [rewrite !elem_of_cons, elem_of_nil; tauto|now intros ?%elem_of_nil]. }
  split.
  - intros c m [Hc Hm]%at_some. assert (c = 0) as -> by (cbn in Hc; lia). injection Hm as <-. split; [reflexivity|]. split; [cbn; lia|].
    intros p Hp. match goal with |- at_ ?l p = _ => assert (Hall : Forall (fun p => at_ l p = Some (Queue (hd_addr id 0 (demo_q 0 p)) (last_addr id 0 (demo_q 0 p)))) (seqZ 0 32))
      by (apply (bool_decide_unpack _); vm_compute; reflexivity) end.
    rewrite Forall_forall in Hall. apply Hall, list_elem_of_In, elem_of_seqZ. unfold MLFQ_NQUEUES in Hp. lia.
  - intros c p. unfold demo_q. destruct (c =? 0); [|exact I]. destruct (p =? 0); [|destruct (p =? 3); [|exact I]]; repeat split; reflexivity.
  - intros c p. unfold demo_q. destruct (c =? 0); [|constructor].
    destruct (p =? 0); [apply (bool_decide_unpack _); reflexivity|destruct (p =? 3); [apply (bool_decide_unpack _); reflexivity|constructor]].
  - intros c p x Hx. destruct (Hq c p x Hx) as [-> [[-> [-> | ->]]|[-> ->]]]; eexists _, _; repeat split; reflexivity.
  - intros x t Ht. assert (Hcase : (x = 16 /\ t = demo_thread 1 0 0 32) \/ (x = 32 /\ t = demo_thread 0 0 16 0) \/ (x = 48 /\ t = demo_thread 0 3 0 0) \/
      (x = 64 /\ t = Thread 0 true 63 63 31 5 0 0 (-1))).
    { unfold demo_sched in Ht. cbn [threads] in Ht. rewrite !lookup_insert_Some, lookup_empty in Ht.
      destruct Ht as [[<- <-]|[_ [[<- <-]|[_ [[<- <-]|[_ [[<- <-]|[_ ?]]]]]]]]; auto 10. discriminate. }
    destruct Hcase as [[-> ->]|[[-> ->]|[[-> ->]|[-> ->]]]]; (split; [discriminate|]; split; [cbn; unfold MLFQ_NQUEUES; lia|]; split; [cbn; first [right; exact Hon|left; lia]|]);
      [intros H; destruct (H 0 0)|intros H; destruct (H 0 0)|auto|auto]; cbn; rewrite !elem_of_cons; tauto.
Qed.

Lemma pick_next_thread_best_witness :
  (exists s',
    (exists x, best demo_sched demo_q 0 x /\ pick_next_thread 1 0 true demo_sched = Done x s' /\ sched_ok s' (q_del x demo_q)) \/
    (none_runnable demo_sched demo_q 0 /\
      ((pick_next_thread 1 0 true demo_sched = Done 0 s' /\ sched_ok s' demo_q) \/
       (exists v x, v <> 0 /\ best demo_sched demo_q v x /\ pick_next_thread 1 0 true demo_sched = Done x s' /\ sched_ok s' (q_del x demo_q))))) /\
  (match pick_next_thread 1 0 true demo_sched with Done x _ => x | _ => 0 end) = 32.
Proof.
  split; [|vm_compute; reflexivity].
  apply (pick_next_thread_best 1 0 true demo_sched demo_q demo_sched_ok); [eexists; split; reflexivity|reflexivity|cbn; lia].
Defined.

(** The fields that ranking a thread changes. *)
Ltac rank_cbn := cbn [priority good_streak timeslice set_priority set_good_streak set_timeslice set_cpu].

(** The feedback: a thread that comes back after it used up its time slice
    gets one priority worse, one that behaved for more than 32 + 2 * priority
    rounds one better, within the 32 queues; its time slice is 1 + 2 * priority
    ticks and it goes to the end of its queue. *)
Lemma sched_add_task_policy s q c x t :
  sched_ok s q -> threads s !! x = Some t -> on_cpu s c -> (forall c p, x ∉ q c p) -> 0 <= good_streak t < 2 ^ 30 ->
  let used := timeslice t <=? has_run t in
  let good := 2 * priority t + 32 <? good_streak t + 1 in
  let prio := if used then Z.min 31 (priority t + 1) else if good then Z.max 0 (priority t - 1) else priority t in
  let streak := if used || good then 0 else good_streak t + 1 in
  exists s' t', sched_add_task c x s = Done tt s' /\ sched_ok s' (q_upd q c prio (q c prio ++ [x])) /\ threads s' !! x = Some t' /\
    priority t' = prio /\ good_streak t' = streak /\ timeslice t' = 1 + 2 * prio /\ current_cpu t' = c.
Proof.
  intros Hok Ht Hc Hno Hg used good prio streak. destruct (so_thread _ _ Hok x t Ht) as (_ & Hp & _). unfold MLFQ_NQUEUES in Hp.
  destruct (sched_add_task_spec s q c x t Hok Ht Hc Hno) as (s' & E & Hok' & Hs). fold used in E, Hok', Hs. set (b := if used then Bad else Good) in *.
  assert (Hr : priority (ranked c b t) = prio /\ good_streak (ranked c b t) = streak /\ timeslice (ranked c b t) = 1 + 2 * prio).
  { unfold ranked, rank, b, prio, streak, good, MLFQ_NQUEUES, MLFQ_MIN_RT. destruct used; cbn [orb].
    - rank_cbn. rewrite s32_small by lia. rewrite (proj2 (Z.ltb_ge (priority t + 1) 0)) by lia. rank_cbn.
      destruct (32 <=? priority t + 1) eqn:E1; zbool; rank_cbn; rewrite ?(s32_small (_ * 2)), ?s32_small by lia; lia.
    - rank_cbn. rewrite (s32_small (good_streak t + 1)), !(s32_small (priority t * 2)), s32_small by lia.
      replace (priority t * 2 + 32) with (2 * priority t + 32) by lia. destruct (2 * priority t + 32 <? good_streak t + 1) eqn:E1; zbool.
      + rank_cbn. rewrite s32_small by lia. destruct (priority t - 1 <? 0) eqn:E2; zbool; rank_cbn.
        * rewrite (proj2 (Z.leb_gt 32 0)) by lia. rank_cbn. rewrite (s32_small (0 * 2)), s32_small by lia. lia.
        * rewrite (proj2 (Z.leb_gt 32 (priority t - 1))) by lia. rank_cbn. rewrite (s32_small (_ * 2)), s32_small by lia. lia.
      + rank_cbn. rewrite (proj2 (Z.ltb_ge (priority t) 0)) by lia. rank_cbn.
        rewrite (proj2 (Z.leb_gt 32 (priority t))) by lia. rank_cbn. rewrite (s32_small (_ * 2)), s32_small by lia. lia. }
  destruct Hr as (R1 & R2 & R3). destruct (ranked_keeps c b t) as (_ & _ & R4). rewrite R1 in Hok'.
  destruct (same_thread _ _ _ _ Hs (lookup_insert_eq _ _ _)) as (t' & Ht' & Eu).
  exists s', t'. split; [exact E|]. split; [exact Hok'|]. split; [exact Ht'|].
  pose proof (f_equal priority Eu : priority t' = priority (ranked c b t)). pose proof (f_equal good_streak Eu : good_streak t' = good_streak (ranked c b t)).
  pose proof (f_equal timeslice Eu : timeslice t' = timeslice (ranked c b t)). pose proof (f_equal current_cpu Eu : current_cpu t' = current_cpu (ranked c b t)).
  repeat split; congruence.
Qed.

Lemma sched_add_task_policy_witness :
  exists s' t', sched_add_task 0 64 demo_sched = Done tt s' /\ sched_ok s' (q_upd demo_q 0 31 (demo_q 0 31 ++ [64])) /\ threads s' !! 64 = Some t' /\
    priority t' = 31 /\ good_streak t' = 0 /\ timeslice t' = 63 /\ current_cpu t' = 0.
Proof.
  refine (sched_add_task_policy demo_sched demo_q 0 64 (Thread 0 true 63 63 31 5 0 0 (-1)) demo_sched_ok eq_refl _ _ _).
  - eexists. split; reflexivity.
  - intros c p. unfold demo_q. destruct (c =? 0); [|apply not_elem_of_nil].
    destruct (p =? 0); [|destruct (p =? 3)]; rewrite ?elem_of_cons, elem_of_nil; lia.
  - cbn. lia.
Defined.

(** ** Boosting *)

Definition first (l : list Z) : list Z := match l with [] => [] | x :: _ => [x] end.
(** The queue [p] of the boosted processor once the queues 1 to [k] are done. *)
Definition boosted_to (k p : Z) (q : Z -> list Z) : list Z :=
  (if (1 <=? p) && (p <=? k) then tail (q p) else q p) ++
  (if (1 <=? p) && (2 * p <=? k) then first (q (2 * p)) else []) ++
  (if (0 <=? p) && (2 * p + 1 <=? k) then first (q (2 * p + 1)) else []).
Definition boosted_q (c k : Z) (q : runqs) : runqs := fun c' p => if c' =? c then boosted_to k p (q c) else q c' p.

Lemma boosted_to_next k p (q : Z -> list Z) : 0 <= k ->
  boosted_to (k + 1) p q =
  (if p =? k + 1 then tail (q (k + 1)) else boosted_to k p q) ++ (if p =? Z.quot (k + 1) 2 then first (q (k + 1)) else []).
Proof.
  intros Hk. rewrite Z.quot_div_nonneg by lia. set (h := (k + 1) / 2).
  assert (Hh : k + 1 = 2 * h \/ k + 1 = 2 * h + 1) by (unfold h; zlia). clearbody h. unfold boosted_to.
  destruct (p =? k + 1) eqn:E1; zbool; [subst p|].
  - rewrite (proj2 (Z.leb_le 1 (k + 1))), (proj2 (Z.leb_le (k + 1) (k + 1))), (proj2 (Z.leb_gt (2 * (k + 1)) (k + 1))),
      (proj2 (Z.leb_gt (2 * (k + 1) + 1) (k + 1))), (proj2 (Z.eqb_neq (k + 1) h)), !andb_false_r by lia. now rewrite !app_nil_r.
  - replace ((1 <=? p) && (p <=? k + 1)) with ((1 <=? p) && (p <=? k)) by (destruct (p <=? k) eqn:?, (p <=? k + 1) eqn:?; zbool; try reflexivity; lia).
    destruct (p =? h) eqn:E2; zbool; [subst p; destruct Hh as [Hh|Hh]|].
    + rewrite (proj2 (Z.leb_le 1 h)), (proj2 (Z.leb_le (2 * h) (k + 1))), (proj2 (Z.leb_gt (2 * h) k)), (proj2 (Z.leb_gt (2 * h + 1) (k + 1))),
        (proj2 (Z.leb_gt (2 * h + 1) k)), !andb_false_r by lia. cbn [andb]. rewrite Hh, !app_nil_r. reflexivity.
    + rewrite (proj2 (Z.leb_le (2 * h) (k + 1))), (proj2 (Z.leb_le (2 * h) k)), (proj2 (Z.leb_le (2 * h + 1) (k + 1))), (proj2 (Z.leb_le 0 h)),
        (proj2 (Z.leb_gt (2 * h + 1) k)) by lia. cbn [andb]. now rewrite <- Hh, app_nil_r, <- app_assoc.
    + rewrite app_nil_r. f_equal. f_equal.
      * destruct (1 <=? p) eqn:?, (2 * p <=? k) eqn:?, (2 * p <=? k + 1) eqn:?; zbool; try reflexivity; lia.
      * destruct (0 <=? p) eqn:?, (2 * p + 1 <=? k) eqn:?, (2 * p + 1 <=? k + 1) eqn:?; zbool; try reflexivity; lia.
Qed.

Lemma boosted_step s c k q : sched_ok s (boosted_q c k q) -> 0 <= k ->
  q_eq (boost_q c (k + 1) (boosted_q c k q)) (boosted_q c (k + 1) q).
Proof.
  intros Hok Hk. assert (Er : boosted_q c k q c (k + 1) = q c (k + 1)).
  { unfold boosted_q, boosted_to. rewrite Z.eqb_refl, (proj2 (Z.leb_gt (k + 1) k)), (proj2 (Z.leb_gt (2 * (k + 1)) k)), (proj2 (Z.leb_gt (2 * (k + 1) + 1) k)) by lia.
    rewrite !andb_false_r. cbn. apply app_nil_r. }
  unfold boost_q. rewrite Er. destruct (q c (k + 1)) as [|x l] eqn:El.
  - intros c' p. destruct (Z.eq_dec c' c) as [->|Hc]; [|unfold boosted_q; now rewrite (proj2 (Z.eqb_neq c' c) Hc)].
    unfold boosted_q at 2. rewrite Z.eqb_refl, (boosted_to_next k p (q c) Hk), El. cbn [first tail].
    replace (if p =? Z.quot (k + 1) 2 then [] else []) with (@nil Z) by (now destruct (_ =? _)). rewrite app_nil_r.
    destruct (p =? k + 1) eqn:E; zbool; [now subst p|]. unfold boosted_q. now rewrite Z.eqb_refl.
  - assert (Hx : x ∈ boosted_q c k q c (k + 1)) by (rewrite Er; left).
    assert (Hdel : forall c' p, q_del x (boosted_q c k q) c' p = if (c' =? c) && (p =? k + 1) then l else boosted_q c k q c' p).
    { intros c' p. destruct ((c' =? c) && (p =? k + 1)) eqn:E; zbool.
      - subst. unfold q_del. rewrite Er. pose proof (so_nodup _ _ Hok c (k + 1)) as Hnd. rewrite Er in Hnd. apply (filter_middle x [] l), Hnd.
      - apply filter_absent. intros Hx'. destruct (queued_once _ _ _ _ _ _ _ Hok Hx Hx') as [-> ->]. now rewrite !Z.eqb_refl in E. }
    intros c' p. unfold q_push, q_upd. rewrite !Hdel. destruct (Z.eq_dec c' c) as [->|Hc].
    2: { rewrite !(proj2 (Z.eqb_neq c' c) Hc). cbn [andb]. unfold boosted_q. now rewrite (proj2 (Z.eqb_neq c' c) Hc). }
    rewrite Z.eqb_refl. cbn [andb]. unfold boosted_q at 3. rewrite Z.eqb_refl, (boosted_to_next k p (q c) Hk), El. cbn [first tail].
    assert (Eb : forall p, boosted_q c k q c p = boosted_to k p (q c)) by (intros; unfold boosted_q; now rewrite Z.eqb_refl).
    rewrite !Eb. destruct (p =? Z.quot (k + 1) 2) eqn:E; zbool; [now subst p|]. now rewrite app_nil_r.
Qed.

Lemma boost_from_app c ps ps' s s1 : boost_from c ps s = Done tt s1 -> boost_from c (ps ++ ps') s = boost_from c ps' s1.
Proof.
  revert s. induction ps as [|p ps IH]; intros s; cbn [app boost_from]; [now intros [= ->]|]. unfold mbind, SM_bind.
  destruct (boost_queue c p s) as [[] s2| |]; [apply IH|discriminate..].
Qed.

Lemma boost_prefix s q c k : sched_ok s q -> on_cpu s c -> (k <= 31)%nat ->
  exists s', boost_from c (seqZ 1 (Z.of_nat k)) s = Done tt s' /\ sched_ok s' (boosted_q c (Z.of_nat k) q) /\ kept s s'.
Proof.
  intros Hok Hc. induction k as [|k IH]; intros Hk.
  - exists s. split; [reflexivity|]. split; [|apply kept_refl].
    assert (E : q_eq (boosted_q c 0 q) q); [|cbn; now rewrite E]. intros c' p. unfold boosted_q, boosted_to. destruct (c' =? c) eqn:E; zbool; [subst|reflexivity].
    destruct (1 <=? p) eqn:E1, (p <=? 0) eqn:E2, (2 * p <=? 0) eqn:E3, (0 <=? p) eqn:E4, (2 * p + 1 <=? 0) eqn:E5; zbool; cbn [andb app]; try lia; apply app_nil_r.
  - destruct IH as (s1 & E1 & Hok1 & Hk1); [lia|]. rewrite Nat2Z.inj_succ. unfold Z.succ.
    destruct (boost_queue_spec s1 _ c (Z.of_nat k + 1) Hok1 (kp_cpu _ _ Hk1 _ Hc)) as (s2 & E2 & Hok2 & Hs2); [unfold MLFQ_NQUEUES; lia|].
    exists s2. split; [|split].
    + rewrite seqZ_app by lia. rewrite (boost_from_app _ _ _ _ _ E1). replace (1 + Z.of_nat k) with (Z.of_nat k + 1) by lia.
      change (seqZ (Z.of_nat k + 1) 1) with [Z.of_nat 0 + (Z.of_nat k + 1)]. cbn [boost_from]. rewrite Z.add_0_l. unfold mbind, SM_bind. now rewrite E2.
    + now rewrite <- (boosted_step s1) by (auto; lia).
    + eapply kept_trans; [exact Hk1|]. eapply kept_trans; [|apply same_kept, Hs2]. unfold boost_t.
      destruct (boosted_q c (Z.of_nat k) q c (Z.of_nat k + 1)); [rewrite with_threads_id; apply kept_refl|apply kept_alter].
Qed.

(** What boost does: of every queue but the best only the first thread moves
    up, to the end of the queue of half its priority; all others stay behind, in
    their order.  (The loop follows the thread's own link, which the move has
    just cleared.) *)
Lemma boost_moves_first s q c :
  sched_ok s q -> on_cpu s c ->
  exists s', boost c s = Done tt s' /\ exists q', sched_ok s' q' /\
    (forall c' p, c' <> c -> q' c' p = q c' p) /\
    q' c 0 = q c 0 ++ first (q c 1) /\
    (forall p, 1 <= p < 16 -> q' c p = tail (q c p) ++ first (q c (2 * p)) ++ first (q c (2 * p + 1))) /\
    (forall p, 16 <= p < 32 -> q' c p = tail (q c p)).
Proof.
  intros Hok Hc. destruct (boost_prefix s q c 31 Hok Hc ltac:(lia)) as (s' & E & Hok' & _). exists s'. split; [exact E|].
  exists (boosted_q c 31 q). split; [exact Hok'|]. unfold boosted_q. split; [|rewrite Z.eqb_refl; split; [reflexivity|split]].
  - intros c' p Hne. now rewrite (proj2 (Z.eqb_neq c' c) Hne).
  - intros p Hp. unfold boosted_to. now rewrite (proj2 (Z.leb_le 1 p)), (proj2 (Z.leb_le p 31)), (proj2 (Z.leb_le (2 * p) 31)),
      (proj2 (Z.leb_le 0 p)), (proj2 (Z.leb_le (2 * p + 1) 31)) by lia.
  - intros p Hp. unfold boosted_to. rewrite (proj2 (Z.leb_le 1 p)), (proj2 (Z.leb_le p 31)), (proj2 (Z.leb_gt (2 * p) 31)),
      (proj2 (Z.leb_gt (2 * p + 1) 31)), !andb_false_r by lia. cbn. apply app_nil_r.
Qed.

Lemma boost_moves_first_witness :
  exists s', boost 0 demo_sched = Done tt s' /\ exists q', sched_ok s' q' /\
    (forall c' p, c' <> 0 -> q' c' p = demo_q c' p) /\
    q' 0 0 = demo_q 0 0 ++ first (demo_q 0 1) /\
    (forall p, 1 <= p < 16 -> q' 0 p = tail (demo_q 0 p) ++ first (demo_q 0 (2 * p)) ++ first (demo_q 0 (2 * p + 1))) /\
    (forall p, 16 <= p < 32 -> q' 0 p = tail (demo_q 0 p)).
Proof. apply (boost_moves_first demo_sched demo_q 0 demo_sched_ok). eexists. split; reflexivity. Defined.
