(* ===== verification/Phys.v ===== *)
(** * kernel/phys.cpp: the physical page allocator

    Free memory is a chain of blocks; the first bytes of a block hold its header.
    Addresses are physical ones ([p2v] and [v2p] only set and clear the kernel's
    high bits).  [frames] is what the first bytes of a page hold, header or not.
    A panic, and a header read where there is no memory, is [Fail]. *)

From S2P Require Import Prelude CMem State Dll.

Definition PGSIZE : Z := 4096.
Definition PGROUNDUP (x : Z) : Z := Z.land (u64 (x + 4096 - 1)) (Z.lnot (4096 - 1)).

Record frame := Frame { next : Z; page_len : Z }.
Record kmem := Kmem { frames : gmap Z frame; freelist : Z; nfree : Z; max_free : Z }.

Abbreviation P := (SM kmem).

Definition set_frames (f : gmap Z frame -> gmap Z frame) (s : kmem) : kmem := Kmem (f (frames s)) (freelist s) (nfree s) (max_free s).
Definition set_freelist (x : Z) (s : kmem) : kmem := Kmem (frames s) x (nfree s) (max_free s).
Definition set_nfree (x : Z) (s : kmem) : kmem := Kmem (frames s) (freelist s) x (max_free s).
Definition set_max_free (x : Z) (s : kmem) : kmem := Kmem (frames s) (freelist s) (nfree s) x.

Definition get_frame (a : Z) : P frame := sopt (fun s => frames s !! a).
Definition put_frame (a : Z) (f : frame) : P unit := modify (set_frames <[a := f]>).
Definition set_next (a x : Z) : P unit := f ← get_frame a; put_frame a (Frame x (page_len f)).
Definition set_page_len (a x : Z) : P unit := f ← get_frame a; put_frame a (Frame (next f) x).
Definition panic {A} : P A := sfail.

(** [memset] of whole pages. *)
Definition zero_pages (a n : Z) : P unit :=
  modify (set_frames (map_imap (fun x f => Some (if (a <=? x) && (x <? a + n * PGSIZE) then Frame 0 0 else f)))).

Definition bytes_free (s : kmem) : Z := u64 (Z.shiftl (nfree s) 12).

(** The walk to the first block that is large enough: the block before it and
    the block, 0 when there is none. *)
Definition find_fit (npages : Z) (c : Z) : P (Z * Z) :=
  fuel ← gets (fun s => S (S (size (frames s))));
  sloop fuel (fun '(p, c) =>
    if c =? 0 then mret (Break (p, c))
    else f ← get_frame c; if npages <=? page_len f then mret (Break (p, c)) else mret (Next (c, next f))) (0, c).

Definition late_phys_alloc (npages : Z) : P Z :=
  c ← gets freelist;
  if c =? 0 then panic
  else
    '(p, c) ← find_fit npages c;
    f ← get_frame c;
    a ← (if page_len f =? npages then
           (if p =? 0 then modify (set_freelist (next f)) else set_next p (next f));;
           mret c
         else
           set_page_len c (u64 (page_len f - npages));;
           f ← get_frame c;
           mret (u64 (c + u64 (page_len f * PGSIZE))));
    zero_pages a npages;;
    modify (fun s => set_nfree (u64 (nfree s - npages)) s);;
    mret a.

(** The block before the place of [r]. *)
Definition find_place (r prev : Z) : P Z :=
  fuel ← gets (fun s => S (size (frames s)));
  sloop fuel (fun prev =>
    f ← get_frame prev;
    if next f =? 0 then mret (Break prev)
    else if r <? next f then mret (Break prev)
    else mret (Next (next f))) prev.

(** Blocks that meet are joined. *)
Definition patch_up : P unit :=
  f ← gets freelist;
  fuel ← gets (fun s => S (size (frames s)));
  sloop fuel (fun f =>
    if f =? 0 then mret (Break tt)
    else
      fr ← get_frame f;
      if next fr =? 0 then mret (Break tt)
      else
        let succ := next fr in
        let after := u64 (f + u64 (page_len fr * PGSIZE)) in
        (if next fr =? after then
           sf ← get_frame succ;
           set_page_len f (u64 (page_len fr + page_len sf));;
           set_next f (next sf)
         else mret tt);;
        fr ← get_frame f;
        mret (if next fr =? 0 then Break tt else Next (next fr))) f.

Definition count_free (len : Z) : P unit :=
  modify (fun s => set_nfree (u64 (nfree s + len)) s);;
  modify (fun s => if max_free s <? nfree s then set_max_free (nfree s) s else s).

Definition free (v len : Z) : P unit :=
  if negb (v mod PGSIZE =? 0) then panic
  else
    let r := v in
    put_frame r (Frame 0 (u64 len));;
    prev ← gets freelist;
    (if prev =? 0 then
       fl ← gets freelist;
       set_next r fl;;
       modify (set_freelist r)
     else
       prev ← find_place r prev;
       f ← get_frame prev;
       set_next r (next f);;
       set_next prev r);;
    patch_up;;
    count_free (u64 len).

(** [block::reclaim_memory] gives back the pages [reclaimed]. *)
Fixpoint reclaim_memory (reclaimed : list (Z * Z)) : P unit :=
  match reclaimed with
  | [] => mret tt
  | (v, len) :: rest => free v len;; reclaim_memory rest
  end.

Definition alloc (reclaimed : list (Z * Z)) (npages : Z) : P Z :=
  n ← gets nfree;
  (if n <? 32 then reclaim_memory reclaimed else mret tt);;
  late_phys_alloc (u64 npages).

Definition free_range (vstart vend : Z) : P unit :=
  let fr := PGROUNDUP vstart in
  let start_pn := Z.shiftr (PGROUNDUP vstart) 12 in
  let end_pn := Z.shiftr (PGROUNDUP vend) 12 in
  let pl := u64 (end_pn - start_pn) in
  if pl <=? 0 then panic
  else
    f ← gets (fun s => default (Frame 0 0) (frames s !! fr));
    put_frame fr (Frame (next f) pl);;
    fl ← gets freelist;
    (if fl =? 0 then
       set_next fr fl;;
       modify (set_freelist fr)
     else
       h ← get_frame fl;
       set_next fr (next h);;
       set_next fl fr);;
    f ← get_frame fr;
    count_free (page_len f).
