(* ===== verification/PhysProps.v ===== *)
(** * The physical page allocator: proofs

    The free blocks as a list of addresses and lengths.  [cover] counts the
    blocks an address is in: no page is free twice, and pages are neither lost
    nor made, because every operation keeps the count. *)

From S2P Require Import Prelude CMem State Dll Phys.

(** ** Blocks *)

Abbreviation block := (Z * Z)%type.
Definition in_block (b : block) (x : Z) : bool := (fst b <=? x) && (x <? fst b + snd b * PGSIZE).
Fixpoint cover (bs : list block) (x : Z) : Z :=
  match bs with [] => 0 | b :: bs => b2z (in_block b x) + cover bs x end.
Fixpoint total (bs : list block) : Z := match bs with [] => 0 | b :: bs => snd b + total bs end.

Definition block_ok (b : block) : Prop := 0 < fst b /\ fst b mod PGSIZE = 0 /\ 0 < snd b /\ fst b + snd b * PGSIZE <= 2 ^ 60.
(** No address is in two blocks. *)
Definition apart (bs : list block) : Prop := forall x, cover bs x <= 1.

Lemma b2z_range b : 0 <= b2z b <= 1.
Proof. destruct b; cbn; lia. Qed.

Lemma cover_nonneg bs x : 0 <= cover bs x.
Proof. induction bs as [|b bs IH]; cbn; [lia|]. pose proof (b2z_range (in_block b x)). lia. Qed.

Lemma cover_app bs bs' x : cover (bs ++ bs') x = cover bs x + cover bs' x.
Proof. induction bs as [|b bs IH]; cbn; [reflexivity|]. lia. Qed.

Lemma total_app bs bs' : total (bs ++ bs') = total bs + total bs'.
Proof. induction bs as [|b bs IH]; cbn; [reflexivity|]. lia. Qed.

#[export] Instance cover_perm : Proper (Permutation ==> eq ==> eq) cover.
Proof. intros bs bs' H x ? <-. induction H; cbn; lia. Qed.

#[export] Instance total_perm : Proper (Permutation ==> eq) total.
Proof. intros bs bs' H. induction H; cbn; lia. Qed.

Lemma in_block_true b x : in_block b x = true <-> fst b <= x < fst b + snd b * PGSIZE.
Proof. unfold in_block. rewrite andb_true_iff, Z.leb_le, Z.ltb_lt. tauto. Qed.

Lemma in_block_start b : block_ok b -> in_block b (fst b) = true.
Proof. intros (_ & _ & H & _). apply in_block_true. unfold PGSIZE. lia. Qed.

(** Two blocks that meet are one. *)
Lemma in_block_join a n m x : 0 <= n -> 0 <= m -> b2z (in_block (a, n) x) + b2z (in_block (a + n * PGSIZE, m) x) = b2z (in_block (a, n + m) x).
Proof.
  intros Hn Hm. unfold in_block, PGSIZE. cbn [fst snd].
  destruct (a <=? x) eqn:E1, (x <? a + n * 4096) eqn:E2, (a + n * 4096 <=? x) eqn:E3, (x <? a + n * 4096 + m * 4096) eqn:E4, (x <? a + (n + m) * 4096) eqn:E5; zbool; cbn; lia.
Qed.

(** A block keeps its distance from the others. *)
Lemma apart_other pre b post x : apart (pre ++ b :: post) -> in_block b x = true -> cover (pre ++ post) x = 0.
Proof.
  intros H Hb. specialize (H x). rewrite cover_app in H. cbn in H. rewrite Hb in H. cbn in H. rewrite cover_app.
  pose proof (cover_nonneg pre x). pose proof (cover_nonneg post x). lia.
Qed.

Lemma cover_zero_in bs b x : cover bs x = 0 -> b ∈ bs -> in_block b x = false.
Proof.
  induction bs as [|c bs IH]; [intros _ H; inversion H|]. cbn. intros H. pose proof (cover_nonneg bs x). pose proof (b2z_range (in_block c x)).
  intros [->|Hb]%elem_of_cons; [destruct (in_block c x); cbn in *; [lia|reflexivity]|]. apply IH; [lia|exact Hb].
Qed.

Lemma blocks_apart_addr pre b post c : Forall block_ok (pre ++ b :: post) -> apart (pre ++ b :: post) -> c ∈ pre ++ post -> in_block b (fst c) = false.
Proof.
  intros Hok Ha Hc. destruct (in_block b (fst c)) eqn:E; [|reflexivity]. exfalso.
  pose proof (cover_zero_in _ c _ (apart_other _ _ _ _ Ha E) Hc) as H.
  rewrite in_block_start in H; [discriminate|]. rewrite Forall_forall in Hok. apply Hok, list_elem_of_In.
  rewrite elem_of_app, elem_of_cons. apply elem_of_app in Hc. tauto.
Qed.

Lemma apart_ne pre b post c : Forall block_ok (pre ++ b :: post) -> apart (pre ++ b :: post) -> c ∈ pre ++ post -> fst c <> fst b.
Proof.
  intros Hok Ha Hc E. pose proof (blocks_apart_addr _ _ _ _ Hok Ha Hc) as H. rewrite E, in_block_start in H; [discriminate|].
  apply Forall_app in Hok as [_ Hok]. now inversion Hok.
Qed.

Lemma apart_app_l bs bs' : apart (bs ++ bs') -> apart bs.
Proof. intros H x. specialize (H x). rewrite cover_app in H. pose proof (cover_nonneg bs' x). lia. Qed.

Lemma apart_app_r bs bs' : apart (bs ++ bs') -> apart bs'.
Proof. intros H x. specialize (H x). rewrite cover_app in H. pose proof (cover_nonneg bs x). lia. Qed.

Lemma apart_NoDup bs : Forall block_ok bs -> apart bs -> NoDup (fst <$> bs).
Proof.
  induction bs as [|b bs IH]; intros Hok Ha; cbn; [constructor|]. constructor.
  - intros (c & E & Hc)%list_elem_of_fmap. apply (apart_ne [] b bs c Hok Ha Hc). auto.
  - apply IH; [now inversion Hok|]. now apply (apart_app_r [b]).
Qed.

(** ** The invariant *)

Definition cell (p n : Z) (b : block) : frame := Frame n (snd b).
Abbreviation blocks_at T bs n := (dseg cell fst T 0 bs n).

Record phys_ok (s : kmem) (bs : list block) : Prop := {
  po_chain : blocks_at (frames s) bs 0;
  po_head : freelist s = hd_addr fst 0 bs;
  po_blocks : Forall block_ok bs;
  po_apart : apart bs;
  po_nfree : nfree s = total bs;
  po_total : total bs < 2 ^ 60;
  po_max : nfree s <= max_free s }.

(** Back links do not matter. *)
Lemma blocks_at_prev T p p' bs n : dseg cell fst T p bs n -> dseg cell fst T p' bs n.
Proof. destruct bs; [auto|]. cbn. auto. Qed.

Lemma blocks_at_app T bs bs' n : blocks_at T (bs ++ bs') n <-> blocks_at T bs (hd_addr fst n bs') /\ blocks_at T bs' n.
Proof. rewrite dseg_app. split; intros [H1 H2]; (split; [exact H1|eapply blocks_at_prev, H2]). Qed.

Lemma blocks_at_cons T b bs n : blocks_at T (b :: bs) n <-> T !! fst b = Some (Frame (hd_addr fst n bs) (snd b)) /\ blocks_at T bs n.
Proof. cbn. split; intros [H1 H2]; (split; [exact H1|eapply blocks_at_prev, H2]). Qed.

Lemma block_in pre (b : block) post : b ∈ pre ++ b :: post.
Proof. rewrite elem_of_app, elem_of_cons. auto. Qed.

Lemma frame_of s bs pre b post : phys_ok s bs -> bs = pre ++ b :: post -> frames s !! fst b = Some (Frame (hd_addr fst 0 post) (snd b)).
Proof. intros Hs ->. pose proof (po_chain _ _ Hs) as H. apply blocks_at_app in H as [_ H]. now apply blocks_at_cons in H as [H _]. Qed.

Lemma total_nonneg bs : Forall block_ok bs -> 0 <= total bs.
Proof. induction 1 as [|b bs (_ & _ & Hn & _) _ IH]; cbn; lia. Qed.

Lemma total_ge pre b post : Forall block_ok (pre ++ b :: post) -> 0 < snd b <= total (pre ++ b :: post).
Proof.
  intros [H1 H2]%Forall_app. inversion H2 as [|? ? (_ & _ & Hn & _) H3]; subst. rewrite total_app. cbn.
  pose proof (total_nonneg _ H1). pose proof (total_nonneg _ H3). lia.
Qed.

Lemma chain_fuel s bs : phys_ok s bs -> (length bs <= size (frames s))%nat.
Proof. intros Hs. eapply dseg_size; [apply (po_chain _ _ Hs)|]. apply apart_NoDup; apply Hs. Qed.

Lemma swp_get_frame s a f (Q : frame -> kmem -> Prop) : frames s !! a = Some f -> Q f s -> swp (get_frame a) Q s.
Proof. intros E. apply swp_sopt, E. Qed.

Lemma swp_set_next s a x f (Q : unit -> kmem -> Prop) :
  frames s !! a = Some f -> Q tt (set_frames <[a := Frame x (page_len f)]> s) -> swp (set_next a x) Q s.
Proof. intros E HQ. apply swp_bind. eapply swp_get_frame; [exact E|]. exact HQ. Qed.

Lemma swp_set_page_len s a x f (Q : unit -> kmem -> Prop) :
  frames s !! a = Some f -> Q tt (set_frames <[a := Frame (next f) x]> s) -> swp (set_page_len a x) Q s.
Proof. intros E HQ. apply swp_bind. eapply swp_get_frame; [exact E|]. exact HQ. Qed.

(** ** alloc *)

(** First fit. *)
Lemma find_fit_spec s bs pre b post n : phys_ok s bs -> bs = pre ++ b :: post -> Forall (fun c => snd c < n) pre -> n <= snd b ->
  find_fit n (hd_addr fst 0 bs) s = Done (last_addr fst 0 pre, fst b) s.
Proof.
  intros Hs E Hpre Hb. apply swp_eq. unfold find_fit. apply swp_bind, swp_gets.
  assert (Hloop : forall todo d fuel, (length todo < fuel)%nat -> pre = d ++ todo ->
    swp (sloop fuel (fun '(p, c) => if c =? 0 then mret (Break (p, c))
      else f ← get_frame c; if n <=? page_len f then mret (Break (p, c)) else mret (Next (c, next f))) (last_addr fst 0 d, hd_addr fst 0 (todo ++ b :: post)))
      (fun x y => x = (last_addr fst 0 pre, fst b) /\ y = s) s).
  { assert (Hnz : forall c, c ∈ bs -> fst c <> 0).
    { intros c Hc. pose proof (po_blocks _ _ Hs) as Hok. rewrite Forall_forall in Hok. destruct (Hok c) as [? _]; [now apply list_elem_of_In|lia]. }
    induction todo as [|t todo IH]; intros d [|fuel] Hf Ed; cbn in Hf; try lia; cbn [sloop app].
    - rewrite app_nil_r in Ed. subst d. change (hd_addr fst 0 (b :: post)) with (fst b).
      rewrite (proj2 (Z.eqb_neq (fst b) 0)) by (apply Hnz; rewrite E; apply block_in). apply swp_bind, swp_bind.
      eapply swp_get_frame; [eapply frame_of; eauto|]. cbn [page_len]. rewrite (proj2 (Z.leb_le n (snd b)) Hb). apply swp_ret, swp_ret. auto.
    - change (hd_addr fst 0 (t :: todo ++ b :: post)) with (fst t). assert (Et : bs = d ++ t :: (todo ++ b :: post)) by (rewrite E, Ed, <- app_assoc; reflexivity).
      rewrite (proj2 (Z.eqb_neq (fst t) 0)) by (apply Hnz; rewrite Et; apply block_in). apply swp_bind, swp_bind.
      eapply swp_get_frame; [eapply frame_of; eauto|]. cbn [page_len next].
      assert (Ht : snd t < n) by (rewrite Forall_forall in Hpre; apply Hpre, list_elem_of_In; rewrite Ed; apply block_in).
      rewrite (proj2 (Z.leb_gt n (snd t)) Ht). apply swp_ret. cbn [next].
      replace (fst t) with (last_addr fst 0 (d ++ [t])) by (now rewrite last_addr_app).
      apply IH; [lia|]. now rewrite <- app_assoc. }
  rewrite E at 1. apply (Hloop pre [] _); [|reflexivity]. pose proof (chain_fuel _ _ Hs) as Hl. rewrite E, length_app in Hl. cbn in Hl. lia.
Qed.

(** When no block is large enough the walk ends at NULL. *)
Lemma find_fit_miss s bs n : phys_ok s bs -> Forall (fun c => snd c < n) bs ->
  find_fit n (hd_addr fst 0 bs) s = Done (last_addr fst 0 bs, 0) s.
Proof.
  intros Hs Hall. apply swp_eq. unfold find_fit. apply swp_bind, swp_gets.
  assert (Hloop : forall todo d fuel, (length todo < fuel)%nat -> bs = d ++ todo ->
    swp (sloop fuel (fun '(p, c) => if c =? 0 then mret (Break (p, c))
      else f ← get_frame c; if n <=? page_len f then mret (Break (p, c)) else mret (Next (c, next f))) (last_addr fst 0 d, hd_addr fst 0 todo))
      (fun x y => x = (last_addr fst 0 bs, 0) /\ y = s) s).
  { induction todo as [|t todo IH]; intros d [|fuel] Hf Ed; cbn in Hf; try lia; cbn [sloop].
    - rewrite app_nil_r in Ed. subst d. cbn [hd_addr]. rewrite Z.eqb_refl. now apply swp_bind, swp_ret, swp_ret.
    - change (hd_addr fst 0 (t :: todo)) with (fst t). pose proof (po_blocks _ _ Hs) as Hok. rewrite Ed in Hok, Hall.
      apply Forall_app in Hok as [_ Hok]. apply Forall_app in Hall as [_ Hall]. pose proof (Forall_inv Hok) as (Ht0 & _). pose proof (Forall_inv Hall) as Ht.
      cbv beta in Ht. rewrite (proj2 (Z.eqb_neq (fst t) 0)) by lia. apply swp_bind, swp_bind.
      eapply swp_get_frame; [eapply frame_of; eauto|]. cbn [page_len next]. rewrite (proj2 (Z.leb_gt n (snd t)) Ht). apply swp_ret. cbn [next].
      replace (fst t) with (last_addr fst 0 (d ++ [t])) by (now rewrite last_addr_app). apply IH; [lia|]. now rewrite <- app_assoc. }
  apply (Hloop bs [] _); [|reflexivity]. pose proof (chain_fuel _ _ Hs). lia.
Qed.

Definition zeroed (a n : Z) (T : gmap Z frame) : gmap Z frame :=
  map_imap (fun x f => Some (if (a <=? x) && (x <? a + n * PGSIZE) then Frame 0 0 else f)) T.

Lemma blocks_at_ext T T' bs n : (forall c, c ∈ bs -> T' !! fst c = T !! fst c) -> blocks_at T bs n -> blocks_at T' bs n.
Proof. apply dseg_ext. Qed.

Lemma blocks_at_insert T bs n a f : (forall c, c ∈ bs -> fst c <> a) -> blocks_at T bs n -> blocks_at (<[a := f]> T) bs n.
Proof. intros H. apply blocks_at_ext. intros c Hc. apply lookup_insert_ne. intros E. now apply (H c Hc). Qed.

Lemma blocks_at_zeroed T bs n a k : (forall c, c ∈ bs -> in_block (a, k) (fst c) = false) -> blocks_at T bs n -> blocks_at (zeroed a k T) bs n.
Proof.
  intros H. apply blocks_at_ext. intros c Hc. unfold zeroed. rewrite map_lookup_imap. specialize (H c Hc). unfold in_block in H. cbn [fst snd] in H.
  rewrite H. now destruct (T !! fst c).
Qed.

(** A block leaves the chain. *)
Lemma blocks_unlink T pre b post : Forall block_ok (pre ++ b :: post) -> apart (pre ++ b :: post) -> blocks_at T (pre ++ b :: post) 0 ->
  (pre = [] /\ blocks_at T post 0) \/
  (exists d l, pre = d ++ [l] /\ T !! fst l = Some (Frame (fst b) (snd l)) /\ blocks_at (<[fst l := Frame (hd_addr fst 0 post) (snd l)]> T) (pre ++ post) 0).
Proof.
  intros Hok Ha Hc. pose proof Hc as [Hpre [_ Hpost]%blocks_at_cons]%blocks_at_app.
  destruct pre as [|l d _] using rev_ind; [auto|]. right. exists d, l. split; [reflexivity|].
  pose proof Hpre as [Hd Hl]%blocks_at_app. apply blocks_at_cons in Hl as [Hl _]. split; [exact Hl|]. rewrite <- !app_assoc in *. cbn [app] in *.
  assert (Hne : forall c, c ∈ d ++ b :: post -> fst c <> fst l) by (intros c Hc'; apply (apart_ne d l (b :: post)); assumption).
  apply blocks_at_app. split; [|apply blocks_at_cons; split; [apply lookup_insert_eq|]].
  - apply blocks_at_insert; [|exact Hd]. intros c Hc'. apply Hne, elem_of_app. auto.
  - apply blocks_at_insert; [|exact Hpost]. intros c Hc'. apply Hne. rewrite elem_of_app, elem_of_cons. auto.
Qed.

(** A block gets shorter. *)
Lemma blocks_shrink T pre b post n : Forall block_ok (pre ++ b :: post) -> apart (pre ++ b :: post) -> blocks_at T (pre ++ b :: post) 0 ->
  blocks_at (<[fst b := Frame (hd_addr fst 0 post) n]> T) (pre ++ (fst b, n) :: post) 0.
Proof.
  intros Hok Ha [Hpre [_ Hpost]%blocks_at_cons]%blocks_at_app.
  assert (Hne : forall c, c ∈ pre ++ post -> fst c <> fst b) by (intros c; now apply apart_ne).
  apply blocks_at_app. split; [|apply blocks_at_cons; split; [apply lookup_insert_eq|]].
  - apply blocks_at_insert; [|exact Hpre]. intros c Hc. apply Hne, elem_of_app. auto.
  - apply blocks_at_insert; [|exact Hpost]. intros c Hc. apply Hne, elem_of_app. auto.
Qed.

(** The list of free blocks without the [n] pages at the end of [b]. *)
Definition carve (pre : list block) (b : block) (post : list block) (n : Z) : list block :=
  if snd b =? n then pre ++ post else pre ++ (fst b, snd b - n) :: post.
Definition carved (b : block) (n : Z) : block := (fst b + (snd b - n) * PGSIZE, n).

Lemma carve_cover pre b post n x : block_ok b -> 0 < n <= snd b ->
  cover (carve pre b post n) x + b2z (in_block (carved b n) x) = cover (pre ++ b :: post) x.
Proof.
  intros Hb Hn. unfold carve, carved. destruct b as [a l]. cbn [fst snd] in *. pose proof (in_block_join a (l - n) n x ltac:(lia) ltac:(lia)) as H.
  replace (l - n + n) with l in H by lia. destruct (l =? n) eqn:E; zbool; rewrite !cover_app; cbn [cover].
  - subst n. rewrite <- H. replace (in_block (a, l - l) x) with false; [cbn; lia|]. symmetry. apply not_true_iff_false. rewrite in_block_true. cbn. unfold PGSIZE. lia.
  - lia.
Qed.

Lemma carve_total pre b post n : total (carve pre b post n) + n = total (pre ++ b :: post).
Proof. unfold carve. destruct (snd b =? n) eqn:E; zbool; rewrite !total_app; cbn [total snd]; lia. Qed.

Lemma carved_ok b n : block_ok b -> 0 < n <= snd b -> block_ok (carved b n).
Proof.
  intros (H1 & H2 & H3 & H4) Hn. unfold block_ok, carved, PGSIZE in *. cbn [fst snd]. split; [lia|]. split; [|lia].
  rewrite Z_mod_plus_full. exact H2.
Qed.

Lemma carve_ok pre b post n : Forall block_ok (pre ++ b :: post) -> 0 < n <= snd b -> Forall block_ok (carve pre b post n).
Proof.
  intros [H1 H2]%Forall_app Hn. inversion H2 as [|? ? (B1 & B2 & B3 & B4) H3]; subst. unfold carve. destruct (snd b =? n) eqn:E; zbool; apply Forall_app; split; auto.
  constructor; [|exact H3]. unfold block_ok, PGSIZE in *. cbn [fst snd]. lia.
Qed.

(** The step of [late_phys_alloc] that takes the pages. *)
Lemma take_pages s bs pre b post n : phys_ok s bs -> bs = pre ++ b :: post -> 0 < n <= snd b ->
  exists s1, (if snd b =? n then
      (if last_addr fst 0 pre =? 0 then modify (set_freelist (hd_addr fst 0 post)) else set_next (last_addr fst 0 pre) (hd_addr fst 0 post));; mret (fst b)
    else set_page_len (fst b) (u64 (snd b - n));; f ← get_frame (fst b); mret (u64 (fst b + u64 (page_len f * PGSIZE)))) s = Done (fst (carved b n)) s1 /\
    blocks_at (frames s1) (carve pre b post n) 0 /\ freelist s1 = hd_addr fst 0 (carve pre b post n) /\ nfree s1 = nfree s /\ max_free s1 = max_free s.
Proof.
  intros Hs -> Hn. pose proof Hs as [H1 H2 H3 H4 _ _ _]. pose proof H3 as [_ Hb]%Forall_app. inversion Hb as [|? ? (B1 & B2 & B3 & B4) _]; subst.
  unfold carve, carved. destruct (snd b =? n) eqn:E; zbool.
  - replace (fst b + (snd b - n) * PGSIZE) with (fst b) by lia. cbn [fst]. destruct (blocks_unlink _ _ _ _ H3 H4 H1) as [[-> Hc]|(d & l & -> & Hl & Hc)].
    + exists (set_freelist (hd_addr fst 0 post) s). cbn. auto.
    + rewrite last_addr_app. cbn [last_addr]. assert (Hl0 : fst l <> 0).
      { rewrite <- app_assoc in H3. apply Forall_app in H3 as [_ H3]. inversion H3 as [|? ? (L1 & _) _]; subst. lia. }
      rewrite (proj2 (Z.eqb_neq (fst l) 0) Hl0). exists (set_frames <[fst l := Frame (hd_addr fst 0 post) (snd l)]> s). split; [|split; [exact Hc|]].
      * apply swp_eq, swp_bind. eapply swp_set_next; [exact Hl|]. apply swp_ret. auto.
      * cbn. rewrite H2. split; [|auto]. rewrite <- !app_assoc. cbn [app]. rewrite !hd_addr_app. now destruct d.
  - exists (set_frames <[fst b := Frame (hd_addr fst 0 post) (snd b - n)]> s). split; [|split; [exact (blocks_shrink _ _ _ _ (snd b - n) H3 H4 H1)|]].
    + apply swp_eq, swp_bind. eapply swp_set_page_len; [eapply frame_of; eauto|]. apply swp_bind. eapply swp_get_frame; [apply lookup_insert_eq|].
      cbn [next page_len]. unfold PGSIZE in *. rewrite (u64_small (snd b - n)), (u64_small ((snd b - n) * 4096)), u64_small by lia. apply swp_ret. auto.
    + cbn. rewrite H2. split; [|auto]. rewrite !hd_addr_app. reflexivity.
Qed.

Lemma late_phys_alloc_spec s bs pre b post n : phys_ok s bs -> bs = pre ++ b :: post -> Forall (fun c => snd c < n) pre -> 0 < n <= snd b ->
  exists s', late_phys_alloc n s = Done (fst (carved b n)) s' /\ phys_ok s' (carve pre b post n) /\
    forall x f, in_block (carved b n) x = true -> frames s' !! x = Some f -> f = Frame 0 0.
Proof.
  intros Hs E Hpre Hn. pose proof Hs as [H1 H2 H3 H4 H5 H6 H7]. destruct (take_pages s bs pre b post n Hs E Hn) as (s1 & E1 & Hc & Hf & Hnf & Hmf).
  assert (Hb : block_ok b) by (subst bs; apply Forall_app in H3 as [_ H3]; now inversion H3).
  assert (Hcov : forall x, cover (carve pre b post n) x + b2z (in_block (carved b n) x) = cover bs x) by (intros x; subst bs; now apply carve_cover).
  assert (Hok : Forall block_ok (carve pre b post n)) by (subst bs; now apply carve_ok).
  assert (Htot : total (carve pre b post n) + n = total bs) by (subst bs; apply carve_total).
  pose proof (total_nonneg _ Hok) as Hpos. exists (set_nfree (u64 (nfree s - n)) (set_frames (zeroed (fst (carved b n)) n) s1)). split.
  - apply swp_eq. unfold late_phys_alloc. apply swp_bind, swp_gets.
    assert (Hh : freelist s <> 0).
    { rewrite H2, E, hd_addr_app. destruct pre as [|c pre]; cbn; [destruct Hb; lia|]. subst bs. inversion H3 as [|? ? (C1 & _) _]; subst. lia. }
    rewrite (proj2 (Z.eqb_neq _ 0) Hh), H2. apply swp_bind. eapply swp_run; [eapply find_fit_spec; eauto; lia|].
    apply swp_bind. eapply swp_get_frame; [eapply frame_of; eauto|]. cbn [page_len next]. apply swp_bind. eapply swp_run; [exact E1|].
    apply swp_bind, swp_modify, swp_bind, swp_modify, swp_ret. split; [reflexivity|]. cbn [nfree set_frames]. now rewrite Hnf.
  - split; [split|]; cbn [frames freelist nfree max_free set_nfree set_frames].
    + apply blocks_at_zeroed; [|exact Hc]. intros c Hcin. destruct (in_block (fst (carved b n), n) (fst c)) eqn:Ein; [|reflexivity]. exfalso.
      specialize (Hcov (fst c)). change (fst (carved b n), n) with (carved b n) in Ein. rewrite Ein in Hcov. cbn in Hcov. specialize (H4 (fst c)).
      pose proof (cover_nonneg (carve pre b post n) (fst c)). assert (Hz : cover (carve pre b post n) (fst c) = 0) by lia.
      pose proof (cover_zero_in _ _ _ Hz Hcin) as Hfalse. rewrite in_block_start in Hfalse; [discriminate|]. rewrite Forall_forall in Hok. now apply Hok, list_elem_of_In.
    + exact Hf.
    + exact Hok.
    + intros x. specialize (H4 x). specialize (Hcov x). pose proof (b2z_range (in_block (carved b n) x)). lia.
    + rewrite H5, u64_small by lia. lia.
    + lia.
    + rewrite u64_small by lia. lia.
    + intros x f Hx. unfold zeroed. rewrite map_lookup_imap. unfold in_block, carved in Hx. cbn [fst snd carved] in Hx |- *. rewrite Hx.
      destruct (frames s1 !! x); [cbn; congruence|discriminate].
Qed.

(** ** free *)

(** The new block goes behind [x] or later, in front of the first block with a
    higher address; never in front of the first one. *)
Fixpoint place (b x : block) (rest : list block) : list block :=
  match rest with
  | [] => [x; b]
  | y :: rest' => if fst b <? fst y then x :: b :: rest else x :: place b y rest'
  end.
(** One pass that joins a block with the one behind it, if they meet. *)
Fixpoint patch (bs : list block) : list block :=
  match bs with
  | b :: rest =>
      match rest with
      | c :: rest' => if fst c =? fst b + snd b * PGSIZE then (fst b, snd b + snd c) :: patch rest' else b :: patch rest
      | [] => [b]
      end
  | [] => []
  end.

Lemma place_perm b x rest : Permutation (place b x rest) (b :: x :: rest).
Proof.
  revert x. induction rest as [|y rest IH]; intros x; cbn; [apply Permutation_swap|]. destruct (_ <? _); [apply Permutation_swap|].
  rewrite IH. apply Permutation_swap.
Qed.

Lemma find_place_spec s b x rest : blocks_at (frames s) (x :: rest) 0 -> Forall block_ok (x :: rest) -> (length (x :: rest) <= size (frames s))%nat ->
  exists d l r2, x :: rest = d ++ l :: r2 /\ place b x rest = d ++ l :: b :: r2 /\ find_place (fst b) (fst x) s = Done (fst l) s.
Proof.
  intros Hc Hok Hsz. unfold find_place.
  assert (Hloop : forall rest x fuel, (length rest < fuel)%nat -> blocks_at (frames s) (x :: rest) 0 -> Forall block_ok (x :: rest) ->
    exists d l r2, x :: rest = d ++ l :: r2 /\ place b x rest = d ++ l :: b :: r2 /\
    sloop fuel (fun prev => f ← get_frame prev; if next f =? 0 then mret (Break prev) else if fst b <? next f then mret (Break prev) else mret (Next (next f))) (fst x) s = Done (fst l) s).
  { clear x rest Hc Hok Hsz. induction rest as [|y rest IH]; intros x [|fuel] Hf Hc Hok; cbn in Hf; try lia; cbn [sloop place].
    - apply blocks_at_cons in Hc as [Hx _]. exists [], x, []. split; [reflexivity|]. split; [reflexivity|]. apply swp_eq, swp_bind, swp_bind.
      eapply swp_get_frame; [exact Hx|]. apply swp_ret, swp_ret. auto.
    - apply blocks_at_cons in Hc as [Hx Hc]. change (hd_addr fst 0 (y :: rest)) with (fst y) in Hx. inversion Hok as [|? ? _ Hok']; subst. inversion Hok' as [|? ? (Y1 & _) _]; subst.
      assert (Hstep : forall Q, (if fst b <? fst y then Q (fst x) s else swp (sloop fuel (fun prev => f ← get_frame prev; if next f =? 0 then mret (Break prev)
          else if fst b <? next f then mret (Break prev) else mret (Next (next f))) (fst y)) Q s) ->
        swp (x0 ← (f ← get_frame (fst x); if next f =? 0 then mret (Break (fst x)) else if fst b <? next f then mret (Break (fst x)) else mret (Next (next f)));
          match x0 with Next v' => sloop fuel (fun prev => f ← get_frame prev; if next f =? 0 then mret (Break prev)
            else if fst b <? next f then mret (Break prev) else mret (Next (next f))) v' | Break r => mret r end) Q s).
      { intros Q HQ. apply swp_bind, swp_bind. eapply swp_get_frame; [exact Hx|]. cbn [next cell]. rewrite (proj2 (Z.eqb_neq (fst y) 0)) by lia.
        destruct (fst b <? fst y); [apply swp_ret, swp_ret, HQ|apply swp_ret, HQ]. }
      destruct (fst b <? fst y) eqn:E.
      + exists [], x, (y :: rest). split; [reflexivity|]. split; [reflexivity|]. apply swp_eq, Hstep. auto.
      + destruct (IH y fuel ltac:(lia) Hc Hok') as (d & l & r2 & E1 & E2 & E3). exists (x :: d), l, r2. rewrite E1, E2.
        split; [reflexivity|]. split; [reflexivity|]. apply swp_eq, Hstep, swp_eq, E3. }
  destruct (Hloop rest x (S (size (frames s))) ltac:(cbn in Hsz; lia) Hc Hok) as (d & l & r2 & E1 & E2 & E3). exists d, l, r2.
  split; [exact E1|]. split; [exact E2|]. apply swp_eq, swp_bind, swp_gets, swp_eq, E3.
Qed.

Lemma patch_cover bs x : Forall block_ok bs -> cover (patch bs) x = cover bs x.
Proof.
  induction bs as [bs IH] using (nat_measure_ind length). intros Hok. destruct bs as [|b [|c rest]]; [reflexivity|reflexivity|].
  inversion Hok as [|? ? (_ & _ & Hb & _) Hok1]; subst. inversion Hok1 as [|? ? (_ & _ & Hc & _) Hok2]; subst. cbn [patch].
  destruct (fst c =? fst b + snd b * PGSIZE) eqn:E; zbool.
  - cbn [cover]. rewrite IH by (cbn; auto; lia). pose proof (in_block_join (fst b) (snd b) (snd c) x ltac:(lia) ltac:(lia)) as H.
    rewrite <- E in H. rewrite <- H. destruct b, c. cbn [fst snd]. lia.
  - change (cover (b :: patch (c :: rest)) x = cover (b :: c :: rest) x). cbn [cover]. rewrite IH by (cbn; auto; lia). reflexivity.
Qed.

Lemma patch_total bs : total (patch bs) = total bs.
Proof.
  induction bs as [bs IH] using (nat_measure_ind length). destruct bs as [|b [|c rest]]; [reflexivity|reflexivity|]. cbn [patch].
  destruct (fst c =? fst b + snd b * PGSIZE); [cbn [total snd]; rewrite IH by (cbn; lia); lia|].
  change (total (b :: patch (c :: rest)) = total (b :: c :: rest)). cbn [total]. rewrite IH by (cbn; lia). reflexivity.
Qed.

Lemma join_ok b c : block_ok b -> block_ok c -> fst c = fst b + snd b * PGSIZE -> block_ok (fst b, snd b + snd c).
Proof. unfold block_ok, PGSIZE. cbn [fst snd]. intros (? & ? & ? & ?) (? & ? & ? & ?) E. lia. Qed.

Lemma patch_ok bs : Forall block_ok bs -> Forall block_ok (patch bs).
Proof.
  induction bs as [bs IH] using (nat_measure_ind length). intros Hok. destruct bs as [|b [|c rest]]; [constructor|exact Hok|].
  inversion Hok as [|? ? Hb Hok1]; subst. inversion Hok1 as [|? ? Hc Hok2]; subst. cbn [patch].
  destruct (fst c =? fst b + snd b * PGSIZE) eqn:E; zbool.
  - constructor; [now apply join_ok|]. apply IH; [cbn; lia|exact Hok2].
  - constructor; [exact Hb|]. apply (IH (c :: rest)); [cbn; lia|exact Hok1].
Qed.

Lemma patch_head bs : hd_addr fst 0 (patch bs) = hd_addr fst 0 bs.
Proof. destruct bs as [|b [|c rest]]; [reflexivity..|]. cbn [patch]. now destruct (_ =? _). Qed.

(** Two blocks of the chain become one. *)
Lemma blocks_join T d b c rest : Forall block_ok (d ++ b :: c :: rest) -> apart (d ++ b :: c :: rest) -> blocks_at T (d ++ b :: c :: rest) 0 ->
  blocks_at (<[fst b := Frame (hd_addr fst 0 rest) (snd b + snd c)]> T) (d ++ (fst b, snd b + snd c) :: rest) 0.
Proof.
  intros Hok Ha [Hd [_ [_ Hr]%blocks_at_cons]%blocks_at_cons]%blocks_at_app.
  assert (Hne : forall z, z ∈ d ++ c :: rest -> fst z <> fst b) by (intros z; now apply apart_ne).
  apply blocks_at_app. split; [|apply blocks_at_cons; split; [apply lookup_insert_eq|]].
  - apply blocks_at_insert; [|exact Hd]. intros z Hz. apply Hne, elem_of_app. auto.
  - apply blocks_at_insert; [|exact Hr]. intros z Hz. apply Hne. rewrite elem_of_app, elem_of_cons. auto.
Qed.

(** What the joining pass relies on and keeps. *)
Record chain_ok (s : kmem) (bs : list block) : Prop := {
  co_chain : blocks_at (frames s) bs 0;
  co_head : freelist s = hd_addr fst 0 bs;
  co_blocks : Forall block_ok bs;
  co_apart : apart bs;
  co_total : total bs < 2 ^ 60 }.

Definition patch_body (f : Z) : P (ctl Z unit) :=
  if f =? 0 then mret (Break tt)
  else
    fr ← get_frame f;
    if next fr =? 0 then mret (Break tt)
    else
      let succ := next fr in
      let after := u64 (f + u64 (page_len fr * PGSIZE)) in
      (if next fr =? after then
         sf ← get_frame succ;
         set_page_len f (u64 (page_len fr + page_len sf));;
         set_next f (next sf)
       else mret tt);;
      fr ← get_frame f;
      mret (if next fr =? 0 then Break tt else Next (next fr)).

Definition same_counts (s s' : kmem) : Prop := freelist s' = freelist s /\ nfree s' = nfree s /\ max_free s' = max_free s.

(** One round at block [b]: the list behind the blocks [d], and what is left to
    look at. *)
Lemma patch_round s d b c rest : chain_ok s (d ++ b :: c :: rest) ->
  let joined := fst c =? fst b + snd b * PGSIZE in
  let b' := if joined then (fst b, snd b + snd c) else b in
  let rest' := if joined then rest else c :: rest in
  exists s', patch_body (fst b) s = Done (match rest' with [] => Break tt | _ => Next (hd_addr fst 0 rest') end) s' /\
    chain_ok s' (d ++ b' :: rest') /\ same_counts s s'.
Proof.
  intros [H1 H2 H3 H4 H5] joined b' rest'.
  assert (Hbs : block_ok b /\ block_ok c /\ Forall block_ok rest) by (apply Forall_app in H3 as [_ H3]; inversion H3 as [|? ? ? H3']; inversion H3'; auto).
  destruct Hbs as (Hb & Hc & Hr). pose proof Hb as (B1 & B2 & B3 & B4). pose proof Hc as (C1 & C2 & C3 & C4).
  pose proof H1 as [_ [Fb [Fc _]%blocks_at_cons]%blocks_at_cons]%blocks_at_app. change (hd_addr fst 0 (c :: rest)) with (fst c) in Fb.
  pose proof (total_ge d b (c :: rest) H3) as Htb. pose proof (total_ge (d ++ [b]) c rest) as Htc. rewrite <- app_assoc in Htc. specialize (Htc H3). cbn [app] in Htc.
  assert (Hafter : u64 (fst b + u64 (snd b * PGSIZE)) = fst b + snd b * PGSIZE).
  { unfold PGSIZE in *. rewrite (u64_small (snd b * 4096)), u64_small by lia. reflexivity. }
  assert (Hrest0 : forall l, Forall block_ok l -> (if hd_addr fst 0 l =? 0 then Break tt else Next (hd_addr fst 0 l)) =
     match l with [] => @Break Z unit tt | _ => Next (hd_addr fst 0 l) end).
  { intros [|z l] Hl; [reflexivity|]. inversion Hl as [|? ? (Z1 & _) _]; subst. cbn. now rewrite (proj2 (Z.eqb_neq (fst z) 0)) by lia. }
  unfold patch_body. rewrite (proj2 (Z.eqb_neq (fst b) 0)) by lia. subst joined. destruct (fst c =? fst b + snd b * PGSIZE) eqn:E; subst b' rest'; cbv zeta.
  - zbool. assert (Hu : u64 (snd b + snd c) = snd b + snd c) by (rewrite u64_small; lia).
    exists (set_frames <[fst b := Frame (hd_addr fst 0 rest) (snd b + snd c)]> s). split; [|split; [split|repeat split]].
    + apply swp_eq, swp_bind. eapply swp_get_frame; [exact Fb|]. cbn [next page_len cell]. rewrite (proj2 (Z.eqb_neq (fst c) 0)) by lia.
      rewrite Hafter, <- E, Z.eqb_refl. apply swp_bind, swp_bind. eapply swp_get_frame; [exact Fc|]. cbn [next page_len]. rewrite Hu.
      apply swp_bind. eapply swp_set_page_len; [exact Fb|]. eapply swp_set_next; [apply lookup_insert_eq|]. apply swp_bind.
      eapply swp_get_frame; [apply lookup_insert_eq|]. apply swp_ret. split; [now apply Hrest0|].
      unfold set_frames. cbn. now rewrite insert_insert_eq.
    + now apply blocks_join.
    + cbn. rewrite H2, !hd_addr_app. reflexivity.
    + apply Forall_app in H3 as [H3 _]. apply Forall_app. split; [exact H3|]. constructor; [now apply join_ok|exact Hr].
    + intros x. specialize (H4 x). rewrite cover_app in H4 |- *. cbn [cover] in H4 |- *.
      pose proof (in_block_join (fst b) (snd b) (snd c) x ltac:(lia) ltac:(lia)) as Hj. rewrite <- E in Hj. rewrite <- Hj. destruct b, c. cbn [fst snd] in *. lia.
    + rewrite total_app in H5 |- *. cbn [total snd] in H5 |- *. lia.
  - exists s. split; [|split; [split; assumption|repeat split]]. apply swp_eq, swp_bind. eapply swp_get_frame; [exact Fb|]. cbn [next page_len cell].
    rewrite (proj2 (Z.eqb_neq (fst c) 0)) by (zbool; lia). rewrite Hafter, E. apply swp_bind, swp_ret, swp_bind.
    eapply swp_get_frame; [exact Fb|]. cbn [next cell]. rewrite (proj2 (Z.eqb_neq (fst c) 0)) by (zbool; lia). apply swp_ret. auto.
Qed.

Lemma patch_up_spec s bs : chain_ok s bs -> (length bs <= size (frames s))%nat ->
  exists s', patch_up s = Done tt s' /\ chain_ok s' (patch bs) /\ same_counts s s'.
Proof.
  intros Hs Hsz.
  assert (Hloop : forall todo fuel d s, (length todo < fuel)%nat -> chain_ok s (d ++ todo) ->
    exists s', sloop fuel patch_body (hd_addr fst 0 todo) s = Done tt s' /\ chain_ok s' (d ++ patch todo) /\ same_counts s s').
  { clear. induction todo as [todo IH] using (nat_measure_ind length). intros [|fuel] d s Hf Hs; [lia|]. cbn [sloop].
    destruct todo as [|b [|c rest]].
    - exists s. split; [reflexivity|]. split; [exact Hs|repeat split].
    - exists s. split; [|split; [exact Hs|repeat split]]. pose proof (co_chain _ _ Hs) as [_ [Fb _]%blocks_at_cons]%blocks_at_app.
      pose proof (co_blocks _ _ Hs) as [_ Hb]%Forall_app. inversion Hb as [|? ? (B1 & _) _]; subst. apply swp_eq, swp_bind. unfold patch_body. cbn [hd_addr].
      rewrite (proj2 (Z.eqb_neq (fst b) 0)) by lia. apply swp_bind. eapply swp_get_frame; [exact Fb|]. apply swp_ret, swp_ret. auto.
    - destruct (patch_round s d b c rest Hs) as (s1 & E1 & Hs1 & Hc1). cbv zeta in E1, Hs1. cbn [hd_addr patch].
      unfold mbind, SM_bind. change (hd_addr fst 0 (b :: c :: rest)) with (fst b). rewrite E1. destruct (fst c =? fst b + snd b * PGSIZE).
      + destruct rest as [|z rest].
        * exists s1. split; [reflexivity|]. split; [exact Hs1|exact Hc1].
        * destruct (IH (z :: rest) ltac:(cbn; lia) fuel (d ++ [(fst b, snd b + snd c)]) s1) as (s2 & E2 & Hs2 & Hc2);
            [cbn in Hf |- *; lia|rewrite <- app_assoc; exact Hs1|].
          exists s2. rewrite E2. rewrite <- app_assoc in Hs2. split; [reflexivity|]. split; [exact Hs2|]. unfold same_counts in *. intuition congruence.
      + destruct (IH (c :: rest) ltac:(cbn; lia) fuel (d ++ [b]) s1) as (s2 & E2 & Hs2 & Hc2); [cbn in Hf |- *; lia|rewrite <- app_assoc; exact Hs1|].
        exists s2. rewrite E2. rewrite <- app_assoc in Hs2. split; [reflexivity|]. split; [exact Hs2|]. unfold same_counts in *. intuition congruence. }
  destruct (Hloop bs (S (size (frames s))) [] s ltac:(lia) Hs) as (s' & E & H'). exists s'. split; [|exact H'].
  apply swp_eq. unfold patch_up. apply swp_bind, swp_gets, swp_bind, swp_gets. rewrite (co_head _ _ Hs). apply swp_eq, E.
Qed.

(** The list after a block was freed. *)
Definition freed (b : block) (bs : list block) : list block := patch (match bs with [] => [b] | x :: rest => place b x rest end).

(** The header of the new block is linked in. *)
Lemma link_block s bs b : phys_ok s bs -> block_ok b -> apart (b :: bs) -> total bs + snd b < 2 ^ 60 ->
  exists s1, (put_frame (fst b) (Frame 0 (snd b));; prev ← gets freelist;
    if prev =? 0 then fl ← gets freelist; set_next (fst b) fl;; modify (set_freelist (fst b))
    else prev ← find_place (fst b) prev; f ← get_frame prev; set_next (fst b) (next f);; set_next prev (fst b)) s = Done tt s1 /\
    chain_ok s1 (match bs with [] => [b] | x :: rest => place b x rest end) /\
    (length (match bs with [] => [b] | x :: rest => place b x rest end) <= size (frames s1))%nat /\ nfree s1 = nfree s /\ max_free s1 = max_free s.
Proof.
  intros Hs Hb Ha Ht. pose proof Hs as [H1 H2 H3 H4 H5 H6 H7]. set (s0 := set_frames <[fst b := Frame 0 (snd b)]> s).
  assert (Hok : Forall block_ok (b :: bs)) by now constructor.
  assert (Hne : forall c, c ∈ bs -> fst c <> fst b) by (intros c Hc; now apply (apart_ne [] b bs c)).
  assert (Hc0 : blocks_at (frames s0) bs 0) by (apply blocks_at_insert; assumption).
  assert (Hfin : forall s1 l, Permutation l (b :: bs) -> blocks_at (frames s1) l 0 -> freelist s1 = hd_addr fst 0 l ->
    chain_ok s1 l /\ (length l <= size (frames s1))%nat).
  { intros s1 l Hp Hc Hh. assert (Hlok : Forall block_ok l) by (now rewrite Hp). assert (Hla : apart l) by (intros x; rewrite Hp; apply Ha).
    split; [split; auto; rewrite Hp; cbn; lia|]. eapply dseg_size; [exact Hc|]. now apply apart_NoDup. }
  destruct bs as [|x rest].
  - exists (set_freelist (fst b) s0). assert (Hd : blocks_at (frames (set_freelist (fst b) s0)) [b] 0) by (apply blocks_at_cons; split; [apply lookup_insert_eq|exact I]).
    destruct (Hfin (set_freelist (fst b) s0) [b]) as [A B]; [reflexivity|exact Hd|reflexivity|]. split; [|auto].
    apply swp_eq, swp_bind, swp_modify, swp_bind, swp_gets. fold s0. change (freelist s0) with (freelist s). rewrite H2. cbn [hd_addr]. rewrite Z.eqb_refl.
    apply swp_bind, swp_gets, swp_bind. eapply swp_set_next; [apply lookup_insert_eq|]. apply swp_modify. split; [reflexivity|].
    change (freelist s0) with (freelist s). rewrite H2. unfold s0, set_frames, set_freelist. cbn. now rewrite insert_insert_eq.
  - assert (Hx : fst x <> 0) by (inversion H3 as [|? ? (X1 & _) _]; lia).
    assert (Hsz : (length (x :: rest) <= size (frames s0))%nat) by (eapply dseg_size; [exact Hc0|now apply apart_NoDup]).
    destruct (find_place_spec s0 b x rest Hc0 H3 Hsz) as (d & l & r2 & E1 & E2 & E3). rewrite E2.
    set (T := <[fst l := Frame (fst b) (snd l)]> (<[fst b := Frame (hd_addr fst 0 r2) (snd b)]> (frames s0))).
    assert (Hl : l ∈ x :: rest) by (rewrite E1; apply block_in). assert (Hlb : fst l <> fst b) by now apply Hne.
    rewrite E1 in Hc0. pose proof Hc0 as [Hd [Fl Hr]%blocks_at_cons]%blocks_at_app. rewrite E1 in H3, H4.
    assert (Hnl : forall c, c ∈ d ++ r2 -> fst c <> fst l) by (intros c; now apply apart_ne).
    assert (Hc1 : blocks_at T (d ++ l :: b :: r2) 0).
    { apply blocks_at_app. split; [|apply blocks_at_cons; split; [apply lookup_insert_eq|apply blocks_at_cons; split]].
      - apply blocks_at_insert; [intros c Hc; apply Hnl, elem_of_app; auto|]. apply blocks_at_insert; [|exact Hd].
        intros c Hc. apply Hne. rewrite E1. apply elem_of_app. auto.
      - unfold T. rewrite lookup_insert_ne by auto. apply lookup_insert_eq.
      - apply blocks_at_insert; [intros c Hc; apply Hnl, elem_of_app; auto|]. apply blocks_at_insert; [|exact Hr].
        intros c Hc. apply Hne. rewrite E1, elem_of_app, elem_of_cons. auto. }
    destruct (Hfin (set_frames (fun _ => T) s) (d ++ l :: b :: r2)) as [A B]; [rewrite <- E2; apply place_perm|exact Hc1| |].
    { cbn. rewrite H2, E1, !hd_addr_app. reflexivity. }
    exists (set_frames (fun _ => T) s). split; [|auto]. apply swp_eq, swp_bind, swp_modify, swp_bind, swp_gets. fold s0. change (freelist s0) with (freelist s). rewrite H2.
    change (hd_addr fst 0 (x :: rest)) with (fst x). rewrite (proj2 (Z.eqb_neq (fst x) 0) Hx). apply swp_bind. eapply swp_run; [exact E3|].
    apply swp_bind. eapply swp_get_frame; [exact Fl|]. cbn [next cell]. apply swp_bind. eapply swp_set_next; [apply lookup_insert_eq|].
    eapply swp_set_next; [cbn [frames set_frames]; rewrite lookup_insert_ne by auto; exact Fl|]. auto.
Qed.

Lemma phys_free_spec s bs b : phys_ok s bs -> block_ok b -> apart (b :: bs) -> total bs + snd b < 2 ^ 60 ->
  exists s', free (fst b) (snd b) s = Done tt s' /\ phys_ok s' (freed b bs).
Proof.
  intros Hs Hb Ha Ht. pose proof Hs as [H1 H2 H3 H4 H5 H6 H7]. destruct (link_block s bs b Hs Hb Ha Ht) as (s1 & E1 & Hc1 & Hsz & Hn1 & Hm1).
  destruct (patch_up_spec s1 _ Hc1 Hsz) as (s2 & E2 & Hc2 & _ & Hn2 & Hm2). pose proof Hb as (B1 & B2 & B3 & B4). fold (freed b bs) in Hc2.
  pose proof (total_nonneg _ H3) as Hpos.
  assert (Htot : total (freed b bs) = total bs + snd b).
  { unfold freed. rewrite patch_total. destruct bs as [|x rest]; [cbn; lia|]. rewrite place_perm. cbn [total]. lia. }
  assert (Hu : u64 (snd b) = snd b) by (apply u64_small; lia).
  exists (Kmem (frames s2) (freelist s2) (nfree s + snd b) (if max_free s <? nfree s + snd b then nfree s + snd b else max_free s)). split.
  - apply swp_eq. unfold free, PGSIZE in *. rewrite B2. cbn [Z.eqb negb]. rewrite Hu. unfold swp.
    assert (Estep : forall (k : P unit), ((put_frame (fst b) (Frame 0 (snd b));; prev ← gets freelist;
      (if prev =? 0 then fl ← gets freelist; set_next (fst b) fl;; modify (set_freelist (fst b))
       else prev ← find_place (fst b) prev; f ← get_frame prev; set_next (fst b) (next f);; set_next prev (fst b));; k) s) = k s1).
    { intros k. revert E1. unfold mbind, SM_bind, put_frame, modify, gets. cbn. destruct (_ =? 0); [destruct (set_next _ _ _) as [[] ?| |]|destruct (find_place _ _ _) as [? ?| |]];
        try discriminate; [intros [= <-]; reflexivity|]. destruct (get_frame _ _) as [? ?| |]; [|discriminate..]. destruct (set_next _ _ _) as [[] ?| |]; [|discriminate..].
      destruct (set_next _ _ _) as [[] ?| |]; [|discriminate..]. now intros [= <-]. }
    rewrite Estep. unfold mbind at 1, SM_bind at 1. rewrite E2. unfold count_free, modify, mbind, SM_bind, set_nfree, set_max_free. cbn. rewrite Hn2, Hn1, Hm2, Hm1, u64_small by lia.
    split; [reflexivity|]. now destruct (_ <? _).
  - destruct Hc2 as [C1 C2 C3 C4 C5]. split; cbn [frames freelist nfree max_free]; auto; [lia|]. destruct (_ <? _) eqn:E; zbool; lia.
Qed.

Lemma freed_cover b bs x : block_ok b -> Forall block_ok bs -> cover (freed b bs) x = b2z (in_block b x) + cover bs x.
Proof.
  intros Hb Hbs. unfold freed. destruct bs as [|y rest]; [reflexivity|]. rewrite patch_cover by (rewrite place_perm; now constructor). now rewrite place_perm.
Qed.
Lemma freed_total b bs : total (freed b bs) = total bs + snd b.
Proof. unfold freed. rewrite patch_total. destruct bs as [|x rest]; [cbn; lia|]. rewrite place_perm. cbn [total]. lia. Qed.

(** ** free_range *)

Lemma PGROUNDUP_spec x : 0 <= x < 2 ^ 60 -> PGROUNDUP x = (x + 4095) / 4096 * 4096.
Proof.
  intros Hx. unfold PGROUNDUP. rewrite u64_small by lia. replace (4096 - 1) with (Z.ones 12) by reflexivity.
  rewrite <- Z.ldiff_land, Z.ldiff_ones_r, Z.shiftl_mul_pow2, Z.shiftr_div_pow2 by lia. change (2 ^ 12) with 4096. do 2 f_equal. lia.
Qed.

(** The block of a range. *)
Definition range_block (vstart vend : Z) : block := (PGROUNDUP vstart, (PGROUNDUP vend - PGROUNDUP vstart) / PGSIZE).
(** It goes behind the first block. *)
Definition ranged (b : block) (bs : list block) : list block := match bs with [] => [b] | x :: rest => x :: b :: rest end.

Lemma ranged_perm b bs : Permutation (ranged b bs) (b :: bs).
Proof. destruct bs; [reflexivity|]. apply Permutation_swap. Qed.

Lemma free_range_spec s bs vstart vend : let b := range_block vstart vend in
  phys_ok s bs -> 0 <= vstart < 2 ^ 60 -> 0 <= vend < 2 ^ 60 -> block_ok b -> apart (b :: bs) -> total bs + snd b < 2 ^ 60 ->
  exists s', free_range vstart vend s = Done tt s' /\ phys_ok s' (ranged b bs).
Proof.
  intros b Hs Hv1 Hv2 Hb Ha Ht. pose proof Hs as [H1 H2 H3 H4 H5 H6 H7]. pose proof Hb as (B1 & B2 & B3 & B4). pose proof (total_nonneg _ H3) as Hpos.
  assert (Hpl : u64 (Z.shiftr (PGROUNDUP vend) 12 - Z.shiftr (PGROUNDUP vstart) 12) = snd b).
  { unfold b, range_block. cbn [snd]. rewrite !PGROUNDUP_spec, !Z.shiftr_div_pow2 by lia. change (2 ^ 12) with 4096. unfold PGSIZE.
    rewrite !Z.div_mul, <- Z.mul_sub_distr_r, Z.div_mul by lia. apply u64_small. unfold b, range_block, PGSIZE in B3, Ht. cbn [snd] in B3, Ht.
    rewrite !PGROUNDUP_spec, <- Z.mul_sub_distr_r, Z.div_mul in B3, Ht by lia. lia. }
  assert (Hfst : PGROUNDUP vstart = fst b) by reflexivity. clearbody b.
  assert (Hok : Forall block_ok (ranged b bs)) by (rewrite ranged_perm; now constructor).
  assert (Hne : forall c, c ∈ bs -> fst c <> fst b) by (intros c Hc; apply (apart_ne [] b bs c); [now constructor|exact Ha|exact Hc]).
  set (T := match bs with [] => <[fst b := Frame 0 (snd b)]> (frames s)
    | x :: rest => <[fst x := Frame (fst b) (snd x)]> (<[fst b := Frame (hd_addr fst 0 rest) (snd b)]> (frames s)) end).
  exists (Kmem T (hd_addr fst 0 (ranged b bs)) (nfree s + snd b) (if max_free s <? nfree s + snd b then nfree s + snd b else max_free s)). split.
  - apply swp_eq. unfold free_range. rewrite Hpl, (proj2 (Z.leb_gt (snd b) 0)) by lia. rewrite Hfst.
    apply swp_bind, swp_gets, swp_bind, swp_modify, swp_bind, swp_gets. change (freelist (set_frames ?f s)) with (freelist s). rewrite H2. unfold count_free. apply swp_bind.
    destruct bs as [|x rest].
    + cbn [hd_addr]. rewrite Z.eqb_refl. apply swp_bind. eapply swp_set_next; [apply lookup_insert_eq|]. apply swp_modify. apply swp_bind.
      eapply swp_get_frame; [apply lookup_insert_eq|]. apply swp_bind, swp_modify, swp_modify. split; [reflexivity|]. unfold T, set_max_free, set_nfree, set_freelist, set_frames. cbn.
      rewrite insert_insert_eq, u64_small by (cbn in *; lia). now destruct (_ <? _).
    + change (hd_addr fst 0 (x :: rest)) with (fst x). assert (Hx : fst x <> fst b) by (apply Hne; left). inversion H3 as [|? ? (X1 & _) _]; subst.
      rewrite (proj2 (Z.eqb_neq (fst x) 0)) by lia. apply blocks_at_cons in H1 as [Fx _]. apply swp_bind.
      eapply swp_get_frame; [cbn [frames set_frames]; rewrite lookup_insert_ne by auto; exact Fx|]. cbn [next].
      apply swp_bind. eapply swp_set_next; [apply lookup_insert_eq|]. eapply swp_set_next; [cbn [frames set_frames]; rewrite !lookup_insert_ne by auto; exact Fx|].
      apply swp_bind. eapply swp_get_frame; [cbn [frames set_frames]; rewrite lookup_insert_ne by auto; apply lookup_insert_eq|].
      apply swp_bind, swp_modify, swp_modify. split; [reflexivity|]. unfold T, set_max_free, set_nfree, set_freelist, set_frames. cbn.
      rewrite insert_insert_eq, u64_small by lia. rewrite H2. now destruct (_ <? _).
  - split; cbn [frames freelist nfree max_free]; auto.
    + unfold T. destruct bs as [|x rest]; cbn [ranged]; [apply blocks_at_cons; split; [apply lookup_insert_eq|exact I]|].
      pose proof H1 as [_ Hr]%blocks_at_cons. assert (Hx : fst x <> fst b) by (apply Hne; left).
      apply blocks_at_cons. split; [apply lookup_insert_eq|]. apply blocks_at_cons. split; [rewrite lookup_insert_ne by auto; apply lookup_insert_eq|].
      apply blocks_at_insert; [intros c Hc; now apply (apart_ne [] x rest c)|]. apply blocks_at_insert; [|exact Hr]. intros c Hc. apply Hne. now right.
    + intros x. rewrite ranged_perm. apply Ha.
    + rewrite ranged_perm. cbn. lia.
    + rewrite ranged_perm. cbn. lia.
    + destruct (_ <? _) eqn:E; zbool; lia.
Qed.

Lemma reclaim_spec rs : forall s bs, phys_ok s bs -> Forall block_ok rs -> apart (rs ++ bs) -> total rs + total bs < 2 ^ 60 ->
  exists s' bs', reclaim_memory rs s = Done tt s' /\ phys_ok s' bs' /\ (forall x, cover bs' x = cover rs x + cover bs x) /\ total bs' = total rs + total bs.
Proof.
  induction rs as [|b rs IH]; intros s bs Hs Hok Ha Ht; cbn [reclaim_memory].
  - exists s, bs. auto.
  - inversion Hok as [|? ? Hb Hrs]; subst. pose proof (total_nonneg _ Hrs) as Hpos. cbn [total] in Ht.
    destruct (phys_free_spec s bs b Hs Hb) as (s1 & E1 & Hs1); [|lia|].
    { intros x. specialize (Ha x). cbn in Ha |- *. rewrite cover_app in Ha. pose proof (cover_nonneg rs x). lia. }
    assert (Hcov : forall x, cover (freed b bs) x = b2z (in_block b x) + cover bs x) by (intros x; apply freed_cover; [exact Hb|apply Hs]).
    destruct (IH s1 _ Hs1 Hrs) as (s2 & bs2 & E2 & Hs2 & Hc2 & Ht2).
    { intros x. specialize (Ha x). rewrite cover_app, Hcov. cbn in Ha. rewrite cover_app in Ha. lia. }
    { rewrite freed_total. lia. }
    exists s2, bs2. split; [|split; [exact Hs2|split]].
    + destruct b as [v len]. apply swp_eq, swp_bind. eapply swp_run; [exact E1|]. eapply swp_run; [exact E2|auto].
    + intros x. rewrite Hc2, Hcov. cbn. lia.
    + rewrite Ht2, freed_total. cbn. lia.
Qed.

(** ** The theorems *)

(** The free blocks, read from memory. *)
Fixpoint walk (fuel : nat) (T : gmap Z frame) (a : Z) : list block :=
  match fuel with
  | O => []
  | S fuel => if a =? 0 then [] else match T !! a with Some f => (a, page_len f) :: walk fuel T (next f) | None => [] end
  end.
Definition free_blocks (s : kmem) : list block := walk (size (frames s)) (frames s) (freelist s).

Lemma free_blocks_ok s bs : phys_ok s bs -> free_blocks s = bs.
Proof.
  intros Hs. pose proof (chain_fuel _ _ Hs) as Hf. pose proof Hs as [H1 H2 H3 _ _ _ _]. unfold free_blocks. rewrite H2. clear H2 Hs.
  revert H1 H3 Hf. generalize (size (frames s)) as fuel. generalize (frames s) as T. induction bs as [|b bs IH]; intros T fuel Hc Hok Hf.
  - destruct fuel; reflexivity.
  - destruct fuel as [|fuel]; [cbn in Hf; lia|]. apply blocks_at_cons in Hc as [Fb Hc]. inversion Hok as [|? ? (B1 & _) Hok']; subst. cbn [walk].
    change (hd_addr fst 0 (b :: bs)) with (fst b). rewrite (proj2 (Z.eqb_neq (fst b) 0)), Fb by lia. cbn [page_len next].
    rewrite IH by (auto; cbn in Hf; lia). now destruct b.
Qed.

Lemma first_fit (bs : list block) n : Exists (fun b => n <= snd b) bs -> exists pre b post, bs = pre ++ b :: post /\ Forall (fun c => snd c < n) pre /\ n <= snd b.
Proof.
  induction bs as [|b bs IH]; intros H; [inversion H|]. destruct (Z_le_gt_dec n (snd b)) as [Hb|Hb]; [exists [], b, bs; auto|].
  inversion H as [? ? Hx|? ? Hx]; subst; [lia|]. destruct (IH Hx) as (pre & c & post & -> & Hp & Hc). exists (b :: pre), c, post.
  split; [reflexivity|]. split; [constructor; [lia|exact Hp]|exact Hc].
Qed.

(** Allocation is first fit: the pages come from the end of the first free
    block that is large enough, they are all zero, and the block keeps the rest or
    leaves the list; the counter goes down by as many pages. *)
Lemma phys_alloc_first_fit s bs n :
  phys_ok s bs -> 0 < n < 2 ^ 31 -> 32 <= nfree s -> Exists (fun b => n <= snd b) bs ->
  exists pre b post s', bs = pre ++ b :: post /\ Forall (fun c => snd c < n) pre /\ n <= snd b /\
    let r := fst b + (snd b - n) * PGSIZE in
    alloc [] n s = Done r s' /\
    phys_ok s' (if snd b =? n then pre ++ post else pre ++ (fst b, snd b - n) :: post) /\
    nfree s' = nfree s - n /\
    (forall x f, r <= x < r + n * PGSIZE -> frames s' !! x = Some f -> f = Frame 0 0).
Proof.
  intros Hs Hn Hfree Hex. destruct (first_fit _ _ Hex) as (pre & b & post & E & Hpre & Hb).
  destruct (late_phys_alloc_spec s bs pre b post n Hs E Hpre ltac:(lia)) as (s' & Ea & Hs' & Hz). exists pre, b, post, s'.
  split; [exact E|]. split; [exact Hpre|]. split; [exact Hb|]. cbv zeta.
  split; [|split; [exact Hs'|split]].
  - apply swp_eq. unfold alloc. apply swp_bind, swp_gets. rewrite (proj2 (Z.ltb_ge (nfree s) 32)) by lia. apply swp_bind, swp_ret.
    rewrite u64_small by lia. eapply swp_run; [exact Ea|auto].
  - rewrite (po_nfree _ _ Hs'), (po_nfree _ _ Hs), E. pose proof (carve_total pre b post n). lia.
  - intros x f Hx. apply Hz, in_block_true. exact Hx.
Qed.

(** One page, for which there is always a block. *)
Lemma phys_alloc_one m bs : phys_ok m bs -> 32 <= nfree m ->
  exists a m' bs', Phys.alloc [] 1 m = Done a m' /\ phys_ok m' bs' /\ nfree m' = nfree m - 1 /\
    0 < a < 2 ^ 60 /\ a mod 4096 = 0 /\ cover bs a = 1 /\ cover bs' a = 0 /\ forall x, cover bs' x + b2z (in_block (a, 1) x) = cover bs x.
Proof.
  intros Hm Hf. pose proof Hm as [H1 H2 H3 H4 H5 H6 H7]. destruct bs as [|b bs]; [cbn in H5; lia|].
  pose proof (Forall_inv H3) as Hb. pose proof Hb as (B1 & B2 & B3 & B4). unfold PGSIZE in B2, B4.
  destruct (late_phys_alloc_spec m (b :: bs) [] b bs 1 Hm eq_refl ltac:(constructor) ltac:(lia)) as (m' & E & Hm' & _).
  pose proof (fun x => carve_cover [] b bs 1 x Hb ltac:(lia)) as Hc. pose proof (carve_total [] b bs 1) as Ht.
  assert (Hin : in_block (carved b 1) (fst (carved b 1)) = true) by (apply in_block_true; unfold carved, PGSIZE; cbn; lia).
  exists (fst (carved b 1)), m', (carve [] b bs 1). split; [|split; [exact Hm'|split]].
  - unfold Phys.alloc. rewrite (bind_done (gets nfree) _ m (nfree m) m eq_refl). rewrite (proj2 (Z.ltb_ge _ _) Hf).
    rewrite (bind_done (mret tt) _ m tt m eq_refl). rewrite u64_small by lia. exact E.
  - rewrite (po_nfree _ _ Hm'), H5. cbn [app] in Ht. lia.
  - unfold carved in *. cbn [fst snd] in *. unfold PGSIZE in *. split; [lia|]. split; [zlia|].
    pose proof (Hc (fst b + (snd b - 1) * 4096)) as Hc1. rewrite Hin in Hc1. cbn [b2z app] in Hc1. pose proof (H4 (fst b + (snd b - 1) * 4096)).
    pose proof (cover_nonneg (carve [] b bs 1) (fst b + (snd b - 1) * 4096)). split; [lia|]. split; [lia|].
    exact Hc.
Qed.

(** Two free blocks, of 2 and of 40 pages. *)
Definition demo_kmem : kmem := Kmem (<[4096 := Frame 16384 2]> (<[16384 := Frame 0 40]> ∅)) 4096 42 42.

Lemma demo_kmem_ok : phys_ok demo_kmem [(4096, 2); (16384, 40)].
Proof.
  split; try reflexivity; try (cbn; lia).
  - repeat split; reflexivity.
  - do 2 (apply Forall_cons_iff; split; [unfold block_ok, PGSIZE; cbn [fst snd]; split; [lia|split; [reflexivity|lia]]|]). constructor.
  - intros x. unfold cover, in_block, PGSIZE. cbn [fst snd].
    destruct (4096 <=? x) eqn:?, (x <? 4096 + 2 * 4096) eqn:?, (16384 <=? x) eqn:?, (x <? 16384 + 40 * 4096) eqn:?; zbool; cbn; lia.
Qed.

Lemma phys_alloc_first_fit_witness :
  (exists pre b post s', [(4096, 2); (16384, 40)] = pre ++ b :: post /\ Forall (fun c => snd c < 3) pre /\ 3 <= snd b /\
    let r := fst b + (snd b - 3) * PGSIZE in
    alloc [] 3 demo_kmem = Done r s' /\
    phys_ok s' (if snd b =? 3 then pre ++ post else pre ++ (fst b, snd b - 3) :: post) /\
    nfree s' = nfree demo_kmem - 3 /\
    (forall x f, r <= x < r + 3 * PGSIZE -> frames s' !! x = Some f -> f = Frame 0 0)) /\
  (match alloc [] 3 demo_kmem with Done r _ => r | _ => 0 end) = 16384 + 37 * 4096.
Proof.
  split; [|vm_compute; reflexivity].
  apply (phys_alloc_first_fit demo_kmem [(4096, 2); (16384, 40)] 3 demo_kmem_ok); [lia|cbn; lia|]. right. left. cbn. lia.
Defined.

(** What the kernel does with pages: [all] is what was ever handed over. *)
Inductive op := Alloc (reclaimed : list block) (n : Z) | Free (b : block) | Range (vstart vend : Z).
Record pages := Pages { mem : kmem; held : list block; all : list block }.

Definition after_reclaim (rs : list block) (s : kmem) : kmem :=
  if nfree s <? 32 then match reclaim_memory rs s with Done _ s => s | _ => s end else s.

Definition exec (o : op) (y : pages) : option pages :=
  match o with
  | Alloc rs n =>
      match alloc rs n (mem y) with
      | Done r s => Some (Pages s ((r, n) :: if nfree (mem y) <? 32 then list_difference (held y) rs else held y) (all y))
      | _ => None
      end
  | Free b => match free (fst b) (snd b) (mem y) with Done _ s => Some (Pages s (list_difference (held y) [b]) (all y)) | _ => None end
  | Range v w => match free_range v w (mem y) with Done _ s => Some (Pages s (held y) (range_block v w :: all y)) | _ => None end
  end.

(** Only what is held is freed or reclaimed; new ranges are new. *)
Definition legal (o : op) (y : pages) : Prop :=
  match o with
  | Alloc rs n => 0 < n < 2 ^ 31 /\ NoDup rs /\ (forall b, b ∈ rs -> b ∈ held y)
  | Free b => b ∈ held y
  | Range v w => 0 <= v < 2 ^ 60 /\ 0 <= w < 2 ^ 60 /\ block_ok (range_block v w) /\ apart (range_block v w :: all y) /\ total (range_block v w :: all y) < 2 ^ 60
  end.

(** A free block is large enough for the request, once memory was reclaimed. *)
Definition fits (o : op) (y : pages) : Prop :=
  match o with
  | Alloc rs n => Exists (fun b => n <= snd b) (free_blocks (after_reclaim rs (mem y)))
  | _ => True
  end.

Inductive reach (y : pages) : pages -> Prop :=
| reach_start : reach y y
| reach_step o y1 y2 : reach y y1 -> legal o y1 -> exec o y1 = Some y2 -> reach y y2.

Definition pages0 : pages := Pages (Kmem ∅ 0 0 0) [] [].

Record pages_ok (y : pages) (bs : list block) : Prop := {
  pg_phys : phys_ok (mem y) bs;
  pg_held : Forall block_ok (held y);
  pg_nodup : NoDup (held y);
  pg_cover x : cover (bs ++ held y) x = cover (all y) x;
  pg_total : total (bs ++ held y) = total (all y);
  pg_apart : apart (all y);
  pg_small : total (all y) < 2 ^ 60 }.

Lemma difference_perm (l k : list block) : NoDup l -> NoDup k -> (forall b, b ∈ k -> b ∈ l) -> Permutation (k ++ list_difference l k) l.
Proof.
  intros Hl Hk Hsub. apply NoDup_Permutation; [|exact Hl|].
  - apply list.NoDup_app. split; [exact Hk|]. split; [|now apply NoDup_list_difference]. intros x Hx Hx'. apply list_elem_of_difference in Hx'. tauto.
  - intros x. rewrite elem_of_app, list_elem_of_difference. split; [intros [?|[? _]]; auto|]. intros Hx. destruct (decide (x ∈ k)); tauto.
Qed.

Definition good_step (o : op) (y : pages) : Prop := exists y' bs', exec o y = Some y' /\ pages_ok y' bs'.

Lemma page_step_free y bs b : pages_ok y bs -> b ∈ held y -> good_step (Free b) y.
Proof.
  intros [H1 H2 H3 H4 H5 H6 H7] Hb. pose proof (difference_perm (held y) [b] H3 ltac:(apply NoDup_singleton) ltac:(intros c ->%list_elem_of_singleton; exact Hb)) as Hp.
  assert (Hok : block_ok b) by (rewrite Forall_forall in H2; now apply H2, list_elem_of_In). set (rest := list_difference (held y) [b]) in *.
  assert (Hr : Forall block_ok rest) by (rewrite <- Hp in H2; now inversion H2).
  destruct (phys_free_spec (mem y) bs b H1 Hok) as (s' & E & Hs').
  { intros x. specialize (H4 x). specialize (H6 x). rewrite cover_app, <- Hp in H4. cbn in H4 |- *. pose proof (cover_nonneg rest x). lia. }
  { rewrite total_app, <- Hp in H5. cbn in H5. pose proof (total_nonneg _ Hr). lia. }
  eexists _, _. split; [cbn [exec]; rewrite E; reflexivity|]. fold rest. split; cbn [mem held all]; [exact Hs'|exact Hr| | | |exact H6|exact H7].
  - now apply NoDup_list_difference.
  - intros x. specialize (H4 x). rewrite cover_app in *. rewrite <- Hp in H4. cbn in H4. rewrite freed_cover by (auto; apply H1). lia.
  - rewrite total_app in *. rewrite <- Hp in H5. cbn in H5. rewrite freed_total. lia.
Qed.

Lemma page_step_range y bs v w : pages_ok y bs -> legal (Range v w) y -> good_step (Range v w) y.
Proof.
  intros [H1 H2 H3 H4 H5 H6 H7] (Hv & Hw & Hb & Ha & Ht). pose proof (total_nonneg _ H2) as Hpos. cbn [total] in Ht. rewrite total_app in H5.
  destruct (free_range_spec (mem y) bs v w H1 Hv Hw Hb) as (s' & E & Hs').
  { intros x. specialize (H4 x). specialize (Ha x). rewrite cover_app in H4. cbn in Ha |- *. pose proof (cover_nonneg (held y) x). lia. }
  { lia. }
  eexists _, _. split; [cbn [exec]; rewrite E; reflexivity|]. split; cbn [mem held all]; [exact Hs'|exact H2|exact H3| | |exact Ha|exact Ht].
  - intros x. specialize (H4 x). rewrite cover_app in *. rewrite ranged_perm. cbn. lia.
  - rewrite total_app, ranged_perm. cbn. lia.
Qed.

(** The part of an allocation before the search. *)
Lemma page_reclaim y bs rs n : pages_ok y bs -> legal (Alloc rs n) y ->
  exists s1 bs1 h1, (if nfree (mem y) <? 32 then reclaim_memory rs else mret tt) (mem y) = Done tt s1 /\ after_reclaim rs (mem y) = s1 /\
    h1 = (if nfree (mem y) <? 32 then list_difference (held y) rs else held y) /\ pages_ok (Pages s1 h1 (all y)) bs1.
Proof.
  intros Hy (Hn & Hnd & Hsub). pose proof Hy as [H1 H2 H3 H4 H5 H6 H7]. unfold after_reclaim. destruct (nfree (mem y) <? 32).
  - pose proof (difference_perm (held y) rs H3 Hnd Hsub) as Hp. set (rest := list_difference (held y) rs) in *.
    rewrite <- Hp in H2. apply Forall_app in H2 as [Hr1 Hr2]. pose proof (total_nonneg _ Hr2). rewrite total_app, <- Hp, total_app in H5.
    destruct (reclaim_spec rs (mem y) bs H1 Hr1) as (s1 & bs1 & E & Hs1 & Hc1 & Ht1).
    { intros x. specialize (H4 x). specialize (H6 x). rewrite cover_app, <- Hp, cover_app in H4. rewrite cover_app. pose proof (cover_nonneg rest x). lia. }
    { lia. }
    exists s1, bs1, rest. rewrite E. split; [reflexivity|]. split; [reflexivity|]. split; [reflexivity|].
    split; cbn [mem held all]; [exact Hs1|exact Hr2|now apply NoDup_list_difference| | |exact H6|exact H7].
    + intros x. specialize (H4 x). rewrite cover_app, <- Hp, cover_app in H4. rewrite cover_app, Hc1. lia.
    + rewrite total_app. lia.
  - exists (mem y), bs, (held y). split; [reflexivity|]. split; [reflexivity|]. split; [reflexivity|]. now destruct y.
Qed.

Lemma page_step_alloc y bs rs n : pages_ok y bs -> legal (Alloc rs n) y -> fits (Alloc rs n) y -> good_step (Alloc rs n) y.
Proof.
  intros Hy Hl Hex. pose proof Hl as (Hn & _).
  destruct (page_reclaim y bs rs n Hy Hl) as (s1 & bs1 & h1 & E1 & Es1 & Eh1 & [P1 P2 P3 P4 P5 P6 P7]). cbn [mem held all fits] in *. rewrite Es1, (free_blocks_ok _ _ P1) in Hex.
  destruct (first_fit _ _ Hex) as (pre & b & post & E & Hpre & Hb).
  destruct (late_phys_alloc_spec s1 bs1 pre b post n P1 E Hpre ltac:(lia)) as (s2 & E2 & Hs2 & _).
  assert (Hbok : block_ok b) by (pose proof (po_blocks _ _ P1) as H; rewrite E in H; apply Forall_app in H as [_ H]; now inversion H).
  assert (Hcov : forall x, cover (carve pre b post n) x + b2z (in_block (carved b n) x) = cover bs1 x) by (intros x; rewrite E; apply carve_cover; [exact Hbok|lia]).
  pose proof (carved_ok b n Hbok ltac:(lia)) as Hcok. change (fst (carved b n)) with (fst b + (snd b - n) * PGSIZE) in E2.
  eexists _, _. split.
  - cbn [exec]. unfold alloc. unfold mbind, SM_bind, gets. rewrite E1, u64_small, E2 by lia. rewrite <- Eh1. reflexivity.
  - split; cbn [mem held all]; [exact Hs2|now constructor| | | |exact P6|exact P7].
    + constructor; [|exact P3]. intros Hin. pose proof (in_block_start _ Hcok) as Hst. specialize (P4 (fst (carved b n))). specialize (P6 (fst (carved b n))).
      specialize (Hcov (fst (carved b n))). rewrite Hst in Hcov. rewrite cover_app in P4. pose proof (cover_nonneg (carve pre b post n) (fst (carved b n))).
      assert (Hz : cover h1 (fst (carved b n)) = 0) by (cbn [b2z] in Hcov; pose proof (cover_nonneg h1 (fst (carved b n))); lia).
      pose proof (cover_zero_in _ _ _ Hz Hin) as Hf. unfold carved in Hst, Hf. congruence.
    + intros x. specialize (P4 x). specialize (Hcov x). rewrite cover_app in *. cbn. unfold carved in Hcov. lia.
    + rewrite total_app in *. cbn [total snd]. pose proof (carve_total pre b post n) as Hct. rewrite <- E in Hct. lia.
Qed.

Lemma pages0_ok : pages_ok pages0 [].
Proof. repeat split; cbn; try lia; try constructor. intros x. cbn. lia. intros x. cbn. lia. Qed.

Lemma page_step_good o y bs : pages_ok y bs -> legal o y -> fits o y -> good_step o y.
Proof. destruct o; intros Hy Hl Hf; [eapply page_step_alloc|eapply page_step_free|eapply page_step_range]; eauto. Qed.

(** *** Requests that do not fit

    No operation makes a header at address 0, so that a search that ends there
    has nothing to go on with. *)

Definition keeps_null {A} (c : P A) : Prop :=
  forall s, frames s !! 0 = None -> match c s with Done _ s' => frames s' !! 0 = None | _ => True end.

Lemma keeps_null_bind {A B} (c : P A) (f : A -> P B) : keeps_null c -> (forall a, keeps_null (f a)) -> keeps_null (c ≫= f).
Proof. intros Hc Hf s Hs. specialize (Hc s Hs). unfold mbind, SM_bind. destruct (c s) as [a s'| |]; [now apply Hf|exact I..]. Qed.
Lemma keeps_null_ret {A} (a : A) : keeps_null (mret a).
Proof. intros s Hs. exact Hs. Qed.
Lemma keeps_null_gets {A} (f : kmem -> A) : keeps_null (gets f).
Proof. intros s Hs. exact Hs. Qed.
Lemma keeps_null_frame a : keeps_null (get_frame a).
Proof. intros s Hs. unfold get_frame, sopt. now destruct (frames s !! a). Qed.
Lemma keeps_null_modify f : (forall s, frames (f s) = frames s) -> keeps_null (modify f).
Proof. intros Hf s Hs. cbn. now rewrite Hf. Qed.
Lemma keeps_null_put a f : a <> 0 -> keeps_null (put_frame a f).
Proof. intros Ha s Hs. cbn. now rewrite lookup_insert_ne. Qed.
(** The header of a block is written where there is one. *)
Lemma keeps_null_set a (g : frame -> frame) : keeps_null (f ← get_frame a; put_frame a (g f)).
Proof.
  intros s Hs. unfold get_frame, sopt, put_frame, mbind, SM_bind. destruct (frames s !! a) eqn:E; [|exact I].
  cbn. rewrite lookup_insert_ne by congruence. exact Hs.
Qed.
Lemma keeps_null_loop {V R} fuel (body : V -> P (ctl V R)) v : (forall v, keeps_null (body v)) -> keeps_null (sloop fuel body v).
Proof.
  intros Hb. revert v. induction fuel as [|fuel IH]; intros v; [intros s _; exact I|]. cbn [sloop].
  apply keeps_null_bind; [apply Hb|]. intros [v'|r]; [apply IH|apply keeps_null_ret].
Qed.
Lemma keeps_null_zero a n : keeps_null (zero_pages a n).
Proof. intros s Hs. cbn. now rewrite map_lookup_imap, Hs. Qed.

Ltac null_step :=
  match goal with
  | |- keeps_null (set_next ?a ?x) => exact (keeps_null_set a (fun f => Frame x (page_len f)))
  | |- keeps_null (set_page_len ?a ?x) => exact (keeps_null_set a (fun f => Frame (next f) x))
  | |- keeps_null (mbind _ _) => apply keeps_null_bind; [|intros ?]
  | |- keeps_null (mret _) => apply keeps_null_ret
  | |- keeps_null (gets _) => apply keeps_null_gets
  | |- keeps_null (get_frame _) => apply keeps_null_frame
  | |- keeps_null (zero_pages _ _) => apply keeps_null_zero
  | |- keeps_null (sloop _ _ _) => apply keeps_null_loop; intros ?
  | |- keeps_null (put_frame _ _) => apply keeps_null_put; assumption
  | |- keeps_null panic => intros ? _; exact I
  | |- keeps_null (modify _) => apply keeps_null_modify; intros ?; try reflexivity; now destruct (_ <? _)
  | |- keeps_null (if ?b then _ else _) => destruct b
  | |- keeps_null (let '(_, _) := ?x in _) => destruct x
  end.

Lemma keeps_null_free v len : v <> 0 -> keeps_null (free v len).
Proof. intros Hv. unfold free, find_place, patch_up, count_free. cbv zeta. repeat null_step. Qed.

Lemma keeps_null_range v w : PGROUNDUP v <> 0 -> keeps_null (free_range v w).
Proof. intros Hv. unfold free_range, count_free. cbv zeta. repeat null_step. Qed.

Lemma keeps_null_reclaim rs : Forall block_ok rs -> keeps_null (reclaim_memory rs).
Proof.
  induction 1 as [|[v len] rs (Hb & _) _ IH]; cbn [reclaim_memory]; [apply keeps_null_ret|]. cbn [fst] in Hb.
  apply keeps_null_bind; [apply keeps_null_free; lia|auto].
Qed.

Lemma keeps_null_alloc rs n : Forall block_ok rs -> keeps_null (alloc rs n).
Proof.
  intros Hrs. pose proof (keeps_null_reclaim rs Hrs). unfold alloc, late_phys_alloc, find_fit. repeat (assumption || null_step).
Qed.

(** What is reclaimed was held. *)
Lemma reclaimed_ok y bs rs n : pages_ok y bs -> legal (Alloc rs n) y -> Forall block_ok rs.
Proof.
  intros Hy (_ & _ & Hsub). apply Forall_forall. intros b Hb. pose proof (pg_held _ _ Hy) as Hh. rewrite Forall_forall in Hh.
  apply Hh, list_elem_of_In, Hsub, list_elem_of_In, Hb.
Qed.

Lemma page_step_null o y bs y' : pages_ok y bs -> frames (mem y) !! 0 = None -> legal o y -> exec o y = Some y' -> frames (mem y') !! 0 = None.
Proof.
  intros Hy H0 Hl E. destruct o as [rs n|[v len]|v w]; cbn [exec] in E.
  - pose proof (keeps_null_alloc rs n (reclaimed_ok _ _ _ _ Hy Hl) _ H0). destruct (alloc rs n (mem y)); simplify_eq; assumption.
  - pose proof (pg_held _ _ Hy) as Hh. rewrite Forall_forall in Hh. destruct (Hh (v, len)) as [Hv _]; [now apply list_elem_of_In|].
    cbn [fst snd] in *. pose proof (keeps_null_free v len ltac:(lia) _ H0). destruct (free v len (mem y)); simplify_eq; assumption.
  - destruct Hl as (_ & _ & [Hb _] & _). cbn [range_block fst] in Hb.
    pose proof (keeps_null_range v w ltac:(lia) _ H0). destruct (free_range v w (mem y)); simplify_eq; assumption.
Qed.

(** Without a block that is large enough an allocation fails. *)
Lemma page_step_full y bs rs n : pages_ok y bs -> frames (mem y) !! 0 = None -> legal (Alloc rs n) y -> ~ fits (Alloc rs n) y ->
  alloc rs n (mem y) = Fail.
Proof.
  intros Hy H0 Hl Hno. pose proof Hl as (Hn & _). destruct (page_reclaim y bs rs n Hy Hl) as (s1 & bs1 & h1 & E1 & Es1 & _ & Hy1).
  pose proof (pg_phys _ _ Hy1) as P1. cbn [mem fits] in *. rewrite Es1, (free_blocks_ok _ _ P1) in Hno.
  assert (Hall : Forall (fun c => snd c < n) bs1).
  { apply Forall_forall. intros c Hc. destruct (Z.le_gt_cases n (snd c)); [|lia]. destruct Hno. apply Exists_exists. eauto. }
  assert (H1 : frames s1 !! 0 = None).
  { pose proof (keeps_null_reclaim rs (reclaimed_ok _ _ _ _ Hy Hl) _ H0) as Hk. destruct (nfree (mem y) <? 32).
    - rewrite E1 in Hk. exact Hk.
    - injection E1 as <-. exact H0. }
  unfold alloc. rewrite (bind_done _ _ _ _ _ (eq_refl : gets nfree (mem y) = Done (nfree (mem y)) (mem y))), (bind_done _ _ _ _ _ E1).
  rewrite u64_small by lia. unfold late_phys_alloc.
  rewrite (bind_done _ _ _ _ _ (eq_refl : gets freelist s1 = Done (freelist s1) s1)). rewrite (po_head _ _ P1).
  destruct (_ =? 0); [reflexivity|]. rewrite (bind_done _ _ _ _ _ (find_fit_miss s1 bs1 n P1 Hall)). unfold mbind, SM_bind, get_frame, sopt.
  now rewrite H1.
Qed.

Lemma reach_pages_ok y : reach pages0 y -> (exists bs, pages_ok y bs) /\ frames (mem y) !! 0 = None.
Proof.
  induction 1 as [|o y1 y2 _ [[bs Hbs] H0] Hl E]; [split; [eexists; apply pages0_ok|apply lookup_empty]|].
  split; [|eapply page_step_null; eauto].
  assert (Hf : fits o y1).
  { destruct o as [rs n| |]; [|exact I..]. destruct (decide (fits (Alloc rs n) y1)) as [Hf|Hf]; [exact Hf|].
    cbn [exec] in E. now rewrite (page_step_full _ _ _ _ Hbs H0 Hl Hf) in E. }
  destruct (page_step_good o y1 bs Hbs Hl Hf) as (y' & bs' & E' & H'). exists bs'. congruence.
Qed.

(** C26: Physical pages are neither lost nor given out twice.  However the kernel
    hands ranges over, allocates pages, and frees and reclaims blocks that it
    holds, every page that was handed over is at every moment either in exactly one free block or in exactly
    one block that is held.  No operation loops; handing over, freeing, and
    allocating where a free block is large enough succeed; and an allocation for
    which no free block is large enough fails, with the panic on an empty list or
    at the end of the list, where the code goes on at address 0. *)
Theorem pages_conserved y :
  reach pages0 y ->
  (forall o, legal o y -> fits o y -> is_Some (exec o y)) /\
  (forall rs n, legal (Alloc rs n) y -> ~ fits (Alloc rs n) y -> alloc rs n (mem y) = Fail) /\
  phys_ok (mem y) (free_blocks (mem y)) /\
  forall x, cover (free_blocks (mem y) ++ held y) x = cover (all y) x /\ cover (all y) x <= 1.
Proof.
  intros [[bs Hbs] H0]%reach_pages_ok. rewrite (free_blocks_ok _ _ (pg_phys _ _ Hbs)). split; [|split; [|split; [apply Hbs|]]].
  - intros o Hl Hf. destruct (page_step_good o y bs Hbs Hl Hf) as (y' & ? & -> & _). eauto.
  - intros rs n. now apply (page_step_full y bs).
  - intros x. split; [apply (pg_cover _ _ Hbs)|apply (pg_apart _ _ Hbs)].
Qed.

(** A range of 64 pages, two allocations, and the first block freed. *)
Definition demo_pages1 : pages := default pages0 (exec (Range 4000 266240) pages0).
Definition demo_pages2 : pages := default pages0 (exec (Alloc [] 3) demo_pages1).
Definition demo_pages3 : pages := default pages0 (exec (Alloc [] 2) demo_pages2).
Definition demo_pages4 : pages := default pages0 (exec (Free (253952, 3)) demo_pages3).

Lemma pages_conserved_witness :
  held demo_pages4 = [(245760, 2)] /\ free_blocks (mem demo_pages4) = [(4096, 59); (253952, 3)] /\
  phys_ok (mem demo_pages4) (free_blocks (mem demo_pages4)) /\
  forall x, cover (free_blocks (mem demo_pages4) ++ held demo_pages4) x = cover (all demo_pages4) x /\ cover (all demo_pages4) x <= 1.
Proof.
  split; [vm_compute; reflexivity|]. split; [vm_compute; reflexivity|].
  refine (proj2 (proj2 (pages_conserved demo_pages4 _))).
  apply (reach_step _ (Free (253952, 3)) demo_pages3); [|vm_compute; right; left|vm_compute; reflexivity].
  apply (reach_step _ (Alloc [] 2) demo_pages2); [| |vm_compute; reflexivity].
  2: { split; [lia|]. split; [constructor|]. intros b Hb. inversion Hb. }
  apply (reach_step _ (Alloc [] 3) demo_pages1); [| |vm_compute; reflexivity].
  2: { split; [lia|]. split; [constructor|]. intros b Hb. inversion Hb. }
  apply (reach_step _ (Range 4000 266240) pages0); [apply reach_start| |vm_compute; reflexivity].
  split; [lia|]. split; [lia|]. change (range_block 4000 266240) with (4096, 64). split; [unfold block_ok, PGSIZE; cbn [fst snd]; split; [lia|split; [reflexivity|lia]]|].
  split; [|cbn; lia]. intros x. cbn [cover all pages0]. pose proof (b2z_range (in_block (4096, 64) x)). lia.
Defined.
