(* ===== verification/WordMem.v ===== *)
(** * Word memory

    Structures that only have pointers and [long]s live in a memory of 8-byte
    words: a map from the addresses of words to their values.  The field at offset
    [o] of the structure at [x] is the word at [x + o]. *)

From S2P Require Import Prelude CMem State.

Definition words : Type := gmap Z Z.
Definition W : Type -> Type := SM words.

Definition load (a : Z) : W Z := sopt (fun m => m !! a).
Definition store (a v : Z) : W unit := supd (fun m => _ ← m !! a; Some (<[a := v]> m)).

(** Every loop that runs over such structures visits a node at most once, or goes
    up or down one level of a tree each time: the number of words bounds them. *)
Definition fuel_of (m : words) : nat := S (size m).
Definition wloop {V R} (body : V -> W (ctl V R)) (v : V) : W R :=
  fuel ← gets fuel_of; sloop fuel body v.

(** The words [ws] are in memory, each once. *)
Definition holds (m : words) (ws : list (Z * Z)) : Prop :=
  NoDup ws.*1 /\ forall a v, (a, v) ∈ ws -> m !! a = Some v.

(** Words in memory bound the fuel. *)
Lemma holds_fuel m ws : holds m ws -> (length ws < fuel_of m)%nat.
Proof.
  intros [Hnd Hin]. unfold fuel_of. rewrite <- (size_dom (D := gset Z) (m : gmap Z Z)). enough (list_to_set ws.*1 ⊆ (dom (m : gmap Z Z) : gset Z)) as Hsub.
  { apply subseteq_size in Hsub. rewrite size_list_to_set in Hsub by exact Hnd. rewrite length_fmap in Hsub. lia. }
  intros a Ha. apply elem_of_list_to_set, list_elem_of_fmap in Ha as ([b v] & -> & Hp). apply elem_of_dom. exists v. exact (Hin b v Hp).
Qed.
