(* ===== verification/WordLogic.v ===== *)
(** * A separation logic for word memory

    Iris's ghost heap over the word memory of WordMem: [a ↦ v] is ownership of
    the word at [a], and [hwp c Φ] says that [c] comes back, without a fault and
    within its fuel, from every memory that has the words owned, changes only
    those, and ends in [Φ].  [hwp_adequacy] turns such a proof into a statement
    about the function that runs the code. *)

From iris.proofmode Require Import proofmode.
From iris.base_logic.lib Require Import gen_heap.
From iris.base_logic Require Import base_logic.
From S2P Require Import Prelude CMem State WordMem.

Notation "l ↦ v" := (pointsto l (DfracOwn 1) v) (at level 20, format "l  ↦  v") : bi_scope.

Section hwp.
Context `{!gen_heapGS Z Z Σ}.

Definition hwp {A} (c : W A) (Φ : A -> iProp Σ) : iProp Σ :=
  ∀ m, gen_heap_interp m ==∗ ∃ a m', ⌜c m = Done a m'⌝ ∗ gen_heap_interp m' ∗ Φ a.

Lemma hwp_ret {A} (a : A) Φ : Φ a ⊢ hwp (mret a) Φ.
Proof. iIntros "H" (m) "Hm". iModIntro. iExists a, m. by iFrame. Qed.

Lemma hwp_bind {A B} (c : W A) (f : A -> W B) Φ : hwp c (fun a => hwp (f a) Φ) ⊢ hwp (c ≫= f) Φ.
Proof.
  iIntros "H" (m) "Hm". iMod ("H" with "Hm") as (a m1 E1) "[Hm H]".
  iMod ("H" with "Hm") as (b m2 E2) "[Hm H]". iModIntro. iExists b, m2. iFrame.
  iPureIntro. unfold mbind, SM_bind. by rw E1.
Qed.

Lemma hwp_wand {A} (c : W A) Φ Ψ : hwp c Φ -∗ (∀ a, Φ a -∗ Ψ a) -∗ hwp c Ψ.
Proof.
  iIntros "H K" (m) "Hm". iMod ("H" with "Hm") as (a m' E) "[Hm H]". iModIntro.
  iExists a, m'. iFrame "Hm". iSplit; [done|]. by iApply "K".
Qed.

Lemma hwp_load a v Φ : a ↦ v -∗ (a ↦ v -∗ Φ v) -∗ hwp (load a) Φ.
Proof.
  iIntros "Ha K" (m) "Hm". iDestruct (gen_heap_valid with "Hm Ha") as %E. iModIntro.
  iExists v, m. iFrame "Hm". iSplit; [iPureIntro; unfold load, sopt; by rw E|]. by iApply "K".
Qed.

Lemma hwp_store a v w Φ : a ↦ v -∗ (a ↦ w -∗ Φ tt) -∗ hwp (store a w) Φ.
Proof.
  iIntros "Ha K" (m) "Hm". iDestruct (gen_heap_valid with "Hm Ha") as %E.
  iMod (gen_heap_update with "Hm Ha") as "[Hm Ha]". iModIntro.
  iExists tt, _. iFrame "Hm". iSplit; [iPureIntro; unfold store, supd; by rw E|]. by iApply "K".
Qed.

(** Loops: a proof of the loop with any fuel above a bound. *)
Lemma hwp_loop_step {V R} (body : V -> W (ctl V R)) fuel v Φ :
  hwp (body v) (fun x => match x with Next v' => hwp (sloop fuel body v') Φ | Break r => Φ r end)
  ⊢ hwp (sloop (S fuel) body v) Φ.
Proof.
  iIntros "H". cbn [sloop]. iApply hwp_bind. iApply (hwp_wand with "H").
  iIntros ([v'|r]) "H"; [done|]. by iApply hwp_ret.
Qed.

Lemma words_nodup (l : list (Z * Z)) : ([∗ list] w ∈ l, w.1 ↦ w.2) ⊢ ⌜NoDup l.*1⌝.
Proof.
  iIntros "H". iInduction l as [|[a v] l] "IH"; [iPureIntro; constructor|].
  iDestruct "H" as "[Ha H]". iDestruct ("IH" with "H") as %Hnd.
  iAssert ⌜a ∉ l.*1⌝%I as %Hna; [|iPureIntro; by constructor].
  iIntros (Hin). apply list_elem_of_fmap in Hin as ([b w] & -> & Hin). apply list_elem_of_lookup in Hin as [i Hi].
  iDestruct (big_sepL_lookup _ _ _ _ Hi with "H") as "Hb". by iDestruct (pointsto_ne with "Ha Hb") as %Hne.
Qed.

Lemma words_in (l : list (Z * Z)) m : gen_heap_interp m -∗ ([∗ list] w ∈ l, w.1 ↦ w.2) -∗ ⌜holds m l⌝.
Proof.
  iIntros "Hm H". iDestruct (words_nodup with "H") as %Hnd. iSplit; [done|]. iIntros (a v Hin).
  apply list_elem_of_lookup in Hin as [i Hi]. iDestruct (big_sepL_lookup _ _ _ _ Hi with "H") as "Hb".
  iApply (gen_heap_valid with "Hm Hb").
Qed.
Lemma words_fuel (l : list (Z * Z)) m :
  gen_heap_interp m -∗ ([∗ list] w ∈ l, w.1 ↦ w.2) -∗ ⌜(length l < fuel_of m)%nat⌝.
Proof. iIntros "Hm Hl". iDestruct (words_in with "Hm Hl") as %Hl. iPureIntro. by apply holds_fuel. Qed.

Lemma hwp_wloop {V R} (l : list (Z * Z)) (body : V -> W (ctl V R)) v Φ :
  ([∗ list] w ∈ l, w.1 ↦ w.2) -∗
  (∀ fuel, ⌜(length l < fuel)%nat⌝ -∗ ([∗ list] w ∈ l, w.1 ↦ w.2) -∗ hwp (sloop fuel body v) Φ) -∗
  hwp (wloop body v) Φ.
Proof.
  iIntros "Hl K". iApply hwp_bind. iIntros (m) "Hm". iDestruct (words_fuel with "Hm Hl") as %Hf.
  iModIntro. iExists (fuel_of m), m. iFrame "Hm". iSplit; [done|]. by iApply ("K" with "[] Hl").
Qed.
End hwp.

(** ** Adequacy *)

Lemma hwp_adequacy {A} (c : W A) m (φ : A -> words -> Prop) :
  (forall `{!gen_heapGS Z Z Σ}, ([∗ map] a ↦ v ∈ m, a ↦ v) ⊢
     hwp c (fun x => ∀ m', gen_heap_interp m' -∗ ⌜φ x m'⌝)) ->
  exists x m', c m = Done x m' /\ φ x m'.
Proof.
  intros H. set (Σ := gen_heapΣ Z Z).
  apply (pure_soundness (PROP := iPropI Σ)), uPred.bupd_soundness; [apply _|].
  iMod (gen_heap_init m) as (G) "(Hm & Hl & _)".
  iMod (H Σ G with "Hl Hm") as (x m') "(%E & Hm & K)". iDestruct ("K" with "Hm") as %Hφ. iModIntro. iPureIntro. eauto.
Qed.

(** A computation that owns [ws] and gives back words that satisfy [Φ] runs in
    every memory that holds [ws], and leaves the other words alone. *)
Lemma run_words {A} (c : W A) m ws (Φ : A -> list (Z * Z) -> Prop) :
  holds m ws ->
  (forall `{!gen_heapGS Z Z Σ}, ([∗ list] w ∈ ws, w.1 ↦ w.2) ⊢
     hwp c (fun x => ∃ ws', ⌜Φ x ws'⌝ ∗ [∗ list] w ∈ ws', w.1 ↦ w.2)) ->
  exists x m' ws', c m = Done x m' /\ Φ x ws' /\ holds m' ws' /\
    forall a v, a ∉ ws.*1 -> m !! a = Some v -> m' !! a = Some v.
Proof.
  intros [Hnd Hin] Hc.
  destruct (hwp_adequacy c m (fun x m' => exists ws', Φ x ws' /\ holds m' ws' /\ forall a v, a ∉ ws.*1 -> m !! a = Some v -> m' !! a = Some v))
    as (x & m' & E & ws' & H1 & H2 & H3); [|by eauto 10].
  intros Σ G. set (m1 := list_to_map ws : words).
  assert (Hsub : m1 ⊆ m). { apply map_subseteq_spec. intros a v Ha. apply Hin. by apply elem_of_list_to_map. }
  rw -{1}(map_difference_union m1 m Hsub) big_sepM_union; [|by apply map_disjoint_difference_r1].
  rw big_sepM_list_to_map //. iIntros "[H R]". iApply (hwp_wand with "[H]").
  { iApply Hc. iApply (big_sepL_mono with "H"). by iIntros (i [a v] _). }
  iIntros (x) "(%ws' & %HΦ & H)". iIntros (m') "Hm". iDestruct (words_in with "Hm H") as %Hw.
  iExists ws'. iSplit; [done|]. iSplit; [done|]. iIntros (a v Ha Hv).
  iDestruct (big_sepM_lookup _ _ a v with "R") as "Ha".
  { apply lookup_difference_Some. split; [done|]. by apply not_elem_of_list_to_map_1. }
  iApply (gen_heap_valid with "Hm Ha").
Qed.
