(* ===== verification/Rbtree.v ===== *)
(** * Red-black trees in memory (kernel/lib/rbtree.cpp, rbtree.h, rbtree_augmented.h)

    The trees of the kernel link [struct rb_node]s that live inside other
    structures.  In the word memory of WordMem a node has three words, the address of its parent with its colour in
    bit 0, the right child and the left child, and a [struct rb_root] one.  A
    pointer to a link ([struct rb_node **]) is the address of its word.

    Where the source has a branch and then the same branch with left and right
    exchanged, the definition takes the side as an argument. *)

From S2P Require Import Prelude CMem State WordMem.

(** ** Fields *)

Inductive side := Lft | Rgt.
#[export] Instance side_eq_dec : EqDecision side.
Proof. solve_decision. Defined.
Definition flip (d : side) : side := match d with Lft => Rgt | Rgt => Lft end.

(** [&node->rb_right] and [&node->rb_left]; [__rb_parent_color] is the first word. *)
Definition rb_right (node : Z) : Z := node + 8.
Definition rb_left (node : Z) : Z := node + 16.
Definition child (d : side) (node : Z) : Z :=
  match d with Lft => rb_left node | Rgt => rb_right node end.

Definition RB_RED : Z := 0.
Definition RB_BLACK : Z := 1.

Definition __rb_parent (pc : Z) : Z := Z.land pc (u64 (Z.lnot 3)).
Definition __rb_color (pc : Z) : Z := Z.land pc 1.
Definition __rb_is_black (pc : Z) : bool := negb (__rb_color pc =? 0).
Definition __rb_is_red (pc : Z) : bool := __rb_color pc =? 0.

Definition rb_parent (r : Z) : W Z := pc ← load r; mret (__rb_parent pc).
Definition rb_color (rb : Z) : W Z := pc ← load rb; mret (__rb_color pc).
Definition rb_is_red (rb : Z) : W bool := pc ← load rb; mret (__rb_is_red pc).
Definition rb_is_black (rb : Z) : W bool := pc ← load rb; mret (__rb_is_black pc).
Definition RB_EMPTY_NODE (node : Z) : W bool := pc ← load node; mret (pc =? node).

Definition rb_set_black (rb : Z) : W unit := pc ← load rb; store rb (Z.lor pc RB_BLACK).
Definition rb_red_parent (red : Z) : W Z := load red.
Definition rb_set_parent (rb p : Z) : W unit := c ← rb_color rb; store rb (Z.lor c p).
Definition rb_set_parent_color (rb p color : Z) : W unit := store rb (Z.lor p color).

Definition __rb_change_child (old newnode parent root : Z) : W unit :=
  if negb (parent =? 0) then
    l ← load (rb_left parent);
    if l =? old then store (rb_left parent) newnode else store (rb_right parent) newnode
  else store root newnode.

Definition __rb_rotate_set_parents (old newnode root color : Z) : W unit :=
  parent ← rb_parent old;
  pc ← load old;
  store newnode pc;;
  rb_set_parent_color old newnode color;;
  __rb_change_child old newnode parent root.

(** ** Walks *)

(** [while (n->rb_left) n = n->rb_left;] and the same to the right. *)
Definition rb_descend (d : side) (n : Z) : W Z :=
  wloop (fun n => c ← load (child d n); if c =? 0 then mret (Break n) else mret (Next c)) n.

Definition rb_first (root : Z) : W Z :=
  n ← load root; if n =? 0 then mret 0 else rb_descend Lft n.
Definition rb_last (root : Z) : W Z :=
  n ← load root; if n =? 0 then mret 0 else rb_descend Rgt n.

(** [rb_next] ([d = Rgt]) and [rb_prev] ([d = Lft]). *)
Definition rb_step (d : side) (node : Z) : W Z :=
  e ← RB_EMPTY_NODE node;
  if e : bool then mret 0
  else
    c ← load (child d node);
    if negb (c =? 0) then rb_descend (flip d) c
    else
      wloop (fun node =>
        parent ← rb_parent node;
        if parent =? 0 then mret (Break parent)
        else
          c ← load (child d parent);
          if node =? c then mret (Next parent) else mret (Break parent)) node.
Definition rb_next (node : Z) : W Z := rb_step Rgt node.
Definition rb_prev (node : Z) : W Z := rb_step Lft node.

Definition rb_left_deepest_node (node : Z) : W Z :=
  wloop (fun node =>
    l ← load (rb_left node);
    if negb (l =? 0) then mret (Next l)
    else
      r ← load (rb_right node);
      if negb (r =? 0) then mret (Next r) else mret (Break node)) node.

Definition rb_next_postorder (node : Z) : W Z :=
  if node =? 0 then mret 0
  else
    parent ← rb_parent node;
    if parent =? 0 then mret parent
    else
      l ← load (rb_left parent);
      if node =? l then
        r ← load (rb_right parent);
        if negb (r =? 0) then rb_left_deepest_node r else mret parent
      else mret parent.

Definition rb_first_postorder (root : Z) : W Z :=
  n ← load root; if n =? 0 then mret 0 else rb_left_deepest_node n.

(** ** Insertion *)

Section augmented.
(** The callbacks of augmented trees. *)
Context (augment_propagate augment_copy augment_rotate : Z -> Z -> W unit).

(** The cases of [__rb_insert] for a parent that is the [d] child of its own
    parent; [tmp] is the uncle. *)
Definition rb_insert_fix (d : side) (root node parent gparent tmp : Z) : W (ctl (Z * Z) unit) :=
  red ← (if tmp =? 0 then mret false else rb_is_red tmp);
  if red : bool then
    rb_set_parent_color tmp gparent RB_BLACK;;
    rb_set_parent_color parent gparent RB_BLACK;;
    let node := gparent in
    parent ← rb_parent node;
    rb_set_parent_color node parent RB_RED;;
    mret (Next (node, parent))
  else
    tmp ← load (child (flip d) parent);
    '(parent, tmp) ←
      (if node =? tmp then
         tmp ← load (child d node);
         store (child (flip d) parent) tmp;;
         store (child d node) parent;;
         (if negb (tmp =? 0) then rb_set_parent_color tmp parent RB_BLACK else mret tt);;
         rb_set_parent_color parent node RB_RED;;
         augment_rotate parent node;;
         tmp ← load (child (flip d) node);
         mret (node, tmp)
       else mret (parent, tmp));
    store (child d gparent) tmp;;
    store (child (flip d) parent) gparent;;
    (if negb (tmp =? 0) then rb_set_parent_color tmp gparent RB_BLACK else mret tt);;
    __rb_rotate_set_parents gparent parent root RB_RED;;
    augment_rotate gparent parent;;
    mret (Break tt).

Definition rb_insert_iter (root : Z) : Z * Z -> W (ctl (Z * Z) unit) := fun '(node, parent) =>
  if parent =? 0 then rb_set_parent_color node 0 RB_BLACK;; mret (Break tt)
  else
    black ← rb_is_black parent;
    if black : bool then mret (Break tt)
    else
      gparent ← rb_red_parent parent;
      tmp ← load (rb_right gparent);
      if negb (parent =? tmp) then rb_insert_fix Lft root node parent gparent tmp
      else
        tmp ← load (rb_left gparent);
        rb_insert_fix Rgt root node parent gparent tmp.

Definition __rb_insert (node root : Z) : W unit :=
  parent ← rb_red_parent node;
  wloop (rb_insert_iter root) (node, parent).

(** ** Removal *)

(** [____rb_erase_color] for a node that is the [d] child of [parent].  Case 1: a
    red sibling; the sibling after it. *)
Definition rb_erase_case1 (d : side) (root parent sibling : Z) : W Z :=
  red ← rb_is_red sibling;
  if red : bool then
    tmp1 ← load (child d sibling);
    store (child (flip d) parent) tmp1;;
    store (child d sibling) parent;;
    rb_set_parent_color tmp1 parent RB_BLACK;;
    __rb_rotate_set_parents parent sibling root RB_RED;;
    augment_rotate parent sibling;;
    mret tmp1
  else mret sibling.

(** Case 2: the sibling becomes red. *)
Definition rb_erase_case2 (parent sibling : Z) : W (ctl (Z * Z) unit) :=
  rb_set_parent_color sibling parent RB_RED;;
  red ← rb_is_red parent;
  if red : bool then rb_set_black parent;; mret (Break tt)
  else
    let node := parent in
    parent ← rb_parent node;
    if negb (parent =? 0) then mret (Next (node, parent)) else mret (Break tt).

(** Case 3: rotation at the sibling; [tmp1] and the sibling after it. *)
Definition rb_erase_case3 (d : side) (parent sibling tmp2 : Z) : W (Z * Z) :=
  tmp1 ← load (child (flip d) tmp2);
  store (child d sibling) tmp1;;
  store (child (flip d) tmp2) sibling;;
  store (child (flip d) parent) tmp2;;
  (if negb (tmp1 =? 0) then rb_set_parent_color tmp1 sibling RB_BLACK else mret tt);;
  augment_rotate sibling tmp2;;
  mret (sibling, tmp2).

(** Case 4: rotation at the parent. *)
Definition rb_erase_case4 (d : side) (root parent sibling tmp1 : Z) : W (ctl (Z * Z) unit) :=
  tmp2 ← load (child d sibling);
  store (child (flip d) parent) tmp2;;
  store (child d sibling) parent;;
  rb_set_parent_color tmp1 sibling RB_BLACK;;
  (if negb (tmp2 =? 0) then rb_set_parent tmp2 parent else mret tt);;
  __rb_rotate_set_parents parent sibling root RB_BLACK;;
  augment_rotate parent sibling;;
  mret (Break tt).

(** [!tmp || rb_is_black(tmp)] *)
Definition null_or_black (tmp : Z) : W bool := if tmp =? 0 then mret true else rb_is_black tmp.

Definition rb_erase_cases (d : side) (root parent sibling : Z) : W (ctl (Z * Z) unit) :=
  tmp1 ← load (child (flip d) sibling);
  b1 ← null_or_black tmp1;
  if b1 : bool then
    tmp2 ← load (child d sibling);
    b2 ← null_or_black tmp2;
    if b2 : bool then rb_erase_case2 parent sibling
    else
      '(tmp1, sibling) ← rb_erase_case3 d parent sibling tmp2;
      rb_erase_case4 d root parent sibling tmp1
  else rb_erase_case4 d root parent sibling tmp1.

Definition rb_erase_fix (d : side) (root parent sibling : Z) : W (ctl (Z * Z) unit) :=
  sibling ← rb_erase_case1 d root parent sibling;
  rb_erase_cases d root parent sibling.

Definition rb_erase_iter (root : Z) : Z * Z -> W (ctl (Z * Z) unit) := fun '(node, parent) =>
  sibling ← load (rb_right parent);
  if negb (node =? sibling) then rb_erase_fix Lft root parent sibling
  else
    sibling ← load (rb_left parent);
    rb_erase_fix Rgt root parent sibling.

Definition ____rb_erase_color (parent root : Z) : W unit :=
  wloop (rb_erase_iter root) (0, parent).

(** The walk to the successor, [do parent = successor; successor = tmp; tmp =
    tmp->rb_left; while (tmp)]. *)
Definition rb_successor (successor tmp : Z) : W (Z * Z) :=
  wloop (fun '(successor, tmp) =>
    let parent := successor in
    let successor := tmp in
    tmp ← load (rb_left tmp);
    if tmp =? 0 then mret (Break (parent, successor)) else mret (Next (successor, tmp)))
    (successor, tmp).

(** A node without a left child. *)
Definition rb_erase_leftless (node root child_ : Z) : W (Z * Z) :=
  pc ← load node;
  let parent := __rb_parent pc in
  __rb_change_child node child_ parent root;;
  rebalance ←
    (if negb (child_ =? 0) then store child_ pc;; mret 0
     else mret (if __rb_is_black pc then parent else 0));
  mret (parent, rebalance).

(** A node with a left child only. *)
Definition rb_erase_rightless (node root tmp : Z) : W (Z * Z) :=
  pc ← load node;
  store tmp pc;;
  let parent := __rb_parent pc in
  __rb_change_child node tmp parent root;;
  mret (parent, 0).

(** Cases 2 and 3: the successor taken out of the right subtree, the parent of
    what it leaves behind, and that. *)
Definition rb_erase_successor (node child_ : Z) : W (Z * Z * Z) :=
  tmp ← load (rb_left child_);
  if tmp =? 0 then
    let successor := child_ in
    let parent := successor in
    child2 ← load (rb_right successor);
    augment_copy node successor;;
    mret (successor, parent, child2)
  else
    '(parent, successor) ← rb_successor child_ tmp;
    child2 ← load (rb_right successor);
    store (rb_left parent) child2;;
    store (rb_right successor) child_;;
    rb_set_parent child_ successor;;
    augment_copy node successor;;
    augment_propagate parent successor;;
    mret (successor, parent, child2).

(** The successor takes the place of the node. *)
Definition rb_erase_splice (node root successor parent child2 : Z) : W (Z * Z) :=
  tmp ← load (rb_left node);
  store (rb_left successor) tmp;;
  rb_set_parent tmp successor;;
  pc ← load node;
  let tmp := __rb_parent pc in
  __rb_change_child node successor tmp root;;
  rebalance ←
    (if negb (child2 =? 0) then rb_set_parent_color child2 parent RB_BLACK;; mret 0
     else b ← rb_is_black successor; mret (if b : bool then parent else 0));
  store successor pc;;
  mret (successor, rebalance).

Definition __rb_erase_augmented (node root : Z) : W Z :=
  child_ ← load (rb_right node);
  tmp ← load (rb_left node);
  '(tmp, rebalance) ←
    (if tmp =? 0 then rb_erase_leftless node root child_
     else if child_ =? 0 then rb_erase_rightless node root tmp
     else
       '(successor, parent, child2) ← rb_erase_successor node child_;
       rb_erase_splice node root successor parent child2);
  augment_propagate tmp 0;;
  mret rebalance.

Definition rb_erase_augmented (node root : Z) : W unit :=
  rebalance ← __rb_erase_augmented node root;
  if negb (rebalance =? 0) then ____rb_erase_color rebalance root else mret tt.
End augmented.

(** ** The interface *)

Definition dummy_propagate (node stop : Z) : W unit := mret tt.
Definition dummy_copy (old newnode : Z) : W unit := mret tt.
Definition dummy_rotate (old newnode : Z) : W unit := mret tt.

Definition rb_insert_color (node root : Z) : W unit := __rb_insert dummy_rotate node root.

Definition rb_erase (node root : Z) : W unit :=
  rb_erase_augmented dummy_propagate dummy_copy dummy_rotate node root.

Definition rb_link_node (node parent rb_link : Z) : W unit :=
  store node parent;;
  store (rb_right node) 0;;
  store (rb_left node) 0;;
  store rb_link node.

Definition RB_INSERT_GO_LEFT : Z := -1.
Definition RB_INSERT_GO_RIGHT : Z := 1.
Definition RB_INSERT_GO_HERE : Z := 0.

(** The loop of [rb_insert]: the link the node goes to and its parent, or
    [None] when the callback stops the search. *)
Definition rb_search (callback : Z -> Z) (root : Z) : W (option (Z * Z)) :=
  wloop (fun '(n, parent) =>
    cur ← load n;
    if cur =? 0 then mret (Break (Some (n, parent)))
    else
      let result := callback cur in
      let parent := cur in
      if result =? RB_INSERT_GO_LEFT then mret (Next (rb_left cur, parent))
      else if result =? RB_INSERT_GO_RIGHT then mret (Next (rb_right cur, parent))
      else if result =? RB_INSERT_GO_HERE then mret (Break None)
      else mret (Next (n, parent))) (root, 0).

Definition rb_insert (callback : Z -> Z) (root node : Z) : W bool :=
  where_ ← rb_search callback root;
  match where_ with
  | None => mret false
  | Some (n, parent) =>
      rb_link_node node parent n;;
      rb_insert_color node root;;
      mret true
  end.

Definition rb_replace_node (victim newnode root : Z) : W unit :=
  parent ← rb_parent victim;
  pc ← load victim;
  store newnode pc;;
  r ← load (rb_right victim);
  store (rb_right newnode) r;;
  l ← load (rb_left victim);
  store (rb_left newnode) l;;
  (if negb (l =? 0) then rb_set_parent l newnode else mret tt);;
  (if negb (r =? 0) then rb_set_parent r newnode else mret tt);;
  __rb_change_child victim newnode parent root.

(** ** Trees that cache their first node: [rb_leftmost] is the word after the
    root's. *)
Definition rb_leftmost (root : Z) : Z := root + 8.
Definition rb_insert_color_cached (node root : Z) (leftmost : bool) : W unit :=
  (if leftmost then store (rb_leftmost root) node else mret tt);;
  rb_insert_color node root.
Definition rb_erase_cached (node root : Z) : W unit :=
  l ← load (rb_leftmost root);
  (if l =? node then n ← rb_next node; store (rb_leftmost root) n else mret tt);;
  rb_erase node root.
Definition rb_replace_node_cached (victim newnode root : Z) : W unit :=
  l ← load (rb_leftmost root);
  (if l =? victim then store (rb_leftmost root) newnode else mret tt);;
  rb_replace_node victim newnode root.
