(* ===== verification/RbtreeSpec.v ===== *)
(** * Red-black trees: what the words in memory mean

    A tree of node addresses with colours, the words it is laid out in, the
    colour and height rules, and trees with a hole, which is what the loops of
    rbtree.cpp work on: the path from a node up to the root. *)

From S2P Require Import Prelude CMem State WordMem Rbtree.

Inductive color := Red | Black.
Inductive tree := E | T (c : color) (l : tree) (x : Z) (r : tree).

Fixpoint inorder (t : tree) : list Z :=
  match t with E => [] | T _ l x r => inorder l ++ x :: inorder r end.
Fixpoint postorder (t : tree) : list Z :=
  match t with E => [] | T _ l x r => postorder l ++ postorder r ++ [x] end.

Definition addr (t : tree) : Z := match t with E => 0 | T _ _ x _ => x end.

Definition colz (c : color) : Z := match c with Red => RB_RED | Black => RB_BLACK end.
Definition pc (p : Z) (c : color) : Z := Z.lor p (colz c).

(** The words of a tree below the node [p], and of a whole tree. *)
Fixpoint tree_words (p : Z) (t : tree) : list (Z * Z) :=
  match t with
  | E => []
  | T c l x r =>
      (x, pc p c) :: (rb_right x, addr r) :: (rb_left x, addr l) :: tree_words x l ++ tree_words x r
  end.
Definition rb_words (root : Z) (t : tree) : list (Z * Z) := (root, addr t) :: tree_words 0 t.

(** A node is aligned and inside the address space. *)
Definition addr_ok (x : Z) : Prop := 0 < x /\ x mod 8 = 0 /\ x + 24 <= 2 ^ 64.

(** The tree of nodes at [root] in [m]. *)
Definition rb_at (m : words) (root : Z) (t : tree) : Prop :=
  holds m (rb_words root t) /\ Forall addr_ok (inorder t).

(** ** The rules of the colours *)

(** [is_rb t c n]: the root of [t] has colour [c], no red node has a red child,
    and every path down has [n] black nodes. *)
Inductive is_rb : tree -> color -> nat -> Prop :=
| rb_leaf : is_rb E Black 0
| rb_red l x r n : is_rb l Black n -> is_rb r Black n -> is_rb (T Red l x r) Red n
| rb_black l x r c1 c2 n : is_rb l c1 n -> is_rb r c2 n -> is_rb (T Black l x r) Black (S n).
#[export] Hint Constructors is_rb : chariot.

Definition rb_tree (t : tree) : Prop := exists n, is_rb t Black n.

(** ** Sides *)

Definition mk (d : side) (c : color) (a : tree) (x : Z) (b : tree) : tree :=
  match d with Lft => T c a x b | Rgt => T c b x a end.

Lemma mk_flip d c a x b : mk d c a x b = mk (flip d) c b x a.
Proof. now destruct d. Qed.

Lemma flip_flip d : flip (flip d) = d.
Proof. now destruct d. Qed.

Lemma addr_mk d c a x b : addr (mk d c a x b) = x.
Proof. now destruct d. Qed.

Lemma tree_cases d t : t = E \/ exists c a x b, t = mk d c a x b.
Proof. destruct t as [|c l x r]; [now left|right]. destruct d; [exists c, l, x, r|exists c, r, x, l]; reflexivity. Qed.

Lemma mk_red d a x b n : is_rb a Black n -> is_rb b Black n -> is_rb (mk d Red a x b) Red n.
Proof. destruct d; eauto with chariot. Qed.
Lemma mk_black d a x b c1 c2 n : is_rb a c1 n -> is_rb b c2 n -> is_rb (mk d Black a x b) Black (S n).
Proof. destruct d; eauto with chariot. Qed.
#[export] Hint Resolve mk_red mk_black : chariot.

Lemma mk_red_inv d a x b c n : is_rb (mk d Red a x b) c n -> c = Red /\ is_rb a Black n /\ is_rb b Black n.
Proof. destruct d; inversion 1; auto. Qed.
Lemma mk_black_inv d a x b c n : is_rb (mk d Black a x b) c n ->
  c = Black /\ exists n' c1 c2, n = S n' /\ is_rb a c1 n' /\ is_rb b c2 n'.
Proof. destruct d; inversion 1; eauto 10. Qed.

Lemma is_rb_E c n : is_rb E c n -> c = Black /\ n = O.
Proof. inversion 1; auto. Qed.

(** ** Trees with a hole *)

(** One step up: we are in the [dir] child of the node [fx], whose other child is
    [fsib]. *)
Record frame := Fr { dir : side; fcol : color; fx : Z; fsib : tree }.

Definition top (k : list frame) : Z := match k with [] => 0 | f :: _ => fx f end.

Fixpoint plug (k : list frame) (t : tree) : tree :=
  match k with [] => t | Fr d c x s :: k => plug k (mk d c t x s) end.

(** A hole for a tree of colour [c] and black height [n] in a valid tree with a
    black root. *)
Inductive ctx_rb : list frame -> color -> nat -> Prop :=
| ctx_nil n : ctx_rb [] Black n
| ctx_red d x s k n : is_rb s Black n -> ctx_rb k Red n -> ctx_rb (Fr d Red x s :: k) Black n
| ctx_black d x s k c c' n : is_rb s c' n -> ctx_rb k Black (S n) -> ctx_rb (Fr d Black x s :: k) c n.
#[export] Hint Constructors ctx_rb : chariot.

Lemma plug_rb k t c n : ctx_rb k c n -> is_rb t c n -> rb_tree (plug k t).
Proof.
  intros Hk. revert t. induction Hk as [n|d x s k n Hs Hk IH|d x s k c c' n Hs Hk IH]; intros t Ht; cbn [plug]; [exists n; auto| |];
    apply IH; eauto with chariot.
Qed.
#[export] Hint Resolve plug_rb : chariot.

(** The nodes before and after the hole. *)
Fixpoint before (k : list frame) : list Z :=
  match k with
  | [] => []
  | Fr Lft _ _ _ :: k => before k
  | Fr Rgt _ x s :: k => before k ++ inorder s ++ [x]
  end.
Fixpoint after (k : list frame) : list Z :=
  match k with
  | [] => []
  | Fr Lft _ x s :: k => x :: inorder s ++ after k
  | Fr Rgt _ _ _ :: k => after k
  end.

Lemma inorder_plug k t : inorder (plug k t) = before k ++ inorder t ++ after k.
Proof.
  revert t. induction k as [|[d c x s] k IH]; intros t; cbn [plug before after]; [now rewrite app_nil_r|].
  rewrite IH. destruct d; cbn [mk inorder]; rewrite <- !app_assoc; reflexivity.
Qed.

Lemma plug_app k k' t : plug (k ++ k') t = plug k' (plug k t).
Proof. revert t. induction k as [|[d c x s] k IH]; intros t; cbn [app plug]; auto. Qed.

(** Every node of a tree is the root of what is below some hole. *)
Lemma find_node x t : x ∈ inorder t -> exists k c l r, t = plug k (T c l x r).
Proof.
  induction t as [|c l IHl y r IHr]; cbn [inorder]; [now intros ?%elem_of_nil|].
  rewrite elem_of_app, elem_of_cons. intros [Hl|[->|Hr]].
  - destruct (IHl Hl) as (k & c' & l' & r' & ->). exists (k ++ [Fr Lft c y r]), c', l', r'. now rewrite plug_app.
  - now exists [], c, l, r.
  - destruct (IHr Hr) as (k & c' & l' & r' & ->). exists (k ++ [Fr Rgt c y l]), c', l', r'. now rewrite plug_app.
Qed.

Lemma plug_rb_inv k t : rb_tree (plug k t) -> exists c n, ctx_rb k c n /\ is_rb t c n.
Proof.
  revert t. induction k as [|[d c x s] k IH]; intros t Ht; cbn [plug] in Ht.
  - destruct Ht as [n Hn]. eauto with chariot.
  - destruct (IH _ Ht) as (c1 & n1 & Hk & H1). destruct c.
    + apply mk_red_inv in H1 as (-> & Ha & Hb). eauto with chariot.
    + apply mk_black_inv in H1 as (-> & n' & ca & cb & -> & Ha & Hb). eauto with chariot.
Qed.

(** ** Parent and colour in one word *)

(** What can be the parent of a node: no node, or an aligned address. *)
Definition link_ok (p : Z) : Prop := p = 0 \/ addr_ok p.

Lemma link_ok_mod p : link_ok p -> 0 <= p < 2 ^ 64 - 8 /\ p mod 8 = 0.
Proof. unfold link_ok, addr_ok. intros [->|H]; [split; [lia|reflexivity]|lia]. Qed.

Lemma pc_sum p c : link_ok p -> pc p c = p + colz c.
Proof.
  intros Hp%link_ok_mod. unfold pc. destruct c; cbn [colz]; unfold RB_RED, RB_BLACK; [rewrite Z.lor_0_r; lia|].
  assert (exists q, 0 <= q /\ p = 2 * q) as (q & Hq & ->) by (exists (p / 2); zlia). now destruct q.
Qed.

Lemma land_not3 v : 0 <= v < 2 ^ 64 -> __rb_parent v = 4 * (v / 4).
Proof.
  intros Hv. unfold __rb_parent. change (u64 (Z.lnot 3)) with (Z.land (Z.ones 64) (Z.lnot 3)).
  rewrite Z.land_assoc, Z.land_ones, Z.mod_small by lia. change 3 with (Z.ones 2).
  rewrite <- Z.ldiff_land, Z.ldiff_ones_r, Z.shiftl_mul_pow2, Z.shiftr_div_pow2 by lia. change (2 ^ 2) with 4. lia.
Qed.

Lemma parent_pc p c : link_ok p -> __rb_parent (pc p c) = p.
Proof.
  intros Hp. rewrite pc_sum by auto. apply link_ok_mod in Hp. rewrite land_not3; destruct c; cbn [colz]; unfold RB_RED, RB_BLACK; zlia.
Qed.

Lemma color_pc p c : link_ok p -> __rb_color (pc p c) = colz c.
Proof.
  intros Hp. rewrite pc_sum by auto. apply link_ok_mod in Hp. unfold __rb_color. change 1 with (Z.ones 1).
  rewrite Z.land_ones by lia. destruct c; cbn [colz]; unfold RB_RED, RB_BLACK; zlia.
Qed.

Lemma is_black_pc p c : link_ok p -> __rb_is_black (pc p c) = match c with Black => true | Red => false end.
Proof. intros Hp. unfold __rb_is_black. rewrite color_pc by auto. now destruct c. Qed.
Lemma is_red_pc p c : link_ok p -> __rb_is_red (pc p c) = match c with Black => false | Red => true end.
Proof. intros Hp. unfold __rb_is_red. rewrite color_pc by auto. now destruct c. Qed.

Lemma pc_red p : pc p Red = p.
Proof. apply Z.lor_0_r. Qed.
Lemma pc_set_black p c : Z.lor (pc p c) RB_BLACK = pc p Black.
Proof. unfold pc. rewrite <- Z.lor_assoc. now destruct c. Qed.
Lemma pc_set_parent p c q : link_ok p -> Z.lor (__rb_color (pc p c)) q = pc q c.
Proof. intros Hp. rewrite color_pc by auto. apply Z.lor_comm. Qed.
