(* ===== verification/RbtreeRep.v ===== *)
(** * Red-black trees: ownership of a tree's words

    The words of a tree, and of a tree with a hole, as resources; the small
    operations of rbtree.cpp on them. *)

From iris.proofmode Require Import proofmode.
From iris.base_logic.lib Require Import gen_heap.
From S2P Require Import Prelude CMem State WordMem WordLogic Rbtree RbtreeSpec.

(** One access to a word that is owned under the name [H]. *)
Ltac hwp_ld H := iApply hwp_bind; iApply (hwp_load with H); iIntros H.
Ltac hwp_st H := iApply hwp_bind; iApply (hwp_store with H); iIntros H.
Ltac nonzero := rw (proj2 (Z.eqb_neq _ 0)); [|unfold addr_ok in *; lia]; cbn [negb].

(** Equal lists up to the association of [++]. *)
Ltac list_eq := repeat (rw -app_assoc || cbn [app]); reflexivity.

Section rep.
Context `{!gen_heapGS Z Z Σ}.

(** A node with its parent, its colour and its two children. *)
Definition node_at (d : side) (x p : Z) (c : color) (a b : Z) : iProp Σ :=
  ⌜addr_ok x⌝ ∗ x ↦ pc p c ∗ child d x ↦ a ∗ child (flip d) x ↦ b.

Fixpoint tree_at (p : Z) (t : tree) : iProp Σ :=
  match t with
  | E => True
  | T c l x r => node_at Lft x p c (addr l) (addr r) ∗ tree_at x l ∗ tree_at x r
  end.

Fixpoint ctx_at (root : Z) (k : list frame) (hole : Z) : iProp Σ :=
  match k with
  | [] => root ↦ hole
  | Fr d c x s :: k => node_at d x (top k) c hole (addr s) ∗ tree_at x s ∗ ctx_at root k x
  end.

Lemma node_flip d x p c a b : node_at d x p c a b ⊣⊢ node_at (flip d) x p c b a.
Proof.
  unfold node_at. rw flip_flip. iSplit; iIntros "($ & $ & $ & $)".
Qed.

Lemma tree_at_mk d p c a x b :
  tree_at p (mk d c a x b) ⊣⊢ node_at d x p c (addr a) (addr b) ∗ tree_at x a ∗ tree_at x b.
Proof.
  destruct d; cbn [mk tree_at]; [done|]. rw (node_flip Lft). cbn [flip]. iSplit; iIntros "($ & $ & $)".
Qed.

Lemma tree_link p t : tree_at p t ⊢ ⌜link_ok (addr t)⌝.
Proof. destruct t as [|c l x r]; [iIntros "_"; by iLeft|]. iIntros "[(% & _) _]". iPureIntro. by right. Qed.

Lemma ctx_link root k hole : ctx_at root k hole ⊢ ⌜link_ok (top k)⌝.
Proof. destruct k as [|[d c x s] k]; [iIntros "_"; by iLeft|]. iIntros "[(% & _) _]". iPureIntro. by right. Qed.

(** A tree is a hole and what fills it. *)
Lemma plug_at root k t :
  root ↦ addr (plug k t) ∗ tree_at 0 (plug k t) ⊣⊢ ctx_at root k (addr t) ∗ tree_at (top k) t.
Proof.
  revert t. induction k as [|[d c x s] k IH]; intros t; cbn [plug ctx_at top fx]; [done|].
  rw IH. rw addr_mk tree_at_mk. iSplit; [iIntros "($ & $ & $ & $)"|iIntros "(($ & $ & $) & $)"].
Qed.

Lemma node_ne d x p c a b d' x' p' c' a' b' : node_at d x p c a b -∗ node_at d' x' p' c' a' b' -∗ ⌜x <> x'⌝.
Proof. iIntros "(_ & H & _) (_ & H' & _)". iApply (pointsto_ne with "H H'"). Qed.

Lemma node_ne_tree d x p c a b q t : node_at d x p c a b -∗ tree_at q t -∗ ⌜x <> addr t⌝.
Proof.
  iIntros "H Ht". destruct t as [|c' l y r]; [iDestruct "H" as "(%H & _)"; iPureIntro; cbn; unfold addr_ok in H; lia|].
  iDestruct "Ht" as "[Hy _]". by iDestruct (node_ne with "H Hy") as %?.
Qed.

(** ** Small operations *)

Lemma hwp_rb_parent x p c Φ : link_ok p -> x ↦ pc p c -∗ (x ↦ pc p c -∗ Φ p) -∗ hwp (rb_parent x) Φ.
Proof.
  iIntros (Hp) "Hx K". iApply hwp_bind. iApply (hwp_load with "Hx"). iIntros "Hx". iApply hwp_ret. rw parent_pc //. by iApply "K".
Qed.

Lemma hwp_is_black x p c Φ : link_ok p -> x ↦ pc p c -∗
  (x ↦ pc p c -∗ Φ (match c with Black => true | Red => false end)) -∗ hwp (rb_is_black x) Φ.
Proof.
  iIntros (Hp) "Hx K". iApply hwp_bind. iApply (hwp_load with "Hx"). iIntros "Hx". iApply hwp_ret. rw is_black_pc //. by iApply "K".
Qed.

Lemma hwp_is_red x p c Φ : link_ok p -> x ↦ pc p c -∗
  (x ↦ pc p c -∗ Φ (match c with Black => false | Red => true end)) -∗ hwp (rb_is_red x) Φ.
Proof.
  iIntros (Hp) "Hx K". iApply hwp_bind. iApply (hwp_load with "Hx"). iIntros "Hx". iApply hwp_ret. rw is_red_pc //. by iApply "K".
Qed.

Lemma hwp_set_parent_color x p c v Φ :
  x ↦ v -∗ (x ↦ pc p c -∗ Φ tt) -∗ hwp (rb_set_parent_color x p (colz c)) Φ.
Proof. iIntros "Hx K". by iApply (hwp_store with "Hx"). Qed.

Lemma hwp_set_parent x p c q Φ : link_ok p -> x ↦ pc p c -∗ (x ↦ pc q c -∗ Φ tt) -∗ hwp (rb_set_parent x q) Φ.
Proof.
  iIntros (Hp) "Hx K". do 2 iApply hwp_bind. iApply (hwp_load with "Hx"). iIntros "Hx". iApply hwp_ret.
  rw (pc_set_parent p c q Hp). iApply (hwp_store with "Hx"). iIntros "Hx". by iApply "K".
Qed.

Lemma hwp_set_black x p c Φ : x ↦ pc p c -∗ (x ↦ pc p Black -∗ Φ tt) -∗ hwp (rb_set_black x) Φ.
Proof.
  iIntros "Hx K". iApply hwp_bind. iApply (hwp_load with "Hx"). iIntros "Hx".
  rw pc_set_black. iApply (hwp_store with "Hx"). iIntros "Hx". by iApply "K".
Qed.

(** A subtree that may be empty gets a new parent. *)
Lemma hwp_reparent_black t n p q Φ : is_rb t Black n -> link_ok p ->
  tree_at p t -∗ (tree_at q t -∗ Φ tt) -∗
  hwp (if negb (addr t =? 0) then rb_set_parent_color (addr t) q RB_BLACK else mret tt) Φ.
Proof.
  iIntros (Ht Hp) "H K". destruct t as [|c l x r]; cbn [addr Z.eqb negb]; [iApply hwp_ret; by iApply "K"|].
  assert (c = Black) as -> by (inversion Ht; auto).
  iDestruct "H" as "((%Hx & Hx & Hl & Hr) & Tl & Tr)".
  rw (proj2 (Z.eqb_neq x 0)); [|unfold addr_ok in Hx; lia]. cbn [negb].
  iApply (hwp_set_parent_color _ _ Black with "Hx"). iIntros "Hx". iApply "K". by iFrame.
Qed.

Lemma hwp_reparent t p q Φ : link_ok p ->
  tree_at p t -∗ (tree_at q t -∗ Φ tt) -∗
  hwp (if negb (addr t =? 0) then rb_set_parent (addr t) q else mret tt) Φ.
Proof.
  iIntros (Hp) "H K". destruct t as [|c l x r]; cbn [addr Z.eqb negb]; [iApply hwp_ret; by iApply "K"|].
  iDestruct "H" as "((%Hx & Hx & Hl & Hr) & Tl & Tr)".
  rw (proj2 (Z.eqb_neq x 0)); [|unfold addr_ok in Hx; lia]. cbn [negb].
  iApply (hwp_set_parent with "Hx"); [done|]. iIntros "Hx". iApply "K". by iFrame.
Qed.

Lemma hwp_change_child root k old new v Φ : addr_ok old ->
  old ↦ v -∗ ctx_at root k old -∗ (old ↦ v -∗ ctx_at root k new -∗ Φ tt) -∗
  hwp (__rb_change_child old new (top k) root) Φ.
Proof.
  iIntros (Hold) "Ho Hk K". unfold __rb_change_child. destruct k as [|[d c x s] k]; cbn [top fx ctx_at].
  - cbn. iApply (hwp_store with "Hk"). iIntros "Hk". iApply ("K" with "Ho Hk").
  - iDestruct "Hk" as "((%Hx & Hx & Ha & Hb) & Hs & Hk)".
    rw (proj2 (Z.eqb_neq x 0)); [|unfold addr_ok in Hx; lia]. cbn [negb]. iApply hwp_bind. destruct d; cbn [child flip].
    + iApply (hwp_load with "Ha"). iIntros "Ha". rw Z.eqb_refl. iApply (hwp_store with "Ha"). iIntros "Ha".
      iApply ("K" with "Ho"). by iFrame.
    + iAssert ⌜addr s <> old⌝%I as %Hne.
      { destruct s as [|c' l y r]; [iPureIntro; cbn; unfold addr_ok in Hold; lia|].
        iDestruct "Hs" as "[(_ & Hy & _) _]". iApply (pointsto_ne with "Hy Ho"). }
      iApply (hwp_load with "Hb"). iIntros "Hb". rw (proj2 (Z.eqb_neq (addr s) old)) //.
      iApply (hwp_store with "Ha"). iIntros "Ha". iApply ("K" with "Ho"). by iFrame.
Qed.

Lemma hwp_rotate_set_parents root k old new c c' v Φ : addr_ok old -> link_ok (top k) ->
  old ↦ pc (top k) c -∗ new ↦ v -∗ ctx_at root k old -∗
  (old ↦ pc new c' -∗ new ↦ pc (top k) c -∗ ctx_at root k new -∗ Φ tt) -∗
  hwp (__rb_rotate_set_parents old new root (colz c')) Φ.
Proof.
  iIntros (Hold Hk) "Ho Hn Hk K". iApply hwp_bind. iApply (hwp_rb_parent with "Ho"); [done|]. iIntros "Ho".
  iApply hwp_bind. iApply (hwp_load with "Ho"). iIntros "Ho". iApply hwp_bind. iApply (hwp_store with "Hn"). iIntros "Hn".
  iApply hwp_bind. iApply (hwp_set_parent_color with "Ho"). iIntros "Ho".
  iApply (hwp_change_child with "Ho Hk"); [done|]. iIntros "Ho Hk". iApply ("K" with "Ho Hn Hk").
Qed.

(** ** Words *)

Lemma tree_words_own p t :
  tree_at p t ⊣⊢ ⌜Forall addr_ok (inorder t)⌝ ∗ [∗ list] w ∈ tree_words p t, w.1 ↦ w.2.
Proof.
  revert p. induction t as [|c l IHl x r IHr]; intros p; cbn [tree_at tree_words inorder].
  - iSplit; [iIntros "_"; iSplit; [iPureIntro; constructor|done]|by iIntros "_"].
  - rw IHl IHr big_sepL_cons big_sepL_cons big_sepL_cons big_sepL_app Forall_app Forall_cons_iff. cbn [fst snd]. unfold node_at, child. cbn [flip].
    iSplit; [iIntros "((% & $ & $ & $) & (% & $) & (% & $))"; auto|iIntros "((% & % & %) & $ & $ & $ & $ & $)"; auto].
Qed.

Lemma rb_words_own root t :
  root ↦ addr t ∗ tree_at 0 t ⊣⊢ ⌜Forall addr_ok (inorder t)⌝ ∗ [∗ list] w ∈ rb_words root t, w.1 ↦ w.2.
Proof.
  unfold rb_words. rw tree_words_own big_sepL_cons. cbn [fst snd]. iSplit; iIntros "($ & $ & $)".
Qed.
(** ** Whole trees *)

Context (root : Z).

(** The whole tree at [root], when nothing is open. *)
Definition own_tree (t : tree) : iProp Σ := root ↦ addr t ∗ tree_at 0 t.

Lemma own_plug k t : ctx_at root k (addr t) -∗ tree_at (top k) t -∗ own_tree (plug k t).
Proof. iIntros "Hk Ht". iApply plug_at. iFrame. Qed.

(** What insertion and removal leave: a valid tree of the nodes [xs] in order. *)
Definition rb_of (xs : list Z) : iProp Σ := ∃ t, ⌜rb_tree t /\ inorder t = xs⌝ ∗ own_tree t.

(** The loops over a tree have enough fuel. *)
Lemma length_tree_words p t : length (tree_words p t) = (3 * length (inorder t))%nat.
Proof.
  revert p. induction t as [|c l IHl x r IHr]; intros p; cbn [tree_words inorder]; [done|].
  cbn [length]. rw !length_app IHl IHr. cbn [length]. lia.
Qed.

Lemma length_plug k t : (length (inorder (plug k t)) >= length k + length (inorder t))%nat.
Proof.
  revert t. induction k as [|[d c x s] k IH]; intros t; cbn [plug length]; [lia|].
  specialize (IH (mk d c t x s)). revert IH. destruct d; cbn [mk inorder]; rw length_app; cbn [length]; lia.
Qed.

Lemma hwp_tree_loop {V R} (body : V -> W (ctl V R)) v k t Φ :
  ctx_at root k (addr t) -∗ tree_at (top k) t -∗
  (∀ fuel, ⌜(length k + length (inorder t) < fuel)%nat⌝ -∗ ctx_at root k (addr t) -∗ tree_at (top k) t -∗ hwp (sloop fuel body v) Φ) -∗
  hwp (wloop body v) Φ.
Proof.
  iIntros "Hk Ht K". iDestruct (own_plug with "Hk Ht") as "H". iDestruct (rb_words_own with "H") as "[% H]".
  iApply (hwp_wloop with "H"). iIntros (fuel Hf) "H". iDestruct (rb_words_own with "[H]") as "H"; [iFrame; done|].
  iDestruct (plug_at with "H") as "[Hk Ht]". iApply ("K" with "[] Hk Ht"). iPureIntro.
  unfold rb_words in Hf. cbn [length] in Hf. rw length_tree_words in Hf. pose proof (length_plug k t). lia.
Qed.

(** The word that holds the link to the hole. *)
Definition link (k : list frame) : Z := match k with [] => root | Fr d _ x _ :: _ => child d x end.

Lemma ctx_acc k a : ctx_at root k a ⊢ link k ↦ a ∗ (∀ b, link k ↦ b -∗ ctx_at root k b).
Proof.
  destruct k as [|[d c x s] k]; cbn [ctx_at link]; [iIntros "$"; auto|].
  iIntros "(($ & $ & $ & $) & $ & $)". auto.
Qed.

Lemma hwp_not_red t n p Φ : is_rb t Black n -> link_ok p ->
  tree_at p t -∗ (tree_at p t -∗ Φ false) -∗ hwp (if addr t =? 0 then mret false else rb_is_red (addr t)) Φ.
Proof.
  iIntros (Ht Hp) "Ht K". destruct t as [|c l y r]; cbn [addr Z.eqb]; [iApply hwp_ret; by iApply "K"|].
  iDestruct "Ht" as "((%Hy & Hy & H1) & H2)". nonzero. iApply (hwp_is_red with "Hy"); [done|]. iIntros "Hy".
  inversion Ht; subst. iApply "K". by iFrame.
Qed.
End rep.
