(* ===== verification/RbtreeInsert.v ===== *)
(** * Red-black trees: insertion keeps the rules

    [__rb_insert] on a tree with a new red node: recolouring moves the red node
    up, one or two rotations end the loop. *)

From Stdlib Require Import Sorting.Sorted.
From iris.proofmode Require Import proofmode.
From iris.base_logic.lib Require Import gen_heap.
From S2P Require Import Prelude CMem State WordMem WordLogic Rbtree RbtreeSpec RbtreeRep.

Section insert.
Context `{!gen_heapGS Z Z Σ}.
Context (root : Z).

(** A red uncle: colours flip and the grandparent becomes the red node. *)
Lemma insert_recolor d e k t p s g ul ux ur Φ :
  link_ok (top k) ->
  tree_at p t -∗ node_at e p g Red (addr t) (addr s) -∗ tree_at p s -∗
  node_at d g (top k) Black p ux -∗ tree_at g (T Red ul ux ur) -∗ ctx_at root k g -∗
  (ctx_at root k g -∗ tree_at (top k) (mk d Red (mk e Black t p s) g (T Black ul ux ur)) -∗ Φ (Next (g, top k))) -∗
  hwp (rb_insert_fix dummy_rotate d root (addr t) p g ux) Φ.
Proof.
  iIntros (Hk) "Hx (%Hp & Hp & Hpa & Hpb) Hs (%Hg & Hg & Hga & Hgb) ((%Hu & Hu & Hul & Hur) & Tul & Tur) Hk K".
  unfold rb_insert_fix. iApply hwp_bind. nonzero. iApply (hwp_is_red with "Hu"); [by right|]. iIntros "Hu".
  iApply hwp_bind. iApply (hwp_set_parent_color _ _ Black with "Hu"). iIntros "Hu".
  iApply hwp_bind. iApply (hwp_set_parent_color _ _ Black with "Hp"). iIntros "Hp".
  iApply hwp_bind. iApply (hwp_rb_parent with "Hg"); [done|]. iIntros "Hg".
  iApply hwp_bind. iApply (hwp_set_parent_color _ _ Red with "Hg"). iIntros "Hg".
  iApply hwp_ret. iApply ("K" with "Hk"). rw !tree_at_mk. cbn [tree_at addr]. rw addr_mk. by iFrame.
Qed.

(** A black uncle: one rotation at the grandparent, after one at the parent when
    the node is the inner grandchild. *)
Lemma insert_rotate_outer d k t p s g u n n' Φ :
  is_rb t Red n -> is_rb s Black n -> is_rb u Black n' -> link_ok (top k) ->
  tree_at p t -∗ node_at d p g Red (addr t) (addr s) -∗ tree_at p s -∗
  node_at d g (top k) Black p (addr u) -∗ tree_at g u -∗ ctx_at root k g -∗
  (own_tree root (plug k (mk d Black t p (mk d Red s g u))) -∗ Φ (Break tt)) -∗
  hwp (rb_insert_fix dummy_rotate d root (addr t) p g (addr u)) Φ.
Proof.
  iIntros (Ht Hs Hu Hk) "Hx (%Hp & Hp & Hpa & Hpb) Hs (%Hg & Hg & Hga & Hgb) Tu Hk K".
  iAssert ⌜addr t <> addr s⌝%I as %Hxs.
  { inversion Ht; subst. iDestruct "Hx" as "[Hx _]". iApply (node_ne_tree with "Hx Hs"). }
  unfold rb_insert_fix. iApply hwp_bind. iApply (hwp_not_red with "Tu"); [done|by right|]. iIntros "Tu". hwp_ld "Hpb". rw (proj2 (Z.eqb_neq (addr t) _)) //. iApply hwp_bind. iApply hwp_ret.
  hwp_st "Hga". hwp_st "Hpb". iApply hwp_bind. iApply (hwp_reparent_black with "Hs"); [done|by right|]. iIntros "Hs".
  iApply hwp_bind. iApply (hwp_rotate_set_parents _ _ _ _ _ Red with "Hg Hp Hk"); [done..|]. iIntros "Hg Hp Hk".
  iApply hwp_bind. iApply hwp_ret. iApply hwp_ret. iApply "K". iApply (own_plug with "[Hk]"); [by rw addr_mk|].
  rw !tree_at_mk. cbn [addr]. rw addr_mk. by iFrame.
Qed.

Lemma insert_rotate_inner d k a x b p s g u n n' Φ :
  is_rb a Black n -> is_rb b Black n -> is_rb u Black n' -> link_ok (top k) ->
  tree_at p (mk d Red a x b) -∗ node_at (flip d) p g Red x (addr s) -∗ tree_at p s -∗
  node_at d g (top k) Black p (addr u) -∗ tree_at g u -∗ ctx_at root k g -∗
  (own_tree root (plug k (mk d Black (mk d Red s p a) x (mk d Red b g u))) -∗ Φ (Break tt)) -∗
  hwp (rb_insert_fix dummy_rotate d root x p g (addr u)) Φ.
Proof.
  rw tree_at_mk. iIntros (Ha Hb Hu Hk) "((%Hx & Hx & Hxa & Hxb) & Ta & Tb) (%Hp & Hp & Hpa & Hpb) Hs (%Hg & Hg & Hga & Hgb) Tu Hk K".
  rw flip_flip. unfold rb_insert_fix. iApply hwp_bind. iApply (hwp_not_red with "Tu"); [done|by right|]. iIntros "Tu". hwp_ld "Hpa". rw Z.eqb_refl. iApply hwp_bind. hwp_ld "Hxa". hwp_st "Hpa". hwp_st "Hxa".
  iApply hwp_bind. iApply (hwp_reparent_black with "Ta"); [done|by right|]. iIntros "Ta".
  iApply hwp_bind. iApply (hwp_set_parent_color _ _ Red with "Hp"). iIntros "Hp". iApply hwp_bind. iApply hwp_ret.
  hwp_ld "Hxb". iApply hwp_ret. hwp_st "Hga". hwp_st "Hxb".
  iApply hwp_bind. iApply (hwp_reparent_black with "Tb"); [done|by right|]. iIntros "Tb".
  iApply hwp_bind. iApply (hwp_rotate_set_parents _ _ _ _ _ Red with "Hg Hx Hk"); [done..|]. iIntros "Hg Hx Hk".
  iApply hwp_bind. iApply hwp_ret. iApply hwp_ret. iApply "K". iApply (own_plug with "[Hk]"); [by rw addr_mk|].
  rw !tree_at_mk. rw !addr_mk. by iFrame.
Qed.
(** The parent's case: which of its own parent's children it is. *)
Lemma insert_side d k p g x c u Φ : addr_ok p -> addr_ok g -> link_ok (top k) ->
  p ↦ pc g Red -∗ node_at d g (top k) c p (addr u) -∗ tree_at g u -∗
  (p ↦ pc g Red -∗ node_at d g (top k) c p (addr u) -∗ tree_at g u -∗ hwp (rb_insert_fix dummy_rotate d root x p g (addr u)) Φ) -∗
  hwp (rb_insert_iter dummy_rotate root (x, p)) Φ.
Proof.
  iIntros (Hp Hg Hk) "Hp (_ & Hg & Hga & Hgb) Hu K". unfold rb_insert_iter. nonzero.
  iApply hwp_bind. iApply (hwp_is_black with "Hp"); [by right|]. iIntros "Hp". hwp_ld "Hp".
  iAssert ⌜p <> addr u⌝%I as %Hne.
  { destruct u as [|c' l y r]; [iPureIntro; cbn; unfold addr_ok in Hp; lia|]. iDestruct "Hu" as "[(_ & Hy & _) _]".
    iApply (pointsto_ne with "Hp Hy"). }
  rw pc_red. destruct d; cbn [child flip].
  - hwp_ld "Hgb". rw (proj2 (Z.eqb_neq p _)) //. cbn [negb]. iApply ("K" with "Hp [-Hu] Hu"). by iFrame.
  - hwp_ld "Hga". rw Z.eqb_refl. cbn [negb]. hwp_ld "Hgb". iApply ("K" with "Hp [-Hu] Hu"). by iFrame.
Qed.

Lemma insert_loop fuel : forall k t n,
  is_rb t Red n -> ctx_rb k Black n -> (length k < fuel)%nat ->
  ctx_at root k (addr t) -∗ tree_at (top k) t -∗
  hwp (sloop fuel (rb_insert_iter dummy_rotate root) (addr t, top k)) (fun _ => rb_of root (inorder (plug k t))).
Proof.
  induction fuel as [fuel IH] using lt_wf_ind. intros k t n Ht Hk Hf. destruct fuel as [|fuel]; [lia|].
  iIntros "Hk Ht". iApply hwp_loop_step. inversion Hk as [n0|e p s k' n0 Hs Hk' |e p s k' c c' n0 Hs Hk']; subst; cbn [top fx ctx_at].
  - unfold rb_insert_iter. cbn [Z.eqb]. inversion Ht; subst. iDestruct "Ht" as "((%Hx & Hx & Hxl & Hxr) & Tl & Tr)".
    iApply hwp_bind. iApply (hwp_set_parent_color _ _ Black with "Hx"). iIntros "Hx". iApply hwp_ret.
    iExists (T Black l x r). iSplit; [iPureIntro; split; [eexists; eauto with chariot|done]|]. by iFrame.
  - inversion Hk' as [|? ? ? ? ? ? ?|d g u k c c' n0 Hu Hk'']; subst. cbn [ctx_at fx top].
    iDestruct "Hk" as "((%Hp & Hp & Hpa) & Ts & Hg & Tu & Hk)". iDestruct (ctx_link with "Hk") as %Hlk.
    iAssert ⌜addr_ok g⌝%I as %Hg; [by iDestruct "Hg" as "[? _]"|].
    iApply (insert_side with "Hp Hg Tu"); [done..|]. iIntros "Hp Hg Tu".
    destruct c'; [inversion Hu; subst|destruct (decide (e = d)) as [->|Hne]].
    + iApply (insert_recolor with "Ht [$Hp $Hpa //] Ts Hg Tu Hk"); [done|]. iIntros "Hk Ht".
      pose proof (IH fuel ltac:(lia) k (mk d Red (mk e Black t p s) g (T Black l x r)) (S n)) as Hw.
      rw addr_mk in Hw. cbn [length] in Hf. iApply (hwp_wand with "[Hk Ht]"); [iApply (Hw with "Hk Ht"); eauto with chariot; lia|].
      iIntros (_) "H".
      cbn [plug]. rw !inorder_plug. destruct d, e; cbn [mk inorder]; done.
    + iApply (insert_rotate_outer with "Ht [$Hp $Hpa //] Ts Hg Tu Hk"); [done..|]. iIntros "Ht". iExists _. iFrame "Ht".
      iPureIntro. split; [eapply plug_rb; eauto with chariot|]. cbn [plug]. rw !inorder_plug. destruct d; cbn [mk inorder]; list_eq.
    + assert (e = flip d) as -> by (destruct e, d; done).
      destruct (tree_cases d t) as [->|(c0 & a & y & b & ->)]; [inversion Ht|].
      assert (c0 = Red) as -> by (destruct d; inversion Ht; done). apply mk_red_inv in Ht as (_ & Ha & Hb). rw addr_mk.
      iApply (insert_rotate_inner with "Ht [$Hp $Hpa //] Ts Hg Tu Hk"); [done..|]. iIntros "Ht". iExists _. iFrame "Ht".
      iPureIntro. split; [eapply plug_rb; eauto with chariot|]. cbn [plug]. rw !inorder_plug. destruct d; cbn [flip mk inorder]; list_eq.
  - iDestruct "Hk" as "((%Hp & Hp & Hpa) & Ts & Hk)". iDestruct (ctx_link with "Hk") as %Hlk. unfold rb_insert_iter. nonzero.
    iApply hwp_bind. iApply (hwp_is_black with "Hp"); [done|]. iIntros "Hp". iApply hwp_ret.
    iExists (plug (Fr e Black p s :: k') t). iSplit; [iPureIntro; split; [apply (plug_rb _ _ Red n); eauto with chariot|done]|].
    iApply (own_plug root (Fr e Black p s :: k') t with "[-Ht] Ht"). by iFrame.
Qed.
Lemma insert_color_spec k x n :
  ctx_rb k Black n -> n = O ->
  ctx_at root k x -∗ tree_at (top k) (T Red E x E) -∗
  hwp (rb_insert_color x root) (fun _ => rb_of root (before k ++ x :: after k)).
Proof.
  iIntros (Hk ->) "Hk Ht". iDestruct "Ht" as "((%Hx & Hx & Hl & Hr) & Te)". hwp_ld "Hx". rw pc_red.
  iApply (hwp_tree_loop root _ _ k (T Red E x E) with "Hk [Hx Hl Hr]"); [iEval (cbn [tree_at]; unfold node_at; rw pc_red); by iFrame|]. iIntros (fuel Hf) "Hk Ht".
  iApply (hwp_wand with "[Hk Ht]").
  { iApply (insert_loop fuel k (T Red E x E) 0 with "Hk Ht"); [eauto with chariot|done|lia]. }
  iIntros (_) "H". by rw inorder_plug.
Qed.

(** ** The search *)

Context (callback key : Z -> Z) (kx : Z).
Definition before_key (xs : list Z) : Prop := Forall (fun y => key y < kx) xs.
Definition after_key (xs : list Z) : Prop := Forall (fun y => kx < key y) xs.
(** The callback compares the key of the new node with that of another. *)
Definition compares (xs : list Z) : Prop := Forall (fun y =>
  callback y = if kx <? key y then RB_INSERT_GO_LEFT else if key y <? kx then RB_INSERT_GO_RIGHT else RB_INSERT_GO_HERE) xs.

Definition by_key (xs : list Z) : Prop := StronglySorted (fun y z => key y < key z) xs.

(** Where the search ends: at a hole between the smaller and the greater keys, or
    at a node with the key. *)
Definition search_post (t : tree) (o : option (Z * Z)) : iProp Σ :=
  match o with
  | Some (n, parent) => ∃ k, ⌜t = plug k E /\ n = link root k /\ parent = top k /\
      before_key (before k) /\ after_key (after k)⌝ ∗ ctx_at root k 0
  | None => ⌜exists y, y ∈ inorder t /\ key y = kx⌝ ∗ own_tree root t
  end.

Lemma sorted_around (l r : list Z) (y : Z) : by_key (l ++ y :: r) -> Forall (fun z => key z < key y) l /\ Forall (fun z => key y < key z) r.
Proof.
  unfold by_key. induction l as [|a l IH]; cbn [app]; intros H; inversion H as [|? ? H1 H2]; subst; [auto|].
  destruct (IH H1) as [Hl Hr]. split; [|done]. constructor; [|done]. rw Forall_forall in H2. apply H2, in_app_iff. right. by left.
Qed.

Lemma search_loop fuel : forall k t,
  compares (inorder t) -> by_key (inorder (plug k t)) -> before_key (before k) -> after_key (after k) ->
  (length (inorder t) < fuel)%nat ->
  ctx_at root k (addr t) -∗ tree_at (top k) t -∗
  hwp (sloop fuel (fun '(n, parent) =>
    cur ← load n;
    if cur =? 0 then mret (Break (Some (n, parent)))
    else
      let result := callback cur in
      let parent := cur in
      if result =? RB_INSERT_GO_LEFT then mret (Next (rb_left cur, parent))
      else if result =? RB_INSERT_GO_RIGHT then mret (Next (rb_right cur, parent))
      else if result =? RB_INSERT_GO_HERE then mret (Break None)
      else mret (Next (n, parent))) (link root k, top k)) (search_post (plug k t)).
Proof.
  induction fuel as [|fuel IH]; intros k t Hc Hs Hb Ha Hf; [lia|]. iIntros "Hk Ht". iApply hwp_loop_step.
  iDestruct (ctx_acc with "Hk") as "[Hl Hk]". hwp_ld "Hl". iDestruct ("Hk" with "Hl") as "Hk".
  destruct t as [|c l y r]; cbn [addr].
  { iApply hwp_ret. iExists k. by iFrame. }
  iDestruct "Ht" as "(Hy & Tl & Tr)". iAssert ⌜addr_ok y⌝%I as %Hy; [by iDestruct "Hy" as "[? _]"|]. nonzero.
  cbn [inorder] in Hc, Hf. rw length_app in Hf. cbn [length] in Hf. apply Forall_app in Hc as [Hcl [Hcy Hcr]%Forall_cons_iff].
  pose proof Hs as Hs'. rw inorder_plug in Hs'. cbn [inorder] in Hs'. rw -!app_assoc in Hs'. cbn [app] in Hs'. rw app_assoc in Hs'.
  apply sorted_around in Hs' as [Hlt Hgt]. cbv zeta. rw Hcy. destruct (kx <? key y) eqn:E1; [|destruct (key y <? kx) eqn:E2]; zbool; cbn [Z.eqb Pos.eqb RB_INSERT_GO_LEFT RB_INSERT_GO_RIGHT RB_INSERT_GO_HERE].
  - iApply hwp_ret. iApply (IH (Fr Lft c y r :: k) l with "[-Tl] Tl"); [done..| |lia|by iFrame].
    apply Forall_cons_iff. split; [done|]. eapply Forall_impl; [|exact Hgt]. cbn. lia.
  - iApply hwp_ret. rw node_flip. iApply (IH (Fr Rgt c y l :: k) r with "[-Tr] Tr"); [done|done| |done|lia|by iFrame].
    cbn [before]. rw app_assoc. apply Forall_app. split; [|constructor; [done|constructor]]. eapply Forall_impl; [|exact Hlt]. cbn. lia.
  - iApply hwp_ret. iSplit.
    + iPureIntro. exists y. rw inorder_plug. cbn [inorder]. rw !elem_of_app elem_of_cons. split; [auto|lia].
    + iApply (own_plug root k (T c l y r) with "Hk"). by iFrame.
Qed.

(** The colours of the hole that a search ends in. *)
Lemma hole_colors k : rb_tree (plug k E) -> ctx_rb k Black 0.
Proof. intros (c & n & Hk & [-> ->]%is_rb_E)%plug_rb_inv. done. Qed.

Lemma insert_spec t x a b c : addr_ok x ->
  rb_tree t -> compares (inorder t) -> by_key (inorder t) ->
  own_tree root t -∗ x ↦ a -∗ rb_right x ↦ b -∗ rb_left x ↦ c -∗
  hwp (rb_insert callback root x) (fun r =>
    if r : bool then ∃ l1 l2, ⌜inorder t = l1 ++ l2 /\ before_key l1 /\ after_key l2⌝ ∗ rb_of root (l1 ++ x :: l2)
    else ⌜exists y, y ∈ inorder t /\ key y = kx⌝ ∗ own_tree root t ∗ x ↦ a ∗ rb_right x ↦ b ∗ rb_left x ↦ c).
Proof.
  iIntros (Hx Ht Hc Hs) "[Hr Ht] Hx Hxr Hxl". unfold rb_insert, rb_search. iApply hwp_bind.
  iApply (hwp_tree_loop root _ _ [] t with "Hr Ht"). iIntros (fuel Hf) "Hr Ht". cbn [length] in Hf.
  iApply (hwp_wand with "[Hr Ht]"); [iApply (search_loop fuel [] t with "Hr Ht"); try done; try constructor|].
  iIntros ([[n p]|]) "H"; cbn [search_post plug].
  - iDestruct "H" as (k) "((-> & -> & -> & %Hb & %Ha) & Hk)". iApply hwp_bind. hwp_st "Hx". hwp_st "Hxr". hwp_st "Hxl".
    iDestruct (ctx_acc with "Hk") as "[Hl Hk]". iApply (hwp_store with "Hl"). iIntros "Hl". iDestruct ("Hk" with "Hl") as "Hk".
    iApply hwp_bind. rw -{1}(pc_red (top k)). iApply (hwp_wand with "[-]"); [iApply (insert_color_spec with "Hk"); [by apply hole_colors|done|by iFrame]|].
    iIntros (_) "H". iApply hwp_ret. iExists _, _. iFrame "H". iPureIntro. by rw inorder_plug.
  - iApply hwp_ret. iDestruct "H" as "[$ $]". iFrame.
Qed.
End insert.
