(* ===== verification/RbtreeErase.v ===== *)
(** * Red-black trees: removal keeps the rules

    [____rb_erase_color] on a tree in which every path through one hole has one
    black node too few, and [__rb_erase_augmented], which makes such a tree or a
    valid one. *)

From iris.proofmode Require Import proofmode.
From iris.base_logic.lib Require Import gen_heap.
From S2P Require Import Prelude CMem State WordMem WordLogic Rbtree RbtreeSpec RbtreeRep.

Section erase.
Context `{!gen_heapGS Z Z Σ}.
Context (root : Z).

Lemma ctx_red_black k n : ctx_rb k Red n -> ctx_rb k Black n.
Proof. inversion 1; subst; eauto with chariot. Qed.

Lemma ctx_top0 k a : ctx_at root k a ⊢ ⌜top k = 0 -> k = []⌝.
Proof.
  destruct k as [|[d c x s] k]; [by iIntros "_"|]. iIntros "[(%Hx & _) _]". iPureIntro. cbn. unfold addr_ok in Hx. lia.
Qed.

Lemma hwp_null_or_black t c n p Φ : is_rb t c n -> link_ok p ->
  tree_at p t -∗ (tree_at p t -∗ Φ (match c with Black => true | Red => false end)) -∗ hwp (null_or_black (addr t)) Φ.
Proof.
  iIntros (Ht Hp) "Ht K". unfold null_or_black. destruct t as [|c' l y r]; cbn [addr Z.eqb].
  { inversion Ht; subst. iApply hwp_ret. by iApply "K". }
  iDestruct "Ht" as "((%Hy & Hy & H1) & H2)". nonzero. iApply (hwp_is_black with "Hy"); [done|]. iIntros "Hy".
  inversion Ht; subst; iApply "K"; by iFrame.
Qed.

(** A red sibling becomes the parent of the parent. *)
Lemma erase_case1_red d k t p a sx b n Φ :
  is_rb (mk d Red a sx b) Red (S n) -> link_ok (top k) ->
  node_at d p (top k) Black (addr t) sx -∗ tree_at p t -∗ tree_at p (mk d Red a sx b) -∗ ctx_at root k p -∗
  (node_at d p sx Red (addr t) (addr a) -∗ tree_at p t -∗ tree_at p a -∗ ctx_at root (Fr d Black sx b :: k) p -∗ Φ (addr a)) -∗
  hwp (rb_erase_case1 dummy_rotate d root p sx) Φ.
Proof.
  rw tree_at_mk. iIntros (Hs Hk) "(%Hp & Hp & Hpa & Hpb) Tt ((%Hx & Hx & Hxa & Hxb) & Ta & Tb) Hk K".
  apply mk_red_inv in Hs as (_ & Ha & _). unfold rb_erase_case1.
  iApply hwp_bind. iApply (hwp_is_red with "Hx"); [by right|]. iIntros "Hx". hwp_ld "Hxa". hwp_st "Hpb". hwp_st "Hxa".
  inversion Ha; subst. iDestruct "Ta" as "((%Hy & Hy & Hyl) & Ta)".
  iApply hwp_bind. iApply (hwp_set_parent_color _ _ Black with "Hy"). iIntros "Hy".
  iApply hwp_bind. iApply (hwp_rotate_set_parents _ _ _ _ _ Red with "Hp Hx Hk"); [done..|]. iIntros "Hp Hx Hk".
  iApply hwp_bind. iApply hwp_ret. iApply hwp_ret. iApply ("K" with "[Hp Hpa Hpb] Tt [Hy Hyl Ta]"); by iFrame.
Qed.

Lemma erase_case1_black d s n p Φ : is_rb s Black (S n) -> link_ok p ->
  tree_at p s -∗ (tree_at p s -∗ Φ (addr s)) -∗ hwp (rb_erase_case1 dummy_rotate d root p (addr s)) Φ.
Proof.
  iIntros (Hs Hp) "Ts K". inversion Hs; subst. iDestruct "Ts" as "((%Hy & Hy & Hyl) & Ts)". unfold rb_erase_case1.
  iApply hwp_bind. iApply (hwp_is_red with "Hy"); [done|]. iIntros "Hy". iApply hwp_ret. iApply "K". by iFrame.
Qed.

(** Both nephews black: the sibling becomes red. *)
Lemma erase_case2_spec d k c t p a sx b Φ : link_ok (top k) ->
  node_at d p (top k) c (addr t) sx -∗ tree_at p t -∗ tree_at p (mk d Black a sx b) -∗ ctx_at root k p -∗
  (ctx_at root k p -∗ tree_at (top k) (mk d Black t p (mk d Red a sx b)) -∗
   Φ (match c with Red => Break tt | Black => if negb (top k =? 0) then Next (p, top k) else Break tt end)) -∗
  hwp (rb_erase_case2 p sx) Φ.
Proof.
  rw tree_at_mk. iIntros (Hk) "(%Hp & Hp & Hpa & Hpb) Tt ((%Hx & Hx & Hxa & Hxb) & Ta & Tb) Hk K".
  unfold rb_erase_case2. iApply hwp_bind. iApply (hwp_set_parent_color _ _ Red with "Hx"). iIntros "Hx".
  iApply hwp_bind. iApply (hwp_is_red with "Hp"); [done|]. iIntros "Hp". destruct c.
  - iApply hwp_bind. iApply (hwp_set_black with "Hp"). iIntros "Hp". iApply hwp_ret. iApply ("K" with "Hk").
    rw !tree_at_mk addr_mk. by iFrame.
  - iApply hwp_bind. iApply (hwp_rb_parent with "Hp"); [done|]. iIntros "Hp".
    iDestruct ("K" with "Hk [-]") as "K"; [rw !tree_at_mk addr_mk; by iFrame|].
    destruct (top k =? 0); cbn [negb]; by iApply hwp_ret.
Qed.

(** The far nephew red: the sibling takes the parent's place. *)
Lemma erase_case4_spec d k c t p a sx bl bx br Φ : link_ok (top k) ->
  node_at d p (top k) c (addr t) sx -∗ tree_at p t -∗ tree_at p (mk d Black a sx (T Red bl bx br)) -∗ ctx_at root k p -∗
  (own_tree root (plug k (mk d c (mk d Black t p a) sx (T Black bl bx br))) -∗ Φ (Break tt)) -∗
  hwp (rb_erase_case4 dummy_rotate d root p sx bx) Φ.
Proof.
  rw tree_at_mk. iIntros (Hk) "(%Hp & Hp & Hpa & Hpb) Tt ((%Hx & Hx & Hxa & Hxb) & Ta & (%Hb & Hb & Hbl) & Tb) Hk K".
  unfold rb_erase_case4. hwp_ld "Hxa". hwp_st "Hpb". hwp_st "Hxa".
  iApply hwp_bind. iApply (hwp_set_parent_color _ _ Black with "Hb"). iIntros "Hb".
  iApply hwp_bind. iApply (hwp_reparent with "Ta"); [by right|]. iIntros "Ta".
  iApply hwp_bind. iApply (hwp_rotate_set_parents _ _ _ _ _ Black with "Hp Hx Hk"); [done..|]. iIntros "Hp Hx Hk".
  iApply hwp_bind. iApply hwp_ret. iApply hwp_ret. iApply "K". iApply (own_plug with "[Hk]"); [by rw addr_mk|].
  rw !tree_at_mk addr_mk. by iFrame.
Qed.

(** The near nephew red: it takes the parent's place. *)
Lemma erase_case34_spec d k c t p a1 ax a2 sx b n Φ : link_ok (top k) -> is_rb a2 Black n ->
  node_at d p (top k) c (addr t) sx -∗ tree_at p t -∗ tree_at p (mk d Black (mk d Red a1 ax a2) sx b) -∗ ctx_at root k p -∗
  (own_tree root (plug k (mk d c (mk d Black t p a1) ax (mk d Black a2 sx b))) -∗ Φ (Break tt)) -∗
  hwp ('(tmp1, sibling) ← rb_erase_case3 dummy_rotate d p sx ax; rb_erase_case4 dummy_rotate d root p sibling tmp1) Φ.
Proof.
  rw !tree_at_mk. iIntros (Hk Ha2) "(%Hp & Hp & Hpa & Hpb) Tt ((%Hx & Hx & Hxa & Hxb) & ((%Ha & Ha & Haa & Hab) & Ta1 & Ta2) & Tb) Hk K".
  unfold rb_erase_case3. do 1 iApply hwp_bind. hwp_ld "Hab". hwp_st "Hxa". hwp_st "Hab". hwp_st "Hpb".
  iApply hwp_bind. iApply (hwp_reparent_black with "Ta2"); [done|by right|]. iIntros "Ta2".
  iApply hwp_bind. iApply hwp_ret. iApply hwp_ret. unfold rb_erase_case4. hwp_ld "Haa". hwp_st "Hpb". hwp_st "Haa".
  iApply hwp_bind. iApply (hwp_set_parent_color _ _ Black with "Hx"). iIntros "Hx".
  iApply hwp_bind. iApply (hwp_reparent with "Ta1"); [by right|]. iIntros "Ta1".
  iApply hwp_bind. iApply (hwp_rotate_set_parents _ _ _ _ _ Black with "Hp Ha Hk"); [done..|]. iIntros "Hp Ha Hk".
  iApply hwp_bind. iApply hwp_ret. iApply hwp_ret. iApply "K". iApply (own_plug with "[Hk]"); [by rw addr_mk|].
  rw !tree_at_mk !addr_mk. by iFrame.
Qed.
(** How one round ends: with a valid tree of [xs], or with the same defect one
    level up. *)
Definition round_post (c : color) (k : list frame) (n : nat) (xs : list Z) (r : ctl (Z * Z) unit) : iProp Σ :=
  match r with
  | Break _ => rb_of root xs
  | Next v => ∃ t, ⌜c = Black /\ k <> [] /\ v = (addr t, top k) /\ is_rb t Black n /\ ctx_rb k Black (S n) /\ inorder (plug k t) = xs⌝ ∗
      ctx_at root k (addr t) ∗ tree_at (top k) t
  end.

Lemma erase_cases_spec d k c t p s n :
  is_rb t Black n -> is_rb s Black (S n) -> ctx_rb (Fr d c p s :: k) Black (S n) -> link_ok (top k) ->
  node_at d p (top k) c (addr t) (addr s) -∗ tree_at p t -∗ tree_at p s -∗ ctx_at root k p -∗
  hwp (rb_erase_cases dummy_rotate d root p (addr s)) (round_post c k (S n) (inorder (plug (Fr d c p s :: k) t))).
Proof.
  iIntros (Ht Hs Hk Hlk) "Hp Tt Ts Hk". destruct (tree_cases d s) as [->|(cs & a & sx & b & ->)]; [inversion Hs|].
  assert (cs = Black) as -> by (destruct d; inversion Hs; done). apply mk_black_inv in Hs as (_ & n' & ca & cb & [= <-] & Ha & Hb).
  iAssert ⌜addr_ok p⌝%I as %Hp; [by iDestruct "Hp" as "[? _]"|]. rw addr_mk.
  rw {1}tree_at_mk. iDestruct "Ts" as "((%Hx & Hx & Hxa & Hxb) & Ta & Tb)". unfold rb_erase_cases. hwp_ld "Hxb".
  iApply hwp_bind. iApply (hwp_null_or_black with "Tb"); [done|by right|]. iIntros "Tb". destruct cb.
  - inversion Hb; subst. iApply (erase_case4_spec d k c t p a sx l x r with "Hp Tt [-Hk] Hk"); [done|rw tree_at_mk; by iFrame|]. iIntros "H".
    iExists _. iFrame "H". iPureIntro. split; [|cbn [plug]; rw !inorder_plug; destruct d; cbn [mk inorder]; list_eq].
    inversion Hk; subst; (eapply plug_rb; [eassumption|]); eauto with chariot.
  - hwp_ld "Hxa". iApply hwp_bind. iApply (hwp_null_or_black with "Ta"); [done|by right|]. iIntros "Ta". destruct ca.
    + destruct (tree_cases d a) as [->|(cs & a1 & ax & a2 & ->)]; [inversion Ha|].
      assert (cs = Red) as -> by (destruct d; inversion Ha; done). pose proof (mk_red_inv _ _ _ _ _ _ Ha) as (_ & Ha1 & Ha2).
      rw (addr_mk d Red a1 ax a2). iApply (erase_case34_spec d k c t p a1 ax a2 sx b with "Hp Tt [-Hk] Hk"); [done|exact Ha2| |].
      { rw (tree_at_mk d _ Black). rw addr_mk. by iFrame. }
      iIntros "H". iExists _. iFrame "H". iPureIntro. split; [|cbn [plug]; rw !inorder_plug; destruct d; cbn [mk inorder]; list_eq].
      inversion Hk; subst; (eapply plug_rb; [eassumption|]); eauto with chariot.
    + iApply (erase_case2_spec d k c t p a sx b with "Hp Tt [-Hk] Hk"); [done|rw tree_at_mk; by iFrame|]. iIntros "Hk Ht".
      assert (Hxs : inorder (plug k (mk d Black t p (mk d Red a sx b))) = inorder (plug (Fr d c p (mk d Black a sx b) :: k) t)).
      { cbn [plug]. rw !inorder_plug. destruct d; done. }
      assert (Hrb : is_rb (mk d Black t p (mk d Red a sx b)) Black (S n)) by eauto with chariot.
      destruct c; [|destruct (top k =? 0) eqn:Ek; zbool; cbn [negb]].
      * iExists _. iSplit; [iPureIntro; split; [|exact Hxs]|iApply (own_plug with "[Hk] Ht"); by rw addr_mk].
        inversion Hk; subst. eapply plug_rb; [|exact Hrb]. by apply ctx_red_black.
      * iDestruct (ctx_top0 with "Hk") as %Hk0. specialize (Hk0 Ek). subst k.
        iExists _. iSplit; [iPureIntro; split; [|exact Hxs]|iApply (own_plug with "[Hk] Ht"); by rw addr_mk].
        by exists (S n).
      * iExists _. iFrame "Ht". rw addr_mk. iFrame "Hk". iPureIntro. inversion Hk; subst. split; [done|]. split; [|auto]. by intros ->.
Qed.

(** One round: first a red sibling is rotated away. *)
Lemma erase_fix_spec d k c t p s n :
  is_rb t Black n -> ctx_rb (Fr d c p s :: k) Black (S n) ->
  ctx_at root (Fr d c p s :: k) (addr t) -∗ tree_at p t -∗
  hwp (rb_erase_fix dummy_rotate d root p (addr s)) (round_post c k (S n) (inorder (plug (Fr d c p s :: k) t))).
Proof.
  iIntros (Ht Hk) "(Hp & Ts & Hk) Tt". iDestruct (ctx_link with "Hk") as %Hlk. iAssert ⌜addr_ok p⌝%I as %Hp; [by iDestruct "Hp" as "[? _]"|].
  assert (exists cs, is_rb s cs (S n) /\ (cs = Red -> c = Black /\ ctx_rb k Black (S (S n)))) as (cs & Hs & Hc) by (inversion Hk; subst; eexists; (split; [eassumption|]); by auto).
  unfold rb_erase_fix. iApply hwp_bind. destruct cs.
  - destruct (Hc eq_refl) as [-> Hk']. destruct (tree_cases d s) as [->|(cs & a & sx & b & ->)]; [inversion Hs|].
    assert (cs = Red) as -> by (destruct d; inversion Hs; done). pose proof (mk_red_inv _ _ _ _ _ _ Hs) as (_ & Ha & Hb). rw addr_mk.
    iApply (erase_case1_red with "Hp Tt Ts Hk"); [done..|]. iIntros "Hp Tt Ta Hk".
    iAssert ⌜addr_ok sx⌝%I as %Hx; [by iDestruct "Hk" as "[[? _] _]"|].
    iApply (hwp_wand with "[-]"); [iApply (erase_cases_spec d (Fr d Black sx b :: k) Red t p a n with "Hp Tt Ta Hk"); [done..| |by right]; eauto with chariot|].
    iIntros ([v|u]) "H"; cbn [round_post]; [by iDestruct "H" as (t') "[[% _] _]"|].
    assert (inorder (plug (Fr d Red p a :: Fr d Black sx b :: k) t) = inorder (plug (Fr d Black p (mk d Red a sx b) :: k) t)) as -> ; [|done].
    cbn [plug]. rw !inorder_plug. destruct d; cbn [mk inorder]; list_eq.
  - iApply (erase_case1_black with "Ts"); [done|by right|]. iIntros "Ts". iApply (erase_cases_spec with "Hp Tt Ts Hk"); done.
Qed.

Lemma erase_loop fuel : forall d c p s k t n,
  is_rb t Black n -> ctx_rb (Fr d c p s :: k) Black (S n) -> (length k < fuel)%nat ->
  ctx_at root (Fr d c p s :: k) (addr t) -∗ tree_at p t -∗
  hwp (sloop fuel (rb_erase_iter dummy_rotate root) (addr t, p)) (fun _ => rb_of root (inorder (plug (Fr d c p s :: k) t))).
Proof.
  induction fuel as [|fuel IH]; intros d c p s k t n Ht Hk Hf; [lia|]. iIntros "Hk Tt". iApply hwp_loop_step.
  iApply (hwp_wand _ (round_post c k (S n) (inorder (plug (Fr d c p s :: k) t))) with "[-]").
  - iAssert ⌜addr t <> addr s⌝%I as %Hne.
    { iDestruct "Hk" as "(_ & Ts & _)". assert (exists cs, is_rb s cs (S n)) as [cs Hs] by (inversion Hk; subst; eauto).
      destruct s as [|? ? y ?]; [inversion Hs|]. iDestruct "Ts" as "[Hy _]".
      iDestruct (node_ne_tree with "Hy Tt") as %H. iPureIntro. cbn in H |- *. auto. }
    iDestruct "Hk" as "((%Hp & Hp & Hpa & Hpb) & Hk)". unfold rb_erase_iter. destruct d; cbn [child flip].
    + hwp_ld "Hpb". rw (proj2 (Z.eqb_neq _ _) Hne). cbn [negb]. iApply (erase_fix_spec Lft with "[-Tt] Tt"); [done..|]. by iFrame.
    + hwp_ld "Hpa". rw Z.eqb_refl. cbn [negb]. hwp_ld "Hpb". iApply (erase_fix_spec Rgt with "[-Tt] Tt"); [done..|]. by iFrame.
  - iIntros ([v|u]) "H"; cbn [round_post]; [|done]. iDestruct "H" as (t') "[%H [Hk Tt]]".
    destruct H as (-> & Hne & -> & Ht' & Hk' & <-). destruct k as [|[d' c' p' s'] k]; [done|]. cbn [length] in Hf.
    iApply (IH with "Hk Tt"); [done..|lia].
Qed.
(** ** Paths inside a path *)

(** The frames [kk] above a hole, below the node [q]. *)
Definition top_or (q : Z) (kk : list frame) : Z := match kk with [] => q | f :: _ => fx f end.
Fixpoint seg_at (q : Z) (kk : list frame) (hole : Z) : iProp Σ :=
  match kk with
  | [] => True
  | Fr d c x s :: kk => node_at d x (top_or q kk) c hole (addr s) ∗ tree_at x s ∗ seg_at q kk x
  end.
Fixpoint bot (kk : list frame) (hole : Z) : Z := match kk with [] => hole | f :: kk => bot kk (fx f) end.

Lemma top_app kk d c x s k : top (kk ++ Fr d c x s :: k) = top_or x kk.
Proof. by destruct kk. Qed.

Lemma seg_split kk d c x s k hole :
  ctx_at root (kk ++ Fr d c x s :: k) hole ⊣⊢ seg_at x kk hole ∗ ctx_at root (Fr d c x s :: k) (bot kk hole).
Proof.
  revert hole. induction kk as [|[d' c' x' s'] kk IH]; intros hole; cbn [app seg_at bot fx]; [by rw left_id|].
  iEval (cbn [ctx_at]). rw IH top_app. cbn [ctx_at]. iSplit; [iIntros "($ & $ & $ & $)"|iIntros "(($ & $ & $) & $)"].
Qed.

Lemma hwp_seg_parent q q' kk hole Φ : kk <> [] -> link_ok q ->
  seg_at q kk hole -∗ (seg_at q' kk hole -∗ Φ tt) -∗ hwp (rb_set_parent (bot kk hole) q') Φ.
Proof.
  intros Hne Hq. revert hole Φ. induction kk as [|[d c x s] kk IH]; intros hole Φ; [done|].
  iIntros "((%Hx & Hx & Ha) & Ts & Hk) K". cbn [bot fx]. destruct kk as [|f kk].
  - cbn [bot top_or]. iApply (hwp_set_parent with "Hx"); [done|]. iIntros "Hx". iApply "K". by iFrame.
  - iApply (IH with "Hk"); [done|]. iIntros "Hk". iApply "K". cbn [seg_at top_or]. by iFrame.
Qed.

Definition lefts (kk : list frame) : Prop := Forall (fun f => dir f = Lft) kk.

Lemma before_lefts kk k : lefts kk -> before (kk ++ k) = before k.
Proof. induction 1 as [|[d c x s] kk Hd _ IH]; [done|]. cbn in Hd. subst d. exact IH. Qed.
Lemma after_app kk k : after (kk ++ k) = after kk ++ after k.
Proof. induction kk as [|[[] c x s] kk IH]; cbn [app after]; [done| |done]. rw IH -app_assoc. done. Qed.

Lemma bot_last kk f a : bot (kk ++ [f]) a = fx f.
Proof. revert a. induction kk as [|g kk IH]; intros a; [done|]. apply IH. Qed.

(** The link above the hole of a path to the left. *)
Lemma seg_acc q kk hole : kk <> [] -> lefts kk ->
  seg_at q kk hole ⊢ rb_left (top_or q kk) ↦ hole ∗ (∀ b, rb_left (top_or q kk) ↦ b -∗ seg_at q kk b).
Proof.
  intros Hne Hl. destruct kk as [|[d c x s] kk]; [done|]. inversion Hl as [|? ? Hd]; subst. cbn in Hd. subst d.
  iIntros "(($ & $ & $ & $) & $ & $)". auto.
Qed.

(** The walk to the smallest node of a subtree. *)
Lemma successor_loop fuel : forall cp p sp k c l y r,
  (length (inorder (T c l y r)) < fuel)%nat ->
  ctx_at root (Fr Lft cp p sp :: k) y -∗ tree_at p (T c l y r) -∗
  hwp (sloop fuel (fun '(successor, tmp) =>
    let parent := successor in
    let successor := tmp in
    tmp ← load (rb_left tmp);
    if tmp =? 0 then mret (Break (parent, successor)) else mret (Next (successor, tmp))) (p, y))
  (fun '(parent, s) => ∃ kk cs sr, ⌜T c l y r = plug kk (T cs E s sr) /\ lefts kk /\ parent = top (kk ++ Fr Lft cp p sp :: k)⌝ ∗
     ctx_at root (kk ++ Fr Lft cp p sp :: k) s ∗ tree_at parent (T cs E s sr)).
Proof.
  induction fuel as [|fuel IH]; intros cp p sp k c l y r Hf; [lia|]. iIntros "Hk Ht". iApply hwp_loop_step.
  iDestruct "Ht" as "((%Hy & Hy & Hl & Hr) & Tl & Tr)". hwp_ld "Hl". cbn [inorder] in Hf. rw length_app in Hf. cbn [length] in Hf.
  destruct l as [|cl ll z lr]; cbn [addr Z.eqb].
  - iApply hwp_ret. iExists [], c, r. iSplit; [iPureIntro; split; [done|split; [constructor|done]]|]. by iFrame.
  - iAssert ⌜addr_ok z⌝%I as %Hz; [by iDestruct "Tl" as "[[? _] _]"|]. nonzero. iApply hwp_ret.
    iApply (hwp_wand with "[-]"); [iApply (IH c y r (Fr Lft cp p sp :: k) cl ll z lr with "[-Tl] Tl"); [lia|by iFrame]|].
    iIntros ([parent s]) "(%kk & %cs & %sr & (%E1 & %Hlf & ->) & Hk & Ht)". iExists (kk ++ [Fr Lft c y r]), cs, sr.
    rw -!app_assoc. iFrame "Hk Ht". iPureIntro. split; [by rw plug_app -E1|]. split; [|done]. by apply Forall_app; repeat constructor.
Qed.
(** ** Taking a node out *)

(** What is left of the node that is taken out. *)
Definition loose (x : Z) : iProp Σ := ∃ a b c, x ↦ a ∗ rb_right x ↦ b ∗ rb_left x ↦ c.

(** After the splice: a valid tree, or a hole that misses one black node. *)
Definition splice_post (xs : list Z) (r : Z) : iProp Σ :=
  (⌜r = 0⌝ ∗ rb_of root xs) ∨
  (∃ d c p s k, ⌜r = p /\ addr_ok p /\ ctx_rb (Fr d c p s :: k) Black 1 /\ inorder (plug (Fr d c p s :: k) E) = xs⌝ ∗
     ctx_at root (Fr d c p s :: k) 0).

(** A node without a left child has none or a red one on the right. *)
Lemma leftless_cases c x r n : is_rb (T c E x r) c n ->
  (r = E /\ c = Red /\ n = O) \/ (r = E /\ c = Black /\ n = 1%nat) \/ (exists y, r = T Red E y E /\ c = Black /\ n = 1%nat).
Proof.
  inversion 1 as [|? ? ? ? Hl Hr|? ? ? ? ? ? Hl Hr]; subst; apply is_rb_E in Hl as [? ->]; inversion Hr; subst; auto.
  right. right. match goal with H1 : is_rb _ Black 0, H2 : is_rb _ Black 0 |- _ => inversion H1; inversion H2; subst; eauto end.
Qed.

(** The hole that is left gets an empty tree. *)
Lemma splice_empty k c n r :
  ctx_rb k c n -> (c = Red /\ n = O /\ r = 0) \/ (c = Black /\ n = 1%nat /\ r = top k) ->
  ctx_at root k 0 -∗ splice_post (before k ++ after k) r.
Proof.
  iIntros (Hk Hc) "Hk". assert (Hx : inorder (plug k E) = before k ++ after k) by by rw inorder_plug.
  destruct Hc as [(-> & -> & ->)|(-> & -> & ->)].
  - iLeft. iSplit; [done|]. iExists (plug k E). iSplit; [iPureIntro; split; [|done]; eapply plug_rb; [by apply ctx_red_black|constructor]|].
    by iApply (own_plug root k E with "Hk").
  - destruct k as [|[d c x s] k].
    + iLeft. iSplit; [done|]. iExists E. iSplit; [iPureIntro; split; [by exists O; constructor|done]|]. by iFrame.
    + iRight. iAssert ⌜addr_ok x⌝%I as %Hok; [by iDestruct "Hk" as "[[? _] _]"|]. iExists d, c, x, s, k. by iFrame.
Qed.

(** The hole that is left gets a black node. *)
Lemma splice_black k y :
  ctx_rb k Black 1 -> ctx_at root k y -∗ tree_at (top k) (T Black E y E) -∗ splice_post (before k ++ y :: after k) 0.
Proof.
  iIntros (Hk) "Hk Ht". iLeft. iSplit; [done|]. iExists (plug k (T Black E y E)).
  iSplit; [iPureIntro; split; [eapply plug_rb; [done|]; eauto with chariot|by rw inorder_plug]|].
  by iApply (own_plug root k (T Black E y E) with "Hk").
Qed.

Lemma erase_leftless_spec k c x r n : ctx_rb k c n -> is_rb (T c E x r) c n ->
  ctx_at root k x -∗ tree_at (top k) (T c E x r) -∗
  hwp (rb_erase_leftless x root (addr r)) (fun '(_, v) => splice_post (before k ++ inorder r ++ after k) v ∗ loose x).
Proof.
  iIntros (Hk Ht) "Hk Ht". iDestruct (ctx_link with "Hk") as %Hlk. iDestruct "Ht" as "((%Hx & Hx & Hxl & Hxr) & _ & Tr)".
  unfold rb_erase_leftless. hwp_ld "Hx". cbv zeta. rw parent_pc //. iApply hwp_bind. iApply (hwp_change_child with "Hx Hk"); [done|]. iIntros "Hx Hk".
  iApply hwp_bind. destruct (leftless_cases _ _ _ _ Ht) as [(-> & -> & ->)|[(-> & -> & ->)|(y & -> & -> & ->)]]; cbn [addr Z.eqb negb].
  - iApply hwp_ret. iApply hwp_ret. rw is_black_pc //. iSplitL "Hk"; [iApply (splice_empty with "Hk"); [done|auto]|]. iExists _, _, _. iFrame.
  - iApply hwp_ret. iApply hwp_ret. rw is_black_pc //. iSplitL "Hk"; [iApply (splice_empty with "Hk"); [done|auto]|]. iExists _, _, _. iFrame.
  - iDestruct "Tr" as "((%Hy & Hy & Hyl) & Ty)". nonzero. hwp_st "Hy". iApply hwp_ret. iApply hwp_ret.
    iSplitL "Hk Hy Hyl Ty"; [iApply (splice_black with "Hk"); [done|by iFrame]|]. iExists _, _, _. iFrame.
Qed.

Lemma erase_rightless_spec k c l x n : ctx_rb k c n -> is_rb (T c l x E) c n -> l <> E ->
  ctx_at root k x -∗ tree_at (top k) (T c l x E) -∗
  hwp (rb_erase_rightless x root (addr l)) (fun '(_, v) => splice_post (before k ++ inorder l ++ after k) v ∗ loose x).
Proof.
  iIntros (Hk Ht Hl) "Hk Ht". iDestruct (ctx_link with "Hk") as %Hlk. iDestruct "Ht" as "((%Hx & Hx & Hxl & Hxr) & Tl & _)".
  assert (Ht' : is_rb (T c E x l) c n) by (inversion Ht; subst; eauto with chariot).
  unfold rb_erase_rightless. hwp_ld "Hx". cbv zeta. rw parent_pc //.
  destruct (leftless_cases _ _ _ _ Ht') as [(-> & _)|[(-> & _)|(y & -> & -> & ->)]]; [done..|].
  iDestruct "Tl" as "((%Hy & Hy & Hyl) & Ty)". hwp_st "Hy". iApply hwp_bind. iApply (hwp_change_child with "Hx Hk"); [done|]. iIntros "Hx Hk".
  iApply hwp_ret. iSplitL "Hk Hy Hyl Ty"; [iApply (splice_black with "Hk"); [done|by iFrame]|]. iExists _, _, _. iFrame.
Qed.
(** The successor [s] is out of the right subtree, which hangs under it now: the
    frames [kk] above the place it had, and [sr] that fills it. *)
Definition lifted (x : Z) (kk : list frame) (cs : color) (s : Z) (sr : tree) : iProp Σ :=
  ∃ q, ⌜addr_ok s /\ link_ok q⌝ ∗ s ↦ pc q cs ∗ rb_right s ↦ bot kk (addr sr) ∗ rb_left s ↦ 0 ∗ seg_at s kk (addr sr) ∗ tree_at s sr.

Lemma erase_successor_spec k c l x r :
  r <> E -> ctx_at root (Fr Rgt c x l :: k) (addr r) -∗ tree_at x r -∗
  hwp (rb_erase_successor dummy_propagate dummy_copy x (addr r)) (fun '(s, parent, child2) => ∃ kk cs sr,
    ⌜r = plug kk (T cs E s sr) /\ lefts kk /\ parent = top_or s kk /\ child2 = addr sr⌝ ∗
    ctx_at root (Fr Rgt c x l :: k) (addr r) ∗ lifted x kk cs s sr).
Proof.
  iIntros (Hr) "Hk Tr". destruct r as [|cr rl y rr]; [done|]. cbn [addr]. iAssert ⌜addr_ok x⌝%I as %Hx; [by iDestruct "Hk" as "[[? _] _]"|].
  iDestruct "Tr" as "((%Hy & Hy & Hyl & Hyr) & Tl & Tr)". unfold rb_erase_successor. hwp_ld "Hyl". destruct rl as [|cl ll z lr]; cbn [addr Z.eqb].
  - hwp_ld "Hyr". iApply hwp_bind. iApply hwp_ret. iApply hwp_ret. iExists [], cr, rr. iFrame "Hk".
    iSplit; [iPureIntro; split; [done|]; split; [constructor|done]|]. iExists x. cbn [bot seg_at]. iFrame. iPureIntro. split; [done|by right].
  - iAssert ⌜addr_ok z⌝%I as %Hz; [by iDestruct "Tl" as "[[? _] _]"|]. nonzero. iApply hwp_bind.
    iApply (hwp_tree_loop root _ _ (Fr Lft cr y rr :: Fr Rgt c x l :: k) (T cl ll z lr) with "[-Tl] Tl"); [by iFrame|]. iIntros (fuel Hf) "Hk Tl".
    iApply (hwp_wand with "[-]"); [iApply (successor_loop fuel cr y rr (Fr Rgt c x l :: k) cl ll z lr with "Hk Tl"); lia|].
    iIntros ([parent s]) "(%kk & %cs & %sr & (%E1 & %Hlf & ->) & Hk & (%Hs & Hs & Hsl & Hsr) & _ & Tsr)".
    set (kk' := kk ++ [Fr Lft cr y rr]). assert (Hlf' : lefts kk') by (by apply Forall_app; repeat constructor).
    assert (EK : kk ++ Fr Lft cr y rr :: Fr Rgt c x l :: k = kk' ++ Fr Rgt c x l :: k) by (by rw -app_assoc).
    assert (Er : T cr (T cl ll z lr) y rr = plug kk' (T cs E s sr)) by (by rw plug_app -E1).
    assert (Hne : kk' <> []) by (by destruct kk). assert (Hbot : forall a, bot kk' a = y) by (intros a; apply bot_last).
    rw EK. rw Er. clearbody kk'. clear EK E1 Hlf kk Hf. iDestruct (ctx_link with "Hk") as %Hlk. rw seg_split Hbot. iDestruct "Hk" as "[Hk Hx]".
    rw top_app in Hlk. rw top_app. hwp_ld "Hsr". iDestruct (seg_acc with "Hk") as "[Hl Hk]"; [done..|]. hwp_st "Hl". iDestruct ("Hk" with "Hl") as "Hk".
    hwp_st "Hsr". iApply hwp_bind. rw -{3}(Hbot (addr sr)). iApply (hwp_seg_parent with "Hk"); [done|by right|]. iIntros "Hk".
    iApply hwp_bind. iApply hwp_ret. iApply hwp_bind. iApply hwp_ret. iApply hwp_ret. iExists kk', cs, sr.
    iSplit; [iPureIntro; split; [done|]; split; [done|]; split; [by destruct kk'|done]|].
    iFrame "Hx". iExists (top_or x kk'). rw Hbot. by iFrame.
Qed.
Lemma ctx_rename kk d c x x' s k c' n : ctx_rb (kk ++ Fr d c x s :: k) c' n -> ctx_rb (kk ++ Fr d c x' s :: k) c' n.
Proof.
  revert c' n. induction kk as [|[d' e y t] kk IH]; intros c' n; cbn [app]; inversion 1; subst; eauto with chariot.
Qed.

(** The successor gets the place, the parent, the colour and the left child of
    the node. *)
Lemma erase_splice_spec k c l x a kk cs s sr n : l <> E ->
  ctx_rb (kk ++ Fr Rgt c x l :: k) cs n -> is_rb (T cs E s sr) cs n -> lefts kk ->
  ctx_at root (Fr Rgt c x l :: k) a -∗ lifted x kk cs s sr -∗
  hwp (rb_erase_splice x root s (top_or s kk) (addr sr))
    (fun '(_, v) => splice_post (before k ++ inorder l ++ s :: inorder sr ++ after kk ++ after k) v ∗ loose x).
Proof.
  iIntros (Hl Hk Hs Hlf) "((%Hx & Hx & Hxr & Hxl) & Tl & Hk) (%q & [%Hsok %Hq] & Hs & Hsr & Hsl & Hseg & Tsr)".
  iDestruct (ctx_link with "Hk") as %Hlk. cbn [child flip]. unfold rb_erase_splice. hwp_ld "Hxl". hwp_st "Hsl".
  destruct l as [|cl ll y lr]; [done|]. cbn [addr]. iDestruct "Tl" as "((%Hy & Hy & Hyl) & Tl)".
  iApply hwp_bind. iApply (hwp_set_parent with "Hy"); [by right|]. iIntros "Hy". hwp_ld "Hx". cbv zeta. rw parent_pc //.
  iApply hwp_bind. iApply (hwp_change_child with "Hx Hk"); [done|]. iIntros "Hx Hk".
  set (l := T cl ll y lr) in *. set (K := kk ++ Fr Rgt c s l :: k). assert (HK : ctx_rb K cs n) by (by eapply ctx_rename).
  assert (Hxs : before k ++ inorder l ++ s :: inorder sr ++ after kk ++ after k = before K ++ inorder sr ++ after K).
  { unfold K. rw before_lefts // after_app. cbn [before after]. list_eq. }
  assert (HtopK : top K = top_or s kk) by apply top_app. rw Hxs.
  iApply hwp_bind. destruct (leftless_cases _ _ _ _ Hs) as [(-> & -> & ->)|[(-> & -> & ->)|(z & -> & -> & ->)]]; cbn [addr Z.eqb negb].
  - iApply hwp_bind. iApply (hwp_is_black with "Hs"); [done|]. iIntros "Hs". iApply hwp_ret. hwp_st "Hs". iApply hwp_ret.
    iSplitR "Hx Hxl Hxr"; [|iExists _, _, _; iFrame]. iApply (splice_empty K with "[-]"); [done|by left|]. unfold K. rw seg_split. by iFrame.
  - iApply hwp_bind. iApply (hwp_is_black with "Hs"); [done|]. iIntros "Hs". iApply hwp_ret. hwp_st "Hs". iApply hwp_ret.
    iSplitR "Hx Hxl Hxr"; [|iExists _, _, _; iFrame]. iApply (splice_empty K with "[-]"); [done|right; by rw HtopK|]. unfold K. rw seg_split. by iFrame.
  - iDestruct "Tsr" as "((%Hz & Hz & Hzl) & Tz)". nonzero. iApply hwp_bind. iApply (hwp_set_parent_color _ _ Black with "Hz"). iIntros "Hz".
    iApply hwp_ret. hwp_st "Hs". iApply hwp_ret. iSplitR "Hx Hxl Hxr"; [|iExists _, _, _; iFrame].
    iApply (splice_black K with "[-Hz Hzl Tz]"); [done|unfold K; rw seg_split; by iFrame|rw HtopK; by iFrame].
Qed.

Lemma erase_spec k c l x r : rb_tree (plug k (T c l x r)) ->
  own_tree root (plug k (T c l x r)) -∗
  hwp (rb_erase x root) (fun _ => rb_of root ((before k ++ inorder l) ++ inorder r ++ after k) ∗ loose x).
Proof.
  iIntros (Ht) "H". destruct (plug_rb_inv _ _ Ht) as (c' & n & Hk & Hx). assert (c' = c) as -> by (by inversion Hx).
  iDestruct (plug_at with "H") as "[Hk Ht]". iDestruct (ctx_link with "Hk") as %Hlk. iDestruct "Ht" as "((%Hok & Hx & Hxl & Hxr) & Tl & Tr)". cbn [addr].
  unfold rb_erase, rb_erase_augmented. iApply hwp_bind. unfold __rb_erase_augmented. hwp_ld "Hxr". hwp_ld "Hxl". iApply hwp_bind.
  iApply (hwp_wand _ (fun '(_, v) => splice_post ((before k ++ inorder l) ++ inorder r ++ after k) v ∗ loose x)%I with "[-]").
  - destruct l as [|cl ll y lr]; [|destruct r as [|cr rl z rr]].
    + cbn [addr Z.eqb inorder]. rw app_nil_r. iApply (erase_leftless_spec with "Hk"); [done..|]. by iFrame.
    + iAssert ⌜addr_ok y⌝%I as %Hy; [by iDestruct "Tl" as "[[? _] _]"|]. cbn [addr]. nonzero. set (l := T cl ll y lr) in *. cbn [Z.eqb inorder app].
      rw -app_assoc. iApply (erase_rightless_spec k c l with "Hk"); [done..|]. by iFrame.
    + iAssert ⌜addr_ok y⌝%I as %Hy; [by iDestruct "Tl" as "[[? _] _]"|]. iAssert ⌜addr_ok z⌝%I as %Hz; [by iDestruct "Tr" as "[[? _] _]"|].
      cbn [addr]. nonzero. nonzero. set (l := T cl ll y lr) in *. set (r := T cr rl z rr) in *. iApply hwp_bind.
      iApply (hwp_wand with "[-]"); [iApply (erase_successor_spec k c l x r with "[-Tr] Tr"); [done|by iFrame]|].
      iIntros ([[s parent] child2]) "(%kk & %cs & %sr & (%Er & %Hlf & -> & ->) & Hk & Hs)".
      assert (Hxs : (before k ++ inorder l) ++ inorder r ++ after k = before k ++ inorder l ++ s :: inorder sr ++ after kk ++ after k).
      { rw Er inorder_plug. rw -(app_nil_r kk) before_lefts //. cbn [before inorder]. rw app_nil_r. list_eq. }
      rw Hxs. assert (Ht' : rb_tree (plug (kk ++ Fr Rgt c x l :: k) (T cs E s sr))) by (rw plug_app -Er; done).
      apply plug_rb_inv in Ht' as (cs' & n' & Hk' & Hs'). assert (cs' = cs) as -> by (by inversion Hs').
      iApply (erase_splice_spec with "Hk Hs"); done.
  - iIntros ([tmp v]) "[H Hx]". iApply hwp_bind. iApply hwp_ret. iApply hwp_ret.
    iDestruct "H" as "[[-> H]|H]"; [iApply hwp_ret; iFrame|]. iDestruct "H" as (d c' p s k') "((-> & %Hp & %Hk' & <-) & Hk)". nonzero.
    unfold ____rb_erase_color. iApply (hwp_tree_loop root _ _ (Fr d c' p s :: k') E with "Hk"); [done|]. iIntros (fuel Hf) "Hk _".
    iApply (hwp_wand with "[Hk]"); [iApply (erase_loop fuel d c' p s k' E 0 with "Hk"); [constructor|done| |done]|iIntros (_) "H"; iFrame].
    cbn [length] in Hf. lia.
Qed.
End erase.
