(* ===== verification/RbtreeWalk.v ===== *)
(** * Red-black trees: iteration and replacement

    The walks read the tree in order, backwards and in post-order, by the parent
    links alone; [rb_replace_node] puts a node in the place of another. *)

From iris.proofmode Require Import proofmode.
From iris.base_logic.lib Require Import gen_heap.
From S2P Require Import Prelude CMem State WordMem WordLogic Rbtree RbtreeSpec RbtreeRep.

(** ** Orders *)

(** The end of a list that a walk to side [d] reaches. *)
Definition end_of (d : side) (xs : list Z) : option Z := match d with Lft => head xs | Rgt => list.last xs end.
(** The nodes beyond a hole on side [d], and those of a tree seen from it. *)
Definition beyond (d : side) (k : list frame) : list Z := match d with Lft => before k | Rgt => after k end.
Definition joined (d : side) (xs ys : list Z) : list Z := match d with Lft => ys ++ xs | Rgt => xs ++ ys end.

Lemma end_of_child d c a x b : end_of d (inorder (mk d c a x b)) = Some (default x (end_of d (inorder a))).
Proof.
  destruct d; cbn [mk inorder end_of].
  - by destruct (inorder a).
  - rw last_app last_cons. by destruct (list.last (inorder a)).
Qed.

Fixpoint post_after (k : list frame) : list Z :=
  match k with
  | [] => []
  | Fr Lft _ x s :: k => postorder s ++ x :: post_after k
  | Fr Rgt _ x _ :: k => x :: post_after k
  end.
Fixpoint post_before (k : list frame) : list Z :=
  match k with
  | [] => []
  | Fr Lft _ _ _ :: k => post_before k
  | Fr Rgt _ _ s :: k => post_before k ++ postorder s
  end.

Lemma postorder_plug k t : postorder (plug k t) = post_before k ++ postorder t ++ post_after k.
Proof.
  revert t. induction k as [|[d c x s] k IH]; intros t; cbn [plug post_before post_after]; [by rw app_nil_r|].
  rw IH. destruct d; cbn [mk postorder]; list_eq.
Qed.

Section walk.
Context `{!gen_heapGS Z Z Σ}.
Context (root : Z).

(** The test and the address of a child. *)
Lemma hwp_child_case d k c a x b Φ :
  ctx_at root k x -∗ tree_at (top k) (mk d c a x b) -∗
  (ctx_at root (Fr d c x b :: k) (addr a) -∗ tree_at x a -∗ Φ (addr a)) -∗
  hwp (load (child d x)) Φ.
Proof.
  rw tree_at_mk. iIntros "Hk ((%Hx & Hx & Ha & Hb) & Ta & Tb) K". iApply (hwp_load with "Ha"). iIntros "Ha".
  iApply ("K" with "[-Ta] Ta"). by iFrame.
Qed.

Lemma descend_loop d fuel : forall k t, (length (inorder t) < fuel)%nat -> t <> E ->
  ctx_at root k (addr t) -∗ tree_at (top k) t -∗
  hwp (sloop fuel (fun n => c ← load (child d n); if c =? 0 then mret (Break n) else mret (Next c)) (addr t))
    (fun v => ⌜end_of d (inorder t) = Some v⌝ ∗ own_tree root (plug k t)).
Proof.
  induction fuel as [|fuel IH]; intros k t Hf Ht; [lia|]. iIntros "Hk Ht". iApply hwp_loop_step.
  destruct (tree_cases d t) as [->|(c & a & x & b & ->)]; [done|]. rw addr_mk.
  iApply hwp_bind. iApply (hwp_child_case with "Hk Ht"). iIntros "Hk Ta". rw end_of_child.
  assert (plug k (mk d c a x b) = plug (Fr d c x b :: k) a) as -> by done.
  destruct (tree_cases d a) as [->|(c' & a1 & y & a2 & Ea)]; [cbn [addr Z.eqb]|assert (Ha : a <> E) by (rw Ea; by destruct d); clear Ea].
  - iApply hwp_ret. iSplit; [destruct d; done|]. iApply (own_plug root (Fr d c x b :: k) E with "Hk Ta").
  - iAssert ⌜addr_ok (addr a)⌝%I as %Hok; [destruct a; [done|]; by iDestruct "Ta" as "[[? _] _]"|]. nonzero. iApply hwp_ret.
    iApply (hwp_wand with "[-]"); [iApply (IH (Fr d c x b :: k) a with "Hk Ta"); [|done]|].
    + destruct d; cbn [mk inorder] in Hf; rw length_app in Hf; cbn [length] in Hf; lia.
    + iIntros (v) "[%Hv H]". rw Hv. by iFrame.
Qed.
Lemma descend_spec d k t : t <> E ->
  ctx_at root k (addr t) -∗ tree_at (top k) t -∗
  hwp (rb_descend d (addr t)) (fun v => ⌜end_of d (inorder t) = Some v⌝ ∗ own_tree root (plug k t)).
Proof.
  iIntros (Ht) "Hk Ht". iApply (hwp_tree_loop with "Hk Ht"). iIntros (fuel Hf) "Hk Ht". iApply (descend_loop with "Hk Ht"); [lia|done].
Qed.

Lemma ends_spec (op : Z -> W Z) d t :
  op root = (n ← load root; if n =? 0 then mret 0 else rb_descend d n) ->
  own_tree root t -∗ hwp (op root) (fun v => ⌜v = default 0 (end_of d (inorder t))⌝ ∗ own_tree root t).
Proof.
  iIntros (->) "[Hr Ht]". hwp_ld "Hr". destruct t as [|c l x r]; cbn [addr Z.eqb].
  - iApply hwp_ret. iSplit; [by destruct d|]. by iFrame.
  - iAssert ⌜addr_ok x⌝%I as %Hx; [by iDestruct "Ht" as "[[? _] _]"|]. nonzero.
    iApply (hwp_wand with "[-]"); [iApply (descend_spec d [] (T c l x r) with "Hr Ht"); done|]. iIntros (v) "[%Hv H]". rw Hv. by iFrame.
Qed.

(** The way up until the path turns. *)
Lemma ascend_loop d fuel : forall k t, (length k < fuel)%nat -> t <> E ->
  ctx_at root k (addr t) -∗ tree_at (top k) t -∗
  hwp (sloop fuel (fun node =>
        parent ← rb_parent node;
        if parent =? 0 then mret (Break parent)
        else c ← load (child d parent); if node =? c then mret (Next parent) else mret (Break parent)) (addr t))
    (fun v => ⌜v = default 0 (end_of (flip d) (beyond d k))⌝ ∗ own_tree root (plug k t)).
Proof.
  induction fuel as [|fuel IH]; intros k t Hf Ht; [lia|]. iIntros "Hk Ht". iApply hwp_loop_step. iDestruct (ctx_link with "Hk") as %Hlk.
  destruct t as [|c l x r]; [done|]. iDestruct "Ht" as "((%Hx & Hx & Hxc) & Tx)". cbn [addr].
  iApply hwp_bind. iApply (hwp_rb_parent with "Hx"); [done|]. iIntros "Hx".
  iAssert (tree_at (top k) (T c l x r)) with "[Hx Hxc Tx]" as "Ht"; [by iFrame|]. destruct k as [|[e ce p s] k]; cbn [top fx].
  - iApply hwp_ret. iSplit; [by destruct d|]. by iFrame.
  - iAssert ⌜addr_ok p⌝%I as %Hp; [by iDestruct "Hk" as "[[? _] _]"|]. nonzero. iDestruct "Hk" as "((_ & Hp & Ha & Hb) & Ts & Hk)". cbn [length] in Hf.
    iAssert ⌜x <> addr s⌝%I as %Hne; [iDestruct "Ht" as "[Hx _]"; iApply (node_ne_tree with "Hx Ts")|].
    destruct (decide (e = d)) as [->|Hed].
    + hwp_ld "Ha". rw Z.eqb_refl. iApply hwp_ret. iPoseProof (IH k (mk d ce (T c l x r) p s)) as "IH"; [lia|by destruct d|]. rw addr_mk.
      iApply (hwp_wand with "[-]"); [iApply ("IH" with "Hk"); rw tree_at_mk; by iFrame|]. iIntros (v) "[-> H]". iFrame "H". by destruct d.
    + assert (e = flip d) as -> by (by destruct e, d). rw flip_flip. hwp_ld "Hb". rw (proj2 (Z.eqb_neq _ _) Hne). iApply hwp_ret. iSplit.
      { destruct d; cbn [flip beyond before after end_of]; [rw app_assoc last_snoc|]; done. }
      iApply (own_plug root (Fr (flip d) ce p s :: k) (T c l x r) with "[-Ht] Ht"). cbn [ctx_at]. unfold node_at. rw flip_flip. by iFrame.
Qed.

Lemma step_spec d k c a x b :
  own_tree root (plug k (mk (flip d) c a x b)) -∗
  hwp (rb_step d x) (fun v => ⌜v = default 0 (end_of (flip d) (joined d (inorder b) (beyond d k)))⌝ ∗ own_tree root (plug k (mk (flip d) c a x b))).
Proof.
  iIntros "H". iDestruct (plug_at with "H") as "[Hk Ht]". rw addr_mk. iDestruct (ctx_link with "Hk") as %Hlk.
  iEval (rw tree_at_mk) in "Ht". iDestruct "Ht" as "((%Hx & Hx & Ha & Hb) & Ta & Tb)". rw flip_flip. unfold rb_step, RB_EMPTY_NODE.
  iApply hwp_bind. hwp_ld "Hx". iApply hwp_ret.
  iAssert ⌜pc (top k) c <> x⌝%I as %Hne.
  { iAssert ⌜x <> top k⌝%I as %Hxk; [destruct k as [|[e ce p s] k]; [iPureIntro; cbn; unfold addr_ok in Hx; lia|]|].
    { iDestruct "Hk" as "[(_ & Hp & _) _]". iApply (pointsto_ne with "Hx Hp"). }
    iPureIntro. rw (pc_sum _ c Hlk). apply link_ok_mod in Hlk. destruct c; cbn [colz]; unfold RB_RED, RB_BLACK; unfold addr_ok in Hx; [lia|].
    intros Heq. destruct Hx as (_ & Hm & _). revert Hm. rewrite <- Heq. zlia. }
  rw (proj2 (Z.eqb_neq _ _) Hne). hwp_ld "Hb". destruct (tree_cases d b) as [->|(c' & b1 & y & b2 & Eb)].
  - cbn [addr Z.eqb negb]. iApply (hwp_tree_loop root _ _ k (mk (flip d) c a x E) with "[Hk] [-]").
    { by rw addr_mk. }
    { rw tree_at_mk. unfold node_at. rw flip_flip. by iFrame. }
    iIntros (fuel Hf) "Hk Ht". pose proof (ascend_loop d fuel k (mk (flip d) c a x E)) as Hw. rw addr_mk in Hw. rw addr_mk.
    iApply (hwp_wand with "[-]"); [iApply (Hw with "Hk Ht"); [lia|by destruct d]|]. iIntros (v) "[-> $]". iPureIntro. destruct d; cbn [joined inorder app]; by rw ?app_nil_r.
  - iAssert ⌜addr_ok (addr b)⌝%I as %Hok; [rw Eb tree_at_mk addr_mk; by iDestruct "Tb" as "[[? _] _]"|]. nonzero.
    assert (Hb : b <> E) by (rw Eb; by destruct d). rw mk_flip flip_flip. assert (plug k (mk d c b x a) = plug (Fr d c x a :: k) b) as -> by done.
    iApply (hwp_wand with "[-]"); [iApply (descend_spec (flip d) (Fr d c x a :: k) b with "[-Tb] Tb"); [done|]|].
    + cbn [ctx_at]. by iFrame.
    + iIntros (v) "[%Hv $]". iPureIntro. destruct d; cbn [flip end_of joined] in *; [rw last_app Hv|destruct (inorder b); [|injection Hv as ->]]; done.
Qed.
(** ** Post-order *)

Lemma head_app_some (xs ys : list Z) v : head xs = Some v -> head (xs ++ ys) = Some v.
Proof. by destruct xs. Qed.

Lemma deepest_loop fuel : forall k t, (length (inorder t) < fuel)%nat -> t <> E ->
  ctx_at root k (addr t) -∗ tree_at (top k) t -∗
  hwp (sloop fuel (fun node =>
        l ← load (rb_left node);
        if negb (l =? 0) then mret (Next l)
        else r ← load (rb_right node); if negb (r =? 0) then mret (Next r) else mret (Break node)) (addr t))
    (fun v => ⌜head (postorder t) = Some v⌝ ∗ own_tree root (plug k t)).
Proof.
  induction fuel as [|fuel IH]; intros k t Hf Ht; [lia|]. iIntros "Hk Ht". iApply hwp_loop_step.
  destruct t as [|c l x r]; [done|]. cbn [inorder] in Hf. rw length_app in Hf. cbn [length] in Hf. iDestruct "Ht" as "((%Hx & Hx & Hl & Hr) & Tl & Tr)".
  hwp_ld "Hl". destruct l as [|cl ll y lr]; [cbn [addr Z.eqb negb]; hwp_ld "Hr"; destruct r as [|cr rl y rr]; [cbn [addr Z.eqb negb]|]|].
  - iApply hwp_ret. iSplit; [done|]. iApply (own_plug root k (T c E x E) with "Hk"). by iFrame.
  - set (r := T cr rl y rr) in *. iAssert ⌜addr_ok (addr r)⌝%I as %Hok; [by iDestruct "Tr" as "[[? _] _]"|]. nonzero. iApply hwp_ret.
    iApply (hwp_wand with "[-]"); [iApply (IH (Fr Rgt c x E :: k) r with "[-Tr] Tr"); [lia|done|by iFrame]|]. iIntros (v) "[%Hv $]".
    iPureIntro. cbn [postorder app]. by rw (head_app_some _ _ _ Hv).
  - set (l := T cl ll y lr) in *. iAssert ⌜addr_ok (addr l)⌝%I as %Hok; [by iDestruct "Tl" as "[[? _] _]"|]. nonzero. iApply hwp_ret.
    iApply (hwp_wand with "[-]"); [iApply (IH (Fr Lft c x r :: k) l with "[-Tl] Tl"); [lia|done|by iFrame]|]. iIntros (v) "[%Hv $]".
    iPureIntro. cbn [postorder app]. by rw (head_app_some _ _ _ Hv).
Qed.

Lemma deepest_spec k t : t <> E ->
  ctx_at root k (addr t) -∗ tree_at (top k) t -∗
  hwp (rb_left_deepest_node (addr t)) (fun v => ⌜head (postorder t) = Some v⌝ ∗ own_tree root (plug k t)).
Proof.
  iIntros (Ht) "Hk Ht". iApply (hwp_tree_loop with "Hk Ht"). iIntros (fuel Hf) "Hk Ht". iApply (deepest_loop with "Hk Ht"); [lia|done].
Qed.

Lemma first_postorder_spec t :
  own_tree root t -∗ hwp (rb_first_postorder root) (fun v => ⌜v = default 0 (head (postorder t))⌝ ∗ own_tree root t).
Proof.
  iIntros "[Hr Ht]". unfold rb_first_postorder. hwp_ld "Hr". destruct t as [|c l x r]; cbn [addr Z.eqb].
  - iApply hwp_ret. iSplit; [done|]. by iFrame.
  - iAssert ⌜addr_ok x⌝%I as %Hx; [by iDestruct "Ht" as "[[? _] _]"|]. nonzero.
    iApply (hwp_wand with "[-]"); [iApply (deepest_spec [] (T c l x r) with "Hr Ht"); done|]. iIntros (v) "[%Hv H]". rw Hv. by iFrame.
Qed.

Lemma next_postorder_spec k c l x r :
  own_tree root (plug k (T c l x r)) -∗
  hwp (rb_next_postorder x) (fun v => ⌜v = default 0 (head (post_after k))⌝ ∗ own_tree root (plug k (T c l x r))).
Proof.
  iIntros "H". iDestruct (plug_at with "H") as "[Hk Ht]". iDestruct (ctx_link with "Hk") as %Hlk. cbn [addr].
  iDestruct "Ht" as "((%Hx & Hx & Hxc) & Tx)". unfold rb_next_postorder. nonzero.
  iApply hwp_bind. iApply (hwp_rb_parent with "Hx"); [done|]. iIntros "Hx".
  iAssert (tree_at (top k) (T c l x r)) with "[Hx Hxc Tx]" as "Ht"; [by iFrame|]. destruct k as [|[d e p s] k]; cbn [top fx].
  { iApply hwp_ret. iSplit; [done|]. by iFrame. }
  iAssert ⌜addr_ok p⌝%I as %Hp; [by iDestruct "Hk" as "[[? _] _]"|]. nonzero. iDestruct "Hk" as "((_ & Hp & Ha & Hb) & Ts & Hk)".
  iAssert ⌜x <> addr s⌝%I as %Hne; [iDestruct "Ht" as "[Hx _]"; iApply (node_ne_tree with "Hx Ts")|]. destruct d; cbn [child flip].
  - hwp_ld "Ha". rw Z.eqb_refl. hwp_ld "Hb". destruct s as [|cs sl y sr]; [cbn [addr Z.eqb negb]|].
    + iApply hwp_ret. iSplit; [done|]. iApply (own_plug root (Fr Lft e p E :: k) (T c l x r) with "[-Ht] Ht"). by iFrame.
    + set (s := T cs sl y sr) in *. iAssert ⌜addr_ok (addr s)⌝%I as %Hok; [by iDestruct "Ts" as "[[? _] _]"|]. nonzero.
      iApply (hwp_wand with "[-]"); [iApply (deepest_spec (Fr Rgt e p (T c l x r) :: k) s with "[-Ts] Ts"); [done|by iFrame]|].
      iIntros (v) "[%Hv $]". iPureIntro. cbn [post_after]. by rw (head_app_some _ _ _ Hv).
  - hwp_ld "Hb". rw (proj2 (Z.eqb_neq _ _) Hne). iApply hwp_ret. iSplit; [done|].
    iApply (own_plug root (Fr Rgt e p s :: k) (T c l x r) with "[-Ht] Ht"). by iFrame.
Qed.

(** ** Replacement *)

Lemma replace_spec k c l x r y u v w : addr_ok y ->
  own_tree root (plug k (T c l x r)) -∗ y ↦ u -∗ rb_right y ↦ v -∗ rb_left y ↦ w -∗
  hwp (rb_replace_node x y root) (fun _ => own_tree root (plug k (T c l y r)) ∗ ∃ a b d, x ↦ a ∗ rb_right x ↦ b ∗ rb_left x ↦ d).
Proof.
  iIntros (Hy) "H Hy Hyr Hyl". iDestruct (plug_at with "H") as "[Hk Ht]". iDestruct (ctx_link with "Hk") as %Hlk. cbn [addr].
  iDestruct "Ht" as "((%Hx & Hx & Hxl & Hxr) & Tl & Tr)". cbn [child flip]. unfold rb_replace_node.
  iApply hwp_bind. iApply (hwp_rb_parent with "Hx"); [done|]. iIntros "Hx". hwp_ld "Hx". hwp_st "Hy". hwp_ld "Hxr". hwp_st "Hyr". hwp_ld "Hxl". hwp_st "Hyl".
  iApply hwp_bind. iApply (hwp_reparent with "Tl"); [by right|]. iIntros "Tl". iApply hwp_bind. iApply (hwp_reparent with "Tr"); [by right|]. iIntros "Tr".
  iApply (hwp_change_child with "Hx Hk"); [done|]. iIntros "Hx Hk". iSplitR "Hx Hxl Hxr"; [|iExists _, _, _; iFrame].
  iApply (own_plug root k (T c l y r) with "Hk"). by iFrame.
Qed.
End walk.
