(* ===== verification/RbtreeProps.v ===== *)
(** * Red-black trees: the theorems about memory

    Insertion, removal, iteration and replacement as functions on memories that
    hold a tree, and the bound on its height. *)

From Stdlib Require Import Sorting.Sorted.
From iris.proofmode Require Import proofmode.
From iris.base_logic.lib Require Import gen_heap.
From S2P Require Import Prelude CMem State WordMem WordLogic Rbtree RbtreeSpec RbtreeRep RbtreeInsert RbtreeErase RbtreeWalk.

(** ** Memories that hold a tree *)

(** The words outside [ws] are as they were. *)
Definition kept_outside (ws : list (Z * Z)) (m m' : words) : Prop :=
  forall a v, a ∉ ws.*1 -> m !! a = Some v -> m' !! a = Some v.

(** The words of a node that is not in the tree. *)
Definition node_words (x a b c : Z) : list (Z * Z) := [(x, a); (rb_right x, b); (rb_left x, c)].

Lemma holds_app m ws ws' : holds m (ws ++ ws') -> holds m ws /\ holds m ws'.
Proof.
  intros [Hnd Hin]. rw fmap_app in Hnd. apply list.NoDup_app in Hnd as (H1 & _ & H2).
  split; (split; [done|]); intros a v Ha; apply Hin, elem_of_app; auto.
Qed.

Lemma at_of_words m root t : Forall addr_ok (inorder t) -> holds m (rb_words root t) -> rb_at m root t.
Proof. by split. Qed.

(** Every node of the tree has its own word. *)
Lemma inorder_words p t x : x ∈ inorder t -> x ∈ (tree_words p t).*1.
Proof.
  revert p. induction t as [|c l IHl y r IHr]; intros p; cbn [inorder tree_words]; [by intros ?%elem_of_nil|].
  cbn [fmap list_fmap fst]. rw fmap_app !elem_of_cons !elem_of_app elem_of_cons. intros [H|[->|H]]; eauto 10.
Qed.

Lemma inorder_nodup_words p t : NoDup (tree_words p t).*1 -> NoDup (inorder t).
Proof.
  revert p. induction t as [|c l IHl y r IHr]; intros p; cbn [inorder tree_words]; [constructor|].
  cbn [fmap list_fmap fst]. rw fmap_app. intros H. inversion H as [|? ? Hy H1]; subst. inversion H1 as [|? ? _ H2]; subst.
  inversion H2 as [|? ? _ H3]; subst. apply list.NoDup_app in H3 as (Hl & Hlr & Hr). rw !elem_of_cons elem_of_app in Hy.
  apply list.NoDup_app. split; [eauto|]. split.
  - intros z Hz [->|Hz']%elem_of_cons; [apply Hy; right; right; left; by apply inorder_words|]. eapply Hlr; by apply inorder_words.
  - constructor; [|eauto]. intros Hz. apply Hy. right. right. right. by apply inorder_words.
Qed.

Lemma rb_at_nodup m root t : rb_at m root t -> NoDup (inorder t).
Proof. intros [[Hnd _] _]. apply (inorder_nodup_words 0). by inversion Hnd. Qed.

(** A node's place in the order is its place in the tree. *)
Lemma nodup_split (l1 l2 l1' l2' : list Z) x : NoDup (l1 ++ x :: l2) -> l1 ++ x :: l2 = l1' ++ x :: l2' -> l1 = l1' /\ l2 = l2'.
Proof.
  revert l1'. induction l1 as [|y l1 IH]; intros [|y' l1'] Hnd; cbn [app] in *; intros [=]; subst.
  - done.
  - inversion Hnd as [|? ? Hx _]; subst. exfalso. apply Hx, elem_of_app. right. left.
  - inversion Hnd as [|? ? Hx _]; subst. exfalso. apply Hx, elem_of_app. right. left.
  - inversion Hnd; subst. destruct (IH l1') as [-> ->]; auto.
Qed.

Lemma node_place m root t l1 x l2 : rb_at m root t -> inorder t = l1 ++ x :: l2 ->
  exists k c l r, t = plug k (T c l x r) /\ l1 = before k ++ inorder l /\ l2 = inorder r ++ after k.
Proof.
  intros Hm Ht. destruct (find_node x t) as (k & c & l & r & E); [rw Ht elem_of_app elem_of_cons; auto|]. exists k, c, l, r. split; [done|].
  apply (nodup_split l1 l2 _ _ x); [rw -Ht; by eapply rb_at_nodup|]. rw -Ht E inorder_plug. cbn [inorder]. list_eq.
Qed.

(** ** Running an operation on a tree *)

(** Reading does not change memory. *)
Definition readonly {A} (c : W A) : Prop := forall m a m', c m = Done a m' -> m' = m.

Lemma readonly_ret {A} (a : A) : readonly (mret a).
Proof. intros m b m' [= _ ->]. done. Qed.
Lemma readonly_load a : readonly (load a).
Proof. intros m b m'. unfold load, sopt. destruct (m !! a); [intros [= _ ->]|]; done. Qed.
Lemma readonly_bind {A B} (c : W A) (f : A -> W B) : readonly c -> (forall a, readonly (f a)) -> readonly (c ≫= f).
Proof.
  intros Hc Hf m b m'. unfold mbind, SM_bind. destruct (c m) as [a m1| |] eqn:E; [|done..]. apply Hc in E. subst. apply Hf.
Qed.
Lemma readonly_loop {V R} (body : V -> W (ctl V R)) fuel v : (forall v, readonly (body v)) -> readonly (sloop fuel body v).
Proof.
  intros Hb. revert v. induction fuel as [|fuel IH]; intros v; [by intros m a m'|]. cbn [sloop].
  apply readonly_bind; [apply Hb|]. intros [v'|r]; [apply IH|apply readonly_ret].
Qed.
Lemma readonly_wloop {V R} (body : V -> W (ctl V R)) v : (forall v, readonly (body v)) -> readonly (wloop body v).
Proof. intros Hb. apply readonly_bind; [by intros m a m' [= _ ->]|]. intros fuel. by apply readonly_loop. Qed.

Create HintDb reading.
#[export] Hint Resolve readonly_ret readonly_load readonly_bind readonly_wloop : reading.
Ltac reading :=
  repeat match goal with
  | |- readonly (mbind _ _) => apply readonly_bind; [|intros ?]
  | |- readonly (wloop _ _) => apply readonly_wloop; intros ?
  | |- readonly (if ?b then _ else _) => destruct b
  | |- readonly (match ?x with (_, _) => _ end) => destruct x
  | |- _ => solve [auto with reading]
  end.

Lemma readonly_descend d n : readonly (rb_descend d n).
Proof. unfold rb_descend. reading. Qed.
#[export] Hint Resolve readonly_descend : reading.
Lemma readonly_step d n : readonly (rb_step d n).
Proof. unfold rb_step, RB_EMPTY_NODE, rb_parent. reading. Qed.
Lemma readonly_search f r : readonly (rb_search f r).
Proof. unfold rb_search. reading. Qed.
Lemma readonly_deepest n : readonly (rb_left_deepest_node n).
Proof. unfold rb_left_deepest_node. reading. Qed.
#[export] Hint Resolve readonly_step readonly_search readonly_deepest : reading.

(** No operation maps or unmaps a word. *)
Definition steady {A} (c : W A) : Prop := forall m a m', c m = Done a m' -> forall x, is_Some (m' !! x) <-> is_Some (m !! x).

Lemma readonly_steady {A} (c : W A) : readonly c -> steady c.
Proof. intros H m a m' ->%H. done. Qed.
Lemma steady_store a v : steady (store a v).
Proof.
  intros m u m'. unfold store, supd, mbind, option_bind. destruct (m !! a) eqn:Ha; [|done]. intros [= _ <-] x.
  destruct (decide (a = x)) as [->|Hx]; [rw lookup_insert_eq Ha; split; eauto|by rw lookup_insert_ne].
Qed.
Lemma steady_bind {A B} (c : W A) (f : A -> W B) : steady c -> (forall a, steady (f a)) -> steady (c ≫= f).
Proof.
  intros Hc Hf m b m'. unfold mbind, SM_bind. destruct (c m) as [a m1| |] eqn:E0; [|done..]. intros E1 x.
  rw (Hf _ _ _ _ E1). apply (Hc _ _ _ E0).
Qed.
Lemma steady_wloop {V R} (body : V -> W (ctl V R)) v : (forall v, steady (body v)) -> steady (wloop body v).
Proof.
  intros Hb. apply steady_bind; [by apply readonly_steady; intros m a m' [= _ ->]|]. intros fuel. revert v.
  induction fuel as [|fuel IH]; intros v; [by intros m a m'|]. cbn [sloop].
  apply steady_bind; [apply Hb|]. intros [v'|r]; [apply IH|apply readonly_steady, readonly_ret].
Qed.
Ltac steady :=
  repeat match goal with
  | |- steady (mbind _ _) => apply steady_bind; [|intros ?]
  | |- steady (wloop _ _) => apply steady_wloop; intros ?
  | |- steady (store _ _) => apply steady_store
  | |- steady (if ?b then _ else _) => destruct b
  | |- steady (match ?x with (_, _) => _ end) => destruct x
  | |- steady (match ?x with Some _ => _ | None => _ end) => destruct x
  | |- steady (let _ := _ in _) => cbv zeta
  | |- _ => apply readonly_steady; solve [reading; auto with reading]
  end.

Lemma steady_rotate old new root c : steady (__rb_rotate_set_parents old new root c).
Proof. unfold __rb_rotate_set_parents, rb_parent, rb_set_parent_color, __rb_change_child. steady. Qed.

Lemma steady_insert f root x : steady (rb_insert f root x).
Proof.
  unfold rb_insert, rb_link_node, rb_insert_color, __rb_insert, rb_insert_iter, rb_insert_fix, rb_set_parent_color, rb_is_black, rb_is_red, rb_red_parent, rb_parent, dummy_rotate.
  steady; apply steady_rotate.
Qed.

Lemma steady_erase x root : steady (rb_erase x root).
Proof.
  unfold rb_erase, rb_erase_augmented, __rb_erase_augmented, rb_erase_leftless, rb_erase_rightless, rb_erase_successor, rb_successor, rb_erase_splice,
    ____rb_erase_color, rb_erase_iter, rb_erase_fix, rb_erase_cases, rb_erase_case1, rb_erase_case2, rb_erase_case3, rb_erase_case4, null_or_black,
    rb_set_parent, rb_set_parent_color, rb_set_black, rb_color, rb_is_black, rb_is_red, rb_parent, __rb_change_child, dummy_propagate, dummy_copy, dummy_rotate.
  steady; apply steady_rotate.
Qed.

(** An operation that owns a tree and the words [ws], as a function on memory. *)
Lemma run_tree {A} (c : W A) m root t ws (Φ : A -> tree -> list (Z * Z) -> Prop) :
  Forall addr_ok (inorder t) -> holds m (ws ++ rb_words root t) ->
  (forall `{!gen_heapGS Z Z Σ}, ([∗ list] w ∈ ws, w.1 ↦ w.2) -∗ own_tree root t -∗
     hwp c (fun x => ∃ t' ws', ⌜Φ x t' ws'⌝ ∗ ([∗ list] w ∈ ws', w.1 ↦ w.2) ∗ own_tree root t')) ->
  exists x m' t' ws', c m = Done x m' /\ Φ x t' ws' /\ rb_at m' root t' /\ holds m' (ws' ++ rb_words root t') /\
    kept_outside (ws ++ rb_words root t) m m'.
Proof.
  intros Hok Hw Hc.
  destruct (run_words c m (ws ++ rb_words root t) (fun x l => exists t' ws', Φ x t' ws' /\ Forall addr_ok (inorder t') /\ l = ws' ++ rb_words root t'))
    as (x & m' & l & E & (t' & ws' & H1 & H2 & ->) & H3 & H4); [done| |].
  - intros Σ G. rw big_sepL_app. iIntros "[Hw H]". iApply (hwp_wand with "[-]"); [iApply (Hc with "Hw"); iApply rb_words_own; by iFrame|].
    iIntros (x) "(%t' & %ws' & %HΦ & Hw & H)". iDestruct (rb_words_own with "H") as "[% H]". iExists (ws' ++ rb_words root t').
    rw big_sepL_app. iFrame. iPureIntro. by exists t', ws'.
  - exists x, m', t', ws'. split; [done|]. split; [done|]. split; [|done]. split; [|done]. by apply holds_app in H3 as [_ H3].
Qed.

(** One that only reads. *)
Lemma run_reading {A} (c : W A) m root t (φ : A -> Prop) : readonly c ->
  rb_at m root t ->
  (forall `{!gen_heapGS Z Z Σ}, own_tree root t -∗ hwp c (fun x => ⌜φ x⌝ ∗ own_tree root t)) ->
  exists x, c m = Done x m /\ φ x.
Proof.
  intros Hr [Hw Hok] Hc. destruct (run_tree c m root t [] (fun x _ _ => φ x) Hok Hw) as (x & m' & _ & _ & Erun & Hx & _).
  - intros Σ G. iIntros "_ H". iApply (hwp_wand with "[H]"); [by iApply Hc|]. iIntros (x) "[% H]". iExists t, []. iFrame "H". iSplit; [done|]. by iApply big_sepL_nil.
  - pose proof (Hr _ _ _ Erun) as ->. eauto.
Qed.

(** ** Height *)

Fixpoint height (t : tree) : nat := match t with E => O | T _ l _ r => S (Nat.max (height l) (height r)) end.

Lemma black_height_size t c n : is_rb t c n -> (2 ^ n <= S (length (inorder t)))%nat.
Proof.
  induction 1 as [|l x r n _ IHl _ IHr|l x r c1 c2 n _ IHl _ IHr]; cbn [inorder]; [cbn; lia| |]; rw length_app; cbn [length Nat.pow]; lia.
Qed.

Lemma height_black_height t c n : is_rb t c n -> (height t <= 2 * n + match c with Red => 1 | Black => 0 end)%nat.
Proof.
  induction 1 as [|l x r n _ IHl _ IHr|l x r c1 c2 n _ IHl _ IHr]; cbn [height]; [lia|lia|]. destruct c1, c2; lia.
Qed.

(** ** Insertion *)

Lemma insert_false callback root x m m' : rb_insert callback root x m = Done false m' -> rb_insert callback root x m = Done false m.
Proof.
  unfold rb_insert, mbind, SM_bind. destruct (rb_search callback root m) as [o m1| |] eqn:E0; [|done..].
  apply readonly_search in E0 as ->. destruct o as [[n p]|]; [|done].
  destruct (rb_link_node x p n m) as [[] m2| |]; [|done..]. by destruct (rb_insert_color x root m2) as [[] m3| |].
Qed.

Lemma sorted_insert (key : Z -> Z) l1 x l2 : by_key key (l1 ++ l2) -> before_key key (key x) l1 -> after_key key (key x) l2 -> by_key key (l1 ++ x :: l2).
Proof.
  unfold by_key. intros Hs H1 H2. induction l1 as [|y l1 IH]; cbn [app] in *; [by constructor|].
  inversion Hs as [|? ? Hs' Hy]; subst. apply Forall_cons_iff in H1 as [Hyx H1]. constructor; [by apply IH|].
  apply Forall_app in Hy as [Hy1 Hy2]. apply Forall_app. split; [done|]. by constructor.
Qed.

Lemma rb_insert_run m root t x u v w callback key :
  addr_ok x -> rb_at m root t -> rb_tree t -> by_key key (inorder t) ->
  holds m (node_words x u v w ++ rb_words root t) -> compares callback key (key x) (inorder t) ->
  exists r m' t', rb_insert callback root x m = Done r m' /\
    (if r : bool then exists l1 l2, inorder t = l1 ++ l2 /\ before_key key (key x) l1 /\ after_key key (key x) l2 /\ rb_tree t' /\ inorder t' = l1 ++ x :: l2
     else exists y, y ∈ inorder t /\ key y = key x) /\
    rb_at m' root t' /\ kept_outside (node_words x u v w ++ rb_words root t) m m'.
Proof.
  intros Hx Hm Ht Hs Hw Hc. destruct (run_tree (rb_insert callback root x) m root t (node_words x u v w) (fun r t' _ =>
    if r : bool then exists l1 l2, inorder t = l1 ++ l2 /\ before_key key (key x) l1 /\ after_key key (key x) l2 /\ rb_tree t' /\ inorder t' = l1 ++ x :: l2
    else exists y, y ∈ inorder t /\ key y = key x)) as (r & m' & t' & ws' & E & Hr & Hm' & _ & Hk); [apply Hm|done| |by eauto 10].
  intros Σ G. unfold node_words. rw !big_sepL_cons. cbn [fst snd]. iIntros "(Hx & Hxr & Hxl & _) H".
  iApply (hwp_wand with "[-]"); [iApply (insert_spec with "H Hx Hxr Hxl"); done|]. iIntros ([]) "H".
  - iDestruct "H" as (l1 l2) "((%H1 & %H2 & %H3) & (%t' & [%H4 %H5] & H))". iExists t', []. iFrame "H". iSplit; [iPureIntro; by exists l1, l2|done].
  - iDestruct "H" as "(% & H & _)". iExists t, []. iFrame "H". iSplit; [done|]. by iApply big_sepL_nil.
Qed.

(** C27: [rb_insert] puts a node into a tree that is ordered by key.  When the key
    is new the node goes between the smaller and the greater ones and the result
    is again a red-black tree in order of keys; when it is there the memory does
    not change.  No word outside the tree and the node is written, and the loops
    come to an end. *)
Theorem rb_insert_correct m root t x u v w callback key :
  addr_ok x -> rb_at m root t -> rb_tree t -> by_key key (inorder t) ->
  holds m (node_words x u v w ++ rb_words root t) -> compares callback key (key x) (inorder t) ->
  ((exists y, y ∈ inorder t /\ key y = key x) -> rb_insert callback root x m = Done false m) /\
  ((forall y, y ∈ inorder t -> key y <> key x) ->
   exists m' t' l1 l2, rb_insert callback root x m = Done true m' /\ rb_at m' root t' /\ rb_tree t' /\
     inorder t = l1 ++ l2 /\ inorder t' = l1 ++ x :: l2 /\ by_key key (inorder t') /\
     kept_outside (node_words x u v w ++ rb_words root t) m m').
Proof.
  intros Hx Hm Ht Hs Hw Hc. pose proof (rb_insert_run m root t x u v w callback key Hx Hm Ht Hs Hw Hc) as (r & m' & t' & Er & Hr & Hm' & Hk).
  destruct r.
  - destruct Hr as (l1 & l2 & H1 & H2 & H3 & H4 & H5). split.
    + intros (y & Hy & Ey). exfalso. rw H1 in Hy. unfold before_key, after_key in *. rw Forall_forall in H2. rw Forall_forall in H3.
      apply elem_of_app in Hy as [Hy%list_elem_of_In|Hy%list_elem_of_In]; [apply H2 in Hy|apply H3 in Hy]; lia.
    + intros _. exists m', t', l1, l2. rw H5. rw H1 in Hs. pose proof (sorted_insert key l1 x l2 Hs H2 H3). done.
  - destruct Hr as (y & Hy & Ey). split; [|intros Hne; by destruct (Hne y Hy)]. intros _. by eapply insert_false.
Qed.

(** ** Removal *)

Lemma rb_erase_run m root t l1 x l2 :
  rb_at m root t -> rb_tree t -> inorder t = l1 ++ x :: l2 ->
  exists m' t' u v w, rb_erase x root m = Done tt m' /\ rb_at m' root t' /\ rb_tree t' /\ inorder t' = l1 ++ l2 /\
    holds m' (node_words x u v w ++ rb_words root t') /\ kept_outside (rb_words root t) m m'.
Proof.
  intros Hm Ht Hx. destruct (node_place _ _ _ _ _ _ Hm Hx) as (k & c & l & r & -> & -> & ->).
  destruct (run_tree (rb_erase x root) m root (plug k (T c l x r)) [] (fun _ t' ws => rb_tree t' /\
    inorder t' = (before k ++ inorder l) ++ inorder r ++ after k /\ exists u v w, ws = node_words x u v w))
    as ([] & m' & t' & ws & Er & (H1 & H2 & (u & v & w & ->)) & Hm' & Hw & Hk); [apply Hm|apply Hm| |by eauto 15].
  intros Σ G. iIntros "_ H". iApply (hwp_wand with "[H]"); [by iApply erase_spec|].
  iIntros (_) "[(%t' & [%H1 %H2] & H) (%u & %v & %w & Hx & Hr & Hl)]". iExists t', (node_words x u v w). iFrame "H". iSplit; [iPureIntro; eauto 10|].
  unfold node_words. rw !big_sepL_cons. by iFrame.
Qed.

(** C28: [rb_erase] takes a node out of a tree: the other nodes stay in their order
    and are again a red-black tree, the words of the node are free for another
    use, and no word outside the tree is written. *)
Theorem rb_erase_correct m root t l1 x l2 :
  rb_at m root t -> rb_tree t -> inorder t = l1 ++ x :: l2 ->
  exists m' t' u v w, rb_erase x root m = Done tt m' /\ rb_at m' root t' /\ rb_tree t' /\ inorder t' = l1 ++ l2 /\
    holds m' (node_words x u v w ++ rb_words root t') /\ kept_outside (rb_words root t) m m'.
Proof. apply rb_erase_run. Qed.

(** ** Iteration *)

Lemma rb_at_fuel m root t : rb_at m root t -> (length (inorder t) < fuel_of m)%nat.
Proof.
  intros [Hw _]. apply holds_fuel in Hw. unfold rb_words in Hw. cbn [length] in Hw. rw length_tree_words in Hw. lia.
Qed.

Lemma rb_first_run m root t : rb_at m root t -> rb_first root m = Done (default 0 (head (inorder t))) m.
Proof.
  intros Hm. destruct (run_reading (rb_first root) m root t (eq (default 0 (head (inorder t)))) ltac:(unfold rb_first; reading) Hm) as (v & ? & <-); [|done].
  intros Σ G. iIntros "H". iApply (hwp_wand with "[H]"); [by iApply (ends_spec _ _ Lft)|]. by iIntros (v) "[-> $]".
Qed.

Lemma rb_last_run m root t : rb_at m root t -> rb_last root m = Done (default 0 (list.last (inorder t))) m.
Proof.
  intros Hm. destruct (run_reading (rb_last root) m root t (eq (default 0 (list.last (inorder t)))) ltac:(unfold rb_last; reading) Hm) as (v & ? & <-); [|done].
  intros Σ G. iIntros "H". iApply (hwp_wand with "[H]"); [by iApply (ends_spec _ _ Rgt)|]. by iIntros (v) "[-> $]".
Qed.

Lemma rb_next_run m root t l1 x l2 : rb_at m root t -> inorder t = l1 ++ x :: l2 -> rb_next x m = Done (default 0 (head l2)) m.
Proof.
  intros Hm Hx. destruct (node_place _ _ _ _ _ _ Hm Hx) as (k & c & l & r & -> & -> & ->).
  destruct (run_reading (rb_next x) m root _ (eq (default 0 (head (inorder r ++ after k)))) ltac:(unfold rb_next; reading) Hm) as (v & ? & <-); [|done].
  intros Σ G. iIntros "H". iApply (hwp_wand with "[H]"); [by iApply (step_spec root Rgt k c l x r)|]. by iIntros (v) "[-> $]".
Qed.

Lemma rb_prev_run m root t l1 x l2 : rb_at m root t -> inorder t = l1 ++ x :: l2 -> rb_prev x m = Done (default 0 (list.last l1)) m.
Proof.
  intros Hm Hx. destruct (node_place _ _ _ _ _ _ Hm Hx) as (k & c & l & r & -> & -> & ->).
  destruct (run_reading (rb_prev x) m root _ (eq (default 0 (list.last (before k ++ inorder l)))) ltac:(unfold rb_prev; reading) Hm) as (v & ? & <-); [|done].
  intros Σ G. iIntros "H". iApply (hwp_wand with "[H]"); [by iApply (step_spec root Lft k c r x l)|]. by iIntros (v) "[-> $]".
Qed.

(** Iteration reads the nodes in order: [rb_first] and [rb_last] give the ends
    of a tree, [rb_next] and [rb_prev] the neighbours of a node, NULL beyond the
    ends, and the memory does not change. *)
Lemma rb_iteration m root t l1 x l2 :
  rb_at m root t -> inorder t = l1 ++ x :: l2 ->
  rb_first root m = Done (default 0 (head (inorder t))) m /\ rb_last root m = Done (default 0 (list.last (inorder t))) m /\
  rb_next x m = Done (default 0 (head l2)) m /\ rb_prev x m = Done (default 0 (list.last l1)) m.
Proof.
  intros Hm Hx. split; [by apply rb_first_run|]. split; [by apply rb_last_run|]. split; [by eapply rb_next_run|by eapply rb_prev_run].
Qed.

(** Post-order: every node after its children. *)
Lemma rb_postorder m root t l1 x l2 :
  rb_at m root t -> postorder t = l1 ++ x :: l2 ->
  rb_first_postorder root m = Done (default 0 (head (postorder t))) m /\ rb_next_postorder x m = Done (default 0 (head l2)) m.
Proof.
  intros Hm Hx. assert (Hp : postorder t ≡ₚ inorder t).
  { clear. induction t as [|c l IHl x r IHr]; [done|]. cbn [postorder inorder]. rw IHl IHr. by rw (Permutation_app_comm (inorder r)). }
  assert (Hnd : NoDup (postorder t)) by (rw Hp; by eapply rb_at_nodup).
  destruct (find_node x t) as (k & c & l & r & Et); [rw -Hp Hx elem_of_app elem_of_cons; auto|]. subst t.
  assert (Hl2 : l2 = post_after k).
  { rw Hx in Hnd. apply (nodup_split l1 l2 (post_before k ++ postorder l ++ postorder r) (post_after k) x Hnd).
    rw -Hx postorder_plug. cbn [postorder]. list_eq. }
  rw Hl2. split.
  - destruct (run_reading (rb_first_postorder root) m root _ (eq (default 0 (head (postorder (plug k (T c l x r)))))) ltac:(unfold rb_first_postorder; reading) Hm) as (v & ? & <-); [|done].
    intros Σ G. iIntros "H". iApply (hwp_wand with "[H]"); [by iApply first_postorder_spec|]. by iIntros (v) "[-> $]".
  - destruct (run_reading (rb_next_postorder x) m root _ (eq (default 0 (head (post_after k)))) ltac:(unfold rb_next_postorder, rb_parent; reading) Hm) as (v & ? & <-); [|done].
    intros Σ G. iIntros "H". iApply (hwp_wand with "[H]"); [by iApply next_postorder_spec|]. by iIntros (v) "[-> $]".
Qed.

(** A node in the place of another. *)
Lemma rb_replace_correct m root t l1 x l2 y u v w :
  addr_ok y -> rb_at m root t -> rb_tree t -> inorder t = l1 ++ x :: l2 -> holds m (node_words y u v w ++ rb_words root t) ->
  exists m' t', rb_replace_node x y root m = Done tt m' /\ rb_at m' root t' /\ rb_tree t' /\ inorder t' = l1 ++ y :: l2.
Proof.
  intros Hy Hm Ht Hx Hw. destruct (node_place _ _ _ _ _ _ Hm Hx) as (k & c & l & r & -> & -> & ->).
  destruct (run_tree (rb_replace_node x y root) m root (plug k (T c l x r)) (node_words y u v w) (fun _ t' _ => t' = plug k (T c l y r)))
    as ([] & m' & t' & ws & Er & -> & Hm' & _); [apply Hm|done| |].
  - intros Σ G. unfold node_words. rw !big_sepL_cons. cbn [fst snd]. iIntros "(Hx & Hxr & Hxl & _) H".
    iApply (hwp_wand with "[-]"); [by iApply (replace_spec with "H Hx Hxr Hxl")|]. iIntros (_) "[H _]". iExists _, []. iFrame "H". iSplit; [done|]. by iApply big_sepL_nil.
  - exists m', (plug k (T c l y r)). split; [done|]. split; [done|]. split.
    + apply plug_rb_inv in Ht as (c' & n & Hk & Hr). eapply plug_rb; [done|]. inversion Hr; subst; eauto with chariot.
    + rw inorder_plug. cbn [inorder]. list_eq.
Qed.

(** The guarantee of the rules: a path is at most twice the logarithm of the
    number of nodes. *)
Lemma rb_height t : rb_tree t -> (height t <= 2 * Nat.log2 (S (length (inorder t))))%nat.
Proof.
  intros [n Hn]. pose proof (height_black_height _ _ _ Hn) as Hh. pose proof (black_height_size _ _ _ Hn) as Hs.
  apply Nat.log2_le_mono in Hs. rw (Nat.log2_pow2 n (Nat.le_0_l n)) in Hs. cbv iota in Hh. lia.
Qed.

(** ** A tree of three nodes and a fourth beside it *)

Definition holdsb (m : words) (ws : list (Z * Z)) : bool :=
  bool_decide (NoDup ws.*1) && forallb (fun w => bool_decide (m !! w.1 = Some w.2)) ws.
Lemma holdsb_ok m ws : holdsb m ws = true -> holds m ws.
Proof.
  intros [H1%bool_decide_eq_true H2]%andb_true_iff. split; [done|]. intros a v Hw. rw forallb_forall in H2.
  by specialize (H2 _ (proj1 (list_elem_of_In _ _) Hw)) as H3%bool_decide_eq_true.
Qed.

Definition demo_tree : tree := T Black (T Red E 64 E) 128 (T Red E 256 E).
Definition demo_words : words := list_to_map (node_words 192 7 7 7 ++ rb_words 8 demo_tree).
Definition demo_callback (y : Z) : Z := if 192 <? y then -1 else if y <? 192 then 1 else 0.

Lemma demo_at : rb_at demo_words 8 demo_tree.
Proof. split; [apply holdsb_ok; vm_compute; reflexivity|]. repeat constructor; lia. Qed.
Lemma demo_rb : rb_tree demo_tree.
Proof. exists 1%nat. repeat econstructor. Qed.
Lemma demo_sorted : by_key id (inorder demo_tree).
Proof. repeat constructor; cbn; lia. Qed.

Lemma rb_insert_correct_witness :
  exists m' t' l1 l2, rb_insert demo_callback 8 192 demo_words = Done true m' /\ rb_at m' 8 t' /\ rb_tree t' /\
    inorder demo_tree = l1 ++ l2 /\ inorder t' = l1 ++ 192 :: l2 /\ by_key id (inorder t') /\
    kept_outside (node_words 192 7 7 7 ++ rb_words 8 demo_tree) demo_words m'.
Proof.
  apply (rb_insert_correct demo_words 8 demo_tree 192 7 7 7 demo_callback id).
  - split; [lia|split; [reflexivity|lia]].
  - apply demo_at.
  - apply demo_rb.
  - apply demo_sorted.
  - apply holdsb_ok. vm_compute. reflexivity.
  - repeat constructor.
  - intros y Hy. cbn in Hy. rw !elem_of_cons in Hy. unfold id. destruct Hy as [->|[->|[->|Hy%elem_of_nil]]]; [lia..|done].
Defined.

Lemma rb_erase_correct_witness :
  exists m' t' u v w, rb_erase 128 8 demo_words = Done tt m' /\ rb_at m' 8 t' /\ rb_tree t' /\ inorder t' = [64] ++ [256] /\
    holds m' (node_words 128 u v w ++ rb_words 8 t') /\ kept_outside (rb_words 8 demo_tree) demo_words m'.
Proof. apply (rb_erase_correct demo_words 8 demo_tree [64] 128 [256]); [apply demo_at|apply demo_rb|reflexivity]. Defined.

Lemma rb_iteration_witness :
  rb_first 8 demo_words = Done 64 demo_words /\ rb_last 8 demo_words = Done 256 demo_words /\
  rb_next 64 demo_words = Done 128 demo_words /\ rb_prev 64 demo_words = Done 0 demo_words.
Proof. apply (rb_iteration demo_words 8 demo_tree [] 64 [128; 256]); [apply demo_at|reflexivity]. Defined.
