(* ===== verification/Space.v ===== *)
(** * Address spaces (kernel/mm/space.cpp, page.cpp, mm.h)

    An address space is a red-black tree of areas ordered by address, each with
    the pages that back it, and a page table.  The tree is in word memory (the
    node of an area is at the area's key in [areas]), the page table is the map
    that the interface [mm::pagetable] stands for, and pages are shared between
    spaces: a pool of page objects with their user counts, over the page
    allocator of Phys and the bytes of physical pages.  Locks are taken and
    released around each operation and have no other effect.  The memory of
    [new] is fresh. *)

From S2P Require Import Prelude CMem State WordMem Rbtree Phys.

(** ** Data *)

(** [mm::page]: physical address and flags in one word, and the mappings that use
    it. *)
Record page := Page { m_paf : Z; m_users : Z }.

Record area := Area {
  va : Z; len : Z; off : Z; prot : Z; flags : Z;
  fd : Z;                (** the file, 0 without one *)
  obj : Z;               (** the vmobject, 0 without one *)
  mappings : list Z      (** page objects, 0 for a null mapping *) }.

Record pte := Pte { ppn : Z; pprot : Z; writethrough : bool; nocache : bool }.

Record space := Space {
  tree_mem : words; areas : gmap Z area; pt : gmap Z pte; lo : Z; hi : Z; is_kspace : bool;
  heap : Z               (** where [new] finds memory *) }.

Record pool := Pool {
  pages : gmap Z page; next_page : Z; phys_mem : kmem;
  contents : gmap Z (list Z)  (** the bytes of a physical page, by its address *);
  owners : gmap Z Z           (** how often a vmobject was acquired *) }.

Record mm := Mm { sp : space; pl : pool }.
Definition MM : Type -> Type := SM mm.

(** The word of [space::regions]. *)
Definition regions : Z := 8.

Definition PROT_READ : Z := 1.
Definition PROT_WRITE : Z := 2.
Definition PROT_EXEC : Z := 4.
Definition FAULT_READ : Z := 1.
Definition FAULT_WRITE : Z := 2.
Definition FAULT_EXEC : Z := 4.
Definition MAP_SHARED : Z := 1.
Definition MAP_PRIVATE : Z := 2.
Definition PG_DIRTY : Z := 1.
Definition PG_OWNED : Z := 2.
Definition PG_WRTHRU : Z := 4.
Definition PG_NOCACHE : Z := 8.
Definition ESRCH : Z := 3.

(** [x & y] as a condition. *)
Definition has (x y : Z) : bool := negb (Z.land x y =? 0).

(** [round_up(x, 4096)] on [size_t]. *)
Definition round_up (x : Z) : Z := Z.land (u64 (x + 4095)) (u64 (Z.lnot 4095)).

Lemma page_floor v : 0 <= v < 2 ^ 64 -> Z.land v (u64 (Z.lnot 4095)) = 4096 * (v / 4096).
Proof.
  intros Hv. change (u64 (Z.lnot 4095)) with (Z.land (Z.ones 64) (Z.lnot (Z.ones 12))). rewrite Z.land_assoc, Z.land_ones, Z.mod_small by lia.
  rewrite <- Z.ldiff_land, Z.ldiff_ones_r, Z.shiftl_mul_pow2, Z.shiftr_div_pow2 by lia. change (2 ^ 12) with 4096. lia.
Qed.

Lemma round_up_spec x : 0 <= x < 2 ^ 63 -> round_up x = 4096 * ((x + 4095) / 4096).
Proof. intros Hx. unfold round_up. rewrite u64_small by lia. apply page_floor. lia. Qed.

(** ** Access to the state *)

Definition set_tree_mem (f : words) (s : space) : space := Space f (areas s) (pt s) (lo s) (hi s) (is_kspace s) (heap s).
Definition set_areas (f : gmap Z area -> gmap Z area) (s : space) : space := Space (tree_mem s) (f (areas s)) (pt s) (lo s) (hi s) (is_kspace s) (heap s).
Definition set_pt (f : gmap Z pte -> gmap Z pte) (s : space) : space := Space (tree_mem s) (areas s) (f (pt s)) (lo s) (hi s) (is_kspace s) (heap s).
Definition set_pages (f : gmap Z page -> gmap Z page) (p : pool) : pool := Pool (f (pages p)) (next_page p) (phys_mem p) (contents p) (owners p).
Definition set_owners (f : gmap Z Z -> gmap Z Z) (p : pool) : pool := Pool (pages p) (next_page p) (phys_mem p) (contents p) (f (owners p)).
Definition set_contents (f : gmap Z (list Z) -> gmap Z (list Z)) (p : pool) : pool := Pool (pages p) (next_page p) (phys_mem p) (f (contents p)) (owners p).

(** Code that works on one part of the state. *)
Definition in_space {A} (c : SM space A) : MM A := fun s =>
  match c (sp s) with Done a p => Done a (Mm p (pl s)) | Fail => Fail | Spin => Spin end.
Definition in_pool {A} (c : SM pool A) : MM A := fun s =>
  match c (pl s) with Done a p => Done a (Mm (sp s) p) | Fail => Fail | Spin => Spin end.
Definition in_tree {A} (c : W A) : SM space A := fun s =>
  match c (tree_mem s) with Done a m => Done a (set_tree_mem m s) | Fail => Fail | Spin => Spin end.

Definition get_area (x : Z) : SM space area := sopt (fun s => areas s !! x).
Definition put_area (x : Z) (a : area) : SM space unit := modify (set_areas <[x := a]>).
Definition set_mappings (l : list Z) (a : area) : area := Area (va a) (len a) (off a) (prot a) (flags a) (fd a) (obj a) l.
Definition get_pg (x : Z) : SM pool page := sopt (fun p => pages p !! x).
Definition put_pg (x : Z) (g : page) : SM pool unit := modify (set_pages <[x := g]>).

(** ** Pages *)

Definition pg_flags (g : page) : Z := Z.land (m_paf g) 4095.
Definition pa (g : page) : Z := Z.land (m_paf g) (u64 (Z.lnot 4095)).
Definition fcheck (g : page) (set : Z) : bool := has (m_paf g) set.
Definition fset (x set : Z) : SM pool unit := g ← get_pg x; put_pg x (Page (Z.lor (m_paf g) set) (m_users g)).
Definition set_pa (g : page) (a : Z) : page := Page (Z.lor (Z.land a (u64 (Z.lnot 4095))) (pg_flags g)) (m_users g).

(** [phys::alloc] gives a zeroed page. *)
Definition zero_page : list Z := replicate 4096 0.
Definition phys_alloc : SM pool Z := fun p =>
  match Phys.alloc [] 1 (phys_mem p) with
  | Done a m => Done a (Pool (pages p) (next_page p) m (<[a := zero_page]> (contents p)) (owners p))
  | Fail => Fail
  | Spin => Spin
  end.

(** [mm::page::alloc] *)
Definition page_alloc : SM pool Z :=
  a ← phys_alloc;
  x ← gets next_page;
  modify (fun p => Pool (<[x := Page (m_paf (set_pa (Page 0 0) a)) 0]> (pages p)) (x + 1) (phys_mem p) (contents p) (owners p));;
  fset x PG_OWNED;;
  mret x.

(** [page_mapping::set_page]: the counts of the page that is left and of the page
    that is taken. *)
Definition drop_user (x : Z) : SM pool unit := g ← get_pg x; put_pg x (Page (m_paf g) (u32 (m_users g - 1))).
Definition add_user (x : Z) : SM pool unit := g ← get_pg x; put_pg x (Page (m_paf g) (u32 (m_users g + 1))).

Definition set_page (x i pg : Z) : MM unit :=
  a ← in_space (get_area x);
  match mappings a !! Z.to_nat i with
  | None => sfail
  | Some old =>
      (if negb (old =? 0) then in_pool (drop_user old) else mret tt);;
      (if negb (pg =? 0) then in_pool (add_user pg) else mret tt);;
      in_space (put_area x (set_mappings (<[Z.to_nat i := pg]> (mappings a)) a))
  end.

(** ** The tree of areas *)

(** [space::lookup] with the areas of the space. *)
Definition lookup_in (ars : gmap Z area) (v : Z) : W Z :=
  wloop (fun n =>
    cur ← load n;
    if cur =? 0 then mret (Break 0)
    else
      r ← sopt (fun _ => ars !! cur);
      let start := va r in
      let end_ := u64 (va r + len r) in
      if v <? start then mret (Next (rb_left cur))
      else if end_ <=? v then mret (Next (rb_right cur))
      else mret (Break cur)) regions.
Definition lookup (v : Z) : SM space Z := ars ← gets areas; in_tree (lookup_in ars v).

(** The comparison of [add_region]. *)
Definition region_cmp (ars : gmap Z area) (v other : Z) : Z :=
  let result := s64 (s64 v - s64 (default 0 (va <$> ars !! other))) in
  if result <? 0 then RB_INSERT_GO_LEFT else if 0 <? result then RB_INSERT_GO_RIGHT else RB_INSERT_GO_HERE.
Definition add_region (x : Z) : SM space bool :=
  r ← get_area x;
  ars ← gets areas;
  in_tree (rb_insert (region_cmp ars (va r)) regions x).

(** [find_hole]: from the last region down. *)
Definition find_hole_in (ars : gmap Z area) (hi size : Z) : W Z :=
  let va0 := u64 (hi - size) in
  last ← rb_last regions;
  wloop (fun '(node, v, lim) =>
    if node =? 0 then mret (Break v)
    else
      r ← sopt (fun _ => ars !! node);
      let rva := va r in
      let rlim := u64 (rva + len r) in
      let '(v, lim) :=
        if (v <=? rlim) && (rva <? lim) then (u64 (rva - size), u64 (u64 (rva - size) + size)) else (v, lim) in
      node ← rb_prev node;
      mret (Next (node, v, lim))) (last, va0, u64 (va0 + size)).
Definition find_hole (size : Z) : SM space Z :=
  ars ← gets areas; h ← gets hi; in_tree (find_hole_in ars h size).

(** [new mm::area] *)
Definition new_area (a : area) : SM space Z :=
  x ← gets heap;
  modify (fun s => Space (<[x := 0]> (<[rb_right x := 0]> (<[rb_left x := 0]> (tree_mem s)))) (<[x := a]> (areas s)) (pt s) (lo s) (hi s) (is_kspace s) (x + 24));;
  mret x.

(** ** Page faults *)

Section objects.
(** [vmobject::get_shared] of the object with the page index, 0 for null. *)
Context (get_shared : Z -> Z -> SM pool Z).

(** [panic] stops the kernel. *)
Definition new_mapping (x ind : Z) (p : pte) : MM pte :=
  r ← in_space (get_area x);
  '(pg, p) ←
    (if negb (obj r =? 0) then
       pg ← in_pool (get_shared (obj r) ind);
       if pg =? 0 then sfail
       else mret (pg, Pte (ppn p) (Z.land (pprot p) (Z.lnot PROT_WRITE)) (writethrough p) (nocache p))
     else
       pg ← in_pool page_alloc;
       mret (pg, p));
  g ← in_pool (get_pg pg);
  set_page x ind pg;;
  mret (Pte (ppn p) (pprot p) (fcheck g PG_WRTHRU) (fcheck g PG_NOCACHE)).

Definition the_mapping (x ind : Z) : MM Z :=
  r ← in_space (get_area x);
  match mappings r !! Z.to_nat ind with Some pg => mret pg | None => sfail end.

(** The copy of a private page that has other users, or a file behind it. *)
Definition copy_on_write (x ind : Z) : MM unit :=
  r ← in_space (get_area x);
  old ← the_mapping x ind;
  g ← in_pool (get_pg old);
  if (1 <? m_users g) || negb (fd r =? 0) then
    np ← in_pool page_alloc;
    n ← in_pool (get_pg np);
    bytes ← in_pool (sopt (fun p => contents p !! pa g));
    in_pool (modify (set_contents <[pa n := bytes]>));;
    set_page x ind np
  else mret tt.

Definition get_page_internal (uaddr x err : Z) (do_map : bool) : MM Z :=
  r ← in_space (get_area x);
  let p := Pte 0 (prot r) false false in
  let ind := u64 (Z.shiftr uaddr 12 - Z.shiftr (va r) 12) in
  cur ← the_mapping x ind;
  p ← (if cur =? 0 then new_mapping x ind p else mret p);
  p ←
    (if has err FAULT_WRITE && has (prot r) PROT_WRITE then
       (if has (flags r) MAP_SHARED then
          pg ← the_mapping x ind; in_pool (fset pg PG_DIRTY)
        else mret tt);;
       (if has (flags r) MAP_PRIVATE then copy_on_write x ind else mret tt);;
       mret (Pte (ppn p) (Z.lor (pprot p) PROT_WRITE) (writethrough p) (nocache p))
     else mret p);
  (if do_map then
     pg ← the_mapping x ind;
     g ← in_pool (get_pg pg);
     let v := u64 (va r + Z.shiftl ind 12) in
     in_space (modify (set_pt <[v := Pte (Z.shiftr (pa g) 12) (pprot p) (writethrough p) (nocache p)]>))
   else mret tt);;
  the_mapping x ind.

Definition pagefault (v err : Z) : MM Z :=
  x ← in_space (lookup v);
  if x =? 0 then mret (-1)
  else
    r ← in_space (get_area x);
    let fault_res :=
      if (has err FAULT_WRITE && negb (has (prot r) PROT_WRITE)) ||
         (has err FAULT_READ && negb (has (prot r) PROT_READ)) ||
         (has err FAULT_EXEC && negb (has (prot r) PROT_EXEC)) then -1 else 0 in
    if fault_res =? 0 then
      pg ← get_page_internal v x err true;
      if pg =? 0 then mret (-1) else mret 0
    else mret 0.

Definition get_page (uaddr : Z) : MM Z :=
  x ← in_space (lookup uaddr);
  if x =? 0 then mret 0 else get_page_internal uaddr x 0 false.
End objects.

(** ** Mapping and unmapping *)

Definition acquire (o : Z) : SM pool unit := modify (set_owners (fun m => <[o := default 0 (m !! o) + 1]> m)).

(** [mmap]; [fobj] is what [fops->mmap] of the file gives. *)
Definition mmap (addr size prot_ flags_ fd_ fobj off_ : Z) : MM Z :=
  if has addr 4095 then mret (u64 (-1))
  else if negb (has flags_ (Z.lor MAP_PRIVATE MAP_SHARED)) then mret (u64 (-1))
  else
    addr ← (if addr =? 0 then in_space (find_hole (round_up size)) else mret addr);
    let npages := round_up size / 4096 in
    if negb (fd_ =? 0) && (fobj =? 0) then mret (u64 (-1))
    else
      (if negb (fd_ =? 0) then in_pool (acquire fobj) else mret tt);;
      x ← in_space (new_area (Area addr (u64 (npages * 4096)) off_ prot_ flags_ fd_ (if fd_ =? 0 then 0 else fobj) (replicate (Z.to_nat npages) 0)));
      in_space (add_region x);;
      mret addr.

(** The page table entries of the pages that are there, from [v] on; the offset,
    an [int] in the source, does not overflow for areas below 2 GiB. *)
Fixpoint del_mappings (v : Z) (l : list Z) : SM space unit :=
  match l with
  | [] => mret tt
  | pg :: l =>
      (if negb (pg =? 0) then modify (set_pt (delete v)) else mret tt);;
      del_mappings (u64 (v + 4096)) l
  end.

Definition unmap (v ulen : Z) : SM space Z :=
  if has v 4095 then mret (-1)
  else
    x ← lookup v;
    if x =? 0 then mret (- ESRCH)
    else
      in_tree (rb_erase x regions);;
      r ← get_area x;
      del_mappings v (mappings r);;
      mret 0.

(** [validate_pointer], for pointers whose page and the one after the end are
    below the top of the address space. *)
Definition validate_in (ars : gmap Z area) (raw len_ mode : Z) : W bool :=
  let start := Z.land raw (u64 (Z.lnot 4095)) in
  let end_ := Z.land (u64 (raw + len_)) (u64 (Z.lnot 4095)) in
  sloop (S (S (Z.to_nat ((end_ - start) / 4096)))) (fun v =>
    if v <=? end_ then
      x ← lookup_in ars v;
      if x =? 0 then mret (Break false)
      else
        r ← sopt (fun _ => ars !! x);
        if (has mode PROT_READ && negb (has (prot r) PROT_READ)) ||
           (has mode PROT_WRITE && negb (has (prot r) PROT_WRITE)) ||
           (has mode PROT_EXEC && negb (has (prot r) PROT_EXEC)) then mret (Break false)
        else mret (Next (u64 (v + 4096)))
    else mret (Break true)) start.
Definition validate_pointer (raw len_ mode : Z) : SM space bool :=
  k ← gets is_kspace;
  if k : bool then mret true
  else ars ← gets areas; in_tree (validate_in ars raw len_ mode).

(** ** [fork] *)

(** The page table entries of both spaces, without the right to write. *)
Fixpoint share_ptes (v pr : Z) (l : list Z) (n : space) : MM space :=
  match l with
  | [] => mret n
  | pg :: l =>
      n ← (if negb (pg =? 0) then
             g ← in_pool (get_pg pg);
             let e := Pte (Z.shiftr (pa g) 12) (Z.land pr (Z.lnot PROT_WRITE)) false false in
             in_space (modify (set_pt <[v := e]>));;
             mret (set_pt <[v := e]> n)
           else mret n);
      share_ptes (u64 (v + 4096)) pr l n
  end.

Fixpoint add_users (l : list Z) : SM pool unit :=
  match l with
  | [] => mret tt
  | pg :: l => (if negb (pg =? 0) then add_user pg else mret tt);; add_users l
  end.

(** Code that works on the new space. *)
Definition on {A} (n : space) (c : SM space A) : MM (A * space) := fun s =>
  match c n with Done a n' => Done (a, n') s | Fail => Fail | Spin => Spin end.

Definition fork_area (x : Z) (n : space) : MM space :=
  r ← in_space (get_area x);
  (if negb (obj r =? 0) then in_pool (acquire (obj r)) else mret tt);;
  in_pool (add_users (mappings r));;
  n ← share_ptes (va r) (prot r) (take (Z.to_nat (round_up (len r) / 4096)) (mappings r)) n;
  '(y, n) ← on n (new_area (Area (va r) (len r) (off r) (prot r) (flags r) (fd r) (obj r) (mappings r)));
  '(_, n) ← on n (add_region y);
  mret n.

Definition new_space (lo_ hi_ : Z) : space := Space {[regions := 0]} ∅ ∅ lo_ hi_ false 16.

Definition fork : MM space :=
  s ← gets sp;
  first ← in_space (in_tree (rb_first regions));
  fuel ← gets (fun s => fuel_of (tree_mem (sp s)));
  sloop fuel (fun '(node, n) =>
    if node =? 0 then mret (Break n)
    else
      n ← fork_area node n;
      node ← in_space (in_tree (rb_next node));
      mret (Next (node, n))) (first, new_space (lo s) (hi s)).
