(* ===== verification/SpaceTree.v ===== *)
(** * Address spaces: the tree of areas

    The invariant of a space, and what the operations on its tree do: [lookup],
    [add_region], the search for a hole, and pointer validation. *)

From Stdlib Require Import Sorting.Sorted.
From iris.proofmode Require Import proofmode.
From iris.base_logic.lib Require Import gen_heap.
From S2P Require Import Prelude CMem State WordMem WordLogic Rbtree RbtreeSpec RbtreeRep RbtreeInsert RbtreeProps Phys Space.

(** ** The invariant *)

(** Areas are whole pages below the sign bit, with one mapping for each page. *)
Definition area_ok (a : area) : Prop :=
  0 <= va a /\ va a mod 4096 = 0 /\ len a = 4096 * Z.of_nat (length (mappings a)) /\ va a + len a < 2 ^ 63.

Definition ends_before (ars : gmap Z area) (x y : Z) : Prop :=
  exists a b, ars !! x = Some a /\ ars !! y = Some b /\ va a + len a <= va b /\ va a < va b.

(** The regions [xs] of a space, in order of address and apart from each other. *)
Record regions_ok (ars : gmap Z area) (xs : list Z) : Prop := {
  ro_ok : forall x a, ars !! x = Some a -> area_ok a;
  ro_in : forall x, x ∈ xs -> is_Some (ars !! x);
  ro_sorted : StronglySorted (ends_before ars) xs }.

Record space_ok (s : space) (xs : list Z) : Prop := {
  so_tree : exists t, rb_at (tree_mem s) regions t /\ rb_tree t /\ inorder t = xs;
  so_regions : regions_ok (areas s) xs;
  so_words : forall a, is_Some (tree_mem s !! a) -> a < heap s;
  so_areas : forall x, is_Some (areas s !! x) -> x < heap s;
  so_heap : 16 <= heap s /\ heap s mod 8 = 0 }.

(** The area at [x] has the address [v]. *)
Definition contains (ars : gmap Z area) (v x : Z) : Prop := exists a, ars !! x = Some a /\ va a <= v < va a + len a.
(** What [lookup] means: the region that has the address, or 0. *)
Definition found (ars : gmap Z area) (xs : list Z) (v r : Z) : Prop :=
  (r ∈ xs /\ contains ars v r) \/ (r = 0 /\ forall x, x ∈ xs -> ~ contains ars v x).

Lemma sorted_split ars l y r : StronglySorted (ends_before ars) (l ++ y :: r) ->
  Forall (fun x => ends_before ars x y) l /\ Forall (ends_before ars y) r.
Proof.
  induction l as [|a l IH]; cbn [app]; intros H; inversion H as [|? ? H1 H2]; subst; [auto|].
  destruct (IH H1) as [Hl Hr]. split; [|done]. constructor; [|done]. apply Forall_app in H2 as [_ H2]. by inversion H2.
Qed.

(** Below and above a region. *)
Lemma not_contains_before ars v x y b : ends_before ars x y -> ars !! y = Some b -> va b <= v -> ~ contains ars v x.
Proof. intros (a & b' & H1 & H2 & H3 & _) Hb Hv (a' & Ha & Hc). simplify_eq. lia. Qed.
Lemma not_contains_after ars v x y b : ends_before ars y x -> ars !! y = Some b -> v < va b + len b -> ~ contains ars v x.
Proof. intros (b' & a & H2 & H1 & H3 & _) Hb Hv (a' & Ha & Hc). simplify_eq. lia. Qed.

Section lookup.
Context `{!gen_heapGS Z Z Σ}.
Context (ars : gmap Z area) (v : Z).

Lemma lookup_loop fuel : forall k t,
  regions_ok ars (inorder (plug k t)) -> Forall (fun x => ~ contains ars v x) (before k ++ after k) ->
  (length (inorder t) < fuel)%nat ->
  ctx_at regions k (addr t) -∗ tree_at (top k) t -∗
  hwp (sloop fuel (fun n =>
    cur ← load n;
    if cur =? 0 then mret (Break 0)
    else
      r ← sopt (fun _ => ars !! cur);
      let start := va r in
      let end_ := u64 (va r + len r) in
      if v <? start then mret (Next (rb_left cur))
      else if end_ <=? v then mret (Next (rb_right cur))
      else mret (Break cur)) (link regions k)) (fun r => ⌜found ars (inorder (plug k t)) v r⌝ ∗ own_tree regions (plug k t)).
Proof.
  induction fuel as [|fuel IH]; intros k t Hok Hn Hf; [lia|]. iIntros "Hk Ht". iApply hwp_loop_step.
  iDestruct (ctx_acc with "Hk") as "[Hl Hk]". hwp_ld "Hl". iDestruct ("Hk" with "Hl") as "Hk".
  destruct t as [|c l y r]; cbn [addr Z.eqb].
  { iApply hwp_ret. iSplit; [|by iApply (own_plug regions k E with "Hk")]. iPureIntro. right. split; [done|]. intros x Hx.
    rw inorder_plug in Hx. rw Forall_forall in Hn. apply Hn, list_elem_of_In. done. }
  iAssert ⌜addr_ok y⌝%I as %Hy; [by iDestruct "Ht" as "[[? _] _]"|]. nonzero. cbn [inorder] in Hf. rw length_app in Hf. cbn [length] in Hf.
  assert (Hyin : y ∈ inorder (plug k (T c l y r))) by (rw inorder_plug; cbn [inorder]; rw !elem_of_app elem_of_cons; auto).
  destruct (ro_in _ _ Hok y Hyin) as [a Ha]. pose proof (ro_ok _ _ Hok y a Ha) as (A1 & A2 & A3 & A4).
  pose proof (ro_sorted _ _ Hok) as Hs. rw inorder_plug in Hs. cbn [inorder] in Hs. rw -app_assoc app_assoc in Hs. cbn [app] in Hs.
  apply sorted_split in Hs as [Hlt Hgt].
  iApply hwp_bind. iIntros (m) "Hm". iModIntro. iExists a, m. iFrame "Hm". iSplit; [iPureIntro; unfold sopt; by rw Ha|]. cbv zeta.
  rw u64_small; [|lia]. destruct (v <? va a) eqn:E1; [|destruct (va a + len a <=? v) eqn:E2]; zbool.
  - iApply hwp_ret. iDestruct "Ht" as "(Hy & Tl & Tr)". iApply (IH (Fr Lft c y r :: k) l with "[-Tl] Tl"); [done| |lia|by iFrame].
    cbn [before after]. apply Forall_app in Hn as [Hb Haf]. apply Forall_app in Hgt as [Hgr _]. apply Forall_app. split; [done|].
    constructor; [intros (a' & ? & ?); simplify_eq; lia|]. apply Forall_app. split; [|done].
    eapply Forall_impl; [|exact Hgr]. intros x Hx. eapply not_contains_after; [done..|]. lia.
  - iApply hwp_ret. iDestruct "Ht" as "(Hy & Tl & Tr)". rw node_flip. iApply (IH (Fr Rgt c y l :: k) r with "[-Tr] Tr"); [done| |lia|by iFrame].
    cbn [before after]. apply Forall_app in Hn as [Hb Haf]. apply Forall_app in Hlt as [_ Hll]. rw -!app_assoc. cbn [app]. apply Forall_app. split; [done|].
    apply Forall_app. split; [|constructor; [intros (a' & ? & ?); simplify_eq; lia|done]].
    eapply Forall_impl; [|exact Hll]. intros x Hx. eapply not_contains_before; [exact Hx|exact Ha|]. lia.
  - iApply hwp_ret. iSplit; [iPureIntro; left; split; [done|]; exists a; split; [done|lia]|]. by iApply (own_plug regions k (T c l y r) with "Hk").
Qed.
End lookup.

Lemma readonly_sopt {A} (f : words -> option A) : readonly (sopt f).
Proof. intros m a m'. unfold sopt. destruct (f m); [intros [= _ ->]|]; done. Qed.
#[export] Hint Resolve readonly_sopt : reading.

Lemma readonly_lookup ars v : readonly (lookup_in ars v).
Proof. unfold lookup_in. reading. Qed.
#[export] Hint Resolve readonly_lookup : reading.

Lemma lookup_in_spec m ars t v :
  rb_at m regions t -> regions_ok ars (inorder t) -> exists r, lookup_in ars v m = Done r m /\ found ars (inorder t) v r.
Proof.
  intros Hm Hr. apply (run_reading _ _ regions t); [apply readonly_lookup|done|]. intros Σ G. iIntros "[Hr Ht]".
  iApply (hwp_tree_loop regions _ _ [] t with "Hr Ht"). iIntros (fuel Hf) "Hr Ht". cbn [length] in Hf.
  iApply (lookup_loop ars v fuel [] t with "Hr Ht"); [done|constructor|done].
Qed.

Lemma in_tree_reading {A} (c : W A) s a : c (tree_mem s) = Done a (tree_mem s) -> in_tree c s = Done a s.
Proof. unfold in_tree. intros ->. by destruct s. Qed.

Lemma lookup_spec s xs v : space_ok s xs -> exists r, lookup v s = Done r s /\ found (areas s) xs v r.
Proof.
  intros [(t & Hm & _ & <-) Hr _ _ _]. destruct (lookup_in_spec _ _ _ v Hm Hr) as (r & Er & Hf). exists r. split; [|done].
  unfold lookup. cbn. by apply in_tree_reading.
Qed.

(** ** A new region *)

Definition key_of (ars : gmap Z area) (x : Z) : Z := default 0 (va <$> ars !! x).

Lemma region_cmp_compares ars a xs : area_ok a -> regions_ok ars xs -> compares (region_cmp ars (va a)) (key_of ars) (va a) xs.
Proof.
  intros Ha Hr. apply Forall_forall. intros y Hy%list_elem_of_In. destruct (ro_in _ _ Hr y Hy) as [b Hb].
  pose proof (ro_ok _ _ Hr _ _ Hb) as Hbo. unfold region_cmp, key_of. rw Hb. cbn [fmap option_fmap option_map default from_option].
  destruct Ha as (A1 & _ & A3 & A4), Hbo as (B1 & _ & B3 & B4). rw (s64_small (va a)); [|lia]. rw (s64_small (va b)); [|lia]. rw s64_small; [|lia].
  unfold id. repeat zif; try done; lia.
Qed.

Lemma sorted_by_key ars xs : StronglySorted (ends_before ars) xs -> by_key (key_of ars) xs.
Proof.
  induction 1 as [|x xs _ IH Hx]; [constructor|]. constructor; [done|]. eapply Forall_impl; [|exact Hx].
  intros y (a & b & Ha & Hb & _ & Hlt). unfold key_of. by rw Ha Hb.
Qed.

(** The fresh words of a new node. *)
Definition with_node (x : Z) (m : words) : words := <[x := 0]> (<[rb_right x := 0]> (<[rb_left x := 0]> m)).

Lemma with_node_lookup x m a : a < x -> with_node x m !! a = m !! a.
Proof. intros H. unfold with_node, rb_right, rb_left. rw !lookup_insert_ne; [done|lia..]. Qed.

Lemma words_below m root t h a : rb_at m root t -> (forall b, is_Some (m !! b) -> b < h) -> a ∈ (rb_words root t).*1 -> a < h.
Proof.
  intros [[_ Hin] _] Hb Ha. apply list_elem_of_fmap in Ha as ([b v] & -> & Hw). apply Hb. rw (Hin b v Hw). by eexists.
Qed.

Lemma node_fresh m t h : rb_at m regions t -> (forall b, is_Some (m !! b) -> b < h) -> holds (with_node h m) (node_words h 0 0 0 ++ rb_words regions t).
Proof.
  intros Hm Hb. pose proof (words_below m regions t h) as Hlt. destruct Hm as [[Hnd Hin] Hok]. split.
  - rw fmap_app. apply list.NoDup_app. split; [|split; [|done]].
    + cbn. unfold rb_right, rb_left. repeat constructor; rw ?elem_of_cons; intros H; decompose [or] H; try lia; by eapply elem_of_nil.
    + intros a Ha Hw. specialize (Hlt a (conj (conj Hnd Hin) Hok) Hb Hw). cbn in Ha. unfold rb_right, rb_left in Ha. rw !elem_of_cons in Ha.
      destruct Ha as [->|[->|[->|Ha%elem_of_nil]]]; [lia..|done].
  - intros a v [Ha|Ha]%elem_of_app.
    + unfold node_words in Ha. rw !elem_of_cons in Ha. unfold with_node, rb_right, rb_left in *.
      destruct Ha as [[= -> ->]|[[= -> ->]|[[= -> ->]|Ha%elem_of_nil]]]; [by rw lookup_insert_eq| | |done].
      * rw lookup_insert_ne; [by rw lookup_insert_eq|lia].
      * rw lookup_insert_ne; [|lia]. rw lookup_insert_ne; [by rw lookup_insert_eq|lia].
    + rw with_node_lookup; [by apply Hin|]. apply Hlt; [done|done|]. apply list_elem_of_fmap. by exists (a, v).
Qed.

(** The range of an area does not touch a region. *)
Definition clear_of (ars : gmap Z area) (xs : list Z) (a : area) : Prop :=
  forall x b, x ∈ xs -> ars !! x = Some b -> va b <> va a /\ (va a + len a <= va b \/ va b + len b <= va a).

Definition new_region (a : area) : SM space bool := x ← new_area a; add_region x.

Lemma regions_ok_ext ars xs h a : regions_ok ars xs -> (forall x, is_Some (ars !! x) -> x < h) -> area_ok a -> regions_ok (<[h := a]> ars) xs.
Proof.
  intros [H1 H2 H3] Hb Ha. assert (Hne : forall x b, ars !! x = Some b -> <[h := a]> ars !! x = Some b).
  { intros x b Hx. rw lookup_insert_ne; [done|]. assert (x < h) by (apply Hb; by eexists). lia. }
  split.
  - intros x b. destruct (decide (h = x)) as [->|Hx]; [rw lookup_insert_eq; by intros [= <-]|rw lookup_insert_ne //; apply H1].
  - intros x Hx. destruct (H2 x Hx) as [b Hxb]. eauto.
  - clear H1 H2. induction H3 as [|x xs _ IH Hx]; [constructor|]. constructor; [done|]. eapply Forall_impl; [|exact Hx].
    intros y (b & c & Hxb & Hyc & ?). exists b, c. eauto.
Qed.

Lemma sorted_insert_at {A} (R : A -> A -> Prop) l1 x l2 : StronglySorted R (l1 ++ l2) ->
  Forall (fun y => R y x) l1 -> Forall (R x) l2 -> StronglySorted R (l1 ++ x :: l2).
Proof.
  intros Hs H1 H2. induction l1 as [|y l1 IH]; cbn [app] in *; [by constructor|].
  inversion Hs as [|? ? Hs' Hy]; subst. apply Forall_cons_iff in H1 as [Hyx H1]. constructor; [by apply IH|].
  apply Forall_app in Hy as [Hy1 Hy2]. apply Forall_app. split; [done|]. by constructor.
Qed.

Lemma sorted_place ars l1 x l2 a :
  regions_ok ars (l1 ++ l2) -> ars !! x = Some a -> clear_of ars (l1 ++ l2) a ->
  before_key (key_of ars) (va a) l1 -> after_key (key_of ars) (va a) l2 -> StronglySorted (ends_before ars) (l1 ++ x :: l2).
Proof.
  intros Hr Hx Hc H1 H2. pose proof (ro_ok _ _ Hr _ _ Hx) as (_ & _ & Ha & _). apply sorted_insert_at; [apply Hr| |]; apply Forall_forall; intros y Hy.
  - pose proof (proj1 (Forall_forall _ _) H1 y Hy) as Hk. apply list_elem_of_In in Hy. assert (Hy' : y ∈ l1 ++ l2) by (apply elem_of_app; auto).
    destruct (ro_in _ _ Hr y Hy') as [b Hb]. destruct (Hc y b Hy' Hb) as [Hne Hor]. unfold key_of in Hk. rw Hb in Hk. cbn in Hk.
    pose proof (ro_ok _ _ Hr _ _ Hb) as (_ & _ & Hlb & _). exists b, a. split; [done|]. split; [done|]. lia.
  - pose proof (proj1 (Forall_forall _ _) H2 y Hy) as Hk. apply list_elem_of_In in Hy. assert (Hy' : y ∈ l1 ++ l2) by (apply elem_of_app; auto).
    destruct (ro_in _ _ Hr y Hy') as [b Hb]. destruct (Hc y b Hy' Hb) as [Hne Hor]. unfold key_of in Hk. rw Hb in Hk. cbn in Hk.
    pose proof (ro_ok _ _ Hr _ _ Hb) as (_ & _ & Hlb & _). exists a, b. split; [done|]. split; [done|]. lia.
Qed.

(** Everything about a space but its tree and areas. *)
Definition same_rest (s s' : space) : Prop := pt s' = pt s /\ lo s' = lo s /\ hi s' = hi s /\ is_kspace s' = is_kspace s.

(** [new mm::area] and [add_region]: a region that is clear of the others is
    added in its place; one at the address of another is not, and nobody knows. *)
Lemma new_region_spec s xs a : space_ok s xs -> area_ok a -> heap s + 24 <= 2 ^ 64 ->
  exists s', same_rest s s' /\ areas s' = <[heap s := a]> (areas s) /\ heap s' = heap s + 24 /\
    (clear_of (areas s) xs a -> exists l1 l2, new_region a s = Done true s' /\ xs = l1 ++ l2 /\ space_ok s' (l1 ++ heap s :: l2)) /\
    ((exists x b, x ∈ xs /\ areas s !! x = Some b /\ va b = va a) -> new_region a s = Done false s' /\ space_ok s' xs).
Proof.
  intros Hs Ha Hh. pose proof Hs as [(t & Hm & Ht & <-) Hr Hw Hx [Hh1 Hh2]]. set (x := heap s) in *. set (ars := <[x := a]> (areas s)).
  assert (Hr' : regions_ok ars (inorder t)) by (by apply regions_ok_ext). set (m := with_node x (tree_mem s)).
  pose proof (node_fresh _ _ _ Hm Hw) as Hn. fold x m in Hn. assert (Hm' : rb_at m regions t) by (split; [by apply holds_app in Hn as [_ ?]|apply Hm]).
  assert (Hkx : key_of ars x = va a) by (unfold key_of, ars; by rw lookup_insert_eq).
  destruct (rb_insert_run m regions t x 0 0 0 (region_cmp ars (va a)) (key_of ars)) as (r & m2 & t2 & Er & Hres & Hm2 & Hk);
    [unfold addr_ok; lia|done|done|by apply sorted_by_key; apply Hr'|done|rw Hkx; by apply region_cmp_compares|].
  assert (Hdom : forall b, is_Some (m2 !! b) -> b < x + 24).
  { intros b Hb. apply (steady_insert _ _ _ _ _ _ Er) in Hb. unfold m, with_node in Hb. rw !lookup_insert_is_Some in Hb. unfold rb_right, rb_left in Hb.
    destruct Hb as [<-|[_ [<-|[_ [<-|[_ Hb]]]]]]; [lia..|]. apply Hw in Hb. lia. }
  exists (Space m2 ars (pt s) (lo s) (hi s) (is_kspace s) (x + 24)). split; [by repeat split|]. split; [done|]. split; [done|].
  assert (Hrun : new_region a s = Done r (Space m2 ars (pt s) (lo s) (hi s) (is_kspace s) (x + 24))).
  { unfold new_region, new_area, add_region, get_area, mbind, SM_bind, gets, modify, sopt. cbn. fold x ars. unfold ars at 1. rw lookup_insert_eq.
    unfold in_tree. cbn [tree_mem]. fold (with_node x (tree_mem s)). fold m. rw Er. done. }
  assert (Hareas : forall y, is_Some (ars !! y) -> y < x + 24).
  { intros y. unfold ars. rw lookup_insert_is_Some. intros [<-|[_ Hy%Hx]]; lia. }
  assert (Hclear : forall xs, clear_of (areas s) xs a -> (forall y, y ∈ xs -> is_Some (areas s !! y)) -> clear_of ars xs a).
  { intros ys Hc Hi y b Hy Hb. unfold ars in Hb. rw lookup_insert_ne in Hb; [eauto|]. specialize (Hx y (Hi y Hy)). lia. }
  destruct r.
  - destruct Hres as (l1 & l2 & H1 & H2 & H3 & H4 & H5). rw Hkx in H2 H3. split.
    + intros Hc. exists l1, l2. split; [done|]. split; [done|]. split; cbn [tree_mem areas heap]; [by exists t2| |done|done|zlia].
      rw H1 in Hr' Hc. split; [apply Hr'| |].
      * intros y. rw elem_of_app elem_of_cons. intros [Hy|[->|Hy]]; [apply Hr'; rw elem_of_app; auto|unfold ars; rw lookup_insert_eq; by eexists|apply Hr'; rw elem_of_app; auto].
      * apply (sorted_place ars l1 x l2 a); [done|unfold ars; by rw lookup_insert_eq| |done|done]. apply Hclear; [done|]. intros y Hy. rw -H1 in Hy. by apply Hr.
    + intros (y & b & Hy & Hb & Hva). exfalso. rw H1 in Hy. assert (Hkb : key_of ars y = va a).
      { unfold key_of, ars. rw lookup_insert_ne; [by rw Hb|]. assert (y < x) by (apply Hx; by eexists). lia. }
      unfold before_key, after_key in *. rw Forall_forall in H2. rw Forall_forall in H3.
      apply elem_of_app in Hy as [Hy%list_elem_of_In|Hy%list_elem_of_In]; [apply H2 in Hy|apply H3 in Hy]; lia.
  - destruct Hres as (y & Hy & Hky). split.
    + intros Hc. exfalso. destruct (ro_in _ _ Hr y Hy) as [b Hb]. destruct (Hc y b Hy Hb) as [Hne _]. apply Hne.
      rw Hkx in Hky. unfold key_of, ars in Hky. rw lookup_insert_ne in Hky; [by rw Hb in Hky|]. assert (y < x) by (apply Hx; by eexists). lia.
    + intros _. split; [done|]. assert (m2 = m) as -> by (pose proof (insert_false _ _ _ _ _ Er); congruence).
      split; cbn [tree_mem areas heap]; [by exists t|done|done|done|zlia].
Qed.

(** ** Holes *)

(** [size] bytes from [v] on are clear of the region [x]. *)
Definition hole_for (ars : gmap Z area) (v size x : Z) : Prop :=
  exists a, ars !! x = Some a /\ (v + size <= va a \/ va a + len a < v).

Lemma readonly_hole ars h size : readonly (find_hole_in ars h size).
Proof.
  unfold find_hole_in. apply readonly_bind; [unfold rb_last; reading|]. intros l. apply readonly_wloop. intros [[node v] lim]. destruct (node =? 0); [reading|].
  apply readonly_bind; [reading|]. intros r. cbv zeta. destruct ((_ <=? _) && _); (apply readonly_bind; [unfold rb_prev; reading|]; intros n; reading).
Qed.

Section hole.
Context (m : words) (t : tree) (ars : gmap Z area) (size h : Z).
Hypothesis Hm : rb_at m regions t.
Hypothesis Hr : regions_ok ars (inorder t).
Hypothesis Hroom : forall x a, x ∈ inorder t -> ars !! x = Some a -> size <= va a.
Hypothesis Hsize : 0 < size.
Hypothesis Hpage : size mod 4096 = 0.

Lemma hole_loop fuel : forall ys zs v, inorder t = ys ++ zs -> (length ys < fuel)%nat ->
  0 <= v -> v + size <= h < 2 ^ 63 -> v mod 4096 = 0 -> Forall (hole_for ars v size) zs ->
  exists r, sloop fuel (fun '(node, v, lim) =>
    if node =? 0 then mret (Break v)
    else
      r ← sopt (fun _ => ars !! node);
      let rva := va r in
      let rlim := u64 (rva + len r) in
      let '(v, lim) :=
        if (v <=? rlim) && (rva <? lim) then (u64 (rva - size), u64 (u64 (rva - size) + size)) else (v, lim) in
      node ← rb_prev node;
      mret (Next (node, v, lim))) (default 0 (list.last ys), v, v + size) m = Done r m /\
    0 <= r /\ r + size <= h /\ r mod 4096 = 0 /\ Forall (hole_for ars r size) (inorder t).
Proof.
  induction fuel as [|fuel IH]; intros ys zs v Hxs Hf Hv Hh Hp4 Hz; [lia|]. cbn [sloop].
  destruct ys as [|x ys _] using rev_ind; [cbn; exists v; rw Hxs; auto with lia|].
  rw last_snoc. cbn [default from_option id]. rw -app_assoc in Hxs. cbn [app] in Hxs. rw length_app in Hf. cbn [length] in Hf.
  assert (Hx : x ∈ inorder t) by (rw Hxs elem_of_app elem_of_cons; auto). destruct (ro_in _ _ Hr x Hx) as [a Ha].
  pose proof (ro_ok _ _ Hr _ _ Ha) as (A1 & A2 & A3 & A4). pose proof (Hroom x a Hx Ha) as Hra.
  assert (Hx0 : x <> 0).
  { destruct Hm as [_ Hok]. rw Forall_forall in Hok. specialize (Hok x (proj1 (list_elem_of_In _ _) Hx)). unfold addr_ok in Hok. lia. }
  pose proof (rb_prev_run _ _ _ _ _ _ Hm Hxs) as Hp. pose proof (ro_sorted _ _ Hr) as Hs. rw Hxs in Hs. apply sorted_split in Hs as [_ Hgt].
  unfold mbind, SM_bind at 1. unfold mbind, SM_bind at 1. rw (proj2 (Z.eqb_neq x 0) Hx0). unfold sopt at 1. rw Ha. cbv zeta. rw (u64_small (va a + len a)); [|lia].
  destruct ((v <=? va a + len a) && (va a <? v + size)) eqn:Et.
  - rw (u64_small (va a - size)); [|lia]. rw u64_small; [|lia]. unfold mbind, SM_bind at 1. rw Hp. cbn [mret SM_ret]. unfold mret, SM_ret.
    apply (IH ys (x :: zs) (va a - size) Hxs); [lia|lia|zbool; lia|Z.div_mod_to_equations; lia|]. constructor; [exists a; split; [done|lia]|].
    eapply Forall_impl; [|exact Hgt]. intros y (a' & b & ? & ? & ? & ?). simplify_eq. exists b. split; [done|lia].
  - unfold mbind, SM_bind at 1. rw Hp. unfold mret, SM_ret. apply (IH ys (x :: zs) v Hxs); [lia..|]. constructor; [|done].
    exists a. split; [done|]. apply andb_false_iff in Et as [Et|Et]; zbool; lia.
Qed.
End hole.

(** [find_hole] gives a place that no region touches, when there is one below the
    lowest region. *)
Lemma find_hole_spec s xs size : space_ok s xs -> 0 < size <= hi s -> hi s < 2 ^ 63 -> size mod 4096 = 0 -> hi s mod 4096 = 0 ->
  (forall x a, x ∈ xs -> areas s !! x = Some a -> size <= va a) ->
  exists v, find_hole size s = Done v s /\ 0 <= v /\ v + size <= hi s /\ v mod 4096 = 0 /\ Forall (hole_for (areas s) v size) xs.
Proof.
  intros [(t & Hm & _ & <-) Hr _ _ _] Hsz Hhi Hp1 Hp2 Hroom.
  destruct (hole_loop (tree_mem s) t (areas s) size (hi s) Hm Hr Hroom ltac:(lia) Hp1 (fuel_of (tree_mem s)) (inorder t) [] (hi s - size))
    as (v & Ev & Hv); [by rw app_nil_r|by eapply rb_at_fuel|lia|lia|Z.div_mod_to_equations; lia|constructor|]. exists v. split; [|done].
  unfold find_hole. cbn. apply in_tree_reading. unfold find_hole_in, mbind, SM_bind at 1. rw (rb_last_run _ _ _ Hm).
  unfold wloop, mbind, SM_bind at 1. cbn [gets]. unfold gets. rw (u64_small (hi s - size)); [|lia]. rw u64_small; [|lia]. exact Ev.
Qed.

(** ** Removal *)

Lemma sorted_remove {A} (R : A -> A -> Prop) l1 x l2 : StronglySorted R (l1 ++ x :: l2) -> StronglySorted R (l1 ++ l2).
Proof.
  induction l1 as [|y l1 IH]; cbn [app]; intros H; inversion H as [|? ? H1 H2]; subst; [done|]. constructor; [auto|].
  apply Forall_app in H2 as [? H2]. inversion H2; subst. by apply Forall_app.
Qed.

Lemma erase_region_spec s l1 x l2 : space_ok s (l1 ++ x :: l2) ->
  exists m, in_tree (rb_erase x regions) s = Done tt (set_tree_mem m s) /\ space_ok (set_tree_mem m s) (l1 ++ l2).
Proof.
  intros [(t & Hm & Ht & Hx) Hr Hw Ha Hh]. destruct (rb_erase_run _ _ _ _ _ _ Hm Ht Hx) as (m & t' & u & v & w & Er & Hm' & Ht' & Hx' & _).
  exists m. split; [unfold in_tree; by rw Er|]. split; cbn [set_tree_mem tree_mem areas heap]; [by exists t'| | |done|done].
  - destruct Hr as [H1 H2 H3]. split; [done| |by eapply sorted_remove]. intros y Hy. apply H2. rw elem_of_app elem_of_cons. apply elem_of_app in Hy as []; auto.
  - intros a Hb. apply Hw. by apply (steady_erase _ _ _ _ _ Er).
Qed.

(** ** Pointers *)

(** The access rights [mode] on the region that has [v]. *)
Definition allows (mode : Z) (a : area) : bool :=
  negb ((has mode PROT_READ && negb (has (prot a) PROT_READ)) ||
        (has mode PROT_WRITE && negb (has (prot a) PROT_WRITE)) ||
        (has mode PROT_EXEC && negb (has (prot a) PROT_EXEC))).
Definition accessible (ars : gmap Z area) (xs : list Z) (mode v : Z) : Prop :=
  exists x a, x ∈ xs /\ ars !! x = Some a /\ va a <= v < va a + len a /\ allows mode a = true.

Lemma found_unique ars xs v r : regions_ok ars xs -> found ars xs v r -> r <> 0 -> forall x, x ∈ xs -> contains ars v x -> x = r.
Proof.
  intros Hr Hf Hr0 x Hx Hc. destruct Hf as [[Hin Hcr]|[? _]]; [|done]. apply list_elem_of_split in Hin as (l1 & l2 & ->).
  pose proof (ro_sorted _ _ Hr) as Hs. apply sorted_split in Hs as [Hl Hg]. destruct Hcr as (a & Ha & Hva). rw Forall_forall in Hl. rw Forall_forall in Hg.
  apply elem_of_app in Hx as [Hx|[->|Hx]%elem_of_cons]; [exfalso|done|exfalso]; apply list_elem_of_In in Hx.
  - eapply (not_contains_before ars v); [apply Hl, Hx|exact Ha|lia|exact Hc].
  - eapply (not_contains_after ars v); [apply Hg, Hx|exact Ha|lia|exact Hc].
Qed.

Definition validate_step (ars : gmap Z area) (mode e : Z) (v : Z) : W (ctl Z bool) :=
  if v <=? e then
    x ← lookup_in ars v;
    if x =? 0 then mret (Break false)
    else
      r ← sopt (fun _ => ars !! x);
      if (has mode PROT_READ && negb (has (prot r) PROT_READ)) ||
         (has mode PROT_WRITE && negb (has (prot r) PROT_WRITE)) ||
         (has mode PROT_EXEC && negb (has (prot r) PROT_EXEC)) then mret (Break false)
      else mret (Next (u64 (v + 4096)))
  else mret (Break true).

Section validate.
Context (m : words) (t : tree) (ars : gmap Z area) (mode e : Z).
Hypothesis Hm : rb_at m regions t.
Hypothesis Hr : regions_ok ars (inorder t).
Hypothesis He : 0 <= e < 2 ^ 63.

Lemma validate_step_run v : 0 <= v <= e ->
  (accessible ars (inorder t) mode v /\ validate_step ars mode e v m = Done (Next (v + 4096)) m) \/
  (~ accessible ars (inorder t) mode v /\ validate_step ars mode e v m = Done (Break false) m).
Proof.
  intros Hv. destruct (lookup_in_spec m ars t v Hm Hr) as (x & Ex & Hf). unfold validate_step. rw (proj2 (Z.leb_le v e)); [|lia].
  rw (bind_done _ _ _ _ _ Ex). destruct (decide (x = 0)) as [->|Hx0].
  - right. split; [|reflexivity]. intros (y & a & Hy & Ha & Hc & _). destruct Hf as [[Hin (b & _)]|[_ Hn]]; [|apply (Hn y Hy); by exists a].
    destruct Hm as [_ Hok]. rw Forall_forall in Hok. specialize (Hok 0 (proj1 (list_elem_of_In _ _) Hin)). unfold addr_ok in Hok. lia.
  - pose proof (found_unique _ _ _ _ Hr Hf Hx0) as Hu. destruct Hf as [[Hin (a & Ha & Hc)]|[? _]]; [|done].
    rw (proj2 (Z.eqb_neq x 0) Hx0). unfold mbind, SM_bind, sopt. rw Ha. destruct (allows mode a) eqn:Eal; unfold allows in Eal; [apply negb_true_iff in Eal|apply negb_false_iff in Eal].
    + left. split; [exists x, a; unfold allows; by rw Eal|]. rw Eal. rw u64_small; [done|lia].
    + right. rw Eal. split; [|done]. intros (y & b & Hy & Hb & Hcb & Hal). assert (y = x) as -> by (apply Hu; [done|by exists b]).
      simplify_eq. unfold allows in Hal. by rw Eal in Hal.
Qed.

Lemma validate_loop fuel : forall v, 0 <= v -> (Z.to_nat ((e - v) / 4096 + 1) < fuel)%nat ->
  exists b, sloop fuel (validate_step ars mode e) v m = Done b m /\
    (b = true <-> forall i, 0 <= i -> v + i * 4096 <= e -> accessible ars (inorder t) mode (v + i * 4096)).
Proof.
  induction fuel as [|fuel IH]; intros v Hv Hf; [lia|]. cbn [sloop]. destruct (Z_le_gt_dec v e) as [Hle|Hgt].
  - unfold mbind, SM_bind. destruct (validate_step_run v ltac:(lia)) as [[Ha ->]|[Ha ->]].
    + assert (Hd : (e - (v + 4096)) / 4096 = (e - v) / 4096 - 1) by (replace (e - (v + 4096)) with (e - v + -1 * 4096) by lia; rw Z.div_add; lia).
      assert (0 <= (e - v) / 4096) by (apply Z.div_pos; lia).
      destruct (IH (v + 4096)) as (b & Eb & Hb); [lia|rw Hd; lia|]. exists b. split; [done|]. rw Hb. split; intros HH i Hi0 Hi.
      * destruct (decide (i = 0)) as [->|Hne]; [by rw Z.add_0_r|]. replace (v + i * 4096) with (v + 4096 + (i - 1) * 4096) by lia. apply HH; lia.
      * replace (v + 4096 + i * 4096) with (v + (i + 1) * 4096) by lia. apply HH; lia.
    + exists false. split; [done|]. split; [done|]. intros H. exfalso. apply Ha. specialize (H 0). rw Z.add_0_r in H. apply H; lia.
  - unfold mbind, SM_bind, validate_step. rw (proj2 (Z.leb_gt v e)); [|lia]. exists true. split; [done|]. split; [|done]. intros _ i Hi0 Hi. lia.
Qed.
End validate.

(** [validate_pointer] looks at the page of every address from the start to one
    past the end. *)
Lemma validate_pointer_spec s xs raw n mode : space_ok s xs -> is_kspace s = false -> 0 <= raw -> 0 <= n -> raw + n < 2 ^ 63 ->
  exists b, validate_pointer raw n mode s = Done b s /\
    (b = true <-> forall p, raw / 4096 <= p <= (raw + n) / 4096 -> accessible (areas s) xs mode (p * 4096)).
Proof.
  intros [(t & Hm & _ & <-) Hr _ _ _] Hk H1 H2 H3. unfold validate_pointer.
  rw (bind_done (gets is_kspace) _ s (is_kspace s) s eq_refl) Hk (bind_done (gets areas) _ s (areas s) s eq_refl). set (ars := areas s).
  pose proof (Z.div_le_mono raw (raw + n) 4096 ltac:(lia) ltac:(lia)) as Hd. pose proof (Z.div_pos raw 4096 ltac:(lia) ltac:(lia)) as Hp.
  pose proof (Z.mul_div_le (raw + n) 4096 ltac:(lia)) as Hq.
  destruct (validate_loop (tree_mem s) t ars mode (4096 * ((raw + n) / 4096)) Hm Hr ltac:(lia)
    (S (S (Z.to_nat ((4096 * ((raw + n) / 4096) - 4096 * (raw / 4096)) / 4096)))) (4096 * (raw / 4096))) as (b & Eb & Hb); [lia| |].
  { replace (4096 * ((raw + n) / 4096) - 4096 * (raw / 4096)) with (((raw + n) / 4096 - raw / 4096) * 4096) by lia. rw Z.div_mul; lia. }
  exists b. split.
  - apply in_tree_reading. unfold validate_in. rw (u64_small (raw + n)); [|lia]. rw !page_floor; [exact Eb|lia..].
  - rw Hb. split; intros H.
    + intros p Hpr. replace (p * 4096) with (4096 * (raw / 4096) + (p - raw / 4096) * 4096) by lia. apply H; lia.
    + intros i Hi0 Hi. replace (4096 * (raw / 4096) + i * 4096) with ((raw / 4096 + i) * 4096) by lia. apply H. lia.
Qed.
