(* ===== verification/SpacePages.v ===== *)
(** * Address spaces: pages and their users

    The pool of pages over the page allocator: a page that is allocated is new,
    zeroed and at a physical address of its own; the count of users of a page is
    the number of mappings that hold it. *)

From S2P Require Import Prelude CMem State WordMem Rbtree Phys PhysProps Space SpaceTree.

(** ** Counting *)

(** How often [x] occurs in a list of mappings, and in all areas of a space. *)
Fixpoint occ (x : Z) (l : list Z) : Z := match l with [] => 0 | y :: l => b2z (y =? x) + occ x l end.
Definition refs (ars : gmap Z area) (x : Z) : Z := map_fold (fun _ a n => occ x (mappings a) + n) 0 ars.

Lemma occ_nonneg x l : 0 <= occ x l.
Proof. induction l as [|y l IH]; cbn; [lia|]. destruct (y =? x); cbn; lia. Qed.

Lemma occ_app x l l' : occ x (l ++ l') = occ x l + occ x l'.
Proof. induction l as [|y l IH]; cbn; lia. Qed.

Lemma occ_insert x l i old y : l !! i = Some old -> occ x (<[i := y]> l) = occ x l - b2z (old =? x) + b2z (y =? x).
Proof.
  revert i. induction l as [|z l IH]; intros [|i] H; cbn in H; [discriminate..| |].
  - injection H as ->. change (<[0%nat := y]> (old :: l)) with (y :: l). cbn [occ]. lia.
  - change (<[S i := y]> (z :: l)) with (z :: <[i := y]> l). cbn [occ]. rewrite (IH i H). lia.
Qed.

Lemma occ_in x l : x ∈ l -> 1 <= occ x l.
Proof.
  induction l as [|y l IH]; [now intros ?%elem_of_nil|]. cbn. pose proof (occ_nonneg x l). rewrite elem_of_cons.
  intros [<-|H1]; [rewrite Z.eqb_refl; cbn; lia|]. specialize (IH H1). destruct (y =? x); cbn; lia.
Qed.

Lemma occ_replicate0 x n : x <> 0 -> occ x (replicate n 0) = 0.
Proof. intros Hx. induction n as [|n IH]; cbn; [reflexivity|]. destruct x; cbn; [contradiction|exact IH..]. Qed.

Lemma refs_new ars h a x : ars !! h = None -> refs (<[h := a]> ars) x = occ x (mappings a) + refs ars x.
Proof. intros H. unfold refs. rewrite map_fold_insert_L; [reflexivity| |exact H]. intros. lia. Qed.

Lemma refs_delete ars h a x : ars !! h = Some a -> refs ars x = occ x (mappings a) + refs (delete h ars) x.
Proof. intros H. rewrite <- (insert_delete_id _ _ _ H) at 1. apply refs_new, lookup_delete_eq. Qed.

Lemma refs_replace ars h a b x : ars !! h = Some a -> refs (<[h := b]> ars) x = refs ars x - occ x (mappings a) + occ x (mappings b).
Proof.
  intros H. rewrite <- insert_delete_eq, refs_new by apply lookup_delete_eq. rewrite (refs_delete _ _ _ _ H). lia.
Qed.

Lemma refs_nonneg ars x : 0 <= refs ars x.
Proof. unfold refs. apply (map_fold_weak_ind (fun n _ => 0 <= n)); [lia|]. intros h a m n _ H. pose proof (occ_nonneg x (mappings a)). lia. Qed.

Lemma refs_in ars h a x : ars !! h = Some a -> occ x (mappings a) <= refs ars x.
Proof. intros H. rewrite (refs_delete _ _ _ _ H). pose proof (refs_nonneg (delete h ars) x). lia. Qed.

(** ** The pool *)

Record pool_ok (p : pool) : Prop := {
  pk_phys : exists bs, phys_ok (phys_mem p) bs /\ forall x g, pages p !! x = Some g -> cover bs (pa g) = 0;
  pk_page : forall x g, pages p !! x = Some g -> 0 < x < next_page p /\ 0 <= m_users g < 2 ^ 32 /\ is_Some (contents p !! pa g);
  pk_inj : forall x y g h, pages p !! x = Some g -> pages p !! y = Some h -> pa g = pa h -> x = y;
  pk_next : 0 < next_page p }.

(** Pages and bytes that were there are still there, as they were. *)
Definition pages_kept (p p' : pool) : Prop :=
  next_page p <= next_page p' /\
  forall x g, pages p !! x = Some g -> exists g', pages p' !! x = Some g' /\ pa g' = pa g /\ contents p' !! pa g = contents p !! pa g.

Lemma pages_kept_refl p : pages_kept p p.
Proof. split; [lia|]. eauto. Qed.
Lemma pages_kept_trans p q r : pages_kept p q -> pages_kept q r -> pages_kept p r.
Proof.
  intros [H1 H2] [H3 H4]. split; [lia|]. intros x g Hx. destruct (H2 x g Hx) as (g1 & G1 & G2 & G3).
  destruct (H4 x g1 G1) as (g2 & K1 & K2 & K3). exists g2. split; [exact K1|]. rewrite G2 in *. split; congruence.
Qed.

(** The users of a page, 0 for one that does not exist, are [cnt]. *)
Definition users_of (p : pool) (x : Z) : Z := default 0 (m_users <$> pages p !! x).
Definition users_are (p : pool) (cnt : Z -> Z) : Prop := forall x, x <> 0 -> users_of p x = cnt x.

Lemma users_of_some p x g : pages p !! x = Some g -> users_of p x = m_users g.
Proof. intros H. unfold users_of. now rewrite H. Qed.

Lemma users_of_page p x : 1 <= users_of p x -> exists g, pages p !! x = Some g /\ m_users g = users_of p x.
Proof. unfold users_of. destruct (pages p !! x) as [g|]; cbn; [eauto|lia]. Qed.

(** What every operation does to the pool: it stays well formed, keeps the pages
    and takes at most [n] pages from the allocator. *)
Definition pool_step (n : Z) (p p' : pool) : Prop :=
  pool_ok p' /\ pages_kept p p' /\ nfree (phys_mem p) - n <= nfree (phys_mem p').

Lemma pool_step_refl p : pool_ok p -> pool_step 0 p p.
Proof. intros H. split; [exact H|]. split; [apply pages_kept_refl|lia]. Qed.
Lemma pool_step_trans n n' k p q r : pool_step n p q -> pool_step n' q r -> n + n' <= k -> pool_step k p r.
Proof. intros (H1 & H2 & H3) (H4 & H5 & H6) Hk. split; [exact H4|]. split; [eapply pages_kept_trans; eauto|lia]. Qed.

Lemma page_bits a : 0 <= a < 2 ^ 60 -> a mod 4096 = 0 ->
  Z.lor (Z.lor (Z.land a (u64 (Z.lnot 4095))) (Z.land 0 4095)) PG_OWNED = a + 2.
Proof.
  intros Ha Hm. rewrite page_floor by lia. replace (4096 * (a / 4096)) with a by zlia. rewrite Z.land_0_l, Z.lor_0_r.
  assert (exists q, 0 <= q /\ a = 4 * q) as (q & Hq & ->) by (exists (a / 4); zlia). now destruct q.
Qed.

Lemma pa_owned a u : 0 <= a < 2 ^ 60 -> a mod 4096 = 0 -> pa (Page (a + 2) u) = a.
Proof. intros Ha Hm. unfold pa. cbn [m_paf]. rewrite page_floor by lia. zlia. Qed.

Lemma page_alloc_spec p : pool_ok p -> 32 <= nfree (phys_mem p) ->
  exists p' g, page_alloc p = Done (next_page p) p' /\ pool_ok p' /\ pages_kept p p' /\
    nfree (phys_mem p') = nfree (phys_mem p) - 1 /\ pages p !! next_page p = None /\
    pages p' = <[next_page p := g]> (pages p) /\ m_users g = 0 /\ contents p' !! pa g = Some zero_page.
Proof.
  intros [(bs & Hp & Hfree) Hpg Hinj Hnx] Hf. destruct (phys_alloc_one _ _ Hp Hf) as (a & m' & bs' & E & Hp' & Hn & Ha & Hal & Hc1 & Hc0 & Hcx).
  assert (Hcle : forall x, cover bs' x <= cover bs x) by (intros x; specialize (Hcx x); destruct (in_block (a, 1) x); cbn [b2z] in Hcx; lia).
  pose proof (page_bits a ltac:(lia) Hal) as Hbits. pose proof (fun u => pa_owned a u ltac:(lia) Hal) as Hpa.
  assert (Hnew : forall x g, pages p !! x = Some g -> pa g <> a) by (intros x g Hx <-; rewrite (Hfree x g Hx) in Hc1; lia).
  assert (Hnone : pages p !! next_page p = None) by (destruct (pages p !! next_page p) eqn:Ex; [apply Hpg in Ex; lia|reflexivity]).
  exists (Pool (<[next_page p := Page (a + 2) 0]> (pages p)) (next_page p + 1) m' (<[a := zero_page]> (contents p)) (owners p)), (Page (a + 2) 0).
  cbn [pages contents phys_mem next_page]. split; [|split; [|split]].
  - unfold page_alloc, fset, get_pg, put_pg, phys_alloc, mbind, SM_bind, gets, modify, sopt. rewrite E. cbn [pages next_page]. rewrite lookup_insert_eq.
    unfold set_pa, pg_flags. cbn [m_paf m_users]. rewrite Hbits. unfold set_pages. cbn [pages next_page phys_mem contents owners]. now rewrite insert_insert_eq.
  - split; cbn [pages next_page phys_mem contents]; [| | |lia].
    + exists bs'. split; [exact Hp'|]. intros x g. rewrite lookup_insert_Some. intros [[_ <-]|[_ Hx]]; [now rewrite Hpa|].
      pose proof (Hcle (pa g)) as Hle. rewrite (Hfree x g Hx) in Hle. pose proof (cover_nonneg bs' (pa g)). lia.
    + intros x g. rewrite lookup_insert_Some. intros [[<- <-]|[_ Hx]]; [rewrite Hpa, lookup_insert_eq; cbn; repeat split; eauto; lia|].
      destruct (Hpg x g Hx) as (? & ? & ?). split; [lia|]. split; [assumption|]. rewrite lookup_insert_ne by (apply not_eq_sym, (Hnew x g Hx)). assumption.
    + intros x y g h. rewrite !lookup_insert_Some. intros [[<- <-]|[Hx Hg]] [[<- <-]|[Hy Hh]]; rewrite ?Hpa; intros Heq; [reflexivity| | |eauto];
        exfalso; [symmetry in Heq|]; eapply Hnew; eauto.
  - split; cbn; [lia|]. intros x g Hx. exists g. split; [rewrite lookup_insert_ne; [exact Hx|congruence]|]. split; [reflexivity|].
    apply lookup_insert_ne, not_eq_sym, (Hnew x g Hx).
  - rewrite Hpa, lookup_insert_eq. auto.
Qed.

(** A page of [page::alloc] is new, zeroed and has no users. *)
Lemma page_alloc_step p : pool_ok p -> 32 <= nfree (phys_mem p) ->
  exists p' g, page_alloc p = Done (next_page p) p' /\ pool_step 1 p p' /\ 0 < next_page p /\ pages p !! next_page p = None /\
    pages p' !! next_page p = Some g /\ contents p' !! pa g = Some zero_page /\ forall y, users_of p' y = users_of p y.
Proof.
  intros Hp Hf. destruct (page_alloc_spec p Hp Hf) as (p' & g & E & H1 & H2 & H3 & H4 & H5 & H6 & H7). exists p', g.
  split; [exact E|]. split; [split; [exact H1|split; [exact H2|lia]]|]. split; [apply Hp|]. split; [exact H4|].
  split; [rewrite H5; apply lookup_insert_eq|]. split; [exact H7|]. intros y. unfold users_of. rewrite H5.
  destruct (decide (y = next_page p)) as [->|Hy]; [rewrite lookup_insert_eq, H4; exact H6|now rewrite lookup_insert_ne by congruence].
Qed.

(** Changing the flags or the users of a page. *)
Lemma put_pg_ok p x g g' : pool_ok p -> pages p !! x = Some g -> pa g' = pa g -> 0 <= m_users g' < 2 ^ 32 ->
  pool_ok (set_pages <[x := g']> p) /\ pages_kept p (set_pages <[x := g']> p).
Proof.
  intros [(bs & Hp & Hfree) Hpg Hinj Hnx] Hx Hpa Hu. split; [split; cbn [set_pages pages next_page phys_mem contents]; [| | |exact Hnx]|].
  - exists bs. split; [exact Hp|]. intros y h. rewrite lookup_insert_Some. intros [[<- <-]|[_ Hy]]; [rewrite Hpa|]; eauto.
  - intros y h. rewrite lookup_insert_Some. intros [[<- <-]|[_ Hy]]; [|eauto]. rewrite Hpa. destruct (Hpg x g Hx) as (? & ? & ?). auto.
  - intros y z h i. rewrite !lookup_insert_Some. intros [[<- <-]|[Hne Hg]] [[<- <-]|[Hne' Hh]]; rewrite ?Hpa; intros Heq; eauto.
  - split; [cbn; lia|]. intros y h Hy. cbn [set_pages pages contents]. destruct (decide (x = y)) as [->|Hne].
    + rewrite Hx in Hy. injection Hy as <-. exists g'. rewrite lookup_insert_eq. auto.
    + exists h. rewrite lookup_insert_ne by exact Hne. auto.
Qed.

(** One user more, or one less. *)
Lemma put_users p x g u : pool_ok p -> pages p !! x = Some g -> 0 <= u < 2 ^ 32 ->
  let p' := set_pages <[x := Page (m_paf g) u]> p in
  pool_step 0 p p' /\ forall y, users_of p' y = if decide (x = y) then u else users_of p y.
Proof.
  intros Hp Hx Hu p'. destruct (put_pg_ok p x g (Page (m_paf g) u) Hp Hx eq_refl Hu) as [H1 H2]. split.
  - split; [exact H1|]. split; [exact H2|]. cbn. lia.
  - intros y. unfold users_of, p'. cbn [set_pages pages]. destruct (decide (x = y)) as [->|Hne]; [now rewrite lookup_insert_eq|now rewrite lookup_insert_ne by exact Hne].
Qed.

Lemma drop_user_spec p x : pool_ok p -> 1 <= users_of p x ->
  exists p', drop_user x p = Done tt p' /\ pool_step 0 p p' /\ forall y, users_of p' y = users_of p y - b2z (x =? y).
Proof.
  intros Hp Hu. destruct (users_of_page p x Hu) as (g & Hg & Hm). destruct (pk_page _ Hp x g Hg) as (_ & Hb & _).
  destruct (put_users p x g (u32 (m_users g - 1)) Hp Hg) as [H1 H2]; [apply u32_range|]. eexists. split; [unfold drop_user, get_pg, put_pg, modify, mbind, SM_bind, sopt; now rewrite Hg|].
  split; [exact H1|]. intros y. rewrite H2, u32_small by lia. destruct (decide (x = y)) as [<-|Hne]; [rewrite Z.eqb_refl|rewrite (proj2 (Z.eqb_neq x y) Hne)]; cbn [b2z]; lia.
Qed.

Lemma add_user_spec p x : pool_ok p -> is_Some (pages p !! x) -> users_of p x + 1 < 2 ^ 32 ->
  exists p', add_user x p = Done tt p' /\ pool_step 0 p p' /\ forall y, users_of p' y = users_of p y + b2z (x =? y).
Proof.
  intros Hp [g Hg] Hu. rewrite (users_of_some _ _ _ Hg) in Hu. destruct (pk_page _ Hp x g Hg) as (_ & Hb & _).
  destruct (put_users p x g (u32 (m_users g + 1)) Hp Hg) as [H1 H2]; [apply u32_range|]. eexists. split; [unfold add_user, get_pg, put_pg, modify, mbind, SM_bind, sopt; now rewrite Hg|].
  split; [exact H1|]. intros y. rewrite H2, u32_small by lia. destruct (decide (x = y)) as [<-|Hne]; [rewrite Z.eqb_refl, (users_of_some _ _ _ Hg)|rewrite (proj2 (Z.eqb_neq x y) Hne)]; cbn [b2z]; lia.
Qed.
