(* ===== verification/SpaceFault.v ===== *)
(** * Address spaces: page faults

    What [get_page] and [pagefault] do to a space and to the pool of pages it
    shares with the others: the mapping of the faulting page, the copy of a
    private page that others use, the counts of users and the page table. *)

From Stdlib Require Import Sorting.Sorted.
From S2P Require Import Prelude CMem State WordMem Rbtree Phys PhysProps Space SpaceTree SpacePages.

(** ** The invariant of a space and its pool *)

(** The users of a page are the mappings of this space that hold it, and the
    [ext] mappings of others. *)
Record mm_ok (ext : Z -> Z) (s : mm) (xs : list Z) : Prop := {
  mo_space : space_ok (sp s) xs;
  mo_pool : pool_ok (pl s);
  mo_users : users_are (pl s) (fun y => ext y + refs (areas (sp s)) y);
  mo_ext : forall y, 0 <= ext y }.

(** The space with the page [pg] in the mapping [k] of the area [a] at [x]. *)
Definition remap (x : Z) (k : nat) (pg : Z) (a : area) : space -> space :=
  set_areas <[x := set_mappings (<[k := pg]> (mappings a)) a]>.

Ltac run E := rewrite (bind_done _ _ _ _ _ E).

Lemma in_space_done {A} (c : SM space A) s a s' : c (sp s) = Done a s' -> in_space c s = Done a (Mm s' (pl s)).
Proof. unfold in_space. now intros ->. Qed.
Lemma in_pool_done {A} (c : SM pool A) s a p' : c (pl s) = Done a p' -> in_pool c s = Done a (Mm (sp s) p').
Proof. unfold in_pool. now intros ->. Qed.
Lemma get_area_done s x a : areas (sp s) !! x = Some a -> in_space (get_area x) s = Done a s.
Proof. intros H. destruct s as [s p]. apply in_space_done. unfold get_area, sopt. cbn in *. now rewrite H. Qed.
Lemma get_pg_done s x g : pages (pl s) !! x = Some g -> in_pool (get_pg x) s = Done g s.
Proof. intros H. destruct s as [s p]. apply in_pool_done. unfold get_pg, sopt. cbn in *. now rewrite H. Qed.
Lemma the_mapping_done s x a i pg : areas (sp s) !! x = Some a -> mappings a !! Z.to_nat i = Some pg -> the_mapping x i s = Done pg s.
Proof. intros H Hi. unfold the_mapping. run (get_area_done _ _ _ H). now rewrite Hi. Qed.

Lemma ends_before_same ars x a b y z : ars !! x = Some a -> va b = va a -> len b = len a ->
  ends_before ars y z -> ends_before (<[x := b]> ars) y z.
Proof.
  intros Hx Hv Hl (c & d & Hc & Hd & H1 & H2). unfold ends_before.
  destruct (decide (x = y)) as [<-|Hy]; destruct (decide (x = z)) as [<-|Hz]; simplify_eq;
    eexists _, _; rewrite ?lookup_insert_eq, ?lookup_insert_ne by assumption; repeat split; eauto; lia.
Qed.

Lemma sorted_weaken {A} (R R' : A -> A -> Prop) l : (forall x y, R x y -> R' x y) -> StronglySorted R l -> StronglySorted R' l.
Proof. intros H. induction 1 as [|x l _ IH Hx]; constructor; [exact IH|]. eapply Forall_impl; [|exact Hx]. auto. Qed.

Lemma space_remap s xs x k pg a : space_ok s xs -> areas s !! x = Some a -> space_ok (remap x k pg a s) xs.
Proof.
  intros [Ht [R1 R2 R3] Hw Ha Hh] Hx. split; cbn [remap set_areas tree_mem areas heap]; [exact Ht| |exact Hw| |exact Hh].
  - split.
    + intros y b. rewrite lookup_insert_Some. intros [[<- <-]|[_ Hy]]; [|eauto]. specialize (R1 x a Hx). unfold area_ok in *. cbn. now rewrite length_insert.
    + intros y Hy. rewrite lookup_insert_is_Some'. right. now apply R2.
    + eapply sorted_weaken; [|exact R3]. intros y z. now apply (ends_before_same _ _ a).
  - intros y. rewrite lookup_insert_is_Some'. intros [<-|Hy]; [|now apply Ha]. apply Ha. eauto.
Qed.

Lemma refs_remap s x k old pg a y : areas s !! x = Some a -> mappings a !! k = Some old ->
  refs (areas (remap x k pg a s)) y = refs (areas s) y - b2z (old =? y) + b2z (pg =? y).
Proof. intros Hx Hk. cbn [remap set_areas areas]. rewrite (refs_replace _ _ _ _ _ Hx). cbn [set_mappings mappings]. rewrite (occ_insert _ _ _ _ _ Hk). lia. Qed.

(** A mapped page has users. *)
Lemma mapped_users ext s xs x a k pg : mm_ok ext s xs -> areas (sp s) !! x = Some a -> mappings a !! k = Some pg -> pg <> 0 ->
  1 <= users_of (pl s) pg.
Proof.
  intros [_ _ Hu He] Hx Hk Hpg. rewrite Hu by exact Hpg. specialize (He pg). pose proof (refs_in _ _ _ pg Hx).
  pose proof (occ_in pg (mappings a) (list_elem_of_lookup_2 _ _ _ Hk)). lia.
Qed.

Lemma set_page_spec ext s xs x i pg a old : mm_ok ext s xs -> areas (sp s) !! x = Some a -> mappings a !! Z.to_nat i = Some old ->
  pg <> 0 -> is_Some (pages (pl s) !! pg) -> users_of (pl s) pg + 1 < 2 ^ 32 ->
  exists p', set_page x i pg s = Done tt (Mm (remap x (Z.to_nat i) pg a (sp s)) p') /\
    mm_ok ext (Mm (remap x (Z.to_nat i) pg a (sp s)) p') xs /\ pool_step 0 (pl s) p'.
Proof.
  intros Hok Hx Hi Hpg [g Hg] Hu. pose proof Hok as [Hs Hp Hus He].
  assert (exists p1, (if negb (old =? 0) then in_pool (drop_user old) else mret tt) s = Done tt (Mm (sp s) p1) /\
    pool_step 0 (pl s) p1 /\ forall y, y <> 0 -> users_of p1 y = users_of (pl s) y - b2z (old =? y)) as (p1 & E1 & S1 & U1).
  { destruct (Z.eqb_spec old 0) as [->|Hold]; cbn [negb].
    - exists (pl s). split; [now destruct s|]. split; [now apply pool_step_refl|]. intros y Hy. rewrite (proj2 (Z.eqb_neq 0 y)) by auto. cbn. lia.
    - destruct (drop_user_spec _ old Hp (mapped_users _ _ _ _ _ _ _ Hok Hx Hi Hold)) as (p1 & E & S1 & U1). exists p1. split; [now apply in_pool_done|auto]. }
  destruct (proj2 (proj1 (proj2 S1)) pg g Hg) as (g1 & Hg1 & _). destruct (add_user_spec p1 pg (proj1 S1)) as (p2 & E2 & S2 & U2); [eauto| |].
  { rewrite U1 by exact Hpg. destruct (old =? pg); cbn [b2z]; lia. }
  pose proof (pool_step_trans _ _ 0 _ _ _ S1 S2 ltac:(lia)) as S3. exists p2. split; [|split; [|exact S3]].
  - unfold set_page. run (get_area_done _ _ _ Hx). rewrite Hi. run E1. rewrite (proj2 (Z.eqb_neq pg 0) Hpg). cbn [negb].
    run (in_pool_done _ (Mm (sp s) p1) _ _ E2). reflexivity.
  - split; cbn [sp pl]; [now apply space_remap|apply S3| |exact He]. intros y Hy. rewrite U2, U1, Hus, (refs_remap _ _ _ _ _ _ _ Hx Hi) by exact Hy. lia.
Qed.

Lemma remap_id s x k pg a : areas s !! x = Some a -> mappings a !! k = Some pg -> remap x k pg a s = s.
Proof.
  intros Hx Hk. unfold remap, set_areas. rewrite list_insert_id by exact Hk. destruct a. cbn in *. rewrite insert_id by exact Hx. now destruct s.
Qed.

Lemma remap_remap s x k pg pg' a : remap x k pg' (set_mappings (<[k := pg]> (mappings a)) a) (remap x k pg a s) = remap x k pg' a s.
Proof.
  unfold remap, set_areas. cbn [areas tree_mem pt lo hi is_kspace heap mappings set_mappings]. rewrite insert_insert_eq.
  unfold set_mappings. cbn. now rewrite list_insert_insert_eq.
Qed.

Lemma remap_area s x k pg a : areas (remap x k pg a s) !! x = Some (set_mappings (<[k := pg]> (mappings a)) a).
Proof. apply lookup_insert_eq. Qed.

Lemma mm_pool ext s xs n p' : mm_ok ext s xs -> pool_step n (pl s) p' -> (forall y, users_of p' y = users_of (pl s) y) -> mm_ok ext (Mm (sp s) p') xs.
Proof. intros [H1 H2 H3 H4] Hs Hu. split; cbn; [exact H1|apply Hs| |exact H4]. intros y Hy. rewrite Hu. now apply H3. Qed.

(** A page of the pool has the bytes of another. *)
Definition holds_bytes (p : pool) (x : Z) (b : list Z) : Prop := exists g, pages p !! x = Some g /\ contents p !! pa g = Some b.

Lemma holds_kept n p p' x b : pool_step n p p' -> holds_bytes p x b -> holds_bytes p' x b.
Proof. intros (_ & [_ Hk] & _) (g & Hg & Hb). destruct (Hk x g Hg) as (g' & H1 & H2 & H3). exists g'. rewrite H2, H3. auto. Qed.

(** The bytes of a page that was not there in [q] may change. *)
Lemma set_contents_step n q p x g b : pool_step n q p -> pages p !! x = Some g -> pages q !! x = None ->
  let p' := set_contents <[pa g := b]> p in pool_step n q p' /\ (forall y, users_of p' y = users_of p y) /\ holds_bytes p' x b.
Proof.
  intros ([Hph Hpg Hinj Hnx] & [Hk1 Hk2] & Hn) Hx Hq p'. split; [|split; [reflexivity|]].
  - split; [split; cbn [p' set_contents pages next_page phys_mem contents]; [exact Hph| |exact Hinj|exact Hnx]|split; [split; [exact Hk1|]|exact Hn]].
    + intros y h Hy. destruct (Hpg y h Hy) as (H1 & H2 & H3). split; [exact H1|]. split; [exact H2|]. rewrite lookup_insert_is_Some'. auto.
    + intros y h Hy. destruct (Hk2 y h Hy) as (h' & H1 & H2 & H3). exists h'. split; [exact H1|]. split; [exact H2|]. cbn [p' set_contents contents].
      rewrite lookup_insert_ne; [exact H3|]. intros He. rewrite <- H2 in He. pose proof (Hinj _ _ _ _ Hx H1 He). congruence.
  - exists g. split; [exact Hx|]. apply lookup_insert_eq.
Qed.

(** What a file promises of the pages of its object: there is one for each index,
    which the pool has, and that takes at most one page from the allocator. *)
Class Vmobject (get_shared : Z -> Z -> SM pool Z) : Prop :=
  shared_page o i p : pool_ok p -> 32 <= nfree (phys_mem p) ->
    exists pg p', get_shared o i p = Done pg p' /\ pool_step 1 p p' /\ pg <> 0 /\ is_Some (pages p' !! pg) /\
      forall y, users_of p' y = users_of p y.

(** An object that gives a zeroed page for each index. *)
#[export] Instance zero_object : Vmobject (fun _ _ => page_alloc).
Proof.
  intros o i p Hp Hf. destruct (page_alloc_step p Hp Hf) as (p' & g & E & H1 & H2 & H3 & H4 & H5 & H6).
  exists (next_page p), p'. split; [exact E|]. split; [exact H1|]. split; [lia|]. split; [eauto|exact H6].
Qed.

Section faults.
Context (get_shared : Z -> Z -> SM pool Z) `{Vmobject get_shared}.

(** One more user is possible for every page. *)
Definition headroom (p : pool) : Prop := forall y, users_of p y + 1 < 2 ^ 32.

Lemma new_mapping_spec ext s xs x i a p : mm_ok ext s xs -> areas (sp s) !! x = Some a -> mappings a !! Z.to_nat i = Some 0 ->
  32 <= nfree (phys_mem (pl s)) -> headroom (pl s) ->
  exists pg wt nc p', let s' := Mm (remap x (Z.to_nat i) pg a (sp s)) p' in
    new_mapping get_shared x i p s = Done (Pte (ppn p) (if obj a =? 0 then pprot p else Z.land (pprot p) (Z.lnot PROT_WRITE)) wt nc) s' /\
    mm_ok ext s' xs /\ pool_step 1 (pl s) p' /\ pg <> 0 /\ (obj a = 0 -> pages (pl s) !! pg = None /\ holds_bytes p' pg zero_page).
Proof.
  intros Hok Hx Hi Hf Hroom. pose proof (mo_pool _ _ _ Hok) as Hp.
  assert (exists pg p1 pr, (if negb (obj a =? 0) then pg ← in_pool (get_shared (obj a) i);
       if pg =? 0 then sfail else mret (pg, Pte (ppn p) (Z.land (pprot p) (Z.lnot PROT_WRITE)) (writethrough p) (nocache p))
     else pg ← in_pool page_alloc; mret (pg, p)) s = Done (pg, pr) (Mm (sp s) p1) /\ pool_step 1 (pl s) p1 /\ pg <> 0 /\ is_Some (pages p1 !! pg) /\
     (forall y, users_of p1 y = users_of (pl s) y) /\ ppn pr = ppn p /\ pprot pr = (if obj a =? 0 then pprot p else Z.land (pprot p) (Z.lnot PROT_WRITE)) /\
     (obj a = 0 -> pages (pl s) !! pg = None /\ holds_bytes p1 pg zero_page)) as (pg & p1 & pr & E & S1 & Hpg & Hsome & U1 & P1 & P2 & Hz).
  { destruct (Z.eqb_spec (obj a) 0) as [Ho|Ho]; cbn [negb].
    - destruct (page_alloc_step _ Hp Hf) as (p1 & g & E & S1 & H1 & H2 & H3 & H4 & H5). exists (next_page (pl s)), p1, p.
      run (in_pool_done _ _ _ _ E). split; [reflexivity|]. split; [exact S1|]. split; [lia|]. split_and!; eauto. intros _. split; [exact H2|]. exists g. auto.
    - destruct (shared_page (obj a) i _ Hp Hf) as (pg & p1 & E & S1 & H1 & H2 & H3). eexists pg, p1, _.
      run (in_pool_done _ _ _ _ E). rewrite (proj2 (Z.eqb_neq pg 0) H1). split; [reflexivity|]. split; [exact S1|]. split_and!; eauto. contradiction. }
  destruct Hsome as [g Hg]. pose proof (mm_pool _ _ _ _ _ Hok S1 U1) as Hok1.
  destruct (set_page_spec ext (Mm (sp s) p1) xs x i pg a 0 Hok1 Hx Hi Hpg) as (p2 & E2 & Hok2 & S2); [eauto|cbn [pl]; rewrite U1; apply Hroom|].
  exists pg, (fcheck g PG_WRTHRU), (fcheck g PG_NOCACHE), p2. cbn zeta. cbn [sp pl] in *. split; [|split; [exact Hok2|split; [eapply pool_step_trans; eauto; lia|split; [exact Hpg|]]]].
  - unfold new_mapping. run (get_area_done _ _ _ Hx). run E. run (get_pg_done (Mm (sp s) p1) _ _ Hg). run E2. rewrite <- P1, <- P2. reflexivity.
  - intros Ho. destruct (Hz Ho) as [Hn Hb]. split; [exact Hn|]. eapply holds_kept; eauto.
Qed.
End faults.

(** ** Copy on write *)

Lemma users_none p x : pages p !! x = None -> users_of p x = 0.
Proof. unfold users_of. now intros ->. Qed.

(** The page that is written has one user, this mapping, and the bytes of the page
    that was there. *)
Lemma copy_on_write_spec ext s xs x i a old : mm_ok ext s xs -> areas (sp s) !! x = Some a -> mappings a !! Z.to_nat i = Some old -> old <> 0 ->
  32 <= nfree (phys_mem (pl s)) ->
  exists np p', let s' := Mm (remap x (Z.to_nat i) np a (sp s)) p' in
    copy_on_write x i s = Done tt s' /\ mm_ok ext s' xs /\ pool_step 1 (pl s) p' /\ np <> 0 /\ users_of p' np = 1 /\
    (np = old \/ pages (pl s) !! np = None) /\ forall b, holds_bytes (pl s) old b -> holds_bytes p' np b.
Proof.
  intros Hok Hx Hi Hold Hf. pose proof (mo_pool _ _ _ Hok) as Hp. pose proof (mapped_users _ _ _ _ _ _ _ Hok Hx Hi Hold) as Hu.
  destruct (users_of_page _ _ Hu) as (g & Hg & Hm). destruct (pk_page _ Hp old g Hg) as (_ & _ & [b Hb]).
  unfold copy_on_write. cbn zeta. destruct ((1 <? m_users g) || negb (fd a =? 0)) eqn:Ec.
  - destruct (page_alloc_step _ Hp Hf) as (p1 & n & E & S1 & H1 & H2 & H3 & _ & H5).
    destruct (set_contents_step _ _ _ _ _ b S1 H3 H2) as (S2 & U2 & HB). set (p2 := set_contents <[pa n := b]> p1) in *.
    assert (Hu2 : forall y, users_of p2 y = users_of (pl s) y) by (intros y; now rewrite U2).
    pose proof (mm_pool _ _ _ _ _ Hok S2 Hu2) as Hok2. set (np := next_page (pl s)) in *.
    destruct (set_page_spec ext (Mm (sp s) p2) xs x i np a old Hok2 Hx Hi) as (p3 & E3 & Hok3 & S3); [lia|exists n; exact H3|cbn [pl]; rewrite Hu2, users_none by exact H2; lia|].
    cbn [sp pl] in *. pose proof (proj1 (proj2 S1)) as [_ K1]. destruct (K1 old g Hg) as (g1 & G1 & G2 & G3).
    exists np, p3. split; [|split; [exact Hok3|split; [eapply pool_step_trans; eauto; lia|split; [lia|]]]].
    + run (get_area_done _ _ _ Hx). run (the_mapping_done _ _ _ _ _ Hx Hi). run (get_pg_done _ _ _ Hg). rewrite Ec.
      run (in_pool_done _ _ _ _ E). cbn [sp pl]. run (get_pg_done (Mm (sp s) p1) _ _ H3).
      assert (Eb : in_pool (sopt (fun p => contents p !! pa g)) (Mm (sp s) p1) = Done b (Mm (sp s) p1)) by (apply (in_pool_done _ (Mm (sp s) p1)); unfold sopt; cbn [pl]; now rewrite G3, Hb).
      run Eb. run (in_pool_done (modify (set_contents <[pa n := b]>)) (Mm (sp s) p1) tt p2 eq_refl). exact E3.
    + split; [|split; [auto|]].
      * rewrite (mo_users _ _ _ Hok3) by lia. cbn [sp]. rewrite (refs_remap _ _ _ _ _ _ _ Hx Hi). pose proof (mo_users _ _ _ Hok np ltac:(lia)) as Hn0.
        rewrite users_none in Hn0 by exact H2. rewrite Z.eqb_refl. assert (old <> np) by congruence. rewrite (proj2 (Z.eqb_neq old np)) by assumption. cbn [b2z]. lia.
      * intros b' (g' & Hg' & Hb'). eapply holds_kept; [exact S3|]. simplify_eq. exact HB.
  - apply orb_false_iff in Ec as [Ec Ef]. apply Z.ltb_ge in Ec. exists old, (pl s). rewrite (remap_id _ _ _ _ _ Hx Hi). destruct s as [s p]. cbn [sp pl] in *.
    split; [|split; [exact Hok|split; [|split; [exact Hold|split; [lia|auto]]]]].
    + run (get_area_done (Mm s p) _ _ Hx). run (the_mapping_done (Mm s p) _ _ _ _ Hx Hi). run (get_pg_done (Mm s p) _ _ Hg). now rewrite (proj2 (Z.ltb_ge _ _) Ec), Ef.
    + split; [exact Hp|]. split; [apply pages_kept_refl|lia].
Qed.

(** ** A page of an area *)

Lemma fset_spec p x f : pool_ok p -> is_Some (pages p !! x) -> 0 <= f < 4096 ->
  exists p', fset x f p = Done tt p' /\ pool_step 0 p p' /\ forall y, users_of p' y = users_of p y.
Proof.
  intros Hp [g Hg] Hf. set (g' := Page (Z.lor (m_paf g) f) (m_users g)).
  assert (Hpa : pa g' = pa g).
  { unfold pa, g'. cbn [m_paf]. rewrite Z.land_lor_distr_l. rewrite (page_floor f) by lia. rewrite Z.div_small by lia. now rewrite Z.lor_0_r. }
  destruct (put_pg_ok p x g g' Hp Hg Hpa) as [H1 H2]; [apply (pk_page _ Hp x g Hg)|]. exists (set_pages <[x := g']> p).
  split; [unfold fset, get_pg, put_pg, modify, mbind, SM_bind, sopt; now rewrite Hg|]. split; [split; [exact H1|split; [exact H2|cbn; lia]]|].
  intros y. unfold users_of. cbn [set_pages pages]. destruct (decide (x = y)) as [<-|Hne]; [now rewrite lookup_insert_eq, Hg|now rewrite lookup_insert_ne].
Qed.

Lemma page_index a v : area_ok a -> va a <= v < va a + len a ->
  u64 (Z.shiftr v 12 - Z.shiftr (va a) 12) = (v - va a) / 4096 /\ 0 <= (v - va a) / 4096 < Z.of_nat (length (mappings a)) /\
  u64 (va a + Z.shiftl ((v - va a) / 4096) 12) = 4096 * (v / 4096).
Proof.
  intros (H1 & H2 & H3 & H4) Hv. rewrite !Z.shiftr_div_pow2, Z.shiftl_mul_pow2 by lia. change (2 ^ 12) with 4096.
  assert (Hk : v / 4096 - va a / 4096 = (v - va a) / 4096) by (Z.div_mod_to_equations; lia).
  assert (0 <= (v - va a) / 4096 < Z.of_nat (length (mappings a))) by (Z.div_mod_to_equations; lia).
  split; [rewrite Hk; apply u64_small; lia|]. split; [assumption|]. rewrite u64_small; Z.div_mod_to_equations; lia.
Qed.

(** The bytes that the page [cur] of an area shows: those of the page, or zeros
    when the area has neither a page there nor an object. *)
Definition shows (p : pool) (a : area) (cur : Z) (b : list Z) : Prop :=
  if cur =? 0 then obj a = 0 /\ b = zero_page else holds_bytes p cur b.

Definition writes (err : Z) (a : area) : bool := has err FAULT_WRITE && has (prot a) PROT_WRITE.
(** The rights of the page table entry. *)
Definition entry_prot (err : Z) (a : area) (cur : Z) : Z :=
  let base := if negb (cur =? 0) || (obj a =? 0) then prot a else Z.land (prot a) (Z.lnot PROT_WRITE) in
  if writes err a then Z.lor base PROT_WRITE else base.

(** The page that is found or made is in the mapping [k], shows what the area
    showed, and is not shared after a write to a private area. *)
Record paged (ext : Z -> Z) (s : mm) (xs : list Z) (x : Z) (k : nat) (a : area) (cur : Z) (n : Z) (pg : Z) (p' : pool) : Prop := {
  pd_ok : mm_ok ext (Mm (remap x k pg a (sp s)) p') xs;
  pd_step : pool_step n (pl s) p';
  pd_page : pg <> 0;
  pd_from : pg = cur \/ pages (pl s) !! pg = None \/ (cur = 0 /\ obj a <> 0);
  pd_bytes : forall b, shows (pl s) a cur b -> holds_bytes p' pg b }.

(** The page in a mapping is a page of the pool. *)
Lemma mapped_page ext s xs x a k pg : mm_ok ext s xs -> areas (sp s) !! x = Some a -> mappings a !! k = Some pg -> pg <> 0 ->
  is_Some (pages (pl s) !! pg).
Proof. intros Hok Hx Hk Hpg. destruct (users_of_page _ _ (mapped_users _ _ _ _ _ _ _ Hok Hx Hk Hpg)) as (g & Hg & _). eauto. Qed.

Section internal.
Context (get_shared : Z -> Z -> SM pool Z) `{Vmobject get_shared} (ext : Z -> Z) (s : mm) (xs : list Z) (x i : Z) (a : area) (cur : Z).
Hypothesis Hok : mm_ok ext s xs.
Hypothesis Hx : areas (sp s) !! x = Some a.
Hypothesis Hi : mappings a !! Z.to_nat i = Some cur.

(** A missing page is made. *)
Lemma fill_spec p : pprot p = prot a -> 32 <= nfree (phys_mem (pl s)) -> headroom (pl s) ->
  exists pg wt nc p', (if cur =? 0 then new_mapping get_shared x i p else mret p) s =
      Done (Pte (ppn p) (entry_prot 0 a cur) wt nc) (Mm (remap x (Z.to_nat i) pg a (sp s)) p') /\
    paged ext s xs x (Z.to_nat i) a cur 1 pg p' /\ (cur <> 0 -> pg = cur).
Proof.
  intros Hpr Hf Hroom. destruct (Z.eqb_spec cur 0) as [Hc|Hc].
  - rewrite Hc in Hi. destruct (new_mapping_spec get_shared ext s xs x i a p Hok Hx Hi Hf Hroom) as (pg & wt & nc & p' & E & H1 & H2 & H3 & H4).
    exists pg, wt, nc, p'. cbn zeta in *. rewrite E, Hpr. unfold entry_prot. rewrite Hc. cbn [negb Z.eqb orb writes]. split; [reflexivity|]. split; [|congruence].
    split; [exact H1|exact H2|exact H3| |].
    + destruct (Z.eqb_spec (obj a) 0) as [Ho|Ho]; [right; left; now apply H4|auto].
    + intros b [Ho ->]. now apply H4.
  - exists cur, (writethrough p), (nocache p), (pl s). rewrite (remap_id _ _ _ _ _ Hx Hi). destruct p as [pp q wt nc]. cbn in Hpr |- *. subst q.
    unfold entry_prot. rewrite (proj2 (Z.eqb_neq cur 0) Hc). cbn [negb orb writes]. split; [now destruct s|]. split; [|reflexivity].
    split; [rewrite (remap_id _ _ _ _ _ Hx Hi); now destruct s| |exact Hc|auto|].
    + split; [apply Hok|]. split; [apply pages_kept_refl|lia].
    + intros b. unfold shows. now rewrite (proj2 (Z.eqb_neq cur 0) Hc).
Qed.

(** The page of a write: dirty in a shared area, copied in a private one. *)
Lemma write_spec p : cur <> 0 -> 32 <= nfree (phys_mem (pl s)) ->
  exists pg p', ((if has (flags a) MAP_SHARED then pg ← the_mapping x i; in_pool (fset pg PG_DIRTY) else mret tt : MM unit);;
      (if has (flags a) MAP_PRIVATE then copy_on_write x i else mret tt : MM unit);; mret p : MM pte) s = Done p (Mm (remap x (Z.to_nat i) pg a (sp s)) p') /\
    paged ext s xs x (Z.to_nat i) a cur 1 pg p' /\ (has (flags a) MAP_PRIVATE = true -> users_of p' pg = 1).
Proof.
  intros Hc Hf. pose proof (mapped_page _ _ _ _ _ _ _ Hok Hx Hi Hc) as Hsome.
  assert (exists p1, (if has (flags a) MAP_SHARED then pg ← the_mapping x i; in_pool (fset pg PG_DIRTY) else mret tt : MM unit) s = Done tt (Mm (sp s) p1) /\
    pool_step 0 (pl s) p1 /\ forall y, users_of p1 y = users_of (pl s) y) as (p1 & E1 & S1 & U1).
  { destruct (has (flags a) MAP_SHARED); [|exists (pl s); split; [now destruct s|split; [apply pool_step_refl, Hok|reflexivity]]].
    destruct (fset_spec (pl s) cur PG_DIRTY (mo_pool _ _ _ Hok) Hsome) as (p1 & E & S1 & U1); [unfold PG_DIRTY; lia|]. exists p1.
    run (the_mapping_done _ _ _ _ _ Hx Hi). split; [now apply in_pool_done|auto]. }
  pose proof (mm_pool _ _ _ _ _ Hok S1 U1) as Hok1. run E1. assert (Hsh : forall b, shows (pl s) a cur b -> holds_bytes p1 cur b).
  { intros b. unfold shows. rewrite (proj2 (Z.eqb_neq cur 0) Hc). now apply (holds_kept 0). }
  destruct (has (flags a) MAP_PRIVATE).
  - destruct (copy_on_write_spec ext (Mm (sp s) p1) xs x i a cur Hok1 Hx Hi Hc) as (np & p2 & E2 & Hok2 & S2 & H1 & H2 & H3 & H4); [destruct S1 as (_ & _ & ?); cbn [pl]; lia|].
    cbn [sp pl] in *. exists np, p2. run E2. split; [reflexivity|]. split; [|auto]. split; [exact Hok2|eapply pool_step_trans; eauto; lia|exact H1| |auto].
    destruct H3 as [->|H3]; [auto|]. right; left. destruct (pages (pl s) !! np) as [g|] eqn:Eg; [|reflexivity].
    destruct (proj2 (proj1 (proj2 S1)) np g Eg) as (g' & ? & _). congruence.
  - exists cur, p1. rewrite (remap_id _ _ _ _ _ Hx Hi). split; [reflexivity|]. split; [|discriminate].
    split; [now rewrite (remap_id _ _ _ _ _ Hx Hi)|eapply pool_step_trans; [exact S1|apply pool_step_refl, S1|lia]|exact Hc|auto|exact Hsh].
Qed.
End internal.

Lemma paged_trans ext s xs x k a cur n pg p1 m pg2 p2 : paged ext s xs x k a cur n pg p1 ->
  paged ext (Mm (remap x k pg a (sp s)) p1) xs x k (set_mappings (<[k := pg]> (mappings a)) a) pg m pg2 p2 ->
  paged ext s xs x k a cur (n + m) pg2 p2.
Proof.
  intros [A1 A2 A3 A4 A5] [B1 B2 B3 B4 B5]. cbn [sp pl] in *. rewrite remap_remap in B1. split; [exact B1|eapply pool_step_trans; eauto; lia|exact B3| |].
  - destruct B4 as [->|[B4|[B4 _]]]; [exact A4| |contradiction]. right; left. destruct (pages (pl s) !! pg2) as [g|] eqn:Eg; [|reflexivity].
    destruct (proj2 (proj1 (proj2 A2)) pg2 g Eg) as (g' & ? & _). congruence.
  - intros b Hb. apply B5. unfold shows. rewrite (proj2 (Z.eqb_neq pg 0) A3). auto.
Qed.

(** The page table entry of a fault. *)
Definition mapped_at (v : Z) (e : pte) (do_map : bool) (s : space) : space := if do_map then set_pt <[v := e]> s else s.

Section get_page.
Context (get_shared : Z -> Z -> SM pool Z) `{Vmobject get_shared} (ext : Z -> Z) (s : mm) (xs : list Z) (x v : Z) (a : area) (cur : Z).
Hypothesis Hok : mm_ok ext s xs.
Hypothesis Hx : areas (sp s) !! x = Some a.
Hypothesis Hv : va a <= v < va a + len a.
Let k : nat := Z.to_nat ((v - va a) / 4096).
Hypothesis Hi : mappings a !! k = Some cur.
Hypothesis Hfree : 33 <= nfree (phys_mem (pl s)).
Hypothesis Hroom : headroom (pl s).

Lemma get_page_internal_spec err do_map :
  exists pg g wt nc p', get_page_internal get_shared v x err do_map s =
      Done pg (Mm (mapped_at (4096 * (v / 4096)) (Pte (Z.shiftr (pa g) 12) (entry_prot err a cur) wt nc) do_map (remap x k pg a (sp s))) p') /\
    paged ext s xs x k a cur 2 pg p' /\ pages p' !! pg = Some g /\
    (writes err a = true -> has (flags a) MAP_PRIVATE = true -> users_of p' pg = 1) /\
    (writes err a = false -> cur <> 0 -> pg = cur).
Proof.
  pose proof (ro_ok _ _ (so_regions _ _ (mo_space _ _ _ Hok)) x a Hx) as Ha. destruct (page_index a v Ha Hv) as (I1 & I2 & I3).
  destruct (fill_spec get_shared ext s xs x ((v - va a) / 4096) a cur Hok Hx Hi (Pte 0 (prot a) false false) eq_refl ltac:(lia) Hroom)
    as (pg1 & wt & nc & p1 & E1 & G1 & K1). fold k in E1, G1. cbn [ppn] in E1.
  set (a1 := set_mappings (<[k := pg1]> (mappings a)) a). set (s1 := Mm (remap x k pg1 a (sp s)) p1).
  assert (Hx1 : areas (sp s1) !! x = Some a1) by apply remap_area.
  assert (Hi1 : mappings a1 !! k = Some pg1) by (apply list_lookup_insert_eq, lookup_lt_is_Some_1; eauto).
  assert (exists pg p', (if writes err a then
       (if has (flags a) MAP_SHARED then pg ← the_mapping x ((v - va a) / 4096); in_pool (fset pg PG_DIRTY) else mret tt : MM unit);;
       (if has (flags a) MAP_PRIVATE then copy_on_write x ((v - va a) / 4096) else mret tt : MM unit);;
       mret (Pte 0 (Z.lor (entry_prot 0 a cur) PROT_WRITE) wt nc)
     else mret (Pte 0 (entry_prot 0 a cur) wt nc) : MM pte) s1 = Done (Pte 0 (entry_prot err a cur) wt nc) (Mm (remap x k pg a (sp s)) p') /\
     paged ext s xs x k a cur 2 pg p' /\ (writes err a = true -> has (flags a) MAP_PRIVATE = true -> users_of p' pg = 1) /\
     (writes err a = false -> pg = pg1)) as (pg & p' & E2 & G2 & U2 & K2).
  { destruct (writes err a) eqn:Ew.
    - destruct (write_spec ext s1 xs x ((v - va a) / 4096) a1 pg1 (pd_ok _ _ _ _ _ _ _ _ _ _ G1) Hx1 Hi1
        (Pte 0 (entry_prot err a cur) wt nc) (pd_page _ _ _ _ _ _ _ _ _ _ G1)) as (pg & p' & E & G & U); [destruct G1 as [_ (_ & _ & ?)]; cbn [s1 pl]; lia|].
      exists pg, p'. fold k in E, G. unfold s1 in E at 2. cbn [sp] in E. unfold a1 in E at 3. rewrite remap_remap in E.
      split; [unfold entry_prot in *; rewrite Ew in *; exact E|]. split; [now apply (paged_trans _ _ _ _ _ _ _ 1 _ _ 1 _ _ G1)|]. split; [auto|discriminate].
    - exists pg1, p1. split; [unfold entry_prot; now rewrite Ew|]. split; [|split; [discriminate|reflexivity]].
      destruct G1 as [? ? ? ? ?]. split; try assumption. eapply pool_step_trans; [eassumption|apply pool_step_refl, pd_step0|lia]. }
  destruct G2 as [O2 S2 N2 F2 B2]. set (a2 := set_mappings (<[k := pg]> (mappings a)) a).
  assert (Hx2 : areas (remap x k pg a (sp s)) !! x = Some a2) by apply remap_area.
  assert (Hi2 : mappings a2 !! k = Some pg) by (apply list_lookup_insert_eq, lookup_lt_is_Some_1; eauto).
  destruct (mapped_page _ _ _ _ _ _ _ O2 Hx2 Hi2 N2) as [g Hg]. exists pg, g, wt, nc, p'. split; [|split; [now split|]].
  - unfold get_page_internal. run (get_area_done _ _ _ Hx). rewrite I1. run (the_mapping_done _ _ _ ((v - va a) / 4096) _ Hx Hi). run E1. unfold writes in E2. run E2.
    destruct do_map; cbn [mapped_at]; [|eapply the_mapping_done; [exact Hx2|exact Hi2]].
    match goal with |- (?c ≫= _) ?t = _ => assert (Em : c t = Done tt (Mm (set_pt <[4096 * (v / 4096) := Pte (Z.shiftr (pa g) 12) (entry_prot err a cur) wt nc]> (sp t)) p')) end.
    { run (the_mapping_done (Mm (remap x k pg a (sp s)) p') x a2 ((v - va a) / 4096) pg Hx2 Hi2). run (get_pg_done (Mm (remap x k pg a (sp s)) p') _ _ Hg). now rewrite I3. }
    run Em. eapply the_mapping_done; [exact Hx2|exact Hi2].
  - split; [exact Hg|]. split; [exact U2|]. intros Hw Hc. rewrite K2 by exact Hw. auto.
Qed.
End get_page.
