(* ===== verification/SpaceOps.v ===== *)
(** * Address spaces: faults, [mmap], [unmap] and [fork]

    Each operation of [mm::space] on a well-formed space and pool: what it
    returns, the regions, the page table and the users of pages afterwards. *)

From Stdlib Require Import Sorting.Sorted.
From S2P Require Import Prelude CMem State WordMem Rbtree RbtreeSpec RbtreeProps Phys PhysProps Space SpaceTree SpacePages SpaceFault.

Lemma region_nonzero s xs x : space_ok s xs -> x ∈ xs -> x <> 0.
Proof.
  intros [(t & [_ Hok] & _ & <-) _ _ _ _] Hx. rewrite Forall_forall in Hok. specialize (Hok x (proj1 (list_elem_of_In _ _) Hx)).
  unfold addr_ok in Hok. lia.
Qed.

(** ** Faults *)

(** The rights that a fault asks for and the area does not give. *)
Definition denied (err : Z) (a : area) : bool :=
  (has err FAULT_WRITE && negb (has (prot a) PROT_WRITE)) || (has err FAULT_READ && negb (has (prot a) PROT_READ)) ||
  (has err FAULT_EXEC && negb (has (prot a) PROT_EXEC)).

Section faults.
Context (get_shared : Z -> Z -> SM pool Z) `{Vmobject get_shared} (ext : Z -> Z) (s : mm) (xs : list Z) (v : Z).
Hypothesis Hok : mm_ok ext s xs.
Hypothesis Hfree : 33 <= nfree (phys_mem (pl s)).
Hypothesis Hroom : headroom (pl s).

(** The page index of [v] in the area [a]. *)
Definition page_of (a : area) : nat := Z.to_nat ((v - va a) / 4096).

Lemma page_of_lookup x a : areas (sp s) !! x = Some a -> va a <= v < va a + len a -> exists cur, mappings a !! page_of a = Some cur.
Proof.
  intros Hx Hv. apply lookup_lt_is_Some_2. pose proof (ro_ok _ _ (so_regions _ _ (mo_space _ _ _ Hok)) x a Hx) as Ha.
  destruct (page_index a v Ha Hv) as (_ & I2 & _). unfold page_of. lia.
Qed.

(** The outcome of a fault or of [get_page] in the area [a] at [x]. *)
Record faulted (x : Z) (a : area) (err : Z) (do_map : bool) (cur pg : Z) (s' : mm) : Prop := {
  ft_ok : mm_ok ext s' xs;
  ft_cur : mappings a !! page_of a = Some cur;
  ft_space : exists g wt nc, pages (pl s') !! pg = Some g /\
    sp s' = mapped_at (4096 * (v / 4096)) (Pte (Z.shiftr (pa g) 12) (entry_prot err a cur) wt nc) do_map (remap x (page_of a) pg a (sp s));
  ft_pool : pool_step 2 (pl s) (pl s');
  ft_page : pg <> 0;
  ft_from : pg = cur \/ pages (pl s) !! pg = None \/ (cur = 0 /\ obj a <> 0);
  ft_bytes : forall b, shows (pl s) a cur b -> holds_bytes (pl s') pg b;
  ft_private : writes err a = true -> has (flags a) MAP_PRIVATE = true -> users_of (pl s') pg = 1;
  ft_read : writes err a = false -> cur <> 0 -> pg = cur }.

Lemma mm_mapped_at w e do_map t p : mm_ok ext (Mm t p) xs -> mm_ok ext (Mm (mapped_at w e do_map t) p) xs.
Proof. destruct do_map; [|auto]. intros [[H1 H2 H3 H4 H5] H6 H7 H8]. split; cbn in *; try assumption. split; assumption. Qed.

Lemma internal_run x a err do_map : areas (sp s) !! x = Some a -> va a <= v < va a + len a ->
  exists cur pg s', get_page_internal get_shared v x err do_map s = Done pg s' /\ faulted x a err do_map cur pg s'.
Proof.
  intros Hx Hv. destruct (page_of_lookup x a Hx Hv) as [cur Hc].
  destruct (get_page_internal_spec get_shared ext s xs x v a cur Hok Hx Hv Hc Hfree Hroom err do_map) as (pg & g & wt & nc & p' & E & [P1 P2 P3 P4 P5] & Hg & U & K).
  eexists cur, pg, _. split; [exact E|]. split; cbn [sp pl]; try assumption; [now apply mm_mapped_at|]. exists g, wt, nc. auto.
Qed.

Lemma lookup_run : exists x, in_space (lookup v) s = Done x s /\ found (areas (sp s)) xs v x.
Proof. destruct (lookup_spec (sp s) xs v (mo_space _ _ _ Hok)) as (x & E & Hf). exists x. split; [|exact Hf]. destruct s. now apply in_space_done. Qed.

(** [pagefault] on every branch. *)
Lemma pagefault_run err :
  (pagefault get_shared v err s = Done (-1) s /\ forall x, x ∈ xs -> ~ contains (areas (sp s)) v x) \/
  exists x a, x ∈ xs /\ areas (sp s) !! x = Some a /\ va a <= v < va a + len a /\
    if denied err a then pagefault get_shared v err s = Done 0 s
    else exists cur pg s', pagefault get_shared v err s = Done 0 s' /\ faulted x a err true cur pg s'.
Proof.
  destruct lookup_run as (x & E & [[Hx (a & Ha & Hv)]|[-> Hn]]); [|left; split; [unfold pagefault; now run E|exact Hn]].
  right. exists x, a. split; [exact Hx|]. split; [exact Ha|]. split; [exact Hv|].
  pose proof (region_nonzero _ _ _ (mo_space _ _ _ Hok) Hx) as H0. unfold pagefault. rewrite (bind_done _ _ _ _ _ E), (proj2 (Z.eqb_neq x 0) H0).
  rewrite (bind_done _ _ _ _ _ (get_area_done _ _ _ Ha)). fold (denied err a). destruct (denied err a); cbn [Z.eqb]; [reflexivity|].
  destruct (internal_run x a err true Ha Hv) as (cur & pg & s' & E' & F). exists cur, pg, s'. split; [|exact F]. run E'.
  now rewrite (proj2 (Z.eqb_neq pg 0) (ft_page _ _ _ _ _ _ _ F)).
Qed.

Lemma get_page_run :
  (get_page get_shared v s = Done 0 s /\ forall x, x ∈ xs -> ~ contains (areas (sp s)) v x) \/
  exists x a cur pg s', x ∈ xs /\ areas (sp s) !! x = Some a /\ va a <= v < va a + len a /\
    get_page get_shared v s = Done pg s' /\ faulted x a 0 false cur pg s'.
Proof.
  destruct lookup_run as (x & E & [[Hx (a & Ha & Hv)]|[-> Hn]]); [|left; split; [unfold get_page; now run E|exact Hn]].
  right. destruct (internal_run x a 0 false Ha Hv) as (cur & pg & s' & E' & F). exists x, a, cur, pg, s'. split; [exact Hx|]. split; [exact Ha|]. split; [exact Hv|].
  split; [|exact F]. unfold get_page. rewrite (bind_done _ _ _ _ _ E), (proj2 (Z.eqb_neq x 0) (region_nonzero _ _ _ (mo_space _ _ _ Hok) Hx)). exact E'.
Qed.
End faults.

(** ** [mmap] *)

Lemma refs_null ars h n a y : ars !! h = None -> mappings a = replicate n 0 -> y <> 0 -> refs (<[h := a]> ars) y = refs ars y.
Proof. intros Hh Ha Hy. rewrite refs_new by exact Hh. now rewrite Ha, occ_replicate0. Qed.

(** A new region without pages. *)
Lemma mm_new_region ext s xs a n : mm_ok ext s xs -> area_ok a -> mappings a = replicate n 0 -> heap (sp s) + 24 <= 2 ^ 64 -> clear_of (areas (sp s)) xs a ->
  exists s' l1 l2, in_space (new_region a) s = Done true (Mm s' (pl s)) /\ xs = l1 ++ l2 /\ mm_ok ext (Mm s' (pl s)) (l1 ++ heap (sp s) :: l2) /\
    same_rest (sp s) s' /\ areas s' = <[heap (sp s) := a]> (areas (sp s)) /\ heap s' = heap (sp s) + 24.
Proof.
  intros [Hs Hp Hu He] Ha Hn Hh Hc. destruct (new_region_spec _ _ _ Hs Ha Hh) as (s' & H1 & H2 & H3 & H4 & _). destruct (H4 Hc) as (l1 & l2 & E & Hx & Hs').
  exists s', l1, l2. split; [now apply in_space_done|]. split; [exact Hx|]. split; [|auto]. split; cbn [sp pl]; try assumption.
  intros y Hy. rewrite Hu by exact Hy. rewrite H2, (refs_null _ _ n); [reflexivity| |exact Hn|exact Hy].
  destruct (areas (sp s) !! heap (sp s)) eqn:Ex; [|reflexivity]. pose proof (so_areas _ _ Hs (heap (sp s)) ltac:(eauto)). lia.
Qed.

Lemma new_region_bind {B} a (s : mm) b s' (f : MM B) : in_space (new_region a) s = Done b s' -> (x ← in_space (new_area a); in_space (add_region x);; f) s = f s'.
Proof.
  unfold in_space, new_region, mbind, SM_bind. destruct (new_area a (sp s)) as [x t| |]; try discriminate. cbn [sp pl].
  destruct (add_region x t) as [b' t'| |]; try discriminate. now intros [= <- <-].
Qed.

(** The whole pages of a size. *)
Lemma round_up_pages size : 0 < size < 2 ^ 62 ->
  let n := round_up size / 4096 in round_up size = 4096 * n /\ 0 < n < 2 ^ 51 /\ u64 (n * 4096) = 4096 * n /\ size <= 4096 * n < size + 4096.
Proof.
  intros Hs n. unfold n. rewrite round_up_spec by lia. rewrite (Z.mul_comm 4096), Z.div_mul by lia.
  assert (size <= 4096 * ((size + 4095) / 4096) < size + 4096) by (Z.div_mod_to_equations; lia). split; [lia|]. split; [Z.div_mod_to_equations; lia|].
  split; [rewrite u64_small|]; lia.
Qed.

(** The area that [mmap] makes at [v]. *)
Definition fresh_area (v size prot_ flags_ fd_ fobj off_ : Z) : area :=
  let n := round_up size / 4096 in Area v (4096 * n) off_ prot_ flags_ fd_ (if fd_ =? 0 then 0 else fobj) (replicate (Z.to_nat n) 0).

(** Where there is place for [size] bytes: at an address that is given, or below
    all regions, where the search for a hole ends at the latest. *)
Definition place_for (s : space) (xs : list Z) (addr size : Z) : Prop :=
  if addr =? 0 then hi s < 2 ^ 63 /\ hi s mod 4096 = 0 /\ round_up size <= hi s /\ forall x a, x ∈ xs -> areas s !! x = Some a -> round_up size <= va a
  else 0 <= addr /\ addr + round_up size < 2 ^ 63 /\
    forall x b, x ∈ xs -> areas s !! x = Some b -> va b <> addr /\ (addr + round_up size <= va b \/ va b + len b <= addr).

Section mmap.
Context (ext : Z -> Z) (s : mm) (xs : list Z) (addr size prot_ flags_ fd_ fobj off_ : Z).
Hypothesis Hok : mm_ok ext s xs.
Hypothesis Hsize : 0 < size < 2 ^ 62.

Lemma place_run : place_for (sp s) xs addr size -> has addr 4095 = false ->
  exists v, (if addr =? 0 then in_space (find_hole (round_up size)) else mret addr : MM Z) s = Done v s /\ (addr <> 0 -> v = addr) /\
    area_ok (fresh_area v size prot_ flags_ fd_ fobj off_) /\ clear_of (areas (sp s)) xs (fresh_area v size prot_ flags_ fd_ fobj off_).
Proof.
  intros Hp Hal. destruct (round_up_pages size Hsize) as (N1 & N2 & _ & _). unfold place_for in Hp. unfold area_ok, clear_of, fresh_area. cbn [va len mappings].
  rewrite length_replicate, Z2Nat.id by lia. rewrite <- N1. destruct (Z.eqb_spec addr 0) as [Ha|Ha].
  - destruct Hp as (H1 & H2 & H3 & H4). destruct (find_hole_spec _ _ (round_up size) (mo_space _ _ _ Hok) ltac:(lia) H1) as (v & E & V1 & V2 & V3 & V4);
      [rewrite N1, Z.mul_comm; now apply Z.mod_mul|exact H2|exact H4|]. exists v. split; [destruct s; now apply in_space_done|]. split; [contradiction|]. split; [lia|].
    intros x b Hx Hb. rewrite Forall_forall in V4. destruct (V4 x (proj1 (list_elem_of_In _ _) Hx)) as (b' & Hb' & Hh). rewrite Hb in Hb'. injection Hb' as <-.
    pose proof (ro_ok _ _ (so_regions _ _ (mo_space _ _ _ Hok)) _ _ Hb) as (B1 & B2 & B3 & B4). lia.
  - exists addr. split; [reflexivity|]. split; [auto|]. destruct Hp as (H1 & H2 & H3). unfold has in Hal. apply negb_false_iff, Z.eqb_eq in Hal.
    change 4095 with (Z.ones 12) in Hal. rewrite Z.land_ones in Hal by lia. change (2 ^ 12) with 4096 in Hal. split; [|exact H3]. lia.
Qed.

Lemma mmap_run : place_for (sp s) xs addr size -> heap (sp s) + 24 <= 2 ^ 64 -> has addr 4095 = false -> has flags_ (Z.lor MAP_PRIVATE MAP_SHARED) = true ->
  (fd_ = 0 \/ fobj <> 0) ->
  exists v s' p' l1 l2, let a := fresh_area v size prot_ flags_ fd_ fobj off_ in
    mmap addr size prot_ flags_ fd_ fobj off_ s = Done v (Mm s' p') /\ (addr <> 0 -> v = addr) /\ area_ok a /\ clear_of (areas (sp s)) xs a /\
    xs = l1 ++ l2 /\ mm_ok ext (Mm s' p') (l1 ++ heap (sp s) :: l2) /\ areas s' = <[heap (sp s) := a]> (areas (sp s)) /\
    same_rest (sp s) s' /\ heap s' = heap (sp s) + 24 /\ pool_step 0 (pl s) p' /\ pages p' = pages (pl s).
Proof.
  intros Hp Hh Hal Hfl Hfd. destruct (place_run Hp Hal) as (v & E & Hv & Ha & Hc). destruct (round_up_pages size Hsize) as (_ & _ & N3 & _).
  unfold mmap. rewrite Hal, Hfl. cbn [negb]. run E. replace (negb (fd_ =? 0) && (fobj =? 0)) with false by (destruct Hfd; zbool; lia).
  assert (exists p', (if negb (fd_ =? 0) then in_pool (acquire fobj) else mret tt : MM unit) s = Done tt (Mm (sp s) p') /\ pool_step 0 (pl s) p' /\ pages p' = pages (pl s))
    as (p' & E2 & S2 & P2).
  { pose proof (pool_step_refl _ (mo_pool _ _ _ Hok)) as Hs. destruct (negb (fd_ =? 0)); [|exists (pl s); split; [now destruct s|auto]]. eexists. split; [reflexivity|].
    split; [|reflexivity]. destruct Hs as ([? ? ? ?] & ? & ?). split; [split; assumption|]. split; assumption. }
  run E2. assert (Hok2 : mm_ok ext (Mm (sp s) p') xs) by (apply (mm_pool _ _ _ _ _ Hok S2); intros y; unfold users_of; now rewrite P2).
  destruct (mm_new_region ext (Mm (sp s) p') xs _ _ Hok2 Ha eq_refl Hh Hc) as (s' & l1 & l2 & E3 & Hx & Hok3 & R1 & R2 & R3). cbn [sp pl] in *.
  exists v, s', p', l1, l2. rewrite N3. split; [exact (new_region_bind _ _ _ _ _ E3)|]. auto 20.
Qed.

(** The refusals, which change nothing. *)
Lemma mmap_refused : has addr 4095 = true \/ has flags_ (Z.lor MAP_PRIVATE MAP_SHARED) = false -> mmap addr size prot_ flags_ fd_ fobj off_ s = Done (u64 (-1)) s.
Proof. unfold mmap. destruct (has addr 4095); [reflexivity|]. intros [|Hf]; [discriminate|]. now rewrite Hf. Qed.
End mmap.

(** ** [unmap] *)

(** The page table without the entries of the pages [l] from [v] on. *)
Fixpoint cleared (v : Z) (l : list Z) (m : gmap Z pte) : gmap Z pte :=
  match l with [] => m | pg :: l => cleared (v + 4096) l (if pg =? 0 then m else delete v m) end.

Lemma cleared_some l : forall v m w e, cleared v l m !! w = Some e <->
  m !! w = Some e /\ ~ exists k pg, l !! k = Some pg /\ pg <> 0 /\ w = v + 4096 * Z.of_nat k.
Proof.
  induction l as [|pg l IH]; intros v m w e; cbn [cleared].
  - split; [intros H; split; [exact H|]|tauto]. intros (k & pg & H1 & _). now rewrite lookup_nil in H1.
  - rewrite IH. assert (Hm : (if pg =? 0 then m else delete v m) !! w = Some e <-> m !! w = Some e /\ ~ (pg <> 0 /\ w = v)).
    { destruct (Z.eqb_spec pg 0) as [->|Hp]; [tauto|]. rewrite lookup_delete_Some. intuition congruence. }
    rewrite Hm. split.
    + intros [[H1 H2] H3]. split; [exact H1|]. intros ([|k] & pg' & K1 & K2 & K3); cbn in K1; [injection K1 as ->; apply H2; split; [exact K2|lia]|].
      apply H3. exists k, pg'. split_and!; [exact K1|exact K2|lia].
    + intros [H1 H2]. split; [split; [exact H1|]|].
      * intros [K1 K2]. apply H2. exists 0%nat, pg. cbn. split_and!; [reflexivity|exact K1|lia].
      * intros (k & pg' & K1 & K2 & K3). apply H2. exists (S k), pg'. cbn. split_and!; [exact K1|exact K2|lia].
Qed.

Lemma del_mappings_run l : forall v s, 0 <= v -> v + 4096 * Z.of_nat (length l) < 2 ^ 64 -> del_mappings v l s = Done tt (set_pt (cleared v l) s).
Proof.
  induction l as [|pg l IH]; intros v s Hv Hl; cbn [del_mappings]; [now destruct s|]. cbn [length] in Hl. rewrite u64_small by lia.
  destruct (Z.eqb_spec pg 0) as [->|Hp]; cbn [negb].
  - rewrite (bind_done (mret tt) _ s tt s eq_refl). rewrite IH by lia. reflexivity.
  - rewrite (bind_done (modify (set_pt (delete v))) _ s tt _ eq_refl). rewrite IH by lia. unfold set_pt. cbn. now rewrite (proj2 (Z.eqb_neq pg 0) Hp).
Qed.

Lemma space_set_pt s xs f : space_ok s xs -> space_ok (set_pt f s) xs.
Proof. intros [H1 H2 H3 H4 H5]. split; assumption. Qed.

Lemma unmap_refused v n s : has v 4095 = true -> unmap v n s = Done (-1) s.
Proof. intros H. unfold unmap. now rewrite H. Qed.

(** The region that has [v] goes, with the page table entries from [v] on; the
    area and its pages stay. *)
Lemma unmap_run s xs v n : space_ok s xs -> has v 4095 = false ->
  (unmap v n s = Done (- ESRCH) s /\ forall x, x ∈ xs -> ~ contains (areas s) v x) \/
  exists l1 x l2 a s', xs = l1 ++ x :: l2 /\ areas s !! x = Some a /\ va a <= v < va a + len a /\ unmap v n s = Done 0 s' /\
    space_ok s' (l1 ++ l2) /\ areas s' = areas s /\ pt s' = cleared v (mappings a) (pt s) /\ hi s' = hi s /\ heap s' = heap s.
Proof.
  intros Hs Hal. destruct (lookup_spec s xs v Hs) as (x & E & [[Hx (a & Ha & Hv)]|[-> Hn]]);
    [|left; split; [unfold unmap; rewrite Hal; now run E|exact Hn]].
  right. pose proof (region_nonzero _ _ _ Hs Hx) as H0. apply list_elem_of_split in Hx as (l1 & l2 & ->). destruct (erase_region_spec _ _ _ _ Hs) as (m & E2 & Hs2).
  pose proof (ro_ok _ _ (so_regions _ _ Hs) _ _ Ha) as (A1 & A2 & A3 & A4). exists l1, x, l2, a, (set_pt (cleared v (mappings a)) (set_tree_mem m s)).
  split; [reflexivity|]. split; [exact Ha|]. split; [exact Hv|]. split; [|split; [now apply space_set_pt|auto]].
  unfold unmap. rewrite Hal. run E. rewrite (proj2 (Z.eqb_neq x 0) H0). run E2.
  rewrite (bind_done (get_area x) _ (set_tree_mem m s) a (set_tree_mem m s)) by (unfold get_area, sopt; cbn [set_tree_mem areas]; now rewrite Ha).
  now run (del_mappings_run (mappings a) v (set_tree_mem m s) ltac:(lia) ltac:(lia)).
Qed.
