(* ===== verification/SpaceFork.v ===== *)
(** * Address spaces: [fork]

    The new space has the regions of the old one with the same pages, every
    mapped page has one user more for each mapping, and the page tables of both
    have the pages without the right to write. *)

From Stdlib Require Import Sorting.Sorted.
From S2P Require Import Prelude CMem State WordMem Rbtree RbtreeSpec RbtreeProps Phys PhysProps Space SpaceTree SpacePages SpaceFault SpaceOps.

(** ** Entries without the right to write *)

(** The entry of a page of the area at [x], for reading. *)
Definition ro_entry (p : pool) (ars : gmap Z area) (x w : Z) (e : pte) : Prop :=
  exists a k pg g, ars !! x = Some a /\ mappings a !! k = Some pg /\ pg <> 0 /\ pages p !! pg = Some g /\ w = va a + 4096 * Z.of_nat k /\
    e = Pte (Z.shiftr (pa g) 12) (Z.land (prot a) (Z.lnot PROT_WRITE)) false false.

(** Two pages of regions at one address are the same. *)
Lemma same_page ars xs x y a b k j w : regions_ok ars xs -> x ∈ xs -> y ∈ xs -> ars !! x = Some a -> ars !! y = Some b ->
  (k < length (mappings a))%nat -> (j < length (mappings b))%nat -> w = va a + 4096 * Z.of_nat k -> w = va b + 4096 * Z.of_nat j -> x = y /\ k = j.
Proof.
  intros Hr Hx Hy Ha Hb Hk Hj -> Hw. pose proof (ro_ok _ _ Hr _ _ Ha) as (_ & _ & A3 & _). pose proof (ro_ok _ _ Hr _ _ Hb) as (_ & _ & B3 & _).
  assert (Ca : contains ars (va a + 4096 * Z.of_nat k) x) by (exists a; split; [exact Ha|lia]).
  assert (Cb : contains ars (va a + 4096 * Z.of_nat k) y) by (exists b; split; [exact Hb|lia]).
  assert (x = y) as <-.
  { destruct (decide (y = 0)) as [Hy0|Hy0]; [destruct (decide (x = 0)) as [Hx0|Hx0]; [congruence|symmetry]|];
      (eapply found_unique; [exact Hr| |eassumption| |]; [left; split; eassumption|assumption|assumption]). }
  split; [reflexivity|]. simplify_eq. lia.
Qed.

Lemma ro_entry_fun p ars xs x y w e e' : regions_ok ars xs -> x ∈ xs -> y ∈ xs -> ro_entry p ars x w e -> ro_entry p ars y w e' -> e = e'.
Proof.
  intros Hr Hx Hy (a & k & pg & g & H1 & H2 & H3 & H4 & H5 & ->) (b & j & pg' & g' & K1 & K2 & K3 & K4 & K5 & ->).
  destruct (same_page _ _ _ _ _ _ _ _ _ Hr Hx Hy H1 K1 (lookup_lt_Some _ _ _ H2) (lookup_lt_Some _ _ _ K2) H5 K5) as [<- <-]. now simplify_eq.
Qed.

Lemma ro_entry_kept p p' ars x w e : pages_kept p p' -> ro_entry p ars x w e -> ro_entry p' ars x w e.
Proof.
  intros [_ Hk] (a & k & pg & g & H1 & H2 & H3 & H4 & H5 & ->). destruct (Hk pg g H4) as (g' & K1 & K2 & _).
  exists a, k, pg, g'. rewrite K2. auto 10.
Qed.

(** ** One area *)

(** The mapped pages are pages of the pool. *)
Definition mapped_in (p : pool) (l : list Z) : Prop := forall pg, pg ∈ l -> pg <> 0 -> is_Some (pages p !! pg).

Lemma add_users_run l : forall p, pool_ok p -> mapped_in p l -> (forall y, y <> 0 -> users_of p y + occ y l < 2 ^ 32) ->
  exists p', add_users l p = Done tt p' /\ pool_step 0 p p' /\ forall y, y <> 0 -> users_of p' y = users_of p y + occ y l.
Proof.
  induction l as [|pg l IH]; intros p Hp Hm Hu; cbn [add_users].
  - exists p. split; [reflexivity|]. split; [now apply pool_step_refl|]. intros y _. cbn. lia.
  - assert (exists p1, (if negb (pg =? 0) then add_user pg else mret tt) p = Done tt p1 /\ pool_step 0 p p1 /\
      forall y, y <> 0 -> users_of p1 y = users_of p y + b2z (pg =? y)) as (p1 & E1 & S1 & U1).
    { destruct (Z.eqb_spec pg 0) as [->|Hpg]; cbn [negb].
      - exists p. split; [reflexivity|]. split; [now apply pool_step_refl|]. intros y Hy. rewrite (proj2 (Z.eqb_neq 0 y)) by auto. cbn. lia.
      - destruct (add_user_spec p pg Hp) as (p1 & E & S1 & U1); [apply Hm; [apply elem_of_cons; auto|exact Hpg]| |exists p1; auto].
        specialize (Hu pg Hpg). cbn [occ] in Hu. rewrite Z.eqb_refl in Hu. cbn [b2z] in Hu. pose proof (occ_nonneg pg l). lia. }
    destruct (IH p1) as (p2 & E2 & S2 & U2); [apply S1| | |].
    + intros y Hy Hy0. destruct (Hm y ltac:(apply elem_of_cons; auto) Hy0) as [g Hg]. destruct (proj2 (proj1 (proj2 S1)) y g Hg) as (g' & ? & _). eauto.
    + intros y Hy. rewrite U1 by exact Hy. specialize (Hu y Hy). cbn [occ] in Hu. lia.
    + exists p2. run E1. split; [exact E2|]. split; [eapply pool_step_trans; eauto; lia|]. intros y Hy. rewrite U2, U1 by exact Hy. cbn [occ]. lia.
Qed.

(** The entries that [share_ptes] makes. *)
Definition ro_pte (p : pool) (v pr pg : Z) : gmap Z pte :=
  match pages p !! pg with
  | Some g => if pg =? 0 then ∅ else {[v := Pte (Z.shiftr (pa g) 12) (Z.land pr (Z.lnot PROT_WRITE)) false false]}
  | None => ∅
  end.
Fixpoint ro_ptes (p : pool) (v pr : Z) (l : list Z) : gmap Z pte :=
  match l with [] => ∅ | pg :: l => ro_ptes p (v + 4096) pr l ∪ ro_pte p v pr pg end.

Lemma ro_pte_some p v pr pg w e : ro_pte p v pr pg !! w = Some e <->
  exists g, pg <> 0 /\ pages p !! pg = Some g /\ w = v /\ e = Pte (Z.shiftr (pa g) 12) (Z.land pr (Z.lnot PROT_WRITE)) false false.
Proof.
  unfold ro_pte. destruct (pages p !! pg) as [g|]; [|rewrite lookup_empty; split; [discriminate|intros (? & _ & ? & _); discriminate]].
  destruct (Z.eqb_spec pg 0) as [->|Hp]; [rewrite lookup_empty; split; [discriminate|intros (? & ? & _); contradiction]|].
  rewrite lookup_singleton_Some. split; [intros [<- <-]; eauto|intros (g' & _ & [= <-] & -> & ->); auto].
Qed.

Lemma ro_ptes_some p pr w l : forall v e, ro_ptes p v pr l !! w = Some e <->
  exists k pg g, l !! k = Some pg /\ pg <> 0 /\ pages p !! pg = Some g /\ w = v + 4096 * Z.of_nat k /\
    e = Pte (Z.shiftr (pa g) 12) (Z.land pr (Z.lnot PROT_WRITE)) false false.
Proof.
  induction l as [|pg l IH]; intros v e; cbn [ro_ptes].
  - split; [intros H; now rewrite lookup_empty in H|]. intros (k & pg & g & H & _). now rewrite lookup_nil in H.
  - rewrite lookup_union_Some_raw, IH, ro_pte_some. split.
    + intros [(k & pg' & g & H1 & H2 & H3 & -> & ->)|[_ (g & H2 & H3 & -> & ->)]]; [exists (S k), pg', g|exists 0%nat, pg, g]; cbn; split_and!; auto; lia.
    + intros ([|k] & pg' & g & H1 & H2 & H3 & Hw & ->); cbn in H1; [|left; exists k, pg', g; split_and!; auto; lia]. injection H1 as <-. right. split; [|exists g; split_and!; auto; lia].
      destruct (ro_ptes p (v + 4096) pr l !! w) eqn:Ew; [|reflexivity]. apply IH in Ew as (k & ? & ? & _ & _ & _ & ? & _). lia.
Qed.

Lemma share_ptes_run pr l : forall v n s, mapped_in (pl s) l -> 0 <= v -> v + 4096 * Z.of_nat (length l) < 2 ^ 64 ->
  share_ptes v pr l n s = Done (set_pt (union (ro_ptes (pl s) v pr l)) n) (Mm (set_pt (union (ro_ptes (pl s) v pr l)) (sp s)) (pl s)).
Proof.
  induction l as [|pg l IH]; intros v n s Hm Hv Hl; cbn [share_ptes ro_ptes].
  - unfold set_pt. rewrite !map_empty_union. destruct n, s as [[] p]. reflexivity.
  - cbn [length] in Hl. rewrite u64_small by lia.
    assert (Hm' : mapped_in (pl s) l) by (intros y Hy; apply Hm, elem_of_cons; auto).
    destruct (Z.eqb_spec pg 0) as [->|Hp]; cbn [negb].
    + rewrite (bind_done (mret n) _ s n s eq_refl). rewrite IH by (auto; lia). replace (ro_pte (pl s) v pr 0) with (∅ : gmap Z pte) by (unfold ro_pte; now destruct (pages (pl s) !! 0)). now rewrite map_union_empty.
    + destruct (Hm pg ltac:(apply elem_of_cons; auto) Hp) as [g Hg]. set (e := Pte (Z.shiftr (pa g) 12) (Z.land pr (Z.lnot PROT_WRITE)) false false).
      match goal with |- (?c ≫= _) _ = _ => assert (E : c s = Done (set_pt <[v := e]> n) (Mm (set_pt <[v := e]> (sp s)) (pl s))) by (now run (get_pg_done _ _ _ Hg)) end.
      run E. rewrite IH by (auto; lia). unfold set_pt, ro_pte. rewrite Hg, (proj2 (Z.eqb_neq pg 0) Hp). cbn [tree_mem areas pt lo hi is_kspace heap sp pl]. now rewrite <- !map_union_assoc, <- !insert_union_singleton_l.
Qed.

(** ** The loop over the regions *)

(** How often the regions [l] map the page [y]. *)
Fixpoint occs (ars : gmap Z area) (l : list Z) (y : Z) : Z :=
  match l with [] => 0 | x :: l => from_option (fun a => occ y (mappings a)) 0 (ars !! x) + occs ars l y end.

Lemma occs_snoc ars l x y : occs ars (l ++ [x]) y = occs ars l y + from_option (fun a => occ y (mappings a)) 0 (ars !! x).
Proof. induction l as [|z l IH]; cbn [app occs]; lia. Qed.

Lemma occs_delete ars x l y : x ∉ l -> occs (delete x ars) l y = occs ars l y.
Proof.
  induction l as [|z l IH]; intros Hx; cbn [occs]; [reflexivity|]. apply not_elem_of_cons in Hx as [Hz Hl].
  rewrite IH by exact Hl. now rewrite lookup_delete_ne by exact Hz.
Qed.

Lemma occs_le l y : forall ars, NoDup l -> occs ars l y <= refs ars y.
Proof.
  induction l as [|x l IH]; intros ars Hn; cbn [occs]; [apply refs_nonneg|]. apply list.NoDup_cons in Hn as [Hx Hl].
  specialize (IH (delete x ars) Hl). rewrite occs_delete in IH by exact Hx. destruct (ars !! x) as [a|] eqn:Ea; cbn [from_option].
  - rewrite (refs_delete _ _ _ _ Ea). lia.
  - rewrite delete_id in IH by exact Ea. lia.
Qed.

Lemma regions_nodup ars xs : regions_ok ars xs -> NoDup xs.
Proof.
  intros [_ _ Hs]. induction Hs as [|x l Hl IH Hx]; constructor; [|exact IH]. rewrite Forall_forall in Hx. intros H%list_elem_of_In.
  destruct (Hx x H) as (a & b & Ha & Hb & _ & Hlt). simplify_eq. lia.
Qed.

(** A page table has the entries of the regions [l], and others only of [P]. *)
Definition has_ro (p : pool) (ars : gmap Z area) (l : list Z) (m : gmap Z pte) : Prop :=
  forall x w e, x ∈ l -> ro_entry p ars x w e -> m !! w = Some e.
Definition only_ro (p : pool) (ars : gmap Z area) (l : list Z) (m : gmap Z pte) (P : Z -> pte -> Prop) : Prop :=
  forall w e, m !! w = Some e -> (exists x, x ∈ l /\ ro_entry p ars x w e) \/ P w e.

Lemma has_ro_union p ars xs l x m E : regions_ok ars xs -> x ∈ xs -> (forall z, z ∈ l -> z ∈ xs) -> (forall w e, E !! w = Some e <-> ro_entry p ars x w e) ->
  has_ro p ars l m -> has_ro p ars (l ++ [x]) (E ∪ m).
Proof.
  intros Hr Hx Hin HE Hm z w e Hz He. apply lookup_union_Some_raw. apply elem_of_app in Hz as [Hz| ->%list_elem_of_singleton]; [|left; now apply HE].
  destruct (E !! w) as [e'|] eqn:Ew; [left|right; split; [reflexivity|eauto]]. apply HE in Ew. f_equal. eapply ro_entry_fun; [exact Hr|exact Hx|apply Hin, Hz|exact Ew|exact He].
Qed.

Lemma only_ro_union p ars l x m E P : (forall w e, E !! w = Some e <-> ro_entry p ars x w e) -> only_ro p ars l m P -> only_ro p ars (l ++ [x]) (E ∪ m) P.
Proof.
  intros HE Hm w e. rewrite lookup_union_Some_raw. intros [He|[_ He]].
  - left. exists x. split; [apply elem_of_app; right; now apply list_elem_of_singleton|now apply HE].
  - destruct (Hm w e He) as [(z & Hz & Hz')|?]; [left; exists z; split; [apply elem_of_app; auto|exact Hz']|auto].
Qed.

Record forking (ext : Z -> Z) (s0 : mm) (l1 : list Z) (s : mm) (n : space) (ys : list Z) : Prop := {
  fk_sp : sp s = set_pt (fun _ => pt (sp s)) (sp s0);
  fk_pool : pool_step 0 (pl s0) (pl s);
  fk_users : users_are (pl s) (fun y => ext y + refs (areas (sp s0)) y + occs (areas (sp s0)) l1 y);
  fk_new : space_ok n ys;
  fk_copies : Forall2 (fun x y => areas n !! y = areas (sp s0) !! x) l1 ys;
  fk_refs : forall y, refs (areas n) y = occs (areas (sp s0)) l1 y;
  fk_heap : heap n = 16 + 24 * Z.of_nat (length ys) /\ lo n = lo (sp s0) /\ hi n = hi (sp s0) /\ is_kspace n = false;
  fk_mine : has_ro (pl s0) (areas (sp s0)) l1 (pt (sp s));
  fk_old : only_ro (pl s0) (areas (sp s0)) l1 (pt (sp s)) (fun w e => pt (sp s0) !! w = Some e);
  fk_child : has_ro (pl s0) (areas (sp s0)) l1 (pt n);
  fk_fresh : only_ro (pl s0) (areas (sp s0)) l1 (pt n) (fun _ _ => False) }.

(** The copy of a region is the last one of the new space. *)
Lemma last_region n ys a : space_ok n ys -> area_ok a -> heap n + 24 <= 2 ^ 64 ->
  (forall y b, y ∈ ys -> areas n !! y = Some b -> va b + len b <= va a /\ va b < va a) ->
  exists n', new_region a n = Done true n' /\ space_ok n' (ys ++ [heap n]) /\ areas n' = <[heap n := a]> (areas n) /\ same_rest n n' /\ heap n' = heap n + 24.
Proof.
  intros Hn Ha Hh Hlast. destruct (new_region_spec n ys a Hn Ha Hh) as (n' & H1 & H2 & H3 & H4 & _). destruct H4 as (k1 & k2 & E & -> & Hn').
  { intros y b Hy Hb. specialize (Hlast y b Hy Hb). lia. }
  assert (k2 = []) as ->.
  { destruct k2 as [|z k2]; [reflexivity|exfalso]. pose proof (ro_sorted _ _ (so_regions _ _ Hn')) as Hs. apply sorted_split in Hs as [_ Hs].
    apply Forall_inv in Hs as (a' & b & Ha' & Hb & _ & Hlt). rewrite H2 in Ha', Hb. rewrite lookup_insert_eq in Ha'. injection Ha' as <-.
    destruct (ro_in _ _ (so_regions _ _ Hn) z) as [b' Hb']; [apply elem_of_app; right; apply elem_of_cons; auto|].
    pose proof (so_areas _ _ Hn z ltac:(eauto)) as Hz. rewrite lookup_insert_ne in Hb by lia. rewrite Hb in Hb'. injection Hb' as <-.
    specialize (Hlast z b ltac:(apply elem_of_app; right; apply elem_of_cons; auto) Hb). lia. }
  rewrite app_nil_r in *. exists n'. auto.
Qed.

Lemma seq_done {S A B C} (c : SM S A) (d : SM S B) (f : SM S C) s b s' : (c;; d) s = Done b s' -> (c;; d;; f) s = f s'.
Proof. unfold mbind, SM_bind. destruct (c s); try discriminate. now intros ->. Qed.

Lemma new_space_ok l h : space_ok (new_space l h) [].
Proof.
  split; cbn [new_space tree_mem areas heap]; [| | | |zlia].
  - exists E. split; [|split; [exists 0%nat; constructor|reflexivity]]. split; [|constructor].
    split; [cbn; apply list.NoDup_singleton|]. intros a v Hin. apply list_elem_of_singleton in Hin as [= -> ->]. apply lookup_singleton_eq.
  - split; [intros x a Hx; now rewrite lookup_empty in Hx|now intros x Hx%elem_of_nil|constructor].
  - intros a [v [<- _]%lookup_singleton_Some]. unfold regions. lia.
  - intros x Hx. rewrite lookup_empty in Hx. now destruct Hx.
Qed.

Section fork.
Context (ext : Z -> Z) (s0 : mm) (xs : list Z).
Hypothesis Hok : mm_ok ext s0 xs.
Hypothesis Hroom : forall y, y <> 0 -> users_of (pl s0) y + refs (areas (sp s0)) y < 2 ^ 32.
Hypothesis Hnum : 16 + 24 * Z.of_nat (length xs) <= 2 ^ 64.

Lemma area_mapped x a : areas (sp s0) !! x = Some a -> mapped_in (pl s0) (mappings a).
Proof. intros Ha pg Hin Hp. apply list_elem_of_lookup in Hin as [k Hk]. eapply mapped_page; eauto. Qed.

Lemma ro_ptes_entry p x a w e : areas (sp s0) !! x = Some a -> pages_kept (pl s0) p ->
  ro_ptes p (va a) (prot a) (mappings a) !! w = Some e <-> ro_entry (pl s0) (areas (sp s0)) x w e.
Proof.
  intros Ha Hk. rewrite ro_ptes_some. split.
  - intros (k & pg & g & H1 & H2 & H3 & H4 & ->). destruct (area_mapped x a Ha pg) as [g0 Hg0]; [eapply list_elem_of_lookup_2; eauto|exact H2|].
    destruct (proj2 Hk pg g0 Hg0) as (g' & K1 & K2 & _). exists a, k, pg, g0. assert (g' = g) as -> by congruence. rewrite <- K2. auto 10.
  - intros (a' & k & pg & g & H0 & H1 & H2 & H3 & H4 & ->). assert (a' = a) as -> by congruence. destruct (proj2 Hk pg g H3) as (g' & K1 & K2 & _).
    exists k, pg, g'. rewrite K2. auto 10.
Qed.

(** The users that a region adds fit. *)
Lemma users_fit l1 x l2 a y : xs = l1 ++ x :: l2 -> areas (sp s0) !! x = Some a -> y <> 0 ->
  ext y + refs (areas (sp s0)) y + occs (areas (sp s0)) l1 y + occ y (mappings a) < 2 ^ 32.
Proof.
  intros Hxs Ha Hy. pose proof (regions_nodup _ _ (so_regions _ _ (mo_space _ _ _ Hok))) as Hn. rewrite Hxs in Hn.
  change (x :: l2) with ([x] ++ l2) in Hn. rewrite app_assoc in Hn. apply list.NoDup_app in Hn as [Hn _].
  pose proof (occs_le _ y (areas (sp s0)) Hn) as Hle. rewrite occs_snoc, Ha in Hle. cbn [from_option] in Hle.
  specialize (Hroom y Hy). rewrite (mo_users _ _ _ Hok y Hy) in Hroom. lia.
Qed.

Lemma on_region a n b n' s : new_region a n = Done b n' ->
  ('(y, n) ← on n (new_area a); '(_, n) ← on n (add_region y); mret n : MM space) s = Done n' s.
Proof.
  unfold new_region, on, mbind, SM_bind. destruct (new_area a n) as [x t| |]; try discriminate.
  destruct (add_region x t) as [b' t'| |]; try discriminate. now intros [= <- <-].
Qed.

(** The users of the mappings of the region and the owners of its object. *)
Lemma count_run l1 x l2 a s n ys : forking ext s0 l1 s n ys -> xs = l1 ++ x :: l2 -> areas (sp s0) !! x = Some a ->
  exists p', ((if negb (obj a =? 0) then in_pool (acquire (obj a)) else mret tt : MM unit);; in_pool (add_users (mappings a)) : MM unit) s = Done tt (Mm (sp s) p') /\
    pool_step 0 (pl s0) p' /\ users_are p' (fun y => ext y + refs (areas (sp s0)) y + occs (areas (sp s0)) (l1 ++ [x]) y).
Proof.
  intros F Hxs Ha. pose proof (fk_pool _ _ _ _ _ _ F) as S0.
  assert (exists p1, (if negb (obj a =? 0) then in_pool (acquire (obj a)) else mret tt : MM unit) s = Done tt (Mm (sp s) p1) /\ pool_step 0 (pl s) p1 /\
    forall y, users_of p1 y = users_of (pl s) y) as (p1 & E1 & S1 & U1).
  { pose proof (pool_step_refl _ (proj1 S0)) as Hs. destruct (negb (obj a =? 0)); [|exists (pl s); split; [now destruct s|auto]]. eexists. split; [reflexivity|].
    split; [|reflexivity]. destruct Hs as ([? ? ? ?] & ? & ?). split; [split; assumption|]. split; assumption. }
  pose proof (pool_step_trans _ _ 0 _ _ _ S0 S1 ltac:(lia)) as S2.
  assert (U2 : users_are p1 (fun y => ext y + refs (areas (sp s0)) y + occs (areas (sp s0)) l1 y)) by (intros y Hy; rewrite U1; now apply F).
  destruct (add_users_run (mappings a) p1) as (p2 & E2 & S3 & U3); [apply S1| | |].
  - intros pg Hin Hp. destruct (area_mapped x a Ha pg Hin Hp) as [g Hg]. destruct (proj2 (proj1 (proj2 S2)) pg g Hg) as (g' & ? & _). eauto.
  - intros y Hy. rewrite U2 by exact Hy. now apply (users_fit l1 x l2).
  - exists p2. run E1. split; [now apply (in_pool_done _ (Mm (sp s) p1))|]. split; [eapply pool_step_trans; eauto; lia|].
    intros y Hy. rewrite U3, U2, occs_snoc, Ha by exact Hy. cbn [from_option]. lia.
Qed.

Lemma whole_area x a : areas (sp s0) !! x = Some a -> take (Z.to_nat (round_up (len a) / 4096)) (mappings a) = mappings a.
Proof.
  intros Ha. pose proof (ro_ok _ _ (so_regions _ _ (mo_space _ _ _ Hok)) _ _ Ha) as (A1 & A2 & A3 & A4). rewrite round_up_spec by lia.
  rewrite Z.mul_comm, Z.div_mul by lia. apply take_ge. rewrite A3. Z.div_mod_to_equations; lia.
Qed.

Lemma fork_area_run l1 x l2 a s n ys : forking ext s0 l1 s n ys -> xs = l1 ++ x :: l2 -> areas (sp s0) !! x = Some a ->
  exists n' s', fork_area x n s = Done n' s' /\ forking ext s0 (l1 ++ [x]) s' n' (ys ++ [heap n]).
Proof.
  intros F Hxs Ha. pose proof (mo_space _ _ _ Hok) as Hs0. pose proof (so_regions _ _ Hs0) as Hr. pose proof (ro_ok _ _ Hr _ _ Ha) as Haok.
  pose proof Haok as (A1 & A2 & A3 & A4). destruct (count_run l1 x l2 a s n ys F Hxs Ha) as (p' & E1 & S1 & U1). destruct F as [F1 F2 F3 F4 F5 F6 F7 F8 F9 F10 F11].
  assert (Ha' : areas (sp s) !! x = Some a) by (rewrite F1; exact Ha).
  set (E := ro_ptes p' (va a) (prot a) (mappings a)). pose proof (fun w e => ro_ptes_entry p' x a w e Ha (proj1 (proj2 S1))) as HE. fold E in HE.
  assert (E2 : share_ptes (va a) (prot a) (take (Z.to_nat (round_up (len a) / 4096)) (mappings a)) n (Mm (sp s) p') =
    Done (set_pt (union E) n) (Mm (set_pt (union E) (sp s)) p')).
  { rewrite (whole_area x a Ha). apply (share_ptes_run _ _ (va a) n (Mm (sp s) p')); [|lia..]. intros pg Hin Hp. destruct (area_mapped x a Ha pg Hin Hp) as [g Hg].
    destruct (proj2 (proj1 (proj2 S1)) pg g Hg) as (g' & ? & _). eauto. }
  pose proof (Forall2_length F5) as Hlen. assert (Hl : (S (length l1) <= length xs)%nat) by (rewrite Hxs, length_app; cbn [length]; lia).
  destruct (last_region (set_pt (union E) n) ys a) as (n' & E3 & N1 & N2 & (N3 & N4 & N5 & N6) & N7); [now apply space_set_pt|exact Haok|cbn [set_pt heap]; lia| |].
  { intros y b Hy Hb. cbn [set_pt areas] in Hb. apply list_elem_of_lookup in Hy as [k Hk]. destruct (Forall2_lookup_r _ _ _ _ _ F5 Hk) as (z & Hz & Heq).
    rewrite Heq in Hb. pose proof (ro_sorted _ _ Hr) as Hsort. rewrite Hxs in Hsort. apply sorted_split in Hsort as [Hsort _]. rewrite Forall_forall in Hsort.
    destruct (Hsort z) as (b' & a' & K1 & K2 & K3 & K4); [apply list_elem_of_In; eapply list_elem_of_lookup_2; eauto|]. simplify_eq. lia. }
  cbn [set_pt areas heap pt lo hi is_kspace] in *. exists n', (Mm (set_pt (union E) (sp s)) p'). split.
  - unfold fork_area. run (get_area_done _ _ _ Ha').
    rewrite (seq_done _ _ _ _ _ _ E1). run E2. destruct a. exact (on_region _ _ _ _ _ E3).
  - assert (Hin : forall z, z ∈ l1 -> z ∈ xs) by (intros z Hz; rewrite Hxs; apply elem_of_app; auto). assert (Hxin : x ∈ xs) by (rewrite Hxs; apply elem_of_app; right; apply elem_of_cons; auto).
    assert (Hfresh : areas n !! heap n = None) by (destruct (areas n !! heap n) eqn:Ef; [pose proof (so_areas _ _ F4 (heap n) ltac:(eauto)); lia|reflexivity]).
    split; cbn [sp pl]; [|exact S1|exact U1|exact N1| | | | | | |].
    + rewrite F1. reflexivity.
    + apply Forall2_app.
      * apply Forall2_same_length_lookup_2; [exact Hlen|]. intros k z y Hz Hy. destruct (Forall2_lookup_lr _ _ _ _ _ _ F5 Hz Hy). rewrite N2.
        apply lookup_insert_ne. intros He. destruct (ro_in _ _ (so_regions _ _ F4) y) as [b Hb]; [eapply list_elem_of_lookup_2; eauto|]. congruence.
      * constructor; [|constructor]. rewrite N2, lookup_insert_eq. now symmetry.
    + intros y. rewrite N2, refs_new by exact Hfresh. rewrite occs_snoc, Ha, F6. cbn [from_option]. lia.
    + rewrite length_app. cbn [length]. split; [lia|]. rewrite N4, N5, N6. apply F7.
    + now apply (has_ro_union _ _ xs).
    + now apply only_ro_union.
    + rewrite N3. now apply (has_ro_union _ _ xs).
    + rewrite N3. now apply only_ro_union.
Qed.

Lemma fork_loop fuel : forall l1 l2 s n ys, xs = l1 ++ l2 -> (length l2 < fuel)%nat -> forking ext s0 l1 s n ys ->
  exists n' s' ys', sloop fuel (fun '(node, n) =>
    if node =? 0 then mret (Break n)
    else
      n ← fork_area node n;
      node ← in_space (in_tree (rb_next node));
      mret (Next (node, n))) (default 0 (head l2), n) s = Done n' s' /\ forking ext s0 xs s' n' ys'.
Proof.
  induction fuel as [|fuel IH]; intros l1 l2 s n ys Hxs Hf F; [lia|]. cbn [sloop]. destruct l2 as [|x l2].
  - rewrite app_nil_r in Hxs. subst l1. exists n, s, ys. auto.
  - cbn [head default from_option id]. pose proof (mo_space _ _ _ Hok) as Hs0. assert (Hx : x ∈ xs) by (rewrite Hxs; apply elem_of_app; right; apply elem_of_cons; auto).
    destruct (ro_in _ _ (so_regions _ _ Hs0) x Hx) as [a Ha]. destruct (fork_area_run l1 x l2 a s n ys F Hxs Ha) as (n1 & s1 & E1 & F1).
    destruct (so_tree _ _ Hs0) as (t & Hm & _ & Ht). rewrite <- Ht in Hxs. pose proof (rb_next_run _ _ _ _ _ _ Hm Hxs) as E2.
    assert (E3 : in_space (in_tree (rb_next x)) s1 = Done (default 0 (head l2)) s1).
    { destruct s1 as [t1 p1]. apply in_space_done. apply in_tree_reading. cbn [sp]. pose proof (fk_sp _ _ _ _ _ _ F1) as Hsp. cbn [sp] in Hsp. rewrite Hsp. exact E2. }
    match goal with |- context [(?c ≫= _) s = _] => assert (E : c s = Done (Next (default 0 (head l2), n1)) s1) end.
    { rewrite (proj2 (Z.eqb_neq x 0) (region_nonzero _ _ _ Hs0 Hx)). run E1. now run E3. }
    run E. rewrite Ht in Hxs. apply (IH (l1 ++ [x]) l2 _ _ (ys ++ [heap n])); [now rewrite Hxs, <- app_assoc|cbn [length] in Hf; lia|exact F1].
Qed.

Lemma fork_run : exists n s' ys, fork s0 = Done n s' /\ forking ext s0 xs s' n ys.
Proof.
  destruct (so_tree _ _ (mo_space _ _ _ Hok)) as (t & Hm & _ & Ht).
  destruct (fork_loop (fuel_of (tree_mem (sp s0))) [] xs s0 (new_space (lo (sp s0)) (hi (sp s0))) []) as (n & s' & ys & E & F);
    [reflexivity|rewrite <- Ht; eapply rb_at_fuel; eauto| |].
  - split; [now destruct s0 as [[] p]|apply pool_step_refl, Hok| |apply new_space_ok|constructor| |cbn; auto with lia|..].
    + intros y Hy. cbn [occs]. rewrite Z.add_0_r. now apply Hok.
    + reflexivity.
    + now intros x w e Hx%elem_of_nil.
    + intros w e He. auto.
    + now intros x w e Hx%elem_of_nil.
    + intros w e He. cbn in He. now rewrite lookup_empty in He.
  - exists n, s', ys. split; [|exact F]. unfold fork. rewrite (bind_done (gets sp) _ s0 (sp s0) s0 eq_refl).
    assert (E1 : in_space (in_tree (rb_first regions)) s0 = Done (default 0 (head xs)) s0).
    { destruct s0 as [t0 p0]. apply in_space_done, in_tree_reading. rewrite <- Ht. now apply rb_first_run. }
    run E1. rewrite (bind_done (gets (fun s => fuel_of (tree_mem (sp s)))) _ s0 _ s0 eq_refl). exact E.
Qed.
End fork.
