(* ===== verification/SpacePrivate.v ===== *)
(** * Address spaces: private pages

    Who may write a page that others see: every page table entry of a space is for
    a page of one of its regions, at its place, and a private page may be written
    only while it has one user.  Faults, [mmap], [unmap] at the start of a region and
    [fork] keep this, for the space itself and for the others. *)

From Stdlib Require Import Sorting.Sorted.
From S2P Require Import Prelude CMem State WordMem Rbtree RbtreeSpec RbtreeProps Phys PhysProps Space SpaceTree SpacePages SpaceFault SpaceOps SpaceFork.

(** ** The page table of a space of anonymous memory *)

(** The page [pg] is page [k] of the region [x]. *)
Definition holds_page (s : space) (xs : list Z) (x : Z) (a : area) (k : nat) (pg : Z) : Prop :=
  x ∈ xs /\ areas s !! x = Some a /\ mappings a !! k = Some pg /\ pg <> 0.

Definition shared (a : area) : bool := has (flags a) MAP_SHARED.
Definition writable (e : pte) : bool := has (pprot e) PROT_WRITE.

(** The entry [e] is for the page [pg] of the area [a]: with its rights, or without
    the right to write; a private page that can be written has one user. *)
Definition entry_for (p : pool) (a : area) (pg : Z) (e : pte) : Prop :=
  (exists g, pages p !! pg = Some g /\ ppn e = Z.shiftr (pa g) 12) /\
  (pprot e = prot a \/ pprot e = Z.land (prot a) (Z.lnot PROT_WRITE)) /\
  (writable e = true -> shared a = false -> users_of p pg = 1).

Record private_ok (s : space) (xs : list Z) (p : pool) : Prop := {
  pv_entry : forall v e, pt s !! v = Some e -> exists x a k pg, holds_page s xs x a k pg /\ v = va a + 4096 * Z.of_nat k /\ entry_for p a pg e;
  (** A page with other users has an entry, so that a read does not fault. *)
  pv_present : forall x a k pg, holds_page s xs x a k pg -> shared a = false -> users_of p pg <> 1 -> is_Some (pt s !! (va a + 4096 * Z.of_nat k));
  pv_anon : forall x a, x ∈ xs -> areas s !! x = Some a -> obj a = 0 /\ has (flags a) (Z.lor MAP_PRIVATE MAP_SHARED) = true }.

Lemma holds_unique s xs x a k pg y b j pg' w : regions_ok (areas s) xs -> holds_page s xs x a k pg -> holds_page s xs y b j pg' ->
  w = va a + 4096 * Z.of_nat k -> w = va b + 4096 * Z.of_nat j -> x = y /\ k = j /\ pg = pg' /\ a = b.
Proof.
  intros Hr (H1 & H2 & H3 & _) (K1 & K2 & K3 & _) Hw Hw'.
  destruct (same_page _ _ _ _ _ _ _ _ _ Hr H1 K1 H2 K2 (lookup_lt_Some _ _ _ H3) (lookup_lt_Some _ _ _ K3) Hw Hw') as [<- <-]. now simplify_eq.
Qed.

Lemma holds_refs s xs x a k pg : holds_page s xs x a k pg -> 1 <= refs (areas s) pg.
Proof.
  intros (_ & Ha & Hk & _). pose proof (refs_in _ _ _ pg Ha). pose proof (occ_in pg (mappings a) (list_elem_of_lookup_2 _ _ _ Hk)). lia.
Qed.

Lemma entry_kept p p' a pg e : pages_kept p p' -> (users_of p pg = 1 -> users_of p' pg = 1) -> entry_for p a pg e -> entry_for p' a pg e.
Proof.
  intros [_ Hk] Hu ((g & Hg & He) & Hp & Hw). split; [|split; [exact Hp|auto]]. destruct (Hk pg g Hg) as (g' & K1 & K2 & _). exists g'. now rewrite K2.
Qed.

(** Another space, whose private pages stay private. *)
Lemma private_other s xs p p' : private_ok s xs p -> pages_kept p p' ->
  (forall x a k pg, holds_page s xs x a k pg -> users_of p pg = 1 -> users_of p' pg = 1) -> private_ok s xs p'.
Proof.
  intros [H1 H2 H3] Hk Hu. split; [| |exact H3].
  - intros v e He. destruct (H1 v e He) as (x & a & k & pg & Hh & Hv & Hf). exists x, a, k, pg. split; [exact Hh|]. split; [exact Hv|]. eapply entry_kept; eauto.
  - intros x a k pg Hh Hs Hn. apply (H2 x a k pg Hh Hs). eauto.
Qed.

(** What a step of one space keeps for the others: a page that they hold and that
    has one user still has one. *)
Definition alone_kept (ext : Z -> Z) (p p' : pool) : Prop := forall pg, pg <> 0 -> 1 <= ext pg -> users_of p pg = 1 -> users_of p' pg = 1.

(** ** Faults *)

Definition asks_more (err pr : Z) : bool :=
  (has err FAULT_WRITE && negb (has pr PROT_WRITE)) || (has err FAULT_READ && negb (has pr PROT_READ)) || (has err FAULT_EXEC && negb (has pr PROT_EXEC)).

(** A fault that comes in time: the entry lacks the right that is asked for, or
    the access is a write, or the page has one user.  (Otherwise another thread
    has mapped the page, and a fork has shared it, before the fault is handled.) *)
Definition timely (err : Z) (p : pool) (e : pte) : Prop :=
  asks_more err (pprot e) = true \/ has err FAULT_WRITE = true \/
  forall pg g, pages p !! pg = Some g -> ppn e = Z.shiftr (pa g) 12 -> m_users g = 1.

Lemma has_write_off pr : has (Z.land pr (Z.lnot PROT_WRITE)) PROT_WRITE = false.
Proof. unfold has. rewrite <- Z.land_assoc, (Z.land_comm (Z.lnot _)), Z.land_lnot_diag, Z.land_0_r. reflexivity. Qed.

Lemma has_other pr : has (Z.land pr (Z.lnot PROT_WRITE)) PROT_READ = has pr PROT_READ /\ has (Z.land pr (Z.lnot PROT_WRITE)) PROT_EXEC = has pr PROT_EXEC.
Proof. unfold has. split; rewrite <- Z.land_assoc; reflexivity. Qed.

Lemma has_lor pr : has pr PROT_WRITE = true -> Z.lor pr PROT_WRITE = pr.
Proof.
  unfold has, PROT_WRITE. intros H. apply Z.bits_inj'. intros n Hn. rewrite Z.lor_spec. change 2 with (2 ^ 1) in *. rewrite Z.pow2_bits_eqb by lia.
  destruct (Z.eqb_spec 1 n) as [<-|]; [|apply orb_false_r]. rewrite orb_true_r. symmetry. destruct (Z.testbit pr 1) eqn:Eb; [reflexivity|].
  exfalso. apply negb_true_iff, Z.eqb_neq in H. apply H. apply Z.bits_inj'. intros m Hm. rewrite Z.land_spec, Z.pow2_bits_eqb, Z.bits_0 by lia.
  destruct (Z.eqb_spec 1 m) as [<-|]; [now rewrite Eb|apply andb_false_r].
Qed.

(** An entry asks for the write fault when it lacks a right that the area has. *)
Lemma asks_write err a e : denied err a = false -> (pprot e = prot a \/ pprot e = Z.land (prot a) (Z.lnot PROT_WRITE)) -> asks_more err (pprot e) = true ->
  writes err a = true.
Proof.
  unfold denied, asks_more, writes. destruct (has_other (prot a)) as [Hr Hx]. intros Hd [-> | ->]; [congruence|]. rewrite Hr, Hx, has_write_off.
  destruct (has err FAULT_WRITE), (has (prot a) PROT_WRITE), (has err FAULT_READ), (has (prot a) PROT_READ), (has err FAULT_EXEC), (has (prot a) PROT_EXEC); cbn in *; congruence.
Qed.

Lemma entry_prot_anon err a cur : obj a = 0 -> entry_prot err a cur = prot a.
Proof.
  intros Ho. unfold entry_prot. rewrite Ho, Z.eqb_refl, orb_true_r. destruct (writes err a) eqn:Ew; [|reflexivity]. apply has_lor. unfold writes in Ew. now apply andb_true_iff in Ew.
Qed.

Definition same_area (a b : area) : Prop := va b = va a /\ prot b = prot a /\ flags b = flags a /\ obj b = obj a.

Section fault.
Context (ext : Z -> Z) (s : mm) (xs : list Z) (v x : Z) (a : area) (err : Z) (do_map : bool) (cur pg : Z) (s' : mm).
Hypothesis Hok : mm_ok ext s xs.
Hypothesis Hpv : private_ok (sp s) xs (pl s).
Hypothesis Hx : x ∈ xs.
Hypothesis Ha : areas (sp s) !! x = Some a.
Hypothesis Hv : va a <= v < va a + len a.
Hypothesis F : faulted ext s xs v x a err do_map cur pg s'.
Let k : nat := page_of v a.
Let a' : area := set_mappings (<[k := pg]> (mappings a)) a.

Lemma fault_at : 4096 * (v / 4096) = va a + 4096 * Z.of_nat k.
Proof.
  pose proof (ro_ok _ _ (so_regions _ _ (mo_space _ _ _ Hok)) _ _ Ha) as Hao. destruct (page_index a v Hao Hv) as (_ & I2 & I3).
  rewrite <- I3. unfold k, page_of. rewrite Z.shiftl_mul_pow2, Z2Nat.id by lia. change (2 ^ 12) with 4096. destruct Hao as (? & ? & ? & ?). rewrite u64_small; lia.
Qed.

Lemma fault_areas : areas (sp s') = <[x := a']> (areas (sp s)).
Proof. destruct (ft_space _ _ _ _ _ _ _ _ _ _ _ F) as (g & wt & nc & _ & ->). now destruct do_map. Qed.

Lemma fault_users y : y <> 0 -> users_of (pl s') y = users_of (pl s) y - b2z (cur =? y) + b2z (pg =? y).
Proof.
  intros Hy. rewrite (mo_users _ _ _ (ft_ok _ _ _ _ _ _ _ _ _ _ _ F) y Hy), (mo_users _ _ _ Hok y Hy), fault_areas.
  pose proof (refs_remap (sp s) x k cur pg a y Ha (ft_cur _ _ _ _ _ _ _ _ _ _ _ F)) as Hr. cbn [remap set_areas areas] in Hr. fold a' in Hr. lia.
Qed.

Lemma fault_new : pg = cur \/ pages (pl s) !! pg = None.
Proof. destruct (ft_from _ _ _ _ _ _ _ _ _ _ _ F) as [|[|[_ H]]]; auto. destruct (pv_anon _ _ _ Hpv x a Hx Ha). contradiction. Qed.

(** The pages that the space holds afterwards. *)
Lemma fault_holds y b j q : holds_page (sp s') xs y b j q ->
  (y = x /\ j = k /\ q = pg /\ b = a') \/ (~ (y = x /\ j = k) /\ exists c, holds_page (sp s) xs y c j q /\ same_area b c).
Proof.
  intros (H1 & H2 & H3 & H4). rewrite fault_areas in H2. apply lookup_insert_Some in H2 as [[<- <-]|[Hne H2]].
  - cbn [a' set_mappings mappings] in H3. destruct (decide (j = k)) as [->|Hj].
    + left. rewrite list_lookup_insert_eq in H3 by (eapply lookup_lt_Some, (ft_cur _ _ _ _ _ _ _ _ _ _ _ F)). injection H3 as <-. auto.
    + right. rewrite list_lookup_insert_ne in H3 by congruence. split; [tauto|]. exists a. split; [now split|]. now split.
  - right. split; [intros [? _]; congruence|]. exists b. split; [now split|]. now split.
Qed.

(** The pages that it held before. *)
Lemma fault_held y b j q : holds_page (sp s) xs y b j q -> ~ (y = x /\ j = k) -> exists c, holds_page (sp s') xs y c j q /\ same_area b c.
Proof.
  intros (H1 & H2 & H3 & H4) Hn. unfold holds_page. rewrite fault_areas. destruct (decide (x = y)) as [<-|Hne].
  - exists a'. assert (b = a) as -> by congruence. rewrite lookup_insert_eq. split; [|now split]. split_and!; auto. cbn. now rewrite list_lookup_insert_ne by (intros <-; tauto).
  - exists b. rewrite lookup_insert_ne by exact Hne. split; [|now split]. auto.
Qed.

Lemma fault_lone y b j q : holds_page (sp s) xs y b j q -> ~ (y = x /\ j = k) \/ pg = cur -> users_of (pl s) q = 1 -> users_of (pl s') q = 1.
Proof.
  intros Hh Hn Hu. assert (Hq : q <> 0) by apply Hh. rewrite (fault_users q Hq). destruct (Z.eqb_spec pg q) as [Hpq|Hpq].
  - destruct fault_new as [He|He]; [rewrite <- He, Hpq, Z.eqb_refl; lia|]. rewrite Hpq in He. rewrite users_none in Hu by exact He. lia.
  - destruct Hn as [Hn|He]; [|rewrite <- He, (proj2 (Z.eqb_neq pg q) Hpq); cbn; lia]. destruct (fault_held _ _ _ _ Hh Hn) as (c & (_ & K2 & K3 & _) & _).
    pose proof (mapped_users _ _ _ _ _ _ _ (ft_ok _ _ _ _ _ _ _ _ _ _ _ F) K2 K3 Hq) as H1. rewrite (fault_users q Hq), (proj2 (Z.eqb_neq pg q) Hpq) in H1.
    destruct (cur =? q); cbn [b2z] in *; lia.
Qed.

Lemma fault_others : alone_kept ext (pl s) (pl s').
Proof.
  intros q Hq He Hu. pose proof (mo_users _ _ _ Hok q Hq) as Hs. cbn beta in Hs. rewrite Hu in Hs. pose proof (refs_nonneg (areas (sp s)) q) as H0.
  assert (Hc : cur <> q).
  { intros ->. assert (holds_page (sp s) xs x a k q) as Hh by (split_and!; auto; apply (ft_cur _ _ _ _ _ _ _ _ _ _ _ F)). apply holds_refs in Hh. lia. }
  rewrite (fault_users q Hq), (proj2 (Z.eqb_neq cur q) Hc). destruct (Z.eqb_spec pg q) as [Hpq|Hpq]; cbn [b2z]; [|lia].
  destruct fault_new as [H1|H1]; [congruence|]. rewrite Hpq in H1. rewrite users_none in Hu by exact H1. lia.
Qed.

Lemma fault_pt : pt (sp s') = (if do_map then <[4096 * (v / 4096) := default (Pte 0 0 false false) (pt (sp s') !! (4096 * (v / 4096)))]> (pt (sp s)) else pt (sp s)) /\
  (do_map = true -> exists g e, pt (sp s') !! (4096 * (v / 4096)) = Some e /\ pages (pl s') !! pg = Some g /\ ppn e = Z.shiftr (pa g) 12 /\ pprot e = prot a).
Proof.
  destruct (ft_space _ _ _ _ _ _ _ _ _ _ _ F) as (g & wt & nc & Hg & Hs). rewrite Hs. destruct do_map; [|split; [reflexivity|discriminate]].
  cbn [mapped_at set_pt remap set_areas pt]. rewrite lookup_insert_eq. split; [reflexivity|]. intros _. eexists g, _. split; [reflexivity|]. split; [exact Hg|]. split; [reflexivity|].
  apply entry_prot_anon. now destruct (pv_anon _ _ _ Hpv x a Hx Ha).
Qed.

Lemma fault_mine : holds_page (sp s') xs x a' k pg.
Proof.
  split; [exact Hx|]. rewrite fault_areas, lookup_insert_eq. split; [reflexivity|]. split; [|apply F].
  cbn. apply list_lookup_insert_eq. eapply lookup_lt_Some, (ft_cur _ _ _ _ _ _ _ _ _ _ _ F).
Qed.

(** A new page has one user. *)
Lemma fault_fresh : cur = 0 -> users_of (pl s') pg = 1.
Proof.
  intros Hc. pose proof (ft_page _ _ _ _ _ _ _ _ _ _ _ F) as Hp. rewrite (fault_users pg Hp), Z.eqb_refl, (proj2 (Z.eqb_neq cur pg)) by congruence.
  destruct fault_new as [He|He]; [congruence|]. rewrite users_none by exact He. reflexivity.
Qed.

(** Faults in private memory that can be written come in time. *)
Hypothesis Hhw : if do_map then denied err a = false /\
    (shared a = false -> has (prot a) PROT_WRITE = true -> forall e, pt (sp s) !! (4096 * (v / 4096)) = Some e -> timely err (pl s) e)
  else writes err a = false.

Lemma fault_writable : do_map = true -> has (prot a) PROT_WRITE = true -> shared a = false -> users_of (pl s') pg = 1.
Proof.
  intros Hd Hw Hs. pose proof Hhw as Hhw'. rewrite Hd in Hhw'. destruct Hhw' as [Hden Hask]. destruct (writes err a) eqn:Ew.
  - apply (ft_private _ _ _ _ _ _ _ _ _ _ _ F Ew). destruct (pv_anon _ _ _ Hpv x a Hx Ha) as [_ Hf]. unfold shared, has in *.
    rewrite Z.land_lor_distr_r in Hf. apply negb_false_iff, Z.eqb_eq in Hs. now rewrite Hs, Z.lor_0_r in Hf.
  - destruct (decide (cur = 0)) as [Hc|Hc]; [now apply fault_fresh|]. pose proof (ft_read _ _ _ _ _ _ _ _ _ _ _ F Ew Hc) as He.
    assert (Hh : holds_page (sp s) xs x a k cur) by (split_and!; auto; apply F). destruct (decide (users_of (pl s) cur = 1)) as [Hu|Hu].
    { rewrite He. eapply fault_lone; eauto. }
    destruct (pv_present _ _ _ Hpv x a k cur Hh Hs Hu) as [e Ee]. rewrite <- fault_at in Ee. destruct (pv_entry _ _ _ Hpv _ _ Ee) as (y & b & j & q & Hh' & Hw' & ((g & Hg & Hpn) & Hpr & _)).
    destruct (holds_unique _ _ _ _ _ _ _ _ _ _ _ (so_regions _ _ (mo_space _ _ _ Hok)) Hh Hh' fault_at Hw') as (_ & _ & <- & <-).
    destruct (Hask Hs Hw e Ee) as [Hmore|[Hwrite|Hone]].
    + rewrite (asks_write err a e Hden Hpr Hmore) in Ew. discriminate.
    + unfold writes in Ew. now rewrite Hwrite, Hw in Ew.
    + destruct Hu. rewrite (users_of_some _ _ _ Hg). eapply Hone; eauto.
Qed.

Lemma entry_same p b c q e : same_area b c -> entry_for p b q e -> entry_for p c q e.
Proof. intros (_ & H1 & H2 & _). unfold entry_for, shared. now rewrite H1, H2. Qed.

(** The mapping is the same when the page table is not changed. *)
Lemma fault_unmapped : do_map = false -> cur <> 0 -> pg = cur.
Proof. intros Hd. pose proof Hhw as Hw. rewrite Hd in Hw. now apply (ft_read _ _ _ _ _ _ _ _ _ _ _ F). Qed.

Lemma fault_entries u e : pt (sp s') !! u = Some e -> exists y b j q, holds_page (sp s') xs y b j q /\ u = va b + 4096 * Z.of_nat j /\ entry_for (pl s') b q e.
Proof.
  intros He. pose proof fault_pt as [Hpt Hnew]. destruct (decide (do_map = true /\ u = 4096 * (v / 4096))) as [[Hd ->]|Hn].
  - destruct (Hnew Hd) as (g & e' & E1 & Hg & H1 & H2). assert (e' = e) as -> by congruence. exists x, a', k, pg. split; [apply fault_mine|]. split; [exact fault_at|].
    split; [eauto|]. split; [left; exact H2|]. unfold writable. rewrite H2. intros Hw Hs. now apply fault_writable.
  - assert (Hold : pt (sp s) !! u = Some e).
    { rewrite Hpt in He. destruct do_map; [|exact He]. rewrite lookup_insert_ne in He; [exact He|]. intros <-. tauto. }
    destruct (pv_entry _ _ _ Hpv _ _ Hold) as (y & b & j & q & Hh & Hu & Hf). pose proof (ft_pool _ _ _ _ _ _ _ _ _ _ _ F) as (_ & Hk & _).
    destruct (decide (y = x /\ j = k)) as [[-> ->]|Hne].
    + assert (b = a) as -> by (destruct Hh as (_ & ? & _); congruence). assert (q = cur) as -> by (destruct Hh as (_ & _ & Hq & _); pose proof (ft_cur _ _ _ _ _ _ _ _ _ _ _ F) as Hc; fold k in Hc; congruence).
      assert (pg = cur) as Hp by (apply fault_unmapped; [destruct do_map; [|reflexivity]; exfalso; apply Hn; split; [reflexivity|rewrite Hu, fault_at; reflexivity]|apply Hh]).
      exists x, a', k, pg. split; [apply fault_mine|]. split; [exact Hu|]. rewrite Hp. apply (entry_same _ a); [now split|]. eapply entry_kept; [exact Hk| |exact Hf]. eapply fault_lone; eauto.
    + destruct (fault_held _ _ _ _ Hh Hne) as (c & Hc & Hsa). exists y, c, j, q. split; [exact Hc|]. split; [now rewrite (proj1 Hsa)|].
      apply (entry_same _ b); [exact Hsa|]. eapply entry_kept; [exact Hk| |exact Hf]. eapply fault_lone; eauto.
Qed.

Lemma fault_private : private_ok (sp s') xs (pl s').
Proof.
  pose proof fault_pt as [Hpt Hnew]. assert (Hkeep : forall u, is_Some (pt (sp s) !! u) -> is_Some (pt (sp s') !! u)).
  { intros u Hu. rewrite Hpt. destruct do_map; [|exact Hu]. rewrite lookup_insert_is_Some'. auto. }
  split; [exact fault_entries| |].
  - intros y b j q Hh Hs Hu. destruct (fault_holds _ _ _ _ Hh) as [(-> & -> & -> & ->)|(Hne & c & Hc & (H1 & H2 & H3 & H4))].
    + change (va a') with (va a). destruct (decide (do_map = true)) as [Hd|Hd%not_true_is_false]; [destruct (Hnew Hd) as (g & e & E1 & _); rewrite <- fault_at; eauto|]. apply Hkeep.
      destruct (decide (cur = 0)) as [Hc|Hc]; [contradict Hu; now apply fault_fresh|]. pose proof (fault_unmapped Hd Hc) as Hp.
      assert (Hh' : holds_page (sp s) xs x a k cur) by (split_and!; auto; apply F). apply (pv_present _ _ _ Hpv _ _ _ _ Hh' Hs). intros Hl. apply Hu. rewrite Hp. eapply fault_lone; eauto.
    + apply Hkeep. rewrite <- H1. apply (pv_present _ _ _ Hpv _ _ _ _ Hc); [unfold shared in *; congruence|]. intros Hl. apply Hu. eapply fault_lone; eauto.
  - intros y b Hy Hb. rewrite fault_areas in Hb. apply lookup_insert_Some in Hb as [[<- <-]|[_ Hb]]; [apply (pv_anon _ _ _ Hpv x a Hx Ha)|now apply (pv_anon _ _ _ Hpv y)].
Qed.
End fault.

(** ** [mmap], [unmap] and [fork] *)

Lemma mmap_private s s' xs l1 l2 h a n p p' : private_ok s xs p -> pages p' = pages p -> xs = l1 ++ l2 -> areas s' = <[h := a]> (areas s) -> pt s' = pt s ->
  areas s !! h = None -> mappings a = replicate n 0 -> obj a = 0 -> has (flags a) (Z.lor MAP_PRIVATE MAP_SHARED) = true ->
  (forall x, x ∈ xs -> is_Some (areas s !! x)) -> private_ok s' (l1 ++ h :: l2) p'.
Proof.
  intros Hpv Hpg Hxs Har Hpt Hh Hm Ho Hf Hin.
  assert (Hin' : forall x, x ∈ l1 ++ h :: l2 <-> x = h \/ x ∈ xs) by (intros x; rewrite Hxs, !elem_of_app, elem_of_cons; tauto).
  assert (Hholds : forall x b k pg, holds_page s' (l1 ++ h :: l2) x b k pg <-> holds_page s xs x b k pg).
  { intros x b k pg. unfold holds_page. rewrite Har, Hin'. split.
    - intros (H1 & H2 & H3 & H4). apply lookup_insert_Some in H2 as [[<- <-]|[Hne H2]]; [|split_and!; auto; destruct H1; congruence].
      rewrite Hm in H3. apply lookup_replicate_1 in H3 as [-> _]. contradiction.
    - intros (H1 & H2 & H3 & H4). rewrite lookup_insert_ne by congruence. auto. }
  assert (Hu : forall y, users_of p' y = users_of p y) by (intros y; unfold users_of; now rewrite Hpg). split.
  - rewrite Hpt. intros v e He. destruct (pv_entry _ _ _ Hpv v e He) as (x & b & k & pg & H1 & H2 & H3). exists x, b, k, pg. split; [now apply Hholds|].
    split; [exact H2|]. unfold entry_for in *. now rewrite Hpg, Hu.
  - rewrite Hpt. intros x b k pg H1 H2. rewrite Hu. apply Hholds in H1. now apply (pv_present _ _ _ Hpv x b k pg).
  - intros x b Hx Hb. rewrite Har in Hb. apply lookup_insert_Some in Hb as [[_ <-]|[Hne Hb]]; [auto|]. apply Hin' in Hx as [->|Hx]; [congruence|]. now apply (pv_anon _ _ _ Hpv x).
Qed.

Lemma unmap_private s s' l1 x l2 a p : private_ok s (l1 ++ x :: l2) p -> regions_ok (areas s) (l1 ++ x :: l2) -> areas s !! x = Some a ->
  areas s' = areas s -> pt s' = cleared (va a) (mappings a) (pt s) -> private_ok s' (l1 ++ l2) p.
Proof.
  intros Hpv Hr Ha Har Hpt. pose proof (regions_nodup _ _ Hr) as Hn. apply list.NoDup_app in Hn as (_ & Hn1 & Hn2). apply list.NoDup_cons in Hn2 as [Hn2 _].
  assert (Hx : x ∉ l1 ++ l2) by (rewrite elem_of_app; intros [H|H]; [apply (Hn1 x H); apply elem_of_cons; auto|contradiction]).
  assert (Hin : forall y, y ∈ l1 ++ x :: l2 <-> y = x \/ y ∈ l1 ++ l2) by (intros y; rewrite !elem_of_app, elem_of_cons; tauto).
  assert (Hholds : forall y b k pg, holds_page s' (l1 ++ l2) y b k pg <-> holds_page s (l1 ++ x :: l2) y b k pg /\ y <> x).
  { intros y b k pg. unfold holds_page. rewrite Har, Hin. split; [intros (H1 & H2 & H3 & H4); split_and!; auto; congruence|]. intros [([->|H1] & H2) Hne]; [contradiction|auto]. }
  split.
  - intros v e He. rewrite Hpt in He. apply cleared_some in He as [He Hc]. destruct (pv_entry _ _ _ Hpv v e He) as (y & b & k & pg & H1 & H2 & H3).
    exists y, b, k, pg. split; [|auto]. apply Hholds. split; [exact H1|]. intros ->. apply Hc. destruct H1 as (_ & K1 & K2 & K3). exists k, pg. simplify_eq. auto.
  - intros y b k pg H1 Hs Hu. apply Hholds in H1 as [H1 Hne]. destruct (pv_present _ _ _ Hpv y b k pg H1 Hs Hu) as [e He]. exists e. rewrite Hpt. apply cleared_some. split; [exact He|].
    intros (j & q & K1 & K2 & K3). apply Hne. assert (Hx' : holds_page s (l1 ++ x :: l2) x a j q) by (split_and!; auto; apply Hin; auto).
    now destruct (holds_unique _ _ _ _ _ _ _ _ _ _ _ Hr H1 Hx' eq_refl K3).
  - intros y b Hy Hb. rewrite Har in Hb. apply (pv_anon _ _ _ Hpv y); [apply Hin; auto|exact Hb].
Qed.

(** Entries for reading are fine for any page. *)
Lemma ro_entry_for p p' ars x w e : pages_kept p p' -> ro_entry p ars x w e ->
  exists a k pg, ars !! x = Some a /\ mappings a !! k = Some pg /\ pg <> 0 /\ w = va a + 4096 * Z.of_nat k /\ entry_for p' a pg e.
Proof.
  intros [_ Hk] (a & k & pg & g & H1 & H2 & H3 & H4 & H5 & ->). exists a, k, pg. destruct (Hk pg g H4) as (g' & K1 & K2 & _). split_and!; auto.
  split; [exists g'; cbn; now rewrite K2|]. split; [right; reflexivity|]. unfold writable. cbn [pprot]. now rewrite has_write_off.
Qed.

Section fork.
Context (ext : Z -> Z) (s0 : mm) (xs : list Z) (s : mm) (n : space) (ys : list Z).
Hypothesis Hok : mm_ok ext s0 xs.
Hypothesis Hpv : private_ok (sp s0) xs (pl s0).
Hypothesis F : forking ext s0 xs s n ys.

Lemma held_ro x a k pg : holds_page (sp s0) xs x a k pg -> exists e, ro_entry (pl s0) (areas (sp s0)) x (va a + 4096 * Z.of_nat k) e.
Proof. intros (H1 & H2 & H3 & H4). destruct (mapped_page _ _ _ _ _ _ _ Hok H2 H3 H4) as [g Hg]. eexists. exists a, k, pg, g. split_and!; eauto. Qed.

Lemma fork_areas : areas (sp s) = areas (sp s0).
Proof. now rewrite (fk_sp _ _ _ _ _ _ F). Qed.

Lemma fork_parent : private_ok (sp s) xs (pl s).
Proof.
  pose proof (fk_pool _ _ _ _ _ _ F) as (_ & Hk & _). pose proof fork_areas as Har. split.
  - intros w e He. assert (exists x, x ∈ xs /\ ro_entry (pl s0) (areas (sp s0)) x w e) as (x & Hx & Hro).
    { destruct (fk_old _ _ _ _ _ _ F w e He) as [|Hold]; [assumption|]. destruct (pv_entry _ _ _ Hpv w e Hold) as (x & a & k & pg & Hh & -> & _).
      destruct (held_ro _ _ _ _ Hh) as [e' He']. exists x. split; [apply Hh|]. pose proof (fk_mine _ _ _ _ _ _ F x _ _ (proj1 Hh) He'). congruence. }
    destruct (ro_entry_for _ _ _ _ _ _ Hk Hro) as (a & k & pg & H1 & H2 & H3 & H4 & H5). exists x, a, k, pg. split; [|auto]. unfold holds_page. rewrite Har. auto.
  - intros x a k pg Hh _ _. unfold holds_page in Hh. rewrite Har in Hh. destruct (held_ro _ _ _ _ Hh) as [e He]. exists e. exact (fk_mine _ _ _ _ _ _ F x _ _ (proj1 Hh) He).
  - rewrite Har. apply Hpv.
Qed.

Lemma fork_child : private_ok n ys (pl s).
Proof.
  pose proof (fk_pool _ _ _ _ _ _ F) as (_ & Hk & _). pose proof (fk_copies _ _ _ _ _ _ F) as Hc.
  assert (Hback : forall y, y ∈ ys -> exists x, x ∈ xs /\ areas n !! y = areas (sp s0) !! x).
  { intros y Hy. apply list_elem_of_lookup in Hy as [i Hi]. destruct (Forall2_lookup_r _ _ _ _ _ Hc Hi) as (x & Hx & He). exists x. split; [eapply list_elem_of_lookup_2; eauto|exact He]. }
  assert (Hfor : forall x, x ∈ xs -> exists y, y ∈ ys /\ areas n !! y = areas (sp s0) !! x).
  { intros x Hx. apply list_elem_of_lookup in Hx as [i Hi]. destruct (Forall2_lookup_l _ _ _ _ _ Hc Hi) as (y & Hy & He). exists y. split; [eapply list_elem_of_lookup_2; eauto|exact He]. }
  split.
  - intros w e He. destruct (fk_fresh _ _ _ _ _ _ F w e He) as [(x & Hx & Hro)|[]]. destruct (ro_entry_for _ _ _ _ _ _ Hk Hro) as (a & k & pg & H1 & H2 & H3 & H4 & H5).
    destruct (Hfor x Hx) as (y & Hy & Hyx). exists y, a, k, pg. split; [|auto]. unfold holds_page. rewrite Hyx. auto.
  - intros y a k pg (H1 & H2 & H3 & H4) _ _. destruct (Hback y H1) as (x & Hx & Hyx). rewrite Hyx in H2.
    destruct (held_ro x a k pg) as [e He]; [split_and!; auto|]. exists e. exact (fk_child _ _ _ _ _ _ F x _ _ Hx He).
  - intros y a Hy Ha. destruct (Hback y Hy) as (x & Hx & Hyx). rewrite Hyx in Ha. now apply (pv_anon _ _ _ Hpv x).
Qed.

Lemma fork_others : alone_kept ext (pl s0) (pl s).
Proof.
  intros pg Hp He Hu. rewrite (fk_users _ _ _ _ _ _ F pg Hp). pose proof (mo_users _ _ _ Hok pg Hp) as Hs. cbn beta in Hs. rewrite Hu in Hs.
  pose proof (refs_nonneg (areas (sp s0)) pg). pose proof (occs_le xs pg (areas (sp s0)) (regions_nodup _ _ (so_regions _ _ (mo_space _ _ _ Hok)))) as Hle.
  assert (0 <= occs (areas (sp s0)) xs pg) by (rewrite <- (fk_refs _ _ _ _ _ _ F); apply refs_nonneg). lia.
Qed.
End fork.
