(* ===== verification/SpaceWorld.v ===== *)
(** * Address spaces together

    Several spaces of anonymous memory over one pool of pages, and the operations
    on them in any order.  The users of every page are the mappings of all spaces
    that hold it, and no space can write a page of a private area that another
    space can see. *)

From Stdlib Require Import Sorting.Sorted.
From S2P Require Import Prelude CMem State WordMem Rbtree RbtreeSpec RbtreeProps Phys PhysProps Space SpaceTree SpacePages SpaceFault SpaceOps SpaceFork SpacePrivate.

(** ** The system *)

Record world := World { spaces : list space; wpool : pool }.

Definition at_space {A} (i : nat) (c : MM A) : SM world A := fun w =>
  match spaces w !! i with
  | None => Fail
  | Some s =>
      match c (Mm s (wpool w)) with
      | Done a m => Done a (World (<[i := sp m]> (spaces w)) (pl m))
      | Fail => Fail
      | Spin => Spin
      end
  end.

Inductive vmop :=
| Mmap (i : nat) (addr size prot flags : Z)
| Unmap (i : nat) (v n : Z)
| Fault (i : nat) (v err : Z)
| Getpage (i : nat) (v : Z)
| Forks (i : nat).

Section world.
Context (get_shared : Z -> Z -> SM pool Z) `{Vmobject get_shared}.

Definition exec (o : vmop) : SM world Z :=
  match o with
  | Mmap i addr size pr fl => at_space i (mmap addr size pr fl 0 0 0)
  | Unmap i v n => at_space i (in_space (unmap v n))
  | Fault i v err => at_space i (pagefault get_shared v err)
  | Getpage i v => at_space i (get_page get_shared v)
  | Forks i => n ← at_space i fork; modify (fun w => World (spaces w ++ [n]) (wpool w));; mret 0
  end.

(** There is memory, and no count of users comes near its end. *)
Definition resources (p : pool) : Prop := 33 <= nfree (phys_mem p) /\ map_Forall (fun _ g => 2 * m_users g + 1 < 2 ^ 32) (pages p).

(** The space is there, and so is memory; sizes are in range. *)
Definition legal (o : vmop) (w : world) : Prop :=
  match o with
  | Mmap i _ size _ _ => exists s, spaces w !! i = Some s /\ heap s + 24 <= 2 ^ 64 /\ 0 < size < 2 ^ 62
  | Unmap i _ _ => exists s, spaces w !! i = Some s
  | Fault i _ _ | Getpage i _ => exists s, spaces w !! i = Some s /\ resources (wpool w)
  | Forks i => exists s, spaces w !! i = Some s /\ resources (wpool w) /\ forall xs, space_ok s xs -> 16 + 24 * Z.of_nat (length xs) <= 2 ^ 64
  end.

(** What the code relies on and does not check: a mapping is asked for where it
    overlaps no other, a region is unmapped at its start, and a fault in private
    memory that can be written comes in time. *)
Definition regular (o : vmop) (w : world) : Prop :=
  match o with
  | Mmap i addr size _ fl => forall s xs, spaces w !! i = Some s -> space_ok s xs ->
      has addr 4095 = true \/ has fl (Z.lor MAP_PRIVATE MAP_SHARED) = false \/ place_for s xs addr size
  | Unmap i v _ => forall s xs x a, spaces w !! i = Some s -> space_ok s xs -> x ∈ xs -> areas s !! x = Some a -> va a <= v < va a + len a -> v = va a
  | Fault i v err => forall s x a e, spaces w !! i = Some s -> lookup v s = Done x s -> areas s !! x = Some a ->
      shared a = false -> has (prot a) PROT_WRITE = true -> pt s !! (4096 * (v / 4096)) = Some e -> timely err (wpool w) e
  | _ => True
  end.

(** Before the first process: one empty space and no page in use. *)
Inductive reachable : world -> Prop :=
| reach_init l h p : pool_ok p -> pages p = ∅ -> reachable (World [new_space l h] p)
| reach_step o w r w' : reachable w -> legal o w -> regular o w -> exec o w = Done r w' -> reachable w'.

(** ** The invariant *)

Fixpoint total (l : list space) (y : Z) : Z := match l with [] => 0 | s :: l => refs (areas s) y + total l y end.

Record world_ok (w : world) : Prop := {
  wo_pool : pool_ok (wpool w);
  wo_users : users_are (wpool w) (total (spaces w));
  wo_spaces : exists xss, Forall2 (fun s xs => space_ok s xs /\ private_ok s xs (wpool w)) (spaces w) xss }.

Lemma total_insert l i s s' y : l !! i = Some s -> total (<[i := s']> l) y = total l y - refs (areas s) y + refs (areas s') y.
Proof.
  revert i. induction l as [|t l IH]; intros [|i] Hi; cbn in Hi; [discriminate..| |].
  - injection Hi as ->. change (<[0%nat := s']> (s :: l)) with (s' :: l). cbn [total]. lia.
  - change (<[S i := s']> (t :: l)) with (t :: <[i := s']> l). cbn [total]. rewrite (IH i Hi). lia.
Qed.

Lemma total_snoc l s y : total (l ++ [s]) y = total l y + refs (areas s) y.
Proof. induction l as [|t l IH]; cbn [app total]; lia. Qed.

Lemma total_one l i s y : l !! i = Some s -> refs (areas s) y <= total l y.
Proof.
  revert i. induction l as [|t l IH]; intros [|i] Hi; cbn in Hi; [discriminate..| |]; cbn [total].
  - injection Hi as ->. assert (0 <= total l y) by (clear; induction l as [|t l IH]; cbn [total]; [lia|pose proof (refs_nonneg (areas t) y); lia]). lia.
  - specialize (IH i Hi). pose proof (refs_nonneg (areas t) y). lia.
Qed.

Lemma total_two l i j s t y : l !! i = Some s -> l !! j = Some t -> i <> j -> refs (areas s) y + refs (areas t) y <= total l y.
Proof.
  intros Hi Hj Hne. pose proof (total_insert l i s (new_space 0 0) y Hi) as H1. assert (refs (areas (new_space 0 0)) y = 0) as H0 by reflexivity.
  pose proof (total_one (<[i := new_space 0 0]> l) j t y ltac:(rewrite list_lookup_insert_ne by exact Hne; exact Hj)). lia.
Qed.

(** The users of a page that are not of the space [s]. *)
Definition outside (w : world) (s : space) (y : Z) : Z := total (spaces w) y - refs (areas s) y.

(** A space of the system, ready for an operation. *)
Lemma world_space w i s : world_ok w -> spaces w !! i = Some s ->
  exists xs, mm_ok (outside w s) (Mm s (wpool w)) xs /\ private_ok s xs (wpool w).
Proof.
  intros [Hp Hu [xss Hs]] Hi. destruct (Forall2_lookup_l _ _ _ _ _ Hs Hi) as (xs & _ & H1 & H2). exists xs. split; [|exact H2].
  split; [exact H1|exact Hp| |]; unfold outside; cbn [sp pl]; intros y; [intros Hy; rewrite Hu by exact Hy; lia|]. pose proof (total_one _ _ _ y Hi). lia.
Qed.

(** The other spaces after an operation on one. *)
Lemma world_others w i s xss p' : world_ok w -> spaces w !! i = Some s -> pages_kept (wpool w) p' -> alone_kept (outside w s) (wpool w) p' ->
  Forall2 (fun s xs => space_ok s xs /\ private_ok s xs (wpool w)) (spaces w) xss ->
  forall j t zs, j <> i -> spaces w !! j = Some t -> xss !! j = Some zs -> space_ok t zs /\ private_ok t zs p'.
Proof.
  intros Hw Hi Hk Ha Hs j t zs Hne Hj Hz. destruct (Forall2_lookup_lr _ _ _ _ _ _ Hs Hj Hz) as [H1 H2]. split; [exact H1|].
  apply (private_other _ _ _ _ H2 Hk). intros x a k pg Hh Hu. apply Ha; [apply Hh| |exact Hu]. apply holds_refs in Hh.
  pose proof (total_two _ _ _ _ _ pg Hi Hj ltac:(auto)). unfold outside. lia.
Qed.

(** An operation on the space [i]. *)
Lemma world_update w i s s' xs p' : world_ok w -> spaces w !! i = Some s -> mm_ok (outside w s) (Mm s' p') xs -> private_ok s' xs p' ->
  pages_kept (wpool w) p' -> alone_kept (outside w s) (wpool w) p' -> world_ok (World (<[i := s']> (spaces w)) p').
Proof.
  intros Hw Hi [H1 H2 H3 H4] Hpv Hk Ha. cbn [sp pl] in *. destruct (wo_spaces _ Hw) as [xss Hs]. split; cbn [spaces wpool]; [exact H2| |].
  - intros y Hy. rewrite (H3 y Hy), (total_insert _ _ _ _ _ Hi). unfold outside. cbn [sp]. lia.
  - exists (<[i := xs]> xss). apply Forall2_same_length_lookup_2; [rewrite !length_insert; apply (Forall2_length Hs)|].
    intros j t zs Ht Hz. apply list_lookup_insert_Some in Ht as [(-> & -> & Hl)|[Hne Ht]].
    + rewrite list_lookup_insert_eq in Hz by (rewrite <- (Forall2_length Hs); exact Hl). injection Hz as <-. auto.
    + rewrite list_lookup_insert_ne in Hz by exact Hne. apply (world_others w i s xss p' Hw Hi Hk Ha Hs j); auto.
Qed.

(** ** Every operation *)

Lemma at_space_done {A} i (c : MM A) w s a s' p' : spaces w !! i = Some s -> c (Mm s (wpool w)) = Done a (Mm s' p') ->
  at_space i c w = Done a (World (<[i := s']> (spaces w)) p').
Proof. intros Hi Hc. unfold at_space. now rewrite Hi, Hc. Qed.

Lemma at_space_same {A} i (c : MM A) w s a : spaces w !! i = Some s -> c (Mm s (wpool w)) = Done a (Mm s (wpool w)) -> at_space i c w = Done a w.
Proof. intros Hi Hc. rewrite (at_space_done _ _ _ _ _ _ _ Hi Hc), list_insert_id by exact Hi. now destruct w. Qed.

Lemma resources_users p y : resources p -> 2 * users_of p y + 1 < 2 ^ 32.
Proof. intros [_ Hu]. unfold users_of. destruct (pages p !! y) as [g|] eqn:Eg; cbn; [exact (Hu y g Eg)|lia]. Qed.

Lemma resources_headroom p : pool_ok p -> resources p -> headroom p.
Proof.
  intros Hp Hr y. pose proof (resources_users p y Hr). assert (0 <= users_of p y); [|lia].
  unfold users_of. destruct (pages p !! y) as [g|] eqn:Eg; cbn; [apply (pk_page _ Hp y g Eg)|lia].
Qed.

(** The step goes on from a good world to a good world. *)
Definition steps (o : vmop) (w : world) : Prop := exists r w', exec o w = Done r w' /\ world_ok w'.

Lemma mmap_steps i addr size pr fl w : world_ok w -> legal (Mmap i addr size pr fl) w -> regular (Mmap i addr size pr fl) w ->
  steps (Mmap i addr size pr fl) w.
Proof.
  intros Hw (s & Hi & Hh & Hsz) Hl. destruct (world_space w i s Hw Hi) as (xs & Hok & Hpv). unfold steps. cbn [exec].
  destruct (decide (has addr 4095 = true \/ has fl (Z.lor MAP_PRIVATE MAP_SHARED) = false)) as [Hr|Hr].
  - exists (u64 (-1)), w. split; [|exact Hw]. eapply at_space_same; [exact Hi|]. now apply mmap_refused.
  - assert (Hal : has addr 4095 = false) by (destruct (has addr 4095); [tauto|reflexivity]).
    assert (Hfl : has fl (Z.lor MAP_PRIVATE MAP_SHARED) = true) by (destruct (has fl _); [reflexivity|tauto]).
    assert (Hp : place_for s xs addr size) by (destruct (Hl s xs Hi (mo_space _ _ _ Hok)) as [|[|]]; [congruence..|assumption]).
    destruct (mmap_run _ _ _ addr size pr fl 0 0 0 Hok Hsz Hp Hh Hal Hfl ltac:(auto)) as (v & s' & p' & l1 & l2 & E & _ & _ & _ & Hx & Hok' & Ha & (Hpt & _) & _ & (_ & Hk & _) & Hpg).
    cbn [sp pl] in *. eexists v, _. split; [exact (at_space_done _ _ _ _ _ _ _ Hi E)|]. eapply world_update; [exact Hw|exact Hi|exact Hok'| |exact Hk|].
    + eapply (mmap_private s s' xs l1 l2 (heap s) _ (Z.to_nat (round_up size / 4096)) (wpool w) p' Hpv Hpg Hx Ha Hpt); [|reflexivity|reflexivity|exact Hfl|apply Hok].
      destruct (areas s !! heap s) eqn:Ex; [|reflexivity]. pose proof (so_areas _ _ (mo_space _ _ _ Hok) (heap s) ltac:(cbn; eauto)). cbn in *. lia.
    + intros pg _ _. unfold users_of. now rewrite Hpg.
Qed.

Lemma unmap_steps i v n w : world_ok w -> legal (Unmap i v n) w -> regular (Unmap i v n) w -> steps (Unmap i v n) w.
Proof.
  intros Hw (s & Hi) Hl. destruct (world_space w i s Hw Hi) as (xs & Hok & Hpv). pose proof (mo_space _ _ _ Hok) as Hs. cbn [sp] in Hs. unfold steps. cbn [exec].
  destruct (has v 4095) eqn:Hal.
  { exists (-1), w. split; [|exact Hw]. eapply at_space_same; [exact Hi|]. now apply (in_space_done _ (Mm s (wpool w))), unmap_refused. }
  destruct (unmap_run s xs v n Hs Hal) as [[E _]|(l1 & x & l2 & a & s' & -> & Ha & Hv & E & Hs' & Har & Hpt & _)].
  - exists (- ESRCH), w. split; [|exact Hw]. eapply at_space_same; [exact Hi|]. now apply (in_space_done _ (Mm s (wpool w))).
  - assert (v = va a) as -> by (apply (Hl _ _ x a Hi Hs); auto; apply elem_of_app; right; apply elem_of_cons; auto).
    eexists 0, _. split; [exact (at_space_done _ _ _ _ _ _ _ Hi (in_space_done _ (Mm s (wpool w)) _ _ E))|].
    apply (world_update w i s s' (l1 ++ l2)); auto; [| |apply pages_kept_refl|now intros pg _ _].
    + destruct Hok as [_ H2 H3 H4]. split; cbn [sp pl] in *; [exact Hs'|exact H2|now rewrite Har|exact H4].
    + eapply unmap_private; eauto. apply Hs.
Qed.

Lemma faulted_steps {A} i w s xs v x a err do_map cur pg s' (c : MM A) r : world_ok w -> spaces w !! i = Some s -> mm_ok (outside w s) (Mm s (wpool w)) xs ->
  private_ok s xs (wpool w) -> x ∈ xs -> areas s !! x = Some a -> va a <= v < va a + len a -> faulted (outside w s) (Mm s (wpool w)) xs v x a err do_map cur pg s' ->
  (if do_map then denied err a = false /\
     (shared a = false -> has (prot a) PROT_WRITE = true -> forall e, pt s !! (4096 * (v / 4096)) = Some e -> timely err (wpool w) e)
   else writes err a = false) ->
  c (Mm s (wpool w)) = Done r s' -> exists w', at_space i c w = Done r w' /\ world_ok w'.
Proof.
  intros Hw Hi Hok Hpv Hx Ha Hv F Hhw E. destruct s' as [s1 p1]. eexists. split; [exact (at_space_done _ _ _ _ _ _ _ Hi E)|].
  apply (world_update w i s s1 xs); auto; [apply F| |apply (ft_pool _ _ _ _ _ _ _ _ _ _ _ F)|].
  - exact (fault_private _ _ _ _ _ _ _ _ _ _ _ Hok Hpv Hx Ha Hv F Hhw).
  - exact (fault_others _ _ _ _ _ _ _ _ _ _ _ Hok Hpv Hx Ha F).
Qed.

Lemma lookup_in s xs v x : space_ok s xs -> x ∈ xs -> contains (areas s) v x -> lookup v s = Done x s.
Proof.
  intros Hs Hx Hc. destruct (lookup_spec s xs v Hs) as (y & -> & [[Hy Hc']|[_ Hn]]); [|now destruct (Hn x Hx)]. f_equal. symmetry.
  apply (found_unique (areas s) xs v y); [apply Hs|left; auto|eapply region_nonzero; [apply Hs|exact Hy]|exact Hx|exact Hc].
Qed.

Lemma fault_steps i v err w : world_ok w -> legal (Fault i v err) w -> regular (Fault i v err) w -> steps (Fault i v err) w.
Proof.
  intros Hw (s & Hi & Hr) Hl. destruct (world_space w i s Hw Hi) as (xs & Hok & Hpv). unfold steps. cbn [exec].
  destruct (pagefault_run get_shared _ _ _ v Hok (proj1 Hr) (resources_headroom _ (wo_pool _ Hw) Hr) err) as [[E _]|(x & a & Hx & Ha & Hv & E)].
  - exists (-1), w. split; [|exact Hw]. eapply at_space_same; eauto.
  - destruct (denied err a) eqn:Ed; [exists 0, w; split; [eapply at_space_same; eauto|exact Hw]|]. destruct E as (cur & pg & s' & E & F). exists 0.
    eapply faulted_steps; eauto. split; [exact Ed|]. intros Hs Hp e. apply (Hl s x a e Hi); auto.
    apply (lookup_in s xs v x (mo_space _ _ _ Hok) Hx). now exists a.
Qed.

Lemma getpage_steps i v w : world_ok w -> legal (Getpage i v) w -> steps (Getpage i v) w.
Proof.
  intros Hw (s & Hi & Hr). destruct (world_space w i s Hw Hi) as (xs & Hok & Hpv). unfold steps. cbn [exec].
  destruct (get_page_run get_shared _ _ _ v Hok (proj1 Hr) (resources_headroom _ (wo_pool _ Hw) Hr)) as [[E _]|(x & a & cur & pg & s' & Hx & Ha & Hv & E & F)].
  - exists 0, w. split; [|exact Hw]. eapply at_space_same; eauto.
  - exists pg. eapply faulted_steps; eauto. reflexivity.
Qed.

Lemma fork_steps i w : world_ok w -> legal (Forks i) w -> steps (Forks i) w.
Proof.
  intros Hw (s & Hi & Hr & Hnum). destruct (world_space w i s Hw Hi) as (xs & Hok & Hpv). unfold steps. cbn [exec].
  destruct (fork_run _ _ _ Hok) as (n & [s' p'] & ys & E & F); [|apply Hnum, Hok|].
  { intros y Hy. pose proof (resources_users _ y Hr) as Hu. pose proof (mo_users _ _ _ Hok y Hy) as Hs. pose proof (mo_ext _ _ _ Hok y). cbn [sp pl] in *. lia. }
  rewrite (bind_done _ _ _ _ _ (at_space_done _ _ _ _ _ _ _ Hi E)). eexists 0, _. split; [reflexivity|]. cbn [spaces wpool].
  pose proof (fk_pool _ _ _ _ _ _ F) as (Hp & Hk & _). destruct (wo_spaces _ Hw) as [xss Hs]. cbn [sp pl] in *. pose proof (fk_sp _ _ _ _ _ _ F) as Hsp. cbn [sp] in Hsp.
  split; cbn [spaces wpool]; [exact Hp| |].
  - intros y Hy. pose proof (fk_users _ _ _ _ _ _ F y Hy) as HU. cbn [sp pl] in HU. rewrite HU, total_snoc, (total_insert _ _ _ _ _ Hi), (fk_refs _ _ _ _ _ _ F). rewrite Hsp. unfold outside. cbn [set_pt areas sp]. lia.
  - exists (<[i := xs]> xss ++ [ys]). apply Forall2_app; [|constructor; [|constructor]; split; [apply F|exact (fork_child _ _ _ _ _ _ Hok Hpv F)]].
    apply Forall2_same_length_lookup_2; [rewrite !length_insert; apply (Forall2_length Hs)|]. intros j t zs Ht Hz. apply list_lookup_insert_Some in Ht as [(-> & -> & Hl)|[Hne Ht]].
    + rewrite list_lookup_insert_eq in Hz by (rewrite <- (Forall2_length Hs); exact Hl). injection Hz as <-. split; [|exact (fork_parent _ _ _ _ _ _ Hok Hpv F)].
      rewrite Hsp. apply space_set_pt, Hok.
    + rewrite list_lookup_insert_ne in Hz by exact Hne. apply (world_others w i s xss p' Hw Hi Hk (fork_others _ _ _ _ _ _ Hok F) Hs j); auto.
Qed.

Lemma op_steps o w : world_ok w -> legal o w -> regular o w -> steps o w.
Proof. destruct o; auto using mmap_steps, unmap_steps, fault_steps, getpage_steps, fork_steps. Qed.

Lemma init_ok l h p : pool_ok p -> pages p = ∅ -> world_ok (World [new_space l h] p).
Proof.
  intros Hp He. split; cbn [spaces wpool]; [exact Hp| |].
  - intros y _. unfold users_of. rewrite He, lookup_empty. reflexivity.
  - exists [[]]. constructor; [|constructor]. split; [apply new_space_ok|]. split.
    + intros v e Hv. cbn in Hv. now rewrite lookup_empty in Hv.
    + now intros x a k pg [Hx%elem_of_nil _].
    + now intros x a Hx%elem_of_nil.
Qed.

Lemma reachable_ok w : reachable w -> world_ok w.
Proof.
  induction 1 as [l h p Hp He|o w r w' _ IH Hl Hg E]; [now apply init_ok|]. destruct (op_steps o w IH Hl Hg) as (r' & w2 & E' & Hw). congruence.
Qed.
End world.
