(* ===== verification/SpaceProps.v ===== *)
(** * Address spaces: what the operations guarantee

    The theorems on [mm::space]: the search for a region, [mmap], [unmap] and
    pointer validation against the set of regions, copy on write, [fork], and the
    isolation of the spaces from each other. *)

From S2P Require Import Prelude CMem State WordMem Rbtree RbtreeSpec RbtreeProps Phys PhysProps Space SpaceTree SpacePages SpaceFault SpaceOps SpaceFork SpacePrivate SpaceWorld.

(** ** A system to look at *)

(** A space of anonymous memory; its second page is written, it is forked, and the
    new space writes that page too. *)
Definition demo_pool : pool := Pool ∅ 1 demo_kmem ∅ ∅.
Definition zeros : Z -> Z -> SM pool Z := fun _ _ => page_alloc.
Definition after (o : vmop) (w : world) : world := match exec zeros o w with Done _ w' => w' | _ => w end.
Definition demo_top : Z := 1048576.
Definition demo_va : Z := demo_top - 8192.
Definition demo0 : world := World [new_space 4096 demo_top] demo_pool.
Definition demo1 : world := after (Mmap 0 0 8000 3 MAP_PRIVATE) demo0.
Definition demo2 : world := after (Fault 0 (demo_va + 5000) FAULT_WRITE) demo1.
Definition demo3 : world := after (Forks 0) demo2.

#[local] Instance zeros_object : Vmobject zeros := zero_object.

Lemma demo_pool_ok : pool_ok demo_pool.
Proof.
  split; cbn [demo_pool pages next_page phys_mem]; [|intros x g Hx; now rewrite lookup_empty in Hx|intros x y g h Hx; now rewrite lookup_empty in Hx|lia].
  eexists. split; [exact demo_kmem_ok|]. intros x g Hx. now rewrite lookup_empty in Hx.
Qed.

Lemma reach_after o w r w' : reachable zeros w -> legal o w -> regular o w -> exec zeros o w = Done r w' -> reachable zeros w'.
Proof. apply reach_step. Qed.

Lemma demo0_reachable : reachable zeros demo0.
Proof. apply reach_init; [exact demo_pool_ok|reflexivity]. Qed.

Lemma demo1_reachable : reachable zeros demo1.
Proof.
  eapply (reach_after (Mmap 0 0 8000 3 MAP_PRIVATE) demo0); [exact demo0_reachable|eexists; split; [reflexivity|]; cbn; lia| |vm_compute; reflexivity].
  intros s xs [= <-] _. right; right. unfold place_for. cbn. change (round_up 8000) with 8192. unfold demo_top. split_and!; [lia|reflexivity|lia|].
  intros x a _ Ha. now rewrite lookup_empty in Ha.
Qed.

Lemma demo_resources w : bool_decide (33 <= nfree (phys_mem (wpool w))) && bool_decide (map_Forall (fun _ g => 2 * m_users g + 1 < 2 ^ 32) (pages (wpool w))) = true -> resources (wpool w).
Proof. intros [H1%bool_decide_eq_true H2%bool_decide_eq_true]%andb_true_iff. now split. Qed.

Lemma demo2_reachable : reachable zeros demo2.
Proof.
  eapply (reach_after (Fault 0 (demo_va + 5000) FAULT_WRITE) demo1); [exact demo1_reachable| | |vm_compute; reflexivity].
  - eexists. split; [vm_compute; reflexivity|]. apply demo_resources; vm_compute; reflexivity.
  - now right; left.
Qed.

Lemma regions_count s xs : space_ok s xs -> (length xs <= size (areas s))%nat.
Proof.
  intros [_ Hr _ _ _]. pose proof (regions_nodup _ _ Hr) as Hn. rewrite <- (size_list_to_set (C := gset Z)), <- (size_dom (D := gset Z)) by exact Hn.
  apply subseteq_size. intros x Hx%elem_of_list_to_set. apply elem_of_dom. now apply (ro_in _ _ Hr).
Qed.

Lemma demo3_reachable : reachable zeros demo3.
Proof.
  eapply (reach_after (Forks 0) demo2); [exact demo2_reachable| |exact I|vm_compute; reflexivity].
  eexists. split; [vm_compute; reflexivity|]. split; [apply demo_resources; vm_compute; reflexivity|]. intros xs Hs%regions_count.
  match type of Hs with (_ <= ?n)%nat => assert (n = 1%nat) as Hn by (vm_compute; reflexivity) end. lia.
Qed.


(** The space [i] of the system, with its regions. *)
Definition space_at (i : nat) (w : world) : space := default (new_space 0 0) (spaces w !! i).

Lemma demo_space w i : reachable zeros w -> is_Some (spaces w !! i) ->
  exists xs, mm_ok (outside w (space_at i w)) (Mm (space_at i w) (wpool w)) xs.
Proof.
  intros Hw [s Hi]. unfold space_at. rewrite Hi. destruct (world_space w i s (reachable_ok _ _ Hw) Hi) as (xs & Hok & _). eauto.
Qed.

(** ** Regions *)

(** In a space whose regions are in order and apart, [lookup] ends and returns
    the region that has the address, or null when none has; it changes nothing. *)
Lemma lookup_correct s xs v : space_ok s xs ->
  exists r, lookup v s = Done r s /\ ((r ∈ xs /\ contains (areas s) v r) \/ (r = 0 /\ forall x, x ∈ xs -> ~ contains (areas s) v x)).
Proof. apply lookup_spec. Qed.

Lemma lookup_correct_witness : lookup (demo_va + 8191) (space_at 0 demo2) = Done 16 (space_at 0 demo2) /\
  exists xs, space_ok (space_at 0 demo2) xs /\
    exists r, lookup (demo_va + 8192) (space_at 0 demo2) = Done r (space_at 0 demo2) /\
      ((r ∈ xs /\ contains (areas (space_at 0 demo2)) (demo_va + 8192) r) \/ (r = 0 /\ forall x, x ∈ xs -> ~ contains (areas (space_at 0 demo2)) (demo_va + 8192) x)).
Proof.
  split; [vm_compute; reflexivity|]. destruct (demo_space demo2 0 demo2_reachable) as [xs Hok]; [vm_compute; eauto|]. exists xs. split; [apply Hok|].
  apply lookup_correct, Hok.
Defined.

(** [mmap] refuses an address that is not at a page and flags that are neither
    private nor shared; otherwise, where there is place, it ends with a new region
    of whole pages at the address, or at one that no region touches, and with the
    counts of all pages as they were. *)
Lemma mmap_correct ext s xs addr size prot_ flags_ fd_ fobj off_ :
  mm_ok ext s xs -> 0 < size < 2 ^ 62 -> place_for (sp s) xs addr size -> heap (sp s) + 24 <= 2 ^ 64 -> (fd_ = 0 \/ fobj <> 0) ->
  if has addr 4095 || negb (has flags_ (Z.lor MAP_PRIVATE MAP_SHARED)) then mmap addr size prot_ flags_ fd_ fobj off_ s = Done (u64 (-1)) s
  else exists v s' l1 l2 a, mmap addr size prot_ flags_ fd_ fobj off_ s = Done v s' /\ (addr <> 0 -> v = addr) /\
    v mod 4096 = 0 /\ va a = v /\ size <= len a < size + 4096 /\ prot a = prot_ /\ flags a = flags_ /\ Forall (eq 0) (mappings a) /\
    (forall x b, x ∈ xs -> areas (sp s) !! x = Some b -> va a + len a <= va b \/ va b + len b <= va a) /\
    xs = l1 ++ l2 /\ areas (sp s') = <[heap (sp s) := a]> (areas (sp s)) /\ mm_ok ext s' (l1 ++ heap (sp s) :: l2) /\ pt (sp s') = pt (sp s) /\ pages (pl s') = pages (pl s).
Proof.
  intros Hok Hsz Hp Hh Hfd. destruct (has addr 4095) eqn:Hal; cbn [orb]; [apply mmap_refused; auto|]. destruct (has flags_ _) eqn:Hfl; cbn [negb]; [|apply mmap_refused; auto].
  destruct (mmap_run ext s xs addr size prot_ flags_ fd_ fobj off_ Hok Hsz Hp Hh Hal Hfl Hfd) as (v & s' & p' & l1 & l2 & E & Hv & (A1 & A2 & _) & Hc & Hx & Hok' & Ha & (Hpt & _) & _ & _ & Hpg).
  destruct (round_up_pages size Hsz) as (_ & _ & _ & Hr). exists v, (Mm s' p'), l1, l2, (fresh_area v size prot_ flags_ fd_ fobj off_). split; [exact E|]. split; [exact Hv|]. split; [exact A2|].
  split; [reflexivity|]. split; [exact Hr|]. split; [reflexivity|]. split; [reflexivity|]. split; [cbn; apply Forall_replicate; reflexivity|].
  split; [intros x b Hx' Hb; now apply (Hc x b)|]. auto 10.
Qed.

Lemma mmap_correct_witness :
  match mmap 0 4097 3 MAP_SHARED 0 0 0 (Mm (space_at 0 demo2) (wpool demo2)) with Done v s' => v = demo_va - 8192 | _ => False end /\
  exists xs v s' l1 l2, mm_ok (outside demo2 (space_at 0 demo2)) (Mm (space_at 0 demo2) (wpool demo2)) xs /\
    mmap 0 4097 3 MAP_SHARED 0 0 0 (Mm (space_at 0 demo2) (wpool demo2)) = Done v s' /\ xs = l1 ++ l2 /\ mm_ok (outside demo2 (space_at 0 demo2)) s' (l1 ++ heap (space_at 0 demo2) :: l2).
Proof.
  split; [vm_compute; reflexivity|]. destruct (demo_space demo2 0 demo2_reachable) as [xs Hok]; [vm_compute; eauto|]. exists xs.
  destruct (mmap_correct _ _ xs 0 4097 3 MAP_SHARED 0 0 0 Hok ltac:(lia)) as (v & s' & l1 & l2 & a & E & H1 & H2 & H3 & H4 & H5 & H6 & H7 & H8 & H9 & H10 & H11 & _).
  - unfold place_for. cbn [Z.eqb sp]. change (round_up 4097) with 8192. split; [vm_compute; reflexivity|]. split; [vm_compute; reflexivity|]. split; [vm_compute; discriminate|].
    intros x a _ Ha. assert (Hall : map_Forall (fun _ a => 8192 <= va a) (areas (space_at 0 demo2))) by (apply (proj1 (bool_decide_eq_true _)); vm_compute; reflexivity). exact (Hall x a Ha).
  - vm_compute. discriminate.
  - auto.
  - exists v, s', l1, l2. auto.
Defined.

(** [validate_pointer] of a process accepts exactly the ranges of which every page,
    the page of the address after the last one included, is in a region that
    gives the rights asked for. *)
Lemma validate_pointer_correct s xs raw n mode : space_ok s xs -> is_kspace s = false -> 0 <= raw -> 0 <= n -> raw + n < 2 ^ 63 ->
  exists b, validate_pointer raw n mode s = Done b s /\
    (b = true <-> forall p, raw / 4096 <= p <= (raw + n) / 4096 -> accessible (areas s) xs mode (p * 4096)).
Proof. apply validate_pointer_spec. Qed.

(** The last byte of a region is refused: the page after it is looked at too. *)
Lemma validate_pointer_correct_witness :
  validate_pointer (demo_va + 100) 8091 PROT_READ (space_at 0 demo2) = Done true (space_at 0 demo2) /\
  validate_pointer (demo_va + 100) 8092 PROT_READ (space_at 0 demo2) = Done false (space_at 0 demo2) /\
  exists xs, space_ok (space_at 0 demo2) xs /\ exists b, validate_pointer (demo_va + 100) 8092 PROT_READ (space_at 0 demo2) = Done b (space_at 0 demo2) /\
    (b = true <-> forall p, (demo_va + 100) / 4096 <= p <= (demo_va + 100 + 8092) / 4096 -> accessible (areas (space_at 0 demo2)) xs PROT_READ (p * 4096)).
Proof.
  split; [vm_compute; reflexivity|]. split; [vm_compute; reflexivity|]. destruct (demo_space demo2 0 demo2_reachable) as [xs Hok]; [vm_compute; eauto|].
  exists xs. split; [apply Hok|]. apply validate_pointer_correct; [apply Hok|vm_compute; reflexivity|unfold demo_va, demo_top; lia..].
Defined.

(** ** Faults *)

(** C31: a write fault in a private region that may be written succeeds and leaves the
    page table with the right to write for a page that has one user, this mapping,
    and that shows the bytes the region showed before: zeros, or the bytes of the
    page that was there; no other page changes and the counts of users stay exact. *)
Theorem write_fault_private get_shared `{Vmobject get_shared} ext s xs v err x a :
  mm_ok ext s xs -> 33 <= nfree (phys_mem (pl s)) -> headroom (pl s) -> x ∈ xs -> areas (sp s) !! x = Some a -> va a <= v < va a + len a ->
  has err FAULT_WRITE = true -> denied err a = false -> has (flags a) MAP_PRIVATE = true ->
  exists s' cur pg g e, pagefault get_shared v err s = Done 0 s' /\ mm_ok ext s' xs /\
    mappings a !! Z.to_nat ((v - va a) / 4096) = Some cur /\
    areas (sp s') = <[x := set_mappings (<[Z.to_nat ((v - va a) / 4096) := pg]> (mappings a)) a]> (areas (sp s)) /\
    pages (pl s') !! pg = Some g /\ m_users g = 1 /\
    pt (sp s') = <[4096 * (v / 4096) := e]> (pt (sp s)) /\ ppn e = Z.shiftr (pa g) 12 /\ writable e = true /\
    (forall b, shows (pl s) a cur b -> contents (pl s') !! pa g = Some b) /\ pages_kept (pl s) (pl s').
Proof.
  intros Hok Hf Hroom Hx Ha Hv Hw Hd Hpriv. assert (Hcon : contains (areas (sp s)) v x) by (now exists a).
  destruct (pagefault_run get_shared ext s xs v Hok Hf Hroom err) as [[_ Hn]|(y & b & Hy & Hb & Hvb & E)]; [now destruct (Hn x Hx)|].
  assert (x = y) as <-.
  { apply (found_unique (areas (sp s)) xs v y); [apply Hok|left; split; [exact Hy|now exists b]|eapply region_nonzero; [apply Hok|exact Hy]|exact Hx|exact Hcon]. }
  assert (b = a) as -> by congruence. rewrite Hd in E. destruct E as (cur & pg & s' & E & F). pose proof F as [F1 F2 (g & wt & nc & Hg & Hsp) F4 F5 F6 F7 F8 F9].
  assert (Hwr : writes err a = true).
  { unfold writes. rewrite Hw. unfold denied in Hd. rewrite Hw in Hd. destruct (has (prot a) PROT_WRITE); [reflexivity|discriminate]. }
  exists s', cur, pg, g. eexists. rewrite Hsp. split; [exact E|]. split; [exact F1|]. split; [exact F2|]. split; [reflexivity|]. split; [exact Hg|].
  split; [rewrite <- (users_of_some _ _ _ Hg); auto|]. split; [reflexivity|]. split; [reflexivity|]. split; [|split; [|apply F4]].
  - unfold writable. cbn [pprot]. unfold entry_prot. rewrite Hwr. unfold has. rewrite Z.land_lor_distr_l. destruct (Z.land _ PROT_WRITE); reflexivity.
  - intros b Hb'. destruct (F7 b Hb') as (g' & Hg' & Hc). congruence.
Qed.

(** The new space of a fork writes a page that both have: it gets a copy, and the
    old page has the other space as its only user. *)
Lemma write_fault_private_witness :
  exists xs s' cur pg g e, pagefault zeros (demo_va + 5001) FAULT_WRITE (Mm (space_at 1 demo3) (wpool demo3)) = Done 0 s' /\
    mm_ok (outside demo3 (space_at 1 demo3)) s' xs /\ cur = 1 /\ pages (pl s') !! pg = Some g /\ m_users g = 1 /\
    pt (sp s') = <[4096 * ((demo_va + 5001) / 4096) := e]> (pt (space_at 1 demo3)) /\ ppn e = Z.shiftr (pa g) 12 /\ writable e = true /\
    pages_kept (wpool demo3) (pl s') /\ users_of (wpool demo3) 1 = 2.
Proof.
  destruct (demo_space demo3 1 demo3_reachable) as [xs Hok]; [vm_compute; eauto|].
  assert (Hx : 16 ∈ xs).
  { destruct (lookup_spec _ _ (demo_va + 5001) (mo_space _ _ _ Hok)) as (r & E & [[Hr _]|[Hr _]]); [|subst r; vm_compute in E; discriminate].
    assert (r = 16) as <- by (vm_compute in E; congruence). exact Hr. }
  assert (Hres : resources (wpool demo3)) by (apply demo_resources; vm_compute; reflexivity).
  destruct (write_fault_private zeros _ _ xs (demo_va + 5001) FAULT_WRITE 16
    (Area demo_va 8192 0 3 MAP_PRIVATE 0 0 [0; 1]) Hok (proj1 Hres) (resources_headroom _ (mo_pool _ _ _ Hok) Hres) Hx)
    as (s' & cur & pg & g & e & E & H1 & H2 & H3 & H4 & H5 & H6 & H7 & H8 & _ & H9); [vm_compute; reflexivity|cbn; unfold demo_va, demo_top; lia|reflexivity..|].
  exists xs, s', cur, pg, g, e. vm_compute in H2. injection H2 as <-. split_and!; auto.
Defined.

(** ** [fork] *)

(** C32: [fork] ends; the new space has the same areas in the same order with the same
    pages, the old one keeps its own, the users of every page are counted in
    both, no byte changes, and both page tables have every mapped page, without
    the right to write. *)
Theorem fork_shares ext s xs : mm_ok ext s xs -> (forall y, y <> 0 -> users_of (pl s) y + refs (areas (sp s)) y < 2 ^ 32) -> 16 + 24 * Z.of_nat (length xs) <= 2 ^ 64 ->
  exists n s' ys, fork s = Done n s' /\ areas (sp s') = areas (sp s) /\ Forall2 (fun x y => areas n !! y = areas (sp s) !! x) xs ys /\
    mm_ok (fun y => ext y + refs (areas n) y) s' xs /\ mm_ok (fun y => ext y + refs (areas (sp s')) y) (Mm n (pl s')) ys /\ pages_kept (pl s) (pl s') /\
    forall x a k pg g, holds_page (sp s) xs x a k pg -> pages (pl s) !! pg = Some g ->
      exists e, pt (sp s') !! (va a + 4096 * Z.of_nat k) = Some e /\ pt n !! (va a + 4096 * Z.of_nat k) = Some e /\ ppn e = Z.shiftr (pa g) 12 /\ writable e = false.
Proof.
  intros Hok Hroom Hnum. destruct (fork_run ext s xs Hok Hroom Hnum) as (n & s' & ys & E & F). exists n, s', ys. pose proof (fork_areas _ _ _ _ _ _ F) as Har.
  pose proof F as [F1 (Hp & Hk & _) F3 F4 F5 F6 _ F8 _ F10 _]. split; [exact E|]. split; [exact Har|]. split; [exact F5|]. split; [|split; [|split; [exact Hk|]]].
  - split; [rewrite F1; apply space_set_pt, Hok|exact Hp| |]; intros y; [intros Hy; rewrite (F3 y Hy), Har, F6; lia|]. pose proof (mo_ext _ _ _ Hok y). pose proof (refs_nonneg (areas n) y). lia.
  - split; cbn [sp pl]; [exact F4|exact Hp| |]; intros y; [intros Hy; rewrite (F3 y Hy), Har, F6; lia|]. pose proof (mo_ext _ _ _ Hok y). pose proof (refs_nonneg (areas (sp s')) y). lia.
  - intros x a k pg g (H1 & H2 & H3 & H4) Hg. eexists. assert (Hro : ro_entry (pl s) (areas (sp s)) x (va a + 4096 * Z.of_nat k) (Pte (Z.shiftr (pa g) 12) (Z.land (prot a) (Z.lnot PROT_WRITE)) false false))
      by (exists a, k, pg, g; auto 10).
    split; [exact (F8 _ _ _ H1 Hro)|]. split; [exact (F10 _ _ _ H1 Hro)|]. split; [reflexivity|]. apply has_write_off.
Qed.

Lemma fork_shares_witness :
  exists xs n s' ys, fork (Mm (space_at 0 demo2) (wpool demo2)) = Done n s' /\ areas (sp s') = areas (space_at 0 demo2) /\
    Forall2 (fun x y => areas n !! y = areas (space_at 0 demo2) !! x) xs ys /\ mm_ok (fun y => outside demo2 (space_at 0 demo2) y + refs (areas n) y) s' xs /\
    users_of (wpool demo2) 1 = 1 /\ users_of (pl s') 1 = 2.
Proof.
  destruct (demo_space demo2 0 demo2_reachable) as [xs Hok]; [vm_compute; eauto|]. exists xs.
  destruct (fork_shares _ _ _ Hok) as (n & s' & ys & E & H1 & H2 & H3 & _).
  - intros y Hy. assert (Hres : resources (wpool demo2)) by (apply demo_resources; vm_compute; reflexivity). pose proof (resources_users _ y Hres).
    pose proof (mo_users _ _ _ Hok y Hy). pose proof (mo_ext _ _ _ Hok y). cbn [sp pl] in *. lia.
  - pose proof (regions_count _ _ (mo_space _ _ _ Hok)) as Hn. assert (size (areas (space_at 0 demo2)) = 1%nat) as Hs by (vm_compute; reflexivity). cbn [sp] in Hn. lia.
  - exists n, s', ys. split_and!; auto. revert E. vm_compute. now intros [= <- <-].
Defined.

(** ** All spaces *)






(** [unmap] inside a region deletes page table entries of the region above it.  After
    a fork, a read of a private page there maps it for writing while the other
    space still has it: this is why [regular] asks for the start of a region. *)
Definition middle_unmapped : world :=
  fold_left (fun w o => after o w)
    [Mmap 0 65536 8192 3 MAP_PRIVATE; Mmap 0 73728 4096 3 MAP_PRIVATE; Fault 0 65536 FAULT_WRITE; Fault 0 69632 FAULT_WRITE; Fault 0 73728 FAULT_WRITE;
     Forks 0; Unmap 0 69632 4096; Fault 0 73728 FAULT_READ] demo0.

Lemma unmap_middle_shares_writable :
  match pt (space_at 0 middle_unmapped) !! 73728, pt (space_at 1 middle_unmapped) !! 73728 with
  | Some e, Some e' => writable e = true /\ ppn e = ppn e'
  | _, _ => False
  end.
Proof. vm_compute. auto. Qed.

(** The entries below the address stay in the page table, in no region. *)
Lemma unmap_middle_leaves_entry :
  is_Some (pt (space_at 0 middle_unmapped) !! 65536) /\
  lookup 65536 (space_at 0 middle_unmapped) = Done 0 (space_at 0 middle_unmapped).
Proof. split; [vm_compute; eauto|vm_compute; reflexivity]. Qed.

(** Two threads of a process read a page that is not there yet.  The fault of the
    first maps it, a fork shares it, and the fault of the second, handled after
    the fork, maps it for writing although the new space has it too: this is why
    [regular] asks for faults that come in time. *)
Definition late_read : world :=
  fold_left (fun w o => after o w)
    [Mmap 0 65536 4096 3 MAP_PRIVATE; Fault 0 65536 FAULT_READ; Forks 0; Fault 0 65536 FAULT_READ] demo0.

Lemma late_read_shares_writable :
  match pt (space_at 0 late_read) !! 65536, pt (space_at 1 late_read) !! 65536 with
  | Some e, Some e' => writable e = true /\ ppn e = ppn e'
  | _, _ => False
  end.
Proof. vm_compute. auto. Qed.

(** A fault for a right that the region does not give is reported as handled. *)
Lemma denied_fault_returns_zero : 
  pagefault zeros demo_va FAULT_EXEC (Mm (space_at 0 demo2) (wpool demo2)) = Done 0 (Mm (space_at 0 demo2) (wpool demo2)).
Proof. vm_compute. reflexivity. Qed.

(** A second region at the address of another is lost, and its address is returned. *)
Lemma mmap_same_address_lost :
  match exec zeros (Mmap 0 demo_va 4096 3 MAP_PRIVATE) demo2 with
  | Done v w' => v = demo_va /\ lookup demo_va (space_at 0 w') = Done 16 (space_at 0 w')
  | _ => False
  end.
Proof. vm_compute. auto. Qed.
