(* ===== verification/Paging.v ===== *)
(** * x86 page tables (arch/x86/paging.cpp, arch/x86/mm.cpp)

    A page table is a tree of four levels of tables of 512 words.  Tables are pages
    of the page allocator, in physical memory, whose words are [tmem]; [p2v] and
    [conv] only change bits that physical addresses do not have.  Reading a word
    that nothing has written is [Fail], as is a panic; writing is always possible.
    The flushes of the translation buffer have no effect on memory. *)

From S2P Require Import Prelude CMem State Phys Space.

Record ptmem := Ptmem { tmem : gmap Z Z; tphys : kmem }.
Definition T : Type -> Type := SM ptmem.

Definition load_t (a : Z) : T Z := sopt (fun s => tmem s !! a).
Definition store_t (a v : Z) : T unit := modify (fun s => Ptmem (<[a := v]> (tmem s)) (tphys s)).
(** [&table[ind]] *)
Definition slot (table ind : Z) : Z := table + 8 * ind.

Definition PTE_P : Z := 1.
Definition PTE_W : Z := 2.
Definition PTE_U : Z := 4.
Definition PTE_PWT : Z := 8.
Definition PTE_D : Z := 64.
Definition PTE_PS : Z := 128.
Definition PTE_NX : Z := - 2 ^ 63.
Definition PAGE_SIZE : Z := 4096.
Definition LARGE_PAGE_SIZE : Z := 2097152.
Definition HUGE_PAGE_SIZE : Z := 1073741824.
Definition KERNEL_VIRTUAL_BASE : Z := 18446612132314218496.

Inductive pgsize := page_sz | large_sz | huge_sz | unknown_sz.

(** ** Tables *)

(** [phys::alloc] of one page, which clears it. *)
Fixpoint zero_words (n : nat) (a : Z) (m : gmap Z Z) : gmap Z Z :=
  match n with O => m | S n => <[a := 0]> (zero_words n (a + 8) m) end.
Definition phys_alloc_t : T Z := fun s =>
  match Phys.alloc [] 1 (tphys s) with
  | Done a k => Done a (Ptmem (zero_words 512 a (tmem s)) k)
  | Fail => Fail
  | Spin => Spin
  end.

Fixpoint clear_table (va : Z) (n : nat) (i : Z) : T unit :=
  match n with O => mret tt | S n => store_t (slot va i) 0;; clear_table va n (i + 1) end.
Definition alloc_page_dir : T Z :=
  new_table ← phys_alloc_t;
  clear_table new_table 512 0;;
  mret new_table.

Definition assert_page_size_alignment (addr psize : Z) : T unit :=
  if negb (Z.land addr (psize - 1) =? 0) then sfail else mret tt.
Definition assert_page_alignment (addr : Z) (size : pgsize) : T unit :=
  match size with
  | page_sz => assert_page_size_alignment addr PAGE_SIZE
  | large_sz => assert_page_size_alignment addr LARGE_PAGE_SIZE
  | huge_sz => assert_page_size_alignment addr HUGE_PAGE_SIZE
  | unknown_sz => mret tt
  end.

Definition size_flag (size : pgsize) : Z :=
  match size with large_sz | huge_sz => PTE_PS | _ => 0 end.

Definition conv (pta : Z) : Z := Z.land pta (u64 (Z.lnot 4095)).
(** [pti(va, i)] *)
Definition pti (va i : Z) : Z := Z.land (Z.shiftr (Z.shiftr va 12) (9 * i)) 511.

(** The loop of [find_mapping]: [n] levels down, from level [i]. *)
Fixpoint descend (n : nat) (va i table : Z) : T Z :=
  match n with
  | O => mret table
  | S n =>
      let ind := pti va i in
      e ← load_t (slot table ind);
      (if Z.land e 1 =? 0 then
         new_table ← alloc_page_dir;
         let pflags := Z.lor PTE_P PTE_W in
         let pflags := if va <? KERNEL_VIRTUAL_BASE then Z.lor pflags PTE_U else pflags in
         store_t (slot table ind) (Z.lor new_table pflags)
       else mret tt);;
      e ← load_t (slot table ind);
      descend n va (i - 1) (conv e)
  end.

Definition depth (size : pgsize) : Z := match size with large_sz => 1 | huge_sz => 2 | _ => 0 end.
Definition find_mapping (pml4 va : Z) (size : pgsize) : T Z :=
  assert_page_alignment va size;;
  table ← descend (Z.to_nat (3 - depth size)) va 3 (conv pml4);
  mret (slot table (pti va (depth size))).

Definition map_into (p4 va pa : Z) (size : pgsize) (flags : Z) : T unit :=
  pte ← find_mapping p4 va size;
  load_t pte;;
  store_t pte (Z.lor (Z.lor (Z.land pa (u64 (Z.lnot 4095))) flags) (size_flag size)).

(** ** The methods of [x86::pagetable] *)

(** [flags] is an [int] and is passed as a [u16]. *)
Definition add_mapping (pml4 va : Z) (p : pte) : T Z :=
  let flags := PTE_P in
  let flags := if va <? KERNEL_VIRTUAL_BASE then Z.lor flags PTE_U else flags in
  let flags := if has (pprot p) PROT_WRITE then Z.lor flags PTE_W else flags in
  let flags := if Z.land (pprot p) PROT_EXEC =? 0 then s32 (Z.lor flags PTE_NX) else flags in
  let flags := if nocache p then Z.lor flags PTE_D else flags in
  let flags := if writethrough p then Z.lor flags PTE_PWT else flags in
  map_into pml4 va (u64 (Z.shiftl (ppn p) 12)) page_sz (u16 flags);;
  mret 0.

(** What [get_mapping] sets: the page number and the rights. *)
Definition get_mapping (pml4 va : Z) : T (Z * Z) :=
  a ← find_mapping pml4 va page_sz;
  e ← load_t a;
  let prot := PROT_READ in
  let prot := if has e PTE_W then Z.lor prot PROT_WRITE else prot in
  let prot := if Z.land e (u64 PTE_NX) =? 0 then Z.lor prot PROT_EXEC else prot in
  mret (Z.shiftr e 12, prot).

Definition del_mapping (pml4 va : Z) : T Z :=
  a ← find_mapping pml4 va page_sz;
  store_t a 0;;
  mret 0.

(** The constructor: the kernel's entries of the top table. *)
Fixpoint copy_kernel (kptable pptable : Z) (n : nat) (i : Z) : T unit :=
  match n with
  | O => mret tt
  | S n =>
      e ← load_t (slot kptable i);
      if e =? 0 then mret tt
      else store_t (slot pptable i) e;; copy_kernel kptable pptable n (i + 1)
  end.
Definition pagetable (kptable pml4 : Z) : T unit :=
  if negb (kptable =? pml4) then copy_kernel kptable pml4 240 272 else mret tt.
Definition create (kptable : Z) : T Z :=
  pml4 ← phys_alloc_t;
  pagetable kptable pml4;;
  mret pml4.

(** ** Freeing a table *)

Definition free_t (a : Z) : T unit := fun s =>
  match Phys.free a 1 (tphys s) with Done _ k => Done tt (Ptmem (tmem s) k) | Fail => Fail | Spin => Spin end.

(** The loop over the entries of a table. *)
Fixpoint each_entry (table : Z) (n : nat) (i : Z) (f : Z -> T unit) : T unit :=
  match n with
  | O => mret tt
  | S n =>
      e ← load_t (slot table i);
      (if negb (e =? 0) then f e else mret tt);;
      each_entry table n (i + 1) f
  end.

Definition free_p2 (p2 : Z) : T unit :=
  each_entry p2 512 0 (fun e =>
    if Z.land e PTE_P =? 0 then mret tt
    else if negb (Z.land e PTE_PS =? 0) then free_t (conv e)
    else free_t (conv e));;
  free_t p2.

Definition free_p3 (p3 : Z) : T unit :=
  each_entry p3 512 0 (fun e =>
    if Z.land e PTE_P =? 0 then mret tt
    else if negb (Z.land e PTE_PS =? 0) then free_t (conv e)
    else free_p2 (conv e));;
  free_t p3.

(** Only the lower half, of user space. *)
Definition free_table (cr3 : Z) : T unit :=
  each_entry cr3 272 0 (fun e => free_p3 (conv e));;
  free_t cr3.
