(* ===== verification/PagingProps.v ===== *)
(** * x86 page tables: what the tree of tables means

    The tables of a page table by their path, the indices that lead to them; the
    walk finds the table of an address or makes it; and the methods of the page
    table are those of a map from pages to entries. *)

From S2P Require Import Prelude CMem State Phys PhysProps Space Paging.

Ltac prun E := rewrite (bind_done _ _ _ _ _ E).

Lemma load_done s a w : tmem s !! a = Some w -> load_t a s = Done w s.
Proof. intros H. unfold load_t, sopt. now rewrite H. Qed.

(** ** Words of a table *)

Definition aligned (t : Z) : Prop := 0 < t < 2 ^ 60 /\ t mod 4096 = 0.

Lemma slot_inj t t' i i' : aligned t -> aligned t' -> 0 <= i < 512 -> 0 <= i' < 512 -> slot t i = slot t' i' -> t = t' /\ i = i'.
Proof. unfold aligned, slot. intros. Z.div_mod_to_equations. lia. Qed.

(** [m'] is [m] with [n] words from [a] on cleared. *)
Definition cleared_words (n : Z) (a : Z) (m m' : gmap Z Z) : Prop :=
  (forall i, 0 <= i < n -> m' !! slot a i = Some 0) /\ (forall x, (forall i, 0 <= i < n -> x <> slot a i) -> m' !! x = m !! x).

Lemma zero_words_spec n : forall a m, cleared_words (Z.of_nat n) a m (zero_words n a m).
Proof.
  induction n as [|n IH]; intros a m; cbn [zero_words]; [split; [lia|reflexivity]|]. destruct (IH (a + 8) m) as [H1 H2]. split.
  - intros i Hi. destruct (decide (i = 0)) as [->|H0]; [unfold slot; rewrite Z.mul_0_r, Z.add_0_r; apply lookup_insert_eq|].
    unfold slot in *. rewrite lookup_insert_ne by lia. replace (a + 8 * i) with (a + 8 + 8 * (i - 1)) by lia. apply H1. lia.
  - intros x Hx. pose proof (Hx 0 ltac:(lia)) as H0. unfold slot in *. rewrite lookup_insert_ne by lia. apply H2. intros i Hi. specialize (Hx (i + 1) ltac:(lia)). lia.
Qed.

Lemma clear_table_spec n : forall va i s, exists m', clear_table va n i s = Done tt (Ptmem m' (tphys s)) /\ cleared_words (Z.of_nat n) (slot va i) (tmem s) m'.
Proof.
  induction n as [|n IH]; intros va i s; cbn [clear_table].
  - exists (tmem s). split; [now destruct s|]. split; [lia|reflexivity].
  - destruct (IH va (i + 1) (Ptmem (<[slot va i := 0]> (tmem s)) (tphys s))) as (m' & E & H1 & H2). exists m'.
    split; [rewrite (bind_done (store_t _ _) _ s tt _ eq_refl); exact E|]. unfold cleared_words, slot in *. cbn [tmem] in *. split.
    + intros j Hj. destruct (decide (j = 0)) as [->|H0].
      * rewrite H2 by (intros; lia). rewrite Z.mul_0_r, Z.add_0_r. apply lookup_insert_eq.
      * specialize (H1 (j - 1) ltac:(lia)). replace (va + 8 * i + 8 * j) with (va + 8 * (i + 1) + 8 * (j - 1)) by lia. exact H1.
    + intros x Hx. rewrite H2. { apply lookup_insert_ne. specialize (Hx 0 ltac:(lia)). lia. }
      intros j Hj. specialize (Hx (j + 1) ltac:(lia)). lia.
Qed.

Lemma cleared_trans n a m m1 m2 : cleared_words n a m m1 -> cleared_words n a m1 m2 -> cleared_words n a m m2.
Proof. intros [H1 H2] [H3 H4]. split; [exact H3|]. intros x Hx. rewrite H4, H2 by exact Hx. reflexivity. Qed.

(** A new table: a free page, all of its words cleared, nothing else changed. *)
Definition new_page (bs bs' : list block) (a : Z) : Prop :=
  aligned a /\ cover bs a = 1 /\ cover bs' a = 0 /\ (forall x, cover bs' x + b2z (in_block (a, 1) x) = cover bs x) /\ total bs' = total bs - 1.

Lemma phys_alloc_t_spec s bs : phys_ok (tphys s) bs -> 32 <= nfree (tphys s) ->
  exists a s' bs', phys_alloc_t s = Done a s' /\ phys_ok (tphys s') bs' /\ nfree (tphys s') = nfree (tphys s) - 1 /\
    new_page bs bs' a /\ cleared_words 512 a (tmem s) (tmem s').
Proof.
  intros Hp Hf. destruct (phys_alloc_one _ _ Hp Hf) as (a & k & bs' & E & H1 & H2 & H3 & H4 & H5 & H6 & H7).
  exists a, (Ptmem (zero_words 512 a (tmem s)) k), bs'. unfold phys_alloc_t. rewrite E. split; [reflexivity|]. split; [exact H1|]. split; [exact H2|].
  assert (total bs' = total bs - 1) by (rewrite <- (po_nfree _ _ H1), <- (po_nfree _ _ Hp); lia).
  split; [split; [split; assumption|auto]|]. exact (zero_words_spec 512 a (tmem s)).
Qed.

Lemma alloc_page_dir_spec s bs : phys_ok (tphys s) bs -> 32 <= nfree (tphys s) ->
  exists a s' bs', alloc_page_dir s = Done a s' /\ phys_ok (tphys s') bs' /\ nfree (tphys s') = nfree (tphys s) - 1 /\
    new_page bs bs' a /\ cleared_words 512 a (tmem s) (tmem s').
Proof.
  intros Hp Hf. destruct (phys_alloc_t_spec s bs Hp Hf) as (a & s1 & bs' & E & H1 & H2 & H3 & H4). destruct (clear_table_spec 512 a 0 s1) as (m' & E' & H5).
  exists a, (Ptmem m' (tphys s1)), bs'. unfold alloc_page_dir. prun E. prun E'. split; [reflexivity|]. split; [exact H1|]. split; [exact H2|]. split; [exact H3|].
  unfold slot in H5. rewrite Z.mul_0_r, Z.add_0_r in H5. eapply cleared_trans; eassumption.
Qed.

(** ** The tree *)

(** Entries that lead to tables of this page table: the upper half of the top table
    is the kernel's. *)
Definition walkable (p : list Z) (i : Z) : Prop := 0 <= i < 512 /\ (p = [] -> i < 272).
Abbreviation paths := (gmap (list Z) Z).

Record tables_ok (s : ptmem) (root : Z) (P : paths) (bs : list block) : Prop := {
  tb_phys : phys_ok (tphys s) bs;
  tb_root : P !! [] = Some root;
  tb_page : forall p t, P !! p = Some t -> aligned t /\ cover bs t = 0;
  tb_inj : forall p q t, P !! p = Some t -> P !! q = Some t -> p = q;
  tb_words : forall p t i, P !! p = Some t -> 0 <= i < 512 -> is_Some (tmem s !! slot t i);
  (** The entries of upper tables. *)
  tb_entry : forall p t i w, P !! p = Some t -> (length p < 3)%nat -> walkable p i -> tmem s !! slot t i = Some w ->
    if Z.land w 1 =? 0 then w = 0 /\ P !! (p ++ [i]) = None else P !! (p ++ [i]) = Some (conv w) /\ Z.land w PTE_PS = 0;
  (** Every table is below one of its tables. *)
  tb_path : forall p i t, P !! (p ++ [i]) = Some t -> is_Some (P !! p) /\ walkable p i /\ (length p < 3)%nat }.

(** The entry [i] of the last table of the path [q], 0 when there is no table. *)
Definition leaf (s : ptmem) (P : paths) (q : list Z) (i : Z) : Z :=
  match P !! q with Some t => default 0 (tmem s !! slot t i) | None => 0 end.

(** How many tables have the address [x]. *)
Definition in_tables (P : paths) (x : Z) : Z := map_fold (fun _ t n => b2z (in_block (t, 1) x) + n) 0 P.

Lemma in_tables_insert P p c x : P !! p = None -> in_tables (<[p := c]> P) x = b2z (in_block (c, 1) x) + in_tables P x.
Proof. intros H. unfold in_tables. rewrite map_fold_insert_L; [reflexivity| |exact H]. intros. lia. Qed.

(** No page is lost. *)
Definition conserved (P : paths) (bs : list block) (P' : paths) (bs' : list block) : Prop :=
  (forall x, cover bs' x + in_tables P' x = cover bs x + in_tables P x) /\ total bs' + Z.of_nat (size P') = total bs + Z.of_nat (size P).

Lemma conserved_trans P bs P1 b1 P2 b2 : conserved P bs P1 b1 -> conserved P1 b1 P2 b2 -> conserved P bs P2 b2.
Proof. intros [H1 H2] [H3 H4]. split; [intros x; now rewrite H3|lia]. Qed.

(** The tree after a step that may have made tables, from free pages: no leaf
    changed. *)
Record grown (s : ptmem) (P : paths) (bs : list block) (s' : ptmem) (P' : paths) (bs' : list block) : Prop := {
  gr_pages : conserved P bs P' bs';
  gr_leaf : forall q i, length q = 3%nat -> 0 <= i < 512 -> leaf s' P' q i = leaf s P q i }.

Lemma grown_refl s P bs : grown s P bs s P bs.
Proof. now split. Qed.
Lemma grown_trans s P bs s1 P1 b1 s2 P2 b2 : grown s P bs s1 P1 b1 -> grown s1 P1 b1 s2 P2 b2 -> grown s P bs s2 P2 b2.
Proof. intros [H1 H2] [H3 H4]. split; [now apply (conserved_trans _ _ P1 b1)|]. intros q i Hq Hi. rewrite H4, H2 by assumption. reflexivity. Qed.

Lemma snoc_inj {A} (p q : list A) i j : p ++ [i] = q ++ [j] -> p = q /\ i = j.
Proof. intros H. apply app_inj_tail in H. exact H. Qed.

Lemma snoc_ne {A} (p : list A) i : p ++ [i] <> p.
Proof. intros H. apply (f_equal length) in H. rewrite length_app in H. cbn in H. lia. Qed.

(** ** A table is added *)

Section add_table.
Context (s : ptmem) (root : Z) (P : paths) (bs bs' : list block) (p : list Z) (t i w c e : Z) (m1 : gmap Z Z) (k1 : kmem).
Hypothesis Hok : tables_ok s root P bs.
Hypothesis Hp : P !! p = Some t.
Hypothesis Hlen : (length p < 3)%nat.
Hypothesis Hi : walkable p i.
Hypothesis Hw : tmem s !! slot t i = Some w.
Hypothesis Habs : Z.land w 1 = 0.
Hypothesis Hphys : phys_ok k1 bs'.
Hypothesis Hnew : new_page bs bs' c.
Hypothesis Hclr : cleared_words 512 c (tmem s) m1.
Hypothesis He1 : Z.land e 1 <> 0.
Hypothesis He2 : conv e = c.
Hypothesis He3 : Z.land e PTE_PS = 0.
Let s2 : ptmem := Ptmem (<[slot t i := e]> m1) k1.
Let P2 : paths := <[p ++ [i] := c]> P.

Lemma table_ne q u : P !! q = Some u -> u <> c.
Proof. intros Hq ->. destruct (tb_page _ _ _ _ Hok q c Hq) as [_ H0]. destruct Hnew as (_ & H1 & _). lia. Qed.

Lemma path_free : P !! (p ++ [i]) = None.
Proof. pose proof (tb_entry _ _ _ _ Hok p t i w Hp Hlen Hi Hw) as H. rewrite Habs in H. apply H. Qed.

(** The words of the old tables, and of the new one. *)
Lemma old_word q u j : P !! q = Some u -> 0 <= j < 512 -> (q, j) <> (p, i) -> tmem s2 !! slot u j = tmem s !! slot u j.
Proof.
  intros Hq Hj Hne. destruct (tb_page _ _ _ _ Hok q u Hq) as [Hu _]. destruct (tb_page _ _ _ _ Hok p t Hp) as [Ht _]. pose proof Hnew as (Hc & _). cbn [s2 tmem].
  rewrite lookup_insert_ne.
  - apply Hclr. intros l Hl Heq. destruct (slot_inj _ _ _ _ Hu Hc Hj Hl Heq) as [He _]. now apply (table_ne q u Hq).
  - intros Heq. destruct (slot_inj _ _ _ _ Ht Hu (proj1 Hi) Hj Heq) as [<- <-]. apply Hne. f_equal. eapply tb_inj; eauto.
Qed.

Lemma new_word j : 0 <= j < 512 -> tmem s2 !! slot c j = Some 0.
Proof.
  intros Hj. destruct (tb_page _ _ _ _ Hok p t Hp) as [Ht _]. pose proof Hnew as (Hc & _). cbn [s2 tmem]. rewrite lookup_insert_ne; [now apply Hclr|].
  intros Heq. destruct (slot_inj _ _ _ _ Ht Hc (proj1 Hi) Hj Heq) as [Htc _]. exact (table_ne p t Hp Htc).
Qed.

Lemma this_word : tmem s2 !! slot t i = Some e.
Proof. apply lookup_insert_eq. Qed.

(** Nothing is below the new path. *)
Lemma no_child j : P !! ((p ++ [i]) ++ [j]) = None.
Proof.
  destruct (P !! ((p ++ [i]) ++ [j])) as [u|] eqn:Eu; [|reflexivity]. destruct (tb_path _ _ _ _ Hok _ _ _ Eu) as ([v Hv] & _). now rewrite path_free in Hv.
Qed.

Lemma add_table_entry q u j w' : P2 !! q = Some u -> (length q < 3)%nat -> walkable q j -> tmem s2 !! slot u j = Some w' ->
  if Z.land w' 1 =? 0 then w' = 0 /\ P2 !! (q ++ [j]) = None else P2 !! (q ++ [j]) = Some (conv w') /\ Z.land w' PTE_PS = 0.
Proof.
  intros Hq Hl Hj Hw'. unfold P2 in *. apply lookup_insert_Some in Hq as [[<- <-]|[Hqne Hq]].
  - rewrite new_word in Hw' by apply Hj. injection Hw' as <-. cbn. rewrite lookup_insert_ne by (intros H; symmetry in H; now apply snoc_ne in H). split; [reflexivity|apply no_child].
  - destruct (decide ((q, j) = (p, i))) as [[= -> ->]|Hne].
    + assert (u = t) as -> by congruence. rewrite this_word in Hw'. injection Hw' as <-. rewrite (proj2 (Z.eqb_neq _ 0) He1), He2. split; [apply lookup_insert_eq|exact He3].
    + rewrite (old_word q u j Hq (proj1 Hj) Hne) in Hw'. rewrite lookup_insert_ne; [now apply (tb_entry _ _ _ _ Hok q u)|]. intros [-> ->]%snoc_inj. now apply Hne.
Qed.

Lemma add_table_ok : tables_ok s2 root P2 bs'.
Proof.
  pose proof Hnew as (Hc & Hc1 & Hc0 & Hle & _). split.
  - exact Hphys.
  - unfold P2. rewrite lookup_insert_ne; [apply Hok|]. now destruct p.
  - intros q u. unfold P2. rewrite lookup_insert_Some. intros [[_ <-]|[_ Hq]]; [auto|]. destruct (tb_page _ _ _ _ Hok q u Hq) as [H1 H2]. split; [exact H1|].
    specialize (Hle u). pose proof (cover_nonneg bs' u). pose proof (b2z_range (in_block (c, 1) u)). lia.
  - intros q r u. unfold P2. rewrite !lookup_insert_Some. intros [[<- <-]|[_ Hq]] [[<- Hr]|[_ Hr]]; [reflexivity| | |].
    + now destruct (table_ne _ _ Hr).
    + subst u. now destruct (table_ne _ _ Hq).
    + eapply tb_inj; eauto.
  - intros q u j. unfold P2. rewrite lookup_insert_Some. intros [[_ <-]|[_ Hq]] Hj; [rewrite new_word by exact Hj; eauto|].
    destruct (decide ((q, j) = (p, i))) as [[= -> ->]|Hne]; [assert (u = t) as -> by congruence; rewrite this_word; eauto|].
    rewrite (old_word q u j Hq Hj Hne). eapply tb_words; eauto.
  - exact add_table_entry.
  - intros q j u. unfold P2. rewrite lookup_insert_Some. intros [[[<- <-]%snoc_inj _]|[_ Hq]].
    + rewrite lookup_insert_ne by apply snoc_ne. split; [eauto|]. split; [exact Hi|exact Hlen].
    + destruct (tb_path _ _ _ _ Hok _ _ _ Hq) as (H1 & H2 & H3). split; [|auto]. apply lookup_insert_is_Some'. auto.
Qed.

Lemma add_table_grown : grown s P bs s2 P2 bs'.
Proof.
  pose proof Hnew as (_ & _ & _ & Hx & Ht). split.
  { split; [intros x; unfold P2; rewrite in_tables_insert by apply path_free; specialize (Hx x); lia|]. unfold P2. rewrite map_size_insert_None by apply path_free. lia. }
  intros q j Hq Hj. unfold leaf, P2. destruct (decide (p ++ [i] = q)) as [<-|Hne].
  - rewrite lookup_insert_eq, path_free, new_word by exact Hj. reflexivity.
  - rewrite lookup_insert_ne by exact Hne. destruct (P !! q) as [u|] eqn:Eu; [|reflexivity]. rewrite (old_word q u j Eu Hj); [reflexivity|]. intros [= -> ->]. lia.
Qed.
End add_table.

(** ** The walk *)

Lemma land_low c f : c mod 4096 = 0 -> 0 <= f < 4096 -> Z.land c f = 0.
Proof.
  intros Hm Hf. rewrite <- (Z.mod_small f 4096 Hf) at 1. change 4096 with (2 ^ 12) in *. rewrite <- Z.land_ones by lia.
  rewrite (Z.land_comm f), Z.land_assoc, Z.land_ones, Hm by lia. apply Z.land_0_l.
Qed.

Lemma lor_low c f : c mod 4096 = 0 -> 0 <= f < 4096 -> Z.lor c f = c + f.
Proof. intros Hm Hf. pose proof (land_low c f Hm Hf) as Hl. rewrite <- Z.lxor_lor, <- Z.add_nocarry_lxor by exact Hl. reflexivity. Qed.

Lemma conv_low c f : aligned c -> 0 <= f < 4096 -> conv (Z.lor c f) = c.
Proof.
  intros [H1 H2] Hf. rewrite lor_low by (apply H2 || lia). unfold conv. rewrite page_floor by lia. Z.div_mod_to_equations; lia.
Qed.

Lemma present c f : Z.land f 1 = 1 -> Z.land (Z.lor c f) 1 <> 0.
Proof.
  intros Hf. rewrite Z.land_lor_distr_l, Hf. intros H. apply Z.lor_eq_0_iff in H. lia.
Qed.

(** One level down: the table is there, or it is made. *)
Lemma descend_step s root P bs p t va i : tables_ok s root P bs -> P !! p = Some t -> (length p < 3)%nat -> walkable p (pti va i) -> 32 <= nfree (tphys s) ->
  exists e s' P' bs', (forall n, descend (S n) va i t s = descend n va (i - 1) (conv e) s') /\
    tables_ok s' root P' bs' /\ grown s P bs s' P' bs' /\ P' !! (p ++ [pti va i]) = Some (conv e) /\ nfree (tphys s) - 1 <= nfree (tphys s').
Proof.
  intros Hok Hp Hl Hi Hf. destruct (tb_words _ _ _ _ Hok p t (pti va i) Hp (proj1 Hi)) as [w Hw]. pose proof (tb_entry _ _ _ _ Hok _ _ _ _ Hp Hl Hi Hw) as He.
  cbn [descend]. destruct (Z.eqb_spec (Z.land w 1) 0) as [Hz|Hz].
  - destruct (alloc_page_dir_spec s bs (tb_phys _ _ _ _ Hok) Hf) as (c & s1 & bs' & E & Hph & Hn & Hnew & Hclr).
    set (fl := if va <? KERNEL_VIRTUAL_BASE then Z.lor (Z.lor PTE_P PTE_W) PTE_U else Z.lor PTE_P PTE_W).
    assert (Hfl : 0 <= fl < 4096 /\ Z.land fl 1 = 1 /\ Z.land fl PTE_PS = 0)
      by (unfold fl; destruct (va <? _); (split; [split; [vm_compute; discriminate|reflexivity]|split; reflexivity])). destruct Hfl as (Hf1 & Hf2 & Hf3).
    pose proof (conv_low c fl (proj1 Hnew) Hf1) as Hconv. pose proof (present c fl Hf2) as Hpre.
    assert (Hps : Z.land (Z.lor c fl) PTE_PS = 0) by (rewrite Z.land_lor_distr_l, Hf3, land_low; [reflexivity|apply Hnew|unfold PTE_PS; lia]).
    exists (Z.lor c fl), (Ptmem (<[slot t (pti va i) := Z.lor c fl]> (tmem s1)) (tphys s1)), (<[p ++ [pti va i] := c]> P), bs'.
    split; [|split; [|split; [|split]]].
    + intros n. prun (load_done _ _ _ Hw). rewrite Hz. cbn [Z.eqb].
      match goal with |- (?cmd ≫= _) _ = _ => assert (E2 : cmd s = Done tt (Ptmem (<[slot t (pti va i) := Z.lor c fl]> (tmem s1)) (tphys s1))) by (now prun E) end.
      prun E2. assert (E3 : load_t (slot t (pti va i)) (Ptmem (<[slot t (pti va i) := Z.lor c fl]> (tmem s1)) (tphys s1)) = Done (Z.lor c fl) (Ptmem (<[slot t (pti va i) := Z.lor c fl]> (tmem s1)) (tphys s1)))
        by (apply load_done, lookup_insert_eq). now prun E3.
    + eapply add_table_ok; eauto.
    + eapply add_table_grown; eauto.
    + rewrite Hconv. apply lookup_insert_eq.
    + cbn. lia.
  - exists w, s, P, bs. split; [|split; [exact Hok|split; [apply grown_refl|split; [exact (proj1 He)|lia]]]].
    intros n. prun (load_done _ _ _ Hw). rewrite (proj2 (Z.eqb_neq _ 0) Hz). rewrite (bind_done (mret tt) _ s tt s eq_refl). now prun (load_done _ _ _ Hw).
Qed.

(** The indices of the tables of an address. *)
Definition path (va : Z) : list Z := [pti va 3; pti va 2; pti va 1].

Lemma pti_range va i : 0 <= pti va i < 512.
Proof. unfold pti. change 511 with (Z.ones 9). rewrite Z.land_ones by lia. change 512 with (2 ^ 9). apply Z.mod_pos_bound. lia. Qed.

(** A user address: page aligned, in the lower half of the top table. *)
Definition user_page (va : Z) : Prop := 0 <= va < 2 ^ 47 /\ va mod 4096 = 0.

Lemma user_top va : user_page va -> pti va 3 < 272.
Proof.
  intros [H1 H2]. unfold pti. rewrite !Z.shiftr_div_pow2 by lia. change 511 with (Z.ones 9). rewrite Z.land_ones by lia.
  rewrite Z.div_div by lia. change (2 ^ 12 * 2 ^ (9 * 3)) with (2 ^ 39). assert (0 <= va / 2 ^ 39 < 256) by (split; [apply Z.div_pos; lia|apply Z.div_lt_upper_bound; lia]).
  rewrite Z.mod_small by lia. lia.
Qed.

Lemma find_mapping_spec s root P bs va : tables_ok s root P bs -> user_page va -> 34 <= nfree (tphys s) ->
  exists t s' P' bs', find_mapping root va page_sz s = Done (slot t (pti va 0)) s' /\ tables_ok s' root P' bs' /\ grown s P bs s' P' bs' /\
    P' !! path va = Some t /\ nfree (tphys s) - 3 <= nfree (tphys s').
Proof.
  intros Hok Hva Hf. pose proof (user_top va Hva) as Htop. pose proof (pti_range va) as Hr.
  destruct (descend_step s root P bs [] root va 3 Hok (tb_root _ _ _ _ Hok)) as (e1 & s1 & P1 & b1 & E1 & T1 & G1 & H1 & N1); [cbn; lia|split; auto|lia|].
  destruct (descend_step s1 root P1 b1 _ _ va 2 T1 H1) as (e2 & s2 & P2 & b2 & E2 & T2 & G2 & H2 & N2); [cbn; lia|split; [auto|discriminate]|lia|].
  destruct (descend_step s2 root P2 b2 _ _ va 1 T2 H2) as (e3 & s3 & P3 & b3 & E3 & T3 & G3 & H3 & N3); [cbn; lia|split; [auto|discriminate]|lia|].
  exists (conv e3), s3, P3, b3. split; [|split; [exact T3|split; [eapply grown_trans; [eapply grown_trans; eassumption|eassumption]|split; [exact H3|lia]]]].
  unfold find_mapping, assert_page_alignment, assert_page_size_alignment, PAGE_SIZE. change (4096 - 1) with (Z.ones 12). rewrite Z.land_ones by lia.
  change (2 ^ 12) with 4096. rewrite (proj2 Hva). cbn [Z.eqb negb]. rewrite (bind_done (mret tt) _ s tt s eq_refl). change (Z.to_nat (3 - depth page_sz)) with 3%nat.
  assert (Hc : conv root = root).
  { destruct (tb_page _ _ _ _ Hok [] root (tb_root _ _ _ _ Hok)) as [[A1 A2] _]. unfold conv. rewrite page_floor by lia. Z.div_mod_to_equations; lia. }
  rewrite Hc. assert (E : descend 3 va 3 root s = Done (conv e3) s3) by (rewrite E1; change (3 - 1) with 2; rewrite E2; change (2 - 1) with 1; now rewrite E3). now prun E.
Qed.

(** ** Entries *)

Lemma pti_digit va i : 0 <= i -> pti va i = va / 4096 / 512 ^ i mod 512.
Proof.
  intros Hi. unfold pti. rewrite !Z.shiftr_div_pow2 by lia. change 511 with (Z.ones 9). rewrite Z.land_ones by lia.
  rewrite (Z.pow_mul_r 2 9) by lia. reflexivity.
Qed.

(** An address is the indices it is looked up with. *)
Lemma va_digits va : user_page va -> va = 4096 * (pti va 0 + 512 * pti va 1 + 262144 * pti va 2 + 134217728 * pti va 3).
Proof.
  intros [H1 H2]. rewrite !pti_digit by lia. change (512 ^ 0) with 1. change (512 ^ 1) with 512. change (512 ^ 2) with 262144. change (512 ^ 3) with 134217728.
  rewrite Z.div_1_r. change (2 ^ 47) with 140737488355328 in H1. Z.div_mod_to_equations. lia.
Qed.

(** The entry of the page [va]. *)
Definition view (s : ptmem) (P : paths) (va : Z) : Z := leaf s P (path va) (pti va 0).

Lemma user_eq va va' : user_page va -> user_page va' -> path va = path va' -> pti va 0 = pti va' 0 -> va = va'.
Proof. intros H H' Hp H0. rewrite (va_digits va H), (va_digits va' H'). unfold path in Hp. injection Hp as H3 H2 H1. congruence. Qed.

Lemma view_grown s P bs s' P' bs' va : grown s P bs s' P' bs' -> view s' P' va = view s P va.
Proof. intros [_ H]. apply H; [reflexivity|apply pti_range]. Qed.

Section set_leaf.
Context (s : ptmem) (root : Z) (P : paths) (bs : list block) (q : list Z) (t i w : Z).
Hypothesis Hok : tables_ok s root P bs.
Hypothesis Hq : P !! q = Some t.
Hypothesis Hlen : length q = 3%nat.
Hypothesis Hi : 0 <= i < 512.
Let s' : ptmem := Ptmem (<[slot t i := w]> (tmem s)) (tphys s).

Lemma other_word r u j : P !! r = Some u -> 0 <= j < 512 -> (r, j) <> (q, i) -> tmem s' !! slot u j = tmem s !! slot u j.
Proof.
  intros Hr Hj Hne. apply lookup_insert_ne. intros Heq. destruct (tb_page _ _ _ _ Hok q t Hq) as [Ht _]. destruct (tb_page _ _ _ _ Hok r u Hr) as [Hu _].
  destruct (slot_inj _ _ _ _ Ht Hu Hi Hj Heq) as [E1 E2]. apply Hne. f_equal; [|congruence]. eapply tb_inj; [exact Hok|exact Hr|congruence].
Qed.

Lemma set_leaf_ok : tables_ok s' root P bs.
Proof.
  destruct Hok as [H1 H2 H3 H4 H5 H6 H7]. split; try assumption.
  - intros r u j Hr Hj. destruct (decide ((r, j) = (q, i))) as [[= -> ->]|Hne].
    + assert (u = t) as -> by congruence. cbn. rewrite lookup_insert_eq. eauto.
    + rewrite (other_word r u j Hr Hj Hne). eauto.
  - intros r u j w' Hr Hl Hj Hw. rewrite (other_word r u j Hr (proj1 Hj)) in Hw; [exact (H6 r u j w' Hr Hl Hj Hw)|]. intros [= -> ->]. lia.
Qed.

Lemma set_leaf_leaf r j : length r = 3%nat -> 0 <= j < 512 -> leaf s' P r j = if decide ((r, j) = (q, i)) then w else leaf s P r j.
Proof.
  intros Hr Hj. unfold leaf. destruct (decide ((r, j) = (q, i))) as [[= -> ->]|Hne].
  - rewrite Hq. cbn. now rewrite lookup_insert_eq.
  - destruct (P !! r) as [u|] eqn:Eu; [|reflexivity]. now rewrite (other_word r u j Eu Hj Hne).
Qed.
End set_leaf.

(** The tables of [root] show the entries [f]. *)
Record shows_table (s : ptmem) (root : Z) (P : paths) (bs : list block) (f : Z -> Z) : Prop := {
  sh_ok : tables_ok s root P bs;
  sh_view : forall va, user_page va -> view s P va = f va }.

(** Finding the entry of a page and writing it. *)
Lemma entry_run s root P bs f va : shows_table s root P bs f -> user_page va -> 34 <= nfree (tphys s) ->
  exists a s' P' bs', find_mapping root va page_sz s = Done a s' /\ shows_table s' root P' bs' f /\ tmem s' !! a = Some (f va) /\
    nfree (tphys s) - 3 <= nfree (tphys s') /\ conserved P bs P' bs' /\
    forall w, shows_table (Ptmem (<[a := w]> (tmem s')) (tphys s')) root P' bs' (fun v => if decide (v = va) then w else f v).
Proof.
  intros [Hok Hf] Hva Hn. destruct (find_mapping_spec s root P bs va Hok Hva Hn) as (t & s' & P' & bs' & E & Hok' & G & Ht & Hn').
  assert (Hf' : forall v, user_page v -> view s' P' v = f v) by (intros v Hv; rewrite (view_grown _ _ _ _ _ _ _ G); auto).
  exists (slot t (pti va 0)), s', P', bs'. split; [exact E|]. split; [split; assumption|]. pose proof (pti_range va 0) as Hr.
  split; [|split; [exact Hn'|split; [apply G|]]].
  - rewrite <- (Hf' va Hva). unfold view, leaf. rewrite Ht. destruct (tb_words _ _ _ _ Hok' _ _ _ Ht Hr) as [w Hw]. now rewrite Hw.
  - intros w. split; [exact (set_leaf_ok s' root P' bs' (path va) t (pti va 0) w Hok' Ht eq_refl Hr)|].
    intros v Hv. unfold view. rewrite (set_leaf_leaf s' root P' bs' (path va) t (pti va 0) w Hok' Ht Hr); [|reflexivity|apply pti_range].
    destruct (decide (v = va)) as [->|Hne]; [now rewrite decide_True|]. rewrite decide_False; [now apply Hf'|]. intros Heq.
    apply Hne, user_eq; auto; congruence.
Qed.

(** ** A new page table *)

(** The kernel's top table is there and is not a free page. *)
Definition kernel_table (s : ptmem) (bs : list block) (k : Z) : Prop :=
  aligned k /\ cover bs k = 0 /\ forall i, 272 <= i < 512 -> is_Some (tmem s !! slot k i).

Lemma copy_kernel_run k root n : forall i s, aligned k -> aligned root -> k <> root -> 272 <= i -> i + Z.of_nat n = 512 ->
  (forall j, 272 <= j < 512 -> is_Some (tmem s !! slot k j)) ->
  exists m', copy_kernel k root n i s = Done tt (Ptmem m' (tphys s)) /\
    (forall x, (forall j, 272 <= j < 512 -> x <> slot root j) -> m' !! x = tmem s !! x) /\ (forall x, is_Some (tmem s !! x) -> is_Some (m' !! x)).
Proof.
  induction n as [|n IH]; intros i s Hk Hroot Hne Hi Hn Hw; cbn [copy_kernel]; [exists (tmem s); split; [now destruct s|auto]|].
  destruct (Hw i ltac:(lia)) as [w Ew]. prun (load_done _ _ _ Ew). destruct (w =? 0); [exists (tmem s); split; [now destruct s|auto]|].
  destruct (IH (i + 1) (Ptmem (<[slot root i := w]> (tmem s)) (tphys s)) Hk Hroot Hne ltac:(lia) ltac:(lia)) as (m' & E & H1 & H2).
  { intros j Hj. cbn [tmem]. apply lookup_insert_is_Some'. auto. }
  exists m'. rewrite (bind_done (store_t _ _) _ s tt _ eq_refl). split; [exact E|]. cbn [tmem] in *. split.
  - intros x Hx. rewrite H1 by exact Hx. apply lookup_insert_ne. specialize (Hx i ltac:(lia)). congruence.
  - intros x Hx. apply H2, lookup_insert_is_Some'. auto.
Qed.

Lemma create_spec s bs k : phys_ok (tphys s) bs -> 32 <= nfree (tphys s) -> kernel_table s bs k ->
  exists root s' bs', create k s = Done root s' /\ shows_table s' root {[[] := root]} bs' (fun _ => 0) /\ nfree (tphys s') = nfree (tphys s) - 1 /\
    new_page bs bs' root.
Proof.
  intros Hp Hn (Hk1 & Hk2 & Hk3). destruct (phys_alloc_t_spec s bs Hp Hn) as (root & s1 & bs' & E & H1 & H2 & Hnew & Hclr).
  pose proof Hnew as (A1 & A2 & A3 & A4 & A5). assert (Hne : k <> root) by (intros <-; lia).
  destruct (copy_kernel_run k root 240 272 s1 Hk1 A1 Hne ltac:(lia) ltac:(lia)) as (m' & E2 & C1 & C2).
  { intros j Hj. rewrite (proj2 Hclr); [now apply Hk3|]. intros l Hl Heq. assert (Hj' : 0 <= j < 512) by lia. now destruct (slot_inj _ _ _ _ Hk1 A1 Hj' Hl Heq). }
  exists root, (Ptmem m' (tphys s1)), bs'. split; [|split; [|auto]].
  - unfold create, pagetable. prun E. rewrite (proj2 (Z.eqb_neq k root) Hne). cbn [negb]. now prun E2.
  - assert (Hone : forall p t, ({[[] := root]} : paths) !! p = Some t -> p = [] /\ t = root) by (intros p t [<- <-]%lookup_singleton_Some; auto).
    assert (Hsnoc : forall p i, ({[[] := root]} : paths) !! (p ++ [i]) = None) by (intros p i; apply lookup_singleton_ne; now destruct p).
    split.
    + split; cbn [tmem tphys]; [exact H1|apply lookup_singleton_eq| | | | |].
      * intros p t [_ ->]%Hone. auto.
      * intros p q t [-> _]%Hone [-> _]%Hone. reflexivity.
      * intros p t i [_ ->]%Hone Hi. apply C2. rewrite (proj1 Hclr i Hi). eauto.
      * intros p t i w [-> ->]%Hone _ [Hi Hu] Hw. specialize (Hu eq_refl). rewrite C1, (proj1 Hclr i Hi) in Hw; [injection Hw as <-; split; [reflexivity|apply Hsnoc]|].
        intros j Hj Heq. assert (Hj' : 0 <= j < 512) by lia. destruct (slot_inj _ _ _ _ A1 A1 Hi Hj' Heq). lia.
      * intros p i t Hp'. now rewrite Hsnoc in Hp'.
    + intros va _. unfold view, leaf. rewrite lookup_singleton_ne by discriminate. reflexivity.
Qed.

(** ** The methods *)

(** The word of an entry, and what it says. *)
Definition entry_word (p : pte) : Z :=
  4096 * ppn p + (5 + (if has (pprot p) PROT_WRITE then 2 else 0) + (if nocache p then 64 else 0) + (if writethrough p then 8 else 0)).
Definition decode (e : Z) : Z * Z :=
  (Z.shiftr e 12, let prot := if has e PTE_W then Z.lor PROT_READ PROT_WRITE else PROT_READ in if Z.land e (u64 PTE_NX) =? 0 then Z.lor prot PROT_EXEC else prot).
(** The rights that an entry keeps: pages can always be read and executed. *)
Definition kept_rights (p : pte) : Z := if has (pprot p) PROT_WRITE then 7 else 5.

Lemma decode_word p : 0 <= ppn p < 2 ^ 40 -> decode (entry_word p) = (ppn p, kept_rights p).
Proof.
  intros Hp. unfold decode, entry_word. set (fl := 5 + _ + _ + _).
  assert (Hfl : 5 <= fl < 4096) by (unfold fl; destruct (has _ _), (nocache p), (writethrough p); lia).
  assert (Hw : 0 <= 4096 * ppn p + fl < 2 ^ 52) by lia. f_equal.
  - rewrite Z.shiftr_div_pow2 by lia. change (2 ^ 12) with 4096. Z.div_mod_to_equations; lia.
  - assert (Hnx : Z.land (4096 * ppn p + fl) (u64 PTE_NX) = 0).
    { change (u64 PTE_NX) with (2 ^ 63). apply Z.bits_inj'. intros n Hn. rewrite Z.land_spec, Z.bits_0, Z.pow2_bits_eqb by lia. destruct (Z.eqb_spec 63 n) as [<-|]; [|apply andb_false_r].
      rewrite Z.bits_above_log2; [reflexivity|lia|]. apply Z.log2_lt_pow2; lia. }
    rewrite Hnx. cbn [Z.eqb]. assert (Hbit : has (4096 * ppn p + fl) PTE_W = has fl PTE_W).
    { rewrite (Z.mul_comm 4096). rewrite <- (lor_low (ppn p * 4096) fl) by (lia || (apply Z.mod_mul; lia)). unfold has. rewrite Z.land_lor_distr_l.
      replace (Z.land (ppn p * 4096) PTE_W) with 0; [reflexivity|]. change 4096 with (2 ^ 12). rewrite <- Z.shiftl_mul_pow2 by lia. now destruct (ppn p) as [|q|q]; [|destruct q|lia]. }
    rewrite Hbit. unfold fl, kept_rights. destruct (has (pprot p) PROT_WRITE), (nocache p), (writethrough p); reflexivity.
Qed.

Lemma add_mapping_run s root P bs f va p : shows_table s root P bs f -> user_page va -> 34 <= nfree (tphys s) -> 0 <= ppn p < 2 ^ 40 ->
  exists s' P' bs', add_mapping root va p s = Done 0 s' /\ shows_table s' root P' bs' (fun v => if decide (v = va) then entry_word p else f v) /\
    nfree (tphys s) - 3 <= nfree (tphys s') /\ conserved P bs P' bs'.
Proof.
  intros Hs Hva Hn Hp. destruct (entry_run s root P bs f va Hs Hva Hn) as (a & s' & P' & bs' & E & _ & Ha & Hn' & Hcon & Hset).
  exists (Ptmem (<[a := entry_word p]> (tmem s')) (tphys s')), P', bs'. split; [|split; [apply Hset|auto]].
  unfold add_mapping. rewrite (proj2 (Z.ltb_lt va KERNEL_VIRTUAL_BASE)) by (destruct Hva; unfold KERNEL_VIRTUAL_BASE; lia).
  set (fl := u16 _). assert (Hfl : fl = entry_word p - 4096 * ppn p).
  { unfold fl, entry_word. destruct (has (pprot p) PROT_WRITE), (Z.land (pprot p) PROT_EXEC =? 0), (nocache p), (writethrough p);
      match goal with |- _ = 4096 * ppn p + ?k - _ => transitivity k; [reflexivity|lia] end. }
  assert (Hfr : 5 <= fl < 4096) by (rewrite Hfl; unfold entry_word; destruct (has _ _), (nocache p), (writethrough p); lia).
  assert (Hword : Z.lor (Z.lor (Z.land (u64 (Z.shiftl (ppn p) 12)) (u64 (Z.lnot 4095))) fl) (size_flag page_sz) = entry_word p).
  { cbn [size_flag]. rewrite Z.lor_0_r, Z.shiftl_mul_pow2, u64_small by lia. change (2 ^ 12) with 4096. rewrite page_floor by lia. rewrite Z.div_mul by lia.
    rewrite lor_low; [lia|rewrite Z.mul_comm; apply Z.mod_mul; lia|lia]. }
  assert (Em : map_into root va (u64 (Z.shiftl (ppn p) 12)) page_sz fl s = Done tt (Ptmem (<[a := entry_word p]> (tmem s')) (tphys s')))
    by (unfold map_into; prun E; prun (load_done _ _ _ Ha); rewrite Hword; reflexivity).
  now prun Em.
Qed.

Lemma del_mapping_run s root P bs f va : shows_table s root P bs f -> user_page va -> 34 <= nfree (tphys s) ->
  exists s' P' bs', del_mapping root va s = Done 0 s' /\ shows_table s' root P' bs' (fun v => if decide (v = va) then 0 else f v) /\
    nfree (tphys s) - 3 <= nfree (tphys s') /\ conserved P bs P' bs'.
Proof.
  intros Hs Hva Hn. destruct (entry_run s root P bs f va Hs Hva Hn) as (a & s' & P' & bs' & E & _ & _ & Hn' & Hcon & Hset).
  exists (Ptmem (<[a := 0]> (tmem s')) (tphys s')), P', bs'. split; [|split; [apply Hset|auto]]. unfold del_mapping. now prun E.
Qed.

Lemma get_mapping_run s root P bs f va : shows_table s root P bs f -> user_page va -> 34 <= nfree (tphys s) ->
  exists s' P' bs', get_mapping root va s = Done (decode (f va)) s' /\ shows_table s' root P' bs' f /\ nfree (tphys s) - 3 <= nfree (tphys s') /\ conserved P bs P' bs'.
Proof.
  intros Hs Hva Hn. destruct (entry_run s root P bs f va Hs Hva Hn) as (a & s' & P' & bs' & E & Hs' & Ha & Hn' & Hcon & _).
  exists s', P', bs'. split; [|auto]. unfold get_mapping. prun E. now prun (load_done _ _ _ Ha).
Qed.

(** ** A page table is a map *)

Inductive ptop := Add (va : Z) (p : pte) | Del (va : Z) | Get (va : Z).

Definition pt_exec (root : Z) (o : ptop) : T (Z * Z) :=
  match o with
  | Add va p => r ← add_mapping root va p; mret (r, 0)
  | Del va => r ← del_mapping root va; mret (r, 0)
  | Get va => get_mapping root va
  end.
Fixpoint pt_run (root : Z) (os : list ptop) : T (list (Z * Z)) :=
  match os with [] => mret [] | o :: os => r ← pt_exec root o; rs ← pt_run root os; mret (r :: rs) end.

(** The map from pages to page numbers and rights; a page that is not in it is
    reported as page 0. *)
Definition map_exec (o : ptop) (m : gmap Z (Z * Z)) : Z * Z * gmap Z (Z * Z) :=
  match o with
  | Add va p => (0, 0, <[va := (ppn p, kept_rights p)]> m)
  | Del va => (0, 0, delete va m)
  | Get va => (default (0, 5) (m !! va), m)
  end.
Fixpoint map_run (os : list ptop) (m : gmap Z (Z * Z)) : list (Z * Z) :=
  match os with [] => [] | o :: os => let '(r, m) := map_exec o m in r :: map_run os m end.

Definition op_ok (o : ptop) : Prop :=
  match o with Add va p => user_page va /\ 0 <= ppn p < 2 ^ 40 | Del va | Get va => user_page va end.

(** The entries [f] are those of the map. *)
Definition maps (f : Z -> Z) (m : gmap Z (Z * Z)) : Prop := forall va, decode (f va) = default (0, 5) (m !! va).

Lemma maps_insert f m va w d : maps f m -> decode w = d -> maps (fun v => if decide (v = va) then w else f v) (<[va := d]> m).
Proof. intros H Hd v. destruct (decide (v = va)) as [->|Hne]; [now rewrite lookup_insert_eq|now rewrite lookup_insert_ne]. Qed.
Lemma maps_delete f m va : maps f m -> maps (fun v => if decide (v = va) then 0 else f v) (delete va m).
Proof. intros H v. destruct (decide (v = va)) as [->|Hne]; [now rewrite lookup_delete_eq|now rewrite lookup_delete_ne]. Qed.

Lemma pt_exec_step s root P bs f m o : shows_table s root P bs f -> maps f m -> op_ok o -> 34 <= nfree (tphys s) ->
  exists s' P' bs' f', pt_exec root o s = Done (fst (map_exec o m)) s' /\ shows_table s' root P' bs' f' /\ maps f' (snd (map_exec o m)) /\ nfree (tphys s) - 3 <= nfree (tphys s') /\ conserved P bs P' bs'.
Proof.
  intros Hs Hm Ho Hn. destruct o as [va p|va|va]; cbn [op_ok pt_exec map_exec fst snd] in *.
  - destruct Ho as [Hva Hp]. destruct (add_mapping_run s root P bs f va p Hs Hva Hn Hp) as (s' & P' & bs' & E & Hs' & Hn'). exists s', P', bs'. eexists.
    prun E. split; [reflexivity|]. split; [exact Hs'|]. split; [|exact Hn']. apply maps_insert; [exact Hm|now apply decode_word].
  - destruct (del_mapping_run s root P bs f va Hs Ho Hn) as (s' & P' & bs' & E & Hs' & Hn'). exists s', P', bs'. eexists.
    prun E. split; [reflexivity|]. split; [exact Hs'|]. split; [now apply maps_delete|exact Hn'].
  - destruct (get_mapping_run s root P bs f va Hs Ho Hn) as (s' & P' & bs' & E & Hs' & Hn'). exists s', P', bs', f. rewrite E, Hm. auto.
Qed.

Lemma pt_run_steps os : forall s root P bs f m, shows_table s root P bs f -> maps f m -> Forall op_ok os -> 31 + 3 * Z.of_nat (length os) <= nfree (tphys s) ->
  exists s' P' bs' f', pt_run root os s = Done (map_run os m) s' /\ shows_table s' root P' bs' f' /\ conserved P bs P' bs'.
Proof.
  induction os as [|o os IH]; intros s root P bs f m Hs Hm Ho Hn; cbn [pt_run map_run].
  - exists s, P, bs, f. split; [reflexivity|]. split; [exact Hs|]. now split.
  - apply Forall_cons_iff in Ho as [Ho1 Ho2]. cbn [length] in Hn. destruct (pt_exec_step s root P bs f m o Hs Hm Ho1 ltac:(lia)) as (s1 & P1 & b1 & f1 & E & Hs1 & Hm1 & Hn1 & C1).
    prun E. destruct (map_exec o m) as [r m1]. cbn [fst snd] in *. destruct (IH s1 root P1 b1 f1 m1 Hs1 Hm1 Ho2 ltac:(lia)) as (s2 & P2 & b2 & f2 & E2 & Hs2 & C2).
    exists s2, P2, b2, f2. prun E2. split; [reflexivity|]. split; [exact Hs2|]. now apply (conserved_trans _ _ P1 b1).
Qed.

(** C33: a page table that the kernel creates behaves as a map from pages to page
    numbers and rights under every sequence of [add_mapping], [del_mapping] and
    [get_mapping] on user pages: each call returns what the map gives, none
    faults, and the walks of the tables of four levels always end at the entry of
    their page.  The rights of a page lose what the hardware entry does not hold:
    every page can be read, and none is protected from execution. *)
Theorem pagetable_refines_map s bs k os : phys_ok (tphys s) bs -> kernel_table s bs k -> Forall op_ok os -> 32 + 3 * Z.of_nat (length os) <= nfree (tphys s) ->
  exists root s', (root ← create k; rs ← pt_run root os; mret (root, rs)) s = Done (root, map_run os ∅) s'.
Proof.
  intros Hp Hk Ho Hn. destruct (create_spec s bs k Hp ltac:(lia) Hk) as (root & s1 & b1 & E & Hs & Hn1 & _).
  destruct (pt_run_steps os s1 root _ _ _ ∅ Hs) as (s2 & P2 & b2 & f2 & E2 & _); [intros va; reflexivity|exact Ho|lia|]. exists root, s2. prun E. now prun E2.
Qed.

(** The kernel's table at 1 MiB, and 42 free pages. *)
Definition demo_tables : ptmem := Ptmem (zero_words 512 1048576 ∅) demo_kmem.
Definition demo_ops : list ptop := [Add 1073745920 (Pte 77 3 false false); Get 1073745920; Get 4096].

Lemma demo_tables_ok : kernel_table demo_tables [(4096, 2); (16384, 40)] 1048576.
Proof.
  split; [split; [lia|reflexivity]|]. split; [reflexivity|]. intros i Hi. cbn [demo_tables tmem]. rewrite (proj1 (zero_words_spec 512 1048576 ∅) i) by lia. eauto.
Qed.

Lemma pagetable_refines_map_witness : map_run demo_ops ∅ = [(0, 0); (77, 7); (0, 5)] /\
  exists root s', (root ← create 1048576; rs ← pt_run root demo_ops; mret (root, rs)) demo_tables = Done (root, map_run demo_ops ∅) s'.
Proof.
  split; [vm_compute; reflexivity|]. apply (pagetable_refines_map _ [(4096, 2); (16384, 40)]); [exact demo_kmem_ok|exact demo_tables_ok| |cbn; lia].
  repeat (apply Forall_cons_iff; split; [repeat split; cbn; lia|]). constructor.
Defined.
