(* ===== verification/PagingFree.v ===== *)
(** * x86 page tables: freeing one

    [free_table] walks the tree of tables and gives each of its pages back to the
    page allocator, once. *)

From S2P Require Import Prelude CMem State Phys PhysProps Space Paging PagingProps.

(** ** The tables below a path, in the order they are freed *)

Definition width (p : list Z) : Z := match p with [] => 272 | _ => 512 end.

Section below.
Context (P : paths).

Definition below (p : list Z) (sub : list Z -> list (list Z)) : list (list Z) :=
  seqZ 0 (width p) ≫= fun i => if bool_decide (is_Some (P !! (p ++ [i]))) then sub (p ++ [i]) else [].
Fixpoint subtree (l : nat) (p : list Z) : list (list Z) :=
  match l with O => [p] | S l => below p (subtree l) ++ [p] end.

Lemma elem_below p sub q : q ∈ below p sub <-> exists i, 0 <= i < width p /\ is_Some (P !! (p ++ [i])) /\ q ∈ sub (p ++ [i]).
Proof.
  unfold below. rewrite list_elem_of_bind. split.
  - intros (i & Hq & Hi%elem_of_seqZ). exists i. case_bool_decide; [|now apply elem_of_nil in Hq]. split; [lia|auto].
  - intros (i & Hi & Hs & Hq). exists i. rewrite bool_decide_true by exact Hs. split; [exact Hq|]. apply elem_of_seqZ. lia.
Qed.

Lemma subtree_prefix l : forall p q, q ∈ subtree l p -> exists r, q = p ++ r.
Proof.
  induction l as [|l IH]; intros p q; cbn [subtree].
  - intros ->%list_elem_of_singleton. exists []. now rewrite app_nil_r.
  - rewrite elem_of_app, elem_below. intros [(i & _ & _ & Hq)| ->%list_elem_of_singleton]; [|exists []; now rewrite app_nil_r].
    apply IH in Hq as [r ->]. exists (i :: r). now rewrite <- app_assoc.
Qed.

Lemma subtree_in l : forall p q, is_Some (P !! p) -> q ∈ subtree l p -> is_Some (P !! q).
Proof.
  induction l as [|l IH]; intros p q Hp; cbn [subtree]; [now intros ->%list_elem_of_singleton|].
  rewrite elem_of_app, elem_below. intros [(i & _ & Hs & Hq)| ->%list_elem_of_singleton]; eauto.
Qed.

Lemma subtree_nodup l : forall p, NoDup (subtree l p).
Proof.
  induction l as [|l IH]; intros p; cbn [subtree]; [apply list.NoDup_singleton|]. apply list.NoDup_app. split; [|split; [|apply list.NoDup_singleton]].
  - apply NoDup_bind; [|intros i _; case_bool_decide; [apply IH|constructor]|apply NoDup_seqZ]. intros i j q _ _ Hi Hj.
    destruct (bool_decide (is_Some (P !! (p ++ [i])))); [|now apply elem_of_nil in Hi]. destruct (bool_decide (is_Some (P !! (p ++ [j])))); [|now apply elem_of_nil in Hj].
    apply subtree_prefix in Hi as [r ->], Hj as [r' Hr]. rewrite <- !app_assoc in Hr. apply app_inv_head in Hr. now injection Hr.
  - intros q (i & _ & _ & Hq)%elem_below ->%list_elem_of_singleton. apply subtree_prefix in Hq as [r Hr]. apply (f_equal length) in Hr.
    rewrite !length_app in Hr. cbn in Hr. lia.
Qed.

(** Every table below [p] is there. *)
Lemma subtree_all l : (forall p i t, P !! (p ++ [i]) = Some t -> is_Some (P !! p) /\ walkable p i /\ (length p < 3)%nat) ->
  forall p r, is_Some (P !! (p ++ r)) -> (length r <= l)%nat -> p ++ r ∈ subtree l p.
Proof.
  intros Hpath. assert (Hpre : forall r p, is_Some (P !! (p ++ r)) -> is_Some (P !! p)).
  { intros r. induction r as [|i r IH] using rev_ind; intros p Hp; [now rewrite app_nil_r in Hp|]. rewrite app_assoc in Hp. destruct Hp as [t Ht]. apply IH. now apply (Hpath _ _ _ Ht). }
  induction l as [|l IH]; intros p [|i r] Hr Hl; cbn [length subtree] in *; rewrite ?app_nil_r; [now apply list_elem_of_singleton|lia|apply elem_of_app; right; now apply list_elem_of_singleton|].
  apply elem_of_app. left. apply elem_below. exists i. replace (p ++ i :: r) with ((p ++ [i]) ++ r) in * by (now rewrite <- app_assoc).
  pose proof (Hpre _ _ Hr) as [t Ht]. destruct (Hpath _ _ _ Ht) as (_ & [Hw1 Hw2] & _). split; [|split; [eauto|apply IH; [exact Hr|lia]]].
  destruct p; cbn [width]; [specialize (Hw2 eq_refl)|]; lia.
Qed.

(** The pages of paths. *)
Definition pages_of (l : list (list Z)) : list block := (fun q => (default 0 (P !! q), 1)) <$> l.

Lemma pages_of_app l l' : pages_of (l ++ l') = pages_of l ++ pages_of l'.
Proof. apply fmap_app. Qed.
End below.

Lemma pages_cover l x : forall P, NoDup l -> (forall q, q ∈ l <-> is_Some (P !! q)) -> cover (pages_of P l) x = in_tables P x.
Proof.
  induction l as [|q l IH]; intros P Hn Hl.
  - assert (P = ∅) as ->; [|reflexivity]. apply map_eq. intros q. rewrite lookup_empty. destruct (P !! q) eqn:Eq; [|reflexivity].
    exfalso. apply (not_elem_of_nil q), Hl. eauto.
  - apply list.NoDup_cons in Hn as [Hq Hn]. assert (is_Some (P !! q)) as [t Ht] by (apply Hl, elem_of_cons; auto).
    rewrite <- (insert_delete_id P q t Ht) at 2. rewrite in_tables_insert by apply lookup_delete_eq. rewrite <- (IH (delete q P) Hn).
    + cbn [pages_of fmap list_fmap cover]. rewrite Ht. cbn [default from_option id]. f_equal. f_equal. apply list_fmap_ext. intros i r Hr.
      rewrite lookup_delete_ne; [reflexivity|]. intros <-. apply Hq. eapply list_elem_of_lookup_2; eauto.
    + intros r. rewrite lookup_delete_is_Some, <- Hl, elem_of_cons. split; [intros Hr; split; [intros <-; contradiction|auto]|]. intros [Hne [->|Hr]]; [contradiction|exact Hr].
Qed.

(** ** The walk of [free_table] *)

(** Pages freed one after the other. *)
Definition frees (l : list block) : T unit := fun s =>
  match reclaim_memory l (tphys s) with Done _ k => Done tt (Ptmem (tmem s) k) | Fail => Fail | Spin => Spin end.

Lemma reclaim_app l l' k : reclaim_memory (l ++ l') k = (reclaim_memory l;; reclaim_memory l') k.
Proof.
  revert k. induction l as [|[a n] l IH]; intros k; cbn [app reclaim_memory]; [reflexivity|]. unfold mbind, SM_bind in *.
  destruct (Phys.free a n k) as [u k1| |]; [apply IH|reflexivity..].
Qed.

Lemma frees_app l l' s : frees (l ++ l') s = (frees l;; frees l') s.
Proof.
  unfold frees. rewrite reclaim_app. unfold mbind, SM_bind. destruct (reclaim_memory l (tphys s)) as [u k| |]; [|reflexivity..]. reflexivity.
Qed.

Lemma free_t_frees a s : free_t a s = frees [(a, 1)] s.
Proof. unfold free_t, frees. cbn [reclaim_memory]. unfold mbind, SM_bind. now destruct (Phys.free a 1 (tphys s)) as [[] k| |]. Qed.

Lemma frees_nil s : frees [] s = Done tt s.
Proof. now destruct s. Qed.

(** The words do not change while tables are freed. *)
Lemma each_entry_frees table f g n : forall i s,
  (forall j, i <= j < i + Z.of_nat n -> exists w, tmem s !! slot table j = Some w /\
     forall k, (if negb (w =? 0) then f w else mret tt : T unit) (Ptmem (tmem s) k) = frees (g j) (Ptmem (tmem s) k)) ->
  each_entry table n i f s = frees (seqZ i (Z.of_nat n) ≫= g) s.
Proof.
  induction n as [|n IH]; intros i s Hj; cbn [each_entry]; [now rewrite frees_nil|]. destruct (Hj i ltac:(lia)) as (w & Hw & Hf).
  prun (load_done _ _ _ Hw). rewrite seqZ_cons by lia. cbn [mbind list_bind]. rewrite frees_app. specialize (Hf (tphys s)).
  assert (Hs : Ptmem (tmem s) (tphys s) = s) by (now destruct s). rewrite Hs in Hf. unfold mbind, SM_bind. unfold SM_bind in Hf. rewrite Hf.
  destruct (frees (g i) s) as [u s1| |] eqn:E; [|reflexivity..].
  assert (Hm : tmem s1 = tmem s) by (revert E; unfold frees; destruct (reclaim_memory _ _); intros [= _ <-]; reflexivity).
  rewrite IH; [now replace (Z.pred (Z.of_nat (S n))) with (Z.of_nat n) by lia|]. intros j Hj'. rewrite Hm. apply Hj. lia.
Qed.

Lemma pages_bind P (l : list Z) f : pages_of P (l ≫= f) = l ≫= fun i => pages_of P (f i).
Proof. induction l as [|i l IH]; [reflexivity|]. cbn [mbind list_bind]. rewrite pages_of_app. now rewrite IH. Qed.

Lemma bind_ext {A B} (c c' : T A) (f f' : A -> T B) st : c st = c' st -> (forall a s1, f a s1 = f' a s1) -> (c ≫= f) st = (c' ≫= f') st.
Proof. intros Hc Hf. unfold mbind, SM_bind. rewrite Hc. destruct (c' st); auto. Qed.

Section free.
Context (s : ptmem) (root : Z) (P : paths) (bs : list block).
Hypothesis Hok : tables_ok s root P bs.

(** The entries of a table: none, or a table below it. *)
Lemma entry_cases p t j : P !! p = Some t -> (length p < 3)%nat -> 0 <= j < width p -> exists w, tmem s !! slot t j = Some w /\
  ((w = 0 /\ P !! (p ++ [j]) = None) \/ (w <> 0 /\ Z.land w PTE_P <> 0 /\ Z.land w PTE_PS = 0 /\ P !! (p ++ [j]) = Some (conv w))).
Proof.
  intros Hp Hl Hj. assert (Hr : 0 <= j < 512) by (destruct p; cbn [width] in Hj; lia). destruct (tb_words _ _ _ _ Hok p t j Hp Hr) as [w Hw]. exists w. split; [exact Hw|].
  assert (Hwk : walkable p j) by (split; [exact Hr|intros ->; cbn [width] in Hj; lia]).
  pose proof (tb_entry _ _ _ _ Hok p t j w Hp Hl Hwk Hw) as He. destruct (Z.eqb_spec (Z.land w 1) 0) as [Hz|Hz]; [auto|]. right. destruct He as [H1 H2].
  split; [intros ->; now apply Hz|auto].
Qed.

(** One table: those below it, then itself. *)
Lemma free_level p t n l f : P !! p = Some t -> (length p < 3)%nat -> width p = Z.of_nat n ->
  (forall j w k, 0 <= j < width p -> w <> 0 -> Z.land w PTE_P <> 0 -> Z.land w PTE_PS = 0 -> P !! (p ++ [j]) = Some (conv w) ->
     f w (Ptmem (tmem s) k) = frees (pages_of P (subtree P l (p ++ [j]))) (Ptmem (tmem s) k)) ->
  forall k, (each_entry t n 0 f;; free_t t) (Ptmem (tmem s) k) = frees (pages_of P (subtree P (S l) p)) (Ptmem (tmem s) k).
Proof.
  intros Hp Hl Hw Hf k. cbn [subtree]. rewrite pages_of_app, frees_app. cbn [pages_of fmap list_fmap]. rewrite Hp. cbn [default from_option id].
  unfold below. rewrite pages_bind, Hw. apply bind_ext; [|intros _ s1; apply free_t_frees].
  apply each_entry_frees.
  - intros j Hj. destruct (entry_cases p t j Hp Hl ltac:(lia)) as (w & Ew & [[-> Hn]|(H0 & H1 & H2 & H3)]); [exists 0|exists w]; (split; [exact Ew|]); intros k'.
    + rewrite Hn, bool_decide_false by (intros [? ?]; discriminate). now rewrite frees_nil.
    + rewrite (proj2 (Z.eqb_neq w 0) H0), bool_decide_true by eauto. cbn [negb tmem]. apply Hf; auto. lia.
Qed.

Lemma free_p2_run p t : P !! p = Some t -> length p = 2%nat -> forall k, free_p2 t (Ptmem (tmem s) k) = frees (pages_of P (subtree P 1 p)) (Ptmem (tmem s) k).
Proof.
  intros Hp Hl. apply free_level; [exact Hp|lia|now destruct p|]. intros j w k _ _ H1 H2 H3. rewrite (proj2 (Z.eqb_neq _ 0) H1), H2. cbn [Z.eqb negb subtree].
  rewrite free_t_frees. cbn [pages_of fmap list_fmap]. now rewrite H3.
Qed.

Lemma free_p3_run p t : P !! p = Some t -> length p = 1%nat -> forall k, free_p3 t (Ptmem (tmem s) k) = frees (pages_of P (subtree P 2 p)) (Ptmem (tmem s) k).
Proof.
  intros Hp Hl. apply free_level; [exact Hp|lia|now destruct p|]. intros j w k _ _ H1 H2 H3. rewrite (proj2 (Z.eqb_neq _ 0) H1), H2. cbn [Z.eqb negb].
  apply free_p2_run; [exact H3|]. rewrite length_app. cbn. lia.
Qed.

Lemma free_table_run k : free_table root (Ptmem (tmem s) k) = frees (pages_of P (subtree P 3 [])) (Ptmem (tmem s) k).
Proof.
  apply free_level; [apply (tb_root _ _ _ _ Hok)|cbn; lia|reflexivity|]. intros j w k' _ _ _ _ H3. now apply free_p3_run.
Qed.

(** Every table is given back: the free pages are the ones before and the tables. *)
Lemma free_table_spec : (forall x, cover bs x + in_tables P x <= 1) -> total bs + Z.of_nat (size P) < 2 ^ 60 ->
  exists s' bs', free_table root s = Done tt s' /\ phys_ok (tphys s') bs' /\ (forall x, cover bs' x = cover bs x + in_tables P x) /\ total bs' = total bs + Z.of_nat (size P).
Proof.
  intros Hap Htot. set (l := subtree P 3 []). assert (Hn : NoDup l) by apply subtree_nodup.
  assert (Hl : forall q, q ∈ l <-> is_Some (P !! q)).
  { intros q. split; [apply subtree_in; rewrite (tb_root _ _ _ _ Hok); eauto|]. intros Hq. change q with ([] ++ q). apply subtree_all; [apply Hok|exact Hq|].
    destruct q as [|i q _] using rev_ind; [cbn; lia|]. destruct Hq as [t Ht]. destruct (tb_path _ _ _ _ Hok _ _ _ Ht) as (_ & _ & H3). rewrite length_app. cbn. lia. }
  assert (Hcov : forall x, cover (pages_of P l) x = in_tables P x) by (intros x; now apply pages_cover).
  assert (Hs : total (pages_of P l) = Z.of_nat (size P)).
  { transitivity (Z.of_nat (length l)); [unfold pages_of; clear; induction l as [|q l IH]; [reflexivity|cbn [fmap list_fmap total snd length] in *; lia]|].
    f_equal. rewrite <- (size_list_to_set (C := gset (list Z)) l), <- (size_dom (D := gset (list Z)) P) by exact Hn. f_equal.
    apply leibniz_equiv. intros q. rewrite elem_of_list_to_set, elem_of_dom. apply Hl. }
  destruct (reclaim_spec (pages_of P l) (tphys s) bs (tb_phys _ _ _ _ Hok)) as (k & bs' & E & Hp & Hc & Ht).
  - unfold pages_of. apply Forall_fmap, Forall_forall. intros q Hq%list_elem_of_In%Hl. destruct Hq as [t Ht]. cbn. rewrite Ht.
    destruct (tb_page _ _ _ _ Hok q t Ht) as [[A1 A2] _]. unfold block_ok, PGSIZE. cbn. split; [lia|]. split; [exact A2|]. Z.div_mod_to_equations. lia.
  - intros x. rewrite cover_app, Hcov. specialize (Hap x). lia.
  - lia.
  - exists (Ptmem (tmem s) k), bs'. split; [|split; [exact Hp|split; [intros x; rewrite Hc, Hcov; lia|lia]]].
    assert (Es : s = Ptmem (tmem s) (tphys s)) by (now destruct s). rewrite Es at 1. rewrite free_table_run. unfold frees. cbn [tphys tmem]. fold l. now rewrite E.
Qed.
End free.


(** C34: a page table that is created, used by any sequence of [add_mapping],
    [del_mapping] and [get_mapping] on user pages and then freed gives back every
    page it took: the pages that are free in the end are exactly those that were
    free before [create], so no table leaks and none is freed twice. *)
Theorem pagetable_lifetime s bs k os : phys_ok (tphys s) bs -> kernel_table s bs k -> Forall op_ok os -> 32 + 3 * Z.of_nat (length os) <= nfree (tphys s) ->
  exists s' bs', (root ← create k; pt_run root os;; free_table root) s = Done tt s' /\ phys_ok (tphys s') bs' /\
    (forall x, cover bs' x = cover bs x) /\ nfree (tphys s') = nfree (tphys s).
Proof.
  intros Hp Hk Ho Hn. destruct (create_spec s bs k Hp ltac:(lia) Hk) as (root & s1 & b1 & E & Hs & Hn1 & (_ & _ & _ & Hx & Ht)).
  destruct (pt_run_steps os s1 root _ _ _ ∅ Hs) as (s2 & P2 & b2 & f2 & E2 & [Hok2 _] & [Hc2 Hz2]); [intros va; reflexivity|exact Ho|lia|].
  assert (Hone : forall x, cover b2 x + in_tables P2 x = cover bs x).
  { intros x. rewrite Hc2, <- Hx, <- insert_empty, in_tables_insert by apply lookup_empty. unfold in_tables. rewrite map_fold_empty. lia. }
  assert (Hsz : total b2 + Z.of_nat (size P2) = total bs) by (rewrite Hz2, map_size_singleton; lia).
  destruct (free_table_spec s2 root P2 b2 Hok2) as (s3 & b3 & E3 & H1 & H2 & H3); [intros x; rewrite Hone; apply Hp|rewrite Hsz; apply Hp|].
  exists s3, b3. prun E. prun E2. split; [exact E3|]. split; [exact H1|]. split; [intros x; now rewrite H2|].
  rewrite (po_nfree _ _ H1), (po_nfree _ _ Hp), H3. exact Hsz.
Qed.

Lemma pagetable_lifetime_witness :
  match (root ← create 1048576; pt_run root demo_ops;; free_table root) demo_tables with Done _ s' => nfree (tphys s') = 42 | _ => False end /\
  exists s' bs', (root ← create 1048576; pt_run root demo_ops;; free_table root) demo_tables = Done tt s' /\ phys_ok (tphys s') bs' /\
    (forall x, cover bs' x = cover [(4096, 2); (16384, 40)] x) /\ nfree (tphys s') = nfree (tphys demo_tables).
Proof.
  split; [vm_compute; reflexivity|]. apply pagetable_lifetime with (bs := [(4096, 2); (16384, 40)]); [exact demo_kmem_ok|exact demo_tables_ok| |cbn; lia].
  repeat (apply Forall_cons_iff; split; [repeat split; cbn; lia|]). constructor.
Defined.
