(* ===== verification/Vfs.v ===== *)
(** * The virtual file system and tmpfs

    Inodes (kernel/fs/fs.cpp), path lookup (kernel/fs/vfs.cpp, kernel/fs/getcwd.cpp),
    the directory operations of tmpfs (fs/tmpfs/dir.cpp, fs/tmpfs/superblock.cpp) and
    the system calls on paths.  Inodes, directory entries and superblocks are
    objects in maps by address; [new] returns an address that was not used before
    and zeroes the object.  A panic, a failed [assert] and an access through a null
    or freed pointer are [Fail].  The state is that of one process; a path is the
    list of its bytes, without the terminator. *)

From S2P Require Import Prelude CMem State.

Abbreviation name := (list Z).
Definition slash : Z := 47.
Definition dot : name := [46].
Definition dotdot : name := [46; 46].

Definition ENOENT : Z := 2.
Definition EPERM : Z := 1.
Definition EEXIST : Z := 17.
Definition ENOTDIR : Z := 20.
Definition EISDIR : Z := 21.
Definition EINVAL : Z := 22.
Definition ENOTIMPL : Z := 134.
Definition O_RDONLY : Z := 0.
Definition O_CREAT : Z := 64.
Definition ENT_MEM : Z := 0.
Definition T_DIR : Z := 1.
Definition T_FILE : Z := 2.

(** ** State *)

Record entry := Entry { e_type : Z; e_name : name; e_nr : Z; e_ino : Z; mount_shadow : Z }.
Record direntry := Direntry { d_ent : entry; d_next : Z; d_prev : Z }.

Record inode := Inode {
  itype : Z; imode : Z; inr : Z; iuid : Z; igid : Z; link_count : Z; isize : Z;
  has_dops : bool; isb : Z; mountpoint : Z; entries : Z; dname : option name; rc : Z }.

Record superblock := Superblock { next_inode : Z; sroot : Z; scount : Z }.

(** [vfs::mountpoint] *)
Record mounted := Mounted { m_sb : Z; m_host : Z; m_flags : Z; m_devname : name }.

Record vfs := Vfs {
  inodes : gmap Z inode; dirents : gmap Z direntry; superblocks : gmap Z superblock; vheap : Z;
  vfs_root : Z; mountpoints : list mounted;
  proot : Z; pcwd : Z; cwd_string : name; puid : Z; pgid : Z }.

Definition V : Type -> Type := SM vfs.

Definition on_inodes (f : gmap Z inode -> gmap Z inode) (s : vfs) : vfs :=
  Vfs (f (inodes s)) (dirents s) (superblocks s) (vheap s) (vfs_root s) (mountpoints s) (proot s) (pcwd s) (cwd_string s) (puid s) (pgid s).
Definition on_dirents (f : gmap Z direntry -> gmap Z direntry) (s : vfs) : vfs :=
  Vfs (inodes s) (f (dirents s)) (superblocks s) (vheap s) (vfs_root s) (mountpoints s) (proot s) (pcwd s) (cwd_string s) (puid s) (pgid s).
Definition on_sbs (f : gmap Z superblock -> gmap Z superblock) (s : vfs) : vfs :=
  Vfs (inodes s) (dirents s) (f (superblocks s)) (vheap s) (vfs_root s) (mountpoints s) (proot s) (pcwd s) (cwd_string s) (puid s) (pgid s).
Definition set_heap (h : Z) (s : vfs) : vfs :=
  Vfs (inodes s) (dirents s) (superblocks s) h (vfs_root s) (mountpoints s) (proot s) (pcwd s) (cwd_string s) (puid s) (pgid s).
Definition set_vfs_root (r : Z) (s : vfs) : vfs :=
  Vfs (inodes s) (dirents s) (superblocks s) (vheap s) r (mountpoints s) (proot s) (pcwd s) (cwd_string s) (puid s) (pgid s).
Definition push_mount (m : mounted) (s : vfs) : vfs :=
  Vfs (inodes s) (dirents s) (superblocks s) (vheap s) (vfs_root s) (mountpoints s ++ [m]) (proot s) (pcwd s) (cwd_string s) (puid s) (pgid s).
Definition set_proc (root cwd : Z) (str : name) (s : vfs) : vfs :=
  Vfs (inodes s) (dirents s) (superblocks s) (vheap s) (vfs_root s) (mountpoints s) root cwd str (puid s) (pgid s).

Definition get_ino (i : Z) : V inode := sopt (fun s => inodes s !! i).
Definition set_ino (i : Z) (x : inode) : V unit := modify (on_inodes <[i := x]>).
Definition get_ent (a : Z) : V direntry := sopt (fun s => dirents s !! a).
Definition set_ent (a : Z) (d : direntry) : V unit := modify (on_dirents <[a := d]>).
Definition get_sb (a : Z) : V superblock := sopt (fun s => superblocks s !! a).
Definition set_sb (a : Z) (b : superblock) : V unit := modify (on_sbs <[a := b]>).
Definition new_object : V Z := h ← gets vheap; modify (set_heap (h + 16));; mret h.
Definition assert (b : bool) : V unit := if b then mret tt else sfail.

Definition with_rc (x : inode) (n : Z) : inode :=
  Inode (itype x) (imode x) (inr x) (iuid x) (igid x) (link_count x) (isize x) (has_dops x) (isb x) (mountpoint x) (entries x) (dname x) n.
Definition with_entries (x : inode) (a : Z) : inode :=
  Inode (itype x) (imode x) (inr x) (iuid x) (igid x) (link_count x) (isize x) (has_dops x) (isb x) (mountpoint x) a (dname x) (rc x).
Definition with_name (x : inode) (n : option name) : inode :=
  Inode (itype x) (imode x) (inr x) (iuid x) (igid x) (link_count x) (isize x) (has_dops x) (isb x) (mountpoint x) (entries x) n (rc x).
Definition with_owner (x : inode) (uid gid mode : Z) : inode :=
  Inode (itype x) (s16 mode) (inr x) (u16 uid) (u16 gid) (link_count x) (isize x) (has_dops x) (isb x) (mountpoint x) (entries x) (dname x) (rc x).

(** ** Inodes (kernel/fs/fs.cpp) *)

(** [superblock::get] and [put] *)
Definition sb_add (sb n : Z) : V unit :=
  b ← get_sb sb; set_sb sb (Superblock (next_inode b) (sroot b) (scount b + n)).

Definition new_inode (type sb : Z) : V Z :=
  i ← new_object;
  set_ino i (Inode type 0 0 0 0 0 0 false sb 0 0 None 0);;
  sb_add sb 1;;
  mret i.

Definition acquire (i : Z) : V Z :=
  assert (negb (i =? 0));;
  x ← get_ino i;
  set_ino i (with_rc x (s32 (rc x + 1)));;
  mret i.

Definition is_dots (n : name) : bool := bool_decide (n = dot) || bool_decide (n = dotdot).

(** [delete] of an inode: its destructor, with [destruct_dir], whose loop reads the
    entry's [next] after the entry was deleted. *)
Fixpoint delete_inode (fuel : nat) (i : Z) : V unit :=
  match fuel with
  | O => fun _ => Spin
  | S fuel =>
      x ← get_ino i;
      (if itype x =? T_DIR then
         set_ino i (with_name x None);;
         sloop fuel (fun a =>
           if a =? 0 then mret (Break tt) else
           d ← get_ent a;
           if is_dots (e_name (d_ent d)) then mret (Next (d_next d)) else
           (if negb (e_ino (d_ent d) =? 0) then delete_inode fuel (e_ino (d_ent d)) else mret tt);;
           modify (on_dirents (delete a));;
           d ← get_ent a;
           mret (Next (d_next d))) (entries x)
       else mret tt);;
      sb_add (isb x) (-1);;
      modify (on_inodes (delete i))
  end.

Definition release (i : Z) : V Z :=
  assert (negb (i =? 0));;
  x ← get_ino i;
  set_ino i (with_rc x (s32 (rc x - 1)));;
  (if s32 (rc x - 1) =? 0 then
     fuel ← gets (fun s => S (size (inodes s) + size (dirents s)));
     delete_inode fuel i
   else mret tt);;
  mret 0.

Definition set_name (i : Z) (s : name) : V Z :=
  x ← get_ino i;
  if negb (itype x =? T_DIR) then mret (- ENOTDIR) else
  match dname x with
  | Some _ => mret 0
  | None => set_ino i (with_name x (Some s));; mret 0
  end.

(** The loops over the entries of a directory that look for a name: the entry, or 0. *)
Definition find_step (nm : name) (a : Z) : V (ctl Z Z) :=
  if a =? 0 then mret (Break 0) else
  d ← get_ent a;
  if bool_decide (e_name (d_ent d) = nm) then mret (Break a) else mret (Next (d_next d)).
Definition find_ent (nm : name) (first : Z) : V Z :=
  fuel ← gets (fun s => S (S (size (dirents s))));
  sloop fuel (find_step nm) first.

(** [dops->lookup] of tmpfs *)
Definition tmpfs_lookup (node : Z) (needle : name) : V Z :=
  x ← get_ino node;
  assert (itype x =? T_DIR);;
  a ← find_ent needle (entries x);
  if a =? 0 then mret 0 else d ← get_ent a; mret (e_ino (d_ent d)).

Definition get_direntry_ino (this a : Z) : V Z :=
  x ← get_ino this;
  assert (itype x =? T_DIR);;
  d ← get_ent a;
  let e := d_ent d in
  if negb (mount_shadow e =? 0) then mret (mount_shadow e)
  else if negb (e_ino e =? 0) then mret (e_ino e)
  else
    assert (has_dops x);;
    r ← tmpfs_lookup this (e_name e);
    set_ent a (Direntry (Entry (e_type e) (e_name e) (e_nr e) r (mount_shadow e)) (d_next d) (d_prev d));;
    (if negb (r =? 0) then acquire r;; mret tt else mret tt);;
    y ← get_ino r;
    (if itype y =? T_DIR then set_name r (e_name e);; mret tt else mret tt);;
    mret r.

Definition add_mount (this : Z) (nm : name) (guest : Z) : V Z :=
  x ← get_ino this;
  a ← find_ent nm (entries x);
  if a =? 0 then mret (- ENOENT) else
  d ← get_ent a;
  let e := d_ent d in
  if negb (mount_shadow e =? 0) then mret (- EEXIST)
  else set_ent a (Direntry (Entry (e_type e) (e_name e) (e_nr e) (e_ino e) guest) (d_next d) (d_prev d));; mret 0.

Definition get_direntry_nolock (this : Z) (nm : name) : V Z :=
  x ← get_ino this;
  assert (itype x =? T_DIR);;
  if bool_decide (nm = dotdot) && negb (mountpoint x =? 0) then mret (mountpoint x) else
  a ← find_ent nm (entries x);
  if a =? 0 then mret 0 else get_direntry_ino this a.

Definition get_direntry (this : Z) (nm : name) : V Z :=
  x ← get_ino this;
  assert (itype x =? T_DIR);;
  get_direntry_nolock this nm.

Definition set_prev (a p : Z) : V unit := d ← get_ent a; set_ent a (Direntry (d_ent d) (d_next d) p).
Definition set_next (a n : Z) : V unit := d ← get_ent a; set_ent a (Direntry (d_ent d) n (d_prev d)).

Definition register_direntry (this : Z) (nm : name) (enttype nr ino : Z) : V Z :=
  x ← get_ino this;
  assert (itype x =? T_DIR);;
  a ← find_ent nm (entries x);
  if negb (a =? 0) then mret (- EEXIST) else
  ent ← new_object;
  set_ent ent (Direntry (Entry enttype nm nr ino 0) (entries x) 0);;
  (if negb (entries x =? 0) then set_prev (entries x) ent else mret tt);;
  set_ino this (with_entries x ent);;
  (if negb (ino =? 0) && negb (ino =? this) then acquire ino;; mret tt else mret tt);;
  mret 0.

Definition remove_direntry (this : Z) (nm : name) : V Z :=
  x ← get_ino this;
  assert (itype x =? T_DIR);;
  a ← find_ent nm (entries x);
  if a =? 0 then mret (- ENOENT) else
  d ← get_ent a;
  (if negb (d_prev d =? 0) then set_next (d_prev d) (d_next d) else mret tt);;
  (if negb (d_next d =? 0) then set_prev (d_next d) (d_prev d) else mret tt);;
  (if a =? entries x then set_ino this (with_entries x (d_next d)) else mret tt);;
  (if negb (e_ino (d_ent d) =? 0) && negb (e_ino (d_ent d) =? this) then release (e_ino (d_ent d));; mret tt else mret tt);;
  (if negb (mount_shadow (d_ent d) =? 0) then release (mount_shadow (d_ent d));; mret tt else mret tt);;
  modify (on_dirents (delete a));;
  mret 0.

(** ** tmpfs *)

Definition create_inode (sb type : Z) : V Z :=
  i ← new_inode type sb;
  b ← get_sb sb;
  set_sb sb (Superblock (u64 (next_inode b + 1)) (sroot b) (scount b));;
  x ← get_ino i;
  set_ino i (Inode (itype x) 4077 (u32 (next_inode b)) 0 0 3 0 true (isb x) (mountpoint x) (entries x) (dname x) (rc x));;
  acquire i.

(** [tmpfs_mount], with the constructor of [tmp::superblock]. *)
Definition tmpfs_mount : V Z :=
  sb ← new_object;
  set_sb sb (Superblock 0 0 0);;
  root ← create_inode sb T_DIR;
  b ← get_sb sb;
  set_sb sb (Superblock (next_inode b) root (scount b));;
  x ← get_ino root;
  register_direntry root dot ENT_MEM (inr x) root;;
  register_direntry root dotdot ENT_MEM (inr x) root;;
  mret sb.

Definition tmpfs_create (ino : Z) (nm : name) (uid gid mode : Z) : V Z :=
  x ← get_ino ino;
  assert (itype x =? T_DIR);;
  ent ← create_inode (isb x) T_FILE;
  y ← get_ino ent;
  set_ino ent (with_owner y uid gid mode);;
  register_direntry ino nm ENT_MEM (inr y) ent;;
  mret 0.

Definition tmpfs_mkdir (ino : Z) (nm : name) (uid gid mode : Z) : V Z :=
  x ← get_ino ino;
  dir ← create_inode (isb x) T_DIR;
  y ← get_ino dir;
  set_ino dir (with_owner y uid gid mode);;
  set_name dir nm;;
  register_direntry ino nm ENT_MEM (inr y) dir;;
  register_direntry dir dot ENT_MEM (inr y) dir;;
  register_direntry dir dotdot ENT_MEM (inr x) ino;;
  mret 0.

Definition tmpfs_unlink (node : Z) (nm : name) : V Z :=
  x ← get_ino node;
  assert (itype x =? T_DIR);;
  remove_direntry node nm.

(** ** Paths (kernel/fs/vfs.cpp) *)

Fixpoint skip_slashes (path : name) : name :=
  match path with c :: r => if c =? slash then skip_slashes r else path | [] => [] end.
(** The bytes up to the next slash, and the rest. *)
Fixpoint take_elem (path : name) : name * name :=
  match path with
  | [] => ([], [])
  | c :: r => if c =? slash then ([], path) else let '(e, r) := take_elem r in (c :: e, r)
  end.

(** The rest of the path, the element and whether it is the last.  An element of 255
    bytes or more is copied without a terminator: there is no string. *)
Definition skipelem (path : name) : option (name * option name * bool) :=
  match skip_slashes path with
  | [] => None
  | path =>
      let '(e, rest) := take_elem path in
      let nm := if 255 <=? Z.of_nat (length e) then None else Some e in
      Some (skip_slashes rest, nm, match rest with [] => true | _ => false end)
  end.

Definition user_root : V Z := r ← gets proot; if r =? 0 then gets vfs_root else mret r.
Definition cwd : V Z := c ← gets pcwd; if c =? 0 then gets vfs_root else mret c.

Definition start_at (path : name) (cwd : Z) (uroot : Z) : V Z :=
  match path with
  | c :: _ => if c =? slash then mret uroot else assert (negb (cwd =? 0));; mret cwd
  | [] => assert (negb (cwd =? 0));; mret cwd
  end.

(** The body of the loop of [namei]: the rest of the path and the inode, or the error
    and [res], which is not always set. *)
Definition namei_step (uroot flags mode res : Z) (get_last : bool) (st : name * Z) : V (ctl (name * Z) (Z * Z)) :=
  let '(path, ino) := st in
  match skipelem path with
  | None => mret (Break (0, ino))
  | Some (_, None, _) => sfail
  | Some (path, Some nm, last) =>
      if bool_decide (nm = dotdot) && (ino =? uroot) then mret (Next (path, ino)) else
      if last && get_last then mret (Break (0, ino)) else
      found ← get_direntry ino nm;
      if found =? 0 then
        if last && negb (Z.land flags O_CREAT =? 0) then
          x ← get_ino ino;
          if has_dops x then
            uid ← gets puid; gid ← gets pgid;
            r ← tmpfs_create ino nm uid gid mode;
            if r =? 0 then res ← get_direntry ino nm; mret (Break (r, res)) else mret (Break (r, res))
          else mret (Break (- EINVAL, res))
        else mret (Break (- ENOENT, 0))
      else mret (Next (path, found))
  end.

Definition namei (path : name) (flags mode cwd res : Z) (get_last : bool) : V (Z * Z) :=
  uroot ← user_root;
  ino ← start_at path cwd uroot;
  sloop (S (length path)) (namei_step uroot flags mode res get_last) (path, ino).

Definition unlink_step (uroot : Z) (st : name * Z) : V (ctl (name * Z) Z) :=
  let '(path, ino) := st in
  match skipelem path with
  | None => mret (Break 0)
  | Some (_, None, _) => sfail
  | Some (path, Some nm, last) =>
      if bool_decide (nm = dotdot) && (ino =? uroot) then mret (Next (path, ino)) else
      next ← get_direntry ino nm;
      if next =? 0 then mret (Break (- ENOENT)) else
      if last then
        y ← get_ino next;
        if itype y =? T_DIR then mret (Break (- EISDIR)) else
        x ← get_ino ino;
        if negb (itype x =? T_DIR) then mret (Break (- ENOTDIR)) else
        assert (has_dops x);;
        r ← tmpfs_unlink ino nm;
        mret (Break r)
      else mret (Next (path, next))
  end.

Definition unlink (path : name) (cwd : Z) : V Z :=
  uroot ← user_root;
  ino ← start_at path cwd uroot;
  sloop (S (length path)) (unlink_step uroot) (path, ino).

Definition open (spath : name) (opts mode : Z) : V Z :=
  c ← cwd;
  '(err, ino) ← namei spath opts mode c 0 false;
  if negb (err =? 0) then mret 0 else mret ino.

(** The kernel's [string::split], and its last token. *)
Fixpoint split_loop (token s : name) : list name :=
  match s with
  | [] => match token with [] => [] | _ => [token] end
  | c :: s =>
      if c =? slash then match token with [] => split_loop [] s | _ => token :: split_loop [] s end
      else split_loop (token ++ [c]) s
  end.
Definition split (s : name) : list name := split_loop [] s.

Definition mount (filesystems : list (name * V Z)) (targ : name) (type : option name) (flags : Z) : V Z :=
  root ← gets vfs_root;
  if (root =? 0) && negb (bool_decide (targ = [slash])) then mret (- EINVAL) else
  match type with
  | None => mret (- EINVAL)
  | Some ty =>
      match find (fun f => bool_decide (fst f = ty)) filesystems with
      | None => mret (- ENOENT)
      | Some (_, fs_mount) =>
          sb ← fs_mount;
          if sb =? 0 then mret (- EINVAL) else
          b ← get_sb sb;
          assert (negb (sroot b =? 0));;
          x ← get_ino (sroot b);
          assert (isb x =? sb);;
          if (root =? 0) && bool_decide (targ = [slash]) then
            r ← acquire (sroot b);
            modify (set_vfs_root r);;
            modify (push_mount (Mounted sb 0 flags targ));;
            mret 0
          else
            host ← open targ O_RDONLY 0;
            if host =? 0 then mret (- EINVAL) else
            h ← get_ino host;
            if negb (itype h =? T_DIR) || (host =? root) then mret (- EINVAL) else
            parent ← get_direntry host dotdot;
            assert (negb (parent =? 0));;
            add_mount (sroot b) dotdot parent;;
            match head (reverse (split targ)) with
            | None => sfail
            | Some end_ =>
                x ← get_ino (sroot b);
                set_ino (sroot b) (with_name x (Some end_));;
                add_mount parent end_ (sroot b);;
                modify (push_mount (Mounted sb host flags targ));;
                mret 0
            end
      end
  end.

(** The name after the last slash. *)
Fixpoint after_slash (acc path : name) : name :=
  match path with [] => acc | c :: r => if c =? slash then after_slash r r else after_slash acc r end.

(** [valid]: what [validate_string] says of the user's pointer.  A path that fills the
    buffer has no terminator in it. *)
Definition mkdir (valid : bool) (path : name) (mode : Z) : V Z :=
  if negb valid then mret (- EINVAL) else
  if 256 <=? Z.of_nat (length path) then sfail else
  let nm := after_slash path path in
  c ← cwd;
  '(err, dir) ← namei path 0 mode c 0 true;
  if err <? 0 then mret err else
  if dir =? 0 then mret (- ENOENT) else
  x ← get_ino dir;
  if negb (itype x =? T_DIR) then mret (- ENOTDIR) else
  if negb (has_dops x) then mret (- ENOTIMPL) else
  e ← get_direntry dir nm;
  if negb (e =? 0) then mret (- EEXIST) else
  uid ← gets puid; gid ← gets pgid;
  tmpfs_mkdir dir nm uid gid mode.

(** ** The working directory *)

(** The loop of [getcwd]: the directory, [dst] and [depth], or the error and [dst]. *)
Definition getcwd_step (root : Z) (st : Z * name * Z) : V (ctl (Z * name * Z) (Z * name)) :=
  let '(cur, dst, depth) := st in
  if cur =? root then mret (Break (0, dst)) else
  x ← get_ino cur;
  if negb (itype x =? T_DIR) then mret (Break (- ENOTDIR, dst)) else
  next ← get_direntry cur dotdot;
  match dname x with
  | None => mret (Break (- EINVAL, dst))
  | Some n =>
      let dst := slash :: n ++ dst in
      if depth - 1 =? 0 then mret (Break (0, dst)) else mret (Next (next, dst, depth - 1))
  end.
Definition getcwd (cwd : Z) : V (Z * name) :=
  root ← gets proot;
  if cwd =? root then mret (0, [slash]) else
  sloop 51 (getcwd_step root) (cwd, [], 50).

(** [string::operator=] does not reset the length. *)
Definition string_assign (old s : name) : name :=
  match old with [] => s | _ :: r => 0 :: r ++ s end.

Definition chdir (valid : bool) (path : name) : V Z :=
  if negb valid then mret (- EINVAL) else
  c ← gets pcwd;
  '(err, ncwd) ← namei path 0 0 c 0 false;
  if negb (err =? 0) then mret (-1) else
  if ncwd =? 0 then mret (- ENOENT) else
  x ← get_ino ncwd;
  if negb (itype x =? T_DIR) then mret (- ENOTDIR) else
  acquire ncwd;;
  release c;;
  '(err, str) ← getcwd ncwd;
  if negb (err =? 0) then mret (- EINVAL) else
  modify (fun s => set_proc (proot s) ncwd (string_assign (cwd_string s) str) s);;
  mret 0.

Definition chroot (valid : bool) (path : name) : V Z :=
  if negb valid then mret (- EINVAL) else
  c ← gets pcwd;
  '(err, new_root) ← namei path 0 0 c 0 false;
  if negb (err =? 0) then mret (-1) else
  if new_root =? 0 then mret (- ENOENT) else
  x ← get_ino new_root;
  if negb (itype x =? T_DIR) then mret (- ENOTDIR) else
  r ← gets proot;
  release r;;
  acquire new_root;;
  modify (fun s => set_proc new_root (pcwd s) (cwd_string s) s);;
  '(err, str) ← getcwd new_root;
  if negb (err =? 0) then mret (- EINVAL) else
  acquire new_root;;
  modify (fun s => set_proc (proot s) new_root (string_assign (cwd_string s) str) s);;
  mret 0.

Definition sys_unlink (valid : bool) (path : name) : V Z :=
  if negb valid then mret (- EINVAL) else
  c ← gets pcwd;
  unlink path c.

(** What [spawn_init] gives the first process. *)
Definition init_dirs : V unit :=
  r ← gets vfs_root;
  root ← acquire r;
  modify (fun s => set_proc root (pcwd s) (cwd_string s) s);;
  r ← gets vfs_root;
  c ← acquire r;
  modify (fun s => set_proc (proot s) c (cwd_string s) s).
