(* ===== verification/VfsSpec.v ===== *)
(** * Paths, the abstract file system and the invariant

    A path is cut into elements the way [string::split] cuts it; [skipelem] gives
    them one by one.  The specification of the file system is a map from absolute
    paths to files and directories, with a root and a working directory.  [fs_ok]
    relates the inodes and entries in memory to it, through the maps from paths to
    inodes and to lists of entries. *)

From S2P Require Import Prelude CMem State Dll Vfs.

(** ** The elements of a path *)

Definition trailing (path : name) : bool := match reverse path with c :: _ => c =? slash | [] => false end.

(** Each element, and whether the path ends with it. *)
Fixpoint flag_last (cs : list name) (tr : bool) : list (name * bool) :=
  match cs with [] => [] | [c] => [(c, negb tr)] | c :: cs => (c, false) :: flag_last cs tr end.
Definition elems (path : name) : list (name * bool) := flag_last (split path) (trailing path).

Lemma trailing_app p q : q <> [] -> trailing (p ++ q) = trailing q.
Proof.
  intros H. unfold trailing. rewrite reverse_app. destruct (reverse q) eqn:E; [|reflexivity].
  apply (f_equal reverse) in E. rewrite reverse_involutive in E. contradiction.
Qed.

Lemma split_loop_slashes p : split p = split (skip_slashes p).
Proof. induction p as [|c p IH]; [reflexivity|]. cbn [skip_slashes]. destruct (c =? slash) eqn:E; [|reflexivity]. unfold split in *. cbn [split_loop]. now rewrite E. Qed.

Lemma take_elem_spec p : let '(e, r) := take_elem p in p = e ++ r /\ Forall (fun c => c <> slash) e /\ (r = [] \/ exists r', r = slash :: r').
Proof.
  induction p as [|c p IH]; [now repeat split; [..|left]|]. cbn [take_elem]. destruct (Z.eqb_spec c slash) as [->|Hc].
  - split; [reflexivity|]. split; [constructor|eauto].
  - destruct (take_elem p) as [e r]. destruct IH as (-> & H1 & H2). split; [reflexivity|]. split; [now constructor|exact H2].
Qed.

Lemma split_token e : Forall (fun c => c <> slash) e -> forall tok r, split_loop tok (e ++ r) = split_loop (tok ++ e) r.
Proof.
  induction 1 as [|c e Hc _ IH]; intros tok r; cbn [app split_loop]; [now rewrite app_nil_r|]. rewrite (proj2 (Z.eqb_neq c slash) Hc), IH. now rewrite <- app_assoc.
Qed.

Lemma skip_slashes_suffix p : exists q, p = q ++ skip_slashes p /\ Forall (fun c => c = slash) q.
Proof.
  induction p as [|c p (q & E & Hq)]; [now exists []|]. cbn [skip_slashes]. destruct (Z.eqb_spec c slash) as [->|Hc].
  - exists (slash :: q). cbn [app]. rewrite <- E. split; [reflexivity|]. now constructor.
  - now exists [].
Qed.

Lemma skip_slashes_hd p : match skip_slashes p with [] => True | c :: _ => c <> slash end.
Proof. induction p as [|c p IH]; [exact I|]. cbn [skip_slashes]. destruct (Z.eqb_spec c slash); [exact IH|assumption]. Qed.

Lemma skip_slashes_length p : (length (skip_slashes p) <= length p)%nat.
Proof. destruct (skip_slashes_suffix p) as (q & E & _). rewrite E at 2. rewrite length_app. lia. Qed.

Lemma elems_nil p : elems p = [] <-> skip_slashes p = [].
Proof.
  unfold elems. rewrite split_loop_slashes. split; [|now intros ->]. intros H. pose proof (skip_slashes_hd p) as Hh. destruct (skip_slashes p) as [|c q]; [reflexivity|].
  exfalso. unfold split in H. cbn [split_loop] in H. rewrite (proj2 (Z.eqb_neq _ _) Hh) in H. cbn [app] in H.
  assert (Hn : forall q tok, tok <> [] -> split_loop tok q <> []).
  { clear. induction q as [|c q IH]; intros [|x tok] Ht; try contradiction; cbn [split_loop]; [discriminate|]. destruct (c =? slash); [discriminate|]. now apply IH. }
  specialize (Hn q [c] ltac:(discriminate)). destruct (split_loop [c] q) as [|d [|]]; [contradiction|discriminate..].
Qed.

Lemma trailing_slashes q : Forall (fun c => c = slash) q -> q <> [] -> trailing q = true.
Proof.
  intros H Hq. unfold trailing. destruct (reverse q) as [|c r] eqn:E; [apply (f_equal reverse) in E; now rewrite reverse_involutive in E|].
  assert (c ∈ q) as Hc by (apply elem_of_reverse; rewrite E; left). apply Z.eqb_eq. now apply (proj1 (Forall_forall _ _) H), list_elem_of_In.
Qed.

(** [skipelem] gives the first element, and the path of the others. *)
Lemma skipelem_elems p :
  match elems p with
  | [] => skipelem p = None
  | (c, l) :: es => exists rest, skipelem p = Some (rest, if 255 <=? Z.of_nat (length c) then None else Some c, l) /\
      elems rest = es /\ (length rest < length p)%nat /\ c <> [] /\ Forall (fun x => x <> slash) c
  end.
Proof.
  destruct (elems p) as [|[c l] es] eqn:Ee; [unfold skipelem; now rewrite (proj1 (elems_nil p) Ee)|].
  pose proof (skip_slashes_suffix p) as (q & Ep & Hq). pose proof (skip_slashes_length p) as Hlen. pose proof (skip_slashes_hd p) as Hh.
  assert (Hne : skip_slashes p <> []) by (intros H%elems_nil; congruence). unfold skipelem. destruct (skip_slashes p) as [|x p1] eqn:E1; [contradiction|].
  pose proof (take_elem_spec (x :: p1)) as Ht. destruct (take_elem (x :: p1)) as [e r]. destruct Ht as (E2 & He & Hr).
  assert (He0 : e <> []) by (intros ->; destruct Hr as [->|(r' & ->)]; [discriminate|injection E2 as -> _; now apply Hh]).
  assert (Hsp : split p = e :: split r).
  { rewrite split_loop_slashes, E1, E2. unfold split. rewrite split_token by exact He. cbn [app]. destruct Hr as [->|(r' & ->)]; [now destruct e|]. cbn [split_loop].
    rewrite Z.eqb_refl. now destruct e. }
  assert (Htr : trailing p = trailing (e ++ r)) by (rewrite Ep, E2; apply trailing_app; rewrite <- E2; discriminate).
  assert (Hte : trailing e = false).
  { unfold trailing. destruct (reverse e) as [|y z] eqn:E; [reflexivity|]. apply Z.eqb_neq, (proj1 (Forall_forall _ _) He), list_elem_of_In, elem_of_reverse. rewrite E. left. }
  exists (skip_slashes r). unfold elems in Ee. rewrite Hsp, split_loop_slashes in Ee.
  pose proof (skip_slashes_length r) as Hl2. apply (f_equal length) in E2. rewrite length_app in E2. assert (0 < length e)%nat by (destruct e; [contradiction|cbn; lia]).
  destruct (split (skip_slashes r)) as [|c2 cs] eqn:Es.
  - injection Ee as <- <- <-. assert (Hnil : skip_slashes r = []) by (apply elems_nil; unfold elems; rewrite split_loop_slashes, Es; reflexivity). rewrite Hnil.
    split; [|split; [reflexivity|split; [cbn in *; lia|auto]]]. do 2 f_equal. rewrite Htr. destruct Hr as [->|(r' & ->)]; [rewrite app_nil_r; now rewrite Hte|].
    rewrite trailing_app by discriminate. destruct (skip_slashes_suffix (slash :: r')) as (q' & Eq' & Hq'). rewrite Hnil, app_nil_r in Eq'.
    rewrite trailing_slashes; [reflexivity|now rewrite Eq'|discriminate].
  - injection Ee as <- <- <-. destruct Hr as [->|(r' & ->)]; [discriminate|]. split; [reflexivity|]. split; [|split; [lia|auto]]. unfold elems. rewrite Es. rewrite Htr, trailing_app by discriminate.
    destruct (skip_slashes_suffix (slash :: r')) as (q' & Eq' & _). set (w := skip_slashes (slash :: r')) in *. rewrite Eq', trailing_app; [reflexivity|].
    intros H'. rewrite H' in Es. discriminate.
Qed.

(** The elements before the last name, and that name. *)
Definition dir_elems (path : name) : list (name * bool) := filter (fun e => snd e = false) (elems path).
Definition base_name (path : name) : name := match reverse (elems path) with (c, true) :: _ => c | _ => [] end.

Lemma flag_last_snoc cs c tr : flag_last (cs ++ [c]) tr = ((fun x => (x, false)) <$> cs) ++ [(c, negb tr)].
Proof. induction cs as [|d cs IH]; [reflexivity|]. cbn [app fmap list_fmap] in *. rewrite <- IH. destruct cs; reflexivity. Qed.

Lemma split_slash q : forall tok r, split_loop tok (q ++ slash :: r) = split_loop tok q ++ split r.
Proof.
  induction q as [|c q IH]; intros tok r; cbn [app split_loop]; [rewrite Z.eqb_refl; now destruct tok|].
  destruct (c =? slash); [|apply IH]. destruct tok; [apply IH|]. cbn [app]. now rewrite IH.
Qed.

Lemma after_slash_free r : Forall (fun c => c <> slash) r -> forall acc, after_slash acc r = acc.
Proof. induction 1 as [|c r Hc _ IH]; intros acc; cbn [after_slash]; [reflexivity|]. now rewrite (proj2 (Z.eqb_neq c slash) Hc). Qed.

Lemma after_slash_last q : forall acc r, Forall (fun c => c <> slash) r -> after_slash acc (q ++ slash :: r) = r.
Proof.
  induction q as [|c q IH]; intros acc r Hr; cbn [app after_slash]; [rewrite Z.eqb_refl; now apply after_slash_free|].
  destruct (c =? slash); now apply IH.
Qed.

Lemma last_slash p : Forall (fun c => c <> slash) p \/ exists q r, p = q ++ slash :: r /\ Forall (fun c => c <> slash) r.
Proof.
  induction p as [|c p [IH|(q & r & -> & Hr)]]; [now left| |right; now exists (c :: q), r].
  destruct (decide (c = slash)) as [->|Hc]; [right; now exists [], p|left; now constructor].
Qed.

Lemma split_free r : Forall (fun c => c <> slash) r -> split r = match r with [] => [] | _ => [r] end.
Proof. intros H. unfold split. rewrite <- (app_nil_r r) at 1. rewrite split_token by exact H. reflexivity. Qed.

Lemma trailing_free r : Forall (fun c => c <> slash) r -> trailing r = false.
Proof.
  intros H. unfold trailing. destruct (reverse r) as [|y z] eqn:E; [reflexivity|]. apply Z.eqb_neq, (proj1 (Forall_forall _ _) H), list_elem_of_In, elem_of_reverse. rewrite E. left.
Qed.

Lemma after_slash_base p : after_slash p p = base_name p.
Proof.
  unfold base_name, elems. destruct (last_slash p) as [Hp|(q & r & -> & Hr)].
  - rewrite after_slash_free, split_free, trailing_free by exact Hp. now destruct p.
  - rewrite after_slash_last by exact Hr. unfold split. rewrite split_slash, (split_free r) by exact Hr. destruct r as [|c r].
    + rewrite trailing_app by discriminate. rewrite app_nil_r. change (trailing [slash]) with true.
      destruct (split_loop [] q) as [|d cs _] using rev_ind; [reflexivity|]. now rewrite flag_last_snoc, reverse_snoc.
    + rewrite flag_last_snoc, reverse_snoc. change (slash :: c :: r) with ([slash] ++ c :: r). rewrite !trailing_app by discriminate. now rewrite (trailing_free _ Hr).
Qed.

(** ** The abstract file system *)

Inductive kind := Dir | File.
#[export] Instance kind_eq_dec : EqDecision kind.
Proof. solve_decision. Defined.
Abbreviation apath := (list name).
Record tree := Tree { nodes : gmap apath kind; aroot : apath; acwd : apath }.

Definition ktype (k : kind) : Z := match k with Dir => T_DIR | File => T_FILE end.
Definition parent (p : apath) : apath := take (length p - 1) p.
Definition step (cur : apath) (c : name) : apath :=
  if bool_decide (c = dot) then cur else if bool_decide (c = dotdot) then parent cur else cur ++ [c].

Inductive walked := Found (p : apath) | Missing (p : apath) (c : name) (last : bool) | NotDir.

Fixpoint walk (t : tree) (cur : apath) (es : list (name * bool)) : walked :=
  match es with
  | [] => Found cur
  | (c, l) :: es =>
      if bool_decide (c = dotdot) && bool_decide (cur = aroot t) then walk t cur es
      else match nodes t !! cur with
           | Some Dir =>
               match nodes t !! step cur c with
               | Some _ => walk t (step cur c) es
               | None => Missing cur c l
               end
           | _ => NotDir
           end
  end.

Definition a_start (t : tree) (path : name) : apath :=
  match path with c :: _ => if c =? slash then aroot t else acwd t | [] => acwd t end.

Definition kind_at (t : tree) (p : apath) : Z := match nodes t !! p with Some k => ktype k | None => 0 end.
Definition add_node (t : tree) (p : apath) (k : kind) : tree := Tree (<[p := k]> (nodes t)) (aroot t) (acwd t).

Inductive fsop :=
| Open (path : name) (flags mode : Z)
| Mkdir (valid : bool) (path : name) (mode : Z)
| Unlink (valid : bool) (path : name)
| Chdir (valid : bool) (path : name)
| Chroot (valid : bool) (path : name)
| Getcwd.

(** [None]: the kernel stops, because the path goes through a file. *)
Definition a_open (t : tree) (path : name) (flags : Z) : option (Z * tree) :=
  match walk t (a_start t path) (elems path) with
  | Found p => Some (kind_at t p, t)
  | Missing p c l => if l && negb (Z.land flags O_CREAT =? 0) then Some (T_FILE, add_node t (p ++ [c]) File) else Some (0, t)
  | NotDir => None
  end.

Definition a_mkdir (t : tree) (path : name) : option (Z * tree) :=
  match walk t (a_start t path) (dir_elems path) with
  | Found p =>
      match nodes t !! p with
      | Some Dir =>
          match nodes t !! step p (base_name path) with
          | Some _ => Some (- EEXIST, t)
          | None => Some (0, add_node t (p ++ [base_name path]) Dir)
          end
      | _ => Some (- ENOTDIR, t)
      end
  | Missing _ _ _ => Some (- ENOENT, t)
  | NotDir => None
  end.

(** A path that ends in a slash, or has no elements, removes nothing. *)
Definition a_unlink (t : tree) (path : name) : option (Z * tree) :=
  match walk t (a_start t path) (dir_elems path) with
  | Found p =>
      if bool_decide (base_name path = []) || (bool_decide (base_name path = dotdot) && bool_decide (p = aroot t)) then Some (0, t) else
      match nodes t !! p with
      | Some Dir =>
          match nodes t !! step p (base_name path) with
          | Some Dir => Some (- EISDIR, t)
          | Some File => Some (0, Tree (delete (p ++ [base_name path]) (nodes t)) (aroot t) (acwd t))
          | None => Some (- ENOENT, t)
          end
      | _ => None
      end
  | Missing _ _ _ => Some (- ENOENT, t)
  | NotDir => None
  end.

Definition a_enter (t : tree) (path : name) (f : apath -> tree) : option (Z * tree) :=
  match walk t (a_start t path) (elems path) with
  | Found p => match nodes t !! p with Some Dir => Some (0, f p) | _ => Some (- ENOTDIR, t) end
  | Missing _ _ _ => Some (-1, t)
  | NotDir => None
  end.
Definition a_chdir (t : tree) (path : name) := a_enter t path (fun p => Tree (nodes t) (aroot t) p).
Definition a_chroot (t : tree) (path : name) := a_enter t path (fun p => Tree (nodes t) p p).

(** The names from the root, 50 at most. *)
Definition path_bytes (p : apath) : name := p ≫= cons slash.
Definition a_getcwd (t : tree) : name :=
  match drop (length (aroot t)) (acwd t) with
  | [] => [slash]
  | rel => path_bytes (drop (length rel - 50) rel)
  end.

Definition checked (valid : bool) (t : tree) (r : option (Z * tree)) : option (Z * tree) :=
  if valid then r else Some (- EINVAL, t).
Definition a_exec (t : tree) (o : fsop) : option (Z * name * tree) :=
  match o with
  | Open path flags _ => '(r, t) ← a_open t path flags; Some (r, [], t)
  | Mkdir v path _ => '(r, t) ← checked v t (a_mkdir t path); Some (r, [], t)
  | Unlink v path => '(r, t) ← checked v t (a_unlink t path); Some (r, [], t)
  | Chdir v path => '(r, t) ← checked v t (a_chdir t path); Some (r, [], t)
  | Chroot v path => '(r, t) ← checked v t (a_chroot t path); Some (r, [], t)
  | Getcwd => Some (0, a_getcwd t, t)
  end.
Fixpoint a_run (t : tree) (os : list fsop) : option (list (Z * name)) :=
  match os with
  | [] => Some []
  | o :: os => '(r, w, t) ← a_exec t o; rs ← a_run t os; Some ((r, w) :: rs)
  end.

(** The same calls of the kernel: what they return, for an inode its type. *)
Definition v_exec (o : fsop) : V (Z * name) :=
  match o with
  | Open path flags mode => i ← open path flags mode; if i =? 0 then mret (0, []) else x ← get_ino i; mret (itype x, [])
  | Mkdir v path mode => r ← mkdir v path mode; mret (r, [])
  | Unlink v path => r ← sys_unlink v path; mret (r, [])
  | Chdir v path => r ← chdir v path; mret (r, [])
  | Chroot v path => r ← chroot v path; mret (r, [])
  | Getcwd => c ← gets pcwd; getcwd c
  end.
Fixpoint v_run (os : list fsop) : V (list (Z * name)) :=
  match os with
  | [] => mret []
  | o :: os => r ← v_exec o; rs ← v_run os; mret (r :: rs)
  end.

Ltac vrun E := rewrite (bind_done _ _ _ _ _ E).

(** ** Lists of entries *)

Definition cell (p n : Z) (x : Z * entry) : direntry := Direntry (snd x) n p.
Abbreviation dents T L := (dseg cell fst T 0 L 0).

Fixpoint find_addr (L : list (Z * entry)) (c : name) : Z :=
  match L with [] => 0 | (a, e) :: L => if bool_decide (e_name e = c) then a else find_addr L c end.
Fixpoint assoc (L : list (Z * entry)) (c : name) : option Z :=
  match L with [] => None | (a, e) :: L => if bool_decide (e_name e = c) then Some (e_ino e) else assoc L c end.

Definition names (L : list (Z * entry)) : list name := (fun d => e_name (snd d)) <$> L.

Lemma get_ino_done s i x : inodes s !! i = Some x -> get_ino i s = Done x s.
Proof. intros E. unfold get_ino, sopt. now rewrite E. Qed.
Lemma get_ent_done s a d : dirents s !! a = Some d -> get_ent a s = Done d s.
Proof. intros E. unfold get_ent, sopt. now rewrite E. Qed.

Lemma find_ent_run s L c : dents (dirents s) L -> NoDup (fst <$> L) -> Forall (fun d => 0 < fst d) L ->
  find_ent c (hd_addr fst 0 L) s = Done (find_addr L c) s.
Proof.
  intros Hd Hn Hp. pose proof (dseg_size _ _ _ _ _ _ Hd Hn) as Hsz. unfold find_ent. rewrite (bind_done _ _ _ _ _ (eq_refl : gets _ s = Done _ s)).
  assert (Hgen : forall L p fuel, dseg cell fst (dirents s) p L 0 -> Forall (fun d => 0 < fst d) L -> (length L < fuel)%nat ->
    sloop fuel (find_step c) (hd_addr fst 0 L) s = Done (find_addr L c) s); [|apply (Hgen L 0); auto; lia].
  clear. induction L as [|[a e] L IH]; intros p [|fuel] Hd Hp Hf; cbn [length] in Hf; try lia; cbn [sloop hd_addr find_addr fst] in *; [reflexivity|].
  destruct Hd as [Ha Hd]. apply Forall_cons_iff in Hp as [Ha0 Hp]. cbn [fst] in *. assert (E : find_step c a s = Done (if bool_decide (e_name e = c) then Break a else Next (hd_addr fst 0 L)) s).
  { unfold find_step. rewrite (proj2 (Z.eqb_neq a 0)) by lia. vrun (get_ent_done _ _ _ Ha). unfold cell. cbn [d_ent snd d_next]. now destruct (bool_decide _). }
  vrun E. destruct (bool_decide _); [reflexivity|]. apply (IH a); [exact Hd|exact Hp|lia].
Qed.

Lemma find_addr_none L c : Forall (fun d => 0 < fst d) L -> find_addr L c = 0 <-> assoc L c = None.
Proof.
  induction L as [|[a e] L IH]; intros Hp; cbn; [easy|]. apply Forall_cons_iff in Hp as [Ha Hp]. cbn in Ha. case_bool_decide; [split; [lia|discriminate]|auto].
Qed.

Lemma assoc_none L c : assoc L c = None <-> c ∉ names L.
Proof.
  induction L as [|[a e] L IH]; cbn; [split; [intros _; apply not_elem_of_nil|easy]|]. rewrite not_elem_of_cons. case_bool_decide; [split; [discriminate|intros [H1 _]; congruence]|].
  rewrite IH. split; [intros H1; split; [congruence|exact H1]|tauto].
Qed.

(** The entry of a name. *)
Lemma assoc_split L c i : assoc L c = Some i -> exists L1 a e L2, L = L1 ++ (a, e) :: L2 /\ e_name e = c /\ e_ino e = i /\ find_addr L c = a /\ c ∉ names L1.
Proof.
  induction L as [|[a e] L IH]; cbn; [discriminate|]. case_bool_decide as Hc; [intros [= <-]; exists [], a, e, L; repeat split; auto; apply not_elem_of_nil|].
  intros (L1 & b & f & L2 & -> & H1 & H2 & H3 & H4)%IH. exists ((a, e) :: L1), b, f, L2. repeat split; auto. cbn. rewrite not_elem_of_cons. split; [congruence|exact H4].
Qed.

Lemma assoc_app L1 L2 c : c ∉ names L1 -> assoc (L1 ++ L2) c = assoc L2 c.
Proof.
  induction L1 as [|[a e] L1 IH]; cbn; [easy|]. rewrite not_elem_of_cons. intros [H1 H2]. rewrite bool_decide_false by congruence. auto.
Qed.

(** ** The invariant *)

Abbreviation imap := (gmap apath Z).
Abbreviation dmap := (gmap apath (list (Z * entry))).

Definition holds (s : vfs) (a : Z) : Z := b2z (a =? proot s) + b2z (a =? pcwd s).

(** An inode of the tree, with [m] references besides those of the process; [n] more can
    be taken. *)
Definition node_ok (m n : Z) (s : vfs) (t : tree) (D : dmap) (p : apath) (a : Z) : Prop :=
  exists x, inodes s !! a = Some x /\ itype x = kind_at t p /\ has_dops x = true /\ mountpoint x = 0 /\ is_Some (superblocks s !! isb x) /\
    m + holds s a <= rc x /\ rc x + n < 2 ^ 31 /\
    (nodes t !! p = Some Dir -> exists L, D !! p = Some L /\ entries x = hd_addr fst 0 L /\ (forall q c, p = q ++ [c] -> dname x = Some c)).

Definition list_ok (s : vfs) (P : imap) (p : apath) (L : list (Z * entry)) : Prop :=
  dents (dirents s) L /\ NoDup (fst <$> L) /\ NoDup (names L) /\ (forall c, assoc L c = P !! step p c) /\
  Forall (fun d => mount_shadow (snd d) = 0 /\ 0 < fst d < vheap s) L.

Record fs_okm (m n : Z) (s : vfs) (t : tree) (P : imap) (D : dmap) : Prop := {
  fo_dom : forall p, is_Some (P !! p) <-> is_Some (nodes t !! p);
  fo_node : forall p a, P !! p = Some a -> 0 < a < vheap s /\ node_ok m n s t D p a;
  fo_list : forall p L, D !! p = Some L -> nodes t !! p = Some Dir /\ list_ok s P p L;
  fo_apart : forall p q L M a, D !! p = Some L -> D !! q = Some M -> a ∈ fst <$> L -> a ∈ fst <$> M -> p = q;
  fo_inj : forall p q a, P !! p = Some a -> P !! q = Some a -> p = q;
  fo_path : forall p c, is_Some (P !! (p ++ [c])) -> nodes t !! p = Some Dir /\ is_dots c = false;
  fo_heap : 0 < vheap s;
  fo_fresh : forall a, vheap s <= a -> inodes s !! a = None;
  fo_root : P !! [] = Some (vfs_root s) /\ nodes t !! [] = Some Dir;
  fo_proot : P !! aroot t = Some (proot s) /\ nodes t !! aroot t = Some Dir;
  fo_cwd : P !! acwd t = Some (pcwd s) /\ nodes t !! acwd t = Some Dir;
  fo_below : aroot t `prefix_of` acwd t }.
Abbreviation fs_ok := (fs_okm 2).

Lemma parent_nil : parent [] = [].
Proof. reflexivity. Qed.
Lemma parent_snoc p c : parent (p ++ [c]) = p.
Proof. unfold parent. rewrite length_app. cbn. replace (length p + 1 - 1)%nat with (length p) by lia. apply take_app_length. Qed.

Lemma step_name p c : is_dots c = false -> step p c = p ++ [c].
Proof. intros [H1 H2]%orb_false_iff. unfold step. now rewrite H1, H2. Qed.

Section lookup.
Context (m n : Z) (s : vfs) (t : tree) (P : imap) (D : dmap).
Hypothesis Hok : fs_okm m n s t P D.

Lemma node_at p a : P !! p = Some a -> exists x, inodes s !! a = Some x /\ itype x = kind_at t p /\ has_dops x = true.
Proof. intros Hp. destruct (fo_node _ _ _ _ _ _ Hok p a Hp) as (_ & x & H1 & H2 & H3 & _). eauto. Qed.

Lemma parent_in p a : P !! p = Some a -> is_Some (P !! parent p).
Proof.
  intros Hp. destruct p as [|c p _] using rev_ind; [eauto|]. rewrite parent_snoc. apply (fo_dom _ _ _ _ _ _ Hok).
  destruct (fo_path _ _ _ _ _ _ Hok p c) as [H _]; [eauto|]. now rewrite H.
Qed.

(** Names that are not there are not dots. *)
Lemma missing_name p a c : P !! p = Some a -> P !! step p c = None -> is_dots c = false /\ step p c = p ++ [c].
Proof.
  intros Hp Hn. assert (H : is_dots c = false); [|split; [exact H|now apply step_name]]. unfold step in Hn. unfold is_dots.
  destruct (bool_decide (c = dot)) eqn:E1; [congruence|]. destruct (bool_decide (c = dotdot)) eqn:E2; [|reflexivity].
  apply parent_in in Hp as [b Hb]. congruence.
Qed.

Lemma get_direntry_run p a c : P !! p = Some a -> nodes t !! p = Some Dir -> get_direntry a c s = Done (default 0 (P !! step p c)) s.
Proof.
  intros Hp Hk. destruct (fo_node _ _ _ _ _ _ Hok p a Hp) as (_ & x & H1 & H2 & H3 & H4 & _ & _ & _ & HL). destruct (HL Hk) as (L & HD & He & _).
  destruct (fo_list _ _ _ _ _ _ Hok p L HD) as (_ & Hd & Hn1 & Hn2 & Has & Hf).
  assert (Hpos : Forall (fun d : Z * entry => 0 < fst d) L) by (eapply Forall_impl; [|exact Hf]; cbn; lia).
  assert (Ht : (itype x =? T_DIR) = true) by (rewrite H2; unfold kind_at; now rewrite Hk).
  unfold get_direntry, get_direntry_nolock. vrun (get_ino_done _ _ _ H1). rewrite Ht. cbn [assert]. rewrite (bind_done (mret tt) _ s tt s eq_refl).
  vrun (get_ino_done _ _ _ H1). rewrite Ht. cbn [assert]. rewrite (bind_done (mret tt) _ s tt s eq_refl). rewrite H4, andb_false_r, He.
  vrun (find_ent_run _ _ c Hd Hn1 Hpos). rewrite <- Has. destruct (assoc L c) as [i|] eqn:Ea; [|rewrite (proj2 (find_addr_none _ _ Hpos) Ea); reflexivity].
  destruct (assoc_split _ _ _ Ea) as (L1 & b & e & L2 & -> & E1 & E2 & E3 & _). rewrite E3.
  apply dseg_lookup in Hd. cbn [fst] in Hd. pose proof (proj1 (Forall_forall _ _) Hf (b, e)) as Hb. destruct Hb as (Hsh & Hb0); [apply in_app_iff; right; now left|]. cbn [fst snd] in *.
  rewrite (proj2 (Z.eqb_neq b 0)) by lia. unfold get_direntry_ino. vrun (get_ino_done _ _ _ H1). rewrite Ht. cbn [assert]. rewrite (bind_done (mret tt) _ s tt s eq_refl).
  vrun (get_ent_done _ _ _ Hd). unfold cell. cbn [d_ent snd]. rewrite Hsh. cbn [Z.eqb negb]. rewrite E2. cbn [default from_option id].
  assert (i <> 0); [|now rewrite (proj2 (Z.eqb_neq i 0))]. specialize (Has c). rewrite Ea in Has. symmetry in Has. apply (fo_node _ _ _ _ _ _ Hok) in Has. lia.
Qed.

(** Looking up a name in a file stops the kernel. *)
Lemma get_direntry_file p a c : P !! p = Some a -> nodes t !! p <> Some Dir -> get_direntry a c s = Fail.
Proof.
  intros Hp Hk. destruct (node_at p a Hp) as (x & H1 & H2 & _). unfold get_direntry. vrun (get_ino_done _ _ _ H1).
  assert (E : (itype x =? T_DIR) = false); [|now rewrite E]. rewrite H2. unfold kind_at. assert (is_Some (nodes t !! p)) as [k Hk'] by (apply (fo_dom _ _ _ _ _ _ Hok); eauto).
  rewrite Hk' in *. destruct k; [contradiction|reflexivity].
Qed.
End lookup.
