(* ===== verification/VfsWalk.v ===== *)
(** * The file system: path lookup

    The loops of [namei] and [unlink] go where [walk] goes in the abstract tree. *)

From S2P Require Import Prelude CMem State Dll Vfs VfsSpec.

Definition short (es : list (name * bool)) : Prop := Forall (fun e => (length (fst e) < 255)%nat) es.

Lemma elems_flag p c es : elems p = (c, true) :: es -> es = [].
Proof. unfold elems. destruct (split p) as [|d [|e cs]]; cbn; [discriminate|congruence|discriminate]. Qed.

Lemma base_cons p c l es rest : elems p = (c, l) :: es -> elems rest = es ->
  base_name p = match es with [] => if l then c else [] | _ => base_name rest end.
Proof.
  intros E <-. unfold base_name. rewrite E. destruct (elems rest) as [|e es] eqn:Er; [now destruct l|]. rewrite reverse_cons.
  destruct (reverse (e :: es)) as [|x r] eqn:Ex; [apply (f_equal reverse) in Ex; rewrite reverse_involutive in Ex; discriminate|reflexivity].
Qed.

Lemma dir_cons p c l es rest : elems p = (c, l) :: es -> elems rest = es -> dir_elems p = (if l then [] else [(c, false)]) ++ dir_elems rest.
Proof. intros E <-. unfold dir_elems. rewrite E. rewrite filter_cons. cbn [snd]. destruct l; [now rewrite decide_False|now rewrite decide_True]. Qed.

Definition walk_elems (get_last : bool) (path : name) := if get_last then dir_elems path else elems path.

(** The branch that creates a file. *)
Definition make_file (ino : Z) (nm : name) (mode res : Z) : V (Z * Z) :=
  uid ← gets puid; gid ← gets pgid;
  r ← tmpfs_create ino nm uid gid mode;
  if r =? 0 then res ← get_direntry ino nm; mret (r, res) else mret (r, res).

Section walk.
Context (n : Z) (s : vfs) (t : tree) (P : imap) (D : dmap).
Hypothesis Hok : fs_ok n s t P D.

Lemma at_root p a : P !! p = Some a -> (a =? proot s) = bool_decide (p = aroot t).
Proof.
  intros Hp. destruct (fo_proot _ _ _ _ _ _ Hok) as [Hr _]. case_bool_decide as Hc; [subst p; rewrite Hr in Hp; injection Hp as ->; apply Z.eqb_refl|].
  apply Z.eqb_neq. intros ->. apply Hc. eapply (fo_inj _ _ _ _ _ _ Hok); eauto.
Qed.

Lemma node_pos p a : P !! p = Some a -> 0 < a.
Proof. intros H. apply (fo_node _ _ _ _ _ _ Hok) in H. lia. Qed.

Lemma nodes_of p : match nodes t !! p with Some _ => is_Some (P !! p) | None => P !! p = None end.
Proof. destruct (nodes t !! p) eqn:E; [apply (fo_dom _ _ _ _ _ _ Hok); eauto|]. apply eq_None_not_Some. intros [k Hk]%(fo_dom _ _ _ _ _ _ Hok). congruence. Qed.

Lemma namei_walk flags mode res gl : forall path cur ino fuel, P !! cur = Some ino -> short (elems path) -> (length path < fuel)%nat ->
  sloop fuel (namei_step (proot s) flags mode res gl) (path, ino) s =
  match walk t cur (walk_elems gl path) with
  | Found q => Done (0, default 0 (P !! q)) s
  | Missing q c l => if l && negb (Z.land flags O_CREAT =? 0) then make_file (default 0 (P !! q)) c mode res s else Done (- ENOENT, 0) s
  | NotDir => Fail
  end.
Proof.
  intros path. remember (elems path) as es eqn:Ees. revert path Ees. induction es as [|[c l] es IH]; intros path Ees cur ino fuel Hcur Hs Hf; (destruct fuel as [|fuel]; [lia|]); cbn [sloop];
    pose proof (skipelem_elems path) as Hsk; rewrite <- Ees in Hsk.
  - assert (Ew : walk_elems gl path = []) by (unfold walk_elems, dir_elems; rewrite <- Ees; now destruct gl). rewrite Ew. cbn [walk].
    rewrite (bind_done (namei_step _ _ _ _ _ _) _ s (Break (0, ino)) s); [now rewrite Hcur|]. cbn [namei_step]. now rewrite Hsk.
  - destruct Hsk as (rest & Esk & Er & Hlen & _). apply Forall_cons_iff in Hs as [Hc Hs]. cbn [fst] in Hc.
    specialize (IH rest (eq_sym Er)). assert (Hcb : (255 <=? Z.of_nat (length c)) = false) by lia. rewrite Hcb in Esk.
    set (body := namei_step (proot s) flags mode res gl) in *. pose proof (at_root cur ino Hcur) as Hroot.
    assert (Eb : body (path, ino) s = (if bool_decide (c = dotdot) && bool_decide (cur = aroot t) then mret (Next (rest, ino)) else
      if l && gl then mret (Break (0, ino)) else found ← get_direntry ino c;
      if found =? 0 then
        if l && negb (Z.land flags O_CREAT =? 0) then
          x ← get_ino ino;
          if has_dops x then
            uid ← gets puid; gid ← gets pgid;
            r ← tmpfs_create ino c uid gid mode;
            if r =? 0 then res ← get_direntry ino c; mret (Break (r, res)) else mret (Break (r, res))
          else mret (Break (- EINVAL, res))
        else mret (Break (- ENOENT, 0))
      else mret (Next (rest, found)) : V (ctl (name * Z) (Z * Z))) s) by (unfold body; cbn [namei_step]; rewrite Esk; now rewrite Hroot).
    assert (Ew : walk_elems gl path = (if l && gl then [] else [(c, l)]) ++ walk_elems gl rest).
    { unfold walk_elems. destruct gl; [rewrite (dir_cons _ _ _ _ _ (eq_sym Ees) Er); now destruct l|]. rewrite andb_false_r, <- Ees. cbn [app]. now rewrite Er. }
    rewrite Ew. destruct (bool_decide (c = dotdot) && bool_decide (cur = aroot t)) eqn:Edd.
    + rewrite (bind_done _ _ _ _ _ Eb). rewrite (IH cur ino fuel Hcur Hs ltac:(lia)). destruct (l && gl); cbn [app walk]; [reflexivity|]. now rewrite Edd.
    + destruct (l && gl) eqn:Elg.
      * rewrite (bind_done _ _ _ _ _ Eb). apply andb_true_iff in Elg as [-> ->]. assert (es = []) as -> by (eapply elems_flag; eauto).
        assert (Er0 : walk_elems true rest = []) by (unfold walk_elems, dir_elems; now rewrite Er). rewrite Er0. cbn [app walk]. now rewrite Hcur.
      * cbn [app walk]. rewrite Edd. destruct (decide (nodes t !! cur = Some Dir)) as [Hd|Hd].
        -- rewrite Hd. pose proof (get_direntry_run 2 n s t P D Hok cur ino c Hcur Hd) as Eg. rewrite (bind_done _ _ _ _ _ Eg) in Eb. pose proof (nodes_of (step cur c)) as Hno.
           destruct (nodes t !! step cur c) as [k|].
           ++ destruct Hno as [b Hb]. rewrite Hb in Eb. cbn [default from_option id] in Eb. rewrite (proj2 (Z.eqb_neq b 0)) in Eb by (apply node_pos in Hb; lia).
              rewrite (bind_done _ _ _ _ _ Eb). apply IH; [exact Hb|exact Hs|lia].
           ++ rewrite Hno in Eb. cbn [default from_option id Z.eqb] in Eb. destruct (l && negb (Z.land flags O_CREAT =? 0)); [|now rewrite (bind_done _ _ _ _ _ Eb)].
              destruct (node_at 2 n s t P D Hok cur ino Hcur) as (x & H1 & _ & H3). rewrite (bind_done _ _ _ _ _ (get_ino_done _ _ _ H1)), H3 in Eb. rewrite Hcur. cbn [default from_option id].
              unfold mbind at 1, SM_bind at 1. unfold mbind at 1, SM_bind at 1 in Eb. rewrite Eb. unfold make_file, mbind, SM_bind, gets.
              destruct (tmpfs_create ino c (puid s) (pgid s) mode s) as [r s1| |]; [|reflexivity..]. destruct (r =? 0); [|reflexivity]. now destruct (get_direntry ino c s1).
        -- pose proof (get_direntry_file 2 n s t P D Hok cur ino c Hcur Hd) as Eg. assert (Hf' : body (path, ino) s = Fail) by (rewrite Eb; unfold mbind, SM_bind; now rewrite Eg).
           unfold mbind, SM_bind. rewrite Hf'. destruct (nodes t !! cur) as [[|]|]; [contradiction|reflexivity..].
Qed.

(** The last name of [unlink], in the directory [q]. *)
Definition unlink_last (q : apath) (c : name) : outcome vfs Z :=
  if bool_decide (c = []) || (bool_decide (c = dotdot) && bool_decide (q = aroot t)) then Done 0 s else
  match nodes t !! q with
  | Some Dir =>
      match nodes t !! step q c with
      | Some Dir => Done (- EISDIR) s
      | Some File => tmpfs_unlink (default 0 (P !! q)) c s
      | None => Done (- ENOENT) s
      end
  | _ => Fail
  end.

(** One round of the loop of [unlink], at the element [c]. *)
Lemma unlink_round path cur ino c l rest : P !! cur = Some ino -> skipelem path = Some (rest, Some c, l) ->
  unlink_step (proot s) (path, ino) s =
  if bool_decide (c = dotdot) && bool_decide (cur = aroot t) then Done (Next (rest, ino)) s else
  match nodes t !! cur with
  | Some Dir =>
      match nodes t !! step cur c with
      | None => Done (Break (- ENOENT)) s
      | Some k =>
          if l then match k with
                    | Dir => Done (Break (- EISDIR)) s
                    | File => match tmpfs_unlink ino c s with Done r s1 => Done (Break r) s1 | Fail => Fail | Spin => Spin end
                    end
          else Done (Next (rest, default 0 (P !! step cur c))) s
      end
  | _ => Fail
  end.
Proof.
  intros Hcur Esk. cbn [unlink_step]. rewrite Esk, (at_root cur ino Hcur). destruct (bool_decide (c = dotdot) && bool_decide (cur = aroot t)); [reflexivity|].
  destruct (decide (nodes t !! cur = Some Dir)) as [Hd|Hd].
  - rewrite Hd. rewrite (bind_done _ _ _ _ _ (get_direntry_run 2 n s t P D Hok cur ino c Hcur Hd)). pose proof (nodes_of (step cur c)) as Hno.
    destruct (nodes t !! step cur c) as [k|] eqn:Ek; [|now rewrite Hno]. destruct Hno as [b Hb]. rewrite Hb. cbn [default from_option id].
    rewrite (proj2 (Z.eqb_neq b 0)) by (apply node_pos in Hb; lia). destruct l; [|reflexivity].
    destruct (node_at 2 n s t P D Hok _ _ Hb) as (y & Y1 & Y2 & _). rewrite (bind_done _ _ _ _ _ (get_ino_done _ _ _ Y1)). unfold kind_at in Y2. rewrite Ek in Y2.
    rewrite Y2. destruct k; [reflexivity|]. cbn [ktype]. change (T_FILE =? T_DIR) with false. cbv iota.
    destruct (node_at 2 n s t P D Hok _ _ Hcur) as (x & X1 & X2 & X3). rewrite (bind_done _ _ _ _ _ (get_ino_done _ _ _ X1)). unfold kind_at in X2. rewrite Hd in X2.
    rewrite X2, X3. change (negb (ktype Dir =? T_DIR)) with false. cbv iota. cbn [assert]. rewrite (bind_done (mret tt) _ s tt s eq_refl). reflexivity.
  - unfold mbind at 1, SM_bind at 1. rewrite (get_direntry_file 2 n s t P D Hok cur ino c Hcur Hd). destruct (nodes t !! cur) as [[|]|]; [contradiction|reflexivity..].
Qed.

Lemma unlink_walk : forall path cur ino fuel, P !! cur = Some ino -> short (elems path) -> (length path < fuel)%nat ->
  sloop fuel (unlink_step (proot s)) (path, ino) s =
  match walk t cur (dir_elems path) with
  | Found q => unlink_last q (base_name path)
  | Missing _ _ _ => Done (- ENOENT) s
  | NotDir => Fail
  end.
Proof.
  intros path. remember (elems path) as es eqn:Ees. revert path Ees. induction es as [|[c l] es IH]; intros path Ees cur ino fuel Hcur Hs Hf; (destruct fuel as [|fuel]; [lia|]); cbn [sloop];
    pose proof (skipelem_elems path) as Hsk; rewrite <- Ees in Hsk.
  - unfold dir_elems, base_name, unlink_last. rewrite <- Ees. cbn [filter list_filter walk reverse rev_append]. rewrite bool_decide_true by reflexivity.
    rewrite (bind_done (unlink_step _ _) _ s (Break 0) s); [reflexivity|]. cbn [unlink_step]. now rewrite Hsk.
  - destruct Hsk as (rest & Esk & Er & Hlen & Hc0 & _). apply Forall_cons_iff in Hs as [Hc Hs]. cbn [fst] in Hc. assert (Hcb : (255 <=? Z.of_nat (length c)) = false) by lia. rewrite Hcb in Esk.
    specialize (IH rest (eq_sym Er)). rewrite (dir_cons _ _ _ _ _ (eq_sym Ees) Er). pose proof (unlink_round path cur ino c l rest Hcur Esk) as Eb. destruct l.
    + assert (es = []) as -> by (eapply elems_flag; eauto). assert (Er0 : dir_elems rest = []) by (unfold dir_elems; now rewrite Er). rewrite Er0. cbn [app walk].
      rewrite (base_cons _ _ _ _ _ (eq_sym Ees) Er). unfold unlink_last. rewrite (bool_decide_false (c = [])) by exact Hc0. cbn [orb].
      destruct (bool_decide (c = dotdot) && bool_decide (cur = aroot t)) eqn:Edd.
      * rewrite (bind_done _ _ _ _ _ Eb). rewrite (IH cur ino fuel Hcur Hs ltac:(lia)), Er0. cbn [walk]. unfold unlink_last, base_name. now rewrite Er.
      * rewrite Hcur. cbn [default from_option id]. unfold mbind, SM_bind. rewrite Eb. destruct (nodes t !! cur) as [[|]|]; [|reflexivity..]. destruct (nodes t !! step cur c) as [[|]|]; [reflexivity| |reflexivity].
        now destruct (tmpfs_unlink ino c s).
    + assert (Eb' : base_name path = base_name rest) by (rewrite (base_cons _ _ _ _ _ (eq_sym Ees) Er); destruct es; [unfold base_name; now rewrite Er|reflexivity]).
      rewrite Eb'. cbn [app walk]. destruct (bool_decide (c = dotdot) && bool_decide (cur = aroot t)) eqn:Edd; [rewrite (bind_done _ _ _ _ _ Eb); apply IH; auto; lia|].
      unfold mbind, SM_bind. rewrite Eb. destruct (nodes t !! cur) as [[|]|]; [|reflexivity..]. pose proof (nodes_of (step cur c)) as Hno.
      destruct (nodes t !! step cur c) as [k|]; [|reflexivity]. destruct Hno as [b Hb]. rewrite Hb. cbn [default from_option id]. apply IH; auto; lia.
Qed.

(** Where a walk from below the root ends. *)
Lemma walk_below es : forall cur, aroot t `prefix_of` cur ->
  match walk t cur es with Found q | Missing q _ _ => aroot t `prefix_of` q | NotDir => True end.
Proof.
  induction es as [|[c l] es IH]; intros cur Hp; cbn [walk]; [exact Hp|]. destruct (bool_decide (c = dotdot) && bool_decide (cur = aroot t)) eqn:E; [now apply IH|].
  destruct (nodes t !! cur) as [[|]|]; try exact I. destruct (nodes t !! step cur c); [|exact Hp]. apply IH. unfold step.
  destruct (bool_decide (c = dot)); [exact Hp|]. destruct (bool_decide (c = dotdot)); [|now apply prefix_app_r].
  cbn [andb] in E. apply bool_decide_eq_false in E. destruct Hp as [r ->]. destruct r as [|d r _] using rev_ind; [now rewrite app_nil_r in E|].
  rewrite app_assoc, parent_snoc. now exists r.
Qed.

Lemma walk_in es : forall cur, is_Some (nodes t !! cur) ->
  match walk t cur es with
  | Found q => is_Some (nodes t !! q)
  | Missing q c l => nodes t !! q = Some Dir /\ nodes t !! step q c = None /\ (c, l) ∈ es
  | NotDir => True
  end.
Proof.
  induction es as [|[c l] es IH]; intros cur Hc; cbn [walk]; [exact Hc|].
  assert (Hrec : forall cur, is_Some (nodes t !! cur) -> match walk t cur es with Found q => is_Some (nodes t !! q) | Missing q d m => nodes t !! q = Some Dir /\ nodes t !! step q d = None /\ (d, m) ∈ (c, l) :: es | NotDir => True end).
  { intros p Hp. specialize (IH p Hp). destruct (walk t p es); auto. destruct IH as (H1 & H2 & H3). repeat split; auto. now right. }
  destruct (bool_decide (c = dotdot) && bool_decide (cur = aroot t)); [now apply Hrec|]. destruct (nodes t !! cur) as [[|]|] eqn:E; try exact I.
  destruct (nodes t !! step cur c) eqn:E2; [now apply Hrec|]. repeat split; auto. left.
Qed.

Lemma start_run path : start_at path (pcwd s) (proot s) s = Done (default 0 (P !! a_start t path)) s.
Proof.
  destruct (fo_proot _ _ _ _ _ _ Hok) as [H1 _], (fo_cwd _ _ _ _ _ _ Hok) as [H2 _]. pose proof (node_pos _ _ H2). unfold start_at, a_start, assert.
  rewrite (proj2 (Z.eqb_neq (pcwd s) 0)) by lia. cbn [negb]. destruct path as [|c path]; [now rewrite H2|]. destruct (c =? slash); [now rewrite H1|now rewrite H2].
Qed.

Lemma user_root_run : user_root s = Done (proot s) s.
Proof.
  destruct (fo_proot _ _ _ _ _ _ Hok) as [H1 _]. pose proof (node_pos _ _ H1). unfold user_root. rewrite (bind_done (gets proot) _ s (proot s) s eq_refl).
  now rewrite (proj2 (Z.eqb_neq (proot s) 0)) by lia.
Qed.

Lemma start_in path : exists a, P !! a_start t path = Some a.
Proof.
  destruct (fo_proot _ _ _ _ _ _ Hok) as [H1 _], (fo_cwd _ _ _ _ _ _ Hok) as [H2 _]. unfold a_start. destruct path as [|c path]; [eauto|]. destruct (c =? slash); eauto.
Qed.

Lemma start_below path : aroot t `prefix_of` a_start t path.
Proof. pose proof (fo_below _ _ _ _ _ _ Hok). unfold a_start. destruct path as [|c path]; [assumption|]. now destruct (c =? slash). Qed.

Lemma namei_run path flags mode res gl : short (elems path) -> namei path flags mode (pcwd s) res gl s =
  match walk t (a_start t path) (walk_elems gl path) with
  | Found q => Done (0, default 0 (P !! q)) s
  | Missing q c l => if l && negb (Z.land flags O_CREAT =? 0) then make_file (default 0 (P !! q)) c mode res s else Done (- ENOENT, 0) s
  | NotDir => Fail
  end.
Proof.
  intros Hs. unfold namei. rewrite (bind_done _ _ _ _ _ user_root_run), (bind_done _ _ _ _ _ (start_run path)). destruct (start_in path) as [a Ha].
  apply namei_walk; [now rewrite Ha|exact Hs|lia].
Qed.

Lemma unlink_run path : short (elems path) -> unlink path (pcwd s) s =
  match walk t (a_start t path) (dir_elems path) with
  | Found q => unlink_last q (base_name path)
  | Missing _ _ _ => Done (- ENOENT) s
  | NotDir => Fail
  end.
Proof.
  intros Hs. unfold unlink. rewrite (bind_done _ _ _ _ _ user_root_run), (bind_done _ _ _ _ _ (start_run path)). destruct (start_in path) as [a Ha].
  apply unlink_walk; [now rewrite Ha|exact Hs|lia].
Qed.

Lemma cwd_run : cwd s = Done (pcwd s) s.
Proof.
  destruct (fo_cwd _ _ _ _ _ _ Hok) as [H1 _]. pose proof (node_pos _ _ H1). unfold cwd. rewrite (bind_done (gets pcwd) _ s (pcwd s) s eq_refl).
  now rewrite (proj2 (Z.eqb_neq (pcwd s) 0)) by lia.
Qed.
End walk.
