(* ===== verification/VfsMake.v ===== *)
(** * The file system: the operations that change directories

    [linked] says how the state changes when a node is added to the abstract tree,
    and that such a change keeps the invariant; then what [register_direntry],
    [remove_direntry], [create_inode] and the operations of tmpfs do to the state:
    [tmpfs_create] and [tmpfs_mkdir] add one node. *)

From S2P Require Import Prelude CMem State Dll Vfs VfsSpec VfsWalk.

(** The state after a node [i] of kind [k] was linked under the name [c] into the
    directory [a], whose entries are now [L']; [M] are the entries of a new
    directory. *)
Record linked (s s' : vfs) (a i : Z) (k : kind) (c : name) (L L' M : list (Z * entry)) : Prop := {
  lk_heap : vheap s <= i < vheap s';
  lk_dir : forall x, inodes s !! a = Some x -> exists x', inodes s' !! a = Some x' /\ itype x' = itype x /\ has_dops x' = has_dops x /\ mountpoint x' = mountpoint x /\
    isb x' = isb x /\ dname x' = dname x /\ rc x <= rc x' <= rc x + 1 /\ entries x' = hd_addr fst 0 L';
  lk_new : exists y, inodes s' !! i = Some y /\ itype y = ktype k /\ has_dops y = true /\ mountpoint y = 0 /\ is_Some (superblocks s' !! isb y) /\ 2 <= rc y <= 3 /\
    (k = Dir -> entries y = hd_addr fst 0 M /\ dname y = Some c);
  lk_other : forall b, b <> a -> b < vheap s -> inodes s' !! b = inodes s !! b;
  lk_fresh : forall b, vheap s' <= b -> inodes s' !! b = None;
  lk_sb : forall b, is_Some (superblocks s !! b) -> is_Some (superblocks s' !! b);
  lk_same : vfs_root s' = vfs_root s /\ proot s' = proot s /\ pcwd s' = pcwd s;
  lk_list : exists e nr, L' = (e, Entry ENT_MEM c nr i 0) :: L /\ vheap s <= e < vheap s' /\ dents (dirents s') L' /\
    (k = Dir -> exists d1 d2 n1 n2, M = [(d2, Entry ENT_MEM dotdot n2 a 0); (d1, Entry ENT_MEM dot n1 i 0)] /\ dents (dirents s') M /\
       vheap s <= d1 < vheap s' /\ vheap s <= d2 < vheap s' /\ d1 <> d2 /\ d1 <> e /\ d2 <> e);
  lk_ents : forall b, b < vheap s -> b ∉ fst <$> L -> dirents s' !! b = dirents s !! b }.

Lemma longer_ne {A} (p : list A) c : p <> p ++ [c].
Proof. intros E%(f_equal length). rewrite length_app in E. cbn in E. lia. Qed.

Section link.
Context (n : Z) (s s' : vfs) (t : tree) (P : imap) (D : dmap) (p : apath) (a i : Z) (k : kind) (c : name) (L L' M : list (Z * entry)).
Hypothesis Hok : fs_ok n s t P D.
Hypothesis Hp : P !! p = Some a.
Hypothesis HD : D !! p = Some L.
Hypothesis Hc : is_dots c = false.
Hypothesis Hnone : P !! (p ++ [c]) = None.
Hypothesis Hlk : linked s s' a i k c L L' M.
Hypothesis Hn : 4 <= n < 2 ^ 31.

Let t' := add_node t (p ++ [c]) k.
Let P' := <[p ++ [c] := i]> P.
Let D' := <[p := L']> (match k with Dir => <[p ++ [c] := M]> D | File => D end).

Lemma node_none : nodes t !! (p ++ [c]) = None.
Proof. apply eq_None_not_Some. intros H%(fo_dom _ _ _ _ _ _ Hok). rewrite Hnone in H. now destruct H. Qed.

Lemma no_list : D !! (p ++ [c]) = None.
Proof. destruct (D !! (p ++ [c])) eqn:E; [|reflexivity]. apply (fo_list _ _ _ _ _ _ Hok) in E as [E _]. now rewrite node_none in E. Qed.

Lemma step_old q d b : P !! q = Some b -> (q <> p \/ d <> c) -> step q d <> p ++ [c].
Proof.
  intros Hq Hne. unfold step. case_bool_decide as E1; [intros ->; congruence|]. case_bool_decide as E2; [|intros [? ?]%app_inj_tail; tauto].
  intros E. destruct (parent_in _ _ _ _ _ _ Hok q b Hq) as [x Hx]. rewrite E in Hx. congruence.
Qed.

Lemma kind_old q : q <> p ++ [c] -> kind_at t' q = kind_at t q /\ nodes t' !! q = nodes t !! q.
Proof. intros H. unfold kind_at, t', add_node. cbn [nodes]. rewrite lookup_insert_ne by congruence. auto. Qed.

Lemma lists_new q K : D' !! q = Some K ->
  (q = p /\ K = L') \/ (q = p ++ [c] /\ k = Dir /\ K = M) \/ (q <> p /\ q <> p ++ [c] /\ D !! q = Some K).
Proof.
  unfold D'. rewrite lookup_insert_Some. intros [[<- <-]|[Hq H]]; [auto|]. right.
  destruct k; [rewrite lookup_insert_Some in H; destruct H as [[<- <-]|[H1 H2]]; auto|]. right. split; [congruence|]. split; [|exact H]. intros ->. now rewrite no_list in H.
Qed.

Lemma old_apart q K : D !! q = Some K -> q <> p -> forall b, b ∈ fst <$> K -> b < vheap s /\ b ∉ fst <$> L.
Proof.
  intros Hq Hne b Hb. split.
  - destruct (fo_list _ _ _ _ _ _ Hok q K Hq) as (_ & _ & _ & _ & _ & Hf). apply list_elem_of_fmap in Hb as (d & -> & Hd). apply (proj1 (Forall_forall _ _) Hf), list_elem_of_In. exact Hd.
  - intros HL. apply Hne. eapply (fo_apart _ _ _ _ _ _ Hok); eauto.
Qed.

Lemma link_list q K : D' !! q = Some K -> nodes t' !! q = Some Dir /\ list_ok s' P' q K.
Proof.
  destruct (lk_heap _ _ _ _ _ _ _ _ _ Hlk) as [Hi1 Hi2]. destruct (lk_list _ _ _ _ _ _ _ _ _ Hlk) as (e & nr & EL' & He & Hd' & HM).
  destruct (fo_list _ _ _ _ _ _ Hok p L HD) as (Hk & Hd & N1 & N2 & Has & Hf).
  intros [[-> ->]|[(-> & Ek & ->)|(Q1 & Q2 & HQ)]]%lists_new.
  - split; [rewrite (proj2 (kind_old p (longer_ne p c))); exact Hk|]. split; [exact Hd'|]. subst L'. cbn [fmap list_fmap fst names snd e_name]. split; [|split; [|split]].
    + apply list.NoDup_cons. split; [|exact N1]. intros (d & E & H)%list_elem_of_fmap. pose proof (proj1 (Forall_forall _ _) Hf d (proj1 (list_elem_of_In _ _) H)) as Hd0. cbn in Hd0. lia.
    + apply list.NoDup_cons. split; [|exact N2]. apply assoc_none. rewrite Has, step_name by exact Hc. exact Hnone.
    + intros d. cbn [assoc e_name e_ino]. unfold P'. case_bool_decide as E; [subst d; rewrite step_name by exact Hc; now rewrite lookup_insert_eq|].
      rewrite lookup_insert_ne; [apply Has|]. intros E2. apply (step_old p d a Hp); auto.
    + apply Forall_cons_iff. cbn. split; [pose proof (fo_heap _ _ _ _ _ _ Hok); lia|]. eapply Forall_impl; [|exact Hf]. cbn. lia.
  - destruct (HM Ek) as (d1 & d2 & n1 & n2 & EM & HdM & R1 & R2 & R3 & R4 & R5). pose proof (fo_heap _ _ _ _ _ _ Hok) as Hh.
    split; [unfold t', add_node; cbn [nodes]; rewrite lookup_insert_eq; now rewrite Ek|]. split; [exact HdM|]. rewrite EM. cbn [fmap list_fmap fst names snd e_name]. split; [|split; [|split]].
    + apply list.NoDup_cons. split; [|apply list.NoDup_singleton]. intros E%list_elem_of_singleton. congruence.
    + apply list.NoDup_cons. split; [|apply list.NoDup_singleton]. intros E%list_elem_of_singleton. discriminate.
    + intros d. cbn [assoc e_name e_ino]. unfold P', step. case_bool_decide as E1; [subst d; rewrite bool_decide_false by discriminate; rewrite bool_decide_true by reflexivity; rewrite parent_snoc, lookup_insert_ne by (intros E; symmetry in E; now apply longer_ne in E); congruence|].
      case_bool_decide as E2; [subst d; rewrite bool_decide_true by reflexivity; now rewrite lookup_insert_eq|]. rewrite (bool_decide_false (d = dot)) by congruence. rewrite (bool_decide_false (d = dotdot)) by congruence.
      symmetry. rewrite lookup_insert_ne by apply longer_ne. destruct (P !! ((p ++ [c]) ++ [d])) eqn:E; [|reflexivity]. destruct (fo_path _ _ _ _ _ _ Hok (p ++ [c]) d) as [H _]; [eauto|]. now rewrite node_none in H.
    + apply Forall_cons_iff; cbn; split; [lia|]. apply Forall_cons_iff; cbn; split; [lia|constructor].
  - destruct (fo_list _ _ _ _ _ _ Hok q K HQ) as (Hk' & Hd2 & N3 & N4 & Has' & Hf'). split; [now rewrite (proj2 (kind_old q Q2))|]. split; [|split; [exact N3|split; [exact N4|split]]].
    + eapply dseg_ext; [|exact Hd2]. intros x Hx. apply (lk_ents _ _ _ _ _ _ _ _ _ Hlk); eapply old_apart; eauto; now apply list_elem_of_fmap_2.
    + intros d. rewrite Has'. unfold P'. rewrite lookup_insert_ne; [reflexivity|]. intros E. assert (is_Some (P !! q)) as [b Hb] by (apply (fo_dom _ _ _ _ _ _ Hok); rewrite Hk'; eauto).
      apply (step_old q d b Hb); auto.
    + eapply Forall_impl; [|exact Hf']. cbn. lia.
Qed.

(** The node [b] of the path [q], before and after. *)
Lemma link_old q b : P !! q = Some b -> node_ok 2 n s t D q b -> b < vheap s -> node_ok 2 (n - 4) s' t' D' q b.
Proof.
  intros Hq (x & X1 & X2 & X3 & X4 & X5 & X6 & X7 & X8) Hb. assert (Hqc : q <> p ++ [c]) by congruence. destruct (kind_old q Hqc) as [Hk1 Hk2].
  destruct (lk_same _ _ _ _ _ _ _ _ _ Hlk) as (_ & S1 & S2). assert (Hh : holds s' b = holds s b) by (unfold holds; now rewrite S1, S2).
  unfold node_ok. rewrite Hk1, Hk2, Hh. destruct (decide (q = p)) as [->|Hqp].
  - rewrite Hp in Hq. injection Hq as <-. destruct (lk_dir _ _ _ _ _ _ _ _ _ Hlk x X1) as (x' & Y1 & Y2 & Y3 & Y4 & Y5 & Y6 & Y7 & Y8).
    exists x'. rewrite Y2, Y3, Y4, Y5, Y6. repeat split; auto; try lia; [now apply (lk_sb _ _ _ _ _ _ _ _ _ Hlk)|]. intros Hd. destruct (X8 Hd) as (K & K1 & _ & K3).
    exists L'. unfold D'. rewrite lookup_insert_eq. auto.
  - assert (b <> a) by (intros ->; apply Hqp; eapply (fo_inj _ _ _ _ _ _ Hok); eauto). exists x. rewrite (lk_other _ _ _ _ _ _ _ _ _ Hlk) by assumption.
    repeat split; auto; try lia; [now apply (lk_sb _ _ _ _ _ _ _ _ _ Hlk)|]. intros Hd. destruct (X8 Hd) as (K & K1 & K2 & K3). exists K. split; [|auto].
    unfold D'. rewrite lookup_insert_ne by congruence. destruct k; [rewrite lookup_insert_ne by congruence|]; exact K1.
Qed.

Lemma link_new : node_ok 2 (n - 4) s' t' D' (p ++ [c]) i.
Proof.
  destruct (lk_new _ _ _ _ _ _ _ _ _ Hlk) as (y & Y1 & Y2 & Y3 & Y4 & Y5 & Y6 & Y7). destruct (lk_same _ _ _ _ _ _ _ _ _ Hlk) as (_ & S1 & S2). destruct (lk_heap _ _ _ _ _ _ _ _ _ Hlk) as [Hi _].
  assert (Hh : holds s' i = 0).
  { unfold holds. destruct (fo_proot _ _ _ _ _ _ Hok) as [R1 _], (fo_cwd _ _ _ _ _ _ Hok) as [R2 _]. apply (fo_node _ _ _ _ _ _ Hok) in R1 as [R1 _], R2 as [R2 _].
    rewrite S1, S2, !(proj2 (Z.eqb_neq _ _)) by lia. reflexivity. }
  exists y. rewrite Hh. unfold kind_at, t', add_node. cbn [nodes]. rewrite lookup_insert_eq. repeat split; auto; try lia. intros [= Ek]. exists M.
  destruct (Y7 Ek) as [H1 H2]. split; [unfold D'; rewrite lookup_insert_ne by apply longer_ne; rewrite Ek; apply lookup_insert_eq|]. split; [exact H1|].
  intros q d [_ <-]%app_inj_tail. exact H2.
Qed.

Lemma link_apart q r K1 K2 b : D' !! q = Some K1 -> D' !! r = Some K2 -> b ∈ fst <$> K1 -> b ∈ fst <$> K2 -> q = r.
Proof.
  destruct (lk_list _ _ _ _ _ _ _ _ _ Hlk) as (e & nr & EL' & He & _ & HM).
  assert (HL : forall x, x ∈ fst <$> L' -> x = e \/ x ∈ fst <$> L) by (intros x; rewrite EL'; cbn; now rewrite elem_of_cons).
  assert (HLold : forall x, x ∈ fst <$> L -> x < vheap s).
  { intros x (d & -> & Hd)%list_elem_of_fmap. destruct (fo_list _ _ _ _ _ _ Hok p L HD) as (_ & _ & _ & _ & _ & Hf). apply (proj1 (Forall_forall _ _) Hf), list_elem_of_In. exact Hd. }
  assert (HMx : k = Dir -> forall x, x ∈ fst <$> M -> vheap s <= x /\ x <> e).
  { intros Ek x. destruct (HM Ek) as (d1 & d2 & n1 & n2 & -> & _ & R1 & R2 & R3 & R4 & R5). cbn. rewrite elem_of_cons, list_elem_of_singleton. intros [->| ->]; lia. }
  intros HQ HR Hb1 Hb2. apply lists_new in HQ as [[-> ->]|[(-> & Ek & ->)|(Q1 & Q2 & HQ)]], HR as [[-> ->]|[(-> & Ek' & ->)|(R1 & R2 & HR)]]; try reflexivity.
  - apply HL in Hb1. apply (HMx Ek') in Hb2. destruct Hb1 as [->|Hb1]; [lia|]. apply HLold in Hb1. lia.
  - destruct (old_apart r K2 HR R1 b Hb2) as [H1 H2]. apply HL in Hb1 as [->|Hb1]; [lia|contradiction].
  - apply HL in Hb2. apply (HMx Ek) in Hb1. destruct Hb2 as [->|Hb2]; [lia|]. apply HLold in Hb2. lia.
  - destruct (old_apart r K2 HR R1 b Hb2) as [H1 H2]. apply (HMx Ek) in Hb1. lia.
  - destruct (old_apart q K1 HQ Q1 b Hb1) as [H1 H2]. apply HL in Hb2 as [->|Hb2]; [lia|contradiction].
  - destruct (old_apart q K1 HQ Q1 b Hb1) as [H1 H2]. apply (HMx Ek') in Hb2. lia.
  - eapply (fo_apart _ _ _ _ _ _ Hok); eauto.
Qed.

Lemma link_ok : fs_ok (n - 4) s' t' P' D'.
Proof.
  destruct (lk_heap _ _ _ _ _ _ _ _ _ Hlk) as [Hi1 Hi2]. pose proof (fo_heap _ _ _ _ _ _ Hok) as Hh. destruct (lk_same _ _ _ _ _ _ _ _ _ Hlk) as (S0 & S1 & S2).
  assert (Hold : forall q, is_Some (P !! q) -> P' !! q = P !! q /\ nodes t' !! q = nodes t !! q).
  { intros q [b Hq]. assert (q <> p ++ [c]) by congruence. split; [unfold P'; now rewrite lookup_insert_ne by congruence|now apply kind_old]. }
  assert (Hlt : forall q b, P !! q = Some b -> b < vheap s) by (intros q b Hq; apply (fo_node _ _ _ _ _ _ Hok) in Hq; lia).
  assert (Hsplit : forall q b, P' !! q = Some b -> (q = p ++ [c] /\ b = i) \/ (q <> p ++ [c] /\ P !! q = Some b)).
  { intros q b. unfold P'. rewrite lookup_insert_Some. intros [[<- <-]|[? ?]]; auto. }
  assert (Hkeep : forall q b, P !! q = Some b /\ nodes t !! q = Some Dir -> P' !! q = Some b /\ nodes t' !! q = Some Dir).
  { intros q b [H1 H2]. destruct (Hold q) as [-> ->]; eauto. }
  split.
  - intros q. unfold P', t', add_node. cbn [nodes]. rewrite !lookup_insert_is_Some'. now rewrite (fo_dom _ _ _ _ _ _ Hok q).
  - intros q b [[-> ->]|[Hq1 Hq2]]%Hsplit; [split; [lia|apply link_new]|]. destruct (fo_node _ _ _ _ _ _ Hok q b Hq2) as [H1 H2]. split; [lia|apply link_old; auto; lia].
  - exact link_list.
  - exact link_apart.
  - intros q r b [[-> ->]|[Q1 Q2]]%Hsplit [[-> E]|[R1 R2]]%Hsplit; subst; [reflexivity|apply Hlt in R2; lia|apply Hlt in Q2; lia|]. eapply (fo_inj _ _ _ _ _ _ Hok); eauto.
  - intros q d [b [[E ->]|[Q1 Q2]]%Hsplit]; [apply app_inj_tail in E as [-> ->]|].
    + split; [|exact Hc]. apply (Hkeep p a). split; [exact Hp|]. now apply (fo_list _ _ _ _ _ _ Hok) in HD as [HD' _].
    + destruct (fo_path _ _ _ _ _ _ Hok q d) as [H1 H2]; [eauto|]. split; [|exact H2]. assert (is_Some (P !! q)) as [b' Hb'] by (apply (fo_dom _ _ _ _ _ _ Hok); rewrite H1; eauto).
      now apply (Hkeep q b').
  - lia.
  - exact (lk_fresh _ _ _ _ _ _ _ _ _ Hlk).
  - rewrite S0. apply Hkeep, (fo_root _ _ _ _ _ _ Hok).
  - rewrite S1. apply Hkeep, (fo_proot _ _ _ _ _ _ Hok).
  - rewrite S2. apply Hkeep, (fo_cwd _ _ _ _ _ _ Hok).
  - apply (fo_below _ _ _ _ _ _ Hok).
Qed.
End link.

(** Steps that do not fail. *)
Ltac vret := match goal with |- context [(mret ?a ≫= ?f) ?s] => change ((mret a ≫= f) s) with (f a s); cbv beta end.
Ltac vset := match goal with |- context [(modify ?g ≫= ?f) ?s] => change ((modify g ≫= f) s) with (f tt (g s)); cbv beta end.
Ltac vget := match goal with |- context [(gets ?g ≫= ?f) ?s] => change ((gets g ≫= f) s) with (f (g s) s); cbv beta end.

(** The state with other inodes, entries and heap. *)
Definition with_maps (s : vfs) (I : gmap Z inode) (T : gmap Z direntry) (h : Z) : vfs :=
  Vfs I T (superblocks s) h (vfs_root s) (mountpoints s) (proot s) (pcwd s) (cwd_string s) (puid s) (pgid s).

Lemma acquire_run s i x : i <> 0 -> inodes s !! i = Some x -> 0 <= rc x -> rc x + 1 < 2 ^ 31 ->
  acquire i s = Done i (on_inodes <[i := with_rc x (rc x + 1)]> s).
Proof.
  intros Hi Hx H1 H2. unfold acquire, assert. rewrite (proj2 (Z.eqb_neq i 0) Hi). cbn [negb]. vret. vrun (get_ino_done _ _ _ Hx). rewrite s32_small by lia. reflexivity.
Qed.

Lemma release_run s i x : i <> 0 -> inodes s !! i = Some x -> 1 < rc x < 2 ^ 31 ->
  release i s = Done 0 (on_inodes <[i := with_rc x (rc x - 1)]> s).
Proof.
  intros Hi Hx H1. unfold release, assert. rewrite (proj2 (Z.eqb_neq i 0) Hi). cbn [negb]. vret. vrun (get_ino_done _ _ _ Hx). rewrite s32_small by lia.
  unfold set_ino. vset. rewrite (proj2 (Z.eqb_neq (rc x - 1) 0)) by lia. reflexivity.
Qed.

Lemma register_run s this x L c ty nr ino : inodes s !! this = Some x -> itype x = T_DIR -> entries x = hd_addr fst 0 L -> dents (dirents s) L ->
  NoDup (fst <$> L) -> Forall (fun d => 0 < fst d < vheap s) L -> c ∉ names L -> 0 < vheap s ->
  exists T', register_direntry this c ty nr ino s =
    ((if negb (ino =? 0) && negb (ino =? this) then acquire ino;; mret tt else mret tt);; mret 0) (with_maps s (<[this := with_entries x (vheap s)]> (inodes s)) T' (vheap s + 16)) /\
    dents T' ((vheap s, Entry ty c nr ino 0) :: L) /\ forall b, b <> vheap s -> b ∉ fst <$> L -> T' !! b = dirents s !! b.
Proof.
  intros Hx Ht He Hd Hn Hf Hc Hh. set (e := vheap s) in *. set (E := Entry ty c nr ino 0).
  assert (Hpos : Forall (fun d : Z * entry => 0 < fst d) L) by (eapply Forall_impl; [|exact Hf]; cbn; lia).
  assert (Hfind : find_ent c (entries x) s = Done 0 s) by (rewrite He, (find_ent_run _ _ _ Hd Hn Hpos), (proj2 (find_addr_none _ _ Hpos)); [reflexivity|now apply assoc_none]).
  assert (Hstart : forall T', (if negb (entries x =? 0) then set_prev (entries x) e else mret tt) (on_dirents <[e := Direntry E (entries x) 0]> (set_heap (e + 16) s)) = Done tt (with_maps s (inodes s) T' (e + 16)) ->
    register_direntry this c ty nr ino s = ((if negb (ino =? 0) && negb (ino =? this) then acquire ino;; mret tt else mret tt);; mret 0) (with_maps s (<[this := with_entries x e]> (inodes s)) T' (e + 16))).
  { intros T' Hprev. unfold register_direntry. vrun (get_ino_done _ _ _ Hx). rewrite Ht, Z.eqb_refl. cbn [assert]. vret. vrun Hfind. cbn [Z.eqb negb].
    rewrite (bind_done new_object _ s e (set_heap (e + 16) s) eq_refl). unfold set_ent. vset. fold E. rewrite (bind_done _ _ _ _ _ Hprev). reflexivity. }
  destruct L as [|[d f] L].
  - exists (<[e := Direntry E (entries x) 0]> (dirents s)). split; [apply Hstart; rewrite He; reflexivity|]. split; [|intros b Hb _; now rewrite lookup_insert_ne].
    cbn. rewrite lookup_insert_eq. now rewrite He.
  - apply Forall_cons_iff in Hf as [Hd1 Hf]. cbn [fst] in Hd1. cbn [hd_addr fst] in He. assert (Hde : d <> e) by lia.
    pose proof Hd as [Hdd _]. cbn [fst] in Hdd. set (T1 := <[e := Direntry E d 0]> (dirents s)).
    exists (<[d := cell e (hd_addr fst 0 L) (d, f)]> T1). split; [|split; [split|]].
    + apply Hstart. rewrite He, (proj2 (Z.eqb_neq d 0)) by lia. cbn [negb]. unfold set_prev.
      assert (G : dirents (on_dirents <[e := Direntry E d 0]> (set_heap (e + 16) s)) !! d = Some (cell 0 (hd_addr fst 0 L) (d, f))) by (cbn; rewrite lookup_insert_ne by congruence; exact Hdd).
      vrun (get_ent_done _ _ _ G). reflexivity.
    + cbn [fst hd_addr]. unfold T1. rewrite lookup_insert_ne, lookup_insert_eq by congruence. reflexivity.
    + apply (dseg_set_prev cell fst (dirents s) _ 0); [exact Hd|cbn [fst]; now rewrite lookup_insert_eq|]. intros y Hy.
      assert (fst y <> d) by (intros Ed; apply list.NoDup_cons in Hn as [Hn _]; apply Hn; cbn [fst]; rewrite <- Ed; now apply list_elem_of_fmap_2).
      assert (fst y <> e) by (pose proof (proj1 (Forall_forall _ _) Hf y (proj1 (list_elem_of_In _ _) Hy)); cbn in *; lia).
      unfold T1. now rewrite !lookup_insert_ne by congruence.
    + intros b Hb Hnb. cbn in Hnb. rewrite not_elem_of_cons in Hnb. unfold T1. now rewrite !lookup_insert_ne by (destruct Hnb; congruence).
Qed.

Lemma create_inode_run s sb b ty : 0 < vheap s -> superblocks s !! sb = Some b ->
  exists y b', create_inode sb ty s = Done (vheap s) (on_inodes <[vheap s := y]> (on_sbs <[sb := b']> (set_heap (vheap s + 16) s))) /\
    itype y = ty /\ has_dops y = true /\ mountpoint y = 0 /\ isb y = sb /\ rc y = 1 /\ entries y = 0 /\ dname y = None.
Proof.
  intros Hh Hb. set (i := vheap s) in *. set (y0 := Inode ty 0 0 0 0 0 0 false sb 0 0 None 0). set (y1 := Inode ty 4077 (u32 (next_inode b)) 0 0 3 0 true sb 0 0 None 0).
  exists (with_rc y1 1), (Superblock (u64 (next_inode b + 1)) (sroot b) (scount b + 1)). split; [|auto 10].
  assert (E1 : new_inode ty sb s = Done i (on_sbs <[sb := Superblock (next_inode b) (sroot b) (scount b + 1)]> (on_inodes <[i := y0]> (set_heap (i + 16) s)))).
  { unfold new_inode. rewrite (bind_done new_object _ s i (set_heap (i + 16) s) eq_refl). unfold set_ino. vset. unfold sb_add.
    set (s1 := on_inodes _ _). assert (G : get_sb sb s1 = Done b s1) by (unfold get_sb, sopt; cbn; now rewrite Hb). unfold mbind, SM_bind. now rewrite G. }
  unfold create_inode. vrun E1. set (s1 := on_sbs _ _). assert (G : get_sb sb s1 = Done (Superblock (next_inode b) (sroot b) (scount b + 1)) s1) by (unfold get_sb, sopt; cbn; now rewrite lookup_insert_eq).
  vrun G. unfold set_sb. vset. set (s2 := on_sbs _ _). assert (G2 : inodes s2 !! i = Some y0) by (cbn; apply lookup_insert_eq). vrun (get_ino_done _ _ _ G2). unfold set_ino. vset.
  cbn [next_inode sroot scount itype isb mountpoint entries dname rc y0]. set (s3 := on_inodes _ _). assert (G3 : inodes s3 !! i = Some y1) by (cbn; apply lookup_insert_eq).
  rewrite (acquire_run s3 i y1); [|lia|exact G3|cbn; lia..]. f_equal. unfold s3, s2, s1, on_inodes, on_sbs, set_heap. cbn. now rewrite !insert_insert_eq.
Qed.

(** A name in a directory of the tree. *)
Section make.
Context (n : Z) (s : vfs) (t : tree) (P : imap) (D : dmap) (p : apath) (a : Z) (c : name).
Hypothesis Hok : fs_ok n s t P D.
Hypothesis Hp : P !! p = Some a.
Hypothesis Hk : nodes t !! p = Some Dir.
Hypothesis Hc : is_dots c = false.
Hypothesis Hnone : P !! (p ++ [c]) = None.
Hypothesis Hn : 4 <= n < 2 ^ 31.

(** What is known of the directory. *)
Lemma dir_facts : exists x L b, inodes s !! a = Some x /\ itype x = T_DIR /\ has_dops x = true /\ superblocks s !! isb x = Some b /\ 2 <= rc x /\ rc x + n < 2 ^ 31 /\ 0 < a < vheap s /\
  D !! p = Some L /\ entries x = hd_addr fst 0 L /\ dents (dirents s) L /\ NoDup (fst <$> L) /\ Forall (fun d => 0 < fst d < vheap s) L /\ c ∉ names L.
Proof.
  destruct (fo_node _ _ _ _ _ _ Hok p a Hp) as (Ha & x & X1 & X2 & X3 & X4 & [b Hb] & X6 & X7 & X8). destruct (X8 Hk) as (L & HD & He & _).
  destruct (fo_list _ _ _ _ _ _ Hok p L HD) as (_ & Hd & N1 & N2 & Has & Hf). exists x, L, b. unfold kind_at in X2. rewrite Hk in X2.
  assert (0 <= holds s a) by (unfold holds, b2z; destruct (a =? proot s), (a =? pcwd s); lia). repeat split; auto; try lia.
  - eapply Forall_impl; [|exact Hf]. cbn. lia.
  - apply assoc_none. rewrite Has, step_name by exact Hc. exact Hnone.
Qed.

Lemma tmpfs_create_run uid gid mode : exists s' P' D' i, tmpfs_create a c uid gid mode s = Done 0 s' /\
  fs_ok (n - 4) s' (add_node t (p ++ [c]) File) P' D' /\ P' = <[p ++ [c] := i]> P.
Proof.
  destruct dir_facts as (x & L & b & X1 & X2 & X3 & Xb & X4 & X5 & Ha & HD & He & Hd & N1 & Hf & Hnm). pose proof (fo_heap _ _ _ _ _ _ Hok) as Hh. set (i := vheap s).
  destruct (create_inode_run s (isb x) b T_FILE Hh Xb) as (y & b' & E1 & Y1 & Y2 & Y3 & Y4 & Y5 & Y6 & Y7). fold i in E1. set (s1 := on_inodes _ _) in E1.
  set (y' := with_owner y uid gid mode). set (s2 := on_inodes <[i := y']> s1).
  assert (Hai : a <> i) by lia.
  assert (X1' : inodes s2 !! a = Some x) by (cbn; now rewrite !lookup_insert_ne by congruence).
  destruct (register_run s2 a x L c ENT_MEM (inr y) i X1' X2 He Hd N1) as (T' & E2 & Hd' & HT'); [eapply Forall_impl; [|exact Hf]; cbn; lia|exact Hnm|cbn; lia|].
  rewrite (proj2 (Z.eqb_neq i 0)), (proj2 (Z.eqb_neq i a)) in E2 by lia. cbn [negb andb] in E2. set (s3 := with_maps s2 _ _ _) in E2.
  assert (G3 : inodes s3 !! i = Some y') by (cbn; rewrite lookup_insert_ne by congruence; apply lookup_insert_eq).
  assert (E3 : register_direntry a c ENT_MEM (inr y) i s2 = Done 0 (on_inodes <[i := with_rc y' (rc y' + 1)]> s3)).
  { rewrite E2. pose proof (acquire_run s3 i y' ltac:(lia) G3) as Ea. unfold mbind, SM_bind. rewrite Ea by (cbn; lia). reflexivity. }
  set (s4 := on_inodes _ s3) in E3. exists s4. eexists _, _, i. split; [|split; [|reflexivity]].
  - unfold tmpfs_create. vrun (get_ino_done _ _ _ X1). rewrite X2, Z.eqb_refl. cbn [assert]. vret. vrun E1.
    assert (G : inodes s1 !! i = Some y) by apply lookup_insert_eq. vrun (get_ino_done _ _ _ G). unfold set_ino. vset. vrun E3. reflexivity.
  - eapply (link_ok n s s4 t P D p a i File c L ((i + 16, Entry ENT_MEM c (inr y) i 0) :: L) []); auto. split.
    + cbn. lia.
    + intros x0 E. rewrite X1 in E. injection E as <-. exists (with_entries x (i + 16)). split; [cbn; rewrite lookup_insert_ne by congruence; apply lookup_insert_eq|]. cbn. repeat split; lia.
    + exists (with_rc y' (rc y' + 1)). split; [cbn; apply lookup_insert_eq|]. cbn. rewrite Y1, Y2, Y3, Y4, Y5. repeat split; auto; try lia; [rewrite lookup_insert_eq; eauto|discriminate..].
    + intros d Hd1 Hd2. cbn. now rewrite !lookup_insert_ne by (unfold i; lia).
    + intros d Hd1. cbn in Hd1. cbn. rewrite !lookup_insert_ne by (unfold i in *; lia). apply (fo_fresh _ _ _ _ _ _ Hok). unfold i in *. lia.
    + intros d Hd1. cbn. apply lookup_insert_is_Some'. auto.
    + auto.
    + exists (i + 16), (inr y). split; [reflexivity|]. split; [cbn; unfold i; lia|]. split; [exact Hd'|discriminate].
    + intros d Hd1 Hd2. apply HT'; [cbn; unfold i; lia|exact Hd2].
Qed.

Lemma tmpfs_mkdir_run uid gid mode : exists s' P' D' i, tmpfs_mkdir a c uid gid mode s = Done 0 s' /\
  fs_ok (n - 4) s' (add_node t (p ++ [c]) Dir) P' D' /\ P' = <[p ++ [c] := i]> P.
Proof.
  destruct dir_facts as (x & L & b & X1 & X2 & X3 & Xb & X4 & X5 & Ha & HD & He & Hd & N1 & Hf & Hnm). pose proof (fo_heap _ _ _ _ _ _ Hok) as Hh. set (i := vheap s).
  destruct (create_inode_run s (isb x) b T_DIR Hh Xb) as (y & b' & E1 & Y1 & Y2 & Y3 & Y4 & Y5 & Y6 & Y7). fold i in E1. set (s1 := on_inodes _ _) in E1.
  assert (Hai : a <> i) by lia. assert (Hi0 : 0 < i) by lia.
  (* the name *)
  set (y1 := with_owner y uid gid mode). set (s2 := on_inodes <[i := y1]> s1). set (y2 := with_name y1 (Some c)). set (s3 := on_inodes <[i := y2]> s2).
  assert (G2 : inodes s2 !! i = Some y1) by apply lookup_insert_eq.
  assert (E2 : set_name i c s2 = Done 0 s3).
  { unfold set_name. vrun (get_ino_done _ _ _ G2). cbn [itype y1 with_owner dname]. rewrite Y1, Y7. reflexivity. }
  (* the entry in the parent *)
  assert (X1' : inodes s3 !! a = Some x) by (cbn; now rewrite !lookup_insert_ne by congruence).
  destruct (register_run s3 a x L c ENT_MEM (inr y) i X1' X2 He Hd N1) as (T4 & E3 & Hd4 & HT4); [eapply Forall_impl; [|exact Hf]; cbn; lia|exact Hnm|cbn; lia|].
  rewrite (proj2 (Z.eqb_neq i 0)), (proj2 (Z.eqb_neq i a)) in E3 by lia. cbn [negb andb] in E3. set (s4 := with_maps s3 _ _ _) in E3. change (vheap s3) with (i + 16) in *.
  assert (G4 : inodes s4 !! i = Some y2) by (cbn; rewrite lookup_insert_ne by congruence; apply lookup_insert_eq).
  set (y3 := with_rc y2 2). set (s5 := on_inodes <[i := y3]> s4).
  assert (E4 : register_direntry a c ENT_MEM (inr y) i s3 = Done 0 s5).
  { rewrite E3. pose proof (acquire_run s4 i y2 ltac:(lia) G4) as Ea. unfold mbind, SM_bind. rewrite Ea by (cbn; lia). cbn [y2 with_name y1 with_owner rc]. now rewrite Y5. }
  (* the dots *)
  assert (G5 : inodes s5 !! i = Some y3) by apply lookup_insert_eq. assert (Y1' : itype y3 = T_DIR) by (cbn; exact Y1).
  destruct (register_run s5 i y3 [] dot ENT_MEM (inr y) i G5 Y1') as (T6 & E5 & Hd6 & HT6); [cbn; exact Y6|exact I|constructor|constructor|apply not_elem_of_nil|cbn; lia|].
  rewrite (Z.eqb_refl i), andb_false_r in E5. set (s6 := with_maps s5 _ _ _) in E5. change (vheap s5) with (i + 16 + 16) in *.
  set (y4 := with_entries y3 (i + 16 + 16)). assert (G6 : inodes s6 !! i = Some y4) by apply lookup_insert_eq.
  destruct (register_run s6 i y4 [(i + 16 + 16, Entry ENT_MEM dot (inr y) i 0)] dotdot ENT_MEM (inr x) a G6 Y1') as (T7 & E6 & Hd7 & HT7); [reflexivity|exact Hd6|apply list.NoDup_singleton|apply Forall_cons_iff; cbn; split; [lia|constructor]|cbn; rewrite list_elem_of_singleton; discriminate|cbn; lia|].
  rewrite (proj2 (Z.eqb_neq a 0)), (proj2 (Z.eqb_neq a i)) in E6 by lia. cbn [negb andb] in E6. set (s7 := with_maps s6 _ _ _) in E6. change (vheap s6) with (i + 16 + 16 + 16) in *.
  set (x' := with_entries x (i + 16)). assert (G7 : inodes s7 !! a = Some x').
  { cbn. rewrite !lookup_insert_ne by congruence. apply lookup_insert_eq. }
  set (s8 := on_inodes <[a := with_rc x' (rc x' + 1)]> s7).
  assert (E7 : register_direntry i dotdot ENT_MEM (inr x) a s6 = Done 0 s8).
  { rewrite E6. pose proof (acquire_run s7 a x' ltac:(lia) G7) as Ea. unfold mbind, SM_bind. rewrite Ea by (cbn; lia). reflexivity. }
  exists s8. eexists _, _, i. split; [|split; [|reflexivity]].
  - unfold tmpfs_mkdir. vrun (get_ino_done _ _ _ X1). vrun E1. assert (G : inodes s1 !! i = Some y) by apply lookup_insert_eq. vrun (get_ino_done _ _ _ G). unfold set_ino. vset. fold y1 s2.
    vrun E2. vrun E4. vrun E5. vrun E7. reflexivity.
  - assert (HL : forall d, d ∈ fst <$> L -> d < i) by (intros d (z & -> & Hz)%list_elem_of_fmap; apply (proj1 (Forall_forall _ _) Hf), list_elem_of_In; exact Hz).
    eapply (link_ok n s s8 t P D p a i Dir c L ((i + 16, Entry ENT_MEM c (inr y) i 0) :: L) [(i + 16 + 16 + 16, Entry ENT_MEM dotdot (inr x) a 0); (i + 16 + 16, Entry ENT_MEM dot (inr y) i 0)]); auto. split.
    + cbn. lia.
    + intros x0 E. rewrite X1 in E. injection E as <-. exists (with_rc x' (rc x' + 1)). split; [cbn; apply lookup_insert_eq|]. cbn. repeat split; lia.
    + exists (with_entries y4 (i + 16 + 16 + 16)). split; [cbn; rewrite lookup_insert_ne by congruence; apply lookup_insert_eq|]. cbn. rewrite Y1, Y2, Y3, Y4. repeat split; auto; try lia. rewrite lookup_insert_eq. eauto.
    + intros d Hd1 Hd2. cbn. now rewrite !lookup_insert_ne by (unfold i; lia).
    + intros d Hd1. cbn in Hd1. cbn. rewrite !lookup_insert_ne by (unfold i in *; lia). apply (fo_fresh _ _ _ _ _ _ Hok). unfold i in *. lia.
    + intros d Hd1. cbn. apply lookup_insert_is_Some'. auto.
    + auto.
    + exists (i + 16), (inr y). split; [reflexivity|]. split; [cbn; unfold i; lia|]. split.
      * eapply dseg_ext; [|exact Hd4]. intros z Hz. assert (Hz' : fst z = i + 16 \/ fst z ∈ fst <$> L) by (apply elem_of_cons in Hz as [->|Hz]; [now left|right; now apply list_elem_of_fmap_2]).
        assert (fst z <= i + 16) by (destruct Hz' as [->|Hz'%HL]; lia). cbn. rewrite HT7, HT6; [reflexivity|cbn; lia|apply not_elem_of_nil|lia|cbn; rewrite list_elem_of_singleton; lia].
      * intros _. exists (i + 16 + 16), (i + 16 + 16 + 16), (inr y), (inr x). split; [reflexivity|]. split; [exact Hd7|]. cbn. unfold i. lia.
    + intros d Hd1 Hd2. cbn. rewrite HT7, HT6, HT4; [reflexivity|unfold i; lia|exact Hd2|cbn; unfold i; lia|apply not_elem_of_nil|unfold i; lia|cbn; rewrite list_elem_of_singleton; unfold i; lia].
Qed.
End make.
