(* ===== verification/VfsUnlink.v ===== *)
(** * The file system: removing a file

    [tmpfs_unlink] takes the entry out of its directory and drops the entry's
    reference to the inode. *)

From S2P Require Import Prelude CMem State Dll Vfs VfsSpec VfsWalk VfsMake.

Definition setn (n : Z) (d : direntry) : direntry := Direntry (d_ent d) n (d_prev d).
Definition setp (p : Z) (d : direntry) : direntry := Direntry (d_ent d) (d_next d) p.
Definition set_links (pr nx : Z) (T : gmap Z direntry) : gmap Z direntry :=
  let T := if negb (pr =? 0) then alter (setn nx) pr T else T in
  if negb (nx =? 0) then alter (setp pr) nx T else T.

Lemma last_addr_elem (L : list (Z * entry)) : last_addr fst 0 L = 0 \/ last_addr fst 0 L ∈ fst <$> L.
Proof. destruct L as [|x L _] using rev_ind; [now left|right]. rewrite last_addr_app. cbn. rewrite fmap_app. apply elem_of_app. right. now left. Qed.
Lemma hd_addr_elem (L : list (Z * entry)) : hd_addr fst 0 L = 0 \/ hd_addr fst 0 L ∈ fst <$> L.
Proof. destruct L as [|x L]; [now left|right]. now left. Qed.

(** What the two assignments do to a cell. *)
Lemma set_links_lookup pr nx T b : pr <> nx \/ pr = 0 -> set_links pr nx T !! b =
  (fun d => if (b =? pr) && negb (pr =? 0) then setn nx d else if (b =? nx) && negb (nx =? 0) then setp pr d else d) <$> T !! b.
Proof.
  intros Hne. unfold set_links. destruct (Z.eqb_spec pr 0) as [Hp|Hp], (Z.eqb_spec nx 0) as [Hx|Hx]; cbn [negb]; rewrite ?andb_false_r, ?andb_true_r.
  - symmetry. apply option_fmap_id.
  - destruct (Z.eqb_spec b nx) as [->|Hb]; [now rewrite lookup_alter_eq|]. rewrite lookup_alter_ne by congruence. symmetry. apply option_fmap_id.
  - destruct (Z.eqb_spec b pr) as [->|Hb]; [now rewrite lookup_alter_eq|]. rewrite lookup_alter_ne by congruence. symmetry. apply option_fmap_id.
  - destruct (Z.eqb_spec b pr) as [->|Hb]; [rewrite lookup_alter_ne by (destruct Hne; congruence); now rewrite lookup_alter_eq|].
    destruct (Z.eqb_spec b nx) as [->|Hb2]; [rewrite lookup_alter_eq, lookup_alter_ne by congruence; reflexivity|]. rewrite !lookup_alter_ne by congruence. symmetry. apply option_fmap_id.
Qed.

Section remove.
Context (T : gmap Z direntry) (L1 L2 : list (Z * entry)) (a : Z) (e : entry).
Hypothesis Hd : dents T (L1 ++ (a, e) :: L2).
Hypothesis Hn : NoDup (fst <$> (L1 ++ (a, e) :: L2)).
Hypothesis Hpos : Forall (fun d => 0 < fst d) (L1 ++ (a, e) :: L2).

Let pr := last_addr fst 0 L1.
Let nx := hd_addr fst 0 L2.
Let T' := delete a (set_links pr nx T).

Lemma remove_disjoint : (forall x, x ∈ fst <$> L1 -> x <> a /\ x ∉ fst <$> L2) /\ (a ∉ fst <$> L2) /\ NoDup (fst <$> L1) /\ NoDup (fst <$> L2) /\
  (forall x, x ∈ fst <$> L1 -> 0 < x) /\ forall x, x ∈ fst <$> L2 -> 0 < x.
Proof.
  rewrite fmap_app in Hn. cbn in Hn. apply list.NoDup_app in Hn as (N1 & N2 & N3). apply list.NoDup_cons in N3 as [N3 N4].
  apply Forall_app in Hpos as [P1 P2]. apply Forall_cons_iff in P2 as [_ P2].
  split; [intros x Hx; specialize (N2 x Hx); rewrite not_elem_of_cons in N2; tauto|]. split; [exact N3|]. split; [exact N1|]. split; [exact N4|].
  split; intros x (z & -> & Hz%list_elem_of_In)%list_elem_of_fmap; [apply (proj1 (Forall_forall _ _) P1 z Hz)|apply (proj1 (Forall_forall _ _) P2 z Hz)].
Qed.

Lemma remove_ne : pr <> nx \/ pr = 0.
Proof.
  destruct remove_disjoint as (H1 & _ & _ & _ & H2 & H3). destruct (last_addr_elem L1) as [E|E]; [now right|left]. fold pr in E. intros E2.
  destruct (hd_addr_elem L2) as [F|F]; fold nx in F; [apply H2 in E; lia|]. apply (H1 _ E). now rewrite E2.
Qed.

Lemma remove_frame b : b <> a -> b <> pr -> b <> nx -> T' !! b = T !! b.
Proof.
  intros Ha Hp Hx. unfold T'. rewrite lookup_delete_ne by congruence. rewrite set_links_lookup by exact remove_ne.
  rewrite (proj2 (Z.eqb_neq b pr) Hp), (proj2 (Z.eqb_neq b nx) Hx). apply option_fmap_id.
Qed.

Lemma remove_dents : dents T' (L1 ++ L2).
Proof.
  destruct remove_disjoint as (H1 & H2 & H3 & H4 & H5 & H6). pose proof (proj1 (dseg_app cell fst T 0 L1 ((a, e) :: L2) 0) Hd) as [D1 [_ D2]]. cbn [fst] in *.
  apply (dseg_join cell fst T T' 0 L1 _ a L2 0 D1 D2).
  - intros zs l El. assert (Hl : fst l ∈ fst <$> L1) by (rewrite El, fmap_app; apply elem_of_app; right; now left).
    assert (Epr : pr = fst l) by (unfold pr; rewrite El, last_addr_app; reflexivity). pose proof (H5 _ Hl). destruct (H1 _ Hl) as [Hla Hl2]. split.
    + unfold T'. rewrite lookup_delete_ne by congruence. rewrite set_links_lookup by exact remove_ne. rewrite El in D1. apply dseg_lookup in D1. rewrite D1, Epr, Z.eqb_refl, (proj2 (Z.eqb_neq (fst l) 0)) by lia. reflexivity.
    + intros x Hx. assert (Hx1 : fst x ∈ fst <$> L1) by (rewrite El, fmap_app; apply elem_of_app; left; now apply list_elem_of_fmap_2). destruct (H1 _ Hx1) as [Hxa Hx2]. pose proof (H5 _ Hx1).
      apply remove_frame; [exact Hxa| |].
      * rewrite Epr. intros E. rewrite El, fmap_app in H3. apply list.NoDup_app in H3 as (_ & H3 & _). apply (H3 (fst x)); [now apply list_elem_of_fmap_2|]. rewrite E. now left.
      * intros E. destruct (hd_addr_elem L2) as [F|F]; fold nx in F; [lia|]. apply Hx2. now rewrite E.
  - intros d ds Ed. assert (Hd2 : fst d ∈ fst <$> L2) by (rewrite Ed; now left). assert (Enx : nx = fst d) by (unfold nx; rewrite Ed; reflexivity). pose proof (H6 _ Hd2).
    assert (Hpd : forall x, x ∈ fst <$> L2 -> x <> pr).
    { intros x Hx ->. destruct (last_addr_elem L1) as [F|F]; fold pr in F; [apply H6 in Hx; lia|]. now apply (H1 _ F). }
    assert (Had : forall x, x ∈ fst <$> L2 -> x <> a) by (intros x Hx ->; contradiction). split.
    + unfold T'. rewrite lookup_delete_ne by (pose proof (Had _ Hd2); congruence). rewrite set_links_lookup by exact remove_ne. rewrite Ed in D2. destruct D2 as [D2 _].
      rewrite D2, Enx, Z.eqb_refl, (proj2 (Z.eqb_neq _ _) (Hpd _ Hd2)), (proj2 (Z.eqb_neq (fst d) 0)) by lia. reflexivity.
    + intros x Hx. assert (Hx2 : fst x ∈ fst <$> L2) by (rewrite Ed; right; now apply list_elem_of_fmap_2). apply remove_frame; [now apply Had|now apply Hpd|].
      rewrite Enx. intros E. rewrite Ed in H4. cbn in H4. apply list.NoDup_cons in H4 as [H4 _]. apply H4. rewrite <- E. now apply list_elem_of_fmap_2.
Qed.
End remove.

Lemma links_run s pr nx : (pr = 0 \/ is_Some (dirents s !! pr)) -> (nx = 0 \/ is_Some (dirents s !! nx)) ->
  ((if negb (pr =? 0) then set_next pr nx else mret tt);; (if negb (nx =? 0) then set_prev nx pr else mret tt)) s = Done tt (on_dirents (set_links pr nx) s).
Proof.
  intros Hp Hx. set (s1 := on_dirents (fun T => if negb (pr =? 0) then alter (setn nx) pr T else T) s).
  assert (E1 : (if negb (pr =? 0) then set_next pr nx else mret tt) s = Done tt s1).
  { unfold s1. destruct (Z.eqb_spec pr 0) as [E|E]; cbn [negb]; [now destruct s|]. destruct Hp as [Hp|[d Hd]]; [contradiction|]. unfold set_next. vrun (get_ent_done _ _ _ Hd).
    unfold set_ent, modify, on_dirents. do 2 f_equal. unfold alter, map_alter. apply map_eq. intros j. change (partial_alter _ pr _ !! j) with (alter (setn nx) pr (dirents s) !! j).
    destruct (decide (pr = j)) as [<-|Hj]; [rewrite lookup_insert_eq, lookup_alter_eq, Hd; reflexivity|now rewrite lookup_insert_ne, lookup_alter_ne]. }
  vrun E1. unfold set_links. destruct (Z.eqb_spec nx 0) as [E|E]; cbn [negb]; [reflexivity|]. destruct Hx as [Hx|Hx]; [contradiction|].
  assert (is_Some (dirents s1 !! nx)) as [d Hd].
  { cbn. destruct (negb (pr =? 0)); [|exact Hx]. destruct Hx as [d Hd]. destruct (decide (pr = nx)) as [->|Hj]; [rewrite lookup_alter_eq, Hd; eauto|rewrite lookup_alter_ne by exact Hj; eauto]. }
  unfold set_prev. vrun (get_ent_done _ _ _ Hd). unfold set_ent, modify, on_dirents. do 2 f_equal. apply map_eq. intros j.
  destruct (decide (nx = j)) as [<-|Hj]; [rewrite lookup_insert_eq, lookup_alter_eq; cbn in Hd; rewrite Hd; reflexivity|now rewrite lookup_insert_ne, lookup_alter_ne].
Qed.

Lemma links_bind {A} s pr nx (k : V A) : (pr = 0 \/ is_Some (dirents s !! pr)) -> (nx = 0 \/ is_Some (dirents s !! nx)) ->
  ((if negb (pr =? 0) then set_next pr nx else mret tt);; (if negb (nx =? 0) then set_prev nx pr else mret tt);; k) s = k (on_dirents (set_links pr nx) s).
Proof.
  intros Hp Hx. pose proof (links_run s pr nx Hp Hx) as E. unfold mbind, SM_bind in *. destruct ((if negb (pr =? 0) then set_next pr nx else mret tt) s) as [[] s1| |]; [|discriminate..].
  now rewrite E.
Qed.

(** The file [u] of the name [c] in the directory [a]. *)
Section unlink.
Context (n : Z) (s : vfs) (t : tree) (P : imap) (D : dmap) (p : apath) (a : Z) (c : name) (u : Z).
Hypothesis Hok : fs_ok n s t P D.
Hypothesis Hp : P !! p = Some a.
Hypothesis Hu : P !! (p ++ [c]) = Some u.
Hypothesis Hn : 0 <= n.
Hypothesis Hfile : nodes t !! (p ++ [c]) = Some File.

Lemma unlink_facts : exists x y L1 d e L2, inodes s !! a = Some x /\ itype x = T_DIR /\ inodes s !! u = Some y /\ 1 < rc y < 2 ^ 31 /\ a <> u /\ u <> 0 /\ 0 < d /\
  D !! p = Some (L1 ++ (d, e) :: L2) /\ entries x = hd_addr fst 0 (L1 ++ (d, e) :: L2) /\ e_ino e = u /\ e_name e = c /\ mount_shadow e = 0 /\ list_ok s P p (L1 ++ (d, e) :: L2) /\
  find_addr (L1 ++ (d, e) :: L2) c = d.
Proof.
  destruct (fo_path _ _ _ _ _ _ Hok p c) as [Hk Hc]; [eauto|]. destruct (fo_node _ _ _ _ _ _ Hok p a Hp) as (Ha & x & X1 & X2 & X3 & X4 & _ & X6 & X7 & X8). destruct (X8 Hk) as (L & HD & He & _).
  destruct (fo_list _ _ _ _ _ _ Hok p L HD) as (_ & HL). pose proof HL as (Hd & N1 & N2 & Has & Hf).
  destruct (fo_node _ _ _ _ _ _ Hok _ _ Hu) as (Hu0 & y & Y1 & Y2 & _ & _ & _ & Y6 & Y7 & _).
  assert (Ea : assoc L c = Some u) by (rewrite Has, step_name by exact Hc; exact Hu). destruct (assoc_split _ _ _ Ea) as (L1 & d & e & L2 & EL & E1 & E2 & E3 & _). subst L.
  pose proof (proj1 (Forall_forall _ _) Hf (d, e)) as Hde. destruct Hde as (Hsh & Hd0); [apply in_app_iff; right; now left|]. cbn in Hsh, Hd0.
  pose proof (fo_below _ _ _ _ _ _ Hok). assert (0 <= holds s u) by (unfold holds, b2z; destruct (u =? proot s), (u =? pcwd s); lia).
  assert (a <> u) by (intros ->; pose proof (fo_inj _ _ _ _ _ _ Hok _ _ _ Hp Hu) as E; now apply longer_ne in E).
  exists x, y, L1, d, e, L2. unfold kind_at in X2. rewrite Hk in X2. repeat match goal with |- _ /\ _ => split end; auto; lia.
Qed.

Lemma tmpfs_unlink_run : exists s' L1 d e L2 x y, tmpfs_unlink a c s = Done 0 s' /\ D !! p = Some (L1 ++ (d, e) :: L2) /\ e_name e = c /\
  list_ok s P p (L1 ++ (d, e) :: L2) /\ inodes s !! a = Some x /\ inodes s !! u = Some y /\ a <> u /\
  s' = with_maps s (<[u := with_rc y (rc y - 1)]> (<[a := with_entries x (hd_addr fst 0 (L1 ++ L2))]> (inodes s)))
         (delete d (set_links (last_addr fst 0 L1) (hd_addr fst 0 L2) (dirents s))) (vheap s).
Proof.
  destruct unlink_facts as (x & y & L1 & d & e & L2 & X1 & X2 & Y1 & Y2 & Hau & Hu0 & Hd0 & HD & He & E1 & E2 & E3 & HL & Hfa). pose proof HL as (Hd & N1 & N2 & Has & Hf).
  eexists _, L1, d, e, L2, x, y. repeat match goal with |- _ /\ _ => split end; eauto.
  assert (Hpos : Forall (fun z : Z * entry => 0 < fst z) (L1 ++ (d, e) :: L2)) by (eapply Forall_impl; [|exact Hf]; cbn; lia).
  pose proof (dseg_lookup cell fst _ _ _ _ _ _ Hd) as Hdd. cbn [fst] in Hdd. set (pr := last_addr fst 0 L1) in *. set (nx := hd_addr fst 0 L2) in *.
  unfold tmpfs_unlink. vrun (get_ino_done _ _ _ X1). rewrite X2, Z.eqb_refl. cbn [assert]. vret. unfold remove_direntry. vrun (get_ino_done _ _ _ X1). rewrite X2, Z.eqb_refl. cbn [assert]. vret.
  rewrite He. vrun (find_ent_run _ _ c Hd N1 Hpos). rewrite Hfa, (proj2 (Z.eqb_neq d 0)) by lia. vrun (get_ent_done _ _ _ Hdd). unfold cell. cbn [d_prev d_next d_ent snd].
  assert (Hin : forall l, l = 0 \/ l ∈ fst <$> (L1 ++ (d, e) :: L2) -> l = 0 \/ is_Some (dirents s !! l)).
  { intros l [H|(z & -> & (A & B & EAB)%list_elem_of_split)%list_elem_of_fmap]; [now left|right]. rewrite EAB in Hd. apply dseg_lookup in Hd. eauto. }
  assert (Hpr : pr = 0 \/ is_Some (dirents s !! pr)).
  { apply Hin. destruct (last_addr_elem L1) as [F|F]; [now left|right]. rewrite fmap_app. apply elem_of_app. now left. }
  assert (Hnx : nx = 0 \/ is_Some (dirents s !! nx)).
  { apply Hin. destruct (hd_addr_elem L2) as [F|F]; [now left|right]. rewrite fmap_app. apply elem_of_app. right. cbn. now right. }
  rewrite (links_bind s pr nx _ Hpr Hnx). set (s1 := on_dirents _ s). set (s2 := on_inodes <[a := with_entries x (hd_addr fst 0 (L1 ++ L2))]> s1).
  assert (Eh : (if d =? hd_addr fst 0 (L1 ++ (d, e) :: L2) then set_ino a (with_entries x nx) else mret tt) s1 = Done tt s2).
  { destruct L1 as [|[b f] L1]; cbn [app hd_addr fst]; [now rewrite Z.eqb_refl|]. assert (d <> b).
    { intros ->. cbn in N1. apply list.NoDup_cons in N1 as [N1 _]. apply N1. rewrite fmap_app. apply elem_of_app. right. now left. }
    rewrite (proj2 (Z.eqb_neq d b)) by assumption. unfold s2, s1. cbn [app hd_addr fst] in He |- *. assert (Ex : with_entries x b = x) by (destruct x; cbn in *; now rewrite He). rewrite Ex.
    unfold on_inodes, on_dirents. cbn. rewrite insert_id by exact X1. reflexivity. }
  vrun Eh. rewrite E1, (proj2 (Z.eqb_neq u 0)), (proj2 (Z.eqb_neq u a)) by congruence. cbn [negb andb].
  assert (Gy : inodes s2 !! u = Some y) by (cbn; now rewrite lookup_insert_ne by congruence). pose proof (release_run s2 u y Hu0 Gy Y2) as Er.
  unfold mbind at 1, SM_bind at 1. unfold mbind at 1, SM_bind at 1. rewrite Er. rewrite E3. cbn [Z.eqb negb]. reflexivity.
Qed.

Section unlinked.
Context (L1 L2 : list (Z * entry)) (d : Z) (e : entry) (x y : inode).
Hypothesis HD : D !! p = Some (L1 ++ (d, e) :: L2).
Hypothesis Hen : e_name e = c.
Hypothesis HL : list_ok s P p (L1 ++ (d, e) :: L2).
Hypothesis Hx : inodes s !! a = Some x.
Hypothesis Hau : a <> u.

Let s' := with_maps s (<[u := with_rc y (rc y - 1)]> (<[a := with_entries x (hd_addr fst 0 (L1 ++ L2))]> (inodes s)))
            (delete d (set_links (last_addr fst 0 L1) (hd_addr fst 0 L2) (dirents s))) (vheap s).
Let t' := Tree (delete (p ++ [c]) (nodes t)) (aroot t) (acwd t).
Let P' := delete (p ++ [c]) P.
Let D' := <[p := L1 ++ L2]> D.

Lemma dir_ne q : nodes t !! q = Some Dir -> q <> p ++ [c].
Proof. intros H ->. congruence. Qed.

Lemma keep_node q b : P !! q = Some b -> nodes t !! q = Some Dir -> P' !! q = Some b /\ nodes t' !! q = Some Dir.
Proof. intros Hq Hd. pose proof (dir_ne q Hd). unfold P', t'. cbn [nodes]. now rewrite !lookup_delete_ne by congruence. Qed.

Lemma step_kept q z : nodes t !! q = Some Dir -> (q <> p \/ z <> c) -> step q z <> p ++ [c].
Proof.
  intros Hq Hne. unfold step. case_bool_decide as E1; [now apply dir_ne|]. case_bool_decide as E2; [|intros [? ?]%app_inj_tail; tauto]. intros E.
  destruct q as [|w q _] using rev_ind; [cbn in E; now destruct p|]. rewrite parent_snoc in E. subst q.
  destruct (fo_path _ _ _ _ _ _ Hok (p ++ [c]) w) as [H _]; [apply (fo_dom _ _ _ _ _ _ Hok); eauto|congruence].
Qed.

Lemma assoc_rest z : z <> c -> assoc (L1 ++ L2) z = assoc (L1 ++ (d, e) :: L2) z.
Proof.
  intros Hz. generalize L1 as K. induction K as [|[b f] K IH]; cbn [app assoc]; [rewrite bool_decide_false by congruence; reflexivity|]. now rewrite IH.
Qed.

Lemma rest_in z : z ∈ L1 ++ L2 -> z ∈ L1 ++ (d, e) :: L2.
Proof. rewrite !elem_of_app, elem_of_cons. tauto. Qed.

Lemma removed_list q K : D' !! q = Some K -> nodes t' !! q = Some Dir /\ list_ok s' P' q K.
Proof.
  pose proof HL as (Hd & N1 & N2 & Has & Hf). assert (Hpos : Forall (fun z : Z * entry => 0 < fst z) (L1 ++ (d, e) :: L2)) by (eapply Forall_impl; [|exact Hf]; cbn; lia).
  destruct (fo_path _ _ _ _ _ _ Hok p c) as [Hk Hc]; [eauto|]. unfold D'. rewrite lookup_insert_Some. intros [[<- <-]|[Hq HQ]].
  - split; [now apply (keep_node p a)|]. split; [exact (remove_dents _ _ _ _ _ Hd N1 Hpos)|]. unfold names in *. rewrite !fmap_app in *. cbn in N1, N2.
    apply list.NoDup_app in N1 as (M1 & M2 & M3), N2 as (M4 & M5 & M6). apply list.NoDup_cons in M3 as [M3 M7], M6 as [M6 M8]. split; [|split; [|split]].
    + apply list.NoDup_app. split; [exact M1|]. split; [|exact M7]. intros z Hz Hz2. apply (M2 z Hz). now right.
    + apply list.NoDup_app. split; [exact M4|]. split; [|exact M8]. intros z Hz Hz2. apply (M5 z Hz). now right.
    + intros z. destruct (decide (z = c)) as [->|Hz].
      * rewrite step_name by exact Hc. unfold P'. rewrite lookup_delete_eq. apply assoc_none. unfold names. rewrite fmap_app. intros [Hz|Hz]%elem_of_app; [apply (M5 c Hz); apply elem_of_cons; left; auto|]. apply M6. now rewrite Hen.
      * rewrite assoc_rest, Has by exact Hz. unfold P'. rewrite lookup_delete_ne; [reflexivity|]. intros E. apply (step_kept p z); auto.
    + apply Forall_app in Hf as [F1 F2]. apply Forall_cons_iff in F2 as [_ F2]. apply Forall_app. auto.
  - destruct (fo_list _ _ _ _ _ _ Hok q K HQ) as (Hk' & Hd2 & N3 & N4 & Has' & Hf'). destruct (fo_dom _ _ _ _ _ _ Hok q) as [_ Hin]. destruct Hin as [b Hb]; [eauto|].
    split; [now apply (keep_node q b)|]. split; [|split; [exact N3|split; [exact N4|split; [|exact Hf']]]].
    + eapply dseg_ext; [|exact Hd2]. intros z Hz.
      assert (Hz1 : fst z ∉ fst <$> L1 ++ (d, e) :: L2) by (intros Hz1; apply Hq; eapply (fo_apart _ _ _ _ _ _ Hok); eauto; now apply list_elem_of_fmap_2).
      pose proof (proj1 (Forall_forall _ _) Hf' z (proj1 (list_elem_of_In _ _) Hz)) as [_ Hz0]. rewrite fmap_app in Hz1. cbn in Hz1. rewrite not_elem_of_app, not_elem_of_cons in Hz1. destruct Hz1 as (Z1 & Z2 & Z3).
      apply (remove_frame _ _ _ _ _ N1 Hpos); [exact Z2| |]; intros E; [destruct (last_addr_elem L1) as [F|F]|destruct (hd_addr_elem L2) as [F|F]]; try lia; [apply Z1|apply Z3]; now rewrite E.
    + intros z. rewrite Has'. unfold P'. rewrite lookup_delete_ne; [reflexivity|]. intros E. apply (step_kept q z); auto.
Qed.

Lemma removed_node q b : P' !! q = Some b -> 0 < b < vheap s' /\ node_ok 2 n s' t' D' q b.
Proof.
  unfold P'. rewrite lookup_delete_Some. intros [Hq1 Hq]. destruct (fo_node _ _ _ _ _ _ Hok q b Hq) as (Hb & w & W1 & W2 & W3 & W4 & W5 & W6 & W7 & W8). split; [exact Hb|].
  assert (Hbu : b <> u) by (intros ->; apply Hq1; eapply (fo_inj _ _ _ _ _ _ Hok); eauto).
  assert (Hk : kind_at t' q = kind_at t q /\ nodes t' !! q = nodes t !! q) by (unfold kind_at, t'; cbn [nodes]; now rewrite lookup_delete_ne by congruence). destruct Hk as [Hk1 Hk2].
  unfold node_ok. rewrite Hk1, Hk2. destruct (decide (q = p)) as [->|Hqp].
  - rewrite Hp in Hq. injection Hq as <-. rewrite Hx in W1. injection W1 as <-. exists (with_entries x (hd_addr fst 0 (L1 ++ L2))). split; [cbn; rewrite lookup_insert_ne by congruence; apply lookup_insert_eq|].
    cbn. repeat split; auto. intros Hd. destruct (W8 Hd) as (K & K1 & _ & K3). exists (L1 ++ L2). unfold D'. now rewrite lookup_insert_eq.
  - assert (b <> a) by (intros ->; apply Hqp; eapply (fo_inj _ _ _ _ _ _ Hok); eauto). exists w. split; [cbn; now rewrite !lookup_insert_ne by congruence|]. repeat split; auto.
    intros Hd. destruct (W8 Hd) as (K & K1 & K2 & K3). exists K. unfold D'. now rewrite lookup_insert_ne by congruence.
Qed.

Lemma removed_ok : fs_ok n s' t' P' D'.
Proof.
  assert (Hlists : forall q K, D' !! q = Some K -> exists K0, D !! q = Some K0 /\ forall b, b ∈ fst <$> K -> b ∈ fst <$> K0).
  { intros q K. unfold D'. rewrite lookup_insert_Some. intros [[<- <-]|[_ HQ]]; [|eauto]. exists (L1 ++ (d, e) :: L2). split; [exact HD|].
    intros b (z & -> & Hz)%list_elem_of_fmap. now apply list_elem_of_fmap_2, rest_in. }
  assert (HP : forall q b, P' !! q = Some b -> P !! q = Some b /\ q <> p ++ [c]) by (intros q b; unfold P'; rewrite lookup_delete_Some; intros [? ?]; auto).
  assert (Huh : u < vheap s) by (apply (fo_node _ _ _ _ _ _ Hok) in Hu; lia). assert (Hah : a < vheap s) by (apply (fo_node _ _ _ _ _ _ Hok) in Hp; lia). split.
  - intros q. unfold P', t'. cbn [nodes]. rewrite !lookup_delete_is_Some. now rewrite (fo_dom _ _ _ _ _ _ Hok q).
  - exact removed_node.
  - exact removed_list.
  - intros q r K M b HQ HR Hb1 Hb2. destruct (Hlists q K HQ) as (K0 & A1 & A2), (Hlists r M HR) as (M0 & B1 & B2). eapply (fo_apart _ _ _ _ _ _ Hok); eauto.
  - intros q r b [H1 _]%HP [H2 _]%HP. eapply (fo_inj _ _ _ _ _ _ Hok); eauto.
  - intros q z [b [Hb _]%HP]. destruct (fo_path _ _ _ _ _ _ Hok q z) as [H1 H2]; [eauto|]. split; [|exact H2]. destruct (fo_dom _ _ _ _ _ _ Hok q) as [_ Hin]. destruct Hin as [b' Hb']; [eauto|]. now apply (keep_node q b').
  - exact (fo_heap _ _ _ _ _ _ Hok).
  - intros b Hb. cbn in Hb |- *. rewrite !lookup_insert_ne by lia. now apply (fo_fresh _ _ _ _ _ _ Hok).
  - destruct (fo_root _ _ _ _ _ _ Hok). now apply keep_node.
  - destruct (fo_proot _ _ _ _ _ _ Hok). now apply keep_node.
  - destruct (fo_cwd _ _ _ _ _ _ Hok). now apply keep_node.
  - exact (fo_below _ _ _ _ _ _ Hok).
Qed.
End unlinked.

Lemma tmpfs_unlink_ok : exists s' D', tmpfs_unlink a c s = Done 0 s' /\ fs_ok n s' (Tree (delete (p ++ [c]) (nodes t)) (aroot t) (acwd t)) (delete (p ++ [c]) P) D'.
Proof.
  destruct tmpfs_unlink_run as (s' & L1 & d & e & L2 & x & y & E & HD & Hen & HL & Hx & Hy & Hau & Es). exists s'. eexists. split; [exact E|]. rewrite Es. apply (removed_ok L1 L2 d e x y); auto.
Qed.
End unlink.
