(* ===== verification/VfsProc.v ===== *)
(** * The file system: the directories of the process

    [getcwd], [chdir] and [chroot]. *)

From S2P Require Import Prelude CMem State Dll Vfs VfsSpec VfsWalk VfsMake.

(** ** The path of a directory *)

Definition cwd_bytes (root q : apath) : name :=
  match drop (length root) q with [] => [slash] | rel => path_bytes (drop (length rel - 50) rel) end.

Lemma path_bytes_snoc p c : path_bytes (p ++ [c]) = path_bytes p ++ slash :: c.
Proof. unfold path_bytes. rewrite bind_app. cbn. now rewrite app_nil_r. Qed.

Section getcwd.
Context (m n : Z) (s : vfs) (t : tree) (P : imap) (D : dmap).
Hypothesis Hok : fs_okm m n s t P D.

Lemma getcwd_loop rel : forall b dst k fuel, P !! (aroot t ++ rel) = Some b -> nodes t !! (aroot t ++ rel) = Some Dir -> (0 < k)%nat -> (k < fuel)%nat ->
  sloop fuel (getcwd_step (proot s)) (b, dst, Z.of_nat k) s = Done (0, path_bytes (drop (length rel - k) rel) ++ dst) s.
Proof.
  induction rel as [|c rel IH] using rev_ind; intros b dst k fuel Hb Hk Hk0 Hf; (destruct fuel as [|fuel]; [lia|]); cbn [sloop]; destruct (fo_proot _ _ _ _ _ _ Hok) as [Hr _].
  - rewrite app_nil_r, Hr in Hb. injection Hb as ->. rewrite (bind_done (getcwd_step _ _) _ s (Break (0, dst)) s); [reflexivity|]. cbn [getcwd_step]. now rewrite Z.eqb_refl.
  - rewrite app_assoc in Hb, Hk. set (q := aroot t ++ rel) in *. assert (Hne : b <> proot s).
    { intros ->. pose proof (fo_inj _ _ _ _ _ _ Hok _ _ _ Hb Hr) as E. apply (f_equal length) in E. unfold q in E. rewrite !length_app in E. cbn in E. lia. }
    destruct (fo_path _ _ _ _ _ _ Hok q c) as [Hq _]; [eauto|]. assert (is_Some (P !! q)) as [b' Hb'] by (apply (fo_dom _ _ _ _ _ _ Hok); eauto).
    destruct (fo_node _ _ _ _ _ _ Hok _ _ Hb) as (_ & x & X1 & X2 & _ & _ & _ & _ & _ & X8). destruct (X8 Hk) as (L & _ & _ & Hname). specialize (Hname q c eq_refl).
    assert (Ht : (itype x =? T_DIR) = true) by (rewrite X2; unfold kind_at; now rewrite Hk).
    pose proof (get_direntry_run m n s t P D Hok _ _ dotdot Hb Hk) as Eg. change (step (q ++ [c]) dotdot) with (parent (q ++ [c])) in Eg. rewrite parent_snoc, Hb' in Eg. cbn [default from_option id] in Eg.
    assert (Es : getcwd_step (proot s) (b, dst, Z.of_nat k) s = Done (if Z.of_nat k - 1 =? 0 then Break (0, slash :: c ++ dst) else Next (b', slash :: c ++ dst, Z.of_nat k - 1)) s).
    { cbn [getcwd_step]. rewrite (proj2 (Z.eqb_neq b _) Hne). vrun (get_ino_done _ _ _ X1). rewrite Ht. cbn [negb]. vrun Eg. rewrite Hname. now destruct (Z.of_nat k - 1 =? 0). }
    vrun Es. destruct (Z.eqb_spec (Z.of_nat k - 1) 0) as [Ek|Ek].
    + assert (k = 1%nat) as -> by lia. rewrite length_app. cbn [length]. replace (length rel + 1 - 1)%nat with (length rel) by lia. rewrite drop_app_length. cbn. now rewrite app_nil_r.
    + replace (Z.of_nat k - 1) with (Z.of_nat (k - 1)) by lia. rewrite (IH b' _ (k - 1)%nat fuel Hb' Hq) by lia. rewrite length_app. cbn [length].
      replace (length rel + 1 - k)%nat with (length rel - (k - 1))%nat by lia. rewrite drop_app_le by lia. rewrite path_bytes_snoc, <- app_assoc. reflexivity.
Qed.

Lemma getcwd_run q b : P !! q = Some b -> nodes t !! q = Some Dir -> aroot t `prefix_of` q -> getcwd b s = Done (0, cwd_bytes (aroot t) q) s.
Proof.
  intros Hb Hk [rel ->]. unfold getcwd, cwd_bytes. vget. rewrite drop_app_length. destruct (fo_proot _ _ _ _ _ _ Hok) as [Hr _]. destruct (Z.eqb_spec b (proot s)) as [->|Hne].
  - pose proof (fo_inj _ _ _ _ _ _ Hok _ _ _ Hb Hr) as E. rewrite <- (app_nil_r (aroot t)) in E at 2. apply app_inv_head in E as ->. reflexivity.
  - change 50 with (Z.of_nat 50) at 1. rewrite (getcwd_loop rel) by (auto; lia). rewrite app_nil_r. destruct rel; [|reflexivity]. rewrite app_nil_r, Hr in Hb. congruence.
Qed.
End getcwd.

(** ** References *)

Definition bump (i k : Z) (s : vfs) : vfs := on_inodes (alter (fun x => with_rc x (rc x + k)) i) s.

Lemma with_rc_id x : with_rc x (rc x + 0) = x.
Proof. destruct x. unfold with_rc. cbn. f_equal. lia. Qed.

Lemma bump_lookup i k s b : inodes (bump i k s) !! b = (fun x => with_rc x (rc x + if b =? i then k else 0)) <$> inodes s !! b.
Proof.
  cbn. destruct (Z.eqb_spec b i) as [->|Hb]; [apply lookup_alter_eq|]. rewrite lookup_alter_ne by congruence. destruct (inodes s !! b); [|reflexivity]. cbn. now rewrite with_rc_id.
Qed.

Lemma bump_insert i k s x : inodes s !! i = Some x -> on_inodes <[i := with_rc x (rc x + k)]> s = bump i k s.
Proof.
  intros Hx. unfold bump, on_inodes. f_equal. apply map_eq. intros j. destruct (decide (i = j)) as [<-|Hj]; [now rewrite lookup_insert_eq, lookup_alter_eq, Hx|now rewrite lookup_insert_ne, lookup_alter_ne].
Qed.

Lemma acquire_bump s i x : i <> 0 -> inodes s !! i = Some x -> 0 <= rc x -> rc x + 1 < 2 ^ 31 -> acquire i s = Done i (bump i 1 s).
Proof. intros. rewrite (acquire_run s i x) by assumption. now rewrite bump_insert. Qed.
Lemma release_bump s i x : i <> 0 -> inodes s !! i = Some x -> 1 < rc x < 2 ^ 31 -> release i s = Done 0 (bump i (-1) s).
Proof. intros. rewrite (release_run s i x) by assumption. change (rc x - 1) with (rc x + -1). now rewrite bump_insert. Qed.

(** Only counts and the directories of the process changed. *)
Lemma move_ok m n m' n' s s' t P D r q :
  fs_okm m n s t P D -> dirents s' = dirents s -> superblocks s' = superblocks s -> vheap s' = vheap s -> vfs_root s' = vfs_root s ->
  (forall p b x, P !! p = Some b -> inodes s !! b = Some x -> exists k, inodes s' !! b = Some (with_rc x k) /\ m' + holds s' b <= k /\ k + n' < 2 ^ 31) ->
  (forall b, inodes s !! b = None -> inodes s' !! b = None) ->
  P !! r = Some (proot s') -> nodes t !! r = Some Dir -> P !! q = Some (pcwd s') -> nodes t !! q = Some Dir -> r `prefix_of` q ->
  fs_okm m' n' s' (Tree (nodes t) r q) P D.
Proof.
  intros Hok Hd Hs Hh Hv Hi Hf R1 R2 Q1 Q2 Hrq. split; cbn [nodes aroot acwd]; try (rewrite ?Hh; apply Hok); try tauto.
  - intros p b Hb. destruct (fo_node _ _ _ _ _ _ Hok p b Hb) as (Hb0 & x & X1 & X2 & X3 & X4 & X5 & X6 & X7 & X8). rewrite Hh. split; [exact Hb0|].
    destruct (Hi p b x Hb X1) as (k & K1 & K2 & K3). exists (with_rc x k). rewrite Hs. auto 10.
  - intros p L HL. destruct (fo_list _ _ _ _ _ _ Hok p L HL) as (H1 & H2 & H3 & H4 & H5 & H6). split; [exact H1|]. split; [now rewrite Hd|]. split; [exact H3|]. split; [exact H4|]. split; [exact H5|now rewrite Hh].
  - intros b Hb. apply Hf, (fo_fresh _ _ _ _ _ _ Hok). now rewrite <- Hh.
  - rewrite Hv. apply Hok.
Qed.

Lemma fs_ok_less m n n' s t P D : n' <= n -> fs_okm m n s t P D -> fs_okm m n' s t P D.
Proof.
  intros Hn Hok. destruct t as [N r q]. apply (move_ok m n m n' s s (Tree N r q) P D r q Hok); try reflexivity; try apply Hok; [|auto].
  intros p b x Hb Hx. destruct (fo_node _ _ _ _ _ _ Hok p b Hb) as (_ & y & Y1 & _ & _ & _ & _ & Y6 & Y7 & _). rewrite Hx in Y1. injection Y1 as <-.
  exists (rc x + 0). rewrite with_rc_id. split; [exact Hx|]. lia.
Qed.

Section enter.
Context (n : Z) (s : vfs) (t : tree) (P : imap) (D : dmap).
Hypothesis Hok : fs_ok n s t P D.
Hypothesis Hn : 4 <= n.

Lemma node_rc p b : P !! p = Some b -> exists x, inodes s !! b = Some x /\ b <> 0 /\ 2 + holds s b <= rc x /\ rc x + n < 2 ^ 31 /\ itype x = kind_at t p /\ 0 <= holds s b.
Proof.
  intros Hb. destruct (fo_node _ _ _ _ _ _ Hok p b Hb) as (Hb0 & x & X1 & X2 & _ & _ & _ & X6 & X7 & _). exists x. repeat split; auto; try lia.
  unfold holds, b2z. destruct (b =? proot s), (b =? pcwd s); lia.
Qed.

(** The counts after some of them were changed. *)
Lemma bumped s' f m' n' : (forall b, inodes s' !! b = (fun x => with_rc x (rc x + f b)) <$> inodes s !! b) ->
  (forall p b, P !! p = Some b -> m' + holds s' b <= 2 + holds s b + f b /\ f b + n' <= n) ->
  (forall p b x, P !! p = Some b -> inodes s !! b = Some x -> exists k, inodes s' !! b = Some (with_rc x k) /\ m' + holds s' b <= k /\ k + n' < 2 ^ 31) /\
  forall b, inodes s !! b = None -> inodes s' !! b = None.
Proof.
  intros Hf Hb. split; [|intros b E; now rewrite Hf, E]. intros p b x Hp Hx. destruct (node_rc p b Hp) as (y & Y1 & _ & Y2 & Y3 & _). rewrite Hx in Y1. injection Y1 as <-.
  destruct (Hb p b Hp). exists (rc x + f b). rewrite Hf, Hx. split; [reflexivity|]. lia.
Qed.

(** A path to a directory, then [body]. *)
Lemma enter_run path (body : Z -> V Z) (f : apath -> tree) : short (elems path) ->
  (forall q b, P !! q = Some b -> nodes t !! q = Some Dir -> aroot t `prefix_of` q -> exists s', body b s = Done 0 s' /\ fs_ok (n - 4) s' (f q) P D) ->
  let c := ('(err, i) ← namei path 0 0 (pcwd s) 0 false;
            if negb (err =? 0) then mret (-1) else
            if i =? 0 then mret (- ENOENT) else
            x ← get_ino i;
            if negb (itype x =? T_DIR) then mret (- ENOTDIR) else body i) in
  match a_enter t path f with
  | Some (r, t') => exists s', c s = Done r s' /\ fs_ok (n - 4) s' t' P D
  | None => c s = Fail
  end.
Proof.
  intros Hs Hbody c. unfold a_enter, c. pose proof (namei_run n s t P D Hok path 0 0 0 false Hs) as En. unfold walk_elems in En. change (Z.land 0 O_CREAT =? 0) with true in En.
  pose proof (fo_dom _ _ _ _ _ _ Hok) as Hdom. destruct (start_in n s t P D Hok path) as [a0 Ha0].
  pose proof (walk_in t (elems path) (a_start t path)) as Hin. specialize (Hin ltac:(apply Hdom; eauto)). pose proof (walk_below t (elems path) _ (start_below n s t P D Hok path)) as Hbel.
  assert (Hless : fs_ok (n - 4) s t P D) by (eapply fs_ok_less; [|exact Hok]; lia).
  destruct (walk t (a_start t path) (elems path)) as [q|q w l|].
  - apply Hdom in Hin as [b Hb]. rewrite Hb in En. cbn [default from_option id] in En. vrun En. cbn [Z.eqb negb].
    destruct (node_rc q b Hb) as (x & X1 & X2 & _ & _ & X5 & _). rewrite (proj2 (Z.eqb_neq b 0) X2). vrun (get_ino_done _ _ _ X1). rewrite X5. unfold kind_at.
    assert (is_Some (nodes t !! q)) as [k Hk] by (apply Hdom; eauto). rewrite Hk. destruct k; cbn [ktype]; [|now exists s].
    change (negb (T_DIR =? T_DIR)) with false. cbv iota. now apply Hbody.
  - rewrite andb_false_r in En. vrun En. now exists s.
  - unfold mbind, SM_bind. now rewrite En.
Qed.

Lemma chdir_run path : short (elems path) ->
  match a_chdir t path with
  | Some (r, t') => exists s', chdir true path s = Done r s' /\ fs_ok (n - 4) s' t' P D
  | None => chdir true path s = Fail
  end.
Proof.
  intros Hs. unfold a_chdir, chdir. cbn [negb]. vget. apply enter_run; [exact Hs|]. intros q b Hb Hk Hbel. destruct (node_rc q b Hb) as (x & X1 & X2 & X3 & X4 & X5 & X6).
  vrun (acquire_bump s b x X2 X1 ltac:(lia) ltac:(lia)). destruct (fo_cwd _ _ _ _ _ _ Hok) as [Hc Hck]. destruct (node_rc _ _ Hc) as (y & Y1 & Y2 & Y3 & Y4 & _ & Y6).
  assert (Y5 : 1 <= holds s (pcwd s)) by (unfold holds, b2z; rewrite Z.eqb_refl; destruct (_ =? _); lia).
  assert (G : inodes (bump b 1 s) !! pcwd s = Some (with_rc y (rc y + if pcwd s =? b then 1 else 0))) by (rewrite bump_lookup, Y1; reflexivity).
  rewrite (bind_done _ _ _ _ _ (release_bump _ _ _ Y2 G ltac:(cbn; destruct (pcwd s =? b); lia))). set (s2 := bump (pcwd s) (-1) (bump b 1 s)).
  set (f := fun z => (if z =? b then 1 else 0) + (if z =? pcwd s then -1 else 0)).
  assert (Hf : forall z, inodes s2 !! z = (fun w => with_rc w (rc w + f z)) <$> inodes s !! z).
  { intros z. unfold s2. rewrite !bump_lookup, <- option_fmap_compose. apply option_fmap_ext. intros w. unfold compose, with_rc, f. cbn. f_equal. lia. }
  assert (Hok2 : fs_okm 1 (n - 4) s2 t P D).
  { destruct (bumped s2 f 1 (n - 4) Hf) as [B1 B2]; [intros p z _; unfold f; change (holds s2 z) with (holds s z); destruct (z =? b), (z =? pcwd s); lia|].
    pose proof (move_ok 2 n 1 (n - 4) s s2 t P D (aroot t) (acwd t) Hok) as Hm. destruct t as [N r w]. apply Hm; try reflexivity; try apply Hok; assumption. }
  rewrite (bind_done _ _ _ _ _ (getcwd_run 1 (n - 4) s2 t P D Hok2 q b Hb Hk Hbel)). cbn [Z.eqb negb]. vset. eexists. split; [reflexivity|].
  destruct (bumped (set_proc (proot s2) b (string_assign (cwd_string s2) (cwd_bytes (aroot t) q)) s2) f 2 (n - 4) Hf) as [B1 B2].
  { intros p z _. unfold f, holds. cbn. unfold b2z. destruct (z =? proot s), (z =? pcwd s), (z =? b); lia. }
  apply (move_ok 2 n 2 (n - 4) s _ t P D (aroot t) q Hok); try reflexivity; try apply Hok; assumption.
Qed.

Lemma chroot_run path : short (elems path) ->
  match a_chroot t path with
  | Some (r, t') => exists s', chroot true path s = Done r s' /\ fs_ok (n - 4) s' t' P D
  | None => chroot true path s = Fail
  end.
Proof.
  intros Hs. unfold a_chroot, chroot. cbn [negb]. vget. apply enter_run; [exact Hs|]. intros q b Hb Hk Hbel. destruct (node_rc q b Hb) as (x & X1 & X2 & X3 & X4 & X5 & X6).
  vget. destruct (fo_proot _ _ _ _ _ _ Hok) as [Hr Hrk]. destruct (node_rc _ _ Hr) as (y & Y1 & Y2 & Y3 & Y4 & _ & Y6).
  assert (Y5 : 1 <= holds s (proot s)) by (unfold holds, b2z; rewrite Z.eqb_refl; destruct (_ =? _); lia).
  rewrite (bind_done _ _ _ _ _ (release_bump _ _ _ Y2 Y1 ltac:(lia))). set (s1 := bump (proot s) (-1) s).
  assert (G1 : inodes s1 !! b = Some (with_rc x (rc x + if b =? proot s then -1 else 0))) by (unfold s1; rewrite bump_lookup, X1; reflexivity).
  rewrite (bind_done _ _ _ _ _ (acquire_bump _ _ _ X2 G1 ltac:(cbn; destruct (b =? proot s); lia) ltac:(cbn; destruct (b =? proot s); lia))). vset.
  set (s2 := set_proc _ _ _ _). assert (Eg : getcwd b s2 = Done (0, [slash]) s2) by (unfold getcwd; vget; change (proot s2) with b; now rewrite Z.eqb_refl). vrun Eg. cbn [Z.eqb negb].
  assert (G2 : inodes s2 !! b = Some (with_rc x (rc x + (if b =? proot s then -1 else 0) + 1))) by (unfold s2; change (inodes (bump b 1 s1) !! b = Some (with_rc x (rc x + (if b =? proot s then -1 else 0) + 1))); rewrite bump_lookup, G1, Z.eqb_refl; reflexivity).
  rewrite (bind_done _ _ _ _ _ (acquire_bump _ _ _ X2 G2 ltac:(cbn; destruct (b =? proot s); lia) ltac:(cbn; destruct (b =? proot s); lia))). vset. eexists. split; [reflexivity|].
  set (s3 := set_proc _ _ _ _). set (f := fun z => (if z =? proot s then -1 else 0) + (if z =? b then 2 else 0)).
  assert (Hf : forall z, inodes s3 !! z = (fun w => with_rc w (rc w + f z)) <$> inodes s !! z).
  { intros z. change (inodes s3) with (inodes (bump b 1 (bump b 1 (bump (proot s) (-1) s)))). rewrite !bump_lookup, <- !option_fmap_compose. apply option_fmap_ext. intros w. unfold compose, with_rc, f. cbn. f_equal. destruct (z =? b); lia. }
  destruct (bumped s3 f 2 (n - 4) Hf) as [B1 B2].
  { intros p z _. unfold f, holds. change (proot s3) with b. change (pcwd s3) with b. unfold b2z. destruct (z =? proot s), (z =? pcwd s), (z =? b); lia. }
  apply (move_ok 2 n 2 (n - 4) s _ t P D q q Hok); try reflexivity; assumption.
Qed.
End enter.
