(* ===== verification/VfsProps.v ===== *)
(** * The file system refines the tree of paths

    Every sequence of calls on a tmpfs that was mounted as the root returns what
    the abstract file system of VfsSpec returns; the path that [getcwd] prints leads
    back to the working directory, which stays below the root of the process. *)

From S2P Require Import Prelude CMem State Dll Vfs VfsSpec VfsWalk VfsMake VfsUnlink VfsProc.

Definition op_path (o : fsop) : name :=
  match o with Open p _ _ | Mkdir _ p _ | Unlink _ p | Chdir _ p | Chroot _ p => p | Getcwd => [] end.
Definition op_ok (o : fsop) : Prop := (length (op_path o) < 255)%nat.

(** ** Elements of paths *)

Definition good_name (c : name) : Prop := c <> [] /\ Forall (fun x => x <> slash) c.

Lemma split_length s : forall tok, Forall (fun c => (length c <= length tok + length s)%nat) (split_loop tok s).
Proof.
  induction s as [|x s IH]; intros tok; cbn [split_loop]; [destruct tok; [constructor|]; apply Forall_cons_iff; split; [cbn; lia|constructor]|].
  assert (Hn : Forall (fun c => (length c <= length tok + length (x :: s))%nat) (split_loop [] s)) by (eapply Forall_impl; [|apply (IH [])]; cbn; lia).
  destruct (x =? slash); [destruct tok; [exact Hn|apply Forall_cons_iff; split; [cbn; lia|exact Hn]]|].
  eapply Forall_impl; [|apply IH]. intros c. rewrite length_app. cbn. lia.
Qed.

Lemma flag_last_fst cs tr : fst <$> flag_last cs tr = cs.
Proof. induction cs as [|c [|d cs] IH]; [reflexivity..|]. cbn [flag_last fmap list_fmap fst] in *. f_equal. exact IH. Qed.

Lemma elems_short p : (length p < 255)%nat -> short (elems p).
Proof.
  intros H. unfold short. assert (Hs : Forall (fun c : name => (length c < 255)%nat) (fst <$> elems p)); [|now apply Forall_fmap in Hs].
  unfold elems. rewrite flag_last_fst. eapply Forall_impl; [|apply split_length]. cbn. lia.
Qed.

Lemma elems_good p : Forall (fun e => good_name (fst e)) (elems p).
Proof.
  remember (elems p) as es eqn:E. revert p E. induction es as [|[c l] es IH]; intros p E; [constructor|]. pose proof (skipelem_elems p) as H. rewrite <- E in H.
  destruct H as (rest & _ & Er & _ & H1 & H2). apply Forall_cons_iff. split; [now split|]. apply (IH rest). congruence.
Qed.

(** ** Each call *)

Section calls.
Context (n : Z) (s : vfs) (t : tree) (P : imap) (D : dmap).
Hypothesis Hok : fs_ok n s t P D.
Hypothesis Hn : 4 <= n < 2 ^ 31.

Lemma same_ok : fs_ok (n - 4) s t P D.
Proof. eapply fs_ok_less; [|exact Hok]. lia. Qed.

(** What a lookup from the start of a path says. *)
Lemma walk_start path es :
  match walk t (a_start t path) es with
  | Found q => exists b k x, P !! q = Some b /\ nodes t !! q = Some k /\ inodes s !! b = Some x /\ itype x = ktype k /\ has_dops x = true /\ b <> 0
  | Missing q c l => exists a, P !! q = Some a /\ nodes t !! q = Some Dir /\ P !! step q c = None /\ (c, l) ∈ es
  | NotDir => True
  end.
Proof.
  destruct (start_in n s t P D Hok path) as [a0 Ha0]. pose proof (walk_in t es (a_start t path)) as Hin. specialize (Hin ltac:(apply (fo_dom _ _ _ _ _ _ Hok); eauto)).
  destruct (walk t (a_start t path) es) as [q|q c l|]; [| |exact I].
  - destruct Hin as [k Hk]. assert (is_Some (P !! q)) as [b Hb] by (apply (fo_dom _ _ _ _ _ _ Hok); eauto). destruct (node_at 2 n s t P D Hok q b Hb) as (x & X1 & X2 & X3).
    exists b, k, x. unfold kind_at in X2. rewrite Hk in X2. pose proof (node_pos n s t P D Hok q b Hb). repeat split; auto. lia.
  - destruct Hin as (H1 & H2 & H3). assert (is_Some (P !! q)) as [a Ha] by (apply (fo_dom _ _ _ _ _ _ Hok); eauto). exists a. repeat split; auto.
    pose proof (nodes_of n s t P D Hok (step q c)) as Hno. now rewrite H2 in Hno.
Qed.

Lemma open_run path flags mode : short (elems path) ->
  match a_open t path flags with
  | Some (r, t') => exists s' P' D', v_exec (Open path flags mode) s = Done (r, []) s' /\ fs_ok (n - 4) s' t' P' D'
  | None => v_exec (Open path flags mode) s = Fail
  end.
Proof.
  intros Hs. unfold a_open, v_exec, open. pose proof (namei_run n s t P D Hok path flags mode 0 false Hs) as En. unfold walk_elems in En. pose proof (walk_start path (elems path)) as Hw.
  assert (Eopen : forall err b s', namei path flags mode (pcwd s) 0 false s = Done (err, b) s' -> (c ← cwd; '(err, ino) ← namei path flags mode c 0 false; if negb (err =? 0) then mret 0 else mret ino) s = Done (if negb (err =? 0) then 0 else b) s').
  { intros err b s' E. vrun (cwd_run n s t P D Hok). vrun E. now destruct (negb (err =? 0)). }
  destruct (walk t (a_start t path) (elems path)) as [q|q c l|].
  - destruct Hw as (b & k & x & Hb & Hk & X1 & X2 & _ & Hb0). rewrite Hb in En. vrun (Eopen _ _ _ En). cbn [Z.eqb negb default from_option id]. rewrite (proj2 (Z.eqb_neq b 0) Hb0). vrun (get_ino_done _ _ _ X1).
    exists s, P, D. unfold kind_at. rewrite X2, Hk. split; [reflexivity|apply same_ok].
  - destruct Hw as (a & Ha & Hk & Hno & Hcl). destruct (l && negb (Z.land flags O_CREAT =? 0)).
    + destruct (missing_name 2 n s t P D Hok q a c Ha Hno) as [Hdots Hst]. rewrite Hst in Hno. rewrite Ha in En. cbn [default from_option id] in En.
      destruct (tmpfs_create_run n s t P D q a c Hok Ha Hk Hdots Hno Hn (puid s) (pgid s) mode) as (s' & P' & D' & i & E1 & Hok' & EP).
      assert (Hq : q <> q ++ [c]) by apply longer_ne.
      assert (Ha' : P' !! q = Some a) by (rewrite EP, lookup_insert_ne by congruence; exact Ha). assert (Hk' : nodes (add_node t (q ++ [c]) File) !! q = Some Dir) by (cbn; rewrite lookup_insert_ne by congruence; exact Hk).
      pose proof (get_direntry_run 2 (n - 4) s' _ P' D' Hok' q a c Ha' Hk') as Eg. rewrite Hst, EP, lookup_insert_eq in Eg. cbn [default from_option id] in Eg.
      assert (Em : make_file a c mode 0 s = Done (0, i) s') by (unfold make_file; vget; vget; vrun E1; cbn [Z.eqb]; now vrun Eg). rewrite Em in En. vrun (Eopen _ _ _ En). cbn [Z.eqb negb].
      assert (Hi : P' !! (q ++ [c]) = Some i) by (rewrite EP; apply lookup_insert_eq). pose proof (node_pos _ _ _ _ _ Hok' _ _ Hi). rewrite (proj2 (Z.eqb_neq i 0)) by lia.
      destruct (node_at _ _ _ _ _ _ Hok' _ _ Hi) as (y & Y1 & Y2 & _). vrun (get_ino_done _ _ _ Y1). exists s', P', D'. unfold kind_at, add_node in Y2. cbn [nodes] in Y2. rewrite lookup_insert_eq in Y2. rewrite Y2. auto.
    + vrun (Eopen _ _ _ En). exists s, P, D. split; [reflexivity|apply same_ok].
  - unfold mbind at 1, SM_bind at 1. rewrite (bind_done _ _ _ _ _ (cwd_run n s t P D Hok)). unfold mbind, SM_bind. now rewrite En.
Qed.

Lemma mkdir_run path mode : (length path < 255)%nat ->
  match a_mkdir t path with
  | Some (r, t') => exists s' P' D', mkdir true path mode s = Done r s' /\ fs_ok (n - 4) s' t' P' D'
  | None => mkdir true path mode s = Fail
  end.
Proof.
  intros Hlen. pose proof (elems_short path Hlen) as Hs. unfold a_mkdir, mkdir. cbn [negb]. assert (Hl : (256 <=? Z.of_nat (length path)) = false) by lia. rewrite Hl, after_slash_base.
  vrun (cwd_run n s t P D Hok). pose proof (namei_run n s t P D Hok path 0 mode 0 true Hs) as En. unfold walk_elems in En. change (Z.land 0 O_CREAT =? 0) with true in En.
  pose proof (walk_start path (dir_elems path)) as Hw. destruct (walk t (a_start t path) (dir_elems path)) as [q|q c l|].
  - destruct Hw as (b & k & x & Hb & Hk & X1 & X2 & X3 & Hb0). rewrite Hb in En. cbn [default from_option id] in En. vrun En. change (0 <? 0) with false. cbv iota. rewrite (proj2 (Z.eqb_neq b 0) Hb0).
    vrun (get_ino_done _ _ _ X1). rewrite X2, X3, Hk. destruct k; cbn [ktype]; [|exists s, P, D; split; [reflexivity|apply same_ok]]. change (negb (T_DIR =? T_DIR)) with false. cbn [negb]. cbv iota.
    set (nm := base_name path). vrun (get_direntry_run 2 n s t P D Hok q b nm Hb Hk). pose proof (nodes_of n s t P D Hok (step q nm)) as Hno. destruct (nodes t !! step q nm).
    + destruct Hno as [u Hu]. rewrite Hu. cbn [default from_option id]. pose proof (node_pos n s t P D Hok _ _ Hu). rewrite (proj2 (Z.eqb_neq u 0)) by lia. cbn [negb]. exists s, P, D. split; [reflexivity|apply same_ok].
    + rewrite Hno. cbn [default from_option id Z.eqb negb]. vget. vget. destruct (missing_name 2 n s t P D Hok q b nm Hb Hno) as [Hdots Hst]. rewrite Hst in Hno.
      destruct (tmpfs_mkdir_run n s t P D q b nm Hok Hb Hk Hdots Hno Hn (puid s) (pgid s) mode) as (s' & P' & D' & i & E1 & Hok' & _). exists s', P', D'. auto.
  - rewrite andb_false_r in En. vrun En. exists s, P, D. split; [reflexivity|apply same_ok].
  - unfold mbind, SM_bind. now rewrite En.
Qed.

Lemma sys_unlink_run path : short (elems path) ->
  match a_unlink t path with
  | Some (r, t') => exists s' P' D', sys_unlink true path s = Done r s' /\ fs_ok (n - 4) s' t' P' D'
  | None => sys_unlink true path s = Fail
  end.
Proof.
  intros Hs. unfold a_unlink, sys_unlink. cbn [negb]. vget. rewrite (unlink_run n s t P D Hok path Hs). pose proof (walk_start path (dir_elems path)) as Hw.
  assert (Hsame : forall r : Z, exists s' P' D', Done r s = Done r s' /\ fs_ok (n - 4) s' t P' D') by (intros r; exists s, P, D; split; [reflexivity|apply same_ok]).
  destruct (walk t (a_start t path) (dir_elems path)) as [q|q c l|]; [|apply Hsame|reflexivity]. unfold unlink_last. set (c := base_name path).
  destruct (bool_decide (c = []) || bool_decide (c = dotdot) && bool_decide (q = aroot t)); [apply Hsame|]. destruct Hw as (b & k & x & Hb & Hk & _). rewrite Hk. destruct k; [|reflexivity].
  destruct (nodes t !! step q c) as [[|]|] eqn:Ec; [apply Hsame| |apply Hsame]. rewrite Hb. cbn [default from_option id].
  assert (Hst : step q c = q ++ [c]).
  { unfold step in *. destruct (bool_decide (c = dot)); [congruence|]. destruct (bool_decide (c = dotdot)); [|reflexivity]. destruct q as [|d q _] using rev_ind; [cbn in Ec; congruence|]. rewrite parent_snoc in Ec.
    destruct (fo_path _ _ _ _ _ _ Hok q d) as [H _]; [eauto|congruence]. }
  rewrite Hst in Ec. pose proof (nodes_of n s t P D Hok (q ++ [c])) as Hno. rewrite Ec in Hno. destruct Hno as [u Hu].
  destruct (tmpfs_unlink_ok n s t P D q b c u Hok Hb Hu ltac:(lia) Ec) as (s' & D' & E1 & Hok'). exists s'. eexists _, D'. split; [exact E1|]. eapply fs_ok_less; [|exact Hok']. lia.
Qed.

Lemma exec_run o : op_ok o ->
  match a_exec t o with
  | Some (r, w, t') => exists s' P' D', v_exec o s = Done (r, w) s' /\ fs_ok (n - 4) s' t' P' D'
  | None => v_exec o s = Fail
  end.
Proof.
  intros Ho. unfold op_ok in Ho.
  assert (Hinv : forall (c : bool -> V Z), (forall s0, c false s0 = Done (- EINVAL) s0) -> exists s' P' D', (r ← c false; mret (r, [] : name)) s = Done (- EINVAL, []) s' /\ fs_ok (n - 4) s' t P' D').
  { intros c Hc. exists s, P, D. split; [now vrun (Hc s)|apply same_ok]. }
  assert (Hret : forall (c : V Z) x, match x with Some (r, t') => exists s' P' D', c s = Done r s' /\ fs_ok (n - 4) s' t' P' D' | None => c s = Fail end ->
    match ('(r, t0) ← x; Some (r, [] : name, t0)) with Some (r, w, t') => exists s' P' D', (r ← c; mret (r, [] : name)) s = Done (r, w) s' /\ fs_ok (n - 4) s' t' P' D' | None => (r ← c; mret (r, [] : name)) s = Fail end).
  { intros c [[r t']|]; cbn [mbind option_bind]; [intros (s' & P' & D' & E & H); exists s', P', D'; split; [now vrun E|exact H]|]. intros E. unfold mbind, SM_bind. now rewrite E. }
  destruct o as [path flags mode|v path mode|v path|v path|v path|]; cbn [op_path] in Ho; cbn [a_exec].
  - pose proof (open_run path flags mode (elems_short _ Ho)) as H. destruct (a_open t path flags) as [[r t']|]; exact H.
  - destruct v; cbn [checked v_exec]; [|now apply (Hinv (fun b => mkdir b path mode))]. apply Hret. now apply mkdir_run.
  - destruct v; cbn [checked v_exec]; [|now apply (Hinv (fun b => sys_unlink b path))]. apply Hret, sys_unlink_run, elems_short, Ho.
  - destruct v; cbn [checked v_exec]; [|now apply (Hinv (fun b => chdir b path))]. apply Hret. pose proof (chdir_run n s t P D Hok ltac:(lia) path (elems_short _ Ho)) as H.
    destruct (a_chdir t path) as [[r t']|]; [|exact H]. destruct H as (s' & H). exists s', P, D. exact H.
  - destruct v; cbn [checked v_exec]; [|now apply (Hinv (fun b => chroot b path))]. apply Hret. pose proof (chroot_run n s t P D Hok ltac:(lia) path (elems_short _ Ho)) as H.
    destruct (a_chroot t path) as [[r t']|]; [|exact H]. destruct H as (s' & H). exists s', P, D. exact H.
  - destruct (fo_cwd _ _ _ _ _ _ Hok) as [Hc Hck]. exists s, P, D. cbn [v_exec]. vget. split; [|apply same_ok]. apply (getcwd_run 2 n s t P D Hok (acwd t) (pcwd s) Hc Hck (fo_below _ _ _ _ _ _ Hok)).
Qed.
End calls.

(** ** From the start of the system *)

Definition tmpfs_name : name := [116; 109; 112; 102; 115].
Definition power_on (uid gid : Z) : vfs := Vfs ∅ ∅ ∅ 16 0 [] 0 0 [] uid gid.
(** A tmpfs is mounted as the root, for the first process. *)
Definition boot : V unit := mount [(tmpfs_name, tmpfs_mount)] [slash] (Some tmpfs_name) 0;; init_dirs.
Definition root_tree : tree := Tree {[[] := Dir]} [] [].

Definition booted (uid gid : Z) : vfs :=
  Vfs {[32 := Inode T_DIR 4077 0 0 0 3 0 true 16 0 64 None 4]}
    (<[48 := Direntry (Entry ENT_MEM dot 0 32 0) 0 64]> {[64 := Direntry (Entry ENT_MEM dotdot 0 32 0) 48 0]})
    {[16 := Superblock 1 32 1]} 80 32 [Mounted 16 0 0 [slash]] 32 32 [] uid gid.

Lemma boot_run uid gid : boot (power_on uid gid) = Done tt (booted uid gid) /\ exists P D, fs_ok (2 ^ 30) (booted uid gid) root_tree P D.
Proof.
  split; [vm_compute; reflexivity|]. exists {[[] := 32]}, {[[] := [(64, Entry ENT_MEM dotdot 0 32 0); (48, Entry ENT_MEM dot 0 32 0)]]}.
  assert (Hone : forall p a, ({[[] := 32]} : imap) !! p = Some a -> p = [] /\ a = 32) by (intros p a [<- <-]%lookup_singleton_Some; auto). split.
  - intros p. cbn [nodes root_tree]. destruct p; [rewrite !lookup_singleton_eq; split; eauto|]. rewrite !lookup_singleton_ne by discriminate. split; intros [? ?]; discriminate.
  - intros p a [-> ->]%Hone. split; [cbn; lia|]. eexists. split; [apply lookup_singleton_eq|]. cbn [itype has_dops mountpoint isb rc entries dname].
    split; [reflexivity|]. split; [reflexivity|]. split; [reflexivity|]. split; [cbn [booted superblocks]; rewrite lookup_singleton_eq; eauto|]. split; [vm_compute; discriminate|]. split; [reflexivity|].
    intros _. eexists. split; [apply lookup_singleton_eq|]. split; [reflexivity|]. intros q c E. now destruct q.
  - intros p L [<- <-]%lookup_singleton_Some. split; [reflexivity|]. split; [vm_compute; auto|]. split; [|split; [|split]].
    + cbn. apply list.NoDup_cons. split; [|apply list.NoDup_singleton]. intros E%list_elem_of_singleton. discriminate.
    + cbn. apply list.NoDup_cons. split; [|apply list.NoDup_singleton]. intros E%list_elem_of_singleton. discriminate.
    + intros c. cbn [assoc e_name e_ino]. unfold step. case_bool_decide as E1; [subst c; rewrite bool_decide_false by discriminate; rewrite bool_decide_true by reflexivity; reflexivity|].
      case_bool_decide as E2; [subst c; rewrite bool_decide_true by reflexivity; reflexivity|]. rewrite (bool_decide_false (c = dot)), (bool_decide_false (c = dotdot)) by congruence. symmetry. now apply lookup_singleton_ne.
    + repeat (apply Forall_cons_iff; split; [cbn; lia|]). constructor.
  - intros p q L M a [<- <-]%lookup_singleton_Some [<- <-]%lookup_singleton_Some. auto.
  - intros p q a [-> ->]%Hone [-> _]%Hone. reflexivity.
  - intros p c [a [E _]%Hone]. now destruct p.
  - cbn. lia.
  - intros a Ha. cbn in Ha. cbn [booted inodes]. apply lookup_singleton_ne. lia.
  - split; reflexivity.
  - split; reflexivity.
  - split; reflexivity.
  - reflexivity.
Qed.

(** The directories of the process have names that paths can have. *)
Definition cwds_good (t : tree) : Prop := Forall good_name (aroot t) /\ Forall good_name (acwd t).

Lemma walk_good t es : Forall (fun e => good_name (fst e)) es -> forall cur, Forall good_name cur ->
  match walk t cur es with Found q => Forall good_name q | _ => True end.
Proof.
  induction 1 as [|[c l] es Hc _ IH]; intros cur Hcur; cbn [walk]; [exact Hcur|]. destruct (bool_decide (c = dotdot) && bool_decide (cur = aroot t)); [now apply IH|].
  destruct (nodes t !! cur) as [[|]|]; try exact I. destruct (nodes t !! step cur c); [|exact I]. apply IH. unfold step.
  destruct (bool_decide (c = dot)); [exact Hcur|]. destruct (bool_decide (c = dotdot)); [now apply Forall_take|]. apply Forall_app. split; [exact Hcur|]. now apply Forall_cons_iff.
Qed.

Lemma enter_good t path f r t' : cwds_good t -> (forall q, Forall good_name q -> cwds_good (f q)) -> a_enter t path f = Some (r, t') -> cwds_good t'.
Proof.
  intros Ht Hf. unfold a_enter. pose proof (walk_good t (elems path) (elems_good path) (a_start t path)) as Hw. destruct (walk t (a_start t path) (elems path)) as [q|q c l|].
  - destruct (nodes t !! q) as [[|]|]; intros [= _ <-]; [|exact Ht..]. apply Hf, Hw. unfold a_start. destruct path as [|x path]; [apply Ht|]. destruct (x =? slash); apply Ht.
  - now intros [= _ <-].
  - discriminate.
Qed.

Lemma exec_good t o r w t' : cwds_good t -> a_exec t o = Some (r, w, t') -> cwds_good t'.
Proof.
  intros Ht. assert (Hbind : forall (x : option (Z * tree)), (forall r t1, x = Some (r, t1) -> cwds_good t1) -> ('(r, t0) ← x; Some (r, [] : name, t0)) = Some (r, w, t') -> cwds_good t').
  { intros [[r1 t1]|] H; cbn [mbind option_bind]; [|discriminate]. intros [= _ _ <-]. now apply (H r1). }
  assert (Hchk : forall v (x : option (Z * tree)), (forall r t1, x = Some (r, t1) -> cwds_good t1) -> forall r t1, checked v t x = Some (r, t1) -> cwds_good t1).
  { intros [|] x H r1 t1; cbn [checked]; [apply H|]. now intros [= _ <-]. }
  destruct o as [path flags mode|v path mode|v path|v path|v path|]; cbn [a_exec]; [apply Hbind|apply Hbind, Hchk..|now intros [= _ _ <-]].
  - intros r1 t1. unfold a_open. destruct (walk _ _ _); [|destruct (last && _)|]; intros [= _ <-]; exact Ht.
  - intros r1 t1. unfold a_mkdir. destruct (walk _ _ _); [destruct (nodes t !! p) as [[|]|]; [destruct (nodes t !! step p _)|..]|..]; intros [= _ <-]; exact Ht.
  - intros r1 t1. unfold a_unlink. destruct (walk _ _ _); [destruct (_ || _); [|destruct (nodes t !! p) as [[|]|]; [destruct (nodes t !! step p _) as [[|]|]|..]]|..]; intros [= _ <-]; exact Ht.
  - intros r1 t1. apply enter_good; [exact Ht|]. intros q Hq. split; [apply Ht|exact Hq].
  - intros r1 t1. apply enter_good; [exact Ht|]. intros q Hq. now split.
Qed.

Lemma steps_run os : forall n s t P D, fs_ok n s t P D -> cwds_good t -> Forall op_ok os -> 4 * Z.of_nat (length os) <= n < 2 ^ 31 ->
  match a_run t os with
  | Some rs => exists s' n' t' P' D', v_run os s = Done rs s' /\ fs_ok n' s' t' P' D' /\ cwds_good t' /\ n - 4 * Z.of_nat (length os) <= n' < 2 ^ 31
  | None => v_run os s = Fail
  end.
Proof.
  induction os as [|o os IH]; intros n s t P D Hok Hg Ho Hn; cbn [a_run v_run length] in *; [exists s, n, t, P, D; split; [reflexivity|split; [exact Hok|split; [exact Hg|lia]]]|].
  apply Forall_cons_iff in Ho as [Ho1 Ho]. pose proof (exec_run n s t P D Hok ltac:(lia) o Ho1) as He. destruct (a_exec t o) as [[[r w] t1]|] eqn:Ea; cbn [mbind option_bind].
  - destruct He as (s1 & P1 & D1 & E1 & Hok1). specialize (IH (n - 4) s1 t1 P1 D1 Hok1 (exec_good _ _ _ _ _ Hg Ea) Ho ltac:(lia)). vrun E1. destruct (a_run t1 os) as [rs|]; cbn [mbind option_bind].
    + destruct IH as (s' & n' & t' & P' & D' & E & Hok' & Hg' & Hn'). exists s', n', t', P', D'. vrun E. split; [reflexivity|]. split; [exact Hok'|]. split; [exact Hg'|lia].
    + unfold mbind, SM_bind. now rewrite IH.
  - unfold mbind, SM_bind. now rewrite He.
Qed.

Lemma root_good : cwds_good root_tree.
Proof. now split; constructor. Qed.

(** The states that calls lead to. *)
Lemma reached os uid gid rs s : Forall op_ok os -> Z.of_nat (length os) < 2 ^ 28 -> (boot;; v_run os) (power_on uid gid) = Done rs s ->
  exists n t P D, fs_ok n s t P D /\ cwds_good t /\ 4 <= n < 2 ^ 31.
Proof.
  intros Ho Hl. destruct (boot_run uid gid) as (Eb & P & D & Hok). pose proof (steps_run os _ _ _ _ _ Hok root_good Ho ltac:(lia)) as H. vrun Eb. intros E.
  destruct (a_run root_tree os); [|congruence]. destruct H as (s' & n' & t' & P' & D' & E' & Hok' & Hg & Hn). rewrite E in E'. injection E' as _ <-. exists n', t', P', D'. split; [exact Hok'|]. split; [exact Hg|lia].
Qed.

(** C35: on a tmpfs mounted as the root, every sequence of [open], [mkdir], [unlink],
    [chdir], [chroot] and [getcwd] returns what a map from absolute paths to files and
    directories gives: lookups follow the elements of the path from the root or the
    working directory, "." and ".." included and ".." at the root ignored, [open] with
    O_CREAT and [mkdir] add one node, [unlink] removes one file, the errors are those of
    the map, and the kernel stops exactly when a path looks for a name in a file.  Paths
    are shorter than the 255 bytes of a name buffer. *)
Theorem vfs_refines_tree os uid gid : Forall op_ok os -> Z.of_nat (length os) <= 2 ^ 28 ->
  match a_run root_tree os with
  | Some rs => exists s', (boot;; v_run os) (power_on uid gid) = Done rs s'
  | None => (boot;; v_run os) (power_on uid gid) = Fail
  end.
Proof.
  intros Ho Hl. destruct (boot_run uid gid) as (Eb & P & D & Hok). pose proof (steps_run os _ _ _ _ _ Hok root_good Ho ltac:(lia)) as H. vrun Eb.
  destruct (a_run root_tree os); [|exact H]. destruct H as (s' & _ & _ & _ & _ & E & _). eauto.
Qed.

(** mkdir /a; mkdir a/b; chdir a//b/; open ../f with O_CREAT; unlink f; chdir ..; unlink f;
    getcwd; chroot .; chdir ../..; getcwd *)
Definition demo_calls : list fsop :=
  [Mkdir true [47; 97] 0; Mkdir true [97; 47; 98] 0; Chdir true [97; 47; 47; 98; 47]; Open [46; 46; 47; 102] 64 0; Unlink true [102]; Chdir true [46; 46];
   Unlink true [102]; Getcwd; Chroot true [46]; Chdir true [46; 46; 47; 46; 46]; Getcwd].

Lemma vfs_refines_tree_witness :
  a_run root_tree demo_calls = Some [(0, []); (0, []); (0, []); (2, []); (-2, []); (0, []); (0, []); (0, [47; 97]); (0, []); (0, []); (0, [47])] /\
  exists s', (boot;; v_run demo_calls) (power_on 0 0) = Done [(0, []); (0, []); (0, []); (2, []); (-2, []); (0, []); (0, []); (0, [47; 97]); (0, []); (0, []); (0, [47])] s'.
Proof.
  assert (E : a_run root_tree demo_calls = Some [(0, []); (0, []); (0, []); (2, []); (-2, []); (0, []); (0, []); (0, [47; 97]); (0, []); (0, []); (0, [47])]) by (vm_compute; reflexivity).
  split; [exact E|]. pose proof (vfs_refines_tree demo_calls 0 0) as H. rewrite E in H. apply H; [|cbn; lia].
  repeat (apply Forall_cons_iff; split; [unfold op_ok; cbn; lia|]). constructor.
Defined.

(** ** The printed path *)

Lemma split_path_bytes rel : Forall good_name rel -> split (path_bytes rel) = rel.
Proof.
  induction rel as [|c rel IH] using rev_ind; intros H; [reflexivity|]. apply Forall_app in H as [H1 H2]. apply Forall_cons_iff in H2 as [[Hc1 Hc2] _].
  rewrite path_bytes_snoc. unfold split. rewrite split_slash. change (split_loop [] (path_bytes rel)) with (split (path_bytes rel)). rewrite IH by exact H1. rewrite split_free by exact Hc2.
  now destruct c.
Qed.

Lemma path_bytes_elems rel : Forall good_name rel -> elems (path_bytes rel) = flag_last rel false.
Proof.
  intros H. unfold elems. rewrite split_path_bytes by exact H. f_equal. destruct rel as [|c rel _] using rev_ind; [reflexivity|]. apply Forall_app in H as [_ H]. apply Forall_cons_iff in H as [[Hc1 Hc2] _].
  rewrite path_bytes_snoc. change (slash :: c) with ([slash] ++ c). rewrite !trailing_app by (try discriminate; exact Hc1 || (destruct c; discriminate)). now apply trailing_free.
Qed.

Lemma path_bytes_start rel : rel <> [] -> exists r, path_bytes rel = slash :: r.
Proof. destruct rel as [|c rel]; [easy|]. intros _. cbn. eauto. Qed.

Section down.
Context (n : Z) (s : vfs) (t : tree) (P : imap) (D : dmap).
Hypothesis Hok : fs_ok n s t P D.

Lemma prefix_in p q : is_Some (P !! (p ++ q)) -> is_Some (P !! p).
Proof.
  induction q as [|c q IH] using rev_ind; [now rewrite app_nil_r|]. rewrite app_assoc. intros H. apply IH, (fo_dom _ _ _ _ _ _ Hok). destruct (fo_path _ _ _ _ _ _ Hok _ _ H) as [E _]. eauto.
Qed.

Lemma walk_down rel tr : forall p, is_Some (P !! (p ++ rel)) -> walk t p (flag_last rel tr) = Found (p ++ rel).
Proof.
  induction rel as [|c rel IH]; intros p Hp; [now rewrite app_nil_r|]. replace (p ++ c :: rel) with ((p ++ [c]) ++ rel) in * by (now rewrite <- app_assoc).
  assert (Hpc : is_Some (P !! (p ++ [c]))) by (eapply prefix_in; exact Hp). destruct (fo_path _ _ _ _ _ _ Hok _ _ Hpc) as [Hd Hc].
  assert (Ew : walk t p (flag_last (c :: rel) tr) = walk t (p ++ [c]) (flag_last rel tr)).
  { assert (E : forall l es, walk t p ((c, l) :: es) = walk t (p ++ [c]) es); [|destruct rel; apply E]. intros l es. cbn [walk]. pose proof (proj1 (orb_false_iff _ _) Hc) as [_ Hdd]. rewrite Hdd. cbn [andb].
    rewrite Hd, step_name by exact Hc. apply (fo_dom _ _ _ _ _ _ Hok) in Hpc as [k Hk]. now rewrite Hk. }
  rewrite Ew. now apply IH.
Qed.
End down.

(** C36: after any sequence of calls, [chdir] to the path that [getcwd] returns succeeds and
    stays in the same directory, as long as the path is short enough for a name buffer and
    has fewer than the 50 elements where [getcwd] stops. *)
Theorem getcwd_roundtrip os uid gid rs s w : Forall op_ok os -> Z.of_nat (length os) < 2 ^ 28 -> (boot;; v_run os) (power_on uid gid) = Done rs s ->
  getcwd (pcwd s) s = Done (0, w) s -> (length w < 255)%nat -> (length (elems w) < 50)%nat ->
  exists s', chdir true w s = Done 0 s' /\ pcwd s' = pcwd s /\ proot s' = proot s.
Proof.
  intros Ho Hl Hrun Hg Hw1 Hw2. destruct (reached os uid gid rs s Ho Hl Hrun) as (n & t & P & D & Hok & [Hg1 Hg2] & Hn).
  destruct (fo_cwd _ _ _ _ _ _ Hok) as [Hc Hck]. destruct (fo_proot _ _ _ _ _ _ Hok) as [Hr _]. pose proof (fo_below _ _ _ _ _ _ Hok) as Hpre. pose proof (getcwd_run 2 n s t P D Hok _ _ Hc Hck Hpre) as Eg. rewrite Eg in Hg. injection Hg as Ew.
  destruct Hpre as [rel Hrel]. unfold cwd_bytes in Ew. rewrite Hrel, drop_app_length in Ew. assert (Hgr : Forall good_name rel) by (rewrite Hrel in Hg2; now apply Forall_app in Hg2).
  assert (Hwalk : walk t (a_start t w) (elems w) = Found (acwd t)).
  { destruct rel as [|c rel]; [rewrite <- Ew, Hrel, app_nil_r; reflexivity|]. set (r := c :: rel) in *.
    assert (Hlen : (length r <= 50)%nat).
    { destruct (decide (length r <= 50)%nat) as [|Hlt]; [assumption|]. exfalso. rewrite <- Ew, path_bytes_elems in Hw2 by (now apply Forall_drop). rewrite <- (length_fmap fst), flag_last_fst, length_drop in Hw2. lia. }
    replace (length r - 50)%nat with 0%nat in Ew by lia. rewrite drop_0 in Ew. destruct (path_bytes_start r) as [z Ez]; [discriminate|]. rewrite <- Ew. unfold a_start. rewrite Ez, Z.eqb_refl, <- Ez.
    rewrite path_bytes_elems by exact Hgr. rewrite (walk_down n s t P D Hok); [now rewrite Hrel|]. rewrite <- Hrel. eauto. }
  pose proof (chdir_run n s t P D Hok ltac:(lia) w (elems_short w Hw1)) as H. unfold a_chdir, a_enter in H. rewrite Hwalk, Hck in H. destruct H as (s' & E & Hok'). exists s'. split; [exact E|].
  destruct (fo_cwd _ _ _ _ _ _ Hok') as [Hc' _], (fo_proot _ _ _ _ _ _ Hok') as [Hr' _]. cbn in Hc', Hr'. split; congruence.
Qed.

Definition in_a : vfs := match (boot;; v_run (firstn 6 demo_calls)) (power_on 0 0) with Done _ s => s | _ => power_on 0 0 end.

Lemma getcwd_roundtrip_witness :
  getcwd (pcwd in_a) in_a = Done (0, [47; 97]) in_a /\ exists s', chdir true [47; 97] in_a = Done 0 s' /\ pcwd s' = pcwd in_a /\ proot s' = proot in_a.
Proof.
  assert (Hg : getcwd (pcwd in_a) in_a = Done (0, [47; 97]) in_a) by (vm_compute; reflexivity). split; [exact Hg|].
  assert (E : (boot;; v_run (firstn 6 demo_calls)) (power_on 0 0) = Done [(0, []); (0, []); (0, []); (2, []); (-2, []); (0, [])] in_a) by (vm_compute; reflexivity).
  apply (getcwd_roundtrip (firstn 6 demo_calls) 0 0 _ in_a [47; 97] ltac:(repeat (apply Forall_cons_iff; split; [unfold op_ok; cbn; lia|]); constructor) ltac:(cbn; lia) E Hg); cbn; lia.
Defined.

(** ** The root of the process *)

(** [k] times "..". *)
Fixpoint ups (k : nat) (i : Z) : V Z :=
  match k with O => mret i | S k => i ← get_direntry i dotdot; ups k i end.

Lemma ups_run n s t P D p a : fs_ok n s t P D -> P !! p = Some a -> forall rel b, P !! (p ++ rel) = Some b -> nodes t !! (p ++ rel) = Some Dir -> ups (length rel) b s = Done a s.
Proof.
  intros Hok Ha rel. induction rel as [|c rel IH] using rev_ind; intros b Hb Hk; [rewrite app_nil_r, Ha in Hb; injection Hb as <-; reflexivity|].
  rewrite app_assoc in Hb, Hk. rewrite length_app, Nat.add_comm. cbn [length Nat.add ups]. destruct (fo_path _ _ _ _ _ _ Hok (p ++ rel) c) as [Hd _]; [eauto|].
  assert (is_Some (P !! (p ++ rel))) as [b' Hb'] by (apply (fo_dom _ _ _ _ _ _ Hok); eauto). vrun (get_direntry_run 2 n s t P D Hok _ _ dotdot Hb Hk).
  change (step ((p ++ rel) ++ [c]) dotdot) with (parent ((p ++ rel) ++ [c])). rewrite parent_snoc, Hb'. now apply IH.
Qed.

(** C37: a process never leaves its root: after any sequence of calls, [chroot] included, the
    working directory is below the root of the process, and so is every directory that a
    path leads to, whatever ".." it has: going up from it comes to the root.  Paths are
    shorter than the 255 bytes of a name buffer. *)
Theorem lookups_stay_below_root os uid gid rs s path i s' : Forall op_ok os -> Z.of_nat (length os) < 2 ^ 28 -> (boot;; v_run os) (power_on uid gid) = Done rs s ->
  (length path < 255)%nat -> namei path 0 0 (pcwd s) 0 false s = Done (0, i) s' ->
  (exists k, ups k (pcwd s) s = Done (proot s) s) /\
  exists x, inodes s !! i = Some x /\ (itype x = T_DIR -> exists k, ups k i s = Done (proot s) s).
Proof.
  intros Ho Hl Hrun Hlen E. destruct (reached os uid gid rs s Ho Hl Hrun) as (n & t & P & D & Hok & _ & Hn). destruct (fo_proot _ _ _ _ _ _ Hok) as [Hr _].
  assert (Hup : forall q b, P !! q = Some b -> nodes t !! q = Some Dir -> aroot t `prefix_of` q -> exists k, ups k b s = Done (proot s) s).
  { intros q b Hb Hk [rel ->]. exists (length rel). eapply ups_run; eauto. }
  split; [destruct (fo_cwd _ _ _ _ _ _ Hok); eapply Hup; eauto; apply Hok|].
  rewrite (namei_run n s t P D Hok path 0 0 0 false (elems_short _ Hlen)) in E. unfold walk_elems in E. change (Z.land 0 O_CREAT =? 0) with true in E.
  pose proof (walk_start n s t P D Hok path (elems path)) as Hw. pose proof (walk_below t (elems path) _ (start_below n s t P D Hok path)) as Hbel.
  destruct (walk t (a_start t path) (elems path)) as [q|q c l|]; [|rewrite andb_false_r in E; discriminate|discriminate].
  destruct Hw as (b & k & x & Hb & Hk & X1 & X2 & _). rewrite Hb in E. injection E as <- _. exists x. split; [exact X1|]. rewrite X2. intros Ht. destruct k; [|discriminate]. eapply Hup; eauto.
Qed.

(** mkdir a; chroot a; mkdir b; chdir b, then "../../.." *)
Definition jail_calls : list fsop := [Mkdir true [97] 0; Chroot true [97]; Mkdir true [98] 0; Chdir true [98]].

Definition jail : vfs := match (boot;; v_run jail_calls) (power_on 0 0) with Done _ s => s | _ => power_on 0 0 end.

Lemma lookups_stay_below_root_witness :
  namei [46; 46; 47; 46; 46; 47; 46; 46] 0 0 (pcwd jail) 0 false jail = Done (0, proot jail) jail /\ (proot jail =? vfs_root jail) = false /\
  (exists k, ups k (pcwd jail) jail = Done (proot jail) jail).
Proof.
  assert (En : namei [46; 46; 47; 46; 46; 47; 46; 46] 0 0 (pcwd jail) 0 false jail = Done (0, proot jail) jail) by (vm_compute; reflexivity).
  split; [exact En|]. split; [vm_compute; reflexivity|].
  assert (E : (boot;; v_run jail_calls) (power_on 0 0) = Done [(0, []); (0, []); (0, []); (0, [])] jail) by (vm_compute; reflexivity).
  apply (lookups_stay_below_root jail_calls 0 0 _ jail [46; 46; 47; 46; 46; 47; 46; 46] _ _ ltac:(repeat (apply Forall_cons_iff; split; [unfold op_ok; cbn; lia|]); constructor) ltac:(cbn; lia) E ltac:(cbn; lia) En).
Defined.
