(* ===== verification/Wait.v ===== *)
(** * kernel/wait.cpp: wait queues

    A wait queue is a circular list of the entries of the threads that wait on it;
    an entry lives on the stack of its thread.  The definitions keep the links of
    include/chariot/list_head.h: an entry is known by the address of its [item], a
    queue by the address of its [task_list].  Accesses to an entry or a link that is
    not there stop with [Fail].  [exec] at the end interleaves the threads that
    wait, the processors that wake them and the interrupts. *)

From S2P Require Import Prelude CMem State.

Definition PS_RUNNING : Z := 0.
Definition PS_INTERRUPTIBLE : Z := 1.
Definition PS_UNINTERRUPTIBLE : Z := 2.
Definition WQ_FLAG_EXCLUSIVE : Z := 1.
Definition WQ_FLAG_RUDELY : Z := 2.
Definition WAIT_RES_INTR : Z := 1.
Definition LIST_POISON1 : Z := 0x00100100.
Definition LIST_POISON2 : Z := 0x00200200.
Definition EINTR : Z := 4.

(** ** Data *)

(** [awoken] is the field of multi_wake_entry, the structure around an entry whose
    function is [multi_wait_wake_function]. *)
Inductive wait_entry_func := autoremove | multi_wake.
Record wait_entry := Entry {
  e_flags : Z;
  e_thd : Z;
  e_func : wait_entry_func;
  e_wq : Z;
  e_result : Z;
  awoken : bool }.

(** The fields of struct thread that waiting uses. *)
Record wthread := WThread { w_state : Z; rudely_awoken : bool }.

(** The links of list heads, [prev] and [next]. *)
Record world := World {
  links : gmap Z (Z * Z);
  entries : gmap Z wait_entry;
  wthreads : gmap Z wthread }.

Abbreviation WM := (SM world).

Definition get_link (a : Z) : WM (Z * Z) := sopt (fun s => links s !! a).
Definition upd_link (a : Z) (f : Z * Z -> Z * Z) : WM unit := supd (fun s =>
  l ← links s !! a; Some (World (<[a := f l]> (links s)) (entries s) (wthreads s))).
Definition set_prev (a v : Z) : WM unit := upd_link a (fun l => (v, snd l)).
Definition set_next (a v : Z) : WM unit := upd_link a (fun l => (fst l, v)).
Definition get_entry (e : Z) : WM wait_entry := sopt (fun s => entries s !! e).
Definition upd_entry (e : Z) (f : wait_entry -> wait_entry) : WM unit := supd (fun s =>
  x ← entries s !! e; Some (World (links s) (<[e := f x]> (entries s)) (wthreads s))).
Definition get_wthread (t : Z) : WM wthread := sopt (fun s => wthreads s !! t).
Definition upd_wthread (t : Z) (f : wthread -> wthread) : WM unit := supd (fun s =>
  x ← wthreads s !! t; Some (World (links s) (entries s) (<[t := f x]> (wthreads s)))).
Definition wassert (b : bool) : WM unit := if b then mret tt else sfail.

Definition set_flags (v : Z) (x : wait_entry) := Entry v (e_thd x) (e_func x) (e_wq x) (e_result x) (awoken x).
Definition set_func (v : wait_entry_func) (x : wait_entry) := Entry (e_flags x) (e_thd x) v (e_wq x) (e_result x) (awoken x).
Definition set_wq (v : Z) (x : wait_entry) := Entry (e_flags x) (e_thd x) (e_func x) v (e_result x) (awoken x).
Definition set_result (v : Z) (x : wait_entry) := Entry (e_flags x) (e_thd x) (e_func x) (e_wq x) v (awoken x).
Definition set_awoken (x : wait_entry) := Entry (e_flags x) (e_thd x) (e_func x) (e_wq x) (e_result x) true.

(** ** struct list_head *)

Definition list_init (a : Z) : WM unit := set_next a a;; set_prev a a.
Definition list_add_between (n prev next : Z) : WM unit :=
  set_prev next n;; set_next n next;; set_prev n prev;; set_next prev n.
Definition list_add (head n : Z) : WM unit := l ← get_link head; list_add_between n head (snd l).
Definition list_add_tail (head n : Z) : WM unit := l ← get_link head; list_add_between n (fst l) head.
Definition list_del_between (prev next : Z) : WM unit := set_prev next prev;; set_next prev next.
Definition list_del (a : Z) : WM unit :=
  l ← get_link a;
  list_del_between (fst l) (snd l);;
  set_next a LIST_POISON1;;
  set_prev a LIST_POISON2.
Definition list_del_init (a : Z) : WM unit := list_del a;; list_init a.
Definition is_empty_careful (a : Z) : WM bool :=
  l ← get_link a;
  let onext := snd l in
  if onext =? a then l ← get_link a; mret (onext =? fst l) else mret false.

(** ** The state of a thread *)

Definition thread_set_state (t st : Z) : WM unit := upd_wthread t (fun x => WThread st (rudely_awoken x)).
Definition unblock (t : Z) (interrupt : bool) : WM unit :=
  upd_wthread t (fun x => WThread (w_state x) interrupt);;
  thread_set_state t PS_RUNNING.
Definition interrupt (t : Z) : WM unit := unblock t true.

(** ** Entering a queue *)

(** The constructors of the entry and of its [item], for the thread that runs. *)
Definition new_entry (e t : Z) : WM unit := modify (fun s =>
  World (<[e := (e, e)]> (links s)) (<[e := Entry 0 t autoremove 0 0 false]> (entries s)) (wthreads s)).
(** The stack frame goes. *)
Definition drop_entry (e : Z) : WM unit := modify (fun s =>
  World (delete e (links s)) (delete e (entries s)) (wthreads s)).

(** The part that wait, wait_exclusive and the functions below have in common: the
    lock is held from the change of the state on. *)
Definition enter (q e st : Z) : WM unit :=
  x ← get_entry e;
  upd_entry e (set_wq q);;
  upd_entry e (set_flags (Z.ldiff (e_flags x) WQ_FLAG_EXCLUSIVE));;
  thread_set_state (e_thd x) st;;
  list_add q e.
Definition enter_exclusive (q e st : Z) : WM unit :=
  x ← get_entry e;
  upd_entry e (set_wq q);;
  upd_entry e (set_flags (Z.lor (e_flags x) WQ_FLAG_EXCLUSIVE));;
  thread_set_state (e_thd x) st;;
  list_add_tail q e.

Definition wait_state (interruptible : bool) : Z := if interruptible then PS_INTERRUPTIBLE else PS_UNINTERRUPTIBLE.
Definition prepare_to_wait (q e : Z) (interruptible : bool) : WM unit := enter q e (wait_state interruptible).
Definition prepare_to_wait_exclusive (q e : Z) (interruptible : bool) : WM unit := enter_exclusive q e (wait_state interruptible).

(** wait and wait_exclusive up to [ent->start()]. *)
Definition wait_enter (q e st : Z) : WM unit :=
  x ← get_entry e; wassert (e_wq x =? 0);; enter q e st.
Definition wait_exclusive_enter (q e st : Z) : WM unit :=
  x ← get_entry e; wassert (e_wq x =? 0);; enter_exclusive q e st.

(** multi_wait up to the yield: the loop under the locks that fills the entries,
    the state, the loop that links them. *)
Fixpoint multi_fill (qes : list (Z * Z)) (t : Z) (exclusive : bool) : WM unit :=
  match qes with
  | [] => mret tt
  | (q, e) :: qes =>
      new_entry e t;;
      upd_entry e (set_wq q);;
      upd_entry e (set_func multi_wake);;
      (if exclusive then upd_entry e (set_flags WQ_FLAG_EXCLUSIVE) else mret tt);;
      multi_fill qes t exclusive
  end.
Fixpoint multi_link (qes : list (Z * Z)) : WM unit :=
  match qes with
  | [] => mret tt
  | (q, e) :: qes => list_add q e;; multi_link qes
  end.
Definition multi_enter (qes : list (Z * Z)) (t : Z) (exclusive : bool) : WM unit :=
  multi_fill qes t exclusive;;
  thread_set_state t PS_INTERRUPTIBLE;;
  multi_link qes.

(** ** Leaving *)

(** wait_entry::start after the yield. *)
Definition start_return (e : Z) : WM Z :=
  x ← get_entry e;
  t ← get_wthread (e_thd x);
  (if rudely_awoken t then upd_entry e (set_result (Z.lor (e_result x) WAIT_RES_INTR)) else mret tt);;
  x ← get_entry e;
  mret (u8 (e_result x)).

Definition interrupted (r : Z) : bool := negb (Z.land r WAIT_RES_INTR =? 0).

(** multi_wait after the yield, over the entries from index [i] on. *)
Fixpoint multi_which (es : list Z) (i : Z) : WM Z :=
  match es with
  | [] => mret (- EINTR)
  | e :: es =>
      x ← get_entry e;
      if awoken x then mret (if interrupted (u8 (e_result x)) then - EINTR else i)
      else multi_which es (i + 1)
  end.

Definition finish (q e : Z) : WM unit :=
  x ← get_entry e;
  if e_wq x =? 0 then mret tt
  else
    wassert (e_wq x =? q);;
    thread_set_state (e_thd x) PS_RUNNING;;
    b ← is_empty_careful e;
    (if (b : bool) then mret tt else list_del_init e);;
    upd_entry e (set_wq 0).
Definition destroy_entry (e : Z) : WM unit :=
  x ← get_entry e;
  (if e_wq x =? 0 then mret tt else finish (e_wq x) e);;
  drop_entry e.

(** ** Waking *)

(** What the function of an entry does before it unlinks it. *)
Definition wake_unblock (e : Z) : WM unit := x ← get_entry e; unblock (e_thd x) false.
Definition wake_result (e : Z) : WM unit :=
  x ← get_entry e;
  upd_entry e (set_result 0);;
  t ← get_wthread (e_thd x);
  (if rudely_awoken t then upd_entry e (fun y => set_result (Z.lor (e_result y) WAIT_RES_INTR) y) else mret tt);;
  upd_entry e (fun y => set_flags (Z.lor (e_flags y) WQ_FLAG_RUDELY) y).

Definition autoremove_wake_function (e : Z) : WM bool :=
  wake_unblock e;;
  wake_result e;;
  list_del_init e;;
  mret true.
Definition multi_wait_wake_function (e : Z) : WM bool :=
  upd_entry e set_awoken;;
  autoremove_wake_function e.
Definition call_func (e : Z) : WM bool :=
  x ← get_entry e;
  match e_func x with autoremove => autoremove_wake_function e | multi_wake => multi_wait_wake_function e end.

Definition exclusive_flag (flags : Z) : bool := negb (Z.land flags WQ_FLAG_EXCLUSIVE =? 0).

(** [woke_up && (flags & WQ_FLAG_EXCLUSIVE) && !--nr_exclusive]: whether the loop
    ends, and [nr_exclusive]. *)
Definition count_exclusive (woke_up : bool) (flags nr_exclusive : Z) : bool * Z :=
  if woke_up && exclusive_flag flags
  then (s32 (nr_exclusive - 1) =? 0, s32 (nr_exclusive - 1))
  else (false, nr_exclusive).

(** The body of list_for_each_entry_safe, with [curr], [next], [nr_exclusive] and
    [woke_someone]. *)
Definition wake_body (q : Z) (v : Z * Z * Z * bool) : WM (ctl (Z * Z * Z * bool) bool) :=
  let '(curr, next, nr, woke) := v in
  if curr =? q then mret (Break woke)
  else
    x ← get_entry curr;
    woke_up ← call_func curr;
    let woke := woke_up || woke in
    let '(stop, nr) := count_exclusive woke_up (e_flags x) nr in
    if (stop : bool) then mret (Break woke)
    else l ← get_link next; mret (Next (next, snd l, nr, woke)).

(** The loop visits every list head once at most.  The result is [woke_someone]. *)
Definition wake_up_common (q nr_exclusive : Z) : WM bool :=
  fuel ← gets (fun s => S (size (links s)));
  h ← get_link q;
  c ← get_link (snd h);
  sloop fuel (wake_body q) (snd h, snd c, nr_exclusive, false).
Definition wake_up (q : Z) : WM bool := wake_up_common q 1.
Definition wake_up_all (q : Z) : WM bool := wake_up_common q 0.

(** ** Interleaving

    A section under the lock of a queue is one step for those who take the lock.
    The owner of an entry reads the links of its own entry without the lock, and
    may then give up the entry: the steps of the destructor and of a wake-up are
    cut wherever that can be seen.  A thread that is asleep comes back from
    [sched::yield] when it is PS_RUNNING. *)

(** Where a thread is, with the entries it holds in the order in which they are
    destroyed: at work; in [sched::yield] or before it; about to destroy them; in
    is_empty_careful of the first, between its two reads; about to lock the queue
    of the first. *)
Inductive pc :=
| Awake
| Asleep (multi : bool) (es : list Z)
| Leaving (es : list Z)
| Looking (e : Z) (es : list Z)
| Unlinking (e : Z) (es : list Z).

(** Who holds the lock of a queue to wake threads: the variables of
    wake_up_common and the position in the body of its loop. *)
Record waker := Waker { w_curr : Z; w_next : Z; w_nr : Z; w_flags : Z; w_phase : nat }.

Record system := System { mem : world; pcs : gmap Z pc; wakers : gmap Z waker }.

(** The two halves of is_empty_careful, and what finish and the destructor do
    around them. *)
Definition finish_begin (e : Z) : WM bool :=
  x ← get_entry e;
  wassert (negb (e_wq x =? 0));;
  thread_set_state (e_thd x) PS_RUNNING;;
  l ← get_link e;
  mret (snd l =? e).
Definition finish_look (e : Z) : WM bool := l ← get_link e; mret (e =? fst l).
Definition finish_end (e : Z) : WM unit := upd_entry e (set_wq 0);; drop_entry e.

(** The first step of the body of the loop of wake_up_common. *)
Definition wake_first (e : Z) : WM Z :=
  x ← get_entry e;
  (match e_func x with autoremove => mret tt | multi_wake => upd_entry e set_awoken end);;
  wake_unblock e;;
  mret (e_flags x).

(** One step of the holder [w] of the lock of [q]; [None] when it lets go. *)
Definition wake_step (q : Z) (w : waker) : WM (option waker) :=
  let '(Waker curr next nr flags phase) := w in
  match phase with
  | 0%nat =>
      if curr =? q then mret None
      else flags ← wake_first curr; mret (Some (Waker curr next nr flags 1))
  | 1%nat => wake_result curr;; mret (Some (Waker curr next nr flags 2))
  | 2%nat => list_del curr;; mret (Some (Waker curr next nr flags 3))
  | 3%nat => set_next curr curr;; mret (Some (Waker curr next nr flags 4))
  | 4%nat => set_prev curr curr;; mret (Some (Waker curr next nr flags 5))
  | _ =>
      let '(stop, nr) := count_exclusive true flags nr in
      if stop then mret None
      else l ← get_link next; mret (Some (Waker next (snd l) nr 0 0))
  end.
Definition wake_start (q nr : Z) : WM waker :=
  h ← get_link q;
  c ← get_link (snd h);
  mret (Waker (snd h) (snd c) nr 0 0).

Inductive op :=
| Wait (t q e st : Z)
| WaitExclusive (t q e st : Z)
| MultiWait (t : Z) (qes : list (Z * Z)) (exclusive : bool)
| Resume (t : Z)
| Cancel (t : Z)
| Look (t : Z)
| LookAgain (t : Z)
| Unlink (t : Z)
| Lock (q nr : Z)
| Wake (q : Z)
| Interrupt (t : Z).

Definition on_mem {A} (k : WM A) (y : system) : option (A * system) :=
  match k (mem y) with Done a s => Some (a, System s (pcs y) (wakers y)) | _ => None end.
Definition goto (t : Z) (c : pc) (y : system) : system := System (mem y) (<[t := c]> (pcs y)) (wakers y).
Definition set_waker (q : Z) (w : option waker) (y : system) : system :=
  System (mem y) (pcs y) (match w with Some w => <[q := w]> (wakers y) | None => delete q (wakers y) end).

Definition leave (es : list Z) : pc := match es with [] => Awake | _ => Leaving es end.

(** [wait_entry::start] or [multi_wait] after the yield. *)
Definition after_yield (multi : bool) (es : list Z) : WM Z :=
  if multi then multi_which es 0
  else match es with e :: _ => start_return e | [] => mret 0 end.

(** [None] is a fault, or a step that the position of the thread does not have. *)
Definition exec (o : op) (y : system) : option system :=
  match o with
  | Wait t q e st =>
      '(_, y) ← on_mem (new_entry e t;; wait_enter q e st) y;
      Some (goto t (Asleep false [e]) y)
  | WaitExclusive t q e st =>
      '(_, y) ← on_mem (new_entry e t;; wait_exclusive_enter q e st) y;
      Some (goto t (Asleep false [e]) y)
  | MultiWait t qes exclusive =>
      '(_, y) ← on_mem (multi_enter qes t exclusive) y;
      Some (goto t (Asleep true (snd <$> qes)) y)
  | Resume t =>
      match pcs y !! t with
      | Some (Asleep multi es) =>
          '(_, y) ← on_mem (after_yield multi es) y;
          Some (goto t (leave (reverse es)) y)
      | _ => None
      end
  | Cancel t =>
      match pcs y !! t with
      | Some (Asleep multi es) => Some (goto t (leave (reverse es)) y)
      | _ => None
      end
  | Look t =>
      match pcs y !! t with
      | Some (Leaving (e :: es)) =>
          '(b, y) ← on_mem (finish_begin e) y;
          Some (goto t (if (b : bool) then Looking e es else Unlinking e es) y)
      | _ => None
      end
  | LookAgain t =>
      match pcs y !! t with
      | Some (Looking e es) =>
          '(b, y) ← on_mem (finish_look e) y;
          if (b : bool) then '(_, y) ← on_mem (finish_end e) y; Some (goto t (leave es) y)
          else Some (goto t (Unlinking e es) y)
      | _ => None
      end
  | Unlink t =>
      match pcs y !! t with
      | Some (Unlinking e es) =>
          '(_, y) ← on_mem (list_del_init e;; finish_end e) y;
          Some (goto t (leave es) y)
      | _ => None
      end
  | Lock q nr => '(w, y) ← on_mem (wake_start q nr) y; Some (set_waker q (Some w) y)
  | Wake q =>
      w ← wakers y !! q;
      '(w, y) ← on_mem (wake_step q w) y;
      Some (set_waker q w y)
  | Interrupt t => '(_, y) ← on_mem (interrupt t) y; Some y
  end.

(** ** Who may do what *)

Definition state_of (y : system) (t : Z) : option Z := w_state <$> wthreads (mem y) !! t.
Definition is_head (y : system) (q : Z) : Prop := is_Some (links (mem y) !! q) /\ entries (mem y) !! q = None.
(** A new entry is at an address nothing else has. *)
Definition fresh_entry (y : system) (e : Z) : Prop :=
  links (mem y) !! e = None /\ e <> 0 /\ e <> LIST_POISON1 /\ e <> LIST_POISON2.

(** A lock that is wanted is free; a thread does what its position says. *)
Definition legal (o : op) (y : system) : Prop :=
  match o with
  | Wait t q e st | WaitExclusive t q e st =>
      pcs y !! t = Some Awake /\ is_head y q /\ wakers y !! q = None /\ fresh_entry y e
  | MultiWait t qes exclusive =>
      pcs y !! t = Some Awake /\ NoDup (fst <$> qes) /\ NoDup (snd <$> qes) /\
      forall q e, (q, e) ∈ qes -> is_head y q /\ wakers y !! q = None /\ fresh_entry y e
  | Resume t => (exists multi es, pcs y !! t = Some (Asleep multi es)) /\ state_of y t = Some PS_RUNNING
  | Cancel t => exists e, pcs y !! t = Some (Asleep false [e])
  | Look t => exists e es, pcs y !! t = Some (Leaving (e :: es))
  | LookAgain t => exists e es, pcs y !! t = Some (Looking e es)
  | Unlink t => exists e es, pcs y !! t = Some (Unlinking e es) /\
      forall x, entries (mem y) !! e = Some x -> wakers y !! e_wq x = None
  | Lock q nr => is_head y q /\ wakers y !! q = None
  | Wake q => is_Some (wakers y !! q)
  | Interrupt t => is_Some (pcs y !! t)
  end.

Inductive reach (y : system) : system -> Prop :=
| reach_start : reach y y
| reach_step o y1 y2 : reach y y1 -> legal o y1 -> exec o y1 = Some y2 -> reach y y2.

(** Empty queues at [qs], threads [ts] at work. *)
Definition boot (qs ts : list Z) : system :=
  System (World (list_to_map ((fun q => (q, (q, q))) <$> qs)) ∅ (list_to_map ((fun t => (t, WThread PS_RUNNING false)) <$> ts)))
    (list_to_map ((fun t => (t, Awake)) <$> ts)) ∅.
