(* ===== verification/WaitProps.v ===== *)
(** * The wait queues: rings of entries, waking, and every interleaving

    [ring] says which entries a queue links.  The first part proves what the list
    operations do to rings, the second what a wake-up does when it runs alone, the
    third that no interleaving reaches a dead entry or loses a wake-up. *)

From S2P Require Import Prelude CMem State Dll Wait.

(** ** Half links *)

Definition nx (L : gmap Z (Z * Z)) (a : Z) : option Z := snd <$> L !! a.
Definition pv (L : gmap Z (Z * Z)) (a : Z) : option Z := fst <$> L !! a.
Definition setn (a v : Z) (L : gmap Z (Z * Z)) : gmap Z (Z * Z) := alter (fun l => (fst l, v)) a L.
Definition setp (a v : Z) (L : gmap Z (Z * Z)) : gmap Z (Z * Z) := alter (fun l => (v, snd l)) a L.

Lemma setn_other a v L x : x <> a -> setn a v L !! x = L !! x.
Proof. intros H. unfold setn. now rewrite lookup_alter_ne. Qed.
Lemma setp_other a v L x : x <> a -> setp a v L !! x = L !! x.
Proof. intros H. unfold setp. now rewrite lookup_alter_ne. Qed.
Lemma setn_is a v L x : is_Some (setn a v L !! x) <-> is_Some (L !! x).
Proof. unfold setn. destruct (decide (x = a)) as [->|H]; [rewrite lookup_alter_eq, fmap_is_Some; tauto|now rewrite lookup_alter_ne]. Qed.
Lemma setp_is a v L x : is_Some (setp a v L !! x) <-> is_Some (L !! x).
Proof. unfold setp. destruct (decide (x = a)) as [->|H]; [rewrite lookup_alter_eq, fmap_is_Some; tauto|now rewrite lookup_alter_ne]. Qed.

Lemma nx_setp a v L x : nx (setp a v L) x = nx L x.
Proof. unfold nx, setp. destruct (decide (x = a)) as [->|H]; [rewrite lookup_alter_eq; now destruct (L !! a)|now rewrite lookup_alter_ne]. Qed.
Lemma pv_setn a v L x : pv (setn a v L) x = pv L x.
Proof. unfold pv, setn. destruct (decide (x = a)) as [->|H]; [rewrite lookup_alter_eq; now destruct (L !! a)|now rewrite lookup_alter_ne]. Qed.
Lemma nx_setn a v L x : is_Some (L !! a) -> nx (setn a v L) x = if decide (x = a) then Some v else nx L x.
Proof. intros [l E]. unfold nx, setn. case_decide as H; [subst; rewrite lookup_alter_eq, E; reflexivity|now rewrite lookup_alter_ne]. Qed.
Lemma pv_setp a v L x : is_Some (L !! a) -> pv (setp a v L) x = if decide (x = a) then Some v else pv L x.
Proof. intros [l E]. unfold pv, setp. case_decide as H; [subst; rewrite lookup_alter_eq, E; reflexivity|now rewrite lookup_alter_ne]. Qed.

Lemma link_halves L a p n : L !! a = Some (p, n) <-> pv L a = Some p /\ nx L a = Some n.
Proof. unfold pv, nx. destruct (L !! a) as [[p' n']|]; cbn; split; [now intros [= -> ->]|intros [[= ->] [= ->]]; reflexivity|discriminate|now intros []]. Qed.

(** ** Rings *)

(** The links of a ring, each from a node to the next one. *)
Definition edges (a : Z) (l : list Z) (b : Z) : list (Z * Z) := zip (a :: l) (l ++ [b]).
Definition linked_by (L : gmap Z (Z * Z)) (e : Z * Z) : Prop := nx L (fst e) = Some (snd e) /\ pv L (snd e) = Some (fst e).
Definition ring (L : gmap Z (Z * Z)) (q : Z) (l : list Z) : Prop := NoDup (q :: l) /\ forall e, e ∈ edges q l q -> linked_by L e.

Lemma edges_cons a x l b : edges a (x :: l) b = (a, x) :: edges x l b.
Proof. reflexivity. Qed.

(** A node between [l1] and [l2] splits one edge in two. *)
Lemma edges_mid b l1 : forall a l2, exists E1 E2,
  edges a (l1 ++ l2) b = E1 ++ (last_addr id a l1, hd_addr id b l2) :: E2 /\
  forall x, edges a (l1 ++ x :: l2) b = E1 ++ (last_addr id a l1, x) :: (x, hd_addr id b l2) :: E2.
Proof.
  induction l1 as [|y l1 IH]; intros a l2.
  - exists [], (match l2 with [] => [] | z :: r => edges z r b end). split; [|intros x]; destruct l2; reflexivity.
  - destruct (IH y l2) as (E1 & E2 & H1 & H2). exists ((a, y) :: E1), E2. cbn [app]. rewrite edges_cons, H1. split; [reflexivity|].
    intros x. rewrite edges_cons, H2. reflexivity.
Qed.

Lemma edges_fst a l b : fst <$> edges a l b = a :: l.
Proof. unfold edges. apply fst_zip. rewrite length_app. cbn. lia. Qed.
Lemma edges_snd a l b : snd <$> edges a l b = l ++ [b].
Proof. unfold edges. apply snd_zip. rewrite length_app. cbn. lia. Qed.

Lemma ring_is L q l x : ring L q l -> x ∈ q :: l -> is_Some (L !! x).
Proof.
  intros [_ H] Hx. rewrite <- (edges_fst q l q) in Hx. apply list_elem_of_fmap in Hx as ([x' y] & -> & Hx). apply H in Hx as [Hx _]. unfold nx in Hx. cbn in *.
  destruct (L !! x'); [eauto|discriminate].
Qed.

Lemma ring_frame L L' q l : ring L q l -> (forall x, x ∈ q :: l -> L' !! x = L !! x) -> ring L' q l.
Proof.
  intros [Hn H] HL. split; [exact Hn|]. intros [x y] He. specialize (H _ He) as [H1 H2]. cbn in *.
  assert (Hx : x ∈ q :: l) by (rewrite <- (edges_fst q l q); apply list_elem_of_fmap; now exists (x, y)).
  assert (Hy : y ∈ q :: l). { assert (Hy : y ∈ l ++ [q]) by (rewrite <- (edges_snd q l q); apply list_elem_of_fmap; now exists (x, y)). set_solver. }
  unfold linked_by, nx, pv in *. cbn. now rewrite !HL.
Qed.

(** The edges of a ring have one source and one target each. *)
Lemma edges_nodup q l : NoDup (q :: l) -> NoDup (fst <$> edges q l q) /\ NoDup (snd <$> edges q l q).
Proof.
  intros H. rewrite edges_fst, edges_snd. split; [exact H|]. apply list.NoDup_cons in H as [H1 H2]. apply list.NoDup_app. split; [exact H2|]. split; [|apply NoDup_singleton].
  intros x Hx ->%list_elem_of_singleton. tauto.
Qed.

Lemma ring_last L q l : ring L q l -> pv L q = Some (last_addr id q l).
Proof.
  intros [_ H]. destruct (edges_mid q l q []) as (E1 & E2 & E & _). rewrite app_nil_r in E. apply (H (last_addr id q l, q)). rewrite E. apply elem_of_app. right. left.
Qed.
Lemma ring_first L q l : ring L q l -> nx L q = Some (hd_addr id q l).
Proof. intros [_ H]. apply (H (q, hd_addr id q l)). destruct l; left. Qed.
Lemma ring_links L q l1 x l2 : ring L q (l1 ++ x :: l2) -> L !! x = Some (last_addr id q l1, hd_addr id q l2).
Proof.
  intros [_ H]. destruct (edges_mid q l1 q l2) as (E1 & E2 & _ & E). specialize (E x). apply link_halves.
  split; [apply (H (last_addr id q l1, x))|apply (H (x, hd_addr id q l2))]; rewrite E; apply elem_of_app; right; [left|right; left].
Qed.

Lemma edge_ends q l a b : (a, b) ∈ edges q l q -> a ∈ q :: l /\ b ∈ q :: l.
Proof.
  intros H. split; [rewrite <- (edges_fst q l q); apply list_elem_of_fmap; now exists (a, b)|].
  assert (Hb : b ∈ l ++ [q]) by (rewrite <- (edges_snd q l q); apply list_elem_of_fmap; now exists (a, b)). clear H. set_solver.
Qed.

Lemma in_rest {A B} (f : A -> B) E1 E2 x y : NoDup (f <$> E1 ++ x :: E2) -> y ∈ E1 ++ E2 -> f y <> f x.
Proof.
  intros H Hy E. rewrite <- Permutation_middle, fmap_cons, E in H || rewrite <- Permutation_middle, fmap_cons in H.
  apply list.NoDup_cons in H as [H _]. apply H. apply list_elem_of_fmap. exists y. now rewrite E.
Qed.

Lemma edge_rest q l E1 E2 p n a b : NoDup (q :: l) -> edges q l q = E1 ++ (p, n) :: E2 -> (a, b) ∈ E1 ++ E2 ->
  (a, b) ∈ edges q l q /\ a <> p /\ b <> n.
Proof.
  intros Hn E Hab. destruct (edges_nodup q l Hn) as [D1 D2]. rewrite E in *. split; [rewrite elem_of_app, elem_of_cons; apply elem_of_app in Hab; tauto|].
  split; [exact (in_rest fst _ _ _ _ D1 Hab)|exact (in_rest snd _ _ _ _ D2 Hab)].
Qed.

Lemma around q l1 l2 : last_addr id q l1 ∈ q :: l1 ++ l2 /\ hd_addr id q l2 ∈ q :: l1 ++ l2.
Proof.
  rewrite !elem_of_cons, !elem_of_app. destruct (last_addr_in q l1) as [->|], (hd_addr_in q l2) as [->|]; tauto.
Qed.

(** [x] goes between [l1] and [l2]. *)
Lemma ring_insert L L' q l1 x l2 : ring L q (l1 ++ l2) -> x ∉ q :: l1 ++ l2 ->
  (forall y, nx L' y = if decide (y = x) then Some (hd_addr id q l2) else if decide (y = last_addr id q l1) then Some x else nx L y) ->
  (forall y, pv L' y = if decide (y = x) then Some (last_addr id q l1) else if decide (y = hd_addr id q l2) then Some x else pv L y) ->
  ring L' q (l1 ++ x :: l2).
Proof.
  intros [Hn H] Hx Hnx Hpv. split.
  { rewrite <- Permutation_middle, list.NoDup_cons, list.NoDup_cons. apply list.NoDup_cons in Hn as [N1 N2]. rewrite !elem_of_cons in *. tauto || set_solver. }
  destruct (around q l1 l2) as [Hp Hh]. destruct (edges_mid q l1 q l2) as (E1 & E2 & E & Ex). specialize (Ex x). rewrite Ex.
  assert (Hr : forall a b, (a, b) ∈ E1 ++ E2 -> linked_by L' (a, b)).
  { intros a b Hab. destruct (edge_rest _ _ _ _ _ _ _ _ Hn E Hab) as (Hab' & Ha & Hb). destruct (edge_ends _ _ _ _ Hab') as [Ha' Hb']. destruct (H _ Hab') as [H1 H2].
    split; cbn; [rewrite Hnx|rewrite Hpv]; (rewrite decide_False by congruence); now rewrite decide_False by assumption. }
  intros [a b] [Hab|[[= -> ->]|[[= -> ->]|Hab]%elem_of_cons]%elem_of_cons]%elem_of_app; [apply Hr, elem_of_app; now left| | |apply Hr, elem_of_app; now right]; split; cbn; rewrite ?Hnx, ?Hpv.
  - rewrite decide_False by congruence. now rewrite decide_True.
  - now rewrite decide_True.
  - now rewrite decide_True.
  - rewrite decide_False by congruence. now rewrite decide_True.
Qed.

(** [x] goes away. *)
Lemma ring_remove L L' q l1 x l2 : ring L q (l1 ++ x :: l2) ->
  (forall y, y <> x -> nx L' y = if decide (y = last_addr id q l1) then Some (hd_addr id q l2) else nx L y) ->
  (forall y, y <> x -> pv L' y = if decide (y = hd_addr id q l2) then Some (last_addr id q l1) else pv L y) ->
  ring L' q (l1 ++ l2).
Proof.
  intros [Hn H] Hnx Hpv. rewrite <- Permutation_middle, list.NoDup_cons, list.NoDup_cons in Hn. destruct Hn as (N1 & N2 & N3).
  assert (Hn : NoDup (q :: l1 ++ l2)) by (apply list.NoDup_cons; split; [|exact N3]; rewrite elem_of_cons in N1; tauto).
  assert (Hx : x ∉ q :: l1 ++ l2) by (rewrite elem_of_cons in *; intros [->|]; tauto).
  split; [exact Hn|]. destruct (around q l1 l2) as [Hp Hh]. destruct (edges_mid q l1 q l2) as (E1 & E2 & E & Ex). specialize (Ex x). rewrite Ex in H. rewrite E.
  assert (Hr : forall a b, (a, b) ∈ E1 ++ E2 -> linked_by L' (a, b)).
  { intros a b Hab. destruct (edge_rest _ _ _ _ _ _ _ _ Hn E Hab) as (Hab' & Ha & Hb). destruct (edge_ends _ _ _ _ Hab') as [Ha' Hb'].
    destruct (H (a, b)) as [H1 H2]; [apply elem_of_app in Hab; rewrite elem_of_app, !elem_of_cons; tauto|].
    split; cbn; [rewrite Hnx by congruence|rewrite Hpv by congruence]; now rewrite decide_False by assumption. }
  intros [a b] [Hab|[[= -> ->]|Hab]%elem_of_cons]%elem_of_app; [apply Hr, elem_of_app; now left| |apply Hr, elem_of_app; now right]. split; cbn.
  - rewrite Hnx by congruence. now rewrite decide_True.
  - rewrite Hpv by congruence. now rewrite decide_True.
Qed.

(** ** What the operations do *)

Definition with_links (L : gmap Z (Z * Z)) (s : world) : world := World L (entries s) (wthreads s).
Definition with_entries (E : gmap Z wait_entry) (s : world) : world := World (links s) E (wthreads s).
Definition with_threads (T : gmap Z wthread) (s : world) : world := World (links s) (entries s) T.

Ltac wrun E := rewrite (bind_done _ _ _ _ _ E).
Ltac wret := match goal with |- context [(mret ?a ≫= ?f) ?s] => change ((mret a ≫= f) s) with (f a s); cbv beta end.
Ltac wget := match goal with |- context [(gets ?g ≫= ?f) ?s] => change ((gets g ≫= f) s) with (f (g s) s); cbv beta end.

Lemma get_link_run a l s : links s !! a = Some l -> get_link a s = Done l s.
Proof. intros E. unfold get_link, sopt. now rewrite E. Qed.
Lemma set_next_run a v s : is_Some (links s !! a) -> set_next a v s = Done tt (with_links (setn a v (links s)) s).
Proof. intros [l E]. unfold set_next, upd_link, supd. rewrite E. cbn. unfold with_links. do 2 f_equal. unfold setn. apply map_eq. intros x. destruct (decide (x = a)) as [->|H]; [now rewrite lookup_insert_eq, lookup_alter_eq, E|now rewrite lookup_insert_ne, lookup_alter_ne]. Qed.
Lemma set_prev_run a v s : is_Some (links s !! a) -> set_prev a v s = Done tt (with_links (setp a v (links s)) s).
Proof. intros [l E]. unfold set_prev, upd_link, supd. rewrite E. cbn. unfold with_links. do 2 f_equal. unfold setp. apply map_eq. intros x. destruct (decide (x = a)) as [->|H]; [now rewrite lookup_insert_eq, lookup_alter_eq, E|now rewrite lookup_insert_ne, lookup_alter_ne]. Qed.
Lemma get_entry_run e x s : entries s !! e = Some x -> get_entry e s = Done x s.
Proof. intros E. unfold get_entry, sopt. now rewrite E. Qed.
Lemma upd_entry_run e f x s : entries s !! e = Some x -> upd_entry e f s = Done tt (with_entries (<[e := f x]> (entries s)) s).
Proof. intros E. unfold upd_entry, supd. now rewrite E. Qed.
Lemma get_wthread_run t x s : wthreads s !! t = Some x -> get_wthread t s = Done x s.
Proof. intros E. unfold get_wthread, sopt. now rewrite E. Qed.
Lemma upd_wthread_run t f x s : wthreads s !! t = Some x -> upd_wthread t f s = Done tt (with_threads (<[t := f x]> (wthreads s)) s).
Proof. intros E. unfold upd_wthread, supd. now rewrite E. Qed.

Ltac linked_now := cbn [links with_links]; repeat first [apply setn_is | apply setp_is]; eauto.

Definition put_between (n prev next : Z) (L : gmap Z (Z * Z)) := setn prev n (setp n prev (setn n next (setp next n L))).
Definition cut_between (prev next : Z) (L : gmap Z (Z * Z)) := setn prev next (setp next prev L).
Definition poison (a : Z) (L : gmap Z (Z * Z)) := setp a LIST_POISON2 (setn a LIST_POISON1 L).
Definition self (a : Z) (L : gmap Z (Z * Z)) := setp a a (setn a a L).

Lemma list_init_run a s : is_Some (links s !! a) -> list_init a s = Done tt (with_links (self a (links s)) s).
Proof. intros H. unfold list_init. wrun (set_next_run a a s H). rewrite set_prev_run; [reflexivity|linked_now]. Qed.

Lemma add_between_run n p x s : is_Some (links s !! n) -> is_Some (links s !! p) -> is_Some (links s !! x) ->
  list_add_between n p x s = Done tt (with_links (put_between n p x (links s)) s).
Proof.
  intros Hn Hp Hx. unfold list_add_between. wrun (set_prev_run x n s Hx). wrun (set_next_run n x (with_links (setp x n (links s)) s) ltac:(linked_now)).
  wrun (set_prev_run n p (with_links (setn n x (setp x n (links s))) s) ltac:(linked_now)). rewrite set_next_run; [reflexivity|linked_now].
Qed.

Lemma list_del_run a p n s : links s !! a = Some (p, n) -> is_Some (links s !! p) -> is_Some (links s !! n) ->
  list_del a s = Done tt (with_links (poison a (cut_between p n (links s))) s).
Proof.
  intros E Hp Hn. unfold list_del. wrun (get_link_run _ _ _ E). unfold list_del_between. cbn [fst snd].
  assert (E1 : (set_prev n p;; set_next p n) s = Done tt (with_links (cut_between p n (links s)) s)).
  { wrun (set_prev_run n p s Hn). rewrite set_next_run; [reflexivity|linked_now]. }
  wrun E1. wrun (set_next_run a LIST_POISON1 (with_links (cut_between p n (links s)) s) ltac:(unfold cut_between; linked_now)). rewrite set_prev_run; [reflexivity|unfold cut_between; linked_now].
Qed.

Lemma del_init_run a p n s : links s !! a = Some (p, n) -> is_Some (links s !! p) -> is_Some (links s !! n) ->
  list_del_init a s = Done tt (with_links (self a (poison a (cut_between p n (links s)))) s).
Proof.
  intros E Hp Hn. unfold list_del_init. wrun (list_del_run _ _ _ _ E Hp Hn). rewrite list_init_run; [reflexivity|]. unfold poison, cut_between. linked_now.
Qed.

(** Adding to and taking from a ring. *)
Lemma put_ring L q l1 x l2 : ring L q (l1 ++ l2) -> x ∉ q :: l1 ++ l2 -> is_Some (L !! x) ->
  ring (put_between x (last_addr id q l1) (hd_addr id q l2) L) q (l1 ++ x :: l2).
Proof.
  intros Hr Hx Hs. destruct (around q l1 l2) as [Hp Hh]. pose proof (ring_is _ _ _ _ Hr Hp) as Sp. pose proof (ring_is _ _ _ _ Hr Hh) as Sh.
  apply (ring_insert L); [exact Hr|exact Hx| |]; intros y; unfold put_between.
  - rewrite nx_setn by linked_now. rewrite nx_setp, nx_setn by linked_now. rewrite nx_setp. repeat case_decide; congruence.
  - rewrite pv_setn, pv_setp by linked_now. rewrite pv_setn, pv_setp by linked_now. repeat case_decide; congruence.
Qed.

Lemma cut_ring L q l1 x l2 : ring L q (l1 ++ x :: l2) -> ring (poison x (cut_between (last_addr id q l1) (hd_addr id q l2) L)) q (l1 ++ l2).
Proof.
  intros Hr. destruct (around q l1 l2) as [Hp Hh].
  assert (Hs : forall y, y ∈ q :: l1 ++ l2 -> is_Some (L !! y)) by (intros y Hy; apply (ring_is _ _ _ _ Hr); rewrite elem_of_cons, elem_of_app in *; rewrite elem_of_cons; tauto).
  pose proof (Hs _ Hp) as Sp. pose proof (Hs _ Hh) as Sh. apply (ring_remove L _ q l1 x l2 Hr); intros y Hy; unfold poison, cut_between.
  - rewrite nx_setp. unfold nx at 1. rewrite setn_other by exact Hy. rewrite <- (nx_setp (hd_addr id q l2) (last_addr id q l1) L y), <- nx_setn by linked_now. reflexivity.
  - unfold pv at 1. rewrite setp_other, setn_other by exact Hy. change (pv (setn (last_addr id q l1) (hd_addr id q l2) (setp (hd_addr id q l2) (last_addr id q l1) L)) y = if decide (y = hd_addr id q l2) then Some (last_addr id q l1) else pv L y).
    rewrite pv_setn. now rewrite pv_setp by linked_now.
Qed.

Lemma put_other x p n L y : y <> x -> y <> p -> y <> n -> put_between x p n L !! y = L !! y.
Proof. intros. unfold put_between. now rewrite setn_other, setp_other, setn_other, setp_other. Qed.
Lemma cut_other x p n L y : y <> x -> y <> p -> y <> n -> poison x (cut_between p n L) !! y = L !! y.
Proof. intros. unfold poison, cut_between. now rewrite setp_other, setn_other, setn_other, setp_other. Qed.
Lemma poison_self x L : is_Some (L !! x) -> poison x L !! x = Some (LIST_POISON2, LIST_POISON1).
Proof. intros H. apply link_halves. unfold poison. rewrite nx_setp, nx_setn by exact H. rewrite pv_setp by now apply setn_is. now rewrite !decide_True. Qed.
Lemma self_at x L : is_Some (L !! x) -> self x L !! x = Some (x, x).
Proof. intros H. apply link_halves. unfold self. rewrite nx_setp, nx_setn by exact H. rewrite pv_setp by now apply setn_is. now rewrite !decide_True. Qed.
Lemma self_other x L y : y <> x -> self x L !! y = L !! y.
Proof. intros. unfold self. now rewrite setp_other, setn_other. Qed.
Lemma cut_is x p n L y : is_Some (poison x (cut_between p n L) !! y) <-> is_Some (L !! y).
Proof. unfold poison, cut_between. now rewrite setp_is, setn_is, setn_is, setp_is. Qed.
Lemma put_is x p n L y : is_Some (put_between x p n L !! y) <-> is_Some (L !! y).
Proof. unfold put_between. now rewrite setn_is, setp_is, setn_is, setp_is. Qed.
Lemma self_is x L y : is_Some (self x L !! y) <-> is_Some (L !! y).
Proof. unfold self. now rewrite setp_is, setn_is. Qed.

(** The neighbours in a ring are in it. *)
Lemma cut_far L q l1 x l2 y : ring L q (l1 ++ x :: l2) -> y ∉ q :: l1 ++ x :: l2 -> poison x (cut_between (last_addr id q l1) (hd_addr id q l2) L) !! y = L !! y.
Proof.
  intros Hr Hy. destruct (around q l1 l2) as [Hp Hh]. assert (Hsub : forall z, z ∈ q :: l1 ++ l2 -> z ∈ q :: l1 ++ x :: l2) by (intros z; rewrite !elem_of_cons, !elem_of_app, elem_of_cons; tauto).
  apply cut_other; intros ->; apply Hy; auto. rewrite elem_of_cons, elem_of_app, elem_of_cons. tauto.
Qed.

(** ** A wake-up that runs alone *)

(** The entries [l] are on the queue [q]. *)
Definition queue_at (s : world) (q : Z) (l : list Z) : Prop :=
  ring (links s) q l /\ forall e, e ∈ l -> exists x, entries s !! e = Some x /\ is_Some (wthreads s !! e_thd x).

(** An entry whose thread was woken. *)
Definition woken (x : wait_entry) : wait_entry :=
  Entry (Z.lor (e_flags x) WQ_FLAG_RUDELY) (e_thd x) (e_func x) (e_wq x) 0 (match e_func x with autoremove => awoken x | multi_wake => true end).

Definition owners (s : world) (l : list Z) : list Z := omap (fun e => e_thd <$> entries s !! e) l.
Definition is_exclusive (s : world) (e : Z) : bool := from_option (fun x => exclusive_flag (e_flags x)) false (entries s !! e).

(** The entries [l1] of a queue with the entries [l] were woken, and nothing else. *)
Record woke_up (s s' : world) (q : Z) (l l1 : list Z) : Prop := {
  wu_off : forall e, e ∈ l1 -> links s' !! e = Some (e, e);
  wu_run : forall t, t ∈ owners s l1 -> wthreads s' !! t = Some (WThread PS_RUNNING false);
  wu_ent : forall e x, e ∈ l1 -> entries s !! e = Some x -> entries s' !! e = Some (woken x);
  wu_keep_thread : forall t, t ∉ owners s l1 -> wthreads s' !! t = wthreads s !! t;
  wu_keep_entry : forall e, e ∉ l1 -> entries s' !! e = entries s !! e;
  wu_keep_link : forall a, a ∉ q :: l -> links s' !! a = links s !! a }.

Lemma unblock_run t b x s : wthreads s !! t = Some x -> unblock t b s = Done tt (with_threads (<[t := WThread PS_RUNNING b]> (wthreads s)) s).
Proof.
  intros E. unfold unblock, thread_set_state. wrun (upd_wthread_run t (fun x => WThread (w_state x) b) x s E). erewrite upd_wthread_run by apply lookup_insert_eq. unfold with_threads. cbn. now rewrite insert_insert_eq.
Qed.

Lemma wake_unblock_run e x s : entries s !! e = Some x -> is_Some (wthreads s !! e_thd x) ->
  wake_unblock e s = Done tt (with_threads (<[e_thd x := WThread PS_RUNNING false]> (wthreads s)) s).
Proof. intros E [t Et]. unfold wake_unblock. wrun (get_entry_run _ _ _ E). now apply (unblock_run _ _ t). Qed.

Lemma wake_result_run e x t s : entries s !! e = Some x -> wthreads s !! e_thd x = Some t ->
  wake_result e s = Done tt (with_entries (<[e := set_flags (Z.lor (e_flags x) WQ_FLAG_RUDELY) (set_result (if rudely_awoken t then WAIT_RES_INTR else 0) x)]> (entries s)) s).
Proof.
  intros E Et. unfold wake_result. wrun (get_entry_run _ _ _ E). wrun (upd_entry_run _ (set_result 0) _ _ E).
  set (s1 := with_entries _ s). assert (E1 : entries s1 !! e = Some (set_result 0 x)) by apply lookup_insert_eq. wrun (get_wthread_run (e_thd x) t s1 Et).
  destruct (rudely_awoken t).
  - wrun (upd_entry_run _ (fun y => set_result (Z.lor (e_result y) WAIT_RES_INTR) y) _ _ E1). erewrite upd_entry_run by apply lookup_insert_eq. unfold with_entries, s1. cbn. now rewrite !insert_insert_eq.
  - wret. erewrite upd_entry_run by exact E1. unfold with_entries, s1. cbn. now rewrite !insert_insert_eq.
Qed.

(** The function of an entry, whichever it is. *)
Lemma call_func_run e x p n s : entries s !! e = Some x -> is_Some (wthreads s !! e_thd x) -> links s !! e = Some (p, n) -> is_Some (links s !! p) -> is_Some (links s !! n) ->
  call_func e s = Done true (World (self e (poison e (cut_between p n (links s)))) (<[e := woken x]> (entries s)) (<[e_thd x := WThread PS_RUNNING false]> (wthreads s))).
Proof.
  intros E Et El Hp Hn. unfold call_func. wrun (get_entry_run _ _ _ E).
  assert (Ha : forall y s1, entries s1 !! e = Some y -> e_thd y = e_thd x -> wthreads s1 = wthreads s -> links s1 = links s -> autoremove_wake_function e s1 =
    Done true (World (self e (poison e (cut_between p n (links s)))) (<[e := set_flags (Z.lor (e_flags y) WQ_FLAG_RUDELY) (set_result 0 y)]> (entries s1)) (<[e_thd x := WThread PS_RUNNING false]> (wthreads s)))).
  { intros y s1 Ey Hy H1 H2. unfold autoremove_wake_function. wrun (wake_unblock_run e y s1 Ey ltac:(now rewrite H1, Hy)). rewrite Hy. set (s2 := with_threads _ s1).
    wrun (wake_result_run e y (WThread PS_RUNNING false) s2 Ey ltac:(rewrite Hy; apply lookup_insert_eq)). cbn [rudely_awoken]. set (s3 := with_entries _ s2).
    assert (El3 : links s3 !! e = Some (p, n)) by (cbn; now rewrite H2). wrun (del_init_run e p n s3 El3 ltac:(cbn; now rewrite H2) ltac:(cbn; now rewrite H2)). unfold s3, s2, with_links, with_entries, with_threads, mret, SM_ret. cbn [links entries wthreads]. now rewrite H1, H2. }
  destruct (e_func x) eqn:Ef.
  - rewrite (Ha x s) by auto. unfold woken, set_flags, set_result. cbn. now rewrite Ef.
  - unfold multi_wait_wake_function. wrun (upd_entry_run e set_awoken x s E). rewrite (Ha (set_awoken x)); [|apply lookup_insert_eq|reflexivity..].
    cbn. rewrite insert_insert_eq. unfold woken, set_flags, set_result, set_awoken. cbn. now rewrite Ef.
Qed.

(** The first entry of a queue is woken. *)
Lemma call_func_first q e l s : queue_at s q (e :: l) ->
  exists x s', entries s !! e = Some x /\ call_func e s = Done true s' /\ woke_up s s' q (e :: l) [e] /\ queue_at s' q l /\ size (links s') = size (links s).
Proof.
  intros [Hr Hq]. destruct (Hq e ltac:(left)) as (x & E & Et). pose proof (ring_links _ _ [] _ _ Hr) as El. cbn [last_addr] in El.
  assert (Hin : forall a, a ∈ q :: l -> is_Some (links s !! a)) by (intros a Ha; apply (ring_is _ _ _ _ Hr); rewrite !elem_of_cons in *; tauto).
  assert (Hhd : hd_addr id q l ∈ q :: l) by (destruct (hd_addr_in q l) as [->|]; rewrite elem_of_cons; tauto).
  assert (He : e ∉ q :: l). { destruct Hr as [Hn _]. rewrite !list.NoDup_cons, !elem_of_cons in *. intros [->|]; tauto. }
  pose proof (call_func_run e x _ _ s E Et El (Hin _ ltac:(left)) (Hin _ Hhd)) as Ec. eexists x, _. split; [exact E|]. split; [exact Ec|].
  assert (Hc : ring (poison e (cut_between q (hd_addr id q l) (links s))) q l) by exact (cut_ring _ q [] e l Hr).
  split; [split|split; [split|]]; cbn.
  - intros a ->%list_elem_of_singleton. apply self_at, cut_is. eauto.
  - unfold owners. cbn. rewrite E. cbn. intros t ->%list_elem_of_singleton. apply lookup_insert_eq.
  - intros a y ->%list_elem_of_singleton Ey. rewrite lookup_insert_eq. congruence.
  - unfold owners. cbn. rewrite E. cbn. intros t Ht. apply lookup_insert_ne. set_solver.
  - intros a Ha. apply lookup_insert_ne. set_solver.
  - intros a Ha. rewrite self_other by (intros ->; apply Ha; rewrite !elem_of_cons; tauto). exact (cut_far _ q [] e l a Hr Ha).
  - apply (ring_frame _ _ _ _ Hc). intros a Ha. apply self_other. congruence.
  - intros a Ha. destruct (Hq a ltac:(now right)) as (y & Ey & Ht). exists y. rewrite lookup_insert_ne by (intros <-; apply He; now right). split; [exact Ey|].
    destruct (decide (e_thd x = e_thd y)) as [->|Hne]; [rewrite lookup_insert_eq; eauto|now rewrite lookup_insert_ne].
  - rewrite <- !size_dom. f_equal. apply set_eq. intros a. rewrite !elem_of_dom. now rewrite self_is, cut_is.
Qed.

Lemma owners_ext s s' l : (forall e, e ∈ l -> entries s' !! e = entries s !! e) -> owners s' l = owners s l.
Proof.
  induction l as [|e l IH]; intros H; [reflexivity|]. unfold owners. cbn. rewrite (H e) by left. unfold owners in IH. rewrite IH; [reflexivity|]. intros a Ha. apply H. now right.
Qed.

Lemma woke_up_nil s q l : woke_up s s q l [].
Proof. split; auto; intros ? *; intros Hin; inversion Hin. Qed.

Lemma woke_up_cons s s1 s' q e l l1 : e ∉ q :: l -> (forall a, a ∈ l1 -> a ∈ l) -> woke_up s s1 q (e :: l) [e] -> woke_up s1 s' q l l1 -> woke_up s s' q (e :: l) (e :: l1).
Proof.
  intros He Hl [A1 A2 A3 A4 A5 A6] [B1 B2 B3 B4 B5 B6].
  assert (Hel : e ∉ l1) by (intros H; apply He; right; auto).
  assert (Ho : owners s1 l1 = owners s l1) by (apply owners_ext; intros a Ha; apply A5; intros ->%list_elem_of_singleton; tauto).
  assert (Hc : owners s (e :: l1) = owners s [e] ++ owners s l1) by (unfold owners; cbn; now destruct (e_thd <$> entries s !! e)).
  rewrite Ho in B2, B4. split.
  - intros a [->|Ha]%elem_of_cons; [|auto]. rewrite B6 by exact He. apply A1. left.
  - intros t Ht. destruct (decide (t ∈ owners s l1)) as [Hin|Hin]; [auto|]. rewrite B4 by exact Hin. apply A2. rewrite Hc in Ht. apply elem_of_app in Ht. tauto.
  - intros a x [->|Ha]%elem_of_cons Ex; [rewrite B5 by exact Hel; apply A3; [left|exact Ex]|]. apply B3; [exact Ha|]. rewrite A5; [exact Ex|]. intros ->%list_elem_of_singleton. tauto.
  - intros t Ht. rewrite Hc, elem_of_app in Ht. rewrite B4, A4 by tauto. reflexivity.
  - intros a Ha. rewrite elem_of_cons in Ha. rewrite B5, A5; [reflexivity| |tauto]. rewrite list_elem_of_singleton. tauto.
  - intros a Ha. rewrite B6, A6; [reflexivity|exact Ha|]. rewrite !elem_of_cons in *. tauto.
Qed.

(** How many of the entries are exclusive. *)
Definition exclusives (s : world) (l : list Z) : Z := Z.of_nat (length (filter (fun e => is_exclusive s e = true) l)).

Lemma exclusives_cons s e l : exclusives s (e :: l) = (if is_exclusive s e then 1 else 0) + exclusives s l.
Proof. unfold exclusives. rewrite filter_cons. destruct (is_exclusive s e); [rewrite decide_True by reflexivity; cbn; lia|rewrite decide_False by discriminate; lia]. Qed.

Lemma exclusives_ext s s' l : (forall e, e ∈ l -> entries s' !! e = entries s !! e) -> exclusives s' l = exclusives s l.
Proof.
  induction l as [|e l IH]; intros H; [reflexivity|]. rewrite !exclusives_cons, IH by (intros a Ha; apply H; now right). unfold is_exclusive. now rewrite (H e) by left.
Qed.

(** Why the loop ended before [l2]: it has woken [nr] exclusive entries, the last one
    just now. *)
Definition stopped (s : world) (nr : Z) (l1 l2 : list Z) : Prop :=
  (0 < nr -> exclusives s l1 <= nr) /\ (l2 <> [] -> exclusives s l1 = nr /\ exists l0 e, l1 = l0 ++ [e] /\ is_exclusive s e = true).

Lemma ring_small L q l : ring L q l -> (length l < size L)%nat.
Proof.
  intros Hr. destruct (Hr) as [Hn _]. rewrite <- size_dom. assert (Hs : list_to_set (q :: l) ⊆ (dom L : gset Z)).
  { intros a Ha. apply elem_of_list_to_set in Ha. apply elem_of_dom. eapply ring_is; eauto. }
  apply subseteq_size in Hs. rewrite size_list_to_set in Hs by exact Hn. cbn in Hs. lia.
Qed.

Lemma wake_loop q : forall l nr nxt woke fuel s, queue_at s q l -> (length l < fuel)%nat -> (forall e l', l = e :: l' -> nxt = hd_addr id q l') ->
  - 2 ^ 31 + Z.of_nat (length l) <= nr < 2 ^ 31 ->
  exists l1 l2 s', l = l1 ++ l2 /\ sloop fuel (wake_body q) (hd_addr id q l, nxt, nr, woke) s = Done (woke || bool_decide (l <> [])) s' /\
    queue_at s' q l2 /\ woke_up s s' q l l1 /\ stopped s nr l1 l2.
Proof.
  induction l as [|e l IH]; intros nr nxt woke fuel s Hq Hf Hnxt Hnr; (destruct fuel as [|fuel]; [lia|]); cbn [sloop hd_addr].
  - exists [], [], s. split; [reflexivity|]. split; [|split; [exact Hq|]; split; [apply woke_up_nil|split; [change (exclusives s []) with 0; lia|easy]]].
    unfold wake_body. rewrite Z.eqb_refl. wret. unfold mret, SM_ret. f_equal. now rewrite orb_false_r.
  - pose proof Hq as [[Hn _] _]. assert (He : e ∉ q :: l) by (rewrite !list.NoDup_cons, !elem_of_cons in *; intros [->|]; tauto).
    destruct (call_func_first q e l s Hq) as (x & s1 & Ex & Ec & Hw & Hq1 & _). rewrite (Hnxt e l eq_refl) in *. clear Hnxt. change (id e) with e.
    assert (Eb : forall stop nr', count_exclusive true (e_flags x) nr = (stop, nr') -> exists nxt', (forall a l', l = a :: l' -> nxt' = hd_addr id q l') /\
       wake_body q (e, hd_addr id q l, nr, woke) s = Done (if (stop : bool) then Break true else Next (hd_addr id q l, nxt', nr', true)) s1).
    { intros stop nr' Es. destruct Hq1 as [Hr1 _]. destruct (around q [] l) as [_ Hh]. destruct (ring_is _ _ _ _ Hr1 Hh) as [[p n'] El]. exists n'. split.
      - intros a l' ->. apply link_halves in El as [_ El]. pose proof (ring_links _ _ [] a l' Hr1) as Ea. apply link_halves in Ea as [_ Ea]. cbn in El. change (id a) with a in El. congruence.
      - unfold wake_body. rewrite (proj2 (Z.eqb_neq e q)) by (intros ->; apply He; left). wrun (get_entry_run _ _ _ Ex). wrun Ec. rewrite Es. destruct stop; [reflexivity|]. wrun (get_link_run _ _ _ El). reflexivity. }
    assert (Hex : is_exclusive s e = exclusive_flag (e_flags x)) by (unfold is_exclusive; now rewrite Ex).
    assert (Hs1 : forall a, a ∈ l -> entries s1 !! a = entries s !! a) by (intros a Ha; apply (wu_keep_entry _ _ _ _ _ Hw); intros ->%list_elem_of_singleton; apply He; now right).
    assert (Hnext : forall nr', count_exclusive true (e_flags x) nr = (false, nr') -> nr' = nr - (if is_exclusive s e then 1 else 0) -> (0 < nr -> 0 < nr') -> exists l1 l2 s', e :: l = l1 ++ l2 /\
        (wake_body q (e, hd_addr id q l, nr, woke) ≫= (fun v => match v with Next v' => sloop fuel (wake_body q) v' | Break r => mret r end)) s = Done (woke || bool_decide (e :: l <> [])) s' /\
        queue_at s' q l2 /\ woke_up s s' q (e :: l) l1 /\ stopped s nr l1 l2).
    { intros nr' Ecount Enr Hpos'. destruct (Eb _ _ Ecount) as (nxt' & Hn' & Ebody). cbn [length] in Hf, Hnr.
      destruct (IH nr' nxt' true fuel s1 Hq1 ltac:(lia) Hn' ltac:(destruct (is_exclusive s e); lia)) as (l1 & l2 & s' & -> & El & Hq' & Hw' & [Hst1 Hst2]).
      exists (e :: l1), l2, s'. split; [reflexivity|]. split; [|split; [exact Hq'|split]].
      - wrun Ebody. rewrite El. cbn [orb]. rewrite bool_decide_true by discriminate. now rewrite orb_true_r.
      - apply (woke_up_cons s s1); auto. intros a Ha. apply elem_of_app. now left.
      - assert (Hx1 : exclusives s1 l1 = exclusives s l1) by (apply exclusives_ext; intros a Ha; apply Hs1, elem_of_app; now left).
        split; rewrite exclusives_cons; rewrite Hx1 in *.
        + intros Hpos. specialize (Hst1 (Hpos' Hpos)). lia.
        + intros Hl2. destruct (Hst2 Hl2) as (H1 & l0 & a & H2 & H3). split; [lia|]. exists (e :: l0), a. split; [now rewrite H2|]. revert H3. unfold is_exclusive. rewrite Hs1; [auto|]. rewrite H2, !elem_of_app. left. right. left. }
    unfold count_exclusive in Eb, Hnext. cbn [andb] in Eb, Hnext. rewrite <- Hex in Eb, Hnext. destruct (is_exclusive s e) eqn:Hxe.
    + assert (Ew : s32 (nr - 1) = nr - 1) by (apply s32_small; cbn [length] in Hnr; lia). rewrite Ew in *. destruct (Z.eqb_spec (nr - 1) 0) as [Hz|Hz]; [|apply (Hnext (nr - 1)); [reflexivity|lia..]].
      destruct (Eb _ _ eq_refl) as (nxt' & _ & Ebody). exists [e], l, s1. split; [reflexivity|]. split; [wrun Ebody; rewrite bool_decide_true by discriminate; now rewrite orb_true_r|].
      split; [exact Hq1|]. split; [exact Hw|]. assert (Hone : exclusives s [e] = 1) by (rewrite exclusives_cons, Hxe; reflexivity). split; [lia|]. intros _. split; [lia|]. now exists [], e.
    + apply (Hnext nr); [reflexivity|lia|auto].
Qed.

Lemma wake_up_common_run q nr l s : queue_at s q l -> 0 <= nr < 2 ^ 31 -> Z.of_nat (length l) <= 2 ^ 31 ->
  exists l1 l2 s', l = l1 ++ l2 /\ wake_up_common q nr s = Done (bool_decide (l <> [])) s' /\ queue_at s' q l2 /\ woke_up s s' q l l1 /\ stopped s nr l1 l2.
Proof.
  intros Hq Hnr Hl. pose proof Hq as [Hr _]. destruct (ring_is _ _ _ q Hr ltac:(left)) as [[p n] El]. pose proof (ring_first _ _ _ Hr) as Ef. unfold nx in Ef. rewrite El in Ef. injection Ef as ->.
  destruct (around q [] l) as [_ Hh]. destruct (ring_is _ _ _ _ Hr Hh) as [[p' n'] Ec].
  destruct (wake_loop q l nr n' false (S (size (links s))) s Hq) as (l1 & l2 & s' & E & Er & H); [pose proof (ring_small _ _ _ Hr); lia| |lia|].
  - intros e l' ->. pose proof (ring_links _ _ [] e l' Hr) as Ee. cbn in Ec. change (id e) with e in Ec. congruence.
  - exists l1, l2, s'. split; [exact E|]. split; [|exact H]. unfold wake_up_common. wget. wrun (get_link_run _ _ _ El). cbn [snd]. wrun (get_link_run _ _ _ Ec). exact Er.
Qed.

(** ** The invariant of every interleaving *)

Definition held (c : pc) : list Z :=
  match c with Awake => [] | Asleep _ es | Leaving es => es | Looking e es | Unlinking e es => e :: es end.

(** What the invariant sees of an entry: its thread and its queue. *)
Definition view (E : gmap Z wait_entry) (e : Z) : option (Z * Z) := (fun x => (e_thd x, e_wq x)) <$> E !! e.
Definition states (T : gmap Z wthread) (t : Z) : option Z := w_state <$> T !! t.

(** The holder [w] of the lock of [q], when the entries [l] are on the queue. *)
Definition waker_ok (L : gmap Z (Z * Z)) (V : Z -> option (Z * Z)) (q : Z) (l : list Z) (w : waker) : Prop :=
  match w_phase w with
  | 0%nat => w_curr w = hd_addr id q l /\ forall e l', l = e :: l' -> w_next w = hd_addr id q l'
  | 1%nat | 2%nat => exists l', l = w_curr w :: l' /\ w_next w = hd_addr id q l'
  | 3%nat => w_next w = hd_addr id q l /\ (w_curr w ∉ l) /\ (exists t, V (w_curr w) = Some (t, q)) /\ L !! w_curr w = Some (LIST_POISON2, LIST_POISON1)
  | 4%nat => w_next w = hd_addr id q l /\ (w_curr w ∉ l) /\ (exists t, V (w_curr w) = Some (t, q)) /\ L !! w_curr w = Some (LIST_POISON2, w_curr w)
  | 5%nat => w_next w = hd_addr id q l
  | _ => False
  end.

Record wok (L : gmap Z (Z * Z)) (V : Z -> option (Z * Z)) (T : Z -> option Z) (P : gmap Z pc) (W : gmap Z waker) (Q : gmap Z (list Z)) : Prop := {
  k_ring : forall q l, Q !! q = Some l -> ring L q l;
  k_head : forall q l, Q !! q = Some l -> V q = None /\ q <> 0;
  k_queue : forall q, is_Some (L !! q) -> V q = None -> is_Some (Q !! q);
  k_in : forall q l e, Q !! q = Some l -> e ∈ l -> exists t, V e = Some (t, q);
  k_entry : forall e t q, V e = Some (t, q) -> is_Some (Q !! q) /\ is_Some (L !! e) /\ e <> LIST_POISON1 /\ e <> LIST_POISON2 /\ exists c, P !! t = Some c /\ e ∈ held c;
  k_held : forall t c, P !! t = Some c -> is_Some (T t) /\ NoDup (held c) /\ forall e, e ∈ held c -> exists q, V e = Some (t, q);
  k_off : forall e t q l, V e = Some (t, q) -> Q !! q = Some l -> e ∉ l ->
    L !! e = Some (e, e) \/ exists w, W !! q = Some w /\ w_curr w = e /\ (w_phase w = 3%nat \/ w_phase w = 4%nat);
  k_waker : forall q w, W !! q = Some w -> exists l, Q !! q = Some l /\ waker_ok L V q l w;
  k_sleep : forall t m es x e, P !! t = Some (Asleep m es) -> T t = Some x -> x <> PS_RUNNING -> e ∈ es ->
    exists q l, V e = Some (t, q) /\ Q !! q = Some l /\ e ∈ l /\ forall w, W !! q = Some w -> w_curr w = e -> w_phase w = 0%nat }.

Section wok.
Context (L : gmap Z (Z * Z)) (V : Z -> option (Z * Z)) (T : Z -> option Z) (P : gmap Z pc) (W : gmap Z waker) (Q : gmap Z (list Z)).
Hypothesis Hok : wok L V T P W Q.

(** Only these matter. *)
Lemma wok_ext V' T' : (forall e, V' e = V e) -> (forall t, T' t = T t) -> wok L V' T' P W Q.
Proof.
  intros HV HT. destruct Hok as [H1 H2 H3 H4 H5 H6 H7 H8 H9]. split.
  - exact H1.
  - intros q l. rewrite HV. apply H2.
  - intros q. rewrite HV. apply H3.
  - intros q l e HQ He. rewrite HV. eauto.
  - intros e t q. rewrite HV. apply H5.
  - intros t c HP. rewrite HT. destruct (H6 _ _ HP) as (A & B & C). split; [exact A|]. split; [exact B|]. intros e He. rewrite HV. eauto.
  - intros e t q l. rewrite HV. apply H7.
  - intros q w HW. destruct (H8 _ _ HW) as (l & A & B). exists l. split; [exact A|]. unfold waker_ok in *. now rewrite HV.
  - intros t m es x e A. rewrite HT. intros B C D. destruct (H9 _ _ _ _ _ A B C D) as (q & l & E & F). exists q, l. now rewrite HV.
Qed.

(** Different queues have no node in common. *)
Lemma apart q l q' l' x : Q !! q = Some l -> Q !! q' = Some l' -> q <> q' -> x ∈ q :: l -> x ∉ q' :: l'.
Proof.
  intros Hq Hq' Hne Hx Hx'. apply elem_of_cons in Hx, Hx'. destruct (k_head _ _ _ _ _ _ Hok _ _ Hq) as [Nq _], (k_head _ _ _ _ _ _ Hok _ _ Hq') as [Nq' _].
  destruct Hx as [->|Hx], Hx' as [->|Hx']; [congruence| | |].
  - destruct (k_in _ _ _ _ _ _ Hok _ _ _ Hq' Hx') as [t Ht]. congruence.
  - destruct (k_in _ _ _ _ _ _ Hok _ _ _ Hq Hx) as [t Ht]. congruence.
  - destruct (k_in _ _ _ _ _ _ Hok _ _ _ Hq Hx) as [t Ht]. destruct (k_in _ _ _ _ _ _ Hok _ _ _ Hq' Hx') as [t' Ht']. congruence.
Qed.

(** An entry that is not on its queue is on none. *)
Lemma off_all e t q l q' l' : V e = Some (t, q) -> Q !! q = Some l -> e ∉ l -> Q !! q' = Some l' -> e ∉ q' :: l'.
Proof.
  intros Hv Hq He Hq' [->|Hin]%elem_of_cons; [destruct (k_head _ _ _ _ _ _ Hok _ _ Hq') as [N _]; congruence|].
  destruct (k_in _ _ _ _ _ _ Hok _ _ _ Hq' Hin) as [t' Ht]. assert (q' = q) as -> by congruence. congruence.
Qed.

(** A link of an entry on a queue never leads back to it. *)
Lemma on_queue_links e t q l p n : V e = Some (t, q) -> Q !! q = Some l -> e ∈ l -> L !! e = Some (p, n) -> p <> e /\ n <> e.
Proof.
  intros Hv Hq He Hl. pose proof (k_ring _ _ _ _ _ _ Hok _ _ Hq) as Hr. apply list_elem_of_split in He as (l1 & l2 & ->). rewrite (ring_links _ _ _ _ _ Hr) in Hl. injection Hl as <- <-.
  destruct Hr as [Hn _]. rewrite <- Permutation_middle, list.NoDup_cons, list.NoDup_cons in Hn. destruct Hn as (N1 & N2 & _). rewrite elem_of_cons in N1. destruct (around q l1 l2) as [A B].
  split; [intros E; rewrite E in A; clear B; rename A into B|intros E; rewrite E in B; clear A]; apply elem_of_cons in B as [->|B]; tauto.
Qed.

(** A thread becomes runnable. *)
Lemma wok_run t T' : T' t = Some PS_RUNNING -> (forall u, u <> t -> T' u = T u) -> wok L V T' P W Q.
Proof.
  intros Ht Hu. destruct Hok as [H1 H2 H3 H4 H5 H6 H7 H8 H9]. split; auto.
  - intros u c HP. destruct (H6 _ _ HP) as (A & B). split; [|exact B]. destruct (decide (u = t)) as [->|Hne]; [rewrite Ht; eauto|now rewrite Hu].
  - intros u m es x e HP HT Hx. destruct (decide (u = t)) as [->|Hne]; [congruence|]. rewrite Hu in HT by exact Hne. eauto.
Qed.

Definition not_asleep (c : pc) : Prop := match c with Asleep _ _ => False | _ => True end.

(** A thread moves on with the same entries. *)
Lemma wok_goto t c c' : P !! t = Some c -> held c' ≡ₚ held c -> not_asleep c' -> wok L V T (<[t := c']> P) W Q.
Proof.
  intros Hc Hh Hn. destruct Hok as [H1 H2 H3 H4 H5 H6 H7 H8 H9]. split; auto.
  - intros e u q Hv. destruct (H5 _ _ _ Hv) as (A & B & C & D & c0 & Hc0 & He). do 4 (split; [assumption|]). destruct (decide (u = t)) as [->|Hne].
    + exists c'. rewrite lookup_insert_eq. split; [reflexivity|]. rewrite Hh. congruence.
    + exists c0. now rewrite lookup_insert_ne.
  - intros u c0. destruct (decide (u = t)) as [->|Hne]; [rewrite lookup_insert_eq; intros [= <-]|rewrite lookup_insert_ne by congruence; apply H6].
    destruct (H6 _ _ Hc) as (A & B & C). split; [exact A|]. split; [now rewrite Hh|]. intros e. rewrite Hh. apply C.
  - intros u m es x e. destruct (decide (u = t)) as [->|Hne]; [rewrite lookup_insert_eq; intros [= ->]; destruct Hn|rewrite lookup_insert_ne by congruence; apply H9].
Qed.

(** Its state while it is not asleep is its own business. *)
Lemma wok_state t c T' : P !! t = Some c -> not_asleep c -> is_Some (T' t) -> (forall u, u <> t -> T' u = T u) -> wok L V T' P W Q.
Proof.
  intros Hc Hn Ht Hu. destruct Hok as [H1 H2 H3 H4 H5 H6 H7 H8 H9]. split; auto.
  - intros u c0 HP. destruct (H6 _ _ HP) as (A & B). split; [|exact B]. destruct (decide (u = t)) as [->|Hne]; [exact Ht|now rewrite Hu].
  - intros u m es x e HP HT Hx. destruct (decide (u = t)) as [->|Hne]; [rewrite HP in Hc; injection Hc as <-; destruct Hn|]. rewrite Hu in HT by exact Hne. eauto.
Qed.

(** It falls asleep on queues that nobody holds. *)
Lemma wok_sleep t c m es : P !! t = Some c -> held c = es ->
  (forall e, e ∈ es -> exists q l, V e = Some (t, q) /\ Q !! q = Some l /\ e ∈ l /\ W !! q = None) -> wok L V T (<[t := Asleep m es]> P) W Q.
Proof.
  intros Hc Hh He. destruct Hok as [H1 H2 H3 H4 H5 H6 H7 H8 H9]. split; auto.
  - intros e u q Hv. destruct (H5 _ _ _ Hv) as (A & B & C & D & c0 & Hc0 & He'). do 4 (split; [assumption|]). destruct (decide (u = t)) as [->|Hne].
    + exists (Asleep m es). rewrite lookup_insert_eq. split; [reflexivity|]. cbn. congruence.
    + exists c0. now rewrite lookup_insert_ne.
  - intros u c0. destruct (decide (u = t)) as [->|Hne]; [rewrite lookup_insert_eq; intros [= <-]|rewrite lookup_insert_ne by congruence; apply H6].
    cbn. rewrite <- Hh. now apply H6.
  - intros u m' es' x e. destruct (decide (u = t)) as [->|Hne]; [rewrite lookup_insert_eq|rewrite lookup_insert_ne by congruence; apply H9].
    intros [= <- <-] _ _ Hin. destruct (He e Hin) as (q & l & A & B & C & D). exists q, l. rewrite D. repeat split; auto. discriminate.
Qed.

Lemma wok_fresh e : L !! e = None -> V e = None /\ forall q l, Q !! q = Some l -> e ∉ q :: l.
Proof.
  intros He. split.
  - destruct (V e) as [[t q]|] eqn:Hv; [|reflexivity]. destruct (k_entry _ _ _ _ _ _ Hok _ _ _ Hv) as (_ & [l Hl] & _). congruence.
  - intros q l Hq Hin. destruct (ring_is _ _ _ _ (k_ring _ _ _ _ _ _ Hok _ _ Hq) Hin) as [x Hx]. congruence.
Qed.

(** A thread makes an entry for a queue. *)
Lemma wok_new t c c' e q l V' : P !! t = Some c -> held c' ≡ₚ e :: held c -> not_asleep c' -> L !! e = None -> e <> LIST_POISON1 -> e <> LIST_POISON2 -> Q !! q = Some l ->
  V' e = Some (t, q) -> (forall a, a <> e -> V' a = V a) -> wok (<[e := (e, e)]> L) V' T (<[t := c']> P) W Q.
Proof.
  intros Hc Hh Hn He He1 He2 Hq Hv Hv'. destruct (wok_fresh e He) as [Ve Re]. destruct Hok as [H1 H2 H3 H4 H5 H6 H7 H8 H9].
  assert (HL : forall a, a <> e -> <[e := (e, e)]> L !! a = L !! a) by (intros a Ha; now apply lookup_insert_ne). split.
  - intros q0 l0 H0. apply (ring_frame L); [auto|]. intros x Hx. apply HL. intros ->. exact (Re _ _ H0 Hx).
  - intros q0 l0 H0. assert (q0 <> e) by (intros ->; apply (Re _ _ H0); left). rewrite Hv' by assumption. eauto.
  - intros q0. destruct (decide (q0 = e)) as [->|Hne]; [congruence|]. rewrite HL, Hv' by exact Hne. apply H3.
  - intros q0 l0 a H0 Ha. assert (a <> e) by (intros ->; apply (Re _ _ H0); now right). rewrite Hv' by assumption. eauto.
  - intros a u q0. destruct (decide (a = e)) as [->|Hne].
    + rewrite Hv, lookup_insert_eq. intros [= <- <-]. do 4 (split; [eauto|]). exists c'. rewrite lookup_insert_eq, Hh. split; [reflexivity|left].
    + rewrite Hv', HL by exact Hne. intros Ha. destruct (H5 _ _ _ Ha) as (A & B & C & D & c0 & Hc0 & Hin). do 4 (split; [assumption|]). destruct (decide (u = t)) as [->|Hu].
      * exists c'. rewrite lookup_insert_eq, Hh. split; [reflexivity|right; congruence].
      * exists c0. now rewrite lookup_insert_ne.
  - intros u c0. destruct (decide (u = t)) as [->|Hu]; [rewrite lookup_insert_eq; intros [= <-]|rewrite lookup_insert_ne by congruence; intros H0].
    + destruct (H6 _ _ Hc) as (A & B & C). assert (Hni : e ∉ held c) by (intros Hin; destruct (C _ Hin); congruence). split; [exact A|]. rewrite Hh. split; [now apply list.NoDup_cons|].
      intros a. rewrite Hh. intros [->|Ha]%elem_of_cons; [eauto|]. rewrite Hv' by congruence. auto.
    + destruct (H6 _ _ H0) as (A & B & C). split; [exact A|]. split; [exact B|]. intros a Ha. destruct (C _ Ha) as [q0 Hq0]. exists q0. rewrite Hv' by congruence. exact Hq0.
  - intros a u q0 l0. destruct (decide (a = e)) as [->|Hne]; [rewrite lookup_insert_eq; auto|]. rewrite Hv', HL by exact Hne. apply H7.
  - intros q0 w Hw. destruct (H8 _ _ Hw) as (l0 & H0 & Hwk). exists l0. split; [exact H0|]. unfold waker_ok in *. destruct (w_phase w) as [|[|[|[|[|]]]]]; auto; destruct Hwk as (A & B & (u & Hu) & D); (split; [exact A|]; split; [exact B|]); rewrite Hv', HL by congruence; eauto.
  - intros u m es x a. destruct (decide (u = t)) as [->|Hu]; [rewrite lookup_insert_eq; intros [= ->]; destruct Hn|rewrite lookup_insert_ne by congruence]. intros A B C D.
    destruct (H9 _ _ _ _ _ A B C D) as (q0 & l0 & F). exists q0, l0. rewrite Hv'; [exact F|]. intros ->. destruct F as [F _]. congruence.
Qed.

(** The entry is linked between [l1] and [l2]. *)
Lemma wok_link e t q l1 l2 : V e = Some (t, q) -> Q !! q = Some (l1 ++ l2) -> e ∉ l1 ++ l2 -> W !! q = None ->
  wok (put_between e (last_addr id q l1) (hd_addr id q l2) L) V T P W (<[q := l1 ++ e :: l2]> Q).
Proof.
  intros Hv Hq He Hw. pose proof (fun q' l' => off_all e t q _ q' l' Hv Hq He) as Hoff. destruct (around q l1 l2) as [Ap Ah].
  assert (Hin : forall x, x ∈ l1 ++ e :: l2 <-> x = e \/ x ∈ l1 ++ l2) by (intros x; rewrite !elem_of_app, elem_of_cons; tauto).
  assert (HL : forall a, a <> e -> a ∉ q :: l1 ++ l2 -> put_between e (last_addr id q l1) (hd_addr id q l2) L !! a = L !! a) by (intros a Hne Ha; apply put_other; [exact Hne|intros ->; tauto..]).
  pose proof apart as Hap. pose proof off_all as Hof. destruct Hok as [H1 H2 H3 H4 H5 H6 H7 H8 H9]. split.
  - intros q0 l0. destruct (decide (q0 = q)) as [->|Hne].
    + rewrite lookup_insert_eq. intros [= <-]. apply put_ring; [auto|auto|]. apply (H5 _ _ _ Hv).
    + rewrite lookup_insert_ne by congruence. intros H0. apply (ring_frame L); [auto|]. intros x Hx. apply HL; [intros ->; exact (Hoff _ _ H0 Hx)|]. exact (Hap _ _ _ _ _ H0 Hq Hne Hx).
  - intros q0 l0. destruct (decide (q0 = q)) as [->|Hne]; [intros _; eauto|rewrite lookup_insert_ne by congruence; eauto].
  - intros q0 A B. rewrite put_is in A. destruct (decide (q0 = q)) as [->|Hne]; [rewrite lookup_insert_eq|rewrite lookup_insert_ne by congruence]; eauto.
  - intros q0 l0 a. destruct (decide (q0 = q)) as [->|Hne]; [rewrite lookup_insert_eq; intros [= <-]|rewrite lookup_insert_ne by congruence; eauto].
    rewrite Hin. intros [->|Ha]; eauto.
  - intros a u q0 Ha. rewrite put_is. destruct (H5 _ _ _ Ha) as (A & B). split; [|exact B]. destruct (decide (q0 = q)) as [->|Hne]; [rewrite lookup_insert_eq|rewrite lookup_insert_ne by congruence]; eauto.
  - exact H6.
  - intros a u q0 l0 Ha. assert (Hgo : forall l', Q !! q0 = Some l' -> a ∉ l' -> a <> e -> put_between e (last_addr id q l1) (hd_addr id q l2) L !! a = Some (a, a) \/ exists w, W !! q0 = Some w /\ w_curr w = a /\ (w_phase w = 3%nat \/ w_phase w = 4%nat)).
    { intros l' Hl' Hni Hae. rewrite HL by (exact Hae || exact (Hof _ _ _ _ _ _ Ha Hl' Hni Hq)). eauto. }
    destruct (decide (q0 = q)) as [->|Hne]; [rewrite lookup_insert_eq; intros [= <-]; rewrite Hin; intros Hni; apply (Hgo _ Hq); tauto|rewrite lookup_insert_ne by congruence; intros Hl' Hni; apply (Hgo _ Hl' Hni); congruence].
  - intros q0 w Hw0. assert (Hne : q0 <> q) by congruence. rewrite lookup_insert_ne by congruence. destruct (H8 _ _ Hw0) as (l0 & H0 & Hwk). exists l0. split; [exact H0|].
    unfold waker_ok in *. destruct (w_phase w) as [|[|[|[|[|]]]]]; auto; destruct Hwk as (A & B & (u & Hu) & D); (rewrite HL; [eauto|congruence|exact (Hof _ _ _ _ _ _ Hu H0 B Hq)]).
  - intros u m es x a A B C D. destruct (H9 _ _ _ _ _ A B C D) as (q0 & l0 & F & G & H & I). destruct (decide (q0 = q)) as [->|Hne].
    + exists q, (l1 ++ e :: l2). rewrite lookup_insert_eq, Hin. assert (l0 = l1 ++ l2) as -> by congruence. auto.
    + exists q0, l0. rewrite lookup_insert_ne by congruence. auto.
Qed.

(** The entry is taken off its queue, by its thread or by the holder of the lock. *)
Lemma wok_cut e t q l1 l2 L' W' : V e = Some (t, q) -> Q !! q = Some (l1 ++ e :: l2) ->
  (forall a, a <> e -> L' !! a = poison e (cut_between (last_addr id q l1) (hd_addr id q l2) L) !! a) -> is_Some (L' !! e) ->
  (forall q', q' <> q -> W' !! q' = W !! q') -> (forall w, W !! q = Some w -> w_curr w = e) ->
  (forall w, W' !! q = Some w -> waker_ok L' V q (l1 ++ l2) w /\ w_curr w = e) ->
  (L' !! e = Some (e, e) \/ exists w, W' !! q = Some w /\ w_phase w = 3%nat) ->
  (forall m es x, P !! t = Some (Asleep m es) -> T t = Some x -> x = PS_RUNNING) ->
  wok L' V T P W' (<[q := l1 ++ l2]> Q).
Proof.
  intros Hv Hq HLe Hse HW Hold Hnew Hoffe Hrun. pose proof (k_ring _ _ _ _ _ _ Hok _ _ Hq) as Hr. pose proof (cut_ring _ _ _ _ _ Hr) as Hcut.
  assert (Hne : e ∉ q :: l1 ++ l2). { destruct Hr as [Hn _]. rewrite <- Permutation_middle, !list.NoDup_cons, !elem_of_cons in Hn. rewrite elem_of_cons. intros [->|]; tauto. }
  assert (Hin : forall x, x ∈ l1 ++ e :: l2 <-> x = e \/ x ∈ l1 ++ l2) by (intros x; rewrite !elem_of_app, elem_of_cons; tauto).
  assert (HL : forall a, a ∉ q :: l1 ++ e :: l2 -> L' !! a = L !! a).
  { intros a Ha. rewrite HLe by (intros ->; apply Ha; right; apply Hin; now left). now apply cut_far. }
  assert (HLs : forall a, is_Some (L' !! a) <-> is_Some (L !! a)).
  { intros a. destruct (decide (a = e)) as [->|Hae]; [split; [intros _|auto]; apply (k_entry _ _ _ _ _ _ Hok _ _ _ Hv)|rewrite HLe by exact Hae; apply cut_is]. }
  pose proof apart as Hap. pose proof off_all as Hof. destruct Hok as [H1 H2 H3 H4 H5 H6 H7 H8 H9]. split.
  - intros q0 l0. destruct (decide (q0 = q)) as [->|Hq0].
    + rewrite lookup_insert_eq. intros [= <-]. apply (ring_frame _ _ _ _ Hcut). intros x Hx. apply HLe. congruence.
    + rewrite lookup_insert_ne by congruence. intros H0. apply (ring_frame L); [auto|]. intros x Hx. apply HL. exact (Hap _ _ _ _ _ H0 Hq Hq0 Hx).
  - intros q0 l0. destruct (decide (q0 = q)) as [->|Hq0]; [intros _; eauto|rewrite lookup_insert_ne by congruence; eauto].
  - intros q0 A B. rewrite HLs in A. destruct (decide (q0 = q)) as [->|Hq0]; [rewrite lookup_insert_eq|rewrite lookup_insert_ne by congruence]; eauto.
  - intros q0 l0 a. destruct (decide (q0 = q)) as [->|Hq0]; [rewrite lookup_insert_eq; intros [= <-]|rewrite lookup_insert_ne by congruence; eauto].
    intros Ha. apply (H4 _ _ _ Hq). apply Hin. auto.
  - intros a u q0 Ha. rewrite HLs. destruct (H5 _ _ _ Ha) as (A & B). split; [|exact B]. destruct (decide (q0 = q)) as [->|Hq0]; [rewrite lookup_insert_eq|rewrite lookup_insert_ne by congruence]; eauto.
  - exact H6.
  - intros a u q0 l0 Ha. destruct (decide (q0 = q)) as [->|Hq0].
    + rewrite lookup_insert_eq. intros [= <-] Hni. destruct (decide (a = e)) as [->|Hae].
      * destruct Hoffe as [A|(w & A & B)]; [now left|]. right. exists w. split; [exact A|]. split; [apply (Hnew _ A)|auto].
      * assert (Hni' : a ∉ l1 ++ e :: l2) by (rewrite Hin; tauto). rewrite HL by exact (Hof _ _ _ _ _ _ Ha Hq Hni' Hq). destruct (H7 _ _ _ _ Ha Hq Hni') as [A|(w & A & B & _)]; [now left|]. rewrite (Hold _ A) in B. congruence.
    + rewrite lookup_insert_ne by congruence. intros H0 Hni. rewrite HL by exact (Hof _ _ _ _ _ _ Ha H0 Hni Hq). rewrite HW by exact Hq0. eauto.
  - intros q0 w Hw. destruct (decide (q0 = q)) as [->|Hq0]; [exists (l1 ++ l2); rewrite lookup_insert_eq; split; [reflexivity|now apply Hnew]|].
    rewrite lookup_insert_ne by congruence. rewrite HW in Hw by exact Hq0. destruct (H8 _ _ Hw) as (l0 & H0 & Hwk). exists l0. split; [exact H0|].
    unfold waker_ok in *. destruct (w_phase w) as [|[|[|[|[|]]]]]; auto; destruct Hwk as (A & B & (u & Hu) & D); (rewrite HL; [eauto|exact (Hof _ _ _ _ _ _ Hu H0 B Hq)]).
  - intros u m es x a A B C D. destruct (H9 _ _ _ _ _ A B C D) as (q0 & l0 & F & G & H & I). destruct (decide (q0 = q)) as [->|Hq0].
    + assert (Hae : a <> e) by (intros ->; apply C; assert (u = t) as -> by congruence; eauto). exists q, (l1 ++ l2). rewrite lookup_insert_eq. assert (l0 = l1 ++ e :: l2) as -> by congruence. apply Hin in H as [H|H]; [congruence|].
      do 3 (split; [auto|]). intros w Hw Ew. destruct (Hnew _ Hw) as [_ Ec]. congruence.
    + exists q0, l0. rewrite lookup_insert_ne by congruence. rewrite HW by exact Hq0. auto.
Qed.

(** An entry that is off its queue goes. *)
Lemma wok_free e t q l c c' V' : V e = Some (t, q) -> Q !! q = Some l -> e ∉ l -> L !! e = Some (e, e) ->
  P !! t = Some c -> held c ≡ₚ e :: held c' -> not_asleep c' -> V' e = None -> (forall a, a <> e -> V' a = V a) ->
  wok (delete e L) V' T (<[t := c']> P) W Q.
Proof.
  intros Hv Hq He Hself Hc Hh Hn HVe HV. pose proof (fun q' l' => off_all e t q _ q' l' Hv Hq He) as Hoff.
  assert (HL : forall a, a <> e -> delete e L !! a = L !! a) by (intros a Ha; now apply lookup_delete_ne).
  destruct (k_entry _ _ _ _ _ _ Hok _ _ _ Hv) as (_ & _ & P1 & P2 & _). destruct Hok as [H1 H2 H3 H4 H5 H6 H7 H8 H9].
  assert (Hnd : e ∉ held c'). { destruct (H6 _ _ Hc) as (_ & N & _). rewrite Hh in N. now apply list.NoDup_cons in N as [N _]. } split.
  - intros q0 l0 H0. apply (ring_frame L); [auto|]. intros x Hx. apply HL. intros ->. exact (Hoff _ _ H0 Hx).
  - intros q0 l0 H0. assert (q0 <> e) by (intros ->; apply (Hoff _ _ H0); left). rewrite HV by assumption. eauto.
  - intros q0. destruct (decide (q0 = e)) as [->|Hne]; [rewrite lookup_delete_eq; intros [? [=]]|]. rewrite HL, HV by exact Hne. apply H3.
  - intros q0 l0 a H0 Ha. assert (a <> e) by (intros ->; apply (Hoff _ _ H0); now right). rewrite HV by assumption. eauto.
  - intros a u q0. destruct (decide (a = e)) as [->|Hne]; [congruence|]. rewrite HV, HL by exact Hne. intros Ha. destruct (H5 _ _ _ Ha) as (A & B & C & D & c0 & Hc0 & Hin). do 4 (split; [assumption|]).
    destruct (decide (u = t)) as [->|Hu]; [|exists c0; now rewrite lookup_insert_ne]. exists c'. rewrite lookup_insert_eq. split; [reflexivity|]. assert (c0 = c) as -> by congruence. rewrite Hh in Hin. apply elem_of_cons in Hin as [->|Hin]; [congruence|exact Hin].
  - intros u c0. destruct (decide (u = t)) as [->|Hu]; [rewrite lookup_insert_eq; intros [= <-]|rewrite lookup_insert_ne by congruence; intros H0].
    + destruct (H6 _ _ Hc) as (A & B & C). split; [exact A|]. rewrite Hh in B. split; [now apply list.NoDup_cons in B as [_ B]|]. intros a Ha. rewrite HV by congruence. apply C. rewrite Hh. now right.
    + destruct (H6 _ _ H0) as (A & B & C). split; [exact A|]. split; [exact B|]. intros a Ha. destruct (C _ Ha) as [q0 Hq0]. exists q0. rewrite HV by congruence. exact Hq0.
  - intros a u q0 l0. destruct (decide (a = e)) as [->|Hne]; [congruence|]. rewrite HV, HL by exact Hne. apply H7.
  - intros q0 w Hw. destruct (H8 _ _ Hw) as (l0 & H0 & Hwk). exists l0. split; [exact H0|]. unfold waker_ok in *. destruct (w_phase w) as [|[|[|[|[|]]]]]; auto; destruct Hwk as (A & B & (u & Hu) & D); (split; [exact A|]; split; [exact B|]); rewrite HV, HL by congruence; eauto.
  - intros u m es x a. destruct (decide (u = t)) as [->|Hu]; [rewrite lookup_insert_eq; intros [= ->]; destruct Hn|rewrite lookup_insert_ne by congruence]. intros A B C D.
    destruct (H9 _ _ _ _ _ A B C D) as (q0 & l0 & F). exists q0, l0. rewrite HV; [exact F|]. intros ->. destruct F as [F _]. congruence.
Qed.

(** The holder of the lock of [q] moves on, comes or goes; it changes the links only
    of entries of [q] that are off the queue. *)
Lemma wok_waker q l L' W' : Q !! q = Some l ->
  (forall q', q' <> q -> W' !! q' = W !! q') ->
  (forall a, L' !! a = L !! a \/ (exists t, V a = Some (t, q)) /\ a ∉ l) -> (forall a, is_Some (L' !! a) <-> is_Some (L !! a)) ->
  (forall w, W' !! q = Some w -> waker_ok L' V q l w) ->
  (forall a t, V a = Some (t, q) -> a ∉ l -> L' !! a = Some (a, a) \/ exists w, W' !! q = Some w /\ w_curr w = a /\ (w_phase w = 3%nat \/ w_phase w = 4%nat)) ->
  (forall w t m es x, W' !! q = Some w -> V (w_curr w) = Some (t, q) -> P !! t = Some (Asleep m es) -> T t = Some x -> x <> PS_RUNNING -> w_phase w = 0%nat) ->
  wok L' V T P W' Q.
Proof.
  intros Hq HW HL HLs Hnew Hoff Hsl.
  assert (Hon : forall q0 l0 a, Q !! q0 = Some l0 -> a ∈ q0 :: l0 -> L' !! a = L !! a).
  { intros q0 l0 a H0 Ha. destruct (HL a) as [E|[[t Ht] Hni]]; [exact E|]. destruct (off_all _ _ _ _ _ _ Ht Hq Hni H0 Ha). }
  assert (Hoth : forall a t q0, V a = Some (t, q0) -> q0 <> q -> L' !! a = L !! a) by (intros a t q0 Ha Hne; destruct (HL a) as [E|[[t' Ht] _]]; [exact E|congruence]).
  destruct Hok as [H1 H2 H3 H4 H5 H6 H7 H8 H9]. split; auto.
  - intros q0 l0 H0. apply (ring_frame L); [auto|]. intros x. eapply Hon; eauto.
  - intros q0. rewrite HLs. apply H3.
  - intros a u q0. rewrite HLs. apply H5.
  - intros a u q0 l0 Ha. destruct (decide (q0 = q)) as [->|Hne]; [intros H0 Hni; apply (Hoff _ u); congruence|]. rewrite HW by exact Hne. rewrite (Hoth _ _ _ Ha Hne). apply (H7 _ _ _ _ Ha).
  - intros q0 w Hw. destruct (decide (q0 = q)) as [->|Hne]; [exists l; auto|]. rewrite HW in Hw by exact Hne. destruct (H8 _ _ Hw) as (l0 & H0 & Hwk). exists l0. split; [exact H0|].
    unfold waker_ok in *. destruct (w_phase w) as [|[|[|[|[|]]]]]; auto; destruct Hwk as (A & B & (u & Hu) & D); rewrite (Hoth _ _ _ Hu Hne); eauto.
  - intros u m es x a A B C D. destruct (H9 _ _ _ _ _ A B C D) as (q0 & l0 & F & G & H & I). exists q0, l0. do 3 (split; [assumption|]). intros w Hw Ew. destruct (decide (q0 = q)) as [->|Hne].
    + apply (Hsl w u m es x); congruence.
    + rewrite HW in Hw by exact Hne. auto.
Qed.
End wok.

(** ** Every step keeps it *)

Lemma on_mem_run {A} (k : WM A) y a s : k (mem y) = Done a s -> on_mem k y = Some (a, System s (pcs y) (wakers y)).
Proof. intros E. unfold on_mem. now rewrite E. Qed.

Definition good (y : system) (Q : gmap Z (list Z)) : Prop :=
  wok (links (mem y)) (view (entries (mem y))) (states (wthreads (mem y))) (pcs y) (wakers y) Q.

Lemma good_head y Q q : good y Q -> is_head y q -> exists l, Q !! q = Some l.
Proof. intros Hg [Hl He]. apply (k_queue _ _ _ _ _ _ Hg q Hl). unfold view. now rewrite He. Qed.

Lemma view_some E e x : E !! e = Some x -> view E e = Some (e_thd x, e_wq x).
Proof. intros H. unfold view. now rewrite H. Qed.
Lemma view_inv E e t q : view E e = Some (t, q) -> exists x, E !! e = Some x /\ e_thd x = t /\ e_wq x = q.
Proof. unfold view. destruct (E !! e) as [x|]; cbn; [intros [= <- <-]; eauto|discriminate]. Qed.
Lemma view_insert E e x a : view (<[e := x]> E) a = if decide (a = e) then Some (e_thd x, e_wq x) else view E a.
Proof. unfold view. case_decide as H; [subst; now rewrite lookup_insert_eq|now rewrite lookup_insert_ne]. Qed.
Lemma view_same E e x x' a : E !! e = Some x -> e_thd x' = e_thd x -> e_wq x' = e_wq x -> view (<[e := x']> E) a = view E a.
Proof. intros H E1 E2. rewrite view_insert. case_decide as Ha; [subst; now rewrite (view_some _ _ _ H), E1, E2|reflexivity]. Qed.
Lemma states_insert T t x u : states (<[t := x]> T) u = if decide (u = t) then Some (w_state x) else states T u.
Proof. unfold states. case_decide as H; [subst; now rewrite lookup_insert_eq|now rewrite lookup_insert_ne]. Qed.

(** The thread of an entry is there. *)
Lemma good_owner y Q e t q : good y Q -> view (entries (mem y)) e = Some (t, q) -> exists c th, pcs y !! t = Some c /\ e ∈ held c /\ wthreads (mem y) !! t = Some th.
Proof.
  intros Hg Hv. destruct (k_entry _ _ _ _ _ _ Hg _ _ _ Hv) as (_ & _ & _ & _ & c & Hc & He). destruct (k_held _ _ _ _ _ _ Hg _ _ Hc) as ([x Hx] & _). unfold states in Hx.
  destruct (wthreads (mem y) !! t) as [th|] eqn:E; [eauto|discriminate].
Qed.

Lemma interrupt_step y Q t : good y Q -> is_Some (pcs y !! t) -> exists y', exec (Interrupt t) y = Some y' /\ good y' Q.
Proof.
  intros Hg [c Hc]. destruct (k_held _ _ _ _ _ _ Hg _ _ Hc) as ([x Hx] & _). unfold states in Hx. destruct (wthreads (mem y) !! t) as [th|] eqn:E; [|discriminate].
  cbn [exec]. unfold on_mem, interrupt. rewrite (unblock_run _ _ _ _ E). eexists. split; [reflexivity|]. unfold good. cbn.
  apply (wok_run _ _ _ _ _ _ Hg t); [rewrite states_insert, decide_True; reflexivity|]. intros u Hu. now rewrite states_insert, decide_False.
Qed.

Lemma held_leave es : held (leave es) = es.
Proof. now destruct es. Qed.
Lemma leave_awake es : not_asleep (leave es).
Proof. now destruct es. Qed.

Lemma cancel_step y Q t m es : good y Q -> pcs y !! t = Some (Asleep m es) -> exists y', exec (Cancel t) y = Some y' /\ good y' Q.
Proof.
  intros Hg Hc. cbn [exec]. rewrite Hc. eexists. split; [reflexivity|]. unfold good. cbn. apply (wok_goto _ _ _ _ _ _ Hg t _ _ Hc); [|apply leave_awake]. rewrite held_leave. cbn. apply reverse_Permutation.
Qed.

Lemma multi_which_run s es : forall i, (forall e, e ∈ es -> is_Some (entries s !! e)) -> exists r, multi_which es i s = Done r s.
Proof.
  induction es as [|e es IH]; intros i H; [eexists; reflexivity|]. destruct (H e ltac:(left)) as [x Ex]. cbn [multi_which]. wrun (get_entry_run _ _ _ Ex).
  destruct (awoken x); [eexists; reflexivity|]. apply IH. intros a Ha. apply H. now right.
Qed.

Lemma start_return_run s e x th : entries s !! e = Some x -> wthreads s !! e_thd x = Some th ->
  exists x', start_return e s = Done (u8 (e_result x')) (with_entries (<[e := x']> (entries s)) s) /\ e_thd x' = e_thd x /\ e_wq x' = e_wq x.
Proof.
  intros Ex Et. unfold start_return. wrun (get_entry_run _ _ _ Ex). wrun (get_wthread_run _ _ _ Et). destruct (rudely_awoken th).
  - wrun (upd_entry_run e (set_result (Z.lor (e_result x) WAIT_RES_INTR)) x s Ex). eexists. erewrite bind_done by (apply get_entry_run, lookup_insert_eq). split; [reflexivity|now split].
  - wret. wrun (get_entry_run _ _ _ Ex). exists x. split; [|now split]. unfold with_entries. rewrite insert_id by exact Ex. now destruct s.
Qed.

Lemma resume_step y Q t m es : good y Q -> pcs y !! t = Some (Asleep m es) -> exists y', exec (Resume t) y = Some y' /\ good y' Q.
Proof.
  intros Hg Hc. destruct (k_held _ _ _ _ _ _ Hg _ _ Hc) as (_ & _ & Hh). cbn [held] in Hh.
  assert (Hm : exists r s', after_yield m es (mem y) = Done r s' /\ links s' = links (mem y) /\ wthreads s' = wthreads (mem y) /\ forall a, view (entries s') a = view (entries (mem y)) a).
  { unfold after_yield. destruct m; [|destruct es as [|e es]].
    - destruct (multi_which_run (mem y) es 0) as [r Hr]; [|eauto 10]. intros e He. destruct (Hh e He) as [q Hv]. destruct (view_inv _ _ _ _ Hv) as (x & Ex & _). eauto.
    - eexists _, _. split; [reflexivity|auto].
    - destruct (Hh e ltac:(left)) as [q Hv]. destruct (good_owner _ _ _ _ _ Hg Hv) as (_ & th & _ & _ & Et). destruct (view_inv _ _ _ _ Hv) as (x & Ex & E1 & E2). rewrite <- E1 in Et.
      destruct (start_return_run _ _ _ _ Ex Et) as (x' & Er & F1 & F2). eexists _, _. split; [exact Er|]. do 2 (split; [reflexivity|]). intros a. now apply (view_same _ _ x). }
  destruct Hm as (r & s' & Er & E1 & E2 & E3). cbn [exec]. rewrite Hc. unfold on_mem. rewrite Er. cbn. eexists. split; [reflexivity|]. unfold good. cbn. rewrite E1, E2.
  apply (wok_ext _ (view (entries (mem y))) (states (wthreads (mem y)))); [|exact E3|reflexivity]. apply (wok_goto _ _ _ _ _ _ Hg t _ _ Hc); [|apply leave_awake]. rewrite held_leave. cbn. apply reverse_Permutation.
Qed.

Lemma set_state_run t st x s : wthreads s !! t = Some x -> thread_set_state t st s = Done tt (with_threads (<[t := WThread st (rudely_awoken x)]> (wthreads s)) s).
Proof. intros E. unfold thread_set_state. now rewrite (upd_wthread_run _ _ _ _ E). Qed.

(** The first entry of a thread that is not asleep. *)
Lemma good_first y Q t c e es : good y Q -> pcs y !! t = Some c -> held c = e :: es ->
  exists x l p n th, entries (mem y) !! e = Some x /\ e_thd x = t /\ Q !! e_wq x = Some l /\ e_wq x <> 0 /\ links (mem y) !! e = Some (p, n) /\ wthreads (mem y) !! t = Some th.
Proof.
  intros Hg Hc Hh. destruct (k_held _ _ _ _ _ _ Hg _ _ Hc) as (_ & _ & H). destruct (H e ltac:(rewrite Hh; left)) as [q Hv]. destruct (view_inv _ _ _ _ Hv) as (x & Ex & E1 & E2).
  destruct (k_entry _ _ _ _ _ _ Hg _ _ _ Hv) as ([l Hl] & [[p n] El] & _). destruct (k_head _ _ _ _ _ _ Hg _ _ Hl) as [_ H0]. destruct (good_owner _ _ _ _ _ Hg Hv) as (_ & th & _ & _ & Et).
  exists x, l, p, n, th. rewrite E2. repeat split; auto.
Qed.

Lemma look_step y Q t e es : good y Q -> pcs y !! t = Some (Leaving (e :: es)) -> exists y', exec (Look t) y = Some y' /\ good y' Q.
Proof.
  intros Hg Hc. destruct (good_first _ _ _ _ _ _ Hg Hc eq_refl) as (x & l & p & n & th & Ex & Et & Hl & H0 & El & Hth).
  assert (Er : finish_begin e (mem y) = Done (n =? e) (with_threads (<[t := WThread PS_RUNNING (rudely_awoken th)]> (wthreads (mem y))) (mem y))).
  { unfold finish_begin. wrun (get_entry_run _ _ _ Ex). rewrite (proj2 (Z.eqb_neq _ _) H0). unfold wassert. cbn [negb]. wret. rewrite Et. wrun (set_state_run _ PS_RUNNING _ _ Hth). now wrun (get_link_run e _ (with_threads (<[t := WThread PS_RUNNING (rudely_awoken th)]> (wthreads (mem y))) (mem y)) El). }
  cbn [exec]. rewrite Hc. unfold on_mem. rewrite Er. cbn. eexists. split; [reflexivity|]. unfold good. cbn.
  assert (Hg' : wok (links (mem y)) (view (entries (mem y))) (states (<[t := WThread PS_RUNNING (rudely_awoken th)]> (wthreads (mem y)))) (pcs y) (wakers y) Q).
  { apply (wok_run _ _ _ _ _ _ Hg t); [now rewrite states_insert, decide_True|intros u Hu; now rewrite states_insert, decide_False]. }
  apply (wok_goto _ _ _ _ _ _ Hg' t _ _ Hc); now destruct (n =? e).
Qed.

(** The end of the destructor. *)
Lemma finish_end_run e x s : entries s !! e = Some x -> finish_end e s = Done tt (World (delete e (links s)) (delete e (entries s)) (wthreads s)).
Proof. intros Ex. unfold finish_end. wrun (upd_entry_run e (set_wq 0) x s Ex). unfold drop_entry, modify. cbn. now rewrite delete_insert_eq. Qed.

Lemma free_good y Q t c es e x l : good y Q -> pcs y !! t = Some c -> held c = e :: es -> entries (mem y) !! e = Some x -> Q !! e_wq x = Some l -> e ∉ l -> links (mem y) !! e = Some (e, e) ->
  good (System (World (delete e (links (mem y))) (delete e (entries (mem y))) (wthreads (mem y))) (<[t := leave es]> (pcs y)) (wakers y)) Q.
Proof.
  intros Hg Hc Hh Ex Hl Hni El. destruct (good_first _ _ _ _ _ _ Hg Hc Hh) as (x' & _ & _ & _ & _ & Ex' & Et & _). assert (x' = x) as -> by congruence. unfold good. cbn.
  apply (wok_free _ _ _ _ _ _ Hg e t (e_wq x) l c); auto.
  - now rewrite (view_some _ _ _ Ex), Et.
  - now rewrite Hh, held_leave.
  - apply leave_awake.
  - unfold view. now rewrite lookup_delete_eq.
  - intros a Ha. unfold view. now rewrite lookup_delete_ne.
Qed.

Lemma look_again_step y Q t e es : good y Q -> pcs y !! t = Some (Looking e es) -> exists y', exec (LookAgain t) y = Some y' /\ good y' Q.
Proof.
  intros Hg Hc. destruct (good_first _ _ _ _ _ _ Hg Hc eq_refl) as (x & l & p & n & th & Ex & Et & Hl & H0 & El & Hth).
  assert (Er : finish_look e (mem y) = Done (e =? p) (mem y)) by (unfold finish_look; now wrun (get_link_run _ _ _ El)).
  cbn [exec]. rewrite Hc, (on_mem_run _ _ _ _ Er). cbn. destruct (Z.eqb_spec e p) as [<-|Hne].
  - unfold on_mem. cbn [mem pcs wakers]. rewrite (finish_end_run _ _ _ Ex). cbn. eexists. split; [reflexivity|]. pose proof (view_some _ _ _ Ex) as Hv.
    assert (Hni : e ∉ l) by (intros Hin; now destruct (on_queue_links _ _ _ _ _ _ Hg _ _ _ _ _ _ Hv Hl Hin El)).
    refine (free_good y Q t _ es e x l Hg Hc eq_refl Ex Hl Hni _). destruct (k_off _ _ _ _ _ _ Hg _ _ _ _ Hv Hl Hni) as [|(w & Hw & <- & Hph)]; [assumption|exfalso].
    destruct (k_entry _ _ _ _ _ _ Hg _ _ _ Hv) as (_ & _ & _ & Hp2 & _). destruct (k_waker _ _ _ _ _ _ Hg _ _ Hw) as (l' & _ & Hwk). unfold waker_ok in Hwk. destruct Hph as [Hph|Hph]; rewrite Hph in Hwk; destruct Hwk as (_ & _ & _ & E); congruence.
  - eexists. split; [reflexivity|]. unfold good. cbn. now apply (wok_goto _ _ _ _ _ _ Hg t _ _ Hc).
Qed.

(** Taking an entry off its queue under the lock, whether it is still there or not. *)
Lemma unlink_good y Q t c e es x : good y Q -> pcs y !! t = Some c -> not_asleep c -> held c = e :: es -> entries (mem y) !! e = Some x -> wakers y !! e_wq x = None ->
  exists L' Q' l, list_del_init e (mem y) = Done tt (with_links L' (mem y)) /\ good (System (with_links L' (mem y)) (pcs y) (wakers y)) Q' /\ Q' !! e_wq x = Some l /\ e ∉ l /\ L' !! e = Some (e, e).
Proof.
  intros Hg Hc Hn Hh Ex Hw. destruct (good_first _ _ _ _ _ _ Hg Hc Hh) as (x' & l & p & n & th & Ex' & Et & Hl & H0 & El & Hth). assert (x' = x) as -> by congruence. pose proof (view_some _ _ _ Ex) as Hv.
  destruct (decide (e ∈ l)) as [Hin|Hni].
  - apply list_elem_of_split in Hin as (l1 & l2 & ->). pose proof (k_ring _ _ _ _ _ _ Hg _ _ Hl) as Hr. pose proof (ring_links _ _ _ _ _ Hr) as El'. destruct (around (e_wq x) l1 l2) as [A B].
    assert (Hs : forall a, a ∈ e_wq x :: l1 ++ l2 -> is_Some (links (mem y) !! a)) by (intros a Ha; apply (ring_is _ _ _ _ Hr); rewrite elem_of_cons, elem_of_app in *; rewrite elem_of_cons; tauto).
    eexists _, _, (l1 ++ l2). split; [apply (del_init_run _ _ _ _ El' (Hs _ A) (Hs _ B))|]. split; [|split; [apply lookup_insert_eq|split; [|apply self_at, cut_is; eauto]]].
    + unfold good. cbn. apply (wok_cut _ _ _ _ _ _ Hg e t (e_wq x) l1 l2); [now rewrite Hv, Et|exact Hl| | | | | | |].
      * intros a Ha. now apply self_other.
      * apply self_is, cut_is. eauto.
      * reflexivity.
      * intros w Hw'. congruence.
      * intros w Hw'. congruence.
      * left. apply self_at, cut_is. eauto.
      * intros m es' z Hc'. assert (c = Asleep m es') as -> by congruence. destruct Hn.
    + destruct Hr as [Hnd _]. rewrite <- Permutation_middle, !list.NoDup_cons in Hnd. tauto.
  - assert (Es : links (mem y) !! e = Some (e, e)) by (destruct (k_off _ _ _ _ _ _ Hg _ _ _ _ Hv Hl Hni) as [|(w & Hw' & _)]; [assumption|congruence]).
    exists (links (mem y)), Q, l. split; [|split; [now destruct y as [[]]|auto]]. rewrite (del_init_run _ _ _ _ Es) by eauto. do 2 f_equal. apply map_eq. intros a. destruct (decide (a = e)) as [->|Ha].
    + rewrite Es. apply self_at, cut_is. eauto.
    + rewrite self_other, cut_other by assumption. reflexivity.
Qed.

Lemma unlink_step y Q t e es : good y Q -> pcs y !! t = Some (Unlinking e es) -> (forall x, entries (mem y) !! e = Some x -> wakers y !! e_wq x = None) ->
  exists y' Q', exec (Unlink t) y = Some y' /\ good y' Q'.
Proof.
  intros Hg Hc Hfree. destruct (good_first _ _ _ _ _ _ Hg Hc eq_refl) as (x & _ & _ & _ & _ & Ex & _).
  destruct (unlink_good y Q t _ e es x Hg Hc I eq_refl Ex (Hfree _ Ex)) as (L' & Q' & l & Er & Hg' & Hl & Hni & Es).
  cbn [exec]. rewrite Hc. unfold on_mem. wrun Er. rewrite (finish_end_run e x (with_links L' (mem y)) Ex). cbn. eexists _, Q'. split; [reflexivity|].
  exact (free_good _ Q' t (Unlinking e es) es e x l Hg' Hc eq_refl Ex Hl Hni Es).
Qed.

(** The first node of a queue and what follows it. *)
Lemma first_links L q l : ring L q l -> exists p n, L !! hd_addr id q l = Some (p, n) /\ forall e l', l = e :: l' -> n = hd_addr id q l'.
Proof.
  intros Hr. destruct (around q [] l) as [_ Hh]. destruct (ring_is _ _ _ _ Hr Hh) as [[p n] El]. exists p, n. split; [exact El|]. intros e l' ->.
  pose proof (ring_links _ _ [] e l' Hr) as Ee. cbn in El. change (id e) with e in El. congruence.
Qed.

(** The holder of a lock changes and nothing else. *)
Lemma waker_good y Q q l W' : good y Q -> Q !! q = Some l -> (forall q', q' <> q -> W' !! q' = wakers y !! q') ->
  (forall w, wakers y !! q = Some w -> w_phase w <> 3%nat /\ w_phase w <> 4%nat) ->
  (forall w, W' !! q = Some w -> waker_ok (links (mem y)) (view (entries (mem y))) q l w) ->
  (forall w t m es x, W' !! q = Some w -> view (entries (mem y)) (w_curr w) = Some (t, q) -> pcs y !! t = Some (Asleep m es) -> states (wthreads (mem y)) t = Some x -> x <> PS_RUNNING -> w_phase w = 0%nat) ->
  good (System (mem y) (pcs y) W') Q.
Proof.
  intros Hg Hl HW Hold Hnew Hs. unfold good. cbn. apply (wok_waker _ _ _ _ _ _ Hg q l); auto; try tauto.
  intros a t Ha Hni. destruct (k_off _ _ _ _ _ _ Hg _ _ _ _ Ha Hl Hni) as [|(w & Hw & _ & Hph)]; [now left|]. destruct (Hold _ Hw). tauto.
Qed.

Lemma lock_step y Q q nr : good y Q -> is_head y q -> wakers y !! q = None -> exists y', exec (Lock q nr) y = Some y' /\ good y' Q.
Proof.
  intros Hg Hh Hw. destruct (good_head _ _ _ Hg Hh) as [l Hl]. pose proof (k_ring _ _ _ _ _ _ Hg _ _ Hl) as Hr. pose proof (ring_first _ _ _ Hr) as Ef. unfold nx in Ef. destruct Hh as [[[p0 n0] El] _]. rewrite El in Ef. injection Ef as ->.
  destruct (first_links _ _ _ Hr) as (p & n & Ec & Hn).
  assert (Er : wake_start q nr (mem y) = Done (Waker (hd_addr id q l) n nr 0 0) (mem y)) by (unfold wake_start; wrun (get_link_run _ _ _ El); cbn [snd]; now wrun (get_link_run _ _ _ Ec)).
  cbn [exec]. rewrite (on_mem_run _ _ _ _ Er). cbn. eexists. split; [reflexivity|]. apply (waker_good y Q q l); auto.
  - intros q' Hq'. now rewrite lookup_insert_ne by congruence.
  - congruence.
  - intros w. rewrite lookup_insert_eq. intros [= <-]. now split.
  - intros w t m es x. rewrite lookup_insert_eq. now intros [= <-].
Qed.

Lemma exec_wake y q w w' s : wakers y !! q = Some w -> wake_step q w (mem y) = Done w' s -> exec (Wake q) y = Some (set_waker q w' (System s (pcs y) (wakers y))).
Proof. intros Hw Er. cbn [exec]. rewrite Hw. cbn. now rewrite (on_mem_run _ _ _ _ Er). Qed.

(** It lets go. *)
Lemma release_good y Q q w : good y Q -> wakers y !! q = Some w -> w_phase w <> 3%nat -> w_phase w <> 4%nat -> good (System (mem y) (pcs y) (delete q (wakers y))) Q.
Proof.
  intros Hg Hw H3 H4. destruct (k_waker _ _ _ _ _ _ Hg _ _ Hw) as (l & Hl & _). apply (waker_good y Q q l); auto.
  - intros q' Hq'. now rewrite lookup_delete_ne by congruence.
  - intros w' Hw'. assert (w' = w) as -> by congruence. auto.
  - intros w' Hw'. rewrite lookup_delete_eq in Hw'. discriminate.
  - intros w' t m es x Hw'. rewrite lookup_delete_eq in Hw'. discriminate.
Qed.

(** Phase 0: the end of the list, or the thread of the first entry becomes runnable. *)
Lemma wake0_step y Q q curr next nr flags : good y Q -> wakers y !! q = Some (Waker curr next nr flags 0) -> exists y', exec (Wake q) y = Some y' /\ good y' Q.
Proof.
  intros Hg Hw. destruct (k_waker _ _ _ _ _ _ Hg _ _ Hw) as (l & Hl & Ec & Hn). cbn in Ec, Hn. destruct (Z.eqb_spec curr q) as [Eq|Hne].
  - erewrite exec_wake; [|exact Hw|cbn; rewrite (proj2 (Z.eqb_eq curr q) Eq); reflexivity]. eexists. split; [reflexivity|]. now apply (release_good y Q q _ Hg Hw).
  - destruct l as [|e l]; [easy|]. change (curr = e) in Ec. subst curr. specialize (Hn e l eq_refl). destruct (k_in _ _ _ _ _ _ Hg _ _ e Hl ltac:(left)) as [t Hv]. destruct (good_owner _ _ _ _ _ Hg Hv) as (_ & th & _ & _ & Hth). destruct (view_inv _ _ _ _ Hv) as (x & Ex & Et & Eq).
    assert (Er : exists E', wake_first e (mem y) = Done (e_flags x) (World (links (mem y)) E' (<[t := WThread PS_RUNNING false]> (wthreads (mem y)))) /\ forall a, view E' a = view (entries (mem y)) a).
    { unfold wake_first. subst t. destruct (e_func x) eqn:Ef.
      - eexists. wrun (get_entry_run _ _ _ Ex). rewrite Ef. wret. wrun (wake_unblock_run e x (mem y) Ex ltac:(eauto)). split; [reflexivity|reflexivity].
      - eexists. wrun (get_entry_run _ _ _ Ex). rewrite Ef. wrun (upd_entry_run e set_awoken x (mem y) Ex). wrun (wake_unblock_run e (set_awoken x) (with_entries (<[e := set_awoken x]> (entries (mem y))) (mem y)) ltac:(apply lookup_insert_eq) ltac:(cbn; eauto)).
        split; [reflexivity|]. intros a. now apply (view_same _ _ x). }
    destruct Er as (E' & Er & Hve). erewrite exec_wake; [|exact Hw|cbn; rewrite (proj2 (Z.eqb_neq e q) Hne); wrun Er; reflexivity]. eexists. split; [reflexivity|]. cbn.
    set (T' := <[t := _]> _). set (y' := System (World (links (mem y)) E' T') (pcs y) (wakers y)).
    assert (Ht : states T' t = Some PS_RUNNING) by (unfold T'; now rewrite states_insert, decide_True).
    assert (Hg' : good y' Q).
    { unfold good. cbn. apply (wok_ext _ (view (entries (mem y))) (states T')); [|exact Hve|reflexivity]. apply (wok_run _ _ _ _ _ _ Hg t _ Ht). intros u Hu. unfold T'. now rewrite states_insert, decide_False. }
    apply (waker_good y' Q q (e :: l)); auto; cbn.
    + intros q' Hq'. now rewrite lookup_insert_ne by congruence.
    + intros w Hw'. rewrite Hw in Hw'. injection Hw' as <-. cbn. lia.
    + intros w. rewrite lookup_insert_eq. intros [= <-]. cbn. eauto.
    + intros w u m es z. rewrite lookup_insert_eq. intros [= <-]. cbn. rewrite Hve, Hv. intros [= <-] _. rewrite Ht. congruence.
Qed.

(** The thread of the entry that is being woken. *)
Lemma waking_runs y Q q w l : good y Q -> wakers y !! q = Some w -> Q !! q = Some l -> w_curr w ∈ l -> w_phase w <> 0%nat ->
  exists t, view (entries (mem y)) (w_curr w) = Some (t, q) /\ forall m es x, pcs y !! t = Some (Asleep m es) -> states (wthreads (mem y)) t = Some x -> x = PS_RUNNING.
Proof.
  intros Hg Hw Hl Hin Hph. destruct (k_in _ _ _ _ _ _ Hg _ _ _ Hl Hin) as [t Hv]. exists t. split; [exact Hv|]. intros m es x Hc Hx. destruct (decide (x = PS_RUNNING)) as [|Hne]; [assumption|exfalso].
  destruct (k_entry _ _ _ _ _ _ Hg _ _ _ Hv) as (_ & _ & _ & _ & c & Hc' & He). rewrite Hc in Hc'. injection Hc' as <-.
  destruct (k_sleep _ _ _ _ _ _ Hg _ _ _ _ _ Hc Hx Hne He) as (q' & l' & Hv' & _ & _ & H). rewrite Hv in Hv'. injection Hv' as <-. exact (Hph (H _ Hw eq_refl)).
Qed.

(** Phase 1: its result and its flags. *)
Lemma wake1_step y Q q curr next nr flags : good y Q -> wakers y !! q = Some (Waker curr next nr flags 1) -> exists y', exec (Wake q) y = Some y' /\ good y' Q.
Proof.
  intros Hg Hw. destruct (k_waker _ _ _ _ _ _ Hg _ _ Hw) as (l & Hl & l' & El & Hn). cbn in El, Hn. destruct (waking_runs y Q q _ l Hg Hw Hl ltac:(rewrite El; left) ltac:(discriminate)) as (t & Hv & Hrun). cbn in Hv.
  destruct (good_owner _ _ _ _ _ Hg Hv) as (_ & th & _ & _ & Hth). destruct (view_inv _ _ _ _ Hv) as (x & Ex & Et & Eq). rewrite <- Et in Hth.
  erewrite exec_wake; [|exact Hw|cbn; wrun (wake_result_run _ _ _ _ Ex Hth); reflexivity]. eexists. split; [reflexivity|]. cbn. set (E' := <[curr := _]> (entries (mem y))).
  assert (Hve : forall a, view E' a = view (entries (mem y)) a) by (intros a; now apply (view_same _ _ x)).
  set (y' := System (World (links (mem y)) E' (wthreads (mem y))) (pcs y) (wakers y)).
  assert (Hg' : good y' Q) by (unfold good; cbn; now apply (wok_ext _ (view (entries (mem y))) (states (wthreads (mem y))) _ _ _ Hg)).
  apply (waker_good y' Q q l); auto; cbn.
  - intros q' Hq'. now rewrite lookup_insert_ne by congruence.
  - intros w Hw'. rewrite Hw in Hw'. injection Hw' as <-. cbn. lia.
  - intros w. rewrite lookup_insert_eq. intros [= <-]. cbn. eauto.
  - intros w u m es z. rewrite lookup_insert_eq. intros [= <-]. cbn. rewrite Hve, Hv. intros [= <-] Hc Hz. now rewrite (Hrun _ _ _ Hc Hz).
Qed.

(** Phase 2: it is unlinked. *)
Lemma wake2_step y Q q curr next nr flags : good y Q -> wakers y !! q = Some (Waker curr next nr flags 2) -> exists y' Q', exec (Wake q) y = Some y' /\ good y' Q'.
Proof.
  intros Hg Hw. destruct (k_waker _ _ _ _ _ _ Hg _ _ Hw) as (l & Hl & l' & El & Hn). cbn in El, Hn. subst l. destruct (waking_runs y Q q _ _ Hg Hw Hl ltac:(left) ltac:(discriminate)) as (t & Hv & Hrun). cbn in Hv.
  pose proof (k_ring _ _ _ _ _ _ Hg _ _ Hl) as Hr. pose proof (ring_links _ _ [] _ _ Hr) as Ec. destruct (around q [] l') as [A B].
  assert (Hs : forall a, a ∈ q :: l' -> is_Some (links (mem y) !! a)) by (intros a Ha; apply (ring_is _ _ _ _ Hr); rewrite !elem_of_cons in *; tauto).
  erewrite exec_wake; [|exact Hw|cbn; wrun (list_del_run _ _ _ _ Ec (Hs _ A) (Hs _ B)); reflexivity]. eexists _, (<[q := [] ++ l']> Q). split; [reflexivity|]. unfold good. cbn.
  pose proof (poison_self curr (cut_between q (hd_addr id q l') (links (mem y))) ltac:(unfold cut_between; apply setn_is, setp_is; eauto)) as Hpo.
  apply (wok_cut _ _ _ _ _ _ Hg curr t q [] l'); auto.
  - intros q' Hq'. now rewrite lookup_insert_ne by congruence.
  - intros w Hw'. rewrite Hw in Hw'. now injection Hw' as <-.
  - intros w. rewrite lookup_insert_eq. intros [= <-]. split; [|reflexivity]. unfold waker_ok. cbn. split; [exact Hn|]. split; [|split; [eauto|exact Hpo]]. destruct Hr as [Hnd _]. rewrite !list.NoDup_cons in Hnd. tauto.
  - right. eexists. rewrite lookup_insert_eq. now split.
Qed.

(** Phases 3 and 4: its links lead to itself again. *)
Lemma relink_good y Q q w w' l L' : good y Q -> wakers y !! q = Some w -> Q !! q = Some l -> w_curr w ∉ l -> (exists t, view (entries (mem y)) (w_curr w) = Some (t, q)) -> w_curr w' = w_curr w ->
  (forall a, a <> w_curr w -> L' !! a = links (mem y) !! a) -> is_Some (links (mem y) !! w_curr w) -> is_Some (L' !! w_curr w) ->
  waker_ok L' (view (entries (mem y))) q l w' ->
  (L' !! w_curr w = Some (w_curr w, w_curr w) \/ w_phase w' = 4%nat) ->
  (forall t x m es, view (entries (mem y)) (w_curr w) = Some (t, q) -> pcs y !! t = Some (Asleep m es) -> states (wthreads (mem y)) t = Some x -> x = PS_RUNNING) ->
  good (System (with_links L' (mem y)) (pcs y) (<[q := w']> (wakers y))) Q.
Proof.
  intros Hg Hw Hl Hni Hv Ec HL Hs Hs' Hok Hself Hrun. unfold good. cbn. apply (wok_waker _ _ _ _ _ _ Hg q l); auto.
  - intros q' Hq'. now rewrite lookup_insert_ne by congruence.
  - intros a. destruct (decide (a = w_curr w)) as [->|Ha]; auto.
  - intros a. destruct (decide (a = w_curr w)) as [->|Ha]; [tauto|now rewrite HL].
  - intros w0. rewrite lookup_insert_eq. now intros [= <-].
  - intros a t Ha Hna. destruct (decide (a = w_curr w)) as [->|Hne].
    + destruct Hself as [H|H]; [now left|]. right. exists w'. rewrite lookup_insert_eq. auto.
    + rewrite HL by exact Hne. destruct (k_off _ _ _ _ _ _ Hg _ _ _ _ Ha Hl Hna) as [|(w0 & Hw0 & E0 & _)]; [now left|congruence].
  - intros w0 t m es x. rewrite lookup_insert_eq. intros [= <-]. rewrite Ec. intros A B C D. destruct D. eauto.
Qed.

(** A thread whose entry is off its queue is not asleep for long. *)
Lemma off_runs y Q e t q l : good y Q -> view (entries (mem y)) e = Some (t, q) -> Q !! q = Some l -> e ∉ l ->
  forall t' x m es, view (entries (mem y)) e = Some (t', q) -> pcs y !! t' = Some (Asleep m es) -> states (wthreads (mem y)) t' = Some x -> x = PS_RUNNING.
Proof.
  intros Hg Hv Hl Hni t' x m es Hv' Hc Hx. destruct (decide (x = PS_RUNNING)) as [|Hne]; [assumption|exfalso]. destruct (k_entry _ _ _ _ _ _ Hg _ _ _ Hv') as (_ & _ & _ & _ & c & Hc' & He). rewrite Hc in Hc'. injection Hc' as <-.
  destruct (k_sleep _ _ _ _ _ _ Hg _ _ _ _ _ Hc Hx Hne He) as (q' & l' & Hv2 & Hl' & Hin & _). rewrite Hv' in Hv2. injection Hv2 as <-. congruence.
Qed.

Lemma wake3_step y Q q curr next nr flags : good y Q -> wakers y !! q = Some (Waker curr next nr flags 3) -> exists y', exec (Wake q) y = Some y' /\ good y' Q.
Proof.
  intros Hg Hw. destruct (k_waker _ _ _ _ _ _ Hg _ _ Hw) as (l & Hl & Hn & Hni & [t Hv] & El). cbn in Hn, Hni, Hv, El.
  erewrite exec_wake; [|exact Hw|cbn; wrun (set_next_run curr curr (mem y) ltac:(eauto)); reflexivity]. eexists. split; [reflexivity|]. cbn.
  assert (Es : setn curr curr (links (mem y)) !! curr = Some (LIST_POISON2, curr)) by (unfold setn; now rewrite lookup_alter_eq, El).
  eapply (relink_good y Q q _ _ l _ Hg Hw Hl); cbn;
    [exact Hni|eauto|reflexivity|intros a Ha; now apply setn_other|eauto|eauto|unfold waker_ok; cbn; eauto|eauto|exact (off_runs _ _ _ _ _ _ Hg Hv Hl Hni)].
Qed.

Lemma wake4_step y Q q curr next nr flags : good y Q -> wakers y !! q = Some (Waker curr next nr flags 4) -> exists y', exec (Wake q) y = Some y' /\ good y' Q.
Proof.
  intros Hg Hw. destruct (k_waker _ _ _ _ _ _ Hg _ _ Hw) as (l & Hl & Hn & Hni & [t Hv] & El). cbn in Hn, Hni, Hv, El.
  erewrite exec_wake; [|exact Hw|cbn; wrun (set_prev_run curr curr (mem y) ltac:(eauto)); reflexivity]. eexists. split; [reflexivity|]. cbn.
  assert (Es : setp curr curr (links (mem y)) !! curr = Some (curr, curr)) by (unfold setp; now rewrite lookup_alter_eq, El).
  eapply (relink_good y Q q _ _ l _ Hg Hw Hl); cbn;
    [exact Hni|eauto|reflexivity|intros a Ha; now apply setp_other|eauto|eauto|exact Hn|eauto|exact (off_runs _ _ _ _ _ _ Hg Hv Hl Hni)].
Qed.

(** Phase 5: the loop ends or goes on. *)
Lemma wake5_step y Q q curr next nr flags : good y Q -> wakers y !! q = Some (Waker curr next nr flags 5) -> exists y', exec (Wake q) y = Some y' /\ good y' Q.
Proof.
  intros Hg Hw. destruct (k_waker _ _ _ _ _ _ Hg _ _ Hw) as (l & Hl & Hn). cbn in Hn. subst next. destruct (first_links _ _ _ (k_ring _ _ _ _ _ _ Hg _ _ Hl)) as (p & n & El & Hnx).
  destruct (count_exclusive true flags nr) as [stop nr'] eqn:Ec. destruct stop.
  - erewrite exec_wake; [|exact Hw|cbn; rewrite Ec; reflexivity]. eexists. split; [reflexivity|]. now apply (release_good y Q q _ Hg Hw).
  - erewrite exec_wake; [|exact Hw|cbn; rewrite Ec; wrun (get_link_run _ _ _ El); reflexivity]. eexists. split; [reflexivity|]. cbn. apply (waker_good y Q q l); auto.
    + intros q' Hq'. now rewrite lookup_insert_ne by congruence.
    + intros w Hw'. rewrite Hw in Hw'. injection Hw' as <-. cbn. lia.
    + intros w. rewrite lookup_insert_eq. intros [= <-]. now split.
    + intros w t m es x. rewrite lookup_insert_eq. now intros [= <-].
Qed.

Lemma wake_step_good y Q q : good y Q -> is_Some (wakers y !! q) -> exists y' Q', exec (Wake q) y = Some y' /\ good y' Q'.
Proof.
  intros Hg [[curr next nr flags ph] Hw]. destruct ph as [|[|[|[|[|[|ph]]]]]].
  - destruct (wake0_step _ _ _ _ _ _ _ Hg Hw) as (y' & H). eauto.
  - destruct (wake1_step _ _ _ _ _ _ _ Hg Hw) as (y' & H). eauto.
  - exact (wake2_step _ _ _ _ _ _ _ Hg Hw).
  - destruct (wake3_step _ _ _ _ _ _ _ Hg Hw) as (y' & H). eauto.
  - destruct (wake4_step _ _ _ _ _ _ _ Hg Hw) as (y' & H). eauto.
  - destruct (wake5_step _ _ _ _ _ _ _ Hg Hw) as (y' & H). eauto.
  - destruct (k_waker _ _ _ _ _ _ Hg _ _ Hw) as (l & _ & Hwk). destruct Hwk.
Qed.

Lemma list_add_run s q l e : ring (links s) q l -> is_Some (links s !! e) -> list_add q e s = Done tt (with_links (put_between e (last_addr id q []) (hd_addr id q l) (links s)) s).
Proof.
  intros Hr He. destruct (ring_is _ _ _ q Hr ltac:(left)) as [[p n] El]. pose proof (ring_first _ _ _ Hr) as Ef. unfold nx in Ef. rewrite El in Ef. injection Ef as ->. destruct (around q [] l) as [A B].
  unfold list_add. wrun (get_link_run _ _ _ El). apply add_between_run; [exact He|eauto|]. exact (ring_is _ _ _ _ Hr B).
Qed.
Lemma list_add_tail_run s q l e : ring (links s) q l -> is_Some (links s !! e) -> list_add_tail q e s = Done tt (with_links (put_between e (last_addr id q l) (hd_addr id q []) (links s)) s).
Proof.
  intros Hr He. destruct (ring_is _ _ _ q Hr ltac:(left)) as [[p n] El]. pose proof (ring_last _ _ _ Hr) as Ef. unfold pv in Ef. rewrite El in Ef. injection Ef as ->. destruct (around q l []) as [A B]. rewrite app_nil_r in A.
  unfold list_add_tail. wrun (get_link_run _ _ _ El). apply add_between_run; [exact He| |eauto]. exact (ring_is _ _ _ _ Hr A).
Qed.

(** A new entry of a thread that is at work. *)
Lemma fresh_good s P W Q t c q l e x : wok (links s) (view (entries s)) (states (wthreads s)) P W Q -> P !! t = Some c -> links s !! e = None -> e <> LIST_POISON1 -> e <> LIST_POISON2 -> Q !! q = Some l ->
  e_thd x = t -> e_wq x = q ->
  wok (<[e := (e, e)]> (links s)) (view (<[e := x]> (entries s))) (states (wthreads s)) (<[t := Leaving (held c ++ [e])]> P) W Q /\ e ∉ l.
Proof.
  intros Hok Hc He H1 H2 Hl Ht Hq. split.
  - apply (wok_new _ _ _ _ _ _ Hok t c _ e q l); auto; [cbn; symmetry; apply Permutation_cons_append|exact I|rewrite view_insert, decide_True by reflexivity; congruence|]. intros a Ha. now rewrite view_insert, decide_False.
  - intros Hin. destruct (wok_fresh _ _ _ _ _ _ Hok e He) as [_ H]. apply (H _ _ Hl). now right.
Qed.

(** wait and wait_exclusive: the entry goes between [l1] and [l2]. *)
Lemma wq_enter_good y Q t q l1 l2 e x st b : good y Q -> pcs y !! t = Some Awake -> wakers y !! q = None -> fresh_entry y e -> Q !! q = Some (l1 ++ l2) -> e_thd x = t -> e_wq x = q ->
  good (System (World (put_between e (last_addr id q l1) (hd_addr id q l2) (<[e := (e, e)]> (links (mem y)))) (<[e := x]> (entries (mem y))) (<[t := WThread st b]> (wthreads (mem y))))
    (<[t := Asleep false [e]]> (pcs y)) (wakers y)) (<[q := l1 ++ e :: l2]> Q).
Proof.
  intros Hg Hc Hw (He & _ & H1 & H2) Hl Ht Hq. destruct (fresh_good _ _ _ _ _ _ _ _ _ x Hg Hc He H1 H2 Hl Ht Hq) as [Hok Hni]. cbn [held app] in Hok. unfold good. cbn.
  assert (Hv : view (<[e := x]> (entries (mem y))) e = Some (t, q)) by (rewrite view_insert, decide_True by reflexivity; congruence).
  assert (Hok1 : wok (<[e := (e, e)]> (links (mem y))) (view (<[e := x]> (entries (mem y)))) (states (<[t := WThread st b]> (wthreads (mem y)))) (<[t := Leaving [e]]> (pcs y)) (wakers y) Q).
  { apply (wok_state _ _ _ _ _ _ Hok t (Leaving [e])); [apply lookup_insert_eq|exact I|rewrite states_insert, decide_True by reflexivity; eauto|]. intros u Hu. now rewrite states_insert, decide_False. }
  pose proof (wok_link _ _ _ _ _ _ Hok1 e t q l1 l2 Hv Hl Hni Hw) as Hok2.
  rewrite <- (insert_insert_eq (pcs y) t (Asleep false [e]) (Leaving [e])). apply (wok_sleep _ _ _ _ _ _ Hok2 t (Leaving [e])); [apply lookup_insert_eq|reflexivity|].
  intros a ->%list_elem_of_singleton. exists q, (l1 ++ e :: l2). rewrite lookup_insert_eq. repeat split; auto. apply elem_of_app. right. left.
Qed.

Lemma wait_step y Q t q e st : good y Q -> pcs y !! t = Some Awake -> is_head y q -> wakers y !! q = None -> fresh_entry y e ->
  (exists y' Q', exec (Wait t q e st) y = Some y' /\ good y' Q') /\ (exists y' Q', exec (WaitExclusive t q e st) y = Some y' /\ good y' Q').
Proof.
  intros Hg Hc Hh Hw He. destruct (good_head _ _ _ Hg Hh) as [l Hl]. destruct (k_held _ _ _ _ _ _ Hg _ _ Hc) as ([z Hz] & _). unfold states in Hz. destruct (wthreads (mem y) !! t) as [th|] eqn:Et; [|discriminate].
  set (x0 := Entry 0 t autoremove 0 0 false). set (s0 := World (<[e := (e, e)]> (links (mem y))) (<[e := x0]> (entries (mem y))) (wthreads (mem y))).
  assert (E0 : new_entry e t (mem y) = Done tt s0) by reflexivity. assert (Ex : entries s0 !! e = Some x0) by apply lookup_insert_eq.
  assert (Hr : ring (<[e := (e, e)]> (links (mem y))) q l).
  { apply (ring_frame _ _ _ _ (k_ring _ _ _ _ _ _ Hg _ _ Hl)). intros a Ha. apply lookup_insert_ne. intros <-. destruct (wok_fresh _ _ _ _ _ _ Hg e (proj1 He)) as [_ H]. exact (H _ _ Hl Ha). }
  assert (Hs : is_Some (<[e := (e, e)]> (links (mem y)) !! e)) by (rewrite lookup_insert_eq; eauto).
  assert (Ee : forall add L' f, let x := set_flags f (set_wq q x0) in (forall s1, links s1 = links s0 -> add s1 = Done tt (with_links L' s1)) ->
    (upd_entry e (set_wq q);; upd_entry e (set_flags f);; thread_set_state t st;; add) s0 = Done tt (World L' (<[e := x]> (entries (mem y))) (<[t := WThread st (rudely_awoken th)]> (wthreads (mem y))))).
  { intros add L' f x Hadd. wrun (upd_entry_run e (set_wq q) _ _ Ex). erewrite bind_done by (eapply upd_entry_run, lookup_insert_eq). erewrite bind_done by (eapply set_state_run; cbn; exact Et). rewrite Hadd by reflexivity. unfold s0. cbn. now rewrite !insert_insert_eq. }
  split.
  - eexists _, (<[q := [] ++ e :: l]> Q). cbn [exec]. erewrite on_mem_run; [cbn; split; [reflexivity|]|wrun E0; unfold wait_enter; wrun (get_entry_run _ _ _ Ex); change (e_wq x0 =? 0) with true; unfold wassert; wret; unfold enter; wrun (get_entry_run _ _ _ Ex); change (e_thd x0) with t; apply (Ee (list_add q e))].
    + now apply (wq_enter_good y Q t q [] l).
    + intros s1 E1. rewrite (list_add_run s1 q l e); rewrite E1; [reflexivity|exact Hr|exact Hs].
  - eexists _, (<[q := l ++ e :: []]> Q). cbn [exec]. erewrite on_mem_run; [cbn; split; [reflexivity|]|wrun E0; unfold wait_exclusive_enter; wrun (get_entry_run _ _ _ Ex); change (e_wq x0 =? 0) with true; unfold wassert; wret; unfold enter_exclusive; wrun (get_entry_run _ _ _ Ex); change (e_thd x0) with t; apply (Ee (list_add_tail q e))].
    + apply (wq_enter_good y Q t q l []); auto. now rewrite app_nil_r.
    + intros s1 E1. rewrite (list_add_tail_run s1 q l e); rewrite E1; [reflexivity|exact Hr|exact Hs].
Qed.

(** multi_wait makes its entries, then links them. *)
Lemma multi_fill_run t ex W Q : forall qes s P c, wok (links s) (view (entries s)) (states (wthreads s)) P W Q -> P !! t = Some c -> NoDup (snd <$> qes) ->
  (forall q e, (q, e) ∈ qes -> is_Some (Q !! q) /\ links s !! e = None /\ e <> LIST_POISON1 /\ e <> LIST_POISON2) ->
  exists s' c', multi_fill qes t ex s = Done tt s' /\ wthreads s' = wthreads s /\ held c' = held c ++ (snd <$> qes) /\ (c' = c \/ not_asleep c') /\
    wok (links s') (view (entries s')) (states (wthreads s')) (<[t := c']> P) W Q /\
    (forall q e, (q, e) ∈ qes -> view (entries s') e = Some (t, q) /\ links s' !! e = Some (e, e)) /\
    (forall a, a ∉ snd <$> qes -> links s' !! a = links s !! a /\ entries s' !! a = entries s !! a).
Proof.
  induction qes as [|[q e] qes IH]; intros s P c Hok Hc Hnd H.
  { exists s, c. rewrite app_nil_r, insert_id by exact Hc. do 3 (split; [reflexivity|]). split; [now left|]. split; [exact Hok|]. split; [intros q e Hqe; inversion Hqe|auto]. }
  rewrite fmap_cons in Hnd. cbn [snd] in Hnd. apply list.NoDup_cons in Hnd as [Hne Hnd]. destruct (H q e ltac:(left)) as ([l Hl] & He & H1 & H2). cbn [multi_fill].
  set (x1 := set_func multi_wake (set_wq q (Entry 0 t autoremove 0 0 false))). set (x := if ex then set_flags WQ_FLAG_EXCLUSIVE x1 else x1).
  set (s1 := World (<[e := (e, e)]> (links s)) (<[e := x]> (entries s)) (wthreads s)).
  assert (Es : forall k, (new_entry e t;; upd_entry e (set_wq q);; upd_entry e (set_func multi_wake);; (if ex then upd_entry e (set_flags WQ_FLAG_EXCLUSIVE) else mret tt);; k) s = (k : WM unit) s1).
  { intros k. assert (E0 : new_entry e t s = Done tt (World (<[e := (e, e)]> (links s)) (<[e := Entry 0 t autoremove 0 0 false]> (entries s)) (wthreads s))) by reflexivity.
    wrun E0. erewrite bind_done by (apply upd_entry_run, lookup_insert_eq). erewrite bind_done by (apply upd_entry_run, lookup_insert_eq). cbn [entries with_entries]. rewrite !insert_insert_eq.
    destruct ex; [erewrite bind_done by (apply upd_entry_run, lookup_insert_eq)|wret]; unfold s1, x, x1, with_entries; cbn; now rewrite ?insert_insert_eq. }
  rewrite Es. assert (Hx : e_thd x = t /\ e_wq x = q) by (unfold x; now destruct ex). destruct (fresh_good s P W Q t c q l e x Hok Hc He H1 H2 Hl (proj1 Hx) (proj2 Hx)) as [Hok1 _].
  destruct (IH s1 _ (Leaving (held c ++ [e])) Hok1 ltac:(apply lookup_insert_eq) Hnd) as (s' & c' & Er & Ht & Hh & Hn & Hok' & Hin & Hout).
  { intros q' e' Hin'. destruct (H q' e' ltac:(now right)) as (A & B & C). split; [exact A|]. split; [|exact C]. cbn. rewrite lookup_insert_ne; [exact B|]. intros ->. apply Hne. apply list_elem_of_fmap. now exists (q', e'). }
  exists s', c'. split; [exact Er|]. split; [exact Ht|]. split; [rewrite Hh, fmap_cons; cbn; now rewrite <- app_assoc|]. split; [right; now destruct Hn as [->|]|]. rewrite insert_insert_eq in Hok'. split; [exact Hok'|].
  destruct (Hout e Hne) as [Ho1 Ho2]. assert (Hs1 : links s1 !! e = Some (e, e) /\ entries s1 !! e = Some x) by (split; apply lookup_insert_eq). rewrite (proj1 Hs1) in Ho1. rewrite (proj2 Hs1) in Ho2. split.
  - intros q' e' [[= -> ->]|Hin']%elem_of_cons; [|auto]. rewrite (view_some _ _ _ Ho2). destruct Hx as [-> ->]. auto.
  - intros a Ha. rewrite fmap_cons, elem_of_cons in Ha. cbn in Ha. destruct (Hout a ltac:(tauto)) as [-> ->]. unfold s1. cbn [links entries]. rewrite !lookup_insert_ne by (intros ->; tauto). auto.
Qed.

Lemma multi_link_run t P W : forall qes s Q, wok (links s) (view (entries s)) (states (wthreads s)) P W Q -> NoDup (snd <$> qes) ->
  (forall q e, (q, e) ∈ qes -> view (entries s) e = Some (t, q) /\ links s !! e = Some (e, e) /\ W !! q = None) ->
  exists L' Q', multi_link qes s = Done tt (with_links L' s) /\ wok L' (view (entries s)) (states (wthreads s)) P W Q' /\
    (forall q e, (q, e) ∈ qes -> exists l, Q' !! q = Some l /\ e ∈ l) /\ (forall q l e, Q !! q = Some l -> e ∈ l -> exists l', Q' !! q = Some l' /\ e ∈ l').
Proof.
  induction qes as [|[q e] qes IH]; intros s Q Hok Hnd H.
  { exists (links s), Q. split; [now destruct s|]. split; [exact Hok|]. split; [intros q e Hqe; inversion Hqe|eauto]. }
  rewrite fmap_cons in Hnd. cbn [snd] in Hnd. apply list.NoDup_cons in Hnd as [Hne Hnd]. destruct (H q e ltac:(left)) as (Hv & Hself & Hw). cbn [multi_link].
  destruct (k_entry _ _ _ _ _ _ Hok _ _ _ Hv) as ([l Hl] & _). assert (Hni : e ∉ l) by (intros Hin; now destruct (on_queue_links _ _ _ _ _ _ Hok _ _ _ _ _ _ Hv Hl Hin Hself)).
  wrun (list_add_run s q l e (k_ring _ _ _ _ _ _ Hok _ _ Hl) ltac:(eauto)). pose proof (wok_link _ _ _ _ _ _ Hok e t q [] l Hv Hl Hni Hw) as Hok1. set (L1 := put_between _ _ _ _) in *.
  destruct (IH (with_links L1 s) _ Hok1 Hnd) as (L' & Q' & Er & Hok' & Hin & Hkeep).
  { intros q' e' Hin'. destruct (H q' e' ltac:(now right)) as (A & B & C). split; [exact A|]. split; [|exact C]. cbn. destruct (k_entry _ _ _ _ _ _ Hok _ _ _ A) as ([l' Hl'] & _).
    assert (Hni' : e' ∉ l') by (intros Hi; now destruct (on_queue_links _ _ _ _ _ _ Hok _ _ _ _ _ _ A Hl' Hi B)). pose proof (off_all _ _ _ _ _ _ Hok _ _ _ _ _ _ A Hl' Hni' Hl) as Hoff. destruct (around q [] l) as [Ha Hb].
    rewrite <- B. apply put_other; [intros ->; apply Hne, list_elem_of_fmap; now exists (q', e)|intros ->; tauto..]. }
  exists L', Q'. split; [exact Er|]. split; [exact Hok'|]. split.
  - intros q' e' [[= -> ->]|Hin']%elem_of_cons; [|auto]. apply (Hkeep q ([] ++ e :: l)); [apply lookup_insert_eq|left].
  - intros q' l' a Hq' Ha. destruct (decide (q' = q)) as [->|Hq]; [apply (Hkeep q ([] ++ e :: l)); [apply lookup_insert_eq|]; assert (l' = l) as -> by congruence; now right|]. apply (Hkeep q' l'); [now rewrite lookup_insert_ne by congruence|exact Ha].
Qed.

Lemma multi_step y Q t qes ex : good y Q -> legal (MultiWait t qes ex) y -> exists y' Q', exec (MultiWait t qes ex) y = Some y' /\ good y' Q'.
Proof.
  intros Hg (Hc & _ & Hnd & H). destruct (k_held _ _ _ _ _ _ Hg _ _ Hc) as ([z Hz] & _). unfold states in Hz. destruct (wthreads (mem y) !! t) as [th|] eqn:Et; [|discriminate].
  destruct (multi_fill_run t ex (wakers y) Q qes (mem y) (pcs y) Awake Hg Hc Hnd) as (s1 & c1 & E1 & Ht & Hh & Hn & Hok1 & Hin1 & _).
  { intros q e Hqe. destruct (H q e Hqe) as (A & B & C & _ & D). destruct (good_head _ _ _ Hg A). eauto. }
  assert (Hn1 : not_asleep c1) by (destruct Hn as [->|]; [exact I|assumption]). cbn in Hh. rewrite <- Ht in Et.
  pose proof (set_state_run t PS_INTERRUPTIBLE th s1 Et) as E2. set (T2 := <[t := _]> (wthreads s1)) in E2.
  assert (Hok2 : wok (links s1) (view (entries s1)) (states T2) (<[t := c1]> (pcs y)) (wakers y) Q).
  { apply (wok_state _ _ _ _ _ _ Hok1 t c1); [apply lookup_insert_eq|exact Hn1|unfold T2; rewrite states_insert, decide_True by reflexivity; eauto|]. intros u Hu. unfold T2. now rewrite states_insert, decide_False. }
  destruct (multi_link_run t _ _ qes (with_threads T2 s1) Q Hok2 Hnd) as (L' & Q' & E3 & Hok3 & Hin3 & _).
  { intros q e Hqe. destruct (Hin1 q e Hqe). destruct (H q e Hqe) as (_ & B & _). auto. }
  assert (Er : multi_enter qes t ex (mem y) = Done tt (with_links L' (with_threads T2 s1))) by (unfold multi_enter; wrun E1; wrun E2; exact E3).
  eexists _, Q'. cbn [exec]. rewrite (on_mem_run _ _ _ _ Er). cbn. split; [reflexivity|]. unfold good. cbn. rewrite <- (insert_insert_eq (pcs y) t (Asleep true (snd <$> qes)) c1).
  apply (wok_sleep _ _ _ _ _ _ Hok3 t c1); [apply lookup_insert_eq|exact Hh|]. intros e He. apply list_elem_of_fmap in He as ([q e'] & -> & Hqe). destruct (Hin3 _ _ Hqe) as (l & Hl & Hi). destruct (Hin1 _ _ Hqe) as [Hv _]. destruct (H _ _ Hqe) as (_ & B & _).
  exists q, l. auto.
Qed.

(** ** Reachable systems *)

Lemma wq_step_good o y Q : good y Q -> legal o y -> exists y' Q', exec o y = Some y' /\ good y' Q'.
Proof.
  intros Hg Hl. destruct o; cbn [legal] in Hl.
  - destruct Hl as (A & B & C & D). exact (proj1 (wait_step y Q _ _ _ _ Hg A B C D)).
  - destruct Hl as (A & B & C & D). exact (proj2 (wait_step y Q _ _ _ _ Hg A B C D)).
  - exact (multi_step y Q _ _ _ Hg Hl).
  - destruct Hl as [(m & es & A) _]. destruct (resume_step y Q t m es Hg A) as (y' & B). eauto.
  - destruct Hl as (e & A). destruct (cancel_step y Q t _ _ Hg A) as (y' & B). eauto.
  - destruct Hl as (e & es & A). destruct (look_step y Q t _ _ Hg A) as (y' & B). eauto.
  - destruct Hl as (e & es & A). destruct (look_again_step y Q t _ _ Hg A) as (y' & B). eauto.
  - destruct Hl as (e & es & A & B). exact (unlink_step y Q t e es Hg A B).
  - destruct Hl as (A & B). destruct (lock_step y Q q nr Hg A B) as (y' & C). eauto.
  - exact (wake_step_good y Q q Hg Hl).
  - destruct (interrupt_step y Q t Hg Hl) as (y' & A). eauto.
Qed.

Lemma boot_good qs ts : 0 ∉ qs -> good (boot qs ts) (list_to_map ((fun q => (q, [])) <$> qs)).
Proof.
  intros H0. assert (HQ : forall q l, (list_to_map ((fun q => (q, [] : list Z)) <$> qs) : gmap Z (list Z)) !! q = Some l -> l = [] /\ q ∈ qs).
  { intros q l E. apply elem_of_list_to_map_2, list_elem_of_fmap in E as (q' & [= -> ->] & E). auto. }
  assert (HL : forall q x, (list_to_map ((fun q => (q, (q, q))) <$> qs) : gmap Z (Z * Z)) !! q = Some x -> x = (q, q) /\ q ∈ qs).
  { intros q x E. apply elem_of_list_to_map_2, list_elem_of_fmap in E as (q' & [= -> ->] & E). auto. }
  assert (Hin : forall {A} (f : Z -> A) xs x, x ∈ xs -> is_Some ((list_to_map ((fun q => (q, f q)) <$> xs) : gmap Z A) !! x)).
  { intros A f xs x Hx. destruct ((list_to_map ((fun q => (q, f q)) <$> xs) : gmap Z A) !! x) as [v|] eqn:E; [eauto|]. exfalso. apply not_elem_of_list_to_map in E. apply E. rewrite <- list_fmap_compose. apply list_elem_of_fmap. exists x. now split. }
  split; cbn; try (intros *; unfold view; rewrite lookup_empty; discriminate).
  - intros q l E. apply HQ in E as [-> Hq]. split; [apply NoDup_singleton|]. intros a Ha. cbn in Ha. apply list_elem_of_singleton in Ha as ->. destruct (Hin _ (fun q => (q, q)) qs q Hq) as [x Ex]. destruct (HL _ _ Ex) as [-> _]. unfold linked_by, nx, pv. cbn. now rewrite Ex.
  - intros q l E. apply HQ in E as [_ Hq]. split; [reflexivity|]. now intros ->.
  - intros q [x Ex] _. apply HL in Ex as [_ Hq]. now apply (Hin _ (fun _ => [])).
  - intros q l e E He. apply HQ in E as [-> _]. inversion He.
  - intros t c E. apply elem_of_list_to_map_2, list_elem_of_fmap in E as (t' & [= -> ->] & Ht). split; [|split; [apply NoDup_nil_2|inversion 1]]. unfold states. destruct (Hin _ (fun _ => WThread PS_RUNNING false) ts t' Ht) as [v Ev]. rewrite Ev. eauto.
  - intros t m es x e E. apply elem_of_list_to_map_2, list_elem_of_fmap in E as (t' & [=] & _).
Qed.

Lemma reach_good qs ts y : 0 ∉ qs -> reach (boot qs ts) y -> exists Q, good y Q.
Proof.
  intros H0. induction 1 as [|o y1 y2 _ [Q Hg] Hl He]; [eexists; now apply boot_good|]. destruct (wq_step_good o y1 Q Hg Hl) as (y' & Q' & He' & Hg'). rewrite He in He'. injection He' as ->. eauto.
Qed.

(** ** The steps are the functions

    Nothing in between, the steps of the holder of a lock are the function of an
    entry, and those of a thread its destructor. *)

Lemma wake_phases e s : (_ ← wake_first e; wake_result e;; list_del e;; set_next e e;; set_prev e e;; mret true) s = call_func e s.
Proof.
  unfold wake_first, call_func, multi_wait_wake_function, autoremove_wake_function, list_del_init, list_init, mbind, SM_bind.
  destruct (get_entry e s) as [x s0| |]; [|reflexivity..]. destruct (e_func x); cbn; [|destruct (upd_entry e set_awoken s0) as [u s1| |]; [|reflexivity..]];
    (destruct (wake_unblock e _) as [u2 s2| |]; [|reflexivity..]); cbn; (destruct (wake_result e s2) as [u3 s3| |]; [|reflexivity..]); (destruct (list_del e s3) as [u4 s4| |]; [|reflexivity..]);
    (destruct (set_next e e s4) as [u5 s5| |]; [|reflexivity..]); now destruct (set_prev e e s5).
Qed.

Lemma destroy_phases e x s : entries s !! e = Some x -> e_wq x <> 0 ->
  (b ← finish_begin e; b ← (if (b : bool) then finish_look e else mret false); (if (b : bool) then mret tt else list_del_init e);; finish_end e) s = destroy_entry e s.
Proof.
  intros Ex H0. unfold finish_begin, destroy_entry, finish, finish_end, finish_look, is_empty_careful, wassert, mbind, SM_bind. repeat (rewrite ?(get_entry_run _ _ _ Ex), ?(proj2 (Z.eqb_neq _ _) H0), ?Z.eqb_refl; cbn).
  destruct (thread_set_state (e_thd x) PS_RUNNING s) as [u s1| |]; [|reflexivity..]. destruct (get_link e s1) as [[p n] s2| |] eqn:El; [|reflexivity..]. assert (s2 = s1) as -> by (revert El; unfold get_link, sopt; destruct (links s1 !! e); congruence). cbn.
  destruct (Z.eqb_spec n e) as [->|Hne]; [rewrite El; cbn; destruct (e =? p)|]; cbn; [|destruct (list_del_init e s1) as [u2 s3| |]; [|reflexivity..]|destruct (list_del_init e s1) as [u2 s3| |]; [|reflexivity..]]; reflexivity.
Qed.

(** ** Results *)

(** C39: whatever threads wait on the queues, whoever wakes or interrupts them and in
    whatever order the steps come, no step reads or writes an entry that is gone:
    every step a thread or a processor may take succeeds.  In every reachable system
    each queue links exactly entries of threads that are waiting on it; a thread that
    sleeps and is not runnable has all its entries on their queues, and no wake-up
    has passed them; and a wake-up that comes to the end of a queue leaves it empty:
    no wake-up is lost. *)
Theorem wait_queues_safe qs ts y : 0 ∉ qs -> reach (boot qs ts) y ->
  (forall o, legal o y -> is_Some (exec o y)) /\
  forall q, is_head y q -> exists l, queue_at (mem y) q l /\
    (forall e, e ∈ l -> exists x c, entries (mem y) !! e = Some x /\ e_wq x = q /\ pcs y !! e_thd x = Some c /\ e ∈ held c) /\
    (forall t m es e x, pcs y !! t = Some (Asleep m es) -> state_of y t <> Some PS_RUNNING -> e ∈ es -> entries (mem y) !! e = Some x -> e_wq x = q ->
       e ∈ l /\ forall w, wakers y !! q = Some w -> w_curr w = e -> w_phase w = 0%nat) /\
    (forall w, wakers y !! q = Some w -> w_phase w = 0%nat -> w_curr w = q -> l = []).
Proof.
  intros H0 Hr. destruct (reach_good qs ts y H0 Hr) as [Q Hg]. split.
  { intros o Hl. destruct (wq_step_good o y Q Hg Hl) as (y' & _ & -> & _). eauto. }
  intros q Hh. destruct (good_head _ _ _ Hg Hh) as [l Hl]. exists l.
  assert (Hent : forall e, e ∈ l -> exists x c, entries (mem y) !! e = Some x /\ e_wq x = q /\ pcs y !! e_thd x = Some c /\ e ∈ held c /\ is_Some (wthreads (mem y) !! e_thd x)).
  { intros e He. destruct (k_in _ _ _ _ _ _ Hg _ _ _ Hl He) as [t Hv]. destruct (good_owner _ _ _ _ _ Hg Hv) as (c & th & Hc & Hin & Ht). destruct (view_inv _ _ _ _ Hv) as (x & Ex & <- & Eq). exists x, c. eauto 10. }
  split; [|split; [|split]].
  - split; [exact (k_ring _ _ _ _ _ _ Hg _ _ Hl)|]. intros e He. destruct (Hent e He) as (x & c & Ex & _ & _ & _ & Ht). eauto.
  - intros e He. destruct (Hent e He) as (x & c & Ex & Eq & Hc & Hin & _). eauto 10.
  - intros t m es e x Hc Hst He Ex Eq. destruct (k_held _ _ _ _ _ _ Hg _ _ Hc) as ([st Et] & _). destruct (k_sleep _ _ _ _ _ _ Hg t m es st e Hc Et) as (q' & l' & Hv & Hl' & Hin & Hw); [intros ->; now apply Hst|exact He|].
    rewrite (view_some _ _ _ Ex), Eq in Hv. injection Hv as _ <-. assert (l' = l) as -> by congruence. auto.
  - intros w Hw Hp Hcur. destruct (k_waker _ _ _ _ _ _ Hg _ _ Hw) as (l' & Hl' & Hwk). assert (l' = l) as -> by congruence. unfold waker_ok in Hwk. rewrite Hp in Hwk. destruct Hwk as [Hc _]. destruct l as [|e l]; [reflexivity|]. cbn in Hc. change (id e) with e in Hc.
    destruct (k_ring _ _ _ _ _ _ Hg _ _ Hl) as [Hn _]. apply list.NoDup_cons in Hn as [Hn _]. destruct Hn. rewrite <- Hcur, Hc. left.
Qed.

(** Two threads wait on a queue, one of them exclusively, and are being woken. *)
Definition demo_ops : list op := [Wait 7 64 200 PS_INTERRUPTIBLE; WaitExclusive 8 64 300 PS_INTERRUPTIBLE; Lock 64 1; Wake 64].
Definition demo (k : nat) : system := foldl (fun y o => default y (exec o y)) (boot [64] [7; 8]) (take k demo_ops).

Lemma demo_reach : reach (boot [64] [7; 8]) (demo 4).
Proof.
  apply (reach_step _ (Wake 64) (demo 3)); [|cbn; eexists; vm_compute; reflexivity|vm_compute; reflexivity].
  apply (reach_step _ (Lock 64 1) (demo 2)); [|split; [split; [eexists; vm_compute; reflexivity|vm_compute; reflexivity]|vm_compute; reflexivity]|vm_compute; reflexivity].
  apply (reach_step _ (WaitExclusive 8 64 300 PS_INTERRUPTIBLE) (demo 1)); [|repeat split; try discriminate; try (eexists; vm_compute; reflexivity); vm_compute; reflexivity|vm_compute; reflexivity].
  apply (reach_step _ (Wait 7 64 200 PS_INTERRUPTIBLE) (demo 0)); [constructor|repeat split; try discriminate; try (eexists; vm_compute; reflexivity); vm_compute; reflexivity|vm_compute; reflexivity].
Qed.

Lemma wait_queues_safe_witness : legal (Resume 7) (demo 4) /\ is_Some (exec (Resume 7) (demo 4)).
Proof.
  assert (Hl : legal (Resume 7) (demo 4)) by (split; [exists false, [200]; vm_compute; reflexivity|vm_compute; reflexivity]). split; [exact Hl|].
  refine (proj1 (wait_queues_safe [64] [7; 8] (demo 4) _ demo_reach) _ Hl). intros H. apply list_elem_of_singleton in H. discriminate.
Defined.

Lemma exclusives_last s l e : is_exclusive s e = true -> 0 < exclusives s (l ++ [e]).
Proof. intros H. induction l as [|a l IH]; cbn [app]; rewrite exclusives_cons; [rewrite H; unfold exclusives; lia|destruct (is_exclusive s a); lia]. Qed.

(** C40: [wake_up_common] on a queue with the entries [l] ends, wakes the threads of
    the first entries [l1] and takes these off the queue: their threads are runnable
    and not interrupted, their entries have a result of 0 and are linked to
    themselves; all other threads, entries and links are as before.  It goes on to
    the end of the queue unless it has woken [nr] exclusive entries, the last one
    just then; it wakes at most [nr] of them, and all entries when [nr] is 0.  It
    reports whether it woke someone. *)
Theorem wake_up_correct q nr l s : queue_at s q l -> 0 <= nr < 2 ^ 31 -> Z.of_nat (length l) <= 2 ^ 31 ->
  exists l1 l2 s', l = l1 ++ l2 /\ wake_up_common q nr s = Done (bool_decide (l <> [])) s' /\ queue_at s' q l2 /\ woke_up s s' q l l1 /\
    (l2 = [] \/ exclusives s l1 = nr /\ exists l0 e, l1 = l0 ++ [e] /\ is_exclusive s e = true) /\
    (0 < nr -> exclusives s l1 <= nr) /\ (nr = 0 -> l2 = []).
Proof.
  intros Hq Hnr Hl. destruct (wake_up_common_run q nr l s Hq Hnr Hl) as (l1 & l2 & s' & E & Er & Hq' & Hw & Hs1 & Hs2). exists l1, l2, s'. do 4 (split; [assumption|]).
  split; [destruct l2; [now left|right; apply Hs2; discriminate]|]. split; [exact Hs1|]. intros ->. destruct l2 as [|a l2]; [reflexivity|]. destruct (Hs2 ltac:(discriminate)) as (Hz & l0 & e & -> & He). pose proof (exclusives_last s l0 e He). lia.
Qed.

Lemma wake_up_correct_witness : exists l1 l2 s', [200; 300] = l1 ++ l2 /\ wake_up_common 64 1 (mem (demo 2)) = Done true s' /\ queue_at s' 64 l2.
Proof.
  destruct (wake_up_correct 64 1 [200; 300] (mem (demo 2))) as (l1 & l2 & s' & E & Er & Hq & _).
  - split; [split|].
    + apply (bool_decide_eq_true_1 _). vm_compute. reflexivity.
    + intros e He. cbn in He. rewrite !elem_of_cons in He. destruct He as [->|[->|[->|He]]]; [split; vm_compute; reflexivity..|inversion He].
    + intros e He. rewrite !elem_of_cons in He. destruct He as [->|[->|He]]; [eexists; split; [vm_compute; reflexivity|eexists; vm_compute; reflexivity]..|inversion He].
  - lia.
  - cbn. lia.
  - exists l1, l2, s'. split; [exact E|]. split; [exact Er|exact Hq].
Defined.
