(* ===== verification/Block.v ===== *)
(** * The block cache (kernel/block.cpp)

    A buffer caches one page of a block device.  Buffers are objects by address; a
    page is the list of its bytes.  The operations of the device's driver are those
    of the interface [BlockOps].  The channel to the flush task holds 8191 buffers:
    [send] does not wait for room, and what it then leaves in the channel stops the
    flush task, which is [Fail] here.  Locks are held for the whole of each step. *)

From S2P Require Import Prelude CMem State.

Definition PGSIZE : Z := 4096.
Definition CHAN_SIZE : Z := 8191.

(** A driver's [rw_block]: what it reads, if it succeeds, and the device after a write. *)
Class BlockOps (X : Type) := {
  block_size : X -> Z;
  read_block : X -> Z -> option (list Z);
  write_block : X -> Z -> list Z -> X }.

(** [dev_t]: major and minor *)
Abbreviation dev_t := (Z * Z)%type.

Record buffer := Buffer {
  bdev : dev_t; m_index : Z; m_dirty : bool; m_count : Z; m_last_used : Z; m_page : option (list Z) }.

Record cache (X : Type) := Cache {
  bufs : gmap Z buffer; cheap : Z; buffer_cache : gmap Z (gmap Z Z); total_blocks_in_cache : Z;
  dirty_buffers : list Z; g_next_block_lru : Z; devs : gmap dev_t X }.
Arguments Cache {X} _ _ _ _ _ _ _.
Arguments bufs {X} _. Arguments cheap {X} _. Arguments buffer_cache {X} _. Arguments total_blocks_in_cache {X} _.
Arguments dirty_buffers {X} _. Arguments g_next_block_lru {X} _. Arguments devs {X} _.

Definition to_key (d : dev_t) : Z := Z.lor (u32 (Z.shiftl (fst d) 16)) (snd d).

(** [memcpy] of bytes to an offset of a page. *)
Definition splice (o : Z) (bs l : list Z) : list Z :=
  take (Z.to_nat o) l ++ bs ++ drop (Z.to_nat o + length bs) l.
Definition slice (o n : Z) (l : list Z) : list Z := take (Z.to_nat n) (drop (Z.to_nat o) l).

Section block.
Context {X : Type} {HX : BlockOps X}.

Definition B : Type -> Type := SM (cache X).

Definition get_buf (b : Z) : B buffer := sopt (fun s => bufs s !! b).
Definition set_buf (b : Z) (u : buffer) : B unit :=
  modify (fun s => Cache (<[b := u]> (bufs s)) (cheap s) (buffer_cache s) (total_blocks_in_cache s) (dirty_buffers s) (g_next_block_lru s) (devs s)).
Definition get_dev (d : dev_t) : B X := sopt (fun s => devs s !! d).
Definition set_dev (d : dev_t) (x : X) : B unit :=
  modify (fun s => Cache (bufs s) (cheap s) (buffer_cache s) (total_blocks_in_cache s) (dirty_buffers s) (g_next_block_lru s) (<[d := x]> (devs s))).
Definition set_queue (q : list Z) : B unit :=
  modify (fun s => Cache (bufs s) (cheap s) (buffer_cache s) (total_blocks_in_cache s) q (g_next_block_lru s) (devs s)).

Definition next_block_lru : B Z :=
  l ← gets g_next_block_lru;
  modify (fun s => Cache (bufs s) (cheap s) (buffer_cache s) (total_blocks_in_cache s) (dirty_buffers s) (u64 (l + 1)) (devs s));;
  mret l.

(** [buffer_cache[key][page]] *)
Definition cached (s : cache X) (key page : Z) : Z := default 0 (default ∅ (buffer_cache s !! key) !! page).

(** [new block::buffer], put into the cache. *)
Definition new_buffer (d : dev_t) (page : Z) : B Z :=
  b ← gets cheap;
  modify (fun s => Cache (<[b := Buffer d page false 0 0 None]> (bufs s)) (b + 16)
    (<[to_key d := <[page := b]> (default ∅ (buffer_cache s !! to_key d))]> (buffer_cache s)) (u64 (total_blocks_in_cache s + 1)) (dirty_buffers s) (g_next_block_lru s) (devs s));;
  mret b.

Definition bget (d : dev_t) (page : Z) : B Z :=
  b ← gets (fun s => cached s (to_key d) page);
  b ← (if b =? 0 then new_buffer d page else mret b);
  l ← next_block_lru;
  u ← get_buf b;
  set_buf b (Buffer (bdev u) page (m_dirty u) (u64 (m_count u + 1)) l (m_page u));;
  mret b.

Definition register_write (b : Z) : B unit :=
  u ← get_buf b; set_buf b (Buffer (bdev u) (m_index u) true (m_count u) (m_last_used u) (m_page u)).

(** [release], without CONFIG_LOW_MEMORY *)
Definition bput (b : Z) : B unit :=
  u ← get_buf b;
  if m_dirty u then
    q ← gets dirty_buffers;
    if CHAN_SIZE <=? Z.of_nat (length q) then sfail else set_queue (q ++ [b])
  else set_buf b (Buffer (bdev u) (m_index u) (m_dirty u) (u64 (m_count u - 1)) (m_last_used u) (m_page u)).

(** The loop of [flush]; the results of [write_block] are not looked at. *)
Fixpoint write_blocks (index blocks : Z) (buf : list Z) (n : nat) (i : Z) (x : X) : X :=
  match n with
  | O => x
  | S n => write_blocks index blocks buf n (i + 1) (write_block x (s32 (u64 (index * blocks + i))) (slice (block_size x * i) (block_size x) buf))
  end.
Definition flush (b : Z) : B Z :=
  u ← get_buf b;
  (match m_page u with
   | Some buf =>
       x ← get_dev (bdev u);
       let blocks := s32 (PGSIZE / block_size x) in
       set_dev (bdev u) (write_blocks (m_index u) blocks buf (Z.to_nat blocks) 0 x)
   | None => mret tt
   end);;
  set_buf b (Buffer (bdev u) (m_index u) false (m_count u) (m_last_used u) (m_page u));;
  mret 0.

Definition reclaim (b : Z) : B Z :=
  u ← get_buf b;
  match m_page u with
  | Some _ => if (m_count u =? 0) && negb (m_dirty u) then
                set_buf b (Buffer (bdev u) (m_index u) (m_dirty u) (m_count u) (m_last_used u) None);; mret PGSIZE
              else mret 0
  | None => mret 0
  end.

(** The loop of [data], into a new page, which is zero. *)
Fixpoint read_blocks (index blocks : Z) (x : X) (n : nat) (i : Z) (buf : list Z) : list Z :=
  match n with
  | O => buf
  | S n => read_blocks index blocks x n (i + 1)
      (match read_block x (s32 (u64 (index * blocks + i))) with Some bs => splice (block_size x * i) bs buf | None => buf end)
  end.
Definition data (b : Z) : B (list Z) :=
  u ← get_buf b;
  match m_page u with
  | Some buf => mret buf
  | None =>
      x ← get_dev (bdev u);
      let blocks := s32 (PGSIZE / block_size x) in
      let buf := read_blocks (m_index u) blocks x (Z.to_nat blocks) 0 (replicate 4096 0) in
      set_buf b (Buffer (bdev u) (m_index u) (m_dirty u) (m_count u) (m_last_used u) (Some buf));;
      mret buf
  end.

(** [memcpy(data + offset, bs, ...)] into the page of the buffer. *)
Definition store_page (b offset : Z) (bs : list Z) : B unit :=
  u ← get_buf b;
  match m_page u with
  | Some buf => set_buf b (Buffer (bdev u) (m_index u) (m_dirty u) (m_count u) (m_last_used u) (Some (splice offset bs buf)))
  | None => sfail
  end.

(** The loops over the cache. *)
Fixpoint for_each (l : list Z) (f : Z -> B Z) : B Z :=
  match l with [] => mret 0 | b :: l => r ← f b; r2 ← for_each l f; mret (r + r2) end.
Definition all_buffers (s : cache X) : list Z :=
  map_to_list (buffer_cache s) ≫= fun kv => snd <$> map_to_list (snd kv).

Definition reclaim_memory : B Z :=
  l ← gets all_buffers;
  for_each l (fun b => if negb (b =? 0) then reclaim b else mret 0).
Definition sync_all : B unit :=
  l ← gets all_buffers;
  for_each l (fun b => if negb (b =? 0) then u ← get_buf b; if m_dirty u then flush b else mret 0 else mret 0);;
  mret tt.

(** One round of [block_flush_task], when the channel has a buffer. *)
Definition flush_round : B unit :=
  q ← gets dirty_buffers;
  match q with
  | [] => mret tt
  | b :: q => set_queue q;; flush b;; bput b
  end.

(** ** Reading and writing bytes *)

(** The state of the loop of [block_rw]: the page, the offset in it, how many bytes are
    left, and the caller's bytes: those to write, or those read so far. *)
Definition rw_step (d : dev_t) (write : bool) (st : Z * Z * Z * list Z) : B (ctl (Z * Z * Z * list Z) (list Z)) :=
  let '(blk, offset, to_access, udata) := st in
  block ← bget d blk;
  buf ← data block;
  let space_left := PGSIZE - offset in
  let can_access := Z.min space_left to_access in
  udata ← (if write then
             store_page block offset (take (Z.to_nat can_access) udata);;
             register_write block;;
             mret (drop (Z.to_nat can_access) udata)
           else mret (udata ++ slice offset can_access buf));
  bput block;;
  let to_access := to_access - can_access in
  if to_access <=? 0 then mret (Break udata) else mret (Next (u64 (blk + 1), 0, to_access, udata)).

Definition block_rw (d : dev_t) (udata : list Z) (size byte_offset : Z) (write : bool) : B (Z * list Z) :=
  r ← sloop (S (S (Z.to_nat (size / PGSIZE)))) (rw_step d write) (byte_offset / PGSIZE, byte_offset mod PGSIZE, size, udata);
  mret (size, r).

(** What [bread] stores, and the result of [bwrite]. *)
Definition bread (d : dev_t) (size byte_offset : Z) : B (Z * list Z) :=
  '(n, r) ← block_rw d [] size byte_offset false; mret (s32 n, r).
Definition bwrite (d : dev_t) (bs : list Z) (byte_offset : Z) : B Z :=
  '(n, _) ← block_rw d bs (Z.of_nat (length bs)) byte_offset true; mret (s32 n).

(** ** Block devices as files *)

Definition SEEK_SET : Z := -1.
Definition SEEK_CUR : Z := -2.
Definition SEEK_END : Z := -3.

(** [blk_seek]; the offset it looks at is the old one. *)
Definition blk_seek (x : X) (old_off : Z) : Z := if negb (old_off mod block_size x =? 0) then -1 else 0.

(** [fs::file::seek] of such a file, whose offset is unsigned: the result and the offset. *)
Definition seek (x : X) (m_offset isize offset whence : Z) : Z * Z :=
  let new_off := u64 (if whence =? SEEK_SET then offset else if whence =? SEEK_CUR then m_offset + offset else if whence =? SEEK_END then isize else whence + offset) in
  let res := blk_seek x m_offset in
  if negb (res =? 0) then (u64 res, m_offset) else (new_off, new_off).

(** [blk_rw]: the result, the caller's bytes and the new offset. *)
Definition blk_rw (d : dev_t) (m_offset isize : Z) (udata : list Z) (len : Z) (write : bool) : B (Z * list Z * Z) :=
  '(n, r) ← block_rw d udata len m_offset write;
  x ← get_dev d;
  mret (n, r, snd (seek x m_offset isize n SEEK_CUR)).
End block.
Arguments B X : clear implicits.
