(* ===== verification/BlockProps.v ===== *)
(** * The block cache is transparent

    Through the cache, a block device is an array of bytes: reads give what was
    written last, whatever is reclaimed, flushed or synchronised in between, and
    [sync_all] brings the array to the device. *)

From S2P Require Import Prelude CMem State Block.

(** ** Bytes *)

Definition byte (l : list Z) (i : Z) : Z := nth (Z.to_nat i) l 0.

Lemma byte_app l1 l2 i : 0 <= i -> byte (l1 ++ l2) i = if i <? Z.of_nat (length l1) then byte l1 i else byte l2 (i - Z.of_nat (length l1)).
Proof.
  intros Hi. unfold byte. destruct (Z.ltb_spec i (Z.of_nat (length l1))) as [H|H]; [apply app_nth1; lia|]. rewrite app_nth2 by lia. f_equal. lia.
Qed.
Lemma byte_take n l i : 0 <= i < n -> byte (take (Z.to_nat n) l) i = byte l i.
Proof.
  intros Hi. unfold byte. destruct (decide (Z.to_nat i < length l)%nat) as [H|H].
  - rewrite <- (take_drop (Z.to_nat n) l) at 2. rewrite app_nth1; [reflexivity|]. rewrite length_take. lia.
  - rewrite !nth_overflow; [reflexivity|lia|rewrite length_take; lia].
Qed.
Lemma byte_drop o l i : 0 <= o -> 0 <= i -> byte (drop (Z.to_nat o) l) i = byte l (o + i).
Proof.
  intros Ho Hi. unfold byte. replace (Z.to_nat (o + i)) with (Z.to_nat o + Z.to_nat i)%nat by lia. generalize (Z.to_nat i) as k. generalize (Z.to_nat o) as m. clear. intros m. revert l.
  induction m as [|m IH]; intros l k; [reflexivity|]. destruct l; [now destruct k|]. apply IH.
Qed.

Lemma length_splice o bs l : 0 <= o -> o + Z.of_nat (length bs) <= Z.of_nat (length l) -> length (splice o bs l) = length l.
Proof. intros. unfold splice. rewrite !length_app, length_take, length_drop. lia. Qed.
Lemma byte_splice o bs l i : 0 <= o -> o + Z.of_nat (length bs) <= Z.of_nat (length l) -> 0 <= i ->
  byte (splice o bs l) i = if (o <=? i) && (i <? o + Z.of_nat (length bs)) then byte bs (i - o) else byte l i.
Proof.
  intros Ho Hl Hi. unfold splice. rewrite byte_app by exact Hi. rewrite length_take. replace (Z.of_nat (Z.to_nat o `min` length l)) with o by lia.
  destruct (Z.ltb_spec i o) as [H|H]; [rewrite byte_take by lia; rewrite (proj2 (Z.leb_gt o i) H); reflexivity|]. rewrite (proj2 (Z.leb_le o i) H). cbn [andb]. rewrite byte_app by lia.
  replace (i - o <? Z.of_nat (length bs)) with (i <? o + Z.of_nat (length bs)) by lia. destruct (Z.ltb_spec i (o + Z.of_nat (length bs))); [reflexivity|].
  replace (Z.to_nat o + length bs)%nat with (Z.to_nat (o + Z.of_nat (length bs))) by lia. rewrite byte_drop by lia. f_equal. lia.
Qed.
Lemma length_slice o n l : 0 <= o -> 0 <= n -> o + n <= Z.of_nat (length l) -> length (slice o n l) = Z.to_nat n.
Proof. intros. unfold slice. rewrite length_take, length_drop. lia. Qed.
Lemma byte_slice o n l i : 0 <= o -> 0 <= i < n -> byte (slice o n l) i = byte l (o + i).
Proof. intros. unfold slice. rewrite byte_take by lia. now apply byte_drop. Qed.
Lemma byte_ext l l' : length l = length l' -> (forall i, 0 <= i < Z.of_nat (length l) -> byte l i = byte l' i) -> l = l'.
Proof.
  intros Hl H. apply nth_ext with (d := 0) (d' := 0); [exact Hl|]. intros n Hn. specialize (H (Z.of_nat n) ltac:(lia)). unfold byte in H. now rewrite Nat2Z.id in H.
Qed.

(** ** What a driver promises *)

Class Blockdev (X : Type) {HX : BlockOps X} := {
  block_count : X -> Z;
  content : X -> Z -> Z;
  bd_size x : 0 < block_size x /\ (block_size x | 4096) /\ 0 <= block_count x < 2 ^ 31;
  bd_read x n : 0 <= n < block_count x -> exists bs, read_block x n = Some bs /\ Z.of_nat (length bs) = block_size x /\
    forall i, 0 <= i < block_size x -> byte bs i = content x (n * block_size x + i);
  bd_write x n bs : 0 <= n < block_count x -> Z.of_nat (length bs) = block_size x ->
    block_size (write_block x n bs) = block_size x /\ block_count (write_block x n bs) = block_count x /\
    forall y, content (write_block x n bs) y = if (n * block_size x <=? y) && (y <? (n + 1) * block_size x) then byte bs (y - n * block_size x) else content x y }.

(** A disk in memory, of blocks of 512 bytes. *)
Record ramdisk := Ramdisk { ram : gmap Z Z; ram_blocks : nat }.
Fixpoint ram_store (a : Z) (bs : list Z) (m : gmap Z Z) : gmap Z Z :=
  match bs with [] => m | b :: bs => <[a := b]> (ram_store (a + 1) bs m) end.
#[export] Instance ramdisk_ops : BlockOps ramdisk := {
  block_size _ := 512;
  read_block x n := if (0 <=? n) && (n <? Z.of_nat (ram_blocks x)) then Some ((fun i => default 0 (ram x !! (n * 512 + i))) <$> seqZ 0 512) else None;
  write_block x n bs := if (0 <=? n) && (n <? Z.of_nat (ram_blocks x)) then Ramdisk (ram_store (n * 512) bs (ram x)) (ram_blocks x) else x }.

Lemma ram_store_lookup bs : forall a m y, default 0 (ram_store a bs m !! y) = if (a <=? y) && (y <? a + Z.of_nat (length bs)) then byte bs (y - a) else default 0 (m !! y).
Proof.
  induction bs as [|b bs IH]; intros a m y; cbn [ram_store length]; [destruct (Z.leb_spec a y), (Z.ltb_spec y (a + Z.of_nat 0)); cbn [andb]; try reflexivity; lia|].
  destruct (Z.eq_dec y a) as [->|Hy].
  - rewrite lookup_insert_eq, Z.leb_refl, (proj2 (Z.ltb_lt _ _)) by lia. cbn [andb default from_option id]. now rewrite Z.sub_diag.
  - rewrite lookup_insert_ne, IH by congruence. destruct (Z.leb_spec (a + 1) y), (Z.leb_spec a y); try lia; cbn [andb]; [|reflexivity].
    replace (a + 1 + Z.of_nat (length bs)) with (a + Z.of_nat (S (length bs))) by lia. destruct (y <? _); [|reflexivity].
    unfold byte. replace (Z.to_nat (y - a)) with (S (Z.to_nat (y - (a + 1)))) by lia. reflexivity.
Qed.

#[export, refine] Instance ramdisk_dev : Blockdev ramdisk := {
  block_count x := Z.min (Z.of_nat (ram_blocks x)) (2 ^ 31 - 1);
  content x y := default 0 (ram x !! y) }.
Proof.
  - intros x. cbn. split; [lia|]. split; [now exists 8|lia].
  - intros x n Hn. cbn in *. rewrite (proj2 (Z.leb_le 0 n)), (proj2 (Z.ltb_lt n _)) by lia. cbn [andb]. eexists. split; [reflexivity|]. split; [rewrite length_fmap, length_seqZ; lia|].
    intros i Hi. unfold byte. rewrite nth_lookup, list_lookup_fmap, lookup_seqZ_lt by lia. cbn. repeat f_equal. lia.
  - intros x n bs Hn Hl. cbn in *. rewrite (proj2 (Z.leb_le 0 n)), (proj2 (Z.ltb_lt n _)) by lia. cbn [andb ram ram_blocks]. split; [reflexivity|]. split; [reflexivity|].
    intros y. rewrite ram_store_lookup, Hl. replace ((n + 1) * 512) with (n * 512 + 512) by lia. reflexivity.
Defined.

Section cache.
Context {X : Type} {HX : BlockOps X} {BX : Blockdev X}.

(** The page lies on the device. *)
Definition fits (x : X) (page : Z) : Prop := 0 <= page /\ (page + 1) * 4096 <= block_count x * block_size x.

Lemma blocks_per_page x : exists k, 0 < k /\ k * block_size x = 4096 /\ s32 (PGSIZE / block_size x) = k.
Proof.
  destruct (bd_size x) as (H1 & [k Hk] & _). assert (0 < k) by nia. exists k. split; [assumption|]. split; [lia|]. unfold PGSIZE. rewrite Hk, Z.div_mul by lia. apply s32_small. nia.
Qed.

Lemma block_number x page k i : fits x page -> 0 < k -> k * block_size x = 4096 -> 0 <= i < k ->
  s32 (u64 (page * k + i)) = page * k + i /\ 0 <= page * k + i < block_count x.
Proof.
  intros [H1 H2] Hk Hb Hi. destruct (bd_size x) as (B1 & _ & B2). assert (page * k + i < block_count x) by nia. assert (0 <= page * k + i) by nia. rewrite u64_small, s32_small by lia. lia.
Qed.

Lemma read_blocks_spec x page k n : fits x page -> 0 < k -> k * block_size x = 4096 -> forall i buf, 0 <= i -> i + Z.of_nat n <= k -> length buf = 4096%nat ->
  length (read_blocks page k x n i buf) = 4096%nat /\
  forall j, 0 <= j < 4096 -> byte (read_blocks page k x n i buf) j = if (i * block_size x <=? j) && (j <? (i + Z.of_nat n) * block_size x) then content x (4096 * page + j) else byte buf j.
Proof.
  intros Hf Hk Hb. induction n as [|n IH]; intros i buf Hi Hn Hl; cbn [read_blocks].
  - split; [exact Hl|]. intros j _. destruct (Z.leb_spec (i * block_size x) j), (Z.ltb_spec j ((i + Z.of_nat 0) * block_size x)); cbn [andb]; try reflexivity. nia.
  - destruct (block_number x page k i Hf Hk Hb ltac:(lia)) as [En Hr]. rewrite En. destruct (bd_read x _ Hr) as (bs & -> & Hlen & Hbs). destruct (bd_size x) as (B1 & _ & _).
    assert (Hsp : block_size x * i + Z.of_nat (length bs) <= Z.of_nat (length buf)) by (rewrite Hlen, Hl; nia).
    destruct (IH (i + 1) (splice (block_size x * i) bs buf)) as [I1 I2]; [lia|lia|rewrite length_splice by (nia || exact Hsp); exact Hl|]. split; [exact I1|]. intros j Hj. rewrite I2 by exact Hj.
    rewrite byte_splice by (nia || exact Hsp). rewrite Hlen. replace (i + 1 + Z.of_nat n) with (i + Z.of_nat (S n)) by lia.
    destruct (Z.leb_spec ((i + 1) * block_size x) j), (Z.leb_spec (i * block_size x) j), (Z.ltb_spec j ((i + Z.of_nat (S n)) * block_size x)), (Z.leb_spec (block_size x * i) j), (Z.ltb_spec j (block_size x * i + block_size x)); cbn [andb]; try reflexivity; try nia.
    rewrite Hbs by nia. f_equal. nia.
Qed.

Lemma write_blocks_spec page k buf n : 0 < k -> length buf = 4096%nat -> forall i x, fits x page -> k * block_size x = 4096 -> 0 <= i -> i + Z.of_nat n <= k ->
  let x' := write_blocks page k buf n i x in
  block_size x' = block_size x /\ block_count x' = block_count x /\
  forall y, content x' y = if (4096 * page + i * block_size x <=? y) && (y <? 4096 * page + (i + Z.of_nat n) * block_size x) then byte buf (y - 4096 * page) else content x y.
Proof.
  intros Hk Hl. induction n as [|n IH]; intros i x Hf Hb Hi Hn; cbn [write_blocks].
  - split; [reflexivity|]. split; [reflexivity|]. intros y. destruct (Z.leb_spec (4096 * page + i * block_size x) y), (Z.ltb_spec y (4096 * page + (i + Z.of_nat 0) * block_size x)); cbn [andb]; try reflexivity. nia.
  - destruct (block_number x page k i Hf Hk Hb ltac:(lia)) as [En Hr]. rewrite En. destruct (bd_size x) as (B1 & _ & _). set (bs := slice (block_size x * i) (block_size x) buf).
    assert (Hlen : Z.of_nat (length bs) = block_size x) by (unfold bs; rewrite length_slice by (try rewrite Hl; nia); lia).
    destruct (bd_write x _ bs Hr Hlen) as (W1 & W2 & W3). set (x1 := write_block x (page * k + i) bs) in *.
    destruct (IH (i + 1) x1) as (I1 & I2 & I3); [unfold fits in *; rewrite W1, W2; exact Hf|rewrite W1; exact Hb|lia|lia|]. split; [now rewrite I1|]. split; [now rewrite I2|]. intros y. rewrite I3, W1, W3.
    replace (i + 1 + Z.of_nat n) with (i + Z.of_nat (S n)) by lia.
    destruct (Z.leb_spec (4096 * page + (i + 1) * block_size x) y), (Z.ltb_spec y (4096 * page + (i + Z.of_nat (S n)) * block_size x)), (Z.leb_spec ((page * k + i) * block_size x) y), (Z.ltb_spec y ((page * k + i + 1) * block_size x)), (Z.leb_spec (4096 * page + i * block_size x) y); cbn [andb]; try reflexivity; try nia.
    unfold bs. rewrite byte_slice by nia. f_equal. nia.
Qed.

(** ** The invariant *)

Definition small_dev (d : dev_t) : Prop := 0 <= fst d < 65536 /\ 0 <= snd d < 65536.

Lemma to_key_inj d d' : small_dev d -> small_dev d' -> to_key d = to_key d' -> d = d'.
Proof.
  assert (E : forall d, small_dev d -> to_key d = fst d * 65536 + snd d).
  { intros [a b] [H1 H2]. unfold to_key. cbn [fst snd] in *. rewrite Z.shiftl_mul_pow2 by lia. change (2 ^ 16) with 65536. unfold u32. rewrite Z.mod_small by lia.
    rewrite <- Z.add_lor_land. assert (Hl : Z.land (a * 65536) b = 0); [|lia]. apply Z.bits_inj'. intros i Hi. rewrite Z.land_spec, Z.bits_0. change 65536 with (2 ^ 16). destruct (Z.ltb_spec i 16).
    - rewrite Z.mul_pow2_bits_low by lia. reflexivity.
    - rewrite (Z.bits_above_log2 b i); [apply andb_false_r|lia|]. destruct (Z.eq_dec b 0) as [->|]; [cbn; lia|]. apply Z.log2_lt_pow2; [lia|]. apply Z.lt_le_trans with (2 ^ 16); [lia|]. apply Z.pow_le_mono_r; lia. }
  intros Hd Hd' He. rewrite !E in He by assumption. destruct d as [a b], d' as [a' b'], Hd, Hd'. cbn [fst snd] in *. f_equal; lia.
Qed.

Definition inside (s : cache X) (d : dev_t) (page : Z) : Prop := exists x, devs s !! d = Some x /\ fits x page.
Definition occurs (l : list Z) (b : Z) : Z := Z.of_nat (count_occ Z.eq_dec l b).

(** [h] are the buffers that are in use; [A] the bytes of the devices, as the users of
    the cache see them. *)
Record cache_ok (h : list Z) (s : cache X) (A : dev_t -> Z -> Z) : Prop := {
  co_place : forall b u, bufs s !! b = Some u -> 0 < b < cheap s /\ cached s (to_key (bdev u)) (m_index u) = b /\ inside s (bdev u) (m_index u) /\ small_dev (bdev u);
  co_cached : forall k p, cached s k p <> 0 -> exists u, bufs s !! cached s k p = Some u /\ to_key (bdev u) = k /\ m_index u = p;
  co_page : forall b u pg, bufs s !! b = Some u -> m_page u = Some pg -> length pg = 4096%nat /\ forall i, 0 <= i < 4096 -> byte pg i = A (bdev u) (4096 * m_index u + i);
  co_disk : forall d x y, devs s !! d = Some x -> (forall b u, bufs s !! b = Some u -> bdev u = d -> m_index u = y / 4096 -> m_dirty u = false) -> content x y = A d y;
  co_dirty : forall b u, bufs s !! b = Some u -> m_dirty u = true -> is_Some (m_page u) /\ b ∈ h ++ dirty_buffers s;
  co_count : forall b u, bufs s !! b = Some u -> m_count u = occurs (h ++ dirty_buffers s) b;
  co_queue : forall b, b ∈ h ++ dirty_buffers s -> is_Some (bufs s !! b);
  co_room : Z.of_nat (length (h ++ dirty_buffers s)) < 2 ^ 62;
  co_heap : 0 < cheap s }.

Lemma get_buf_done (s : cache X) b u : bufs s !! b = Some u -> get_buf b s = Done u s.
Proof. intros E. unfold get_buf, sopt. now rewrite E. Qed.
Lemma get_dev_done (s : cache X) d x : devs s !! d = Some x -> get_dev d s = Done x s.
Proof. intros E. unfold get_dev, sopt. now rewrite E. Qed.

(** A buffer, the queue, the clock and its device change. *)
Definition update (s : cache X) (b : Z) (u : buffer) (q : list Z) (g : Z) (D : gmap dev_t X) : cache X :=
  Cache (<[b := u]> (bufs s)) (cheap s) (buffer_cache s) (total_blocks_in_cache s) q g D.

Lemma one_buffer h s A b b' u u' : cache_ok h s A -> bufs s !! b = Some u -> bufs s !! b' = Some u' -> bdev u = bdev u' -> m_index u = m_index u' -> b = b'.
Proof. intros Hok Hu Hu' E1 E2. destruct (co_place _ _ _ Hok b u Hu) as (_ & P1 & _), (co_place _ _ _ Hok b' u' Hu') as (_ & P2 & _). congruence. Qed.

Lemma update_ok h h' s A A' b u u' q g D :
  cache_ok h s A -> bufs s !! b = Some u -> bdev u' = bdev u -> m_index u' = m_index u ->
  (forall d x, devs s !! d = Some x -> exists x', D !! d = Some x' /\ block_size x' = block_size x /\ block_count x' = block_count x) ->
  (forall d x', D !! d = Some x' -> exists x, devs s !! d = Some x /\ forall y, d <> bdev u \/ y / 4096 <> m_index u -> content x' y = content x y) ->
  (forall d y, d <> bdev u \/ y / 4096 <> m_index u -> A' d y = A d y) ->
  (forall pg, m_page u' = Some pg -> length pg = 4096%nat /\ forall i, 0 <= i < 4096 -> byte pg i = A' (bdev u) (4096 * m_index u + i)) ->
  (m_dirty u' = false -> forall x' y, D !! bdev u = Some x' -> y / 4096 = m_index u -> content x' y = A' (bdev u) y) ->
  (m_dirty u' = true -> is_Some (m_page u') /\ b ∈ h' ++ q) ->
  m_count u' = occurs (h' ++ q) b ->
  (forall c, c <> b -> occurs (h' ++ q) c = occurs (h ++ dirty_buffers s) c) ->
  Z.of_nat (length (h' ++ q)) < 2 ^ 62 ->
  cache_ok h' (update s b u' q g D) A'.
Proof.
  intros Hok Hu Eb Ei HD1 HD2 HA Hpg Hclean Hdirty Hcnt Hocc Hlen.
  assert (Hsplit : forall c v, <[b := u']> (bufs s) !! c = Some v -> (c = b /\ v = u') \/ (c <> b /\ bufs s !! c = Some v)).
  { intros c v. rewrite lookup_insert_Some. intros [[<- <-]|[? ?]]; auto. }
  assert (Hin : forall d p, inside s d p -> inside (update s b u' q g D) d p).
  { intros d p (x & Hx & Hf). destruct (HD1 d x Hx) as (x' & Hx' & E1 & E2). exists x'. split; [exact Hx'|]. unfold fits in *. now rewrite E1, E2. }
  assert (Hel : forall c, c ∈ h' ++ q <-> 0 < occurs (h' ++ q) c) by (intros c; unfold occurs; rewrite list_elem_of_In, (count_occ_In Z.eq_dec); lia).
  assert (Hel' : forall c, c ∈ h ++ dirty_buffers s <-> 0 < occurs (h ++ dirty_buffers s) c) by (intros c; unfold occurs; rewrite list_elem_of_In, (count_occ_In Z.eq_dec); lia).
  split; cbn [update bufs cheap buffer_cache dirty_buffers devs].
  - intros c v [[-> ->]|[_ Hv]]%Hsplit; [rewrite Eb, Ei; destruct (co_place _ _ _ Hok b u Hu) as (P1 & P2 & P3 & P4)|destruct (co_place _ _ _ Hok c v Hv) as (P1 & P2 & P3 & P4)]; repeat split; auto; apply P1 || apply P4.
  - intros k p Hk. change (cached s k p <> 0) in Hk. change (cached (update s b u' q g D) k p) with (cached s k p). destruct (co_cached _ _ _ Hok k p Hk) as (v & V1 & V2 & V3).
    destruct (Z.eq_dec (cached s k p) b) as [E|E]; [exists u'; rewrite E, lookup_insert_eq; rewrite E, Hu in V1; injection V1 as <-; rewrite Eb, Ei; auto|exists v; rewrite lookup_insert_ne by congruence; auto].
  - intros c v pg [[-> ->]|[Hc Hv]]%Hsplit; [rewrite Eb, Ei; apply Hpg|]. intros Hp. destruct (co_page _ _ _ Hok c v pg Hv Hp) as [L1 L2]. split; [exact L1|]. intros i Hi. rewrite L2, HA; [reflexivity| |exact Hi].
    destruct (decide (bdev v = bdev u)) as [E|E]; [right|now left]. rewrite Z.mul_comm, Z.div_add_l, (Z.div_small i 4096), Z.add_0_r by lia. intros E2. apply Hc. eapply one_buffer; eauto.
  - intros d x' y Hx' Hall. destruct (HD2 d x' Hx') as (x & Hx & Hsame). destruct (decide (d = bdev u /\ y / 4096 = m_index u)) as [[-> Ey]|Hne].
    + apply (Hclean (Hall b u' (lookup_insert_eq _ _ _) Eb (eq_trans Ei (eq_sym Ey)))); auto.
    + assert (Hor : d <> bdev u \/ y / 4096 <> m_index u) by (destruct (decide (d = bdev u)); [right; intros ?; apply Hne; auto|now left]). rewrite Hsame, HA by exact Hor. apply (co_disk _ _ _ Hok d x y Hx). intros c v Hv V1 V2.
      apply (Hall c v); [|exact V1|exact V2]. rewrite lookup_insert_ne; [exact Hv|]. intros <-. rewrite Hu in Hv. injection Hv as <-. destruct Hor; congruence.
  - intros c v [[-> ->]|[Hc Hv]]%Hsplit Hd; [auto|]. destruct (co_dirty _ _ _ Hok c v Hv Hd) as [D1 D2]. split; [exact D1|]. apply Hel. rewrite Hocc by exact Hc. now apply Hel'.
  - intros c v [[-> ->]|[Hc Hv]]%Hsplit; [exact Hcnt|]. rewrite Hocc by exact Hc. now apply (co_count _ _ _ Hok).
  - intros c Hc. apply lookup_insert_is_Some'. destruct (Z.eq_dec b c) as [|Hne]; [now left|right]. apply (co_queue _ _ _ Hok), Hel'. rewrite <- Hocc by congruence. now apply Hel.
  - exact Hlen.
  - apply Hok.
Qed.

Ltac brun E := rewrite (bind_done _ _ _ _ _ E).

(** The changes that leave the devices alone. *)
Lemma devs_same (s : cache X) (u : buffer) : (forall d x, devs s !! d = Some x -> exists x', devs s !! d = Some x' /\ block_size x' = block_size x /\ block_count x' = block_count x) /\
  (forall d x', devs s !! d = Some x' -> exists x, devs s !! d = Some x /\ forall y, d <> bdev u \/ y / 4096 <> m_index u -> content x' y = content x y).
Proof. split; intros d x Hx; exists x; auto. Qed.

Lemma clean_content h s A b u x y : cache_ok h s A -> bufs s !! b = Some u -> m_dirty u = false -> devs s !! bdev u = Some x -> y / 4096 = m_index u -> content x y = A (bdev u) y.
Proof.
  intros Hok Hu Hd Hx Hy. apply (co_disk _ _ _ Hok (bdev u) x y Hx). intros c v Hv V1 V2. assert (c = b) as -> by (eapply one_buffer; eauto; congruence). congruence.
Qed.

Lemma occurs_cons c l b : occurs (c :: l) b = (if c =? b then 1 else 0) + occurs l b.
Proof. unfold occurs. cbn. destruct (Z.eq_dec c b) as [->|E]; [rewrite Z.eqb_refl; lia|]. rewrite (proj2 (Z.eqb_neq c b) E). lia. Qed.
Lemma occurs_app l l' b : occurs (l ++ l') b = occurs l b + occurs l' b.
Proof. unfold occurs. rewrite count_occ_app. lia. Qed.
Lemma occurs_range l b : 0 <= occurs l b <= Z.of_nat (length l).
Proof. unfold occurs. pose proof (count_occ_bound Z.eq_dec b l). lia. Qed.

(** *** [bget] *)

Lemma new_buffer_ok h s A d page : cache_ok h s A -> small_dev d -> inside s d page -> cached s (to_key d) page = 0 ->
  exists s', new_buffer d page s = Done (cheap s) s' /\ cache_ok h s' A /\ bufs s' !! cheap s = Some (Buffer d page false 0 0 None) /\ devs s' = devs s /\ dirty_buffers s' = dirty_buffers s.
Proof.
  intros Hok Hd Hin H0. eexists. split; [reflexivity|]. set (b := cheap s). set (s' := Cache _ _ _ _ _ _ _). pose proof (co_heap _ _ _ Hok) as Hh.
  assert (Hca : forall k p, cached s' k p = if decide (k = to_key d /\ p = page) then b else cached s k p).
  { intros k p. unfold cached, s'. cbn [buffer_cache]. destruct (decide (k = to_key d)) as [->|Hk]; [|rewrite lookup_insert_ne by congruence; rewrite decide_False by tauto; reflexivity].
    rewrite lookup_insert_eq. cbn [default from_option id]. destruct (decide (p = page)) as [->|Hp]; [rewrite lookup_insert_eq, decide_True by auto; reflexivity|].
    rewrite lookup_insert_ne by congruence. rewrite decide_False by tauto. reflexivity. }
  assert (Hb : bufs s !! b = None) by (apply eq_None_not_Some; intros [u Hu]; destruct (co_place _ _ _ Hok b u Hu) as [P1 _]; unfold b in P1; lia).
  assert (Hnew : forall c v, bufs s' !! c = Some v -> (c = b /\ v = Buffer d page false 0 0 None) \/ (c <> b /\ bufs s !! c = Some v)).
  { intros c v. unfold s'. cbn [bufs]. rewrite lookup_insert_Some. intros [[<- <-]|[? ?]]; auto. }
  assert (Hnot : b ∉ h ++ dirty_buffers s) by (intros Hq; destruct (co_queue _ _ _ Hok b Hq) as [u Hu]; congruence).
  split; [|split; [apply lookup_insert_eq|auto]]. split.
  - intros c v [[-> ->]|[Hc Hv]]%Hnew; cbn [bdev m_index]; [rewrite Hca, decide_True by auto; repeat split; try apply Hd; try exact Hin; cbn; unfold b; lia|].
    destruct (co_place _ _ _ Hok c v Hv) as (P1 & P2 & P3 & P4). rewrite Hca, decide_False; [repeat split; try apply P4; auto; cbn; lia|]. intros [E1 E2]. apply to_key_inj in E1; [|exact P4|exact Hd]. rewrite E1, E2, H0 in P2. lia.
  - intros k p. rewrite Hca. destruct (decide (k = to_key d /\ p = page)) as [[-> ->]|Hkp]; [intros _; exists (Buffer d page false 0 0 None); split; [apply lookup_insert_eq|auto]|].
    intros Hk. destruct (co_cached _ _ _ Hok k p Hk) as (u & U1 & U2). exists u. split; [|exact U2]. unfold s'. cbn [bufs]. rewrite lookup_insert_ne; [exact U1|]. intros E. rewrite <- E in U1. congruence.
  - intros c v pg [[-> ->]|[Hc Hv]]%Hnew; [discriminate|]. exact (co_page _ _ _ Hok c v pg Hv).
  - intros e x y Hx Hall. apply (co_disk _ _ _ Hok e x y Hx). intros c v Hv. apply (Hall c). unfold s'. cbn [bufs]. rewrite lookup_insert_ne; [exact Hv|]. intros <-. congruence.
  - intros c v [[-> ->]|[Hc Hv]]%Hnew; [discriminate|]. now apply (co_dirty _ _ _ Hok).
  - intros c v [[-> ->]|[Hc Hv]]%Hnew; [|now apply (co_count _ _ _ Hok)]. cbn [m_count]. unfold occurs. rewrite (proj1 (count_occ_not_In Z.eq_dec _ b)); [reflexivity|]. intros Hin'. apply Hnot. now apply list_elem_of_In.
  - intros c Hc. apply lookup_insert_is_Some'. right. now apply (co_queue _ _ _ Hok).
  - apply Hok.
  - cbn. lia.
Qed.

Lemma bget_run h s A d page : cache_ok h s A -> small_dev d -> inside s d page -> Z.of_nat (length (h ++ dirty_buffers s)) < 2 ^ 61 ->
  exists b u s', bget d page s = Done b s' /\ cache_ok (b :: h) s' A /\ bufs s' !! b = Some u /\ bdev u = d /\ m_index u = page /\ devs s' = devs s /\ dirty_buffers s' = dirty_buffers s.
Proof.
  intros Hok Hd Hin Hlen. set (b0 := cached s (to_key d) page).
  assert (Hget : exists b u s1, (if b0 =? 0 then new_buffer d page else mret b0) s = Done b s1 /\ cache_ok h s1 A /\ bufs s1 !! b = Some u /\ bdev u = d /\ m_index u = page /\ devs s1 = devs s /\ dirty_buffers s1 = dirty_buffers s).
  { destruct (Z.eqb_spec b0 0) as [E|E].
    - destruct (new_buffer_ok h s A d page Hok Hd Hin E) as (s1 & E1 & Hok1 & Hb & Hdv & Hq). exists (cheap s), (Buffer d page false 0 0 None), s1. auto 10.
    - destruct (co_cached _ _ _ Hok _ _ E) as (u & U1 & U2 & U3). fold b0 in U1. destruct (co_place _ _ _ Hok b0 u U1) as (_ & _ & _ & U4). exists b0, u, s. apply to_key_inj in U2; [auto 10|exact U4|exact Hd]. }
  destruct Hget as (b & u & s1 & E1 & Hok1 & Hu & Hbd & Hix & Hdv & Hq). rewrite <- Hq in Hlen. pose proof (occurs_range (h ++ dirty_buffers s1) b) as Hr. rewrite <- Hdv, <- Hq.
  set (u' := Buffer (bdev u) page (m_dirty u) (u64 (m_count u + 1)) (g_next_block_lru s1) (m_page u)).
  exists b, u', (update s1 b u' (dirty_buffers s1) (u64 (g_next_block_lru s1 + 1)) (devs s1)). split; [|split].
  - unfold bget. rewrite (bind_done (gets (fun s => cached s (to_key d) page)) _ s b0 s eq_refl). brun E1.
    set (s2 := Cache (bufs s1) (cheap s1) (buffer_cache s1) (total_blocks_in_cache s1) (dirty_buffers s1) (u64 (g_next_block_lru s1 + 1)) (devs s1)).
    rewrite (bind_done next_block_lru _ s1 (g_next_block_lru s1) s2 eq_refl). assert (G : bufs s2 !! b = Some u) by exact Hu. brun (get_buf_done s2 b u G). reflexivity.
  - destruct (devs_same s1 u) as [D1 D2]. apply (update_ok h (b :: h) s1 A A b u u'); auto.
    + intros pg Hp. apply (co_page _ _ _ Hok1 b u pg Hu Hp).
    + intros Hdr x' y Hx' Hy. now apply (clean_content h s1 A b u x' y).
    + intros Hdr. destruct (co_dirty _ _ _ Hok1 b u Hu Hdr) as [G1 G2]. split; [exact G1|]. now right.
    + cbn [u' m_count app]. rewrite (co_count _ _ _ Hok1 b u Hu), occurs_cons, Z.eqb_refl, u64_small by lia. lia.
    + intros c Hc. cbn [app]. rewrite occurs_cons, (proj2 (Z.eqb_neq b c)) by congruence. reflexivity.
    + cbn [app length]. lia.
  - cbn [update bufs devs dirty_buffers]. rewrite lookup_insert_eq. auto.
Qed.

(** *** The steps on one buffer *)

Section one.
Context (h : list Z) (s : cache X) (A : dev_t -> Z -> Z) (b : Z) (u : buffer).
Hypothesis Hok : cache_ok h s A.
Hypothesis Hu : bufs s !! b = Some u.

Lemma buffer_facts : exists x, devs s !! bdev u = Some x /\ fits x (m_index u) /\ m_count u = occurs (h ++ dirty_buffers s) b.
Proof. destruct (co_place _ _ _ Hok b u Hu) as (_ & _ & (x & Hx & Hf) & _). exists x. split; [exact Hx|]. split; [exact Hf|]. now apply (co_count _ _ _ Hok). Qed.

(** Only the page and the flag change. *)
Lemma same_queue u' D A' : bdev u' = bdev u -> m_index u' = m_index u -> m_count u' = m_count u ->
  (forall d x, devs s !! d = Some x -> exists x', D !! d = Some x' /\ block_size x' = block_size x /\ block_count x' = block_count x) ->
  (forall d x', D !! d = Some x' -> exists x, devs s !! d = Some x /\ forall y, d <> bdev u \/ y / 4096 <> m_index u -> content x' y = content x y) ->
  (forall d y, d <> bdev u \/ y / 4096 <> m_index u -> A' d y = A d y) ->
  (forall pg, m_page u' = Some pg -> length pg = 4096%nat /\ forall i, 0 <= i < 4096 -> byte pg i = A' (bdev u) (4096 * m_index u + i)) ->
  (m_dirty u' = false -> forall x' y, D !! bdev u = Some x' -> y / 4096 = m_index u -> content x' y = A' (bdev u) y) ->
  (m_dirty u' = true -> is_Some (m_page u') /\ b ∈ h ++ dirty_buffers s) ->
  cache_ok h (update s b u' (dirty_buffers s) (g_next_block_lru s) D) A'.
Proof.
  intros E1 E2 E3 H1 H2 H3 H4 H5 H6. apply (update_ok h h s A A' b u u'); auto; [|apply Hok]. rewrite E3. now apply (co_count _ _ _ Hok).
Qed.

Lemma data_run : exists pg s' u', data b s = Done pg s' /\ cache_ok h s' A /\ bufs s' !! b = Some u' /\ bdev u' = bdev u /\ m_index u' = m_index u /\ m_page u' = Some pg /\
  length pg = 4096%nat /\ (forall i, 0 <= i < 4096 -> byte pg i = A (bdev u) (4096 * m_index u + i)) /\ devs s' = devs s /\ dirty_buffers s' = dirty_buffers s.
Proof.
  destruct (m_page u) as [pg|] eqn:Ep.
  - destruct (co_page _ _ _ Hok b u pg Hu Ep) as [L1 L2]. exists pg, s, u. unfold data. brun (get_buf_done s b u Hu). rewrite Ep. auto 15.
  - destruct buffer_facts as (x & Hx & Hf & _). destruct (blocks_per_page x) as (k & Hk & Hkb & Ek). set (pg := read_blocks (m_index u) k x (Z.to_nat k) 0 (replicate 4096 0)).
    destruct (read_blocks_spec x (m_index u) k (Z.to_nat k) Hf Hk Hkb 0 (replicate 4096 0)) as [L1 L2]; [lia|lia|apply length_replicate|]. fold pg in L1, L2.
    assert (Hclean : m_dirty u = false) by (destruct (m_dirty u) eqn:Ed; [|reflexivity]; destruct (co_dirty _ _ _ Hok b u Hu Ed) as [[? E] _]; congruence).
    assert (Hbytes : forall i, 0 <= i < 4096 -> byte pg i = A (bdev u) (4096 * m_index u + i)).
    { intros i Hi. rewrite L2 by exact Hi. rewrite (proj2 (Z.leb_le _ _)), (proj2 (Z.ltb_lt _ _)) by nia. cbn [andb]. apply (clean_content h s A b u); auto.
      rewrite Z.mul_comm, Z.div_add_l, (Z.div_small i) by lia. lia. }
    set (u' := Buffer (bdev u) (m_index u) (m_dirty u) (m_count u) (m_last_used u) (Some pg)).
    exists pg, (update s b u' (dirty_buffers s) (g_next_block_lru s) (devs s)), u'. split; [|split].
    + unfold data. brun (get_buf_done s b u Hu). rewrite Ep. brun (get_dev_done s _ x Hx). rewrite Ek. reflexivity.
    + destruct (devs_same s u) as [D1 D2]. apply same_queue; auto; [intros pg' [= <-]; auto|intros _ x' y Hx' Hy; now apply (clean_content h s A b u)|cbn; congruence].
    + cbn [update bufs devs dirty_buffers]. rewrite lookup_insert_eq. auto 15.
Qed.

(** The bytes after a write to the page. *)
Definition written (d : dev_t) (o : Z) (bs : list Z) (A : dev_t -> Z -> Z) : dev_t -> Z -> Z :=
  fun e y => if bool_decide (e = d) && (o <=? y) && (y <? o + Z.of_nat (length bs)) then byte bs (y - o) else A e y.

Lemma store_run pg o bs : m_page u = Some pg -> 0 <= o -> o + Z.of_nat (length bs) <= 4096 -> b ∈ h ++ dirty_buffers s ->
  exists s' u', (store_page b o bs;; register_write b) s = Done tt s' /\ cache_ok h s' (written (bdev u) (4096 * m_index u + o) bs A) /\
    bufs s' !! b = Some u' /\ devs s' = devs s /\ dirty_buffers s' = dirty_buffers s.
Proof.
  intros Ep Ho Hl Hin. destruct (co_page _ _ _ Hok b u pg Hu Ep) as [L1 L2]. assert (Hl' : o + Z.of_nat (length bs) <= Z.of_nat (length pg)) by lia.
  set (u1 := Buffer (bdev u) (m_index u) (m_dirty u) (m_count u) (m_last_used u) (Some (splice o bs pg))). set (u' := Buffer (bdev u) (m_index u) true (m_count u) (m_last_used u) (Some (splice o bs pg))).
  exists (update s b u' (dirty_buffers s) (g_next_block_lru s) (devs s)), u'. split; [|split; [|cbn [update bufs devs dirty_buffers]; rewrite lookup_insert_eq; auto]].
  - assert (E1 : store_page b o bs s = Done tt (update s b u1 (dirty_buffers s) (g_next_block_lru s) (devs s))) by (unfold store_page; brun (get_buf_done s b u Hu); now rewrite Ep). brun E1.
    set (s1 := update _ _ _ _ _ _). assert (G : bufs s1 !! b = Some u1) by apply lookup_insert_eq. unfold register_write. brun (get_buf_done s1 b u1 G). unfold set_buf, modify, update, s1, update. cbn. now rewrite insert_insert_eq.
  - destruct (devs_same s u) as [D1 D2]. apply same_queue; auto.
    + intros d y Hd. unfold written. destruct (decide (d = bdev u)) as [->|Hne]; [|rewrite bool_decide_false by exact Hne; reflexivity]. destruct Hd as [Hd|Hd]; [congruence|].
      rewrite bool_decide_true by reflexivity. cbn [andb]. destruct (Z.leb_spec (4096 * m_index u + o) y), (Z.ltb_spec y (4096 * m_index u + o + Z.of_nat (length bs))); cbn [andb]; try reflexivity.
      exfalso. apply Hd. symmetry. apply (Z.div_unique y 4096 _ (y - 4096 * m_index u)); lia.
    + intros pg' [= <-]. rewrite length_splice by assumption. split; [exact L1|]. intros i Hi. rewrite byte_splice by (assumption || lia). unfold written. rewrite bool_decide_true by reflexivity. cbn [andb].
      replace (4096 * m_index u + o <=? 4096 * m_index u + i) with (o <=? i) by lia. replace (4096 * m_index u + i <? 4096 * m_index u + o + Z.of_nat (length bs)) with (i <? o + Z.of_nat (length bs)) by lia.
      destruct ((o <=? i) && (i <? o + Z.of_nat (length bs))); [f_equal; lia|now apply L2].
    + discriminate.
Qed.

Lemma flush_run : exists s', flush b s = Done 0 s' /\ cache_ok h s' A /\ dirty_buffers s' = dirty_buffers s /\
  bufs s' = <[b := Buffer (bdev u) (m_index u) false (m_count u) (m_last_used u) (m_page u)]> (bufs s) /\ forall d p, inside s d p -> inside s' d p.
Proof.
  destruct buffer_facts as (x & Hx & Hf & _). destruct (blocks_per_page x) as (k & Hk & Hkb & Ek). set (u' := Buffer (bdev u) (m_index u) false (m_count u) (m_last_used u) (m_page u)).
  destruct (m_page u) as [pg|] eqn:Ep.
  - destruct (co_page _ _ _ Hok b u pg Hu Ep) as [L1 L2]. set (x' := write_blocks (m_index u) k pg (Z.to_nat k) 0 x).
    destruct (write_blocks_spec (m_index u) k pg (Z.to_nat k) Hk L1 0 x Hf Hkb) as (W1 & W2 & W3); [lia|lia|]. fold x' in W1, W2, W3.
    exists (update s b u' (dirty_buffers s) (g_next_block_lru s) (<[bdev u := x']> (devs s))). split; [|split; [|split; [reflexivity|split; [reflexivity|]]]].
    + unfold flush. brun (get_buf_done s b u Hu). rewrite Ep. unfold mbind at 1, SM_bind at 1. brun (get_dev_done s _ x Hx). rewrite Ek. reflexivity.
    + assert (Hin : forall y, (4096 * m_index u + 0 * block_size x <=? y) && (y <? 4096 * m_index u + (0 + Z.of_nat (Z.to_nat k)) * block_size x) = bool_decide (y / 4096 = m_index u)).
      { intros y. replace ((0 + Z.of_nat (Z.to_nat k)) * block_size x) with 4096 by nia. case_bool_decide as Hy; [rewrite (proj2 (Z.leb_le _ _)), (proj2 (Z.ltb_lt _ _)) by (Z.div_mod_to_equations; lia); reflexivity|].
        destruct (Z.leb_spec (4096 * m_index u + 0 * block_size x) y), (Z.ltb_spec y (4096 * m_index u + 4096)); cbn [andb]; try reflexivity. exfalso. apply Hy. symmetry. apply (Z.div_unique y 4096 _ (y - 4096 * m_index u)); lia. }
      apply same_queue; auto; [| | | |discriminate].
      * intros d z Hz. destruct (decide (bdev u = d)) as [<-|Hne]; [exists x'; rewrite lookup_insert_eq; rewrite Hx in Hz; injection Hz as <-; auto|exists z; rewrite lookup_insert_ne by exact Hne; auto].
      * intros d z. destruct (decide (bdev u = d)) as [<-|Hne]; [rewrite lookup_insert_eq; intros [= <-]; exists x; split; [exact Hx|]|rewrite lookup_insert_ne by exact Hne; intros Hz; exists z; auto].
        intros y [Hy|Hy]; [congruence|]. rewrite W3, Hin, bool_decide_false by exact Hy. reflexivity.
      * intros pg' Ep'. cbn [u' m_page] in Ep'. injection Ep' as <-. auto.
      * intros _ z y. rewrite lookup_insert_eq. intros [= <-] Hy. rewrite W3, Hin, bool_decide_true by exact Hy. rewrite L2 by (Z.div_mod_to_equations; lia). f_equal. lia.
    + intros d p (z & Hz & Hfz). unfold inside. cbn [update devs]. destruct (decide (bdev u = d)) as [<-|Hne]; [exists x'; rewrite lookup_insert_eq; rewrite Hx in Hz; injection Hz as <-; unfold fits in *; now rewrite W1, W2|exists z; now rewrite lookup_insert_ne].
  - exists (update s b u' (dirty_buffers s) (g_next_block_lru s) (devs s)). split; [|split; [|auto]].
    + unfold flush. brun (get_buf_done s b u Hu). rewrite Ep. reflexivity.
    + assert (Hclean : m_dirty u = false) by (destruct (m_dirty u) eqn:Ed; [|reflexivity]; destruct (co_dirty _ _ _ Hok b u Hu Ed) as [[? E] _]; congruence).
      destruct (devs_same s u) as [D1 D2]. apply same_queue; auto; [intros pg' E'; discriminate E'|intros _ z y Hz Hy; now apply (clean_content h s A b u)|discriminate].
Qed.

Lemma reclaim_run : exists r s', reclaim b s = Done r s' /\ cache_ok h s' A /\ dirty_buffers s' = dirty_buffers s /\ devs s' = devs s /\ forall c, is_Some (bufs s !! c) -> is_Some (bufs s' !! c).
Proof.
  unfold reclaim. brun (get_buf_done s b u Hu). destruct (m_page u) as [pg|] eqn:Ep; [|exists 0, s; auto 10]. destruct ((m_count u =? 0) && negb (m_dirty u)) eqn:Ec; [|exists 0, s; auto 10].
  apply andb_true_iff in Ec as [_ Hd]. apply negb_true_iff in Hd. set (u' := Buffer (bdev u) (m_index u) (m_dirty u) (m_count u) (m_last_used u) None).
  exists PGSIZE, (update s b u' (dirty_buffers s) (g_next_block_lru s) (devs s)). split; [reflexivity|]. split; [|split; [reflexivity|split; [reflexivity|intros c Hc; apply lookup_insert_is_Some'; auto]]].
  destruct (devs_same s u) as [D1 D2]. apply same_queue; auto; [discriminate|intros _ z y Hz Hy; now apply (clean_content h s A b u)|cbn; congruence].
Qed.
End one.

Lemma bput_run h s A b u : cache_ok (b :: h) s A -> bufs s !! b = Some u -> Z.of_nat (length (dirty_buffers s)) < CHAN_SIZE ->
  exists s', bput b s = Done tt s' /\ cache_ok h s' A /\ devs s' = devs s /\ dirty_buffers s' = (if m_dirty u then dirty_buffers s ++ [b] else dirty_buffers s) /\
    forall c, is_Some (bufs s !! c) -> is_Some (bufs s' !! c).
Proof.
  intros Hok Hu Hlen. pose proof (co_count _ _ _ Hok b u Hu) as Hc. pose proof (co_room _ _ _ Hok) as Hroom. cbn [app length] in Hc, Hroom. rewrite occurs_cons, Z.eqb_refl in Hc.
  pose proof (occurs_range (h ++ dirty_buffers s) b) as Hr. destruct (devs_same s u) as [D1 D2]. unfold bput. brun (get_buf_done s b u Hu). destruct (m_dirty u) eqn:Ed.
  - rewrite (bind_done (gets dirty_buffers) _ s _ s eq_refl). rewrite (proj2 (Z.leb_gt _ _) Hlen). set (q := dirty_buffers s ++ [b]). exists (update s b u q (g_next_block_lru s) (devs s)).
    assert (Hocc : forall c, occurs (h ++ q) c = occurs (b :: h ++ dirty_buffers s) c) by (intros c; unfold q; rewrite app_assoc, occurs_app, !occurs_cons; change (occurs [] c) with 0; lia).
    split; [unfold set_queue, modify, update; now rewrite insert_id|]. split; [|split; [reflexivity|split; [reflexivity|intros c Hc'; apply lookup_insert_is_Some'; auto]]].
    apply (update_ok (b :: h) h s A A b u u); auto.
    + intros pg Hp. apply (co_page _ _ _ Hok b u pg Hu Hp).
    + congruence.
    + intros _. destruct (co_dirty _ _ _ Hok b u Hu Ed) as [G _]. split; [exact G|]. apply elem_of_app. right. apply elem_of_app. right. now left.
    + rewrite Hocc, occurs_cons, Z.eqb_refl. lia.
    + unfold q. rewrite app_assoc, length_app. cbn. lia.
  - set (u' := Buffer (bdev u) (m_index u) false (u64 (m_count u - 1)) (m_last_used u) (m_page u)). exists (update s b u' (dirty_buffers s) (g_next_block_lru s) (devs s)).
    split; [reflexivity|]. split; [|split; [reflexivity|split; [reflexivity|intros c Hc'; apply lookup_insert_is_Some'; auto]]].
    apply (update_ok (b :: h) h s A A b u u'); auto.
    + intros pg Hp. apply (co_page _ _ _ Hok b u pg Hu Hp).
    + intros _ x' y Hx' Hy. now apply (clean_content (b :: h) s A b u x' y).
    + discriminate.
    + cbn [u' m_count]. rewrite u64_small by lia. lia.
    + intros c Hc'. cbn [app]. rewrite occurs_cons, (proj2 (Z.eqb_neq b c)) by congruence. reflexivity.
    + lia.
Qed.
End cache.
