(* ===== verification/BlockRw.v ===== *)
(** * The block cache: reads, writes and their sequences *)

From S2P Require Import Prelude CMem State Block BlockProps.

Section rw.
Context {X : Type} {HX : BlockOps X} {BX : Blockdev X}.

Ltac brun E := rewrite (bind_done _ _ _ _ _ E).

Lemma cache_ok_ext h (s : cache X) A A' : (forall d y, A d y = A' d y) -> cache_ok h s A -> cache_ok h s A'.
Proof.
  intros HA Hok. split; try apply Hok.
  - intros b u pg Hu Hp. destruct (co_page _ _ _ Hok b u pg Hu Hp) as [L1 L2]. split; [exact L1|]. intros i Hi. now rewrite <- HA, L2.
  - intros d x y Hx Hall. rewrite <- HA. now apply (co_disk _ _ _ Hok).
Qed.

Definition bytes (A : dev_t -> Z -> Z) (d : dev_t) (a n : Z) : list Z := (fun i => A d (a + i)) <$> seqZ 0 n.

Lemma length_bytes A d a n : length (bytes A d a n) = Z.to_nat n.
Proof. unfold bytes. now rewrite length_fmap, length_seqZ. Qed.
Lemma byte_bytes A d a n i : 0 <= i < n -> byte (bytes A d a n) i = A d (a + i).
Proof. intros Hi. unfold byte, bytes. rewrite nth_lookup, list_lookup_fmap, lookup_seqZ_lt by lia. cbn. f_equal. lia. Qed.
Lemma bytes_app A d a n m : 0 <= n -> 0 <= m -> bytes A d a (n + m) = bytes A d a n ++ bytes A d (a + n) m.
Proof.
  intros Hn Hm. apply byte_ext; [rewrite length_app, !length_bytes; lia|]. rewrite length_bytes. intros i Hi. rewrite byte_app, byte_bytes, length_bytes by lia.
  destruct (Z.ltb_spec i (Z.of_nat (Z.to_nat n))); [now rewrite byte_bytes by lia|]. rewrite byte_bytes by lia. f_equal. lia.
Qed.

Lemma written_both d a bs1 bs2 A e y : written d (a + Z.of_nat (length bs1)) bs2 (written d a bs1 A) e y = written d a (bs1 ++ bs2) A e y.
Proof.
  unfold written. destruct (bool_decide (e = d)); [|reflexivity]. cbn [andb]. rewrite length_app.
  destruct (Z.leb_spec (a + Z.of_nat (length bs1)) y), (Z.leb_spec a y), (Z.ltb_spec y (a + Z.of_nat (length bs1))), (Z.ltb_spec y (a + Z.of_nat (length bs1) + Z.of_nat (length bs2))), (Z.ltb_spec y (a + Z.of_nat (length bs1 + length bs2)));
    cbn [andb]; try reflexivity; try lia; rewrite byte_app by lia; rewrite ?(proj2 (Z.ltb_lt (y - a) _)), ?(proj2 (Z.ltb_ge (y - a) _)) by lia; f_equal; lia.
Qed.

(** What the steps keep. *)
Definition kept (s s' : cache X) : Prop := forall d p, inside s d p -> inside s' d p.
Definition queued (s : cache X) : Z := Z.of_nat (length (dirty_buffers s)).

Lemma kept_devs (s s' : cache X) : devs s' = devs s -> kept s s'.
Proof. intros E d p. unfold inside. now rewrite E. Qed.
Lemma kept_then (s s1 s2 : cache X) : kept s s1 -> kept s1 s2 -> kept s s2.
Proof. intros H1 H2 d p H. auto. Qed.

Section dev.
Context (d : dev_t).
Hypothesis Hd : small_dev d.

(** One page of a read or a write. *)
Lemma rw_step_run s A write blk o n udata : cache_ok [] s A -> inside s d blk -> 0 <= o < 4096 -> 0 <= n -> (write = true -> Z.of_nat (length udata) = n) -> queued s < CHAN_SIZE ->
  let k := Z.min (4096 - o) n in
  exists s', rw_step d write (blk, o, n, udata) s =
      Done (let udata' := if write then drop (Z.to_nat k) udata else udata ++ bytes A d (4096 * blk + o) k in if n - k <=? 0 then Break udata' else Next (u64 (blk + 1), 0, n - k, udata')) s' /\
    cache_ok [] s' (if write then written d (4096 * blk + o) (take (Z.to_nat k) udata) A else A) /\ kept s s' /\ queued s' <= queued s + 1.
Proof.
  intros Hok Hin Ho Hn Hw Hq k. unfold queued in *. unfold CHAN_SIZE in Hq.
  destruct (bget_run [] s A d blk Hok Hd Hin ltac:(cbn; lia)) as (b & u & s1 & E1 & Hok1 & Hu1 & Hb1 & Hi1 & Hd1 & Hq1).
  destruct (data_run [b] s1 A b u Hok1 Hu1) as (pg & s2 & u2 & E2 & Hok2 & Hu2 & Hb2 & Hi2 & Hp2 & Hl2 & Hby & Hd2 & Hq2). rewrite Hb1, Hi1 in *.
  assert (Hbody : exists s3 u3, (if write then store_page b o (take (Z.to_nat k) udata);; register_write b;; mret (drop (Z.to_nat k) udata) else mret (udata ++ slice o k pg)) s2 =
      Done (if write then drop (Z.to_nat k) udata else udata ++ bytes A d (4096 * blk + o) k) s3 /\ cache_ok [b] s3 (if write then written d (4096 * blk + o) (take (Z.to_nat k) udata) A else A) /\
      bufs s3 !! b = Some u3 /\ devs s3 = devs s2 /\ dirty_buffers s3 = dirty_buffers s2).
  { destruct write.
    - specialize (Hw eq_refl). destruct (store_run [b] s2 A b u2 Hok2 Hu2 pg o (take (Z.to_nat k) udata) Hp2 ltac:(lia)) as (s3 & u3 & E3 & Hok3 & Hu3 & Hd3 & Hq3); [rewrite length_take; lia|cbn; now left|].
      rewrite Hb2, Hi2 in Hok3. exists s3, u3. split; [|auto]. unfold mbind, SM_bind in *. destruct (store_page b o (take (Z.to_nat k) udata) s2); [|discriminate..]. now rewrite E3.
    - exists s2, u2. split; [|auto]. cbn [mret SM_ret]. do 2 f_equal. apply byte_ext; [rewrite length_slice, length_bytes by lia; reflexivity|]. rewrite length_slice by lia. intros i Hi.
      rewrite byte_slice, byte_bytes, Hby by lia. f_equal. lia. }
  destruct Hbody as (s3 & u3 & E3 & Hok3 & Hu3 & Hd3 & Hq3). destruct (bput_run [] s3 _ b u3 Hok3 Hu3 ltac:(rewrite Hq3, Hq2, Hq1; unfold CHAN_SIZE; lia)) as (s4 & E4 & Hok4 & Hd4 & Hq4 & _).
  exists s4. split; [|split; [exact Hok4|split; [apply kept_devs; congruence|rewrite Hq4, Hq3, Hq2, Hq1; destruct (m_dirty u3); rewrite ?length_app; cbn; lia]]].
  unfold rw_step. brun E1. brun E2. fold k. change (Z.min (PGSIZE - o) n) with k. brun E3. brun E4. now destruct (n - k <=? 0).
Qed.

Definition in_range (s : cache X) (a n : Z) : Prop := forall p, a / 4096 <= p <= (a + Z.max n 1 - 1) / 4096 -> inside s d p.

Lemma rw_loop write fuel : forall s A blk o n udata, cache_ok [] s A -> in_range s (4096 * blk + o) n -> 0 <= blk -> 0 <= o < 4096 -> 0 <= n -> o + n <= 4096 * Z.of_nat fuel -> (0 < fuel)%nat ->
  (write = true -> Z.of_nat (length udata) = n) -> queued s + Z.of_nat fuel <= CHAN_SIZE ->
  exists s', sloop fuel (rw_step d write) (blk, o, n, udata) s = Done (if write then [] else udata ++ bytes A d (4096 * blk + o) n) s' /\
    cache_ok [] s' (if write then written d (4096 * blk + o) udata A else A) /\ kept s s' /\ queued s' <= queued s + Z.of_nat fuel.
Proof.
  induction fuel as [|fuel IH]; intros s A blk o n udata Hok Hr Hb Ho Hn Hf Hf0 Hw Hq; [lia|].
  assert (Hin : inside s d blk) by (apply Hr; Z.div_mod_to_equations; lia). assert (Hblk : blk + 1 < 2 ^ 40) by (destruct Hin as (x & _ & _ & Hfit); destruct (bd_size x) as (B1 & Bd & B2); apply Z.divide_pos_le in Bd; [|lia]; assert (block_count x * block_size x <= 2 ^ 31 * 4096) by nia; lia).
  destruct (rw_step_run s A write blk o n udata Hok Hin Ho Hn Hw ltac:(lia)) as (s1 & E1 & Hok1 & Hk1 & Hq1). set (k := Z.min (4096 - o) n) in *. cbv zeta in E1. cbn [sloop].
  destruct (Z.leb_spec (n - k) 0) as [Hle|Hgt].
  - brun E1. exists s1. assert (Ek : k = n) by lia. rewrite Ek in *. split; [|split; [|split; [exact Hk1|lia]]].
    + destruct write; [|reflexivity]. rewrite drop_ge by lia. reflexivity.
    + destruct write; [|exact Hok1]. rewrite take_ge in Hok1 by lia. exact Hok1.
  - assert (Ek : k = 4096 - o) by lia. brun E1. rewrite u64_small by lia. set (udata' := if write then drop (Z.to_nat k) udata else udata ++ bytes A d (4096 * blk + o) k) in *.
    set (A1 := if write then written d (4096 * blk + o) (take (Z.to_nat k) udata) A else A) in *.
    destruct (IH s1 A1 (blk + 1) 0 (n - k) udata' Hok1) as (s2 & E2 & Hok2 & Hk2 & Hq2); try lia.
    + intros p Hp. apply Hk1, Hr. Z.div_mod_to_equations. lia.
    + intros ->. unfold udata'. rewrite length_drop. specialize (Hw eq_refl). lia.
    + exists s2. split; [|split; [|split; [eapply kept_then; eauto|lia]]].
      * rewrite E2. destruct write; [reflexivity|]. unfold udata', A1. rewrite <- app_assoc. do 2 f_equal. replace (4096 * (blk + 1) + 0) with (4096 * blk + o + k) by lia. rewrite <- bytes_app by lia. f_equal. lia.
      * destruct write; [|exact Hok2]. eapply cache_ok_ext; [|exact Hok2]. intros e y. unfold udata', A1. specialize (Hw eq_refl).
        replace (4096 * (blk + 1) + 0) with (4096 * blk + o + Z.of_nat (length (take (Z.to_nat k) udata))) by (rewrite length_take; lia). rewrite written_both. now rewrite take_drop.
Qed.

Definition rounds (n : Z) : Z := n / 4096 + 2.

Lemma block_rw_run s A write a n udata : cache_ok [] s A -> in_range s a n -> 0 <= a -> 0 <= n -> (write = true -> Z.of_nat (length udata) = n) -> queued s + rounds n <= CHAN_SIZE ->
  exists s', block_rw d udata n a write s = Done (n, if write then [] else udata ++ bytes A d a n) s' /\
    cache_ok [] s' (if write then written d a udata A else A) /\ kept s s' /\ queued s' <= queued s + rounds n.
Proof.
  intros Hok Hr Ha Hn Hw Hq. unfold rounds in *. assert (Ea : 4096 * (a / 4096) + a mod 4096 = a) by (pose proof (Z.div_mod a 4096); lia).
  destruct (rw_loop write (S (S (Z.to_nat (n / 4096)))) s A (a / 4096) (a mod 4096) n udata Hok) as (s' & E & H1 & H2 & H3); rewrite ?Ea in *; auto; try (Z.div_mod_to_equations; lia).
  exists s'. unfold block_rw, PGSIZE. brun E. split; [reflexivity|]. split; [exact H1|]. split; [exact H2|]. Z.div_mod_to_equations. lia.
Qed.
End dev.

(** ** The flush task and the loops over the cache *)

Lemma flush_round_run s A : cache_ok [] s A -> queued s <= CHAN_SIZE -> exists s', flush_round s = Done tt s' /\ cache_ok [] s' A /\ kept s s' /\ queued s' = Z.max 0 (queued s - 1).
Proof.
  intros Hok Hq. unfold flush_round, queued in *. rewrite (bind_done (gets dirty_buffers) _ s (dirty_buffers s) s eq_refl). destruct (dirty_buffers s) as [|b q] eqn:Eq; [exists s; rewrite Eq; split; [reflexivity|split; [exact Hok|split; [now intros d p|reflexivity]]]|].
  set (s1 := Cache (bufs s) (cheap s) (buffer_cache s) (total_blocks_in_cache s) q (g_next_block_lru s) (devs s)).
  assert (Hok1 : cache_ok [b] s1 A) by (destruct Hok as [H1 H2 H3 H4 H5 H6 H7 H8 H9]; rewrite Eq in *; split; assumption).
  rewrite (bind_done (set_queue q) _ s tt s1 eq_refl). destruct (co_queue _ _ _ Hok1 b) as [u Hu]; [now left|].
  destruct (flush_run [b] s1 A b u Hok1 Hu) as (s2 & E2 & Hok2 & Hq2 & Hb2 & Hk2). brun E2.
  assert (Hu2 : bufs s2 !! b = Some (Buffer (bdev u) (m_index u) false (m_count u) (m_last_used u) (m_page u))) by (rewrite Hb2; apply lookup_insert_eq).
  destruct (bput_run [] s2 A b _ Hok2 Hu2) as (s3 & E3 & Hok3 & Hd3 & Hq3 & _); [rewrite Hq2; cbn [dirty_buffers s1]; cbn [length] in Hq; lia|].
  exists s3. split; [exact E3|]. split; [exact Hok3|]. split; [eapply kept_then; [exact Hk2|now apply kept_devs]|]. rewrite Hq3, Hq2. cbn [m_dirty s1 dirty_buffers length]. lia.
Qed.

(** Buffers visited one after the other. *)
Lemma for_each_run (Q : cache X -> Prop) l f : forall s, Q s -> (forall s b, Q s -> b ∈ l -> exists r s', f b s = Done r s' /\ Q s') -> exists r s', for_each l f s = Done r s' /\ Q s'.
Proof.
  induction l as [|b l IH]; intros s Hs Hf; cbn [for_each]; [exists 0, s; auto|]. destruct (Hf s b Hs) as (r & s1 & E1 & H1); [now left|]. brun E1.
  destruct (IH s1 H1) as (r2 & s2 & E2 & H2); [intros s' c Hs' Hc; apply Hf; [exact Hs'|now right]|]. brun E2. exists (r + r2), s2. auto.
Qed.

Lemma all_buffers_elem (s : cache X) b : b <> 0 -> b ∈ all_buffers s <-> exists k p, cached s k p = b.
Proof.
  intros Hb. unfold all_buffers. rewrite list_elem_of_bind. split.
  - intros ([k m] & Hm & Hk%elem_of_map_to_list). apply list_elem_of_fmap in Hm as ([p c] & -> & Hc%elem_of_map_to_list). exists k, p. unfold cached. rewrite Hk. cbn. cbn in Hc. now rewrite Hc.
  - intros (k & p & E). unfold cached in E. destruct (buffer_cache s !! k) as [m|] eqn:Em; [|cbn in E; rewrite lookup_empty in E; cbn in E; congruence]. cbn in E.
    destruct (m !! p) as [c|] eqn:Ec; [|cbn in E; congruence]. cbn in E. subst c. exists (k, m). split; [|now apply elem_of_map_to_list]. apply list_elem_of_fmap. exists (p, b). split; [reflexivity|]. now apply elem_of_map_to_list.
Qed.

(** What holds while the cache is walked. *)
Definition walking (s0 : cache X) (A : dev_t -> Z -> Z) (s : cache X) : Prop :=
  cache_ok [] s A /\ kept s0 s /\ queued s = queued s0 /\ forall c, is_Some (bufs s0 !! c) -> is_Some (bufs s !! c).

Lemma listed_buffer s A b : cache_ok [] s A -> b <> 0 -> b ∈ all_buffers s -> is_Some (bufs s !! b).
Proof. intros Hok Hb (k & p & E)%(all_buffers_elem s b Hb). destruct (co_cached _ _ _ Hok k p) as (u & Hu & _); [congruence|]. rewrite E in Hu. eauto. Qed.

Lemma walking_start s A : cache_ok [] s A -> walking s A s.
Proof. intros Hok. split; [exact Hok|]. split; [now intros d p|]. auto. Qed.

Lemma reclaim_memory_run s A : cache_ok [] s A -> exists r s', reclaim_memory s = Done r s' /\ walking s A s'.
Proof.
  intros Hok. unfold reclaim_memory. rewrite (bind_done (gets all_buffers) _ s _ s eq_refl). apply (for_each_run (walking s A)); [now apply walking_start|].
  intros s1 b (H1 & H2 & H3 & H4) Hb. destruct (Z.eqb_spec b 0) as [E|E]; cbn [negb]; [exists 0, s1; split; [reflexivity|now split]|].
  destruct (H4 b) as [u Hu]; [eapply listed_buffer; eauto|]. destruct (reclaim_run [] s1 A b u H1 Hu) as (r & s2 & E2 & Hok2 & Hq2 & Hd2 & Hb2). exists r, s2. split; [exact E2|].
  split; [exact Hok2|]. split; [eapply kept_then; [exact H2|now apply kept_devs]|]. split; [unfold queued in *; now rewrite Hq2|auto].
Qed.

(** After [sync_all] nothing is dirty. *)
Lemma sync_all_run s A : cache_ok [] s A -> exists s', sync_all s = Done tt s' /\ walking s A s' /\ forall b u, bufs s' !! b = Some u -> m_dirty u = false.
Proof.
  intros Hok. unfold sync_all. rewrite (bind_done (gets all_buffers) _ s _ s eq_refl). set (f := fun b : Z => (if negb (b =? 0) then u ← get_buf b; if m_dirty u then flush b else mret 0 else mret 0) : B X Z).
  assert (Hgen : forall l s1, (forall b, b ∈ l -> b ∈ all_buffers s) -> walking s A s1 -> (forall b u, bufs s1 !! b = Some u -> m_dirty u = true -> b ∈ l) ->
    exists r s', for_each l f s1 = Done r s' /\ walking s A s' /\ forall b u, bufs s' !! b = Some u -> m_dirty u = false).
  { induction l as [|b l IH]; intros s1 Hl Hw Hdirty; cbn [for_each].
    - exists 0, s1. split; [reflexivity|]. split; [exact Hw|]. intros b u Hu. destruct (m_dirty u) eqn:Ed; [|reflexivity]. now apply Hdirty, elem_of_nil in Hu.
    - assert (Hone : exists r s2, f b s1 = Done r s2 /\ walking s A s2 /\ forall c v, bufs s2 !! c = Some v -> m_dirty v = true -> c ∈ l).
      { destruct Hw as (H1 & H2 & H3 & H4). unfold f. destruct (Z.eqb_spec b 0) as [E|E]; cbn [negb].
        - exists 0, s1. split; [reflexivity|]. split; [now split|]. intros c v Hv Hd. specialize (Hdirty c v Hv Hd). apply elem_of_cons in Hdirty as [->|]; [|assumption]. destruct (co_place _ _ _ H1 b v Hv) as [P _]. lia.
        - destruct (H4 b) as [u Hu]; [eapply listed_buffer; eauto; apply Hl; now left|]. brun (get_buf_done s1 b u Hu). destruct (m_dirty u) eqn:Ed.
          + destruct (flush_run [] s1 A b u H1 Hu) as (s2 & E2 & Hok2 & Hq2 & Hb2 & Hk2). exists 0, s2. split; [exact E2|]. split.
            * split; [exact Hok2|]. split; [eapply kept_then; eauto|]. split; [unfold queued in *; now rewrite Hq2|]. intros c Hc. rewrite Hb2. apply lookup_insert_is_Some'. auto.
            * intros c v. rewrite Hb2, lookup_insert_Some. intros [[<- <-]|[Hne Hv]]; [discriminate|]. intros Hd. specialize (Hdirty c v Hv Hd). apply elem_of_cons in Hdirty as [->|]; [congruence|assumption].
          + exists 0, s1. split; [reflexivity|]. split; [now split|]. intros c v Hv Hd. specialize (Hdirty c v Hv Hd). apply elem_of_cons in Hdirty as [->|]; [congruence|assumption]. }
      destruct Hone as (r & s2 & E2 & Hw2 & Hd2). brun E2. destruct (IH s2) as (r3 & s3 & E3 & Hw3 & Hd3); [intros c Hc; apply Hl; now right|exact Hw2|exact Hd2|]. brun E3. exists (r + r3), s3. auto. }
  destruct (Hgen (all_buffers s) s) as (r & s' & E & Hw & Hd); [auto|now apply walking_start| |].
  - intros b u Hu _. destruct (co_place _ _ _ Hok b u Hu) as (P1 & P2 & _). apply all_buffers_elem; [lia|]. eauto.
  - brun E. exists s'. auto.
Qed.
End rw.

(** ** Sequences of calls *)

Inductive bop := Bread (d : dev_t) (size off : Z) | Bwrite (d : dev_t) (bs : list Z) (off : Z) | FlushRound | ReclaimMemory | SyncAll.

Section run.
Context {X : Type} {HX : BlockOps X} {BX : Blockdev X}.

(** What the caller gets: the result, and the bytes. *)
Definition b_exec (o : bop) : B X (Z * list Z) :=
  match o with
  | Bread d size off => bread d size off
  | Bwrite d bs off => n ← bwrite d bs off; mret (n, [])
  | FlushRound => flush_round;; mret (0, [])
  | ReclaimMemory => reclaim_memory;; mret (0, [])
  | SyncAll => sync_all;; mret (0, [])
  end.
Fixpoint b_run (os : list bop) : B X (list (Z * list Z)) :=
  match os with [] => mret [] | o :: os => r ← b_exec o; rs ← b_run os; mret (r :: rs) end.

(** The same on arrays of bytes. *)
Definition array_exec (o : bop) (A : dev_t -> Z -> Z) : (Z * list Z) * (dev_t -> Z -> Z) :=
  match o with
  | Bread d size off => ((size, bytes A d off size), A)
  | Bwrite d bs off => ((Z.of_nat (length bs), []), written d off bs A)
  | _ => ((0, []), A)
  end.
Fixpoint array_run (os : list bop) (A : dev_t -> Z -> Z) : list (Z * list Z) * (dev_t -> Z -> Z) :=
  match os with
  | [] => ([], A)
  | o :: os => let '(r, A) := array_exec o A in let '(rs, A) := array_run os A in (r :: rs, A)
  end.

Definition span (o : bop) : option (dev_t * Z * Z) :=
  match o with Bread d size off => Some (d, off, size) | Bwrite d bs off => Some (d, off, Z.of_nat (length bs)) | _ => None end.
(** The bytes lie in whole pages of a device. *)
Definition bop_ok (s : cache X) (o : bop) : Prop :=
  match span o with Some (d, a, n) => small_dev d /\ 0 <= a /\ 0 <= n < 2 ^ 31 /\ in_range d s a n | None => True end.
(** How often the call may put a buffer into the channel. *)
Definition cost (o : bop) : Z := match span o with Some (_, _, n) => rounds n | None => 0 end.
(** How many buffers may be in the channel after it, when [q] may be before: a
    round of the flush task takes one out. *)
Definition waiting (q : Z) (o : bop) : Z := match o with FlushRound => Z.max 0 (q - 1) | _ => q + cost o end.
(** At no time more buffers wait in the channel than it holds. *)
Fixpoint within (q : Z) (os : list bop) : Prop :=
  match os with [] => True | o :: os => q + cost o <= CHAN_SIZE /\ within (waiting q o) os end.

Definition start (D : gmap dev_t X) : cache X := Cache ∅ 16 ∅ 0 [] 0 D.
Definition contents (D : gmap dev_t X) : dev_t -> Z -> Z := fun d y => match D !! d with Some x => content x y | None => 0 end.

Lemma start_ok D : cache_ok [] (start D) (contents D).
Proof.
  split; cbn [start bufs dirty_buffers cheap]; try (intros *; rewrite ?lookup_empty; discriminate); try (cbn; lia).
  - intros k p H. exfalso. apply H. unfold cached, start. cbn [buffer_cache]. now rewrite lookup_empty.
  - intros d x y Hx _. unfold contents. cbn in Hx. now rewrite Hx.
  - intros b Hb. now apply elem_of_nil in Hb.
Qed.

Lemma b_exec_run s0 s A o : cache_ok [] s A -> kept s0 s -> bop_ok s0 o -> queued s + cost o <= CHAN_SIZE ->
  exists s', b_exec o s = Done (fst (array_exec o A)) s' /\ cache_ok [] s' (snd (array_exec o A)) /\ kept s s' /\ queued s' <= waiting (queued s) o.
Proof.
  intros Hok Hk Ho Hq. destruct o as [d size off|d bs off| | |]; cbn [b_exec array_exec fst snd]; unfold bop_ok, waiting, cost in *; cbn [span] in *.
  - destruct Ho as (H1 & H2 & H3 & H4). assert (Hr : in_range d s off size) by (intros p Hp; auto). destruct (block_rw_run d H1 s A false off size [] Hok Hr H2 ltac:(lia) ltac:(discriminate) Hq) as (s' & E & G1 & G2 & G3).
    exists s'. unfold bread. rewrite (bind_done _ _ _ _ _ E). rewrite s32_small by lia. auto.
  - destruct Ho as (H1 & H2 & H3 & H4). set (n := Z.of_nat (length bs)) in *. assert (Hr : in_range d s off n) by (intros p Hp; auto). destruct (block_rw_run d H1 s A true off n bs Hok Hr H2 ltac:(lia) ltac:(auto) Hq) as (s' & E & G1 & G2 & G3).
    exists s'. unfold bwrite. unfold mbind at 1, SM_bind at 1. fold n. rewrite (bind_done _ _ _ _ _ E). rewrite s32_small by lia. auto.
  - destruct (flush_round_run s A Hok ltac:(lia)) as (s' & E & G1 & G2 & G3). exists s'. rewrite (bind_done _ _ _ _ _ E). split; [reflexivity|]. split; [exact G1|]. split; [exact G2|lia].
  - destruct (reclaim_memory_run s A Hok) as (r & s' & E & G1 & G2 & G3 & _). exists s'. rewrite (bind_done _ _ _ _ _ E). split; [reflexivity|]. split; [exact G1|]. split; [exact G2|lia].
  - destruct (sync_all_run s A Hok) as (s' & E & (G1 & G2 & G3 & _) & _). exists s'. rewrite (bind_done _ _ _ _ _ E). split; [reflexivity|]. split; [exact G1|]. split; [exact G2|lia].
Qed.

Lemma waiting_mono q q' o : q <= q' -> waiting q o <= waiting q' o.
Proof. intros Hq. destruct o; cbn [waiting]; lia. Qed.

Lemma b_run_run os s0 : forall q s A, cache_ok [] s A -> kept s0 s -> Forall (bop_ok s0) os -> queued s <= q -> within q os ->
  exists s', b_run os s = Done (fst (array_run os A)) s' /\ cache_ok [] s' (snd (array_run os A)).
Proof.
  induction os as [|o os IH]; intros q s A Hok Hk Ho Hq Hw; cbn [b_run array_run within] in *; [exists s; auto|]. apply Forall_cons_iff in Ho as [Ho1 Ho]. destruct Hw as [Hw1 Hw].
  destruct (b_exec_run s0 s A o Hok Hk Ho1 ltac:(lia)) as (s1 & E1 & Hok1 & Hk1 & Hq1). rewrite (bind_done _ _ _ _ _ E1). destruct (array_exec o A) as [r A1]. cbn [fst snd] in *.
  pose proof (waiting_mono _ _ o Hq).
  destruct (IH (waiting q o) s1 A1 Hok1 ltac:(eapply kept_then; eauto) Ho ltac:(lia) Hw) as (s2 & E2 & Hok2). rewrite (bind_done _ _ _ _ _ E2). destruct (array_run os A1) as [rs A2]. exists s2. auto.
Qed.

(** C38: through the block cache a device is an array of bytes: in every sequence of reads,
    writes, rounds of the flush task, reclaims and syncs, of any length, each read returns
    the bytes that were written last, or else those of the device, no pages that hold
    unwritten bytes are dropped, and once [sync_all] has run every device holds the bytes
    of its array.  The devices are such that the transfer of a block they have succeeds
    ([Blockdev]; the cache does not look at the result of the drivers), the calls stay
    inside whole pages of a device, and at no time more than the 8191 buffers that the
    channel holds wait for the flush task ([within]). *)
Theorem block_cache_transparent D os : Forall (bop_ok (start D)) os -> within 0 os ->
  exists s s', b_run os (start D) = Done (fst (array_run os (contents D))) s /\ sync_all s = Done tt s' /\
    forall d x y, devs s' !! d = Some x -> content x y = snd (array_run os (contents D)) d y.
Proof.
  intros Ho Hc. destruct (b_run_run os (start D) 0 (start D) (contents D) (start_ok D)) as (s & E & Hok); [now intros d p|exact Ho|reflexivity|exact Hc|].
  destruct (sync_all_run s _ Hok) as (s' & E' & (Hok' & _) & Hclean). exists s, s'. split; [exact E|]. split; [exact E'|].
  intros d x y Hx. apply (co_disk _ _ _ Hok' d x y Hx). intros b u Hu _ _. now apply (Hclean b u).
Qed.
End run.

(** A read of a file moves its offset when the offset before was a multiple of the block
    size, and otherwise leaves it where it was. *)
Lemma blk_rw_offset {X} {HX : BlockOps X} {BX : Blockdev X} d s A a isize n : cache_ok [] s A -> small_dev d -> in_range d s a n -> 0 <= a -> 0 <= n -> a + n < 2 ^ 63 -> queued s + rounds n <= CHAN_SIZE ->
  exists s' x', blk_rw d a isize [] n false s = Done (n, bytes A d a n, if a mod block_size x' =? 0 then a + n else a) s' /\ devs s' !! d = Some x'.
Proof.
  intros Hok Hd Hr Ha Hn Hlt Hq. destruct (block_rw_run d Hd s A false a n [] Hok Hr Ha Hn ltac:(discriminate) Hq) as (s' & E & Hok' & Hk & _).
  destruct (Hk d (a / 4096)) as (x' & Hx' & _); [apply Hr; Z.div_mod_to_equations; lia|]. exists s', x'. split; [|exact Hx']. unfold blk_rw. rewrite (bind_done _ _ _ _ _ E), (bind_done _ _ _ _ _ (get_dev_done s' d x' Hx')).
  unfold seek, blk_seek. cbn [app]. change (SEEK_CUR =? SEEK_SET) with false. change (SEEK_CUR =? SEEK_CUR) with true. cbv iota. destruct (a mod block_size x' =? 0); cbn [negb Z.eqb snd]; [rewrite u64_small by lia|]; reflexivity.
Qed.

(** A device of 32 blocks. *)
Definition demo_devs : gmap dev_t ramdisk := {[(1, 0) := Ramdisk ∅ 32]}.
Definition demo_bops : list bop :=
  [Bwrite (1, 0) [7; 8; 9] 4094; Bread (1, 0) 5 4093; FlushRound; ReclaimMemory; Bread (1, 0) 5 4093; Bwrite (1, 0) [5] 4095; Bread (1, 0) 3 4094].

Lemma demo_inside p : 0 <= p <= 1 -> inside (start demo_devs) (1, 0) p.
Proof. intros Hp. exists (Ramdisk ∅ 32). split; [reflexivity|]. unfold fits. cbn. lia. Qed.

Lemma demo_range a n : 0 <= a -> 0 < n -> a + n <= 8192 -> in_range (1, 0) (start demo_devs) a n.
Proof. intros Ha Hn Hl p Hp. apply demo_inside. Z.div_mod_to_equations. lia. Qed.

(** A flush task that keeps up: writes may go on for ever. *)
Lemma drained_within n : within 0 (concat (replicate n [Bwrite (1, 0) [1] 0; FlushRound; FlushRound])).
Proof. induction n as [|n IH]; [exact I|]. cbn [replicate concat app within]. repeat split; try (vm_compute; discriminate). exact IH. Qed.

Lemma block_cache_transparent_witness :
  fst (array_run demo_bops (contents demo_devs)) = [(3, []); (5, [0; 7; 8; 9; 0]); (0, []); (0, []); (5, [0; 7; 8; 9; 0]); (1, []); (3, [7; 5; 9])] /\
  exists s s', b_run demo_bops (start demo_devs) = Done (fst (array_run demo_bops (contents demo_devs))) s /\ sync_all s = Done tt s' /\
    forall d x y, devs s' !! d = Some x -> content x y = snd (array_run demo_bops (contents demo_devs)) d y.
Proof.
  split; [vm_compute; reflexivity|]. apply block_cache_transparent; [|repeat split; vm_compute; discriminate].
  assert (Hs : small_dev (1, 0)) by (unfold small_dev; cbn; lia).
  repeat (apply Forall_cons_iff; split; [unfold bop_ok; cbn [span]; repeat match goal with |- _ /\ _ => split end; try apply demo_range; try (cbn; lia); exact Hs || exact I|]). constructor.
Defined.
